(* ===== verification/_CoqProject ===== *)
-Q . S2P
Prelude.v
GoStd.v
Netip.v
Float.v
Protocol.v
Frag.v
Http.v
Selector.v
Pacer.v
Brutal.v
PortUnion.v
Obfs.v
Gecko.v
Disco.v
DiscoWindow.v
DiscoConn.v
DiscoFacts.v
IP.v
Utf8.v
AclMatchers.v
Acl.v
AclEngine.v
UdpServer.v
UdpClient.v
Reconnect.v
Ring.v
PnQueue.v
WindowedFilter.v
Sampler.v
SamplerFacts.v
BbrState.v
Bbr.v
BbrFacts.v
Config.v
Congestion.v
ClientConn.v
CoreServer.v
Endpoints.v
TimeSource.v
Punch.v
Nat.v
Net.v
Stun.v
PunchEngine.v
PunchConn.v
Pump.v
Url.v
Base64.v
Ech.v
Settings.v
UdpHop.v
Rendezvous.v
ClientFile.v
PortMap.v
Effects.v
ClientSetup.v
RealmRuntime.v
QuicInitial.v
Sniff.v
LinkMon.v
TrafficLogger.v
