(* ===== verification/Prelude.v ===== *)
(** * Verification of the Chameleon proxy

    Chameleon carries TCP streams and UDP datagrams over QUIC between a client
    and a server (src/core), dressed up by obfuscation and steered by rules
    (src/extras), behind command line programs (src/app).  This library models
    the logic of that system, translated function by function from the Go
    sources, and proves what makes it correct.  Comments name the files.

    ** How the parts interact

    Both ends are configured (Config).  A client (ClientConn) authenticates over
    HTTP/3 headers (Http) to the server (CoreServer), which agrees with it on
    rates and congestion controllers (Congestion); it then opens streams framed
    by the wire protocol (Protocol), which the server copies to their targets,
    and exchanges UDP messages, fragmented when they do not fit a QUIC datagram
    (Frag).  Endpoints proves what the two ends do together.  The client keeps a
    session per UDP flow (UdpClient) under a connection that is made again when
    lost (Reconnect); the server keeps its own sessions, with their goroutines
    and permissions (UdpServer). What leaves the server goes to the outbound
    that the access control list chooses (AclMatchers, Acl, AclEngine), under
    the name that the sniffer may find in it (Sniff, QuicInitial), and is counted
    for its user (TrafficLogger).
    Sending is regulated by one of two congestion controllers, Brutal and
    BBR (Brutal; Ring, PnQueue, WindowedFilter, Sampler, BbrState, Bbr),
    through a token bucket (Pacer), and a policy moves the connection to
    another address when its path is dead (Selector). Datagrams may be
    obfuscated (Obfs) and fragmented once more to hide their sizes (Gecko).
    Above the obfuscator a control channel, disco, takes its own sealed
    packets out of the datagrams (Disco, DiscoWindow, DiscoConn). A client may
    hop over the server's ports, which are unions of ranges (PortUnion, UdpHop).

    The programs read their settings from files (Settings, ClientFile), and a
    client takes them from a share URI as well (Url); encrypted client hellos
    need keys and lists that both ends agree on (Ech, Base64).  ClientSetup makes
    core's configuration of them, step by step in a monad of failures and
    effects (Effects).

    Peers behind NATs meet through a rendezvous server (Rendezvous) and the
    addresses they announce and guess (Nat), which STUN servers tell them (Stun): an attempt sends punch packets (Punch)
    at a pace and to addresses that its plan bounds (PunchEngine), on a socket
    that it shares with QUIC through a demultiplexer (PunchConn) and, until QUIC
    reads, a pump (Pump).  The client goes this way once (ClientSetup), the server
    keeps its place with the rendezvous server (RealmRuntime), and either may
    have the gateway map a port (PortMap).  LinkMon tells when the network
    attachment of the host moves.  A host whose clock is off corrects it before it
    checks the timestamps of obfuscation (TimeSource).

    ** Files and sources

    - Prelude, GoStd, Netip, Float, IP, Utf8: Go's outcomes (a panic is a
      value), its machine integers with their wrap-around, bytes, maps, and what
      the program uses of strconv, strings, net, net/netip, unicode/utf8 and
      binary64 arithmetic.
    - Protocol: core/internal/protocol/proxy.go, padding.go.
    - Frag: core/internal/frag/frag.go.
    - Http: core/internal/protocol/http.go.
    - Selector: core/selector/selector.go, core/pathstats/pathstats.go.
    - Pacer: core/internal/congestion/common/pacer.go.
    - Brutal: core/internal/congestion/brutal/brutal.go.
    - Ring, PnQueue, WindowedFilter, Sampler with SamplerFacts, BbrState and Bbr
      with BbrFacts: core/internal/congestion/bbr (ringbuffer.go,
      packet_number_indexed_queue.go, windowed_filter.go, bandwidth_sampler.go
      and bandwidth.go, bbr_sender.go).
    - UdpServer: core/server/udp.go.  UdpClient: core/client/udp.go.
      Reconnect: core/client/reconnect.go.
    - Config: core/client/config.go, core/server/config.go, core/errors and the
      names of core/internal/congestion/utils.go; Congestion: the rest of it.
    - ClientConn: core/client/client.go, path.go.  CoreServer:
      core/server/server.go, copy.go.  Endpoints: no code of its own.
    - PortUnion: extras/utils/portunion.go.
    - Obfs: extras/obfs/salamander.go, salamander_v2.go, conn.go, stats.go and
      extras/crypto/kdf.go.  Gecko: extras/obfs/gecko.go, gecko_frame.go.
    - Disco: extras/realm/disco.go.  DiscoWindow, DiscoConn with DiscoFacts:
      extras/realm/disco_conn.go.
    - AclMatchers, Acl, AclEngine: extras/outbounds/acl/*.go and
      extras/outbounds/acl.go.
    - UdpHop: extras/transport/udphop/addr.go, conn.go.
    - Url: app/internal/url/url.go.  Base64: encoding/base64.  Ech:
      app/internal/utils/ech.go.  Settings: app/internal/utils/bpsconv.go and
      app/cmd/congestion.go, padding.go, errors.go, obfs_deprecation.go,
      realm_punch_mask.go, realm_punch_length.go, with the obfs sections of
      client.go and server.go, which are the same.  ClientFile, ClientSetup:
      app/cmd/client.go, with the check of app/internal/sockopts.
    - Rendezvous: extras/realm/addr.go, client.go.  RealmRuntime: the
      realmServerRuntime of app/cmd/server.go.  PortMap: extras/realm/portmap.go,
      app/cmd/realm_portmap.go.
    - QuicInitial: extras/sniff/internal/quic.  Sniff: extras/sniff/sniff.go.
      TrafficLogger: extras/trafficlogger/http.go.  LinkMon:
      app/internal/linkmon/linkmon.go, poll.go.  Effects: no code of its own.
    - TimeSource: extras/timesource, app/cmd/timesync.go.
    - Punch: extras/realm/punch.go.  Nat: nat.go, local.go and the families of
      stun.go.  Stun: stun.go, on Net (hosts and ports).  PunchEngine:
      punch_engine.go.  PunchConn: punch_conn.go, puncher.go and the transports
      of punch_engine.go.  Pump: the pump of punch_conn.go.

    A struct is a Record of the same fields, a method a Definition of the same
    name that takes the receiver last and returns the new one; a loop is a
    Fixpoint, given its turns where it is not structural.  What the code reads
    from the clock, the random source or the network is an argument.  Objects
    that goroutines share are in a heap of pointers, and a run is a sequence of
    labels, one for each step that the code takes without releasing its lock.

    ** What is proved

    - Both ends together: the handshake agrees on identity, rates and
      controllers; a proxied stream reaches its target and comes back in order;
      an error of a stream is taken for the end of the connection.
    - Round trips: UDP messages, TCP frames, authentication headers, Salamander,
      Gecko and disco packets, a reply through fragmentation and reassembly to
      the client; URLs and their queries, share URIs, realm addresses, ECH lists
      and keys in base64, the events of a rendezvous stream.
    - Settings: ends whose obfuscation agrees understand each other, punching is
      never in the clear, bandwidths are what the text says while they fit.
    - The way to a peer: a client of a realm asks nobody before its settings are
      accepted, closes what it opened when a step fails, and core refuses only
      numbers out of range; the server registers anew with growing pauses,
      publishes its addresses and takes every event in order.
    - Sniffing: a stream is neither failed nor robbed of a byte, a client's first
      packet is read, and no long header makes the reader panic.
    - Accounts and notifications: no traffic and no change of the network is lost
      or reported twice, however the operations interleave.
    - Hopping: no socket leaks, whatever the order of hops and calls, and above
      the connection hops are not seen.
    - Refinements: the defragmenter returns exactly the message of a group; the
      rule cache is invisible; the packet queue is a finite map; the BBR sender
      follows its state machine; the replay window decides as a set of numbers
      does; a disco packet reaches the session it was sent to, and only QUIC's
      reach QUIC.
    - Invariants over every interleaving of the sessions' goroutines (UDP
      sessions of both ends, the tables and the ticker of disco), with what is
      left when the loops have ended; over any traffic for the caps of Frag and
      Gecko and for the indexes of the punch demultiplexer; over any samples
      for the windowed filter.
    - Punching: where an attempt sends, how often and how long; whom it
      believes; that its packets reach it, look like the data before them, and
      that the pump hands the socket over in order; that STUN discovery gives
      the same on a bare socket and on a shared one.
    - Clock: bootstrap restores the time to within half a round trip.
    - Safety: nothing is served before authentication, what the outbound is
      asked, replays, switches of the path and the controller they leave, no
      leak of connections, no panic of the BBR sender.
    - Bounds of rates and windows of Pacer, Brutal and BBR, in 64-bit arithmetic.
    - Errors: inputs that make the code panic or accept more than it means to.

    ** Bounds and fuel

    Integers keep their width; hypotheses bound only what a QUIC connection
    bounds (packet numbers below 2^62, datagrams up to 65535 bytes, instants
    and durations in an int64).  Fuel is the length of the list or buffer a loop
    runs over: each loop pops, visits or writes an element in every turn, and
    [queue_loops_end], [Feed_all_bounded], [bbr_never_panics] and the totality
    that the other theorems state show that it is enough.

    ** Interfaces to code that is not here

    quic-go's constants, clock and varints ([QuicCongestion], [QuicBbr],
    [QuicVarint]) and its connection ([QuicConn]), HMAC (an argument), the
    cryptography of obfuscation and of disco ([Primitives], [DiscoCrypto]),
    Unicode tables, IDNA, regular expressions, the LRU cache ([Cache]), the
    order of a map's range ([MapRange]) and of sort.Slice ([SortNets]),
    files, PEM blocks, the resolver and JSON ([Files], [Pem], [Resolver],
    [Json]), the platform and the loader of certificates ([System]), the ciphers
    of QUIC's first packets ([InitialCrypto]), the orders of slices.Sort
    ([SortFrames], [SortDump]), and the value of an out-of-range float conversion ([FloatToInt],
    [FloatToUint]) are classes whose laws state documented behaviour, each
    with an instance that concrete runs use.

    ** Not modelled

    - Input and output around the parts above: TLS and QUIC settings, listeners
      and sockets, the byte counters and times of a stream's statistics,
      core/internal/pmtud and core/internal/utils.
    - extras/auth, correctnet, masq, and the outbounds' own connections and
      resolvers, which call libraries and the system around a few lines of their
      own; the parsers of HTTP and of client hellos; the systems' own watchers
      of their interfaces.
    - How the server's program fills its configuration and starts a realm, the
      local listeners, commands and logging of the programs (src/app), scripts
      and tests; generated protobuf and mock code. *)
From Stdlib Require Strings.Byte.
From Stdlib Require Export ZArith Lia.
From stdpp Require Export base strings sorting numbers gmap list.

#[global] Open Scope Z_scope.

(** ** Outcomes of Go code

    A Go function either returns or panics (index out of range, division by
    zero, an explicit [panic]).  A function that also returns an [error]
    returns a [result]. *)
Inductive outcome (A : Type) : Type :=
| Ret (a : A)
| Panic.
Arguments Ret {A} a.
Arguments Panic {A}.

Inductive result (E A : Type) : Type :=
| Err (e : E)
| Ok (a : A).
Arguments Err {E A} e.
Arguments Ok {E A} a.

#[export] Instance outcome_ret : MRet outcome := fun A a => Ret a.
#[export] Instance outcome_bind : MBind outcome :=
  fun A B f o => match o with Ret a => f a | Panic => Panic end.
#[export] Instance result_ret E : MRet (result E) := fun A a => Ok a.
#[export] Instance result_bind E : MBind (result E) :=
  fun A B f r => match r with Ok a => f a | Err e => Err e end.

(** A run that certainly returns. *)
Definition returns {A} (o : outcome A) : Prop := is_Some (match o with Ret a => Some a | Panic => None end).

Definition is_ok {E A} (r : result E A) : bool :=
  match r with Ok _ => true | Err _ => false end.

Lemma outcome_bind_Ret {A B} (a : A) (f : A → outcome B) : mbind f (Ret a) = f a.
Proof. done. Qed.

Lemma outcome_bind_inv {A B} (o : outcome A) (f : A → outcome B) b :
  mbind f o = Ret b → ∃ a, o = Ret a ∧ f a = Ret b.
Proof. destruct o; simpl; [eauto | done]. Qed.

Lemma result_bind_inv {E A B} (r : result E A) (f : A → result E B) b :
  mbind f r = Ok b → ∃ a, r = Ok a ∧ f a = Ok b.
Proof. destruct r; simpl; [done | eauto]. Qed.

(** Postconditions: of a run that returns, and of a run if it returns. *)
Definition ends_in {A} (o : outcome A) (P : A → Prop) : Prop := ∃ a, o = Ret a ∧ P a.
Definition if_ends {A} (o : outcome A) (P : A → Prop) : Prop := ∀ a, o = Ret a → P a.

Lemma ends_Ret {A} (a : A) (P : A → Prop) : P a → ends_in (Ret a) P.
Proof. by exists a. Qed.

Lemma ends_bind {A B} (o : outcome A) (f : A → outcome B) P Q :
  ends_in o P → (∀ a, P a → ends_in (f a) Q) → ends_in (mbind f o) Q.
Proof. intros (a & -> & Ha) Hf. by apply Hf. Qed.

Lemma ends_mono {A} (o : outcome A) (P Q : A → Prop) : ends_in o P → (∀ a, P a → Q a) → ends_in o Q.
Proof. intros (a & -> & Ha) HPQ. exists a. auto. Qed.

Lemma ends_returns {A} (o : outcome A) P : ends_in o P → returns o.
Proof. intros (a & -> & _). by eexists. Qed.

Lemma ends_and {A} (o : outcome A) (P Q : A → Prop) : ends_in o P → if_ends o Q → ends_in o (λ a, P a ∧ Q a).
Proof. intros (a & E & Ha) HQ. exists a. auto. Qed.

Lemma if_ends_Ret {A} (a : A) (P : A → Prop) : P a → if_ends (Ret a) P.
Proof. by intros ? ? [= <-]. Qed.

Lemma if_ends_Panic {A} (P : A → Prop) : if_ends Panic P.
Proof. by intros ? [=]. Qed.

Lemma if_ends_bind {A B} (o : outcome A) (f : A → outcome B) P Q :
  if_ends o P → (∀ a, P a → if_ends (f a) Q) → if_ends (mbind f o) Q.
Proof. intros Ho Hf b (a & E & Hb)%outcome_bind_inv. by eapply (Hf a (Ho a E)). Qed.

Lemma if_ends_mono {A} (o : outcome A) (P Q : A → Prop) : if_ends o P → (∀ a, P a → Q a) → if_ends o Q.
Proof. intros Ho HPQ a E. auto. Qed.

(** ** Machine integers

    Go's [uintN(x)] conversion and the wrap-around of its signed 64-bit
    arithmetic ([int], [int64], [time.Duration]). *)
Definition wrapU (bits z : Z) : Z := z mod 2 ^ bits.
Definition wrapS (bits z : Z) : Z := (z + 2 ^ (bits - 1)) mod 2 ^ bits - 2 ^ (bits - 1).
Abbreviation u8 := (wrapU 8).
Abbreviation u16 := (wrapU 16).
Abbreviation u32 := (wrapU 32).
Abbreviation u64 := (wrapU 64).
Abbreviation i64 := (wrapS 64).

Definition MaxInt64 : Z := 2 ^ 63 - 1.
Definition MinInt64 : Z := - 2 ^ 63.
Definition MaxUint64 : Z := 2 ^ 64 - 1.

Lemma wrapU_bound bits z : 0 <= bits → 0 <= wrapU bits z < 2 ^ bits.
Proof. intros. apply Z.mod_pos_bound. lia. Qed.

Lemma wrapU_small bits z : 0 <= z < 2 ^ bits → wrapU bits z = z.
Proof. intros. by apply Z.mod_small. Qed.

Lemma i64_small z : MinInt64 <= z <= MaxInt64 → i64 z = z.
Proof.
  unfold MinInt64, MaxInt64, wrapS. intros Hz.
  change (2 ^ (64 - 1)) with 9223372036854775808 in *.
  change (2 ^ 64) with 18446744073709551616.
  change (2 ^ 63) with 9223372036854775808 in *.
  rewrite Z.mod_small; lia.
Qed.

Lemma i64_bound z : MinInt64 <= i64 z <= MaxInt64.
Proof.
  unfold MinInt64, MaxInt64, wrapS.
  pose proof (Z.mod_pos_bound (z + 2 ^ (64 - 1)) (2 ^ 64) ltac:(lia)). lia.
Qed.

(** Go's integer division and remainder truncate toward zero. *)
Abbreviation quot := Z.quot.
Abbreviation rem := Z.rem.

(** A single bit as Go tests it. *)
Lemma land_single a d : 0 <= d → (Z.land a (Z.shiftl 1 d) =? 0) = negb (Z.testbit a d).
Proof.
  intros Hd. rewrite Z.shiftl_1_l. destruct (Z.testbit a d) eqn:E; cbn [negb].
  - apply Z.eqb_neq. intros H. assert (Z.testbit (Z.land a (2 ^ d)) d = true) as Hb
      by (by rewrite Z.land_spec, E, Z.pow2_bits_true).
    by rewrite H, Z.bits_0 in Hb.
  - apply Z.eqb_eq, Z.bits_inj'. intros i Hi. rewrite Z.land_spec, Z.bits_0.
    destruct (Z.eq_dec i d) as [->|]; [by rewrite E|]. rewrite Z.pow2_bits_false by done. apply andb_false_r.
Qed.

(** Durations, in nanoseconds. *)
Definition Nanosecond : Z := 1.
Definition Millisecond : Z := 1000000.
Definition Second : Z := 1000000000.

(** Instants ([time.Time]) are nanoseconds since a fixed origin; [t.Sub(u)]
    saturates at the ends of [time.Duration]. *)
Definition time_Sub (t u : Z) : Z := Z.max MinInt64 (Z.min MaxInt64 (t - u)).

Lemma time_Sub_small t u : MinInt64 <= t - u <= MaxInt64 → time_Sub t u = t - u.
Proof. unfold time_Sub. lia. Qed.

(** ** Bytes *)
Abbreviation byte := Byte.byte.
Abbreviation bytes := (list Byte.byte).

#[export] Instance byte_eq_dec : EqDecision byte := Byte.byte_eq_dec.

#[export] Instance byte_countable : Countable byte.
Proof. apply (inj_countable Byte.to_N Byte.of_N). intros b. apply Byte.of_to_N. Defined.

Definition Z_of_byte (b : byte) : Z := Z.of_N (Byte.to_N b).

(** The conversion [uint8(z)] (or [byte(z)]). *)
Definition byte_of_Z (z : Z) : byte :=
  default Byte.x00 (Byte.of_N (Z.to_N (u8 z))).

#[export] Instance byte_inhabited : Inhabited byte := populate Byte.x00.

Lemma Z_of_byte_bound b : 0 <= Z_of_byte b < 256.
Proof. unfold Z_of_byte. pose proof (Byte.to_N_bounded b). lia. Qed.

Lemma Z_of_byte_of_Z z : Z_of_byte (byte_of_Z z) = u8 z.
Proof.
  unfold Z_of_byte, byte_of_Z.
  pose proof (wrapU_bound 8 z ltac:(lia)) as Hb. change (2 ^ 8) with 256 in Hb.
  destruct (Byte.of_N (Z.to_N (u8 z))) as [b|] eqn:E; simpl.
  - apply Byte.to_of_N in E. rewrite E. lia.
  - apply Byte.of_N_None_iff in E. lia.
Qed.

Lemma byte_of_Z_of_byte b : byte_of_Z (Z_of_byte b) = b.
Proof.
  unfold byte_of_Z. rewrite wrapU_small by (pose proof (Z_of_byte_bound b); lia).
  unfold Z_of_byte. rewrite N2Z.id, Byte.of_to_N. done.
Qed.

#[export] Instance Z_of_byte_inj : Inj (=) (=) Z_of_byte.
Proof. intros a b H. by rewrite <-(byte_of_Z_of_byte a), H, byte_of_Z_of_byte. Qed.

Lemma byte_of_Z_small z : 0 <= z < 256 → Z_of_byte (byte_of_Z z) = z.
Proof. intros. rewrite Z_of_byte_of_Z. by apply wrapU_small. Qed.

(** The length of a slice or string, as the Go [int] that [len] returns. *)
Definition len {A} (l : list A) : Z := Z.of_nat (length l).

Lemma len_nonneg {A} (l : list A) : 0 <= len l.
Proof. unfold len. lia. Qed.

Lemma len_cons {A} (x : A) l : len (x :: l) = 1 + len l.
Proof. unfold len. cbn [length]. lia. Qed.

Lemma len_app {A} (l k : list A) : len (l ++ k) = len l + len k.
Proof. unfold len. rewrite length_app. lia. Qed.

(** Big-endian encodings, as [binary.BigEndian.PutUintN] writes and
    [binary.BigEndian.UintN] reads. *)
Fixpoint be_bytes (n : nat) (z : Z) : bytes :=
  match n with
  | O => []
  | S n => byte_of_Z (Z.shiftr z (8 * Z.of_nat n)) :: be_bytes n z
  end.

Fixpoint be_Z_acc (acc : Z) (l : bytes) : Z :=
  match l with
  | [] => acc
  | b :: l => be_Z_acc (acc * 256 + Z_of_byte b) l
  end.

Definition be_Z (l : bytes) : Z := be_Z_acc 0 l.

Lemma length_be_bytes n z : length (be_bytes n z) = n.
Proof. induction n as [|n IH]; simpl; congruence. Qed.

Lemma be_Z_acc_eq acc l : be_Z_acc acc l = acc * 256 ^ len l + be_Z l.
Proof.
  unfold be_Z, len. revert acc. induction l as [|b l IH]; intros acc; simpl; [lia|].
  rewrite (IH (acc * 256 + _)), (IH (Z_of_byte b)) || rewrite (IH (acc * 256 + _)), (IH (0 * 256 + _)).
  replace (Z.of_nat (S (length l))) with (Z.succ (Z.of_nat (length l))) by lia.
  rewrite Z.pow_succ_r by lia. lia.
Qed.

Lemma be_Z_cons b l : be_Z (b :: l) = Z_of_byte b * 256 ^ len l + be_Z l.
Proof. unfold be_Z at 1. simpl. by rewrite be_Z_acc_eq. Qed.

Lemma be_Z_bound l : 0 <= be_Z l < 256 ^ len l.
Proof.
  induction l as [|b l IH]; [unfold be_Z, len; simpl; lia|].
  rewrite be_Z_cons. pose proof (Z_of_byte_bound b).
  unfold len in *. simpl length. rewrite Nat2Z.inj_succ, Z.pow_succ_r by lia. nia.
Qed.

Lemma be_Z_be_bytes n z : be_Z (be_bytes n z) = z mod 256 ^ Z.of_nat n.
Proof.
  induction n as [|n IH]; [by rewrite Z.mod_1_r|].
  simpl be_bytes. rewrite be_Z_cons, IH, Z_of_byte_of_Z.
  unfold len. rewrite length_be_bytes, Nat2Z.inj_succ, Z.pow_succ_r by lia.
  rewrite (Z.mul_comm 256), Z.rem_mul_r by lia.
  unfold wrapU. rewrite Z.shiftr_div_pow2, Z.pow_mul_r by lia.
  change (2 ^ 8) with 256. lia.
Qed.

Lemma be_Z_be_bytes_small n z : 0 <= z < 256 ^ Z.of_nat n → be_Z (be_bytes n z) = z.
Proof. intros. rewrite be_Z_be_bytes. by apply Z.mod_small. Qed.

Lemma be_Z_inj l k : length l = length k → be_Z l = be_Z k → l = k.
Proof.
  revert k. induction l as [|b l IH]; intros [|c k] Hlen; try done.
  simpl in Hlen. rewrite !be_Z_cons. intros H.
  assert (len l = len k) as Hl by (unfold len; lia).
  pose proof (be_Z_bound l). pose proof (be_Z_bound k). rewrite Hl in *.
  assert (Z_of_byte b = Z_of_byte c) as Hbc by nia.
  rewrite (inj Z_of_byte _ _ Hbc) in *. f_equal. apply IH; lia.
Qed.

Lemma be_bytes_be_Z l : be_bytes (length l) (be_Z l) = l.
Proof.
  apply be_Z_inj; [apply length_be_bytes|].
  apply be_Z_be_bytes_small, be_Z_bound.
Qed.

#[global] Arguments be_bytes : simpl never.

(** Exclusive or, byte by byte. *)
Definition xor_byte (a b : byte) : byte := byte_of_Z (Z.lxor (Z_of_byte a) (Z_of_byte b)).

Lemma xor_byte_involutive a k : xor_byte (xor_byte a k) k = a.
Proof.
  unfold xor_byte. rewrite Z_of_byte_of_Z.
  assert (0 <= Z.lxor (Z_of_byte a) (Z_of_byte k) < 2 ^ 8) as Hb.
  { pose proof (Z_of_byte_bound a). pose proof (Z_of_byte_bound k).
    split; [apply Z.lxor_nonneg; lia|].
    destruct (decide (Z.lxor (Z_of_byte a) (Z_of_byte k) = 0)) as [->|Hne]; [done|].
    apply Z.log2_lt_pow2; [pose proof (proj2 (Z.lxor_nonneg (Z_of_byte a) (Z_of_byte k))); lia|].
    assert (∀ x, 0 <= x < 256 → Z.log2 x < 8) as Hlog.
    { intros x Hx. destruct (decide (x = 0)) as [->|]; [done|]. apply Z.log2_lt_pow2; lia. }
    eapply Z.le_lt_trans; [apply Z.log2_lxor; lia|].
    apply Z.max_lub_lt; apply Hlog; lia. }
  rewrite wrapU_small by done.
  rewrite Z.lxor_assoc, Z.lxor_nilpotent, Z.lxor_0_r. apply byte_of_Z_of_byte.
Qed.

Lemma zip_xor_involutive (a k : bytes) : (length a <= length k)%nat → zip_with xor_byte (zip_with xor_byte a k) k = a.
Proof.
  revert k. induction a as [|x a IH]; intros [|y k]; cbn; try (done || lia). intros. f_equal; [apply xor_byte_involutive | apply IH; lia].
Qed.

(** ** Writing into a fixed-size buffer

    [buf_put buf off data] is a sequence of index assignments
    [buf[off] = ..., buf[off+1] = ...]: it panics when the last index is out
    of range.  [buf_copy] is the builtin [copy(buf[off:], data)], which stops
    at the end of the buffer, and panics only when the slice expression
    [buf[off:]] does. *)
Definition buf_put (buf : bytes) (off : nat) (data : bytes) : outcome bytes :=
  if decide (off + length data <= length buf)%nat
  then Ret (take off buf ++ data ++ drop (off + length data) buf)
  else Panic.

Definition buf_copy (buf : bytes) (off : nat) (data : bytes) : outcome (bytes * nat) :=
  if decide (off <= length buf)%nat
  then let n := Nat.min (length data) (length buf - off) in
       Ret (take off buf ++ take n data ++ drop (off + n) buf, n)
  else Panic.

(** A buffer of which a prefix [done] has been written and [n] bytes are left. *)
Definition filled (written : bytes) (n : nat) (buf : bytes) : Prop :=
  ∃ rest, buf = written ++ rest ∧ length rest = n.

Lemma filled_start buf : filled [] (length buf) buf.
Proof. by exists buf. Qed.

Lemma filled_put written n buf data :
  filled written (length data + n) buf →
  ∃ buf', buf_put buf (length written) data = Ret buf' ∧ filled (written ++ data) n buf'.
Proof.
  intros (rest & -> & Hr). unfold buf_put.
  rewrite decide_True by (rewrite length_app; lia).
  eexists; split; [done|]. exists (drop (length data) rest).
  rewrite take_app_length, drop_app_add, length_drop. split; [by rewrite app_assoc | lia].
Qed.

Lemma filled_copy written n buf data :
  filled written (length data + n) buf →
  ∃ buf', buf_copy buf (length written) data = Ret (buf', length data)
          ∧ filled (written ++ data) n buf'.
Proof.
  intros (rest & -> & Hr). unfold buf_copy.
  rewrite decide_True by (rewrite length_app; lia).
  rewrite length_app, Nat.min_l by lia.
  eexists; split; [done|]. exists (drop (length data) rest).
  rewrite take_app_length, drop_app_add, length_drop, (take_ge data) by lia.
  split; [by rewrite app_assoc | lia].
Qed.

Lemma filled_full written buf : filled written 0 buf → buf = written.
Proof. intros (rest & -> & Hr). destruct rest; [by rewrite app_nil_r | done]. Qed.

(** ** Iteration over a Go map

    [range m] visits every entry once, in an order the language leaves
    unspecified.  Code that ranges over a map is modelled for any such order:
    the order is the operation of this class, and what the language promises
    is its law. *)
Class MapRange (K V : Type) `{Countable K} := {
  map_range : gmap K V → list (K * V);
  map_range_perm m : map_range m ≡ₚ map_to_list m;
}.

(** One possible order, for concrete runs.  It is not an instance, so that a
    definition never picks it silently. *)
Definition canonical_range (K V : Type) `{Countable K} : MapRange K V :=
  {| map_range m := map_to_list m; map_range_perm m := reflexivity _ |}.

Lemma elem_of_map_range `{MapRange K V} (m : gmap K V) k v :
  (k, v) ∈ map_range m ↔ m !! k = Some v.
Proof. rewrite map_range_perm. apply elem_of_map_to_list. Qed.

Lemma map_range_nil `{MapRange K V} (m : gmap K V) : map_range m = [] ↔ m = ∅.
Proof.
  rewrite <-(map_to_list_empty_iff m). split; intros Hm.
  - apply Permutation_nil. by rewrite <-Hm, map_range_perm.
  - apply Permutation_nil. by rewrite map_range_perm, Hm.
Qed.

(** The loop [for k, v := range m { if p(k, v) { delete(m, k) } }]: deleting the
    entry being visited is allowed during a range. *)
Definition range_delete `{MapRange K V} (p : K → V → bool) (m : gmap K V) : gmap K V :=
  foldl (λ m' '(k, v), if p k v then delete k m' else m') m (map_range m).

(** The loop that keeps the first entry found with the smallest [f]:
    [if !found || f(v) < best { best = f(v) }]. *)
Definition range_min {K V} (f : V → Z) (l : list (K * V)) : option (K * Z) :=
  foldl (λ best '(k, v),
           match best with
           | Some (_, t) => if f v <? t then Some (k, f v) else best
           | None => Some (k, f v)
           end) None l.

Lemma range_delete_lookup `{MapRange K V} p (m : gmap K V) k :
  range_delete p m !! k =
  match m !! k with Some v => if p k v then None else Some v | None => None end.
Proof.
  unfold range_delete.
  set (Q := λ '(k', v), k' = k ∧ p k' v = true).
  assert (∀ l (m0 : gmap K V),
    foldl (λ m' '(k, v), if p k v then delete k m' else m') m0 l !! k =
    if decide (Exists Q l) then None else m0 !! k) as Hfold.
  { induction l as [|[k' v] l IH]; intros m0; cbn [foldl].
    - rewrite decide_False; [done|]. by intros ?%Exists_nil.
    - rewrite IH. destruct (decide (Exists Q l)) as [Hl|Hl].
      + rewrite decide_True; [done|]. by apply Exists_cons_tl.
      + destruct (decide (k' = k ∧ p k' v = true)) as [[-> Hp]|Hp].
        * rewrite Hp, lookup_delete_eq, decide_True; [done|]. by apply Exists_cons_hd.
        * rewrite (decide_False (P := Exists Q _)) by (by intros [?|?]%Exists_cons).
          destruct (p k' v); [|done]. rewrite lookup_delete_ne; [done|]. naive_solver. }
  rewrite Hfold. case_decide as Hex.
  - apply list.Exists_exists in Hex as ([k' v] & Hin & -> & Hp).
    apply elem_of_map_range in Hin. by rewrite Hin, Hp.
  - destruct (m !! k) as [v|] eqn:Hk; [|done]. destruct (p k v) eqn:Hp; [|done].
    exfalso. apply Hex, list.Exists_exists. exists (k, v). by rewrite elem_of_map_range.
Qed.

Lemma range_delete_None `{MapRange K V} p (m : gmap K V) k :
  m !! k = None → range_delete p m !! k = None.
Proof. intros Hk. by rewrite range_delete_lookup, Hk. Qed.

Lemma range_delete_Some `{MapRange K V} p (m : gmap K V) k v :
  range_delete p m !! k = Some v ↔ m !! k = Some v ∧ p k v = false.
Proof.
  rewrite range_delete_lookup. destruct (m !! k) as [v'|].
  - destruct (p k v') eqn:Hp; split; [done | intros [[= ->] ?]; congruence
      | by intros [= ->] | by intros [[= ->] _]].
  - split; [done | by intros [? _]].
Qed.

Lemma range_delete_subseteq `{MapRange K V} p (m : gmap K V) : range_delete p m ⊆ m.
Proof. apply map_subseteq_spec. intros k v Hv. by apply range_delete_Some in Hv as [? _]. Qed.

Lemma range_min_spec {K V} (f : V → Z) (l : list (K * V)) :
  match range_min f l with
  | None => l = []
  | Some (k, t) => ∃ v, (k, v) ∈ l ∧ f v = t ∧ ∀ k' v', (k', v') ∈ l → t <= f v'
  end.
Proof.
  unfold range_min. induction l as [|[k v] l IH] using rev_ind; [done|].
  rewrite foldl_snoc. destruct (foldl _ _ l) as [[k0 t]|].
  - destruct IH as (v0 & Hin & <- & Hmin).
    destruct (Z.ltb_spec (f v) (f v0)).
    + exists v. split; [apply elem_of_app; right; by left|]. split; [done|].
      intros k' v' [Hl|Hl%list_elem_of_singleton]%elem_of_app.
      * specialize (Hmin _ _ Hl). lia.
      * injection Hl as -> ->. lia.
    + exists v0. split; [apply elem_of_app; by left|]. split; [done|].
      intros k' v' [Hl|Hl%list_elem_of_singleton]%elem_of_app; [by eapply Hmin|].
      injection Hl as -> ->. lia.
  - subst l. exists v. split; [by left|]. split; [done|].
    intros k' v' Hl%list_elem_of_singleton. injection Hl as -> ->. lia.
Qed.

Lemma range_min_map `{MapRange K V} (f : V → Z) (m : gmap K V) :
  match range_min f (map_range m) with
  | None => m = ∅
  | Some (k, t) => ∃ v, m !! k = Some v ∧ f v = t ∧ ∀ k' v', m !! k' = Some v' → t <= f v'
  end.
Proof.
  pose proof (range_min_spec f (map_range m)) as Hs.
  destruct (range_min f (map_range m)) as [[k t]|]; [|by apply map_range_nil].
  destruct Hs as (v & Hin & Ht & Hmin). exists v.
  rewrite elem_of_map_range in Hin. split; [done|]. split; [done|].
  intros k' v' Hk'. apply (Hmin k' v'). by apply elem_of_map_range.
Qed.

(** ** Traces

    A component driven by a sequence of inputs: the final state and the
    outputs, in order. *)
Section Trace.
Context {St In Out : Type} (step : St → In → St * Out).

Fixpoint run (s : St) (ins : list In) : St * list Out :=
  match ins with
  | [] => (s, [])
  | i :: ins => let '(s', o) := step s i in
               let '(s'', os) := run s' ins in (s'', o :: os)
  end.

Lemma run_app s ins1 ins2 :
  run s (ins1 ++ ins2) =
  let '(s', os1) := run s ins1 in
  let '(s'', os2) := run s' ins2 in (s'', os1 ++ os2).
Proof.
  revert s. induction ins1 as [|i ins1 IH]; intros s; simpl.
  - by destruct (run s ins2).
  - destruct (step s i) as [s1 o]. rewrite IH.
    destruct (run s1 ins1) as [s2 os1]. by destruct (run s2 ins2).
Qed.

Lemma run_invariant (P : St → Prop) s ins :
  P s → (∀ s i, P s → P (step s i).1) → P (run s ins).1.
Proof.
  intros Hs Hstep. revert s Hs. induction ins as [|i ins IH]; intros s Hs; simpl; [done|].
  specialize (Hstep s i Hs). destruct (step s i) as [s' o].
  specialize (IH s' Hstep). by destruct (run s' ins).
Qed.

Lemma length_run s ins : length (run s ins).2 = length ins.
Proof.
  revert s. induction ins as [|i ins IH]; intros s; simpl; [done|].
  destruct (step s i) as [s' o]. specialize (IH s'). destruct (run s' ins). simpl in *. lia.
Qed.
End Trace.

(** ** Lists *)
Lemma sum_list_with_app {A} (f : A → nat) l k :
  sum_list_with f (l ++ k) = (sum_list_with f l + sum_list_with f k)%nat.
Proof. induction l; simpl; lia. Qed.

Lemma lookup_replicate_None_or {A} n (x : A) i y : replicate n x !! i = Some y → y = x.
Proof. intros [? _]%lookup_replicate. done. Qed.

(** Integer sums over lists. *)
Definition sumZ {A} (f : A → Z) (l : list A) : Z := foldr (λ x acc, f x + acc) 0 l.

Lemma sumZ_cons {A} (f : A → Z) x l : sumZ f (x :: l) = f x + sumZ f l.
Proof. done. Qed.

Lemma sumZ_insert {A} (f : A → Z) l i x y :
  l !! i = Some x → sumZ f (<[i:=y]> l) = sumZ f l - f x + f y.
Proof.
  revert i. induction l as [|z l IH]; intros [|i] Hi; try done; simpl in Hi.
  - injection Hi as ->. change (<[O:=y]> (x :: l)) with (y :: l). rewrite !sumZ_cons. lia.
  - change (<[S i:=y]> (z :: l)) with (z :: <[i:=y]> l). rewrite !sumZ_cons, (IH i Hi). lia.
Qed.

Lemma sumZ_nonneg {A} (f : A → Z) l : Forall (λ x, 0 <= f x) l → 0 <= sumZ f l.
Proof. induction 1; [done|]. rewrite sumZ_cons. lia. Qed.

Lemma sumZ_plus {A} (f g : A → Z) l : sumZ (λ x, f x + g x) l = sumZ f l + sumZ g l.
Proof. induction l; [done|]. rewrite !sumZ_cons. lia. Qed.

Lemma sumZ_lookup_le {A} (f : A → Z) l i x :
  Forall (λ x, 0 <= f x) l → l !! i = Some x → 0 <= f x <= sumZ f l.
Proof.
  intros Hl. revert i. induction Hl as [|z l Hz Hl IH]; intros [|i] Hi; try done; simpl in Hi.
  - injection Hi as ->. rewrite sumZ_cons. pose proof (sumZ_nonneg f l Hl). lia.
  - rewrite sumZ_cons. specialize (IH i Hi). lia.
Qed.

(** ** Automation *)
Create HintDb go discriminated.
Create Rewrite HintDb go_rw.
#[export] Hint Resolve Z_of_byte_bound len_nonneg i64_bound : go.
#[export] Hint Rewrite @len_app length_be_bytes Z_of_byte_of_Z : go_rw.

(** Case analysis on every boolean comparison in sight, then arithmetic. *)
Ltac bool_to_Z :=
  repeat match goal with
  | H : (_ <? _) = true |- _ => apply Z.ltb_lt in H
  | H : (_ <? _) = false |- _ => apply Z.ltb_ge in H
  | H : (_ <=? _) = true |- _ => apply Z.leb_le in H
  | H : (_ <=? _) = false |- _ => apply Z.leb_gt in H
  | H : (_ =? _) = true |- _ => apply Z.eqb_eq in H
  | H : (_ =? _) = false |- _ => apply Z.eqb_neq in H
  | H : _ && _ = true |- _ => apply andb_true_iff in H as [? ?]
  | H : _ || _ = false |- _ => apply orb_false_iff in H as [? ?]
  end.

Ltac case_if :=
  match goal with
  | |- context [if ?b then _ else _] => destruct b eqn:?
  | H : context [if ?b then _ else _] |- _ => destruct b eqn:?
  end; bool_to_Z.

(** [inv_binds]: take apart every hypothesis saying that a bind returned. *)
Ltac inv_binds :=
  repeat match goal with
  | H : mbind _ _ = Ret _ |- _ => apply outcome_bind_inv in H as (? & ? & ?)
  | H : mbind _ _ = Ok _ |- _ => apply result_bind_inv in H as (? & ? & ?)
  end.
