(* ===== verification/GoStd.v ===== *)
(** * What the program uses of Go's standard library

    [strconv] (base-10 integers and booleans), [strings] and [net/netip], as
    the Go documentation and sources define them, on the operations the
    modelled code calls.  Byte strings are Rocq strings; a character is a byte. *)
From Stdlib Require Export Ascii String.
From Stdlib Require Import OrdersEx.
From S2P Require Import Prelude.

(** ** Characters *)
Definition code (c : ascii) : Z := Z.of_N (N_of_ascii c).
Definition is_digit (c : ascii) : bool := (48 <=? code c) && (code c <=? 57).
Definition digit_char (d : Z) : ascii := ascii_of_N (Z.to_N (48 + d)).

Lemma code_digit_char d : 0 <= d < 10 → code (digit_char d) = 48 + d.
Proof. intros. unfold code, digit_char. rewrite N_ascii_embedding; lia. Qed.

(** ** strings *)
Module Strings.

(** [strings.IndexByte]. *)
Fixpoint IndexByte (s : string) (c : ascii) : Z :=
  match s with
  | EmptyString => -1
  | String d s => if decide (d = c) then 0
                  else let i := IndexByte s c in if i <? 0 then -1 else i + 1
  end.

(** [strings.Split(s, string(c))]. *)
Fixpoint Split (s : string) (c : ascii) : list string :=
  match s with
  | EmptyString => [EmptyString]
  | String d s =>
      if decide (d = c) then EmptyString :: Split s c
      else match Split s c with
           | x :: xs => String d x :: xs
           | [] => [String d EmptyString]
           end
  end.

(** [strings.SplitN(s, string(c), 2)]: the text before the first [c] and the
    text after it, or [s] alone. *)
Fixpoint SplitN2 (s : string) (c : ascii) : list string :=
  match s with
  | EmptyString => [EmptyString]
  | String d s =>
      if decide (d = c) then [EmptyString; s]
      else match SplitN2 s c with
           | x :: xs => String d x :: xs
           | [] => [String d EmptyString]
           end
  end.

(** [strings.HasPrefix(s, p)] and [strings.TrimPrefix]. *)
Fixpoint HasPrefix (s p : string) : bool :=
  match p, s with
  | EmptyString, _ => true
  | String c p, String d s => bool_decide (c = d) && HasPrefix s p
  | String _ _, EmptyString => false
  end.

(** [s[i:]] and [s[:i]] for [0 <= i <= len(s)]. *)
Fixpoint skip (i : nat) (s : string) : string :=
  match i, s with
  | O, _ => s
  | S i, String _ s => skip i s
  | S _, EmptyString => EmptyString
  end.

Fixpoint first (i : nat) (s : string) : string :=
  match i, s with
  | S i, String c s => String c (first i s)
  | _, _ => EmptyString
  end.

Definition HasSuffix (s p : string) : bool :=
  (String.length p <=? String.length s)%nat &&
  bool_decide (skip (String.length s - String.length p) s = p).

Fixpoint Contains (s sub : string) : bool :=
  HasPrefix s sub || match s with EmptyString => false | String _ s => Contains s sub end.

Definition ContainsRune (s : string) (c : ascii) : bool := 0 <=? IndexByte s c.

(** [strings.Cut] at a character. *)
Fixpoint Cut (s : string) (c : ascii) : string * string * bool :=
  match s with
  | EmptyString => (EmptyString, EmptyString, false)
  | String d s => if decide (d = c) then (EmptyString, s, true)
                  else let '(a, b, found) := Cut s c in (String d a, b, found)
  end.

Fixpoint Count (s : string) (c : ascii) : Z :=
  match s with EmptyString => 0 | String d s => (if decide (d = c) then 1 else 0) + Count s c end.

Lemma append_nil_r (s : string) : (s ++ "")%string = s.
Proof. induction s as [|c s IH]; [done|]. change (String c s ++ "")%string with (String c (s ++ "")). by rewrite IH. Qed.

Lemma append_assoc (s t u : string) : ((s ++ t) ++ u)%string = (s ++ (t ++ u))%string.
Proof.
  induction s as [|c s IH]; [done|].
  change (String c ((s ++ t) ++ u) = String c (s ++ (t ++ u))). by rewrite IH.
Qed.

(** [c] does not occur in [s]. *)
Definition free_of (c : ascii) (s : string) : Prop := c ∉ list_ascii_of_string s.

Lemma free_of_nil c : free_of c EmptyString.
Proof. apply not_elem_of_nil. Qed.

Lemma free_of_cons c d s : free_of c (String d s) ↔ d ≠ c ∧ free_of c s.
Proof. unfold free_of. cbn. rewrite not_elem_of_cons. naive_solver. Qed.

Lemma free_of_app c s t : free_of c (s ++ t) ↔ free_of c s ∧ free_of c t.
Proof.
  induction s as [|d s IH]; [by split; [split; [apply free_of_nil|]|intros [_ ?]]|].
  cbn. change (String d s ++ t)%string with (String d (s ++ t)). rewrite !free_of_cons, IH. tauto.
Qed.

Lemma Split_free c s : free_of c s → Split s c = [s].
Proof.
  induction s as [|d s IH]; [done|]. intros [Hd Hs]%free_of_cons. cbn [Split].
  destruct (decide (d = c)); [done|]. by rewrite (IH Hs).
Qed.

Lemma Split_app c s t : free_of c s → Split (s ++ String c t) c = s :: Split t c.
Proof.
  induction s as [|d s IH]; intros Hs.
  - change (EmptyString ++ String c t)%string with (String c t). cbn [Split]. by destruct (decide (c = c)).
  - apply free_of_cons in Hs as [Hd Hs]. change (String d s ++ String c t)%string with (String d (s ++ String c t)).
    cbn [Split]. destruct (decide (d = c)); [done|]. by rewrite (IH Hs).
Qed.

Lemma SplitN2_free c s : free_of c s → SplitN2 s c = [s].
Proof.
  induction s as [|d s IH]; [done|]. intros [Hd Hs]%free_of_cons. cbn [SplitN2].
  destruct (decide (d = c)); [done|]. by rewrite (IH Hs).
Qed.

Lemma SplitN2_app c s t : free_of c s → SplitN2 (s ++ String c t) c = [s; t].
Proof.
  induction s as [|d s IH]; intros Hs.
  - change (EmptyString ++ String c t)%string with (String c t). cbn [SplitN2]. by destruct (decide (c = c)).
  - apply free_of_cons in Hs as [Hd Hs]. change (String d s ++ String c t)%string with (String d (s ++ String c t)).
    cbn [SplitN2]. destruct (decide (d = c)); [done|]. by rewrite (IH Hs).
Qed.

Lemma chars_app s t :
  list_ascii_of_string (s ++ t) = list_ascii_of_string s ++ list_ascii_of_string t.
Proof.
  induction s as [|c s IH]; [done|]. change (String c s ++ t)%string with (String c (s ++ t)).
  cbn [list_ascii_of_string app]. by rewrite IH.
Qed.

Lemma chars_inj s t : list_ascii_of_string s = list_ascii_of_string t → s = t.
Proof. intros E. by rewrite <-(string_of_list_ascii_of_string s), E, string_of_list_ascii_of_string. Qed.

(** The text before the last [c] and the text after it. *)
Lemma append_sep_inj c s1 t1 s2 t2 :
  free_of c t1 → free_of c t2 → (s1 ++ String c t1 = s2 ++ String c t2)%string → s1 = s2 ∧ t1 = t2.
Proof.
  unfold free_of. intros H1 H2 E. apply (f_equal list_ascii_of_string) in E. rewrite !chars_app in E.
  cbn [list_ascii_of_string] in E. cut (list_ascii_of_string s1 = list_ascii_of_string s2
    ∧ list_ascii_of_string t1 = list_ascii_of_string t2); [intros [?%chars_inj ?%chars_inj]; done|].
  revert E H1 H2. generalize (list_ascii_of_string s1), (list_ascii_of_string s2),
    (list_ascii_of_string t1), (list_ascii_of_string t2). clear.
  induction l as [|x l IH]; intros [|y k] a b E Ha Hb; cbn [app] in E.
  - by injection E as ->.
  - injection E as -> E. exfalso. apply Ha. rewrite E. apply elem_of_app. right. by left.
  - injection E as <- E. exfalso. apply Hb. rewrite <-E. apply elem_of_app. right. by left.
  - injection E as -> E. by destruct (IH _ _ _ E Ha Hb) as [-> ->].
Qed.

End Strings.

(** ** strconv *)
Module Strconv.

Definition cutoff : Z := MaxUint64 / 10 + 1.

(** [strconv.ParseUint(s, 10, bitSize)]: the value and whether there was an
    error; on a value out of range the value is the largest of its width. *)
Fixpoint ParseUint_loop (s : string) (maxVal n : Z) : Z * bool :=
  match s with
  | EmptyString => (n, false)
  | String c s =>
      if negb (is_digit c) then (0, true)
      else if cutoff <=? n then (maxVal, true)
      else let n := n * 10 in
           let n1 := u64 (n + (code c - 48)) in
           if (n1 <? n) || (maxVal <? n1) then (maxVal, true)
           else ParseUint_loop s maxVal n1
  end.

Definition ParseUint (s : string) (bitSize : Z) : Z * bool :=
  if decide (s = EmptyString) then (0, true)
  else ParseUint_loop s (2 ^ bitSize - 1) 0.

(** [strconv.FormatUint(n, 10)]: a 64-bit number has at most 20 digits. *)
Fixpoint FormatUint_loop (fuel : nat) (n : Z) (acc : string) : string :=
  match fuel with
  | O => acc
  | S fuel =>
      let acc := String (digit_char (n mod 10)) acc in
      if n <? 10 then acc else FormatUint_loop fuel (n / 10) acc
  end.

Definition FormatUint (n : Z) : string := FormatUint_loop 20 n EmptyString.

(** [strconv.Atoi]: an optional sign and digits, within 64 bits; the value and
    whether there was an error. *)
Definition Atoi (s : string) : Z * bool :=
  let '(neg, digits) := match s with String "+" d => (false, d) | String "-" d => (true, d) | _ => (false, s) end in
  let '(un, err) := ParseUint digits 64 in
  if err && (un =? 0) then (0, true)
  else if negb neg && (2 ^ 63 <=? un) then (MaxInt64, true)
  else if neg && (2 ^ 63 <? un) then (MinInt64, true)
  else ((if neg then - un else un), false).

Definition ParseBool (s : string) : bool * bool :=
  if decide (s ∈ ["1"; "t"; "T"; "TRUE"; "true"; "True"]%string) then (true, false)
  else if decide (s ∈ ["0"; "f"; "F"; "FALSE"; "false"; "False"]%string) then (false, false)
  else (false, true).

Definition FormatBool (b : bool) : string := if b then "true" else "false".

Lemma ParseBool_FormatBool b : ParseBool (FormatBool b) = (b, false).
Proof. by destruct b. Qed.

(** The value of a run of digits. *)
Fixpoint digits_value (s : string) (n : Z) : Z :=
  match s with
  | EmptyString => n
  | String c s => digits_value s (n * 10 + (code c - 48))
  end.

Definition all_digits (s : string) : bool := forallb is_digit (list_ascii_of_string s).

Lemma is_digit_bound c : is_digit c = true → 0 <= code c - 48 <= 9.
Proof. unfold is_digit. intros [? ?]%andb_true_iff. lia. Qed.

Lemma digits_value_mono s n : all_digits s = true → 0 <= n → n <= digits_value s n.
Proof.
  unfold all_digits. revert n. induction s as [|c s IH]; intros n; simpl; [lia|].
  intros [Hc Hs]%andb_true_iff Hn. apply is_digit_bound in Hc.
  specialize (IH (n * 10 + (code c - 48)) Hs). lia.
Qed.

(** A numeral in range is read back exactly. *)
Lemma ParseUint_loop_small s bits n :
  0 <= bits <= 64 → all_digits s = true → 0 <= n → digits_value s n <= 2 ^ bits - 1 →
  ParseUint_loop s (2 ^ bits - 1) n = (digits_value s n, false).
Proof.
  intros Hb. unfold all_digits. revert n. induction s as [|c s IH]; intros n; simpl; [done|].
  intros [Hc Hs]%andb_true_iff Hn Hv. rewrite Hc. cbn [negb].
  apply is_digit_bound in Hc.
  pose proof (digits_value_mono s (n * 10 + (code c - 48)) Hs ltac:(lia)) as Hm.
  assert (2 ^ bits <= 2 ^ 64) as Hp by (apply Z.pow_le_mono_r; lia).
  change (2 ^ 64) with 18446744073709551616 in Hp.
  unfold cutoff, MaxUint64. change ((2 ^ 64 - 1) / 10 + 1) with 1844674407370955162.
  rewrite wrapU_small by (change (2 ^ 64) with 18446744073709551616; lia).
  destruct (Z.leb_spec 1844674407370955162 n); [lia|].
  destruct (Z.ltb_spec (n * 10 + (code c - 48)) (n * 10)); [lia|].
  destruct (Z.ltb_spec (2 ^ bits - 1) (n * 10 + (code c - 48))); [lia|].
  simpl. apply IH; [done|lia|done].
Qed.

Lemma FormatUint_loop_digits fuel n acc :
  0 <= n → all_digits acc = true → all_digits (FormatUint_loop fuel n acc) = true.
Proof.
  revert n acc. induction fuel as [|fuel IH]; intros n acc Hn Ha; simpl; [done|].
  assert (all_digits (String (digit_char (n mod 10)) acc) = true) as Hd.
  { unfold all_digits in *. simpl. rewrite Ha, andb_true_r.
    pose proof (Z.mod_pos_bound n 10 ltac:(lia)).
    unfold is_digit. rewrite code_digit_char by lia. apply andb_true_iff. lia. }
  case_match; [done|]. apply IH; [|done]. apply Z.div_pos; lia.
Qed.

Lemma FormatUint_loop_value fuel n acc :
  0 <= n < 10 ^ Z.of_nat fuel →
  ∀ m, 0 <= m → digits_value (FormatUint_loop fuel n acc) 0 = digits_value acc n.
Proof.
  revert n acc. induction fuel as [|fuel IH]; intros n acc Hn m Hm.
  { simpl. replace n with 0; [done|]. simpl in Hn. lia. }
  rewrite Nat2Z.inj_succ, Z.pow_succ_r in Hn by lia. cbn [FormatUint_loop].
  pose proof (Z.mod_pos_bound n 10 ltac:(lia)).
  destruct (Z.ltb_spec n 10).
  - simpl. rewrite code_digit_char, Z.mod_small by lia. f_equal. lia.
  - rewrite (IH (n / 10) _ ltac:(split; [apply Z.div_pos; lia | apply Z.div_lt_upper_bound; lia]) 0) by lia.
    simpl. rewrite code_digit_char by lia. f_equal.
    pose proof (Z.div_mod n 10 ltac:(lia)). lia.
Qed.

Lemma FormatUint_loop_nonempty fuel n acc : acc ≠ EmptyString → FormatUint_loop fuel n acc ≠ EmptyString.
Proof.
  revert n acc. induction fuel as [|fuel IH]; intros n acc Ha; simpl; [done|].
  case_match; [done|]. by apply IH.
Qed.

Lemma FormatUint_nonempty n : FormatUint_loop 20 n EmptyString ≠ EmptyString.
Proof. cbn [FormatUint_loop]. case_match; [done|]. by apply (FormatUint_loop_nonempty 19). Qed.

Lemma ParseUint_FormatUint_bits bits n :
  0 <= bits <= 64 → 0 <= n <= 2 ^ bits - 1 → ParseUint (FormatUint n) bits = (n, false).
Proof.
  intros Hb Hn. unfold ParseUint, FormatUint.
  rewrite decide_False by apply FormatUint_nonempty.
  assert (2 ^ bits <= 2 ^ 64) by (apply Z.pow_le_mono_r; lia).
  assert (digits_value (FormatUint_loop 20 n "") 0 = n) as Hv.
  { apply (FormatUint_loop_value 20 n "") with (m := 0); [|lia].
    change (10 ^ Z.of_nat 20) with 100000000000000000000.
    change (2 ^ 64) with 18446744073709551616 in *. lia. }
  rewrite ParseUint_loop_small; [by rewrite Hv | lia | by apply FormatUint_loop_digits; [lia|]
    | lia | rewrite Hv; lia].
Qed.

Lemma ParseUint_FormatUint n : 0 <= n <= MaxUint64 → ParseUint (FormatUint n) 64 = (n, false).
Proof. intros Hn. apply ParseUint_FormatUint_bits; [lia|]. unfold MaxUint64 in Hn. lia. Qed.

(** Whatever is parsed is in range. *)
Lemma ParseUint_loop_bound s maxVal n :
  0 <= n <= maxVal → 0 <= (ParseUint_loop s maxVal n).1 <= maxVal.
Proof.
  revert n. induction s as [|c s IH]; intros n Hn; simpl; [done|].
  case_match; simpl; [lia|]. case_match; simpl; [lia|].
  destruct (_ || _) eqn:E; simpl; [lia|]. apply orb_false_iff in E as [E1 E2].
  apply IH. lia.
Qed.

Lemma ParseUint_bound s bits : 0 <= bits → 0 <= (ParseUint s bits).1 < 2 ^ bits.
Proof.
  intros. pose proof (Z.pow_pos_nonneg 2 bits ltac:(lia) ltac:(lia)).
  unfold ParseUint. case_decide; simpl; [lia|].
  pose proof (ParseUint_loop_bound s (2 ^ bits - 1) 0). lia.
Qed.

End Strconv.

(** ** The order of strings *)
Lemma string_compare_eq a b : String.compare a b = String_as_OT.compare a b.
Proof.
  revert b. induction a as [|c a IH]; intros [|d b]; cbn [String.compare String_as_OT.compare]; by rewrite ?IH.
Qed.

Lemma ltb_lt a b : String.ltb a b = true ↔ String_as_OT.lt a b.
Proof. unfold String.ltb, String_as_OT.lt. rewrite string_compare_eq. by destruct (String_as_OT.compare a b). Qed.

Lemma ltb_trans a b c : String.ltb a b = true → String.ltb b c = true → String.ltb a c = true.
Proof. rewrite !ltb_lt. intros H1 H2. pose proof (StrictOrder_Transitive (R := String_as_OT.lt) a b c H1 H2). done. Qed.

Lemma ltb_total a b : String.ltb a b = true ∨ a = b ∨ String.ltb b a = true.
Proof.
  rewrite !ltb_lt. destruct (String_as_OT.compare_spec a b) as [H|H|H]; [right; by left|by left|right; by right].
Qed.

Lemma ltb_irrefl a : String.ltb a a = false.
Proof. apply not_true_iff_false. rewrite ltb_lt. apply (StrictOrder_Irreflexive (R := String_as_OT.lt)). Qed.

(** ** context: why a context is done *)
Inductive context_error := Canceled | DeadlineExceeded.
