(* ===== verification/Netip.v ===== *)
(** * Network addresses: what the program uses of net and net/netip

    Addresses and their canonical form, and the parsers behind
    [netip.ParseAddr], [netip.ParseAddrPort] and [net.ParseIP]. *)
From S2P Require Import GoStd Prelude.

(** [netip.Addr]: the zero value, an IPv4 address, or an IPv6 address with an
    optional zone. *)
Inductive Addr : Type :=
| ZeroAddr
| V4 (a : Z)                     (* 32 bits *)
| V6 (a : Z) (zone : string).    (* 128 bits *)

#[export] Instance Addr_eq_dec : EqDecision Addr.
Proof. solve_decision. Defined.

#[export] Instance Addr_countable : Countable Addr.
Proof.
  refine (inj_countable'
    (λ a, match a with
          | ZeroAddr => inl ()
          | V4 a => inr (inl a)
          | V6 a z => inr (inr (a, z))
          end)
    (λ x : () + (Z + Z * string),
       match x with
       | inl _ => ZeroAddr
       | inr (inl a) => V4 a
       | inr (inr (a, z)) => V6 a z
       end) _).
  by intros [].
Defined.

Definition Is4 (a : Addr) : bool := match a with V4 _ => true | _ => false end.
Definition Is6 (a : Addr) : bool := match a with V6 _ _ => true | _ => false end.

(** An IPv4-mapped IPv6 address, [::ffff:a.b.c.d]. *)
Definition Is4In6 (a : Addr) : bool :=
  match a with V6 x _ => Z.shiftr x 32 =? 0xffff | _ => false end.

Definition Unmap (a : Addr) : Addr :=
  match a with
  | V6 x _ => if Is4In6 a then V4 (x mod 2 ^ 32) else a
  | _ => a
  end.

Definition WithZone (a : Addr) (zone : string) : Addr :=
  match a with V6 x _ => V6 x zone | _ => a end.

(** [netip.AddrFromSlice]: 4 or 16 bytes. *)
Definition AddrFromSlice (b : bytes) : option Addr :=
  if decide (length b = 4%nat) then Some (V4 (be_Z b))
  else if decide (length b = 16%nat) then Some (V6 (be_Z b) EmptyString)
  else None.

Record AddrPort := AddrPortFrom { ap_Addr : Addr; ap_Port : Z (* uint16 *) }.

#[export] Instance AddrPort_eq_dec : EqDecision AddrPort.
Proof. solve_decision. Defined.

#[export] Instance AddrPort_countable : Countable AddrPort.
Proof.
  refine (inj_countable' (λ p, (ap_Addr p, ap_Port p)) (λ '(a, p), AddrPortFrom a p) _).
  by intros [].
Defined.

Definition zero_AddrPort : AddrPort := AddrPortFrom ZeroAddr 0.

Definition AddrPort_IsValid (p : AddrPort) : bool := negb (bool_decide (ap_Addr p = ZeroAddr)).

Lemma Is4In6_Unmap a : Is4In6 (Unmap a) = false.
Proof.
  destruct a as [|?|x z]; [reflexivity..|].
  unfold Unmap. destruct (Is4In6 (V6 x z)) eqn:E; [reflexivity | exact E].
Qed.

Lemma Unmap_idemp a : Unmap (Unmap a) = Unmap a.
Proof.
  destruct a as [|?|x z]; [reflexivity..|].
  unfold Unmap at 2 3. destruct (Is4In6 (V6 x z)) eqn:E; [reflexivity|].
  unfold Unmap. by rewrite E.
Qed.

(** ** Parsing *)
Definition parse_octet (s : string) : option Z :=
  match s with
  | EmptyString => None
  | String c t =>
      if negb (Strconv.all_digits s) then None
      else if bool_decide (c = "0"%char) && negb (bool_decide (t = EmptyString)) then None
      else let v := Strconv.digits_value s 0 in
           if (3 <? Z.of_nat (String.length s)) || (255 <? v) then None else Some v
  end.

(** Dotted decimal, four octets without leading zeros. *)
Definition parseIPv4 (s : string) : option bytes :=
  match Strings.Split s "." with
  | [a; b; c; d] =>
      a ← parse_octet a; b ← parse_octet b; c ← parse_octet c; d ← parse_octet d;
      Some [byte_of_Z a; byte_of_Z b; byte_of_Z c; byte_of_Z d]
  | _ => None
  end.

Definition hex_digit (c : ascii) : option Z :=
  let k := code c in
  if is_digit c then Some (k - 48)
  else if (97 <=? k) && (k <=? 102) then Some (k - 87)
  else if (65 <=? k) && (k <=? 70) then Some (k - 55)
  else None.

(** The hexadecimal digits in front of [s]: their value, how many there are,
    and what follows; more than four are an error. *)
Fixpoint hex_group (fuel : nat) (s : string) (off acc : Z) : option (Z * Z * string) :=
  match s with
  | String c t =>
      match hex_digit c with
      | Some d => match fuel with
                  | O => None
                  | S fuel => hex_group fuel t (off + 1) (acc * 16 + d)
                  end
      | None => Some (acc, off, s)
      end
  | EmptyString => Some (acc, off, s)
  end.

(** One turn of the loop of [parseIPv6] reads one group; [ip] holds the bytes
    read so far and [ellipsis] where the [::] stood. *)
Fixpoint parseIPv6_loop (fuel : nat) (s : string) (ip : bytes) (ellipsis : option nat)
    : option (bytes * option nat * string) :=
  match fuel with
  | O => Some (ip, ellipsis, s)
  | S fuel =>
      '(acc, off, rest) ← hex_group 4 s 0 0;
      if off =? 0 then None else
      match rest with
      | String "." _ =>
          if bool_decide (ellipsis = None) && negb (bool_decide (length ip = 12%nat)) then None
          else if (16 <? length ip + 4)%nat then None
          else v4 ← parseIPv4 s; Some (ip ++ v4, ellipsis, EmptyString)
      | _ =>
          let ip := ip ++ be_bytes 2 acc in
          match rest with
          | EmptyString => Some (ip, ellipsis, EmptyString)
          | String ":" EmptyString => None
          | String ":" (String ":" rest) =>
              if bool_decide (ellipsis = None) then
                match rest with
                | EmptyString => Some (ip, Some (length ip), EmptyString)
                | _ => parseIPv6_loop fuel rest ip (Some (length ip))
                end
              else None
          | String ":" rest => parseIPv6_loop fuel rest ip ellipsis
          | _ => None
          end
      end
  end.

Definition parseIPv6 (s : string) : option Addr :=
  let zi := Strings.IndexByte s "%" in
  let zone := if zi <? 0 then EmptyString else Strings.skip (Z.to_nat (zi + 1)) s in
  if negb (zi <? 0) && bool_decide (zone = EmptyString) then None else
  let s := if zi <? 0 then s else Strings.first (Z.to_nat zi) s in
  let '(ellipsis, s) := if Strings.HasPrefix s "::" then (Some O, Strings.skip 2 s)
                        else (None, s) in
  if bool_decide (ellipsis = Some O) && bool_decide (s = EmptyString) then Some (V6 0 zone) else
  '(ip, ellipsis, s) ← parseIPv6_loop 8 s [] ellipsis;
  if negb (bool_decide (s = EmptyString)) then None else
  match ellipsis with
  | None => if (length ip <? 16)%nat then None else Some (V6 (be_Z ip) zone)
  | Some e =>
      if (length ip <? 16)%nat
      then Some (V6 (be_Z (take e ip ++ replicate (16 - length ip) Byte.x00 ++ drop e ip)) zone)
      else None
  end.

(** [netip.ParseAddr]: the first dot, colon or percent sign decides. *)
Fixpoint addr_kind (s : string) : option ascii :=
  match s with
  | EmptyString => None
  | String c s => if decide (c ∈ ["."; ":"; "%"]%char) then Some c else addr_kind s
  end.

Definition ParseAddr (s : string) : option Addr :=
  match addr_kind s with
  | Some "."%char => b ← parseIPv4 s; Some (V4 (be_Z b))
  | Some ":"%char => parseIPv6 s
  | _ => None
  end.

(** The last occurrence of a character. *)
Fixpoint LastIndexByte (s : string) (c : ascii) : Z :=
  match s with
  | EmptyString => -1
  | String d s => let i := LastIndexByte s c in
                  if 0 <=? i then i + 1 else if decide (d = c) then 0 else -1
  end.

Definition splitAddrPort (s : string) : option (string * string * bool) :=
  let i := LastIndexByte s ":" in
  if i <? 0 then None else
  let ip := Strings.first (Z.to_nat i) s in
  let port := Strings.skip (Z.to_nat (i + 1)) s in
  if bool_decide (ip = EmptyString) || bool_decide (port = EmptyString) then None else
  match ip with
  | String "[" t =>
      if (String.length ip <? 2)%nat || negb (Strings.HasSuffix ip "]") then None
      else Some (Strings.first (String.length t - 1) t, port, true)
  | _ => Some (ip, port, false)
  end.

Definition ParseAddrPort (s : string) : option AddrPort :=
  '(ip, port, v6) ← splitAddrPort s;
  let '(p, err) := Strconv.ParseUint port 16 in
  if err then None else
  a ← ParseAddr ip;
  if v6 && Is4 a then None
  else if negb v6 && Is6 a then None
  else Some (AddrPortFrom a p).

(** [net.ParseIP]: no zone; the bytes in 16-byte form. *)
Definition ParseIP (s : string) : option bytes :=
  a ← ParseAddr s;
  match a with
  | V4 a => Some (be_bytes 16 (Z.lor (Z.shiftl 0xffff 32) a))
  | V6 a zone => if bool_decide (zone = EmptyString) then Some (be_bytes 16 a) else None
  | ZeroAddr => None
  end.

Example ParseAddr_v4 : ParseAddr "192.0.2.1" = Some (V4 0xc0000201).
Proof. reflexivity. Qed.
Example ParseAddr_v4_zero : ParseAddr "192.0.02.1" = None.
Proof. reflexivity. Qed.
Example ParseAddr_v6 : ParseAddr "2001:db8::1%eth0" = Some (V6 0x20010db8000000000000000000000001 "eth0").
Proof. vm_compute. reflexivity. Qed.
Example ParseAddr_v6_all : ParseAddr "::" = Some (V6 0 "").
Proof. reflexivity. Qed.
Example ParseAddr_mapped : ParseAddr "::ffff:192.0.2.1" = Some (V6 0xffffc0000201 "").
Proof. vm_compute. reflexivity. Qed.
Example ParseAddr_v6_two : ParseAddr "1::2::3" = None.
Proof. reflexivity. Qed.
Example ParseAddrPort_v6 : ParseAddrPort "[::1]:443" = Some (AddrPortFrom (V6 1 "") 443).
Proof. vm_compute. reflexivity. Qed.
Example ParseAddrPort_bad : ParseAddrPort "::1:443" = None.
Proof. vm_compute. reflexivity. Qed.

(** ** net.Addr: a UDP address, or one of another type *)
Inductive net_Addr : Type :=
| UDPAddr (ip : bytes) (port : Z)
| OtherAddr.

Definition AsSlice (a : Addr) : bytes :=
  match a with ZeroAddr => [] | V4 x => be_bytes 4 x | V6 x _ => be_bytes 16 x end.

(** ** Socket addresses (punch_engine.go) *)
Definition addrToAddrPort (addr : net_Addr) : option AddrPort :=
  match addr with
  | OtherAddr => None
  | UDPAddr ip port =>
      match AddrFromSlice ip with
      | None => None
      | Some a => if (port <=? 0) || (65535 <? port) then None else Some (AddrPortFrom (Unmap a) (u16 port))
      end
  end.

Definition udpAddrFromAddrPort (a : AddrPort) : net_Addr := UDPAddr (AsSlice (ap_Addr a)) (ap_Port a).
