(* ===== verification/Float.v ===== *)
(** * Floating-point numbers

    The controllers compute with float64 on rates, round trips and counts: all
    non-negative, and with products and quotients of a uint64, a duration and a
    gain that stay far inside the normal range of binary64.  On these, the
    IEEE 754 operations are the exact ones followed by rounding to 53 bits,
    nearest, ties to even; a float64 is a mantissa and an exponent. *)
From Stdlib Require Import QArith Qpower Lqa SpecFloat.
From S2P Require Import Prelude.
Open Scope Z_scope.

Record float64 := F { fm : Z; fe : Z }.

(** The two sides of [n / (d * 2 ^ e)], as integers. *)
Definition scale (n d e : Z) : Z * Z :=
  if 0 <=? e then (n, d * 2 ^ e) else (n * 2 ^ (- e), d).

(** The integer nearest to [n / d], ties to even. *)
Definition nearest (n d : Z) : Z :=
  let q := n / d in
  let r := n mod d in
  if 2 * r <? d then q else if d <? 2 * r then q + 1 else if Z.even q then q else q + 1.

Definition exponent (n d : Z) : Z :=
  let e := Z.log2 n - Z.log2 d - 52 in
  let '(n', d') := scale n d e in
  if n' <? 2 ^ 52 * d' then e - 1 else e.

(** The float64 nearest to [n / d], for [0 <= n] and [0 < d]. *)
Definition round_ratio (n d : Z) : float64 :=
  if n <=? 0 then F 0 0 else
  let e := exponent n d in
  let '(n', d') := scale n d e in
  let m := nearest n' d' in
  if m =? 2 ^ 53 then F (2 ^ 52) (e + 1) else F m e.

(** The float64 nearest to [n / d * 2 ^ e]. *)
Definition round_scaled (n d e : Z) : float64 :=
  if 0 <=? e then round_ratio (n * 2 ^ e) d else round_ratio n (d * 2 ^ (- e)).

Definition of_Z (n : Z) : float64 := round_ratio n 1.
Definition mul (a b : float64) : float64 := round_scaled (fm a * fm b) 1 (fe a + fe b).
Definition div (a b : float64) : float64 := round_scaled (fm a) (fm b) (fe a - fe b).
Definition add (a b : float64) : float64 :=
  let e := Z.min (fe a) (fe b) in
  round_scaled (fm a * 2 ^ (fe a - e) + fm b * 2 ^ (fe b - e)) 1 e.

Definition ltb (a b : float64) : bool :=
  let e := Z.min (fe a) (fe b) in
  fm a * 2 ^ (fe a - e) <? fm b * 2 ^ (fe b - e).

(** Truncation toward zero. *)
Definition trunc (a : float64) : Z :=
  if 0 <=? fe a then fm a * 2 ^ fe a else fm a / 2 ^ (- fe a).

(** What a conversion to int64 yields when the value is out of range is left to
    the implementation by the language: here it may be anything. *)
Class FloatToInt := {
  out_of_range : float64 → Z;
  out_of_range_int64 a : MinInt64 <= out_of_range a <= MaxInt64;
}.

Definition toInt64 `{FloatToInt} (a : float64) : Z :=
  if trunc a <=? MaxInt64 then trunc a else out_of_range a.

(** The same for a conversion to uint64, of a number that is not negative. *)
Class FloatToUint := {
  out_of_range_u : float64 → Z;
  out_of_range_uint64 a : 0 <= out_of_range_u a <= MaxUint64;
}.

Definition toUint64 `{FloatToUint} (a : float64) : Z :=
  if trunc a <=? MaxUint64 then trunc a else out_of_range_u a.

(** [time.Duration.Seconds]. *)
Definition Seconds (d : Z) : float64 :=
  add (of_Z (quot d Second)) (div (of_Z (rem d Second)) (of_Z 1000000000)).

(** The same results as the Standard Library's IEEE 754 arithmetic. *)
Definition spec (a : float64) : spec_float :=
  match fm a with Zpos p => S754_finite false p (fe a) | _ => S754_zero false end.

Example div_spec : spec (div (of_Z 1) (of_Z 3)) = SFdiv 53 1024 (spec (of_Z 1)) (spec (of_Z 3)).
Proof. vm_compute. reflexivity. Qed.
Example mul_spec :
  spec (mul (of_Z (2 ^ 64 - 1)) (Seconds 123456789)) =
  SFmul 53 1024 (spec (of_Z (2 ^ 64 - 1))) (spec (Seconds 123456789)).
Proof. vm_compute. reflexivity. Qed.
Example add_spec :
  spec (add (of_Z 12345) (div (of_Z 1) (of_Z 3))) =
  SFadd 53 1024 (spec (of_Z 12345)) (spec (div (of_Z 1) (of_Z 3))).
Proof. vm_compute. reflexivity. Qed.
Example div_tie : div (of_Z (2 ^ 53 + 1)) (of_Z 1) = F (2 ^ 52) 1.
Proof. vm_compute. reflexivity. Qed.

(** ** The value of a float64 and the rounding error *)
Definition toQ (a : float64) : Q := (inject_Z (fm a) * (2 # 1) ^ fe a)%Q.

Lemma pow2_pos e : (0 < (2 # 1) ^ e)%Q.
Proof. apply Qpower_0_lt. reflexivity. Qed.

Lemma pow2_Z e : 0 <= e → ((2 # 1) ^ e == inject_Z (2 ^ e))%Q.
Proof. intros He. rewrite (Zpower_Qpower 2 e He). reflexivity. Qed.

Lemma pow2_plus a b : ((2 # 1) ^ (a + b) == (2 # 1) ^ a * (2 # 1) ^ b)%Q.
Proof. apply Qpower_plus. discriminate. Qed.

Lemma pow2_neg a b : 0 <= b → ((2 # 1) ^ a * inject_Z (2 ^ b) == (2 # 1) ^ (a + b))%Q.
Proof. intros. rewrite pow2_plus, (pow2_Z b) by done. reflexivity. Qed.

Lemma toQ_shift a e : e <= fe a →
  (toQ a == inject_Z (fm a * 2 ^ (fe a - e)) * (2 # 1) ^ e)%Q.
Proof.
  intros He. unfold toQ. rewrite inject_Z_mult, <-(pow2_Z (fe a - e)) by lia.
  rewrite <-Qmult_assoc, <-pow2_plus. replace (fe a - e + e) with (fe a) by lia. reflexivity.
Qed.

Lemma ltb_spec a b : ltb a b = true ↔ (toQ a < toQ b)%Q.
Proof.
  unfold ltb. set (e := Z.min (fe a) (fe b)).
  rewrite (toQ_shift a e), (toQ_shift b e) by lia. rewrite Z.ltb_lt, Zlt_Qlt.
  symmetry. apply Qmult_lt_r, pow2_pos.
Qed.

Lemma ltb_false a b : ltb a b = false ↔ (toQ b <= toQ a)%Q.
Proof.
  rewrite <-not_true_iff_false, ltb_spec. split; [apply Qnot_lt_le | apply Qle_not_lt].
Qed.

Lemma inject_pos z : 0 < z → (0 < inject_Z z)%Q.
Proof. intros. change 0%Q with (inject_Z 0). by rewrite <-Zlt_Qlt. Qed.

Ltac q_pos := repeat match goal with
  | |- ¬ (_ == 0)%Q => let E := fresh in intros E
  | H : 0 < ?z |- _ => let H' := fresh in pose proof (inject_pos z H) as H'; revert H
  end; intros; lra.

Lemma scale_spec n d e : 0 < n → 0 < d →
  0 < (scale n d e).1 ∧ 0 < (scale n d e).2 ∧
  (inject_Z n / inject_Z d == inject_Z (scale n d e).1 / inject_Z (scale n d e).2 * (2 # 1) ^ e)%Q.
Proof.
  intros Hn Hd. unfold scale. destruct (Z.leb_spec 0 e); cbn [fst snd].
  - assert (0 < 2 ^ e) by (apply Z.pow_pos_nonneg; lia).
    split; [done|]. split; [nia|]. rewrite pow2_Z, inject_Z_mult by done. field.
    split; q_pos.
  - assert (0 < 2 ^ (- e)) by (apply Z.pow_pos_nonneg; lia).
    split; [nia|]. split; [done|]. rewrite inject_Z_mult, <-pow2_Z by lia.
    rewrite Qpower_opp. pose proof (pow2_pos e). field. split; q_pos.
Qed.

Lemma nearest_spec n d : 0 < d → - d <= 2 * (n - nearest n d * d) <= d.
Proof.
  intros Hd. unfold nearest. pose proof (Z.div_mod n d ltac:(lia)).
  pose proof (Z.mod_pos_bound n d Hd).
  destruct (Z.ltb_spec (2 * (n mod d)) d); [nia|].
  destruct (Z.ltb_spec d (2 * (n mod d))); [nia|].
  destruct (Z.even (n / d)); nia.
Qed.

Lemma scale_pred n d e : 0 < n → 0 < d →
  (scale n d (e - 1)).1 * (scale n d e).2 = 2 * (scale n d e).1 * (scale n d (e - 1)).2.
Proof.
  intros Hn Hd. unfold scale.
  destruct (Z.leb_spec 0 (e - 1)), (Z.leb_spec 0 e); cbn [fst snd]; try lia.
  - replace e with (Z.succ (e - 1)) at 1 by lia. rewrite Z.pow_succ_r by lia. ring.
  - replace e with 0 by lia. change (2 ^ (- (0 - 1))) with 2. change (2 ^ 0) with 1. ring.
  - replace (- (e - 1)) with (Z.succ (- e)) by lia. rewrite Z.pow_succ_r by lia. ring.
Qed.

(** The mantissa before rounding has 53 bits. *)
Lemma exponent_spec n d : 0 < n → 0 < d →
  let '(n', d') := scale n d (exponent n d) in 2 ^ 52 * d' <= n' < 2 ^ 53 * d'.
Proof.
  intros Hn Hd. unfold exponent.
  set (e := Z.log2 n - Z.log2 d - 52).
  assert (2 ^ 51 * (scale n d e).2 <= (scale n d e).1 < 2 ^ 53 * (scale n d e).2) as Hb.
  { pose proof (Z.log2_spec n Hn) as [Hn1 Hn2]. pose proof (Z.log2_spec d Hd) as [Hd1 Hd2].
    pose proof (Z.log2_nonneg n). pose proof (Z.log2_nonneg d).
    rewrite Z.pow_succ_r in Hn2, Hd2 by lia. unfold scale.
    destruct (Z.leb_spec 0 e); cbn [fst snd].
    - replace (Z.log2 n) with (Z.log2 d + e + 52) in * by lia.
      rewrite !Z.pow_add_r in * by lia.
      assert (0 < 2 ^ e) by (apply Z.pow_pos_nonneg; lia). nia.
    - replace (Z.log2 d) with (Z.log2 n + (- e) - 52) in * by lia.
      assert (2 ^ (Z.log2 n + - e - 52) * 2 ^ 52 = 2 ^ Z.log2 n * 2 ^ (- e)) as Hp.
      { rewrite <-!Z.pow_add_r by lia. f_equal. lia. }
      assert (0 < 2 ^ (- e)) by (apply Z.pow_pos_nonneg; lia). nia. }
  pose proof (scale_pred n d e Hn Hd) as Hs.
  pose proof (scale_spec n d e Hn Hd) as (Hp1 & Hp2 & _).
  pose proof (scale_spec n d (e - 1) Hn Hd) as (Hq1 & Hq2 & _).
  destruct (scale n d e) as [n' d'] eqn:E. destruct (scale n d (e - 1)) as [n2 d2] eqn:E2.
  cbn [fst snd] in *.
  destruct (Z.ltb_spec n' (2 ^ 52 * d')).
  - rewrite E2. split; nia.
  - rewrite E. lia.
Qed.

Lemma round_ratio_form n d : 0 < n → 0 < d →
  let e := exponent n d in
  let '(n', d') := scale n d e in
  0 < d' ∧ 2 ^ 52 * d' <= n' < 2 ^ 53 * d' ∧ 2 ^ 52 <= nearest n' d' <= 2 ^ 53
  ∧ (toQ (round_ratio n d) == inject_Z (nearest n' d') * (2 # 1) ^ e)%Q.
Proof.
  intros Hn Hd. cbv zeta. pose proof (exponent_spec n d Hn Hd) as He.
  pose proof (scale_spec n d (exponent n d) Hn Hd) as (_ & Hd' & _).
  unfold round_ratio. rewrite (proj2 (Z.leb_gt n 0)) by lia. cbv zeta.
  destruct (scale n d (exponent n d)) as [n' d']. cbn [fst snd] in *.
  pose proof (nearest_spec n' d' Hd').
  split; [done|]. split; [done|]. split; [nia|].
  destruct (Z.eqb_spec (nearest n' d') (2 ^ 53)) as [->|]; [|reflexivity].
  unfold toQ. cbn [fm fe]. rewrite pow2_plus. change ((2 # 1) ^ 1)%Q with (2 # 1).
  change (inject_Z (2 ^ 53)) with (inject_Z (2 ^ 52) * (2 # 1))%Q. ring.
Qed.

Definition eps : Q := 1 # 9007199254740992.

Lemma round_ratio_error n d : 0 <= n → 0 < d →
  (inject_Z n / inject_Z d * (1 - eps) <= toQ (round_ratio n d)
   /\ toQ (round_ratio n d) <= inject_Z n / inject_Z d * (1 + eps))%Q.
Proof.
  intros Hn Hd. destruct (decide (n = 0)) as [->|Hn0].
  { unfold round_ratio, toQ. cbn. pose proof (inject_pos d Hd).
    assert (0 / inject_Z d == 0)%Q as E by (field; lra).
    change (inject_Z 0) with 0%Q. rewrite E. split; unfold eps; lra. }
  pose proof (round_ratio_form n d ltac:(lia) Hd) as Hr. cbv zeta in Hr.
  pose proof (scale_spec n d (exponent n d) ltac:(lia) Hd) as (Hp1 & Hp2 & Hs).
  destruct (scale n d (exponent n d)) as [n' d']. cbn [fst snd] in *.
  destruct Hr as (_ & Hm & _ & ->). rewrite Hs.
  pose proof (pow2_pos (exponent n d)) as Hpow.
  set (p := ((2 # 1) ^ exponent n d)%Q) in *. set (m := nearest n' d').
  pose proof (nearest_spec n' d' Hp2) as Hnear. fold m in Hnear.
  assert (- n' <= 2 ^ 53 * (n' - m * d') <= n') as [Ha Hb] by nia.
  rewrite Zle_Qle in Ha, Hb. pose proof (inject_pos d' Hp2) as Hd'.
  rewrite inject_Z_mult, inject_Z_opp in *. unfold Z.sub in Ha, Hb.
  rewrite inject_Z_plus, inject_Z_opp, inject_Z_mult in Ha, Hb.
  change (inject_Z (2 ^ 53)) with (9007199254740992 # 1)%Q in Ha, Hb.
  assert (inject_Z n' / inject_Z d' * (1 - eps) <= inject_Z m
    /\ inject_Z m <= inject_Z n' / inject_Z d' * (1 + eps))%Q as [H1 H2].
  { unfold eps. split.
    - apply (Qmult_le_r _ _ (inject_Z d')); [done|].
      assert (inject_Z n' / inject_Z d' * (1 - (1 # 9007199254740992)) * inject_Z d'
              == inject_Z n' * (1 - (1 # 9007199254740992)))%Q as -> by (field; lra). lra.
    - apply (Qmult_le_r _ _ (inject_Z d')); [done|].
      assert (inject_Z n' / inject_Z d' * (1 + (1 # 9007199254740992)) * inject_Z d'
              == inject_Z n' * (1 + (1 # 9007199254740992)))%Q as -> by (field; lra). lra. }
  split.
  - assert (inject_Z n' / inject_Z d' * p * (1 - eps)
            == inject_Z n' / inject_Z d' * (1 - eps) * p)%Q as -> by ring.
    by apply Qmult_le_r.
  - assert (inject_Z n' / inject_Z d' * p * (1 + eps)
            == inject_Z n' / inject_Z d' * (1 + eps) * p)%Q as -> by ring.
    by apply Qmult_le_r.
Qed.

(** A ratio of at most one is rounded to at most one. *)
Lemma round_ratio_le_1 n d : 0 <= n <= d → 0 < d → (toQ (round_ratio n d) <= 1)%Q.
Proof.
  intros Hn Hd. destruct (decide (n = 0)) as [->|Hn0]; [discriminate|].
  pose proof (round_ratio_form n d ltac:(lia) Hd) as Hr. cbv zeta in Hr.
  unfold scale in Hr. set (e := exponent n d) in *.
  assert (∀ m k, 0 <= k → 0 <= m <= 2 ^ k → (inject_Z m * (2 # 1) ^ (- k) <= 1)%Q) as Hle.
  { intros m k Hk [Hm1 Hm2]. rewrite Qpower_opp.
    pose proof (pow2_pos k). apply (Qmult_le_r _ _ ((2 # 1) ^ k)); [done|].
    assert (inject_Z m * / (2 # 1) ^ k * (2 # 1) ^ k == inject_Z m)%Q as -> by (field; lra).
    rewrite Qmult_1_l, pow2_Z by done. by rewrite <-Zle_Qle. }
  destruct (Z.leb_spec 0 e).
  { exfalso. destruct Hr as (_ & Hr & _).
    assert (0 < 2 ^ e) by (apply Z.pow_pos_nonneg; lia). nia. }
  destruct Hr as (_ & Hr & Hm & ->).
  destruct (decide (e <= -53)) as [Hle53|Hgt].
  - replace e with (- (- e)) at 2 by lia. apply Hle; [lia|].
    assert (2 ^ 53 <= 2 ^ (- e)) by (apply Z.pow_le_mono_r; lia). lia.
  - assert (2 ^ (- e) <= 2 ^ 52) by (apply Z.pow_le_mono_r; lia).
    assert (e = -52) as E.
    { destruct (decide (e = -52)); [done|].
      assert (2 ^ (- e) <= 2 ^ 51) by (apply Z.pow_le_mono_r; lia). nia. }
    rewrite E in *. change (- -52) with 52 in *.
    assert (n = d) as -> by nia. apply (Hle _ 52); [lia|].
    unfold nearest. rewrite (Z.mul_comm d), Z.div_mul, Z.mod_mul by lia.
    rewrite (proj2 (Z.ltb_lt (2 * 0) d)) by lia. lia.
Qed.

(** ** Operations on values *)
Definition nonneg (a : float64) : Prop := 0 <= fm a.

Lemma nonneg_toQ a : nonneg a → (0 <= toQ a)%Q.
Proof.
  unfold nonneg, toQ. intros Ha. apply Qmult_le_0_compat; [|apply Qlt_le_weak, pow2_pos].
  change 0%Q with (inject_Z 0). by rewrite <-Zle_Qle.
Qed.

Lemma nearest_nonneg n d : 0 <= n → 0 < d → 0 <= nearest n d.
Proof.
  intros. unfold nearest. assert (0 <= n / d) by (apply Z.div_pos; lia).
  repeat case_match; lia.
Qed.

Lemma round_ratio_nonneg n d : 0 < d → nonneg (round_ratio n d).
Proof.
  intros Hd. unfold round_ratio, nonneg. destruct (Z.leb_spec n 0); [done|]. cbv zeta.
  pose proof (scale_spec n d (exponent n d) ltac:(lia) Hd) as (Hp1 & Hp2 & _).
  destruct (scale n d (exponent n d)) as [n' d']. cbn [fst snd] in *.
  destruct (_ =? _); cbn [fm]; [done | by apply nearest_nonneg; lia].
Qed.

Definition close (a : float64) (x : Q) : Prop :=
  nonneg a ∧ (x * (1 - eps) <= toQ a /\ toQ a <= x * (1 + eps))%Q.

Lemma round_ratio_close n d : 0 <= n → 0 < d → close (round_ratio n d) (inject_Z n / inject_Z d).
Proof.
  intros. split; [by apply round_ratio_nonneg | by apply round_ratio_error].
Qed.

Lemma close_proper a x y : (x == y)%Q → close a x → close a y.
Proof. intros E (? & ? & ?). split; [done|]. rewrite <-E. done. Qed.

Lemma round_scaled_close n d e : 0 <= n → 0 < d →
  close (round_scaled n d e) (inject_Z n / inject_Z d * (2 # 1) ^ e).
Proof.
  intros Hn Hd. unfold round_scaled. destruct (Z.leb_spec 0 e).
  - assert (0 < 2 ^ e) by (apply Z.pow_pos_nonneg; lia).
    eapply close_proper; [|apply round_ratio_close; nia].
    rewrite inject_Z_mult, <-pow2_Z by done. field. q_pos.
  - assert (0 < 2 ^ (- e)) by (apply Z.pow_pos_nonneg; lia).
    eapply close_proper; [|apply round_ratio_close; nia].
    rewrite inject_Z_mult, <-pow2_Z, Qpower_opp by lia. pose proof (pow2_pos e).
    field. split; q_pos.
Qed.

Lemma of_Z_close n : 0 <= n → close (of_Z n) (inject_Z n).
Proof.
  intros. eapply close_proper; [|apply round_ratio_close; [done|lia]].
  change (inject_Z 1) with 1%Q. field.
Qed.

Lemma div_close a b : nonneg a → 0 < fm b → close (div a b) (toQ a / toQ b).
Proof.
  intros Ha Hb. eapply close_proper; [|by apply round_scaled_close].
  unfold toQ. replace (fe a - fe b) with (fe a + - fe b) by lia.
  rewrite pow2_plus, Qpower_opp. pose proof (pow2_pos (fe b)). field. split; q_pos.
Qed.

Lemma mul_close a b : nonneg a → nonneg b → close (mul a b) (toQ a * toQ b).
Proof.
  unfold nonneg. intros Ha Hb. eapply close_proper; [|apply round_scaled_close; nia].
  unfold toQ. rewrite pow2_plus, inject_Z_mult. change (inject_Z 1) with 1%Q. field.
Qed.

Lemma trunc_le a : nonneg a → 0 <= trunc a ∧ (inject_Z (trunc a) <= toQ a)%Q
  ∧ (toQ a < inject_Z (trunc a) + 1)%Q.
Proof.
  unfold nonneg, trunc, toQ. intros Ha. destruct (Z.leb_spec 0 (fe a)).
  - assert (0 < 2 ^ fe a) by (apply Z.pow_pos_nonneg; lia).
    split; [nia|]. rewrite inject_Z_mult, <-pow2_Z by done. split; lra.
  - assert (0 < 2 ^ (- fe a)) as Hp by (apply Z.pow_pos_nonneg; lia).
    split; [by apply Z.div_pos; lia|].
    pose proof (Z.div_mod (fm a) (2 ^ (- fe a)) ltac:(lia)) as Hdm.
    pose proof (Z.mod_pos_bound (fm a) (2 ^ (- fe a)) Hp) as Hmb.
    set (q := fm a / 2 ^ (- fe a)) in *.
    assert (inject_Z (fm a) * (2 # 1) ^ fe a == inject_Z (fm a) / inject_Z (2 ^ (- fe a)))%Q as ->.
    { rewrite <-pow2_Z, Qpower_opp by lia. pose proof (pow2_pos (fe a)). field. lra. }
    split.
    + apply Qle_shift_div_l; [q_pos|]. rewrite <-inject_Z_mult, <-Zle_Qle. lia.
    + apply Qlt_shift_div_r; [q_pos|]. change 1%Q with (inject_Z 1).
      rewrite <-inject_Z_plus, <-inject_Z_mult, <-Zlt_Qlt. lia.
Qed.

(** ** Exact cases *)
Lemma nearest_1 n : nearest n 1 = n.
Proof. unfold nearest. rewrite Z.div_1_r, Z.mod_1_r. done. Qed.

(** Integers below 2^53 are represented exactly. *)
Lemma of_Z_exact n : 0 <= n < 2 ^ 53 → (toQ (of_Z n) == inject_Z n)%Q.
Proof.
  intros Hn. destruct (decide (n = 0)) as [->|Hn0]; [reflexivity|].
  pose proof (round_ratio_form n 1 ltac:(lia) ltac:(lia)) as Hr. cbv zeta in Hr.
  pose proof (scale_spec n 1 (exponent n 1) ltac:(lia) ltac:(lia)) as (_ & _ & Hs).
  unfold of_Z. unfold scale in *. set (e := exponent n 1) in *.
  destruct (Z.leb_spec 0 e); cbn [fst snd] in Hs.
  - assert (e = 0) as E.
    { destruct Hr as (_ & Hr & _). destruct (decide (e = 0)); [done|].
      assert (2 ^ 1 <= 2 ^ e) by (apply Z.pow_le_mono_r; lia). nia. }
    rewrite E in *. destruct Hr as (_ & _ & _ & ->). change (1 * 2 ^ 0) with 1. rewrite nearest_1.
    change ((2 # 1) ^ 0)%Q with 1%Q. ring.
  - destruct Hr as (_ & _ & _ & ->). rewrite nearest_1.
    change (inject_Z 1) with 1%Q in Hs.
    transitivity (inject_Z n / 1)%Q; [|field]. rewrite Hs. field.
Qed.

Lemma of_Z_pos n : 0 < n → 0 < fm (of_Z n).
Proof.
  intros Hn. pose proof (round_ratio_nonneg n 1 ltac:(lia)) as Hnn. unfold nonneg in Hnn.
  destruct (of_Z_close n ltac:(lia)) as (_ & Hlo & _).
  fold (of_Z n) in Hnn. destruct (decide (fm (of_Z n) = 0)) as [E|]; [|lia].
  exfalso. unfold toQ in Hlo. rewrite E in Hlo. pose proof (inject_pos n Hn).
  assert (inject_Z 0 * (2 # 1) ^ fe (of_Z n) == 0)%Q as Z0 by (change (inject_Z 0) with 0%Q; ring).
  rewrite Z0 in Hlo. unfold eps in Hlo. lra.
Qed.

Lemma div_le_1 a b : nonneg a → 0 < fm b → (toQ a <= toQ b)%Q → (toQ (div a b) <= 1)%Q.
Proof.
  unfold nonneg. intros Ha Hb Hab. apply ltb_false in Hab. unfold ltb in Hab. apply Z.ltb_ge in Hab.
  unfold div, round_scaled. destruct (Z.leb_spec 0 (fe a - fe b)).
  - replace (Z.min (fe b) (fe a)) with (fe b) in Hab by lia.
    rewrite Z.sub_diag in Hab. apply round_ratio_le_1; [|done].
    assert (0 < 2 ^ (fe a - fe b)) by (apply Z.pow_pos_nonneg; lia). nia.
  - replace (Z.min (fe b) (fe a)) with (fe a) in Hab by lia.
    rewrite Z.sub_diag in Hab. replace (- (fe a - fe b)) with (fe b - fe a) by lia.
    assert (0 < 2 ^ (fe b - fe a)) by (apply Z.pow_pos_nonneg; lia).
    apply round_ratio_le_1; nia.
Qed.

Lemma close_pos a x : (0 < x)%Q → close a x → 0 < fm a.
Proof.
  intros Hx (Hn & Hlo & _). unfold nonneg in Hn. destruct (decide (fm a = 0)) as [E|]; [|lia].
  exfalso. unfold toQ in Hlo. rewrite E in Hlo.
  assert (inject_Z 0 * (2 # 1) ^ fe a == 0)%Q as Z0 by (change (inject_Z 0) with 0%Q; ring).
  rewrite Z0 in Hlo. unfold eps in Hlo.
  assert (0 < x * (1 - (1 # 9007199254740992)))%Q by (apply Qmult_lt_0_compat; lra). lra.
Qed.
