(* ===== verification/Protocol.v ===== *)
(** * The wire protocol (core/internal/protocol/proxy.go and padding.go)

    The TCP request and response frames, the UDP message header and the
    padding schemes.  The varint reader of quic-go is not part of the
    repository: it is the interface [QuicVarint], whose laws are RFC 9000,
    section 16; [varintPut], the writer, is the repository's own code and is
    modelled. *)
From S2P Require Import Prelude.

(** ** The quicvarint interface *)

(** What an [io.Reader] over a finite stream reports when the stream ends. *)
Inductive read_error : Type :=
| EOF
| UnexpectedEOF
| ProtocolError (msg : string).

(** A varint occupies [2 ^ (b / 64)] bytes, [b] the first one; its value is the
    big-endian number without the two length bits. *)
Definition varint_width (b : byte) : nat := Nat.pow 2 (Z.to_nat (Z_of_byte b / 64)).
Definition varint_value (enc : bytes) : Z :=
  be_Z enc mod 2 ^ (8 * len enc - 2).

Class QuicVarint := {
  (** [quicvarint.Read]: the value and what is left of the stream. *)
  qv_Read : bytes → result read_error (Z * bytes);
  (** [quicvarint.Len]. *)
  qv_Len : Z → Z;
  qv_Read_nil : qv_Read [] = Err EOF;
  qv_Read_short b bs :
    (length (b :: bs) < varint_width b)%nat → ∃ e, qv_Read (b :: bs) = Err e;
  qv_Read_full b bs :
    (varint_width b <= length (b :: bs))%nat →
    qv_Read (b :: bs) = Ok (varint_value (take (varint_width b) (b :: bs)),
                            drop (varint_width b) (b :: bs));
  qv_Len_spec i : 0 <= i < 2 ^ 62 →
    qv_Len i = if i <? 2 ^ 6 then 1 else if i <? 2 ^ 14 then 2
               else if i <? 2 ^ 30 then 4 else 8;
}.

(** A concrete reader with these laws, for the witnesses. *)
Definition rfc9000_Read (bs : bytes) : result read_error (Z * bytes) :=
  match bs with
  | [] => Err EOF
  | b :: _ => let n := varint_width b in
      if decide (n <= length bs)%nat
      then Ok (varint_value (take n bs), drop n bs) else Err UnexpectedEOF
  end.

Definition rfc9000_Len (i : Z) : Z :=
  if i <? 2 ^ 6 then 1 else if i <? 2 ^ 14 then 2 else if i <? 2 ^ 30 then 4 else 8.

Program Definition rfc9000 : QuicVarint :=
  {| qv_Read := rfc9000_Read; qv_Len := rfc9000_Len |}.
Next Obligation. done. Qed.
Next Obligation.
  intros b bs Hl. exists UnexpectedEOF. unfold rfc9000_Read. rewrite decide_False; [done|lia].
Qed.
Next Obligation. intros b bs Hl. unfold rfc9000_Read. by rewrite decide_True. Qed.
Next Obligation. done. Qed.

(** ** Constants *)
Definition FrameTypeTCPRequest : Z := 0x401.
Definition MaxAddressLength : Z := 2048.
Definition MaxMessageLength : Z := 2048.
Definition MaxPaddingLength : Z := 4096.
Definition MaxDatagramFrameSize : Z := 1200.
Definition MaxUDPSize : Z := 4096.

Definition maxVarInt1 : Z := 63.
Definition maxVarInt2 : Z := 16383.
Definition maxVarInt4 : Z := 1073741823.
Definition maxVarInt8 : Z := 4611686018427387903.

(** ** varintPut: like quicvarint.Append, into a fixed-size buffer

    [varintPut buf off i] is the call [varintPut(buf[off:], i)].  The bytes it
    assigns are [varint_bytes i]; a value over 62 bits and a buffer that is
    too small panic. *)
Definition varint_bytes (i : Z) : outcome bytes :=
  if i <=? maxVarInt1 then Ret [byte_of_Z i]
  else if i <=? maxVarInt2 then
    Ret [byte_of_Z (Z.lor (u8 (Z.shiftr i 8)) 0x40); byte_of_Z i]
  else if i <=? maxVarInt4 then
    Ret [byte_of_Z (Z.lor (u8 (Z.shiftr i 24)) 0x80); byte_of_Z (Z.shiftr i 16);
         byte_of_Z (Z.shiftr i 8); byte_of_Z i]
  else if i <=? maxVarInt8 then
    Ret [byte_of_Z (Z.lor (u8 (Z.shiftr i 56)) 0xc0); byte_of_Z (Z.shiftr i 48);
         byte_of_Z (Z.shiftr i 40); byte_of_Z (Z.shiftr i 32);
         byte_of_Z (Z.shiftr i 24); byte_of_Z (Z.shiftr i 16);
         byte_of_Z (Z.shiftr i 8); byte_of_Z i]
  else Panic.

Definition varintPut (buf : bytes) (off : nat) (i : Z) : outcome (bytes * nat) :=
  bs ← varint_bytes i;
  buf' ← buf_put buf off bs;
  mret (buf', length bs).

(** ** io.ReadFull and io.CopyN over a finite stream *)
Definition ReadFull (r : bytes) (n : Z) : result read_error (bytes * bytes) :=
  let k := Z.to_nat n in
  if decide (k <= length r)%nat then Ok (take k r, drop k r)
  else Err (if decide (r = []) then EOF else UnexpectedEOF).

(** [io.CopyN(io.Discard, r, n)]. *)
Definition DiscardN (r : bytes) (n : Z) : result read_error bytes :=
  let k := Z.to_nat n in
  if decide (k <= length r)%nat then Ok (drop k r) else Err EOF.

(** ** Padding (padding.go) *)
Record padding := mkPadding { Min : Z; Max : Z }.

Definition paddingChars : string :=
  "abcdefghijklmnopqrstuvwxyzABCDEFGHIJKLMNOPQRSTUVWXYZ0123456789".

Definition bytes_of_string (s : string) : bytes := String.list_byte_of_string s.
Definition string_of_bytes (b : bytes) : string := String.string_of_list_byte b.

(** The randomness of one [generate] call: what [randUint32] returns, if it is
    called, and what [rand.Read] puts in a buffer of a given length. *)
Record entropy := mkEntropy {
  randUint32 : Z;
  rand_Read : nat → bytes;
  rand_Read_len n : length (rand_Read n) = n;
}.

(** [make([]byte, n)] panics on a negative length. *)
Definition generate (p : padding) (rnd : entropy) : outcome bytes :=
  let span := Max p - Min p in
  let n := if 0 <? span then Min p + u32 (randUint32 rnd) mod u32 span else Min p in
  if n <? 0 then Panic else
  let chars := bytes_of_string paddingChars in
  Ret ((λ b, default Byte.x00 (chars !! Z.to_nat (rem (Z_of_byte b) (len chars))))
         <$> rand_Read rnd (Z.to_nat n)).

Record PaddingScheme := mkPaddingScheme {
  AuthRequest_pad : padding;
  AuthResponse_pad : padding;
  TCPRequest_pad : padding;
  TCPResponse_pad : padding;
}.

Definition defaultPaddingScheme : PaddingScheme :=
  {| AuthRequest_pad := mkPadding 256 2048;
     AuthResponse_pad := mkPadding 256 2048;
     TCPRequest_pad := mkPadding 64 512;
     TCPResponse_pad := mkPadding 128 1024 |}.

Record paddingBounds := mkBounds { MinLo : Z; MinHi : Z; SpanLo : Z; SpanHi : Z }.

Definition authPaddingBounds : paddingBounds := mkBounds 64 1024 256 1536.
Definition tcpRequestPaddingBounds : paddingBounds := mkBounds 16 256 64 768.
Definition tcpResponsePaddingBounds : paddingBounds := mkBounds 32 512 128 1024.

Section Derive.
(** [hmac.New(sha256.New, seed)] over the label: any function into 32 bytes. *)
Context (hmac_sha256 : bytes → bytes → bytes).

Definition derivePadding (seed label : bytes) (b : paddingBounds) : padding :=
  let sum := hmac_sha256 seed label in
  let lo := MinLo b + be_Z (take 4 sum) mod u32 (MinHi b - MinLo b) in
  let span := SpanLo b + be_Z (take 4 (drop 4 sum)) mod u32 (SpanHi b - SpanLo b) in
  {| Min := lo; Max := lo + span |}.

Definition NewPaddingScheme (seed : bytes) : PaddingScheme :=
  if decide (len seed = 0) then defaultPaddingScheme
  else {| AuthRequest_pad := derivePadding seed (bytes_of_string "auth-request") authPaddingBounds;
          AuthResponse_pad := derivePadding seed (bytes_of_string "auth-response") authPaddingBounds;
          TCPRequest_pad := derivePadding seed (bytes_of_string "tcp-request") tcpRequestPaddingBounds;
          TCPResponse_pad := derivePadding seed (bytes_of_string "tcp-response") tcpResponsePaddingBounds |}.
End Derive.

Definition orDefault (ps : option PaddingScheme) : PaddingScheme :=
  default defaultPaddingScheme ps.

(** ** TCP request and response *)
Section Frames.
Context `{QuicVarint}.

Definition ReadTCPRequest (r : bytes) : result read_error (bytes * bytes) :=
  '(addrLen, r) ← qv_Read r;
  if (addrLen =? 0) || (MaxAddressLength <? addrLen)
  then Err (ProtocolError "invalid address length") else
  '(addrBuf, r) ← ReadFull r addrLen;
  '(paddingLen, r) ← qv_Read r;
  if MaxPaddingLength <? paddingLen
  then Err (ProtocolError "invalid padding length") else
  r ← (if 0 <? paddingLen then DiscardN r paddingLen else Ok r);
  Ok (addrBuf, r).

(** The bytes handed to [w.Write]. *)
Definition WriteTCPRequest (addr : bytes) (ps : option PaddingScheme) (rnd : entropy)
    : outcome bytes :=
  padding ← generate (TCPRequest_pad (orDefault ps)) rnd;
  let paddingLen := len padding in
  let addrLen := len addr in
  let sz := qv_Len FrameTypeTCPRequest + qv_Len addrLen + addrLen
            + qv_Len paddingLen + paddingLen in
  let buf := replicate (Z.to_nat sz) Byte.x00 in
  '(buf, i) ← varintPut buf 0 FrameTypeTCPRequest;
  '(buf, n) ← varintPut buf i addrLen;
  let i := (i + n)%nat in
  '(buf, n) ← buf_copy buf i addr;
  let i := (i + n)%nat in
  '(buf, n) ← varintPut buf i paddingLen;
  let i := (i + n)%nat in
  '(buf, _) ← buf_copy buf i padding;
  mret buf.

Definition ReadTCPResponse (r : bytes) : result read_error (bool * bytes * bytes) :=
  '(status, r) ← ReadFull r 1;
  '(msgLen, r) ← qv_Read r;
  if MaxMessageLength <? msgLen
  then Err (ProtocolError "invalid message length") else
  '(msgBuf, r) ← (if 0 <? msgLen then ReadFull r msgLen else Ok ([], r));
  '(paddingLen, r) ← qv_Read r;
  if MaxPaddingLength <? paddingLen
  then Err (ProtocolError "invalid padding length") else
  r ← (if 0 <? paddingLen then DiscardN r paddingLen else Ok r);
  Ok (bool_decide (status = [Byte.x00]), msgBuf, r).

Definition WriteTCPResponse (ok : bool) (msg : bytes) (ps : option PaddingScheme)
    (rnd : entropy) : outcome bytes :=
  padding ← generate (TCPResponse_pad (orDefault ps)) rnd;
  let paddingLen := len padding in
  let msgLen := len msg in
  let sz := 1 + qv_Len msgLen + msgLen + qv_Len paddingLen + paddingLen in
  let buf := replicate (Z.to_nat sz) Byte.x00 in
  buf ← buf_put buf 0 [if ok then Byte.x00 else Byte.x01];
  '(buf, i) ← varintPut buf 1 msgLen;
  '(buf, n) ← buf_copy buf (1 + i) msg;
  let i := (i + n)%nat in
  '(buf, n) ← varintPut buf (1 + i) paddingLen;
  let i := (i + n)%nat in
  '(buf, _) ← buf_copy buf (1 + i) padding;
  mret buf.

(** ** UDP messages *)
Record UDPMessage := mkUDPMessage {
  SessionID : Z;   (* uint32 *)
  PacketID : Z;    (* uint16 *)
  FragID : Z;      (* uint8 *)
  FragCount : Z;   (* uint8 *)
  Addr : bytes;
  Data : bytes;
}.

Definition HeaderSize (m : UDPMessage) : Z :=
  let lAddr := len (Addr m) in
  4 + 2 + 1 + 1 + qv_Len lAddr + lAddr.

Definition Size (m : UDPMessage) : Z := HeaderSize m + len (Data m).

(** [Serialize]: the buffer afterwards and the number returned, -1 when the
    buffer is too small. *)
Definition Serialize (m : UDPMessage) (buf : bytes) : outcome (bytes * Z) :=
  if len buf <? Size m then Ret (buf, -1) else
  buf ← buf_put buf 0 (be_bytes 4 (SessionID m));
  buf ← buf_put buf 4 (be_bytes 2 (PacketID m));
  buf ← buf_put buf 6 [byte_of_Z (FragID m)];
  buf ← buf_put buf 7 [byte_of_Z (FragCount m)];
  '(buf, i) ← varintPut buf 8 (len (Addr m));
  '(buf, n) ← buf_copy buf (8 + i) (Addr m);
  let i := (i + n)%nat in
  '(buf, n) ← buf_copy buf (8 + i) (Data m);
  let i := (i + n)%nat in
  mret (buf, 8 + Z.of_nat i).

(** [buf[:n]] for an [n] that may be the -1 of a failed [Serialize]. *)
Definition slice_to (buf : bytes) (n : Z) : outcome bytes :=
  if (0 <=? n) && (n <=? len buf) then Ret (take (Z.to_nat n) buf) else Panic.

Definition SerializeTo (m : UDPMessage) (buf : bytes) : outcome bytes :=
  '(buf1, n) ← Serialize m buf;
  if 0 <=? n then slice_to buf1 n else
  let buf2 := replicate (Z.to_nat (Size m)) Byte.x00 in
  '(buf2, n2) ← Serialize m buf2;
  slice_to buf2 n2.

(** [binary.Read] of a fixed-size unsigned integer. *)
Definition binary_Read (n : nat) (buf : bytes) : result read_error (Z * bytes) :=
  '(b, rest) ← ReadFull buf (Z.of_nat n);
  Ok (be_Z b, rest).

Definition ParseUDPMessage (msg : bytes) : result read_error UDPMessage :=
  '(sid, buf) ← binary_Read 4 msg;
  '(pid, buf) ← binary_Read 2 buf;
  '(fid, buf) ← binary_Read 1 buf;
  '(fcount, buf) ← binary_Read 1 buf;
  '(lAddr, bs) ← qv_Read buf;
  if (lAddr =? 0) || (MaxMessageLength <? lAddr)
  then Err (ProtocolError "invalid address length") else
  if len bs <=? lAddr
  then Err (ProtocolError "invalid message length") else
  Ok {| SessionID := sid; PacketID := pid; FragID := fid; FragCount := fcount;
        Addr := take (Z.to_nat lAddr) bs; Data := drop (Z.to_nat lAddr) bs |}.
End Frames.

(** * Lemmas *)

(** ** Varints *)
Lemma lor_tag a t : 0 <= a < 64 → In t [64; 128; 192] → Z.lor a t = a + t.
Proof.
  intros Ha Ht.
  assert (Forall (λ n, Forall (λ t, Z.lor (Z.of_nat n) t = Z.of_nat n + t) [64; 128; 192])
    (seq 0 64)) as Hall by (apply (bool_decide_unpack _); vm_compute; exact I).
  rewrite List.Forall_forall in Hall. specialize (Hall (Z.to_nat a)).
  rewrite in_seq, Z2Nat.id, List.Forall_forall in Hall by lia.
  apply Hall; [lia | done].
Qed.

Lemma byte_of_Z_cong x y : x mod 256 = y mod 256 → byte_of_Z x = byte_of_Z y.
Proof.
  intros Hxy. apply (inj Z_of_byte). rewrite !Z_of_byte_of_Z. unfold wrapU.
  by change (2 ^ 8) with 256.
Qed.

(** The four forms of RFC 9000: [n] big-endian bytes with the tag on top. *)
Lemma varint_bytes_form i n t :
  In (n, t) [(1%nat, 0); (2%nat, 1); (4%nat, 2); (8%nat, 3)] →
  (match n with 1%nat => 0 | 2%nat => 64 | 4%nat => 16384 | _ => 1073741824 end)
    <= i < 2 ^ (8 * Z.of_nat n - 2) →
  varint_bytes i = Ret (be_bytes n (i + t * 2 ^ (8 * Z.of_nat n - 2))).
Proof.
  intros Hin Hi. unfold varint_bytes, maxVarInt1, maxVarInt2, maxVarInt4, maxVarInt8.
  destruct Hin as [[= <- <-]|[[= <- <-]|[[= <- <-]|[[= <- <-]|[]]]]]; simpl in Hi |- *;
    repeat match goal with
    | |- context [?a <=? ?b] => destruct (Z.leb_spec a b); try lia
    end.
  all: f_equal; unfold be_bytes; rewrite ?Z.shiftr_div_pow2 by lia;
    repeat (apply (f_equal2 cons); [apply byte_of_Z_cong|]); try done.
  all: unfold wrapU; rewrite ?lor_tag by (simpl; first [Z.div_mod_to_equations; lia | tauto]);
    simpl; Z.div_mod_to_equations; lia.
Qed.

Lemma varint_width_form n t i rest :
  In (n, t) [(1%nat, 0); (2%nat, 1); (4%nat, 2); (8%nat, 3)] →
  0 <= i < 2 ^ (8 * Z.of_nat n - 2) →
  ∃ b bs, be_bytes n (i + t * 2 ^ (8 * Z.of_nat n - 2)) ++ rest = b :: bs ∧ varint_width b = n.
Proof.
  intros Hin Hi. unfold varint_width.
  destruct Hin as [[= <- <-]|[[= <- <-]|[[= <- <-]|[[= <- <-]|[]]]]]; simpl in Hi |- *;
    eexists _, _; (split; [done|]); rewrite Z_of_byte_of_Z, Z.shiftr_div_pow2 by lia;
    unfold wrapU; simpl;
    match goal with |- context [Z.to_nat ?z] => match goal with |- _ = ?n =>
      let k := constr:(Z.log2 (Z.of_nat n)) in
      replace z with k by (simpl; Z.div_mod_to_equations; lia) end end; done.
Qed.

Section Varint.
Context `{QuicVarint}.

Lemma varint_bytes_spec i :
  0 <= i <= maxVarInt8 →
  ∃ bs, varint_bytes i = Ret bs ∧ len bs = qv_Len i ∧
        ∀ rest, qv_Read (bs ++ rest) = Ok (i, rest).
Proof.
  intros Hi. unfold maxVarInt8 in Hi.
  assert (∃ n t, In (n, t) [(1%nat, 0); (2%nat, 1); (4%nat, 2); (8%nat, 3)] ∧
    (match n with 1%nat => 0 | 2%nat => 64 | 4%nat => 16384 | _ => 1073741824 end)
      <= i < 2 ^ (8 * Z.of_nat n - 2) ∧ qv_Len i = Z.of_nat n) as (n & t & Hin & Hr & Hn).
  { rewrite qv_Len_spec by lia.
    destruct (Z.ltb_spec i (2 ^ 6)); [exists 1%nat, 0; simpl; split; [tauto|lia]|].
    destruct (Z.ltb_spec i (2 ^ 14)); [exists 2%nat, 1; simpl; split; [tauto|lia]|].
    destruct (Z.ltb_spec i (2 ^ 30)); [exists 4%nat, 2; simpl; split; [tauto|lia]|].
    exists 8%nat, 3; simpl; split; [tauto|lia]. }
  rewrite (varint_bytes_form _ _ _ Hin Hr).
  assert (0 <= i < 2 ^ (8 * Z.of_nat n - 2)) as Hi' by (destruct n as [|[|[|[|[|]]]]]; lia).
  eexists; split; [done|]. unfold len. rewrite length_be_bytes. split; [done|].
  intros rest. destruct (varint_width_form n t i rest Hin Hi') as (b & bs & Hbs & Hw).
  assert (length (b :: bs) = n + length rest)%nat as Hl
    by (rewrite <-Hbs, length_app, length_be_bytes; lia).
  rewrite Hbs, qv_Read_full by lia. rewrite Hw, <-Hbs.
  rewrite take_app_length', drop_app_length' by (symmetry; apply length_be_bytes).
  do 2 f_equal. unfold varint_value, len. rewrite length_be_bytes.
  rewrite be_Z_be_bytes. destruct Hin as [[= <- <-]|[[= <- <-]|[[= <- <-]|[[= <- <-]|[]]]]];
    simpl in Hi' |- *; Z.div_mod_to_equations; lia.
Qed.
End Varint.

(** ** Writing frames *)
Lemma filled_varint written n buf i bs :
  varint_bytes i = Ret bs → filled written (length bs + n) buf →
  ∃ buf', varintPut buf (length written) i = Ret (buf', length bs)
          ∧ filled (written ++ bs) n buf'.
Proof.
  intros Hbs Hf. unfold varintPut. rewrite Hbs. simpl.
  destruct (filled_put _ _ _ _ Hf) as (buf' & -> & Hf'). by exists buf'.
Qed.

(** One write into the buffer [Hf] says is being filled: [next] is the lemma
    for it, applied to everything but [Hf]. *)
Tactic Notation "fill_next" hyp(Hf) uconstr(next) :=
  let E := fresh "E" in let Hf' := fresh "Hf" in
  destruct (next Hf) as (? & E & Hf'); clear Hf; rename Hf' into Hf;
  rewrite ?length_app, ?length_be_bytes in E; simpl in E; rewrite E; clear E; simpl; rewrite ?app_nil_l in Hf.

Lemma generate_spec p rnd :
  0 <= Min p < Max p → Max p < 2 ^ 32 →
  ∃ bs, generate p rnd = Ret bs ∧ Min p <= len bs < Max p ∧
        Forall (λ b, b ∈ bytes_of_string paddingChars) bs.
Proof.
  intros Hmin Hmax. unfold generate.
  rewrite (proj2 (Z.ltb_lt 0 _)) by lia.
  rewrite (wrapU_small 32 (Max p - Min p)) by lia.
  pose proof (Z.mod_pos_bound (u32 (randUint32 rnd)) (Max p - Min p) ltac:(lia)).
  rewrite (proj2 (Z.ltb_ge _ 0)) by lia.
  eexists; split; [done|]. unfold len. rewrite length_fmap, rand_Read_len. split; [lia|].
  apply List.Forall_forall. intros b Hb. apply in_map_iff in Hb as (c & <- & _).
  pose proof (Z_of_byte_bound c).
  change (Z.of_nat (length (bytes_of_string paddingChars))) with 62.
  destruct (lookup_lt_is_Some_2 (bytes_of_string paddingChars)
              (Z.to_nat (rem (Z_of_byte c) 62))) as [x Hx].
  { change (length (bytes_of_string paddingChars)) with 62%nat.
    pose proof (Z.rem_bound_pos (Z_of_byte c) 62). lia. }
  rewrite Hx. simpl. by eapply list_elem_of_lookup_2.
Qed.

Definition pads (ps : PaddingScheme) : list padding :=
  [AuthRequest_pad ps; AuthResponse_pad ps; TCPRequest_pad ps; TCPResponse_pad ps].

Definition pad_ok (p : padding) : Prop := 0 <= Min p < Max p ∧ Max p <= MaxPaddingLength.

Lemma derivePadding_ok hmac seed label b :
  0 <= MinLo b < MinHi b → 0 < SpanLo b < SpanHi b →
  MinHi b + SpanHi b <= MaxPaddingLength →
  pad_ok (derivePadding hmac seed label b).
Proof.
  unfold MaxPaddingLength, pad_ok, MaxPaddingLength. intros Hm Hs Hsum. simpl.
  rewrite !wrapU_small by lia.
  pose proof (Z.mod_pos_bound (be_Z (take 4 (hmac seed label))) (MinHi b - MinLo b) ltac:(lia)).
  pose proof (Z.mod_pos_bound (be_Z (take 4 (drop 4 (hmac seed label)))) (SpanHi b - SpanLo b) ltac:(lia)).
  lia.
Qed.

Lemma NewPaddingScheme_pads_ok hmac seed : Forall pad_ok (pads (NewPaddingScheme hmac seed)).
Proof.
  unfold NewPaddingScheme, pads. case_decide.
  - repeat apply List.Forall_cons; [..|apply List.Forall_nil];
      unfold pad_ok, MaxPaddingLength; simpl; lia.
  - repeat apply List.Forall_cons; [..|apply List.Forall_nil];
      apply derivePadding_ok; unfold MaxPaddingLength; simpl; lia.
Qed.

Section FrameLemmas.
Context `{QuicVarint}.

Lemma ReadFull_app n bs rest :
  len bs = n → ReadFull (bs ++ rest) n = Ok (bs, rest).
Proof.
  unfold ReadFull, len. intros <-. rewrite Nat2Z.id, decide_True by (rewrite length_app; lia).
  by rewrite take_app_length, drop_app_length.
Qed.

Lemma DiscardN_app n bs rest : len bs = n → DiscardN (bs ++ rest) n = Ok rest.
Proof.
  unfold DiscardN, len. intros <-. rewrite Nat2Z.id, decide_True by (rewrite length_app; lia).
  by rewrite drop_app_length.
Qed.

Lemma discard_padding pad rest :
  (if 0 <? len pad then DiscardN (pad ++ rest) (len pad) else Ok (pad ++ rest)) = Ok rest.
Proof.
  destruct (Z.ltb_spec 0 (len pad)); [by apply DiscardN_app|].
  destruct pad; [done|]. unfold len in *. simpl in *. lia.
Qed.

Lemma WriteTCPRequest_wire addr ps rnd pad t l p :
  generate (TCPRequest_pad (orDefault ps)) rnd = Ret pad →
  varint_bytes FrameTypeTCPRequest = Ret t → qv_Len FrameTypeTCPRequest = len t →
  varint_bytes (len addr) = Ret l → len l = qv_Len (len addr) →
  varint_bytes (len pad) = Ret p → len p = qv_Len (len pad) →
  WriteTCPRequest addr ps rnd = Ret (t ++ l ++ addr ++ p ++ pad).
Proof.
  intros Hg Ht Lt Hl Ll Hp Lp. unfold WriteTCPRequest. rewrite Hg. simpl.
  rewrite Lt, <-Ll, <-Lp. set (buf := replicate _ _).
  assert (filled [] (length t + (length l + (length addr + (length p + (length pad + 0))))) buf)
    as Hf.
  { exists buf. split; [done|]. unfold buf. rewrite length_replicate. unfold len. lia. }
  fill_next Hf (filled_varint _ _ _ _ _ Ht). fill_next Hf (filled_varint _ _ _ _ _ Hl).
  fill_next Hf (filled_copy _ _ _ _). fill_next Hf (filled_varint _ _ _ _ _ Hp).
  fill_next Hf (filled_copy _ _ _ _).
  rewrite (filled_full _ _ Hf), <-!app_assoc. done.
Qed.

Lemma WriteTCPResponse_wire ok msg ps rnd pad l p :
  generate (TCPResponse_pad (orDefault ps)) rnd = Ret pad →
  varint_bytes (len msg) = Ret l → len l = qv_Len (len msg) →
  varint_bytes (len pad) = Ret p → len p = qv_Len (len pad) →
  WriteTCPResponse ok msg ps rnd =
    Ret ([if ok then Byte.x00 else Byte.x01] ++ l ++ msg ++ p ++ pad).
Proof.
  intros Hg Hl Ll Hp Lp. unfold WriteTCPResponse. rewrite Hg. simpl.
  rewrite <-Ll, <-Lp. set (buf := replicate _ _). set (st := if ok then _ else _).
  assert (filled [] (length [st] + (length l + (length msg + (length p + (length pad + 0))))) buf)
    as Hf.
  { exists buf. split; [done|]. unfold buf. rewrite length_replicate. unfold len. simpl length. lia. }
  fill_next Hf (filled_put _ _ _ _). fill_next Hf (filled_varint _ _ _ _ _ Hl).
  fill_next Hf (filled_copy _ _ _ _). fill_next Hf (filled_varint _ _ _ _ _ Hp).
  fill_next Hf (filled_copy _ _ _ _).
  rewrite (filled_full _ _ Hf), <-!app_assoc. done.
Qed.
End FrameLemmas.

(** ** UDP messages *)
Definition wf_message (m : UDPMessage) : Prop :=
  0 <= SessionID m < 2 ^ 32 ∧ 0 <= PacketID m < 2 ^ 16 ∧
  0 <= FragID m < 2 ^ 8 ∧ 0 <= FragCount m < 2 ^ 8.

(** What a receiver accepts on top: a usable address and at least one byte of data. *)
Definition acceptable (m : UDPMessage) : Prop :=
  1 <= len (Addr m) <= MaxMessageLength ∧ Data m ≠ [].

Definition wire_header (m : UDPMessage) : bytes :=
  be_bytes 4 (SessionID m) ++ be_bytes 2 (PacketID m) ++
  [byte_of_Z (FragID m)] ++ [byte_of_Z (FragCount m)].

Section UDP.
Context `{QuicVarint}.

Lemma HeaderSize_bounds m :
  len (Addr m) <= MaxMessageLength → 9 + len (Addr m) <= HeaderSize m <= 10 + len (Addr m).
Proof.
  unfold HeaderSize, MaxMessageLength. intros. pose proof (len_nonneg (Addr m)).
  rewrite qv_Len_spec by lia.
  repeat (case_if; try lia).
Qed.

Lemma Serialize_fits m buf l :
  varint_bytes (len (Addr m)) = Ret l → len l = qv_Len (len (Addr m)) →
  Size m <= len buf →
  ∃ tail, Serialize m buf =
          Ret ((wire_header m ++ l ++ Addr m ++ Data m) ++ tail, Size m) ∧
          len tail = len buf - Size m.
Proof.
  intros Hl Ll Hfit. unfold Serialize. rewrite (proj2 (Z.ltb_ge _ _)) by done.
  set (n := Z.to_nat (len buf - Size m)).
  assert (filled [] (length (be_bytes 4 (SessionID m)) + (length (be_bytes 2 (PacketID m)) +
    (length [byte_of_Z (FragID m)] + (length [byte_of_Z (FragCount m)] +
    (length l + (length (Addr m) + (length (Data m) + n))))))) buf) as Hf.
  { exists buf. split; [done|]. rewrite !length_be_bytes.
    unfold n, Size, HeaderSize, len in *. simpl length. lia. }
  fill_next Hf (filled_put _ _ _ _). fill_next Hf (filled_put _ _ _ _).
  fill_next Hf (filled_put _ _ _ _). fill_next Hf (filled_put _ _ _ _).
  fill_next Hf (filled_varint _ _ _ _ _ Hl).
  fill_next Hf (filled_copy _ _ _ _). fill_next Hf (filled_copy _ _ _ _).
  destruct Hf as (tail & -> & Ht). exists tail. split.
  - unfold mret, outcome_ret. do 2 f_equal.
    + unfold wire_header. by rewrite <-!app_assoc.
    + unfold Size, HeaderSize. rewrite <-Ll. unfold len. lia.
  - unfold len at 1. rewrite Ht. unfold n. pose proof (len_nonneg (Data m)).
    rewrite Z2Nat.id; lia.
Qed.

Lemma Serialize_small m buf : len buf < Size m → Serialize m buf = Ret (buf, -1).
Proof. intros. unfold Serialize. by rewrite (proj2 (Z.ltb_lt _ _)). Qed.

Lemma slice_to_app b tail n : len b = n → slice_to (b ++ tail) n = Ret b.
Proof.
  intros <-. unfold slice_to. rewrite len_app.
  pose proof (len_nonneg b). pose proof (len_nonneg tail).
  rewrite !(proj2 (Z.leb_le _ _)) by lia. simpl.
  unfold len. by rewrite Nat2Z.id, take_app_length.
Qed.

Lemma len_wire m l :
  len l = qv_Len (len (Addr m)) →
  len (wire_header m ++ l ++ Addr m ++ Data m) = Size m.
Proof.
  intros Hl. unfold Size, HeaderSize. rewrite <-Hl.
  unfold wire_header, len. rewrite !length_app, !length_be_bytes. simpl. lia.
Qed.

(** [SerializeTo] never panics and never depends on the hint buffer. *)
Lemma SerializeTo_wire m buf l :
  varint_bytes (len (Addr m)) = Ret l → len l = qv_Len (len (Addr m)) →
  SerializeTo m buf = Ret (wire_header m ++ l ++ Addr m ++ Data m).
Proof.
  intros Hl Ll. unfold SerializeTo. pose proof (len_nonneg (Data m)) as Hd.
  pose proof (len_nonneg (wire_header m ++ l ++ Addr m ++ Data m)) as Hs.
  rewrite (len_wire _ _ Ll) in Hs.
  destruct (Z.le_gt_cases (Size m) (len buf)) as [Hfit|Hsmall].
  - destruct (Serialize_fits _ _ _ Hl Ll Hfit) as (tail & -> & _). cbn [mbind outcome_bind].
    rewrite (proj2 (Z.leb_le _ _)) by done. apply slice_to_app. by apply len_wire.
  - rewrite (Serialize_small m buf) by lia. cbn [mbind outcome_bind].
    rewrite (proj2 (Z.leb_gt 0 (-1))) by lia.
    destruct (Serialize_fits m (replicate (Z.to_nat (Size m)) Byte.x00) l Hl Ll) as (tail & -> & _).
    { unfold len. rewrite length_replicate. lia. }
    cbn [mbind outcome_bind]. apply slice_to_app. by apply len_wire.
Qed.

Lemma varint_width_bound b : ∃ n, varint_width b = S n ∧ (n <= 7)%nat.
Proof.
  unfold varint_width. pose proof (Z_of_byte_bound b).
  assert (0 <= Z_of_byte b / 64 < 4) as Hr by (Z.div_mod_to_equations; lia).
  destruct (Z.to_nat (Z_of_byte b / 64)) as [|[|[|[|]]]] eqn:E; [| | | |lia].
  - by exists 0%nat; split; [|lia].
  - by exists 1%nat; split; [|lia].
  - by exists 3%nat; split; [|lia].
  - by exists 7%nat; split; [|lia].
Qed.

Lemma varint_value_nonneg enc : 1 <= len enc → 0 <= varint_value enc.
Proof. intros. apply Z.mod_pos_bound, Z.pow_pos_nonneg; lia. Qed.

Lemma qv_Read_inv buf v rest :
  qv_Read buf = Ok (v, rest) →
  ∃ enc, buf = enc ++ rest ∧ 1 <= len enc <= 8 ∧ 0 <= v ∧
         ∀ rest', qv_Read (enc ++ rest') = Ok (v, rest').
Proof.
  destruct buf as [|b bs]; [by rewrite qv_Read_nil|]. intros Hr.
  destruct (decide (varint_width b <= length (b :: bs))%nat) as [Hw|Hw].
  - rewrite qv_Read_full in Hr by done. injection Hr as <- <-.
    exists (take (varint_width b) (b :: bs)). split; [by rewrite take_drop|].
    destruct (varint_width_bound b) as (n & Hn & Hn8).
    assert (len (take (varint_width b) (b :: bs)) = Z.of_nat (S n)) as Hlen.
    { unfold len. rewrite length_take. lia. }
    split; [lia|]. split; [apply varint_value_nonneg; lia|]. intros rest'.
    rewrite Hn in *. simpl take. clear Hlen.
    simpl in Hw. assert (length (take n bs) = n) as Ht by (rewrite length_take; lia).
    rewrite <-app_comm_cons, qv_Read_full by (rewrite Hn; simpl; rewrite length_app; lia).
    rewrite Hn. simpl. rewrite take_app_length', drop_app_length' by done. done.
  - destruct (qv_Read_short b bs) as [e He]; [lia|]. by rewrite He in Hr.
Qed.

Lemma binary_Read_app n b rest :
  length b = n → binary_Read n (b ++ rest) = Ok (be_Z b, rest).
Proof. intros Hn. unfold binary_Read. rewrite ReadFull_app; [done|]. unfold len. lia. Qed.

Lemma binary_Read_inv n buf v rest :
  binary_Read n buf = Ok (v, rest) → buf = be_bytes n v ++ rest ∧ 0 <= v < 256 ^ Z.of_nat n.
Proof.
  unfold binary_Read, ReadFull. rewrite Nat2Z.id. case_decide as Hl; [|done].
  simpl. intros [= <- <-].
  assert (length (take n buf) = n) as Ht by (rewrite length_take; lia).
  split.
  - pose proof (be_bytes_be_Z (take n buf)) as Hb. rewrite Ht in Hb.
    by rewrite Hb, take_drop.
  - pose proof (be_Z_bound (take n buf)) as Hb. unfold len in Hb. by rewrite Ht in Hb.
Qed.

Lemma ParseUDPMessage_wire m enc :
  wf_message m → acceptable m →
  (∀ rest, qv_Read (enc ++ rest) = Ok (len (Addr m), rest)) →
  ParseUDPMessage (wire_header m ++ enc ++ Addr m ++ Data m) = Ok m.
Proof.
  intros (Hs & Hp & Hf & Hc) (Ha & Hd) Henc. unfold wire_header, ParseUDPMessage.
  rewrite <-!app_assoc.
  rewrite binary_Read_app by apply length_be_bytes. cbn [mbind result_bind].
  rewrite binary_Read_app by apply length_be_bytes. cbn [mbind result_bind].
  rewrite (binary_Read_app 1 [_]) by done. cbn [mbind result_bind].
  rewrite (binary_Read_app 1 [_]) by done. cbn [mbind result_bind].
  rewrite Henc. cbn [mbind result_bind].
  rewrite (proj2 (Z.eqb_neq _ _)), (proj2 (Z.ltb_ge MaxMessageLength _)) by lia. cbn [orb].
  assert (0 < len (Data m)) by (destruct (Data m); unfold len; simpl in *; [done|lia]).
  rewrite (proj2 (Z.leb_gt _ _)) by (rewrite len_app; lia).
  unfold len at 1 2. rewrite Nat2Z.id, take_app_length, drop_app_length.
  rewrite !be_Z_be_bytes_small by (simpl; lia).
  unfold be_Z. simpl. rewrite !byte_of_Z_small by lia.
  by destruct m.
Qed.

Lemma ParseUDPMessage_inv msg m :
  ParseUDPMessage msg = Ok m →
  wf_message m ∧ acceptable m ∧
  ∃ enc, msg = wire_header m ++ enc ++ Addr m ++ Data m ∧
         ∀ rest, qv_Read (enc ++ rest) = Ok (len (Addr m), rest).
Proof.
  unfold ParseUDPMessage. intros Hm.
  apply result_bind_inv in Hm as ([sid b1] & Hsid & Hm).
  apply result_bind_inv in Hm as ([pid b2] & Hpid & Hm).
  apply result_bind_inv in Hm as ([fid b3] & Hfid & Hm).
  apply result_bind_inv in Hm as ([fc b4] & Hfc & Hm).
  apply result_bind_inv in Hm as ([lAddr bs] & Hl & Hm).
  apply binary_Read_inv in Hsid as [-> Hsid]. apply binary_Read_inv in Hpid as [-> Hpid].
  apply binary_Read_inv in Hfid as [-> Hfid]. apply binary_Read_inv in Hfc as [-> Hfc].
  apply qv_Read_inv in Hl as (enc & -> & _ & Hpos & Henc).
  repeat (case_if; try done). injection Hm as <-.
  unfold wf_message, acceptable. simpl in *.
  assert (len (take (Z.to_nat lAddr) bs) = lAddr) as Hlen.
  { unfold len in *. rewrite length_take. lia. }
  rewrite Hlen. split_and!; try lia.
  - intros Hnil. apply (f_equal length) in Hnil. rewrite length_drop in Hnil.
    unfold len in *. simpl in Hnil. lia.
  - exists enc. split; [|done]. unfold wire_header. simpl.
    by rewrite take_drop, !Z.shiftr_0_r.
Qed.
End UDP.

Section Theorems.
Context `{QuicVarint}.

(** Serializing a UDP message, into any hint buffer whatever its size,
    never panics, gives exactly [Size] bytes, and parsing those bytes gives
    the message back. *)
Theorem UDPMessage_roundtrip m buf :
  wf_message m → acceptable m →
  ∃ out, SerializeTo m buf = Ret out ∧ len out = Size m ∧ ParseUDPMessage out = Ok m.
Proof.
  intros Hwf Hacc. pose proof (len_nonneg (Addr m)).
  destruct (varint_bytes_spec (len (Addr m))) as (l & Hl & Ll & Hread).
  { destruct Hacc as [Ha _]. unfold MaxMessageLength, maxVarInt8 in *. lia. }
  eexists. split; [by apply SerializeTo_wire|]. split; [by apply len_wire|].
  by apply ParseUDPMessage_wire.
Qed.

(** [ParseUDPMessage] accepts exactly the well-formed datagrams: a fixed
    8-byte header, a varint of the address length in any of its encodings, an
    address of 1 to 2048 bytes and at least one byte of data; everything else
    is an error. *)
Lemma ParseUDPMessage_accepts msg m :
  ParseUDPMessage msg = Ok m ↔
  wf_message m ∧ acceptable m ∧
  ∃ enc, msg = wire_header m ++ enc ++ Addr m ++ Data m ∧
         ∀ rest, qv_Read (enc ++ rest) = Ok (len (Addr m), rest).
Proof.
  split; [apply ParseUDPMessage_inv|].
  intros (Hwf & Hacc & enc & -> & Henc). by apply ParseUDPMessage_wire.
Qed.

(** Whatever the padding seed and the random bytes, a TCP request written
    for an address of 1 to 2048 bytes is the frame type 0x401 followed by a
    body from which [ReadTCPRequest] gets the address back, leaving whatever
    follows on the stream untouched. *)
Lemma TCPRequest_read_back hmac seed addr rnd :
  1 <= len addr <= MaxAddressLength →
  ∃ body, WriteTCPRequest addr (Some (NewPaddingScheme hmac seed)) rnd
            = Ret ([Byte.x44; Byte.x01] ++ body) ∧
          ∀ rest, ReadTCPRequest (body ++ rest) = Ok (addr, rest).
Proof.
  unfold MaxAddressLength. intros Ha.
  pose proof (NewPaddingScheme_pads_ok hmac seed) as Hpads.
  apply List.Forall_cons_iff in Hpads as [_ Hpads].
  apply List.Forall_cons_iff in Hpads as [_ Hpads].
  apply List.Forall_cons_iff in Hpads as [[Hmin Hmax] _].
  unfold MaxPaddingLength in Hmax.
  destruct (generate_spec _ rnd Hmin ltac:(lia)) as (pad & Hgen & Hpad & _).
  destruct (varint_bytes_spec (len addr)) as (l & Hl & Ll & Rl); [unfold maxVarInt8; lia|].
  destruct (varint_bytes_spec (len pad)) as (p & Hp & Lp & Rp); [unfold maxVarInt8; lia|].
  exists (l ++ addr ++ p ++ pad). split.
  - apply WriteTCPRequest_wire; try done. by rewrite qv_Len_spec.
  - intros rest. unfold ReadTCPRequest. rewrite <-!app_assoc, Rl. cbn [mbind result_bind].
    unfold MaxAddressLength, MaxPaddingLength.
    rewrite (proj2 (Z.eqb_neq _ _)), (proj2 (Z.ltb_ge 2048 _)) by lia. cbn [orb].
    rewrite ReadFull_app by done. cbn [mbind result_bind].
    rewrite Rp. cbn [mbind result_bind]. rewrite (proj2 (Z.ltb_ge 4096 _)) by lia.
    by rewrite discard_padding.
Qed.

(** Whatever the padding seed and the random bytes, a TCP response written
    for a message of at most 2048 bytes reads back as the same verdict and
    message. *)
Lemma TCPResponse_read_back hmac seed ok msg rnd :
  len msg <= MaxMessageLength →
  ∃ frame, WriteTCPResponse ok msg (Some (NewPaddingScheme hmac seed)) rnd = Ret frame ∧
           ∀ rest, ReadTCPResponse (frame ++ rest) = Ok (ok, msg, rest).
Proof.
  unfold MaxMessageLength. intros Ha. pose proof (len_nonneg msg).
  pose proof (NewPaddingScheme_pads_ok hmac seed) as Hpads.
  apply List.Forall_cons_iff in Hpads as [_ Hpads].
  apply List.Forall_cons_iff in Hpads as [_ Hpads].
  apply List.Forall_cons_iff in Hpads as [_ Hpads].
  apply List.Forall_cons_iff in Hpads as [[Hmin Hmax] _].
  unfold MaxPaddingLength in Hmax.
  destruct (generate_spec _ rnd Hmin ltac:(lia)) as (pad & Hgen & Hpad & _).
  destruct (varint_bytes_spec (len msg)) as (l & Hl & Ll & Rl); [unfold maxVarInt8; lia|].
  destruct (varint_bytes_spec (len pad)) as (p & Hp & Lp & Rp); [unfold maxVarInt8; lia|].
  eexists. split; [by apply WriteTCPResponse_wire|].
  intros rest. unfold ReadTCPResponse. rewrite <-!app_assoc, ReadFull_app by done.
  cbn [mbind result_bind]. rewrite Rl. cbn [mbind result_bind].
  unfold MaxMessageLength, MaxPaddingLength. rewrite (proj2 (Z.ltb_ge 2048 _)) by lia.
  assert ((if 0 <? len msg then ReadFull (msg ++ p ++ pad ++ rest) (len msg)
           else Ok ([], msg ++ p ++ pad ++ rest)) = Ok (msg, p ++ pad ++ rest)) as ->.
  { destruct (Z.ltb_spec 0 (len msg)); [by apply ReadFull_app|].
    destruct msg; [done|]. unfold len in *. simpl in *. lia. }
  cbn [mbind result_bind]. rewrite Rp. cbn [mbind result_bind].
  rewrite (proj2 (Z.ltb_ge 4096 _)) by lia. rewrite discard_padding. simpl.
  by destruct ok.
Qed.

(** TCP frames read back, whatever the padding seed and the random bytes.  A
    request for an address of 1 to 2048 bytes is the frame type 0x401 followed by
    a body from which [ReadTCPRequest] gets the address, and a response with a
    message of at most 2048 bytes gives [ReadTCPResponse] the verdict and the
    message; both leave what follows on the stream untouched. *)
Theorem TCP_frames_roundtrip hmac seed addr ok msg rnd :
  1 <= len addr <= MaxAddressLength → len msg <= MaxMessageLength →
  (∃ body, WriteTCPRequest addr (Some (NewPaddingScheme hmac seed)) rnd = Ret ([Byte.x44; Byte.x01] ++ body) ∧
           ∀ rest, ReadTCPRequest (body ++ rest) = Ok (addr, rest)) ∧
  (∃ frame, WriteTCPResponse ok msg (Some (NewPaddingScheme hmac seed)) rnd = Ret frame ∧
            ∀ rest, ReadTCPResponse (frame ++ rest) = Ok (ok, msg, rest)).
Proof. intros Ha Hm. split; [by apply TCPRequest_read_back|by apply TCPResponse_read_back]. Qed.

Lemma ReadFull_inv r n b rest : 0 <= n → ReadFull r n = Ok (b, rest) → r = b ++ rest ∧ len b = n.
Proof.
  unfold ReadFull. intros Hn. case_decide as Hl; [|done]. intros [= <- <-].
  split; [by rewrite take_drop|]. unfold len. rewrite length_take. lia.
Qed.

Lemma DiscardN_inv r n rest : 0 <= n → DiscardN r n = Ok rest → ∃ b, r = b ++ rest ∧ len b = n.
Proof.
  unfold DiscardN. intros Hn. case_decide as Hl; [|done]. intros [= <-].
  exists (take (Z.to_nat n) r). split; [by rewrite take_drop|]. unfold len. rewrite length_take. lia.
Qed.

(** A peer cannot make [ReadTCPRequest] take more than a bounded amount
    from the stream: on success the address has 1 to 2048 bytes and the frame
    at most 6160, and an oversized length is refused before anything of that
    length is read. *)
Theorem ReadTCPRequest_bounded r addr rest :
  ReadTCPRequest r = Ok (addr, rest) →
  1 <= len addr <= MaxAddressLength ∧
  ∃ frame, r = frame ++ rest ∧ len frame <= 8 + MaxAddressLength + 8 + MaxPaddingLength.
Proof.
  unfold ReadTCPRequest. intros Hr.
  apply result_bind_inv in Hr as ([al r1] & Hal & Hr).
  apply qv_Read_inv in Hal as (e1 & -> & He1 & Hpos & _). case_if; [done|].
  apply result_bind_inv in Hr as ([ab r2] & Hab & Hr).
  apply ReadFull_inv in Hab as [-> Hab]; [|done].
  apply result_bind_inv in Hr as ([pl r3] & Hpl & Hr).
  apply qv_Read_inv in Hpl as (e2 & -> & He2 & Hpos2 & _).
  case_if; [done|]. apply result_bind_inv in Hr as (r4 & Hr4 & Hr). injection Hr as <- <-.
  assert (∃ b, r3 = b ++ r4 ∧ len b = pl) as (b & -> & Hb).
  { case_if; [by apply DiscardN_inv|]. injection Hr4 as <-. exists [].
    split; [done|]. unfold len. simpl. lia. }
  split; [lia|]. exists (e1 ++ ab ++ e2 ++ b). split; [by rewrite <-!app_assoc|].
  rewrite !len_app. lia.
Qed.
End Theorems.

(** Every padding a scheme derived from any seed generates has a length in
    the scheme's range, below [MaxPaddingLength], which the readers enforce,
    and consists of the letters and digits that are legal in a header. *)
Theorem NewPaddingScheme_generates hmac seed p rnd :
  p ∈ pads (NewPaddingScheme hmac seed) →
  ∃ bs, generate p rnd = Ret bs ∧ Min p <= len bs < Max p ∧ Max p <= MaxPaddingLength ∧
        Forall (λ b, b ∈ bytes_of_string paddingChars) bs.
Proof.
  intros Hp. pose proof (NewPaddingScheme_pads_ok hmac seed) as Hok.
  rewrite List.Forall_forall in Hok. destruct (Hok p) as [Hm HM]; [by apply list_elem_of_In|].
  destruct (generate_spec p rnd Hm) as (bs & ? & ? & ?); [unfold MaxPaddingLength in *; lia|].
  by exists bs.
Qed.

(** ** Witnesses *)
Definition zero_entropy : entropy.
Proof.
  refine {| randUint32 := 7; rand_Read n := replicate n Byte.x05 |}.
  intros n. apply length_replicate.
Defined.

Definition zero_hmac (k m : bytes) : bytes := replicate 32 Byte.x01.

Definition sample_message : UDPMessage :=
  {| SessionID := 1; PacketID := 2; FragID := 3; FragCount := 4;
     Addr := bytes_of_string "example.com:53"; Data := bytes_of_string "query" |}.

Lemma UDPMessage_roundtrip_witness :
  ∃ out, SerializeTo (H := rfc9000) sample_message [] = Ret out ∧
         len out = Size (H := rfc9000) sample_message ∧
         ParseUDPMessage (H := rfc9000) out = Ok sample_message.
Proof.
  apply (UDPMessage_roundtrip (H := rfc9000) sample_message []).
  - unfold wf_message. simpl. lia.
  - unfold acceptable, MaxMessageLength. vm_compute. done.
Defined.

Lemma TCP_frames_roundtrip_witness :
  (∃ body, WriteTCPRequest (H := rfc9000) (bytes_of_string "example.com:443")
             (Some (NewPaddingScheme zero_hmac [Byte.x01])) zero_entropy = Ret ([Byte.x44; Byte.x01] ++ body) ∧
           ∀ rest, ReadTCPRequest (H := rfc9000) (body ++ rest) = Ok (bytes_of_string "example.com:443", rest)) ∧
  (∃ frame, WriteTCPResponse (H := rfc9000) false (bytes_of_string "refused")
              (Some (NewPaddingScheme zero_hmac [Byte.x01])) zero_entropy = Ret frame ∧
            ∀ rest, ReadTCPResponse (H := rfc9000) (frame ++ rest) = Ok (false, bytes_of_string "refused", rest)).
Proof. apply (TCP_frames_roundtrip (H := rfc9000)); vm_compute; done. Defined.
