(* ===== verification/Frag.v ===== *)
(** * UDP fragmentation and reassembly (core/internal/frag/frag.go)

    [FragUDPMessage] cuts a message into fragments that fit a datagram,
    [Feed] collects fragments into groups keyed by packet ID.  The clock is an
    argument: [now] is what [d.now()] returned.  Fragments are immutable once
    stored (the code never writes through a stored pointer before the group
    has left the table), so they are modelled as values. *)
From S2P Require Import Prelude Protocol.

Definition defraggerTimeout : Z := 10 * Second.
Definition defraggerMaxEntries : Z := 8.
Definition defraggerMaxMessageSize : Z := 65535.

Section Fragment.
Context `{QuicVarint}.

Definition zero_message : UDPMessage :=
  {| SessionID := 0; PacketID := 0; FragID := 0; FragCount := 0; Addr := []; Data := [] |}.

(** [frag := *m] with the fragment fields set. *)
Definition fragment (m : UDPMessage) (fragID fragCount : Z) (data : bytes) : UDPMessage :=
  {| SessionID := SessionID m; PacketID := PacketID m; FragID := fragID;
     FragCount := fragCount; Addr := Addr m; Data := data |}.

(** The loop: [fuel] bounds the iterations; every one consumes at least one
    byte, so the payload length is enough. *)
Fixpoint frag_loop (fuel : nat) (m : UDPMessage) (maxPayloadSize fragCount off fragID : Z)
    (frags : list UDPMessage) : outcome (list UDPMessage) :=
  match fuel with
  | O => Ret frags
  | S fuel =>
    if off <? len (Data m) then
      let payloadSize := Z.min (len (Data m) - off) maxPayloadSize in
      let frag := fragment m fragID fragCount
                    (take (Z.to_nat payloadSize) (drop (Z.to_nat off) (Data m))) in
      if fragID <? len frags then
        frag_loop fuel m maxPayloadSize fragCount (off + payloadSize) (u8 (fragID + 1))
          (<[Z.to_nat fragID := frag]> frags)
      else Panic
    else Ret frags
  end.

Definition FragUDPMessage (m : UDPMessage) (maxSize : Z) : outcome (list UDPMessage) :=
  if Size m <=? maxSize then Ret [m] else
  let maxPayloadSize := maxSize - HeaderSize m in
  if maxPayloadSize <=? 0 then Ret [] else
  let fragCount := u8 (quot (len (Data m) + maxPayloadSize - 1) maxPayloadSize) in
  frag_loop (length (Data m)) m maxPayloadSize fragCount 0 0
    (replicate (Z.to_nat fragCount) zero_message).
End Fragment.

(** ** The defragger *)
Record defraggerEntry := mkEntry {
  frags : list (option UDPMessage);
  count : Z;   (* uint8 *)
  size : Z;
  last : Z;
}.

Record Defragger := mkDefragger {
  entries : gmap Z defraggerEntry;
  timeout : Z;
  maxEntries : Z;
}.

Definition Defragger_init (d : Defragger) : Defragger :=
  {| entries := entries d;
     timeout := if timeout d <=? 0 then defraggerTimeout else timeout d;
     maxEntries := if maxEntries d <=? 0 then defraggerMaxEntries else maxEntries d |}.

Definition NewDefragger : Defragger := Defragger_init (mkDefragger ∅ 0 0).

Definition set_entries (d : Defragger) (es : gmap Z defraggerEntry) : Defragger :=
  mkDefragger es (timeout d) (maxEntries d).

(** Copying the fragments, in order, into the assembled buffer.  A missing
    fragment would be a nil dereference. *)
Fixpoint assemble (fs : list (option UDPMessage)) (data : bytes) (off : nat) : outcome bytes :=
  match fs with
  | [] => Ret data
  | None :: _ => Panic
  | Some f :: fs => '(data, n) ← buf_copy data off (Data f); assemble fs data (off + n)
  end.

Section Defrag.
Context `{!MapRange Z defraggerEntry}.

(** Deleting during a range: entries are visited in the unspecified order. *)
Definition sweep (now : Z) (d : Defragger) : Defragger :=
  set_entries d (range_delete (λ _ e, timeout d <? now - last e) (entries d)).

(** The least recently updated group; on a tie, the first one the range visits. *)
Definition evictOldest (d : Defragger) : Defragger :=
  match range_min last (map_range (entries d)) with
  | Some (id, _) => set_entries d (delete id (entries d))
  | None => d
  end.

(** The second half of [Feed]: [e] is the group of [m], to be stored. *)
Definition Feed_store (m : UDPMessage) (now : Z) (e : defraggerEntry) (d : Defragger)
    : outcome (Defragger * option UDPMessage) :=
  let e := {| frags := <[Z.to_nat (FragID m) := Some m]> (frags e);
              count := u8 (count e + 1);
              size := size e + len (Data m);
              last := now |} in
  if defraggerMaxMessageSize <? size e then
    Ret (set_entries d (delete (PacketID m) (entries d)), None)
  else if negb (count e =? len (frags e)) then
    Ret (set_entries d (<[PacketID m := e]> (entries d)), None)
  else
    data ← assemble (frags e) (replicate (Z.to_nat (size e)) Byte.x00) 0;
    Ret (set_entries d (delete (PacketID m) (entries d)), Some (fragment m 0 1 data)).

Definition Feed (m : UDPMessage) (now : Z) (d : Defragger)
    : outcome (Defragger * option UDPMessage) :=
  if FragCount m <=? 1 then Ret (d, Some m) else
  if FragCount m <=? FragID m then Ret (d, None) else
  let d := sweep now (Defragger_init d) in
  match entries d !! PacketID m with
  | Some e =>
      if len (frags e) =? FragCount m then
        match frags e !! Z.to_nat (FragID m) with
        | None => Panic
        | Some (Some _) => Ret (d, None)
        | Some None => Feed_store m now e d
        end
      else Feed_store m now (mkEntry (replicate (Z.to_nat (FragCount m)) None) 0 0 0) d
  | None =>
      let d := if maxEntries d <=? Z.of_nat (base.size (entries d)) then evictOldest d else d in
      Feed_store m now (mkEntry (replicate (Z.to_nat (FragCount m)) None) 0 0 0) d
  end.

(** A whole stream of datagrams with their arrival times. *)
Fixpoint Feed_all (ms : list (UDPMessage * Z)) (d : Defragger)
    : outcome (Defragger * list (option UDPMessage)) :=
  match ms with
  | [] => Ret (d, [])
  | (m, now) :: ms =>
      '(d, o) ← Feed m now d;
      '(d, os) ← Feed_all ms d;
      mret (d, o :: os)
  end.
End Defrag.

(** * Fragmentation *)
Section FragmentLemmas.
Context `{QuicVarint}.

(** The number of fragments a payload needs, and the fragments. *)
Definition needed (m : UDPMessage) (maxSize : Z) : Z :=
  (len (Data m) + (maxSize - HeaderSize m) - 1) / (maxSize - HeaderSize m).

Definition chunk (p : bytes) (mps i : nat) : bytes := take mps (drop (i * mps) p).

Definition frags_of (m : UDPMessage) (maxSize : Z) : list UDPMessage :=
  (λ i, fragment m (Z.of_nat i) (needed m maxSize)
          (chunk (Data m) (Z.to_nat (maxSize - HeaderSize m)) i))
    <$> seq 0 (Z.to_nat (needed m maxSize)).

Lemma concat_chunks (p : bytes) mps n :
  concat (chunk p mps <$> seq 0 n) = take (n * mps) p.
Proof.
  induction n as [|n IH]; [done|].
  rewrite seq_S, fmap_app, concat_app, IH. simpl. rewrite app_nil_r.
  unfold chunk. replace (mps + n * mps)%nat with (n * mps + mps)%nat by lia.
  by rewrite take_take_drop.
Qed.

Section Loop.
Context (m : UDPMessage) (mps : nat) (Hmps : (0 < mps)%nat) (c : Z).

Let piece (i : nat) : UDPMessage := fragment m (Z.of_nat i) c (chunk (Data m) mps i).
Let L : nat := length (Data m).

(** One turn of the loop, writing fragment [k]. *)
Lemma frag_loop_turn fuel k fs :
  (k * mps < L)%nat → (k < length fs)%nat →
  frag_loop (S fuel) m (Z.of_nat mps) c (Z.of_nat (k * mps)) (Z.of_nat k) fs =
  frag_loop fuel m (Z.of_nat mps) c (Z.of_nat (Nat.min (S k * mps) L)) (u8 (Z.of_nat (S k)))
    (<[k := piece k]> fs).
Proof.
  intros Hk Hfs. simpl. unfold len.
  rewrite (proj2 (Z.ltb_lt _ _)) by (unfold L in Hk; lia).
  rewrite (proj2 (Z.ltb_lt _ _)) by lia. unfold piece, chunk.
  rewrite !Nat2Z.id. f_equal; [unfold L in *; lia | f_equal; lia |].
  f_equal. f_equal.
  destruct (Z.min_spec (Z.of_nat (length (Data m)) - Z.of_nat (k * mps)) (Z.of_nat mps))
    as [[? ->]|[? ->]]; [|by rewrite Nat2Z.id].
  rewrite !take_ge; [done|rewrite length_drop; lia..].
Qed.

Lemma frag_loop_stop fuel off k fs :
  (L <= off)%nat → frag_loop fuel m (Z.of_nat mps) c (Z.of_nat off) k fs = Ret fs.
Proof.
  intros Hoff. destruct fuel; simpl; [done|].
  rewrite (proj2 (Z.ltb_ge _ _)); [done|]. unfold len, L in *. lia.
Qed.

(** With a slot for every fragment the loop fills them all. *)
Lemma frag_loop_fills n fuel k :
  (k <= n <= 255)%nat → (L <= n * mps)%nat → (∀ i, (i < n)%nat → (i * mps < L)%nat) →
  (L <= fuel + k * mps)%nat →
  frag_loop fuel m (Z.of_nat mps) c (Z.of_nat (Nat.min (k * mps) L)) (Z.of_nat k)
    ((piece <$> seq 0 k) ++ replicate (n - k) zero_message) = Ret (piece <$> seq 0 n).
Proof.
  intros Hk HL Hall. revert k Hk. induction fuel as [|fuel IH]; intros k Hk Hfuel.
  - assert (k = n) as -> by (destruct (decide (k = n)); [done|]; pose proof (Hall k); lia).
    rewrite Nat.sub_diag, app_nil_r. done.
  - destruct (decide (k = n)) as [->|Hne].
    { rewrite frag_loop_stop by lia. by rewrite Nat.sub_diag, app_nil_r. }
    pose proof (Hall k ltac:(lia)) as Hkl. rewrite Nat.min_l by lia.
    rewrite frag_loop_turn; [|done|].
    2:{ rewrite length_app, length_fmap, length_seq, length_replicate. lia. }
    rewrite wrapU_small by lia.
    replace (<[k:=piece k]> _)
      with ((piece <$> seq 0 (S k)) ++ replicate (n - S k) zero_message).
    { apply IH; [lia|]. simpl. lia. }
    rewrite insert_app_r_alt by (rewrite length_fmap, length_seq; lia).
    rewrite length_fmap, length_seq, Nat.sub_diag, seq_S, fmap_app, <-app_assoc. f_equal.
    destruct (n - k)%nat as [|r] eqn:Hr; [lia|]. simpl. do 2 f_equal. lia.
Qed.

(** With fewer slots than fragments it runs off the end of the slice. *)
Lemma frag_loop_overruns s fuel k fs :
  (k <= s < 256)%nat → length fs = s → (s * mps < L)%nat →
  (L <= fuel + k * mps)%nat →
  frag_loop fuel m (Z.of_nat mps) c (Z.of_nat (k * mps)) (Z.of_nat k) fs = Panic.
Proof.
  intros Hk Hfs HL. revert k fs Hk Hfs.
  induction fuel as [|fuel IH]; intros k fs Hk Hfs Hfuel; [nia|].
  destruct (decide (k = s)) as [->|Hne].
  - simpl. rewrite (proj2 (Z.ltb_lt _ _)) by (unfold len, L in *; lia).
    rewrite (proj2 (Z.ltb_ge _ _)); [done|]. unfold len. lia.
  - assert (S k * mps <= s * mps)%nat by (apply Nat.mul_le_mono_r; lia).
    assert (k * mps < L)%nat by lia.
    rewrite frag_loop_turn by lia. rewrite wrapU_small by lia.
    rewrite Nat.min_l by lia. apply IH; [lia|by rewrite length_insert|simpl; lia].
Qed.
End Loop.

Lemma needed_bounds m maxSize :
  maxSize < Size m → HeaderSize m < maxSize →
  let mps := maxSize - HeaderSize m in
  2 <= needed m maxSize ∧ len (Data m) <= needed m maxSize * mps ∧
  ∀ i, 0 <= i < needed m maxSize → i * mps < len (Data m).
Proof.
  intros Hs Hh mps. unfold Size in Hs. unfold needed. fold mps.
  assert (0 < mps) by (unfold mps; lia).
  pose proof (Z.div_mod (len (Data m) + mps - 1) mps ltac:(lia)).
  pose proof (Z.mod_pos_bound (len (Data m) + mps - 1) mps ltac:(lia)).
  set (q := (len (Data m) + mps - 1) / mps) in *. assert (len (Data m) > mps) by (unfold mps; lia).
  split; [nia|]. split; [nia|]. intros i Hi. nia.
Qed.

Lemma FragUDPMessage_fits m maxSize : Size m <= maxSize → FragUDPMessage m maxSize = Ret [m].
Proof. intros. unfold FragUDPMessage. by rewrite (proj2 (Z.leb_le _ _)). Qed.

Lemma FragUDPMessage_frags m maxSize :
  maxSize < Size m → HeaderSize m < maxSize → needed m maxSize <= 255 →
  FragUDPMessage m maxSize = Ret (frags_of m maxSize).
Proof.
  intros Hs Hh Hn. destruct (needed_bounds m maxSize Hs Hh) as (H2 & HL & Hall).
  unfold FragUDPMessage. rewrite !(proj2 (Z.leb_gt _ _)) by lia.
  rewrite Z.quot_div_nonneg by (pose proof (len_nonneg (Data m)); lia).
  fold (needed m maxSize). rewrite wrapU_small by lia.
  set (mps := Z.to_nat (maxSize - HeaderSize m)).
  replace (maxSize - HeaderSize m) with (Z.of_nat mps) at 1 by lia.
  set (n := Z.to_nat (needed m maxSize)). unfold len in *.
  pose proof (frag_loop_fills m mps ltac:(lia) (needed m maxSize) n (length (Data m)) 0) as Hf.
  simpl in Hf. rewrite Nat.sub_0_r in Hf.
  apply Hf; [lia| |intros i Hi; specialize (Hall (Z.of_nat i))|]; lia.
Qed.

Lemma FragUDPMessage_overflow m maxSize :
  maxSize < Size m → HeaderSize m < maxSize → 255 < needed m maxSize →
  FragUDPMessage m maxSize = Panic.
Proof.
  intros Hs Hh Hn. destruct (needed_bounds m maxSize Hs Hh) as (H2 & HL & Hall).
  unfold FragUDPMessage. rewrite !(proj2 (Z.leb_gt _ _)) by lia.
  rewrite Z.quot_div_nonneg by (pose proof (len_nonneg (Data m)); lia).
  fold (needed m maxSize). pose proof (wrapU_bound 8 (needed m maxSize) ltac:(lia)) as Hc.
  set (mps := Z.to_nat (maxSize - HeaderSize m)).
  replace (maxSize - HeaderSize m) with (Z.of_nat mps) at 1 by lia.
  set (s := Z.to_nat (u8 (needed m maxSize))).
  specialize (Hall (Z.of_nat s) ltac:(lia)). unfold len in *.
  pose proof (frag_loop_overruns m mps ltac:(lia) (u8 (needed m maxSize)) s
    (length (Data m)) 0 (replicate s zero_message)) as Hf.
  simpl in Hf. apply Hf; [lia|apply length_replicate|lia|lia].
Qed.

Lemma frags_of_lookup m maxSize i f :
  frags_of m maxSize !! i = Some f ↔
  (i < Z.to_nat (needed m maxSize))%nat ∧
  f = fragment m (Z.of_nat i) (needed m maxSize)
        (chunk (Data m) (Z.to_nat (maxSize - HeaderSize m)) i).
Proof.
  unfold frags_of. rewrite list_lookup_fmap, fmap_Some. split.
  - intros (j & [-> Hj]%lookup_seq & ->). simpl. by split.
  - intros [Hi ->]. exists i. split; [|done]. by apply lookup_seq.
Qed.

Lemma length_frags_of m maxSize : length (frags_of m maxSize) = Z.to_nat (needed m maxSize).
Proof. unfold frags_of. by rewrite length_fmap, length_seq. Qed.

Lemma concat_frags_of m maxSize :
  maxSize < Size m → HeaderSize m < maxSize →
  concat (Data <$> frags_of m maxSize) = Data m.
Proof.
  intros Hs Hh. destruct (needed_bounds m maxSize Hs Hh) as (H2 & HL & _).
  unfold frags_of. rewrite <-list_fmap_compose.
  rewrite (list_fmap_ext _ (chunk (Data m) (Z.to_nat (maxSize - HeaderSize m)))) by done.
  rewrite concat_chunks. apply take_ge. unfold len in *. nia.
Qed.
End FragmentLemmas.

(** * Reassembly *)

(** ** Slots of a group *)
Fixpoint stored (fs : list (option UDPMessage)) : list UDPMessage :=
  match fs with
  | [] => []
  | Some m :: fs => m :: stored fs
  | None :: fs => stored fs
  end.

Definition data_of (fs : list UDPMessage) : bytes := concat (Data <$> fs).

Lemma data_of_app fs gs : data_of (fs ++ gs) = data_of fs ++ data_of gs.
Proof. unfold data_of. by rewrite fmap_app, concat_app. Qed.

Lemma len_data_of_Permutation fs gs : fs ≡ₚ gs → len (data_of fs) = len (data_of gs).
Proof.
  unfold data_of, len. intros Hp. f_equal. induction Hp; rewrite ?fmap_cons; simpl;
    rewrite ?length_app; lia.
Qed.

Lemma stored_app fs gs : stored (fs ++ gs) = stored fs ++ stored gs.
Proof. induction fs as [|[m|] fs IH]; simpl; congruence. Qed.

Lemma stored_insert fs i m :
  fs !! i = Some None → stored (<[i := Some m]> fs) ≡ₚ m :: stored fs.
Proof.
  intros Hi. rewrite <-(take_drop_middle fs i None Hi).
  assert (length (take i fs) = i) as Hl by (apply lookup_lt_Some in Hi; rewrite length_take; lia).
  rewrite insert_app_r_alt by lia. rewrite Hl, Nat.sub_diag. simpl.
  rewrite !stored_app. simpl. symmetry. apply Permutation_middle.
Qed.

Lemma stored_replicate n : stored (replicate n None) = [].
Proof. induction n; simpl; done. Qed.

Lemma length_stored fs : (length (stored fs) <= length fs)%nat.
Proof. induction fs as [|[m|] fs IH]; simpl; lia. Qed.

Lemma stored_full fs : length (stored fs) = length fs → fs = Some <$> stored fs.
Proof.
  induction fs as [|[m|] fs IH]; simpl; intros Hl; [done| |].
  - f_equal. apply IH. lia.
  - pose proof (length_stored fs) as Hs. lia.
Qed.

Lemma elem_of_stored fs f : f ∈ stored fs ↔ ∃ i, fs !! i = Some (Some f).
Proof.
  rewrite <-list_elem_of_lookup.
  induction fs as [|[m|] fs IH]; simpl; rewrite ?elem_of_cons, ?IH, ?elem_of_nil;
    firstorder congruence.
Qed.

Lemma assemble_full fs written buf :
  filled written (length (data_of fs)) buf →
  assemble (Some <$> fs) buf (length written) = Ret (written ++ data_of fs).
Proof.
  revert written buf. induction fs as [|f fs IH]; intros written buf Hf; simpl.
  - rewrite (filled_full _ _ Hf). by rewrite app_nil_r.
  - unfold data_of in Hf. simpl in Hf. rewrite length_app in Hf.
    destruct (filled_copy _ _ _ _ Hf) as (buf' & -> & Hf'). simpl.
    rewrite <-length_app, IH by done. unfold data_of. simpl. by rewrite app_assoc.
Qed.

Lemma assemble_all fs :
  assemble (Some <$> fs) (replicate (Z.to_nat (len (data_of fs))) Byte.x00) 0 = Ret (data_of fs).
Proof.
  pose proof (assemble_full fs [] (replicate (Z.to_nat (len (data_of fs))) Byte.x00)) as Ha.
  apply Ha. exists (replicate (Z.to_nat (len (data_of fs))) Byte.x00). split; [done|].
  rewrite length_replicate. unfold len. lia.
Qed.

(** ** The invariant *)
Definition slots_ok (id : Z) (fs : list (option UDPMessage)) : Prop :=
  ∀ i f, fs !! i = Some (Some f) →
    PacketID f = id ∧ FragID f = Z.of_nat i ∧ FragCount f = len fs.

Record entry_ok (id : Z) (e : defraggerEntry) : Prop := {
  ok_len : 2 <= len (frags e) <= 255;
  ok_slots : slots_ok id (frags e);
  ok_count : count e = len (stored (frags e));
  ok_partial : 0 < count e < len (frags e);
  ok_size : size e = len (data_of (stored (frags e)));
  ok_limit : size e <= defraggerMaxMessageSize;
}.

Record Defragger_ok (d : Defragger) : Prop := {
  ok_timeout : 0 < timeout d;
  ok_maxEntries : 0 < maxEntries d;
  ok_entries id e : entries d !! id = Some e → entry_ok id e;
  ok_table : Z.of_nat (base.size (entries d)) <= maxEntries d;
}.

(** What a group about to be stored into satisfies: the invariant of an entry
    except that it may still be empty. *)
Record group_ok (id : Z) (n : Z) (e : defraggerEntry) : Prop := {
  gr_len : len (frags e) = n;
  gr_slots : slots_ok id (frags e);
  gr_count : count e = len (stored (frags e));
  gr_partial : count e < n;
  gr_size : size e = len (data_of (stored (frags e)));
}.

Lemma NewDefragger_ok : Defragger_ok NewDefragger.
Proof.
  split; simpl; [unfold defraggerTimeout, Second; lia | unfold defraggerMaxEntries; lia | |].
  - intros id e He. by rewrite lookup_empty in He.
  - rewrite map_size_empty. unfold defraggerMaxEntries. lia.
Qed.

Lemma Defragger_init_id d : Defragger_ok d → Defragger_init d = d.
Proof.
  intros [Ht Hm _ _]. unfold Defragger_init. rewrite !(proj2 (Z.leb_gt _ _)) by done. by destruct d.
Qed.

Lemma group_ok_fresh id n :
  2 <= n → group_ok id n (mkEntry (replicate (Z.to_nat n) None) 0 0 0).
Proof.
  intros Hn. split; simpl; rewrite ?stored_replicate; try done.
  - unfold len. rewrite length_replicate. lia.
  - intros i f [? _]%lookup_replicate. done.
  - lia.
Qed.

Lemma group_ok_entry id e : entry_ok id e → group_ok id (len (frags e)) e.
Proof. intros [? ? ? ? ? ?]. split; try done. lia. Qed.

Lemma slots_ok_insert id n fs m :
  slots_ok id fs → len fs = n → PacketID m = id → FragCount m = n → 0 <= FragID m →
  slots_ok id (<[Z.to_nat (FragID m) := Some m]> fs).
Proof.
  intros Hs Hn Hid Hc Hf i f Hi. unfold len. rewrite length_insert. fold (len fs).
  apply list_lookup_insert_Some in Hi as [(<- & [= <-] & _)|(_ & Hi)].
  - split; [done|]. split; [lia|congruence].
  - by apply Hs.
Qed.

Section DefragLemmas.
Context `{!MapRange Z defraggerEntry}.

Lemma sweep_lookup now d id e :
  entries (sweep now d) !! id = Some e ↔
  entries d !! id = Some e ∧ now - last e <= timeout d.
Proof. unfold sweep. simpl. rewrite range_delete_Some, Z.ltb_ge. done. Qed.

Lemma Defragger_ok_shrink d es : Defragger_ok d → es ⊆ entries d → Defragger_ok (set_entries d es).
Proof.
  intros [Ht Hm He Hs] Hsub. split; simpl; try done.
  - intros id e Hid. apply He. by eapply lookup_weaken.
  - pose proof (map_subseteq_size _ _ Hsub). lia.
Qed.

Lemma sweep_ok now d : Defragger_ok d → Defragger_ok (sweep now d).
Proof. intros. apply Defragger_ok_shrink; [done|apply range_delete_subseteq]. Qed.

Lemma evictOldest_ok d : Defragger_ok d → Defragger_ok (evictOldest d).
Proof.
  intros Hd. unfold evictOldest. destruct (range_min _ _) as [[id t]|]; [|done].
  apply Defragger_ok_shrink; [done|apply delete_subseteq].
Qed.

Lemma evictOldest_room d :
  Defragger_ok d → Z.of_nat (base.size (entries (evictOldest d))) < maxEntries d.
Proof.
  intros [_ Hm _ Hs]. unfold evictOldest.
  pose proof (range_min_map last (entries d)) as Hmin.
  destruct (range_min _ _) as [[id t]|].
  - destruct Hmin as (e & He & _). simpl. rewrite map_size_delete, He. simpl.
    assert (base.size (entries d) ≠ 0%nat) by (intros Hz%map_size_empty_iff; by rewrite Hz, lookup_empty in He).
    lia.
  - rewrite Hmin. rewrite map_size_empty. done.
Qed.

Lemma maxEntries_evictOldest d : maxEntries (evictOldest d) = maxEntries d.
Proof. unfold evictOldest. by destruct (range_min _ _) as [[]|]. Qed.

(** Storing a fragment in its group: no panic, the invariant, and what comes
    out. *)
Lemma Feed_store_spec m now e d :
  Defragger_ok d → wf_message m → 2 <= FragCount m → FragID m < FragCount m →
  group_ok (PacketID m) (FragCount m) e →
  frags e !! Z.to_nat (FragID m) = Some None →
  (entries d !! PacketID m = None → Z.of_nat (base.size (entries d)) < maxEntries d) →
  let fs := <[Z.to_nat (FragID m) := Some m]> (frags e) in
  let e' := mkEntry fs (count e + 1) (size e + len (Data m)) now in
  (defraggerMaxMessageSize < size e' ∧
     Feed_store m now e d = Ret (set_entries d (delete (PacketID m) (entries d)), None)) ∨
  (entry_ok (PacketID m) e' ∧
     Feed_store m now e d = Ret (set_entries d (<[PacketID m := e']> (entries d)), None)) ∨
  (size e' <= defraggerMaxMessageSize ∧ len (stored fs) = len fs ∧ fs = Some <$> stored fs ∧
     Feed_store m now e d = Ret (set_entries d (delete (PacketID m) (entries d)),
                                 Some (fragment m 0 1 (data_of (stored fs))))).
Proof.
  intros Hd (_ & _ & Hfid & Hfc) H2 Hlt [Hlen Hslots Hcount Hpart Hsize] Hslot Hroom fs e'.
  pose proof (stored_insert _ _ m Hslot) as Hperm. fold fs in Hperm.
  assert (len (stored fs) = count e + 1) as Hc.
  { unfold len. rewrite Hperm. rewrite Hcount. unfold len. simpl. lia. }
  assert (len (data_of (stored fs)) = size e + len (Data m)) as Hs.
  { rewrite (len_data_of_Permutation _ _ Hperm). change (m :: stored (frags e)) with ([m] ++ stored (frags e)).
    rewrite data_of_app, len_app, Hsize. unfold data_of at 1. simpl. rewrite app_nil_r. lia. }
  assert (len fs = FragCount m) as Hfs by (unfold fs, len; rewrite length_insert; done).
  pose proof (len_nonneg (stored (frags e))).
  assert (slots_ok (PacketID m) fs) as Hslots' by (eapply slots_ok_insert; eauto; lia).
  unfold Feed_store. cbn [size count frags last]. fold fs.
  rewrite wrapU_small by lia.
  destruct (Z.ltb_spec defraggerMaxMessageSize (size e + len (Data m))) as [Hbig|Hok].
  { left. by split. }
  right. rewrite Hfs. destruct (Z.eqb_spec (count e + 1) (FragCount m)) as [Hfull|Hmore]; simpl.
  - right. assert (fs = Some <$> stored fs) as Heq.
    { apply stored_full. unfold len in *. lia. }
    split; [done|]. split; [lia|]. split; [done|].
    rewrite Heq at 1. rewrite <-Hs, assemble_all. done.
  - left. split; [|done]. split; simpl; try done; lia.
Qed.

Lemma Defragger_ok_insert d id e :
  Defragger_ok d → entry_ok id e →
  (entries d !! id = None → Z.of_nat (base.size (entries d)) < maxEntries d) →
  Defragger_ok (set_entries d (<[id := e]> (entries d))).
Proof.
  intros [Ht Hm He Hs] Hok Hroom. split; simpl; try done.
  - intros id' e' [[<- <-]|[_ Hid]]%lookup_insert_Some; [done|by apply He].
  - rewrite map_size_insert. destruct (entries d !! id) eqn:Hid; simpl; [done|].
    specialize (Hroom eq_refl). lia.
Qed.

(** Which group a fragment goes to, and in which table. *)
Lemma Feed_cases m now d :
  Defragger_ok d → wf_message m → 2 <= FragCount m → FragID m < FragCount m →
  Feed m now d = Ret (sweep now d, None) ∨
  ∃ d1 e, Feed m now d = Feed_store m now e d1 ∧ Defragger_ok d1 ∧
    timeout d1 = timeout d ∧ maxEntries d1 = maxEntries d ∧ entries d1 ⊆ entries d ∧
    group_ok (PacketID m) (FragCount m) e ∧ frags e !! Z.to_nat (FragID m) = Some None ∧
    (entries d1 !! PacketID m = None → Z.of_nat (base.size (entries d1)) < maxEntries d1) ∧
    (entries d1 !! PacketID m = Some e ∨ stored (frags e) = []).
Proof.
  intros Hd Hwf H2 Hlt. destruct Hwf as (_ & _ & Hfid & Hfc).
  unfold Feed. rewrite !(proj2 (Z.leb_gt _ _)) by lia. rewrite Defragger_init_id by done.
  pose proof (sweep_ok now d Hd) as Hd'.
  assert (entries (sweep now d) ⊆ entries d) as Hsub by apply range_delete_subseteq.
  pose proof (group_ok_fresh (PacketID m) (FragCount m) H2) as Hfresh.
  set (e0 := mkEntry (replicate (Z.to_nat (FragCount m)) None) 0 0 0) in *.
  assert (frags e0 !! Z.to_nat (FragID m) = Some None) as Hfree
    by (simpl; apply lookup_replicate_2; lia).
  assert (stored (frags e0) = []) as Hempty by apply stored_replicate.
  destruct (entries (sweep now d) !! PacketID m) as [e|] eqn:He.
  - destruct (Z.eqb_spec (len (frags e)) (FragCount m)) as [Hl|Hl].
    + destruct (frags e !! Z.to_nat (FragID m)) as [[f|]|] eqn:Hslot.
      * by left.
      * right. exists (sweep now d), e. pose proof (ok_entries _ Hd' _ _ He) as Hok.
        apply group_ok_entry in Hok. rewrite Hl in Hok.
        split_and!; try done; [by rewrite He | by left].
      * exfalso. apply lookup_ge_None in Hslot. unfold len in *. lia.
    + right. exists (sweep now d), e0. split_and!; try done; [by rewrite He | by right].
  - right. destruct (Z.leb_spec (maxEntries (sweep now d)) (Z.of_nat (base.size (entries (sweep now d))))).
    + exists (evictOldest (sweep now d)), e0.
      assert (entries (evictOldest (sweep now d)) ⊆ entries (sweep now d)) as Hsub'.
      { unfold evictOldest. destruct (range_min _ _) as [[]|]; [apply delete_subseteq|done]. }
      split_and!; try done.
      * by apply evictOldest_ok.
      * unfold evictOldest. by destruct (range_min _ _) as [[]|].
      * by rewrite maxEntries_evictOldest.
      * by etrans.
      * rewrite maxEntries_evictOldest. intros _. by apply evictOldest_room.
      * by right.
    + exists (sweep now d), e0. split_and!; try done. by right.
Qed.

(** ** One datagram *)
Lemma Feed_small m now d : FragCount m <= 1 → Feed m now d = Ret (d, Some m).
Proof. intros. unfold Feed. by rewrite (proj2 (Z.leb_le _ _)). Qed.

Lemma Feed_bad m now d : 2 <= FragCount m → FragCount m <= FragID m → Feed m now d = Ret (d, None).
Proof.
  intros. unfold Feed. rewrite (proj2 (Z.leb_gt _ _)) by lia. by rewrite (proj2 (Z.leb_le _ _)).
Qed.

(** Everything [Feed] can do to a good defragger, in one statement: it does
    not panic, keeps the invariant and the configuration, and holds on to
    fragments it was given only. *)
Lemma Feed_spec m now d :
  Defragger_ok d → wf_message m →
  ∃ d' o, Feed m now d = Ret (d', o) ∧ Defragger_ok d' ∧
    timeout d' = timeout d ∧ maxEntries d' = maxEntries d ∧
    (∀ id e f, entries d' !! id = Some e → f ∈ stored (frags e) →
       f = m ∨ ∃ e0, entries d !! id = Some e0 ∧ f ∈ stored (frags e0)) ∧
    (2 <= FragCount m → ∀ r, o = Some r →
       ∃ fs, r = fragment m 0 1 (data_of fs) ∧ len fs = FragCount m ∧
             len (data_of fs) <= defraggerMaxMessageSize ∧
             ∀ i f, fs !! i = Some f →
               PacketID f = PacketID m ∧ FragID f = Z.of_nat i ∧ FragCount f = FragCount m ∧
               (f = m ∨ ∃ e0, entries d !! PacketID m = Some e0 ∧ f ∈ stored (frags e0))).
Proof.
  intros Hd Hwf. destruct (Z.le_gt_cases (FragCount m) 1) as [H1|H2].
  { exists d, (Some m). rewrite Feed_small by done. split_and!; try done; [|lia].
    intros id e f He Hf. right. by exists e. }
  destruct (Z.le_gt_cases (FragCount m) (FragID m)) as [Hbad|Hlt].
  { exists d, None. rewrite Feed_bad by lia. split_and!; try done.
    intros id e f He Hf. right. by exists e. }
  destruct (Feed_cases m now d Hd Hwf ltac:(lia) Hlt) as
    [->|(d1 & e & -> & Hd1 & Ht & Hm & Hsub & Hg & Hslot & Hroom & Hsrc)].
  { exists (sweep now d), None. split_and!; try done; [by apply sweep_ok|].
    intros id e f He Hf. right. exists e. by apply sweep_lookup in He as [? _]. }
  pose proof (stored_insert _ _ m Hslot) as Hperm.
  assert (∀ id e' f, entries d1 !! id = Some e' → f ∈ stored (frags e') →
    f = m ∨ ∃ e0, entries d !! id = Some e0 ∧ f ∈ stored (frags e0)) as Hold.
  { intros id e' f He' Hf. right. exists e'. split; [by eapply lookup_weaken|done]. }
  assert (∀ f, f ∈ stored (<[Z.to_nat (FragID m) := Some m]> (frags e)) →
    f = m ∨ ∃ e0, entries d !! PacketID m = Some e0 ∧ f ∈ stored (frags e0)) as Hnew.
  { intros f. rewrite Hperm, elem_of_cons. intros [->|Hf]; [by left|]. right.
    destruct Hsrc as [He|Hnil]; [|rewrite Hnil in Hf; by apply not_elem_of_nil in Hf].
    exists e. split; [by eapply lookup_weaken|done]. }
  destruct (Feed_store_spec m now e d1 Hd1 Hwf ltac:(lia) Hlt Hg Hslot Hroom)
    as [(_ & ->)|[(Hok & ->)|(Hsz & Hfull & Heq & ->)]].
  - eexists _, _. split; [done|]. split_and!; try done.
    + apply Defragger_ok_shrink; [done|apply delete_subseteq].
    + cbn [entries set_entries]. intros id e' f [_ He']%lookup_delete_Some. by apply Hold.
  - eexists _, _. split; [done|]. split_and!; try done.
    + by apply Defragger_ok_insert.
    + cbn [entries set_entries]. intros id e' f [[<- <-]|[_ He']]%lookup_insert_Some; [apply Hnew|by apply Hold].
  - eexists _, _. split; [done|]. split_and!; try done.
    + apply Defragger_ok_shrink; [done|apply delete_subseteq].
    + cbn [entries set_entries]. intros id e' f [_ He']%lookup_delete_Some. by apply Hold.
    + intros _ r [= <-]. eexists. split; [done|]. destruct Hg as [Hl Hs Hc Hp Hgs].
      assert (len (<[Z.to_nat (FragID m):=Some m]> (frags e)) = FragCount m) as Hlen
        by (unfold len; rewrite length_insert; done).
      split; [congruence|]. split.
      { rewrite (len_data_of_Permutation _ _ Hperm).
        change (m :: stored (frags e)) with ([m] ++ stored (frags e)).
        rewrite data_of_app, len_app, <-Hgs. unfold data_of. simpl in *. rewrite app_nil_r. lia. }
      intros i f Hi.
      assert (<[Z.to_nat (FragID m):=Some m]> (frags e) !! i = Some (Some f)) as Hi'
        by (rewrite Heq, list_lookup_fmap, Hi; done).
      destruct Hwf as (_ & _ & Hfid & _).
      destruct (slots_ok_insert (PacketID m) (FragCount m) (frags e) m Hs Hl eq_refl eq_refl
        ltac:(lia) i f Hi') as (? & ? & ?).
      split_and!; try done; [congruence|]. apply Hnew, elem_of_stored. by exists i.
Qed.
End DefragLemmas.

(** ** One group in the middle of other traffic *)
Section Group.
Context `{QuicVarint} `{!MapRange Z defraggerEntry}.
Context (m : UDPMessage) (maxSize : Z).
Context (Hbig : maxSize < Size m) (Hroomy : HeaderSize m < maxSize).
Context (Hn : needed m maxSize <= 255) (Hlen : len (Data m) <= defraggerMaxMessageSize).
(** The packet IDs in play, and the span of arrival times. *)
Context (D : gset Z) (T : list Z) (tmo cap : Z).
Context (HD : Z.of_nat (base.size D) <= cap) (HmD : PacketID m ∈ D).
Context (HT : ∀ t1 t2, t1 ∈ T → t2 ∈ T → t2 - t1 <= tmo).

Let n := needed m maxSize.
Let id := PacketID m.

(** The defragger has stored exactly the fragments [gs] of the group. *)
Record holds (d : Defragger) (gs : list UDPMessage) : Prop := {
  h_ok : Defragger_ok d;
  h_timeout : timeout d = tmo;
  h_cap : maxEntries d = cap;
  h_dom : dom (entries d) ⊆ D;
  h_group : match gs with
            | [] => entries d !! id = None
            | _ => ∃ e, entries d !! id = Some e ∧ len (frags e) = n ∧ last e ∈ T ∧
                        stored (frags e) ≡ₚ gs
            end;
}.

Lemma frags_of_props f :
  f ∈ frags_of m maxSize →
  PacketID f = id ∧ FragCount f = n ∧ 0 <= FragID f < n ∧
  SessionID f = SessionID m ∧ Addr f = Addr m ∧ frags_of m maxSize !! Z.to_nat (FragID f) = Some f.
Proof.
  intros [i Hi]%list_elem_of_lookup. pose proof Hi as Hi2.
  apply frags_of_lookup in Hi as [Hlt ->]. simpl. rewrite Nat2Z.id.
  unfold n, id. split_and!; try done; lia.
Qed.

Lemma NoDup_frags_of : NoDup (frags_of m maxSize).
Proof.
  apply NoDup_alt. intros i j f Hi Hj.
  apply frags_of_lookup in Hi as [_ ->]. apply frags_of_lookup in Hj as [_ Hj].
  apply (f_equal FragID) in Hj. simpl in Hj. lia.
Qed.

Lemma no_eviction d pid :
  dom (entries d) ⊆ D → pid ∈ D → entries d !! pid = None →
  Z.of_nat (base.size (entries d)) < cap.
Proof.
  intros Hdom Hpid Hnone. rewrite <-size_dom.
  assert (base.size (dom (entries d)) < base.size D)%nat; [|lia].
  apply subset_size. apply not_elem_of_dom in Hnone. set_solver.
Qed.

Lemma sweep_holds now d gs : holds d gs → now ∈ T → holds (sweep now d) gs.
Proof.
  intros [Hok Ht Hc Hdom Hg] Hnow. split; try done.
  - by apply sweep_ok.
  - etrans; [|done]. apply subseteq_dom, range_delete_subseteq.
  - destruct gs as [|g gs].
    + unfold sweep. simpl. by apply range_delete_None.
    + destruct Hg as (e & He & ? & ? & ?). exists e. split_and!; try done.
      apply sweep_lookup. split; [done|]. rewrite Ht. by apply HT.
Qed.

(** Traffic of other groups leaves the group alone. *)
Lemma Feed_other m' now d gs :
  holds d gs → wf_message m' → now ∈ T → PacketID m' ∈ D →
  ¬ (PacketID m' = id ∧ 2 <= FragCount m') →
  ∃ d' o, Feed m' now d = Ret (d', o) ∧ holds d' gs.
Proof.
  intros Hh Hwf Hnow HpD Hother. pose proof Hh as [Hok Ht Hc Hdom Hg].
  destruct (Feed_spec m' now d Hok Hwf) as (d' & o & Hfeed & Hok' & Ht' & Hc' & _).
  exists d', o. split; [done|].
  destruct (Z.le_gt_cases (FragCount m') 1) as [H1|H2].
  { rewrite Feed_small in Hfeed by done. by injection Hfeed as <- <-. }
  destruct (Z.le_gt_cases (FragCount m') (FragID m')) as [Hbad|Hlt].
  { rewrite Feed_bad in Hfeed by lia. by injection Hfeed as <- <-. }
  assert (PacketID m' ≠ id) as Hne by (intros ?; apply Hother; split; [done|lia]).
  pose proof (sweep_holds now d gs Hh Hnow) as Hsw.
  assert (Feed m' now d = Ret (sweep now d, None) ∨ Feed m' now d = Panic ∨
    ∃ e0, Feed m' now d = Feed_store m' now e0 (sweep now d)) as Hcases.
  { unfold Feed. cbv zeta. rewrite !(proj2 (Z.leb_gt _ _)), Defragger_init_id by (done || lia).
    destruct (entries (sweep now d) !! PacketID m') as [e|] eqn:He.
    - destruct (len (frags e) =? FragCount m'); [|eauto].
      destruct (frags e !! Z.to_nat (FragID m')) as [[|]|]; eauto.
    - pose proof (no_eviction (sweep now d) _ (h_dom _ _ Hsw) HpD He) as Hroom.
      rewrite (h_cap _ _ Hsw), (proj2 (Z.leb_gt _ _)) by done. eauto. }
  rewrite Hfeed in Hcases. destruct Hcases as [[= -> ->]|[?|[e0 Hst]]]; [done|done|].
  symmetry in Hst. rename Hfeed into Hfeed0. rename Hst into Hfeed.
  destruct Hsw as [Hoks Hts Hcs Hdoms Hgs].
  assert (∃ es, entries d' = es ∧ (es = delete (PacketID m') (entries (sweep now d)) ∨
    ∃ e, es = <[PacketID m' := e]> (entries (sweep now d)))) as (es & Hes & Hcase).
  { unfold Feed_store in Hfeed. eexists; split; [done|]. cbn [size count frags] in Hfeed.
    case_if; [injection Hfeed as <- <-; by left|].
    case_if; [injection Hfeed as <- <-; right; by eexists|].
    apply outcome_bind_inv in Hfeed as (data & _ & Hfeed). injection Hfeed as <- <-. by left. }
  split; try done; [congruence|congruence| |].
  - rewrite Hes. destruct Hcase as [->|[e ->]]; [rewrite dom_delete_L | rewrite dom_insert_L];
      set_solver.
  - rewrite Hes. assert (es !! id = entries (sweep now d) !! id) as Heq.
    { destruct Hcase as [->|[e ->]]; [by rewrite lookup_delete_ne | by rewrite lookup_insert_ne]. }
    by rewrite Heq.
Qed.

(** A fragment of the group finds its slot free and its group alive. *)
Lemma Feed_mine f now d gs rest :
  holds d gs → now ∈ T → gs ++ f :: rest ≡ₚ frags_of m maxSize →
  ∃ e, Feed f now d = Feed_store f now e (sweep now d) ∧ group_ok id n e ∧
       frags e !! Z.to_nat (FragID f) = Some None ∧ stored (frags e) ≡ₚ gs.
Proof.
  intros Hh Hnow Hperm. pose proof (sweep_holds now d gs Hh Hnow) as [Hok Ht Hc Hdom Hg].
  assert (f ∈ frags_of m maxSize) as Hf by (rewrite <-Hperm; set_solver).
  destruct (frags_of_props f Hf) as (Hpid & Hcount & Hid & _ & _ & Hfi).
  pose proof (needed_bounds m maxSize Hbig Hroomy) as [H2 _]. fold n in H2.
  unfold Feed. cbv zeta. rewrite !(proj2 (Z.leb_gt _ _)) by lia.
  rewrite Defragger_init_id by apply Hh. rewrite Hpid, Hcount.
  destruct gs as [|g gs].
  - rewrite Hg. pose proof (no_eviction (sweep now d) id Hdom HmD Hg) as Hroom.
    rewrite Hc, (proj2 (Z.leb_gt _ _)) by done. eexists. split; [done|]. simpl.
    split; [by apply group_ok_fresh|]. split; [apply lookup_replicate_2; lia|].
    by rewrite stored_replicate.
  - destruct Hg as (e & He & Hl & _ & Hin). rewrite He, Hl, Z.eqb_refl.
    pose proof (ok_entries _ Hok _ _ He) as Heok.
    assert (frags e !! Z.to_nat (FragID f) = Some None) as Hslot.
    { destruct (frags e !! Z.to_nat (FragID f)) as [[f'|]|] eqn:Hs; [|done|].
      - exfalso. assert (f' ∈ g :: gs) as Hf' by (rewrite <-Hin; apply elem_of_stored; by eexists).
        assert (f' ∈ frags_of m maxSize) as Hff by (rewrite <-Hperm; set_solver).
        destruct (frags_of_props f' Hff) as (_ & _ & Hid' & _ & _ & Hfi').
        destruct (ok_slots _ _ Heok _ _ Hs) as (_ & Hfid & _).
        replace (FragID f') with (FragID f) in Hfi' by lia. rewrite Hfi in Hfi'. injection Hfi' as <-.
        pose proof NoDup_frags_of as Hnd. rewrite <-Hperm in Hnd.
        apply list.NoDup_app in Hnd as (_ & Hdis & _). apply (Hdis f Hf'). by left.
      - apply lookup_ge_None in Hs. unfold len in Hl. lia. }
    rewrite Hslot. exists e. split; [done|]. split; [|done].
    rewrite <-Hl. by apply group_ok_entry.
Qed.

(** All fragments in place: the assembled data is the payload. *)
Lemma all_stored fs :
  len fs = n → fs = Some <$> stored fs →
  (∀ f, f ∈ stored fs → f ∈ frags_of m maxSize) → slots_ok id fs →
  stored fs = frags_of m maxSize.
Proof.
  intros Hl Heq Hsub Hslots. apply list_eq_same_length with (n := Z.to_nat n).
  - by rewrite length_frags_of.
  - pose proof (f_equal length Heq) as He. rewrite length_fmap in He. unfold len in Hl. lia.
  - intros i f g _ Hi Hj. pose proof (Hsub f ltac:(by eapply list_elem_of_lookup_2)) as Hf.
    destruct (frags_of_props f Hf) as (_ & _ & _ & _ & _ & Hfi).
    assert (fs !! i = Some (Some f)) as Hfs by (rewrite Heq, list_lookup_fmap, Hi; done).
    destruct (Hslots _ _ Hfs) as (_ & Hid & _). rewrite Hid, Nat2Z.id in Hfi. congruence.
Qed.

Lemma Feed_group f now d gs rest :
  holds d gs → wf_message f → now ∈ T → gs ++ f :: rest ≡ₚ frags_of m maxSize →
  ∃ d' o, Feed f now d = Ret (d', o) ∧
    (rest ≠ [] → o = None ∧ holds d' (gs ++ [f])) ∧
    (rest = [] → o = Some (fragment m 0 1 (Data m)) ∧ holds d' []).
Proof.
  intros Hh Hwf Hnow Hperm.
  destruct (Feed_mine f now d gs rest Hh Hnow Hperm) as (e & -> & Hg & Hslot & Hst).
  pose proof (sweep_holds now d gs Hh Hnow) as [Hok Ht Hcap Hdom Hgrp].
  assert (f ∈ frags_of m maxSize) as Hf by (rewrite <-Hperm; set_solver).
  destruct (frags_of_props f Hf) as (Hpid & Hcount & Hid & Hsid & Haddr & _).
  pose proof (needed_bounds m maxSize Hbig Hroomy) as [H2 _]. fold n in H2.
  assert (stored (<[Z.to_nat (FragID f) := Some f]> (frags e)) ≡ₚ gs ++ [f]) as Hst'.
  { rewrite (stored_insert _ _ f Hslot), Hst. apply Permutation_cons_append. }
  assert (len (data_of (gs ++ [f])) + len (data_of rest) = len (Data m)) as Hsum.
  { rewrite <-len_app, <-data_of_app, <-app_assoc. simpl.
    rewrite (len_data_of_Permutation _ _ Hperm). unfold data_of. by rewrite concat_frags_of. }
  pose proof (len_nonneg (data_of rest)) as Hrest.
  assert (len (gs ++ [f]) + len rest = n) as Hcnt.
  { rewrite <-len_app, <-app_assoc. simpl. unfold len. rewrite Hperm, length_frags_of.
    unfold n in *. lia. }
  destruct Hg as [Hgl Hgs Hgc Hgp Hgz] eqn:Hgeq. clear Hgeq.
  assert (size e + len (Data f) = len (data_of (gs ++ [f]))) as Hsz.
  { rewrite data_of_app, len_app, Hgz, (len_data_of_Permutation _ _ Hst).
    unfold data_of at 3. simpl. by rewrite app_nil_r. }
  destruct (Feed_store_spec f now e (sweep now d)) as [(Htoo & _)|[(Heok & ->)|(_ & Hfull & Heq & ->)]];
    rewrite ?Hpid, ?Hcount; try done; try lia.
  - intros Hnone. rewrite Hcap. by apply (no_eviction _ id).
  - cbn [size] in Htoo. lia.
  - eexists _, _. split; [done|]. split.
    + intros Hne. split; [done|]. split; try done.
      * rewrite Hpid in *. apply Defragger_ok_insert; [done|done|].
        intros Hnone. rewrite Hcap. by apply (no_eviction _ id).
      * simpl. rewrite dom_insert_L. set_solver.
      * assert (∃ g gs', gs ++ [f] = g :: gs') as (g & gs' & Heq)
          by (destruct gs; simpl; eauto). rewrite Heq, <-Heq.
        eexists. simpl. rewrite lookup_insert_eq. split; [done|]. simpl.
        split; [unfold len; by rewrite length_insert|]. by split.
    + intros ->. exfalso. destruct Heok as [_ _ Hec Hep _ _]. cbn [count frags] in *.
      rewrite Hec in Hep. unfold len in Hep, Hcnt. rewrite length_insert, Hst' in Hep.
      unfold len in Hgl. simpl in Hcnt. lia.
  - eexists _, _. split; [done|].
    assert (rest = []) as ->.
    { unfold len in Hfull, Hcnt. rewrite length_insert, Hst' in Hfull. unfold len in Hgl.
      destruct rest; [done|]. simpl in Hcnt. lia. }
    split; [done|]. intros _.
    assert (stored (<[Z.to_nat (FragID f) := Some f]> (frags e)) = frags_of m maxSize) as ->.
    { apply all_stored; [|done| |].
      - unfold len. by rewrite length_insert.
      - intros g. by rewrite Hst', <-Hperm.
      - eapply slots_ok_insert; eauto; lia. }
    unfold data_of. rewrite concat_frags_of by done. split.
    + f_equal. unfold fragment. unfold id in Hpid. by rewrite Hsid, Haddr, Hpid.
    + split; try done; simpl.
      * apply Defragger_ok_shrink; [done|apply delete_subseteq].
      * etrans; [apply subseteq_dom, delete_subseteq|done].
      * by rewrite lookup_delete_eq.
Qed.

(** Datagrams that belong to the group. *)
Definition in_group (p : UDPMessage * Z) : Prop := PacketID p.1 = id ∧ 2 <= FragCount p.1.

#[local] Instance in_group_dec p : Decision (in_group p).
Proof. unfold in_group. apply _. Defined.

Definition group_of (ms : list (UDPMessage * Z)) : list UDPMessage := (filter in_group ms).*1.

(** What the defragger answered to the datagrams of the group. *)
Definition group_answers (ms : list (UDPMessage * Z)) (os : list (option UDPMessage))
    : list (option UDPMessage) := (filter (λ q, in_group q.1) (zip ms os)).*2.

Definition traffic_ok (ms : list (UDPMessage * Z)) : Prop :=
  Forall (λ p, wf_message p.1 ∧ p.2 ∈ T ∧ PacketID p.1 ∈ D) ms.

Lemma group_of_cons f now ms :
  group_of ((f, now) :: ms) = if decide (in_group (f, now)) then f :: group_of ms else group_of ms.
Proof. unfold group_of. rewrite filter_cons. by case_decide. Qed.

Lemma group_answers_cons p ms o os :
  group_answers (p :: ms) (o :: os) =
  if decide (in_group p) then o :: group_answers ms os else group_answers ms os.
Proof.
  unfold group_answers. cbn [zip zip_with]. rewrite filter_cons.
  destruct (decide (in_group p)) as [Hp|Hp].
  - by rewrite decide_True.
  - by rewrite decide_False.
Qed.

Lemma Feed_all_others ms d gs :
  holds d gs → traffic_ok ms → group_of ms = [] →
  ∃ d' os, Feed_all ms d = Ret (d', os) ∧ group_answers ms os = [].
Proof.
  revert d. induction ms as [|[f now] ms IH]; intros d Hh Hok Hg; [by exists d, []|].
  apply Forall_cons in Hok as [(Hwf & Hnow & HpD) Hok].
  rewrite group_of_cons in Hg. destruct (decide (in_group (f, now))) as [|Hno]; [done|].
  destruct (Feed_other f now d gs Hh Hwf Hnow HpD Hno) as (d1 & o & Hf & Hh1).
  destruct (IH d1 Hh1 Hok Hg) as (d2 & os & Hfs & Ho).
  exists d2, (o :: os). simpl. rewrite Hf. simpl. rewrite Hfs. split; [done|].
  by rewrite group_answers_cons, decide_False.
Qed.

Lemma Feed_all_group ms d gs :
  holds d gs → traffic_ok ms → gs ++ group_of ms ≡ₚ frags_of m maxSize → group_of ms ≠ [] →
  ∃ d' os, Feed_all ms d = Ret (d', os) ∧
    group_answers ms os =
      replicate (pred (length (group_of ms))) None ++ [Some (fragment m 0 1 (Data m))].
Proof.
  revert d gs. induction ms as [|[f now] ms IH]; intros d gs Hh Hok Hperm Hne; [done|].
  apply Forall_cons in Hok as [(Hwf & Hnow & HpD) Hok]. cbn [fst snd] in *.
  rewrite group_of_cons in Hperm, Hne |- *.
  destruct (decide (in_group (f, now))) as [Hin|Hno].
  - destruct (Feed_group f now d gs _ Hh Hwf Hnow Hperm) as (d1 & o & Hf & Hmore & Hlast).
    destruct (decide (group_of ms = [])) as [Hnil|Hrest].
    + destruct (Hlast Hnil) as [-> Hh1].
      destruct (Feed_all_others ms d1 [] Hh1 Hok Hnil) as (d2 & os & Hfs & Ho).
      exists d2, (Some (fragment m 0 1 (Data m)) :: os). simpl. rewrite Hf. simpl.
      rewrite Hfs. split; [done|]. by rewrite group_answers_cons, decide_True, Ho, Hnil.
    + destruct (Hmore Hrest) as [-> Hh1].
      destruct (IH d1 (gs ++ [f]) Hh1 Hok) as (d2 & os & Hfs & Ho); [|done|].
      { by rewrite <-app_assoc. }
      exists d2, (None :: os). simpl. rewrite Hf. simpl. rewrite Hfs. split; [done|].
      rewrite group_answers_cons, decide_True, Ho by done.
      by destruct (group_of ms).
  - destruct (Feed_other f now d gs Hh Hwf Hnow HpD Hno) as (d1 & o & Hf & Hh1).
    destruct (IH d1 gs Hh1 Hok Hperm Hne) as (d2 & os & Hfs & Ho).
    exists d2, (o :: os). simpl. rewrite Hf. simpl. rewrite Hfs. split; [done|].
    by rewrite group_answers_cons, decide_False.
Qed.
End Group.

(** * Properties *)
Section Theorems.
Context `{QuicVarint} `{!MapRange Z defraggerEntry}.

(** A message that does not fit but needs at most 255 fragments is cut into
    exactly [ceil(len/room)] of them, numbered in order, each within the limit
    and none empty, with the header of the message, and their payloads put
    end to end are the payload. *)
Theorem FragUDPMessage_correct m maxSize :
  maxSize < Size m → HeaderSize m < maxSize → needed m maxSize <= 255 →
  ∃ fs, FragUDPMessage m maxSize = Ret fs ∧ len fs = needed m maxSize ∧
        concat (Data <$> fs) = Data m ∧
        ∀ i f, fs !! i = Some f →
          FragID f = Z.of_nat i ∧ FragCount f = len fs ∧ SessionID f = SessionID m ∧
          PacketID f = PacketID m ∧ Addr f = Addr m ∧ Data f ≠ [] ∧ Size f <= maxSize.
Proof.
  intros Hs Hh Hn. destruct (needed_bounds m maxSize Hs Hh) as (H2 & HL & Hall).
  exists (frags_of m maxSize). rewrite FragUDPMessage_frags by done. split; [done|].
  assert (len (frags_of m maxSize) = needed m maxSize) as Hlen
    by (unfold len; rewrite length_frags_of; lia).
  split; [done|]. split; [by apply concat_frags_of|].
  intros i f Hi. apply frags_of_lookup in Hi as [Hi ->]. simpl.
  specialize (Hall (Z.of_nat i) ltac:(lia)). rewrite Hlen. split_and!; try done.
  - unfold chunk. intros Hnil%(f_equal length). rewrite length_take, length_drop in Hnil.
    unfold len in *. simpl in Hnil. nia.
  - unfold Size, HeaderSize in Hh |- *. simpl.
    match goal with |- context [len (chunk ?p ?k ?i)] =>
      assert (len (chunk p k i) <= Z.of_nat k) by (unfold chunk, len; rewrite length_take; lia) end.
    unfold HeaderSize in *. lia.
Qed.

(** A message that would need more than 255 fragments makes
    [FragUDPMessage] panic: the count is truncated to eight bits, the slice is
    too short, and the loop indexes past its end. *)
Theorem FragUDPMessage_too_many_panics m maxSize :
  maxSize < Size m → HeaderSize m < maxSize →
  (255 < needed m maxSize ↔ FragUDPMessage m maxSize = Panic).
Proof.
  intros Hs Hh. split; [by apply FragUDPMessage_overflow|].
  intros Hp. destruct (Z.le_gt_cases (needed m maxSize) 255) as [Hle|]; [|done].
  by rewrite FragUDPMessage_frags in Hp.
Qed.

(** C1: The fragments of a message, arriving in any order and interleaved with
    any other datagrams, are reassembled into the message: every fragment but
    the last to arrive is absorbed, the last one returns the whole payload.
    The arrivals span at most the timeout, and there is room in the table for
    all packet IDs in play. *)
Theorem Feed_all_reassembles m maxSize ms d (T : list Z) (D : gset Z) :
  maxSize < Size m → HeaderSize m < maxSize → needed m maxSize <= 255 →
  len (Data m) <= defraggerMaxMessageSize →
  Defragger_ok d → entries d !! PacketID m = None →
  dom (entries d) ⊆ D → PacketID m ∈ D → Z.of_nat (base.size D) <= maxEntries d →
  (∀ t1 t2, t1 ∈ T → t2 ∈ T → t2 - t1 <= timeout d) →
  traffic_ok D T ms →
  group_of m ms ≡ₚ frags_of m maxSize →
  ∃ d' os, Feed_all ms d = Ret (d', os) ∧
    group_answers m ms os =
      replicate (pred (Z.to_nat (needed m maxSize))) None ++ [Some (fragment m 0 1 (Data m))].
Proof.
  intros Hs Hh Hn Hl Hd Hnone Hdom HmD HD HT Hok Hperm.
  destruct (needed_bounds m maxSize Hs Hh) as (H2 & _).
  assert (Z.to_nat (needed m maxSize) = length (group_of m ms)) as ->
    by (by rewrite Hperm, length_frags_of).
  apply (Feed_all_group m maxSize Hs Hh Hn Hl D T (timeout d) (maxEntries d) HD HmD HT ms d []).
  - split; done.
  - done.
  - done.
  - intros Hnil. rewrite Hnil in Hperm. apply Permutation_nil in Hperm.
    apply (f_equal length) in Hperm. rewrite length_frags_of in Hperm. simpl in Hperm. lia.
Qed.

(** Fragments held by a defragger were all fed to it. *)
Lemma Feed_all_spec ms d seen :
  Defragger_ok d → Forall (λ p, wf_message p.1) ms →
  (∀ id e f, entries d !! id = Some e → f ∈ stored (frags e) → f ∈ seen) →
  ∃ d' os, Feed_all ms d = Ret (d', os) ∧ Defragger_ok d' ∧ maxEntries d' = maxEntries d ∧
    ∀ k m now r, ms !! k = Some (m, now) → os !! k = Some (Some r) → 2 <= FragCount m →
      ∃ fs, r = fragment m 0 1 (data_of fs) ∧ len fs = FragCount m ∧
            len (data_of fs) <= defraggerMaxMessageSize ∧
            ∀ i f, fs !! i = Some f →
              PacketID f = PacketID m ∧ FragID f = Z.of_nat i ∧ FragCount f = FragCount m ∧
              f ∈ seen ++ (take (S k) ms).*1.
Proof.
  revert d seen. induction ms as [|[m now] ms IH]; intros d seen Hd Hwf Hseen; simpl.
  { exists d, []. split_and!; done. }
  apply Forall_cons in Hwf as [Hm Hwf]. simpl in Hm.
  destruct (Feed_spec m now d Hd Hm) as (d1 & o & -> & Hd1 & _ & Hc1 & Hst & Hout). simpl.
  destruct (IH d1 (seen ++ [m]) Hd1 Hwf) as (d2 & os & -> & Hd2 & Hc2 & Hall).
  { intros id e f He Hf. rewrite elem_of_app, list_elem_of_singleton.
    destruct (Hst id e f He Hf) as [->|(e0 & He0 & Hf0)]; [by right|]. left. by eapply Hseen. }
  exists d2, (o :: os). simpl. split; [done|]. split; [done|]. split; [congruence|].
  intros [|k] m' now' r Hk Hr H2; simpl in Hk, Hr.
  - injection Hk as -> ->. injection Hr as ->.
    destruct (Hout H2 r eq_refl) as (fs & -> & Hlen & Hsz & Hfs). exists fs.
    split_and!; try done. intros i f Hi. destruct (Hfs i f Hi) as (? & ? & ? & Hsrc).
    split_and!; try done. rewrite elem_of_app. simpl.
    destruct Hsrc as [->|(e0 & He0 & Hf0)]; [right; by left | left; by eapply Hseen].
  - destruct (Hall k m' now' r Hk Hr H2) as (fs & -> & Hlen & Hsz & Hfs). exists fs.
    split_and!; try done. intros i f Hi. destruct (Hfs i f Hi) as (? & ? & ? & Hsrc).
    split_and!; try done. rewrite <-app_assoc in Hsrc. done.
Qed.

(** Nothing is ever made up or mixed: over any stream of datagrams,
    a reassembled message is, in order, the payloads of fragments that all
    arrived earlier on that stream with the packet ID and count of the one
    that completed it, one for every index, and at most 65535 bytes. *)
Theorem Feed_all_sound ms :
  Forall (λ p, wf_message p.1) ms →
  ∃ d os, Feed_all ms NewDefragger = Ret (d, os) ∧
    ∀ k m now r, ms !! k = Some (m, now) → os !! k = Some (Some r) → 2 <= FragCount m →
      ∃ fs, r = fragment m 0 1 (data_of fs) ∧ len fs = FragCount m ∧
            len (data_of fs) <= defraggerMaxMessageSize ∧
            ∀ i f, fs !! i = Some f →
              PacketID f = PacketID m ∧ FragID f = Z.of_nat i ∧ FragCount f = FragCount m ∧
              f ∈ (take (S k) ms).*1.
Proof.
  intros Hwf. destruct (Feed_all_spec ms NewDefragger [] NewDefragger_ok Hwf)
    as (d & os & Hf & _ & _ & Hall).
  { intros id e f He. simpl in He. by rewrite lookup_empty in He. }
  by exists d, os.
Qed.

(** No stream of datagrams makes a defragger panic or hold more than eight
    groups, each incomplete, consistent with its packet ID, and of at most
    65535 bytes of payload. *)
Theorem Feed_all_bounded ms :
  Forall (λ p, wf_message p.1) ms →
  ∃ d os, Feed_all ms NewDefragger = Ret (d, os) ∧
    Z.of_nat (base.size (entries d)) <= defraggerMaxEntries ∧
    ∀ id e, entries d !! id = Some e →
      slots_ok id (frags e) ∧ 0 < len (stored (frags e)) < len (frags e) ∧
      len (data_of (stored (frags e))) <= defraggerMaxMessageSize.
Proof.
  intros Hwf. destruct (Feed_all_spec ms NewDefragger [] NewDefragger_ok Hwf)
    as (d & os & Hf & Hd & Hc & _).
  { intros id e f He. simpl in He. by rewrite lookup_empty in He. }
  exists d, os. split; [done|]. destruct Hd as [_ _ He Hs]. split; [by rewrite Hc in Hs|].
  intros id e Hid. destruct (He id e Hid) as [? ? Hcount ? Hsize ?].
  split; [done|]. split; [by rewrite <-Hcount|by rewrite <-Hsize].
Qed.
End Theorems.

(** ** Witnesses *)
Definition big_message : UDPMessage :=
  {| SessionID := 7; PacketID := 5; FragID := 0; FragCount := 1;
     Addr := bytes_of_string "a:1"; Data := bytes_of_string "0123456789" |}.

#[local] Existing Instance rfc9000.
#[local] Instance canonical_groups : MapRange Z defraggerEntry := canonical_range Z defraggerEntry.

Lemma FragUDPMessage_correct_witness :
  ∃ fs, FragUDPMessage big_message 16 = Ret fs ∧ len fs = needed big_message 16 ∧
        concat (Data <$> fs) = Data big_message ∧
        ∀ i f, fs !! i = Some f →
          FragID f = Z.of_nat i ∧ FragCount f = len fs ∧ SessionID f = 7 ∧
          PacketID f = 5 ∧ Addr f = Addr big_message ∧ Data f ≠ [] ∧ Size f <= 16.
Proof. apply (FragUDPMessage_correct big_message 16); vm_compute; done. Defined.

Definition huge_message : UDPMessage :=
  {| SessionID := 7; PacketID := 5; FragID := 0; FragCount := 1;
     Addr := bytes_of_string "a:1"; Data := replicate 256 Byte.x41 |}.

Lemma FragUDPMessage_too_many_panics_witness : FragUDPMessage huge_message 13 = Panic.
Proof. apply (FragUDPMessage_too_many_panics huge_message 13); vm_compute; done. Defined.

Definition other_fragment : UDPMessage :=
  {| SessionID := 7; PacketID := 9; FragID := 1; FragCount := 2;
     Addr := bytes_of_string "b:2"; Data := bytes_of_string "xy" |}.

(** The three fragments of [big_message] in reverse order, with a fragment of
    another packet and an unfragmented message in between. *)
Definition sample_traffic : list (UDPMessage * Z) :=
  match rev (frags_of big_message 16) with
  | [f2; f1; f0] => [(f2, 100); (other_fragment, 101); (f1, 102); (huge_message, 103); (f0, 104)]
  | _ => []
  end.

Lemma Feed_all_reassembles_witness :
  ∃ d' os, Feed_all sample_traffic NewDefragger = Ret (d', os) ∧
    group_answers big_message sample_traffic os =
      replicate 2 None ++ [Some (fragment big_message 0 1 (Data big_message))].
Proof.
  change 2%nat with (pred (Z.to_nat (needed big_message 16))).
  apply (Feed_all_reassembles big_message 16 sample_traffic NewDefragger
           [100; 101; 102; 103; 104] {[5; 9]}).
  1-4: vm_compute; done.
  - apply NewDefragger_ok.
  - reflexivity.
  - simpl. set_solver.
  - simpl. set_solver.
  - vm_compute. done.
  - intros t1 t2 H1 H2. rewrite !elem_of_cons, elem_of_nil in H1, H2.
    change (timeout NewDefragger) with 10000000000. lia.
  - unfold traffic_ok, sample_traffic, wf_message.
    repeat (apply Forall_cons; split); try apply Forall_nil; try done;
      (split_and!; [vm_compute; done.. | set_solver | simpl; set_solver]).
  - change (group_of big_message sample_traffic) with (rev (frags_of big_message 16)).
    symmetry. apply Permutation_rev.
Defined.

Lemma Feed_all_sound_witness :
  ∃ d os, Feed_all sample_traffic NewDefragger = Ret (d, os) ∧
    ∀ k m now r, sample_traffic !! k = Some (m, now) → os !! k = Some (Some r) → 2 <= FragCount m →
      ∃ fs, r = fragment m 0 1 (data_of fs) ∧ len fs = FragCount m ∧
            len (data_of fs) <= defraggerMaxMessageSize ∧
            ∀ i f, fs !! i = Some f →
              PacketID f = PacketID m ∧ FragID f = Z.of_nat i ∧ FragCount f = FragCount m ∧
              f ∈ (take (S k) sample_traffic).*1.
Proof.
  apply Feed_all_sound. unfold wf_message.
  repeat (apply Forall_cons; split); try apply Forall_nil; vm_compute; done.
Defined.

Lemma Feed_all_bounded_witness :
  ∃ d os, Feed_all sample_traffic NewDefragger = Ret (d, os) ∧
    Z.of_nat (base.size (entries d)) <= defraggerMaxEntries ∧
    ∀ id e, entries d !! id = Some e →
      slots_ok id (frags e) ∧ 0 < len (stored (frags e)) < len (frags e) ∧
      len (data_of (stored (frags e))) <= defraggerMaxMessageSize.
Proof.
  apply Feed_all_bounded. unfold wf_message.
  repeat (apply Forall_cons; split); try apply Forall_nil; vm_compute; done.
Defined.
