(* ===== verification/Http.v ===== *)
(** * The authentication exchange (core/internal/protocol/http.go)

    The client authenticates with an HTTP request; both sides encode what they
    ask for and what was granted as headers.  [http.Header] is a map from
    canonical keys to lists of values. *)
From S2P Require Import GoStd Prelude Protocol.

(** ** net/http: Header.Get and Header.Set *)
Abbreviation Header := (gmap string (list string)).

Definition is_upper (c : ascii) : bool := (65 <=? code c) && (code c <=? 90).
Definition is_lower (c : ascii) : bool := (97 <=? code c) && (code c <=? 122).
Definition to_upper (c : ascii) : ascii :=
  if is_lower c then ascii_of_N (Z.to_N (code c - 32)) else c.
Definition to_lower (c : ascii) : ascii :=
  if is_upper c then ascii_of_N (Z.to_N (code c + 32)) else c.

(** The bytes of an RFC 7230 token. *)
Definition valid_header_byte (c : ascii) : bool :=
  is_digit c || is_upper c || is_lower c
  || bool_decide (c ∈ list_ascii_of_string "!#$%&'*+-.^_`|~").

Fixpoint canonical_from (upper : bool) (s : string) : string :=
  match s with
  | EmptyString => EmptyString
  | String c s =>
      String (if upper then to_upper c else to_lower c)
             (canonical_from (bool_decide (c = "-"%char)) s)
  end.

(** [textproto.CanonicalMIMEHeaderKey]: a key with an invalid byte stays as it is. *)
Definition CanonicalMIMEHeaderKey (s : string) : string :=
  if forallb valid_header_byte (list_ascii_of_string s) then canonical_from true s else s.

Definition Header_Get (h : Header) (key : string) : string :=
  match h !! CanonicalMIMEHeaderKey key with
  | Some (v :: _) => v
  | _ => EmptyString
  end.

Definition Header_Set (h : Header) (key value : string) : Header :=
  <[CanonicalMIMEHeaderKey key := [value]]> h.

Lemma Header_Get_Set h k v : Header_Get (Header_Set h k v) k = v.
Proof. unfold Header_Get, Header_Set. by rewrite lookup_insert_eq. Qed.

Lemma Header_Get_Set_ne h k k' v :
  CanonicalMIMEHeaderKey k ≠ CanonicalMIMEHeaderKey k' →
  Header_Get (Header_Set h k v) k' = Header_Get h k'.
Proof. intros. unfold Header_Get, Header_Set. by rewrite lookup_insert_ne. Qed.

(** ** The protocol's headers *)
Definition RequestHeaderAuth : string := "Cham-Auth".
Definition ResponseHeaderUDPEnabled : string := "Cham-UDP".
Definition CommonHeaderCCRX : string := "Cham-CC-RX".
Definition CommonHeaderPadding : string := "Cham-Padding".
Definition StatusAuthOK : Z := 200.

Definition IsAuthResponse (h : Header) : bool :=
  negb (bool_decide (Header_Get h ResponseHeaderUDPEnabled = EmptyString)).

Record AuthRequest := mkAuthRequest { Auth : string; req_Rx : Z (* uint64 *) }.

Record AuthResponse := mkAuthResponse {
  UDPEnabled : bool;
  resp_Rx : Z;   (* uint64 *)
  RxAuto : bool;
}.

Definition AuthRequestFromHeader (h : Header) : AuthRequest :=
  let '(rx, _) := Strconv.ParseUint (Header_Get h CommonHeaderCCRX) 64 in
  {| Auth := Header_Get h RequestHeaderAuth; req_Rx := rx |}.

Definition AuthRequestToHeader (h : Header) (req : AuthRequest) (ps : option PaddingScheme)
    (rnd : entropy) : outcome Header :=
  let h := Header_Set h RequestHeaderAuth (Auth req) in
  let h := Header_Set h CommonHeaderCCRX (Strconv.FormatUint (req_Rx req)) in
  padding ← generate (AuthRequest_pad (orDefault ps)) rnd;
  mret (Header_Set h CommonHeaderPadding (string_of_bytes padding)).

Definition AuthResponseFromHeader (h : Header) : AuthResponse :=
  let '(udp, _) := Strconv.ParseBool (Header_Get h ResponseHeaderUDPEnabled) in
  let rxStr := Header_Get h CommonHeaderCCRX in
  if decide (rxStr = "auto"%string)
  then {| UDPEnabled := udp; resp_Rx := 0; RxAuto := true |}
  else let '(rx, _) := Strconv.ParseUint rxStr 64 in
       {| UDPEnabled := udp; resp_Rx := rx; RxAuto := false |}.

Definition AuthResponseToHeader (h : Header) (resp : AuthResponse) (ps : option PaddingScheme)
    (rnd : entropy) : outcome Header :=
  let h := Header_Set h ResponseHeaderUDPEnabled (Strconv.FormatBool (UDPEnabled resp)) in
  let h := if RxAuto resp then Header_Set h CommonHeaderCCRX "auto"
           else Header_Set h CommonHeaderCCRX (Strconv.FormatUint (resp_Rx resp)) in
  padding ← generate (AuthResponse_pad (orDefault ps)) rnd;
  mret (Header_Set h CommonHeaderPadding (string_of_bytes padding)).

(** ** Lemmas *)
Ltac other_header := rewrite !Header_Get_Set_ne by (vm_compute; congruence).

Lemma FormatUint_not_auto n : 0 <= n → Strconv.FormatUint n ≠ "auto"%string.
Proof.
  intros Hn He.
  pose proof (Strconv.FormatUint_loop_digits 20 n EmptyString Hn eq_refl) as Hd.
  fold (Strconv.FormatUint n) in Hd. rewrite He in Hd. done.
Qed.

(** Pads of every scheme a server or client can hold generate. *)
Lemma scheme_generates hmac seed p rnd :
  p ∈ pads (NewPaddingScheme hmac seed) → ∃ out, generate p rnd = Ret out.
Proof.
  intros Hp. pose proof (NewPaddingScheme_pads_ok hmac seed) as Hok.
  rewrite list.Forall_forall in Hok. apply Hok in Hp as [? ?].
  unfold MaxPaddingLength in *.
  destruct (generate_spec p rnd) as (out & ? & _); [lia | lia | eauto].
Qed.

(** What the client puts in the authentication request, the server reads
    back, whatever was in the header before: the credentials are any string and
    the receive rate any 64-bit number. *)
Lemma AuthRequest_read_back hmac seed h req rnd :
  0 <= req_Rx req <= MaxUint64 →
  ∃ h', AuthRequestToHeader h req (Some (NewPaddingScheme hmac seed)) rnd = Ret h'
        ∧ AuthRequestFromHeader h' = req.
Proof.
  intros Hrx. unfold AuthRequestToHeader.
  destruct (scheme_generates hmac seed (AuthRequest_pad (NewPaddingScheme hmac seed)) rnd)
    as [pad Hpad]; [by left|].
  cbv zeta. simpl orDefault. rewrite Hpad. cbn [mbind outcome_bind].
  eexists; split; [done|]. unfold AuthRequestFromHeader.
  assert (∀ h0 v, Header_Get (Header_Set h0 CommonHeaderPadding v) CommonHeaderCCRX
                  = Header_Get h0 CommonHeaderCCRX) as Hp1 by (intros; by other_header).
  assert (∀ h0 v, Header_Get (Header_Set h0 CommonHeaderPadding v) RequestHeaderAuth
                  = Header_Get h0 RequestHeaderAuth) as Hp2 by (intros; by other_header).
  assert (∀ h0 v, Header_Get (Header_Set h0 CommonHeaderCCRX v) RequestHeaderAuth
                  = Header_Get h0 RequestHeaderAuth) as Hp3 by (intros; by other_header).
  rewrite Hp1, Hp2, Hp3, !Header_Get_Set, Strconv.ParseUint_FormatUint by done.
  by destruct req.
Qed.

(** What the server grants, the client reads back: the UDP flag, and either
    the bandwidth or the request to detect it.  The response is recognised as
    one of this protocol whatever it grants. *)
Lemma AuthResponse_read_back hmac seed h resp rnd :
  0 <= resp_Rx resp <= MaxUint64 →
  (RxAuto resp = true → resp_Rx resp = 0) →
  ∃ h', AuthResponseToHeader h resp (Some (NewPaddingScheme hmac seed)) rnd = Ret h'
        ∧ AuthResponseFromHeader h' = resp ∧ IsAuthResponse h' = true.
Proof.
  intros Hrx Hauto. unfold AuthResponseToHeader.
  destruct (scheme_generates hmac seed (AuthResponse_pad (NewPaddingScheme hmac seed)) rnd)
    as [pad Hpad]; [by right; left|].
  cbv zeta. simpl orDefault. rewrite Hpad. cbn [mbind outcome_bind].
  eexists; split; [done|]. unfold AuthResponseFromHeader, IsAuthResponse.
  assert (∀ h0 v, Header_Get (Header_Set h0 CommonHeaderPadding v) CommonHeaderCCRX
                  = Header_Get h0 CommonHeaderCCRX) as Hp1 by (intros; by other_header).
  assert (∀ h0 v, Header_Get (Header_Set h0 CommonHeaderPadding v) ResponseHeaderUDPEnabled
                  = Header_Get h0 ResponseHeaderUDPEnabled) as Hp2 by (intros; by other_header).
  assert (∀ h0 v, Header_Get (Header_Set h0 CommonHeaderCCRX v) ResponseHeaderUDPEnabled
                  = Header_Get h0 ResponseHeaderUDPEnabled) as Hp3 by (intros; by other_header).
  rewrite Hp1, Hp2. destruct resp as [udp rx []]; simpl in *.
  - rewrite Hp3, !Header_Get_Set, Strconv.ParseBool_FormatBool.
    rewrite Hauto by done. by destruct udp.
  - rewrite Hp3, !Header_Get_Set, Strconv.ParseBool_FormatBool.
    rewrite decide_False by (apply FormatUint_not_auto; lia).
    rewrite Strconv.ParseUint_FormatUint by done. by destruct udp.
Qed.

(** ** Property *)

(** The authentication headers carry what they are given, whatever was in
    the header before and whatever the padding: the server reads the client's
    credentials, any string, and receive rate, any 64-bit number; the client
    reads the server's UDP flag and either the bandwidth or the request to
    detect it, and recognises the response as one of this protocol. *)
Theorem auth_headers_roundtrip hmac seed h req resp rnd :
  0 <= req_Rx req <= MaxUint64 → 0 <= resp_Rx resp <= MaxUint64 →
  (RxAuto resp = true → resp_Rx resp = 0) →
  (∃ h', AuthRequestToHeader h req (Some (NewPaddingScheme hmac seed)) rnd = Ret h'
         ∧ AuthRequestFromHeader h' = req) ∧
  (∃ h', AuthResponseToHeader h resp (Some (NewPaddingScheme hmac seed)) rnd = Ret h'
         ∧ AuthResponseFromHeader h' = resp ∧ IsAuthResponse h' = true).
Proof. intros Hreq Hresp Hauto. split; [by apply AuthRequest_read_back|by apply AuthResponse_read_back]. Qed.

(** ** Witness *)
Lemma auth_headers_roundtrip_witness :
  (∃ h', AuthRequestToHeader ∅ (mkAuthRequest "user:pass" 1250000)
           (Some (NewPaddingScheme zero_hmac [Byte.x01])) zero_entropy = Ret h'
         ∧ AuthRequestFromHeader h' = mkAuthRequest "user:pass" 1250000) ∧
  (∃ h', AuthResponseToHeader ∅ (mkAuthResponse true 0 true)
           (Some (NewPaddingScheme zero_hmac [Byte.x01])) zero_entropy = Ret h'
         ∧ AuthResponseFromHeader h' = mkAuthResponse true 0 true ∧ IsAuthResponse h' = true).
Proof. apply auth_headers_roundtrip; simpl; [unfold MaxUint64; lia|unfold MaxUint64; lia|done]. Defined.
