(* ===== verification/Selector.v ===== *)
(** * The path selector (core/selector/selector.go)

    The policy that decides, from a stream of observations of one connection,
    that its path has gone silent and which candidate to move to.  The code's
    [Selector] is the record below and each of its methods a function on it;
    [poll] is one turn of the caller's loop. *)
From S2P Require Import GoStd Prelude Netip.

(** ** pathstats.Stats (core/pathstats/pathstats.go) *)
Record Stats := mkStats {
  MinRTT : Z;            (* time.Duration *)
  LatestRTT : Z;
  SmoothedRTT : Z;
  RTTVariance : Z;
  BytesSent : Z;         (* uint64 *)
  PacketsSent : Z;
  BytesReceived : Z;
  PacketsReceived : Z;
  BytesLost : Z;
  PacketsLost : Z;
}.

(** ** Constants and data *)
Definition silenceSlack : Z := 2 * Second.
Definition ackDelay : Z := 25 * Millisecond.
Definition granularity : Z := Millisecond.

Record Config := mkConfig {
  KeepAlive : Z;
  IdleTimeout : Z;
  Candidates : list AddrPort;
}.

Record Observation := mkObservation {
  At : Z;
  On : AddrPort;
  Live : bool;
  obs_Stats : Stats;
}.

Definition zero_Stats : Stats := mkStats 0 0 0 0 0 0 0 0 0 0.

(** A [net.Addr]: absent, a UDP address, or something else with its [String()]. *)
Inductive NetAddr : Type :=
| NilAddr
| UDPAddr (ip : bytes) (port : Z) (zone : string)
| OtherAddr (str : string).

(** [UDPAddr.AddrPort]. *)
Definition UDPAddr_AddrPort (ip : bytes) (port : Z) (zone : string) : AddrPort :=
  AddrPortFrom (WithZone (default ZeroAddr (AddrFromSlice ip)) zone) (u16 port).

Definition addrPort (a : NetAddr) : AddrPort * bool :=
  match a with
  | NilAddr => (zero_AddrPort, false)
  | UDPAddr ip port zone =>
      let ap := UDPAddr_AddrPort ip port zone in
      (AddrPortFrom (Unmap (ap_Addr ap)) (ap_Port ap), AddrPort_IsValid ap)
  | OtherAddr str =>
      match ParseAddrPort str with
      | None => (zero_AddrPort, false)
      | Some ap => (AddrPortFrom (Unmap (ap_Addr ap)) (ap_Port ap), true)
      end
  end.

(** [Sample]: the path answers [PathStats()] and [Current()]. *)
Definition Sample (at_ : Z) (path_stats : Stats * bool) (current : NetAddr) : option Observation :=
  let '(stats, live) := path_stats in
  if negb live then Some (mkObservation at_ zero_AddrPort false zero_Stats)
  else let '(on, ok) := addrPort current in
       if negb ok then None else Some (mkObservation at_ on true stats).

Inductive Action : Type := Stay | Switch | GiveUp.
Inductive Reason : Type :=
| Alive | NoKeepAlive | NoConnection | Silent | Exhausted | NoCandidates.
Inductive Outcome : Type := Refused | ConnectionGone.

#[export] Instance Action_eq_dec : EqDecision Action.
Proof. solve_decision. Defined.

Definition Action_String (a : Action) : string :=
  match a with Stay => "stay" | Switch => "switch" | GiveUp => "give-up" end.

Definition Reason_String (r : Reason) : string :=
  match r with
  | Alive => "alive"
  | NoKeepAlive => "no-keep-alive"
  | NoConnection => "no-connection"
  | Silent => "silent"
  | Exhausted => "exhausted"
  | NoCandidates => "no-candidates"
  end.

Record Decision := mkDecision {
  d_Action : Action;
  d_Reason : Reason;
  d_To : AddrPort;
  d_Silence : Z;
  d_Threshold : Z;
}.

(** ** The threshold, in 64-bit durations *)
Definition pto (s : Stats) : Z :=
  i64 (i64 (SmoothedRTT s + Z.max (i64 (4 * RTTVariance s)) granularity) + ackDelay).

Definition Threshold (cfg : Config) (s : Stats) : Z :=
  let interval := KeepAlive cfg in
  let half := quot (IdleTimeout cfg) 2 in
  let interval := if (0 <? half) && (half <? interval) then half else interval in
  let slow := quot (i64 (3 * pto s)) 2 in
  let interval := if interval <? slow then slow else interval in
  i64 (i64 (interval + SmoothedRTT s) + silenceSlack).

(** ** The selector *)
Record Selector := mkSelector {
  cfg : Config;
  started : bool;
  on : AddrPort;
  quietSince : Z;
  lastRx : Z;
  tried : gset AddrPort;
  exhausted : bool;
  pendingFrom : AddrPort;
  pendingQuiet : Z;
}.

Definition set_on (a : AddrPort) (s : Selector) : Selector :=
  mkSelector (cfg s) (started s) a (quietSince s) (lastRx s) (tried s) (exhausted s)
    (pendingFrom s) (pendingQuiet s).
Definition set_started (b : bool) (s : Selector) : Selector :=
  mkSelector (cfg s) b (on s) (quietSince s) (lastRx s) (tried s) (exhausted s)
    (pendingFrom s) (pendingQuiet s).
Definition set_lastRx (n : Z) (s : Selector) : Selector :=
  mkSelector (cfg s) (started s) (on s) (quietSince s) n (tried s) (exhausted s)
    (pendingFrom s) (pendingQuiet s).
Definition set_tried (t : gset AddrPort) (s : Selector) : Selector :=
  mkSelector (cfg s) (started s) (on s) (quietSince s) (lastRx s) t (exhausted s)
    (pendingFrom s) (pendingQuiet s).
Definition set_exhausted (b : bool) (s : Selector) : Selector :=
  mkSelector (cfg s) (started s) (on s) (quietSince s) (lastRx s) (tried s) b
    (pendingFrom s) (pendingQuiet s).
Definition set_pending (a : AddrPort) (q : Z) (s : Selector) : Selector :=
  mkSelector (cfg s) (started s) (on s) (quietSince s) (lastRx s) (tried s) (exhausted s) a q.

Definition restart (at_ : Z) (s : Selector) : Selector :=
  mkSelector (cfg s) (started s) (on s) at_ (lastRx s) (tried s) (exhausted s)
    (pendingFrom s) (pendingQuiet s).

Definition freshConnection (at_ : Z) (s : Selector) : Selector :=
  set_exhausted false (set_tried ∅ (restart at_ s)).

Definition normalize (c : AddrPort) : AddrPort := AddrPortFrom (Unmap (ap_Addr c)) (ap_Port c).

Definition New (c : Config) : Selector :=
  {| cfg := mkConfig (KeepAlive c) (IdleTimeout c) (normalize <$> Candidates c);
     started := false; on := zero_AddrPort; quietSince := 0; lastRx := 0; tried := ∅;
     exhausted := false; pendingFrom := zero_AddrPort; pendingQuiet := 0 |}.

Definition next (s : Selector) : option AddrPort :=
  List.find (λ c, negb (bool_decide (c ∈ tried s)) && negb (bool_decide (c = on s)))
            (Candidates (cfg s)).

(** The reading: where the clock, the address and the counter stand after the
    observation, before anything is decided. *)
Definition Observe_reading (o : Observation) (s : Selector) : Selector * Z :=
  let s := if started s then s
           else restart (At o) (set_lastRx (PacketsReceived (obs_Stats o))
                                           (set_on (On o) (set_started true s))) in
  let at_ := if At o <? quietSince s then quietSince s else At o in
  let rx := PacketsReceived (obs_Stats o) in
  let s := if rx <? lastRx s then set_on (On o) (freshConnection at_ s)
           else if negb (bool_decide (On o = on s)) then set_on (On o) (restart at_ s)
           else if lastRx s <? rx then restart at_ s
           else s in
  (set_lastRx rx s, at_).

Definition Observe (o : Observation) (s : Selector) : Decision * Selector :=
  if negb (Live o) then
    (mkDecision Stay NoConnection zero_AddrPort 0 0,
     set_started false (set_on zero_AddrPort (freshConnection (At o) s)))
  else
  let '(s, at_) := Observe_reading o s in
  let threshold := Threshold (cfg s) (obs_Stats o) in
  let quiet := time_Sub at_ (quietSince s) in
  let d a r to := mkDecision a r to quiet threshold in
  if quiet <? threshold then (d Stay Alive zero_AddrPort, s)
  else if KeepAlive (cfg s) <=? 0 then (d Stay NoKeepAlive zero_AddrPort, s)
  else if bool_decide (Candidates (cfg s) = []) then (d GiveUp NoCandidates zero_AddrPort, s)
  else if exhausted s then (d GiveUp Exhausted zero_AddrPort, s)
  else
  let s := set_tried ({[on s]} ∪ tried s) s in
  match next s with
  | None => (d GiveUp Exhausted zero_AddrPort, set_exhausted true s)
  | Some c =>
      let s := set_pending (on s) (quietSince s) s in
      let s := restart at_ (set_on c s) in
      (d Switch Silent c, s)
  end.

Definition SwitchFailed (to : AddrPort) (out : Outcome) (s : Selector) : Selector :=
  if negb (bool_decide (on s = to)) then s else
  let s := set_tried ({[to]} ∪ tried s) s in
  let s := restart (pendingQuiet s) (set_on (pendingFrom s) s) in
  match out with ConnectionGone => set_exhausted true s | Refused => s end.

(** One turn of the caller's loop: a reading, and, when the decision was to
    switch and the switch did not happen, the report of why. *)
Definition poll (s : Selector) (p : Observation * option Outcome) : Selector * Decision :=
  let '(d, s') := Observe p.1 s in
  match d_Action d, p.2 with
  | Switch, Some out => (SwitchFailed (d_To d) out s', d)
  | _, _ => (s', d)
  end.

(** ** Lemmas *)
Section Lemmas.

Lemma Threshold_cfg c1 c2 st :
  KeepAlive c1 = KeepAlive c2 → IdleTimeout c1 = IdleTimeout c2 → Threshold c1 st = Threshold c2 st.
Proof. intros H1 H2. unfold Threshold. by rewrite H1, H2. Qed.

(** What a reading of a live connection leaves behind. *)
Lemma Observe_reading_spec o s s1 at_ :
  Observe_reading o s = (s1, at_) →
  cfg s1 = cfg s ∧ started s1 = true ∧ on s1 = On o
  ∧ lastRx s1 = PacketsReceived (obs_Stats o)
  ∧ at_ = (if started s && (At o <? quietSince s) then quietSince s else At o)
  ∧ ((quietSince s1 = at_)
     ∨ (started s = true ∧ quietSince s1 = quietSince s ∧ On o = on s
        ∧ PacketsReceived (obs_Stats o) = lastRx s
        ∧ tried s1 = tried s ∧ exhausted s1 = exhausted s))
  ∧ ((started s = true → lastRx s <= PacketsReceived (obs_Stats o)) →
     tried s1 = tried s ∧ exhausted s1 = exhausted s).
Proof.
  unfold Observe_reading. destruct (started s) eqn:Est; cbn [quietSince restart lastRx set_lastRx set_on set_started on andb].
  - intros [= <- <-].
    repeat case_if; cbn; rewrite ?Est; repeat split; auto; try lia;
      try (intros Hmono; specialize (Hmono eq_refl); lia).
    all: try (apply negb_false_iff, bool_decide_eq_true in Heqb1; try (right; repeat split); auto; lia).
    all: try (apply negb_false_iff, bool_decide_eq_true in Heqb0; try (right; repeat split); auto; lia).
  - rewrite !Z.ltb_irrefl, bool_decide_true by done. cbn. intros [= <- <-]. cbn.
    repeat split; auto.
Qed.

Lemma next_Some s c : next s = Some c → c ∈ Candidates (cfg s) ∧ (c ∉ tried s) ∧ c ≠ on s.
Proof.
  unfold next. intros [Hin Hp]%List.find_some.
  apply andb_true_iff in Hp as [H1%negb_true_iff H2%negb_true_iff].
  apply bool_decide_eq_false in H1, H2. split; [|done]. by apply list_elem_of_In.
Qed.

Lemma next_None s c : next s = None → c ∈ Candidates (cfg s) → c ∈ tried s ∨ c = on s.
Proof.
  unfold next. intros Hn Hc%list_elem_of_In.
  pose proof (List.find_none _ _ Hn c Hc) as Hp. apply andb_false_iff in Hp as [Hp|Hp];
    apply negb_false_iff, bool_decide_eq_true in Hp; auto.
Qed.

(** What the decision leaves unchanged. *)
Definition same_reading (s s' : Selector) : Prop :=
  cfg s' = cfg s ∧ started s' = started s ∧ lastRx s' = lastRx s.

(** A live observation either stays (or gives up) with the address and the
    clock as the reading left them, or moves to an untried candidate on the
    evidence of a silence. *)
Lemma Observe_live o s d s' :
  Live o = true → Observe o s = (d, s') →
  ∃ s1 at_, Observe_reading o s = (s1, at_) ∧ same_reading s1 s' ∧
    ((d_Action d ≠ Switch ∧ on s' = on s1 ∧ quietSince s' = quietSince s1
      ∧ tried s1 ⊆ tried s' ∧ tried s' ⊆ {[on s1]} ∪ tried s1)
     ∨ (d_Action d = Switch ∧ d_Reason d = Silent
        ∧ d_Threshold d = Threshold (cfg s1) (obs_Stats o)
        ∧ d_Silence d = time_Sub at_ (quietSince s1) ∧ d_Threshold d <= d_Silence d
        ∧ 0 < KeepAlive (cfg s1) ∧ exhausted s1 = false
        ∧ on s' = d_To d ∧ quietSince s' = at_ ∧ tried s' = {[on s1]} ∪ tried s1
        ∧ pendingFrom s' = on s1 ∧ pendingQuiet s' = quietSince s1
        ∧ next (set_tried ({[on s1]} ∪ tried s1) s1) = Some (d_To d))).
Proof.
  intros HL. unfold Observe. rewrite HL. cbn [negb].
  destruct (Observe_reading o s) as [s1 at_]. intros Hd. exists s1, at_. split; [done|].
  revert Hd. repeat case_if.
  1-4: intros [= <- <-]; split; [done|]; left; repeat split; first [done | set_solver].
  destruct (next _) as [c|] eqn:Hn; intros [= <- <-]; (split; [done|]).
  - right. cbn. repeat split; auto; lia.
  - left. cbn. repeat split; first [done | set_solver].
Qed.

(** A report of failure puts the address and the clock back. *)
Lemma poll_live o fail s s' d :
  Live o = true → poll s (o, fail) = (s', d) →
  ∃ s1 at_, Observe_reading o s = (s1, at_) ∧ same_reading s1 s' ∧
    ((d_Action d ≠ Switch ∧ on s' = on s1 ∧ quietSince s' = quietSince s1
      ∧ tried s1 ⊆ tried s' ∧ tried s' ⊆ {[on s1]} ∪ tried s1)
     ∨ (d_Action d = Switch ∧ d_Threshold d = Threshold (cfg s1) (obs_Stats o)
        ∧ d_Threshold d <= time_Sub at_ (quietSince s1) ∧ 0 < KeepAlive (cfg s1)
        ∧ d_To d ∈ Candidates (cfg s1) ∧ d_To d ≠ on s1 ∧ (d_To d ∉ tried s1)
        ∧ {[on s']} ∪ tried s' = {[d_To d; on s1]} ∪ tried s1
        ∧ ((fail = None ∧ on s' = d_To d ∧ quietSince s' = at_)
           ∨ (fail ≠ None ∧ on s' = on s1 ∧ quietSince s' = quietSince s1)))).
Proof.
  intros HL. unfold poll. cbn [fst snd]. destruct (Observe o s) as [d0 s0] eqn:Ho.
  destruct (Observe_live _ _ _ _ HL Ho) as (s1 & at_ & Hr & (Hc & Hst & Hrx) & Hcase).
  intros Hp. exists s1, at_. split; [done|].
  destruct Hcase as [(Ha & Hon & Hq & Ht)|(Ha & _ & Hth & Hsil & Hle & Hk & _ & Hon & Hq & Ht & Hpf & Hpq & Hn)].
  - destruct (d_Action d0) eqn:Ea; [|done|]; simplify_eq; (split; [done|]); left; by rewrite Ea.
  - rewrite Ha in Hp. apply next_Some in Hn as (Hin & Hnt & Hno). cbn in Hin, Hnt, Hno.
    rewrite Hsil in Hle.
    destruct fail as [out|]; simplify_eq.
    + unfold SwitchFailed. rewrite Hon, bool_decide_true by done. cbn [negb].
      assert (∀ s2, same_reading s1 s2 ∧ on s2 = on s1 ∧ quietSince s2 = quietSince s1
               ∧ tried s2 = {[d_To d; on s1]} ∪ tried s1 →
               same_reading s1 s2 ∧ on s2 = on s1 ∧ quietSince s2 = quietSince s1 ∧
               {[on s2]} ∪ tried s2 = {[d_To d; on s1]} ∪ tried s1) as Hgen.
      { intros s2 (H1 & H2 & H3 & H4). rewrite H4, H2. split; [done|]. set_solver. }
      match goal with |- same_reading s1 ?s2 ∧ _ =>
        destruct (Hgen s2) as (H1 & H2 & H3 & H4) end.
      { destruct out; unfold same_reading; cbn; rewrite Ht, Hpf, Hpq; repeat split; auto; set_solver. }
      split; [done|]. right. repeat split; auto; set_solver.
    + split; [done|]. right. rewrite Ht, Hon. repeat split; auto; set_solver.
Qed.

Lemma poll_dead_obs o fail s s' d :
  Live o = false → poll s (o, fail) = (s', d) →
  d_Action d = Stay ∧ cfg s' = cfg s ∧ started s' = false ∧ quietSince s' = At o
  ∧ tried s' = ∅ ∧ exhausted s' = false.
Proof. intros HL. unfold poll, Observe. cbn [fst]. rewrite HL. cbn. by intros [= <- <-]. Qed.

End Lemmas.

(** ** How often one connection is switched *)
Section Bounded.

(** The readings of one connection: all live, with a counter that never falls. *)
Fixpoint one_connection (s : Selector) (ps : list (Observation * option Outcome)) : Prop :=
  match ps with
  | [] => True
  | p :: ps => Live p.1 = true
               ∧ (started s = true → lastRx s <= PacketsReceived (obs_Stats p.1))
               ∧ one_connection (poll s p).1 ps
  end.

(** How often the connection is found on an address it was not sent to. *)
Fixpoint moves (s : Selector) (ps : list (Observation * option Outcome)) : nat :=
  match ps with
  | [] => 0
  | p :: ps => ((if started s && negb (bool_decide (On p.1 = on s)) then 1 else 0)
                + moves (poll s p).1 ps)%nat
  end.

Definition switches (ds : list Decision) : nat :=
  length (filter (λ d, d_Action d = Switch) ds).

Definition candidates_of (c : Config) : gset AddrPort := list_to_set (Candidates c).

(** The candidates that are still open to a switch. *)
Definition untried (s : Selector) : gset AddrPort :=
  candidates_of (cfg s) ∖ ((if started s then {[on s]} else ∅) ∪ tried s).

Lemma poll_untried s p s' d :
  Live p.1 = true → (started s = true → lastRx s <= PacketsReceived (obs_Stats p.1)) →
  poll s p = (s', d) →
  cfg s' = cfg s ∧
  (base.size (untried s') + (if decide (d_Action d = Switch) then 1 else 0)
   <= base.size (untried s)
      + (if started s && negb (bool_decide (On p.1 = on s)) then 1 else 0))%nat.
Proof.
  destruct p as [o fail]. cbn [fst]. intros HL Hrx Hp.
  destruct (poll_live _ _ _ _ _ HL Hp) as (s1 & at_ & Hr & (Hc & Hst & _) & Hcase).
  apply Observe_reading_spec in Hr as (Hc1 & Hst1 & Hon1 & _ & _ & _ & Hkeep).
  destruct (Hkeep Hrx) as [Ht _]. split; [congruence|].
  assert (base.size (untried s1) <= base.size (untried s)
      + (if started s && negb (bool_decide (On o = on s)) then 1 else 0))%nat as H1.
  { unfold untried. rewrite Hc1, Hst1, Ht. destruct (started s); cbn [andb].
    - case_bool_decide as Hmv; cbn [negb].
      + rewrite Hon1, Hmv. lia.
      + etrans; [apply (subseteq_size _ ({[on s]} ∪ candidates_of (cfg s) ∖ ({[on s]} ∪ tried s)))|].
        * intros x. destruct (decide (x = on s)); set_solver.
        * rewrite size_union_alt, size_singleton.
          enough (base.size (candidates_of (cfg s) ∖ ({[on s]} ∪ tried s) ∖ {[on s]})
            <= base.size (candidates_of (cfg s) ∖ ({[on s]} ∪ tried s)))%nat by lia.
          apply subseteq_size. set_solver.
    - rewrite Nat.add_0_r. apply subseteq_size. set_solver. }
  enough (base.size (untried s') + (if decide (d_Action d = Switch) then 1 else 0)
          <= base.size (untried s1))%nat by lia.
  destruct Hcase as [(Ha & Hon & _ & Ht1 & _)|(Ha & _ & _ & _ & Hin & Hno & Hnt & Heq & _)].
  - rewrite decide_False, Nat.add_0_r by done. apply subseteq_size.
    unfold untried. rewrite Hc, Hst, Hst1, Hon. set_solver.
  - rewrite decide_True by done.
    assert (base.size (untried s') < base.size (untried s1))%nat; [|lia].
    apply subset_size. unfold untried. rewrite Hc, Hst, Hst1, Heq.
    assert (d_To d ∈ candidates_of (cfg s1)) by (unfold candidates_of; set_solver).
    split; [set_solver|]. intros Hsub. specialize (Hsub (d_To d)). set_solver.
Qed.

Lemma switches_cons d ds :
  switches (d :: ds) = ((if decide (d_Action d = Switch) then 1 else 0) + switches ds)%nat.
Proof. unfold switches. rewrite filter_cons. by case_decide. Qed.

Lemma switches_untried s ps s' ds :
  one_connection s ps → run poll s ps = (s', ds) →
  (base.size (untried s') + switches ds <= base.size (untried s) + moves s ps)%nat.
Proof.
  revert s ds. induction ps as [|p ps IH]; intros s ds; cbn [run one_connection moves].
  { intros _ [= <- <-]. unfold switches. simpl. lia. }
  intros (HL & Hrx & Hoc). destruct (poll s p) as [s1 d] eqn:Hp. cbn [fst] in *.
  destruct (run poll s1 ps) as [s2 ds'] eqn:Hr. intros [= <- <-].
  destruct (poll_untried s p s1 d HL Hrx Hp) as [_ Hle].
  specialize (IH s1 ds' Hoc Hr). rewrite switches_cons. lia.
Qed.

End Bounded.

(** On one connection the policy orders at most one switch per distinct
    candidate, plus one for every time the connection is found on an address it
    was not ordered to: with a connection that stays where it is put, the walk
    over the candidates is finite, however long it is observed and whichever
    switches fail. *)
Lemma switches_bounded c ps s ds :
  one_connection (New c) ps → run poll (New c) ps = (s, ds) →
  (switches ds <= base.size (candidates_of (cfg (New c))) + moves (New c) ps)%nat.
Proof.
  intros Hoc Hr. pose proof (switches_untried _ _ _ _ Hoc Hr) as H.
  assert (untried (New c) = candidates_of (cfg (New c))) as Hu
    by (unfold untried; cbn [New started]; set_solver).
  rewrite Hu in H. lia.
Qed.

(** ** The evidence behind a switch *)
Section Evidence.

Definition heard (o : Observation) (s : Selector) : Prop :=
  started s = true ∧ Live o = true ∧ PacketsReceived (obs_Stats o) = lastRx s ∧ On o = on s.

(** Every reading since [quietSince] found the same address and counter. *)
Record quiet_ok (h : list Observation) (s : Selector) : Prop := {
  quiet_heard o : o ∈ h → quietSince s < At o → heard o s;
  quiet_past : started s = true → ∃ o, o ∈ h ∧ quietSince s <= At o;
}.

Lemma poll_quiet_ok h s p s' d :
  quiet_ok h s → (∀ o, o ∈ h → At o <= At p.1) → poll s p = (s', d) → quiet_ok (p.1 :: h) s'.
Proof.
  destruct p as [o fail]. cbn [fst]. intros [Hh Hp] Hord Hpoll.
  destruct (Live o) eqn:HL.
  2:{ apply poll_dead_obs in Hpoll as (_ & _ & Hst & Hq & _); [|done]. split.
      - intros o' [->|Ho']%elem_of_cons; rewrite Hq; [lia|]. specialize (Hord _ Ho'). lia.
      - by rewrite Hst. }
  destruct (poll_live _ _ _ _ _ HL Hpoll) as (s1 & at_ & Hr & (_ & Hst & Hrx) & Hcase).
  apply Observe_reading_spec in Hr as (_ & Hst1 & Hon1 & Hrx1 & Hat & Hq & _).
  assert (at_ = At o) as ->.
  { rewrite Hat. destruct (started s) eqn:E; [|done]. cbn [andb].
    destruct (Z.ltb_spec (At o) (quietSince s)); [|done].
    destruct (Hp eq_refl) as (o' & Ho' & ?). specialize (Hord _ Ho'). lia. }
  assert (quiet_ok (o :: h) s1) as [Hh1 Hp1].
  { split; [|intros _; exists o; split; [by left|]].
    - intros o' Ho' Hlt. destruct Hq as [Hq|(_ & Hq & Hono & Hrxo & _)].
      + apply elem_of_cons in Ho' as [->|Ho']; [lia|]. specialize (Hord _ Ho'). lia.
      + apply elem_of_cons in Ho' as [->|Ho'].
        * repeat split; congruence.
        * destruct (Hh o' Ho' ltac:(lia)) as (? & ? & ? & ?). repeat split; congruence.
    - destruct Hq as [->|(Hs & -> & _)]; [lia|].
      destruct (Hp Hs) as (o' & Ho' & ?). specialize (Hord _ Ho'). lia. }
  assert (quietSince s1 <= At o) as Hqo.
  { destruct (Hp1 Hst1) as (o' & [->|Ho']%elem_of_cons & ?); [done|].
    specialize (Hord _ Ho'). lia. }
  assert (on s' = on s1 ∧ quietSince s' = quietSince s1 ∨ quietSince s' = At o) as [[Hon Hqs]|Hqs]
    by (destruct Hcase as [(_ & ? & ? & _)|(_ & _ & _ & _ & _ & _ & _ & _ & [(_ & _ & ?)|(_ & ? & ?)])]; auto).
  - split.
    + intros o' Ho' Hlt. destruct (Hh1 o' Ho' ltac:(lia)) as (? & ? & ? & ?). repeat split; congruence.
    + intros _. exists o. split; [by left | lia].
  - split.
    + intros o' [->|Ho']%elem_of_cons Hlt; [lia|]. specialize (Hord _ Ho'). lia.
    + intros _. exists o. split; [by left | lia].
Qed.

Lemma run_quiet_ok c ps s ds :
  StronglySorted Z.le (At <$> ps.*1) → run poll (New c) ps = (s, ds) →
  quiet_ok ps.*1 s ∧ cfg s = cfg (New c).
Proof.
  revert s ds. induction ps as [|p ps IH] using rev_ind; intros s ds Hs.
  { intros [= <- <-]. split; [|done]. split; [by intros ? ?%not_elem_of_nil | done]. }
  rewrite !fmap_app in *. cbn [fmap list_fmap] in *.
  rewrite run_app. destruct (run poll (New c) ps) as [s1 os1] eqn:Hr. cbn [run].
  destruct (poll s1 p) as [s2 d] eqn:Hp. intros [= <- <-].
  apply StronglySorted_app in Hs as (Hs1 & Hs2 & _).
  destruct (IH _ _ Hs2 eq_refl) as [Hq Hc].
  assert (quiet_ok (p.1 :: ps.*1) s2) as [Q1 Q2].
  { apply (poll_quiet_ok _ s1 p s2 d); [done | | done].
    intros o Ho. apply Hs1; [by apply list_elem_of_fmap_2 | by left]. }
  split.
  - split.
    + intros o [Ho|Ho%list_elem_of_singleton]%elem_of_app; apply Q1; [by right|]. subst. by left.
    + intros Hst. destruct (Q2 Hst) as (o & Ho & ?). exists o. split; [|done].
      apply elem_of_cons in Ho as [->|?]; apply elem_of_app; [right; by left | by left].
  - rewrite <-Hc. destruct p as [o fail]. destruct (Live o) eqn:HL.
    + destruct (poll_live _ _ _ _ _ HL Hp) as (s3 & at_ & Hr3 & (Hc3 & _) & _).
      apply Observe_reading_spec in Hr3 as (? & _). congruence.
    + by apply poll_dead_obs in Hp as (_ & ? & _).
Qed.

End Evidence.

(** C38: A switch is ordered only on evidence.  The connection sends
    keep-alives, and every reading taken less than the threshold before the one
    decided on found a live connection on the same address with the same count
    of received packets.  The target is another one of the candidates. *)
Theorem Switch_evidence c ps o fail s ds s' d :
  StronglySorted Z.le (At <$> ps.*1 ++ [o]) →
  run poll (New c) ps = (s, ds) → poll s (o, fail) = (s', d) → d_Action d = Switch →
  0 < KeepAlive c ∧ d_Threshold d = Threshold c (obs_Stats o)
  ∧ d_To d ∈ Candidates (cfg (New c)) ∧ d_To d ≠ On o
  ∧ ∀ o', o' ∈ ps.*1 → At o - Threshold c (obs_Stats o) < At o' →
      Live o' = true ∧ On o' = On o
      ∧ PacketsReceived (obs_Stats o') = PacketsReceived (obs_Stats o).
Proof.
  rewrite fmap_app. intros Hs Hr Hp Ha.
  apply StronglySorted_app in Hs as (Hord & Hs & _).
  destruct (run_quiet_ok _ _ _ _ Hs Hr) as [[Hh Hpast] Hcfg].
  destruct (Live o) eqn:HL; [|apply poll_dead_obs in Hp as [? _]; congruence].
  destruct (poll_live _ _ _ _ _ HL Hp) as (s1 & at_ & Hr1 & _ & [(? & _)|Hsw]); [done|].
  destruct Hsw as (_ & Hth & Hle & Hk & Hin & Hno & _).
  apply Observe_reading_spec in Hr1 as (Hc1 & _ & Hon1 & _ & Hat & Hq & _).
  rewrite Hc1, Hcfg in *. rewrite Hon1 in Hno.
  rewrite (Threshold_cfg _ c) in Hth by done.
  split; [done|]. split; [done|]. split; [done|]. split; [done|].
  intros o' Ho' Hrecent. rewrite Hth in Hle.
  assert (At o' <= At o) as Hpo by (apply Hord; [by apply list_elem_of_fmap_2 | by left]).
  assert (quietSince s1 < At o' ∧ started s = true) as [Hlt Hst].
  { assert (at_ = At o) as Hato.
    { rewrite Hat. destruct (started s); [|done]. cbn [andb].
      destruct (Z.ltb_spec (At o) (quietSince s)); [|done].
      destruct (Hpast eq_refl) as (o2 & Ho2 & ?).
      assert (At o2 <= At o) by (apply Hord; [by apply list_elem_of_fmap_2 | by left]). lia. }
    rewrite Hato in *. destruct Hq as [Hq|(Hst & _)].
    - exfalso. rewrite Hq, time_Sub_small in Hle by (unfold MinInt64, MaxInt64; lia). lia.
    - unfold time_Sub, MinInt64, MaxInt64 in Hle.
      assert (- 2 ^ 63 <= Threshold c (obs_Stats o) <= 2 ^ 63 - 1) by apply i64_bound.
      split; [|done]. lia. }
  destruct Hq as [Hq|(_ & Hq & Hono & Hrxo & _)].
  - exfalso. unfold time_Sub, MinInt64, MaxInt64 in Hle. rewrite Hq in *.
    assert (- 2 ^ 63 <= Threshold c (obs_Stats o) <= 2 ^ 63 - 1) by apply i64_bound.
    rewrite Hat in *. destruct (started s && (At o <? quietSince s)) eqn:E; [|lia].
    apply andb_true_iff in E as [_ E%Z.ltb_lt]. lia.
  - destruct (Hh o' Ho' ltac:(lia)) as (_ & ? & ? & ?). repeat split; congruence.
Qed.

(** ** A dead path *)
Section Dead.

(** The distinct addresses of [l] that are not in [seen], in order. *)
Fixpoint fresh_candidates (seen : gset AddrPort) (l : list AddrPort) : list AddrPort :=
  match l with
  | [] => []
  | c :: l => if decide (c ∈ seen) then fresh_candidates seen l
              else c :: fresh_candidates ({[c]} ∪ seen) l
  end.

Lemma fresh_candidates_proper seen1 seen2 l :
  seen1 ≡ seen2 → fresh_candidates seen1 l = fresh_candidates seen2 l.
Proof. intros. f_equal. by apply leibniz_equiv. Qed.

Lemma fresh_candidates_head seen c l l' :
  fresh_candidates seen l = c :: l' → fresh_candidates ({[c]} ∪ seen) l = l'.
Proof.
  revert seen. induction l as [|x l IH]; intros seen; simpl; [done|].
  case_decide as Hx.
  - intros Hf. rewrite decide_True by set_solver. by apply IH.
  - intros [= -> <-]. by rewrite decide_True by set_solver.
Qed.

Lemma find_fresh (t : gset AddrPort) a l :
  List.find (λ c, negb (bool_decide (c ∈ t)) && negb (bool_decide (c = a))) l
  = head (fresh_candidates ({[a]} ∪ t) l).
Proof.
  induction l as [|x l IH]; simpl; [done|].
  case_decide as Hx.
  - assert (negb (bool_decide (x ∈ t)) && negb (bool_decide (x = a)) = false) as ->; [|done].
    apply andb_false_iff. rewrite !negb_false_iff, !bool_decide_eq_true. set_solver.
  - rewrite !bool_decide_eq_false_2 by set_solver. done.
Qed.

Context (c : Config) (st : Stats).
Context (Hka : 0 < KeepAlive c) (Hth : 0 < Threshold c st).

(** Nothing is received any more; every switch is carried out. *)
Definition dead_poll (s : Selector) (t : Z) : Selector * Decision :=
  poll s (mkObservation t (on s) true st, None).

Definition dead_state (t : Z) (l : list AddrPort) (s : Selector) : Prop :=
  cfg s = cfg (New c) ∧ started s = true ∧ lastRx s = PacketsReceived st
  ∧ quietSince s + Threshold c st <= t
  ∧ fresh_candidates ({[on s]} ∪ tried s) (Candidates (cfg s)) = l
  ∧ (exhausted s = true → l = []).

Lemma dead_poll_step t l s :
  dead_state t l s →
  ∃ s' d, dead_poll s t = (s', d) ∧
    (d_Action d, d_To d) = match l with [] => (GiveUp, zero_AddrPort) | x :: _ => (Switch, x) end ∧
    ∀ t', t + Threshold c st <= t' → dead_state t' (tail l) s'.
Proof.
  intros (Hc & Hst & Hrx & Hq & Hl & Hex).
  assert (Threshold (cfg s) st = Threshold c st) as HTh by (by apply Threshold_cfg; rewrite Hc).
  assert (Threshold c st <= MaxInt64) as Hmax by apply i64_bound.
  assert (Observe_reading (mkObservation t (on s) true st) s = (set_lastRx (lastRx s) s, t)) as Hread.
  { unfold Observe_reading. cbn. rewrite Hst.
    destruct (Z.ltb_spec t (quietSince s)); [lia|].
    rewrite Hrx, !Z.ltb_irrefl, bool_decide_true by done. done. }
  unfold dead_poll, poll, Observe. cbn [fst snd Live negb]. rewrite Hread. cbn [cfg set_lastRx obs_Stats quietSince exhausted tried on].
  rewrite HTh.
  destruct (Z.ltb_spec (time_Sub t (quietSince s)) (Threshold c st)) as [Hlt|_].
  { unfold time_Sub, MinInt64, MaxInt64 in *. lia. }
  assert (KeepAlive (cfg s) = KeepAlive c) as HK by (by rewrite Hc).
  destruct (Z.leb_spec (KeepAlive (cfg s)) 0); [lia|].
  assert (∀ s' t' , cfg s' = cfg s → started s' = true → lastRx s' = lastRx s →
     quietSince s' = quietSince s → {[on s']} ∪ tried s' ≡ {[on s]} ∪ tried s → l = [] →
     t + Threshold c st <= t' → dead_state t' (tail l) s') as Hstay.
  { intros s' t' E1 E2 E3 E4 E5 E6 Ht. repeat split; try congruence; [lia| |by rewrite E6].
    rewrite (fresh_candidates_proper _ _ _ E5), E1, Hl. by rewrite E6. }
  case_bool_decide as Hnil.
  { rewrite Hnil in Hl. simpl in Hl. subst l.
    eexists _, _. split; [reflexivity|]. split; [done|].
    intros t' Ht'. by apply Hstay. }
  destruct (exhausted s) eqn:Ee.
  { specialize (Hex eq_refl). subst l. eexists _, _. split; [reflexivity|]. rewrite Hex. split; [done|].
    intros t' Ht'. rewrite <-Hex. by apply Hstay. }
  set (s1 := set_tried _ _).
  assert (next s1 = head l) as ->.
  { unfold next. cbn. rewrite find_fresh, <-Hl. f_equal. apply fresh_candidates_proper. set_solver. }
  destruct l as [|x l]; cbn [head].
  - eexists _, _. split; [reflexivity|]. split; [done|].
    intros t' Ht'. apply Hstay; try done. cbn. set_solver.
  - eexists _, _. split; [reflexivity|]. split; [done|].
    intros t' Ht'. unfold dead_state. cbn. repeat split; try done; [|congruence].
    apply fresh_candidates_head in Hl. rewrite <-Hl. apply fresh_candidates_proper. set_solver.
Qed.

Lemma dead_run ts t0 l s :
  dead_state (t0 + Threshold c st) l s →
  StronglySorted (λ a b, a + Threshold c st <= b) (t0 :: ts) →
  (λ d, (d_Action d, d_To d)) <$> (run dead_poll s ts).2
  = take (length ts) (((λ x, (Switch, x)) <$> l) ++ replicate (length ts) (GiveUp, zero_AddrPort)).
Proof.
  revert t0 l s. induction ts as [|t ts IH]; intros t0 l s Hd Hs; [done|].
  apply StronglySorted_inv in Hs as [Hs Hlt].
  apply Forall_cons in Hlt as [Ht _]. cbn beta in Ht.
  assert (dead_state t l s) as Hd'.
  { destruct Hd as (? & ? & ? & Hq & ? & ?). unfold dead_state. split_and!; try assumption. lia. }
  destruct (dead_poll_step t l s Hd') as (s' & d & Hp & Hdec & Hnext).
  cbn [run]. rewrite Hp.
  specialize (IH t (tail l) s' (Hnext _ (Z.le_refl _)) Hs).
  destruct (run dead_poll s' ts) as [s2 ds]. cbn [snd fmap list_fmap length] in *.
  rewrite Hdec, IH. destruct l as [|x l]; cbn [tail fmap list_fmap app take replicate].
  - done.
  - f_equal. change ((GiveUp, zero_AddrPort) :: replicate (length ts) (GiveUp, zero_AddrPort))
      with (replicate (S (length ts)) (GiveUp, zero_AddrPort)).
    by rewrite !take_app, !take_replicate, !Nat.min_l by lia.
Qed.

End Dead.

(** On a path that has gone silent, a caller that polls once per threshold
    and carries out what it is told is sent to every distinct candidate other
    than the address the connection started on, each exactly once and in the
    configured order, and after the last one is told to give up for as long as
    the silence lasts. *)
Theorem dead_path_walk c st a t0 ts s :
  0 < KeepAlive c → 0 < Threshold c st →
  StronglySorted (λ x y, x + Threshold c st <= y) (t0 :: ts) →
  (poll (New c) (mkObservation t0 a true st, None)).1 = s →
  (λ d, (d_Action d, d_To d)) <$> (run (dead_poll st) s ts).2
  = take (length ts)
      (((λ x, (Switch, x)) <$> fresh_candidates {[a]} (Candidates (cfg (New c))))
       ++ replicate (length ts) (GiveUp, zero_AddrPort)).
Proof.
  intros Hka Hth Hts Hs. apply (dead_run c st Hka Hth ts t0); [|done].
  rewrite <-Hs. unfold poll, Observe. cbn [fst snd Live negb].
  unfold Observe_reading. cbn [New started].
  cbn [At obs_Stats On quietSince restart set_lastRx set_on set_started lastRx on].
  rewrite !Z.ltb_irrefl, bool_decide_true by done. cbn [negb].
  cbn [set_lastRx cfg restart set_on set_started quietSince]. rewrite time_Sub_small by (unfold MinInt64, MaxInt64; lia).
  rewrite (Threshold_cfg (cfg (New c)) c st) by done.
  destruct (Z.ltb_spec (t0 - t0) (Threshold c st)) as [_|?]; [|lia]. cbn.
  unfold dead_state. cbn. split_and!; try done; try lia.
  apply fresh_candidates_proper. set_solver.
Qed.

(** ** The threshold *)

(** For durations below 2^58 nanoseconds (nine years) the threshold does
    not wrap and is the documented formula; it is never below the two-second
    slack, nor below the interval at which the connection asks. *)
Theorem Threshold_formula c st :
  0 <= KeepAlive c < 2 ^ 58 → 0 <= IdleTimeout c < 2 ^ 58 →
  0 <= SmoothedRTT st < 2 ^ 58 → 0 <= RTTVariance st < 2 ^ 56 →
  let PTO := SmoothedRTT st + Z.max (4 * RTTVariance st) granularity + ackDelay in
  let bounded := if 2 <=? IdleTimeout c then Z.min (KeepAlive c) (IdleTimeout c / 2)
                 else KeepAlive c in
  Threshold c st = Z.max bounded (3 * PTO / 2) + SmoothedRTT st + silenceSlack
  ∧ silenceSlack + bounded <= Threshold c st.
Proof.
  intros Hk Hi Hs Hv PTO bounded.
  unfold Threshold, pto. unfold silenceSlack, granularity, ackDelay, Second, Millisecond in *.
  change (2 ^ 58) with 288230376151711744 in *. change (2 ^ 56) with 72057594037927936 in *.
  rewrite (i64_small (4 * RTTVariance st)) by (unfold MinInt64, MaxInt64; lia).
  rewrite (i64_small (SmoothedRTT st + _)) by (unfold MinInt64, MaxInt64; lia).
  rewrite (i64_small (SmoothedRTT st + _ + _)) by (unfold MinInt64, MaxInt64; lia).
  fold PTO. assert (PTO = SmoothedRTT st + Z.max (4 * RTTVariance st) 1000000 + 25 * 1000000) as HP by done.
  rewrite (i64_small (3 * PTO)) by (unfold MinInt64, MaxInt64; lia).
  rewrite !Z.quot_div_nonneg by lia.
  assert (0 <= IdleTimeout c / 2 < 288230376151711744) as Hh by (Z.to_euclidean_division_equations; lia).
  assert (0 <= 3 * PTO / 2 < 4 * 288230376151711744) as Hp by (Z.to_euclidean_division_equations; lia).
  assert (bounded = (if (0 <? IdleTimeout c / 2) && (IdleTimeout c / 2 <? KeepAlive c)
                     then IdleTimeout c / 2 else KeepAlive c)) as Hb.
  { unfold bounded. destruct (Z.leb_spec 2 (IdleTimeout c)), (Z.ltb_spec 0 (IdleTimeout c / 2)),
      (Z.ltb_spec (IdleTimeout c / 2) (KeepAlive c)); cbn [andb]; try lia;
      exfalso; Z.to_euclidean_division_equations; lia. }
  rewrite <-Hb. assert (0 <= bounded < 288230376151711744) as Hbb.
  { rewrite Hb. destruct (_ && _); lia. }
  replace (if bounded <? 3 * PTO / 2 then 3 * PTO / 2 else bounded)
    with (Z.max bounded (3 * PTO / 2)) by (destruct (Z.ltb_spec bounded (3 * PTO / 2)); lia).
  set (m := Z.max bounded (3 * PTO / 2)).
  rewrite (i64_small (m + SmoothedRTT st)) by (unfold MinInt64, MaxInt64; lia).
  rewrite i64_small by (unfold MinInt64, MaxInt64; lia).
  lia.
Qed.

(** ** A connection that moves by itself *)
Section Flapping.
Context (a b : AddrPort) (Hab : a ≠ b) (Hb : normalize b = b).

Definition flap_config : Config := mkConfig (10 * Second) (30 * Second) [b].

Definition reading (t : Z) (x : AddrPort) : Observation * option Outcome :=
  (mkObservation t x true zero_Stats, None).

(** Every 40 seconds the connection is found back on [a], and stays silent. *)
Fixpoint flapping (t : Z) (n : nat) : list (Observation * option Outcome) :=
  match n with
  | O => []
  | S n => reading t a :: reading (t + 20 * Second) a :: flapping (t + 40 * Second) n
  end.

Definition flap_state (s : Selector) (t : Z) : Prop :=
  cfg s = flap_config ∧ started s = true ∧ on s = b ∧ lastRx s = 0 ∧ quietSince s <= t
  ∧ (b ∉ tried s) ∧ exhausted s = false.

Lemma flap_round s t :
  on s = b ∧ started s = true ∨ started s = false →
  cfg s = flap_config → lastRx s = 0 → (started s = true → quietSince s <= t) →
  (b ∉ tried s) → exhausted s = false →
  ∃ s' d1 d2, run poll s [reading t a; reading (t + 20 * Second) a] = (s', [d1; d2])
    ∧ d_Action d1 = Stay ∧ d_Action d2 = Switch ∧ d_To d2 = b ∧ flap_state s' (t + 20 * Second).
Proof.
  intros Hon Hc Hrx Hq Hb1 Hex.
  assert (Threshold flap_config zero_Stats = 12 * Second) as Hth by (vm_compute; reflexivity).
  assert (∃ s1, poll s (reading t a) = (s1, mkDecision Stay Alive zero_AddrPort 0 (12 * Second))
    ∧ cfg s1 = flap_config ∧ started s1 = true ∧ on s1 = a ∧ lastRx s1 = 0 ∧ quietSince s1 = t
    ∧ tried s1 = tried s ∧ exhausted s1 = false) as (s1 & Hp1 & Hc1 & Hst1 & Ho1 & Hr1 & Hq1 & Ht1 & He1).
  { unfold poll, Observe, reading. cbn [fst snd Live negb].
    unfold Observe_reading. cbn [At obs_Stats On PacketsReceived zero_Stats].
    destruct (started s) eqn:Est.
    - destruct Hon as [[Hon _]|?]; [|done]. specialize (Hq eq_refl).
      destruct (Z.ltb_spec t (quietSince s)); [lia|].
      rewrite Hrx, Hon, bool_decide_false by done. cbn. rewrite Hc, Hth, time_Sub_small, Z.sub_diag
        by (unfold MinInt64, MaxInt64; lia).
      eexists. split; [reflexivity|]. cbn. rewrite ?Est. auto 10.
    - cbn [quietSince restart set_lastRx set_on set_started lastRx on PacketsReceived zero_Stats].
      rewrite !Z.ltb_irrefl, bool_decide_true by done. cbn.
      rewrite Hc, Hth, time_Sub_small, Z.sub_diag by (unfold MinInt64, MaxInt64; lia).
      eexists. split; [reflexivity|]. cbn. auto 10. }
  cbn [run]. rewrite Hp1.
  unfold poll at 1, Observe, reading. cbn [fst snd Live negb].
  unfold Observe_reading. cbn [At obs_Stats On PacketsReceived zero_Stats].
  rewrite Hst1, Hq1, Hr1, Ho1. unfold Second.
  destruct (Z.ltb_spec (t + 20 * 1000000000) t); [lia|].
  rewrite bool_decide_true by done. cbn [negb]. rewrite Z.ltb_irrefl. cbn [set_lastRx cfg quietSince].
  rewrite Hc1, Hth, Hq1, time_Sub_small by (unfold MinInt64, MaxInt64; lia).
  replace (t + 20 * 1000000000 - t) with (20 * 1000000000) by lia.
  cbn [KeepAlive Candidates flap_config exhausted set_lastRx cfg]. rewrite He1.
  rewrite bool_decide_false by (by unfold flap_config). cbn.
  unfold next. cbn. rewrite ?Hc1, ?Ho1, ?Ht1. cbn.
  assert (b ∉ {[a]} ∪ tried s) as Hbt by (rewrite elem_of_union, elem_of_singleton; intros [?|?]; congruence).
  rewrite !bool_decide_false by (done || congruence). cbn.
  eexists _, _, _. split; [reflexivity|]. unfold flap_state. cbn. rewrite ?Hc1, ?He1. unfold Second.
  repeat split; auto; lia.
Qed.

(** The walk is not bounded by the candidate list alone.  When the
    connection keeps following packets back to the address it was moved off,
    one and the same candidate is ordered as many times as one likes within one
    connection, with a reading every twenty seconds. *)
Lemma flapping_switches n t :
  one_connection (New flap_config) (flapping t n)
  ∧ switches (run poll (New flap_config) (flapping t n)).2 = n.
Proof.
  assert (∀ n t s, on s = b ∧ started s = true ∨ started s = false →
    cfg s = flap_config → lastRx s = 0 → (started s = true → quietSince s <= t) →
    (b ∉ tried s) → exhausted s = false →
    one_connection s (flapping t n) ∧ switches (run poll s (flapping t n)).2 = n) as Hgen.
  { clear n t. induction n as [|n IH]; intros t s Hon Hc Hrx Hq Hb1 Hex; [done|].
    destruct (flap_round s t Hon Hc Hrx Hq Hb1 Hex) as (s' & d1 & d2 & Hr & Ha1 & Ha2 & _ & Hs').
    cbn [run] in Hr. cbn [flapping one_connection run].
    destruct (poll s (reading t a)) as [s1 d1'] eqn:Hp1.
    destruct (poll s1 (reading (t + 20 * Second) a)) as [s2 d2'] eqn:Hp2. simplify_eq. cbn [fst].
    rewrite Hp2. cbn [fst].
    destruct Hs' as (Hc' & Hst' & Hon' & Hrx' & Hq' & Hb' & Hex').
    destruct (IH (t + 40 * Second) s') as [Hoc Hsw]; auto.
    { intros _. unfold Second in *. lia. }
    assert (lastRx s1 <= 0) as Hrx1.
    { destruct (poll_live (mkObservation t a true zero_Stats) None s s1 d1 eq_refl Hp1) as (s3 & at3 & Hr3 & (_ & _ & Hr3') & _).
      apply Observe_reading_spec in Hr3 as (_ & _ & _ & Hr4 & _). cbn in Hr4. lia. }
    split.
    - cbn. repeat split; auto; lia.
    - destruct (run poll s' _) as [s3 ds]. cbn [snd] in *. rewrite !switches_cons.
      rewrite decide_False, decide_True by congruence. lia. }
  apply Hgen; cbn; try done.
  all: first [by right | by (unfold flap_config; rewrite Hb) | set_solver].
Qed.

End Flapping.

(** ** Witnesses *)
Definition home : AddrPort := AddrPortFrom (V4 0xc0000201) 443.
Definition alt1 : AddrPort := AddrPortFrom (V4 0xc0000202) 443.
Definition alt2 : AddrPort := AddrPortFrom (V4 0xc0000203) 443.

(** The client's defaults: a 10 s keep-alive and a 30 s idle timeout; the second
    candidate is given in its v4-in-v6 form. *)
Definition sample_config : Config :=
  mkConfig (10 * Second) (30 * Second)
    [alt1; AddrPortFrom (V6 0xffffc0000203 "") 443; home; alt1].

Definition sample_stats : Stats :=
  mkStats 0 0 (50 * Millisecond) (10 * Millisecond) 0 0 0 7 0 0.

Definition sample_poll (t : Z) (x : AddrPort) (fail : option Outcome)
    : Observation * option Outcome :=
  (mkObservation (t * Second) x true sample_stats, fail).

Lemma switches_bounded_witness :
  (switches (run poll (New sample_config)
     [sample_poll 0 home None; sample_poll 13 home (Some Refused); sample_poll 14 home None;
      sample_poll 27 alt2 None]).2
   <= base.size (candidates_of (cfg (New sample_config)))
      + moves (New sample_config)
          [sample_poll 0 home None; sample_poll 13 home (Some Refused); sample_poll 14 home None;
           sample_poll 27 alt2 None])%nat.
Proof.
  set (ps := [_; _; _; _]).
  destruct (run poll (New sample_config) ps) as [s ds] eqn:Hr.
  apply (switches_bounded sample_config ps s ds); [|exact Hr].
  vm_compute. repeat split; intros; discriminate.
Defined.

Lemma Switch_evidence_witness :
  ∃ (ps : list Observation) (d : Decision), let o := mkObservation (13 * Second) home true sample_stats in
    d_Action d = Switch ∧ d_To d = alt1
    ∧ ∀ o', o' ∈ ps → At o - Threshold sample_config sample_stats < At o' →
        Live o' = true ∧ On o' = On o
        ∧ PacketsReceived (obs_Stats o') = PacketsReceived sample_stats.
Proof.
  destruct (run poll (New sample_config) [sample_poll 0 home None; sample_poll 5 home None])
    as [s ds] eqn:Hr.
  destruct (poll s (sample_poll 13 home None)) as [s' d] eqn:Hp.
  assert (d_Action d = Switch ∧ d_To d = alt1) as [Ha Hto].
  { revert Hr. vm_compute. intros [= <- _]. revert Hp. vm_compute. intros [= _ <-]. done. }
  exists [mkObservation 0 home true sample_stats; mkObservation (5 * Second) home true sample_stats], d.
  split; [done|]. split; [done|]. intros o' Ho'.
  eapply (Switch_evidence sample_config [sample_poll 0 home None; sample_poll 5 home None]
    _ None s ds s' d) in Ha as (_ & _ & _ & _ & Hev); [|vm_compute|exact Hr|exact Hp].
  - apply Hev. exact Ho'.
  - repeat constructor; discriminate.
Defined.

Lemma dead_path_walk_witness :
  let s := (poll (New sample_config) (mkObservation 0 home true sample_stats, None)).1 in
  let ts := [13 * Second; 26 * Second; 40 * Second; 60 * Second] in
  (λ d, (d_Action d, d_To d)) <$> (run (dead_poll sample_stats) s ts).2
  = [(Switch, alt1); (Switch, alt2); (GiveUp, zero_AddrPort); (GiveUp, zero_AddrPort)].
Proof.
  intros s ts.
  rewrite (dead_path_walk sample_config sample_stats home 0 ts s); [vm_compute; reflexivity | reflexivity | reflexivity | | reflexivity].
  repeat constructor; vm_compute; discriminate.
Defined.

Lemma Threshold_formula_witness : silenceSlack + 10 * Second <= Threshold sample_config sample_stats.
Proof.
  apply (Threshold_formula sample_config sample_stats); vm_compute; split; congruence.
Defined.

(** The sample section hypotheses are met by two distinct unmapped addresses. *)
Lemma flapping_switches_witness :
  switches (run poll (New (flap_config alt1)) (flapping home 0 3)).2 = 3%nat.
Proof. apply (flapping_switches home alt1); done. Defined.
