(* ===== verification/Pacer.v ===== *)
(** * The pacer (core/internal/congestion/common/pacer.go)

    A token bucket.  What the controllers use of quic-go is the interface
    [QuicCongestion]: its constants and its monotonic clock.  [getBandwidth],
    the closure the pacer calls, is the argument [bw] of its methods. *)
From S2P Require Import Prelude.

(** ** The quic-go side: package congestion and package monotime

    [monotime.Time] is an int64 of nanoseconds whose zero value means "no
    time". *)
Class QuicCongestion := {
  InitialPacketSize : Z;
  MinPacingDelay : Z;
  MaxCongestionWindowPackets : Z;
  mono_Sub : Z → Z → Z;
  mono_Add : Z → Z → Z;
  mono_IsZero : Z → bool;
  InitialPacketSize_bound : 0 < InitialPacketSize <= 65535;
  MinPacingDelay_bound : 0 < MinPacingDelay <= Second;
  MaxCongestionWindowPackets_bound : 32 <= MaxCongestionWindowPackets <= 2 ^ 20;
  mono_Sub_spec t u : 0 <= u <= t → t <= MaxInt64 → mono_Sub t u = t - u;
  mono_Add_spec t d : 0 <= t → 0 <= d → t + d <= MaxInt64 → mono_Add t d = t + d;
  mono_IsZero_spec t : mono_IsZero t = bool_decide (t = 0);
}.

(** quic-go's figures, for concrete runs. *)
Program Definition quic_go : QuicCongestion := {|
  InitialPacketSize := 1280;
  MinPacingDelay := Millisecond;
  MaxCongestionWindowPackets := 10000;
  mono_Sub t u := i64 (t - u);
  mono_Add t d := i64 (t + d);
  mono_IsZero t := bool_decide (t = 0);
|}.
Next Obligation. done. Qed.
Next Obligation. done. Qed.
Next Obligation. done. Qed.
Next Obligation. intros. apply i64_small. unfold MinInt64. lia. Qed.
Next Obligation. intros. apply i64_small. unfold MinInt64. lia. Qed.
Next Obligation. done. Qed.

Definition maxBurstPackets : Z := 10.
Definition maxBurstPacingDelayMultiplier : Z := 2.

Record Pacer := mkPacer {
  budgetAtLastSent : Z;   (* congestion.ByteCount, an int64 *)
  maxDatagramSize : Z;
  lastSentTime : Z;       (* monotime.Time *)
}.

Section Pacing.
Context `{QuicCongestion}.

Definition NewPacer : Pacer :=
  {| budgetAtLastSent := maxBurstPackets * InitialPacketSize;
     maxDatagramSize := InitialPacketSize; lastSentTime := 0 |}.

Definition maxBurstSize (bw : Z) (p : Pacer) : Z :=
  Z.max (quot (i64 (i64 (maxBurstPacingDelayMultiplier * MinPacingDelay) * bw)) 1000000000)
        (i64 (maxBurstPackets * maxDatagramSize p)).

Definition Budget (bw now : Z) (p : Pacer) : Z :=
  if mono_IsZero (lastSentTime p) then maxBurstSize bw p else
  let budget := i64 (budgetAtLastSent p
                     + quot (i64 (bw * mono_Sub now (lastSentTime p))) 1000000000) in
  let budget := if budget <? 0 then 2 ^ 62 - 1 else budget in
  Z.min (maxBurstSize bw p) budget.

Definition SentPacket (bw sendTime size : Z) (p : Pacer) : Pacer :=
  let budget := Budget bw sendTime p in
  {| budgetAtLastSent := if budget <? size then 0 else i64 (budget - size);
     maxDatagramSize := maxDatagramSize p;
     lastSentTime := sendTime |}.

(** The division by a bandwidth of zero panics. *)
Definition TimeUntilSend (bw : Z) (p : Pacer) : outcome Z :=
  if maxDatagramSize p <=? budgetAtLastSent p then Ret 0 else
  let diff := u64 (1000000000 * u64 (maxDatagramSize p - budgetAtLastSent p)) in
  let bw := u64 bw in
  if bw =? 0 then Panic else
  let d := diff / bw in
  let d := if 0 <? diff mod bw then u64 (d + 1) else d in
  Ret (mono_Add (lastSentTime p) (Z.max MinPacingDelay (i64 (i64 d * Nanosecond)))).

Definition SetMaxDatagramSize (s : Z) (p : Pacer) : Pacer :=
  {| budgetAtLastSent := budgetAtLastSent p; maxDatagramSize := s; lastSentTime := lastSentTime p |}.

Definition Reset (p : Pacer) : Pacer :=
  {| budgetAtLastSent := 0; maxDatagramSize := maxDatagramSize p; lastSentTime := lastSentTime p |}.

(** ** Lemmas *)

(** A pacer in use: sizes of packets and rates below 4 TB/s. *)
Record Pacer_ok (p : Pacer) : Prop := {
  ok_mds : 0 < maxDatagramSize p <= 65535;
  ok_budget : 0 <= budgetAtLastSent p < 2 ^ 61;
  ok_last : 0 <= lastSentTime p;
}.

Definition rate_ok (bw : Z) : Prop := 0 < bw /\ bw * Second < 2 ^ 62.

Lemma rate_bound bw : rate_ok bw → 0 < bw <= 4611686018.
Proof. unfold rate_ok, Second. lia. Qed.

Lemma maxBurstSize_eq bw p :
  rate_ok bw → 0 < maxDatagramSize p <= 65535 →
  maxBurstSize bw p = Z.max (2 * MinPacingDelay * bw / 1000000000) (10 * maxDatagramSize p)
  ∧ 10 * maxDatagramSize p <= maxBurstSize bw p < 2 ^ 61.
Proof.
  intros Hb Hm. pose proof MinPacingDelay_bound as Hd.
  pose proof (rate_bound _ Hb). unfold rate_ok, Second in *.
  unfold maxBurstSize, maxBurstPacingDelayMultiplier, maxBurstPackets.
  rewrite (i64_small (2 * MinPacingDelay)) by (unfold MinInt64, MaxInt64; lia).
  assert (0 <= 2 * MinPacingDelay * bw < 2 ^ 63) by nia.
  rewrite !i64_small by (unfold MinInt64, MaxInt64; lia).
  rewrite Z.quot_div_nonneg by lia. split; [done|].
  assert (2 * MinPacingDelay * bw / 1000000000 < 2 ^ 61) by (apply Z.div_lt_upper_bound; lia).
  lia.
Qed.

Lemma Budget_eq bw now p :
  rate_ok bw → Pacer_ok p → lastSentTime p ≠ 0 → lastSentTime p <= now <= MaxInt64 →
  bw * (now - lastSentTime p) < 2 ^ 62 →
  Budget bw now p = Z.min (maxBurstSize bw p)
                          (budgetAtLastSent p + bw * (now - lastSentTime p) / 1000000000).
Proof.
  intros Hb [Hm Hbud Hl] Hnz Hnow Hov. pose proof (rate_bound _ Hb).
  unfold Budget. rewrite mono_IsZero_spec, bool_decide_eq_false_2, mono_Sub_spec by lia.
  assert (0 <= bw * (now - lastSentTime p)) by nia.
  rewrite (i64_small (bw * _)) by (unfold MinInt64, MaxInt64; lia).
  rewrite Z.quot_div_nonneg by lia.
  assert (0 <= bw * (now - lastSentTime p) / 1000000000 < 2 ^ 61).
  { split; [apply Z.div_pos; lia | apply Z.div_lt_upper_bound; lia]. }
  cbv zeta.
  rewrite i64_small by (unfold MinInt64, MaxInt64; lia).
  by rewrite (proj2 (Z.ltb_ge _ 0)) by lia.
Qed.

Lemma Budget_bounds bw now p :
  rate_ok bw → Pacer_ok p → lastSentTime p <= now <= MaxInt64 →
  bw * (now - lastSentTime p) < 2 ^ 62 →
  0 <= Budget bw now p <= maxBurstSize bw p.
Proof.
  intros Hb Hp Hnow Hov. pose proof Hp as [Hm Hbud Hl].
  destruct (maxBurstSize_eq bw p Hb Hm) as [_ Hmax].
  destruct (decide (lastSentTime p = 0)) as [E|E].
  - unfold Budget. rewrite mono_IsZero_spec, bool_decide_eq_true_2 by done. lia.
  - rewrite Budget_eq by done. pose proof (rate_bound _ Hb).
    assert (0 <= bw * (now - lastSentTime p) / 1000000000) by (apply Z.div_pos; nia). lia.
Qed.

Lemma SentPacket_ok bw now size p :
  rate_ok bw → Pacer_ok p → lastSentTime p <= now <= MaxInt64 →
  bw * (now - lastSentTime p) < 2 ^ 62 → 0 <= size →
  Pacer_ok (SentPacket bw now size p) ∧
  (size <= Budget bw now p → budgetAtLastSent (SentPacket bw now size p) = Budget bw now p - size).
Proof.
  intros Hb Hp Hnow Hov Hsz. pose proof (Budget_bounds bw now p Hb Hp Hnow Hov) as HB.
  destruct (maxBurstSize_eq bw p Hb (ok_mds _ Hp)) as [_ Hmax].
  unfold SentPacket. cbn [budgetAtLastSent].
  destruct (Z.ltb_spec (Budget bw now p) size).
  - split; [|lia]. destruct Hp. split; cbn; lia.
  - rewrite i64_small by (unfold MinInt64, MaxInt64; lia).
    split; [|done]. destruct Hp. split; cbn; lia.
Qed.

End Pacing.

Section Theorems.
Context `{QuicCongestion}.

(** The wait that TimeUntilSend announces is long enough: unless it says
    "now" already, waiting until the time it returns leaves a budget of at
    least one full datagram, at the rate it was computed for. *)
Theorem TimeUntilSend_enough bw p t :
  rate_ok bw → Pacer_ok p → 0 < lastSentTime p → lastSentTime p <= 2 ^ 62 →
  TimeUntilSend bw p = Ret t → t ≠ 0 →
  lastSentTime p < t ∧ maxDatagramSize p <= Budget bw t p.
Proof.
  intros Hb Hp Hl Hl2. pose proof Hp as [Hm Hbud _]. pose proof (rate_bound _ Hb).
  pose proof MinPacingDelay_bound as Hd. unfold Second in Hd.
  unfold TimeUntilSend, Nanosecond. destruct (Z.leb_spec (maxDatagramSize p) (budgetAtLastSent p)).
  { intros [= <-]. done. }
  set (need := maxDatagramSize p - budgetAtLastSent p) in *.
  rewrite (wrapU_small 64 need), (wrapU_small 64 (_ * need)), (wrapU_small 64 bw) by lia.
  destruct (Z.eqb_spec bw 0); [lia|].
  set (diff := 1000000000 * need) in *.
  set (w := if 0 <? diff mod bw then u64 (diff / bw + 1) else diff / bw).
  assert (0 <= diff / bw <= diff) as Hq
    by (split; [apply Z.div_pos; lia | apply Z.div_le_upper_bound; nia]).
  assert (diff <= bw * w ∧ bw * w <= diff + bw ∧ 0 <= w <= diff + 1) as (Hw1 & Hw2 & Hw3).
  { unfold w. pose proof (Z.div_mod diff bw ltac:(lia)) as Hdm.
    pose proof (Z.mod_pos_bound diff bw ltac:(lia)) as Hmb.
    destruct (Z.ltb_spec 0 (diff mod bw)).
    - rewrite wrapU_small by lia. nia.
    - nia. }
  rewrite Z.mul_1_r, (i64_small w) by (unfold MinInt64, MaxInt64; lia).
  rewrite (i64_small w) by (unfold MinInt64, MaxInt64; lia).
  rewrite mono_Add_spec by (unfold MaxInt64; lia).
  intros [= <-] _. set (wait := Z.max MinPacingDelay w).
  assert (0 < wait) by lia. split; [lia|].
  destruct (maxBurstSize_eq bw p Hb Hm) as [_ Hmax].
  assert (bw * wait < 2 ^ 62).
  { unfold rate_ok, Second in Hb. unfold wait. destruct (Z.max_spec MinPacingDelay w) as [[_ ->]|[_ ->]]; nia. }
  assert (lastSentTime p + wait - lastSentTime p = wait) as Hwt by lia.
  assert (wait < 2 ^ 62) by nia.
  rewrite Budget_eq by (try done; rewrite ?Hwt; unfold MaxInt64; lia). rewrite Hwt.
  enough (need <= bw * wait / 1000000000) by lia.
  apply Z.div_le_lower_bound; [lia|]. nia.
Qed.

(** The sends of a run: each packet no larger than the budget at its time. *)
Fixpoint paced (bw : Z) (p : Pacer) (sends : list (Z * Z)) : Prop :=
  match sends with
  | [] => True
  | (t, size) :: sends =>
      lastSentTime p <= t <= MaxInt64 ∧ bw * (t - lastSentTime p) < 2 ^ 62
      ∧ 0 <= size <= Budget bw t p ∧ 0 < t ∧ paced bw (SentPacket bw t size p) sends
  end.

Definition bytes_sent (sends : list (Z * Z)) : Z := foldr (λ x acc, x.2 + acc) 0 sends.

(** The token bucket holds: whatever packets are sent within their budgets,
    at whatever times, the bytes sent up to any moment are at most one burst
    plus what the declared rate allows since the first of them. *)
Theorem paced_rate bw p t0 size0 sends :
  rate_ok bw → Pacer_ok p → paced bw p ((t0, size0) :: sends) →
  let t := default t0 (fst <$> last sends) in
  (bytes_sent ((t0, size0) :: sends) - maxBurstSize bw p) * 1000000000 <= bw * (t - t0).
Proof.
  intros Hb Hp. cbn [paced]. intros (Ht & Hov & Hsz & Ht0 & Hrest).
  destruct (SentPacket_ok bw t0 size0 p Hb Hp Ht Hov ltac:(lia)) as [Hp1 Hbud].
  specialize (Hbud ltac:(lia)).
  pose proof (Budget_bounds bw t0 p Hb Hp Ht Hov) as HB.
  assert (∀ sends p, Pacer_ok p → 0 < lastSentTime p → paced bw p sends →
    (bytes_sent sends - budgetAtLastSent p) * 1000000000
    <= bw * (default (lastSentTime p) (fst <$> last sends) - lastSentTime p)) as Hgen.
  { clear -Hb. induction sends as [|[t size] sends IH]; intros p Hp Hl; cbn [paced bytes_sent foldr].
    - intros _. destruct Hp. simpl. nia.
    - intros (Ht & Hov & Hsz & Ht0 & Hrest).
      destruct (SentPacket_ok bw t size p Hb Hp Ht Hov ltac:(lia)) as [Hp1 Hbud].
      specialize (Hbud ltac:(lia)). specialize (IH _ Hp1 Ht0 Hrest).
      rewrite Hbud in IH. cbn [SentPacket lastSentTime] in IH.
      rewrite Budget_eq in IH by (try done; lia).
      fold (bytes_sent sends). cbn [snd].
      assert (bw * (t - lastSentTime p) / 1000000000 * 1000000000 <= bw * (t - lastSentTime p)) as Hdiv.
      { pose proof (Z.div_mod (bw * (t - lastSentTime p)) 1000000000 ltac:(lia)).
        pose proof (Z.mod_pos_bound (bw * (t - lastSentTime p)) 1000000000 ltac:(lia)). lia. }
      replace (default (lastSentTime p) (fst <$> last ((t, size) :: sends)))
        with (default t (fst <$> last sends)) by (rewrite last_cons; by destruct (last sends)).
      set (T := default t _) in *.
      replace (bw * (T - lastSentTime p)) with (bw * (T - t) + bw * (t - lastSentTime p)) by ring.
      lia. }
  specialize (Hgen sends _ Hp1 Ht0 Hrest). rewrite Hbud in Hgen.
  cbn [SentPacket lastSentTime] in Hgen. cbn [bytes_sent foldr snd]. fold (bytes_sent sends). lia.
Qed.

End Theorems.

(** ** Witnesses *)
#[local] Existing Instance quic_go.

Definition sample_pacer : Pacer := mkPacer 300 1280 (5 * Second).

Lemma sample_pacer_ok : Pacer_ok sample_pacer.
Proof. split; vm_compute; repeat split; congruence. Qed.

Lemma paced_rate_witness :
  (bytes_sent [(5 * Second + Millisecond, 1280); (5 * Second + 3 * Millisecond, 1200)]
   - maxBurstSize 1000000 sample_pacer) * 1000000000 <= 1000000 * (2 * Millisecond).
Proof.
  apply (paced_rate 1000000 sample_pacer (5 * Second + Millisecond) 1280
           [(5 * Second + 3 * Millisecond, 1200)]);
    [vm_compute; split; reflexivity | apply sample_pacer_ok | vm_compute; repeat split; congruence].
Defined.
