(* ===== verification/Brutal.v ===== *)
(** * The Brutal congestion controller (core/internal/congestion/brutal/brutal.go)

    The controller that sends at the declared rate: its sampling window, its
    loss compensation with the two gates on it, the congestion window and the
    minimum round trip measured again after a path change.  The round trip
    statistics of quic-go that a method reads are its argument [rtt]; printing
    under the debug flag is left out, the state it keeps is not. *)
From Stdlib Require Import QArith Lqa.
From S2P Require Import Prelude Float Pacer.
Open Scope Z_scope.

(** ** Constants *)
Definition pktInfoSlotCount : Z := 5.
Definition minSampleCount : Z := 50.
Definition minSampleCountExit : Z := 40.
Definition minAckRate : float64 := round_ratio 8 10.
Definition congestionWindowMultiplier : Z := 2.
Definition cwndRTTClampK : Z := 2.
Definition cwndFloorPackets : Z := 32.
Definition rebaselineWindow : Z := 500 * Millisecond.
Definition rebaselineMinSamples : Z := 8.
Definition congestionRTTRatio : float64 := round_ratio 3 2.
Definition relievedRTTRatio : float64 := round_ratio 5 4.
Definition spuriousLossTrackLimit : Z := 8192.
Definition debugPrintInterval : Z := 2.

Definition one : float64 := of_Z 1.

(** ** Data *)
Record pktInfo := mkPktInfo {
  Timestamp : Z;   (* int64 *)
  AckCount : Z;    (* uint64 *)
  LossCount : Z;
  ECNCount : Z;
}.

(** [congestion.RTTStatsProvider], as it answers during one call. *)
Record RTTStats := mkRTTStats { SmoothedRTT : Z; MinRTT : Z; LatestRTT : Z }.

Record BrutalSender := mkBrutalSender {
  bps : Z;   (* uint64, the declared rate *)
  pacerReset : bool;
  pathReset : bool;
  b_maxDatagramSize : Z;
  pacer : Pacer;
  pktInfoSlots : list pktInfo;   (* [pktInfoSlotCount]pktInfo *)
  ackRate : float64;
  compensating : bool;
  congested : bool;
  pendingECNCE : Z;   (* uint64 *)
  lostPNs : gmap Z Z;   (* packet number to second *)
  minRTTFloor : Z;
  rebaselineMin : Z;
  rebaselineSamples : Z;
  rebaselineStart : Z;
  pathHasChanged : bool;
  disableLossCompensation : bool;
  debug : bool;
  lastAckPrintTimestamp : Z;
}.

Definition set_bps (v : Z) (b : BrutalSender) : BrutalSender :=
  mkBrutalSender v (pacerReset b) (pathReset b) (b_maxDatagramSize b) (pacer b) (pktInfoSlots b)
    (ackRate b) (compensating b) (congested b) (pendingECNCE b) (lostPNs b) (minRTTFloor b)
    (rebaselineMin b) (rebaselineSamples b) (rebaselineStart b) (pathHasChanged b)
    (disableLossCompensation b) (debug b) (lastAckPrintTimestamp b).
Definition set_pacerReset (v : bool) (b : BrutalSender) : BrutalSender :=
  mkBrutalSender (bps b) v (pathReset b) (b_maxDatagramSize b) (pacer b) (pktInfoSlots b)
    (ackRate b) (compensating b) (congested b) (pendingECNCE b) (lostPNs b) (minRTTFloor b)
    (rebaselineMin b) (rebaselineSamples b) (rebaselineStart b) (pathHasChanged b)
    (disableLossCompensation b) (debug b) (lastAckPrintTimestamp b).
Definition set_pathReset (v : bool) (b : BrutalSender) : BrutalSender :=
  mkBrutalSender (bps b) (pacerReset b) v (b_maxDatagramSize b) (pacer b) (pktInfoSlots b)
    (ackRate b) (compensating b) (congested b) (pendingECNCE b) (lostPNs b) (minRTTFloor b)
    (rebaselineMin b) (rebaselineSamples b) (rebaselineStart b) (pathHasChanged b)
    (disableLossCompensation b) (debug b) (lastAckPrintTimestamp b).
Definition set_b_maxDatagramSize (v : Z) (b : BrutalSender) : BrutalSender :=
  mkBrutalSender (bps b) (pacerReset b) (pathReset b) v (pacer b) (pktInfoSlots b) (ackRate b)
    (compensating b) (congested b) (pendingECNCE b) (lostPNs b) (minRTTFloor b) (rebaselineMin
    b) (rebaselineSamples b) (rebaselineStart b) (pathHasChanged b) (disableLossCompensation b)
    (debug b) (lastAckPrintTimestamp b).
Definition set_pacer (v : Pacer) (b : BrutalSender) : BrutalSender :=
  mkBrutalSender (bps b) (pacerReset b) (pathReset b) (b_maxDatagramSize b) v (pktInfoSlots b)
    (ackRate b) (compensating b) (congested b) (pendingECNCE b) (lostPNs b) (minRTTFloor b)
    (rebaselineMin b) (rebaselineSamples b) (rebaselineStart b) (pathHasChanged b)
    (disableLossCompensation b) (debug b) (lastAckPrintTimestamp b).
Definition set_pktInfoSlots (v : list pktInfo) (b : BrutalSender) : BrutalSender :=
  mkBrutalSender (bps b) (pacerReset b) (pathReset b) (b_maxDatagramSize b) (pacer b) v (ackRate
    b) (compensating b) (congested b) (pendingECNCE b) (lostPNs b) (minRTTFloor b)
    (rebaselineMin b) (rebaselineSamples b) (rebaselineStart b) (pathHasChanged b)
    (disableLossCompensation b) (debug b) (lastAckPrintTimestamp b).
Definition set_ackRate (v : float64) (b : BrutalSender) : BrutalSender :=
  mkBrutalSender (bps b) (pacerReset b) (pathReset b) (b_maxDatagramSize b) (pacer b)
    (pktInfoSlots b) v (compensating b) (congested b) (pendingECNCE b) (lostPNs b) (minRTTFloor
    b) (rebaselineMin b) (rebaselineSamples b) (rebaselineStart b) (pathHasChanged b)
    (disableLossCompensation b) (debug b) (lastAckPrintTimestamp b).
Definition set_compensating (v : bool) (b : BrutalSender) : BrutalSender :=
  mkBrutalSender (bps b) (pacerReset b) (pathReset b) (b_maxDatagramSize b) (pacer b)
    (pktInfoSlots b) (ackRate b) v (congested b) (pendingECNCE b) (lostPNs b) (minRTTFloor b)
    (rebaselineMin b) (rebaselineSamples b) (rebaselineStart b) (pathHasChanged b)
    (disableLossCompensation b) (debug b) (lastAckPrintTimestamp b).
Definition set_congested (v : bool) (b : BrutalSender) : BrutalSender :=
  mkBrutalSender (bps b) (pacerReset b) (pathReset b) (b_maxDatagramSize b) (pacer b)
    (pktInfoSlots b) (ackRate b) (compensating b) v (pendingECNCE b) (lostPNs b) (minRTTFloor b)
    (rebaselineMin b) (rebaselineSamples b) (rebaselineStart b) (pathHasChanged b)
    (disableLossCompensation b) (debug b) (lastAckPrintTimestamp b).
Definition set_pendingECNCE (v : Z) (b : BrutalSender) : BrutalSender :=
  mkBrutalSender (bps b) (pacerReset b) (pathReset b) (b_maxDatagramSize b) (pacer b)
    (pktInfoSlots b) (ackRate b) (compensating b) (congested b) v (lostPNs b) (minRTTFloor b)
    (rebaselineMin b) (rebaselineSamples b) (rebaselineStart b) (pathHasChanged b)
    (disableLossCompensation b) (debug b) (lastAckPrintTimestamp b).
Definition set_lostPNs (v : gmap Z Z) (b : BrutalSender) : BrutalSender :=
  mkBrutalSender (bps b) (pacerReset b) (pathReset b) (b_maxDatagramSize b) (pacer b)
    (pktInfoSlots b) (ackRate b) (compensating b) (congested b) (pendingECNCE b) v (minRTTFloor
    b) (rebaselineMin b) (rebaselineSamples b) (rebaselineStart b) (pathHasChanged b)
    (disableLossCompensation b) (debug b) (lastAckPrintTimestamp b).
Definition set_minRTTFloor (v : Z) (b : BrutalSender) : BrutalSender :=
  mkBrutalSender (bps b) (pacerReset b) (pathReset b) (b_maxDatagramSize b) (pacer b)
    (pktInfoSlots b) (ackRate b) (compensating b) (congested b) (pendingECNCE b) (lostPNs b) v
    (rebaselineMin b) (rebaselineSamples b) (rebaselineStart b) (pathHasChanged b)
    (disableLossCompensation b) (debug b) (lastAckPrintTimestamp b).
Definition set_rebaselineMin (v : Z) (b : BrutalSender) : BrutalSender :=
  mkBrutalSender (bps b) (pacerReset b) (pathReset b) (b_maxDatagramSize b) (pacer b)
    (pktInfoSlots b) (ackRate b) (compensating b) (congested b) (pendingECNCE b) (lostPNs b)
    (minRTTFloor b) v (rebaselineSamples b) (rebaselineStart b) (pathHasChanged b)
    (disableLossCompensation b) (debug b) (lastAckPrintTimestamp b).
Definition set_rebaselineSamples (v : Z) (b : BrutalSender) : BrutalSender :=
  mkBrutalSender (bps b) (pacerReset b) (pathReset b) (b_maxDatagramSize b) (pacer b)
    (pktInfoSlots b) (ackRate b) (compensating b) (congested b) (pendingECNCE b) (lostPNs b)
    (minRTTFloor b) (rebaselineMin b) v (rebaselineStart b) (pathHasChanged b)
    (disableLossCompensation b) (debug b) (lastAckPrintTimestamp b).
Definition set_rebaselineStart (v : Z) (b : BrutalSender) : BrutalSender :=
  mkBrutalSender (bps b) (pacerReset b) (pathReset b) (b_maxDatagramSize b) (pacer b)
    (pktInfoSlots b) (ackRate b) (compensating b) (congested b) (pendingECNCE b) (lostPNs b)
    (minRTTFloor b) (rebaselineMin b) (rebaselineSamples b) v (pathHasChanged b)
    (disableLossCompensation b) (debug b) (lastAckPrintTimestamp b).
Definition set_pathHasChanged (v : bool) (b : BrutalSender) : BrutalSender :=
  mkBrutalSender (bps b) (pacerReset b) (pathReset b) (b_maxDatagramSize b) (pacer b)
    (pktInfoSlots b) (ackRate b) (compensating b) (congested b) (pendingECNCE b) (lostPNs b)
    (minRTTFloor b) (rebaselineMin b) (rebaselineSamples b) (rebaselineStart b) v
    (disableLossCompensation b) (debug b) (lastAckPrintTimestamp b).
Definition set_lastAckPrintTimestamp (v : Z) (b : BrutalSender) : BrutalSender :=
  mkBrutalSender (bps b) (pacerReset b) (pathReset b) (b_maxDatagramSize b) (pacer b)
    (pktInfoSlots b) (ackRate b) (compensating b) (congested b) (pendingECNCE b) (lostPNs b)
    (minRTTFloor b) (rebaselineMin b) (rebaselineSamples b) (rebaselineStart b) (pathHasChanged
    b) (disableLossCompensation b) (debug b) v.

(** The controller's view of itself, as [Stats] reports it. *)
Record BrutalStats := mkBrutalStats {
  st_BPS : Z;
  st_AckRate : float64;
  st_CongestionWindow : Z;
  st_SmoothedRTT : Z;
  st_MinRTT : Z;
  st_Congested : bool;
}.

Section Controller.
Context `{QuicCongestion} `{FloatToInt} `{!MapRange Z Z}.

Definition NewBrutalSender (bps : Z) (disableLossCompensation debug : bool) : BrutalSender :=
  {| bps := bps; pacerReset := false; pathReset := false;
     b_maxDatagramSize := InitialPacketSize; pacer := NewPacer;
     pktInfoSlots := replicate 5 (mkPktInfo 0 0 0 0); ackRate := one;
     compensating := false; congested := false; pendingECNCE := 0; lostPNs := ∅;
     minRTTFloor := 0; rebaselineMin := 0; rebaselineSamples := 0; rebaselineStart := 0;
     pathHasChanged := false; disableLossCompensation := disableLossCompensation;
     debug := debug; lastAckPrintTimestamp := 0 |}.

(** The closure handed to the pacer. *)
Definition getBandwidth (b : BrutalSender) : Z := toInt64 (div (of_Z (bps b)) (ackRate b)).

Definition SetBPS (v : Z) (b : BrutalSender) : BrutalSender :=
  if v =? 0 then b else set_pacerReset true (set_bps v b).

Definition OnPathChange (b : BrutalSender) : BrutalSender := set_pathReset true b.

Definition drainPending (b : BrutalSender) : BrutalSender :=
  let b := if pacerReset b then set_pacer (Reset (pacer b)) (set_pacerReset false b) else b in
  if pathReset b
  then set_rebaselineSamples 0 (set_rebaselineMin 0 (set_minRTTFloor 0
         (set_pathHasChanged true (set_pathReset false b))))
  else b.

Definition minRTT (rtt : RTTStats) (b : BrutalSender) : Z :=
  if 0 <? minRTTFloor b then minRTTFloor b else MinRTT rtt.

Definition windowRTT (rtt : RTTStats) (b : BrutalSender) : Z :=
  let r := SmoothedRTT rtt in
  let m := minRTT rtt b in
  let r := if 0 <? m then Z.min (Z.max r m) (i64 (cwndRTTClampK * m)) else r in
  Z.max r MinPacingDelay.

Definition GetCongestionWindow (rtt : RTTStats) (b : BrutalSender) : Z :=
  let r := windowRTT rtt b in
  let cwnd := toInt64 (mul (mul (of_Z (bps b)) (Seconds r)) (of_Z congestionWindowMultiplier)) in
  let floor := i64 (cwndFloorPackets * b_maxDatagramSize b) in
  let cwnd := if cwnd <? floor then floor else cwnd in
  let ceiling := i64 (MaxCongestionWindowPackets * b_maxDatagramSize b) in
  if ceiling <? cwnd then ceiling else cwnd.

Definition CanSend (bytesInFlight : Z) (rtt : RTTStats) (b : BrutalSender) : bool :=
  bytesInFlight <=? GetCongestionWindow rtt b.

Definition BrutalSender_TimeUntilSend (b : BrutalSender) : BrutalSender * outcome Z :=
  let b := drainPending b in (b, TimeUntilSend (getBandwidth b) (pacer b)).

Definition HasPacingBudget (now : Z) (b : BrutalSender) : BrutalSender * bool :=
  let b := drainPending b in
  (b, b_maxDatagramSize b <=? Budget (getBandwidth b) now (pacer b)).

Definition OnPacketSent (sentTime bytes : Z) (b : BrutalSender) : BrutalSender :=
  let b := drainPending b in
  set_pacer (SentPacket (getBandwidth b) sentTime bytes (pacer b)) b.

Definition OnPacketAcked (number ackedBytes eventTime : Z) (b : BrutalSender) : BrutalSender := b.

Definition OnCongestionEvent (lostBytes : Z) (b : BrutalSender) : BrutalSender :=
  if lostBytes =? 0 then set_pendingECNCE (u64 (pendingECNCE b + 1)) b else b.

Definition rebaseline (eventTime : Z) (rtt : RTTStats) (b : BrutalSender) : BrutalSender :=
  let latest := LatestRTT rtt in
  if latest <=? 0 then b else
  let b := if rebaselineSamples b =? 0 then set_rebaselineStart eventTime b else b in
  let b := set_rebaselineSamples (i64 (rebaselineSamples b + 1)) b in
  let b := if (rebaselineMin b =? 0) || (latest <? rebaselineMin b)
           then set_rebaselineMin latest b else b in
  if (0 <? minRTTFloor b)
     || ((rebaselineMinSamples <=? rebaselineSamples b)
         && (rebaselineWindow <=? mono_Sub eventTime (rebaselineStart b)))
  then set_minRTTFloor (rebaselineMin b) b else b.

(** The slot of a second; an index below zero panics. *)
Definition slot_of (ts : Z) : nat := Z.to_nat (rem ts pktInfoSlotCount).

Definition slot (ts : Z) (b : BrutalSender) : pktInfo :=
  default (mkPktInfo 0 0 0 0) (pktInfoSlots b !! slot_of ts).

Definition set_slot (ts : Z) (i : pktInfo) (b : BrutalSender) : BrutalSender :=
  set_pktInfoSlots (<[slot_of ts := i]> (pktInfoSlots b)) b.

Definition pruneLostPNs (currentTimestamp : Z) (b : BrutalSender) : BrutalSender :=
  set_lostPNs (range_delete (λ _ ts, ts <=? i64 (currentTimestamp - pktInfoSlotCount)) (lostPNs b)) b.

(** One turn of the loop over the acknowledged packets. *)
Definition take_back (b : BrutalSender) (pn : Z) : BrutalSender :=
  match lostPNs b !! pn with
  | None => b
  | Some ts =>
      let b := set_lostPNs (delete pn (lostPNs b)) b in
      let i := slot ts b in
      if (Timestamp i =? ts) && (0 <? LossCount i)
      then set_slot ts (mkPktInfo (Timestamp i) (AckCount i) (LossCount i - 1) (ECNCount i)) b
      else b
  end.

Definition updateCongestionGate (ecnCount : Z) (rtt : RTTStats) (b : BrutalSender) : BrutalSender :=
  if 0 <? ecnCount then set_congested true b else
  let m := minRTT rtt b in
  let srtt := SmoothedRTT rtt in
  if (m <=? 0) || (srtt <=? 0) then set_congested false b else
  let ratio := div (of_Z srtt) (of_Z m) in
  if congested b
  then if ltb ratio relievedRTTRatio then set_congested false b else b
  else if ltb congestionRTTRatio ratio then set_congested true b else b.

Definition canPrintAckRate (currentTimestamp : Z) (b : BrutalSender) : bool :=
  debug b && (debugPrintInterval <=? i64 (currentTimestamp - lastAckPrintTimestamp b)).

Definition printed (currentTimestamp : Z) (b : BrutalSender) : BrutalSender :=
  if canPrintAckRate currentTimestamp b then set_lastAckPrintTimestamp currentTimestamp b else b.

(** The sums over the slots that are young enough. *)
Definition window_sum (f : pktInfo → Z) (minTimestamp : Z) (slots : list pktInfo) : Z :=
  foldl (λ acc i, if Timestamp i <? minTimestamp then acc else u64 (acc + f i)) 0 slots.

Definition updateAckRate (currentTimestamp : Z) (rtt : RTTStats) (b : BrutalSender) : BrutalSender :=
  let minTimestamp := i64 (currentTimestamp - pktInfoSlotCount) in
  let ackCount := window_sum AckCount minTimestamp (pktInfoSlots b) in
  let lossCount := window_sum LossCount minTimestamp (pktInfoSlots b) in
  let ecnCount := window_sum ECNCount minTimestamp (pktInfoSlots b) in
  let b := updateCongestionGate ecnCount rtt b in
  if disableLossCompensation b then set_ackRate one b else
  let total := u64 (ackCount + lossCount) in
  let b := set_compensating (if compensating b then minSampleCountExit <=? total
                             else minSampleCount <=? total) b in
  if negb (compensating b) then printed currentTimestamp (set_ackRate one b) else
  if ackCount =? 0 then printed currentTimestamp (set_ackRate one b) else
  if congested b then printed currentTimestamp (set_ackRate one b) else
  let rate := div (of_Z ackCount) (of_Z total) in
  if ltb rate minAckRate then printed currentTimestamp (set_ackRate minAckRate b) else
  printed currentTimestamp (set_ackRate rate b).

(** The slot of the current second, emptied if it holds an older one. *)
Definition open_slot (currentTimestamp : Z) (b : BrutalSender) : BrutalSender :=
  if negb (Timestamp (slot currentTimestamp b) =? currentTimestamp)
  then pruneLostPNs currentTimestamp
         (set_slot currentTimestamp (mkPktInfo currentTimestamp 0 0 0) b)
  else b.

Definition count_packets (currentTimestamp nAcked nLost : Z) (b : BrutalSender) : BrutalSender :=
  let i := slot currentTimestamp b in
  set_pendingECNCE 0
    (set_slot currentTimestamp
       (mkPktInfo (Timestamp i) (u64 (AckCount i + nAcked)) (u64 (LossCount i + nLost))
                  (u64 (ECNCount i + pendingECNCE b))) b).

Definition remember_lost (currentTimestamp : Z) (lost : list Z) (b : BrutalSender) : BrutalSender :=
  if Z.of_nat (base.size (lostPNs b)) <? spuriousLossTrackLimit
  then set_lostPNs (foldl (λ m pn, <[pn := currentTimestamp]> m) (lostPNs b) lost) b
  else b.

(** [acked] and [lost] are the packet numbers of the two lists. *)
Definition OnCongestionEventEx (eventTime : Z) (acked lost : list Z) (rtt : RTTStats)
    (b : BrutalSender) : outcome BrutalSender :=
  let b := drainPending b in
  let b := if pathHasChanged b && (0 <? len acked) then rebaseline eventTime rtt b else b in
  let currentTimestamp := quot eventTime Second in
  if rem currentTimestamp pktInfoSlotCount <? 0 then Panic else
  let b := open_slot currentTimestamp b in
  let b := count_packets currentTimestamp (len acked) (len lost) b in
  let b := foldl take_back b acked in
  let b := remember_lost currentTimestamp lost b in
  Ret (updateAckRate currentTimestamp rtt b).

Definition BrutalSender_SetMaxDatagramSize (size : Z) (b : BrutalSender) : BrutalSender :=
  set_pacer (SetMaxDatagramSize size (pacer b)) (set_b_maxDatagramSize size b).

Definition BrutalSender_Stats (rtt : RTTStats) (b : BrutalSender) : BrutalStats :=
  {| st_BPS := bps b; st_AckRate := ackRate b; st_CongestionWindow := GetCongestionWindow rtt b;
     st_SmoothedRTT := SmoothedRTT rtt; st_MinRTT := minRTT rtt b; st_Congested := congested b |}.

(** ** One call of the connection's run loop, or of the path manager *)
Inductive call : Type :=
| CallSetBPS (v : Z)
| CallOnPathChange
| CallTimeUntilSend
| CallHasPacingBudget (now : Z)
| CallOnPacketSent (sentTime bytes : Z)
| CallOnCongestionEvent (lostBytes : Z)
| CallOnCongestionEventEx (eventTime : Z) (acked lost : list Z) (rtt : RTTStats)
| CallSetMaxDatagramSize (size : Z).

Definition step (c : call) (b : BrutalSender) : outcome BrutalSender :=
  match c with
  | CallSetBPS v => Ret (SetBPS v b)
  | CallOnPathChange => Ret (OnPathChange b)
  | CallTimeUntilSend => let '(b, t) := BrutalSender_TimeUntilSend b in t ← t; Ret b
  | CallHasPacingBudget now => Ret (HasPacingBudget now b).1
  | CallOnPacketSent t n => Ret (OnPacketSent t n b)
  | CallOnCongestionEvent n => Ret (OnCongestionEvent n b)
  | CallOnCongestionEventEx t a l rtt => OnCongestionEventEx t a l rtt b
  | CallSetMaxDatagramSize n => Ret (BrutalSender_SetMaxDatagramSize n b)
  end.

Fixpoint steps (cs : list call) (b : BrutalSender) : outcome BrutalSender :=
  match cs with
  | [] => Ret b
  | c :: cs => b ← step c b; steps cs b
  end.

End Controller.

(** ** The rate *)
Definition rate_good (r : float64) : Prop :=
  0 < fm r ∧ (toQ minAckRate <= toQ r /\ toQ r <= 1)%Q.

Lemma one_good : rate_good one.
Proof. split; [reflexivity|]. split; vm_compute; discriminate. Qed.

Lemma minAckRate_good : rate_good minAckRate.
Proof. split; [reflexivity|]. split; vm_compute; discriminate. Qed.

Lemma ratio_good a t :
  0 < a <= t → t < 2 ^ 53 → ltb (div (of_Z a) (of_Z t)) minAckRate = false →
  rate_good (div (of_Z a) (of_Z t)).
Proof.
  intros Ha Ht Hmin%ltb_false.
  pose proof (of_Z_exact a ltac:(lia)) as Ea. pose proof (of_Z_exact t ltac:(lia)) as Et.
  assert (close (div (of_Z a) (of_Z t)) (toQ (of_Z a) / toQ (of_Z t))) as Hc.
  { apply div_close; [apply of_Z_close; lia | apply of_Z_pos; lia]. }
  split; [|split; [done|]].
  - eapply close_pos; [|done]. rewrite Ea, Et.
    apply Qlt_shift_div_l; [apply inject_pos; lia|].
    pose proof (inject_pos a ltac:(lia)). lra.
  - apply div_le_1; [apply of_Z_close; lia | apply of_Z_pos; lia|].
    rewrite Ea, Et. rewrite <-Zle_Qle. lia.
Qed.

Section Rate.
Context `{QuicCongestion} `{FloatToInt} `{!MapRange Z Z}.

(** What the pacer is told, for a rate in the range above. *)
Lemma getBandwidth_bounds b :
  0 < bps b < 2 ^ 62 → rate_good (ackRate b) →
  (2 ^ 48 - 1) * bps b <= 2 ^ 48 * (getBandwidth b + 1)
  ∧ 4 * 2 ^ 48 * getBandwidth b <= (5 * 2 ^ 48 + 1) * bps b.
Proof.
  intros Hb (Hfm & Hlo & Hhi). unfold getBandwidth.
  set (r := ackRate b) in *.
  destruct (of_Z_close (bps b) ltac:(lia)) as (Hxn & Hx1 & Hx2).
  set (x := of_Z (bps b)) in *.
  destruct (div_close x r Hxn Hfm) as (Hyn & Hy1 & Hy2).
  set (y := div x r) in *.
  destruct (trunc_le y Hyn) as (Ht0 & Ht1 & Ht2).
  set (B := inject_Z (bps b)) in *.
  assert (0 < B)%Q as HB by (apply inject_pos; lia).
  assert (toQ minAckRate == 7205759403792794 # 9007199254740992)%Q as Emin by (vm_compute; reflexivity).
  rewrite Emin in Hlo. unfold eps in *.
  assert (0 < toQ r)%Q as Hr by lra.
  assert (toQ x <= toQ x / toQ r)%Q as Hq1.
  { apply Qle_shift_div_l; [done|]. rewrite <-(Qmult_1_r (toQ x)) at 2.
    rewrite !(Qmult_comm (toQ x)). apply Qmult_le_compat_r; lra. }
  assert (toQ x / toQ r <= toQ x * (9007199254740992 # 7205759403792794))%Q as Hq2.
  { apply Qle_shift_div_r; [done|]. rewrite <-Qmult_assoc.
    rewrite <-(Qmult_1_r (toQ x)) at 1. rewrite !(Qmult_comm (toQ x)).
    apply Qmult_le_compat_r; lra. }
  assert (inject_Z (trunc y) <= B * ((5 # 4) + (1 # 1125899906842624)))%Q as Hup by lra.
  assert (trunc y <= MaxInt64) as Hfit.
  { assert (B <= inject_Z (2 ^ 62))%Q as HB2 by (unfold B; rewrite <-Zle_Qle; lia).
    change (inject_Z (2 ^ 62)) with (4611686018427387904 # 1)%Q in HB2.
    assert (inject_Z (trunc y) <= inject_Z MaxInt64)%Q as Hle; [|by rewrite <-Zle_Qle in Hle].
    change (inject_Z MaxInt64) with (9223372036854775807 # 1)%Q. lra. }
  unfold toInt64. rewrite (proj2 (Z.leb_le _ _)) by done.
  split; rewrite Zle_Qle, !inject_Z_mult, ?inject_Z_plus, ?inject_Z_minus; fold B.
  - change (inject_Z (2 ^ 48 - 1)) with (281474976710655 # 1)%Q.
    change (inject_Z (2 ^ 48)) with (281474976710656 # 1)%Q. change (inject_Z 1) with 1%Q. lra.
  - change (inject_Z (5 * 2 ^ 48)) with (1407374883553280 # 1)%Q. change (inject_Z 1) with 1%Q.
    change (inject_Z (2 ^ 48)) with (281474976710656 # 1)%Q. change (inject_Z 4) with (4 # 1)%Q. lra.
Qed.
End Rate.

(** ** The sampling window *)
Section Window.
Context `{QuicCongestion} `{FloatToInt} `{!MapRange Z Z}.

Definition counts (i : pktInfo) : Z := AckCount i + LossCount i.

Definition info_ok (i : pktInfo) : Prop := 0 <= AckCount i ∧ 0 <= LossCount i.

(** How many packets are remembered as lost in second [ts]. *)
Definition tracked (ts : Z) (b : BrutalSender) : Z :=
  Z.of_nat (base.size (filter (λ p, p.2 = ts) (lostPNs b))).

(** After [n] packets, the last event having been in second [T]. *)
Record window_ok (T n : Z) (b : BrutalSender) : Prop := {
  w_slots : length (pktInfoSlots b) = 5%nat;
  w_info : Forall info_ok (pktInfoSlots b);
  w_count : sumZ counts (pktInfoSlots b) <= n;
  w_now : Timestamp (slot T b) = T;
  w_time : 0 <= T;
  w_lost pn ts : lostPNs b !! pn = Some ts → 0 <= ts <= T;
  w_tracked ts : 0 <= ts → Timestamp (slot ts b) = ts → tracked ts b <= LossCount (slot ts b);
  w_rate : rate_good (ackRate b);
}.

Lemma slot_of_lt ts : 0 <= ts → (slot_of ts < 5)%nat.
Proof. intros. unfold slot_of, pktInfoSlotCount. pose proof (Z.rem_bound_pos ts 5). lia. Qed.

Lemma slot_lookup ts b : 0 <= ts → length (pktInfoSlots b) = 5%nat →
  pktInfoSlots b !! slot_of ts = Some (slot ts b).
Proof.
  intros Ht Hl. unfold slot.
  destruct (lookup_lt_is_Some_2 (pktInfoSlots b) (slot_of ts)) as [i ->]; [|done].
  pose proof (slot_of_lt ts Ht). lia.
Qed.

Lemma slot_set_slot ts ts' i b : 0 <= ts → length (pktInfoSlots b) = 5%nat →
  slot ts' (set_slot ts i b) = if decide (slot_of ts' = slot_of ts) then i else slot ts' b.
Proof.
  intros Ht Hl. unfold slot, set_slot. cbn [pktInfoSlots set_pktInfoSlots].
  case_decide as E.
  - rewrite E, list_lookup_insert_eq; [done|]. pose proof (slot_of_lt ts Ht). lia.
  - by rewrite list_lookup_insert_ne by done.
Qed.

Lemma info_slot T n ts b : window_ok T n b → 0 <= ts → info_ok (slot ts b) ∧ counts (slot ts b) <= n.
Proof.
  intros Hw Ht. pose proof (slot_lookup ts b Ht (w_slots _ _ _ Hw)) as Hs.
  pose proof (w_info _ _ _ Hw) as Hf. split.
  - rewrite list.Forall_forall in Hf. apply Hf. by eapply list_elem_of_lookup_2.
  - destruct (sumZ_lookup_le counts (pktInfoSlots b) (slot_of ts) (slot ts b)) as [_ ?]; [|done|].
    + eapply Forall_impl; [exact Hf|]. intros i [? ?]. unfold counts. lia.
    + pose proof (w_count _ _ _ Hw). lia.
Qed.

Lemma tracked_nonneg ts b : 0 <= tracked ts b.
Proof. unfold tracked. lia. Qed.

(** Only the slots, the tracked packets and the rate matter. *)
Lemma window_ok_ext T n b b' :
  pktInfoSlots b' = pktInfoSlots b → lostPNs b' = lostPNs b → rate_good (ackRate b') →
  window_ok T n b → window_ok T n b'.
Proof.
  intros Es El Hr []. split; rewrite ?Es, ?El; auto.
  - unfold slot in *. by rewrite Es.
  - intros ts. unfold slot, tracked in *. rewrite Es, El. auto.
Qed.

Lemma New_window_ok v dis dbg : window_ok 0 0 (NewBrutalSender v dis dbg).
Proof.
  split; cbn; try done.
  - repeat constructor; done.
  - intros ts _ _. unfold tracked, slot. cbn [lostPNs NewBrutalSender pktInfoSlots].
    rewrite map_filter_empty. cbn [base.size]. rewrite map_size_empty.
    destruct (replicate 5 _ !! slot_of ts) as [i|] eqn:E; [|done].
    by apply lookup_replicate in E as [-> _].
Qed.

Lemma drainPending_fields b :
  pktInfoSlots (drainPending b) = pktInfoSlots b ∧ lostPNs (drainPending b) = lostPNs b
  ∧ ackRate (drainPending b) = ackRate b ∧ bps (drainPending b) = bps b.
Proof. unfold drainPending. destruct (pacerReset b); cbn; destruct (pathReset b); cbn; auto. Qed.

Lemma rebaseline_fields t rtt b :
  pktInfoSlots (rebaseline t rtt b) = pktInfoSlots b ∧ lostPNs (rebaseline t rtt b) = lostPNs b
  ∧ ackRate (rebaseline t rtt b) = ackRate b ∧ bps (rebaseline t rtt b) = bps b.
Proof. unfold rebaseline. repeat (case_match; cbn; auto). Qed.

Lemma tracked_delete pn ts (m : gmap Z Z) ts' :
  m !! pn = Some ts →
  Z.of_nat (base.size (filter (λ p : Z * Z, p.2 = ts') (delete pn m)))
  = Z.of_nat (base.size (filter (λ p : Z * Z, p.2 = ts') m)) - (if decide (ts = ts') then 1 else 0).
Proof.
  intros Hm. rewrite map_filter_delete. case_decide as E.
  - rewrite map_size_delete_Some.
    + assert (base.size (filter (λ p : Z * Z, p.2 = ts') m) ≠ 0%nat); [|lia].
      rewrite map_size_non_empty_iff. intros Hem.
      assert (filter (λ p : Z * Z, p.2 = ts') m !! pn = Some ts) as Hl
        by (by apply map_lookup_filter_Some).
      by rewrite Hem, lookup_empty in Hl.
    + exists ts. by apply map_lookup_filter_Some.
  - rewrite map_size_delete_None; [lia|]. apply map_lookup_filter_None. right.
    intros x Hx. simpl. congruence.
Qed.

(** A packet that was counted as lost and then turns up is taken back. *)
Lemma take_back_ok T n b pn : window_ok T n b → window_ok T n (take_back b pn).
Proof.
  intros Hw. unfold take_back. destruct (lostPNs b !! pn) as [ts|] eqn:Hpn; [|done].
  destruct (w_lost _ _ _ Hw _ _ Hpn) as [Hts0 HtsT].
  set (b1 := set_lostPNs (delete pn (lostPNs b)) b).
  change (slot ts b1) with (slot ts b).
  destruct (info_slot _ _ ts _ Hw Hts0) as [[Ha Hl] _].
  assert (∀ ts', tracked ts' b1 = tracked ts' b - (if decide (ts = ts') then 1 else 0)) as Htr.
  { intros ts'. unfold tracked. cbn [b1 lostPNs set_lostPNs]. by apply tracked_delete. }
  assert (∀ pn' ts', lostPNs b1 !! pn' = Some ts' → 0 <= ts' <= T) as Hlost.
  { intros pn' ts'. cbn. intros [_ Hl']%lookup_delete_Some. by eapply w_lost. }
  assert (length (pktInfoSlots b1) = 5%nat) as Hlen by apply Hw.
  destruct ((Timestamp (slot ts b) =? ts) && (0 <? LossCount (slot ts b))) eqn:Eif.
  - apply andb_true_iff in Eif as [E1%Z.eqb_eq E2%Z.ltb_lt].
    set (i := mkPktInfo _ _ _ _).
    assert (∀ ts', Timestamp (slot ts' (set_slot ts i b1)) = Timestamp (slot ts' b)) as Hstamp.
    { intros ts'. rewrite slot_set_slot by done. case_decide as E; [|done].
      cbn. unfold slot. by rewrite E. }
    split.
    + unfold set_slot. cbn. by rewrite length_insert.
    + unfold set_slot. cbn. apply Forall_insert; [apply Hw|]. split; cbn; lia.
    + unfold set_slot. cbn [pktInfoSlots set_pktInfoSlots].
      rewrite (sumZ_insert _ _ _ (slot ts b)) by (by apply (slot_lookup ts b1)).
      change (pktInfoSlots b1) with (pktInfoSlots b).
      assert (counts i = counts (slot ts b) - 1) by (unfold counts, i; cbn; lia).
      pose proof (w_count _ _ _ Hw). lia.
    + rewrite Hstamp. apply Hw.
    + apply Hw.
    + done.
    + intros ts' Ht' Hst. rewrite Hstamp in Hst.
      change (tracked ts' (set_slot ts i b1)) with (tracked ts' b1). rewrite Htr, slot_set_slot by done.
      pose proof (w_tracked _ _ _ Hw ts' Ht' Hst) as Hold.
      destruct (decide (slot_of ts' = slot_of ts)) as [E|E].
      * assert (slot ts' b = slot ts b) as Hsl by (unfold slot; by rewrite E).
        rewrite Hsl in *. change (LossCount i) with (LossCount (slot ts b) - 1). rewrite decide_True by congruence. lia.
      * change (slot ts' b1) with (slot ts' b). rewrite decide_False by congruence. lia.
    + apply Hw.
  - split; try apply Hw; try done.
    intros ts' Ht' Hst. rewrite Htr. pose proof (w_tracked _ _ _ Hw ts' Ht' Hst) as Hold.
    change (slot ts' b1) with (slot ts' b). case_decide; lia.
Qed.

Lemma open_slot_ok T n T' b :
  window_ok T n b → T <= T' → T' <= MaxInt64 → window_ok T' n (open_slot T' b).
Proof.
  intros Hw HT Hmax. pose proof (w_time _ _ _ Hw). unfold open_slot.
  destruct (Z.eqb_spec (Timestamp (slot T' b)) T') as [E|E]; cbn [negb].
  { destruct Hw. split; try done; [lia|]. intros pn ts Hpn. specialize (w_lost0 _ _ Hpn). lia. }
  assert (T < T') as Hlt.
  { destruct (decide (T = T')) as [<-|]; [|lia]. by destruct (E (w_now _ _ _ Hw)). }
  set (i := mkPktInfo T' 0 0 0). pose proof (w_slots _ _ _ Hw) as Hlen.
  set (b1 := pruneLostPNs T' (set_slot T' i b)).
  assert (∀ pn ts, lostPNs b1 !! pn = Some ts → lostPNs b !! pn = Some ts) as Hsub.
  { intros pn ts Hp. apply range_delete_Some in Hp as [Hp _]. exact Hp. }
  assert (∀ ts, tracked ts b1 <= tracked ts b) as Htr.
  { intros ts. unfold tracked. apply inj_le, map_subseteq_size.
    apply map_filter_subseteq_mono, range_delete_subseteq. }
  assert (∀ ts', slot ts' b1 = if decide (slot_of ts' = slot_of T') then i else slot ts' b) as Hsl
    by (intros; apply slot_set_slot; [lia|done]).
  destruct (info_slot _ _ T' _ Hw ltac:(lia)) as [[? ?] _].
  split.
  - unfold b1, pruneLostPNs, set_slot. cbn. by rewrite length_insert.
  - unfold b1, pruneLostPNs, set_slot. cbn. apply Forall_insert; [apply Hw | split; cbn; lia].
  - unfold b1, pruneLostPNs, set_slot. cbn [pktInfoSlots set_pktInfoSlots set_lostPNs].
    rewrite (sumZ_insert _ _ _ (slot T' b)) by (apply slot_lookup; [lia|done]).
    pose proof (w_count _ _ _ Hw). unfold counts at 2 3. cbn. lia.
  - by rewrite Hsl, decide_True.
  - lia.
  - intros pn ts Hp. apply Hsub in Hp. pose proof (w_lost _ _ _ Hw _ _ Hp). lia.
  - intros ts Hts Hst. rewrite Hsl in *. case_decide as Es.
    + cbn in Hst. subst ts. cbn. specialize (Htr T').
      enough (tracked T' b = 0) by lia.
      unfold tracked. apply (f_equal Z.of_nat (y := 0%nat)). apply map_size_empty_iff.
      apply map_empty. intros pn. apply map_lookup_filter_None. right. intros ts Hp. cbn.
      pose proof (w_lost _ _ _ Hw _ _ Hp). lia.
    + specialize (Htr ts). pose proof (w_tracked _ _ _ Hw ts Hts Hst). lia.
  - apply Hw.
Qed.

Lemma tracked_remember (T : Z) (lost : list Z) (m : gmap Z Z) (ts : Z) :
  Z.of_nat (base.size (filter (λ p : Z * Z, p.2 = ts) (foldl (λ (m : gmap Z Z) pn, <[pn := T]> m) m lost)))
  <= Z.of_nat (base.size (filter (λ p : Z * Z, p.2 = ts) m)) + (if decide (ts = T) then len lost else 0).
Proof.
  unfold len. revert m. induction lost as [|pn lost IH]; intros m; cbn [foldl length].
  { case_decide; lia. }
  specialize (IH (<[pn:=T]> m)).
  assert (Z.of_nat (base.size (filter (λ p : Z * Z, p.2 = ts) (<[pn:=T]> m)))
    <= Z.of_nat (base.size (filter (λ p : Z * Z, p.2 = ts) m)) + (if decide (ts = T) then 1 else 0));
    [|case_decide; lia].
  case_decide as E.
  - rewrite map_filter_insert_True by done. rewrite map_size_insert. case_match; unfold id; lia.
  - rewrite map_filter_insert_False by (cbn; congruence).
    pose proof (map_subseteq_size (filter (λ p : Z * Z, p.2 = ts) (delete pn m))
                  (filter (λ p : Z * Z, p.2 = ts) m)) as Hm.
    assert (filter (λ p : Z * Z, p.2 = ts) (delete pn m) ⊆ filter (λ p : Z * Z, p.2 = ts) m)
      by (apply map_filter_subseteq_mono, delete_subseteq).
    specialize (Hm ltac:(done)). lia.
Qed.

(** The counters of one event, the packets taken back and the ones remembered. *)
Lemma event_counts_ok T n b acked lost :
  window_ok T n b → n + len acked + len lost < 2 ^ 53 →
  window_ok T (n + len acked + len lost)
    (remember_lost T lost (foldl take_back (count_packets T (len acked) (len lost) b) acked)).
Proof.
  intros Hw Hn. pose proof (len_nonneg acked). pose proof (len_nonneg lost).
  pose proof (w_time _ _ _ Hw) as HT. pose proof (w_slots _ _ _ Hw) as Hlen.
  destruct (info_slot _ _ T _ Hw HT) as [[Ha Hl] Hc]. unfold counts in Hc.
  set (b1 := count_packets T (len acked) (len lost) b).
  set (i := mkPktInfo (Timestamp (slot T b)) (u64 (AckCount (slot T b) + len acked))
              (u64 (LossCount (slot T b) + len lost)) (u64 (ECNCount (slot T b) + pendingECNCE b))).
  assert (AckCount i = AckCount (slot T b) + len acked ∧ LossCount i = LossCount (slot T b) + len lost)
    as [Hi1 Hi2] by (unfold i; cbn; rewrite !wrapU_small by lia; done).
  assert (∀ ts', slot ts' b1 = if decide (slot_of ts' = slot_of T) then i else slot ts' b) as Hsl
    by (intros; apply slot_set_slot; done).
  (* after counting, the current slot has room for the losses of this event *)
  assert (window_ok T (n + len acked + len lost) b1
          ∧ tracked T b1 + len lost <= LossCount (slot T b1)) as [Hw1 Hroom].
  { assert (∀ ts, tracked ts b1 = tracked ts b) as Htr by done.
    split; [split|].
    - unfold b1, count_packets, set_slot. cbn. by rewrite length_insert.
    - unfold b1, count_packets, set_slot. cbn. apply Forall_insert; [apply Hw|]. split; fold i; lia.
    - unfold b1, count_packets, set_slot. cbn [pktInfoSlots set_pktInfoSlots set_pendingECNCE].
      rewrite (sumZ_insert _ _ _ (slot T b)) by (by apply slot_lookup). fold i.
      pose proof (w_count _ _ _ Hw). unfold counts at 2 3. lia.
    - rewrite Hsl, decide_True by done. apply Hw.
    - done.
    - apply Hw.
    - intros ts Hts Hst. rewrite Htr. rewrite Hsl in *. case_decide as E.
      + assert (slot ts b = slot T b) as Es by (unfold slot; by rewrite E).
        cbn in Hst. rewrite <-Es in Hst. pose proof (w_tracked _ _ _ Hw ts Hts Hst) as Ho.
        rewrite Es in Ho. lia.
      + by apply Hw.
    - apply Hw.
    - rewrite Hsl, decide_True by done. rewrite Htr.
      pose proof (w_tracked _ _ _ Hw T HT (w_now _ _ _ Hw)). lia. }
  clearbody b1.
  (* taking packets back keeps that room *)
  set (b2 := foldl take_back b1 acked).
  assert (window_ok T (n + len acked + len lost) b2
          ∧ tracked T b2 + len lost <= LossCount (slot T b2)) as [Hw2 Hroom2].
  { unfold b2. clear b2. set (n' := n + len acked + len lost) in *. clearbody n'.
    clear -Hw1 Hroom HT. revert b1 Hw1 Hroom.
    induction acked as [|pn l IH]; intros b1 Hw1 Hroom; [done|]. cbn [foldl].
    apply IH; [by apply take_back_ok|].
    unfold take_back. destruct (lostPNs b1 !! pn) as [ts|] eqn:Hpn; [|done].
    destruct (w_lost _ _ _ Hw1 _ _ Hpn) as [Hts _].
    set (b2 := set_lostPNs (delete pn (lostPNs b1)) b1). change (slot ts b2) with (slot ts b1).
    assert (tracked T b2 = tracked T b1 - (if decide (ts = T) then 1 else 0)) as Htr by (by apply tracked_delete).
    destruct (_ && _) eqn:Eif.
    - apply andb_true_iff in Eif as [E1%Z.eqb_eq _].
      change (tracked T (set_slot ts ?x b2)) with (tracked T b2). rewrite Htr.
      rewrite slot_set_slot by (done || apply Hw1). change (slot T b2) with (slot T b1).
      destruct (decide (slot_of T = slot_of ts)) as [E|E].
      + assert (slot T b1 = slot ts b1) as Es by (unfold slot; by rewrite E).
        pose proof (w_now _ _ _ Hw1) as Hnow. rewrite Es in *. cbn. rewrite decide_True by congruence. lia.
      + rewrite decide_False by congruence. lia.
    - rewrite Htr. change (slot T b2) with (slot T b1). case_decide; lia. }
  clearbody b2. unfold remember_lost. destruct (_ <? _); [|done].
  set (b3 := set_lostPNs _ b2).
  split; try apply Hw2.
  - intros pn ts Hp. unfold b3 in Hp. cbn [lostPNs set_lostPNs] in Hp.
    assert (∀ l m, (∀ pn ts, m !! pn = Some ts → 0 <= ts <= T) →
      ∀ pn ts, foldl (λ (m : gmap Z Z) pn, <[pn := T]> m) m l !! pn = Some ts → 0 <= ts <= T) as Hgen.
    { clear -HT. induction l as [|x l IH]; intros m Hm; [done|]. cbn [foldl]. apply IH.
      intros pn ts [[_ <-]|[_ Hp]]%lookup_insert_Some; [lia | eauto]. }
    eapply Hgen; [|exact Hp]. apply Hw2.
  - intros ts Hts Hst. change (slot ts b3) with (slot ts b2) in *.
    pose proof (tracked_remember T lost (lostPNs b2) ts) as Hr. fold (tracked ts b2) in Hr.
    change (Z.of_nat (base.size (filter (λ p : Z * Z, p.2 = ts)
      (foldl (λ (m : gmap Z Z) (pn : Z), <[pn:=T]> m) (lostPNs b2) lost)))) with (tracked ts b3) in Hr.
    case_decide as E; [subst ts; lia|]. pose proof (w_tracked _ _ _ Hw2 ts Hts Hst). lia.
Qed.

Lemma window_sum_bounds f m slots :
  Forall (λ i, 0 <= f i) slots → sumZ f slots < 2 ^ 64 →
  0 <= window_sum f m slots <= sumZ f slots.
Proof.
  intros Hf Hs. unfold window_sum.
  assert (∀ acc, 0 <= acc → acc + sumZ f slots < 2 ^ 64 →
    0 <= foldl (λ acc i, if Timestamp i <? m then acc else u64 (acc + f i)) acc slots
      <= acc + sumZ f slots) as Hgen; [|specialize (Hgen 0 ltac:(lia)); lia].
  clear Hs. induction Hf as [|i l Hi Hl IH]; intros acc Hacc Hsum; cbn [foldl].
  - unfold sumZ in *. simpl in *. lia.
  - rewrite sumZ_cons in *. pose proof (sumZ_nonneg f l Hl).
    destruct (Timestamp i <? m).
    + specialize (IH acc Hacc). lia.
    + rewrite wrapU_small by lia. specialize (IH (acc + f i)). lia.
Qed.

Lemma updateCongestionGate_fields e rtt b :
  let b' := updateCongestionGate e rtt b in
  pktInfoSlots b' = pktInfoSlots b ∧ lostPNs b' = lostPNs b ∧ ackRate b' = ackRate b
  ∧ bps b' = bps b ∧ disableLossCompensation b' = disableLossCompensation b
  ∧ compensating b' = compensating b.
Proof. cbv zeta. unfold updateCongestionGate. repeat (case_match; cbn; auto 10). Qed.

Lemma printed_fields t b :
  pktInfoSlots (printed t b) = pktInfoSlots b ∧ lostPNs (printed t b) = lostPNs b
  ∧ ackRate (printed t b) = ackRate b ∧ bps (printed t b) = bps b
  ∧ congested (printed t b) = congested b
  ∧ disableLossCompensation (printed t b) = disableLossCompensation b.
Proof. unfold printed. case_match; cbn; auto 10. Qed.

(** What the window holds of acknowledgements and losses in second [T]. *)
Definition window_acks (T : Z) (b : BrutalSender) : Z :=
  window_sum AckCount (i64 (T - pktInfoSlotCount)) (pktInfoSlots b).
Definition window_losses (T : Z) (b : BrutalSender) : Z :=
  window_sum LossCount (i64 (T - pktInfoSlotCount)) (pktInfoSlots b).

Lemma window_totals T n m b : window_ok T n b → n < 2 ^ 53 →
  0 <= window_sum AckCount m (pktInfoSlots b) ∧ 0 <= window_sum LossCount m (pktInfoSlots b)
  ∧ window_sum AckCount m (pktInfoSlots b) + window_sum LossCount m (pktInfoSlots b) <= n.
Proof.
  intros Hw Hn. pose proof (w_info _ _ _ Hw) as Hi. pose proof (w_count _ _ _ Hw) as Hc.
  unfold counts in Hc. rewrite sumZ_plus in Hc.
  assert (Forall (λ i, 0 <= AckCount i) (pktInfoSlots b)) as Ha
    by (eapply Forall_impl; [exact Hi|]; by intros ? []).
  assert (Forall (λ i, 0 <= LossCount i) (pktInfoSlots b)) as Hl
    by (eapply Forall_impl; [exact Hi|]; by intros ? []).
  pose proof (sumZ_nonneg _ _ Ha). pose proof (sumZ_nonneg _ _ Hl).
  pose proof (window_sum_bounds AckCount m _ Ha ltac:(lia)).
  pose proof (window_sum_bounds LossCount m _ Hl ltac:(lia)). lia.
Qed.

(** Extra bytes are sent only with compensation enabled, enough samples, acks
    among them and no sign of a queue. *)
Lemma updateAckRate_spec T n rtt b :
  window_ok T n b → n < 2 ^ 53 →
  let b' := updateAckRate T rtt b in
  pktInfoSlots b' = pktInfoSlots b ∧ lostPNs b' = lostPNs b ∧ bps b' = bps b
  ∧ rate_good (ackRate b')
  ∧ (ackRate b' = one ∨
     (disableLossCompensation b' = false ∧ congested b' = false ∧ 0 < window_acks T b'
      ∧ minSampleCountExit <= window_acks T b' + window_losses T b')).
Proof.
  intros Hw Hn. cbv zeta. unfold window_acks, window_losses, updateAckRate.
  set (m := i64 (T - pktInfoSlotCount)).
  destruct (window_totals _ _ m _ Hw Hn) as (Ha & Hl & Hal).
  set (acks := window_sum AckCount m (pktInfoSlots b)) in *.
  set (losses := window_sum LossCount m (pktInfoSlots b)) in *.
  set (ecn := window_sum ECNCount m (pktInfoSlots b)).
  destruct (updateCongestionGate_fields ecn rtt b) as (E1 & E2 & E3 & E4 & E5 & E6).
  set (b1 := updateCongestionGate ecn rtt b) in *. cbv zeta.
  rewrite (wrapU_small 64 (acks + losses)) by lia.
  destruct (disableLossCompensation b1) eqn:Edis.
  { cbn. repeat split; auto; apply one_good. }
  set (b2 := set_compensating _ b1).
  assert (pktInfoSlots b2 = pktInfoSlots b ∧ lostPNs b2 = lostPNs b ∧ bps b2 = bps b
          ∧ congested b2 = congested b1) as (F1 & F2 & F4 & F5) by done.
  assert (compensating b2 = true → minSampleCountExit <= acks + losses) as Hcomp.
  { cbn. unfold minSampleCountExit, minSampleCount. destruct (compensating b1); intros ?%Z.leb_le; lia. }
  assert (∀ r, (rate_good r ∧ (r = one ∨ (congested b2 = false ∧ 0 < acks
     ∧ minSampleCountExit <= acks + losses))) →
    let b' := printed T (set_ackRate r b2) in
    pktInfoSlots b' = pktInfoSlots b ∧ lostPNs b' = lostPNs b ∧ bps b' = bps b
    ∧ rate_good (ackRate b')
    ∧ (ackRate b' = one ∨ (disableLossCompensation b' = false ∧ congested b' = false
       ∧ 0 < window_sum AckCount m (pktInfoSlots b')
       ∧ minSampleCountExit <= window_sum AckCount m (pktInfoSlots b')
                               + window_sum LossCount m (pktInfoSlots b')))) as Hend.
  { intros r Hr. cbv zeta. destruct (printed_fields T (set_ackRate r b2)) as (-> & -> & -> & -> & -> & ->).
    cbn [pktInfoSlots lostPNs bps ackRate congested disableLossCompensation set_ackRate].
    rewrite F1, F2, F4. fold acks losses. destruct Hr as [Hr1 Hr2].
    repeat (split; [done|]). destruct Hr2 as [?|(? & ? & ?)]; [by left|right]. auto. }
  destruct (compensating b2) eqn:Ec; cbn [negb]; [|apply Hend; split; [apply one_good | by left]].
  specialize (Hcomp eq_refl).
  destruct (Z.eqb_spec acks 0); [apply Hend; split; [apply one_good | by left]|].
  destruct (congested b2) eqn:Econ; [apply Hend; split; [apply one_good | by left]|].
  destruct (ltb _ minAckRate) eqn:Elow; apply Hend; (split; [|right; split_and!; [done|lia|done]]).
  - apply minAckRate_good.
  - apply ratio_good; [lia|lia|done].
Qed.

End Window.

(** ** Runs *)
Section Runs.
Context `{QuicCongestion} `{FloatToInt} `{!MapRange Z Z}.

(** Event times do not run backwards. *)
Fixpoint in_order (T : Z) (cs : list call) : Prop :=
  match cs with
  | [] => True
  | CallOnCongestionEventEx t _ _ _ :: cs =>
      T <= quot t Second <= MaxInt64 ∧ in_order (quot t Second) cs
  | _ :: cs => in_order T cs
  end.

(** The packets acknowledged or declared lost in a run. *)
Definition packets (c : call) : Z :=
  match c with CallOnCongestionEventEx _ a l _ => len a + len l | _ => 0 end.

Lemma packets_nonneg cs : 0 <= sumZ packets cs.
Proof.
  apply sumZ_nonneg, Forall_true. intros []; cbn; try lia.
  pose proof (len_nonneg acked). pose proof (len_nonneg lost). lia.
Qed.

Definition last_second (T : Z) (cs : list call) : Z :=
  foldl (λ T c, match c with CallOnCongestionEventEx t _ _ _ => quot t Second | _ => T end) T cs.

Lemma event_window_ok T n t acked lost rtt b b' :
  window_ok T n b → T <= quot t Second <= MaxInt64 → n + len acked + len lost < 2 ^ 53 →
  OnCongestionEventEx t acked lost rtt b = Ret b' →
  window_ok (quot t Second) (n + len acked + len lost) b'
  ∧ (ackRate b' = one ∨
     (disableLossCompensation b' = false ∧ congested b' = false ∧ 0 < window_acks (quot t Second) b'
      ∧ minSampleCountExit <= window_acks (quot t Second) b' + window_losses (quot t Second) b')).
Proof.
  intros Hw HT Hn. unfold OnCongestionEventEx. cbv zeta.
  destruct (drainPending_fields b) as (D1 & D2 & D3 & _). set (b1 := drainPending b) in *.
  assert (window_ok T n b1) as Hw1.
  { apply (window_ok_ext T n b); try done. rewrite D3. apply Hw. }
  set (b2 := if _ : bool then rebaseline t rtt b1 else b1).
  assert (window_ok T n b2) as Hw2.
  { unfold b2. destruct (_ && _); [|done].
    destruct (rebaseline_fields t rtt b1) as (R1 & R2 & R3 & _).
    apply (window_ok_ext T n b1); try done. rewrite R3. apply Hw1. }
  destruct (_ <? 0); [done|]. intros [= <-].
  pose proof (open_slot_ok T n (quot t Second) b2 Hw2 ltac:(lia) ltac:(lia)) as Hw3.
  pose proof (event_counts_ok _ _ _ acked lost Hw3 Hn) as Hw4.
  set (b3 := remember_lost _ _ _) in *.
  destruct (updateAckRate_spec _ _ rtt _ Hw4 Hn) as (U1 & U2 & _ & U4 & U5).
  split; [|done]. by apply (window_ok_ext _ _ b3).
Qed.

Lemma step_window_ok T n c b b' :
  window_ok T n b → in_order T [c] → n + packets c < 2 ^ 53 → step c b = Ret b' →
  window_ok (last_second T [c]) (n + packets c) b'.
Proof.
  intros Hw Ho Hn. destruct (drainPending_fields b) as (D1 & D2 & D3 & _).
  assert (∀ b1, pktInfoSlots b1 = pktInfoSlots b → lostPNs b1 = lostPNs b →
            ackRate b1 = ackRate b → window_ok T (n + 0) b1) as Hext.
  { intros b1 E1 E2 E3. rewrite Z.add_0_r. apply (window_ok_ext T n b); try done. rewrite E3. apply Hw. }
  destruct c; cbn [step packets last_second foldl in_order] in *.
  - intros [= <-]. unfold SetBPS. case_match; by apply Hext.
  - intros [= <-]. by apply Hext.
  - unfold BrutalSender_TimeUntilSend. cbv zeta beta iota. intros (t & _ & [= <-])%outcome_bind_inv.
    by apply Hext.
  - intros [= <-]. by apply Hext.
  - intros [= <-]. by apply Hext.
  - intros [= <-]. unfold OnCongestionEvent. case_match; by apply Hext.
  - intros He. rewrite Z.add_assoc in *. destruct Ho as [Ho _].
    by destruct (event_window_ok _ _ _ _ _ _ _ _ Hw Ho Hn He).
  - intros [= <-]. by apply Hext.
Qed.

Lemma steps_window_ok cs T n b b' :
  window_ok T n b → in_order T cs → n + sumZ packets cs < 2 ^ 53 → steps cs b = Ret b' →
  window_ok (last_second T cs) (n + sumZ packets cs) b'.
Proof.
  revert T n b. induction cs as [|c cs IH]; intros T n b Hw Ho Hn; cbn [steps].
  { intros [= <-]. by rewrite Z.add_0_r. }
  rewrite sumZ_cons in *. pose proof (packets_nonneg cs).
  intros (b1 & Hs & Hr)%outcome_bind_inv.
  assert (in_order T [c] ∧ in_order (last_second T [c]) cs) as [Ho1 Ho2]
    by (destruct c; cbn in *; tauto).
  pose proof (step_window_ok T n c b b1 Hw Ho1 ltac:(lia) Hs) as Hw1.
  rewrite Z.add_assoc in *. by apply (IH _ _ b1).
Qed.

End Runs.

(** ** The minimum round trip after a path change *)
Section Rebaseline.
Context `{QuicCongestion} `{FloatToInt} `{!MapRange Z Z}.

(** The round trips a run samples: one for each event that acknowledges
    something, when quic-go has a latest round trip. *)
Definition sample (c : call) : list (Z * Z) :=
  match c with
  | CallOnCongestionEventEx t (_ :: _) _ rtt => if 0 <? LatestRTT rtt then [(t, LatestRTT rtt)] else []
  | _ => []
  end.

Definition samples (cs : list call) : list (Z * Z) := cs ≫= sample.

(** Eight samples or more, the eighth or a later one half a second after the first. *)
Definition settled (ss : list (Z * Z)) : Prop :=
  ∃ x y, x ∈ drop 7 ss ∧ head ss = Some y ∧ rebaselineWindow <= x.1 - y.1.

#[export] Instance settled_dec ss : Decision (settled ss).
Proof.
  refine (match head ss as h return head ss = h → _ with
          | None => λ E, right _
          | Some y => λ E,
              match decide (Exists (λ x, rebaselineWindow <= x.1 - y.1) (drop 7 ss)) with
              | left He => left _
              | right Hn => right _
              end
          end eq_refl).
  - apply list.Exists_exists in He as (x & Hx & Hw). by exists x, y.
  - intros (x & y' & Hx & Hy' & Hw). rewrite E in Hy'. injection Hy' as <-.
    apply Hn, list.Exists_exists. eauto.
  - intros (x & y' & _ & Hy' & _). congruence.
Defined.

Definition is_min (m : Z) (ss : list (Z * Z)) : Prop :=
  (∃ x, x ∈ ss ∧ x.2 = m) ∧ ∀ x, x ∈ ss → m <= x.2.

Definition path_view (b : BrutalSender) : bool * bool * Z * Z * Z * Z :=
  (pathReset b, pathHasChanged b, minRTTFloor b, rebaselineMin b, rebaselineSamples b, rebaselineStart b).

Record baseline_ok (ss : list (Z * Z)) (b : BrutalSender) : Prop := {
  bl_reset : pathReset b = false;
  bl_changed : pathHasChanged b = true;
  bl_samples : rebaselineSamples b = len ss;
  bl_start y : head ss = Some y → rebaselineStart b = y.1;
  bl_empty : ss = [] → rebaselineMin b = 0 ∧ minRTTFloor b = 0;
  bl_min : ss ≠ [] → is_min (rebaselineMin b) ss;
  bl_floor : settled ss → minRTTFloor b = rebaselineMin b;
  bl_nofloor : ¬ settled ss → minRTTFloor b = 0;
  bl_pos : Forall (λ x, 0 < x.2) ss;
}.

Lemma baseline_view ss b b' : path_view b' = path_view b → baseline_ok ss b → baseline_ok ss b'.
Proof. intros [= E1 E2 E3 E4 E5 E6] []. split; rewrite ?E1, ?E2, ?E3, ?E4, ?E5, ?E6; auto. Qed.

Lemma open_slot_view T b : path_view (open_slot T b) = path_view b.
Proof. unfold open_slot. by case_match. Qed.

Lemma take_back_view b pn : path_view (take_back b pn) = path_view b.
Proof. unfold take_back. case_match; [|done]. cbv zeta. by case_match. Qed.

Lemma take_backs_view acked b : path_view (foldl take_back b acked) = path_view b.
Proof.
  revert b. induction acked as [|pn l IH]; intros b; [done|]. cbn [foldl].
  by rewrite IH, take_back_view.
Qed.

Lemma remember_lost_view T lost b : path_view (remember_lost T lost b) = path_view b.
Proof. unfold remember_lost. by case_match. Qed.

Lemma updateCongestionGate_view e rtt b : path_view (updateCongestionGate e rtt b) = path_view b.
Proof. unfold updateCongestionGate. cbv zeta. by repeat case_match. Qed.

Lemma printed_view t b : path_view (printed t b) = path_view b.
Proof. unfold printed. by case_match. Qed.

Lemma updateAckRate_view T rtt b : path_view (updateAckRate T rtt b) = path_view b.
Proof.
  unfold updateAckRate. cbv zeta.
  repeat case_match; rewrite ?printed_view; apply updateCongestionGate_view.
Qed.

Lemma drain_baseline ss b : baseline_ok ss b → drainPending b = b ∨
  (∃ p, drainPending b = set_pacer p (set_pacerReset false b)).
Proof.
  intros Hb. unfold drainPending. destruct (pacerReset b) eqn:E.
  - right. exists (Reset (pacer b)). cbn. by rewrite (bl_reset _ _ Hb).
  - left. by rewrite (bl_reset _ _ Hb).
Qed.

Lemma drain_view ss b : baseline_ok ss b → path_view (drainPending b) = path_view b.
Proof. intros Hb. destruct (drain_baseline ss b Hb) as [->|[p ->]]; done. Qed.

Lemma drop_snoc {A} n (l : list A) x :
  drop n (l ++ [x]) = drop n l ++ (if decide (n <= length l)%nat then [x] else []).
Proof.
  case_decide.
  - by rewrite drop_app_le.
  - by rewrite !drop_ge by (rewrite ?length_app; simpl; lia).
Qed.

Lemma settled_snoc ss x y :
  head ss = Some y →
  settled (ss ++ [x]) ↔ settled ss ∨ ((7 <= length ss)%nat ∧ rebaselineWindow <= x.1 - y.1).
Proof.
  intros Hy. assert (head (ss ++ [x]) = Some y) as Hy' by (by destruct ss).
  unfold settled. rewrite drop_snoc. split.
  - intros (x' & y' & Hx & Hh & Hw). rewrite Hy' in Hh. injection Hh as <-.
    apply elem_of_app in Hx as [Hx|Hx]; [left; eauto|]. right.
    case_decide; [|by apply not_elem_of_nil in Hx]. by apply list_elem_of_singleton in Hx as ->.
  - intros [(x' & y' & Hx & Hh & Hw)|[Hl Hw]].
    + rewrite Hy in Hh. injection Hh as <-. exists x', y. split; [|done]. apply elem_of_app. by left.
    + exists x, y. split; [|done]. rewrite decide_True by done. apply elem_of_app. right. by left.
Qed.

Lemma settled_first x : ¬ settled [x].
Proof. intros (x' & y & Hx & _). by apply not_elem_of_nil in Hx. Qed.

Lemma is_min_snoc m ss x : is_min m ss → is_min (Z.min m x.2) (ss ++ [x]).
Proof.
  intros [(z & Hz & <-) Hm]. split.
  - destruct (Z.min_spec z.2 x.2) as [[_ ->]|[_ ->]].
    + exists z. split; [apply elem_of_app; by left | done].
    + exists x. split; [apply elem_of_app; right; by left | done].
  - intros w [Hw|Hw%list_elem_of_singleton]%elem_of_app; [specialize (Hm _ Hw); lia | subst; lia].
Qed.

Lemma rebaseline_step ss b t rtt :
  baseline_ok ss b → len ss < MaxInt64 → 0 <= t <= MaxInt64 →
  (∀ y, head ss = Some y → 0 <= y.1 <= t) → 0 < LatestRTT rtt →
  baseline_ok (ss ++ [(t, LatestRTT rtt)]) (rebaseline t rtt b).
Proof.
  intros Hb Hlen Ht Hy Hlat. pose proof (len_nonneg ss). pose proof Hb as [B1 B2 B3 B4 B5 B6 B7 B8 B9].
  unfold rebaseline. rewrite (proj2 (Z.leb_gt _ 0)) by done.
  set (x := (t, LatestRTT rtt)).
  set (b1 := if rebaselineSamples b =? 0 then set_rebaselineStart t b else b).
  assert (path_view b1 = path_view (set_rebaselineStart (rebaselineStart b1) b)) as Hv1
    by (unfold b1; destruct (_ =? 0); reflexivity).
  injection Hv1 as V1 V2 V3 V4 V5.
  assert (∀ y, head (ss ++ [x]) = Some y → rebaselineStart b1 = y.1) as Hstart.
  { intros y Hh. unfold b1. rewrite B3. destruct ss as [|z ss].
    - injection Hh as <-. done.
    - injection Hh as <-. unfold len. simpl length.
      rewrite (proj2 (Z.eqb_neq _ 0)) by lia. by apply B4. }
  rewrite V5, B3, (i64_small (len ss + 1)) by (unfold MinInt64, MaxInt64 in *; lia).
  set (b2 := set_rebaselineSamples (len ss + 1) b1).
  change (rebaselineMin b2) with (rebaselineMin b1). rewrite V4.
  set (m := if (rebaselineMin b =? 0) || (LatestRTT rtt <? rebaselineMin b) then LatestRTT rtt
            else rebaselineMin b).
  set (b3 := if (rebaselineMin b =? 0) || _ then set_rebaselineMin (LatestRTT rtt) b2 else b2).
  assert (is_min m (ss ++ [x])) as Hmin.
  { destruct (decide (ss = [])) as [->|Hne].
    - destruct (B5 eq_refl) as [E _]. unfold m. rewrite E. cbn. split.
      + exists x. split; [by left | done].
      + intros w ->%list_elem_of_singleton. done.
    - assert (m = Z.min (rebaselineMin b) x.2) as ->; [|by apply is_min_snoc, B6].
      destruct (B6 Hne) as [(z & Hz & Ez) _].
      assert (0 < z.2) as Hzp by (rewrite list.Forall_forall in B9; by apply B9).
      unfold m. cbn [snd x]. rewrite (proj2 (Z.eqb_neq _ 0)) by lia. cbn [orb].
      destruct (Z.ltb_spec (LatestRTT rtt) (rebaselineMin b)); lia. }
  assert (path_view b3 = (false, true, minRTTFloor b, m, len ss + 1, rebaselineStart b1)) as Hv3.
  { unfold b3, m, path_view. destruct (_ || _); cbn; rewrite ?V1, ?V2, ?V3, ?V4, ?B1, ?B2; done. }
  injection Hv3 as W1 W2 W3 W4 W5 W6. clearbody b3 m.
  rewrite W3, W5, W6, W4.
  assert (len (ss ++ [x]) = len ss + 1) as Hlenx by (rewrite len_app; done).
  assert (settled (ss ++ [x]) ↔
     (0 <? minRTTFloor b) || ((rebaselineMinSamples <=? len ss + 1)
       && (rebaselineWindow <=? mono_Sub t (rebaselineStart b1))) = true) as Hset.
  { destruct (decide (ss = [])) as [->|Hne].
    - destruct (B5 eq_refl) as [_ ->]. cbn. split; [by intros ?%settled_first | done].
    - destruct ss as [|y ss0]; [done|]. set (ss := y :: ss0) in *.
      rewrite (settled_snoc ss x y), (Hstart y) by done.
      rewrite mono_Sub_spec by (try apply Hy; try done; lia).
      rewrite orb_true_iff, andb_true_iff, Z.ltb_lt, !Z.leb_le. unfold rebaselineMinSamples.
      assert (settled ss ↔ 0 < minRTTFloor b) as ->.
      { split.
        - intros Hs. rewrite (B7 Hs). destruct (B6 Hne) as [(z & Hz & <-) _].
          rewrite list.Forall_forall in B9. by apply B9.
        - intros Hp. destruct (decide (settled ss)) as [|Hn]; [done|]. rewrite (B8 Hn) in Hp. lia. }
      unfold len. cbn [fst x]. split; (intros [?|[? ?]]; [by left | right; lia]). }
  set (b4 := if _ || _ then set_minRTTFloor m b3 else b3).
  assert (path_view b4 = (false, true, (if (0 <? minRTTFloor b) || ((rebaselineMinSamples <=? len ss + 1)
       && (rebaselineWindow <=? mono_Sub t (rebaselineStart b1))) then m else minRTTFloor b),
       m, len ss + 1, rebaselineStart b1)) as Hv4.
  { unfold b4. destruct (_ || _); unfold path_view, set_minRTTFloor; cbn;
      rewrite ?W1, ?W2, ?W3, ?W4, ?W5, ?W6; done. }
  injection Hv4 as X1 X2 X3 X4 X5 X6.
  split; rewrite ?X1, ?X2, ?X3, ?X4, ?X5, ?X6; auto.
  - by destruct ss.
  - intros Hs. by rewrite (proj1 Hset Hs).
  - intros Hs. destruct (_ || _); [by destruct Hs; apply Hset|].
    destruct (decide (ss = [])) as [->|Hne]; [by apply B5|].
    apply B8. intros Hs'. apply Hs. destruct ss as [|y ss0]; [done|]. apply (settled_snoc _ x y); [done|by left].
  - apply Forall_app. split; [done|]. by apply Forall_singleton.
Qed.

Lemma drain_view_ext b1 b2 : path_view b1 = path_view b2 →
  path_view (drainPending b1) = path_view (drainPending b2).
Proof.
  intros [= E1 E2 E3 E4 E5 E6]. unfold drainPending.
  destruct (pacerReset b1), (pacerReset b2); cbn; rewrite E1; destruct (pathReset b2) eqn:Er;
    unfold path_view; cbn; by rewrite ?E1, ?E2, ?E3, ?E4, ?E5, ?E6, ?Er.
Qed.

Definition not_path_change (c : call) : Prop :=
  match c with CallOnPathChange => False | _ => True end.

Definition timely (ss : list (Z * Z)) : Prop :=
  StronglySorted Z.le ss.*1 ∧ Forall (λ x, 0 <= x.1 <= MaxInt64) ss ∧ len ss <= MaxInt64.

Lemma timely_app ss k : timely (ss ++ k) → timely ss.
Proof.
  unfold timely. rewrite fmap_app, len_app. intros (Hs & Hf & Hl).
  apply StronglySorted_app in Hs as (_ & Hs & _). apply Forall_app in Hf as [Hf _].
  pose proof (len_nonneg k). split_and!; [done|done|lia].
Qed.

Lemma step_baseline ss c b b' :
  baseline_ok ss (drainPending b) → not_path_change c → timely (ss ++ sample c) →
  step c b = Ret b' → baseline_ok (ss ++ sample c) (drainPending b').
Proof.
  intros Hb Hc Ht.
  assert (∀ b1, path_view b1 = path_view b → baseline_ok (ss ++ []) (drainPending b1)) as Hkeep.
  { intros b1 E. rewrite app_nil_r. eapply baseline_view; [by apply drain_view_ext | done]. }
  assert (∀ ss' b1, baseline_ok ss' b1 → baseline_ok ss' (drainPending b1)) as Hdrain.
  { intros ss' b1 Hb1. eapply baseline_view; [by eapply drain_view | done]. }
  assert (∀ b1, path_view b1 = path_view (drainPending b) → baseline_ok (ss ++ []) (drainPending b1))
    as Hdrained.
  { intros b1 E. rewrite app_nil_r. apply Hdrain. by eapply baseline_view. }
  destruct c; cbn [step sample] in *; try done.
  - intros [= <-]. unfold SetBPS. case_match; by apply Hkeep.
  - unfold BrutalSender_TimeUntilSend. cbv zeta beta iota. intros (t & _ & [= <-])%outcome_bind_inv.
    by apply Hdrained.
  - intros [= <-]. by apply Hdrained.
  - intros [= <-]. by apply Hdrained.
  - intros [= <-]. unfold OnCongestionEvent. case_match; by apply Hkeep.
  - unfold OnCongestionEventEx. cbv zeta. destruct (_ <? 0); [done|]. intros [= <-].
    apply Hdrain. eapply baseline_view.
    { rewrite updateAckRate_view, remember_lost_view, take_backs_view.
      etrans; [|apply (open_slot_view (quot eventTime Second))]. reflexivity. }
    rewrite (bl_changed _ _ Hb). cbn [andb].
    destruct acked as [|pn acked]; [by rewrite app_nil_r|].
    destruct (Z.ltb_spec 0 (LatestRTT rtt)).
    + unfold len. simpl length. rewrite (proj2 (Z.ltb_lt 0 _)) by lia.
      destruct Ht as (Hs & Hf & Hl). rewrite len_app in Hl. unfold len at 2 in Hl. simpl length in Hl.
      apply Forall_app in Hf as [Hf1 Hf2]. apply Forall_cons in Hf2 as [Hft _]. cbn [fst] in Hft.
      apply rebaseline_step; try done; [lia|].
      intros y Hy. destruct ss as [|z ss]; [done|]. injection Hy as ->.
      apply Forall_cons in Hf1 as [Hfy _]. split; [lia|].
      rewrite fmap_app in Hs. apply StronglySorted_app in Hs as (Hs & _).
      apply Hs; [by left | by left].
    + rewrite app_nil_r. case_match; [|done].
      unfold rebaseline. by rewrite (proj2 (Z.leb_le _ 0)) by lia.
  - intros [= <-]. by apply Hkeep.
Qed.

Lemma steps_baseline cs ss b b' :
  baseline_ok ss (drainPending b) → Forall not_path_change cs → timely (ss ++ samples cs) →
  steps cs b = Ret b' → baseline_ok (ss ++ samples cs) (drainPending b').
Proof.
  revert ss b. induction cs as [|c cs IH]; intros ss b Hb Hc Ht; cbn [steps].
  { intros [= <-]. by rewrite app_nil_r. }
  apply Forall_cons in Hc as [Hc Hcs]. change (samples (c :: cs)) with (sample c ++ samples cs) in *.
  rewrite app_assoc in *. intros (b1 & Hs & Hr)%outcome_bind_inv.
  eapply IH; [|done|done|done]. eapply step_baseline; try done. by eapply timely_app.
Qed.

Lemma OnPathChange_baseline b : baseline_ok [] (drainPending (OnPathChange b)).
Proof.
  unfold drainPending, OnPathChange.
  destruct (pacerReset b) eqn:E; cbn; rewrite ?E; cbn; split; cbn; try done;
    by intros (x & y & ? & ? & _).
Qed.

End Rebaseline.

(** ** The congestion window *)
Section Cwnd.
Context `{QuicCongestion} `{FloatToInt}.

Lemma Seconds_bounds d : 0 <= d <= MaxInt64 →
  nonneg (Seconds d)
  ∧ (toQ (Seconds d) * 1000000000 <= inject_Z d * (1 + (1 # 562949953421312)))%Q.
Proof.
  intros Hd. unfold Seconds, Second, MaxInt64 in *.
  rewrite Z.quot_div_nonneg, Z.rem_mod_nonneg by lia.
  set (q := d / 1000000000). set (r := d mod 1000000000).
  assert (d = 1000000000 * q + r ∧ 0 <= r < 1000000000 ∧ 0 <= q) as (Ed & Hr & Hq).
  { split; [apply Z.div_mod; lia|]. split; [apply Z.mod_pos_bound; lia | apply Z.div_pos; lia]. }
  destruct (of_Z_close q Hq) as (Qn & _ & Q2).
  pose proof (of_Z_close r (proj1 Hr)) as (Rn & _ & R2).
  assert (0 < fm (of_Z 1000000000)) as Hg by (vm_compute; reflexivity).
  destruct (div_close (of_Z r) (of_Z 1000000000) Rn Hg) as (Dn & _ & D2).
  assert (toQ (of_Z 1000000000) == 1000000000)%Q as Eg by (vm_compute; reflexivity).
  rewrite Eg in D2. set (a := of_Z q) in *. set (b := div (of_Z r) (of_Z 1000000000)) in *.
  unfold add. set (e := Z.min (fe a) (fe b)).
  unfold nonneg in *.
  assert (0 <= fm a * 2 ^ (fe a - e)) by (apply Z.mul_nonneg_nonneg; [done | apply Z.pow_nonneg; lia]).
  assert (0 <= fm b * 2 ^ (fe b - e)) by (apply Z.mul_nonneg_nonneg; [done | apply Z.pow_nonneg; lia]).
  destruct (round_scaled_close (fm a * 2 ^ (fe a - e) + fm b * 2 ^ (fe b - e)) 1 e) as (Sn & _ & S2);
    [lia|lia|]. split; [exact Sn|].
  rewrite inject_Z_plus in S2. change (inject_Z 1) with 1%Q in S2.
  assert ((inject_Z (fm a * 2 ^ (fe a - e)) + inject_Z (fm b * 2 ^ (fe b - e))) / 1 * (2 # 1) ^ e
          == toQ a + toQ b)%Q as Es.
  { rewrite (toQ_shift a e), (toQ_shift b e) by lia. field. }
  rewrite Es in S2. unfold eps in *.
  assert (inject_Z d == 1000000000 * inject_Z q + inject_Z r)%Q as EdQ.
  { rewrite Ed, inject_Z_plus, inject_Z_mult. reflexivity. }
  rewrite EdQ.
  assert (0 <= inject_Z q)%Q by (change 0%Q with (inject_Z 0); by rewrite <-Zle_Qle).
  assert (0 <= inject_Z r)%Q by (change 0%Q with (inject_Z 0); rewrite <-Zle_Qle; lia).
  unfold Qdiv in D2. change (/ 1000000000)%Q with (1 # 1000000000)%Q in D2.
  lra.
Qed.

Lemma windowRTT_bounds rtt b :
  0 <= SmoothedRTT rtt <= MaxInt64 → minRTT rtt b < 2 ^ 61 →
  MinPacingDelay <= windowRTT rtt b <= MaxInt64
  ∧ (0 < minRTT rtt b → windowRTT rtt b <= Z.max (2 * minRTT rtt b) MinPacingDelay).
Proof.
  intros Hs Hm. pose proof MinPacingDelay_bound as Hd. unfold Second in Hd.
  unfold windowRTT, cwndRTTClampK, MaxInt64 in *.
  destruct (Z.ltb_spec 0 (minRTT rtt b)).
  - rewrite i64_small by (unfold MinInt64, MaxInt64; lia). lia.
  - lia.
Qed.

(** The clamps hold whatever the conversion from floating point yields. *)
Lemma GetCongestionWindow_clamped rtt b :
  0 < b_maxDatagramSize b <= 65535 →
  let w := GetCongestionWindow rtt b in
  cwndFloorPackets * b_maxDatagramSize b <= w <= MaxCongestionWindowPackets * b_maxDatagramSize b
  ∧ (w <= cwndFloorPackets * b_maxDatagramSize b ∨
     w <= toInt64 (mul (mul (of_Z (bps b)) (Seconds (windowRTT rtt b))) (of_Z 2))).
Proof.
  intros Hm. pose proof MaxCongestionWindowPackets_bound as Hc.
  unfold GetCongestionWindow, cwndFloorPackets, congestionWindowMultiplier. cbv zeta.
  rewrite !i64_small by (unfold MinInt64, MaxInt64; nia).
  set (c := toInt64 _).
  destruct (Z.ltb_spec c (32 * b_maxDatagramSize b)), (Z.ltb_spec (MaxCongestionWindowPackets * b_maxDatagramSize b)
     (32 * b_maxDatagramSize b)), (Z.ltb_spec (MaxCongestionWindowPackets * b_maxDatagramSize b) c); nia.
Qed.

Lemma window_product_bound v W : 0 <= v → 0 <= W <= MaxInt64 →
  2 * v * W < 2 ^ 62 * Second →
  2 ^ 48 * Second * toInt64 (mul (mul (of_Z v) (Seconds W)) (of_Z 2)) <= (2 ^ 48 + 1) * (2 * v * W).
Proof.
  intros Hv HW Hov. destruct (Seconds_bounds W HW) as [Sn S2].
  destruct (of_Z_close v Hv) as (Vn & _ & V2).
  destruct (mul_close _ _ Vn Sn) as (Mn & _ & M2).
  assert (nonneg (of_Z 2)) as Tn by (vm_compute; congruence).
  assert (toQ (of_Z 2) == 2)%Q as Et by (vm_compute; reflexivity).
  destruct (mul_close _ _ Mn Tn) as (Pn & _ & P2). rewrite Et in P2.
  set (p := mul (mul (of_Z v) (Seconds W)) (of_Z 2)) in *.
  destruct (trunc_le p Pn) as (Hp0 & Hp1 & _).
  pose proof (nonneg_toQ _ Vn) as Vq. pose proof (nonneg_toQ _ Sn) as Sq.
  assert (0 <= inject_Z v)%Q as HvQ by (change 0%Q with (inject_Z 0); by rewrite <-Zle_Qle).
  assert (0 <= inject_Z W)%Q as HWQ by (change 0%Q with (inject_Z 0); rewrite <-Zle_Qle; lia).
  assert (toQ (of_Z v) * (toQ (Seconds W) * 1000000000)
          <= (inject_Z v * (1 + eps)) * (inject_Z W * (1 + (1 # 562949953421312))))%Q as Hprod.
  { apply (Qle_trans _ (inject_Z v * (1 + eps) * (toQ (Seconds W) * 1000000000))%Q).
    - apply Qmult_le_compat_r; [done | lra].
    - rewrite !(Qmult_comm (inject_Z v * (1 + eps))). apply Qmult_le_compat_r; [done|].
      apply Qmult_le_0_compat; [done | unfold eps; lra]. }
  assert (0 <= inject_Z v * inject_Z W)%Q as HvW by (by apply Qmult_le_0_compat).
  set (vW := (inject_Z v * inject_Z W)%Q) in *.
  assert (toQ (of_Z v) * (toQ (Seconds W) * 1000000000) <= vW * ((1 + eps) * (1 + (1 # 562949953421312))))%Q
    as Hprod2.
  { eapply Qle_trans; [exact Hprod|]. apply Qle_lteq. right. unfold vW. ring. }
  set (A := (toQ (of_Z v) * toQ (Seconds W))%Q) in *.
  assert (A * 1000000000 <= vW * ((1 + eps) * (1 + (1 # 562949953421312))))%Q as HA.
  { eapply Qle_trans; [|exact Hprod2]. apply Qle_lteq. right. unfold A. ring. }
  assert (281474976710656 * (1000000000 * inject_Z (trunc p)) <= 281474976710657 * (2 * vW))%Q as Hfin.
  { unfold eps in *. lra. }
  assert (2 ^ 48 * Second * trunc p <= (2 ^ 48 + 1) * (2 * v * W)) as Hz.
  { rewrite Zle_Qle, !inject_Z_mult. unfold Second.
    change (inject_Z (2 ^ 48 + 1)) with 281474976710657%Q. change (inject_Z (2 ^ 48)) with 281474976710656%Q.
    change (inject_Z 1000000000) with 1000000000%Q. change (inject_Z 2) with 2%Q.
    unfold vW in Hfin. lra. }
  unfold toInt64. rewrite (proj2 (Z.leb_le _ _)); [done|].
  unfold MaxInt64, Second in *. lia.
Qed.

End Cwnd.

(** ** Properties *)
Section Theorems.
Context `{QuicCongestion} `{FloatToInt} `{!MapRange Z Z}.

(** After any sequence of calls that starts with a new controller, the rate
    handed to the pacer is the declared one or above it by at most a quarter
    (up to one part in 2^48 of rounding and one byte per second); and directly
    after an acknowledgement it is above it only if compensation is enabled,
    the path shows no queue and the window holds at least forty packets, some
    of them acknowledged. *)
Theorem pacing_rate v dis dbg cs t acked lost rtt b :
  in_order 0 (cs ++ [CallOnCongestionEventEx t acked lost rtt]) →
  sumZ packets cs + len acked + len lost < 2 ^ 53 →
  steps cs (NewBrutalSender v dis dbg) = Ret b → 0 < bps b < 2 ^ 62 →
  (2 ^ 48 - 1) * bps b <= 2 ^ 48 * (getBandwidth b + 1)
  ∧ 4 * 2 ^ 48 * getBandwidth b <= (5 * 2 ^ 48 + 1) * bps b
  ∧ ∀ b', OnCongestionEventEx t acked lost rtt b = Ret b' →
    ackRate b' = one ∨
    (disableLossCompensation b' = false ∧ congested b' = false
     ∧ 0 < window_acks (quot t Second) b'
     ∧ minSampleCountExit <= window_acks (quot t Second) b' + window_losses (quot t Second) b').
Proof.
  intros Ho Hn Hs Hb. pose proof (len_nonneg acked). pose proof (len_nonneg lost).
  assert (∀ cs T, in_order T (cs ++ [CallOnCongestionEventEx t acked lost rtt]) →
    in_order T cs ∧ last_second T cs <= quot t Second <= MaxInt64) as Hsplit.
  { clear. induction cs as [|c cs IH]; intros T; cbn [app in_order]; [tauto|].
    destruct c; cbn [last_second foldl]; try apply IH.
    intros [HT Ho]. destruct (IH _ Ho). auto. }
  destruct (Hsplit _ _ Ho) as [Ho1 HT].
  pose proof (steps_window_ok cs 0 0 _ b (New_window_ok v dis dbg) Ho1 ltac:(lia) Hs) as Hw.
  destruct (getBandwidth_bounds b Hb (w_rate _ _ _ Hw)) as [H1' H2'].
  split; [done|]. split; [done|]. intros b' He.
  by destruct (event_window_ok _ (0 + sumZ packets cs) t acked lost rtt b b' Hw HT ltac:(lia) He).
Qed.

(** The congestion window lies between 32 datagrams and the ceiling of
    quic-go, whatever the rate and the round trips.  With a known minimum round
    trip it is also at most 32 datagrams or twice the declared rate over twice
    that minimum (one pacing interval at least), however far the smoothed round
    trip has risen. *)
Theorem congestion_window_bounded rtt b :
  0 < b_maxDatagramSize b <= 65535 →
  let w := GetCongestionWindow rtt b in
  cwndFloorPackets * b_maxDatagramSize b <= w <= MaxCongestionWindowPackets * b_maxDatagramSize b
  ∧ (0 <= bps b → 0 <= SmoothedRTT rtt <= MaxInt64 → 0 < minRTT rtt b < 2 ^ 61 →
     let W := Z.max (cwndRTTClampK * minRTT rtt b) MinPacingDelay in
     congestionWindowMultiplier * bps b * W < 2 ^ 62 * Second →
     w <= cwndFloorPackets * b_maxDatagramSize b
     ∨ 2 ^ 48 * Second * w <= (2 ^ 48 + 1) * (congestionWindowMultiplier * bps b * W)).
Proof.
  intros Hm. destruct (GetCongestionWindow_clamped rtt b Hm) as [Hclamp Hcases].
  split; [done|]. cbv zeta. intros Hv Hs Hmin Hov.
  destruct Hcases as [?|Hle]; [by left|right].
  destruct (windowRTT_bounds rtt b Hs ltac:(lia)) as [HW1 HW2]. specialize (HW2 ltac:(lia)).
  pose proof MinPacingDelay_bound. unfold cwndRTTClampK, congestionWindowMultiplier in *.
  set (W := Z.max (2 * minRTT rtt b) MinPacingDelay) in *.
  assert (0 <= windowRTT rtt b <= MaxInt64) as HW0 by lia.
  pose proof (window_product_bound (bps b) (windowRTT rtt b) Hv HW0) as Hp.
  assert (2 * bps b * windowRTT rtt b <= 2 * bps b * W) as Hmono by nia.
  specialize (Hp ltac:(lia)). clearbody W.
  set (P := 2 * bps b * windowRTT rtt b) in *. set (Q := 2 * bps b * W) in *.
  clearbody P Q. unfold Second in *.
  change (2 ^ 48) with 281474976710656 in *. cbv zeta in Hle. lia.
Qed.

(** After a path change the minimum round trip in use stays the transport's
    lifetime minimum until eight samples spanning half a second have been taken
    on the new path; from then on it is the smallest of all samples since the
    change, whatever other calls are interleaved. *)
Lemma rebaseline_after_path_change cs b b' rtt :
  Forall not_path_change cs → timely (samples cs) →
  steps (CallOnPathChange :: cs) b = Ret b' →
  (¬ settled (samples cs) → minRTT rtt (drainPending b') = MinRTT rtt)
  ∧ (settled (samples cs) → is_min (minRTT rtt (drainPending b')) (samples cs)).
Proof.
  intros Hc Ht Hs. cbn [steps step] in Hs. apply outcome_bind_inv in Hs as (b1 & [= <-] & Hs).
  pose proof (steps_baseline cs [] _ b' (OnPathChange_baseline b) Hc Ht Hs) as Hb.
  rewrite app_nil_l in Hb. unfold minRTT. split; intros Hset.
  - by rewrite (bl_nofloor _ _ Hb Hset).
  - rewrite (bl_floor _ _ Hb Hset).
    assert (samples cs ≠ []) as Hne by (intros E; rewrite E in Hset; by destruct Hset as (? & ? & ? & ? & _)).
    pose proof (bl_min _ _ Hb Hne) as Hm. destruct Hm as [(x & Hx & Ex) Hall].
    pose proof (bl_pos _ _ Hb) as Hp. rewrite list.Forall_forall in Hp.
    specialize (Hp _ Hx). rewrite (proj2 (Z.ltb_lt 0 _)) by lia. split; [eauto|done].
Qed.

(** A loss that turns out to be spurious is taken back exactly: whenever a
    packet is remembered as lost in a second still in the sampling window, that
    second's count is positive, and acknowledging the packet lowers it by one
    and forgets the packet. *)
Theorem spurious_loss_taken_back v dis dbg cs b pn ts :
  in_order 0 cs → sumZ packets cs < 2 ^ 53 →
  steps cs (NewBrutalSender v dis dbg) = Ret b →
  lostPNs b !! pn = Some ts → Timestamp (slot ts b) = ts →
  LossCount (slot ts (take_back b pn)) = LossCount (slot ts b) - 1
  ∧ 0 <= LossCount (slot ts (take_back b pn))
  ∧ lostPNs (take_back b pn) !! pn = None.
Proof.
  intros Ho Hn Hs Hpn Hst.
  pose proof (steps_window_ok cs 0 0 _ b (New_window_ok v dis dbg) Ho ltac:(lia) Hs) as Hw.
  destruct (w_lost _ _ _ Hw _ _ Hpn) as [Hts _].
  pose proof (w_tracked _ _ _ Hw ts Hts Hst) as Htr.
  assert (0 < tracked ts b) as Hpos.
  { pose proof (tracked_delete pn ts (lostPNs b) ts Hpn) as Hd. rewrite decide_True in Hd by done.
    unfold tracked. lia. }
  unfold take_back. rewrite Hpn. cbv zeta.
  change (slot ts (set_lostPNs (delete pn (lostPNs b)) b)) with (slot ts b).
  rewrite (proj2 (Z.eqb_eq _ _) Hst), (proj2 (Z.ltb_lt 0 _)) by lia. cbn [andb].
  rewrite slot_set_slot by (done || apply Hw). rewrite decide_True by done. cbn.
  rewrite lookup_delete_eq. split_and!; [done|lia|done].
Qed.

End Theorems.

(** ** Witnesses *)
#[local] Existing Instance quic_go.
#[local] Program Instance amd64 : FloatToInt := {| out_of_range _ := MinInt64 |}.
Next Obligation. unfold MinInt64, MaxInt64. lia. Qed.
#[local] Instance canonical_lost : MapRange Z Z := canonical_range Z Z.

Definition sample_rtt : RTTStats := mkRTTStats (40 * Millisecond) (35 * Millisecond) (30 * Millisecond).

(** Sixty packets: fifty acknowledged and ten lost within one second. *)
Definition sample_event (t : Z) : call :=
  CallOnCongestionEventEx t (seqZ 0 50) (seqZ 50 10) sample_rtt.

Definition sender : BrutalSender := NewBrutalSender 1250000 false false.

Definition final (cs : list call) : BrutalSender :=
  match steps cs sender with Ret b => b | Panic => sender end.

Lemma pacing_rate_witness :
  4 * 2 ^ 48 * getBandwidth (final [sample_event Second]) <= (5 * 2 ^ 48 + 1) * 1250000
  ∧ getBandwidth (final [sample_event Second]) = 1500000.
Proof.
  split; [|vm_compute; reflexivity].
  apply (pacing_rate 1250000 false false [sample_event Second] (2 * Second) [1] [] sample_rtt);
    [vm_compute; repeat split; discriminate | vm_compute; reflexivity | vm_compute; reflexivity
    | vm_compute; split; reflexivity].
Defined.

Lemma congestion_window_bounded_witness :
  let rtt := mkRTTStats (20 * Second) (35 * Millisecond) (30 * Millisecond) in
  32 * 1280 <= GetCongestionWindow rtt (final []) <= 10000 * 1280
  ∧ 2 ^ 48 * Second * GetCongestionWindow rtt (final []) <= (2 ^ 48 + 1) * (2 * 1250000 * (70 * Millisecond)).
Proof.
  intros rtt.
  destruct (congestion_window_bounded rtt (final [])) as [Hc Hb]; [vm_compute; split; congruence|].
  split; [exact Hc|].
  apply (or_ind (A := GetCongestionWindow rtt (final []) <= cwndFloorPackets * 1280)
                (B := 2 ^ 48 * Second * GetCongestionWindow rtt (final [])
                      <= (2 ^ 48 + 1) * (2 * 1250000 * (70 * Millisecond)))).
  - intros Hf. exfalso. revert Hf. vm_compute. intros Hf. by destruct Hf.
  - intros Hw. exact Hw.
  - apply Hb; vm_compute; repeat split; congruence.
Defined.

(** Nine samples, 100 ms apart, on a path change from a shorter path. *)
Definition path_calls : list call :=
  (λ k, CallOnCongestionEventEx (Second + k * (100 * Millisecond)) [k] []
          (mkRTTStats (90 * Millisecond) (10 * Millisecond) ((90 - k) * Millisecond))) <$> seqZ 0 9.

Lemma rebaseline_after_path_change_witness :
  is_min (minRTT sample_rtt (drainPending (final (CallOnPathChange :: path_calls)))) (samples path_calls)
  ∧ minRTT sample_rtt (drainPending (final (CallOnPathChange :: path_calls))) = 82 * Millisecond.
Proof.
  split; [|vm_compute; reflexivity].
  apply (rebaseline_after_path_change path_calls sender).
  - repeat constructor.
  - assert (samples path_calls = (λ k, (Second + k * (100 * Millisecond), (90 - k) * Millisecond)) <$> seqZ 0 9)
      as -> by (vm_compute; reflexivity).
    unfold timely, Second, Millisecond, MaxInt64. cbn -[Z.add Z.mul Z.sub].
    split; [|split; [|vm_compute; discriminate]].
    + repeat (apply SSorted_cons || apply SSorted_nil || apply List.Forall_cons || apply List.Forall_nil); cbn [fst]; lia.
    + repeat (apply List.Forall_cons || apply List.Forall_nil); cbn [fst]; lia.
  - vm_compute. reflexivity.
  - exists (Second + 7 * (100 * Millisecond), 83 * Millisecond), (Second, 90 * Millisecond).
    split; [vm_compute; by left|]. split; [vm_compute; reflexivity | vm_compute; discriminate].
Defined.
