(* ===== verification/PortUnion.v ===== *)
(** * Port unions (extras/utils/portunion.go)

    Sets of UDP ports written as comma-separated ranges, as port hopping and
    the sniffer use them. *)
From S2P Require Import GoStd Prelude.

Record PortRange := mkPortRange { Start : Z; End : Z (* uint16 *) }.

#[export] Instance PortRange_eq_dec : EqDecision PortRange.
Proof. solve_decision. Defined.

Definition PortUnion : Type := list PortRange.

(** The order [sort.Slice] is given: by start, then by end. *)
Definition range_le (a b : PortRange) : Prop :=
  Start a < Start b ∨ (Start a = Start b ∧ End a <= End b).

#[export] Instance range_le_dec : RelDecision range_le.
Proof. intros a b. unfold range_le. apply _. Defined.

#[export] Instance range_le_total : Total range_le.
Proof. intros a b. unfold range_le. lia. Qed.

#[export] Instance range_le_trans : Transitive range_le.
Proof. intros a b c. unfold range_le. lia. Qed.

(** One turn of the merging loop; the list built so far is kept last range first. *)
Definition merge_range (normalized : list PortRange) (current : PortRange) : list PortRange :=
  match normalized with
  | last :: rest =>
      if Start current <=? End last + 1
      then (if End last <? End current then mkPortRange (Start last) (End current) else last) :: rest
      else current :: last :: rest
  | [] => [current]
  end.

Definition Normalize (u : PortUnion) : PortUnion :=
  match merge_sort range_le u with
  | [] => []
  | r :: rs => rev (foldl merge_range [r] rs)
  end.

(** One field between commas: a range or a single port. *)
Definition parse_port_field (portStr : string) : option PortRange :=
  if Strings.ContainsRune portStr "-" then
    match Strings.Split portStr "-" with
    | [a; b] =>
        let '(start, err1) := Strconv.ParseUint a 16 in
        if err1 then None else
        let '(end_, err2) := Strconv.ParseUint b 16 in
        if err2 then None else
        let '(start, end_) := if end_ <? start then (end_, start) else (start, end_) in
        Some (mkPortRange (u16 start) (u16 end_))
    | _ => None
    end
  else
    let '(port, err) := Strconv.ParseUint portStr 16 in
    if err then None else Some (mkPortRange (u16 port) (u16 port)).

Definition ParsePortUnion (s : string) : option PortUnion :=
  if decide (s = "all"%string ∨ s = "*"%string) then Some [mkPortRange 0 65535] else
  result ← mapM parse_port_field (Strings.Split s ",");
  Some (Normalize result).

Definition range_ports (r : PortRange) : list Z := seqZ (Start r) (End r - Start r + 1).

Definition Ports (u : PortUnion) : list Z := u ≫= range_ports.

Definition Contains (u : PortUnion) (port : Z) : bool :=
  existsb (λ r, (Start r <=? port) && (port <=? End r)) u.

(** ** Lemmas *)
Definition in_range (r : PortRange) (p : Z) : Prop := Start r <= p <= End r.

Definition range_ok (r : PortRange) : Prop := 0 <= Start r <= End r ∧ End r < 65536.

(** Sorted, with at least one port between two ranges. *)
Definition separated (a b : PortRange) : Prop := End a + 1 < Start b.

Lemma Contains_spec u p : Contains u p = true ↔ ∃ r, r ∈ u ∧ in_range r p.
Proof.
  unfold Contains, in_range. rewrite existsb_exists. split.
  - intros (r & Hr & [H1%Z.leb_le H2%Z.leb_le]%andb_true_iff). exists r. by rewrite list_elem_of_In.
  - intros (r & Hr & H1 & H2). exists r. rewrite <-list_elem_of_In. split; [done|].
    apply andb_true_iff. by rewrite !Z.leb_le.
Qed.

Lemma elem_of_range_ports r p : p ∈ range_ports r ↔ in_range r p.
Proof. unfold range_ports, in_range. rewrite elem_of_seqZ. lia. Qed.

Lemma elem_of_Ports u p : p ∈ Ports u ↔ Contains u p = true.
Proof.
  rewrite Contains_spec. unfold Ports. rewrite list_elem_of_bind.
  setoid_rewrite elem_of_range_ports. naive_solver.
Qed.

Lemma Contains_perm u v p : u ≡ₚ v → Contains u p = Contains v p.
Proof.
  intros Hp. apply eq_true_iff_eq. rewrite !Contains_spec. by setoid_rewrite Hp.
Qed.

(** What the merging loop keeps: the ranges so far, last first, are apart from
    each other, and no range still to come starts before the last one. *)
Lemma merge_range_step acc r last rest :
  acc = last :: rest → Start last <= Start r → Start r <= End r → Start last <= End last →
  ∃ last' rest', merge_range acc r = last' :: rest' ∧ Start last' <= Start r
    ∧ (StronglySorted (flip separated) acc → Forall range_ok acc → range_ok r →
       StronglySorted (flip separated) (last' :: rest') ∧ Forall range_ok (last' :: rest'))
    ∧ (∀ p, Contains (last' :: rest') p = Contains (r :: acc) p).
Proof.
  intros -> Hs Hr Hl. unfold merge_range.
  destruct (Z.leb_spec (Start r) (End last + 1)).
  - eexists _, rest. split; [done|].
    set (last' := if End last <? End r then mkPortRange (Start last) (End r) else last).
    assert (Start last' = Start last ∧ End last' = Z.max (End last) (End r)) as [E1 E2].
    { unfold last'. destruct (Z.ltb_spec (End last) (End r)); cbn; lia. }
    split; [lia|]. split.
    + intros [Hss Hsep]%StronglySorted_inv [Hok Hoks]%Forall_cons Hokr. split.
      * apply SSorted_cons; [done|]. eapply Forall_impl; [exact Hsep|].
        intros x. unfold flip, separated. rewrite E1. done.
      * apply Forall_cons. split; [|done]. unfold range_ok in *. lia.
    + intros p. cbn [Contains existsb]. rewrite orb_assoc. f_equal.
      rewrite E1, E2. apply eq_true_iff_eq.
      rewrite orb_true_iff, !andb_true_iff, !Z.leb_le. lia.
  - exists r, (last :: rest). split; [done|]. split; [lia|]. split.
    + intros Hss Hoks Hokr. split; [|by apply Forall_cons].
      apply SSorted_cons; [done|]. apply StronglySorted_inv in Hss as [_ Hsep].
      apply Forall_cons in Hoks as [Hok Hoks]. apply Forall_cons. split; [unfold flip, separated; lia|].
      rewrite list.Forall_forall in Hsep, Hoks |- *. intros x Hx.
      specialize (Hsep x Hx). specialize (Hoks x Hx). unfold flip, separated, range_ok in *. lia.
    + done.
Qed.

Lemma merge_loop rs : ∀ acc last rest,
  acc = last :: rest → StronglySorted range_le (last :: rs) ∨ (∀ r, r ∈ rs → Start last <= Start r) ∧ StronglySorted range_le rs →
  Forall range_ok acc → Forall range_ok rs → StronglySorted (flip separated) acc →
  StronglySorted (flip separated) (foldl merge_range acc rs)
  ∧ Forall range_ok (foldl merge_range acc rs)
  ∧ foldl merge_range acc rs ≠ []
  ∧ ∀ p, Contains (foldl merge_range acc rs) p = Contains (acc ++ rs) p.
Proof.
  induction rs as [|r rs IH]; intros acc last rest Hacc Hord Hoka Hokr Hss.
  { subst. cbn [foldl]. rewrite app_nil_r. done. }
  assert ((∀ x, x ∈ r :: rs → Start last <= Start x) ∧ StronglySorted range_le (r :: rs)) as [Hle Hsort].
  { destruct Hord as [Hord|?]; [|done]. apply StronglySorted_inv in Hord as [Hs Hf]. split; [|done].
    rewrite list.Forall_forall in Hf. intros x Hx. specialize (Hf x Hx). unfold range_le in Hf. lia. }
  apply Forall_cons in Hokr as [Hr Hokr].
  assert (range_ok last) as Hlast by (subst; by apply Forall_cons in Hoka as [? _]).
  destruct (merge_range_step acc r last rest Hacc) as (l' & rest' & Hm & Hs' & Hkeep & Hc);
    [apply Hle; by left | unfold range_ok in Hr; lia | unfold range_ok in Hlast; lia |].
  destruct (Hkeep Hss Hoka Hr) as [Hss' Hoka'].
  cbn [foldl]. rewrite Hm.
  apply StronglySorted_inv in Hsort as [Hsort Hf]. rewrite list.Forall_forall in Hf.
  destruct (IH (l' :: rest') l' rest' eq_refl) as (H1 & H2 & H3 & H4); try done.
  { right. split; [|done]. intros x Hx. specialize (Hf x Hx). unfold range_le in Hf. lia. }
  split; [done|]. split; [done|]. split; [done|]. intros p. rewrite H4.
  unfold Contains in *. rewrite !existsb_app, (Hc p). cbn [existsb].
  destruct (existsb _ acc), (existsb _ rs), ((Start r <=? p) && (p <=? End r)); done.
Qed.

Lemma StronglySorted_rev {A} (R : A → A → Prop) l :
  StronglySorted (flip R) l → StronglySorted R (rev l).
Proof.
  induction 1 as [|x l Hs IH Hf]; simpl; [constructor|].
  apply StronglySorted_app. split; [|split; [done | repeat constructor]].
  intros y z Hy Hz. apply list_elem_of_singleton in Hz as ->.
  rewrite list.Forall_forall in Hf. apply Hf. by rewrite list_elem_of_In, in_rev, <-list_elem_of_In.
Qed.

Lemma Contains_rev u p : Contains (rev u) p = Contains u p.
Proof. apply Contains_perm. symmetry. apply Permutation_rev. Qed.

(** Normalizing keeps the ports and puts the ranges in order, apart from each other. *)
Lemma Normalize_spec u :
  Forall range_ok u →
  StronglySorted separated (Normalize u) ∧ Forall range_ok (Normalize u)
  ∧ (u ≠ [] → Normalize u ≠ []) ∧ ∀ p, Contains (Normalize u) p = Contains u p.
Proof.
  intros Hok. unfold Normalize.
  pose proof (merge_sort_Permutation range_le u) as Hp.
  pose proof (StronglySorted_merge_sort range_le u) as Hs.
  assert (Forall range_ok (merge_sort range_le u)) as Hoks by (by rewrite Hp).
  destruct (merge_sort range_le u) as [|r rs].
  - apply Permutation_nil in Hp as ->. split; [constructor|]. done.
  - apply Forall_cons in Hoks as [Hr Hrs].
    destruct (merge_loop rs [r] r [] eq_refl) as (H1 & H2 & H3 & H4);
      [by left | by apply Forall_singleton | done | repeat constructor |].
    split; [by apply StronglySorted_rev|].
    split; [rewrite <-Permutation_rev; done|].
    split; [intros _ E; apply H3; apply (f_equal (@rev PortRange)) in E; by rewrite rev_involutive in E|].
    intros p. rewrite Contains_rev, H4. by apply Contains_perm.
Qed.

Lemma NoDup_Ports u : StronglySorted separated u → Forall range_ok u → NoDup (Ports u).
Proof.
  induction 1 as [|r u Hs IH Hf]; intros Hok; [constructor|].
  apply Forall_cons in Hok as [Hr Hok]. change (Ports (r :: u)) with (range_ports r ++ Ports u).
  apply list.NoDup_app. split; [apply NoDup_seqZ|]. split; [|by apply IH].
  intros p Hp%elem_of_range_ports Hin. apply elem_of_Ports, Contains_spec in Hin as (r' & Hr' & Hp').
  rewrite list.Forall_forall in Hf. specialize (Hf r' Hr'). unfold separated, in_range in *. lia.
Qed.

Lemma parse_port_field_ok f r : parse_port_field f = Some r → range_ok r.
Proof.
  unfold parse_port_field. destruct (Strings.ContainsRune f "-").
  - destruct (Strings.Split f "-") as [|a [|b [|? ?]]]; try done.
    pose proof (Strconv.ParseUint_bound a 16 ltac:(lia)) as Ha.
    pose proof (Strconv.ParseUint_bound b 16 ltac:(lia)) as Hb.
    destruct (Strconv.ParseUint a 16) as [x ex]. destruct (Strconv.ParseUint b 16) as [y ey].
    cbn [fst] in *. change (2 ^ 16) with 65536 in *.
    destruct ex; [done|]. destruct ey; [done|].
    destruct (Z.ltb_spec y x); intros [= <-]; unfold range_ok; cbn [Start End];
      rewrite !wrapU_small by (change (2 ^ 16) with 65536; lia); lia.
  - pose proof (Strconv.ParseUint_bound f 16 ltac:(lia)) as Hf.
    destruct (Strconv.ParseUint f 16) as [x []]; [done|]. cbn [fst] in Hf.
    change (2 ^ 16) with 65536 in *. intros [= <-]. unfold range_ok. cbn [Start End].
    rewrite wrapU_small by (change (2 ^ 16) with 65536; lia). lia.
Qed.

(** A union that parses is normalized: its ranges are in order, non-empty
    and apart from each other; it contains exactly the ports its fields name,
    and Ports lists each of them once, in ascending order. *)
Theorem ParsePortUnion_normalized s u :
  ParsePortUnion s = Some u → s ≠ "all"%string → s ≠ "*"%string →
  ∃ rs, Forall2 (λ f r, parse_port_field f = Some r) (Strings.Split s ",") rs
  ∧ (∀ p, Contains u p = true ↔ ∃ r, r ∈ rs ∧ in_range r p)
  ∧ StronglySorted separated u ∧ Forall range_ok u ∧ u ≠ []
  ∧ NoDup (Ports u) ∧ StronglySorted Z.le (Ports u) ∧ ∀ p, p ∈ Ports u ↔ Contains u p = true.
Proof.
  unfold ParsePortUnion. intros Hs Hall Hstar. rewrite decide_False in Hs by naive_solver.
  destruct (mapM parse_port_field (Strings.Split s ",")) as [rs|] eqn:Hm; [|done].
  injection Hs as <-. apply mapM_Some in Hm.
  assert (Forall range_ok rs) as Hok.
  { eapply Forall2_Forall_r; [exact Hm|]. apply Forall_true. intros f r Hf. by eapply parse_port_field_ok. }
  assert (rs ≠ []) as Hne.
  { intros ->. apply Forall2_nil_inv_r in Hm. destruct s as [|c s]; [done|]. simpl in Hm.
    destruct (decide _); [done|]. by destruct (Strings.Split s ","). }
  destruct (Normalize_spec rs Hok) as (N1 & N2 & N3 & N4).
  exists rs. split; [done|]. split; [intros p; by rewrite N4, Contains_spec|].
  split; [done|]. split; [done|]. split; [by apply N3|].
  split; [by apply NoDup_Ports|]. split; [|apply elem_of_Ports].
  revert N1 N2. generalize (Normalize rs). clear. intros u. induction 1 as [|r u Hs IH Hf]; intros Hok; [constructor|].
  apply Forall_cons in Hok as [Hr Hok]. change (Ports (r :: u)) with (range_ports r ++ Ports u).
  apply StronglySorted_app. split; [|split; [|by apply IH]].
  - intros p q Hp%elem_of_range_ports Hq%elem_of_Ports.
    apply Contains_spec in Hq as (r' & Hr' & Hq).
    rewrite list.Forall_forall in Hf. specialize (Hf r' Hr'). unfold separated, in_range in *. lia.
  - unfold range_ports, seqZ. generalize (Start r) as m. intros m.
    generalize (Z.to_nat (End r - m + 1)) as k, 0%nat as j. clear. intros k.
    induction k as [|k IHk]; intros j; simpl; [constructor|].
    constructor; [apply IHk|]. apply list.Forall_forall. intros x (i & -> & Hi)%list_elem_of_fmap.
    apply elem_of_seq in Hi. lia.
Qed.

(** Parsing "8000-8002,443,8003-8010,9000-8900" and listing it. *)
Lemma ParsePortUnion_normalized_witness :
  ParsePortUnion "8000-8002,443,8003-8005,9001-9000" =
    Some [mkPortRange 443 443; mkPortRange 8000 8005; mkPortRange 9000 9001]
  ∧ NoDup (Ports [mkPortRange 443 443; mkPortRange 8000 8005; mkPortRange 9000 9001]).
Proof.
  split; [vm_compute; reflexivity|].
  destruct (ParsePortUnion_normalized "8000-8002,443,8003-8005,9001-9000"
    [mkPortRange 443 443; mkPortRange 8000 8005; mkPortRange 9000 9001])
    as (rs & _ & _ & _ & _ & _ & Hnd & _); [vm_compute; reflexivity | discriminate | discriminate | exact Hnd].
Defined.
