(* ===== verification/Obfs.v ===== *)
(** * Packet obfuscation (extras/obfs, extras/crypto/kdf.go)

    Key derivation with its cache, the counters of refused packets, Salamander
    v1 and v2 with the replay set, and the packet connection around them.  The
    primitives are interfaces: BLAKE2b-256, SHA-256, Argon2id and HKDF are
    functions, ChaCha20-Poly1305 is a pair of functions that open what they
    seal.  Instants are nanoseconds since the Unix epoch. *)
From S2P Require Import GoStd Prelude.

(** ** Key derivation (extras/crypto/kdf.go) *)
Definition CtxSalamanderV2Root : string := "chameleon/obfs/salamander-v2/root".
Definition CtxSalamanderV2C2S : string := "chameleon/obfs/salamander-v2/c2s".
Definition CtxSalamanderV2S2C : string := "chameleon/obfs/salamander-v2/s2c".

Definition argon2Time : Z := 3.
Definition argon2MemoryK : Z := 16 * 1024.
Definition argon2Threads : Z := 1.
Definition rootKeyLen : Z := 32.
Definition MinPasswordLen : Z := 4.
Definition MinSecretLen : Z := 32.

Inductive obfs_error : Type :=
| ErrPasswordTooShort
| ErrPasswordRequired
| ErrSecretTooShort
| ErrPSKTooShort
| ErrExpand.

Class Primitives := {
  sha256 : bytes → bytes;
  argon2_IDKey : bytes → bytes → Z → Z → Z → Z → bytes;
  hkdf_Expand : bytes → string → Z → option bytes;
  blake2b_Sum256 : bytes → bytes;
  (** [chacha20poly1305]: key, nonce, text. *)
  aead_Seal : bytes → bytes → bytes → bytes;
  aead_Open : bytes → bytes → bytes → option bytes;
  sha256_length b : length (sha256 b) = 32%nat;
  blake2b_length b : length (blake2b_Sum256 b) = 32%nat;
  aead_Seal_length k n p : length (aead_Seal k n p) = (length p + 16)%nat;
  aead_Open_Seal k n p : aead_Open k n (aead_Seal k n p) = Some p;
}.

Definition string_bytes (s : string) : bytes := String.list_byte_of_string s.

Section Kdf.
Context `{Primitives}.

(** The cache of the process, [rootKeyCache], maps a password hash and a realm
    to the root key. *)
Definition stretch (password : bytes) (realm : string) : bytes :=
  let saltInput := sha256 (string_bytes CtxSalamanderV2Root ++ [Byte.x00] ++ string_bytes realm) in
  argon2_IDKey password (take 16 saltInput) argon2Time argon2MemoryK argon2Threads rootKeyLen.

Definition StretchPassword (password : bytes) (realm : string) (cache : gmap (bytes * string) bytes)
    : gmap (bytes * string) bytes * result obfs_error bytes :=
  if len password <? MinPasswordLen then (cache, Err ErrPasswordTooShort) else
  let ck := (sha256 password, realm) in
  match cache !! ck with
  | Some rk => (cache, Ok rk)
  | None => let rk := stretch password realm in (<[ck := rk]> cache, Ok rk)
  end.

Definition DeriveSubkey (root : bytes) (ctx : string) (length : Z) : result obfs_error bytes :=
  match hkdf_Expand root ctx length with Some k => Ok k | None => Err ErrExpand end.

Definition DeriveFromSecret (secret : bytes) (ctx : string) (length : Z) : result obfs_error bytes :=
  if len secret <? MinSecretLen then Err ErrSecretTooShort
  else match hkdf_Expand secret ctx length with Some k => Ok k | None => Err ErrExpand end.
End Kdf.

(** ** Counters (extras/obfs/stats.go) *)
Record Stats := mkStats {
  Dropped : Z;      (* uint64 *)
  Malformed : Z;
  AEADFailed : Z;
  ClockSkew : Z;
  Replayed : Z;
  LastSkewSeconds : Z;   (* int64 *)
}.

Definition zero_stats : Stats := mkStats 0 0 0 0 0 0.

Definition count_dropped (s : Stats) : Stats :=
  mkStats (u64 (Dropped s + 1)) (Malformed s) (AEADFailed s) (ClockSkew s) (Replayed s) (LastSkewSeconds s).
Definition count_malformed (s : Stats) : Stats :=
  mkStats (Dropped s) (u64 (Malformed s + 1)) (AEADFailed s) (ClockSkew s) (Replayed s) (LastSkewSeconds s).
Definition count_aead (s : Stats) : Stats :=
  mkStats (Dropped s) (Malformed s) (u64 (AEADFailed s + 1)) (ClockSkew s) (Replayed s) (LastSkewSeconds s).
Definition count_replayed (s : Stats) : Stats :=
  mkStats (Dropped s) (Malformed s) (AEADFailed s) (ClockSkew s) (u64 (Replayed s + 1)) (LastSkewSeconds s).

Definition recordSkew (peerUnix localUnix : Z) (s : Stats) : Stats :=
  mkStats (Dropped s) (Malformed s) (AEADFailed s) (u64 (ClockSkew s + 1)) (Replayed s)
    (i64 (peerUnix - localUnix)).

(** ** Salamander v1 (extras/obfs/salamander.go) *)
Definition smPSKMinLen : Z := 4.
Definition smSaltLen : Z := 8.
Definition smKeyLen : Z := 32.


(** [out[i] = in[i] ^ key[i % smKeyLen]]. *)
Definition xor_key (key : bytes) (data : bytes) : bytes :=
  imap (λ i c, xor_byte c (key !!! Z.to_nat (Z.of_nat i mod smKeyLen))) data.

Section Salamander.
Context `{Primitives}.

Definition newSalamanderObfuscator (psk : bytes) : result obfs_error bytes :=
  if len psk <? smPSKMinLen then Err ErrPSKTooShort else Ok psk.

(** The hash of the key and a salt. *)
Definition keyLocked (psk salt : bytes) : bytes := blake2b_Sum256 (psk ++ take (Z.to_nat smSaltLen) salt).

(** What is written into a buffer of [cap] bytes; nothing when it does not fit.
    [salt] is what the random source yields. *)
Definition Obfuscate (psk salt data : bytes) (cap : Z) : option bytes :=
  if cap <? len data + smSaltLen then None else Some (salt ++ xor_key (keyLocked psk salt) data).

Definition Deobfuscate (psk data : bytes) (cap : Z) : option bytes :=
  let outLen := len data - smSaltLen in
  if (outLen <=? 0) || (cap <? outLen) then None else
  Some (xor_key (keyLocked psk (take (Z.to_nat smSaltLen) data)) (drop (Z.to_nat smSaltLen) data)).

End Salamander.

(** ** Salamander v2 (extras/obfs/salamander_v2.go) *)
Definition smV2SaltLen : Z := 12.
Definition smV2TSLen : Z := 4.
Definition smV2TagLen : Z := 16.
Definition smV2KeyLen : Z := 32.
Definition smV2Overhead : Z := smV2SaltLen + smV2TSLen + smV2TagLen.
Definition smV2MinLen : Z := smV2Overhead + 1.
Definition smV2MaxSkew : Z := 30 * Second.
Definition replayPeriod : Z := smV2MaxSkew.

Inductive Role : Type := RoleClient | RoleServer.

(** The second of an instant, [now.Unix()]. *)
Definition Unix (now : Z) : Z := now / Second.

Record replaySet := mkReplaySet {
  buckets : list (gset bytes);   (* four of them *)
  idx : nat;
  lastRotate : option Z;         (* None is the zero time *)
}.

Definition newReplaySet : replaySet :=
  {| buckets := replicate 4 ∅; idx := 0; lastRotate := None |}.

(** The rotating loop, with fuel for one turn per period elapsed. *)
Fixpoint rotate (fuel : nat) (now last : Z) (bs : list (gset bytes)) (i : nat)
    : Z * list (gset bytes) * nat :=
  match fuel with
  | O => (last, bs, i)
  | S fuel =>
      if time_Sub now last <? replayPeriod then (last, bs, i)
      else let i := Nat.modulo (i + 1) (length bs) in
           rotate fuel now (last + replayPeriod) (<[i := ∅]> bs) i
  end.

Definition rotations (now last : Z) : nat := S (Z.to_nat ((now - last) / replayPeriod)).

Definition seenOrAdd (salt : bytes) (now : Z) (r : replaySet) : replaySet * bool :=
  let last := default now (lastRotate r) in
  let '(last, bs, i) := rotate (rotations now last) now last (buckets r) (idx r) in
  if existsb (λ b, bool_decide (salt ∈ b)) bs
  then (mkReplaySet bs i (Some last), true)
  else (mkReplaySet (alter (λ b, {[salt]} ∪ b) i bs) i (Some last), false).

Record salamanderV2 := mkSalamanderV2 {
  sendKey : bytes;
  recvKey : bytes;
  bootTime : Z;
  replay : replaySet;
  stats : Stats;
}.

Section SalamanderV2.
Context `{Primitives}.

(** [NewSalamanderV2] with the clock reading [now] after the options ran. *)
Definition NewSalamanderV2 (password : bytes) (realm : string) (role : Role) (now : Z)
    (cache : gmap (bytes * string) bytes)
    : gmap (bytes * string) bytes * result obfs_error salamanderV2 :=
  if len password =? 0 then (cache, Err ErrPasswordRequired) else
  let '(cache, root) := StretchPassword password realm cache in
  (cache,
   root ← root;
   c2s ← DeriveSubkey root CtxSalamanderV2C2S smV2KeyLen;
   s2c ← DeriveSubkey root CtxSalamanderV2S2C smV2KeyLen;
   let '(sk, rk) := match role with RoleServer => (s2c, c2s) | RoleClient => (c2s, s2c) end in
   Ok {| sendKey := sk; recvKey := rk; bootTime := now; replay := newReplaySet; stats := zero_stats |}).

(** [salt] is what [rand.Read] yields. *)
Definition V2_Obfuscate (o : salamanderV2) (salt data : bytes) (now cap : Z) : option bytes :=
  if (len data =? 0) || (cap <? len data + smV2Overhead) then None else
  Some (salt ++ aead_Seal (sendKey o) salt (data ++ be_bytes 4 (u32 (Unix now)))).

Definition timestampInWindow (ts now : Z) (o : salamanderV2) : bool :=
  let skew := quot smV2MaxSkew Second in
  if Unix now + skew <? ts then false else
  let lower := Unix now - skew in
  let lower := if time_Sub now (bootTime o) <? smV2MaxSkew
               then if lower <? Unix (bootTime o) then Unix (bootTime o) else lower
               else lower in
  lower <=? ts.

Definition set_stats (s : Stats) (o : salamanderV2) : salamanderV2 :=
  mkSalamanderV2 (sendKey o) (recvKey o) (bootTime o) (replay o) s.
Definition set_replay (r : replaySet) (o : salamanderV2) : salamanderV2 :=
  mkSalamanderV2 (sendKey o) (recvKey o) (bootTime o) r (stats o).

(** The payload copied into a buffer of [cap] bytes, or nothing. *)
Definition V2_Deobfuscate (data : bytes) (now cap : Z) (o : salamanderV2)
    : salamanderV2 * option bytes :=
  if len data <? smV2MinLen then (set_stats (count_malformed (stats o)) o, None) else
  let salt := take (Z.to_nat smV2SaltLen) data in
  match aead_Open (recvKey o) salt (drop (Z.to_nat smV2SaltLen) data) with
  | None => (set_stats (count_aead (stats o)) o, None)
  | Some plaintext =>
      if len plaintext <? smV2TSLen + 1 then (set_stats (count_malformed (stats o)) o, None) else
      let n := (length plaintext - Z.to_nat smV2TSLen)%nat in
      let payload := take n plaintext in
      let ts := be_Z (drop n plaintext) in
      if negb (timestampInWindow ts now o)
      then (set_stats (recordSkew ts (Unix now) (stats o)) o, None) else
      let '(r, seen) := seenOrAdd salt now (replay o) in
      let o := set_replay r o in
      if seen then (set_stats (count_replayed (stats o)) o, None) else
      if cap <? len payload then (set_stats (count_malformed (stats o)) o, None)
      else (o, Some payload)
  end.

Definition WireOverhead : Z := smV2Overhead.

End SalamanderV2.

(** ** The packet connection (extras/obfs/conn.go)

    An obfuscator is a state with the two operations of the Go interface and
    the counters the connection adds to. *)
Class Obfuscator (St : Type) := {
  ob_Obfuscate : St → bytes → bytes → Z → Z → option bytes;
  ob_Deobfuscate : bytes → Z → Z → St → St * option bytes;
  ob_count_dropped : St → St;
}.

Definition udpBufferSize : Z := 2048.

(** One result of the inner connection's ReadFrom: the datagram, its sender,
    whether there was an error, and the clock at that moment. *)
Record datagram := mkDatagram { dg_data : bytes; dg_addr : string; dg_err : bool; dg_now : Z }.

Section Conn.
Context `{Obfuscator St}.

(** ReadFrom into a buffer of [cap] bytes: the payload, the sender and the
    error flag, once there is something to return; the datagrams that are
    refused on the way are counted. *)
Fixpoint ReadFrom (cap : Z) (incoming : list datagram) (s : St)
    : St * option (bytes * string * bool) * list datagram :=
  match incoming with
  | [] => (s, None, [])
  | d :: incoming =>
      let buf := take (Z.to_nat udpBufferSize) (dg_data d) in
      if len buf <=? 0 then (s, Some ([], dg_addr d, dg_err d), incoming) else
      let '(s, out) := ob_Deobfuscate buf (dg_now d) cap s in
      match out with
      | Some payload => (s, Some (payload, dg_addr d, dg_err d), incoming)
      | None => if dg_err d then (s, Some ([], dg_addr d, dg_err d), incoming)
                else ReadFrom cap incoming (ob_count_dropped s)
      end
  end.

(** WriteTo: the datagram handed to the inner connection and the count
    returned when that does not fail. *)
Definition WriteTo (salt data : bytes) (now : Z) (s : St) : bytes * Z :=
  (default [] (ob_Obfuscate s salt data now udpBufferSize), len data).

End Conn.

#[export] Instance salamanderV2_obfuscator `{Primitives} : Obfuscator salamanderV2 := {|
  ob_Obfuscate := V2_Obfuscate;
  ob_Deobfuscate := V2_Deobfuscate;
  ob_count_dropped o := set_stats (count_dropped (stats o)) o;
|}.

(** Salamander v1 has no clock and no counters of its own: its state is the
    pre-shared key, and the connection's own counters. *)
#[export] Instance salamander_obfuscator `{Primitives} : Obfuscator (bytes * Stats) := {|
  ob_Obfuscate s salt data _ cap := Obfuscate s.1 salt data cap;
  ob_Deobfuscate data _ cap s := (s, Deobfuscate s.1 data cap);
  ob_count_dropped s := (s.1, count_dropped s.2);
|}.

(** ** Lemmas: the stream cipher of v1 *)


Lemma xor_key_length key data : length (xor_key key data) = length data.
Proof. apply length_imap. Qed.

Lemma xor_key_involutive key data : xor_key key (xor_key key data) = data.
Proof.
  unfold xor_key. apply list_eq. intros i. rewrite !list_lookup_imap.
  destruct (data !! i) as [c|]; simpl; [|done]. by rewrite xor_byte_involutive.
Qed.

Lemma Deobfuscate_Obfuscate `{Primitives} psk salt data cap wire cap' :
  length salt = 8%nat → 0 < len data <= cap' →
  Obfuscate psk salt data cap = Some wire → Deobfuscate psk wire cap' = Some data.
Proof.
  unfold Obfuscate, Deobfuscate, len, smSaltLen. intros Hs Hd.
  destruct (Z.ltb_spec cap (Z.of_nat (length data) + 8)); [done|]. intros [= <-].
  rewrite length_app, xor_key_length, Hs.
  destruct (Z.leb_spec (Z.of_nat (8 + length data) - 8) 0); [lia|].
  destruct (Z.ltb_spec cap' (Z.of_nat (8 + length data) - 8)); [lia|]. cbn [orb].
  change (Z.to_nat 8) with 8%nat. rewrite <-Hs, take_app_length, drop_app_length.
  assert (keyLocked psk salt = keyLocked psk (take 8 salt)) as E
    by (unfold keyLocked; change (Z.to_nat smSaltLen) with 8%nat; by rewrite take_take).
  unfold keyLocked. change (Z.to_nat smSaltLen) with 8%nat.
  by rewrite xor_key_involutive.
Qed.

(** ** Lemmas: the replay set *)

(** The buckets from the current one back to the oldest. *)
Definition aged (bs : list (gset bytes)) (i : nat) : list (gset bytes) :=
  match bs, i with
  | [b0; b1; b2; b3], 0%nat => [b0; b3; b2; b1]
  | [b0; b1; b2; b3], 1%nat => [b1; b0; b3; b2]
  | [b0; b1; b2; b3], 2%nat => [b2; b1; b0; b3]
  | [b0; b1; b2; b3], 3%nat => [b3; b2; b1; b0]
  | _, _ => []
  end.

Definition shaped (bs : list (gset bytes)) (i : nat) : Prop := length bs = 4%nat ∧ (i < 4)%nat.

Ltac buckets_cases Hs :=
  let Hl := fresh in let Hi := fresh in
  destruct Hs as [Hl Hi];
  match type of Hl with length ?bs = _ =>
    destruct bs as [|? [|? [|? [|? [|? ?]]]]]; try discriminate Hl end;
  match type of Hi with (?i < _)%nat =>
    destruct i as [|[|[|[|i]]]]; [| | | |exfalso; lia] end.

Lemma aged_turn bs i : shaped bs i →
  let i' := Nat.modulo (i + 1) (length bs) in
  shaped (<[i' := ∅]> bs) i' ∧ aged (<[i' := ∅]> bs) i' = ∅ :: take 3 (aged bs i).
Proof. intros Hs. buckets_cases Hs; cbn; repeat split; lia. Qed.

Lemma aged_add bs i salt : shaped bs i →
  shaped (alter (λ b, {[salt]} ∪ b) i bs) i ∧
  ∃ b rest, aged bs i = b :: rest ∧ aged (alter (λ b, {[salt]} ∪ b) i bs) i = ({[salt]} ∪ b) :: rest.
Proof. intros Hs. buckets_cases Hs; cbn; (split; [split; [done|lia]|]; eauto). Qed.

Lemma aged_seen bs i (salt : bytes) : shaped bs i →
  existsb (λ b, bool_decide (salt ∈ b)) bs = true ↔ ∃ b, b ∈ aged bs i ∧ salt ∈ b.
Proof.
  intros Hs. rewrite existsb_exists. setoid_rewrite <-list_elem_of_In. setoid_rewrite bool_decide_eq_true.
  buckets_cases Hs; cbn [aged]; split; intros (b & Hb & ?); exists b; (split; [|done]);
    rewrite !elem_of_cons in *; tauto.
Qed.

(** [h] is what was recorded, and when: everything recorded in the current
    period or the three before it is still there. *)
Record remembers (h : list (bytes * Z)) (L : Z) (bs : list (gset bytes)) (i : nat) : Prop := {
  rm_shape : shaped bs i;
  rm_past s t : (s, t) ∈ h → t < L + replayPeriod;
  rm_kept s t a : (s, t) ∈ h → (a <= 3)%nat → L - Z.of_nat a * replayPeriod <= t →
    ∃ j b, (j <= a)%nat ∧ aged bs i !! j = Some b ∧ s ∈ b;
}.

Lemma remembers_turn h L bs i :
  remembers h L bs i →
  let i' := Nat.modulo (i + 1) (length bs) in
  remembers h (L + replayPeriod) (<[i' := ∅]> bs) i'.
Proof.
  intros [Hs Hp Hk] i'. destruct (aged_turn bs i Hs) as [Hs' Ha]. fold i' in Hs', Ha.
  split; [done| |].
  - intros s t Hst. specialize (Hp s t Hst). unfold replayPeriod, smV2MaxSkew, Second in *. lia.
  - intros s t a Hst Ha3 Ht. rewrite Ha. destruct a as [|a].
    + specialize (Hp s t Hst). unfold replayPeriod, smV2MaxSkew, Second in *. lia.
    + destruct (Hk s t a Hst) as (j & b & Hj & Hb & Hin); [lia|lia|].
      exists (S j), b. split; [lia|]. split; [|done]. cbn [lookup list_lookup].
      change (take 3 (aged bs i) !! j = Some b). rewrite lookup_take_lt by lia. done.
Qed.

Lemma rotate_spec fuel now L bs i h :
  remembers h L bs i → L <= now → now - L < 2 ^ 62 →
  now - L < Z.of_nat fuel * replayPeriod →
  let '(L', bs', i') := rotate fuel now L bs i in
  remembers h L' bs' i' ∧ L' <= now < L' + replayPeriod.
Proof.
  assert (0 < replayPeriod) as Hp by done.
  revert L bs i. induction fuel as [|fuel IH]; intros L bs i Hr HL Hd Hf; cbn [rotate]; [lia|].
  rewrite time_Sub_small by (unfold MinInt64, MaxInt64; lia).
  destruct (Z.ltb_spec (now - L) replayPeriod); [split; [done|lia]|].
  apply IH; [by apply remembers_turn | lia | lia | lia].
Qed.

(** A salt is either reported as seen, or recorded. *)
Lemma seenOrAdd_spec h salt now r T :
  (∀ L, lastRotate r = Some L → remembers h L (buckets r) (idx r) ∧ L <= T ∧ T <= now ∧ now - L < 2 ^ 62) →
  (lastRotate r = None → h = [] ∧ buckets r = replicate 4 ∅ ∧ idx r = 0%nat) →
  let '(r', seen) := seenOrAdd salt now r in
  ∃ L, lastRotate r' = Some L ∧ L <= now < L + replayPeriod
  ∧ (if seen : bool then remembers h L (buckets r') (idx r')
     else remembers ((salt, now) :: h) L (buckets r') (idx r'))
  ∧ (∀ t, (salt, t) ∈ h → now - t <= 3 * replayPeriod → seen = true).
Proof.
  intros Hsome Hnone. unfold seenOrAdd.
  set (last := default now (lastRotate r)).
  assert (remembers h last (buckets r) (idx r) ∧ last <= now ∧ now - last < 2 ^ 62) as (Hr & Hl & Hd).
  { unfold last. destruct (lastRotate r) as [L|] eqn:E.
    - destruct (Hsome L eq_refl) as (? & ? & ? & ?). cbn. split; [done|lia].
    - destruct (Hnone eq_refl) as (-> & -> & ->). cbn. split; [|lia].
      split; [split; [done|cbn; lia]|..]; by intros ? ? ? ?%not_elem_of_nil || intros ? ? ?%not_elem_of_nil. }
  pose proof (rotate_spec (rotations now last) now last (buckets r) (idx r) h Hr Hl Hd) as Hrot.
  assert (now - last < Z.of_nat (rotations now last) * replayPeriod) as Hfuel.
  { unfold rotations. rewrite Nat2Z.inj_succ, Z2Nat.id by (apply Z.div_pos; [lia|done]).
    assert (0 < replayPeriod) as Hp by done.
    pose proof (Z.div_mod (now - last) replayPeriod ltac:(lia)).
    pose proof (Z.mod_pos_bound (now - last) replayPeriod Hp). nia. }
  specialize (Hrot Hfuel). destruct (rotate _ _ _ _ _) as [[L bs] i]. destruct Hrot as [Hrem HL].
  assert (∀ t, (salt, t) ∈ h → now - t <= 3 * replayPeriod →
    existsb (λ b, bool_decide (salt ∈ b)) bs = true) as Hseen.
  { intros t Ht Hnear. apply (aged_seen bs i); [apply Hrem|].
    destruct (rm_kept _ _ _ _ Hrem salt t 3%nat Ht) as (j & b & _ & Hb & Hin); [done|lia|].
    exists b. split; [by eapply list_elem_of_lookup_2 | done]. }
  destruct (existsb _ bs) eqn:E; exists L; cbn [lastRotate buckets idx];
    (split; [done|]); (split; [done|]); (split; [|done || (intros t Ht Hn; by rewrite (Hseen t Ht Hn) in E)]); [done|].
  destruct Hrem as [Hs Hp Hk]. destruct (aged_add bs i salt Hs) as (Hs' & b & rest & Eb & Eb').
  split; [done| |].
  - intros s t [[= -> ->]|Hst]%elem_of_cons; [lia | by eapply Hp].
  - intros s t a [[= -> ->]|Hst]%elem_of_cons Ha Ht; rewrite Eb'.
    + exists 0%nat, ({[salt]} ∪ b). split; [lia|]. split; [done | set_solver].
    + destruct (Hk s t a Hst Ha Ht) as (j & b' & Hj & Hb' & Hin). rewrite Eb in Hb'.
      destruct j as [|j]; cbn in Hb'.
      * injection Hb' as <-. exists 0%nat, ({[salt]} ∪ b). split; [lia|]. split; [done | set_solver].
      * exists (S j), b'. done.
Qed.

Lemma seenOrAdd_fresh salt t :
  seenOrAdd salt t newReplaySet =
    ({| buckets := [{[salt]} ∪ ∅; ∅; ∅; ∅]; idx := 0; lastRotate := Some t |}, false).
Proof.
  unfold seenOrAdd, newReplaySet, rotations. cbn [lastRotate default from_option buckets idx id].
  rewrite Z.sub_diag. change (S (Z.to_nat (0 `div` replayPeriod))) with 1%nat. cbn [rotate].
  rewrite time_Sub_small, Z.sub_diag by (unfold MinInt64, MaxInt64; lia).
  change (0 <? replayPeriod) with true. cbn iota beta.
  replace (existsb _ (replicate 4 ∅)) with false; [done|].
  symmetry. apply not_true_iff_false. rewrite existsb_exists.
  intros (b & Hb & Hs%bool_decide_eq_true). apply list_elem_of_In, elem_of_replicate in Hb as [-> _].
  set_solver.
Qed.

(** ** Lemmas: Salamander v2 *)
Section V2Lemmas.
Context `{Primitives}.

Lemma V2_Deobfuscate_wire c o salt data tc wire capw now cap :
  recvKey o = sendKey c → length salt = 12%nat → 0 < len data <= cap →
  V2_Obfuscate c salt data tc capw = Some wire →
  timestampInWindow (u32 (Unix tc)) now o = true →
  V2_Deobfuscate wire now cap o =
    let '(r, seen) := seenOrAdd salt now (replay o) in
    if seen then (set_stats (count_replayed (stats o)) (set_replay r o), None)
    else (set_replay r o, Some data).
Proof.
  intros Hk Hs Hd. unfold V2_Obfuscate. destruct (_ || _); [done|]. intros [= <-] Hw.
  unfold V2_Deobfuscate, len in *.
  rewrite length_app, aead_Seal_length, length_app, length_be_bytes, Hs.
  unfold smV2MinLen, smV2Overhead, smV2SaltLen, smV2TSLen, smV2TagLen in *.
  destruct (Z.ltb_spec (Z.of_nat (12 + (length data + 4 + 16))) (12 + 4 + 16 + 1)); [lia|].
  change (Z.to_nat 12) with 12%nat. change (Z.to_nat 4) with 4%nat.
  rewrite <-Hs, take_app_length, drop_app_length, Hk, aead_Open_Seal.
  rewrite length_app, length_be_bytes.
  destruct (Z.ltb_spec (Z.of_nat (length data + 4)) (4 + 1)); [lia|]. cbv zeta.
  replace (length data + 4 - 4)%nat with (length data) by lia.
  rewrite drop_app_length, be_Z_be_bytes_small.
  2:{ change (256 ^ Z.of_nat 4) with (2 ^ 32). apply wrapU_bound. lia. }
  rewrite Hw. cbn [negb]. rewrite take_app_length.
  destruct (seenOrAdd salt now (replay o)) as [r seen].
  cbn [stats replay set_replay]. destruct seen; [done|].
  destruct (Z.ltb_spec cap (Z.of_nat (length data))); [lia|done].
Qed.

(** The second in which a datagram was sealed, if it is authentic. *)
Definition stamp (key data : bytes) : option Z :=
  plaintext ← aead_Open key (take (Z.to_nat smV2SaltLen) data) (drop (Z.to_nat smV2SaltLen) data);
  Some (be_Z (drop (length plaintext - Z.to_nat smV2TSLen) plaintext)).

Lemma window_spec ts now o : bootTime o <= now → now - bootTime o < 2 ^ 62 →
  timestampInWindow ts now o = true →
  Unix now - 30 <= ts <= Unix now + 30 ∧ Unix (bootTime o) <= ts.
Proof.
  intros Hb Hd. unfold timestampInWindow. change (quot smV2MaxSkew Second) with 30.
  destruct (Z.ltb_spec (Unix now + 30) ts); [done|].
  rewrite time_Sub_small by (unfold MinInt64, MaxInt64; lia).
  unfold smV2MaxSkew. unfold Unix in *.
  pose proof (Z.div_mod now Second ltac:(done)). pose proof (Z.mod_pos_bound now Second ltac:(done)).
  pose proof (Z.div_mod (bootTime o) Second ltac:(done)).
  pose proof (Z.mod_pos_bound (bootTime o) Second ltac:(done)).
  unfold Second in *.
  destruct (Z.ltb_spec (now - bootTime o) (30 * 1000000000)).
  - destruct (Z.ltb_spec (now / 1000000000 - 30) (bootTime o / 1000000000)); intros ?%Z.leb_le; lia.
  - intros ?%Z.leb_le. lia.
Qed.

Record receiver_ok (key : bytes) (boot : Z) (h : list (bytes * Z)) (T : Z) (o : salamanderV2) : Prop := {
  ro_key : recvKey o = key;
  ro_boot : bootTime o = boot;
  ro_time : boot <= T;
  ro_some L : lastRotate (replay o) = Some L →
    remembers h L (buckets (replay o)) (idx (replay o)) ∧ L <= T < L + replayPeriod;
  ro_none : lastRotate (replay o) = None →
    h = [] ∧ buckets (replay o) = replicate 4 ∅ ∧ idx (replay o) = 0%nat;
}.

Lemma V2_Deobfuscate_step key boot h T o data now cap o' out :
  receiver_ok key boot h T o → T <= now → now <= boot + 2 ^ 61 →
  V2_Deobfuscate data now cap o = (o', out) →
  ∃ h' T', T <= T' <= now ∧ receiver_ok key boot h' T' o' ∧ (∀ x, x ∈ h → x ∈ h') ∧
    (is_Some out → (take (Z.to_nat smV2SaltLen) data, now) ∈ h'
     ∧ (∀ t, (take (Z.to_nat smV2SaltLen) data, t) ∈ h → 3 * replayPeriod < now - t)
     ∧ ∃ ts, stamp key data = Some ts ∧ Unix now - 30 <= ts <= Unix now + 30 ∧ Unix boot <= ts).
Proof.
  intros Hr HT Hmax. pose proof Hr as [Hk Hb Ht Hs Hn].
  assert (∀ st, receiver_ok key boot h T (set_stats st o)) as Hsame by (by intros; split).
  unfold V2_Deobfuscate. destruct (len data <? smV2MinLen).
  { intros [= <- <-]. exists h, T. split; [lia|]. split; [apply Hsame|]. split; [done | by intros []]. }
  rewrite Hk. destruct (aead_Open key _ _) as [pt|] eqn:Hopen.
  2:{ intros [= <- <-]. exists h, T. split; [lia|]. split; [apply Hsame|]. split; [done | by intros []]. }
  destruct (len pt <? smV2TSLen + 1).
  { intros [= <- <-]. exists h, T. split; [lia|]. split; [apply Hsame|]. split; [done | by intros []]. }
  cbv zeta. set (ts := be_Z _).
  destruct (timestampInWindow ts now o) eqn:Hw; cbn [negb].
  2:{ intros [= <- <-]. exists h, T. split; [lia|]. split; [apply Hsame|]. split; [done | by intros []]. }
  apply window_spec in Hw as [Hw1 Hw2]; [|lia|lia]. rewrite Hb in Hw2.
  set (salt := take _ data) in *.
  pose proof (seenOrAdd_spec h salt now (replay o) T) as Hsa.
  destruct (seenOrAdd salt now (replay o)) as [r seen]. destruct Hsa as (L & HL & HLn & Hrem & Hold).
  { intros L HL. destruct (Hs L HL) as [? ?]. unfold replayPeriod, smV2MaxSkew, Second in *.
    split; [done|]. lia. }
  { done. }
  assert (∀ st h', remembers h' L (buckets r) (idx r) →
    receiver_ok key boot h' now (set_stats st (set_replay r o))) as Hnew.
  { intros st h' Hr'. split; cbn; try done; [lia| |].
    - intros L' HL'. rewrite HL in HL'. injection HL' as <-. done.
    - rewrite HL. done. }
  destruct seen.
  { intros [= <- <-]. exists h, now. split; [lia|]. split; [by apply Hnew|]. split; [done|]. by intros []. }
  assert ((salt, now) ∈ (salt, now) :: h) by by left.
  destruct (cap <? _).
  { intros [= <- <-]. exists ((salt, now) :: h), now. split; [lia|]. split; [by apply Hnew|].
    split; [intros; by right | by intros []]. }
  intros [= <- <-]. exists ((salt, now) :: h), now. split; [lia|].
  split; [exact (Hnew (stats o) _ Hrem)|]. split; [intros; by right|].
  intros _. split; [done|]. split.
  - intros t Ht'. destruct (Z.leb_spec (now - t) (3 * replayPeriod)); [|lia].
    by specialize (Hold t Ht' ltac:(done)).
  - exists ts. split; [|done]. unfold stamp. fold salt. by rewrite Hopen.
Qed.

(** A receiver fed datagrams: what, when, and the size of the caller's buffer. *)
Definition receive (o : salamanderV2) (p : bytes * Z * Z) : salamanderV2 * option bytes :=
  V2_Deobfuscate p.1.1 p.1.2 p.2 o.

Definition fresh (o : salamanderV2) : Prop := replay o = newReplaySet.

Lemma receive_run key boot ps : ∀ h T o o' outs,
  receiver_ok key boot h T o →
  StronglySorted Z.le (T :: ((λ p, p.1.2) <$> ps)) → Forall (λ p, p.1.2 <= boot + 2 ^ 61) ps →
  run receive o ps = (o', outs) →
  ∃ h' T', receiver_ok key boot h' T' o' ∧ (∀ x, x ∈ h → x ∈ h')
    ∧ T' <= default T (last ((λ p, p.1.2) <$> ps)) ∧
    (∀ i p out, ps !! i = Some p → outs !! i = Some (Some out) →
       (take (Z.to_nat smV2SaltLen) p.1.1, p.1.2) ∈ h'
       ∧ ∃ ts, stamp key p.1.1 = Some ts ∧ Unix p.1.2 - 30 <= ts <= Unix p.1.2 + 30 ∧ Unix boot <= ts).
Proof.
  induction ps as [|p ps IH]; intros h T o o' outs Hr Hs Hf; cbn [run].
  { intros [= <- <-]. exists h, T. split; [done|]. split; [done|]. split; [cbn; lia|]. intros i p' out Hp. by rewrite lookup_nil in Hp. }
  destruct (receive o p) as [o1 out1] eqn:Hp. destruct (run receive o1 ps) as [o2 outs2] eqn:Hrun.
  intros [= <- <-]. apply Forall_cons in Hf as [Hfp Hf].
  cbn [fmap list_fmap] in Hs. apply StronglySorted_inv in Hs as [Hs HT].
  apply Forall_cons in HT as [HT HT'].
  destruct (V2_Deobfuscate_step key boot h T o p.1.1 p.1.2 p.2 o1 out1 Hr HT Hfp Hp)
    as (h1 & T1 & HT1 & Hr1 & Hsub1 & Hacc1).
  destruct (IH h1 T1 o1 o2 outs2 Hr1) as (h2 & T2 & Hr2 & Hsub2 & HT2 & Hacc2); [|done|done|].
  { apply SSorted_cons; [by apply StronglySorted_inv in Hs as [? _]|].
    apply StronglySorted_inv in Hs as [_ Hs]. eapply Forall_impl; [exact Hs|]. intros x Hx. lia. }
  exists h2, T2. split; [done|]. split; [auto|]. split.
  { cbn [fmap list_fmap]. rewrite last_cons. destruct (last _) as [x|] eqn:El; cbn in *; [done|lia]. }
  intros [|i] q out Hq Hout; cbn in Hq, Hout; [|by apply (Hacc2 i q out)].
  injection Hq as ->. injection Hout as ->. destruct (Hacc1 ltac:(eauto)) as (Hin & _ & Hts).
  split; [by apply Hsub2 | done].
Qed.

End V2Lemmas.

(** ** Properties *)
Section Theorems.
Context `{Primitives}.

(** No datagram is accepted twice.  Whatever else the receiver is sent and
    whenever, as long as its clock does not run backwards: once a datagram has
    been accepted, the same bytes are refused ever after; and what is accepted
    was sealed no earlier than the second the receiver started in. *)
Theorem replay_refused o0 pre data t1 c1 mid t2 c2 o outs :
  fresh o0 →
  let ps := pre ++ (data, t1, c1) :: mid ++ [(data, t2, c2)] in
  StronglySorted Z.le (bootTime o0 :: ((λ p, p.1.2) <$> ps)) → t2 <= bootTime o0 + 2 ^ 61 →
  run receive o0 ps = (o, outs) →
  is_Some (mjoin (outs !! length pre)) →
  mjoin (last outs) = None
  ∧ ∃ ts, stamp (recvKey o0) data = Some ts ∧ Unix (bootTime o0) <= ts.
Proof.
  intros Hfresh ps Hs Hmax Hrun Hacc.
  set (ps1 := pre ++ (data, t1, c1) :: mid).
  assert (ps = ps1 ++ [(data, t2, c2)]) as Eps by (unfold ps, ps1; rewrite <-app_assoc; done).
  rewrite Eps in *. rewrite run_app in Hrun.
  destruct (run receive o0 ps1) as [o1 outs1] eqn:Hrun1. cbn [run] in Hrun.
  destruct (receive o1 (data, t2, c2)) as [o2 out2] eqn:Hlast. injection Hrun as <- <-.
  pose proof (length_run receive o0 ps1) as Hlen. rewrite Hrun1 in Hlen. cbn [snd] in Hlen.
  assert (receiver_ok (recvKey o0) (bootTime o0) [] (bootTime o0) o0) as Hr0.
  { split; try done; rewrite Hfresh; done. }
  rewrite fmap_app in Hs. cbn [fmap list_fmap] in Hs.
  apply StronglySorted_inv in Hs as [Hs Hb0].
  assert (Forall (λ p : bytes * Z * Z, p.1.2 <= t2) ps1) as Hle.
  { apply list.Forall_forall. intros p Hp. apply StronglySorted_app in Hs as (Hs & _).
    apply (Hs p.1.2 t2); [by apply list_elem_of_fmap_2 with (f := λ p : bytes * Z * Z, p.1.2) | by left]. }
  destruct (receive_run (recvKey o0) (bootTime o0) ps1 [] (bootTime o0) o0 o1 outs1 Hr0)
    as (h & T & Hr1 & _ & HT & Hacc1); try done.
  { apply SSorted_cons; [by apply StronglySorted_app in Hs as (_ & ? & _)|].
    by apply Forall_app in Hb0 as [? _]. }
  { eapply Forall_impl; [exact Hle|]. cbn. intros x Hx. lia. }
  assert (length outs1 = length ps1) as Hl1 by done.
  assert (ps1 !! length pre = Some (data, t1, c1)) as Hp1 by (unfold ps1; by rewrite list_lookup_middle).
  rewrite lookup_app_l in Hacc by (rewrite Hl1; unfold ps1; rewrite length_app; cbn; lia).
  destruct (outs1 !! length pre) as [[out1|]|] eqn:Ho1; try (by destruct Hacc).
  destruct (Hacc1 _ _ _ Hp1 Ho1) as (Hin & ts & Hts & Hw & Hbts). cbn [fst snd] in *.
  split; [|eauto]. rewrite last_snoc. cbn.
  assert (t1 <= t2 ∧ T <= t2) as [H12 HT2].
  { split.
    - rewrite list.Forall_forall in Hle. apply (Hle (data, t1, c1)). by eapply list_elem_of_lookup_2.
    - destruct (last ((λ p : bytes * Z * Z, p.1.2) <$> ps1)) as [x|] eqn:El; cbn in HT.
      + apply last_Some in El as [l' El].
        assert (x ∈ (λ p : bytes * Z * Z, p.1.2) <$> ps1) as Hx by (rewrite El; apply elem_of_app; right; by left).
        apply list_elem_of_fmap in Hx as (p & -> & Hp). rewrite list.Forall_forall in Hle. specialize (Hle p Hp). lia.
      + apply Forall_app in Hb0 as [_ Hb0]. apply Forall_cons in Hb0 as [? _]. lia. }
  destruct (V2_Deobfuscate_step _ _ _ _ _ _ _ _ _ _ Hr1 HT2 Hmax Hlast) as (h' & T' & _ & _ & _ & Hacc2).
  destruct out2 as [out2|]; [|done]. exfalso.
  destruct (Hacc2 ltac:(eauto)) as (_ & Hold & ts' & Hts' & Hw' & _). specialize (Hold _ Hin).
  cbn [fst snd] in *. rewrite Hts in Hts'. injection Hts' as <-.
  unfold Unix, replayPeriod, smV2MaxSkew in *.
  pose proof (Z.div_mod t1 Second ltac:(done)). pose proof (Z.mod_pos_bound t1 Second ltac:(done)).
  pose proof (Z.div_mod t2 Second ltac:(done)). pose proof (Z.mod_pos_bound t2 Second ltac:(done)).
  unfold Second in *. lia.
Qed.

(** The two ends of a connection hold each other's keys. *)
Lemma NewSalamanderV2_paired password realm tc ts cache cache1 c cache2 s cache0 :
  cache0 = cache1 →
  NewSalamanderV2 password realm RoleClient tc cache = (cache1, Ok c) →
  NewSalamanderV2 password realm RoleServer ts cache0 = (cache2, Ok s) →
  recvKey s = sendKey c ∧ recvKey c = sendKey s ∧ fresh s ∧ bootTime s = ts ∧ fresh c.
Proof.
  intros ->. unfold NewSalamanderV2, StretchPassword.
  destruct (len password =? 0); [done|]. destruct (len password <? MinPasswordLen); [done|].
  destruct (cache !! _) as [rk|] eqn:Hc; intros Hcl Hsv.
  - injection Hcl as <- Hcl. rewrite Hc in Hsv. injection Hsv as _ Hsv. cbn [mbind result_bind] in *.
    destruct (DeriveSubkey rk CtxSalamanderV2C2S smV2KeyLen) as [|k1]; [done|].
    destruct (DeriveSubkey rk CtxSalamanderV2S2C smV2KeyLen) as [|k2]; [done|].
    cbn in *. by simplify_eq.
  - injection Hcl as <- Hcl. rewrite lookup_insert_eq in Hsv. injection Hsv as _ Hsv. cbn [mbind result_bind] in *.
    destruct (DeriveSubkey _ CtxSalamanderV2C2S smV2KeyLen) as [|k1]; [done|].
    destruct (DeriveSubkey _ CtxSalamanderV2S2C smV2KeyLen) as [|k2]; [done|].
    cbn in *. by simplify_eq.
Qed.

(** Two ends built from one password and realm understand each other: what
    the client writes, the server reads, when the two clocks are within thirty
    seconds of each other (the client's not behind the server's start) and the
    salt is new; one end having started, the other finds its root key cached. *)
Theorem SalamanderV2_delivers password realm tc0 ts0 cache cache1 c cache2 s salt data tc t addr cap rest :
  NewSalamanderV2 password realm RoleClient tc0 cache = (cache1, Ok c) →
  NewSalamanderV2 password realm RoleServer ts0 cache1 = (cache2, Ok s) →
  length salt = 12%nat → 0 < len data <= cap → len data + smV2Overhead <= udpBufferSize →
  0 <= Unix tc < 2 ^ 32 → Z.abs (Unix tc - Unix t) <= 30 → Unix ts0 <= Unix tc → ts0 <= t < ts0 + 2 ^ 62 →
  ∃ s', ReadFrom cap (mkDatagram (WriteTo salt data tc c).1 addr false t :: rest) s
        = (s', Some (data, addr, false), rest).
Proof.
  intros Hc Hs Hsalt Hd Hfit Htc Hskew Hboot Hts.
  destruct (NewSalamanderV2_paired _ _ _ _ _ _ _ _ _ _ eq_refl Hc Hs) as (Hk & _ & Hfresh & Hb & _).
  unfold WriteTo, ob_Obfuscate. cbn [salamanderV2_obfuscator fst].
  destruct (V2_Obfuscate c salt data tc udpBufferSize) as [wire|] eqn:Hw.
  2:{ exfalso. revert Hw. unfold V2_Obfuscate.
      destruct (Z.eqb_spec (len data) 0); [lia|].
      destruct (Z.ltb_spec udpBufferSize (len data + smV2Overhead)); [lia|done]. }
  cbn [default from_option]. cbn [ReadFrom dg_data dg_addr dg_err dg_now].
  assert (length wire = (length data + 32)%nat) as Hlw.
  { revert Hw. unfold V2_Obfuscate. destruct (_ || _); [done|]. intros [= <-].
    rewrite length_app, aead_Seal_length, length_app, length_be_bytes. lia. }
  unfold smV2Overhead, smV2SaltLen, smV2TSLen, smV2TagLen, udpBufferSize, len in *.
  change (id wire) with wire. rewrite take_ge by lia. destruct (Z.leb_spec (Z.of_nat (length wire)) 0); [lia|].
  cbn [ob_Deobfuscate salamanderV2_obfuscator].
  rewrite (V2_Deobfuscate_wire c s salt data tc wire _ t cap Hk Hsalt Hd Hw).
  - assert (seenOrAdd salt t (replay s) =
       ({| buckets := [{[salt]} ∪ ∅; ∅; ∅; ∅]; idx := 0; lastRotate := Some t |}, false)) as ->.
    { rewrite Hfresh. apply seenOrAdd_fresh. }
    eauto.
  - unfold timestampInWindow. rewrite wrapU_small by lia. change (quot smV2MaxSkew Second) with 30.
    rewrite (proj2 (Z.ltb_ge _ _)) by lia. rewrite Hb. destruct (_ <? smV2MaxSkew).
    + destruct (Z.ltb_spec (Unix t - 30) (Unix ts0)); apply Z.leb_le; lia.
    + apply Z.leb_le. lia.
Qed.

(** The boot barrier does not cover a sender whose clock is ahead: a
    datagram sealed with a second that the receiver's clock has not reached when
    it restarts is accepted before the restart and, replayed, again after it. *)
Lemma restart_replay c o1 o2 salt data tc wire t1 t2 cap :
  recvKey o1 = sendKey c → recvKey o2 = recvKey o1 → fresh o1 → fresh o2 →
  length salt = 12%nat → 0 < len data <= cap → 0 <= Unix tc < 2 ^ 32 →
  V2_Obfuscate c salt data tc udpBufferSize = Some wire →
  (* accepted by the first process, before the second one starts *)
  bootTime o1 <= t1 < bootTime o2 → bootTime o2 <= t2 < bootTime o1 + 2 ^ 62 →
  Unix (bootTime o1) <= Unix tc → Unix tc <= Unix t1 + 30 →
  (* the sender's clock is ahead of the restart *)
  Unix (bootTime o2) <= Unix tc → Unix t2 <= Unix tc + 30 →
  (V2_Deobfuscate wire t1 cap o1).2 = Some data ∧ (V2_Deobfuscate wire t2 cap o2).2 = Some data.
Proof.
  intros Hk1 Hk2 Hf1 Hf2 Hsalt Hd Htc Hw Ht1 Ht2 Hb1 Hahead Hb2 Hlate.
  assert (Unix t1 <= Unix (bootTime o2) ∧ Unix (bootTime o2) <= Unix t2) as [Hm1 Hm2]
    by (unfold Unix; split; apply Z.div_le_mono; done || lia).
  assert (∀ o t, fresh o → recvKey o = sendKey c → bootTime o <= t → t - bootTime o < 2 ^ 62 →
    Unix (bootTime o) <= Unix tc → Unix tc <= Unix t + 30 → Unix t <= Unix tc + 30 →
    (V2_Deobfuscate wire t cap o).2 = Some data) as Hacc.
  { intros o t Hf Hk Hbt Hsub Hb Hu1 Hu2.
    rewrite (V2_Deobfuscate_wire c o salt data tc wire _ t cap Hk Hsalt Hd Hw).
    - assert (seenOrAdd salt t (replay o) =
         ({| buckets := [{[salt]} ∪ ∅; ∅; ∅; ∅]; idx := 0; lastRotate := Some t |}, false)) as ->; [|done].
      rewrite Hf. apply seenOrAdd_fresh.
    - unfold timestampInWindow. rewrite wrapU_small by lia. change (quot smV2MaxSkew Second) with 30.
      rewrite (proj2 (Z.ltb_ge _ _)) by lia. destruct (_ <? smV2MaxSkew).
      + destruct (Z.ltb_spec (Unix t - 30) (Unix (bootTime o))); apply Z.leb_le; lia.
      + apply Z.leb_le. lia. }
  split; apply Hacc; try done; try congruence; lia.
Qed.

End Theorems.

(** ** Witnesses *)
Definition pad_to (n : nat) (b : bytes) : bytes := take n (b ++ replicate n Byte.x00).

Lemma length_pad_to n b : length (pad_to n b) = n.
Proof. unfold pad_to. rewrite length_take, length_app, length_replicate. lia. Qed.

Lemma open_sealed (k p : bytes) :
  (let ct := p ++ pad_to 16 k in
   let n := (length ct - 16)%nat in
   if decide (drop n ct = pad_to 16 k) then Some (take n ct) else None) = Some p.
Proof.
  cbv zeta. rewrite length_app, length_pad_to.
  replace (length p + 16 - 16)%nat with (length p) by lia.
  rewrite drop_app_length, take_app_length. by rewrite decide_True.
Qed.

Lemma length_sealed (k p : bytes) : length (p ++ pad_to 16 k) = (length p + 16)%nat.
Proof. by rewrite length_app, length_pad_to. Qed.

(** Toy primitives: a tag that depends on the key, keys that depend on the
    password and the context. *)
Definition toy : Primitives := {|
  sha256 b := pad_to 32 b;
  argon2_IDKey pw salt _ _ _ n := pad_to (Z.to_nat n) pw;
  hkdf_Expand root ctx n := Some (pad_to (Z.to_nat n) (drop 27 (string_bytes ctx) ++ root));
  blake2b_Sum256 b := pad_to 32 b;
  aead_Seal k _ p := p ++ pad_to 16 k;
  aead_Open k _ ct :=
    let n := (length ct - 16)%nat in
    if decide (drop n ct = pad_to 16 k) then Some (take n ct) else None;
  sha256_length b := length_pad_to 32 b;
  blake2b_length b := length_pad_to 32 b;
  aead_Seal_length k n p := length_sealed k p;
  aead_Open_Seal k n p := open_sealed k p;
|}.
#[local] Existing Instance toy.

Definition sample_password : bytes := string_bytes "correct horse".
Definition sample_salt : bytes := pad_to 12 [Byte.x2a].
Definition sample_data : bytes := string_bytes "hello".

Definition end_of (r : gmap (bytes * string) bytes * result obfs_error salamanderV2) : salamanderV2 :=
  match r.2 with Ok c => c | Err _ => mkSalamanderV2 [] [] 0 newReplaySet zero_stats end.

Definition sample_client := NewSalamanderV2 sample_password "" RoleClient 0 ∅.
Definition client_at : salamanderV2 := end_of sample_client.
Definition server_at (now : Z) : salamanderV2 :=
  end_of (NewSalamanderV2 sample_password "" RoleServer now sample_client.1).

Lemma end_of_ok r : is_ok r.2 = true → r = (r.1, Ok (end_of r)).
Proof. destruct r as [c [|]]; [done|]. by intros _. Qed.

Definition sample_wire (now : Z) : bytes := (WriteTo sample_salt sample_data now client_at).1.

Lemma SalamanderV2_delivers_witness :
  ∃ s', ReadFrom 1500 [mkDatagram (sample_wire (1000 * Second)) "192.0.2.1:4433" false (1010 * Second)]
          (server_at (900 * Second)) = (s', Some (sample_data, "192.0.2.1:4433", false), []).
Proof.
  assert (is_ok sample_client.2 = true) as Hc by (vm_compute; reflexivity).
  assert (is_ok (NewSalamanderV2 sample_password "" RoleServer (900 * Second) sample_client.1).2 = true) as Hs
    by (vm_compute; reflexivity).
  apply end_of_ok in Hc, Hs. unfold sample_wire, server_at, client_at.
  eapply (SalamanderV2_delivers sample_password "" 0 (900 * Second)); [exact Hc|exact Hs|..].
  - reflexivity.
  - split; vm_compute; congruence.
  - vm_compute. congruence.
  - split; vm_compute; congruence.
  - vm_compute. congruence.
  - vm_compute. congruence.
  - split; vm_compute; congruence.
Defined.

Lemma replay_refused_witness :
  let wire := sample_wire (1000 * Second) in
  let ps := [(wire, 1001 * Second, 1500); ([Byte.x00], 1002 * Second, 1500); (wire, 1005 * Second, 1500)] in
  mjoin ((run receive (server_at (900 * Second)) ps).2 !! 0%nat) = Some sample_data
  ∧ mjoin (last (run receive (server_at (900 * Second)) ps).2) = None.
Proof.
  intros wire ps. split; [vm_compute; reflexivity|].
  apply (replay_refused (server_at (900 * Second)) [] wire (1001 * Second) 1500
           [([Byte.x00], 1002 * Second, 1500)] (1005 * Second) 1500
           (run receive (server_at (900 * Second)) ps).1 (run receive (server_at (900 * Second)) ps).2).
  - reflexivity.
  - repeat (apply SSorted_cons || apply SSorted_nil || apply List.Forall_cons || apply List.Forall_nil);
      cbn [fst snd]; change (bootTime (server_at (900 * Second))) with (900 * Second); unfold Second; lia.
  - vm_compute. congruence.
  - apply surjective_pairing.
  - exists sample_data. vm_compute. reflexivity.
Defined.

(** The client's clock is twenty seconds ahead; the server restarts one second
    after it first saw the datagram. *)
Lemma restart_replay_witness :
  (V2_Deobfuscate (sample_wire (1020 * Second)) (1000 * Second) 1500 (server_at (900 * Second))).2 = Some sample_data
  ∧ (V2_Deobfuscate (sample_wire (1020 * Second)) (1003 * Second) 1500 (server_at (1001 * Second))).2 = Some sample_data.
Proof.
  apply (restart_replay client_at _ _ sample_salt sample_data (1020 * Second));
    try (vm_compute; reflexivity); try reflexivity; try (split; vm_compute; congruence); vm_compute; congruence.
Defined.
