(* ===== verification/Gecko.v ===== *)
(** * Gecko: fragmenting obfuscation (extras/obfs/gecko.go, gecko_frame.go)

    The frame codec, the send path that cuts a QUIC long-header packet into
    padded fragments, and the receive path that puts them back together under
    a cap per source, a global cap and a time to live.  The connection below is
    Salamander v1 (Obfs.v).  The random source of one call, the clock and the
    order in which Go visits a map are arguments. *)
From S2P Require Import GoStd Prelude Obfs.

(** ** The frame codec (gecko_frame.go) *)
Definition geckoFlagFragment : Z := 128.
Definition geckoHeaderSize : Z := 5.
Definition geckoMinFragmentChunks : Z := 2.
Definition geckoMaxFragmentChunks : Z := 8.

Inductive gecko_error : Type :=
| errFrameTruncated
| errFrameInvalid
| errPasswordRequired
| errInvalidPacketSize
| errSalamander (e : obfs_error)
| errInner.

Record frameHeader := mkFrameHeader {
  padLen : Z;       (* uint16 *)
  msgID : Z;        (* uint8 *)
  chunkIdx : Z;     (* uint8 *)
  totalChunks : Z;  (* uint8 *)
}.

(** [pad] is what the random source yields for the padding; the result is the
    count returned and the buffer after the writes. *)
Definition encodeFrame (h : frameHeader) (payload out pad : bytes) : result gecko_error (Z * bytes) :=
  if (totalChunks h <? geckoMinFragmentChunks) || (geckoMaxFragmentChunks <? totalChunks h)
  then Err errFrameInvalid else
  if totalChunks h <=? chunkIdx h then Err errFrameInvalid else
  let needed := geckoHeaderSize + padLen h + len payload in
  if len out <? needed then Err errFrameTruncated else
  Ok (needed,
      [byte_of_Z geckoFlagFragment; byte_of_Z (msgID h);
       byte_of_Z (Z.lor (u8 (Z.shiftl (chunkIdx h) 4)) (Z.land (totalChunks h) 15))]
      ++ be_bytes 2 (padLen h) ++ pad ++ payload ++ drop (Z.to_nat needed) out).

Definition decodeFrame (input : bytes) : result gecko_error (frameHeader * bytes) :=
  if len input <? geckoHeaderSize then Err errFrameTruncated else
  if Z.land (Z_of_byte (input !!! 0%nat)) geckoFlagFragment =? 0 then Err errFrameInvalid else
  let h := {| msgID := Z_of_byte (input !!! 1%nat);
              chunkIdx := Z.shiftr (Z_of_byte (input !!! 2%nat)) 4;
              totalChunks := Z.land (Z_of_byte (input !!! 2%nat)) 15;
              padLen := be_Z (take 2 (drop 3 input)) |} in
  if (totalChunks h <? geckoMinFragmentChunks) || (geckoMaxFragmentChunks <? totalChunks h)
  then Err errFrameInvalid else
  if totalChunks h <=? chunkIdx h then Err errFrameInvalid else
  if len input <? geckoHeaderSize + padLen h then Err errFrameTruncated else
  Ok (h, drop (Z.to_nat (geckoHeaderSize + padLen h)) input).

(** ** The connection (gecko.go) *)
Definition geckoReassemblyTTL : Z := 8 * Second.
Definition geckoMaxReassembly : Z := 4096.
Definition geckoMaxPerSource : Z := 8.
Definition geckoBufferSize : Z := 2048.
Definition geckoDefaultMinPacket : Z := 512.
Definition geckoDefaultMaxPacket : Z := 1200.

Record GeckoOptions := mkGeckoOptions {
  Password : bytes;
  MinPacketSize : Z;
  MaxPacketSize : Z;
}.

(** The sender's address and the message identifier. *)
Definition reassemblyKey : Type := string * Z.

#[export] Instance reassemblyKey_eq_dec : EqDecision reassemblyKey := prod_eq_dec.
#[export] Instance reassemblyKey_countable : Countable reassemblyKey := prod_countable.

Record reassemblyEntry := mkEntry {
  chunks : list (option bytes);  (* None is the nil slice *)
  received : Z;
  total : Z;
  deadline : Z;
}.

Record geckoPacketConn := mkGecko {
  inner : bytes * Stats;       (* the Salamander connection *)
  minPkt : Z;
  maxPkt : Z;
  nextMsgID : Z;               (* uint32 *)
  reassembly : gmap reassemblyKey reassemblyEntry;
  perSource : gmap string Z;
  closed : bool;
}.

Definition newGeckoPacketConn (inner : bytes * Stats) (minPkt maxPkt : Z) : geckoPacketConn :=
  mkGecko inner minPkt maxPkt 0 ∅ ∅ false.

Definition set_table (m : gmap reassemblyKey reassemblyEntry) (p : gmap string Z)
    (g : geckoPacketConn) : geckoPacketConn :=
  mkGecko (inner g) (minPkt g) (maxPkt g) (nextMsgID g) m p (closed g).

Definition set_inner (i : bytes * Stats) (g : geckoPacketConn) : geckoPacketConn :=
  mkGecko i (minPkt g) (maxPkt g) (nextMsgID g) (reassembly g) (perSource g) (closed g).

(** What the random source yields during one call: the number that decides how
    many fragments, those that decide their paddings, the padding bytes, and
    the salts of the connection below. *)
Record Random := mkRandom {
  rnd_chunks : Z;
  rnd_pad : nat → Z;
  rnd_fill : nat → nat → bytes;
  rnd_salt : nat → bytes;
  rnd_fill_length i n : length (rnd_fill i n) = n;
  rnd_salt_length i : length (rnd_salt i) = 8%nat;
}.

Definition randIntn (r n : Z) : Z := if n <=? 1 then 0 else u32 r mod u32 n.

Definition randomFragmentChunks (r : Z) : Z :=
  geckoMinFragmentChunks + randIntn r (geckoMaxFragmentChunks - geckoMinFragmentChunks + 1).

Definition randomPadLen (g : geckoPacketConn) (r chunkLen : Z) : Z :=
  let base := smSaltLen + geckoHeaderSize + chunkLen in
  let lo := Z.max (minPkt g) base in
  if maxPkt g <? lo then 0 else u16 (lo - base + randIntn r (maxPkt g - lo + 1)).

Section Connection.
Context `{Primitives} `{!MapRange reassemblyKey reassemblyEntry}.

Definition WrapPacketConnGecko (opts : GeckoOptions) : result gecko_error geckoPacketConn :=
  if len (Password opts) =? 0 then Err errPasswordRequired else
  let minPkt := if MinPacketSize opts =? 0 then geckoDefaultMinPacket else MinPacketSize opts in
  let maxPkt := if MaxPacketSize opts =? 0 then geckoDefaultMaxPacket else MaxPacketSize opts in
  if (minPkt <=? 0) || (maxPkt <? minPkt) || (geckoBufferSize <? maxPkt) then Err errInvalidPacketSize else
  match newSalamanderObfuscator (Password opts) with
  | Err e => Err (errSalamander e)
  | Ok psk => Ok (newGeckoPacketConn (psk, zero_stats) minPkt maxPkt)
  end.

(** *** Send path *)

(** One turn of the loop: the frame that fragment [i] of [chunks] is sent in. *)
Definition fragment_frame (g : geckoPacketConn) (rnd : Random) (p : bytes) (chunks msgID i : Z)
    : result gecko_error bytes :=
  let chunkSize := quot (len p) chunks in
  let start := i * chunkSize in
  let stop := if i <? chunks - 1 then start + chunkSize else len p in
  let chunk := take (Z.to_nat (stop - start)) (drop (Z.to_nat start) p) in
  let padLen := randomPadLen g (rnd_pad rnd (Z.to_nat i)) (len chunk) in
  let buf := replicate (Z.to_nat (geckoHeaderSize + padLen + len chunk)) Byte.x00 in
  '(n, buf) ← encodeFrame {| padLen := padLen; msgID := msgID; chunkIdx := u8 i; totalChunks := u8 chunks |}
                chunk buf (rnd_fill rnd (Z.to_nat i) (Z.to_nat padLen));
  Ok (take (Z.to_nat n) buf).

(** The loop over the fragments [i ..]: the datagrams handed to the network and
    whether the loop ran to its end.  [fails k] tells whether the [k]th write
    below fails (nothing is sent then). *)
Fixpoint send_fragments (g : geckoPacketConn) (rnd : Random) (fails : nat → bool) (p : bytes)
    (chunks msgID : Z) (idxs : list Z) : list bytes * result gecko_error () :=
  match idxs with
  | [] => ([], Ok ())
  | i :: idxs =>
      match fragment_frame g rnd p chunks msgID i with
      | Err e => ([], Err e)
      | Ok frame =>
          if fails (Z.to_nat i) then ([], Err errInner) else
          let '(sent, r) := send_fragments g rnd fails p chunks msgID idxs in
          ((Obfs.WriteTo (rnd_salt rnd (Z.to_nat i)) frame 0 (inner g)).1 :: sent, r)
      end
  end.

Definition writeFragmented (rnd : Random) (fails : nat → bool) (p : bytes) (g : geckoPacketConn)
    : geckoPacketConn * list bytes * result gecko_error Z :=
  let chunks := randomFragmentChunks (rnd_chunks rnd) in
  let id := u32 (nextMsgID g + 1) in
  let '(sent, r) := send_fragments g rnd fails p chunks (u8 id) (seqZ 0 chunks) in
  (mkGecko (inner g) (minPkt g) (maxPkt g) id (reassembly g) (perSource g) (closed g),
   sent, _ ← r; Ok (len p)).

Definition WriteTo (rnd : Random) (fails : nat → bool) (p : bytes) (g : geckoPacketConn)
    : geckoPacketConn * list bytes * result gecko_error Z :=
  match p with
  | [] => (g, [], Ok 0)
  | b :: _ =>
      if negb (Z.land (Z_of_byte b) 128 =? 0) then writeFragmented rnd fails p g else
      if fails 0%nat then (g, [], Err errInner) else
      let '(wire, n) := Obfs.WriteTo (rnd_salt rnd 0) p 0 (inner g) in (g, [wire], Ok n)
  end.

(** *** Maintenance *)
Definition dropEntryLocked (k : reassemblyKey) (g : geckoPacketConn) : geckoPacketConn :=
  match reassembly g !! k with
  | None => g
  | Some _ =>
      let c := default 0 (perSource g !! k.1) - 1 in
      set_table (delete k (reassembly g))
        (if c <=? 0 then delete k.1 (perSource g) else <[k.1 := c]> (perSource g)) g
  end.

Definition evictOldestLocked (g : geckoPacketConn) : geckoPacketConn :=
  match range_min deadline (map_range (reassembly g)) with
  | Some (k, _) => dropEntryLocked k g
  | None => g
  end.

Definition gcExpired (now : Z) (g : geckoPacketConn) : geckoPacketConn :=
  foldl (λ g '(k, e), if deadline e <? now then dropEntryLocked k g else g) g (map_range (reassembly g)).

(** One tick of [gcLoop], which ends when the connection is closed. *)
Definition gcTick (now : Z) (g : geckoPacketConn) : geckoPacketConn :=
  if closed g then g else gcExpired now g.

Definition Close (g : geckoPacketConn) : geckoPacketConn :=
  mkGecko (inner g) (minPkt g) (maxPkt g) (nextMsgID g) (reassembly g) (perSource g) true.

(** *** Receive path *)

(** The part of [acceptChunk] after the entry has been found or made. *)
Definition store_chunk (key : reassemblyKey) (h : frameHeader) (payload : bytes)
    (e : reassemblyEntry) (g : geckoPacketConn) : geckoPacketConn * option bytes :=
  if (len (chunks e) <=? chunkIdx h) || bool_decide (is_Some (chunks e !!! Z.to_nat (chunkIdx h)))
  then (g, None) else
  let e := mkEntry (<[Z.to_nat (chunkIdx h) := Some payload]> (chunks e)) (received e + 1) (total e) (deadline e) in
  let g := set_table (<[key := e]> (reassembly g)) (perSource g) g in
  if received e <? total e then (g, None) else
  (dropEntryLocked key g, Some (mjoin (default [] <$> chunks e))).

Definition acceptChunk (addr : string) (h : frameHeader) (payload : bytes) (now : Z)
    (g : geckoPacketConn) : geckoPacketConn * option bytes :=
  let key := (addr, msgID h) in
  match reassembly g !! key with
  | None =>
      if geckoMaxPerSource <=? default 0 (perSource g !! addr) then (g, None) else
      let g := if geckoMaxReassembly <=? Z.of_nat (size (reassembly g)) then evictOldestLocked g else g in
      let e := mkEntry (replicate (Z.to_nat (totalChunks h)) None) 0 (totalChunks h) (now + geckoReassemblyTTL) in
      let g := set_table (<[key := e]> (reassembly g))
                 (<[addr := default 0 (perSource g !! addr) + 1]> (perSource g)) g in
      store_chunk key h payload e g
  | Some e => if negb (total e =? totalChunks h) then (g, None) else store_chunk key h payload e g
  end.

(** ReadFrom into a buffer of [cap] bytes, with fuel for one turn per datagram:
    the bytes, the sender and the error flag, once there is something to
    return. *)
Fixpoint read_loop (fuel : nat) (cap : Z) (incoming : list datagram) (g : geckoPacketConn)
    : geckoPacketConn * option (bytes * string * bool) * list datagram :=
  match fuel with
  | O => (g, None, incoming)
  | S fuel =>
      match Obfs.ReadFrom geckoBufferSize incoming (inner g) with
      | (i, None, incoming) => (set_inner i g, None, incoming)
      | (i, Some (buf, addr, err), incoming') =>
          let g := set_inner i g in
          if (err : bool) then (g, Some ([], addr, true), incoming') else
          match buf with
          | [] => read_loop fuel cap incoming' g
          | b :: _ =>
              if Z.land (Z_of_byte b) 128 =? 0
              then (g, Some (take (Z.to_nat cap) buf, addr, false), incoming') else
              match decodeFrame buf with
              | Err _ => read_loop fuel cap incoming' g
              | Ok (h, payload) =>
                  (* the clock is read while the last datagram consumed is handled *)
                  let now := default 0 (dg_now <$> incoming !! (length incoming - length incoming' - 1)%nat) in
                  let '(g, out) := acceptChunk addr h payload now g in
                  match out with
                  | None => read_loop fuel cap incoming' g
                  | Some out => (g, Some (take (Z.to_nat cap) out, addr, false), incoming')
                  end
              end
          end
      end
  end.

Definition ReadFrom (cap : Z) (incoming : list datagram) (g : geckoPacketConn) :=
  read_loop (S (length incoming)) cap incoming g.

End Connection.

(** ** Lemmas: the codec *)

(** The headers a frame can carry. *)
Record header_ok (h : frameHeader) : Prop := {
  ho_pad : 0 <= padLen h < 65536;
  ho_id : 0 <= msgID h < 256;
  ho_idx : 0 <= chunkIdx h < totalChunks h;
  ho_total : 2 <= totalChunks h <= 8;
}.

Lemma nibbles i t : 0 <= i < t → 2 <= t <= 8 →
  let b := Z_of_byte (byte_of_Z (Z.lor (u8 (Z.shiftl i 4)) (Z.land t 15))) in
  Z.shiftr b 4 = i ∧ Z.land b 15 = t.
Proof.
  intros Hi Ht.
  assert (i = 0 ∨ i = 1 ∨ i = 2 ∨ i = 3 ∨ i = 4 ∨ i = 5 ∨ i = 6 ∨ i = 7) as Hi' by lia.
  assert (t = 2 ∨ t = 3 ∨ t = 4 ∨ t = 5 ∨ t = 6 ∨ t = 7 ∨ t = 8) as Ht' by lia.
  destruct_or! Hi'; destruct_or! Ht'; subst; try lia; vm_compute; done.
Qed.

Lemma decodeFrame_encodeFrame h payload pad :
  header_ok h → len pad = padLen h →
  let needed := geckoHeaderSize + padLen h + len payload in
  ∃ b rest, encodeFrame h payload (replicate (Z.to_nat needed) Byte.x00) pad = Ok (needed, b :: rest)
    ∧ len (b :: rest) = needed ∧ (Z.land (Z_of_byte b) 128 =? 0) = false
    ∧ decodeFrame (b :: rest) = Ok (h, payload).
Proof.
  intros [Hp Hid Hix Htot] Hpad needed.
  pose proof (len_nonneg payload) as Hpl.
  destruct (nibbles _ _ Hix Htot) as [Hhi Hlo].
  unfold encodeFrame. fold needed.
  rewrite (proj2 (Z.ltb_ge (totalChunks h) geckoMinFragmentChunks)) by (unfold geckoMinFragmentChunks; lia).
  rewrite (proj2 (Z.ltb_ge geckoMaxFragmentChunks _)) by (unfold geckoMaxFragmentChunks; lia). cbn [orb].
  rewrite (proj2 (Z.leb_gt _ _)) by lia.
  rewrite (proj2 (Z.ltb_ge _ _)) by (unfold len; rewrite length_replicate; unfold needed, geckoHeaderSize in *; lia).
  rewrite drop_ge, app_nil_r by (rewrite length_replicate; lia).
  eexists _, _. split; [reflexivity|].
  assert (length (be_bytes 2 (padLen h)) = 2%nat) as Hb by apply length_be_bytes.
  assert (be_Z (be_bytes 2 (padLen h)) = padLen h) as Hbz by (apply be_Z_be_bytes_small; lia).
  destruct (be_bytes 2 (padLen h)) as [|b0 [|b1 [|]]]; try discriminate Hb.
  split; [|split]; [|reflexivity|].
  { subst needed. cbn [app]. rewrite !len_cons, len_app. unfold geckoHeaderSize. lia. }
  unfold decodeFrame. cbn [app].
  rewrite !len_cons, len_app.
  rewrite (proj2 (Z.ltb_ge _ _)) by (pose proof (len_nonneg pad); unfold geckoHeaderSize; lia).
  change (Z.land (Z_of_byte _) geckoFlagFragment =? 0) with false. cbv match.
  cbn [lookup_total list_lookup_total list_lookup_total drop take padLen chunkIdx totalChunks].
  rewrite take_0, Hhi, Hlo, Hbz.
  rewrite (proj2 (Z.ltb_ge (totalChunks h) geckoMinFragmentChunks)) by (unfold geckoMinFragmentChunks; lia).
  rewrite (proj2 (Z.ltb_ge geckoMaxFragmentChunks _)) by (unfold geckoMaxFragmentChunks; lia). cbn [orb].
  rewrite (proj2 (Z.leb_gt _ _)) by lia.
  rewrite (proj2 (Z.ltb_ge _ _)) by (unfold geckoHeaderSize; lia).
  rewrite byte_of_Z_small by lia. do 2 f_equal; [by destruct h|].
  replace (Z.to_nat (geckoHeaderSize + padLen h)) with (5 + length pad)%nat
    by (unfold geckoHeaderSize, len in *; lia).
  cbn [Nat.add drop]. apply drop_app_length.
Qed.

(** ** Lemmas: the caps *)
Definition of_source (a : string) (m : gmap reassemblyKey reassemblyEntry) : gmap reassemblyKey reassemblyEntry :=
  filter (λ kv, kv.1.1 = a) m.

Definition pending (a : string) (m : gmap reassemblyKey reassemblyEntry) : Z := Z.of_nat (size (of_source a m)).

Record entry_ok (e : reassemblyEntry) : Prop := {
  eo_chunks : len (chunks e) = total e;
  eo_received : received e = len (filter (λ c, is_Some c) (chunks e));
  eo_partial : received e < total e;
  eo_total : 2 <= total e <= 8;
}.

(** The counters count, nothing is complete, and no source has more than eight
    messages pending; [n] bounds the table. *)
Record table_ok (n : Z) (m : gmap reassemblyKey reassemblyEntry) (ps : gmap string Z) : Prop := {
  to_source a : ps !! a = if pending a m =? 0 then None else Some (pending a m);
  to_caps a : pending a m <= geckoMaxPerSource;
  to_size : Z.of_nat (size m) <= n;
  to_entries k e : m !! k = Some e → entry_ok e;
}.

Lemma pending_nonneg a m : 0 <= pending a m.
Proof. unfold pending. lia. Qed.

Lemma pending_insert a k e m : m !! k = None →
  pending a (<[k := e]> m) = pending a m + (if decide (k.1 = a) then 1 else 0).
Proof.
  intros Hk. unfold pending, of_source. destruct (decide (k.1 = a)) as [Ha|Ha].
  - rewrite map_filter_insert_True by done.
    rewrite map_size_insert_None by (apply map_lookup_filter_None; by left). lia.
  - rewrite map_filter_insert_False by done. rewrite delete_id by done. lia.
Qed.

Lemma pending_update a k e m : is_Some (m !! k) → pending a (<[k := e]> m) = pending a m.
Proof.
  intros [e' Hk]. rewrite <-(insert_delete_id m k e' Hk) at 2. rewrite <-insert_delete_eq.
  rewrite !pending_insert by apply lookup_delete_eq. done.
Qed.

Lemma pending_delete a k m : is_Some (m !! k) →
  pending a (delete k m) = pending a m - (if decide (k.1 = a) then 1 else 0).
Proof.
  intros [e Hk]. rewrite <-(insert_delete_id m k e Hk) at 2.
  rewrite pending_insert by apply lookup_delete_eq. lia.
Qed.

Lemma pending_le_size a m : pending a m <= Z.of_nat (size m).
Proof.
  unfold pending, of_source. apply Nat2Z.inj_le. apply map_subseteq_size, map_filter_subseteq.
Qed.

Lemma to_count n m ps a : table_ok n m ps → default 0 (ps !! a) = pending a m.
Proof.
  intros [Hs _ _ _]. rewrite Hs. destruct (Z.eqb_spec (pending a m) 0); [by symmetry|done].
Qed.

Lemma table_delete n m ps k : table_ok n m ps → is_Some (m !! k) →
  table_ok (n - 1) (delete k m)
    (let c := default 0 (ps !! k.1) - 1 in if c <=? 0 then delete k.1 ps else <[k.1 := c]> ps).
Proof.
  intros Hok Hk. pose proof (to_count _ _ _ k.1 Hok) as Hc. rewrite Hc. cbv zeta.
  assert (1 <= pending k.1 m) as H1.
  { pose proof (pending_delete k.1 k m Hk) as Hd. rewrite decide_True in Hd by done.
    pose proof (pending_nonneg k.1 (delete k m)). lia. }
  destruct Hok as [Hs Hcap Hn He]. split.
  - intros a. rewrite pending_delete by done. destruct (decide (k.1 = a)) as [<-|Ha].
    + destruct (Z.leb_spec (pending k.1 m - 1) 0), (Z.eqb_spec (pending k.1 m - 1) 0); try lia.
      * by rewrite lookup_delete_eq.
      * by rewrite lookup_insert_eq.
    + rewrite Z.sub_0_r, <-Hs. case_if; [by rewrite lookup_delete_ne | by rewrite lookup_insert_ne].
  - intros a. rewrite pending_delete by done. specialize (Hcap a). case_decide; lia.
  - rewrite map_size_delete_Some by done. destruct Hk as [e Hk].
    assert (size m ≠ 0%nat) by (by intros E%map_size_empty_iff; rewrite E in Hk). lia.
  - intros k' e' [_ Hk']%lookup_delete_Some. eauto.
Qed.

Lemma table_insert n m ps k e : table_ok n m ps → m !! k = None → entry_ok e →
  pending k.1 m < geckoMaxPerSource →
  table_ok (n + 1) (<[k := e]> m) (<[k.1 := default 0 (ps !! k.1) + 1]> ps).
Proof.
  intros Hok Hk Hentry Hlt. rewrite (to_count _ _ _ k.1 Hok). destruct Hok as [Hs Hcap Hn He]. split.
  - intros a. rewrite pending_insert by done. destruct (decide (k.1 = a)) as [<-|Ha].
    + rewrite lookup_insert_eq. pose proof (pending_nonneg k.1 m).
      destruct (Z.eqb_spec (pending k.1 m + 1) 0); [lia|done].
    + by rewrite lookup_insert_ne, Z.add_0_r, <-Hs.
  - intros a. rewrite pending_insert by done. specialize (Hcap a). case_decide as Ha; [rewrite <-Ha|]; lia.
  - rewrite map_size_insert_None by done. lia.
  - intros k' e' [[<- <-]|[_ ?]]%lookup_insert_Some; eauto.
Qed.

Lemma table_update n m ps k e : table_ok n m ps → is_Some (m !! k) → entry_ok e →
  table_ok n (<[k := e]> m) ps.
Proof.
  intros [Hs Hcap Hn He] Hk Hentry. split.
  - intros a. by rewrite pending_update.
  - intros a. by rewrite pending_update.
  - by rewrite map_size_insert_Some.
  - intros k' e' [[<- <-]|[_ ?]]%lookup_insert_Some; eauto.
Qed.

Lemma table_weaken n n' m ps : table_ok n m ps → n <= n' → table_ok n' m ps.
Proof. intros [? ? ? ?] ?. split; try done. lia. Qed.

(** Storing a fragment in an empty slot. *)
Lemma filled_slots (l : list (option bytes)) i c :
  l !! i = Some None →
  len (filter (λ c, is_Some c) (<[i := Some c]> l)) = len (filter (λ c, is_Some c) l) + 1.
Proof.
  intros Hi. pose proof (lookup_lt_Some _ _ _ Hi).
  rewrite insert_take_drop by done. rewrite <-(take_drop_middle l i None Hi) at 3.
  rewrite !filter_app, filter_cons_True, filter_cons_False by (eauto || by intros [??]).
  rewrite !len_app, len_cons. lia.
Qed.

Lemma entry_store e i c :
  entry_ok e → chunks e !! i = Some None → received e + 1 < total e →
  entry_ok (mkEntry (<[i := Some c]> (chunks e)) (received e + 1) (total e) (deadline e)).
Proof.
  intros [Hc Hr Hp Ht] Hi Hlt. split; cbn [chunks received total]; [|rewrite filled_slots by done; lia|done|done].
  unfold len in *. by rewrite length_insert.
Qed.

Lemma decodeFrame_header_ok input h payload : decodeFrame input = Ok (h, payload) → header_ok h.
Proof.
  unfold decodeFrame. destruct (len input <? geckoHeaderSize) eqn:Hlen; [done|].
  do 4 (case_if; [done|]). intros [= <- _].
  cbn [padLen msgID chunkIdx totalChunks] in *.
  unfold geckoMinFragmentChunks, geckoMaxFragmentChunks, geckoHeaderSize in *.
  split; cbn [padLen msgID chunkIdx totalChunks].
  - pose proof (be_Z_bound (take 2 (drop 3 input))) as Hb.
    assert (len (take 2 (drop 3 input)) = 2) as E
      by (unfold len in *; rewrite length_take, length_drop; lia).
    rewrite E in Hb. change (256 ^ 2) with 65536 in Hb. lia.
  - pose proof (Z_of_byte_bound (input !!! 1%nat)). lia.
  - split; [|lia]. apply Z.shiftr_nonneg. apply Z_of_byte_bound.
  - lia.
Qed.

Section Invariant.
Context `{Primitives} `{!MapRange reassemblyKey reassemblyEntry}.

Definition bounded (n : Z) (g : geckoPacketConn) : Prop := table_ok n (reassembly g) (perSource g).

Lemma bounded_new i lo hi : bounded geckoMaxReassembly (newGeckoPacketConn i lo hi).
Proof. by split. Qed.

Lemma dropEntryLocked_bounded n k g :
  bounded n g → is_Some (reassembly g !! k) → bounded (n - 1) (dropEntryLocked k g).
Proof.
  intros Hg Hk. pose proof (table_delete _ _ _ _ Hg Hk) as Hd. destruct Hk as [e Hk].
  unfold dropEntryLocked. by rewrite Hk.
Qed.

Lemma dropEntryLocked_le n k g : bounded n g → bounded n (dropEntryLocked k g).
Proof.
  intros Hg. destruct (reassembly g !! k) as [e|] eqn:Hk.
  - apply (table_weaken (n - 1)); [by apply dropEntryLocked_bounded|lia].
  - unfold dropEntryLocked. by rewrite Hk.
Qed.

Lemma evictOldestLocked_bounded n g :
  bounded n g → reassembly g ≠ ∅ → bounded (n - 1) (evictOldestLocked g).
Proof.
  intros Hg Hne. unfold evictOldestLocked. pose proof (range_min_map deadline (reassembly g)) as Hm.
  destruct (range_min _ _) as [[k t]|]; [|done].
  destruct Hm as (e & Hk & _). apply dropEntryLocked_bounded; eauto.
Qed.

Lemma gcExpired_bounded n now g : bounded n g → bounded n (gcExpired now g).
Proof.
  unfold gcExpired. generalize (map_range (reassembly g)). intros l. revert g.
  induction l as [|[k e] l IH]; intros g Hg; cbn [foldl]; [done|].
  apply IH. case_if; [by apply dropEntryLocked_le|done].
Qed.

Lemma store_chunk_bounded n k h payload e g :
  bounded n g → reassembly g !! k = Some e → 0 <= chunkIdx h →
  bounded n (store_chunk k h payload e g).1.
Proof.
  intros Hg Hk Hidx. unfold store_chunk. destruct (_ || _) eqn:Hbad; [done|].
  apply orb_false_elim in Hbad as [Hlen Hslot]. bool_to_Z. apply bool_decide_eq_false in Hslot.
  pose proof (to_entries _ _ _ Hg _ _ Hk) as He.
  assert (chunks e !! Z.to_nat (chunkIdx h) = Some None) as Hi.
  { destruct (lookup_lt_is_Some_2 (chunks e) (Z.to_nat (chunkIdx h))) as [o Ho]; [unfold len in *; lia|].
    rewrite (list_lookup_total_correct _ _ _ Ho) in Hslot. destruct o; [|done]. exfalso; eauto. }
  cbn [received total chunks]. destruct (Z.ltb_spec (received e + 1) (total e)); cbn [fst].
  - apply table_update; [done|eauto|by apply entry_store].
  - unfold dropEntryLocked. cbn [set_table reassembly perSource]. rewrite lookup_insert_eq, delete_insert_eq.
    apply (table_weaken (n - 1)); [|lia]. apply table_delete; eauto.
Qed.

Lemma acceptChunk_bounded addr h payload now g :
  bounded geckoMaxReassembly g → header_ok h → bounded geckoMaxReassembly (acceptChunk addr h payload now g).1.
Proof.
  intros Hg Hh. unfold acceptChunk. destruct (reassembly g !! (addr, msgID h)) as [e|] eqn:Hk.
  - destruct (negb _); [done|]. apply store_chunk_bounded; [done..|]. apply Hh.
  - destruct (Z.leb_spec geckoMaxPerSource (default 0 (perSource g !! addr))) as [|Hcap]; [done|].
    set (g' := if geckoMaxReassembly <=? _ then _ else _).
    assert (bounded (geckoMaxReassembly - 1) g' ∧ reassembly g' !! (addr, msgID h) = None
            ∧ pending addr (reassembly g') < geckoMaxPerSource) as (Hg' & Hk' & Hp').
    { rewrite (to_count _ _ _ addr Hg) in Hcap. unfold g'. clear g'. case_if.
      - assert (reassembly g ≠ ∅) as Hne by (intros E; rewrite E in *; done).
        split; [by apply evictOldestLocked_bounded|].
        unfold evictOldestLocked. pose proof (range_min_map deadline (reassembly g)) as Hm.
        destruct (range_min _ _) as [[k t]|]; [|done]. destruct Hm as (e & Hke & _).
        unfold dropEntryLocked. rewrite Hke. cbn [set_table reassembly].
        split; [by apply lookup_delete_None; right|]. rewrite pending_delete by eauto. case_decide; lia.
      - split; [|done]. destruct Hg as [? ? ? ?]. split; try done. lia. }
    clearbody g'. apply store_chunk_bounded; cbn [set_table reassembly perSource];
      [|by rewrite lookup_insert_eq|apply Hh].
    replace geckoMaxReassembly with (geckoMaxReassembly - 1 + 1) by done.
    apply (table_insert _ _ _ (addr, msgID h)); [done..| |done].
    pose proof (ho_total _ Hh). split; cbn [chunks received total]; try lia.
    + unfold len. rewrite length_replicate. lia.
    + assert (∀ n, filter (λ c, is_Some c) (replicate n (@None bytes)) = []) as Hf; [|by rewrite Hf].
      induction n as [|n IH]; [done|]. cbn [replicate]. rewrite filter_cons_False by (by intros [??]). done.
Qed.

(** Every call on the connection. *)
Inductive call : Type :=
| CallRead (cap : Z) (incoming : list datagram)
| CallWrite (rnd : Random) (fails : nat → bool) (p : bytes)
| CallTick (now : Z)
| CallClose.

Definition step (g : geckoPacketConn) (c : call) : geckoPacketConn * option (bytes * string * bool) :=
  match c with
  | CallRead cap incoming => (ReadFrom cap incoming g).1
  | CallWrite rnd fails p => ((WriteTo rnd fails p g).1.1, None)
  | CallTick now => (gcTick now g, None)
  | CallClose => (Close g, None)
  end.

Lemma read_loop_bounded fuel cap incoming g :
  bounded geckoMaxReassembly g → bounded geckoMaxReassembly (read_loop fuel cap incoming g).1.1.
Proof.
  revert incoming g. induction fuel as [|fuel IH]; intros incoming g Hg; cbn [read_loop]; [done|].
  destruct (Obfs.ReadFrom _ _ _) as [[i [[[buf addr] err]|]] incoming']; [|done].
  assert (bounded geckoMaxReassembly (set_inner i g)) as Hi by done. revert Hi.
  generalize (set_inner i g). clear g Hg. intros g Hg.
  destruct err; [done|]. destruct buf as [|b buf]; [auto|]. case_if; [done|].
  destruct (decodeFrame (b :: buf)) as [|[h payload]] eqn:Hd; [auto|].
  apply decodeFrame_header_ok in Hd.
  set (now := default 0 _). pose proof (acceptChunk_bounded addr h payload now g Hg Hd) as Ha.
  destruct (acceptChunk _ _ _ _ _) as [g' [out|]]; [done|]. by apply IH.
Qed.

Lemma step_bounded g c : bounded geckoMaxReassembly g → bounded geckoMaxReassembly (step g c).1.
Proof.
  intros Hg. destruct c as [cap incoming|rnd fails p|now|]; cbn [step fst].
  - by apply read_loop_bounded.
  - unfold WriteTo, writeFragmented. destruct p as [|b p]; [done|].
    case_if; [by destruct (send_fragments _ _ _ _ _ _ _)|]. case_if; done.
  - unfold gcTick. case_if; [done|]. by apply gcExpired_bounded.
  - done.
Qed.
End Invariant.

(** ** Lemmas: one message *)

(** The payload of fragment [i]. *)
Definition chunk_at (p : bytes) (n i : Z) : bytes :=
  let chunkSize := quot (len p) n in
  let start := i * chunkSize in
  let stop := if i <? n - 1 then start + chunkSize else len p in
  take (Z.to_nat (stop - start)) (drop (Z.to_nat start) p).

Lemma chunks_prefix p n k : 2 <= n → (Z.of_nat k < n) →
  mjoin (chunk_at p n <$> seqZ 0 (Z.of_nat k)) = take (k * Z.to_nat (quot (len p) n)) p.
Proof.
  intros Hn. pose proof (len_nonneg p). pose proof (Z.quot_pos (len p) n ltac:(lia) ltac:(lia)) as Hq.
  induction k as [|k IH]; intros Hk; [done|].
  replace (Z.of_nat (S k)) with (Z.of_nat k + 1) by lia.
  rewrite seqZ_app, fmap_app, join_app, IH by lia. cbn [Z.add]. rewrite Z.add_0_l.
  change (seqZ (Z.of_nat k) 1) with [Z.of_nat k]. cbn [fmap list_fmap mjoin list_join]. rewrite app_nil_r.
  unfold chunk_at. rewrite (proj2 (Z.ltb_lt _ _)) by lia.
  replace (Z.of_nat k * quot (len p) n + quot (len p) n - Z.of_nat k * quot (len p) n) with (quot (len p) n) by lia.
  rewrite Z2Nat.inj_mul, Nat2Z.id by lia.
  replace (S k * Z.to_nat (quot (len p) n))%nat
    with (k * Z.to_nat (quot (len p) n) + Z.to_nat (quot (len p) n))%nat by lia.
  apply take_take_drop.
Qed.

Lemma chunks_whole p n : 2 <= n → mjoin (chunk_at p n <$> seqZ 0 n) = p.
Proof.
  intros Hn. pose proof (len_nonneg p).
  pose proof (Z.quot_pos (len p) n ltac:(lia) ltac:(lia)) as Hq.
  pose proof (Z.mul_quot_le (len p) n ltac:(lia) ltac:(lia)) as Hqn.
  replace n with ((n - 1) + 1) at 2 by lia.
  rewrite seqZ_app, fmap_app, join_app by lia. rewrite Z.add_0_l.
  rewrite <-(Z2Nat.id (n - 1)) at 1 by lia. rewrite chunks_prefix by lia.
  change (seqZ (n - 1) 1) with [n - 1]. cbn [fmap list_fmap mjoin list_join]. rewrite app_nil_r.
  unfold chunk_at. rewrite (proj2 (Z.ltb_ge _ _)) by lia.
  rewrite Z2Nat.inj_mul by lia. rewrite (take_ge (drop _ _)); [apply take_drop|].
  rewrite length_drop. unfold len in *. nia.
Qed.

Lemma chunk_at_length p n i : len (chunk_at p n i) <= len p.
Proof. unfold chunk_at, len. rewrite length_take, length_drop. lia. Qed.

Lemma randIntn_bound r n : 1 <= n < 2 ^ 32 → 0 <= randIntn r n < n.
Proof.
  intros Hn. unfold randIntn. case_if; [lia|]. rewrite (wrapU_small _ n) by lia.
  apply Z.mod_pos_bound. lia.
Qed.

Lemma randomFragmentChunks_bound r : 2 <= randomFragmentChunks r <= 8.
Proof.
  unfold randomFragmentChunks, geckoMinFragmentChunks, geckoMaxFragmentChunks.
  pose proof (randIntn_bound r (8 - 2 + 1) ltac:(lia)). lia.
Qed.

(** The padded datagram is within the configured bounds, unless the fragment
    alone exceeds them. *)
Lemma randomPadLen_spec g r n :
  0 <= n → 0 <= minPkt g <= maxPkt g → maxPkt g <= geckoBufferSize →
  let size := smSaltLen + geckoHeaderSize + n in
  let pad := randomPadLen g r n in
  0 <= pad < 65536 ∧
  (if maxPkt g <? size then pad = 0 else minPkt g <= size + pad <= maxPkt g).
Proof.
  intros Hn Hlo Hhi size pad. unfold geckoBufferSize in *. unfold pad, randomPadLen. clear pad. fold size.
  assert (0 <= size) by (unfold size, smSaltLen, geckoHeaderSize; lia).
  destruct (Z.ltb_spec (maxPkt g) (Z.max (minPkt g) size)) as [H1|H1].
  - rewrite (proj2 (Z.ltb_lt (maxPkt g) size)) by lia. lia.
  - rewrite (proj2 (Z.ltb_ge (maxPkt g) size)) by lia.
    pose proof (randIntn_bound r (maxPkt g - Z.max (minPkt g) size + 1) ltac:(lia)).
    rewrite wrapU_small by lia. lia.
Qed.

Section Delivery.
Context `{Primitives} `{!MapRange reassemblyKey reassemblyEntry}.

(** The frame of a fragment decodes to it and fits a datagram. *)
Lemma fragment_frame_spec g rnd p n id i :
  2 <= n <= 8 → 0 <= i < n → 0 <= id < 256 → len p <= 2035 →
  0 <= minPkt g <= maxPkt g → maxPkt g <= geckoBufferSize →
  ∃ b rest h, fragment_frame g rnd p n id i = Ok (b :: rest)
    ∧ (Z.land (Z_of_byte b) 128 =? 0) = false
    ∧ len (b :: rest) + smSaltLen <= geckoBufferSize
    ∧ decodeFrame (b :: rest) = Ok (h, chunk_at p n i)
    ∧ msgID h = id ∧ chunkIdx h = i ∧ totalChunks h = n.
Proof.
  intros Hn Hi Hid Hp Hlo Hhi. unfold fragment_frame. fold (chunk_at p n i).
  pose proof (len_nonneg (chunk_at p n i)) as Hc0. pose proof (chunk_at_length p n i) as Hc1.
  generalize dependent (chunk_at p n i). intros c Hc0 Hc1.
  pose proof (randomPadLen_spec g (rnd_pad rnd (Z.to_nat i)) (len c) Hc0 Hlo Hhi) as Hpad. cbv zeta in Hpad.
  generalize dependent (randomPadLen g (rnd_pad rnd (Z.to_nat i)) (len c)). intros pad [Hpad Hfit].
  rewrite !wrapU_small by lia.
  destruct (decodeFrame_encodeFrame (mkFrameHeader pad id i n) c (rnd_fill rnd (Z.to_nat i) (Z.to_nat pad)))
    as (b & rest & Henc & Hlen & Hb & Hdec).
  { split; cbn; lia. }
  { unfold len. rewrite rnd_fill_length. cbn. lia. }
  cbn [padLen] in *. rewrite Henc. cbn [mbind result_bind].
  rewrite take_ge by (unfold len in *; lia).
  exists b, rest, (mkFrameHeader pad id i n). split; [done|]. split; [done|]. split; [|done].
  rewrite Hlen. unfold geckoBufferSize, geckoHeaderSize, smSaltLen in *. case_if; lia.
Qed.

(** What is on the wire for fragment [i]. *)
Definition wire_at (g : geckoPacketConn) (rnd : Random) (p : bytes) (n id i : Z) : bytes :=
  match fragment_frame g rnd p n id i with
  | Ok frame => (Obfs.WriteTo (rnd_salt rnd (Z.to_nat i)) frame 0 (inner g)).1
  | Err _ => []
  end.

Lemma send_fragments_spec g rnd p n id l :
  2 <= n <= 8 → 0 <= id < 256 → len p <= 2035 →
  0 <= minPkt g <= maxPkt g → maxPkt g <= geckoBufferSize →
  (∀ i, i ∈ l → 0 <= i < n) →
  send_fragments g rnd (λ _, false) p n id l = (wire_at g rnd p n id <$> l, Ok ()).
Proof.
  intros Hn Hid Hp Hlo Hhi. induction l as [|i l IH]; intros Hl; [done|].
  cbn [send_fragments fmap list_fmap]. rewrite IH by (intros; apply Hl; by right). unfold wire_at at 2.
  destruct (fragment_frame_spec g rnd p n id i) as (b & rest & h & Hf & _);
    [done|apply Hl; by left|done..|]. by rewrite Hf.
Qed.

(** The connection below gives back the frame it was given. *)
Lemma inner_delivers gs i rnd k frame addr now rest :
  i.1 = (inner gs).1 → 0 < len frame → len frame + smSaltLen <= geckoBufferSize →
  Obfs.ReadFrom geckoBufferSize
    (mkDatagram (Obfs.WriteTo (rnd_salt rnd k) frame 0 (inner gs)).1 addr false now :: rest) i
  = (i, Some (frame, addr, false), rest).
Proof.
  intros Hi Hf Hfit. unfold Obfs.WriteTo. cbn [ob_Obfuscate salamander_obfuscator fst].
  unfold geckoBufferSize, smSaltLen in *.
  destruct (Obfuscate (inner gs).1 (rnd_salt rnd k) frame udpBufferSize) as [wire|] eqn:Hw.
  2:{ exfalso. revert Hw. unfold Obfuscate, udpBufferSize, smSaltLen. case_if; [lia|done]. }
  assert (len wire = len frame + 8) as Hlw.
  { revert Hw. unfold Obfuscate. case_if; [done|]. intros [= <-].
    unfold len. rewrite length_app, xor_key_length, rnd_salt_length. lia. }
  cbn [default from_option Obfs.ReadFrom dg_data dg_addr dg_err dg_now]. change (id wire) with wire.
  rewrite take_ge by (unfold len, udpBufferSize in *; lia).
  rewrite (proj2 (Z.leb_gt _ _)) by lia. cbn [ob_Deobfuscate salamander_obfuscator].
  rewrite Hi, (Deobfuscate_Obfuscate _ (rnd_salt rnd k) frame udpBufferSize); [done| |lia|done].
  apply rnd_salt_length.
Qed.

(** *** Reassembly *)

(** The slots of a message of which the fragments [got] have arrived. *)
Definition slots (cs : list bytes) (got : list Z) : list (option bytes) :=
  imap (λ i c, if decide (Z.of_nat i ∈ got) then Some c else None) cs.

Lemma slots_nil cs : slots cs [] = replicate (length cs) None.
Proof.
  unfold slots. apply list_eq. intros i. rewrite list_lookup_imap.
  destruct (decide (i < length cs)%nat).
  - rewrite lookup_replicate_2 by done.
    destruct (lookup_lt_is_Some_2 cs i ltac:(done)) as [c ->]. cbn.
    by rewrite decide_False by (by intros ?%not_elem_of_nil).
  - rewrite !lookup_ge_None_2 by (rewrite ?length_replicate; lia). done.
Qed.

Lemma slots_lookup cs got i c :
  cs !! Z.to_nat i = Some c → 0 <= i →
  slots cs got !! Z.to_nat i = Some (if decide (i ∈ got) then Some c else None).
Proof.
  intros Hc Hi. unfold slots. rewrite list_lookup_imap, Hc. cbn. by rewrite Z2Nat.id by lia.
Qed.

Lemma slots_insert cs got i c :
  cs !! Z.to_nat i = Some c → 0 <= i →
  <[Z.to_nat i := Some c]> (slots cs got) = slots cs (i :: got).
Proof.
  intros Hc Hi. apply list_eq. intros j. destruct (decide (j = Z.to_nat i)) as [->|Hj].
  - rewrite list_lookup_insert_eq by (unfold slots; rewrite length_imap; by eapply lookup_lt_Some).
    rewrite (slots_lookup _ _ _ c) by done. by rewrite decide_True by by left.
  - rewrite list_lookup_insert_ne by done. unfold slots. rewrite !list_lookup_imap.
    destruct (cs !! j) as [c'|]; cbn; [|done]. f_equal.
    destruct (decide (Z.of_nat j ∈ got)); [by rewrite decide_True by by right|].
    rewrite decide_False; [done|]. intros [?|?]%elem_of_cons; [lia|done].
Qed.

Lemma slots_full cs got : (∀ i, 0 <= i < len cs → i ∈ got) → mjoin (default [] <$> slots cs got) = mjoin cs.
Proof.
  intros Hall. f_equal. apply list_eq. intros i. unfold slots. rewrite list_lookup_fmap, list_lookup_imap.
  destruct (cs !! i) as [c|] eqn:Hi; cbn; [|done]. apply lookup_lt_Some in Hi.
  rewrite decide_True by (apply Hall; unfold len; lia). done.
Qed.

(** The connection while the message [key] is being put together. *)
Definition during (g : geckoPacketConn) (key : reassemblyKey) (cs : list bytes) (dl : Z) (got : list Z)
    : geckoPacketConn :=
  set_table (<[key := mkEntry (slots cs got) (len got) (len cs) dl]> (reassembly g))
    (<[key.1 := default 0 (perSource g !! key.1) + 1]> (perSource g)) g.

Lemma during_drop g key cs dl got :
  bounded geckoMaxReassembly g → reassembly g !! key = None →
  dropEntryLocked key (during g key cs dl got) = g.
Proof.
  intros Hg Hk. unfold dropEntryLocked, during. cbn [set_table reassembly perSource].
  rewrite lookup_insert_eq, delete_insert_id by done. rewrite lookup_insert_eq. cbn [default from_option id].
  rewrite insert_insert_eq, delete_insert_eq.
  pose proof (pending_nonneg key.1 (reassembly g)) as Hp. pose proof (to_source _ _ _ Hg key.1) as Hs.
  rewrite (to_count _ _ _ _ Hg). destruct g. cbn [reassembly perSource] in *. unfold set_table. cbn. f_equal.
  destruct (Z.eqb_spec (pending key.1 reassembly0) 0) as [E|E]; case_if; try lia.
  - by rewrite delete_id.
  - rewrite insert_id; [done|]. rewrite Hs. f_equal. lia.
Qed.

(** A fragment that has not arrived yet is kept, and the last one completes the
    message and leaves no trace of it. *)
Lemma during_accept g addr h cs c dl got now :
  let key := (addr, msgID h) in
  bounded geckoMaxReassembly g → reassembly g !! key = None →
  totalChunks h = len cs → 0 <= chunkIdx h → cs !! Z.to_nat (chunkIdx h) = Some c → chunkIdx h ∉ got →
  acceptChunk addr h c now (during g key cs dl got) =
  if len got + 1 <? len cs then (during g key cs dl (chunkIdx h :: got), None)
  else (g, Some (mjoin (default [] <$> slots cs (chunkIdx h :: got)))).
Proof.
  intros key Hg Hk Ht Hi Hc Hn. unfold acceptChunk, during. fold key. cbn [set_table reassembly perSource].
  rewrite lookup_insert_eq. cbn [total]. rewrite Ht, Z.eqb_refl. cbn [negb].
  unfold store_chunk. cbn [chunks received total deadline].
  pose proof (lookup_lt_Some _ _ _ Hc) as Hlt.
  rewrite (list_lookup_total_correct _ _ _ (slots_lookup cs got _ c Hc Hi)).
  rewrite decide_False by done. unfold slots at 1, len at 1. rewrite length_imap.
  rewrite (proj2 (Z.leb_gt _ _)) by lia. cbn [orb]. rewrite bool_decide_eq_false_2 by (by intros [??]).
  rewrite (slots_insert _ _ _ _ Hc Hi). cbn [set_table reassembly perSource].
  rewrite insert_insert_eq. replace (len got + 1) with (len (chunkIdx h :: got)) by (rewrite len_cons; lia).
  destruct (_ <? _); [done|]. f_equal. apply (during_drop g key cs dl (chunkIdx h :: got)); done.
Qed.

Lemma first_accept g addr h cs c now :
  let key := (addr, msgID h) in
  bounded geckoMaxReassembly g → reassembly g !! key = None →
  pending addr (reassembly g) < geckoMaxPerSource → Z.of_nat (size (reassembly g)) < geckoMaxReassembly →
  totalChunks h = len cs → 2 <= len cs → 0 <= chunkIdx h → cs !! Z.to_nat (chunkIdx h) = Some c →
  acceptChunk addr h c now g = (during g key cs (now + geckoReassemblyTTL) [chunkIdx h], None).
Proof.
  intros key Hg Hk Hp Hsz Ht Hcs Hi Hc.
  assert (acceptChunk addr h c now g = acceptChunk addr h c now (during g key cs (now + geckoReassemblyTTL) [])) as ->.
  { unfold acceptChunk, during. fold key. rewrite Hk. cbn [set_table reassembly perSource].
    rewrite (to_count _ _ _ addr Hg). rewrite (proj2 (Z.leb_gt _ _)) by done.
    rewrite (proj2 (Z.leb_gt _ _)) by done. rewrite lookup_insert_eq. cbn [total].
    rewrite Ht, Z.eqb_refl, slots_nil. unfold len at 1. rewrite Nat2Z.id.
    change (len []) with 0. cbn [negb key fst]. rewrite (to_count _ _ _ addr Hg).
    unfold len at 2. by rewrite Nat2Z.id. }
  rewrite (during_accept g addr h cs c) by (done || by intros ?%not_elem_of_nil).
  change (len [] + 1) with 1. by rewrite (proj2 (Z.ltb_lt _ _)) by lia.
Qed.

(** One turn of the read loop on a fragment that was written by the peer. *)
Lemma read_loop_fragment gs rnd p n id i addr now gr fuel cap rest :
  2 <= n <= 8 → 0 <= i < n → 0 <= id < 256 → len p <= 2035 →
  0 <= minPkt gs <= maxPkt gs → maxPkt gs <= geckoBufferSize → (inner gr).1 = (inner gs).1 →
  ∃ h, msgID h = id ∧ chunkIdx h = i ∧ totalChunks h = n ∧
  read_loop (S fuel) cap (mkDatagram (wire_at gs rnd p n id i) addr false now :: rest) gr =
  let '(g, out) := acceptChunk addr h (chunk_at p n i) now gr in
  match out with
  | None => read_loop fuel cap rest g
  | Some out => (g, Some (take (Z.to_nat cap) out, addr, false), rest)
  end.
Proof.
  intros Hn Hi Hid Hp Hlo Hhi Hin.
  destruct (fragment_frame_spec gs rnd p n id i) as (b & fr & h & Hf & Hb & Hlen & Hdec & Hh); [done..|].
  exists h. destruct Hh as (? & ? & ?). split; [done|]. split; [done|]. split; [done|].
  cbn [read_loop]. unfold wire_at. rewrite Hf. rewrite inner_delivers by (done || rewrite len_cons; pose proof (len_nonneg fr); lia).
  rewrite Hb, Hdec.
  replace (length _ - length rest - 1)%nat with 0%nat by (cbn [length]; lia). cbn [lookup list_lookup fmap option_fmap option_map default from_option dg_now].
  by destruct gr.
Qed.

(** What remains to be read once the fragments [got] have arrived. *)
Lemma read_loop_rest gs rnd p n id addr gr cap rest dl got order nows fuel :
  let cs := chunk_at p n <$> seqZ 0 n in
  let key := (addr, id) in
  2 <= n <= 8 → 0 <= id < 256 → len p <= 2035 →
  0 <= minPkt gs <= maxPkt gs → maxPkt gs <= geckoBufferSize → (inner gr).1 = (inner gs).1 →
  bounded geckoMaxReassembly gr → reassembly gr !! key = None →
  got ++ order ≡ₚ seqZ 0 n → order ≠ [] → length nows = length order →
  (length order <= fuel)%nat →
  read_loop fuel cap
    (zip_with (λ i now, mkDatagram (wire_at gs rnd p n id i) addr false now) order nows ++ rest)
    (during gr key cs dl got) = (gr, Some (take (Z.to_nat cap) p, addr, false), rest).
Proof.
  intros cs key Hn Hid Hp Hlo Hhi Hin Hg Hk.
  assert (len cs = n) as Hcs by (unfold cs, len; rewrite length_fmap, length_seqZ; lia).
  revert got nows fuel. induction order as [|i order IH]; intros got nows fuel Hperm Hne Hl Hfuel; [done|].
  destruct nows as [|now nows]; [done|]. destruct fuel as [|fuel]; [cbn in Hfuel; lia|].
  cbn [zip_with app].
  assert (NoDup (got ++ i :: order)) as Hnd by (rewrite Hperm; apply NoDup_seqZ).
  assert (0 <= i < n) as Hi.
  { assert (i ∈ seqZ 0 n) as Hs%elem_of_seqZ; [|lia]. rewrite <-Hperm. apply elem_of_app. right. by left. }
  destruct (read_loop_fragment gs rnd p n id i addr now (during gr key cs dl got) fuel cap
              (zip_with (λ i now, mkDatagram (wire_at gs rnd p n id i) addr false now) order nows ++ rest))
    as (h & Hhid & Hhi' & Hht & ->); [done..|].
  assert (cs !! Z.to_nat (chunkIdx h) = Some (chunk_at p n i)) as Hc.
  { unfold cs. rewrite list_lookup_fmap, Hhi', lookup_seqZ_lt by lia. cbn. do 2 f_equal. lia. }
  assert (chunkIdx h ∉ got) as Hnot.
  { rewrite Hhi'. apply NoDup_app in Hnd as (_ & Hd & _). intros Hgot. apply (Hd i Hgot). by left. }
  unfold key in *. rewrite <-Hhid in *.
  rewrite (during_accept gr addr h cs (chunk_at p n i)) by (done || lia).
  assert (length got + S (length order) = Z.to_nat n)%nat as Hlen.
  { apply Permutation_length in Hperm. rewrite length_app, length_seqZ in Hperm. cbn [length] in Hperm. lia. }
  rewrite Hhi'. destruct order as [|j order].
  - rewrite (proj2 (Z.ltb_ge _ _)) by (unfold len in *; cbn [length] in *; lia).
    rewrite slots_full; [unfold cs; by rewrite chunks_whole by lia|].
    intros k Hk'. rewrite Hcs in Hk'. assert (k ∈ got ++ [i]) as Hin' by (rewrite Hperm; apply elem_of_seqZ; lia).
    rewrite elem_of_app, list_elem_of_singleton in Hin'. rewrite elem_of_cons. tauto.
  - rewrite (proj2 (Z.ltb_lt _ _)) by (unfold len in *; cbn [length] in *; lia).
    apply IH; [|done|cbn [length] in *; lia|cbn [length] in *; lia].
    rewrite <-Hperm. apply Permutation_middle.
Qed.
End Delivery.

(** Datagrams from one source that carry the fragments in some order. *)
Lemma arrivals_order (f : Z → bytes) l addr arrivals :
  dg_data <$> arrivals ≡ₚ f <$> l →
  Forall (λ d, dg_addr d = addr ∧ dg_err d = false) arrivals →
  ∃ order nows, order ≡ₚ l ∧ length nows = length order ∧
    arrivals = zip_with (λ i now, mkDatagram (f i) addr false now) order nows.
Proof.
  intros Hperm Hfrom.
  destruct (Permutation_map_inv _ _ Hperm) as (order & E & Ho).
  change (map f order) with (f <$> order) in E. exists order, (dg_now <$> arrivals).
  split; [by symmetry|]. clear Hperm Ho. revert order E.
  induction Hfrom as [|d arrivals [Ha He] Hfrom IH]; intros [|i order] E; try done.
  cbn [fmap list_fmap] in E. injection E as E1 E2. destruct (IH _ E2) as [Hl IH'].
  cbn [zip_with fmap list_fmap length]. split; [congruence|]. f_equal; [|done].
  rewrite <-E1. destruct d; cbn in *; by subst.
Qed.

Section Theorems.
Context `{Primitives} `{!MapRange reassemblyKey reassemblyEntry}.

(** C39: Whatever arrives, in whatever order calls are made, the receive path
    holds at most 4096 partial messages, at most eight for one source, counts
    them exactly, and holds none that is complete. *)
Theorem Gecko_bounded i lo hi calls :
  let g := (run step (newGeckoPacketConn i lo hi) calls).1 in
  Z.of_nat (size (reassembly g)) <= 4096 ∧
  (∀ a, let n := Z.of_nat (size (filter (λ kv, kv.1.1 = a) (reassembly g))) in
        n <= 8 ∧ perSource g !! a = if n =? 0 then None else Some n) ∧
  (∀ k e, reassembly g !! k = Some e →
     2 <= total e <= 8 ∧ len (chunks e) = total e ∧
     received e = len (filter (λ c, is_Some c) (chunks e)) ∧ received e < total e).
Proof.
  intros g. assert (bounded geckoMaxReassembly g) as [Hs Hc Hn He].
  { apply run_invariant; [apply bounded_new|]. intros. by apply step_bounded. }
  split; [exact Hn|]. split; [intros a; split; [apply Hc|apply Hs]|].
  intros k e Hk. destruct (He k e Hk). auto.
Qed.

(** A packet written by one end is returned by the other, once, whatever
    the number of fragments, their paddings, the salts, the order in which the
    datagrams arrive and the clock, and the receiver is left as it was; the
    receiver must have room for one more message and none pending under the
    same identifier, and the packet leaves room for the frame. *)
Theorem Gecko_delivers gs gr rnd p cap addr arrivals rest :
  (inner gr).1 = (inner gs).1 →
  0 < len p <= 2035 → 0 <= minPkt gs <= maxPkt gs → maxPkt gs <= geckoBufferSize →
  bounded geckoMaxReassembly gr →
  reassembly gr !! (addr, u8 (u32 (nextMsgID gs + 1))) = None →
  pending addr (reassembly gr) < geckoMaxPerSource → Z.of_nat (size (reassembly gr)) < geckoMaxReassembly →
  let '(_, sent, r) := WriteTo rnd (λ _, false) p gs in
  dg_data <$> arrivals ≡ₚ sent →
  Forall (λ d, dg_addr d = addr ∧ dg_err d = false) arrivals →
  r = Ok (len p) ∧ ReadFrom cap (arrivals ++ rest) gr = (gr, Some (take (Z.to_nat cap) p, addr, false), rest).
Proof.
  intros Hin Hp Hlo Hhi Hg Hk Hpend Hsz. unfold WriteTo. destruct p as [|b p']; [by destruct Hp|].
  set (p := b :: p') in *. destruct (negb _) eqn:Hlong.
  - unfold writeFragmented. set (n := randomFragmentChunks _). set (id := u8 _) in *.
    assert (2 <= n <= 8) as Hn by apply randomFragmentChunks_bound.
    assert (0 <= id < 256) as Hid by (apply (wrapU_bound 8); lia).
    rewrite (send_fragments_spec gs rnd p n id) by
      (done || (intros i Hi%elem_of_seqZ; lia) || apply Hp).
    intros Hperm Hfrom. split; [done|].
    destruct (arrivals_order _ _ _ _ Hperm Hfrom) as (order & nows & Ho & Hl & ->). clear Hperm Hfrom.
    assert (length order = Z.to_nat n) as Hlo' by (rewrite Ho; apply length_seqZ).
    destruct order as [|i order]; [cbn in Hlo'; lia|]. destruct nows as [|now nows]; [done|].
    assert (0 <= i < n) as Hi.
    { assert (i ∈ seqZ 0 n) as Hs%elem_of_seqZ; [|lia]. rewrite <-Ho. by left. }
    cbn [zip_with app]. unfold ReadFrom. cbn [length].
    edestruct (read_loop_fragment gs rnd p n id i addr now gr) as (h & Hh1 & Hh2 & Hh3 & ->);
      [done|done|done|apply Hp|done..|].
    set (cs := chunk_at p n <$> seqZ 0 n).
    assert (len cs = n) as Hcs by (unfold cs, len; rewrite length_fmap, length_seqZ; lia).
    rewrite (first_accept gr addr h cs (chunk_at p n i)); try done; try lia; rewrite ?Hh1; try done.
    + apply (read_loop_rest gs rnd p n id); try done.
      * apply Hp.
      * by rewrite Hh2.
      * intros ->. cbn in Hlo'. lia.
      * cbn in Hl. lia.
      * rewrite length_app, length_zip_with. cbn in Hl. lia.
    + unfold cs. rewrite list_lookup_fmap, Hh2, lookup_seqZ_lt by lia. cbn [fmap option_fmap option_map].
      do 2 f_equal. lia.
  - apply negb_false_iff in Hlong.
    destruct (Obfs.WriteTo (rnd_salt rnd 0) p 0 (inner gs)) as [wire m] eqn:Hw.
    assert (m = len p) as -> by (unfold Obfs.WriteTo in Hw; by simplify_eq).
    intros Hperm Hfrom. split; [done|]. symmetry in Hperm. apply Permutation_singleton_l in Hperm.
    destruct arrivals as [|d [|]]; try done. apply Forall_singleton in Hfrom as [Ha He].
    destruct d as [w a e t]. cbn in Hperm, Ha, He. injection Hperm as ->. subst a e.
    assert (w = (Obfs.WriteTo (rnd_salt rnd 0) p 0 (inner gs)).1) as -> by by rewrite Hw.
    unfold ReadFrom. cbn [app length read_loop].
    rewrite inner_delivers by (done || lia || (unfold geckoBufferSize, smSaltLen; lia)).
    unfold p at 1. rewrite Hlong. by destruct gr.
Qed.
End Theorems.

(** ** Witness: a handshake packet in three fragments that arrive in reverse *)
#[local] Existing Instance toy.
#[local] Instance sample_range : MapRange reassemblyKey reassemblyEntry := canonical_range _ _.

Definition sample_random : Random := {|
  rnd_chunks := 1;
  rnd_pad i := Z.of_nat i * 77;
  rnd_fill _ n := replicate n Byte.x55;
  rnd_salt _ := replicate 8 Byte.x07;
  rnd_fill_length _ n := length_replicate _ _;
  rnd_salt_length _ := eq_refl;
|}.

Definition sample_conn : geckoPacketConn := newGeckoPacketConn (string_bytes "password", zero_stats) 512 1200.
Definition sample_packet : bytes := Byte.xff :: string_bytes "client hello".
Definition sample_sent : list bytes := (WriteTo sample_random (λ _, false) sample_packet sample_conn).1.2.
Definition sample_arrivals : list datagram :=
  (λ w, mkDatagram w "192.0.2.1:4433" false 5) <$> reverse sample_sent.

Lemma Gecko_delivers_witness :
  length sample_sent = 3%nat ∧
  ReadFrom 1500 sample_arrivals sample_conn = (sample_conn, Some (sample_packet, "192.0.2.1:4433", false), []).
Proof.
  split; [vm_compute; reflexivity|].
  pose proof (Gecko_delivers sample_conn sample_conn sample_random sample_packet 1500 "192.0.2.1:4433"
    sample_arrivals []) as Hd.
  unfold sample_arrivals, sample_sent in *.
  destruct (WriteTo sample_random _ sample_packet sample_conn) as [[g sent] r]. cbn [fst snd] in *.
  rewrite app_nil_r in Hd.
  change (take (Z.to_nat 1500) sample_packet) with sample_packet in Hd. apply Hd.
  - reflexivity.
  - split; vm_compute; congruence.
  - split; vm_compute; congruence.
  - vm_compute. congruence.
  - apply bounded_new.
  - reflexivity.
  - reflexivity.
  - reflexivity.
  - rewrite <-list_fmap_compose. rewrite (list_fmap_ext _ id) by done. rewrite list_fmap_id. apply reverse_Permutation.
  - by apply Forall_fmap, Forall_true.
Defined.
