(* ===== verification/Disco.v ===== *)
(** * Disco packets (extras/realm/disco.go)

    The keys, the rotating demultiplexing tags, the packet types with their
    encoding and decoding.  HKDF is that of [Obfs.Primitives]; ChaCha20-Poly1305
    with additional data and HMAC-SHA-256 are the class [DiscoCrypto].  Instants
    are nanoseconds since the Unix epoch.  The texts of error messages are left
    out. *)
From S2P Require Import GoStd Prelude Netip Obfs.

(** ** Constants *)
Definition CtxDiscoTagC2S : string := "chameleon/realm/disco-v1/tag/c2s".
Definition CtxDiscoTagS2C : string := "chameleon/realm/disco-v1/tag/s2c".
Definition CtxDiscoBodyC2S : string := "chameleon/realm/disco-v1/body/c2s".
Definition CtxDiscoBodyS2C : string := "chameleon/realm/disco-v1/body/s2c".
Definition CtxDiscoProbe : string := "chameleon/realm/disco-v1/probe".
Definition CtxDiscoEpoch : string := "chameleon/realm/disco-v1/epoch".

Definition discoVersion : Z := 0x02.
Definition discoTagLen : Z := 8.
Definition discoNonceLen : Z := 12.
Definition discoSealLen : Z := 16.
Definition discoHeaderLen : Z := 12.
Definition discoKeyLen : Z := 32.
Definition discoMinWire : Z := discoTagLen + discoNonceLen + discoHeaderLen + discoSealLen.
Definition discoMaxWire : Z := 1452.
Definition DiscoBindNonceSize : Z := 16.
Definition discoEpoch : Z := 120 * Second.
Definition discoMaxSkew : Z := 30 * Second.
Definition DiscoMaxCandidates : Z := 16.
Definition discoSeqCeiling : Z := 0xFFFFFFF0.
Definition discoFamilyV4 : Z := 0x04.
Definition discoFamilyV6 : Z := 0x06.

Definition DiscoProbeType : Z := 0x10.
Definition DiscoPongType : Z := 0x11.
Definition DiscoCallMeType : Z := 0x12.
Definition DiscoBindType : Z := 0x13.
Definition DiscoBindAckType : Z := 0x14.

Inductive disco_error : Type :=
| ErrNotDisco
| ErrDiscoAuth
| ErrDiscoBadVersion
| DiscoSkewError (Skew : Z)
| ErrInvalidDiscoPacket
| ErrDiscoSecretTooShort
| ErrDerive (e : obfs_error)
| ErrKeySize.

(** ** Packets *)
Record DiscoHeader := mkHeader {
  Type_ : Z;   (* DiscoType, a byte *)
  Seq : Z;     (* uint32 *)
  TS : Z;
}.

Record DiscoProbe := mkProbe { probe_Token : bytes; TxMicros : Z }.
Record DiscoPong := mkPong { pong_Token : bytes; TxMicrosEcho : Z; pong_ObservedAddr : AddrPort }.
Record DiscoCandidate := mkCandidate { cand_Addr : AddrPort; Priority : Z }.
Record DiscoCallMe := mkCallMe { Candidates : list DiscoCandidate }.
Record DiscoBind := mkBind { bind_Nonce : bytes; ClaimedAddr : AddrPort }.
Record DiscoBindAck := mkBindAck { ack_Nonce : bytes; ack_ObservedAddr : AddrPort }.

(** A pointer field is an option. *)
Record DiscoPacket := mkPacket {
  Header : DiscoHeader;
  Probe : option DiscoProbe;
  Pong : option DiscoPong;
  CallMe : option DiscoCallMe;
  Bind : option DiscoBind;
  BindAck : option DiscoBindAck;
}.

(** ** Byte slices

    [b[i:j]], where the code has checked that it is in range, and
    [copy(a[:], b)] into a zeroed array of [n] bytes. *)
Definition slice (b : bytes) (i j : Z) : bytes := take (Z.to_nat (j - i)) (drop (Z.to_nat i) b).
Definition slice_from (b : bytes) (i : Z) : bytes := drop (Z.to_nat i) b.
Definition array (n : Z) (b : bytes) : bytes := take (Z.to_nat n) (b ++ replicate (Z.to_nat n) Byte.x00).

(** ** Addresses *)
Definition appendDiscoAddrPort (dst : bytes) (a : AddrPort) : result disco_error bytes :=
  match Unmap (ap_Addr a) with
  | V4 x => Ok (dst ++ [byte_of_Z discoFamilyV4] ++ be_bytes 4 x ++ be_bytes 2 (ap_Port a))
  | V6 x _ => Ok (dst ++ [byte_of_Z discoFamilyV6] ++ be_bytes 16 x ++ be_bytes 2 (ap_Port a))
  | ZeroAddr => Err ErrInvalidDiscoPacket
  end.

Definition parseDiscoAddrPort (b : bytes) : result disco_error (AddrPort * Z) :=
  match b with
  | [] => Err ErrInvalidDiscoPacket
  | family :: _ =>
      size ← (if Z_of_byte family =? discoFamilyV4 then Ok 4
              else if Z_of_byte family =? discoFamilyV6 then Ok 16
              else Err ErrInvalidDiscoPacket);
      let n := 1 + size + 2 in
      if len b <? n then Err ErrInvalidDiscoPacket else
      match AddrFromSlice (slice b 1 (1 + size)) with
      | None => Err ErrInvalidDiscoPacket
      | Some addr => Ok (AddrPortFrom (Unmap addr) (be_Z (slice b (1 + size) n)), n)
      end
  end.

(** ** Payloads *)
Fixpoint append_candidates (dst : bytes) (cs : list DiscoCandidate) : result disco_error bytes :=
  match cs with
  | [] => Ok dst
  | c :: cs =>
      dst ← appendDiscoAddrPort dst (cand_Addr c);
      append_candidates (dst ++ [byte_of_Z (Priority c)]) cs
  end.

Definition appendDiscoPayload (dst : bytes) (p : DiscoPacket) : result disco_error bytes :=
  let t := Type_ (Header p) in
  if t =? DiscoProbeType then
    match Probe p with
    | None => Err ErrInvalidDiscoPacket
    | Some x => Ok (dst ++ probe_Token x ++ be_bytes 8 (u64 (TxMicros x)))
    end
  else if t =? DiscoPongType then
    match Pong p with
    | None => Err ErrInvalidDiscoPacket
    | Some x => appendDiscoAddrPort (dst ++ pong_Token x ++ be_bytes 8 (u64 (TxMicrosEcho x))) (pong_ObservedAddr x)
    end
  else if t =? DiscoCallMeType then
    match CallMe p with
    | None => Err ErrInvalidDiscoPacket
    | Some x =>
        if DiscoMaxCandidates <? len (Candidates x) then Err ErrInvalidDiscoPacket
        else append_candidates (dst ++ [byte_of_Z (len (Candidates x))]) (Candidates x)
    end
  else if t =? DiscoBindType then
    match Bind p with
    | None => Err ErrInvalidDiscoPacket
    | Some x => appendDiscoAddrPort (dst ++ bind_Nonce x) (ClaimedAddr x)
    end
  else if t =? DiscoBindAckType then
    match BindAck p with
    | None => Err ErrInvalidDiscoPacket
    | Some x => appendDiscoAddrPort (dst ++ ack_Nonce x) (ack_ObservedAddr x)
    end
  else Err ErrInvalidDiscoPacket.

(** The nonce copied out of [b], and the address behind it. *)
Definition parseDiscoNonceAndAddr (b : bytes) : result disco_error (bytes * AddrPort) :=
  if len b <? DiscoBindNonceSize then Err ErrInvalidDiscoPacket else
  '(addr, n) ← parseDiscoAddrPort (slice_from b DiscoBindNonceSize);
  if negb (DiscoBindNonceSize + n =? len b) then Err ErrInvalidDiscoPacket
  else Ok (slice b 0 DiscoBindNonceSize, addr).

(** The loop over [count] candidates: those read, and the bytes left. *)
Fixpoint parse_candidates (count : nat) (rest : bytes) (cs : list DiscoCandidate)
    : result disco_error (list DiscoCandidate * bytes) :=
  match count with
  | O => Ok (cs, rest)
  | S count =>
      '(addr, n) ← parseDiscoAddrPort rest;
      match slice_from rest n with
      | [] => Err ErrInvalidDiscoPacket
      | prio :: rest => parse_candidates count rest (cs ++ [mkCandidate addr (Z_of_byte prio)])
      end
  end.

Definition set_Probe x p := mkPacket (Header p) (Some x) (Pong p) (CallMe p) (Bind p) (BindAck p).
Definition set_Pong x p := mkPacket (Header p) (Probe p) (Some x) (CallMe p) (Bind p) (BindAck p).
Definition set_CallMe x p := mkPacket (Header p) (Probe p) (Pong p) (Some x) (Bind p) (BindAck p).
Definition set_Bind x p := mkPacket (Header p) (Probe p) (Pong p) (CallMe p) (Some x) (BindAck p).
Definition set_BindAck x p := mkPacket (Header p) (Probe p) (Pong p) (CallMe p) (Bind p) (Some x).

Definition parseDiscoPayload (b : bytes) (p : DiscoPacket) : result disco_error DiscoPacket :=
  let t := Type_ (Header p) in
  if t =? DiscoProbeType then
    if negb (len b =? 16) then Err ErrInvalidDiscoPacket
    else Ok (set_Probe (mkProbe (slice b 0 8) (i64 (be_Z (slice b 8 16)))) p)
  else if t =? DiscoPongType then
    if len b <? 16 then Err ErrInvalidDiscoPacket else
    '(addr, n) ← parseDiscoAddrPort (slice_from b 16);
    if negb (16 + n =? len b) then Err ErrInvalidDiscoPacket
    else Ok (set_Pong (mkPong (slice b 0 8) (i64 (be_Z (slice b 8 16))) addr) p)
  else if t =? DiscoCallMeType then
    match b with
    | [] => Err ErrInvalidDiscoPacket
    | count :: rest =>
        if DiscoMaxCandidates <? Z_of_byte count then Err ErrInvalidDiscoPacket else
        '(cs, rest) ← parse_candidates (Z.to_nat (Z_of_byte count)) rest [];
        if negb (len rest =? 0) then Err ErrInvalidDiscoPacket
        else Ok (set_CallMe (mkCallMe cs) p)
    end
  else if t =? DiscoBindType then
    '(nonce, addr) ← parseDiscoNonceAndAddr b;
    Ok (set_Bind (mkBind nonce addr) p)
  else if t =? DiscoBindAckType then
    '(nonce, addr) ← parseDiscoNonceAndAddr b;
    Ok (set_BindAck (mkBindAck nonce addr) p)
  else Err ErrInvalidDiscoPacket.

(** ** Keys *)
Class DiscoCrypto `{P : Primitives} := {
  (** [chacha20poly1305]: key, nonce, text, additional data. *)
  chacha_Seal : bytes → bytes → bytes → bytes → bytes;
  chacha_Open : bytes → bytes → bytes → bytes → option bytes;
  hmac_sha256 : bytes → bytes → bytes;
  chacha_Seal_length k n p a : length (chacha_Seal k n p a) = (length p + 16)%nat;
  chacha_Open_Seal k n p a : chacha_Open k n (chacha_Seal k n p a) a = Some p;
  (** What opens is the sealing of what it opens to. *)
  chacha_Open_sealed k n c a p : chacha_Open k n c a = Some p → c = chacha_Seal k n p a;
  hkdf_Expand_length s ctx n k : 0 <= n → hkdf_Expand s ctx n = Some k → len k = n;
  hkdf_Expand_some s ctx n : 0 <= n <= 255 * 32 → is_Some (hkdf_Expand s ctx n);
}.

(** An AEAD value is its key. *)
Record DiscoKeys := mkKeys {
  tagSend : bytes;
  tagRecv : bytes;
  seal : bytes;
  open : bytes;
  probe : bytes;
}.

Section Keys.
Context `{DC : DiscoCrypto}.

Definition derive (secret : bytes) (ctx : string) (length : Z) : result disco_error bytes :=
  match DeriveFromSecret secret ctx length with Ok k => Ok k | Err e => Err (ErrDerive e) end.

(** [chacha20poly1305.New]. *)
Definition new_aead (key : bytes) : result disco_error bytes :=
  if len key =? discoKeyLen then Ok key else Err ErrKeySize.

Definition NewDiscoKeys (secret : bytes) (server : bool) : result disco_error DiscoKeys :=
  if len secret <? MinSecretLen then Err ErrDiscoSecretTooShort else
  tagC2S ← derive secret CtxDiscoTagC2S discoKeyLen;
  tagS2C ← derive secret CtxDiscoTagS2C discoKeyLen;
  bodyC2S ← derive secret CtxDiscoBodyC2S discoKeyLen;
  bodyS2C ← derive secret CtxDiscoBodyS2C discoKeyLen;
  probe ← derive secret CtxDiscoProbe discoKeyLen;
  let '(tagSend, tagRecv) := if server then (tagS2C, tagC2S) else (tagC2S, tagS2C) in
  let '(bodySend, bodyRecv) := if server then (bodyS2C, bodyC2S) else (bodyC2S, bodyS2C) in
  sealAEAD ← new_aead bodySend;
  openAEAD ← new_aead bodyRecv;
  Ok (mkKeys tagSend tagRecv sealAEAD openAEAD probe).

(** ** Tags *)
Definition discoEpochOf (now : Z) : Z :=
  let secs := Unix now in
  let secs := if secs <? 0 then 0 else secs in
  secs / quot discoEpoch Second.

Definition discoTag (tagKey : bytes) (epoch : Z) : result disco_error bytes :=
  b ← derive tagKey (CtxDiscoEpoch ++ "/" ++ Strconv.FormatUint epoch)%string discoTagLen;
  Ok (array discoTagLen b).

Definition SendTag (k : DiscoKeys) (now : Z) : result disco_error bytes :=
  discoTag (tagSend k) (discoEpochOf now).

(** The previous, current and next epoch; the first wraps around at zero. *)
Definition RecvTags (k : DiscoKeys) (now : Z) : result disco_error (list bytes) :=
  let epoch := discoEpochOf now in
  t0 ← discoTag (tagRecv k) (u64 (epoch - 1));
  t1 ← discoTag (tagRecv k) epoch;
  t2 ← discoTag (tagRecv k) (u64 (epoch + 1));
  Ok [t0; t1; t2].

(** ** Probe tokens *)
Definition MarshalBinary (a : Addr) : bytes :=
  match a with
  | ZeroAddr => []
  | V4 x => be_bytes 4 x
  | V6 x zone => be_bytes 16 x ++ string_bytes zone
  end.

Definition ProbeToken (k : DiscoKeys) (to : AddrPort) (txMicros : Z) : bytes :=
  array 8 (hmac_sha256 (probe k)
    (MarshalBinary (Unmap (ap_Addr to)) ++ be_bytes 2 (ap_Port to) ++ be_bytes 8 (u64 txMicros))).

Definition CheckProbeToken (k : DiscoKeys) (from : AddrPort) (txMicros : Z) (token : bytes) : bool :=
  bool_decide (ProbeToken k from txMicros = token).

(** ** Encoding and decoding

    [nonce] is what the random source yields. *)
Definition EncodeDisco (p : DiscoPacket) (k : option DiscoKeys) (nonce : bytes) (seq now padTo : Z)
    : result disco_error bytes :=
  match k with
  | None => Err ErrInvalidDiscoPacket
  | Some k =>
      payload ← appendDiscoPayload [] p;
      if (padTo <? discoMinWire) || (discoMaxWire <? padTo) then Err ErrInvalidDiscoPacket else
      let plainLen := padTo - discoTagLen - discoNonceLen - discoSealLen in
      if plainLen <? discoHeaderLen + len payload then Err ErrInvalidDiscoPacket else
      tag ← SendTag k now;
      let plain := [byte_of_Z discoVersion; byte_of_Z (Type_ (Header p))]
                   ++ be_bytes 2 (u16 (len payload)) ++ be_bytes 4 (u32 (Unix now)) ++ be_bytes 4 seq
                   ++ payload ++ replicate (Z.to_nat (plainLen - discoHeaderLen - len payload)) Byte.x00 in
      Ok (tag ++ nonce ++ chacha_Seal (seal k) nonce plain tag)
  end.

(** The header, skew and sequence number of an opened text, then its payload. *)
Definition decode_plain (plain : bytes) (now : Z) : result disco_error DiscoPacket :=
  if len plain <? discoHeaderLen then Err ErrInvalidDiscoPacket else
  if negb (be_Z (slice plain 0 1) =? discoVersion) then Err ErrDiscoBadVersion else
  let payloadLen := be_Z (slice plain 2 4) in
  if len plain <? discoHeaderLen + payloadLen then Err ErrInvalidDiscoPacket else
  let ts := be_Z (slice plain 4 8) * Second in
  let skew := time_Sub now ts in
  if (discoMaxSkew <? skew) || (skew <? - discoMaxSkew) then Err (DiscoSkewError skew) else
  let p := mkPacket (mkHeader (be_Z (slice plain 1 2)) (be_Z (slice plain 8 12)) ts) None None None None None in
  if Seq (Header p) =? 0 then Err ErrInvalidDiscoPacket else
  parseDiscoPayload (slice plain discoHeaderLen (discoHeaderLen + payloadLen)) p.

(** Slicing panics on a datagram shorter than the tag and the nonce. *)
Definition decodeDiscoBody (wire : bytes) (k : DiscoKeys) (now : Z) : outcome (result disco_error DiscoPacket) :=
  if len wire <? discoTagLen + discoNonceLen then Panic else
  let nonce := slice wire discoTagLen (discoTagLen + discoNonceLen) in
  match chacha_Open (open k) nonce (slice_from wire (discoTagLen + discoNonceLen)) (slice wire 0 discoTagLen) with
  | None => Ret (Err ErrDiscoAuth)
  | Some plain => Ret (decode_plain plain now)
  end.

Definition DecodeDisco (wire : bytes) (k : option DiscoKeys) (now : Z) : outcome (result disco_error DiscoPacket) :=
  match k with
  | None => Ret (Err ErrNotDisco)
  | Some k =>
      if (len wire <? discoMinWire) || (discoMaxWire <? len wire) then Ret (Err ErrNotDisco) else
      match RecvTags k now with
      | Err e => Ret (Err e)
      | Ok tags =>
          if existsb (λ t, bool_decide (t = array discoTagLen wire)) tags
          then decodeDiscoBody wire k now
          else Ret (Err ErrNotDisco)
      end
  end.
End Keys.

(** * Properties *)

(** ** Slices *)
Lemma Ok_inj {E A} (a b : A) : Ok (E := E) a = Ok b → a = b.
Proof. by intros [= ->]. Qed.

Lemma slice_app a b c i j : i = len a → j = i + len b → slice (a ++ b ++ c) i j = b.
Proof.
  intros -> ->. unfold slice, len. rewrite Nat2Z.id, drop_app_length.
  replace (Z.to_nat _) with (length b) by lia. apply take_app_length.
Qed.

Lemma slice_start b c j : j = len b → slice (b ++ c) 0 j = b.
Proof. intros ->. by apply (slice_app [] b c). Qed.

Lemma slice_from_app a b i : i = len a → slice_from (a ++ b) i = b.
Proof. intros ->. unfold slice_from, len. by rewrite Nat2Z.id, drop_app_length. Qed.

Lemma len_slice b i j : 0 <= i <= j → j <= len b → len (slice b i j) = j - i.
Proof. intros. unfold slice, len in *. rewrite length_take, length_drop. lia. Qed.

(** Cutting a slice in two. *)
Lemma slice_split b i : 0 <= i <= len b → b = slice b 0 i ++ slice_from b i.
Proof. intros. unfold slice, slice_from. rewrite Z.sub_0_r. cbn [drop]. by rewrite take_drop. Qed.

Lemma slice_from_split b i j :
  0 <= i <= j → j <= len b → slice_from b i = slice b i j ++ slice_from b j.
Proof.
  intros. unfold slice, slice_from. rewrite <-(take_drop (Z.to_nat (j - i)) (drop (Z.to_nat i) b)) at 1.
  rewrite drop_drop. do 2 f_equal. lia.
Qed.

Lemma array_exact n b : len b = n → array n b = b.
Proof.
  intros <-. unfold array, len. by rewrite Nat2Z.id, take_app_length.
Qed.

Lemma len_array n b : 0 <= n → len (array n b) = n.
Proof. intros. unfold array, len. rewrite length_take, length_app, length_replicate. lia. Qed.

Lemma array_app n a b : len a = n → array n (a ++ b) = a.
Proof. intros <-. unfold array, len. by rewrite Nat2Z.id, <-app_assoc, take_app_length. Qed.

Lemma len_be n z : len (be_bytes n z) = Z.of_nat n.
Proof. unfold len. by rewrite length_be_bytes. Qed.

(** ** Addresses on the wire *)
Definition wf_addr (a : Addr) : Prop :=
  match a with ZeroAddr => True | V4 x => 0 <= x < 2 ^ 32 | V6 x _ => 0 <= x < 2 ^ 128 end.
Definition wf_AddrPort (a : AddrPort) : Prop := wf_addr (ap_Addr a) ∧ 0 <= ap_Port a < 2 ^ 16.

(** What the far end reads: IPv4 in its own form, and no zone. *)
Definition wire_addr (a : AddrPort) : AddrPort :=
  AddrPortFrom (WithZone (Unmap (ap_Addr a)) EmptyString) (ap_Port a).

Lemma wf_Unmap a : wf_addr a → wf_addr (Unmap a).
Proof.
  destruct a as [|x|x z]; [done..|]. intros Hx. unfold Unmap. destruct (Is4In6 _); [|done].
  apply Z.mod_pos_bound. lia.
Qed.

Lemma Unmap_WithZone a z : Is4In6 a = false → Unmap (WithZone a z) = WithZone a z.
Proof. destruct a as [|x|x z']; [done..|]. intros E. cbn in *. by rewrite E. Qed.

Lemma AddrFromSlice_4 x : 0 <= x < 2 ^ 32 → AddrFromSlice (be_bytes 4 x) = Some (V4 x).
Proof.
  intros. unfold AddrFromSlice. rewrite decide_True by apply length_be_bytes.
  rewrite be_Z_be_bytes_small; [done|]. change (256 ^ Z.of_nat 4) with (2 ^ 32). lia.
Qed.

Lemma AddrFromSlice_16 x : 0 <= x < 2 ^ 128 → AddrFromSlice (be_bytes 16 x) = Some (V6 x EmptyString).
Proof.
  intros. unfold AddrFromSlice. rewrite length_be_bytes. cbn.
  rewrite be_Z_be_bytes_small; [done|]. change (256 ^ Z.of_nat 16) with (2 ^ 128). lia.
Qed.

Lemma addr_roundtrip dst a out :
  wf_AddrPort a → appendDiscoAddrPort dst a = Ok out →
  ∃ e, out = dst ++ e ∧ 0 < len e ∧ ∀ rest, parseDiscoAddrPort (e ++ rest) = Ok (wire_addr a, len e).
Proof.
  destruct a as [a port]. intros [Ha Hp] E. cbn [ap_Addr ap_Port] in *. unfold appendDiscoAddrPort in E.
  cbn [ap_Addr ap_Port] in E. apply wf_Unmap in Ha. unfold wire_addr. cbn [ap_Addr ap_Port].
  pose proof (Is4In6_Unmap a) as Hm. revert Ha E Hm. generalize (Unmap a). intros u Hu E Hm.
  assert (∀ fam size k, Z_of_byte fam = k → (k = discoFamilyV4 ∧ size = 4 ∨ k = discoFamilyV6 ∧ size = 16) →
    ∀ ip x, len ip = size → AddrFromSlice ip = Some x → ∀ rest,
    parseDiscoAddrPort (([fam] ++ ip ++ be_bytes 2 port) ++ rest)
    = Ok (AddrPortFrom (Unmap x) port, len ([fam] ++ ip ++ be_bytes 2 port))) as Hparse.
  { intros fam size k Hf Hk ip x Hip Hx rest. unfold parseDiscoAddrPort. cbn [app]. rewrite Hf.
    assert ((if k =? discoFamilyV4 then Ok 4 else if k =? discoFamilyV6 then Ok 16
             else Err ErrInvalidDiscoPacket) = Ok (E := disco_error) size) as ->.
    { destruct Hk as [[-> ->]|[-> ->]]; reflexivity. }
    cbn [mbind result_bind]. rewrite !len_cons, !len_app, len_be, Hip.
    pose proof (len_nonneg rest).
    rewrite (proj2 (Z.ltb_ge _ _)) by (destruct Hk as [[_ ->]|[_ ->]]; lia).
    rewrite <-!app_assoc. change (fam :: ip ++ ?l) with ([fam] ++ ip ++ l).
    rewrite (slice_app [fam] ip _ 1) by (try (change (len [fam]) with 1); lia). rewrite Hx.
    rewrite (app_assoc [fam]), (slice_app ([fam] ++ ip) (be_bytes 2 port) rest)
      by (rewrite ?len_app, ?len_be; change (len [fam]) with 1; lia).
    rewrite be_Z_be_bytes_small by (change (256 ^ Z.of_nat 2) with (2 ^ 16); lia).
    do 2 f_equal. lia. }
  destruct u as [|x|x z]; [done| |]; apply Ok_inj in E as <-; (eexists; split; [reflexivity|]);
    (split; [rewrite len_app; apply Z.add_pos_nonneg; [done|apply len_nonneg]|]).
  - by apply (Hparse (byte_of_Z discoFamilyV4) 4 _ eq_refl ltac:(auto) (be_bytes 4 x) (V4 x) (len_be 4 x)), AddrFromSlice_4.
  - rewrite <-(Unmap_WithZone _ EmptyString Hm).
    by apply (Hparse (byte_of_Z discoFamilyV6) 16 _ eq_refl ltac:(auto) (be_bytes 16 x) (V6 x EmptyString) (len_be 16 x)), AddrFromSlice_16.
Qed.

(** ** Payloads on the wire *)
Definition wf_candidate (c : DiscoCandidate) : Prop := wf_AddrPort (cand_Addr c) ∧ 0 <= Priority c < 256.
Definition wire_candidate (c : DiscoCandidate) : DiscoCandidate := mkCandidate (wire_addr (cand_Addr c)) (Priority c).

Definition int64_ok (z : Z) : Prop := MinInt64 <= z <= MaxInt64.

(** Fixed-size arrays have their size, integers their width. *)
Record wf_packet (p : DiscoPacket) : Prop := {
  wf_type : 0 <= Type_ (Header p) < 256;
  wf_probe x : Probe p = Some x → len (probe_Token x) = 8 ∧ int64_ok (TxMicros x);
  wf_pong x : Pong p = Some x →
    len (pong_Token x) = 8 ∧ int64_ok (TxMicrosEcho x) ∧ wf_AddrPort (pong_ObservedAddr x);
  wf_callme x : CallMe p = Some x → Forall wf_candidate (Candidates x);
  wf_bind x : Bind p = Some x → len (bind_Nonce x) = 16 ∧ wf_AddrPort (ClaimedAddr x);
  wf_bindack x : BindAck p = Some x → len (ack_Nonce x) = 16 ∧ wf_AddrPort (ack_ObservedAddr x);
}.

(** What the far end reads of a packet, under the header [h]: the payload of
    its type, with addresses as [wire_addr] has them. *)
Definition wire_packet (p : DiscoPacket) (h : DiscoHeader) : DiscoPacket :=
  let only {A} (t : Z) (x : option A) := if Type_ h =? t then x else None in
  mkPacket h
    (only DiscoProbeType (Probe p))
    (only DiscoPongType ((λ x, mkPong (pong_Token x) (TxMicrosEcho x) (wire_addr (pong_ObservedAddr x))) <$> Pong p))
    (only DiscoCallMeType ((λ x, mkCallMe (map wire_candidate (Candidates x))) <$> CallMe p))
    (only DiscoBindType ((λ x, mkBind (bind_Nonce x) (wire_addr (ClaimedAddr x))) <$> Bind p))
    (only DiscoBindAckType ((λ x, mkBindAck (ack_Nonce x) (wire_addr (ack_ObservedAddr x))) <$> BindAck p)).

Lemma i64_u64 z : int64_ok z → i64 (u64 z) = z.
Proof.
  unfold int64_ok, MinInt64, MaxInt64. intros Hz. unfold wrapS, wrapU.
  change (2 ^ (64 - 1)) with 9223372036854775808. change (2 ^ 64) with 18446744073709551616.
  change (2 ^ 63) with 9223372036854775808 in Hz.
  rewrite Zplus_mod_idemp_l, Z.mod_small; lia.
Qed.

Lemma read_int64 z : int64_ok z → i64 (be_Z (be_bytes 8 (u64 z))) = z.
Proof.
  intros. rewrite be_Z_be_bytes_small; [by apply i64_u64|].
  change (256 ^ Z.of_nat 8) with (2 ^ 64). apply wrapU_bound. lia.
Qed.

Lemma candidates_roundtrip cs : ∀ dst out,
  Forall wf_candidate cs → append_candidates dst cs = Ok out →
  ∃ e, out = dst ++ e ∧ ∀ acc rest,
    parse_candidates (length cs) (e ++ rest) acc = Ok (acc ++ map wire_candidate cs, rest).
Proof.
  induction cs as [|c cs IH]; intros dst out Hcs E; cbn [append_candidates] in E.
  - injection E as ->. exists []. rewrite app_nil_r. split; [done|]. intros acc rest. by rewrite app_nil_r.
  - apply list.Forall_cons in Hcs as [[Ha Hp] Hcs]. apply result_bind_inv in E as (d & Ed & E).
    destruct (addr_roundtrip _ _ _ Ha Ed) as (e & -> & _ & He).
    destruct (IH _ _ Hcs E) as (e' & -> & He'). exists (e ++ [byte_of_Z (Priority c)] ++ e').
    split; [by rewrite <-!app_assoc|]. intros acc rest. cbn [length parse_candidates].
    rewrite <-!app_assoc, He. cbn [mbind result_bind]. rewrite (slice_from_app _ _ _ eq_refl). cbn [app].
    rewrite byte_of_Z_small by done. rewrite He'. f_equal. by rewrite <-app_assoc.
Qed.

(** A fixed part of [n] bytes, then an address: what both sides see. *)
Lemma addr_tail pre a out n :
  len pre = n → wf_AddrPort a → appendDiscoAddrPort pre a = Ok out →
  parseDiscoAddrPort (slice_from out n) = Ok (wire_addr a, len out - n) ∧ n <= len out ∧ ∃ e, out = pre ++ e.
Proof.
  intros Hn Ha E. destruct (addr_roundtrip _ _ _ Ha E) as (e & -> & ? & He). specialize (He []).
  rewrite app_nil_r in He. rewrite slice_from_app by done. rewrite He, len_app, <-Hn.
  split_and!; [|lia|by eexists]. repeat f_equal. lia.
Qed.

Lemma nonce_addr_roundtrip nonce a out :
  len nonce = 16 → wf_AddrPort a → appendDiscoAddrPort nonce a = Ok out →
  parseDiscoNonceAndAddr out = Ok (nonce, wire_addr a).
Proof.
  intros Hn Ha E. destruct (addr_tail _ _ _ 16 Hn Ha E) as (Hp & Hl & e & ->).
  unfold parseDiscoNonceAndAddr. unfold DiscoBindNonceSize. rewrite (proj2 (Z.ltb_ge _ _)) by lia.
  rewrite Hp. cbn [mbind result_bind]. rewrite (proj2 (Z.eqb_eq _ _)) by lia. cbn [negb].
  by rewrite slice_start.
Qed.

Lemma payload_roundtrip p out h :
  wf_packet p → Type_ h = Type_ (Header p) → appendDiscoPayload [] p = Ok out →
  parseDiscoPayload out (mkPacket h None None None None None) = Ok (wire_packet p h).
Proof.
  intros Hwf Ht E. unfold appendDiscoPayload in E. unfold parseDiscoPayload, wire_packet. cbn [Header].
  rewrite Ht. revert E. generalize (Type_ (Header p)) as t. intros t.
  destruct (Z.eqb_spec t DiscoProbeType) as [->|H1]; [|
  destruct (Z.eqb_spec t DiscoPongType) as [->|H2]; [|
  destruct (Z.eqb_spec t DiscoCallMeType) as [->|H3]; [|
  destruct (Z.eqb_spec t DiscoBindType) as [->|H4]; [|
  destruct (Z.eqb_spec t DiscoBindAckType) as [->|H5]; [|done]]]]]; intros E.
  - destruct (Probe p) as [x|] eqn:Ex; [|done]. apply Ok_inj in E as <-.
    destruct (wf_probe p Hwf x Ex) as [Hl Hi]. cbn [app].
    rewrite len_app, len_be, Hl. cbn.
    rewrite slice_start by done. rewrite <-(app_nil_r (be_bytes _ _)), (slice_app _ (be_bytes 8 _) []);
      [|done|by rewrite len_be]. rewrite read_int64 by done. by destruct x.
  - destruct (Pong p) as [x|] eqn:Ex; [|done]. destruct (wf_pong p Hwf x Ex) as (Hl & Hi & Ha). cbn [app] in E.
    assert (len (pong_Token x ++ be_bytes 8 (u64 (TxMicrosEcho x))) = 16) as Hpre by (rewrite len_app, len_be; lia).
    destruct (addr_tail _ _ _ 16 Hpre Ha E) as (Hp & Hn & e & ->).
    rewrite (proj2 (Z.ltb_ge _ _)) by lia. rewrite Hp. cbn [mbind result_bind].
    rewrite (proj2 (Z.eqb_eq _ _)) by lia. cbn [negb]. rewrite <-app_assoc.
    rewrite slice_start, (slice_app _ (be_bytes 8 _)) by (rewrite ?len_be; done). by rewrite read_int64.
  - destruct (CallMe p) as [x|] eqn:Ex; [|done]. pose proof (wf_callme p Hwf x Ex) as Hc.
    destruct (Z.ltb_spec DiscoMaxCandidates (len (Candidates x))) as [|Hle]; [done|].
    destruct (candidates_roundtrip _ _ _ Hc E) as (e & -> & He). cbn [app].
    unfold DiscoMaxCandidates in *. pose proof (len_nonneg (Candidates x)).
    rewrite byte_of_Z_small by lia. rewrite (proj2 (Z.ltb_ge _ _)) by lia. unfold len. rewrite Nat2Z.id.
    specialize (He [] []). rewrite app_nil_r in He. rewrite He. done.
  - destruct (Bind p) as [x|] eqn:Ex; [|done]. destruct (wf_bind p Hwf x Ex) as [Hl Ha].
    by rewrite (nonce_addr_roundtrip _ _ _ Hl Ha E).
  - destruct (BindAck p) as [x|] eqn:Ex; [|done]. destruct (wf_bindack p Hwf x Ex) as [Hl Ha].
    by rewrite (nonce_addr_roundtrip _ _ _ Hl Ha E).
Qed.

(** ** Keys of the two ends *)
Section Theorems.
Context `{DC : DiscoCrypto}.

Lemma derive_ok secret ctx n :
  MinSecretLen <= len secret → 0 <= n <= 255 * 32 → ∃ k, derive secret ctx n = Ok k ∧ len k = n.
Proof.
  intros Hs Hn. unfold derive, DeriveFromSecret. rewrite (proj2 (Z.ltb_ge _ _)) by lia.
  destruct (hkdf_Expand_some secret ctx n Hn) as [k Hk]. rewrite Hk. exists k.
  split; [done|]. eapply hkdf_Expand_length; [lia|exact Hk].
Qed.

Lemma NewDiscoKeys_ok secret : MinSecretLen <= len secret →
  ∃ tc ts bc bs pr, Forall (λ k, len k = discoKeyLen) [tc; ts; bc; bs; pr] ∧
  ∀ server, NewDiscoKeys secret server =
    Ok (if server then mkKeys ts tc bs bc pr else mkKeys tc ts bc bs pr).
Proof.
  intros Hs. unfold NewDiscoKeys. rewrite (proj2 (Z.ltb_ge _ _)) by lia.
  destruct (derive_ok secret CtxDiscoTagC2S discoKeyLen Hs ltac:(unfold discoKeyLen; lia)) as (tc & -> & Htc).
  destruct (derive_ok secret CtxDiscoTagS2C discoKeyLen Hs ltac:(unfold discoKeyLen; lia)) as (ts & -> & Hts).
  destruct (derive_ok secret CtxDiscoBodyC2S discoKeyLen Hs ltac:(unfold discoKeyLen; lia)) as (bc & -> & Hbc).
  destruct (derive_ok secret CtxDiscoBodyS2C discoKeyLen Hs ltac:(unfold discoKeyLen; lia)) as (bs & -> & Hbs).
  destruct (derive_ok secret CtxDiscoProbe discoKeyLen Hs ltac:(unfold discoKeyLen; lia)) as (pr & -> & Hpr).
  exists tc, ts, bc, bs, pr. split; [repeat constructor; done|]. intros [|];
    cbn [mbind result_bind]; unfold new_aead; rewrite ?Hbc, ?Hbs; done.
Qed.

Lemma NewDiscoKeys_secret secret server k : NewDiscoKeys secret server = Ok k → MinSecretLen <= len secret.
Proof. unfold NewDiscoKeys. destruct (Z.ltb_spec (len secret) MinSecretLen); [done|lia]. Qed.

(** The two ends of one secret mirror each other. *)
Lemma peer_keys secret server k1 k2 :
  NewDiscoKeys secret server = Ok k1 → NewDiscoKeys secret (negb server) = Ok k2 →
  tagSend k1 = tagRecv k2 ∧ seal k1 = open k2 ∧ len (tagSend k1) = discoKeyLen.
Proof.
  intros E1 E2. destruct (NewDiscoKeys_ok secret (NewDiscoKeys_secret _ _ _ E1)) as (tc & ts & bc & bs & pr & Hl & E).
  rewrite E in E1, E2. apply Ok_inj in E1, E2. repeat (apply list.Forall_cons in Hl as [? Hl]).
  subst. by destruct server.
Qed.

(** ** Tags *)
Lemma discoTag_ok key e : MinSecretLen <= len key → ∃ t, discoTag key e = Ok t ∧ len t = discoTagLen.
Proof.
  intros Hk. unfold discoTag.
  destruct (derive_ok key (CtxDiscoEpoch ++ "/" ++ Strconv.FormatUint e)%string discoTagLen Hk
    ltac:(unfold discoTagLen; lia)) as (t & -> & Ht).
  cbn [mbind result_bind]. exists (array discoTagLen t). split; [done|]. by rewrite array_exact.
Qed.

Definition epochs_held (now : Z) : list Z :=
  [u64 (discoEpochOf now - 1); discoEpochOf now; u64 (discoEpochOf now + 1)].

Lemma RecvTags_spec k now : MinSecretLen <= len (tagRecv k) →
  ∃ tags, RecvTags k now = Ok tags ∧
  ∀ t, t ∈ tags ↔ ∃ e, e ∈ epochs_held now ∧ discoTag (tagRecv k) e = Ok t.
Proof.
  intros Hk. unfold RecvTags, epochs_held.
  destruct (discoTag_ok (tagRecv k) (u64 (discoEpochOf now - 1)) Hk) as (t0 & E0 & _).
  destruct (discoTag_ok (tagRecv k) (discoEpochOf now) Hk) as (t1 & E1 & _).
  destruct (discoTag_ok (tagRecv k) (u64 (discoEpochOf now + 1)) Hk) as (t2 & E2 & _).
  rewrite E0, E1, E2. cbn [mbind result_bind]. exists [t0; t1; t2]. split; [done|]. intros t.
  split.
  - intros Ht. repeat (apply elem_of_cons in Ht as [->|Ht]); [..|by apply elem_of_nil in Ht].
    + exists (u64 (discoEpochOf now - 1)). split; [set_solver|done].
    + exists (discoEpochOf now). split; [set_solver|done].
    + exists (u64 (discoEpochOf now + 1)). split; [set_solver|done].
  - intros (e & He & Et). repeat (apply elem_of_cons in He as [->|He]); [..|by apply elem_of_nil in He].
    all: rewrite Et in *; simplify_eq; set_solver.
Qed.

Lemma Unix_mono a b : a <= b → Unix a <= Unix b.
Proof. intros. unfold Unix, Second. apply Z.div_le_mono; lia. Qed.

(** A clock within the skew of the sender's second is at most one epoch away. *)
Lemma epoch_held ts now : 0 <= ts < 2 ^ 32 → Z.abs (now - ts * Second) <= discoMaxSkew →
  ts / 120 ∈ epochs_held now.
Proof.
  unfold discoMaxSkew. intros Hts Hskew. change (2 ^ 32) with 4294967296 in Hts.
  assert (ts - 30 <= Unix now <= ts + 30) as Hu.
  { pose proof (Unix_mono ((ts - 30) * Second) now ltac:(unfold Second in *; lia)).
    pose proof (Unix_mono now ((ts + 30) * Second) ltac:(unfold Second in *; lia)).
    unfold Unix in *. rewrite !Z.div_mul in * by done. lia. }
  unfold epochs_held, discoEpochOf. change (quot discoEpoch Second) with 120. cbv zeta.
  assert (∃ u, (if Unix now <? 0 then 0 else Unix now) = u ∧ 0 <= u ∧ ts - 30 <= u <= ts + 30) as (u & -> & Hu0 & Hu1).
  { destruct (Z.ltb_spec (Unix now) 0); eexists; split; [done|lia|done|lia]. }
  pose proof (Z.div_mod ts 120 ltac:(lia)). pose proof (Z.mod_pos_bound ts 120 ltac:(lia)).
  pose proof (Z.div_mod u 120 ltac:(lia)). pose proof (Z.mod_pos_bound u 120 ltac:(lia)).
  pose proof (Z.div_pos ts 120 ltac:(lia) ltac:(lia)). pose proof (Z.div_pos u 120 ltac:(lia) ltac:(lia)).
  rewrite !elem_of_cons.
  destruct (Z.eq_dec (ts / 120) (u / 120)) as [->|]; [by auto|].
  destruct (Z_lt_le_dec (ts / 120) (u / 120)).
  - left. rewrite wrapU_small by (change (2 ^ 64) with 18446744073709551616; lia). lia.
  - right; right; left. rewrite wrapU_small by (change (2 ^ 64) with 18446744073709551616; lia). lia.
Qed.

(** ** The plain text *)
Definition plain_text (t plen ts seq : Z) (payload padding : bytes) : bytes :=
  [byte_of_Z discoVersion; byte_of_Z t] ++ be_bytes 2 plen ++ be_bytes 4 ts ++ be_bytes 4 seq ++ payload ++ padding.

Lemma slice_at pre b post l i j :
  l = pre ++ b ++ post → i = len pre → j = i + len b → slice l i j = b.
Proof. intros ->. apply slice_app. Qed.

Lemma plain_fields t plen ts seq payload padding l :
  l = plain_text t plen ts seq payload padding →
  slice l 0 1 = [byte_of_Z discoVersion] ∧ slice l 1 2 = [byte_of_Z t] ∧ slice l 2 4 = be_bytes 2 plen
  ∧ slice l 4 8 = be_bytes 4 ts ∧ slice l 8 12 = be_bytes 4 seq
  ∧ slice l 12 (12 + len payload) = payload ∧ len l = 12 + len payload + len padding.
Proof.
  intros ->. unfold plain_text. split_and!.
  - reflexivity.
  - reflexivity.
  - by apply (slice_at [byte_of_Z discoVersion; byte_of_Z t] (be_bytes 2 plen) (be_bytes 4 ts ++ be_bytes 4 seq ++ payload ++ padding)).
  - by apply (slice_at ([byte_of_Z discoVersion; byte_of_Z t] ++ be_bytes 2 plen) (be_bytes 4 ts) (be_bytes 4 seq ++ payload ++ padding)).
  - by apply (slice_at ([byte_of_Z discoVersion; byte_of_Z t] ++ be_bytes 2 plen ++ be_bytes 4 ts) (be_bytes 4 seq) (payload ++ padding)).
  - by apply (slice_at ([byte_of_Z discoVersion; byte_of_Z t] ++ be_bytes 2 plen ++ be_bytes 4 ts ++ be_bytes 4 seq) payload padding).
  - rewrite !len_app, !len_be. change (len [_; _]) with 2. lia.
Qed.

Lemma be_Z_single b : be_Z [b] = Z_of_byte b.
Proof. unfold be_Z. cbn. lia. Qed.

(** A well-formed text in its window is decoded to its payload. *)
Lemma decode_plain_text t ts seq payload padding now :
  0 <= t < 256 → 0 <= ts < 2 ^ 32 → 0 < seq < 2 ^ 32 → len payload < 2 ^ 16 →
  Z.abs (now - ts * Second) <= discoMaxSkew →
  decode_plain (plain_text t (len payload) ts seq payload padding) now
  = parseDiscoPayload payload (mkPacket (mkHeader t seq (ts * Second)) None None None None None).
Proof.
  intros Ht Hts Hseq Hl Hskew.
  destruct (plain_fields t (len payload) ts seq payload padding _ eq_refl) as (E1 & E2 & E3 & E4 & E5 & E6 & E7).
  pose proof (len_nonneg payload). pose proof (len_nonneg padding).
  unfold decode_plain, discoHeaderLen. rewrite E1, E2, E3, E4, E5, E7, !be_Z_single.
  rewrite (byte_of_Z_small t) by done. change (Z_of_byte (byte_of_Z discoVersion)) with discoVersion.
  rewrite !be_Z_be_bytes_small by
    (change (256 ^ Z.of_nat 2) with (2 ^ 16); change (256 ^ Z.of_nat 4) with (2 ^ 32); lia).
  rewrite E6. rewrite (proj2 (Z.ltb_ge _ _)), Z.eqb_refl, (proj2 (Z.ltb_ge _ _)) by lia. cbn [negb].
  rewrite time_Sub_small by (unfold MinInt64, MaxInt64; change discoMaxSkew with 30000000000 in *;
    change (2 ^ 63) with 9223372036854775808; lia).
  rewrite (proj2 (Z.ltb_ge _ _)), (proj2 (Z.ltb_ge _ _)) by lia. cbn [orb Header Seq].
  by rewrite (proj2 (Z.eqb_neq _ _)) by lia.
Qed.

Lemma len_plain_text t plen ts seq payload padding :
  len (plain_text t plen ts seq payload padding) = 12 + len payload + len padding.
Proof. by destruct (plain_fields t plen ts seq payload padding _ eq_refl) as (_ & _ & _ & _ & _ & _ & E7). Qed.

(** ** Envelopes *)
Definition envelope (key tag nonce plain : bytes) : bytes := tag ++ nonce ++ chacha_Seal key nonce plain tag.

Lemma len_envelope key tag nonce plain :
  len tag = discoTagLen → len nonce = discoNonceLen → len (envelope key tag nonce plain) = len plain + 36.
Proof.
  unfold discoTagLen, discoNonceLen, envelope. intros Ht Hn. rewrite !len_app. unfold len at 3.
  rewrite chacha_Seal_length. unfold len in *. lia.
Qed.

Lemma decodeDiscoBody_envelope k tag nonce plain now :
  len tag = discoTagLen → len nonce = discoNonceLen →
  decodeDiscoBody (envelope (open k) tag nonce plain) k now = Ret (decode_plain plain now).
Proof.
  intros Ht Hn. unfold decodeDiscoBody. rewrite len_envelope by done.
  pose proof (len_nonneg plain). rewrite (proj2 (Z.ltb_ge _ _)) by (unfold discoTagLen, discoNonceLen; lia).
  unfold envelope. rewrite (slice_app tag), slice_start by (rewrite ?Ht, ?Hn; done).
  rewrite app_assoc, slice_from_app by (rewrite len_app, Ht, Hn; done). by rewrite chacha_Open_Seal.
Qed.

(** What opens is an envelope. *)
Lemma decodeDiscoBody_opens wire k now r :
  discoTagLen + discoNonceLen <= len wire → decodeDiscoBody wire k now = Ret r → r ≠ Err ErrDiscoAuth →
  ∃ tag nonce plain, wire = envelope (open k) tag nonce plain ∧ len tag = discoTagLen ∧ len nonce = discoNonceLen
    ∧ decode_plain plain now = r.
Proof.
  unfold discoTagLen, discoNonceLen. intros Hl E Hr. unfold decodeDiscoBody, discoTagLen, discoNonceLen in E.
  rewrite (proj2 (Z.ltb_ge _ _)) in E by lia. destruct (chacha_Open _ _ _ _) as [plain|] eqn:Eo; [|by injection E as <-].
  injection E as <-. apply chacha_Open_sealed in Eo.
  exists (slice wire 0 8), (slice wire 8 20), plain. split_and!; [|by rewrite len_slice by lia..|done].
  unfold envelope. change (8 + 12) with 20 in Eo. rewrite <-Eo, <-(slice_from_split wire 8 20) by lia. apply slice_split. lia.
Qed.

Lemma EncodeDisco_ok p k payload nonce seq now padTo tag :
  appendDiscoPayload [] p = Ok payload → discoMinWire + len payload <= padTo <= discoMaxWire →
  SendTag k now = Ok tag → 0 <= Unix now < 2 ^ 32 →
  ∃ padding, EncodeDisco p (Some k) nonce seq now padTo
    = Ok (envelope (seal k) tag nonce (plain_text (Type_ (Header p)) (len payload) (Unix now) seq payload padding))
    ∧ len padding = padTo - discoMinWire - len payload.
Proof.
  intros Hp Hpad Et Hnow. pose proof (len_nonneg payload). unfold EncodeDisco. rewrite Hp. cbn [mbind result_bind].
  unfold discoMinWire, discoMaxWire, discoTagLen, discoNonceLen, discoHeaderLen, discoSealLen in *.
  rewrite (proj2 (Z.ltb_ge _ _)), (proj2 (Z.ltb_ge _ _)), (proj2 (Z.ltb_ge _ _)) by lia. cbn [orb].
  rewrite Et. cbn [mbind result_bind].
  rewrite (wrapU_small 16), (wrapU_small 32) by (change (2 ^ 16) with 65536; lia).
  eexists. split; [reflexivity|]. unfold len at 1. rewrite length_replicate. lia.
Qed.

(** ** Round trip *)

(** Two ends that derived their keys from one secret understand each other:
    a packet whose payload fits in [padTo] bytes is sealed into a datagram of
    exactly that length, and the other end, when its clock is within thirty
    seconds of the second the packet was sent in, reads back the same payload
    (IPv4 addresses in their own form, zones dropped), its sequence number and
    its time.  This holds in both directions and whatever epoch each clock is in. *)
Theorem Disco_roundtrip secret server k1 k2 p payload nonce seq now now' padTo :
  NewDiscoKeys secret server = Ok k1 → NewDiscoKeys secret (negb server) = Ok k2 →
  wf_packet p → appendDiscoPayload [] p = Ok payload →
  discoMinWire + len payload <= padTo <= discoMaxWire →
  len nonce = discoNonceLen → 0 < seq < 2 ^ 32 →
  0 <= Unix now < 2 ^ 32 → Z.abs (now' - Unix now * Second) <= discoMaxSkew →
  ∃ wire, EncodeDisco p (Some k1) nonce seq now padTo = Ok wire ∧ len wire = padTo ∧
    DecodeDisco wire (Some k2) now'
    = Ret (Ok (wire_packet p (mkHeader (Type_ (Header p)) seq (Unix now * Second)))).
Proof.
  intros E1 E2 Hwf Hp Hpad Hnonce Hseq Hnow Hskew.
  destruct (peer_keys _ _ _ _ E1 E2) as (Htag & Hseal & Hlen).
  destruct (discoTag_ok (tagSend k1) (discoEpochOf now)) as (tag & Et & Hl); [rewrite Hlen; done|].
  destruct (EncodeDisco_ok p k1 payload nonce seq now padTo tag Hp Hpad Et Hnow) as (padding & -> & Hpl).
  eexists. split; [reflexivity|].
  assert (len (envelope (seal k1) tag nonce (plain_text (Type_ (Header p)) (len payload) (Unix now) seq payload padding))
    = padTo) as Hw.
  { rewrite len_envelope, len_plain_text, Hpl by done.
    unfold discoMinWire, discoTagLen, discoNonceLen, discoHeaderLen, discoSealLen. lia. }
  split; [done|]. unfold DecodeDisco. pose proof (len_nonneg payload).
  rewrite Hw, (proj2 (Z.ltb_ge _ _)), (proj2 (Z.ltb_ge _ _)) by lia. cbn [orb].
  destruct (RecvTags_spec k2 now') as (tags & -> & Htags); [by rewrite <-Htag, Hlen|].
  rewrite (proj2 (existsb_exists _ _)).
  - rewrite Hseal, decodeDiscoBody_envelope by done.
    rewrite decode_plain_text by (destruct Hwf; try lia; auto; change (2 ^ 16) with 65536;
      change discoMinWire with 48 in *; change discoMaxWire with 1452 in *; lia).
    do 2 f_equal. by apply payload_roundtrip.
  - exists tag. split; [|by apply bool_decide_eq_true; unfold envelope; rewrite array_app]. apply list_elem_of_In, Htags.
    exists (discoEpochOf now). rewrite <-Htag. split; [|done].
    pose proof (epoch_held _ _ Hnow Hskew) as Hh. unfold discoEpochOf at 1. change (quot discoEpoch Second) with 120.
    cbv zeta. by rewrite (proj2 (Z.ltb_ge (Unix now) 0)) by lia.
Qed.

(** ** What is accepted *)
Lemma be_bytes_slice b i j n : 0 <= i <= j → j <= len b → Z.of_nat n = j - i → be_bytes n (be_Z (slice b i j)) = slice b i j.
Proof.
  intros Hi Hj Hn. rewrite <-(be_bytes_be_Z (slice b i j)) at 2. f_equal.
  pose proof (len_slice b i j Hi Hj). unfold len in *. lia.
Qed.

Lemma be_Z_slice_bound b i j n : 0 <= i <= j → j <= len b → j - i = n → 0 <= be_Z (slice b i j) < 256 ^ n.
Proof. intros Hi Hj <-. rewrite <-(len_slice b i j Hi Hj). apply be_Z_bound. Qed.

Lemma slice_byte b i : 0 <= i < len b → [byte_of_Z (be_Z (slice b i (i + 1)))] = slice b i (i + 1).
Proof.
  intros Hi. pose proof (len_slice b i (i + 1) ltac:(lia) ltac:(lia)) as Hl.
  destruct (slice b i (i + 1)) as [|x [|y l]] eqn:E; unfold len in Hl; cbn [length] in Hl; try lia.
  by rewrite be_Z_single, byte_of_Z_of_byte.
Qed.

Lemma plain_text_fields plain n :
  discoHeaderLen + n <= len plain → 0 <= n → be_Z (slice plain 0 1) = discoVersion → be_Z (slice plain 2 4) = n →
  plain = plain_text (be_Z (slice plain 1 2)) n (be_Z (slice plain 4 8)) (be_Z (slice plain 8 12))
            (slice plain 12 (12 + n)) (slice_from plain (12 + n)).
Proof.
  unfold discoHeaderLen. intros Hl Hn Hv Hp. unfold plain_text. rewrite <-Hv, <-Hp at 1.
  rewrite !be_bytes_slice by lia.
  rewrite <-(slice_from_split plain 12), <-(slice_from_split plain 8), <-(slice_from_split plain 4),
    <-(slice_from_split plain 2) by lia.
  change ([byte_of_Z (be_Z (slice plain 0 1)); ?x]) with ([byte_of_Z (be_Z (slice plain 0 (0 + 1)))] ++ [x]).
  change 2 with (1 + 1) at 2. rewrite !slice_byte by lia. change (0 + 1) with 1. change (1 + 1) with 2.
  rewrite <-app_assoc, <-(slice_from_split plain 1), <-slice_split by lia. done.
Qed.

(** The payloads that a decoder builds: arrays of their size, integers of their
    width, addresses in their own form, and only the payload of the type. *)
Lemma parse_addr_wf b a n : parseDiscoAddrPort b = Ok (a, n) → wf_AddrPort a ∧ wire_addr a = a ∧ 0 < n <= len b.
Proof.
  unfold parseDiscoAddrPort. destruct b as [|fam b]; [done|]. intros E.
  apply result_bind_inv in E as (size & Es & E).
  assert (size = 4 ∨ size = 16) as Hs.
  { destruct (_ =? _); [injection Es as <-; auto|]. destruct (_ =? _); [injection Es as <-; auto|done]. }
  destruct (Z.ltb_spec (len (fam :: b)) (1 + size + 2)) as [|Hl]; [done|].
  destruct (AddrFromSlice _) as [x|] eqn:Ex; [|done]. injection E as <- <-.
  pose proof (be_Z_slice_bound (fam :: b) (1 + size) (1 + size + 2) 2 ltac:(lia) ltac:(lia) ltac:(lia)) as Hb.
  change (256 ^ 2) with (2 ^ 16) in Hb.
  pose proof (be_Z_slice_bound (fam :: b) 1 (1 + size) size ltac:(lia) ltac:(lia) ltac:(lia)) as Hx.
  pose proof (len_slice (fam :: b) 1 (1 + size) ltac:(lia) ltac:(lia)) as Hlen. unfold len in Hlen.
  assert (wf_addr x ∧ WithZone (Unmap x) EmptyString = Unmap x) as [Hwf Hz].
  { unfold AddrFromSlice in Ex. repeat case_decide; simplify_eq.
    - assert (size = 4) as -> by lia. change (256 ^ 4) with (2 ^ 32) in Hx. done.
    - assert (size = 16) as -> by lia. change (256 ^ 16) with (2 ^ 128) in Hx. split; [done|].
      unfold Unmap. by destruct (Is4In6 _). }
  split_and!; [split; [by apply wf_Unmap|done]| |lia|lia].
  unfold wire_addr. cbn [ap_Addr ap_Port]. by rewrite Unmap_idemp, Hz.
Qed.

Lemma parse_candidates_wf n : ∀ rest acc cs rest',
  parse_candidates n rest acc = Ok (cs, rest') →
  Forall wf_candidate acc → map wire_candidate acc = acc →
  Forall wf_candidate cs ∧ map wire_candidate cs = cs.
Proof.
  induction n as [|n IH]; intros rest acc cs rest' E Ha Hw; cbn [parse_candidates] in E.
  - by injection E as -> ->.
  - apply result_bind_inv in E as ([a k] & Ea & E). destruct (parse_addr_wf _ _ _ Ea) as (Hwf & Hwire & _).
    destruct (slice_from rest k) as [|prio rest1]; [done|]. apply IH in E; [done|..].
    + apply list.Forall_app. split; [done|]. constructor; [|constructor]. split; [done|]. apply Z_of_byte_bound.
    + rewrite map_app, Hw. cbn [map]. unfold wire_candidate. cbn [cand_Addr Priority]. by rewrite Hwire.
Qed.

Lemma parse_nonce_wf b nonce a :
  parseDiscoNonceAndAddr b = Ok (nonce, a) → len nonce = 16 ∧ wf_AddrPort a ∧ wire_addr a = a.
Proof.
  unfold parseDiscoNonceAndAddr, DiscoBindNonceSize. destruct (Z.ltb_spec (len b) 16); [done|]. intros E.
  apply result_bind_inv in E as ([a' n] & Ea & E). destruct (negb _); [done|]. injection E as <- <-.
  destruct (parse_addr_wf _ _ _ Ea) as (? & ? & _). split; [|done]. rewrite len_slice by lia. lia.
Qed.

Lemma parse_payload_wf b h p :
  0 <= Type_ h < 256 → parseDiscoPayload b (mkPacket h None None None None None) = Ok p →
  Header p = h ∧ wf_packet p ∧ wire_packet p h = p.
Proof.
  destruct h as [t seq ts]. intros Ht E. unfold parseDiscoPayload in E. cbn [Header Type_] in Ht, E.
  assert (∀ i j, int64_ok (i64 (be_Z (slice b i j)))) as Hi by (intros; apply i64_bound).
  assert (len b < 16 ∨ len (slice b 0 8) = 8) as Ht8
    by (destruct (Z_lt_le_dec (len b) 16); [by left|right; rewrite len_slice by lia; lia]).
  unfold wire_packet. cbn [Type_].
  destruct (Z.eqb_spec t DiscoProbeType) as [->|H1]; [|
  destruct (Z.eqb_spec t DiscoPongType) as [->|H2]; [|
  destruct (Z.eqb_spec t DiscoCallMeType) as [->|H3]; [|
  destruct (Z.eqb_spec t DiscoBindType) as [->|H4]; [|
  destruct (Z.eqb_spec t DiscoBindAckType) as [->|H5]; [|done]]]]].
  - destruct (Z.eqb_spec (len b) 16); [|done]. apply Ok_inj in E as <-. cbn. split_and!; [done| |done].
    split; cbn; intros; simplify_eq; try done. split; [destruct Ht8 as [|Ht8]; [lia|exact Ht8]|apply (Hi 8 16)].
  - destruct (Z.ltb_spec (len b) 16); [done|]. apply result_bind_inv in E as ([a n] & Ea & E).
    destruct (negb _); [done|]. apply Ok_inj in E as <-. destruct (parse_addr_wf _ _ _ Ea) as (Hwf & Hw & _).
    cbn. split_and!; [done| |by rewrite Hw]. split; cbn; intros; simplify_eq; try done. split_and!; [destruct Ht8 as [|Ht8]; [lia|exact Ht8]|apply (Hi 8 16)|done].
  - destruct b as [|count rest]; [done|]. destruct (_ <? _); [done|].
    apply result_bind_inv in E as ([cs r] & Ec & E). destruct (negb _); [done|]. apply Ok_inj in E as <-.
    destruct (parse_candidates_wf _ _ _ _ _ Ec) as [Hwf Hw]; [constructor|done|].
    cbn. split_and!; [done| |by rewrite Hw]. by split; cbn; intros; simplify_eq.
  - apply result_bind_inv in E as ([nonce a] & Ea & E). apply Ok_inj in E as <-.
    destruct (parse_nonce_wf _ _ _ Ea) as (Hn & Hwf & Hw).
    cbn. split_and!; [done| |by rewrite Hw]. by split; cbn; intros; simplify_eq.
  - apply result_bind_inv in E as ([nonce a] & Ea & E). apply Ok_inj in E as <-.
    destruct (parse_nonce_wf _ _ _ Ea) as (Hn & Hwf & Hw).
    cbn. split_and!; [done| |by rewrite Hw]. by split; cbn; intros; simplify_eq.
Qed.

(** What a decoded text says about itself. *)
Lemma decode_plain_inv plain now p : decode_plain plain now = Ok p →
  ∃ ts payload padding,
    plain = plain_text (Type_ (Header p)) (len payload) ts (Seq (Header p)) payload padding
    ∧ 0 <= Type_ (Header p) < 256 ∧ 0 <= ts < 2 ^ 32 ∧ 0 < Seq (Header p) < 2 ^ 32 ∧ len payload < 2 ^ 16
    ∧ TS (Header p) = ts * Second ∧ Z.abs (now - ts * Second) <= discoMaxSkew
    ∧ parseDiscoPayload payload (mkPacket (Header p) None None None None None) = Ok p
    ∧ wf_packet p ∧ wire_packet p (Header p) = p.
Proof.
  intros E. unfold decode_plain in E.
  destruct (Z.ltb_spec (len plain) discoHeaderLen) as [|Hl]; [done|].
  destruct (Z.eqb_spec (be_Z (slice plain 0 1)) discoVersion) as [Hv|]; [|done]. cbn [negb] in E.
  destruct (Z.ltb_spec (len plain) (discoHeaderLen + be_Z (slice plain 2 4))) as [|Hp]; [done|].
  destruct (_ || _) eqn:Esk; [done|]. apply orb_false_iff in Esk as [Es1 Es2]. bool_to_Z.
  cbn [Header Seq] in E. destruct (Z.eqb_spec (be_Z (slice plain 8 12)) 0) as [|Hseq]; [done|].
  unfold discoHeaderLen in Hl.
  pose proof (be_Z_slice_bound plain 1 2 1 ltac:(lia) ltac:(lia) ltac:(lia)) as Bt.
  pose proof (be_Z_slice_bound plain 2 4 2 ltac:(lia) ltac:(lia) ltac:(lia)) as Bp.
  pose proof (be_Z_slice_bound plain 4 8 4 ltac:(lia) ltac:(lia) ltac:(lia)) as Bts.
  pose proof (be_Z_slice_bound plain 8 12 4 ltac:(lia) ltac:(lia) ltac:(lia)) as Bs.
  change (256 ^ 1) with 256 in Bt. change (256 ^ 2) with (2 ^ 16) in Bp. change (256 ^ 4) with (2 ^ 32) in Bts, Bs.
  destruct (parse_payload_wf _ (mkHeader _ _ _) _ Bt E) as (Eh & Hwf & Hw).
  assert (len (slice plain 12 (12 + be_Z (slice plain 2 4))) = be_Z (slice plain 2 4)) as Hpl
    by (rewrite len_slice; unfold discoHeaderLen in Hp; lia).
  exists (be_Z (slice plain 4 8)), (slice plain 12 (12 + be_Z (slice plain 2 4))),
    (slice_from plain (12 + be_Z (slice plain 2 4))).
  rewrite Eh in *. cbn [Type_ Seq TS] in *. rewrite Hpl. split_and!; try done; try lia.
  - by apply plain_text_fields; [| lia | |].
  - unfold time_Sub in *. unfold discoMaxSkew, MinInt64, MaxInt64, Second in *. lia.
Qed.

(** Decoding never panics and accepts exactly the datagrams that are
    sealings under this end's opening key and tag of one of the three epochs
    held, of a text of version 2 whose time is within thirty seconds, whose
    sequence number is not zero and whose payload parses.  What it returns is
    well formed: only the payload of its type, with arrays of their size and
    addresses in their own form.  Anything else is an error, and a datagram
    that is not of this key can only give the two errors that leave it to QUIC. *)
Theorem Disco_accepts k wire now :
  MinSecretLen <= len (tagRecv k) →
  ∃ r, DecodeDisco wire (Some k) now = Ret r ∧
  (∀ p, r = Ok p ↔ ∃ e tag nonce ts payload padding,
    wire = envelope (open k) tag nonce
             (plain_text (Type_ (Header p)) (len payload) ts (Seq (Header p)) payload padding)
    ∧ e ∈ epochs_held now ∧ discoTag (tagRecv k) e = Ok tag ∧ len nonce = discoNonceLen
    ∧ discoMinWire <= len wire <= discoMaxWire
    ∧ 0 <= Type_ (Header p) < 256 ∧ 0 < Seq (Header p) < 2 ^ 32
    ∧ 0 <= ts < 2 ^ 32 ∧ TS (Header p) = ts * Second ∧ Z.abs (now - ts * Second) <= discoMaxSkew
    ∧ parseDiscoPayload payload (mkPacket (Header p) None None None None None) = Ok p)
  ∧ (∀ p, r = Ok p → wf_packet p ∧ wire_packet p (Header p) = p)
  ∧ ((∀ tag nonce plain, wire ≠ envelope (open k) tag nonce plain) → r = Err ErrNotDisco ∨ r = Err ErrDiscoAuth).
Proof.
  intros Hk. unfold DecodeDisco. destruct (RecvTags_spec k now Hk) as (tags & -> & Htags).
  destruct (_ || _) eqn:Elen.
  { eexists. split; [done|]. split_and!; [|done|by left]. intros p. split; [done|].
    intros (e & tag & nonce & ts & payload & padding & _ & _ & _ & _ & Hlen & _).
    apply orb_true_iff in Elen as [?%Z.ltb_lt|?%Z.ltb_lt]; lia. }
  apply orb_false_iff in Elen as [E1 E2]. bool_to_Z.
  destruct (existsb _ tags) eqn:Eex; [apply existsb_exists in Eex as (t & Ht & Eq)|].
  - apply bool_decide_eq_true in Eq. apply list_elem_of_In, Htags in Ht as (e & He & Et).
    assert (discoTagLen + discoNonceLen <= len wire) as Hl20
      by (change discoMinWire with 48 in *; unfold discoTagLen, discoNonceLen; lia).
    assert (∃ r, decodeDiscoBody wire k now = Ret r) as [r Hr].
    { unfold decodeDiscoBody. rewrite (proj2 (Z.ltb_ge _ _)) by lia. destruct (chacha_Open _ _ _ _); by eexists. }
    exists r. split; [done|]. split_and!.
    + intros p. split.
      * intros ->. destruct (decodeDiscoBody_opens wire k now _ Hl20 Hr) as (tag & nonce & plain & -> & Htl & Hnl & Hd);
          [done|]. unfold envelope in Eq. rewrite array_app in Eq by done. subst t.
        destruct (decode_plain_inv _ _ _ Hd) as (ts & payload & padding & -> & ? & ? & ? & ? & ? & ? & ? & _).
        exists e, tag, nonce, ts, payload, padding. split_and!; done || lia.
      * intros (e' & tag & nonce & ts & payload & padding & -> & _ & Et' & Hnl & Hlen & ? & ? & ? & Hts & ? & Hpay).
        destruct (discoTag_ok (tagRecv k) e' Hk) as (tag' & Etag' & Htl). rewrite Et' in Etag'. apply Ok_inj in Etag' as <-.
        rewrite decodeDiscoBody_envelope in Hr by done. injection Hr as <-.
        rewrite len_envelope, len_plain_text in Hlen by done. pose proof (len_nonneg padding).
        change discoMaxWire with 1452 in Hlen.
        rewrite decode_plain_text by (try done; change (2 ^ 16) with 65536; lia). rewrite <-Hts.
        destruct (Header p); exact Hpay.
    + intros p ->. destruct (decodeDiscoBody_opens wire k now _ Hl20 Hr) as (tag & nonce & plain & _ & _ & _ & Hd); [done|].
      apply decode_plain_inv in Hd. naive_solver.
    + intros Hno. assert (r = Err ErrDiscoAuth ∨ r ≠ Err ErrDiscoAuth) as [?|Hne]
        by (destruct r as [[]|?]; first [by left | by right]); [by right|]. exfalso.
      destruct (decodeDiscoBody_opens wire k now _ Hl20 Hr Hne) as (tag & nonce & plain & -> & _). by eapply Hno.
  - eexists. split; [done|]. split_and!; [|done|by left]. intros p. split; [done|].
    intros (e & tag & nonce & ts & payload & padding & -> & He & Et & _).
    destruct (discoTag_ok (tagRecv k) e Hk) as (tag' & Etag & Htl). rewrite Et in Etag. apply Ok_inj in Etag as <-.
    assert (existsb (λ t, bool_decide (t = array discoTagLen (envelope (open k) tag nonce
      (plain_text (Type_ (Header p)) (len payload) ts (Seq (Header p)) payload padding)))) tags = true); [|congruence].
    apply existsb_exists. exists tag. split; [apply list_elem_of_In, Htags; eauto|].
    apply bool_decide_eq_true. unfold envelope. by rewrite array_app.
Qed.

End Theorems.

(** ** Witnesses *)
#[local] Existing Instance toy.

Definition toy_tag (k a : bytes) : bytes := pad_to 16 (a ++ k).

Lemma toy_sealed (k c a p : bytes) :
  (let n := (length c - 16)%nat in if decide (drop n c = toy_tag k a) then Some (take n c) else None) = Some p →
  c = p ++ toy_tag k a.
Proof. cbv zeta. case_decide as E; [|done]. intros [= <-]. by rewrite <-E, take_drop. Qed.

Lemma toy_open (k a p : bytes) :
  (let c := p ++ toy_tag k a in
   let n := (length c - 16)%nat in if decide (drop n c = toy_tag k a) then Some (take n c) else None) = Some p.
Proof.
  cbv zeta. rewrite length_app. assert (length (toy_tag k a) = 16%nat) as -> by apply length_pad_to.
  replace (length p + 16 - 16)%nat with (length p) by lia.
  rewrite drop_app_length, take_app_length. by rewrite decide_True.
Qed.

(** A sealing whose tag depends on the key and the additional data. *)
Definition toy_crypto : DiscoCrypto.
Proof.
  refine {|
    chacha_Seal k _ p a := p ++ toy_tag k a;
    chacha_Open k _ c a :=
      let n := (length c - 16)%nat in if decide (drop n c = toy_tag k a) then Some (take n c) else None;
    hmac_sha256 k b := pad_to 32 (k ++ b);
    chacha_Open_Seal k n p a := toy_open k a p;
    chacha_Open_sealed k n c a p := toy_sealed k c a p;
  |}.
  - intros k n p a. rewrite length_app. unfold toy_tag. by rewrite length_pad_to.
  - intros s ctx n k Hn [= <-]. unfold len. rewrite length_pad_to. lia.
  - intros s ctx n _. by eexists.
Defined.
#[local] Existing Instance toy_crypto.

Definition sample_secret : bytes := pad_to 32 (string_bytes "exporter").
Definition no_keys : DiscoKeys := mkKeys [] [] [] [] [].
Definition keys_of (server : bool) : DiscoKeys :=
  match NewDiscoKeys sample_secret server with Ok k => k | Err _ => no_keys end.
Definition sample_callme : DiscoPacket :=
  mkPacket (mkHeader DiscoCallMeType 0 0) None None
    (Some (mkCallMe [mkCandidate (AddrPortFrom (V6 0xffffc0000201 "") 443) 7;
                     mkCandidate (AddrPortFrom (V6 1 "eth0") 8443) 200])) None None.
Definition sample_nonce : bytes := pad_to 12 [Byte.x2a].

Lemma Disco_roundtrip_witness :
  ∃ wire, EncodeDisco sample_callme (Some (keys_of true)) sample_nonce 1 (239 * Second) 1200 = Ok wire
    ∧ len wire = 1200
    ∧ DecodeDisco wire (Some (keys_of false)) (241 * Second)
      = Ret (Ok (wire_packet sample_callme (mkHeader DiscoCallMeType 1 (239 * Second)))).
Proof.
  apply (Disco_roundtrip sample_secret true (keys_of true) (keys_of false) sample_callme
    (match appendDiscoPayload [] sample_callme with Ok b => b | Err _ => [] end) sample_nonce 1
    (239 * Second) (241 * Second) 1200).
  - vm_compute. reflexivity.
  - vm_compute. reflexivity.
  - split; cbn; intros; simplify_eq; [vm_compute; intuition congruence|].
    repeat (apply List.Forall_cons; [split; [split|]; vm_compute; intuition congruence|]). apply List.Forall_nil.
  - vm_compute. reflexivity.
  - vm_compute. intuition congruence.
  - vm_compute. reflexivity.
  - vm_compute. intuition congruence.
  - vm_compute. intuition congruence.
  - vm_compute. congruence.
Defined.

Lemma Disco_accepts_witness :
  let wire := match EncodeDisco sample_callme (Some (keys_of true)) sample_nonce 1 (239 * Second) 1200 with
              | Ok w => w | Err _ => [] end in
  (match DecodeDisco wire (Some (keys_of false)) (241 * Second) with
   | Ret (Ok p) => Seq (Header p) | _ => 0 end) = 1
  ∧ ∃ r, DecodeDisco wire (Some (keys_of false)) (241 * Second) = Ret r ∧
    (∀ p, r = Ok p → wf_packet p ∧ wire_packet p (Header p) = p).
Proof.
  intros wire. split; [vm_compute; reflexivity|].
  destruct (Disco_accepts (keys_of false) wire (241 * Second)) as (r & E & _ & Hwf & _); [vm_compute; congruence|].
  exists r. split; [exact E|exact Hwf].
Defined.
