(* ===== verification/DiscoWindow.v ===== *)
(** * The windows of a disco session (extras/realm/disco_conn.go)

    [discoReplayWindow], which decides whether a sequence number is new, with a
    list of the numbers accepted as its specification; and [discoWireLens], the
    lengths that the connection has recently sent, whose mode the session's
    packets are padded to. *)
From S2P Require Import Prelude Disco.

(** ** The replay window *)
Record discoReplayWindow := mkWindow {
  high : Z;     (* uint32 *)
  bits : Z;     (* uint64 *)
  seen : bool;
}.

Definition zero_window : discoReplayWindow := mkWindow 0 0 false.

Definition accept (seq : Z) (w : discoReplayWindow) : discoReplayWindow * bool :=
  if seq =? 0 then (w, false) else
  if negb (seen w) then (mkWindow seq 1 true, true) else
  if high w <? seq then
    let shift := u32 (seq - high w) in
    let b := if 64 <=? shift then 0 else u64 (Z.shiftl (bits w) shift) in
    (mkWindow seq (Z.lor b 1) (seen w), true)
  else if 64 <=? u32 (high w - seq) then (w, false)
  else
    let mask := u64 (Z.shiftl 1 (u32 (high w - seq))) in
    if negb (Z.land (bits w) mask =? 0) then (w, false)
    else (mkWindow (high w) (Z.lor (bits w) mask) (seen w), true).

(** Its specification: the numbers accepted so far; a number is new when it is
    not among them, not zero, and less than 64 below the highest. *)
Definition highest (s : list Z) : Z := foldr Z.max 0 s.

Definition spec_accept (seq : Z) (s : list Z) : list Z * bool :=
  if (seq =? 0) || bool_decide (seq ∈ s) || (64 <=? highest s - seq) then (s, false) else (seq :: s, true).

(** ** The padding target *)
Definition discoWireLenWindow : Z := 64.
Definition discoWireLenMaxAge : Z := 10 * Second.

Record discoWireLens := mkWireLens {
  lens : list Z;   (* 64 uint32 *)
  at_ : list Z;    (* 64 int64 *)
  count : Z;       (* uint64 *)
}.

Definition zero_wireLens : discoWireLens := mkWireLens (replicate 64 0) (replicate 64 0) 0.

(** [now] is in nanoseconds since the Unix epoch. *)
Definition observe (n now : Z) (w : discoWireLens) : discoWireLens :=
  if (n <? discoMinWire) || (discoMaxWire <? n) then w else
  let c := u64 (count w + 1) in
  let i := Z.to_nat (u64 (c - 1) mod discoWireLenWindow) in
  mkWireLens (<[i := u32 n]> (lens w)) (<[i := i64 now]> (at_ w)) c.

(** The largest of the times, from the least int64 on. *)
Definition newest (ts : list Z) : Z := foldl (λ m t, if m <? t then t else m) MinInt64 ts.

(** The scan of the ascending lengths: the best one and its run, the current
    run, and the length before. *)
Fixpoint scan_runs (l : list Z) (prev best bestRun run : Z) : Z :=
  match l with
  | [] => best
  | x :: l =>
      let run := if x =? prev then run + 1 else 1 in
      if bestRun <=? run then scan_runs l x x run run else scan_runs l x best bestRun run
  end.

Definition mode (w : discoWireLens) : Z :=
  let filled := Z.to_nat (Z.min (count w) discoWireLenWindow) in
  if (filled =? 0)%nat then 0 else
  let ats := take filled (at_ w) in
  let since := i64 (newest ats - discoWireLenMaxAge) in
  let window := filter (λ p, ¬ p.2 < since ∧ p.1 ≠ 0) (zip (take filled (lens w)) ats) in
  match merge_sort Z.le window.*1 with
  | [] => 0
  | x :: l => scan_runs l x x 1 1
  end.

(** Its specification: of the samples, the most frequent length, the longest of
    them when there are several. *)
Definition freq (x : Z) (l : list Z) : Z := len (filter (λ y, y = x) l).

Definition is_mode (x : Z) (l : list Z) : Prop :=
  x ∈ l ∧ ∀ y, y ∈ l → freq y l < freq x l ∨ freq y l = freq x l ∧ y <= x.

(** * Properties *)

(** ** The replay window against its specification *)
#[local] Arguments wrapU : simpl never.

Lemma highest_cons x s : highest (x :: s) = Z.max x (highest s).
Proof. done. Qed.

Lemma highest_ge x s : x ∈ s → x <= highest s.
Proof. induction 1; rewrite highest_cons; lia. Qed.

Lemma highest_lt s b : 0 < b → Forall (λ x, x < b) s → 0 <= highest s < b.
Proof. induction 2; [done|]. rewrite highest_cons. lia. Qed.

Definition seq_ok (x : Z) : Prop := 0 < x < 2 ^ 32.

Lemma highest_bound s : Forall seq_ok s → 0 <= highest s < 2 ^ 32.
Proof. intros Hs. apply highest_lt; [done|]. eapply Forall_impl; [exact Hs|]. unfold seq_ok. lia. Qed.

(** The bitmap holds the 64 numbers up to the highest. *)
Record window_rel (w : discoReplayWindow) (s : list Z) : Prop := {
  rel_seen : seen w = negb (bool_decide (s = []));
  rel_seqs : Forall seq_ok s;
  rel_high : seen w = true → high w = highest s;
  rel_bits : seen w = true → ∀ i, 0 <= i < 64 → Z.testbit (bits w) i = bool_decide (highest s - i ∈ s);
}.

Lemma zero_window_rel : window_rel zero_window [].
Proof. by split. Qed.

Lemma testbit_1 i : 0 <= i → Z.testbit 1 i = (i =? 0).
Proof.
  intros. destruct (Z.eqb_spec i 0) as [->|]; [done|]. change 1 with (2 ^ 0). apply Z.pow2_bits_false. lia.
Qed.

(** Shifting the bitmap under a new highest number. *)
Lemma shifted_bits b s seq i :
  (∀ i, 0 <= i < 64 → Z.testbit b i = bool_decide (highest s - i ∈ s)) → highest s < seq → 0 <= i < 64 →
  Z.testbit (Z.lor (if 64 <=? seq - highest s then 0 else u64 (Z.shiftl b (seq - highest s))) 1) i
  = bool_decide (seq - i ∈ seq :: s).
Proof.
  intros Hb Hs Hi. rewrite Z.lor_spec, testbit_1 by lia.
  destruct (Z.eqb_spec i 0) as [->|Hi0].
  { rewrite orb_true_r. symmetry. apply bool_decide_eq_true, elem_of_cons. lia. }
  rewrite orb_false_r. destruct (Z.leb_spec 64 (seq - highest s)).
  - rewrite Z.bits_0. symmetry. apply bool_decide_eq_false. intros [?|Hin%highest_ge]%elem_of_cons; lia.
  - unfold wrapU. rewrite Z.mod_pow2_bits_low, Z.shiftl_spec by lia.
    destruct (Z_lt_le_dec i (seq - highest s)).
    + rewrite Z.testbit_neg_r by lia. symmetry. apply bool_decide_eq_false.
      intros [?|Hin%highest_ge]%elem_of_cons; lia.
    + rewrite Hb by lia. apply bool_decide_ext. replace (highest s - (i - (seq - highest s))) with (seq - i) by lia.
      rewrite elem_of_cons. split; [by right|]. intros [?|?]; [lia|done].
Qed.

(** The window takes the decisions of its specification. *)
Lemma accept_refines w s seq :
  window_rel w s → 0 <= seq < 2 ^ 32 →
  (accept seq w).2 = (spec_accept seq s).2 ∧ window_rel (accept seq w).1 (spec_accept seq s).1.
Proof.
  intros Hrel Hseq. pose proof Hrel as [Hseen Hok Hhigh Hbits]. pose proof (highest_bound s Hok) as Hb. unfold accept, spec_accept.
  destruct (Z.eqb_spec seq 0) as [|H0]; [by split|]. cbn [orb].
  destruct (seen w) eqn:Es; cbn [negb].
  2: { destruct s as [|]; [|done]. rewrite bool_decide_false by set_solver. cbn [orb].
       change (highest []) with 0. rewrite (proj2 (Z.leb_gt _ _)) by lia. split; [done|].
       split; cbn [seen high bits fst snd]; [done|repeat constructor; unfold seq_ok; lia| |].
       - intros _. rewrite highest_cons. change (highest []) with 0. lia.
       - intros _ i Hi. rewrite testbit_1 by lia. rewrite highest_cons. change (highest []) with 0.
         rewrite Z.max_l by lia. destruct (Z.eqb_spec i 0).
         + symmetry. apply bool_decide_eq_true, elem_of_cons. lia.
         + symmetry. apply bool_decide_eq_false. intros [?|?%elem_of_nil]%elem_of_cons; [lia|done]. }
  specialize (Hhigh eq_refl). specialize (Hbits eq_refl). rewrite Hhigh.
  destruct (Z.ltb_spec (highest s) seq) as [Hgt|Hle].
  - assert (seq ∉ s) as Hnew by (intros ?%highest_ge; lia).
    rewrite (bool_decide_false (seq ∈ s)), (proj2 (Z.leb_gt 64 (highest s - seq))) by (done || lia). cbn [orb fst snd]. split; [done|].
    rewrite (wrapU_small 32) by lia.
    split; cbn [seen high bits]; [done|constructor; [unfold seq_ok; lia|done]| |];
      rewrite highest_cons, Z.max_l by lia; [done|].
    intros _ i Hi. by apply shifted_bits.
  - rewrite (wrapU_small 32) by lia. destruct (Z.leb_spec 64 (highest s - seq)); [rewrite orb_true_r; by split|].
    rewrite orb_false_r. assert (u64 (Z.shiftl 1 (highest s - seq)) = Z.shiftl 1 (highest s - seq)) as ->.
    { rewrite Z.shiftl_1_l. apply wrapU_small. split; [lia|]. apply Z.pow_lt_mono_r; lia. }
    rewrite land_single, Hbits, negb_involutive by lia. replace (highest s - (highest s - seq)) with seq by lia.
    destruct (bool_decide_reflect (seq ∈ s)) as [Hin|Hnew]; [by split|]. cbn [fst snd]. split; [done|].
    split; cbn [seen high bits]; [done|constructor; [unfold seq_ok; lia|done]| |];
      rewrite highest_cons, Z.max_r by lia; [done|].
    intros _ i Hi. rewrite Z.lor_spec, Hbits, Z.shiftl_1_l by lia.
    destruct (Z.eq_dec i (highest s - seq)) as [->|Hne].
    + rewrite Z.pow2_bits_true, orb_true_r by lia. symmetry. apply bool_decide_eq_true, elem_of_cons. lia.
    + rewrite Z.pow2_bits_false, orb_false_r by lia. apply bool_decide_ext. rewrite elem_of_cons.
      split; [by right|]. intros [?|?]; [lia|done].
Qed.

Lemma spec_accept_new seq s : (spec_accept seq s).2 = true → (seq ∉ s) ∧ seq ≠ 0 ∧ (spec_accept seq s).1 = seq :: s.
Proof.
  unfold spec_accept. destruct (_ || _) eqn:E; [done|]. intros _.
  apply orb_false_iff in E as [[E1 E2]%orb_false_iff _]. bool_to_Z. by apply bool_decide_eq_false in E2.
Qed.

Lemma spec_accept_old seq s : (spec_accept seq s).2 = false → (spec_accept seq s).1 = s.
Proof. unfold spec_accept. by destruct (_ || _). Qed.

(** ** The mode *)
Lemma freq_app x l k : freq x (l ++ k) = freq x l + freq x k.
Proof. unfold freq. by rewrite filter_app, len_app. Qed.

Lemma freq_single x y : freq x [y] = if decide (y = x) then 1 else 0.
Proof. unfold freq. rewrite filter_cons. by case_decide. Qed.

Lemma freq_zero x l : x ∉ l → freq x l = 0.
Proof.
  intros Hx. unfold freq. induction l as [|y l IH]; [done|]. apply not_elem_of_cons in Hx as [Hxy Hx].
  rewrite filter_cons_False by done. by apply IH.
Qed.

Lemma freq_pos x l : x ∈ l → 0 < freq x l.
Proof.
  intros Hx. unfold freq, len. assert (x ∈ filter (λ y, y = x) l) as Hin by (by apply list_elem_of_filter).
  destruct (filter _ _); [by apply elem_of_nil in Hin|cbn; lia].
Qed.

Lemma freq_perm x l k : l ≡ₚ k → freq x l = freq x k.
Proof. intros E. unfold freq, len. by rewrite E. Qed.

Lemma is_mode_perm x l k : l ≡ₚ k → is_mode x l → is_mode x k.
Proof.
  intros E [Hin Hm]. split; [by rewrite <-E|]. intros y Hy. rewrite <-!(freq_perm _ l k E). apply Hm. by rewrite E.
Qed.

(** One turn of the scan extends the sorted prefix that has been seen. *)
Lemma mode_snoc pre x best : (∀ y, y ∈ pre → y <= x) → is_mode best pre →
  is_mode (if freq best pre <=? freq x pre + 1 then x else best) (pre ++ [x]).
Proof.
  intros Hx [Hb Hm]. destruct (Z.leb_spec (freq best pre) (freq x pre + 1)) as [Hle|Hgt].
  - split; [apply elem_of_app; right; by left|]. intros y [Hy|Hy%list_elem_of_singleton]%elem_of_app.
    + specialize (Hx y Hy). specialize (Hm y Hy). rewrite !freq_app, !freq_single, (decide_True (P := x = x)) by done.
      case_decide; subst; lia.
    + subst. by right.
  - assert (best ≠ x) as Hne by (intros ->; lia).
    split; [apply elem_of_app; by left|]. intros y Hy. rewrite !freq_app, !freq_single, (decide_False (P := x = best)) by done.
    destruct (decide (x = y)) as [<-|]; [lia|].
    apply elem_of_app in Hy as [Hy|Hy%list_elem_of_singleton]; [|by subst]. specialize (Hm y Hy). lia.
Qed.

Lemma scan_runs_mode rest : ∀ pre prev best,
  (∀ y, y ∈ pre → y <= prev) → prev ∈ pre → StronglySorted Z.le (prev :: rest) → is_mode best pre →
  is_mode (scan_runs rest prev best (freq best pre) (freq prev pre)) (pre ++ rest).
Proof.
  induction rest as [|x rest IH]; intros pre prev best Hpre Hin Hs Hm; cbn [scan_runs]; [by rewrite app_nil_r|].
  inversion Hs as [|? ? Hs' Hall]; subst. apply list.Forall_cons in Hall as [Hx _].
  assert (∀ y, y ∈ pre → y <= x) as Hpx by (intros y Hy; specialize (Hpre y Hy); lia).
  assert ((if x =? prev then freq prev pre + 1 else 1) = freq x (pre ++ [x])) as Hrun.
  { rewrite freq_app, freq_single, decide_True by done. destruct (Z.eqb_spec x prev) as [->|Hne]; [done|].
    rewrite freq_zero; [done|]. intros Hc. specialize (Hpre x Hc). lia. }
  rewrite Hrun. pose proof (mode_snoc pre x best Hpx Hm) as Hm'.
  assert (freq x (pre ++ [x]) = freq x pre + 1) as Hf by (rewrite freq_app, freq_single; by rewrite decide_True).
  rewrite <-Hf in Hm'.
  assert (∀ y, y ∈ pre ++ [x] → y <= x) as Hpx'.
  { intros y [Hy|Hy%list_elem_of_singleton]%elem_of_app; [by apply Hpx|lia]. }
  assert (x ∈ pre ++ [x]) as Hx' by (apply elem_of_app; right; by left).
  replace (pre ++ x :: rest) with ((pre ++ [x]) ++ rest) by (by rewrite <-app_assoc).
  destruct (Z.leb_spec (freq best pre) (freq x (pre ++ [x]))) as [|Hgt].
  - by apply IH.
  - assert (freq best pre = freq best (pre ++ [x])) as ->.
    { rewrite freq_app, freq_single. case_decide; [subst; lia|lia]. }
    by apply IH.
Qed.

Lemma sorted_mode l : l ≠ [] → is_mode (match merge_sort Z.le l with [] => 0 | x :: l => scan_runs l x x 1 1 end) l.
Proof.
  intros Hl. pose proof (merge_sort_Permutation Z.le l) as Hp.
  pose proof (StronglySorted_merge_sort Z.le l) as Hs.
  destruct (merge_sort Z.le l) as [|x k]; [by apply Permutation_nil in Hp|].
  apply (is_mode_perm _ (x :: k)); [done|]. change (x :: k) with ([x] ++ k).
  assert (freq x [x] = 1) as E1 by (rewrite freq_single; by rewrite decide_True).
  pose proof (scan_runs_mode k [x] x x) as H. rewrite E1 in H. apply H.
  - intros y ->%list_elem_of_singleton. lia.
  - by left.
  - exact Hs.
  - split; [by left|]. intros y ->%list_elem_of_singleton. by right.
Qed.

(** ** The window over a history of datagrams *)

(** The last 64 elements of a history, and the slots of a ring of 64 into which
    the history was written. *)
Definition last64 {A} (l : list A) : list A := drop (length l - 64) l.
Definition slots {A} (l : list A) : list A :=
  if (length l <? 64)%nat then l
  else drop (64 - length l mod 64) (last64 l) ++ take (64 - length l mod 64) (last64 l).

Lemma slots_perm {A} (l : list A) : slots l ≡ₚ last64 l.
Proof.
  unfold slots. destruct (Nat.ltb_spec (length l) 64).
  - unfold last64. by replace (length l - 64)%nat with 0%nat by lia.
  - rewrite Permutation_app_comm. by rewrite take_drop.
Qed.

Lemma length_last64 {A} (l : list A) : length (last64 l) = Nat.min (length l) 64.
Proof. unfold last64. rewrite length_drop. lia. Qed.

Lemma length_slots {A} (l : list A) : length (slots l) = Nat.min (length l) 64.
Proof. rewrite (slots_perm l). apply length_last64. Qed.

(** Writing at [length l mod 64] writes over the oldest element. *)
Lemma slots_snoc {A} (l : list A) x :
  slots (l ++ [x]) =
  if (length l <? 64)%nat then slots l ++ [x] else <[(length l mod 64)%nat := x]> (slots l).
Proof.
  unfold slots. rewrite length_app. cbn [length].
  destruct (Nat.ltb_spec (length l) 64) as [Hl|Hl].
  - destruct (Nat.ltb_spec (length l + 1) 64); [done|]. assert (length l = 63%nat) as Hlen by lia.
    unfold last64. rewrite length_app. cbn [length]. rewrite Hlen. cbn [Nat.add Nat.sub].
    change (64 mod 64)%nat with 0%nat. rewrite !drop_0. rewrite drop_ge, take_ge by (rewrite length_app; cbn; lia). done.
  - destruct (Nat.ltb_spec (length l + 1) 64); [lia|].
    assert (last64 (l ++ [x]) = drop 1 (last64 l) ++ [x]) as ->.
    { unfold last64. rewrite length_app. cbn [length]. rewrite drop_drop, drop_app_le by lia. do 2 f_equal. lia. }
    pose proof (length_last64 l) as Hlen. rewrite Nat.min_r in Hlen by done.
    set (r := (length l mod 64)%nat). assert (r < 64)%nat as Hr by (apply Nat.mod_upper_bound; lia).
    destruct (last64 l) as [|y k] eqn:E; [done|]. cbn [length] in Hlen. cbn [drop].
    assert (((length l + 1) mod 64)%nat = if decide (r = 63%nat) then 0%nat else S r) as ->.
    { unfold r. pose proof (Nat.div_mod_eq (length l) 64). case_decide; symmetry.
      - apply (Nat.mod_unique _ _ (length l / 64 + 1)); lia.
      - apply (Nat.mod_unique _ _ (length l / 64)); lia. }
    assert (<[r := x]> (drop (64 - r) (y :: k) ++ take (64 - r) (y :: k))
            = drop (63 - r) k ++ x :: take (63 - r) k) as ->.
    { replace (64 - r)%nat with (S (63 - r)) by lia. cbn [drop take].
      replace r with (length (drop (63 - r) k) + 0)%nat at 1 by (rewrite length_drop; lia).
      by rewrite insert_app_r. }
    case_decide as Hr63.
    + rewrite Hr63. cbn [Nat.sub]. rewrite !drop_0, drop_ge, take_ge by (rewrite length_app; cbn; lia).
      by rewrite take_0.
    + replace (64 - S r)%nat with (63 - r)%nat by lia. rewrite drop_0, drop_app_le, take_app_le by lia. by rewrite <-app_assoc.
Qed.

Definition kept (h : list (Z * Z)) : list (Z * Z) := filter (λ p, discoMinWire <= p.1 <= discoMaxWire) h.

(** The window after the datagrams [h] (length, time), oldest first. *)
Definition wire_after (h : list (Z * Z)) : discoWireLens := foldl (λ w p, observe p.1 p.2 w) zero_wireLens h.

Definition sample_ok (p : Z * Z) : Prop := 0 <= p.2 <= MaxInt64.

Record wire_rel (w : discoWireLens) (l : list (Z * Z)) : Prop := {
  wire_lens : length (lens w) = 64%nat;
  wire_at : length (at_ w) = 64%nat;
  wire_count : count w = len l;
  wire_slots : take (Nat.min (length l) 64) (zip (lens w) (at_ w)) = slots l;
}.

Lemma observe_rel w l n now :
  wire_rel w l → len l < 2 ^ 63 → 0 <= now <= MaxInt64 →
  wire_rel (observe n now w) (l ++ kept [(n, now)]).
Proof.
  intros [Hl Ha Hc Hs] Hlen Hnow. unfold observe, kept. rewrite filter_cons, filter_nil. cbn [fst].
  destruct (_ || _) eqn:E.
  { rewrite decide_False, app_nil_r; [by split|]. apply orb_true_iff in E as [?%Z.ltb_lt|?%Z.ltb_lt]; lia. }
  apply orb_false_iff in E as [E1 E2]. bool_to_Z. rewrite decide_True by lia.
  change discoMinWire with 48 in E1. change discoMaxWire with 1452 in E2. change (2 ^ 63) with 9223372036854775808 in Hlen.
  rewrite (wrapU_small 32), i64_small by (change (2 ^ 32) with 4294967296; unfold MinInt64; lia).
  pose proof (len_nonneg l). rewrite Hc.
  rewrite (wrapU_small 64 (len l + 1)) by (change (2 ^ 64) with 18446744073709551616; lia).
  replace (len l + 1 - 1) with (len l) by lia.
  rewrite (wrapU_small 64) by (change (2 ^ 64) with 18446744073709551616; lia).
  assert (Z.to_nat (len l mod discoWireLenWindow) = length l mod 64)%nat as ->.
  { unfold len, discoWireLenWindow. rewrite <-(Nat2Z.inj_mod _ 64). apply Nat2Z.id. }
  split; cbn [lens at_ count]; rewrite ?length_insert, ?len_app; [done..|].
  rewrite <-insert_zip_with, length_app. cbn [length]. rewrite slots_snoc, <-Hs.
  set (zs := zip (lens w) (at_ w)) in *. assert (length zs = 64%nat) as HZ by (unfold zs; rewrite length_zip_with; lia).
  destruct (Nat.ltb_spec (length l) 64) as [Hlt|Hge].
  - rewrite Nat.mod_small by done. rewrite Nat.min_l, Nat.min_l by lia.
    rewrite insert_take_drop by lia. rewrite take_app_ge by (rewrite length_take; lia).
    rewrite length_take, Nat.min_l by lia. by replace (length l + 1 - length l)%nat with 1%nat by lia.
  - rewrite Nat.min_r, Nat.min_r by lia. rewrite take_insert_lt; [done|]. by apply Nat.mod_upper_bound.
Qed.

Lemma kept_app h k : kept (h ++ k) = kept h ++ kept k.
Proof. apply filter_app. Qed.

Lemma length_kept h : (length (kept h) <= length h)%nat.
Proof. apply length_filter. Qed.

Lemma wire_after_rel h : Forall sample_ok h → len h < 2 ^ 63 → wire_rel (wire_after h) (kept h).
Proof.
  unfold wire_after. induction h as [|p h IH] using rev_ind; intros Hh Hlen; [by split|].
  rewrite list.Forall_app in Hh. destruct Hh as [Hh Hp]. rewrite list.Forall_singleton in Hp.
  rewrite len_app in Hlen. change (len [p]) with 1 in Hlen. rewrite foldl_snoc, kept_app. destruct p as [n now].
  apply observe_rel; [apply IH; [done|lia]| |exact Hp].
  pose proof (length_kept h). unfold len in *. lia.
Qed.

(** The lengths sent no longer than [discoWireLenMaxAge] before the newest. *)
Definition recent (l : list (Z * Z)) : list Z :=
  (filter (λ p, Forall (λ q, q.2 - discoWireLenMaxAge <= p.2) l) l).*1.

Lemma recent_perm l k : l ≡ₚ k → recent l ≡ₚ recent k.
Proof.
  intros E. unfold recent. apply fmap_Permutation. rewrite E.
  assert (∀ p : Z * Z, Forall (λ q : Z * Z, q.2 - discoWireLenMaxAge <= p.2) l ↔ Forall (λ q : Z * Z, q.2 - discoWireLenMaxAge <= p.2) k)
    as Hext by (intros p; by rewrite E).
  by rewrite (list_filter_iff _ _ k Hext).
Qed.

Lemma newest_spec ts : Forall (λ t, MinInt64 <= t) ts → ts ≠ [] →
  newest ts ∈ ts ∧ ∀ t, t ∈ ts → t <= newest ts.
Proof.
  unfold newest. induction ts as [|t ts IH] using rev_ind; [done|]. rewrite list.Forall_app, list.Forall_singleton.
  intros [Hts Ht] _. rewrite foldl_snoc. destruct (decide (ts = [])) as [->|Hne].
  { cbn [foldl]. destruct (Z.ltb_spec MinInt64 t); cbn [app]; rewrite list_elem_of_singleton.
    - split; [done|]. intros t' ->%list_elem_of_singleton. lia.
    - split; [lia|]. intros t' ->%list_elem_of_singleton. lia. }
  destruct (IH Hts Hne) as [Hin Hmax]. destruct (Z.ltb_spec (foldl (λ m t : Z, if m <? t then t else m) MinInt64 ts) t).
  - split; [apply elem_of_app; right; by left|]. intros t' [Ht'|Ht'%list_elem_of_singleton]%elem_of_app; [|lia].
    specialize (Hmax t' Ht'). lia.
  - split; [by apply elem_of_app; left|]. intros t' [Ht'|Ht'%list_elem_of_singleton]%elem_of_app; [by apply Hmax|lia].
Qed.

Lemma filter_ext_in {A} (P Q : A → Prop) `{∀ x, Decision (P x), ∀ x, Decision (Q x)} (l : list A) :
  (∀ x, x ∈ l → P x ↔ Q x) → filter P l = filter Q l.
Proof.
  induction l as [|x l IH]; intros Hl; [done|]. rewrite !filter_cons, IH by (intros y Hy; apply Hl; by right).
  specialize (Hl x ltac:(by left)). repeat case_decide; tauto.
Qed.

(** The window that [mode] sorts holds the recent lengths. *)
Lemma mode_slots w l : wire_rel w l → l ≠ [] → Forall sample_ok l → Forall (λ p, p.1 ≠ 0) l →
  mode w = match merge_sort Z.le (recent (slots l)) with [] => 0 | x :: k => scan_runs k x x 1 1 end
  ∧ recent (slots l) ≠ [].
Proof.
  intros [Hl Ha Hc Hs] Hne Hok Hnz. unfold mode, discoWireLenWindow. rewrite Hc.
  assert (Z.to_nat (Z.min (len l) 64) = Nat.min (length l) 64) as -> by (unfold len; lia).
  assert (0 < length l)%nat as Hpos by (destruct l; [done|cbn; lia]).
  destruct (Nat.eqb_spec (Nat.min (length l) 64) 0); [lia|].
  rewrite zip_with_take in Hs. rewrite Hs.
  assert (Forall sample_ok (slots l) ∧ Forall (λ p, p.1 ≠ 0) (slots l)) as [Hok' Hnz'].
  { rewrite !slots_perm. unfold last64. split; by apply Forall_drop. }
  set (sz := Nat.min (length l) 64) in *.
  assert (take sz (at_ w) = (slots l).*2) as ->.
  { rewrite <-Hs. symmetry. apply snd_zip. rewrite !length_take. lia. }
  assert (slots l ≠ []) as Hsl by (intros E; pose proof (length_slots l) as Hx; rewrite E in Hx; cbn in Hx; lia).
  destruct (newest_spec (slots l).*2) as [Hin Hmax].
  { apply Forall_fmap. eapply Forall_impl; [exact Hok'|]. unfold sample_ok, MinInt64. cbn. lia. }
  { by intros ?%fmap_nil_inv. }
  set (m := newest (slots l).*2) in *.
  apply list_elem_of_fmap in Hin as (q & Hq & Hqin).
  assert (0 <= m <= MaxInt64) as Hm by (rewrite Hq; by apply (proj1 (Forall_forall _ _) Hok')).
  rewrite i64_small by (unfold MinInt64, discoWireLenMaxAge, Second in *; lia).
  assert (filter (λ p, ¬ p.2 < m - discoWireLenMaxAge ∧ p.1 ≠ 0) (slots l)
    = filter (λ p, Forall (λ q, q.2 - discoWireLenMaxAge <= p.2) (slots l)) (slots l)) as ->.
  { apply filter_ext_in. intros p Hp. rewrite Forall_forall. split.
    - intros [H1 _] q' Hq'. specialize (Hmax q'.2 ltac:(apply list_elem_of_fmap; eauto)). lia.
    - intros Hall. specialize (Hall q Hqin). split; [lia|]. by apply (proj1 (Forall_forall _ _) Hnz'). }
  split; [done|]. unfold recent. intros E%fmap_nil_inv.
  assert (q ∈ filter (λ p, Forall (λ q, q.2 - discoWireLenMaxAge <= p.2) (slots l)) (slots l)) as Hqf.
  { apply list_elem_of_filter. split; [|done]. apply Forall_forall. intros q' Hq'.
    specialize (Hmax q'.2 ltac:(apply list_elem_of_fmap; eauto)). unfold discoWireLenMaxAge, Second. lia. }
  rewrite E in Hqf. by apply elem_of_nil in Hqf.
Qed.

(** Whatever datagrams the connection has sent, the padding target is the
    most frequent length, the longest of them in a tie, among those of the last
    64 of imitable length that were sent at most ten seconds before the newest
    of them; and it is zero exactly when no datagram was of imitable length. *)
Theorem mode_of_recent h :
  Forall sample_ok h → len h < 2 ^ 63 →
  if decide (kept h = []) then mode (wire_after h) = 0
  else is_mode (mode (wire_after h)) (recent (last64 (kept h)))
       ∧ discoMinWire <= mode (wire_after h) <= discoMaxWire.
Proof.
  intros Hh Hlen. pose proof (wire_after_rel h Hh Hlen) as Hrel. case_decide as Hk.
  { unfold mode. by rewrite (wire_count _ _ Hrel), Hk. }
  assert (Forall (λ p : Z * Z, discoMinWire <= p.1 <= discoMaxWire) (kept h)) as Hr.
  { apply Forall_forall. intros p Hp. by apply list_elem_of_filter in Hp as [? _]. }
  assert (Forall sample_ok (kept h)) as Hok.
  { apply Forall_forall. intros p Hp. apply list_elem_of_filter in Hp as [_ Hp]. by apply (proj1 (Forall_forall _ _) Hh). }
  destruct (mode_slots _ _ Hrel Hk Hok) as [-> Hne].
  { eapply Forall_impl; [exact Hr|]. intros p ?. cbn in *. change discoMinWire with 48 in *. lia. }
  pose proof (sorted_mode _ Hne) as Hm.
  pose proof (is_mode_perm _ _ _ (recent_perm _ _ (slots_perm (kept h))) Hm) as Hm'.
  revert Hm'. generalize (match merge_sort Z.le (recent (slots (kept h))) with [] => 0 | x :: k => scan_runs k x x 1 1 end).
  intros v Hm'. split; [exact Hm'|]. destruct Hm' as [Hin _]. unfold recent in Hin.
  apply list_elem_of_fmap in Hin as (p & -> & [_ Hp]%list_elem_of_filter).
  assert (p ∈ kept h) as Hp' by (rewrite <-(take_drop (length (kept h) - 64)); apply elem_of_app; by right). by apply (proj1 (Forall_forall _ _) Hr).
Qed.

(** The fourth datagram is an acknowledgement, too short to imitate. *)
Definition sample_history : list (Z * Z) :=
  [(1439, 0); (1439, 1 * Second); (1439, 2 * Second); (30, 30 * Second); (1200, 31 * Second); (1200, 32 * Second); (900, 33 * Second)].

Lemma mode_of_recent_witness :
  mode (wire_after sample_history) = 1200
  ∧ is_mode (mode (wire_after sample_history)) (recent (last64 (kept sample_history))).
Proof.
  split; [vm_compute; reflexivity|].
  assert (Forall sample_ok sample_history) as Hh.
  { repeat (apply List.Forall_cons; [split; vm_compute; congruence|]). apply List.Forall_nil. }
  assert (len sample_history < 2 ^ 63) as Hl by (vm_compute; reflexivity).
  pose proof (mode_of_recent sample_history Hh Hl) as H.
  destruct (decide (kept sample_history = [])) as [E|_]; [vm_compute in E; congruence|exact (proj1 H)].
Defined.
