(* ===== verification/DiscoConn.v ===== *)
(** * Disco sessions on a socket (extras/realm/disco_conn.go)

    The demultiplexer: the sessions, the table of their tags and the index of
    their peers, the padding targets and replay windows they keep, and the
    ticker that turns the epochs.  A function of the source that runs under one
    lock is one definition; sessions are pointers into a heap, because the
    tables and the goroutines share them.  [World] adds what the goroutines
    still owe, and any interleaving of their locked sections is a list of
    labels of [step].  Getters and the socket options that only forward are left
    out. *)
From S2P Require Import GoStd Prelude Netip Obfs Disco DiscoWindow.

Definition defaultDiscoEventBuffer : Z := 16.
Definition discoObfuscatorName : string := "salamander-v2".

Inductive conn_error : Type :=
| ErrInvalidDiscoSession
| ErrUnknownDiscoSession
| ErrDiscoRequiresObfs
| ErrDiscoRequiresSalamanderV2
| ErrDiscoNoWireLength
| ErrDiscoSeqExhausted
| ErrClosed
| ErrDisco (e : disco_error).

Definition normaliseDiscoPeer (peer : AddrPort) : AddrPort := AddrPortFrom (Unmap (ap_Addr peer)) (ap_Port peer).

(** ** State *)
Record DiscoPacketEvent := mkEvent { From : AddrPort; At : Z; Packet : DiscoPacket }.

(** Counters: uint64, and int64 for the skew. *)
Record DiscoStats := mkStats {
  Delivered : Z;
  AuthFail : Z;
  BadVersion : Z;
  ClockSkew : Z;
  MaxSkewSeconds : Z;
  Replay : Z;
  Malformed : Z;
  Dropped : Z;
}.

Definition zero_DiscoStats : DiscoStats := mkStats 0 0 0 0 0 0 0 0.
Definition count_Delivered (s : DiscoStats) : DiscoStats :=
  mkStats (u64 (Delivered s + 1)) (AuthFail s) (BadVersion s) (ClockSkew s) (MaxSkewSeconds s) (Replay s) (Malformed s) (Dropped s).
Definition count_AuthFail (s : DiscoStats) : DiscoStats :=
  mkStats (Delivered s) (u64 (AuthFail s + 1)) (BadVersion s) (ClockSkew s) (MaxSkewSeconds s) (Replay s) (Malformed s) (Dropped s).
Definition count_BadVersion (s : DiscoStats) : DiscoStats :=
  mkStats (Delivered s) (AuthFail s) (u64 (BadVersion s + 1)) (ClockSkew s) (MaxSkewSeconds s) (Replay s) (Malformed s) (Dropped s).
Definition count_ClockSkew (s : DiscoStats) : DiscoStats :=
  mkStats (Delivered s) (AuthFail s) (BadVersion s) (u64 (ClockSkew s + 1)) (MaxSkewSeconds s) (Replay s) (Malformed s) (Dropped s).
Definition count_Replay (s : DiscoStats) : DiscoStats :=
  mkStats (Delivered s) (AuthFail s) (BadVersion s) (ClockSkew s) (MaxSkewSeconds s) (u64 (Replay s + 1)) (Malformed s) (Dropped s).
Definition count_Malformed (s : DiscoStats) : DiscoStats :=
  mkStats (Delivered s) (AuthFail s) (BadVersion s) (ClockSkew s) (MaxSkewSeconds s) (Replay s) (u64 (Malformed s + 1)) (Dropped s).
Definition count_Dropped (s : DiscoStats) : DiscoStats :=
  mkStats (Delivered s) (AuthFail s) (BadVersion s) (ClockSkew s) (MaxSkewSeconds s) (Replay s) (Malformed s) (u64 (Dropped s + 1)).
Record discoSession := mkSession {
  id : string;
  keys : DiscoKeys;
  events : list DiscoPacketEvent;   (* what the channel holds *)
  seq : Z;                          (* uint32 *)
  wireLens : discoWireLens;
  peer : AddrPort;
  tags : list bytes;
  window : discoReplayWindow;
}.

(** [ticker] says whether the ticker's goroutine runs ([tickerStop] is not
    nil); [heap] holds the sessions ever made. *)
Record DiscoPacketConn := mkConn {
  eventBuffer : Z;
  stats : DiscoStats;
  byPeer : gmap AddrPort (list nat);
  sessions : gmap string nat;
  closed : bool;
  byTag : gmap bytes (list nat);
  epoch : Z;                        (* uint64 *)
  ticker : bool;
  heap : gmap nat discoSession;
  next : nat;
}.

Definition set_events (v : list DiscoPacketEvent) (s : discoSession) : discoSession :=
  mkSession (id s) (keys s) v (seq s) (wireLens s) (peer s) (tags s) (window s).
Definition set_seq (v : Z) (s : discoSession) : discoSession :=
  mkSession (id s) (keys s) (events s) v (wireLens s) (peer s) (tags s) (window s).
Definition set_wireLens (v : discoWireLens) (s : discoSession) : discoSession :=
  mkSession (id s) (keys s) (events s) (seq s) v (peer s) (tags s) (window s).
Definition set_peer (v : AddrPort) (s : discoSession) : discoSession :=
  mkSession (id s) (keys s) (events s) (seq s) (wireLens s) v (tags s) (window s).
Definition set_tags (v : list bytes) (s : discoSession) : discoSession :=
  mkSession (id s) (keys s) (events s) (seq s) (wireLens s) (peer s) v (window s).
Definition set_window (v : discoReplayWindow) (s : discoSession) : discoSession :=
  mkSession (id s) (keys s) (events s) (seq s) (wireLens s) (peer s) (tags s) v.
Definition set_stats (v : DiscoStats) (c : DiscoPacketConn) : DiscoPacketConn :=
  mkConn (eventBuffer c) v (byPeer c) (sessions c) (closed c) (byTag c) (epoch c) (ticker c) (heap c)
    (next c).
Definition set_byPeer (v : gmap AddrPort (list nat)) (c : DiscoPacketConn) : DiscoPacketConn :=
  mkConn (eventBuffer c) (stats c) v (sessions c) (closed c) (byTag c) (epoch c) (ticker c) (heap c)
    (next c).
Definition set_sessions (v : gmap string nat) (c : DiscoPacketConn) : DiscoPacketConn :=
  mkConn (eventBuffer c) (stats c) (byPeer c) v (closed c) (byTag c) (epoch c) (ticker c) (heap c)
    (next c).
Definition set_byTag (v : gmap bytes (list nat)) (c : DiscoPacketConn) : DiscoPacketConn :=
  mkConn (eventBuffer c) (stats c) (byPeer c) (sessions c) (closed c) v (epoch c) (ticker c) (heap c)
    (next c).
Definition set_epoch (v : Z) (c : DiscoPacketConn) : DiscoPacketConn :=
  mkConn (eventBuffer c) (stats c) (byPeer c) (sessions c) (closed c) (byTag c) v (ticker c) (heap c)
    (next c).
Definition set_ticker (v : bool) (c : DiscoPacketConn) : DiscoPacketConn :=
  mkConn (eventBuffer c) (stats c) (byPeer c) (sessions c) (closed c) (byTag c) (epoch c) v (heap c)
    (next c).
Definition set_heap (v : gmap nat discoSession) (c : DiscoPacketConn) : DiscoPacketConn :=
  mkConn (eventBuffer c) (stats c) (byPeer c) (sessions c) (closed c) (byTag c) (epoch c) (ticker c) v
    (next c).
Definition update (f : discoSession → discoSession) (p : nat) (c : DiscoPacketConn) : DiscoPacketConn :=
  set_heap (alter f p (heap c)) c.

Definition bucket {K} `{Countable K} (k : K) (m : gmap K (list nat)) : list nat := default [] (m !! k).

(** [appendDiscoBucket] and [appendDiscoPeer] copy the bucket; removing builds
    a fresh one, and deletes it when it is empty. *)
Definition appendDiscoBucket (b : list nat) (p : nat) : list nat := b ++ [p].
Definition appendDiscoPeer (b : list nat) (p : nat) : list nat := b ++ [p].

Definition bucket_add {K} `{Countable K} (k : K) (p : nat) (m : gmap K (list nat)) : gmap K (list nat) :=
  <[k := appendDiscoBucket (bucket k m) p]> m.

Definition bucket_drop {K} `{Countable K} (k : K) (p : nat) (m : gmap K (list nat)) : gmap K (list nat) :=
  let next := filter (λ q, q ≠ p) (bucket k m) in
  match next with [] => delete k m | _ => <[k := next]> m end.

(** [name] is what [ObfuscationName] reports, when the connection has one. *)
Definition NewDiscoPacketConn (conn : bool) (name : option string) (eventBuffer : Z) : result conn_error DiscoPacketConn :=
  if negb conn then Err ErrInvalidDiscoSession else
  match name with
  | None => Err ErrDiscoRequiresObfs
  | Some name =>
      if negb (bool_decide (name = discoObfuscatorName)) then Err ErrDiscoRequiresSalamanderV2
      else Ok (mkConn (if eventBuffer <=? 0 then defaultDiscoEventBuffer else eventBuffer)
                 zero_DiscoStats ∅ ∅ false ∅ 0 false ∅ 0)
  end.

Definition session (id : string) (c : DiscoPacketConn) : option nat := sessions c !! id.

Section Conn.
Context `{DC : DiscoCrypto} `{MR : !MapRange string nat}.

(** ** The tag table *)
Definition dropTagsLocked (p : nat) (c : DiscoPacketConn) : DiscoPacketConn :=
  match heap c !! p with
  | None => c
  | Some s => update (set_tags []) p (set_byTag (foldl (λ m t, bucket_drop t p m) (byTag c) (tags s)) c)
  end.

(** One session of the rebuilding loop: the table built so far, the heap and
    the first error. *)
Definition rebuild_one (now : Z) (acc : gmap bytes (list nat) * gmap nat discoSession * option disco_error)
    (e : string * nat) : gmap bytes (list nat) * gmap nat discoSession * option disco_error :=
  let '(m, h, firstErr) := acc in
  let '(_, p) := e in
  match h !! p with
  | None => acc
  | Some s =>
      match RecvTags (keys s) now with
      | Err err => (m, <[p := set_tags [] s]> h, match firstErr with None => Some err | Some _ => firstErr end)
      | Ok tags => (foldl (λ m t, bucket_add t p m) m tags, <[p := set_tags tags s]> h, firstErr)
      end
  end.

Definition rebuildTagsLocked (now : Z) (c : DiscoPacketConn) : DiscoPacketConn * option disco_error :=
  let '(m, h, firstErr) := foldl (rebuild_one now) (∅, heap c, None) (map_range (sessions c)) in
  (set_epoch (discoEpochOf now) (set_byTag m (set_heap h c)), firstErr).

Definition addTagsLocked (p : nat) (now : Z) (c : DiscoPacketConn) : DiscoPacketConn * option disco_error :=
  if negb (discoEpochOf now =? epoch c) then rebuildTagsLocked now c else
  match heap c !! p with
  | None => (c, None)
  | Some s =>
      match RecvTags (keys s) now with
      | Err err => (c, Some err)
      | Ok tags => (update (set_tags tags) p (set_byTag (foldl (λ m t, bucket_add t p m) (byTag c) tags) c), None)
      end
  end.

(** [refreshTags] decides under the read lock and rebuilds under the write lock. *)
Definition refresh_due (now : Z) (c : DiscoPacketConn) : bool :=
  negb ((discoEpochOf now =? epoch c) || bool_decide (sessions c = ∅)).

Definition refreshTags (now : Z) (c : DiscoPacketConn) : DiscoPacketConn :=
  if refresh_due now c then (rebuildTagsLocked now c).1 else c.

(** ** Sessions come and go

    The two functions that return a state and what the caller gets are the
    sections under the locks; [syncEpochTicker] follows. *)
Definition add_locked (id : string) (keys : DiscoKeys) (peer : AddrPort) (now : Z) (c : DiscoPacketConn)
    : DiscoPacketConn * result conn_error nat :=
  if closed c then (c, Err ErrClosed) else
  match sessions c !! id with
  | Some _ => (c, Err ErrInvalidDiscoSession)
  | None =>
      let p := next c in
      let s := mkSession id keys [] 0 zero_wireLens peer [] zero_window in
      let c := mkConn (eventBuffer c) (stats c) (byPeer c) (<[id := p]> (sessions c)) (closed c) (byTag c)
                 (epoch c) (ticker c) (<[p := s]> (heap c)) (S p) in
      match addTagsLocked p now c with
      | (c, Some err) => (dropTagsLocked p (set_sessions (delete id (sessions c)) c), Err (ErrDisco err))
      | (c, None) => (set_byPeer (<[peer := appendDiscoPeer (bucket peer (byPeer c)) p]> (byPeer c)) c, Ok p)
      end
  end.

(** The checks in front of the locked section, on normalised arguments. *)
Definition add_checks (id : string) (keys : option DiscoKeys) (peer : AddrPort) : result conn_error (DiscoKeys * AddrPort) :=
  let peer := normaliseDiscoPeer peer in
  if bool_decide (id = EmptyString) then Err ErrInvalidDiscoSession else
  match keys with
  | None => Err ErrInvalidDiscoSession
  | Some keys => if negb (AddrPort_IsValid peer) then Err ErrInvalidDiscoSession else Ok (keys, peer)
  end.

Definition live (c : DiscoPacketConn) : bool := negb (closed c) && negb (bool_decide (sessions c = ∅)).

(** Starting, stopping, or leaving the ticker as it is. *)
Definition sync_act (live : bool) (c : DiscoPacketConn) : DiscoPacketConn :=
  if live && negb (ticker c) then set_ticker true c
  else if negb live && ticker c then set_ticker false c
  else c.

Definition syncEpochTicker (c : DiscoPacketConn) : DiscoPacketConn := sync_act (live c) c.

Definition AddDiscoSession (id : string) (keys : option DiscoKeys) (peer : AddrPort) (now : Z) (c : DiscoPacketConn)
    : DiscoPacketConn * result conn_error nat :=
  match add_checks id keys peer with
  | Err e => (c, Err e)
  | Ok (keys, peer) =>
      match add_locked id keys peer now c with
      | (c, Err e) => (c, Err e)
      | (c, Ok p) => (syncEpochTicker c, Ok p)
      end
  end.

Definition dropPeerLocked (p : nat) (c : DiscoPacketConn) : DiscoPacketConn :=
  match heap c !! p with
  | None => c
  | Some s => set_byPeer (bucket_drop (peer s) p (byPeer c)) c
  end.

(** The section of [SetDiscoSessionPeer] under [peerMu]. *)
Definition set_peer_locked (p : nat) (peer' : AddrPort) (c : DiscoPacketConn) : DiscoPacketConn :=
  match heap c !! p with
  | None => c
  | Some s =>
      if bool_decide (peer s = peer') then c else
      let c := update (set_peer peer') p (dropPeerLocked p c) in
      set_byPeer (<[peer' := appendDiscoPeer (bucket peer' (byPeer c)) p]> (byPeer c)) c
  end.

Definition SetDiscoSessionPeer (id : string) (peer : AddrPort) (c : DiscoPacketConn)
    : DiscoPacketConn * option conn_error :=
  let peer := normaliseDiscoPeer peer in
  if negb (AddrPort_IsValid peer) then (c, Some ErrInvalidDiscoSession) else
  match session id c with
  | None => (c, Some ErrUnknownDiscoSession)
  | Some p => (set_peer_locked p peer c, None)
  end.

(** The first section of [RemoveDiscoSession]. *)
Definition unregister (id : string) (c : DiscoPacketConn) : DiscoPacketConn * option nat :=
  match sessions c !! id with
  | None => (c, None)
  | Some p => (dropTagsLocked p (set_sessions (delete id (sessions c)) c), Some p)
  end.

Definition RemoveDiscoSession (id : string) (c : DiscoPacketConn) : DiscoPacketConn :=
  let '(c, p) := unregister id c in
  syncEpochTicker (match p with Some p => dropPeerLocked p c | None => c end).

Definition close_locked (c : DiscoPacketConn) : DiscoPacketConn :=
  mkConn (eventBuffer c) (stats c) ∅ ∅ true ∅ (epoch c) (ticker c) (heap c) (next c).

Definition Close (c : DiscoPacketConn) : DiscoPacketConn := syncEpochTicker (close_locked c).

(** ** Sending *)
Definition nextSeq (s : discoSession) : result conn_error (discoSession * Z) :=
  if discoSeqCeiling - 1 <=? seq s then Err ErrDiscoSeqExhausted
  else Ok (set_seq (u32 (seq s + 1)) s, u32 (seq s + 1)).

(** The sequence number, the datagram and where it is written to; [nonce] is
    random, and the socket's own error is the caller's.  The sequence number is
    spent even when the packet cannot be encoded. *)
Definition writeDisco (p : nat) (to : AddrPort) (pkt : DiscoPacket) (nonce : bytes) (now padTo : Z) (c : DiscoPacketConn)
    : DiscoPacketConn * result conn_error (Z * bytes * net_Addr) :=
  match heap c !! p with
  | None => (c, Err ErrUnknownDiscoSession)
  | Some s =>
      match nextSeq s with
      | Err e => (c, Err e)
      | Ok (s, n) =>
          let c := update (λ _, s) p c in
          match EncodeDisco pkt (Some (keys s)) nonce n now padTo with
          | Err e => (c, Err (ErrDisco e))
          | Ok wire => (c, Ok (n, wire, udpAddrFromAddrPort to))
          end
      end
  end.

(** [WriteDisco] pads to the mode, [WriteDiscoAt] to a length given. *)
Definition write_session (p : nat) (to : AddrPort) (pkt : DiscoPacket) (nonce : bytes) (now : Z) (padTo : option Z) (c : DiscoPacketConn)
    : DiscoPacketConn * result conn_error (Z * bytes * net_Addr) :=
  match padTo with
  | Some padTo => writeDisco p to pkt nonce now padTo c
  | None =>
      let padTo := default 0 (mode ∘ wireLens <$> heap c !! p) in
      if padTo =? 0 then (c, Err ErrDiscoNoWireLength) else writeDisco p to pkt nonce now padTo c
  end.

Definition WriteDisco (id : string) (to : AddrPort) (pkt : DiscoPacket) (nonce : bytes) (now : Z) (c : DiscoPacketConn)
    : DiscoPacketConn * result conn_error (Z * bytes * net_Addr) :=
  match session id c with
  | None => (c, Err ErrUnknownDiscoSession)
  | Some p => write_session p to pkt nonce now None c
  end.

Definition WriteDiscoAt (id : string) (to : AddrPort) (pkt : DiscoPacket) (nonce : bytes) (now padTo : Z) (c : DiscoPacketConn)
    : DiscoPacketConn * result conn_error (Z * bytes * net_Addr) :=
  match session id c with
  | None => (c, Err ErrUnknownDiscoSession)
  | Some p => write_session p to pkt nonce now (Some padTo) c
  end.

Definition PadToWireLen (id : string) (c : DiscoPacketConn) : Z :=
  default 0 (p ← session id c; mode ∘ wireLens <$> heap c !! p).

(** What [WriteTo] records of a datagram of [n] bytes that QUIC sends. *)
Definition WriteTo (n : Z) (addr : net_Addr) (now : Z) (c : DiscoPacketConn) : DiscoPacketConn :=
  match addrToAddrPort addr with
  | None => c
  | Some to =>
      foldl (λ c p, update (λ s, set_wireLens (observe n now (wireLens s)) s) p c) c (bucket to (byPeer c))
  end.

(** ** Receiving *)
Definition countDecodeFailure (e : disco_error) (s : DiscoStats) : DiscoStats :=
  match e with
  | DiscoSkewError skew =>
      let s := count_ClockSkew s in
      let secs := quot skew Second in
      let secs := if secs <? 0 then i64 (- secs) else secs in
      if secs <=? MaxSkewSeconds s then s
      else mkStats (Delivered s) (AuthFail s) (BadVersion s) (ClockSkew s) secs (Replay s) (Malformed s) (Dropped s)
  | ErrDiscoBadVersion => count_BadVersion s
  | _ => count_Malformed s
  end.

Definition emit (p : nat) (ev : DiscoPacketEvent) (c : DiscoPacketConn) : DiscoPacketConn :=
  match heap c !! p with
  | None => c
  | Some s =>
      if len (events s) <? eventBuffer c then update (set_events (events s ++ [ev])) p c
      else set_stats (count_Dropped (stats c)) c
  end.

(** The walk over a bucket: the state, whether the datagram was consumed, and
    the session with the sequence number it accepted. *)
Fixpoint walk (b : list nat) (packet : bytes) (from : AddrPort) (now : Z) (c : DiscoPacketConn)
    : outcome (DiscoPacketConn * bool * option (nat * Z)) :=
  match b with
  | [] => Ret (set_stats (count_AuthFail (stats c)) c, false, None)
  | p :: b =>
      match heap c !! p with
      | None => walk b packet from now c
      | Some s =>
          r ← decodeDiscoBody packet (keys s) now;
          match r with
          | Err ErrDiscoAuth => walk b packet from now c
          | Err e => Ret (set_stats (countDecodeFailure e (stats c)) c, true, None)
          | Ok pkt =>
              let n := Seq (Header pkt) in
              let '(w, ok) := accept n (window s) in
              let c := update (set_window w) p c in
              if negb ok then Ret (set_stats (count_Replay (stats c)) c, true, None)
              else Ret (emit p (mkEvent from now pkt) (set_stats (count_Delivered (stats c)) c), true, Some (p, n))
          end
      end
  end.

(** [dispatch] once it has read the bucket of the tag, with the lock released. *)
Definition dispatch_bucket (b : list nat) (packet : bytes) (addr : net_Addr) (now : Z) (c : DiscoPacketConn)
    : outcome (DiscoPacketConn * bool * option (nat * Z)) :=
  if (len packet <? discoMinWire) || (discoMaxWire <? len packet) then Ret (c, false, None) else
  match b with
  | [] => Ret (c, false, None)
  | _ => match addrToAddrPort addr with
         | None => Ret (c, false, None)
         | Some from => walk b packet from now c
         end
  end.

Definition tag_bucket (packet : bytes) (c : DiscoPacketConn) : list nat := bucket (array discoTagLen packet) (byTag c).

Definition dispatch (packet : bytes) (addr : net_Addr) (now : Z) (c : DiscoPacketConn)
    : outcome (DiscoPacketConn * bool * option (nat * Z)) :=
  dispatch_bucket (tag_bucket packet c) packet addr now c.
(** [ReadFrom] over what the socket yields: the first datagram that is not
    consumed, and those not yet read. *)
Fixpoint ReadFrom (input : list (bytes * net_Addr * Z)) (c : DiscoPacketConn)
    : outcome (DiscoPacketConn * option (bytes * net_Addr) * list (bytes * net_Addr * Z)) :=
  match input with
  | [] => Ret (c, None, [])
  | (packet, addr, now) :: input =>
      '(c, consumed, acc) ← dispatch packet addr now c;
      if (consumed : bool) then ReadFrom input c else Ret (c, Some (packet, addr), input)
  end.

(** ** Goroutines

    [owed] counts the calls that have changed the table and not yet reached
    [syncEpochTicker]; [syncing] is what the one that holds [tickerMu] has read;
    [dropping] holds the sessions that a removal has unregistered and not yet
    taken out of the peer index. *)
Record World := mkWorld {
  conn : DiscoPacketConn;
  owed : nat;
  syncing : option bool;
  dropping : list nat;
}.

(** The locked sections.  Those on a pointer come after a lookup by [session]
    at any earlier time; the bucket of [Dispatch] was read at any earlier time,
    as was the decision to rebuild of [Refresh]. *)
Inductive label : Type :=
| Add (id : string) (keys : option DiscoKeys) (peer : AddrPort) (now : Z)
| Unregister (id : string)
| DropPeer (p : nat)
| SetPeer (p : nat) (peer : AddrPort)
| Observe (n : Z) (addr : net_Addr) (now : Z)
| Send (p : nat) (to : AddrPort) (pkt : DiscoPacket) (nonce : bytes) (now : Z) (padTo : option Z)
| Dispatch (b : list nat) (packet : bytes) (addr : net_Addr) (now : Z)
| Take (p : nat)
| Refresh (now : Z)
| SyncRead
| SyncAct
| Shut.

Inductive event : Type :=
| EvAccepted (p : nat) (n : Z)               (* a sequence number delivered to a session *)
| EvSent (p : nat) (n : Z) (wire : bytes) (addr : net_Addr)
| EvPassed (packet : bytes).                 (* handed to QUIC *)

Definition on (c : DiscoPacketConn) (w : World) : World := mkWorld c (owed w) (syncing w) (dropping w).

(** A label that is not possible changes nothing. *)
Definition step (w : World) (l : label) : outcome (World * list event) :=
  match l with
  | Add id keys peer now =>
      match add_checks id keys peer with
      | Err _ => Ret (w, [])
      | Ok (keys, peer) =>
          match add_locked id keys peer now (conn w) with
          | (c, Err _) => Ret (on c w, [])
          | (c, Ok _) => Ret (mkWorld c (S (owed w)) (syncing w) (dropping w), [])
          end
      end
  | Unregister id =>
      match unregister id (conn w) with
      | (c, None) => Ret (mkWorld c (S (owed w)) (syncing w) (dropping w), [])
      | (c, Some p) => Ret (mkWorld c (S (owed w)) (syncing w) (p :: dropping w), [])
      end
  | DropPeer p =>
      if bool_decide (p ∈ dropping w)
      then Ret (mkWorld (dropPeerLocked p (conn w)) (owed w) (syncing w) (filter (λ q, q ≠ p) (dropping w)), [])
      else Ret (w, [])
  | SetPeer p peer => Ret (on (set_peer_locked p (normaliseDiscoPeer peer) (conn w)) w, [])
  | Observe n addr now => Ret (on (WriteTo n addr now (conn w)) w, [])
  | Send p to pkt nonce now padTo =>
      match write_session p to pkt nonce now padTo (conn w) with
      | (c, Err _) => Ret (on c w, [])
      | (c, Ok (n, wire, addr)) => Ret (on c w, [EvSent p n wire addr])
      end
  | Dispatch b packet addr now =>
      '(c, consumed, acc) ← dispatch_bucket b packet addr now (conn w);
      Ret (on c w, (if (consumed : bool) then [] else [EvPassed packet])
                   ++ match (acc : option (nat * Z)) with Some (p, n) => [EvAccepted p n] | None => [] end)
  | Take p => Ret (on (update (λ s, set_events (drop 1 (events s)) s) p (conn w)) w, [])
  | Refresh now => Ret (on (rebuildTagsLocked now (conn w)).1 w, [])
  | SyncRead =>
      match syncing w, owed w with
      | None, S n => Ret (mkWorld (conn w) n (Some (live (conn w))) (dropping w), [])
      | _, _ => Ret (w, [])
      end
  | SyncAct =>
      match syncing w with
      | Some b => Ret (mkWorld (sync_act b (conn w)) (owed w) None (dropping w), [])
      | None => Ret (w, [])
      end
  | Shut => Ret (mkWorld (close_locked (conn w)) (S (owed w)) (syncing w) (dropping w), [])
  end.

Fixpoint steps (w : World) (ls : list label) : outcome (World * list event) :=
  match ls with
  | [] => Ret (w, [])
  | l :: ls => '(w, es) ← step w l; '(w, es') ← steps w ls; Ret (w, es ++ es')
  end.

Definition start (c : DiscoPacketConn) : World := mkWorld c 0 None [].
End Conn.
