(* ===== verification/DiscoFacts.v ===== *)
(** * What holds of the disco sessions under any interleaving

    The tables of [DiscoConn] against the sessions registered, the ticker
    against the tables, replay windows and sequence numbers over a whole run,
    and the delivery of what the other end sent. *)
From S2P Require Import GoStd Prelude Netip Obfs Disco DiscoWindow DiscoConn.

(** ** Buckets *)
Section Buckets.
Context {K : Type} `{Countable K}.
Implicit Types (m : gmap K (list nat)) (k : K) (p q : nat).

Definition no_empty m : Prop := ∀ k, m !! k ≠ Some [].

Lemma elem_bucket_add k k' p q m : q ∈ bucket k' (bucket_add k p m) ↔ (k' = k ∧ q = p) ∨ q ∈ bucket k' m.
Proof.
  unfold bucket_add, bucket at 1, appendDiscoBucket. destruct (decide (k' = k)) as [->|Hne].
  - rewrite lookup_insert_eq. cbn. rewrite elem_of_app, list_elem_of_singleton. unfold bucket. tauto.
  - rewrite lookup_insert_ne by done. unfold bucket. naive_solver.
Qed.

Lemma elem_bucket_drop k k' p q m : q ∈ bucket k' (bucket_drop k p m) ↔ q ∈ bucket k' m ∧ ¬ (k' = k ∧ q = p).
Proof.
  unfold bucket_drop. assert (∀ x, x ∈ filter (λ q, q ≠ p) (bucket k m) ↔ x ≠ p ∧ x ∈ bucket k m) as Hf
    by (intros x; by rewrite list_elem_of_filter).
  destruct (decide (k' = k)) as [->|Hne].
  - destruct (filter _ _) as [|x l] eqn:E.
    + unfold bucket at 1. rewrite lookup_delete_eq. cbn. split; [by intros ?%elem_of_nil|].
      intros [Hin Hq]. apply (Hf q). split; [naive_solver|done].
    + unfold bucket at 1. rewrite lookup_insert_eq. cbn. rewrite (Hf q). naive_solver.
  - destruct (filter _ _); unfold bucket at 1; rewrite ?lookup_delete_ne, ?lookup_insert_ne by done; naive_solver.
Qed.

Lemma elem_add_all ts p q m k :
  q ∈ bucket k (foldl (λ m t, bucket_add t p m) m ts) ↔ (q = p ∧ k ∈ ts) ∨ q ∈ bucket k m.
Proof.
  revert m. induction ts as [|t ts IH]; intros m; cbn [foldl]; [rewrite elem_of_nil; tauto|].
  rewrite IH, elem_bucket_add, elem_of_cons. naive_solver.
Qed.

Lemma elem_drop_all ts p q m k :
  q ∈ bucket k (foldl (λ m t, bucket_drop t p m) m ts) ↔ q ∈ bucket k m ∧ ¬ (q = p ∧ k ∈ ts).
Proof.
  revert m. induction ts as [|t ts IH]; intros m; cbn [foldl]; [rewrite elem_of_nil; tauto|].
  rewrite IH, elem_bucket_drop, elem_of_cons. naive_solver.
Qed.

Lemma no_empty_add k p m : no_empty m → no_empty (bucket_add k p m).
Proof.
  intros Hm k'. unfold bucket_add, appendDiscoBucket. destruct (decide (k' = k)) as [->|].
  - rewrite lookup_insert_eq. by destruct (bucket k m).
  - by rewrite lookup_insert_ne.
Qed.

Lemma no_empty_drop k p m : no_empty m → no_empty (bucket_drop k p m).
Proof.
  intros Hm k'. unfold bucket_drop. destruct (filter _ _) eqn:E, (decide (k' = k)) as [->|];
    rewrite ?lookup_delete_eq, ?lookup_insert_eq, ?lookup_delete_ne, ?lookup_insert_ne by done; done.
Qed.

Lemma no_empty_add_all ts p m : no_empty m → no_empty (foldl (λ m t, bucket_add t p m) m ts).
Proof. revert m. induction ts; intros m Hm; cbn [foldl]; [done|]. by apply IHts, no_empty_add. Qed.

Lemma no_empty_drop_all ts p m : no_empty m → no_empty (foldl (λ m t, bucket_drop t p m) m ts).
Proof. revert m. induction ts; intros m Hm; cbn [foldl]; [done|]. by apply IHts, no_empty_drop. Qed.

Lemma bucket_empty k : bucket k (∅ : gmap K (list nat)) = [].
Proof. unfold bucket. by rewrite lookup_empty. Qed.

Lemma no_empty_empty : no_empty ∅.
Proof. intros k. by rewrite lookup_empty. Qed.
End Buckets.

Section Facts.
Context `{DC : DiscoCrypto} `{MR : !MapRange string nat}.

(** ** The invariant of the tables *)
Definition reg (c : DiscoPacketConn) (i : string) (p : nat) (s : discoSession) : Prop :=
  sessions c !! i = Some p ∧ heap c !! p = Some s.

Definition tags_at (k : DiscoKeys) (now : Z) : list bytes :=
  match RecvTags k now with Ok ts => ts | Err _ => [] end.

(** Every registered session is in the heap under its identifier. *)
Record heap_ok (c : DiscoPacketConn) : Prop := {
  heap_reg i p : sessions c !! i = Some p → ∃ s, heap c !! p = Some s ∧ id s = i;
  heap_next p : is_Some (heap c !! p) → (p < next c)%nat;
  heap_closed : closed c = true → sessions c = ∅;
}.

(** The tag table lists exactly the registered sessions under their tags, and
    these are the tags of the table's epoch. *)
Record tags_ok (c : DiscoPacketConn) : Prop := {
  tags_table t p : p ∈ bucket t (byTag c) ↔ ∃ i s, reg c i p s ∧ t ∈ tags s;
  tags_epoch : ∃ now, discoEpochOf now = epoch c ∧ ∀ i p s, reg c i p s → tags s = tags_at (keys s) now;
  tags_buckets : no_empty (byTag c);
}.

(** The peer index has every registered session under its peer, and no session
    under another address. *)
Record peers_ok (c : DiscoPacketConn) : Prop := {
  peers_reg i p s : reg c i p s → p ∈ bucket (peer s) (byPeer c);
  peers_own a p : p ∈ bucket a (byPeer c) → ∃ s, heap c !! p = Some s ∧ peer s = a;
  peers_buckets : no_empty (byPeer c);
}.

Lemma RecvTags_epoch k a b : discoEpochOf a = discoEpochOf b → RecvTags k a = RecvTags k b.
Proof. intros E. unfold RecvTags. by rewrite E. Qed.

Lemma reg_inj c i j p s s' : heap_ok c → reg c i p s → reg c j p s' → i = j ∧ s = s'.
Proof.
  intros [Hh _ _] [Hi Hs] [Hj Hs']. destruct (Hh _ _ Hi) as (a & Ha & <-). destruct (Hh _ _ Hj) as (b & Hb & <-).
  by simplify_eq.
Qed.

(** *** Rebuilding *)
Lemma rebuild_fold now l : ∀ m h e,
  let '(m', h', _) := foldl (rebuild_one now) (m, h, e) l in
  (∀ p, h' !! p = if decide (p ∈ l.*2) then (λ s, set_tags (tags_at (keys s) now) s) <$> h !! p else h !! p)
  ∧ (∀ t q, q ∈ bucket t m' ↔ q ∈ bucket t m ∨ q ∈ l.*2 ∧ ∃ s, h !! q = Some s ∧ t ∈ tags_at (keys s) now)
  ∧ (no_empty m → no_empty m').
Proof.
  induction l as [|[i p] l IH]; intros m h e; cbn [foldl].
  { split_and!; [done| |done]. intros t q. cbn. rewrite elem_of_nil. tauto. }
  assert (rebuild_one now (m, h, e) (i, p) = match h !! p with
    | None => (m, h, e)
    | Some s => (foldl (λ m t, bucket_add t p m) m (tags_at (keys s) now), <[p := set_tags (tags_at (keys s) now) s]> h,
                 match RecvTags (keys s) now with Err err => match e with None => Some err | Some _ => e end | Ok _ => e end)
    end) as ->.
  { unfold rebuild_one, tags_at. destruct (h !! p) as [s|]; [|done]. by destruct (RecvTags (keys s) now). }
  destruct (h !! p) as [s|] eqn:Ep.
  - specialize (IH (foldl (λ m t, bucket_add t p m) m (tags_at (keys s) now)) (<[p := set_tags (tags_at (keys s) now) s]> h)
      (match RecvTags (keys s) now with Err err => match e with None => Some err | Some _ => e end | Ok _ => e end)).
    destruct (foldl _ _ l) as [[m' h'] e']. destruct IH as (Hh & Hm & Hne). cbn [fmap list_fmap snd]. split_and!.
    + intros q. rewrite Hh. destruct (decide (q = p)) as [->|Hq].
      * rewrite lookup_insert_eq, Ep. rewrite (decide_True (P := p ∈ p :: _)) by (by left). by case_decide.
      * rewrite lookup_insert_ne by done. apply decide_ext. rewrite elem_of_cons. tauto.
    + intros t q. rewrite Hm, elem_add_all, elem_of_cons. destruct (decide (q = p)) as [->|Hq].
      * rewrite lookup_insert_eq, Ep. naive_solver.
      * rewrite lookup_insert_ne by done. naive_solver.
    + intros Hme. by apply Hne, no_empty_add_all.
  - specialize (IH m h e). destruct (foldl _ _ l) as [[m' h'] e']. destruct IH as (Hh & Hm & Hne).
    cbn [fmap list_fmap snd]. split_and!; [| |done].
    + intros q. rewrite Hh. destruct (decide (q = p)) as [->|Hq].
      * rewrite Ep. by repeat case_decide.
      * apply decide_ext. rewrite elem_of_cons. tauto.
    + intros t q. rewrite Hm, elem_of_cons. naive_solver.
Qed.

Lemma elem_of_range_2 (m : gmap string nat) p : p ∈ (map_range m).*2 ↔ ∃ i, m !! i = Some p.
Proof.
  rewrite list_elem_of_fmap. split.
  - intros ([i q] & -> & Hin%elem_of_map_range). by exists i.
  - intros [i Hi]. exists (i, p). by rewrite elem_of_map_range.
Qed.

(** What rebuilding leaves: the same sessions with the tags of the new epoch. *)
Definition with_tags (now : Z) (c : DiscoPacketConn) (p : nat) : option discoSession :=
  if decide (p ∈ (map_range (sessions c)).*2)
  then (λ s, set_tags (tags_at (keys s) now) s) <$> heap c !! p else heap c !! p.

Lemma rebuild_spec now c : ∃ m h e, rebuildTagsLocked now c = (set_epoch (discoEpochOf now) (set_byTag m (set_heap h c)), e)
  ∧ (∀ p, h !! p = with_tags now c p)
  ∧ (∀ t q, q ∈ bucket t m ↔ ∃ i s, reg c i q s ∧ t ∈ tags_at (keys s) now)
  ∧ no_empty m.
Proof.
  unfold rebuildTagsLocked. pose proof (rebuild_fold now (map_range (sessions c)) ∅ (heap c) None) as H.
  destruct (foldl _ _ _) as [[m h] e]. destruct H as (Hh & Hm & Hne). exists m, h, e.
  split_and!; [done|exact Hh| |apply Hne, no_empty_empty].
  intros t q. rewrite Hm, bucket_empty, elem_of_nil, elem_of_range_2. unfold reg. naive_solver.
Qed.

(** *** Frames: changes that the invariant does not see *)
Definition core (s : discoSession) := (id s, keys s, peer s).
Definition view (s : discoSession) := (core s, tags s).

Definition agree {X} (f : discoSession → X) (c c' : DiscoPacketConn) : Prop :=
  ∀ p, f <$> heap c' !! p = f <$> heap c !! p.

Lemma agree_view_core c c' : agree view c c' → agree core c c'.
Proof.
  intros Ha p. specialize (Ha p). destruct (heap c' !! p), (heap c !! p); cbn in *; try done. unfold view in Ha. congruence.
Qed.

Lemma agree_fwd {X} (f : discoSession → X) c c' p s :
  agree f c c' → heap c !! p = Some s → ∃ s', heap c' !! p = Some s' ∧ f s' = f s.
Proof. intros Ha Hs. specialize (Ha p). rewrite Hs in Ha. destruct (heap c' !! p); cbn in Ha; [|done]. simplify_eq. eauto. Qed.

Lemma agree_bwd {X} (f : discoSession → X) c c' p s' :
  agree f c c' → heap c' !! p = Some s' → ∃ s, heap c !! p = Some s ∧ f s' = f s.
Proof. intros Ha Hs. specialize (Ha p). rewrite Hs in Ha. destruct (heap c !! p); cbn in Ha; [|done]. simplify_eq. eauto. Qed.

Lemma heap_ok_frame c c' :
  sessions c' = sessions c → closed c' = closed c → next c' = next c → agree core c c' → heap_ok c → heap_ok c'.
Proof.
  intros Es Ec En Ha [H1 H2 H3]. split; rewrite ?Es, ?Ec, ?En.
  - intros i p Hi. destruct (H1 i p Hi) as (s & Hs & Hid). destruct (agree_fwd _ _ _ _ _ Ha Hs) as (s' & Hs' & E).
    exists s'. split; [done|]. unfold core in E. simplify_eq. congruence.
  - intros p [s' Hs']. destruct (agree_bwd _ _ _ _ _ Ha Hs') as (s & Hs & _). by apply H2.
  - exact H3.
Qed.

Lemma peers_ok_frame c c' :
  sessions c' = sessions c → byPeer c' = byPeer c → agree core c c' → peers_ok c → peers_ok c'.
Proof.
  intros Es Eb Ha [H1 H2 H3]. split; rewrite ?Eb; [| |done].
  - intros i p s' [Hi Hs']. rewrite Es in Hi. destruct (agree_bwd _ _ _ _ _ Ha Hs') as (s & Hs & E).
    unfold core in E. simplify_eq. replace (peer s') with (peer s) by congruence. by apply (H1 i).
  - intros a p Hp. destruct (H2 a p Hp) as (s & Hs & <-). destruct (agree_fwd _ _ _ _ _ Ha Hs) as (s' & Hs' & E).
    exists s'. split; [done|]. unfold core in E. congruence.
Qed.

Lemma tags_ok_frame c c' :
  sessions c' = sessions c → byTag c' = byTag c → epoch c' = epoch c → agree view c c' → tags_ok c → tags_ok c'.
Proof.
  intros Es Eb Ee Ha [H1 (now & Hn & H2) H3]. split; rewrite ?Eb; [| |done].
  - intros t p. rewrite H1. unfold reg. rewrite Es. split.
    + intros (i & s & [Hi Hs] & Ht). destruct (agree_fwd _ _ _ _ _ Ha Hs) as (s' & Hs' & E).
      exists i, s'. split; [done|]. unfold view in E. by replace (tags s') with (tags s) by congruence.
    + intros (i & s' & [Hi Hs'] & Ht). destruct (agree_bwd _ _ _ _ _ Ha Hs') as (s & Hs & E).
      exists i, s. split; [done|]. unfold view in E. by replace (tags s) with (tags s') by congruence.
  - exists now. rewrite Ee. split; [done|]. intros i p s' [Hi Hs']. rewrite Es in Hi.
    destruct (agree_bwd _ _ _ _ _ Ha Hs') as (s & Hs & E). unfold view, core in E.
    replace (tags s') with (tags s) by congruence. replace (keys s') with (keys s) by congruence. by apply (H2 i p).
Qed.

Definition tables_ok (c : DiscoPacketConn) : Prop := heap_ok c ∧ tags_ok c ∧ peers_ok c.

Lemma tables_ok_frame c c' :
  sessions c' = sessions c → closed c' = closed c → next c' = next c → byPeer c' = byPeer c → byTag c' = byTag c →
  epoch c' = epoch c → agree view c c' → tables_ok c → tables_ok c'.
Proof.
  intros ? ? ? ? ? ? Ha (? & ? & ?). pose proof (agree_view_core _ _ Ha).
  split_and!; eauto using heap_ok_frame, tags_ok_frame, peers_ok_frame.
Qed.

(** Changing one session where [f] does not look. *)
Lemma agree_update {X} (f : discoSession → X) g p c : (∀ s, f (g s) = f s) → agree f c (update g p c).
Proof.
  intros Hf q. unfold update. destruct c; cbn. rewrite lookup_alter. case_decide; subst; [|done].
  destruct (_ !! _); cbn; [by rewrite Hf|done].
Qed.

Lemma agree_refl {X} (f : discoSession → X) c : agree f c c.
Proof. by intros p. Qed.

Lemma agree_trans {X} (f : discoSession → X) a b c : agree f a b → agree f b c → agree f a c.
Proof. intros H1 H2 p. by rewrite H2, H1. Qed.

(** *** Operations *)
Lemma rebuild_agree {X} (f : discoSession → X) now c :
  (∀ ts s, f (set_tags ts s) = f s) → agree f c (rebuildTagsLocked now c).1.
Proof.
  intros Hf. destruct (rebuild_spec now c) as (m & h & e & -> & Hh & _). intros p. cbn. rewrite Hh. unfold with_tags.
  case_decide; [|done]. destruct (heap c !! p); cbn; [by rewrite Hf|done].
Qed.

Lemma rebuild_fields now c : let c' := (rebuildTagsLocked now c).1 in
  sessions c' = sessions c ∧ closed c' = closed c ∧ next c' = next c ∧ byPeer c' = byPeer c ∧ ticker c' = ticker c.
Proof. destruct (rebuild_spec now c) as (m & h & e & -> & _). by destruct c. Qed.

Lemma rebuild_tags now c : heap_ok c → tags_ok (rebuildTagsLocked now c).1.
Proof.
  intros Hok. destruct (rebuild_spec now c) as (m & h & e & -> & Hh & Hm & Hne). cbn [fst].
  assert (∀ i p s', reg (set_epoch (discoEpochOf now) (set_byTag m (set_heap h c))) i p s' ↔
    ∃ s, reg c i p s ∧ s' = set_tags (tags_at (keys s) now) s) as Hreg.
  { intros i p s'. unfold reg. cbn. rewrite Hh. unfold with_tags. split.
    - intros [Hi Hs]. rewrite decide_True in Hs by (apply elem_of_range_2; eauto).
      apply fmap_Some in Hs as (s & Hs & ->). eauto.
    - intros (s & [Hi Hs] & ->). split; [done|]. rewrite decide_True by (apply elem_of_range_2; eauto). by rewrite Hs. }
  split; cbn; [| |done].
  - intros t p. rewrite Hm. split.
    + intros (i & s & Hr & Ht). exists i, (set_tags (tags_at (keys s) now) s). split; [apply Hreg; eauto|done].
    + intros (i & s' & Hr & Ht). apply Hreg in Hr as (s & Hr & ->). eauto.
  - exists now. split; [done|]. intros i p s' (s & Hr & ->)%Hreg. done.
Qed.

Lemma rebuild_ok now c : heap_ok c → peers_ok c → tables_ok (rebuildTagsLocked now c).1.
Proof.
  intros Hh Hp. destruct (rebuild_fields now c) as (E1 & E2 & E3 & E4 & _). split_and!.
  - eapply heap_ok_frame; [done..|by apply rebuild_agree|done].
  - by apply rebuild_tags.
  - eapply peers_ok_frame; [done..|by apply rebuild_agree|done].
Qed.

(** Taking a session out of the tables. *)
Definition forget (i : string) (p : nat) (c : DiscoPacketConn) : DiscoPacketConn :=
  dropTagsLocked p (set_sessions (delete i (sessions c)) c).

Lemma forget_spec i p c s : heap c !! p = Some s →
  forget i p c = update (set_tags []) p
    (set_byTag (foldl (λ m t, bucket_drop t p m) (byTag c) (tags s)) (set_sessions (delete i (sessions c)) c)).
Proof. intros Hs. unfold forget, dropTagsLocked. cbn. by rewrite Hs. Qed.

Lemma forget_fields i p c : let c' := forget i p c in
  sessions c' = delete i (sessions c) ∧ closed c' = closed c ∧ next c' = next c ∧ byPeer c' = byPeer c
  ∧ ticker c' = ticker c ∧ epoch c' = epoch c.
Proof. unfold forget, dropTagsLocked. destruct c; cbn. by case_match. Qed.

Lemma forget_agree {X} (f : discoSession → X) i p c : (∀ ts s, f (set_tags ts s) = f s) → agree f c (forget i p c).
Proof.
  intros Hf. unfold forget, dropTagsLocked. cbn. destruct (heap c !! p); [|by intros q].
  eapply agree_trans; [|apply agree_update; apply Hf]. by intros q.
Qed.

Lemma forget_heap i p c q : q ≠ p → heap (forget i p c) !! q = heap c !! q.
Proof.
  intros Hq. unfold forget, dropTagsLocked. cbn. destruct (heap c !! p); [|done]. cbn. by rewrite lookup_alter_ne.
Qed.

Lemma forget_reg i p c j q s' : heap_ok c → sessions c !! i = Some p →
  reg (forget i p c) j q s' ↔ reg c j q s' ∧ q ≠ p.
Proof.
  intros Hok Hi. destruct (heap_reg _ Hok _ _ Hi) as (s & Hs & Hid).
  destruct (forget_fields i p c) as (Es & _). unfold reg. rewrite Es. split.
  - intros [[Hne Hj]%lookup_delete_Some Hq]. assert (q ≠ p) as Hqp.
    { intros ->. destruct (heap_reg _ Hok _ _ Hj) as (s2 & Hs2 & Hid2). by simplify_eq. }
    by rewrite forget_heap in Hq.
  - intros [[Hj Hq] Hne]. rewrite forget_heap by done. split; [|done]. apply lookup_delete_Some. split; [|done].
    intros ->. congruence.
Qed.

(** The peer index, but for a session on its way in or out. *)
Record peers_most (p : nat) (c : DiscoPacketConn) : Prop := {
  most_reg i q s : reg c i q s → q ≠ p → q ∈ bucket (peer s) (byPeer c);
  most_own a q : q ∈ bucket a (byPeer c) → ∃ s, heap c !! q = Some s ∧ peer s = a;
  most_buckets : no_empty (byPeer c);
}.

Lemma peers_ok_most p c : peers_ok c → peers_most p c.
Proof. intros [H1 H2 H3]. split; eauto. Qed.

Lemma forget_ok i p c : heap_ok c → tags_ok c → peers_most p c → sessions c !! i = Some p →
  tables_ok (forget i p c) ∧ ∀ j, sessions (forget i p c) !! j ≠ Some p.
Proof.
  intros Hh Ht Hp Hi. destruct (forget_fields i p c) as (Es & Ec & En & Eb & _ & Ee).
  pose proof (forget_agree core i p c ltac:(done)) as Ha.
  destruct (heap_reg _ Hh _ _ Hi) as (s & Hs & Hid).
  assert (heap_ok (forget i p c)) as Hh'.
  { split; rewrite ?Es, ?Ec, ?En.
    - intros j q [_ Hj]%lookup_delete_Some. destruct (heap_reg _ Hh _ _ Hj) as (s0 & Hs0 & Hid0).
      destruct (agree_fwd _ _ _ _ _ Ha Hs0) as (s' & Hs' & E). exists s'. split; [done|]. unfold core in E. congruence.
    - intros q [s' Hs']. destruct (agree_bwd _ _ _ _ _ Ha Hs') as (s0 & Hs0 & _). apply (heap_next _ Hh). eauto.
    - intros Hc. by rewrite (heap_closed _ Hh Hc), delete_empty. }
  split; [|intros j Hj; rewrite Es in Hj; apply lookup_delete_Some in Hj as [Hne Hj];
           destruct (heap_reg _ Hh _ _ Hj) as (s2 & Hs2 & Hid2); by simplify_eq].
  split_and!; [done| |].
  - destruct Ht as [H1 (now & Hn & H2) H3]. split.
    + intros t q. setoid_rewrite (λ j q s', forget_reg i p c j q s' Hh Hi).
      rewrite (forget_spec i p c s Hs). cbn. rewrite elem_drop_all, H1. split.
      * intros [(j & s' & Hr & Hts) Hn']. exists j, s'. split; [|done]. split; [done|]. intros ->.
        destruct (reg_inj _ _ _ _ _ _ Hh Hr (conj Hi Hs)) as [_ ->]. naive_solver.
      * intros (j & s' & [Hr Hne] & Hts). split; [eauto|naive_solver].
    + exists now. rewrite Ee. split; [done|]. intros j q s' Hr. apply forget_reg in Hr as [Hr _]; eauto.
    + rewrite (forget_spec i p c s Hs). cbn. by apply no_empty_drop_all.
  - destruct Hp as [H1 H2 H3]. split; rewrite ?Eb; [| |done].
    + intros j q s' Hr. apply forget_reg in Hr as [Hr Hne]; [|done..]. by apply (H1 j).
    + intros a q Hq. destruct (H2 a q Hq) as (s0 & Hs0 & <-). destruct (agree_fwd _ _ _ _ _ Ha Hs0) as (s' & Hs' & E).
      exists s'. split; [done|]. unfold core in E. congruence.
Qed.

(** Taking an unregistered session out of the peer index. *)
Lemma dropPeer_fields p c : let c' := dropPeerLocked p c in
  sessions c' = sessions c ∧ closed c' = closed c ∧ next c' = next c ∧ byTag c' = byTag c
  ∧ ticker c' = ticker c ∧ epoch c' = epoch c ∧ heap c' = heap c.
Proof. unfold dropPeerLocked. destruct c; cbn. by case_match. Qed.

Lemma agree_heap {X} (f : discoSession → X) c c' : heap c' = heap c → agree f c c'.
Proof. intros E p. by rewrite E. Qed.

Lemma dropPeer_ok p c : tables_ok c → (∀ j, sessions c !! j ≠ Some p) → tables_ok (dropPeerLocked p c).
Proof.
  intros (Hh & Ht & Hp) Hu. destruct (dropPeer_fields p c) as (Es & Ec & En & Eb & _ & Ee & Eh).
  split_and!; [eapply heap_ok_frame; eauto using agree_heap|eapply tags_ok_frame; eauto using agree_heap|].
  unfold dropPeerLocked in *. destruct (heap c !! p) as [s|] eqn:Hs; [|done].
  destruct Hp as [H1 H2 H3]. split; cbn.
  - intros j q s' [Hj Hq]. cbn in *. apply elem_bucket_drop. split; [by apply (H1 j)|]. intros [_ ->]. by apply (Hu j).
  - intros a q [Hq _]%elem_bucket_drop. by apply H2.
  - by apply no_empty_drop.
Qed.

(** Following a peer. *)
Lemma set_peer_ok p a c : tables_ok c → tables_ok (set_peer_locked p a c).
Proof.
  intros (Hh & Ht & Hp). unfold set_peer_locked. destruct (heap c !! p) as [s|] eqn:Hs; [|by split_and!].
  case_bool_decide as Hne; [by split_and!|]. unfold dropPeerLocked. rewrite Hs.
  set (c' := set_byPeer _ _).
  assert (∀ q, heap c' !! q = if decide (q = p) then Some (set_peer a s) else heap c !! q) as Hheap.
  { intros q. unfold c'. cbn. rewrite lookup_alter. case_decide; repeat case_decide; subst; try done. by rewrite Hs. }
  destruct Hh as [A1 A2 A3], Ht as [B1 (now & Hn & B2) B3], Hp as [C1 C2 C3].
  assert (∀ j q s', reg c' j q s' ↔ ∃ s0, reg c j q s0 ∧ s' = if decide (q = p) then set_peer a s0 else s0) as Hreg.
  { intros j q s'. unfold reg. rewrite Hheap. unfold c'. cbn. case_decide; subst; naive_solver. }
  split_and!.
  - split; unfold c' at 1; cbn.
    + intros j q Hj. destruct (A1 _ _ Hj) as (s0 & Hs0 & <-). rewrite Hheap. case_decide; subst; simplify_eq; eauto.
    + intros q. rewrite Hheap. case_decide; subst; [|apply A2]. intros _. apply A2. eauto.
    + exact A3.
  - split; unfold c' at 1; cbn; [| |done].
    + intros t q. rewrite B1. setoid_rewrite Hreg. split.
      * intros (j & s0 & Hr & Hts). exists j, (if decide (q = p) then set_peer a s0 else s0).
        split; [eauto|]. by case_decide.
      * intros (j & s' & (s0 & Hr & ->) & Hts). exists j, s0. split; [done|]. by case_decide.
    + exists now. split; [done|]. intros j q s' (s0 & Hr & ->)%Hreg. specialize (B2 _ _ _ Hr). by case_decide.
  - assert (byPeer c' = bucket_add a p (bucket_drop (peer s) p (byPeer c))) as Eb by done.
    split; rewrite ?Eb.
    + intros j q s' (s0 & Hr & ->)%Hreg. rewrite elem_bucket_add, elem_bucket_drop.
      case_decide as Hq; [subst q; cbn; by left|]. right. split; [by apply (C1 j)|naive_solver].
    + intros b q. rewrite elem_bucket_add, elem_bucket_drop, Hheap. intros [[-> ->]|[Hq Hne']].
      * rewrite decide_True by done. by eexists.
      * destruct (C2 _ _ Hq) as (s0 & Hs0 & <-). case_decide as Hqp; [|eauto]. subst. simplify_eq. naive_solver.
    + by apply no_empty_add, no_empty_drop.
Qed.

Lemma close_ok c : tables_ok c → tables_ok (close_locked c).
Proof.
  intros ([A1 A2 A3] & [B1 (now & Hn & B2) B3] & [C1 C2 C3]).
  split_and!; split; cbn; try done.
  - intros t p. rewrite bucket_empty, elem_of_nil. split; [done|]. by intros (i & s & [Hi _] & _).
  - exists now. split; [done|]. by intros i p s [Hi _].
  - by intros i p s [Hi _].
  - intros a p. by rewrite bucket_empty, elem_of_nil.
Qed.

(** A new session. *)
Definition with_new (i : string) (s : discoSession) (c : DiscoPacketConn) : DiscoPacketConn :=
  mkConn (eventBuffer c) (stats c) (byPeer c) (<[i := next c]> (sessions c)) (closed c) (byTag c)
    (epoch c) (ticker c) (<[next c := s]> (heap c)) (S (next c)).

Section New.
Context (c : DiscoPacketConn) (i : string) (s : discoSession).
Context (Hok : tables_ok c) (Hopen : closed c = false) (Hnew : sessions c !! i = None) (Hid : id s = i) (Hts : tags s = []).

Lemma next_fresh : heap c !! next c = None.
Proof.
  destruct Hok as (Hh & _). destruct (heap c !! next c) eqn:E; [|done].
  pose proof (heap_next _ Hh (next c) ltac:(eauto)). lia.
Qed.

Lemma new_reg j q s' : reg (with_new i s c) j q s' ↔ j = i ∧ q = next c ∧ s' = s ∨ reg c j q s'.
Proof.
  destruct Hok as (Hh & _). pose proof next_fresh as Hf. unfold reg. cbn. split.
  - intros [[[<- <-]|[Hne Hj]]%lookup_insert_Some Hq].
    + rewrite lookup_insert_eq in Hq. left. by simplify_eq.
    + right. split; [done|]. destruct (heap_reg _ Hh _ _ Hj) as (s0 & Hs0 & _).
      by rewrite lookup_insert_ne in Hq by congruence.
  - intros [(-> & -> & ->)|[Hj Hq]]; [by rewrite !lookup_insert_eq|].
    rewrite !lookup_insert_ne by congruence. done.
Qed.

Lemma new_heap : heap_ok (with_new i s c).
Proof.
  pose proof next_fresh as Hf. destruct Hok as ([A1 A2 A3] & _). split; cbn.
  - intros j q Hj. apply lookup_insert_Some in Hj as [[<- <-]|[_ Hj]].
    + rewrite lookup_insert_eq. eauto.
    + destruct (A1 _ _ Hj) as (s0 & Hs0 & ?). rewrite lookup_insert_ne by congruence. eauto.
  - intros q [s' Hs']. apply lookup_insert_Some in Hs' as [[<- _]|[_ Hs']]; [lia|]. pose proof (A2 q ltac:(eauto)). lia.
  - congruence.
Qed.

Lemma new_most : peers_most (next c) (with_new i s c).
Proof.
  pose proof next_fresh as Hf. destruct Hok as (_ & _ & [C1 C2 C3]). split; cbn; [| |done].
  - intros j q s' [(_ & -> & _)|Hr]%new_reg; [done|]. intros _. by apply (C1 j).
  - intros a q Hq. destruct (C2 _ _ Hq) as (s0 & Hs0 & ?). exists s0. by rewrite lookup_insert_ne by congruence.
Qed.

Lemma addTags_fields now : let c' := (addTagsLocked (next c) now (with_new i s c)).1 in
  sessions c' = <[i := next c]> (sessions c) ∧ closed c' = closed c ∧ next c' = S (next c) ∧ byPeer c' = byPeer c
  ∧ ticker c' = ticker c.
Proof.
  unfold addTagsLocked. destruct (negb _).
  - by destruct (rebuild_fields now (with_new i s c)) as (-> & -> & -> & -> & ->).
  - destruct (heap (with_new i s c) !! next c) as [s'|]; [|done]. by destruct (RecvTags _ _).
Qed.

Lemma addTags_agree {X} (f : discoSession → X) now : (∀ ts s, f (set_tags ts s) = f s) →
  agree f (with_new i s c) (addTagsLocked (next c) now (with_new i s c)).1.
Proof.
  intros Hf. unfold addTagsLocked. destruct (negb _); [by apply rebuild_agree|].
  destruct (heap (with_new i s c) !! next c) as [s'|]; [|apply agree_refl].
  destruct (RecvTags _ _); [apply agree_refl|]. cbn [fst].
  eapply agree_trans; [|apply agree_update; apply Hf]. by intros q.
Qed.

Lemma addTags_tags now : tags_ok (addTagsLocked (next c) now (with_new i s c)).1.
Proof.
  unfold addTagsLocked. destruct (discoEpochOf now =? epoch (with_new i s c)) eqn:Ee; cbn [negb];
    [|apply rebuild_tags, new_heap]. apply Z.eqb_eq in Ee. cbn [epoch with_new] in Ee.
  replace (heap (with_new i s c) !! next c) with (Some s) by (cbn; by rewrite lookup_insert_eq).
  pose proof next_fresh as Hf. destruct Hok as (Hh & [B1 (now0 & Hn & B2) B3] & _).
  assert (∀ t, next c ∉ bucket t (byTag c)) as Hnot.
  { intros t (j & s0 & [_ Hs0] & _)%B1. congruence. }
  assert (RecvTags (keys s) now0 = RecvTags (keys s) now) as Er by (apply RecvTags_epoch; congruence).
  destruct (RecvTags (keys s) now) as [err|ts] eqn:Et; cbn [fst].
  - split; cbn; [| |done].
    + intros t q. rewrite B1. split.
      * intros (j & s' & Hr & Ht). exists j, s'. split; [|done]. apply new_reg. by right.
      * intros (j & s' & [(-> & -> & ->)|Hr]%new_reg & Ht); [rewrite Hts in Ht; by apply elem_of_nil in Ht|eauto].
    + exists now0. split; [done|]. intros j q s' [(-> & -> & ->)|Hr]%new_reg; [|by eapply B2].
      unfold tags_at. by rewrite Hts, Er.
  - set (c' := update _ _ _).
    assert (∀ j q s', reg c' j q s' ↔ j = i ∧ q = next c ∧ s' = set_tags ts s ∨ reg c j q s') as Hreg.
    { intros j q s'. pose proof (new_reg j q) as Hnr. unfold c', reg, update in *. cbn in *.
      destruct (decide (q = next c)) as [->|Hq].
      - rewrite lookup_alter_eq, lookup_insert_eq, Hf. cbn. specialize (Hnr s). rewrite lookup_insert_eq, Hf in Hnr.
        naive_solver.
      - rewrite lookup_alter_ne, (lookup_insert_ne (heap c)) by done. specialize (Hnr s'). rewrite (lookup_insert_ne (heap c)) in Hnr by done.
        naive_solver. }
    split.
    + intros t q. setoid_rewrite Hreg. unfold c'. cbn. rewrite elem_add_all, B1. split.
      * intros [[-> Ht]|(j & s' & Hr & Ht)]; [|by eauto 6]. exists i, (set_tags ts s). by split; [left|].
      * intros (j & s' & [(-> & -> & ->)|Hr] & Ht); [by left|right; eauto].
    + exists now0. split; [done|]. intros j q s' [(-> & -> & ->)|Hr]%Hreg; [|by eapply B2].
      unfold tags_at. cbn. by rewrite Er.
    + unfold c'. cbn. by apply no_empty_add_all.
Qed.
End New.

(** What admission leaves, admitted or refused; [part] is what the runs below
    follow of a session. *)
Definition part (s : discoSession) := (seq s, window s).
Definition new_session (i : string) (k : DiscoKeys) (a : AddrPort) : discoSession :=
  mkSession i k [] 0 zero_wireLens a [] zero_window.

Lemma add_locked_spec i k a now c : tables_ok c →
  let c' := (add_locked i k a now c).1 in
  tables_ok c' ∧ ticker c' = ticker c ∧ closed c' = closed c
  ∧ (agree part c c' ∧ next c' = next c
     ∨ agree part (with_new i (new_session i k a) c) c' ∧ next c' = S (next c))
  ∧ match (add_locked i k a now c).2 with
    | Ok p => p = next c ∧ closed c = false ∧ sessions c' = <[i := next c]> (sessions c)
    | Err _ => sessions c' = sessions c
    end.
Proof.
  intros Hok. unfold add_locked. cbv zeta.
  set (s := mkSession i k [] 0 zero_wireLens a [] zero_window).
  change (mkConn _ _ _ _ _ _ _ _ _ _) with (with_new i s c).
  destruct (closed c) eqn:Hc; [cbn [fst snd]; split_and!; eauto using agree_refl|].
  destruct (sessions c !! i) eqn:Hi; [cbn [fst snd]; split_and!; eauto using agree_refl|].
  pose proof (addTags_fields c i s now) as (Es & Ec & En & Eb & Et).
  pose proof (addTags_agree c i s core now ltac:(done)) as Ha.
  pose proof (addTags_agree c i s part now ltac:(done)) as Hp.
  pose proof (addTags_tags c i s Hok Hc Hi eq_refl eq_refl now) as Htags.
  pose proof (new_heap c i s Hok Hc eq_refl) as Hh. pose proof (new_most c i s Hok Hi eq_refl eq_refl) as Hm.
  destruct (addTagsLocked (next c) now (with_new i s c)) as [c2 r]. cbn [fst] in *.
  assert (heap_ok c2) as Hh2 by (eapply heap_ok_frame; [..|exact Ha|exact Hh]; done).
  assert (peers_most (next c) c2) as Hm2.
  { destruct Hm as [C1 C2 C3]. split; rewrite ?Eb; [| |done].
    - intros j q s' [Hj Hq] Hne. rewrite Es in Hj. destruct (agree_bwd _ _ _ _ _ Ha Hq) as (s0 & Hs0 & E).
      unfold core in E. replace (peer s') with (peer s0) by congruence. by apply (C1 j).
    - intros b q Hq. destruct (C2 _ _ Hq) as (s0 & Hs0 & <-). destruct (agree_fwd _ _ _ _ _ Ha Hs0) as (s' & Hs' & E).
      exists s'. split; [done|]. unfold core in E. congruence. }
  assert (sessions c2 !! i = Some (next c)) as Hi2 by (rewrite Es; apply lookup_insert_eq).
  destruct r as [err|]; cbn [fst snd].
  - change (dropTagsLocked (next c) (set_sessions (delete i (sessions c2)) c2)) with (forget i (next c) c2).
    destruct (forget_ok i (next c) c2 Hh2 Htags Hm2 Hi2) as [Hok' _].
    destruct (forget_fields i (next c) c2) as (Fs & Fc & Fn & _ & Ft & _).
    split_and!; [done|congruence|congruence| |].
    + right. split; [|congruence]. eapply agree_trans; [exact Hp|]. by apply forget_agree.
    + rewrite Fs, Es. by apply delete_insert_id.
  - split_and!; [|exact Et|cbn; congruence| |done|done|exact Es].
    + destruct Htags as [B1 B2 B3], Hh2 as [A1 A2 A3], Hm2 as [C1 C2 C3]. split_and!; [by split|by split|].
      assert (∃ s2, heap c2 !! next c = Some s2 ∧ peer s2 = a) as (s2 & Hs2 & Hpeer).
      { destruct (agree_fwd core _ c2 (next c) s Ha) as (s2 & Hs2 & E); [cbn; apply lookup_insert_eq|].
        exists s2. split; [done|]. unfold core in E. cbn in E. congruence. }
      assert (byPeer (set_byPeer (<[a:=appendDiscoPeer (bucket a (byPeer c2)) (next c)]> (byPeer c2)) c2)
        = bucket_add a (next c) (byPeer c2)) as Eb2 by done.
      split; rewrite ?Eb2.
      * intros j q s' [Hj Hq]. cbn in Hj, Hq. rewrite elem_bucket_add. destruct (decide (q = next c)) as [->|Hne].
        -- left. by simplify_eq.
        -- right. by apply (C1 j).
      * intros b q. rewrite elem_bucket_add. cbn. intros [[-> ->]|Hq]; [eauto|by apply C2].
      * by apply no_empty_add.
    + right. split; [exact Hp|exact En].
Qed.

(** *** Operations that leave the tables alone *)
Record quiet (c c' : DiscoPacketConn) : Prop := {
  quiet_sessions : sessions c' = sessions c;
  quiet_closed : closed c' = closed c;
  quiet_next : next c' = next c;
  quiet_byPeer : byPeer c' = byPeer c;
  quiet_byTag : byTag c' = byTag c;
  quiet_epoch : epoch c' = epoch c;
  quiet_ticker : ticker c' = ticker c;
  quiet_view : agree view c c';
}.

Lemma quiet_refl c : quiet c c.
Proof. split; try done. Qed.

Lemma quiet_trans a b c : quiet a b → quiet b c → quiet a c.
Proof. intros [] []. split; (congruence || by eapply agree_trans). Qed.

Lemma quiet_update g p c : (∀ s, view (g s) = view s) → quiet c (update g p c).
Proof. intros Hg. split; try done. by apply agree_update. Qed.

Lemma quiet_stats v c : quiet c (set_stats v c).
Proof. by split. Qed.

Lemma quiet_ok c c' : quiet c c' → tables_ok c → tables_ok c'.
Proof. intros []. by apply tables_ok_frame. Qed.

Lemma quiet_live c c' : quiet c c' → live c' = live c.
Proof. intros H. unfold live. by rewrite (quiet_closed _ _ H), (quiet_sessions _ _ H). Qed.

#[local] Hint Resolve quiet_refl quiet_stats agree_refl : core.

Lemma WriteTo_quiet n addr now c : quiet c (WriteTo n addr now c) ∧ agree part c (WriteTo n addr now c).
Proof.
  unfold WriteTo. destruct (addrToAddrPort addr) as [to|]; [|done]. generalize (bucket to (byPeer c)) as b.
  intros b. revert c. induction b as [|p b IH]; intros c; cbn [foldl]; [done|]. destruct (IH (update (λ s, set_wireLens (observe n now (wireLens s)) s) p c)) as [Hq Ha].
  split; [eapply quiet_trans; [|exact Hq]; by apply quiet_update|].
  eapply agree_trans; [|exact Ha]. by apply agree_update.
Qed.

(** Sending spends one sequence number, or leaves the session as it is. *)
Lemma write_spec p to pkt nonce now padTo c :
  let '(c', r) := write_session p to pkt nonce now padTo c in
  quiet c c' ∧
  (agree part c c' ∧ is_ok r = false ∨
   ∃ s, heap c !! p = Some s ∧ seq s < discoSeqCeiling - 1
     ∧ (∀ q, part <$> heap c' !! q = if decide (q = p) then Some (u32 (seq s + 1), window s) else part <$> heap c !! q)
     ∧ ∀ n wire a, r = Ok (n, wire, a) → n = u32 (seq s + 1)).
Proof.
  assert (∀ padTo, let '(c', r) := writeDisco p to pkt nonce now padTo c in
    quiet c c' ∧
    (agree part c c' ∧ is_ok r = false ∨
     ∃ s, heap c !! p = Some s ∧ seq s < discoSeqCeiling - 1
       ∧ (∀ q, part <$> heap c' !! q = if decide (q = p) then Some (u32 (seq s + 1), window s) else part <$> heap c !! q)
       ∧ ∀ n wire a, r = Ok (n, wire, a) → n = u32 (seq s + 1))) as Hw.
  { clear padTo. intros padTo. unfold writeDisco, nextSeq. destruct (heap c !! p) as [s|] eqn:Hs; [|eauto].
    destruct (Z.leb_spec (discoSeqCeiling - 1) (seq s)); [eauto|].
    assert (quiet c (update (λ _, set_seq (u32 (seq s + 1)) s) p c)) as Hq.
    { split; try done. intros q. unfold update. cbn. rewrite lookup_alter. case_decide; subst; [|done]. by rewrite Hs. }
    assert (∀ q, part <$> heap (update (λ _, set_seq (u32 (seq s + 1)) s) p c) !! q
      = if decide (q = p) then Some (u32 (seq s + 1), window s) else part <$> heap c !! q) as Hp.
    { intros q. unfold update. cbn. rewrite lookup_alter. repeat case_decide; subst; try done. by rewrite Hs. }
    destruct (EncodeDisco _ _ _ _ _ _) as [e|wire']; (split; [done|right; exists s; split_and!; [done|lia|done|]]);
      intros n wire a E; [done|by injection E as <- <- <-]. }
  unfold write_session. destruct padTo as [padTo|]; [apply Hw|]. destruct (_ =? 0); [eauto|apply Hw].
Qed.

(** *** Walking a bucket *)
Lemma accept_same n w : (accept n w).2 = false → (accept n w).1 = w.
Proof. unfold accept. repeat case_match; done. Qed.

Lemma decoded_seq packet k now pkt : discoTagLen + discoNonceLen <= len packet →
  decodeDiscoBody packet k now = Ret (Ok pkt) → 0 < Seq (Header pkt) < 2 ^ 32.
Proof.
  intros Hl E. destruct (decodeDiscoBody_opens _ _ _ _ Hl E) as (tag & nonce & plain & _ & _ & _ & Hd); [done|].
  apply decode_plain_inv in Hd. naive_solver.
Qed.

Lemma decode_returns packet k now : discoTagLen + discoNonceLen <= len packet →
  ∃ r, decodeDiscoBody packet k now = Ret r.
Proof.
  intros Hl. unfold decodeDiscoBody. rewrite (proj2 (Z.ltb_ge _ _)) by lia. destruct (chacha_Open _ _ _ _); by eexists.
Qed.

Definition opens (packet : bytes) (k : DiscoKeys) : Prop := ∃ tag nonce plain, packet = envelope (open k) tag nonce plain.

(** What a walk may have done. *)
Record walked (b : list nat) (packet : bytes) (c c' : DiscoPacketConn) (consumed : bool) (acc : option (nat * Z)) : Prop := {
  walked_quiet : quiet c c';
  walked_opens : consumed = true → ∃ p s, p ∈ b ∧ heap c !! p = Some s ∧ opens packet (keys s);
  walked_part : match acc with
    | None => agree part c c'
    | Some (p, n) => consumed = true ∧ ∃ s, heap c !! p = Some s ∧ 0 < n < 2 ^ 32 ∧ (accept n (window s)).2 = true ∧
        ∀ q, part <$> heap c' !! q = if decide (q = p) then Some (seq s, (accept n (window s)).1) else part <$> heap c !! q
    end;
}.

Lemma emit_quiet p ev c : quiet c (emit p ev c) ∧ agree part c (emit p ev c).
Proof.
  unfold emit. destruct (heap c !! p) as [s|] eqn:Hs; [|done]. destruct (_ <? _); [|by split].
  split; [by apply quiet_update|by apply agree_update].
Qed.

Lemma walk_spec b packet from now c : discoTagLen + discoNonceLen <= len packet →
  ∃ c' consumed acc, walk b packet from now c = Ret (c', consumed, acc) ∧ walked b packet c c' consumed acc.
Proof.
  intros Hl. induction b as [|p b IH]; cbn [walk]; [eexists _, _, _; split; [done|]; split; [done|done|by intros q]|].
  assert (∀ c' consumed acc, walked b packet c c' consumed acc → walked (p :: b) packet c c' consumed acc) as Hmore.
  { intros c' co acc [H1 H2 H3]. split; [done| |done]. intros Hc. destruct (H2 Hc) as (q & s & Hq & ?).
    exists q, s. split; [by right|done]. }
  destruct IH as (c' & co & acc & E & Hw).
  destruct (heap c !! p) as [s|] eqn:Hs; [|eauto 6].
  destruct (decode_returns packet (keys s) now Hl) as [r Er]. rewrite Er. cbn [mbind outcome_bind].
  assert (r ≠ Err ErrDiscoAuth → opens packet (keys s)) as Ho.
  { intros Hr. destruct (decodeDiscoBody_opens _ _ _ _ Hl Er Hr) as (tag & nonce & plain & -> & _). by eexists _, _, _. }
  assert (∀ e, r = Err e → e ≠ ErrDiscoAuth → walked (p :: b) packet c (set_stats (countDecodeFailure e (stats c)) c) true None) as Hf.
  { intros e -> He. split; [done| |by intros q]. intros _. exists p, s. split_and!; [by left|done|]. apply Ho. congruence. }
  destruct r as [e|pkt]; [destruct e; [eauto 6..|]|].
  all: try (eexists _, _, _; split; [done|by apply Hf]).
  assert (opens packet (keys s)) as Hop by (by apply Ho).
  assert (∃ q s', q ∈ p :: b ∧ heap c !! q = Some s' ∧ opens packet (keys s')) as Hex by (exists p, s; split; [by left|done]).
  destruct (accept (Seq (Header pkt)) (window s)) as [w ok] eqn:Ea.
  assert (quiet c (update (set_window w) p c)) as Hq by by apply quiet_update.
  assert (∀ q, part <$> heap (update (set_window w) p c) !! q = if decide (q = p) then Some (seq s, w) else part <$> heap c !! q) as Hp.
  { intros q. unfold update. cbn. rewrite lookup_alter. repeat case_decide; subst; try done. by rewrite Hs. }
  destruct ok; cbn [negb].
  - eexists _, _, _. split; [done|].
    destruct (emit_quiet p (mkEvent from now pkt) (set_stats (count_Delivered (stats (update (set_window w) p c))) (update (set_window w) p c)))
      as [He1 He2].
    split; [eapply quiet_trans; [exact Hq|]; by eapply quiet_trans|done|].
    split; [done|]. exists s. split_and!; [done|by eapply decoded_seq..|by rewrite Ea|].
    intros q. rewrite (He2 q). cbn [heap set_stats]. rewrite Ea. apply Hp.
  - eexists _, _, _. split; [done|]. split; [by eapply quiet_trans|done|].
    intros q. cbn [heap set_stats]. rewrite Hp. case_decide; subst; [|done]. rewrite Hs. cbn. unfold part.
    pose proof (accept_same (Seq (Header pkt)) (window s)) as Hsame. rewrite Ea in Hsame.
    cbn [fst snd] in Hsame. by rewrite (Hsame eq_refl).
Qed.

Lemma dispatch_bucket_spec b packet addr now c :
  ∃ c' consumed acc, dispatch_bucket b packet addr now c = Ret (c', consumed, acc) ∧ walked b packet c c' consumed acc.
Proof.
  assert (walked b packet c c false None) as Hno by (by split).
  unfold dispatch_bucket. destruct (_ || _) eqn:E; [eauto 6|]. destruct b as [|p b]; [eauto 6|].
  destruct (addrToAddrPort addr) as [from|]; [|eauto 6]. apply walk_spec.
  apply orb_false_iff in E as [E _]. bool_to_Z. change discoMinWire with 48 in E. unfold discoTagLen, discoNonceLen. lia.
Qed.

(** Reading always returns: with the first datagram that is QUIC's, if any. *)
Lemma ReadFrom_returns input : ∀ c, returns (ReadFrom input c).
Proof.
  induction input as [|[[packet addr] now] input IH]; intros c; cbn [ReadFrom]; [by eexists|].
  destruct (dispatch_bucket_spec (tag_bucket packet c) packet addr now c) as (c' & co & acc & E & _).
  unfold dispatch. rewrite E. cbn [mbind outcome_bind]. destruct co; [apply IH|by eexists].
Qed.

(** ** The invariant of a run *)
Record world_ok (w : World) : Prop := {
  world_tables : tables_ok (conn w);
  world_dropping p : p ∈ dropping w → is_Some (heap (conn w) !! p) ∧ ∀ j, sessions (conn w) !! j ≠ Some p;
  world_ticker : owed w = 0%nat →
    match syncing w with Some b => b = live (conn w) | None => ticker (conn w) = live (conn w) end;
}.

(** The sequence numbers delivered to a session, and those it sent, in order. *)
Definition accepted (p : nat) (es : list event) : list Z :=
  omap (λ e, match e with EvAccepted q n => if decide (q = p) then Some n else None | _ => None end) es.
Definition sent (p : nat) (es : list event) : list Z :=
  omap (λ e, match e with EvSent q n _ _ => if decide (q = p) then Some n else None | _ => None end) es.

Record session_history (s : discoSession) (acc snt : list Z) : Prop := {
  hist_window : window_rel (window s) (reverse acc);
  hist_acc : NoDup acc;
  hist_seq : 0 <= seq s < discoSeqCeiling;
  hist_sent : Forall (λ n, 0 < n <= seq s) snt;
  hist_nodup : NoDup snt;
}.

Definition history_ok (c : DiscoPacketConn) (es : list event) : Prop :=
  ∀ p, match heap c !! p with
       | None => accepted p es = [] ∧ sent p es = []
       | Some s => session_history s (accepted p es) (sent p es)
       end.

Lemma history_part s s' acc snt : part s' = part s → session_history s acc snt → session_history s' acc snt.
Proof. unfold part. intros [= E1 E2] []. split; rewrite ?E1, ?E2; done. Qed.

Lemma history_agree c c' es : agree part c c' → history_ok c es → history_ok c' es.
Proof.
  intros Ha Hh p. specialize (Hh p). specialize (Ha p). destruct (heap c' !! p), (heap c !! p); try done.
  cbn in Ha. eapply history_part; [|done]. congruence.
Qed.

Lemma accepted_app p es es' : accepted p (es ++ es') = accepted p es ++ accepted p es'.
Proof. apply omap_app. Qed.
Lemma sent_app p es es' : sent p (es ++ es') = sent p es ++ sent p es'.
Proof. apply omap_app. Qed.

Lemma history_quiet c es es' : (∀ p, accepted p es' = [] ∧ sent p es' = []) → history_ok c es → history_ok c (es ++ es').
Proof.
  intros He Hh p. specialize (Hh p). destruct (He p) as [E1 E2]. by rewrite accepted_app, sent_app, E1, E2, !app_nil_r.
Qed.

Lemma history_new i k a c es : tables_ok c → history_ok c es → history_ok (with_new i (new_session i k a) c) es.
Proof.
  intros Hok Hh p. specialize (Hh p). cbn. destruct (decide (p = next c)) as [->|Hne].
  - rewrite lookup_insert_eq. assert (heap c !! next c = None) as E.
    { destruct Hok as (H & _). destruct (heap c !! next c) eqn:E; [|done]. pose proof (heap_next _ H (next c) ltac:(eauto)). lia. }
    rewrite E in Hh. destruct Hh as [-> ->]. split; cbn; [apply zero_window_rel|constructor|done|constructor|constructor].
  - by rewrite lookup_insert_ne.
Qed.

Lemma heap_agree_is_Some {X} (f : discoSession → X) c c' p : agree f c c' → is_Some (heap c !! p) → is_Some (heap c' !! p).
Proof. intros Ha [s Hs]. destruct (agree_fwd _ _ _ _ _ Ha Hs) as (s' & Hs' & _). eauto. Qed.

(** A step is possible, keeps the invariant and extends the history. *)
Definition step_good (w : World) (r : World * list event) : Prop :=
  world_ok r.1 ∧ ∀ es, history_ok (conn w) es → history_ok (conn r.1) (es ++ r.2).

Lemma quiet_world c w : world_ok w → quiet (conn w) c → world_ok (on c w).
Proof.
  intros [Ht Hd Hk] Hq. split; cbn.
  - by eapply quiet_ok.
  - intros p Hp. destruct (Hd p Hp) as [Hs Hu]. split; [by eapply heap_agree_is_Some; [apply (quiet_view _ _ Hq)|]|].
    intros j. rewrite (quiet_sessions _ _ Hq). apply Hu.
  - intros Ho. specialize (Hk Ho). rewrite (quiet_live _ _ Hq), (quiet_ticker _ _ Hq). done.
Qed.

Lemma good_quiet c w : world_ok w → quiet (conn w) c → agree part (conn w) c → step_good w (on c w, []).
Proof.
  intros Hw Hq Ha. split; [by apply quiet_world|]. intros es Hh. cbn. rewrite app_nil_r. by eapply history_agree.
Qed.

Lemma good_same w : world_ok w → step_good w (w, []).
Proof. intros Hw. split; [done|]. intros es Hh. by rewrite app_nil_r. Qed.

Lemma sync_act_ticker b c : ticker (sync_act b c) = b.
Proof. unfold sync_act. destruct b, (ticker c) eqn:E; cbn; done. Qed.

Lemma sync_act_rest b c : sessions (sync_act b c) = sessions c ∧ live (sync_act b c) = live c ∧ heap (sync_act b c) = heap c
  ∧ (tables_ok c → tables_ok (sync_act b c)).
Proof.
  unfold sync_act. destruct (b && _); [|destruct (_ && _)]; (split_and!; [done..|]); try done;
    intros Ht; (eapply tables_ok_frame; [..|exact Ht]; try done; by intros p).
Qed.

(** *** Each label *)
Lemma add_good i k a now w : world_ok w → ends_in (step w (Add i k a now)) (step_good w).
Proof.
  intros Hw. cbn [step]. destruct (add_checks i k a) as [|[k' a']]; [by apply ends_Ret, good_same|].
  pose proof (world_tables _ Hw) as Ht.
  destruct (add_locked_spec i k' a' now (conn w) Ht) as (Ht' & Etk & Ecl & Hpart & Hres).
  destruct (add_locked i k' a' now (conn w)) as [c' r]. cbn [fst snd] in *.
  assert (∀ es, history_ok (conn w) es → history_ok c' es) as Hh.
  { intros es Hh. destruct Hpart as [[Ha _]|[Ha _]]; [by eapply history_agree|].
    eapply history_agree; [exact Ha|]. by apply history_new. }
  assert (∀ p, is_Some (heap (conn w) !! p) → is_Some (heap c' !! p)) as Hsome.
  { intros p Hp. destruct Hpart as [[Ha _]|[Ha _]]; [by eapply heap_agree_is_Some|].
    eapply heap_agree_is_Some; [exact Ha|]. cbn. destruct (decide (p = next (conn w))) as [->|];
      [rewrite lookup_insert_eq|rewrite lookup_insert_ne]; eauto. }
  destruct Hw as [_ Hd Hk]. destruct r as [e|p]; apply ends_Ret; (split; [split; cbn|]); try done.
  - intros p Hp. destruct (Hd p Hp) as [? Hu]. split; [by apply Hsome|]. intros j. rewrite Hres. apply Hu.
  - intros Ho. specialize (Hk Ho). unfold live in *. rewrite Ecl, Hres, Etk. done.
  - intros es. cbn. rewrite app_nil_r. apply Hh.
  - destruct Hres as (-> & Hc & Hres). intros q Hq. destruct (Hd q Hq) as [Hs Hu]. split; [by apply Hsome|].
    intros j. rewrite Hres. intros [[_ Hj]|[_ Hj]]%lookup_insert_Some; [|by apply (Hu j)].
    destruct Ht as (H1 & _). pose proof (heap_next _ H1 _ Hs). lia.
  - intros es. cbn. rewrite app_nil_r. apply Hh.
Qed.

Lemma unregister_good i w : world_ok w → ends_in (step w (Unregister i)) (step_good w).
Proof.
  intros Hw. cbn [step]. unfold unregister. destruct Hw as [Ht Hd Hk]. destruct (sessions (conn w) !! i) as [p|] eqn:Hi.
  - fold (forget i p (conn w)). pose proof Ht as (Hh & Htg & Hp).
    destruct (forget_ok i p (conn w) Hh Htg (peers_ok_most _ _ Hp) Hi) as [Hok Hu].
    destruct (forget_fields i p (conn w)) as (Es & _). pose proof (forget_agree part i p (conn w) ltac:(done)) as Ha.
    apply ends_Ret. split; [split; cbn|]; [done| |done|].
    + destruct (heap_reg _ Hh _ _ Hi) as (s & Hs & _).
      intros q [->|Hq]%elem_of_cons; [split; [eapply heap_agree_is_Some; [exact Ha|]; eauto|exact Hu]|].
      destruct (Hd q Hq) as [Hsq Huq]. split; [by eapply heap_agree_is_Some|]. intros j. rewrite Es.
      intros [_ Hj]%lookup_delete_Some. by apply (Huq j).
    + intros es Hhist. cbn. rewrite app_nil_r. by eapply history_agree.
  - apply ends_Ret. split; [by split|]. intros es Hhist. by rewrite app_nil_r.
Qed.

Lemma drop_peer_good p w : world_ok w → ends_in (step w (DropPeer p)) (step_good w).
Proof.
  intros Hw. cbn [step]. case_bool_decide as Hp; [|by apply ends_Ret, good_same].
  destruct Hw as [Ht Hd Hk]. destruct (Hd p Hp) as [_ Hu].
  destruct (dropPeer_fields p (conn w)) as (Es & Ec & En & Eb & Et & Ee & Eh).
  apply ends_Ret. split; [split; cbn|].
  - by apply dropPeer_ok.
  - intros q [_ Hq]%list_elem_of_filter. rewrite Es, Eh. by apply Hd.
  - unfold live. rewrite Es, Ec, Et. exact Hk.
  - intros es Hhist. cbn. rewrite app_nil_r. eapply history_agree; [by apply agree_heap|done].
Qed.

Lemma set_peer_good p a w : world_ok w → ends_in (step w (SetPeer p a)) (step_good w).
Proof.
  intros [Ht Hd Hk]. cbn [step]. generalize (normaliseDiscoPeer a) as b. intros b.
  pose proof (set_peer_ok p b _ Ht) as Hok.
  assert (sessions (set_peer_locked p b (conn w)) = sessions (conn w) ∧ closed (set_peer_locked p b (conn w)) = closed (conn w)
    ∧ ticker (set_peer_locked p b (conn w)) = ticker (conn w)) as (Es & Ec & Et).
  { unfold set_peer_locked, dropPeerLocked. destruct (heap (conn w) !! p); [|done]. by case_bool_decide. }
  assert (agree part (conn w) (set_peer_locked p b (conn w))) as Ha.
  { unfold set_peer_locked, dropPeerLocked. destruct (heap (conn w) !! p) as [s|] eqn:Hs; [|apply agree_refl].
    case_bool_decide; [apply agree_refl|]. intros q. cbn. rewrite lookup_alter. case_decide; subst; [|done]. by rewrite Hs. }
  apply ends_Ret. split; [split; cbn|]; [done| | |].
  - intros q Hq. rewrite Es. destruct (Hd q Hq) as [? Hu]. split; [by eapply heap_agree_is_Some|done].
  - unfold live. rewrite Es, Ec, Et. exact Hk.
  - intros es Hhist. cbn. rewrite app_nil_r. by eapply history_agree.
Qed.

Lemma send_good p to pkt nonce now padTo w : world_ok w → ends_in (step w (Send p to pkt nonce now padTo)) (step_good w).
Proof.
  intros Hw. cbn [step]. pose proof (write_spec p to pkt nonce now padTo (conn w)) as Hs.
  destruct (write_session _ _ _ _ _ _ _) as [c r]. destruct Hs as [Hq Hs].
  destruct Hs as [[Ha Hr]|(s & Hps & Hlt & Hpart & Hn)].
  { destruct r; [|done]. apply ends_Ret. by apply good_quiet. }
  assert (∀ es snt, (snt = [] ∨ snt = [u32 (seq s + 1)]) → history_ok (conn w) es →
    ∀ q, match heap c !! q with None => accepted q es = [] ∧ sent q es ++ (if decide (p = q) then snt else []) = []
         | Some s' => session_history s' (accepted q es) (sent q es ++ if decide (p = q) then snt else []) end) as Hh.
  { intros es snt Hsnt Hh q. specialize (Hh q). specialize (Hpart q). destruct (decide (p = q)) as [<-|Hne].
    - rewrite decide_True in Hpart by done. rewrite Hps in Hh. destruct (heap c !! p) as [s'|]; [|done]. cbn in Hpart.
      unfold part in Hpart. injection Hpart as E1 E2. destruct Hh as [H1 H2 H3 H4 H5].
      rewrite wrapU_small in * by (unfold discoSeqCeiling in *; change (2 ^ 32) with 4294967296; lia).
      assert (Forall (λ n, 0 < n <= seq s') (sent p es)) as H4'
        by (eapply Forall_impl; [exact H4|]; cbn; intros; lia).
      split; rewrite ?E1, ?E2; [done|done|lia| |].
      + rewrite E1 in H4'. apply Forall_app. split; [done|]. destruct Hsnt as [->| ->]; constructor; [lia|constructor].
      + destruct Hsnt as [->| ->]; [by rewrite app_nil_r|]. apply NoDup_app. split; [done|].
        split; [|apply NoDup_singleton]. intros n Hn' ->%list_elem_of_singleton.
        rewrite Forall_forall in H4. specialize (H4 _ Hn'). lia.
    - rewrite decide_False in Hpart by done. rewrite app_nil_r.
      destruct (heap c !! q), (heap (conn w) !! q); try done. cbn in Hpart. eapply history_part; [|done]. congruence. }
  destruct r as [e|[[n wire] addr]]; apply ends_Ret; (split; [by apply quiet_world|]); intros es Hes q; cbn [snd fst on conn].
  - specialize (Hh es [] ltac:(by left) Hes q). rewrite app_nil_r. destruct (decide (p = q)); by rewrite app_nil_r in Hh.
  - rewrite (Hn n wire addr eq_refl). specialize (Hh es [u32 (seq s + 1)] ltac:(by right) Hes q).
    rewrite accepted_app, sent_app. cbn. rewrite app_nil_r. by case_decide.
Qed.

Lemma dispatch_good b packet addr now w : world_ok w → ends_in (step w (Dispatch b packet addr now)) (step_good w).
Proof.
  intros Hw. cbn [step]. destruct (dispatch_bucket_spec b packet addr now (conn w)) as (c & consumed & acc & E & [Hq _ Hp]).
  rewrite E. cbn [mbind outcome_bind]. apply ends_Ret. split; [by apply quiet_world|].
  intros es Hh. cbn [snd fst on conn]. destruct acc as [[p n]|].
  - destruct Hp as (-> & s & Hs & Hn & Hacc & Hpart). cbn [app]. intros q. specialize (Hh q). specialize (Hpart q).
    rewrite accepted_app, sent_app. cbn. rewrite app_nil_r. destruct (decide (p = q)) as [<-|Hne].
    + rewrite decide_True in Hpart by done. rewrite Hs in Hh. destruct (heap c !! p) as [s'|]; [|done].
      cbn in Hpart. unfold part in Hpart. injection Hpart as E1 E2. destruct Hh as [H1 H2 H3 H4 H5].
      destruct (accept_refines _ _ n H1 ltac:(lia)) as [Eacc Hrel]. rewrite Hacc in Eacc. symmetry in Eacc.
      destruct (spec_accept_new _ _ Eacc) as (Hnew & _ & Es). rewrite Es in Hrel.
      split; rewrite ?E1, ?E2; [|apply NoDup_app|done..].
      * by rewrite reverse_snoc.
      * split; [done|]. split; [|apply NoDup_singleton]. intros m Hm ->%list_elem_of_singleton.
        by rewrite elem_of_reverse in Hnew.
    + rewrite decide_False in Hpart by done. rewrite app_nil_r.
      destruct (heap c !! q), (heap (conn w) !! q); try done. cbn in Hpart. eapply history_part; [|done]. congruence.
  - apply history_quiet; [intros p; destruct consumed; done|]. by eapply history_agree.
Qed.

Lemma conn_step_ok w l : world_ok w → ends_in (step w l) (step_good w).
Proof.
  intros Hw. destruct l.
  - by apply add_good.
  - by apply unregister_good.
  - by apply drop_peer_good.
  - by apply set_peer_good.
  - apply ends_Ret. destruct (WriteTo_quiet n addr now (conn w)). by apply good_quiet.
  - by apply send_good.
  - by apply dispatch_good.
  - apply ends_Ret, good_quiet; [done|by apply quiet_update|by apply agree_update].
  - destruct Hw as [Ht Hd Hk]. pose proof Ht as (Hh & _ & Hp). pose proof (rebuild_ok now _ Hh Hp) as Hok.
    destruct (rebuild_fields now (conn w)) as (Es & Ec & _ & _ & Et).
    pose proof (rebuild_agree part now (conn w) ltac:(done)) as Ha.
    apply ends_Ret. split; [split; cbn|]; [done| | |].
    + intros q Hq. rewrite Es. destruct (Hd q Hq) as [? Hu]. split; [by eapply heap_agree_is_Some|done].
    + unfold live. rewrite Es, Ec, Et. exact Hk.
    + intros es Hes. cbn. rewrite app_nil_r. by eapply history_agree.
  - cbn [step]. destruct (syncing w) eqn:Esy; [by apply ends_Ret, good_same|]. destruct (owed w) eqn:Eo; [by apply ends_Ret, good_same|].
    destruct Hw as [Ht Hd Hk]. apply ends_Ret. split; [by split|]. intros es Hes. by rewrite app_nil_r.
  - cbn [step]. destruct (syncing w) as [b|] eqn:Esy; [|by apply ends_Ret, good_same].
    destruct Hw as [Ht Hd Hk]. rewrite Esy in Hk. destruct (sync_act_rest b (conn w)) as (Es & El & Eh & Hok).
    apply ends_Ret. split; [split; cbn|].
    + by apply Hok.
    + rewrite Es, Eh. exact Hd.
    + intros Ho. by rewrite sync_act_ticker, El, (Hk Ho).
    + intros es Hes. cbn. rewrite app_nil_r. eapply history_agree; [by apply agree_heap|done].
  - destruct Hw as [Ht Hd Hk]. apply ends_Ret. split; [split; cbn|]; [by apply close_ok| |done|].
    + intros q Hq. destruct (Hd q Hq) as [? Hu]. split; [done|]. intros j. by rewrite lookup_empty.
    + intros es Hes. cbn. rewrite app_nil_r. eapply history_agree; [by apply agree_heap|done].
Qed.

Lemma conn_steps_ok ls : ∀ w, world_ok w →
  ends_in (steps w ls) (λ r, world_ok r.1 ∧ ∀ es, history_ok (conn w) es → history_ok (conn r.1) (es ++ r.2)).
Proof.
  induction ls as [|l ls IH]; intros w Hw; cbn [steps].
  - apply ends_Ret. split; [done|]. intros es Hes. by rewrite app_nil_r.
  - eapply ends_bind; [by apply conn_step_ok|]. intros [w1 e1] [Hw1 Hh1]. cbn [fst snd] in *.
    eapply ends_bind; [by apply IH|]. intros [w2 e2] [Hw2 Hh2]. cbn [fst snd] in *.
    apply ends_Ret. split; [done|]. intros es Hes. cbn. rewrite app_assoc. auto.
Qed.

Lemma start_ok name n c : NewDiscoPacketConn true (Some name) n = Ok c → world_ok (start c) ∧ history_ok c [].
Proof.
  unfold NewDiscoPacketConn. cbn [negb]. destruct (negb _); [done|]. intros [= <-]. split; [split; cbn|].
  - split_and!; split; cbn; try done.
    + intros p [s Hs]. by rewrite lookup_empty in Hs.
    + intros t p. rewrite bucket_empty, elem_of_nil. split; [done|]. intros (i & s & [Hi _] & _). cbn in Hi. by rewrite lookup_empty in Hi.
    + exists 0. split; [done|]. intros i p s [Hi _]. cbn in Hi. by rewrite lookup_empty in Hi.
    + intros i p s [Hi _]. cbn in Hi. by rewrite lookup_empty in Hi.
    + intros a p. by rewrite bucket_empty, elem_of_nil.
  - by intros p ?%elem_of_nil.
  - intros _. unfold live. cbn. by rewrite bool_decide_true.
  - intros p. cbn. by rewrite lookup_empty.
Qed.

(** *** The methods are runs of their sections *)
Definition idle (w : World) : Prop := owed w = 0%nat ∧ syncing w = None ∧ dropping w = [].

Lemma sync_idle c : steps (mkWorld c 1 None []) [SyncRead; SyncAct] = Ret (start (syncEpochTicker c), []).
Proof. done. Qed.

Lemma methods_are_steps w : idle w →
  (∀ i k a now, ∃ ls, steps w ls = Ret (start (AddDiscoSession i k a now (conn w)).1, [])) ∧
  (∀ i a, ∃ ls, steps w ls = Ret (start (SetDiscoSessionPeer i a (conn w)).1, [])) ∧
  (∀ i, ∃ ls, steps w ls = Ret (start (RemoveDiscoSession i (conn w)), [])) ∧
  (∀ now, ∃ ls, steps w ls = Ret (start (refreshTags now (conn w)), [])) ∧
  (∃ ls, steps w ls = Ret (start (Close (conn w)), [])).
Proof.
  destruct w as [c o sy dr]. unfold idle. cbn [owed syncing dropping conn]. intros (-> & -> & ->). split_and!.
  - intros i k a now. unfold AddDiscoSession.
    destruct (add_checks i k a) as [e|[k' a']] eqn:Ec; [by exists []|].
    destruct (add_locked i k' a' now c) as [c' [e|p]] eqn:El.
    + exists [Add i k a now]. cbn [steps step]. rewrite Ec. cbn [conn]. by rewrite El.
    + exists [Add i k a now; SyncRead; SyncAct]. cbn [steps step]. rewrite Ec. cbn [conn]. by rewrite El.
  - intros i a. unfold SetDiscoSessionPeer, session. destruct (negb _); [by exists []|].
    destruct (sessions c !! i) as [p|]; [|by exists []]. by exists [SetPeer p a].
  - intros i. unfold RemoveDiscoSession. destruct (unregister i c) as [c' [p|]] eqn:Eu.
    + exists [Unregister i; DropPeer p; SyncRead; SyncAct]. cbn [steps step conn]. rewrite Eu.
      cbn [mbind outcome_bind dropping conn owed syncing]. rewrite bool_decide_true by (by left).
      cbn [mbind outcome_bind dropping conn owed syncing]. by rewrite filter_cons_False by (intros ?; done).
    + exists [Unregister i; SyncRead; SyncAct]. cbn [steps step conn]. by rewrite Eu.
  - intros now. unfold refreshTags. destruct (refresh_due now c); [by exists [Refresh now]|by exists []].
  - by exists [Shut; SyncRead; SyncAct].
Qed.

(** ** The theorems *)


(** C31: Whatever arrives, in whatever order, and however the goroutines
    interleave, no session is given the same sequence number twice, nor zero;
    what its window decides about the next number is what its specification
    decides from the numbers delivered so far (new, and less than 64 below the
    highest); and no session sends under a number twice, or at the ceiling. *)
Theorem no_sequence_number_twice name n c ls :
  NewDiscoPacketConn true (Some name) n = Ok c →
  ∃ w es, steps (start c) ls = Ret (w, es) ∧ ∀ p,
  NoDup (accepted p es) ∧ Forall (λ m, 0 < m < 2 ^ 32) (accepted p es) ∧
  NoDup (sent p es) ∧ Forall (λ m, 0 < m < discoSeqCeiling) (sent p es) ∧
  ∀ s m, heap (conn w) !! p = Some s → 0 <= m < 2 ^ 32 →
    (accept m (window s)).2 = (spec_accept m (reverse (accepted p es))).2.
Proof.
  intros Hnew. destruct (start_ok _ _ _ Hnew) as [Hw H0].
  destruct (conn_steps_ok ls _ Hw) as ([w es] & E & [_ Hh]). exists w, es. split; [done|]. intros p.
  specialize (Hh [] H0 p). cbn [fst snd app] in Hh. destruct (heap (conn w) !! p) as [s|].
  - destruct Hh as [H1 H2 H3 H4 H5]. split_and!; [done| |done| |].
    + pose proof (rel_seqs _ _ H1) as Hs. rewrite Forall_forall in Hs |- *. intros m Hm. apply Hs. by rewrite elem_of_reverse.
    + eapply Forall_impl; [exact H4|]. cbn. intros. lia.
    + intros s' m [= <-] Hm. by apply accept_refines.
  - destruct Hh as [-> ->]. split_and!; (constructor || done).
Qed.

(** *** Delivery *)
Lemma not_opens packet k now : discoTagLen + discoNonceLen <= len packet → ¬ opens packet k →
  decodeDiscoBody packet k now = Ret (Err ErrDiscoAuth).
Proof.
  intros Hl Hno. destruct (decode_returns packet k now Hl) as [r Er]. rewrite Er.
  assert (r = Err ErrDiscoAuth ∨ r ≠ Err ErrDiscoAuth) as [->|Hne] by (destruct r as [[]|?]; first [by left | by right]); [done|].
  destruct (decodeDiscoBody_opens _ _ _ _ Hl Er Hne) as (tag & nonce & plain & -> & _). destruct Hno. by eexists _, _, _.
Qed.

Lemma walk_to p s b packet from now c :
  discoTagLen + discoNonceLen <= len packet → p ∈ b → heap c !! p = Some s →
  (∀ q, q ∈ b → q ≠ p → ∃ s', heap c !! q = Some s' ∧ ¬ opens packet (keys s')) →
  (∃ pkt, decodeDiscoBody packet (keys s) now = Ret (Ok pkt)) →
  walk b packet from now c = walk [p] packet from now c.
Proof.
  intros Hl Hin Hs Hb (pkt & Hd). induction b as [|q b IH]; [by apply elem_of_nil in Hin|].
  destruct (decide (q = p)) as [->|Hne].
  - cbn [walk]. rewrite Hs, Hd. done.
  - apply elem_of_cons in Hin as [->|Hin]; [done|].
    destruct (Hb q ltac:(by left) Hne) as (s' & Hs' & Hno). set (rhs := walk [p] packet from now c) in *. cbn [walk]. rewrite Hs', (not_opens _ _ _ Hl Hno).
    cbn [mbind outcome_bind]. apply IH; [done|]. intros x Hx. apply Hb. by right.
Qed.

Lemma EncodeDisco_inv p k nonce n now padTo wire :
  EncodeDisco p (Some k) nonce n now padTo = Ok wire → 0 <= Unix now < 2 ^ 32 →
  ∃ payload tag padding, appendDiscoPayload [] p = Ok payload ∧ SendTag k now = Ok tag ∧
    discoMinWire <= padTo <= discoMaxWire ∧ len payload < 2 ^ 16 ∧
    wire = envelope (seal k) tag nonce (plain_text (Type_ (Header p)) (len payload) (Unix now) n payload padding)
    ∧ len padding = padTo - discoMinWire - len payload.
Proof.
  intros E Hnow. pose proof E as E0. unfold EncodeDisco in E. apply result_bind_inv in E as (payload & Hp & E).
  destruct (_ || _) eqn:Eb; [done|]. apply orb_false_iff in Eb as [E1 E2]. bool_to_Z.
  destruct (Z.ltb_spec (padTo - discoTagLen - discoNonceLen - discoSealLen) (discoHeaderLen + len payload)) as [|Hle]; [done|].
  apply result_bind_inv in E as (tag & Ht & _).
  assert (discoMinWire + len payload <= padTo <= discoMaxWire) as Hpad
    by (unfold discoMinWire, discoTagLen, discoNonceLen, discoHeaderLen, discoSealLen in *; lia).
  destruct (EncodeDisco_ok p k payload nonce n now padTo tag Hp Hpad Ht Hnow) as (padding & E' & Hpl).
  rewrite E' in E0. apply Ok_inj in E0 as <-. exists payload, tag, padding.
  change discoMaxWire with 1452 in *. change discoMinWire with 48 in *. change (2 ^ 16) with 65536.
  split_and!; try done; lia.
Qed.

(** The tag of an epoch next to the table's is in the table. *)
Lemma tag_listed k e t0 tag : MinSecretLen <= len (tagRecv k) → 0 <= e < 2 ^ 32 →
  Z.abs (e - discoEpochOf t0) <= 1 → discoTag (tagRecv k) e = Ok tag → tag ∈ tags_at k t0.
Proof.
  intros Hk He Ht Hd. unfold tags_at. destruct (RecvTags_spec k t0 Hk) as (ts & -> & Hts). apply Hts.
  exists e. split; [|done]. unfold epochs_held. rewrite !elem_of_cons. change (2 ^ 32) with 4294967296 in He.
  destruct (Z.eq_dec e (discoEpochOf t0)) as [|]; [by auto|].
  destruct (Z_lt_le_dec e (discoEpochOf t0)).
  - left. rewrite wrapU_small by (change (2 ^ 64) with 18446744073709551616; lia). lia.
  - right; right; left. rewrite wrapU_small by (change (2 ^ 64) with 18446744073709551616; lia). lia.
Qed.

(** A packet sealed by the other end decodes, whatever the tables are. *)
Lemma peer_decodes secret server k1 k2 pkt nonce n now1 now2 padTo wire :
  NewDiscoKeys secret server = Ok k1 → NewDiscoKeys secret (negb server) = Ok k2 →
  wf_packet pkt → len nonce = discoNonceLen → 0 < n < 2 ^ 32 → 0 <= Unix now1 < 2 ^ 32 →
  Z.abs (now2 - Unix now1 * Second) <= discoMaxSkew →
  EncodeDisco pkt (Some k1) nonce n now1 padTo = Ok wire →
  discoMinWire <= len wire <= discoMaxWire ∧
  discoTag (tagRecv k2) (discoEpochOf now1) = Ok (array discoTagLen wire) ∧
  decodeDiscoBody wire k2 now2 = Ret (Ok (wire_packet pkt (mkHeader (Type_ (Header pkt)) n (Unix now1 * Second)))).
Proof.
  intros E1 E2 Hwf Hnonce Hn Hnow Hskew E. destruct (peer_keys _ _ _ _ E1 E2) as (Htag & Hseal & Hlen).
  destruct (EncodeDisco_inv _ _ _ _ _ _ _ E Hnow) as (payload & tag & padding & Hp & Ht & Hpad & Hpl & -> & Hlp).
  destruct (discoTag_ok (tagSend k1) (discoEpochOf now1)) as (tag' & Et & Hl); [by rewrite Hlen|].
  unfold SendTag in Ht. rewrite Et in Ht. apply Ok_inj in Ht as ->.
  split_and!.
  - rewrite len_envelope, len_plain_text, Hlp by done. change discoMinWire with 48 in *. lia.
  - rewrite len_envelope, len_plain_text, Hlp by done. change discoMinWire with 48 in *. lia.
  - rewrite <-Htag, Et. f_equal. unfold envelope. by rewrite array_app.
  - rewrite Hseal, decodeDiscoBody_envelope by done. f_equal.
    rewrite decode_plain_text by (try done; by destruct Hwf). by apply payload_roundtrip.
Qed.

(** The tag of such a packet leads to the session it was sent to. *)
Lemma peer_bucket c i p s secret server k1 e wire :
  tags_ok c → reg c i p s → NewDiscoKeys secret server = Ok k1 → NewDiscoKeys secret (negb server) = Ok (keys s) →
  0 <= e < 2 ^ 32 → Z.abs (e - epoch c) <= 1 → discoTag (tagRecv (keys s)) e = Ok (array discoTagLen wire) →
  p ∈ tag_bucket wire c.
Proof.
  intros [B1 (t0 & Ht0 & B2) _] Hr E1 E2 He Hep Htag. apply B1. exists i, s. split; [done|]. rewrite (B2 _ _ _ Hr).
  destruct (NewDiscoKeys_ok secret (NewDiscoKeys_secret _ _ _ E1)) as (tc & ts & bc & bs & pr & Hl & Ekeys).
  assert (MinSecretLen <= len (tagRecv (keys s))) as Hk.
  { rewrite Ekeys in E2. apply Ok_inj in E2. rewrite <-E2. repeat (apply list.Forall_cons in Hl as [? Hl]).
    change MinSecretLen with discoKeyLen. destruct server; cbn; lia. }
  apply (tag_listed _ e); [done|done|by rewrite Ht0|done].
Qed.

(** What dispatching does once a session has opened the packet. *)
Lemma walk_opened p s pkt packet from now c :
  heap c !! p = Some s → decodeDiscoBody packet (keys s) now = Ret (Ok pkt) →
  ∃ c', walk [p] packet from now c
        = Ret (c', true, if (accept (Seq (Header pkt)) (window s)).2 then Some (p, Seq (Header pkt)) else None) ∧
    events <$> heap c' !! p =
      Some (if (accept (Seq (Header pkt)) (window s)).2 && (len (events s) <? eventBuffer c)
            then events s ++ [mkEvent from now pkt] else events s).
Proof.
  intros Hs Hd. cbn [walk]. rewrite Hs, Hd. cbn [mbind outcome_bind].
  destruct (accept (Seq (Header pkt)) (window s)) as [win ok]. cbn [snd].
  assert (heap (update (set_window win) p c) !! p = Some (set_window win s)) as Hup
    by (unfold update; cbn; by rewrite lookup_alter_eq, Hs).
  destruct ok; cbn [negb andb]; (eexists; split; [reflexivity|]).
  - unfold emit. cbn [heap set_stats]. rewrite Hup. cbn [events set_window eventBuffer set_stats update set_heap].
    destruct (_ <? _); [|cbn [heap set_stats]; by rewrite Hup].
    unfold update at 1. cbn [heap set_heap set_stats]. by rewrite lookup_alter_eq, Hup.
  - cbn [heap set_stats]. by rewrite Hup.
Qed.

Lemma epoch_bound now : 0 <= Unix now < 2 ^ 32 → 0 <= discoEpochOf now < 2 ^ 32.
Proof.
  intros Hnow. unfold discoEpochOf. change (quot discoEpoch Second) with 120. cbv zeta.
  rewrite (proj2 (Z.ltb_ge (Unix now) 0)) by lia.
  split; [apply Z.div_pos; lia|]. apply Z.div_lt_upper_bound; lia.
Qed.

(** A datagram that no session's key opens is QUIC's. *)
Lemma stranger_passes c packet addr now : tags_ok c → (∀ j q s', reg c j q s' → ¬ opens packet (keys s')) →
  ∃ c', dispatch packet addr now c = Ret (c', false, None).
Proof.
  intros Ht Hno. unfold dispatch.
  destruct (dispatch_bucket_spec (tag_bucket packet c) packet addr now c) as (c' & co & acc & -> & [_ Ho Ha]).
  assert (co = false) as ->.
  { destruct co; [|done]. destruct (Ho eq_refl) as (p & s & Hp & Hs & Hop). apply (tags_table _ Ht) in Hp as (i & s' & [Hi Hs'] & _).
    simplify_eq. exfalso. by eapply (Hno i p). }
  exists c'. destruct acc as [[p n]|]; [|done]. by destruct Ha as [? _].
Qed.

(** C32: In every reachable state, what the other end of a registered session
    sends it is taken out of QUIC's way and, exactly when its sequence number is
    new, handed to that session with the address it came from (or counted as
    dropped when the channel is full) -- provided the clocks agree to thirty
    seconds, it was sent in an epoch next to the table's, and no other session's
    key happens to open it.  And a datagram that no registered session's key
    opens always goes on to QUIC. *)
Theorem sent_packet_delivered name sz c ls :
  NewDiscoPacketConn true (Some name) sz = Ok c →
  ∃ w es, steps (start c) ls = Ret (w, es) ∧
  (∀ i p s secret server k1 pkt nonce n now1 now2 padTo wire addr from,
    reg (conn w) i p s →
    NewDiscoKeys secret server = Ok k1 → NewDiscoKeys secret (negb server) = Ok (keys s) →
    wf_packet pkt → len nonce = discoNonceLen → 0 < n < 2 ^ 32 → 0 <= Unix now1 < 2 ^ 32 →
    Z.abs (now2 - Unix now1 * Second) <= discoMaxSkew →
    Z.abs (discoEpochOf now1 - epoch (conn w)) <= 1 →
    EncodeDisco pkt (Some k1) nonce n now1 padTo = Ok wire →
    (∀ j q s', reg (conn w) j q s' → q ≠ p → ¬ opens wire (keys s')) →
    addrToAddrPort addr = Some from →
    let fresh := (spec_accept n (reverse (accepted p es))).2 in
    let ev := mkEvent from now2 (wire_packet pkt (mkHeader (Type_ (Header pkt)) n (Unix now1 * Second))) in
    ∃ c', dispatch wire addr now2 (conn w) = Ret (c', true, if fresh then Some (p, n) else None) ∧
      events <$> heap c' !! p =
        Some (if fresh && (len (events s) <? eventBuffer (conn w)) then events s ++ [ev] else events s))
  ∧ (∀ packet addr now, (∀ j q s', reg (conn w) j q s' → ¬ opens packet (keys s')) →
    ∃ c', dispatch packet addr now (conn w) = Ret (c', false, None)).
Proof.
  intros Hnew. destruct (start_ok _ _ _ Hnew) as [Hw H0].
  destruct (conn_steps_ok ls _ Hw) as ([w es] & E & [Hw' Hh]). exists w, es. cbn [fst snd] in Hw', Hh. split; [done|].
  specialize (Hh [] H0). cbn [app] in Hh. destruct Hw' as [(_ & Ht & _) _ _].
  split; [|intros packet addr now; by apply stranger_passes].
  intros i p s secret server k1 pkt nonce n now1 now2 padTo wire addr from
    Hr E1 E2 Hwf Hnonce Hn Hnow Hskew Hep Ew Hothers Haddr fresh ev.
  destruct (peer_decodes secret server k1 (keys s) pkt nonce n now1 now2 padTo wire E1 E2 Hwf Hnonce Hn Hnow Hskew Ew)
    as (Hlen & Htag & Hd).
  pose proof (peer_bucket _ _ _ _ _ _ _ _ _ Ht Hr E1 E2 (epoch_bound _ Hnow) Hep Htag) as Hin.
  unfold dispatch, dispatch_bucket. rewrite (proj2 (Z.ltb_ge _ _)), (proj2 (Z.ltb_ge _ _)) by lia. cbn [orb].
  rewrite Haddr. destruct (tag_bucket wire (conn w)) as [|q0 b0] eqn:Eb; [by apply elem_of_nil in Hin|]. rewrite <-Eb in *.
  destruct Hr as [Hi Hs]. rewrite (walk_to p s); [|change discoMinWire with 48 in *; unfold discoTagLen, discoNonceLen; lia|done..| |by eexists].
  - specialize (Hh p). rewrite Hs in Hh. destruct (accept_refines _ _ n (hist_window _ _ _ Hh) ltac:(lia)) as [Eacc _].
    unfold fresh. rewrite <-Eacc. exact (walk_opened p s _ wire from now2 (conn w) Hs Hd).
  - intros q Hq Hne. apply (tags_table _ Ht) in Hq as (j & s' & Hrq & _). exists s'. split; [apply Hrq|by eapply Hothers].
Qed.

(** The two sections of [RemoveDiscoSession] and the lookup of
    [SetDiscoSessionPeer] leave a window: a session looked up before it is
    removed and moved after it is entered in the peer index again, and stays
    there with no call pending. *)
Lemma removed_session_stays_indexed w i p s a :
  world_ok w → owed w = 0%nat → syncing w = None → dropping w = [] →
  reg (conn w) i p s → peer s ≠ normaliseDiscoPeer a →
  ∃ w', steps w [Unregister i; DropPeer p; SetPeer p a; SyncRead; SyncAct] = Ret (w', [])
    ∧ owed w' = 0%nat ∧ syncing w' = None ∧ dropping w' = []
    ∧ p ∈ bucket (normaliseDiscoPeer a) (byPeer (conn w')) ∧ ∀ j, sessions (conn w') !! j ≠ Some p.
Proof.
  intros [Ht Hd Hk] Ho Hsy Hdr [Hi Hs] Hne. set (b := normaliseDiscoPeer a) in *.
  destruct Ht as (Hh & Htg & Hp). destruct (forget_ok i p (conn w) Hh Htg (peers_ok_most _ _ Hp) Hi) as [_ Hu].
  destruct (agree_fwd core _ _ _ _ (forget_agree core i p (conn w) ltac:(done)) Hs) as (s' & Hs' & E).
  set (d := dropPeerLocked p (forget i p (conn w))). set (c3 := set_peer_locked p b d).
  assert (heap d !! p = Some s' ∧ sessions d = sessions (forget i p (conn w))) as [Hds Esd].
  { destruct (dropPeer_fields p (forget i p (conn w))) as (Esd & _ & _ & _ & _ & _ & Eh). unfold d. by rewrite Eh, Esd. }
  assert (p ∈ bucket b (byPeer c3) ∧ sessions c3 = sessions d) as [Hb Es].
  { unfold c3, set_peer_locked. rewrite Hds, bool_decide_false by (unfold core in E; congruence). split.
    - unfold bucket at 1. cbn [byPeer set_byPeer]. rewrite lookup_insert_eq. cbn. apply elem_of_app. right. by left.
    - destruct (dropPeer_fields p d) as (Esd2 & _). exact Esd2. }
  eexists. split; [|].
  { cbn [steps step]. unfold unregister. rewrite Hi. fold (forget i p (conn w)).
    cbn [mbind outcome_bind dropping conn owed syncing on]. rewrite bool_decide_true by (by left).
    cbn [mbind outcome_bind dropping conn owed syncing on app]. rewrite Hsy, Ho, Hdr. reflexivity. }
  cbn [owed syncing dropping conn]. split_and!; [done|done| | |].
  - rewrite filter_cons_False by (intros ?; done). done.
  - change (p ∈ bucket b (byPeer (sync_act (live c3) c3))).
    assert (byPeer (sync_act (live c3) c3) = byPeer c3) as -> by (unfold sync_act; repeat case_match; done). exact Hb.
  - intros j. change (sessions (sync_act (live c3) c3) !! j ≠ Some p). destruct (sync_act_rest (live c3) c3) as (-> & _). rewrite Es, Esd. apply Hu.
Qed.

End Facts.

(** ** Witnesses *)
#[local] Existing Instance toy.
#[local] Existing Instance toy_crypto.
#[local] Instance sample_order : MapRange string nat := canonical_range string nat.

Definition sample_conn : DiscoPacketConn := mkConn 16 zero_DiscoStats ∅ ∅ false ∅ 0 false ∅ 0.
Definition sample_addr : net_Addr := UDPAddr (be_bytes 4 0xc0000207) 4433.
Definition sample_peer : AddrPort := AddrPortFrom (V4 0xc0000207) 4433.
Definition sample_wire : bytes :=
  match EncodeDisco sample_callme (Some (keys_of false)) sample_nonce 5 (239 * Second) 1200 with Ok w => w | Err _ => [] end.
Definition sample_labels : list label :=
  [Add "c" (Some (keys_of true)) sample_peer (239 * Second); SyncRead; SyncAct].
Definition sample_run : list label :=
  sample_labels ++ [Dispatch [0%nat] sample_wire sample_addr (241 * Second); Dispatch [0%nat] sample_wire sample_addr (242 * Second);
    Send 0%nat sample_peer sample_callme sample_nonce (240 * Second) (Some 1200)].


(** The packet comes twice and is delivered once. *)
Lemma no_sequence_number_twice_witness :
  match steps (start sample_conn) sample_run with
  | Ret (w, es) => accepted 0%nat es = [5] ∧ sent 0%nat es = [1] ∧ NoDup (accepted 0%nat es)
  | Panic => False
  end.
Proof.
  destruct (no_sequence_number_twice "salamander-v2" 0 sample_conn sample_run) as (w & es & E & H); [vm_compute; reflexivity|].
  assert (match steps (start sample_conn) sample_run with
          | Ret (w, es) => (accepted 0%nat es, sent 0%nat es) | Panic => ([], []) end = ([5], [1])) as Hv by (vm_compute; reflexivity).
  rewrite E in Hv |- *. destruct (H 0%nat) as (Hn & _). split; [exact (f_equal fst Hv)|split; [exact (f_equal snd Hv)|exact Hn]].
Defined.

Lemma sent_packet_delivered_witness :
  match steps (start sample_conn) sample_labels with
  | Ret (w, es) => ∃ c', dispatch sample_wire sample_addr (241 * Second) (conn w) = Ret (c', true, Some (0%nat, 5))
  | Panic => False
  end.
Proof.
  destruct (sent_packet_delivered "salamander-v2" 0 sample_conn sample_labels) as (w & es & E & H & _); [vm_compute; reflexivity|].
  rewrite E.
  assert (match steps (start sample_conn) sample_labels with
          | Ret (w, es) => Some (map_to_list (sessions (conn w)), (λ s, (keys s, events s)) <$> heap (conn w) !! 0%nat, epoch (conn w), es)
          | Panic => None end = Some ([("c", 0%nat)], Some (keys_of true, []), 1, [])) as Hv by (vm_compute; reflexivity).
  rewrite E in Hv.
  assert (map_to_list (sessions (conn w)) = [("c", 0%nat)]) as Hses by congruence.
  assert ((λ s, (keys s, events s)) <$> heap (conn w) !! 0%nat = Some (keys_of true, [])) as Hheap by congruence.
  assert (epoch (conn w) = 1) as Hep by congruence. assert (es = []) as Hes by congruence. clear Hv.
  destruct (heap (conn w) !! 0%nat) as [s|] eqn:Hs; [|discriminate Hheap]. cbn in Hheap.
  assert (keys s = keys_of true) as Hk by congruence.
  assert (sessions (conn w) !! "c" = Some 0%nat) as Hi by (apply elem_of_map_to_list; rewrite Hses; left).
  destruct (H "c" 0%nat s sample_secret false (keys_of false) sample_callme sample_nonce 5 (239 * Second) (241 * Second) 1200
    sample_wire sample_addr sample_peer) as (c' & Hd & _).
  - split; [exact Hi|exact Hs].
  - vm_compute. reflexivity.
  - rewrite Hk. vm_compute. reflexivity.
  - split; cbn; intros; simplify_eq; [vm_compute; intuition congruence|].
    repeat (apply List.Forall_cons; [split; [split|]; vm_compute; intuition congruence|]). apply List.Forall_nil.
  - vm_compute. reflexivity.
  - vm_compute. intuition congruence.
  - vm_compute. intuition congruence.
  - vm_compute. congruence.
  - rewrite Hep. vm_compute. congruence.
  - vm_compute. reflexivity.
  - intros j q s' [Hj _] Hq. apply elem_of_map_to_list in Hj. rewrite Hses in Hj.
    apply list_elem_of_singleton in Hj. congruence.
  - vm_compute. reflexivity.
  - exists c'. rewrite Hd, Hes. vm_compute. reflexivity.
Defined.
