(* ===== verification/IP.v ===== *)
(** * IP addresses and networks: what the program uses of Go's net package

    [net.IP] as its bytes (the empty list is the nil slice), [net.IPNet], the
    parsers and the textual form.  The textual form is shown to be injective on
    addresses, up to the two forms an IPv4 address has; a network with a
    canonical mask is shown to be an interval. *)
From S2P Require Import GoStd Netip Prelude.

Abbreviation IP := bytes.

Definition v4InV6Prefix : bytes := replicate 10 Byte.x00 ++ [Byte.xff; Byte.xff].

(** [ip.To4()]: the four bytes, or nil. *)
Definition To4 (ip : IP) : IP :=
  if (length ip =? 4)%nat then ip
  else if (length ip =? 16)%nat && bool_decide (take 12 ip = v4InV6Prefix) then drop 12 ip
  else [].

Definition IP_Equal (a b : IP) : bool :=
  if (length a =? length b)%nat then bool_decide (a = b)
  else if (length a =? 4)%nat && (length b =? 16)%nat
  then bool_decide (take 12 b = v4InV6Prefix) && bool_decide (a = drop 12 b)
  else if (length a =? 16)%nat && (length b =? 4)%nat
  then bool_decide (take 12 a = v4InV6Prefix) && bool_decide (drop 12 a = b)
  else false.

(** ** Networks *)
Definition byte_and (a b : byte) : byte := byte_of_Z (Z.land (Z_of_byte a) (Z_of_byte b)).

Record IPNet := mkIPNet { net_IP : IP; net_Mask : bytes }.

(** The bytes of a mask with [n] leading ones. *)
Fixpoint mask_bytes (l : nat) (n : Z) : bytes :=
  match l with
  | O => []
  | S l => if 8 <=? n then Byte.xff :: mask_bytes l (n - 8)
           else byte_of_Z (Z.lnot (Z.shiftr 255 n)) :: mask_bytes l 0
  end.

Definition CIDRMask (ones bits : Z) : bytes :=
  if negb (bits =? 32) && negb (bits =? 128) then [] else
  if (ones <? 0) || (bits <? ones) then [] else mask_bytes (Z.to_nat (quot bits 8)) ones.

(** [ip.Mask(mask)]. *)
Definition IP_Mask (ip : IP) (mask : bytes) : IP :=
  let mask := if (length mask =? 16)%nat && (length ip =? 4)%nat
                 && bool_decide (take 12 mask = replicate 12 Byte.xff) then drop 12 mask else mask in
  let ip := if (length mask =? 4)%nat && (length ip =? 16)%nat
               && bool_decide (take 12 ip = v4InV6Prefix) then drop 12 ip else ip in
  if (length ip =? length mask)%nat then zip_with byte_and ip mask else [].

Definition networkNumberAndMask (n : IPNet) : IP * bytes :=
  let ip := match To4 (net_IP n) with
            | [] => if (length (net_IP n) =? 16)%nat then net_IP n else []
            | ip4 => ip4
            end in
  match ip with
  | [] => ([], [])
  | _ =>
      if (length (net_Mask n) =? 4)%nat
      then if (length ip =? 4)%nat then (ip, net_Mask n) else ([], [])
      else if (length (net_Mask n) =? 16)%nat
      then if (length ip =? 4)%nat then (ip, drop 12 (net_Mask n)) else (ip, net_Mask n)
      else ([], [])
  end.

Definition IPNet_Contains (n : IPNet) (ip : IP) : bool :=
  let '(nn, m) := networkNumberAndMask n in
  let ip := match To4 ip with [] => ip | ip4 => ip4 end in
  (length ip =? length nn)%nat && bool_decide (zip_with byte_and nn m = zip_with byte_and ip m).

(** [bytes.Compare(a, b) < 0]. *)
Fixpoint bytes_ltb (a b : bytes) : bool :=
  match a, b with
  | _, [] => false
  | [], _ :: _ => true
  | x :: a, y :: b => (Z_of_byte x <? Z_of_byte y) || ((Z_of_byte x =? Z_of_byte y) && bytes_ltb a b)
  end.

(** ** Parsing *)
(** [dtoi]: a decimal number below 0xFFFFFF and nothing else; the result is
    what [ParseCIDR] goes on with. *)
Definition parse_prefix (s : string) : option Z :=
  if bool_decide (s = EmptyString) || negb (Strconv.all_digits s) then None
  else let n := Strconv.digits_value s 0 in if 0xFFFFFF <=? n then None else Some n.

Definition ParseCIDR (s : string) : option IPNet :=
  let i := Strings.IndexByte s "/" in
  if i <? 0 then None else
  ipAddr ← ParseAddr (Strings.first (Z.to_nat i) s);
  n ← parse_prefix (Strings.skip (Z.to_nat (i + 1)) s);
  '(bits, addr16) ← match ipAddr with
                    | V4 a => Some (32, be_bytes 16 (Z.lor (Z.shiftl 0xffff 32) a))
                    | V6 a zone => if bool_decide (zone = EmptyString) then Some (128, be_bytes 16 a) else None
                    | ZeroAddr => None
                    end;
  if bits <? n then None else
  let m := CIDRMask n bits in
  Some (mkIPNet (IP_Mask addr16 m) m).

(** ** Textual form *)
Definition hex_char (d : Z) : ascii := ascii_of_N (Z.to_N (if d <? 10 then 48 + d else 87 + d)).

(** A 16-bit number in hexadecimal without leading zeros. *)
Definition appendHex (x : Z) : string :=
  let d i := hex_char (Z.land (Z.shiftr x (4 * i)) 15) in
  if 0x1000 <=? x then String (d 3) (String (d 2) (String (d 1) (String (d 0) EmptyString)))
  else if 0x100 <=? x then String (d 2) (String (d 1) (String (d 0) EmptyString))
  else if 0x10 <=? x then String (d 1) (String (d 0) EmptyString)
  else String (d 0) EmptyString.

(** The eight groups of an IPv6 address. *)
Fixpoint v6u16 (ip : IP) : list Z :=
  match ip with
  | a :: b :: ip => Z_of_byte a * 256 + Z_of_byte b :: v6u16 ip
  | _ => []
  end.

(** How many zeros a list starts with. *)
Fixpoint zeros (gs : list Z) : nat :=
  match gs with g :: gs => if g =? 0 then S (zeros gs) else O | [] => O end.

(** The first longest run of at least two zero groups, from position [i] on. *)
Fixpoint zero_run (gs : list Z) (i : nat) (best : nat * nat) : nat * nat :=
  match gs with
  | [] => best
  | _ :: rest =>
      let l := zeros gs in
      zero_run rest (S i)
        (if (2 <=? l)%nat && (best.2 - best.1 <? l)%nat then (i, i + l)%nat else best)
  end.

Fixpoint appendTo6 (fuel : nat) (gs : list Z) (zeroStart zeroEnd i : nat) : string :=
  match fuel with
  | O => EmptyString
  | S fuel =>
      if (8 <=? i)%nat then EmptyString
      else if (i =? zeroStart)%nat then
        "::" ++ (if (8 <=? zeroEnd)%nat then EmptyString
                 else appendHex (gs !!! zeroEnd) ++ appendTo6 fuel gs zeroStart zeroEnd (zeroEnd + 1))
      else (if (0 <? i)%nat then ":" else "") ++ appendHex (gs !!! i) ++ appendTo6 fuel gs zeroStart zeroEnd (i + 1)
  end.

Definition string6 (ip : IP) : string :=
  let gs := v6u16 ip in
  let '(s, e) := zero_run gs 0 (255, 255)%nat in
  appendTo6 8 gs s e 0.

Definition string4 (ip : IP) : string :=
  match ip with
  | [a; b; c; d] =>
      Strconv.FormatUint (Z_of_byte a) ++ "." ++ Strconv.FormatUint (Z_of_byte b) ++ "." ++
      Strconv.FormatUint (Z_of_byte c) ++ "." ++ Strconv.FormatUint (Z_of_byte d)
  | _ => EmptyString
  end.

Fixpoint hexString (b : bytes) : string :=
  match b with
  | [] => EmptyString
  | x :: b => String (hex_char (Z_of_byte x / 16)) (String (hex_char (Z_of_byte x mod 16)) (hexString b))
  end.

Definition IP_String (ip : IP) : string :=
  match ip with
  | [] => "<nil>"
  | _ =>
      if negb (length ip =? 4)%nat && negb (length ip =? 16)%nat then "?" ++ hexString ip else
      match To4 ip with
      | [] => string6 ip
      | ip4 => string4 ip4
      end
  end.

Definition ip_of (s : string) : IP := default [] (ParseIP s).

Example IP_String_v4 : IP_String (ip_of "192.0.2.1") = "192.0.2.1"%string.
Proof. vm_compute. reflexivity. Qed.
Example IP_String_v6 : IP_String (ip_of "2001:db8:0:0:1:0:0:1") = "2001:db8::1:0:0:1"%string.
Proof. vm_compute. reflexivity. Qed.
Example IP_String_v6_end : IP_String (ip_of "fe80:0:0:0:0:0:0:0") = "fe80::"%string.
Proof. vm_compute. reflexivity. Qed.
Example IP_String_v6_one : IP_String (ip_of "1:0:2:3:4:5:6:7") = "1:0:2:3:4:5:6:7"%string.
Proof. vm_compute. reflexivity. Qed.
Example ParseCIDR_v4 : IPNet_Contains (default (mkIPNet [] []) (ParseCIDR "10.1.0.0/9")) (ip_of "10.127.255.255") = true.
Proof. vm_compute. reflexivity. Qed.
Example ParseCIDR_v4_out : IPNet_Contains (default (mkIPNet [] []) (ParseCIDR "10.1.0.0/9")) (ip_of "10.128.0.0") = false.
Proof. vm_compute. reflexivity. Qed.

(** ** Canonical form

    An IPv4 address is the same in four and in sixteen bytes. *)
Definition canon (ip : IP) : IP := match To4 ip with [] => ip | ip4 => ip4 end.

Lemma To4_length ip : length (To4 ip) = 4%nat ∨ To4 ip = [].
Proof.
  unfold To4. destruct (Nat.eqb_spec (length ip) 4); [by left|].
  destruct (Nat.eqb_spec (length ip) 16); [|by right]. cbn [andb].
  case_bool_decide; [left; rewrite length_drop; lia|by right].
Qed.

(** The two forms of an IPv4 address, or an address that is its own form. *)
Lemma canon_cases ip :
  (length ip = 4%nat ∧ canon ip = ip) ∨
  (∃ c, ip = v4InV6Prefix ++ c ∧ canon ip = c ∧ length c = 4%nat) ∨
  (length ip ≠ 4%nat ∧ canon ip = ip ∧ To4 ip = []).
Proof.
  unfold canon, To4. destruct (Nat.eqb_spec (length ip) 4) as [E|E].
  - left. split; [done|]. by destruct ip.
  - right. destruct (Nat.eqb_spec (length ip) 16) as [E'|E']; cbn [andb]; [|by right].
    case_bool_decide as Hp; [left|by right].
    assert (length (drop 12 ip) = 4%nat) as Hd by (rewrite length_drop; lia).
    exists (drop 12 ip). split; [|by destruct (drop 12 ip)]. rewrite <-Hp. symmetry. apply take_drop.
Qed.

(** An address that has no other form is neither four bytes nor a mapped one. *)
Lemma not_mapped ip : length ip ≠ 4%nat → To4 ip = [] →
  (length ip =? 4)%nat = false ∧
  ∀ x, length x = 4%nat → x ≠ ip ∧
    ((length ip =? 16)%nat && (bool_decide (take 12 ip = v4InV6Prefix)) = false).
Proof.
  intros H4 HT. split; [by apply Nat.eqb_neq|]. intros x Hx. split; [congruence|].
  unfold To4 in HT. rewrite (proj2 (Nat.eqb_neq _ _) H4) in HT.
  destruct (Nat.eqb_spec (length ip) 16) as [E|]; [|done]. cbn [andb] in *.
  case_bool_decide as Hp; [|done]. apply (f_equal length) in HT. rewrite length_drop, E in HT. done.
Qed.

Lemma IP_Equal_canon a b : IP_Equal a b = bool_decide (canon a = canon b).
Proof.
  apply eq_true_iff_eq. rewrite bool_decide_eq_true. unfold IP_Equal.
  destruct (canon_cases a) as [[Ha Ca]|[(a' & -> & Ca & Ha)|(Ha & Ca & Ta)]],
    (canon_cases b) as [[Hb Cb]|[(b' & -> & Cb & Hb)|(Hb & Cb & Tb)]];
    rewrite ?length_app, Ca, Cb, ?Ha, ?Hb.
  - cbn [Nat.eqb]. apply bool_decide_eq_true.
  - cbn [Nat.eqb andb length v4InV6Prefix app replicate Nat.add take drop].
    rewrite bool_decide_true by done. apply bool_decide_eq_true.
  - destruct (not_mapped b Hb Tb) as [H1 H2]. destruct (H2 a Ha) as [Hab Hm].
    rewrite Nat.eqb_sym, H1. change (4 =? 16)%nat with false. change (4 =? 4)%nat with true. cbn [andb].
    split; [|done]. destruct (_ =? 16)%nat; [|done]. cbn [andb] in *. by rewrite Hm.
  - cbn [Nat.eqb andb length v4InV6Prefix app replicate Nat.add take drop].
    rewrite bool_decide_true by done. apply bool_decide_eq_true.
  - rewrite Nat.eqb_refl, bool_decide_eq_true. split; [apply app_inv_head|by intros ->].
  - destruct (not_mapped b Hb Tb) as [H1 H2]. destruct (H2 _ Ha) as [Hab Hm].
    rewrite H1, andb_false_r. change (length v4InV6Prefix + 4 =? 4)%nat with false. cbn [andb].
    split; [|done]. case_match; [|done]. rewrite bool_decide_eq_true. intros <-. congruence.
  - destruct (not_mapped a Ha Ta) as [H1 H2]. destruct (H2 b Hb) as [Hab Hm].
    rewrite H1. change (4 =? 16)%nat with false. change (4 =? 4)%nat with true. cbn [andb]. rewrite andb_true_r.
    split; [|by intros ->]. destruct (_ =? 16)%nat; [|done]. cbn [andb] in *. by rewrite Hm.
  - destruct (not_mapped a Ha Ta) as [H1 H2]. destruct (H2 _ Hb) as [Hab Hm].
    rewrite H1. change (length v4InV6Prefix + 4 =? 4)%nat with false. rewrite andb_false_r. cbn [andb].
    split; [|by intros ->]. case_match; [|done]. rewrite bool_decide_eq_true. intros ->. congruence.
  - rewrite (proj2 (Nat.eqb_neq _ _) Ha), (proj2 (Nat.eqb_neq _ _) Hb), andb_false_r. cbn [andb].
    destruct (Nat.eqb_spec (length a) (length b)) as [E|E]; [apply bool_decide_eq_true|].
    split; [done|]. by intros ->.
Qed.

Lemma IPNet_Contains_canon n a b : canon a = canon b → IPNet_Contains n a = IPNet_Contains n b.
Proof. unfold IPNet_Contains, canon. destruct (networkNumberAndMask n). by intros ->. Qed.

(** ** A network as an interval *)
Lemma byte_and_ff x : byte_and x Byte.xff = x.
Proof.
  apply (inj Z_of_byte). unfold byte_and. rewrite Z_of_byte_of_Z. change (Z_of_byte Byte.xff) with (Z.ones 8).
  rewrite Z.land_ones by lia. pose proof (Z_of_byte_bound x). change (2 ^ 8) with 256.
  rewrite Z.mod_small by lia. apply wrapU_small. change (2 ^ 8) with 256. lia.
Qed.

Definition all_bytes : list byte := (λ z, byte_of_Z z) <$> seqZ 0 256.

Lemma elem_of_all_bytes x : x ∈ all_bytes.
Proof.
  unfold all_bytes. rewrite <-(byte_of_Z_of_byte x). pose proof (Z_of_byte_bound x).
  apply list_elem_of_fmap_2 with (f := λ z, byte_of_Z z). apply elem_of_seqZ. lia.
Qed.

(** The byte in which the mask ends keeps the upper [n] bits. *)
Lemma byte_and_mask x n : 0 <= n < 8 →
  Z_of_byte (byte_and x (byte_of_Z (Z.lnot (Z.shiftr 255 n)))) = Z_of_byte x / 2 ^ (8 - n) * 2 ^ (8 - n).
Proof.
  intros Hn.
  assert (forallb (λ n, forallb (λ x,
    Z_of_byte (byte_and x (byte_of_Z (Z.lnot (Z.shiftr 255 n)))) =? Z_of_byte x / 2 ^ (8 - n) * 2 ^ (8 - n))
    all_bytes) (seqZ 0 8) = true) as Hall by (vm_compute; reflexivity).
  rewrite forallb_forall in Hall. specialize (Hall n). rewrite <-list_elem_of_In, elem_of_seqZ in Hall.
  specialize (Hall ltac:(lia)). rewrite forallb_forall in Hall.
  apply Z.eqb_eq, Hall. rewrite <-list_elem_of_In. apply elem_of_all_bytes.
Qed.

Lemma byte_and_00 x y : zip_with byte_and x (mask_bytes (length x) 0) = zip_with byte_and y (mask_bytes (length x) 0) ∨ length x ≠ length y.
Proof.
  destruct (decide (length x = length y)) as [Hl|]; [left|by right].
  revert y Hl. induction x as [|a x IH]; intros [|b y] Hl; try done. cbn. f_equal; [|apply IH; by injection Hl].
  apply (inj Z_of_byte). rewrite !(byte_and_mask _ 0) by lia. change (2 ^ (8 - 0)) with 256.
  pose proof (Z_of_byte_bound a). pose proof (Z_of_byte_bound b). by rewrite !Z.div_small by lia.
Qed.

Lemma div_same_high x y a b m k : 0 <= a < m * k → 0 <= b < m * k → 0 < k → 0 < m →
  (x * (m * k) + a) / k = (y * (m * k) + b) / k ↔ x = y ∧ a / k = b / k.
Proof.
  intros Ha Hb Hk Hm. rewrite !Z.mul_assoc, !Z.div_add_l by lia.
  assert (0 <= a / k < m) by (split; [apply Z.div_pos; lia | apply Z.div_lt_upper_bound; lia]).
  assert (0 <= b / k < m) by (split; [apply Z.div_pos; lia | apply Z.div_lt_upper_bound; lia]).
  split; [|by intros [-> ->]]. intros E.
  assert (x = y) as ->; [|lia]. apply (f_equal (λ z, z / m)) in E.
  by rewrite !Z.div_add_l, !(Z.div_small (_ / _)), !Z.add_0_r in E by lia.
Qed.

(** Masked bytes agree when the numbers agree above the mask. *)
Lemma mask_spec a b n : length a = length b → 0 <= n <= 8 * len a →
  zip_with byte_and a (mask_bytes (length a) n) = zip_with byte_and b (mask_bytes (length a) n)
  ↔ be_Z a / 2 ^ (8 * len a - n) = be_Z b / 2 ^ (8 * len a - n).
Proof.
  revert b n. induction a as [|x a IH]; intros [|y b] n Hl Hn; try done.
  injection Hl as Hl. rewrite len_cons in *. pose proof (len_nonneg a) as H0.
  assert (len a = len b) as Hlen by (unfold len; by rewrite Hl).
  pose proof (be_Z_bound a) as Ba. pose proof (be_Z_bound b) as Bb. rewrite <-Hlen in Bb.
  rewrite !be_Z_cons, <-Hlen. cbn [length mask_bytes].
  change 256 with (2 ^ 8) in *. rewrite <-Z.pow_mul_r in * by lia.
  destruct (Z.leb_spec 8 n).
  - cbn [zip_with]. rewrite !byte_and_ff.
    replace (8 * (1 + len a) - n) with (8 * len a - (n - 8)) by lia.
    replace (8 * len a) with ((n - 8) + (8 * len a - (n - 8))) at 1 3 by lia. rewrite Z.pow_add_r by lia.
    rewrite div_same_high; try lia.
    + rewrite <-IH by (done || lia). split; [by intros [= -> E]|by intros [->%(inj Z_of_byte) ->]].
    + rewrite <-Z.pow_add_r by lia. by replace (n - 8 + (8 * len a - (n - 8))) with (8 * len a) by lia.
    + rewrite <-Z.pow_add_r by lia. by replace (n - 8 + (8 * len a - (n - 8))) with (8 * len a) by lia.
  - cbn [zip_with]. destruct (byte_and_00 a b) as [->|]; [|done].
    replace (8 * (1 + len a) - n) with (8 * len a + (8 - n)) by lia.
    rewrite Z.pow_add_r, <-!Z.div_div, !Z.div_add_l, (Z.div_small (be_Z a)), (Z.div_small (be_Z b)), !Z.add_0_r by lia.
    split.
    + intros [= E]. apply (f_equal Z_of_byte) in E. rewrite !byte_and_mask in E by lia. nia.
    + intros E. f_equal. apply (inj Z_of_byte). rewrite !byte_and_mask by lia. by rewrite E.
Qed.

(** Addresses of one length compare as numbers. *)
Lemma bytes_ltb_be_Z a b : length a = length b → bytes_ltb a b = (be_Z a <? be_Z b).
Proof.
  revert b. induction a as [|x a IH]; intros [|y b] Hl; try done. injection Hl as Hl. cbn [bytes_ltb].
  rewrite (IH b Hl), !be_Z_cons. assert (len a = len b) as -> by (unfold len; by rewrite Hl).
  pose proof (be_Z_bound a) as Ba. pose proof (be_Z_bound b) as Bb.
  assert (len a = len b) as E by (unfold len; by rewrite Hl). rewrite E in Ba.
  apply eq_true_iff_eq. rewrite orb_true_iff, andb_true_iff, !Z.ltb_lt, Z.eqb_eq. nia.
Qed.

(** A network whose address has [l] bytes and no bit below its mask. *)
Record aligned (l : nat) (n : IPNet) (ones : Z) : Prop := {
  al_length : l = 4%nat ∨ l = 16%nat;
  al_ip : length (net_IP n) = l;
  al_form : canon (net_IP n) = net_IP n;
  al_ones : 0 <= ones <= 8 * Z.of_nat l;
  al_mask : net_Mask n = mask_bytes l ones;
  al_zero : be_Z (net_IP n) mod 2 ^ (8 * Z.of_nat l - ones) = 0;
}.

Lemma length_mask_bytes l n : length (mask_bytes l n) = l.
Proof. revert n. induction l as [|l IH]; intros n; cbn [mask_bytes]; [done|]. case_if; cbn; by rewrite IH. Qed.

Lemma CIDRMask_mask l ones : l = 4%nat ∨ l = 16%nat → 0 <= ones <= 8 * Z.of_nat l →
  CIDRMask ones (8 * Z.of_nat l) = mask_bytes l ones.
Proof.
  intros Hl Ho. unfold CIDRMask. rewrite (proj2 (Z.ltb_ge ones 0) (proj1 Ho)).
  rewrite (proj2 (Z.ltb_ge (8 * Z.of_nat l) ones) (proj2 Ho)). by destruct Hl as [-> | ->].
Qed.

Lemma networkNumber_aligned l n ones : aligned l n ones → networkNumberAndMask n = (net_IP n, net_Mask n).
Proof.
  intros [Hl Hip Hc Ho Hm Hz]. unfold networkNumberAndMask, canon in *. rewrite Hm, length_mask_bytes.
    destruct (To4 (net_IP n)) as [|x t] eqn:HT.
    - destruct Hl as [-> | ->].
      + unfold To4 in HT. rewrite Hip in HT. cbn in HT. by rewrite HT in Hip.
      + rewrite Hip. cbn [Nat.eqb]. destruct (net_IP n) eqn:E; [done|]. rewrite <-E in *.
        rewrite Hip. cbn [Nat.eqb]. done.
    - rewrite Hc, Hip. destruct (To4_length (net_IP n)) as [H4|H4]; rewrite HT in H4; [|done].
      rewrite Hc, Hip in H4. by rewrite H4.
Qed.

Lemma Contains_length l n ones x : aligned l n ones → IPNet_Contains n x = true → length (canon x) = l.
Proof.
  intros Ha. unfold IPNet_Contains. rewrite (networkNumber_aligned _ _ _ Ha).
  intros [Hl%Nat.eqb_eq _]%andb_true_iff. fold (canon x) in Hl. rewrite Hl. apply Ha.
Qed.

Lemma Contains_interval l n ones ip : aligned l n ones → length ip = l → canon ip = ip →
  IPNet_Contains n ip = true ↔ be_Z (net_IP n) <= be_Z ip < be_Z (net_IP n) + 2 ^ (8 * Z.of_nat l - ones).
Proof.
  intros Ha Hlen Hcip. pose proof (networkNumber_aligned _ _ _ Ha) as Hn. destruct Ha as [Hl Hip Hc Ho Hm Hz].
  unfold IPNet_Contains. rewrite Hn. change (match To4 ip with [] => ip | i :: l0 => i :: l0 end) with (canon ip).
  rewrite Hcip, Hlen, Hip, Nat.eqb_refl. cbn [andb]. rewrite bool_decide_eq_true, Hm.
  rewrite <-Hip at 1 2. rewrite mask_spec by (unfold len; lia).
  unfold len. rewrite Hip. pose proof (Z.pow_pos_nonneg 2 (8 * Z.of_nat l - ones) ltac:(lia) ltac:(lia)) as Hp.
  set (k := 2 ^ _) in *. set (x := be_Z (net_IP n)) in *. set (y := be_Z ip) in *.
  pose proof (Z.div_mod x k ltac:(lia)). pose proof (Z.div_mod y k ltac:(lia)).
  pose proof (Z.mod_pos_bound y k ltac:(lia)). split; [nia|]. intros Hb.
  apply Z.div_unique with (r := y - x); [left|]; lia.
Qed.

(** ** The textual form determines the address *)
Fixpoint parse_hex (s : string) (n : Z) : Z :=
  match s with EmptyString => n | String c s => parse_hex s (n * 16 + default 0 (hex_digit c)) end.

(** What the digits of a group look like; a statement about 65536 numbers. *)
Lemma appendHex_spec x : 0 <= x < 65536 →
  parse_hex (appendHex x) 0 = x ∧ appendHex x ≠ EmptyString
  ∧ Strings.free_of ":" (appendHex x) ∧ Strings.free_of "|" (appendHex x) ∧ Strings.free_of "." (appendHex x).
Proof.
  assert (forallb (λ d, bool_decide (hex_digit (hex_char d) = Some d ∧ hex_char d ≠ ":"%char
                      ∧ hex_char d ≠ "|"%char ∧ hex_char d ≠ "."%char)) (seqZ 0 16) = true) as Hall
    by (vm_compute; reflexivity).
  assert (∀ i, 0 <= i → let d := Z.land (Z.shiftr x (4 * i)) 15 in
    d = (x / 16 ^ i) mod 16 ∧ hex_digit (hex_char d) = Some d ∧ hex_char d ≠ ":"%char
    ∧ hex_char d ≠ "|"%char ∧ hex_char d ≠ "."%char) as Hd.
  { intros i Hi d. assert (d = (x / 16 ^ i) mod 16) as Hd.
    { unfold d. change 15 with (Z.ones 4). rewrite Z.land_ones, Z.shiftr_div_pow2, Z.pow_mul_r by lia. done. }
    split; [done|]. rewrite forallb_forall in Hall. specialize (Hall d).
    rewrite <-list_elem_of_In, elem_of_seqZ, bool_decide_eq_true in Hall. apply Hall.
    rewrite Hd. pose proof (Z.mod_pos_bound (x / 16 ^ i) 16). lia. }
  intros Hx. unfold appendHex. cbv zeta.
  destruct (Hd 0 ltac:(lia)) as (E0 & P0 & A0 & B0 & C0), (Hd 1 ltac:(lia)) as (E1 & P1 & A1 & B1 & C1),
    (Hd 2 ltac:(lia)) as (E2 & P2 & A2 & B2 & C2), (Hd 3 ltac:(lia)) as (E3 & P3 & A3 & B3 & C3). clear Hd Hall.
  revert E0 E1 E2 E3. generalize dependent (Z.land (Z.shiftr x (4 * 0)) 15). generalize dependent (Z.land (Z.shiftr x (4 * 1)) 15).
  generalize dependent (Z.land (Z.shiftr x (4 * 2)) 15). generalize dependent (Z.land (Z.shiftr x (4 * 3)) 15).
  intros d3 P3 A3 B3 C3 d2 P2 A2 B2 C2 d1 P1 A1 B1 C1 d0 P0 A0 B0 C0 E0 E1 E2 E3.
  repeat case_if; cbn [parse_hex]; rewrite ?P0, ?P1, ?P2, ?P3; cbn [default from_option id];
    rewrite !Strings.free_of_cons; (split; [|split; [done|split_and!; try done; apply Strings.free_of_nil]]);
    change (16 ^ 0) with 1 in *; change (16 ^ 1) with 16 in *; change (16 ^ 2) with 256 in *; change (16 ^ 3) with 4096 in *;
    rewrite Z.div_1_r in E0; Z.to_euclidean_division_equations; lia.
Qed.

(** What the zero-run search yields: nothing, or a run of zeros. *)
Definition zero_run_ok (gs : list Z) (r : nat * nat) : Prop :=
  (length gs < r.1)%nat ∨
  (r.1 < r.2 <= length gs)%nat ∧ drop r.1 gs = replicate (r.2 - r.1) 0 ++ drop r.2 gs.

Lemma zeros_spec gs : gs = replicate (zeros gs) 0 ++ drop (zeros gs) gs.
Proof.
  induction gs as [|g gs IH]; [done|]. cbn [zeros]. destruct (Z.eqb_spec g 0) as [->|]; [|done].
  cbn [replicate app drop]. by rewrite <-IH.
Qed.

Lemma zeros_length gs : (zeros gs <= length gs)%nat.
Proof. induction gs as [|g gs IH]; cbn; [done|]. case_if; cbn; lia. Qed.

Lemma zero_run_spec gs pre best :
  zero_run_ok (pre ++ gs) best → zero_run_ok (pre ++ gs) (zero_run gs (length pre) best).
Proof.
  revert pre best. induction gs as [|g gs IH]; intros pre best Hb; [done|].
  cbn [zero_run]. specialize (IH (pre ++ [g])). rewrite length_app, <-app_assoc, Nat.add_1_r in IH. apply IH.
  cbn [app]. destruct (_ && _) eqn:E; [|done]. apply andb_true_iff in E as [E%Nat.leb_le _].
  pose proof (zeros_length (g :: gs)). right. cbn [fst snd]. split; [rewrite length_app; lia|].
  rewrite drop_app_length, drop_app_add. replace (length pre + zeros (g :: gs) - length pre)%nat with (zeros (g :: gs)) by lia.
  apply zeros_spec.
Qed.

(** The fields between colons. *)
Definition fields6 (gs : list Z) (s e : nat) : list string :=
  if (length gs <=? s)%nat then appendHex <$> gs
  else (if (s =? 0)%nat then [EmptyString] else appendHex <$> take s gs) ++ EmptyString ::
       (if (length gs <=? e)%nat then [EmptyString] else appendHex <$> drop e gs).

Definition nonempty (f : string) : bool := negb (bool_decide (f = EmptyString)).

Fixpoint leading (fs : list string) : list string :=
  match fs with f :: fs => if nonempty f then f :: leading fs else [] | [] => [] end.

Definition decode6 (fs : list string) : list Z :=
  let val := λ f, parse_hex f 0 in
  if forallb nonempty fs then val <$> fs else
  let a := val <$> leading fs in
  let b := val <$> reverse (leading (reverse fs)) in
  a ++ replicate (8 - length a - length b) 0 ++ b.

Definition groups_ok (gs : list Z) : Prop := Forall (λ g, 0 <= g < 65536) gs.

(** The part of the text after the run, or of a text without one. *)
Lemma append_plain fuel gs s e i w :
  groups_ok gs → length gs = 8%nat → (s < i)%nat ∨ (8 <= s)%nat → (0 < i <= 8)%nat → (8 - i <= fuel)%nat →
  Strings.free_of ":" w →
  Strings.Split (w ++ appendTo6 fuel gs s e i) ":" = w :: (appendHex <$> drop i gs).
Proof.
  intros Hg Hlen Hs. revert i w Hs. induction fuel as [|fuel IH]; intros i w Hs Hi Hf Hw; cbn [appendTo6].
  - rewrite drop_ge by lia. rewrite Strings.append_nil_r. by apply Strings.Split_free.
  - destruct (Nat.leb_spec 8 i).
    + rewrite drop_ge by lia. rewrite Strings.append_nil_r. by apply Strings.Split_free.
    + destruct (Nat.eqb_spec i s); [lia|]. rewrite (proj2 (Nat.ltb_lt _ _)) by lia.
      destruct (lookup_lt_is_Some_2 gs i ltac:(lia)) as [g Hgi].
      rewrite (list_lookup_total_correct _ _ _ Hgi), (drop_S _ _ _ Hgi).
      change (":" ++ ?x)%string with (String ":" x). rewrite Strings.Split_app by done. cbn [fmap list_fmap].
      replace (S i) with (i + 1)%nat by lia. f_equal. apply IH; try lia.
      unfold groups_ok in Hg. rewrite list.Forall_lookup in Hg. by apply appendHex_spec, (Hg i).
Qed.

Lemma append_after_run fuel gs s e :
  groups_ok gs → length gs = 8%nat → (s < e)%nat → (8 - e <= fuel)%nat →
  Strings.Split (if (8 <=? e)%nat then EmptyString
                 else appendHex (gs !!! e) ++ appendTo6 fuel gs s e (e + 1)) ":"
  = if (8 <=? e)%nat then [EmptyString] else appendHex <$> drop e gs.
Proof.
  intros Hg Hlen Hse Hf. destruct (Nat.leb_spec 8 e); [done|].
  destruct (lookup_lt_is_Some_2 gs e ltac:(lia)) as [g Hge].
  rewrite (list_lookup_total_correct _ _ _ Hge), (drop_S _ _ _ Hge). cbn [fmap list_fmap].
  replace (S e) with (e + 1)%nat by lia. apply append_plain; try lia; try done.
  unfold groups_ok in Hg. rewrite list.Forall_lookup in Hg. by apply appendHex_spec, (Hg e).
Qed.

Lemma append_run fuel gs s e i w :
  groups_ok gs → length gs = 8%nat → (0 < i <= s)%nat → (s < e <= 8)%nat → (8 - i <= fuel)%nat →
  Strings.free_of ":" w →
  Strings.Split (w ++ appendTo6 fuel gs s e i) ":" =
  w :: (appendHex <$> take (s - i) (drop i gs)) ++
       EmptyString :: (if (8 <=? e)%nat then [EmptyString] else appendHex <$> drop e gs).
Proof.
  intros Hg Hlen. revert i w. induction fuel as [|fuel IH]; intros i w Hi Hse Hf Hw; [lia|].
  cbn [appendTo6]. rewrite (proj2 (Nat.leb_gt _ _)) by lia. destruct (Nat.eqb_spec i s) as [->|Hne].
  - rewrite Nat.sub_diag. cbn [take fmap list_fmap app].
    change ("::" ++ ?x)%string with (String ":" (EmptyString ++ String ":" x)).
    rewrite Strings.Split_app by done. rewrite Strings.Split_app by apply Strings.free_of_nil.
    by rewrite append_after_run by (done || lia).
  - rewrite (proj2 (Nat.ltb_lt _ _)) by lia.
    destruct (lookup_lt_is_Some_2 gs i ltac:(lia)) as [g Hgi].
    rewrite (list_lookup_total_correct _ _ _ Hgi), (drop_S _ _ _ Hgi).
    replace (s - i)%nat with (S (s - (i + 1))) by lia. cbn [take fmap list_fmap app].
    change (":" ++ ?x)%string with (String ":" x). rewrite Strings.Split_app by done. f_equal.
    replace (S i) with (i + 1)%nat by lia. apply IH; try lia.
    unfold groups_ok in Hg. rewrite list.Forall_lookup in Hg. by apply appendHex_spec, (Hg i).
Qed.

Lemma Split_string6 gs s e :
  groups_ok gs → length gs = 8%nat → zero_run_ok gs (s, e) →
  Strings.Split (appendTo6 8 gs s e 0) ":" = fields6 gs s e.
Proof.
  intros Hg Hlen Hr. unfold fields6. rewrite Hlen.
  destruct (lookup_lt_is_Some_2 gs 0 ltac:(lia)) as [g Hg0].
  assert (Strings.free_of ":" (appendHex g)) as Hfree.
  { unfold groups_ok in Hg. rewrite list.Forall_lookup in Hg. by apply appendHex_spec, (Hg 0%nat). }
  assert (gs = g :: drop 1 gs) as Egs by (rewrite <-(drop_S _ _ _ Hg0); done).
  assert (gs !!! 0%nat = g) as Et by by apply list_lookup_total_correct.
  change (appendTo6 8 gs s e 0) with
    (if (0 =? s)%nat then
       "::" ++ (if (8 <=? e)%nat then EmptyString else appendHex (gs !!! e) ++ appendTo6 7 gs s e (e + 1))
     else appendHex (gs !!! 0%nat) ++ appendTo6 7 gs s e 1)%string.
  destruct Hr as [Hs|[Hse _]]; cbn [fst snd] in *.
  - rewrite (proj2 (Nat.leb_le 8 s)) by lia. destruct (Nat.eqb_spec 0 s); [lia|].
    rewrite Et, append_plain by (done || lia). by rewrite Egs at 2.
  - rewrite (proj2 (Nat.leb_gt 8 s)) by lia. destruct (Nat.eqb_spec 0 s) as [<-|Hs0].
    + change ("::" ++ ?x)%string with (EmptyString ++ String ":" (EmptyString ++ String ":" x))%string.
      rewrite !Strings.Split_app by apply Strings.free_of_nil. cbn [Nat.eqb app].
      by rewrite append_after_run by (done || lia).
    + rewrite Et, append_run by (done || lia). rewrite (proj2 (Nat.eqb_neq s 0)) by lia.
      rewrite Egs at 3. destruct s as [|s]; [done|]. cbn [take fmap list_fmap app].
      by replace (S s - 1)%nat with s by lia.
Qed.

Lemma decode_hex gs : groups_ok gs → (λ f, parse_hex f 0) <$> (appendHex <$> gs) = gs.
Proof.
  intros Hg. rewrite <-list_fmap_compose. rewrite <-(list_fmap_id gs) at 2. apply list_fmap_ext.
  intros i g Hi. unfold groups_ok in Hg. rewrite list.Forall_lookup in Hg. by apply appendHex_spec, (Hg i).
Qed.

Lemma leading_app fs rest : Forall (λ f, nonempty f = true) fs → leading (fs ++ EmptyString :: rest) = fs.
Proof. intros Hf. induction Hf as [|f fs Hn Hf IH]; [done|]. cbn [app leading]. by rewrite Hn, IH. Qed.

Lemma hex_nonempty gs : groups_ok gs →
  Forall (λ f, nonempty f = true) (appendHex <$> gs).
Proof.
  intros Hg. apply Forall_fmap. eapply Forall_impl; [exact Hg|]. intros g Hgb. cbn.
  apply negb_true_iff, bool_decide_eq_false. by apply appendHex_spec.
Qed.

Lemma decode6_fields6 gs s e : groups_ok gs → length gs = 8%nat → zero_run_ok gs (s, e) →
  decode6 (fields6 gs s e) = gs.
Proof.
  intros Hg Hlen Hr. unfold decode6, fields6. rewrite Hlen.
  destruct Hr as [Hs|[Hse Hz]]; cbn [fst snd] in *.
  - rewrite (proj2 (Nat.leb_le 8 s)) by lia. rewrite (proj2 (forallb_forall _ _)); [by apply decode_hex|].
    intros f Hf%list_elem_of_In. pose proof (hex_nonempty gs Hg) as Hn. rewrite list.Forall_forall in Hn. by apply Hn.
  - rewrite (proj2 (Nat.leb_gt 8 s)) by lia.
    assert (groups_ok (take s gs) ∧ groups_ok (drop e gs)) as [Hgs Hge]
      by (split; [by apply Forall_take|by apply Forall_drop]).
    set (pre := if (s =? 0)%nat then [EmptyString] else appendHex <$> take s gs).
    set (post := if (8 <=? e)%nat then [EmptyString] else appendHex <$> drop e gs).
    assert (forallb nonempty (pre ++ EmptyString :: post) = false) as ->.
    { apply not_true_is_false. rewrite forallb_app, andb_true_iff. by intros [_ ?]. }
    assert (leading (pre ++ EmptyString :: post) = appendHex <$> take s gs) as ->.
    { unfold pre. destruct (Nat.eqb_spec s 0) as [->|]; [done|]. apply leading_app. by apply hex_nonempty. }
    assert (reverse (leading (reverse (pre ++ EmptyString :: post))) = appendHex <$> drop e gs) as ->.
    { rewrite reverse_app, reverse_cons, <-app_assoc. cbn [app]. unfold post. destruct (Nat.leb_spec 8 e).
      - rewrite drop_ge by lia. done.
      - rewrite leading_app; [by rewrite reverse_involutive|].
        apply Forall_reverse. by apply hex_nonempty. }
    rewrite !decode_hex by done.
    replace (8 - length (take s gs) - length (drop e gs))%nat with (e - s)%nat
      by (rewrite length_take, length_drop; lia).
    rewrite <-Hz. apply take_drop.
Qed.

Lemma v6u16_spec ip : length ip = 16%nat → length (v6u16 ip) = 8%nat ∧ groups_ok (v6u16 ip)
  ∧ ∀ ip', length ip' = 16%nat → v6u16 ip = v6u16 ip' → ip = ip'.
Proof.
  intros H. assert (∀ n ip, length ip = (2 * n)%nat → length (v6u16 ip) = n ∧ groups_ok (v6u16 ip)
    ∧ ∀ ip', length ip' = (2 * n)%nat → v6u16 ip = v6u16 ip' → ip = ip') as Hn; [|by apply (Hn 8%nat)].
  clear. induction n as [|n IH]; intros ip Hl.
  { destruct ip; [|done]. split; [done|]. split; [apply List.Forall_nil|]. by intros [|]. }
  destruct ip as [|a [|b ip]]; [done|cbn in Hl; lia|]. destruct (IH ip) as (H1 & H2 & H3); [cbn in Hl; lia|].
  cbn [v6u16]. pose proof (Z_of_byte_bound a). pose proof (Z_of_byte_bound b).
  split; [cbn; by rewrite H1|]. split; [constructor; [lia|done]|].
  intros [|a' [|b' ip']] Hl' E; [done|cbn in Hl'; lia|]. cbn [v6u16] in E. injection E as E1 E2.
  pose proof (Z_of_byte_bound a'). pose proof (Z_of_byte_bound b').
  rewrite (H3 ip'); [|cbn in Hl'; lia|done]. f_equal; [|f_equal]; apply (inj Z_of_byte); lia.
Qed.

Lemma string6_run gs : length gs = 8%nat → ∃ s e, zero_run gs 0 (255, 255)%nat = (s, e) ∧ zero_run_ok gs (s, e).
Proof.
  intros Hl. pose proof (zero_run_spec gs [] (255, 255)%nat) as Hz. cbn [app length] in Hz.
  destruct (zero_run gs 0 (255, 255)%nat) as [s e]. exists s, e. split; [done|]. apply Hz. left. cbn. lia.
Qed.

Lemma string6_inj a b : length a = 16%nat → length b = 16%nat → string6 a = string6 b → a = b.
Proof.
  intros Ha Hb. unfold string6.
  destruct (v6u16_spec a Ha) as (La & Ga & Inj), (v6u16_spec b Hb) as (Lb & Gb & _).
  destruct (string6_run _ La) as (s & e & -> & Ra), (string6_run _ Lb) as (s' & e' & -> & Rb).
  intros E. apply (f_equal (λ t, decode6 (Strings.Split t ":"))) in E.
  rewrite !Split_string6, !decode6_fields6 in E by done. by apply Inj.
Qed.

Lemma appendTo6_free c fuel gs s e i :
  c ≠ ":"%char → (∀ i, Strings.free_of c (appendHex (gs !!! i))) → Strings.free_of c (appendTo6 fuel gs s e i).
Proof.
  intros Hc Hh. pose proof (Strings.free_of_nil c) as Hnil.
  assert (Strings.free_of c ":" ∧ Strings.free_of c "::") as [H1 H2]
    by (rewrite !Strings.free_of_cons; split_and!; congruence || done).
  revert i. induction fuel as [|fuel IH]; intros i; cbn [appendTo6]; [done|].
  destruct (8 <=? i)%nat; [done|]. destruct (i =? s)%nat; rewrite !Strings.free_of_app.
  - split; [done|]. destruct (8 <=? e)%nat; [done|]. by rewrite Strings.free_of_app.
  - destruct (0 <? i)%nat; auto.
Qed.

Lemma group_free gs i : groups_ok gs → Strings.free_of "|" (appendHex (gs !!! i)).
Proof.
  intros Hg. apply appendHex_spec. unfold groups_ok in Hg. rewrite list.Forall_lookup in Hg.
  rewrite list_lookup_total_alt. destruct (gs !! i) as [g|] eqn:E; cbn; [by apply (Hg i)|lia].
Qed.

Lemma string6_spec ip : length ip = 16%nat →
  ¬ Strings.free_of ":" (string6 ip) ∧ Strings.free_of "|" (string6 ip).
Proof.
  intros H. unfold string6. destruct (v6u16_spec ip H) as (Hl & Hg & _).
  destruct (string6_run _ Hl) as (s & e & -> & Hr). split; [|apply appendTo6_free; [done|intros; by apply group_free]].
  intros Hf%Strings.Split_free. rewrite Split_string6 in Hf by done.
  apply (f_equal length) in Hf. revert Hf. unfold fields6. rewrite Hl.
  destruct Hr as [Hs|[Hse _]]; cbn [fst snd] in *.
  - rewrite (proj2 (Nat.leb_le 8 s)), length_fmap, Hl by lia. done.
  - rewrite (proj2 (Nat.leb_gt 8 s)), length_app by lia. cbn [length].
    destruct (Nat.eqb_spec s 0); [cbn [length]; destruct (8 <=? e)%nat eqn:He; [done|];
      apply Nat.leb_gt in He; rewrite length_fmap, length_drop; lia|].
    rewrite length_fmap, length_take. lia.
Qed.

Lemma FormatUint_free c n : 0 <= n → is_digit c = false → Strings.free_of c (Strconv.FormatUint n).
Proof.
  intros Hn Hc Hin. pose proof (Strconv.FormatUint_loop_digits 20 n EmptyString Hn eq_refl) as Hd.
  unfold Strconv.all_digits in Hd. rewrite forallb_forall in Hd.
  apply list_elem_of_In, Hd in Hin. congruence.
Qed.

Lemma octets_free c ip : length ip = 4%nat → is_digit c = false → c ≠ "."%char → Strings.free_of c (string4 ip).
Proof.
  intros Hl Hc Hdot. destruct ip as [|a [|b [|x [|d [|]]]]]; try done. unfold string4.
  assert (∀ z : byte, Strings.free_of c (Strconv.FormatUint (Z_of_byte z))) as Hf
    by (intros z; apply FormatUint_free; [apply Z_of_byte_bound|done]).
  rewrite !Strings.free_of_app. split_and!; try apply Hf;
    (rewrite Strings.free_of_cons; split; [congruence|apply Strings.free_of_nil]).
Qed.

Lemma string4_inj a b : length a = 4%nat → length b = 4%nat → string4 a = string4 b → a = b.
Proof.
  intros Ha Hb E.
  assert (∀ ip, length ip = 4%nat → Strings.Split (string4 ip) "." = Strconv.FormatUint ∘ Z_of_byte <$> ip) as Hs.
  { intros ip Hl. destruct ip as [|x [|y [|z [|w [|]]]]]; try done. unfold string4.
    assert (∀ z : byte, Strings.free_of "." (Strconv.FormatUint (Z_of_byte z))) as Hf
      by (intros k; apply FormatUint_free; [apply Z_of_byte_bound|done]).
    do 3 change ("." ++ ?x)%string with (String "." x). rewrite !Strings.Split_app by apply Hf.
    by rewrite Strings.Split_free by apply Hf. }
  apply (f_equal (λ s, Strings.Split s ".")) in E. rewrite !Hs in E by done.
  apply (list_fmap_eq_inj (Strconv.FormatUint ∘ Z_of_byte)); [|done].
  intros x y E'. unfold compose in E'. apply (f_equal (λ s, Strconv.ParseUint s 64)) in E'.
  pose proof (Z_of_byte_bound x). pose proof (Z_of_byte_bound y).
  rewrite !Strconv.ParseUint_FormatUint in E' by (unfold MaxUint64; lia).
  injection E' as E'. by apply (inj Z_of_byte).
Qed.

(** The nil slice, four bytes or sixteen. *)
Definition valid_ip (ip : IP) : Prop := length ip = 0%nat ∨ length ip = 4%nat ∨ length ip = 16%nat.

Lemma IP_String_cases ip : valid_ip ip →
  (ip = [] ∧ IP_String ip = "<nil>"%string) ∨
  (length (canon ip) = 4%nat ∧ IP_String ip = string4 (canon ip)) ∨
  (length ip = 16%nat ∧ canon ip = ip ∧ IP_String ip = string6 ip).
Proof.
  intros Hv. destruct (canon_cases ip) as [[H1 H2]|[(c & -> & Hc & H1)|(H1 & H2 & H3)]].
  - right; left. rewrite H2. split; [done|]. destruct ip as [|x ip]; [done|]. unfold IP_String, To4. by rewrite H1.
  - right; left. rewrite Hc. split; [done|]. unfold canon in Hc. unfold IP_String.
    destruct (v4InV6Prefix ++ c) as [|x l] eqn:E; [done|]. rewrite <-E in *.
    rewrite length_app, H1. cbn [length v4InV6Prefix replicate app Nat.add Nat.eqb negb andb].
    destruct (To4 _) eqn:HT; [|by rewrite <-Hc].
    apply (f_equal length) in Hc. rewrite length_app, H1 in Hc. done.
  - destruct Hv as [Hv|[Hv|Hv]]; [|done|].
    + left. by destruct ip.
    + right; right. split; [done|]. split; [done|]. unfold IP_String.
      destruct ip as [|x l] eqn:E; [done|]. rewrite <-E in *. by rewrite Hv, H3.
Qed.

(** Two addresses with the same text are the same address. *)
Lemma IP_String_inj a b : valid_ip a → valid_ip b → IP_String a = IP_String b → canon a = canon b.
Proof.
  intros Ha Hb E.
  destruct (IP_String_cases a Ha) as [[-> Ea]|[[La Ea]|(La & Ca & Ea)]],
    (IP_String_cases b Hb) as [[-> Eb]|[[Lb Eb]|(Lb & Cb & Eb)]]; rewrite ?Ea, ?Eb in E; try done.
  - pose proof (octets_free "<" (canon b) Lb eq_refl ltac:(done)) as Hf. rewrite <-E in Hf.
    by apply Strings.free_of_cons in Hf as [? _].
  - destruct (string6_spec b Lb) as [Hc _]. rewrite <-E in Hc. exfalso. apply Hc.
    rewrite !Strings.free_of_cons. split_and!; try done. apply Strings.free_of_nil.
  - pose proof (octets_free "<" (canon a) La eq_refl ltac:(done)) as Hf. rewrite E in Hf.
    by apply Strings.free_of_cons in Hf as [? _].
  - by apply string4_inj.
  - destruct (string6_spec b Lb) as [Hc _]. rewrite <-E in Hc. exfalso. apply Hc. by apply octets_free.
  - destruct (string6_spec a La) as [Hc _]. rewrite E in Hc. exfalso. apply Hc.
    rewrite !Strings.free_of_cons. split_and!; try done. apply Strings.free_of_nil.
  - destruct (string6_spec a La) as [Hc _]. rewrite E in Hc. exfalso. apply Hc. by apply octets_free.
  - rewrite Ca, Cb. by apply string6_inj.
Qed.

Lemma IP_String_free ip : valid_ip ip → Strings.free_of "|" (IP_String ip).
Proof.
  intros Hv. destruct (IP_String_cases ip Hv) as [[-> ->]|[[L ->]|(L & _ & ->)]].
  - rewrite !Strings.free_of_cons. split_and!; try done. apply Strings.free_of_nil.
  - by apply octets_free.
  - by apply string6_spec.
Qed.
