(* ===== verification/Utf8.v ===== *)
(** * Text: what the program uses of strings and unicode/utf8

    Runes, trimming and lower case.  Strings are bytes, as in Go.  The case
    tables of Unicode are an interface: [strings.ToLower] is defined here on
    strings of ASCII bytes, and is the interface's on others. *)
From S2P Require Import GoStd Prelude.

Definition codes (s : string) : list Z := code <$> list_ascii_of_string s.

(** [\[\]rune(s)]: bytes that are not a valid encoding count as U+FFFD, one by one. *)
Definition cont (b : Z) : bool := (0x80 <=? b) && (b <=? 0xbf).

Definition RuneError : Z := 0xfffd.

Definition valid2 (b0 b1 : Z) : bool := (0xc2 <=? b0) && (b0 <=? 0xdf) && cont b1.

Definition valid3 (b0 b1 b2 : Z) : bool :=
  (0xe0 <=? b0) && (b0 <=? 0xef) && cont b1 && cont b2 &&
  (if b0 =? 0xe0 then 0xa0 <=? b1 else if b0 =? 0xed then b1 <=? 0x9f else true).

Definition valid4 (b0 b1 b2 b3 : Z) : bool :=
  (0xf0 <=? b0) && (b0 <=? 0xf4) && cont b1 && cont b2 && cont b3 &&
  (if b0 =? 0xf0 then 0x90 <=? b1 else if b0 =? 0xf4 then b1 <=? 0x8f else true).

Fixpoint decode_runes (bs : list Z) : list Z :=
  match bs with
  | [] => []
  | b0 :: r0 =>
      if b0 <? 0x80 then b0 :: decode_runes r0 else
      match r0 with
      | [] => [RuneError]
      | b1 :: r1 =>
          if valid2 b0 b1 then Z.land b0 31 * 64 + Z.land b1 63 :: decode_runes r1 else
          match r1 with
          | [] => RuneError :: decode_runes r0
          | b2 :: r2 =>
              if valid3 b0 b1 b2
              then Z.land b0 15 * 4096 + Z.land b1 63 * 64 + Z.land b2 63 :: decode_runes r2 else
              match r2 with
              | [] => RuneError :: decode_runes r0
              | b3 :: r3 =>
                  if valid4 b0 b1 b2 b3
                  then Z.land b0 7 * 262144 + Z.land b1 63 * 4096 + Z.land b2 63 * 64 + Z.land b3 63
                       :: decode_runes r3
                  else RuneError :: decode_runes r0
              end
          end
      end
  end.

Definition runes (s : string) : list Z := decode_runes (codes s).

(** The bytes of the white space at the start of a text, [unicode.IsSpace]; none
    if it does not start with white space. *)
Definition ascii_space (b : Z) : bool := (b =? 32) || ((9 <=? b) && (b <=? 13)).

Definition space2 (b0 b1 : Z) : bool := (b0 =? 0xc2) && ((b1 =? 0x85) || (b1 =? 0xa0)).

Definition space3 (b0 b1 b2 : Z) : bool :=
  ((b0 =? 0xe1) && (b1 =? 0x9a) && (b2 =? 0x80)) ||
  ((b0 =? 0xe2) && (b1 =? 0x80) &&
     (((0x80 <=? b2) && (b2 <=? 0x8a)) || (b2 =? 0xa8) || (b2 =? 0xa9) || (b2 =? 0xaf))) ||
  ((b0 =? 0xe2) && (b1 =? 0x81) && (b2 =? 0x9f)) ||
  ((b0 =? 0xe3) && (b1 =? 0x80) && (b2 =? 0x80)).

Fixpoint trim_front (s : list ascii) : list ascii :=
  match s with
  | [] => []
  | c0 :: r0 =>
      if ascii_space (code c0) then trim_front r0 else
      match r0 with
      | [] => s
      | c1 :: r1 =>
          if space2 (code c0) (code c1) then trim_front r1 else
          match r1 with
          | [] => s
          | c2 :: r2 => if space3 (code c0) (code c1) (code c2) then trim_front r2 else s
          end
      end
  end.

(** The same from the end, on the reversed text. *)
Fixpoint trim_back (s : list ascii) : list ascii :=
  match s with
  | [] => []
  | c0 :: r0 =>
      if ascii_space (code c0) then trim_back r0 else
      match r0 with
      | [] => s
      | c1 :: r1 =>
          if space2 (code c1) (code c0) then trim_back r1 else
          match r1 with
          | [] => s
          | c2 :: r2 => if space3 (code c2) (code c1) (code c0) then trim_back r2 else s
          end
      end
  end.

Definition TrimSpace (s : string) : string :=
  string_of_list_ascii (reverse (trim_back (reverse (trim_front (list_ascii_of_string s))))).

(** [strings.TrimRight(s, string(c))] for an ASCII character. *)
Fixpoint drop_char (c : ascii) (s : list ascii) : list ascii :=
  match s with d :: r => if decide (d = c) then drop_char c r else s | [] => [] end.

Definition TrimRight (s : string) (c : ascii) : string :=
  string_of_list_ascii (reverse (drop_char c (reverse (list_ascii_of_string s)))).

Definition lower (c : ascii) : ascii :=
  if (65 <=? code c) && (code c <=? 90) then ascii_of_N (Z.to_N (code c + 32)) else c.

Class UnicodeTables := { wide_lower : string → string }.

Definition ToLower `{UnicodeTables} (s : string) : string :=
  if forallb (λ c, code c <? 0x80) (list_ascii_of_string s)
  then string_of_list_ascii (lower <$> list_ascii_of_string s)
  else wide_lower s.

Example runes_ascii : runes "a*b" = [97; 42; 98].
Proof. reflexivity. Qed.
Example runes_wide : decode_runes [0xe4; 0xbe; 0x8b; 0xff; 0xf0; 0x9f; 0x98; 0x80] = [0x4f8b; RuneError; 0x1f600].
Proof. vm_compute. reflexivity. Qed.
Example runes_surrogate : decode_runes [0xed; 0xa0; 0x80] = [RuneError; RuneError; RuneError].
Proof. vm_compute. reflexivity. Qed.
Example TrimSpace_sample : TrimSpace "  a b  " = "a b"%string.
Proof. vm_compute. reflexivity. Qed.
Example TrimRight_sample : TrimRight "example.com.." "." = "example.com"%string.
Proof. vm_compute. reflexivity. Qed.

(** A property of characters holds when it computes to true on all of them. *)
Definition all_ascii : list ascii := ascii_of_nat <$> seq 0 256.

Lemma every_char (P : ascii → bool) : forallb P all_ascii = true → ∀ c, P c = true.
Proof.
  rewrite forallb_forall. intros HP c. apply HP. apply list_elem_of_In, list_elem_of_fmap. exists (nat_of_ascii c).
  split; [by rewrite ascii_nat_embedding|]. apply elem_of_seq. pose proof (nat_ascii_bounded c). lia.
Qed.

(** ** Text that trimming and lower case leave alone *)
Definition visible (c : ascii) : Prop := 33 <= code c < 127.

Definition plain (c : ascii) : Prop := 33 <= code c < 127 ∧ ¬ (65 <= code c <= 90).

#[export] Instance plain_dec c : Decision (plain c).
Proof. unfold plain. apply _. Defined.

Definition plain_text (s : string) : Prop := Forall plain (list_ascii_of_string s).

#[export] Instance plain_text_dec s : Decision (plain_text s).
Proof. unfold plain_text. apply _. Defined.

Lemma ToLower_plain `{UnicodeTables} s : plain_text s → ToLower s = s.
Proof.
  intros Hs. unfold ToLower.
  assert (forallb (λ c, code c <? 0x80) (list_ascii_of_string s) = true) as ->.
  { apply forallb_forall. intros c Hc%list_elem_of_In. unfold plain_text in Hs.
    rewrite list.Forall_forall in Hs. destruct (Hs c Hc). lia. }
  assert (lower <$> list_ascii_of_string s = list_ascii_of_string s) as ->.
  { unfold plain_text in Hs. induction Hs as [|c l Hc Hl IH]; [done|]. cbn [fmap list_fmap]. f_equal; [|done].
    unfold lower, plain in *. case_if; [|done]. exfalso. destruct (Z.leb_spec 65 (code c)), (Z.leb_spec (code c) 90); cbn in *; lia. }
  apply string_of_list_ascii_of_string.
Qed.

Lemma trim_visible l : Forall visible l → trim_front l = l ∧ trim_back l = l.
Proof.
  intros Hl. destruct Hl as [|c l Hc Hl]; [done|].
  assert (∀ c, visible c → ascii_space (code c) = false ∧ ∀ b, space2 (code c) b = false
    ∧ space2 b (code c) = false ∧ ∀ b', space3 (code c) b b' = false ∧ space3 b b' (code c) = false) as Hn.
  { intros d Hd. unfold visible in Hd. unfold ascii_space, space2, space3.
    split; [apply orb_false_iff; split; [apply Z.eqb_neq; lia|apply andb_false_iff; right; apply Z.leb_gt; lia]|].
    intros b. split; [by rewrite (proj2 (Z.eqb_neq _ _)) by lia|].
    split; [rewrite !(proj2 (Z.eqb_neq (code d) _)) by lia; by rewrite andb_false_r|].
    intros b'. split; [by rewrite !(proj2 (Z.eqb_neq (code d) _)) by lia|].
    rewrite !(proj2 (Z.eqb_neq (code d) _)) by lia. rewrite !(proj2 (Z.leb_gt _ (code d))) by lia.
    by rewrite !andb_false_r. }
  destruct (Hn c Hc) as [H1 H2]. cbn [trim_front trim_back]. rewrite H1.
  destruct Hl as [|c1 l Hc1 Hl]; [done|]. destruct (H2 (code c1)) as (Ha & Hb & H3). rewrite Ha, Hb.
  destruct Hl as [|c2 l Hc2 Hl]; [done|]. destruct (H3 (code c2)) as [Hx _]. rewrite Hx.
  destruct (Hn c Hc) as [_ H4]. destruct (H4 (code c2)) as (_ & _ & H5). destruct (H5 (code c1)) as [_ Hy].
  split; [done|].
  destruct (Hn c Hc) as [_ H6]. destruct (H6 (code c2)) as (_ & _ & H7). by rewrite (proj2 (H7 (code c1))).
Qed.

Lemma TrimSpace_visible s : Forall visible (list_ascii_of_string s) → TrimSpace s = s.
Proof.
  intros Hs. unfold TrimSpace. rewrite (proj1 (trim_visible _ Hs)).
  rewrite (proj2 (trim_visible (reverse (list_ascii_of_string s)) (proj2 (Forall_reverse _ _) Hs))).
  rewrite reverse_involutive. apply string_of_list_ascii_of_string.
Qed.

Lemma TrimSpace_plain s : plain_text s → TrimSpace s = s.
Proof. intros Hs. apply TrimSpace_visible. eapply list.Forall_impl; [exact Hs|]. by intros c [Hc _]. Qed.

Lemma plain_text_app s t : plain_text s → plain_text t → plain_text (s ++ t).
Proof. unfold plain_text. rewrite Strings.chars_app. intros. by apply Forall_app. Qed.

Lemma FormatUint_plain n : 0 <= n → plain_text (Strconv.FormatUint n).
Proof.
  intros Hn. pose proof (Strconv.FormatUint_loop_digits 20 n EmptyString Hn eq_refl) as Hd.
  unfold Strconv.all_digits in Hd. rewrite forallb_forall in Hd. apply list.Forall_forall. intros c Hc.
  apply list_elem_of_In, Hd in Hc. unfold is_digit in Hc. apply andb_true_iff in Hc as [?%Z.leb_le ?%Z.leb_le].
  unfold plain. lia.
Qed.
