(* ===== verification/AclMatchers.v ===== *)
(** * Host matchers of the access control list
    (extras/outbounds/acl/matchers.go, matchers_v2geo.go)

    A matcher looks at a host: its name, its IPv4 and its IPv6 address.  The
    IDNA conversion and regular expressions are interfaces; the order that
    [sort.Slice] gives equal elements is left open. *)
From S2P Require Import GoStd Utf8 IP Prelude.

Record HostInfo := mkHostInfo { Name : string; IPv4 : IP; IPv6 : IP }.

(** [idna.ToUnicode]: the converted name and whether there was an error. *)
Class Idna := { ToUnicode : string → string * bool }.

(** [regexp.Compile]: the predicate [MatchString], or an error. *)
Class Regexp := { regexp_Compile : string → option (string → bool) }.

(** ** Addresses and domains (matchers.go) *)
Inductive domainMode : Type := domainMatchExact | domainMatchWildcard | domainMatchSuffix.

Definition star : Z := 42.

(** The recursion on a star tries to end it first, then to extend it. *)
Fixpoint deepMatchRune (pattern str : list Z) : bool :=
  match pattern with
  | [] => match str with [] => true | _ => false end
  | p :: pattern' =>
      if p =? star then
        (fix extend (str : list Z) : bool :=
           deepMatchRune pattern' str || match str with [] => false | _ :: str => extend str end) str
      else match str with
           | c :: str => (c =? p) && deepMatchRune pattern' str
           | [] => false
           end
  end.

Definition ipMatcher_Match (ip : IP) (host : HostInfo) : bool :=
  IP_Equal ip (IPv4 host) || IP_Equal ip (IPv6 host).

Definition cidrMatcher_Match (n : IPNet) (host : HostInfo) : bool :=
  IPNet_Contains n (IPv4 host) || IPNet_Contains n (IPv6 host).

Definition domainMatcher_Match `{Idna} (Pattern : string) (Mode : domainMode) (host : HostInfo) : bool :=
  let name := let '(name, err) := ToUnicode (Name host) in if (err : bool) then Name host else name in
  match Mode with
  | domainMatchExact => bool_decide (name = Pattern)
  | domainMatchWildcard => deepMatchRune (runes Pattern) (runes name)
  | domainMatchSuffix => bool_decide (name = Pattern) || Strings.HasSuffix name ("." ++ Pattern)
  end.

(** ** GeoIP (matchers_v2geo.go) *)
Record CIDR := mkCIDR { cidr_Ip : IP; cidr_Prefix : Z (* uint32 *) }.
Record GeoIP := mkGeoIP { Cidr : list CIDR; InverseMatch : bool }.

Record geoipMatcher := mkGeoipMatcher { N4 : list IPNet; N6 : list IPNet; Inverse : bool }.

(** [sort.Slice] on the networks: some permutation in order. *)
Class SortNets := {
  sort_nets : list IPNet → list IPNet;
  sort_nets_perm l : sort_nets l ≡ₚ l;
  sort_nets_sorted l : StronglySorted (λ a b, bytes_ltb (net_IP b) (net_IP a) = false) (sort_nets l);
}.

(** The binary search, with fuel for one turn per network and one more. *)
Fixpoint search_nets (fuel : nat) (n : list IPNet) (ip : IP) (left right : Z) : option bool :=
  match fuel with
  | O => None
  | S fuel =>
      if left <=? right then
        let mid := quot (left + right) 2 in
        m ← n !! Z.to_nat mid;
        if IPNet_Contains m ip then Some true
        else if bytes_ltb (net_IP m) ip then search_nets fuel n ip (mid + 1) right
        else search_nets fuel n ip left (mid - 1)
      else Some false
  end.

Definition matchIP (m : geoipMatcher) (ip : IP) : bool :=
  let '(ip, n) := match To4 ip with [] => (ip, N6 m) | ip4 => (ip4, N4 m) end in
  default false (search_nets (S (length n)) n ip 0 (len n - 1)).

Definition geoipMatcher_Match (m : geoipMatcher) (host : HostInfo) : bool :=
  if negb (bool_decide (IPv4 host = [])) && matchIP m (IPv4 host) then negb (Inverse m) else
  if negb (bool_decide (IPv6 host = [])) && matchIP m (IPv6 host) then negb (Inverse m) else
  Inverse m.

(** The networks of a list, IPv4 and IPv6 apart, unless one has neither length. *)
Fixpoint split_cidrs (l : list CIDR) : option (list IPNet * list IPNet) :=
  match l with
  | [] => Some ([], [])
  | c :: l =>
      if (length (cidr_Ip c) =? 4)%nat then
        '(n4, n6) ← split_cidrs l; Some (mkIPNet (cidr_Ip c) (CIDRMask (cidr_Prefix c) 32) :: n4, n6)
      else if (length (cidr_Ip c) =? 16)%nat then
        '(n4, n6) ← split_cidrs l; Some (n4, mkIPNet (cidr_Ip c) (CIDRMask (cidr_Prefix c) 128) :: n6)
      else None
  end.

Definition newGeoIPMatcher `{SortNets} (geoip : GeoIP) : option geoipMatcher :=
  '(n4, n6) ← split_cidrs (Cidr geoip);
  Some (mkGeoipMatcher (sort_nets n4) (sort_nets n6) (InverseMatch geoip)).

(** ** GeoSite (matchers_v2geo.go) *)
(** The domain types of the database; [Domain_Other] is any other number. *)
Inductive Domain_Type : Type := Domain_Plain | Domain_Regex | Domain_RootDomain | Domain_Full | Domain_Other.

Record Domain := mkDomain { Type_ : Domain_Type; Value : string; Attribute : list string (* the keys *) }.
Definition GeoSite : Type := list Domain.

Inductive geositeDomain_kind : Type :=
| geositeDomainPlain | geositeDomainRegex (Regex : string → bool) | geositeDomainRoot | geositeDomainFull.

Record geositeDomain := mkGeositeDomain {
  gd_Type : geositeDomain_kind;
  gd_Value : string;
  gd_Attrs : gset string;   (* a map to true *)
}.

Record geositeMatcher := mkGeositeMatcher { Domains : list geositeDomain; Attrs : list string }.

Definition matchDomain (m : geositeMatcher) (domain : geositeDomain) (host : HostInfo) : bool :=
  if (0 <? len (Attrs m)) &&
     (bool_decide (gd_Attrs domain = ∅) || negb (forallb (λ attr, bool_decide (attr ∈ gd_Attrs domain)) (Attrs m)))
  then false else
  match gd_Type domain with
  | geositeDomainPlain => Strings.Contains (Name host) (gd_Value domain)
  | geositeDomainRegex Regex => Regex (Name host)
  | geositeDomainFull => bool_decide (Name host = gd_Value domain)
  | geositeDomainRoot =>
      bool_decide (Name host = gd_Value domain) || Strings.HasSuffix (Name host) ("." ++ gd_Value domain)
  end.

Definition geositeMatcher_Match (m : geositeMatcher) (host : HostInfo) : bool :=
  existsb (λ domain, matchDomain m domain host) (Domains m).

Definition domainAttributeToMap (attrs : list string) : gset string := list_to_set attrs.

Definition convert_domain `{Regexp} (domain : Domain) : option geositeDomain :=
  let attrs := domainAttributeToMap (Attribute domain) in
  match Type_ domain with
  | Domain_Plain => Some (mkGeositeDomain geositeDomainPlain (Value domain) attrs)
  | Domain_Regex =>
      (* the value is not kept: the regular expression is *)
      regex ← regexp_Compile (Value domain); Some (mkGeositeDomain (geositeDomainRegex regex) EmptyString attrs)
  | Domain_Full => Some (mkGeositeDomain geositeDomainFull (Value domain) attrs)
  | Domain_RootDomain => Some (mkGeositeDomain geositeDomainRoot (Value domain) attrs)
  | Domain_Other => None
  end.

Definition newGeositeMatcher `{Regexp} (site : GeoSite) (attrs : list string) : option geositeMatcher :=
  domains ← mapM convert_domain site;
  Some (mkGeositeMatcher domains attrs).

(** ** The interface [hostMatcher] *)
Inductive hostMatcher : Type :=
| allMatcher
| ipMatcher (ip : IP)
| cidrMatcher (n : IPNet)
| domainMatcher (Pattern : string) (Mode : domainMode)
| geoipMatcher_ (m : geoipMatcher)
| geositeMatcher_ (m : geositeMatcher).

Definition HostMatcher_Match `{Idna} (hm : hostMatcher) (host : HostInfo) : bool :=
  match hm with
  | allMatcher => true
  | ipMatcher ip => ipMatcher_Match ip host
  | cidrMatcher n => cidrMatcher_Match n host
  | domainMatcher Pattern Mode => domainMatcher_Match Pattern Mode host
  | geoipMatcher_ m => geoipMatcher_Match m host
  | geositeMatcher_ m => geositeMatcher_Match m host
  end.

(** ** Lemmas: wildcards *)

(** A pattern filled in: each star stands for the next of [subs]. *)
Fixpoint fill (pattern : list Z) (subs : list (list Z)) : option (list Z) :=
  match pattern with
  | [] => match subs with [] => Some [] | _ => None end
  | p :: pattern =>
      if p =? star then
        match subs with s :: subs => app s <$> fill pattern subs | [] => None end
      else cons p <$> fill pattern subs
  end.

Lemma deepMatchRune_star ps str :
  deepMatchRune (star :: ps) str = true ↔ ∃ s t, str = s ++ t ∧ deepMatchRune ps t = true.
Proof.
  cbn [deepMatchRune]. change (star =? star) with true. cbn iota. induction str as [|c str IH].
  - rewrite orb_true_iff. split; [intros [?|]; [by exists [], []|done]|].
    intros ([|] & [|] & ? & ?); try done. by left.
  - rewrite orb_true_iff. rewrite IH. split.
    + intros [Hd|(s & t & -> & Ht)]; [by exists [], (c :: str)|by exists (c :: s), t].
    + intros ([|x s] & t & E & Ht); cbn in E; [subst; by left|]. injection E as <- ->. right. eauto.
Qed.

(** ** Lemmas: addresses matter up to their two forms *)
Definition host_equiv (a b : HostInfo) : Prop :=
  Name a = Name b ∧ canon (IPv4 a) = canon (IPv4 b) ∧ canon (IPv6 a) = canon (IPv6 b).

#[export] Instance host_equiv_equivalence : Equivalence host_equiv.
Proof.
  split.
  - by intros a.
  - intros a b (? & ? & ?). by split_and!.
  - intros a b c (E1 & E2 & E3) (F1 & F2 & F3). split; [by rewrite E1|]. split; [by rewrite E2|by rewrite E3].
Qed.

Lemma canon_nil ip : canon ip = [] ↔ ip = [].
Proof.
  destruct (canon_cases ip) as [[H ->]|[(c & -> & -> & H)|(_ & -> & _)]]; [done| |done].
  split; [by intros ->|]. intros E. by apply app_nil in E as [? _].
Qed.

Lemma matchIP_canon m a b : canon a = canon b → matchIP m a = matchIP m b.
Proof.
  intros E. unfold matchIP.
  assert (∀ x, (match To4 x with [] => (x, N6 m) | i :: l => (i :: l, N4 m) end)
    = (canon x, match To4 (canon x) with [] => N6 m | _ => N4 m end)) as Hc.
  { intros x. destruct (canon_cases x) as [[H ->]|[(c & -> & Hx & H)|(H & Hx & HT)]].
    - destruct (To4 x) as [|i l] eqn:HT; [done|]. f_equal. unfold To4 in HT. rewrite H in HT. done.
    - rewrite Hx. unfold canon in Hx. destruct (To4 (v4InV6Prefix ++ c)) as [|i l] eqn:HT.
      + apply (f_equal length) in Hx. rewrite length_app, H in Hx. done.
      + unfold To4 at 1. rewrite H. cbn [Nat.eqb]. by rewrite <-Hx.
    - by rewrite Hx, HT. }
  rewrite (Hc a), (Hc b), E. done.
Qed.

#[export] Instance HostMatcher_proper `{Idna} hm : Proper (host_equiv ==> (=)) (HostMatcher_Match hm).
Proof.
  intros a b (Hn & H4 & H6). destruct hm; cbn [HostMatcher_Match]; try done.
  - unfold ipMatcher_Match. rewrite !IP_Equal_canon, H4, H6. reflexivity.
  - unfold cidrMatcher_Match. rewrite (IPNet_Contains_canon n _ _ H4), (IPNet_Contains_canon n _ _ H6). reflexivity.
  - unfold domainMatcher_Match. rewrite Hn. reflexivity.
  - unfold geoipMatcher_Match. rewrite (matchIP_canon m _ _ H4), (matchIP_canon m _ _ H6).
    assert (∀ x y, canon x = canon y → bool_decide (x = []) = bool_decide (y = [])) as Hb.
    { intros x y E. apply bool_decide_ext. by rewrite <-(canon_nil x), <-(canon_nil y), E. }
    rewrite (Hb _ _ H4), (Hb _ _ H6). reflexivity.
  - assert (∀ d, matchDomain m d a = matchDomain m d b) as Hd by (intros d; unfold matchDomain; by rewrite Hn).
    unfold geositeMatcher_Match. induction (Domains m) as [|d l IH]; [done|]. cbn [existsb]. by rewrite Hd, IH.
Qed.

(** ** Lemmas: the binary search *)
Section Search.
Context (l : nat) (n : list IPNet) (ip : IP).
Hypothesis Haligned : Forall (λ m, ∃ ones, aligned l m ones) n.
Hypothesis Hsorted : StronglySorted (λ a b, bytes_ltb (net_IP b) (net_IP a) = false) n.
Hypothesis Hunique : ∀ x, (length (filter (λ m, IPNet_Contains m x = true) n) <= 1)%nat.
Hypothesis Hlen : length ip = l.
Hypothesis Hcanon : canon ip = ip.

Lemma contains_unique x i j a b :
  n !! i = Some a → n !! j = Some b → IPNet_Contains a x = true → IPNet_Contains b x = true → i = j.
Proof.
  assert (∀ i j a b, n !! i = Some a → n !! j = Some b → IPNet_Contains a x = true →
    IPNet_Contains b x = true → (i < j)%nat → False) as Hlt.
  { clear i j a b. intros i j a b Hi Hj Ha Hb Hij. specialize (Hunique x).
    rewrite <-(take_drop j n), filter_app, length_app in Hunique.
    assert (take j n !! i = Some a) as Hi' by by rewrite lookup_take_lt.
    assert (drop j n !! 0%nat = Some b) as Hj' by by rewrite lookup_drop, Nat.add_0_r.
    apply list_elem_of_lookup_2 in Hi', Hj'.
    assert (∀ (l : list IPNet) m, m ∈ l → IPNet_Contains m x = true →
      (1 <= length (filter (λ m, IPNet_Contains m x = true) l))%nat) as Hf.
    { intros l' m Hm Hc. assert (m ∈ filter (λ m, IPNet_Contains m x = true) l') as Hin by by apply list_elem_of_filter.
      destruct (filter _ l'); [by apply not_elem_of_nil in Hin|cbn; lia]. }
    pose proof (Hf _ _ Hi' Ha). pose proof (Hf _ _ Hj' Hb). lia. }
  intros Hi Hj Ha Hb. destruct (Nat.lt_trichotomy i j) as [H|[H|H]]; [|done|]; exfalso; eauto.
Qed.

Lemma sorted_le i j a b : n !! i = Some a → n !! j = Some b → (i < j)%nat → be_Z (net_IP a) <= be_Z (net_IP b).
Proof.
  intros Hi Hj Hij. rewrite <-(take_drop j n) in Hsorted.
  apply StronglySorted_app in Hsorted as (Hx & _).
  assert (bytes_ltb (net_IP b) (net_IP a) = false) as Hb.
  { apply (Hx a b).
    - apply list_elem_of_lookup_2 with (i := i). by rewrite lookup_take_lt.
    - apply list_elem_of_lookup_2 with (i := 0%nat). by rewrite lookup_drop, Nat.add_0_r. }
  rewrite list.Forall_lookup in Haligned.
  destruct (Haligned _ _ Hi) as [oa Ha'], (Haligned _ _ Hj) as [ob Hb'].
  rewrite bytes_ltb_be_Z in Hb by (rewrite (al_ip _ _ _ Ha'), (al_ip _ _ _ Hb'); done).
  by apply Z.ltb_ge in Hb.
Qed.

(** A network contains its own address. *)
Lemma contains_self a ones : aligned l a ones → IPNet_Contains a (net_IP a) = true.
Proof.
  intros Ha. apply (Contains_interval l a ones); [done|apply Ha..|].
  pose proof (Z.pow_pos_nonneg 2 (8 * Z.of_nat l - ones) ltac:(lia) ltac:(pose proof (al_ones _ _ _ Ha); lia)). lia.
Qed.

Lemma search_nets_spec fuel left right :
  0 <= left → right < len n → right - left + 1 < Z.of_nat fuel → left <= right + 1 →
  (∀ k m, n !! k = Some m → IPNet_Contains m ip = true → left <= Z.of_nat k <= right) →
  search_nets fuel n ip left right = Some (existsb (λ m, IPNet_Contains m ip) n).
Proof.
  revert left right. induction fuel as [|fuel IH]; intros left right H0 Hr Hf Hlr Hk; [lia|].
  cbn [search_nets]. destruct (Z.leb_spec left right) as [Hle|Hgt].
  - set (mid := quot (left + right) 2).
    assert (left <= mid <= right) as Hmid
      by (unfold mid; rewrite Z.quot_div_nonneg by lia; Z.to_euclidean_division_equations; lia).
    destruct (lookup_lt_is_Some_2 n (Z.to_nat mid)) as [m Hm]; [unfold len in *; lia|].
    rewrite Hm. cbn [mbind option_bind].
    pose proof Haligned as Hal. rewrite list.Forall_lookup in Hal. destruct (Hal _ _ Hm) as [om Ham].
    destruct (IPNet_Contains m ip) eqn:Hc.
    + f_equal. symmetry. apply existsb_exists. exists m. rewrite <-list_elem_of_In. split; [|done].
      by eapply list_elem_of_lookup_2.
    + rewrite bytes_ltb_be_Z by (rewrite (al_ip _ _ _ Ham); done).
      pose proof (contains_self m om Ham) as Hself.
      assert (∀ k m', n !! k = Some m' → IPNet_Contains m' ip = true →
        (Z.of_nat k < mid ∧ be_Z ip < be_Z (net_IP m)) ∨ (mid < Z.of_nat k ∧ be_Z (net_IP m) < be_Z ip)) as Hside.
      { intros k m' Hk' Hc'. destruct (Hal _ _ Hk') as [o' Ha'].
        pose proof (proj1 (Contains_interval l m' o' ip Ha' Hlen Hcanon) Hc') as Hi.
        assert (Z.of_nat k ≠ mid) as Hne by (intros E; rewrite <-E, Nat2Z.id in Hm; congruence).
        destruct (Z.lt_ge_cases (Z.of_nat k) mid) as [Hkm|Hkm].
        - left. split; [done|]. pose proof (sorted_le k (Z.to_nat mid) m' m Hk' Hm ltac:(lia)) as Hs.
          destruct (Z.lt_ge_cases (be_Z ip) (be_Z (net_IP m))) as [|Hge]; [done|]. exfalso.
          assert (IPNet_Contains m' (net_IP m) = true) as Hboth.
          { apply (Contains_interval l m' o'); [done|apply Ham..|lia]. }
          pose proof (contains_unique _ _ _ _ _ Hk' Hm Hboth Hself). lia.
        - right. split; [lia|]. pose proof (sorted_le (Z.to_nat mid) k m m' Hm Hk' ltac:(lia)) as Hs.
          destruct (decide (be_Z (net_IP m) = be_Z ip)) as [E|]; [|lia]. exfalso.
          assert (net_IP m = ip) as E' by (apply be_Z_inj; [rewrite (al_ip _ _ _ Ham); done|done]).
          rewrite <-E' in Hc. congruence. }
      destruct (Z.ltb_spec (be_Z (net_IP m)) (be_Z ip)).
      * apply IH; try lia. intros k m' Hk' Hc'. specialize (Hk k m' Hk' Hc'). destruct (Hside k m' Hk' Hc'); lia.
      * apply IH; try lia. intros k m' Hk' Hc'. specialize (Hk k m' Hk' Hc'). destruct (Hside k m' Hk' Hc'); lia.
  - f_equal. symmetry. apply not_true_is_false. rewrite existsb_exists. intros (m & Hin & Hc).
    apply list_elem_of_In, list_elem_of_lookup in Hin as [k Hk']. specialize (Hk k m Hk' Hc). lia.
Qed.
End Search.

(** ** Lemmas: a GeoIP list *)
Definition bits_of (c : CIDR) : Z := 8 * len (cidr_Ip c).

(** An address in a network, as numbers. *)
Definition in_cidr (c : CIDR) (ip : IP) : bool :=
  (length (canon ip) =? length (cidr_Ip c))%nat &&
  (be_Z (cidr_Ip c) <=? be_Z (canon ip)) &&
  (be_Z (canon ip) <? be_Z (cidr_Ip c) + 2 ^ (bits_of c - cidr_Prefix c)).

(** Four or sixteen bytes (not the sixteen of an IPv4 address), a prefix in
    range and no bit below it. *)
Record cidr_ok (c : CIDR) : Prop := {
  co_length : length (cidr_Ip c) = 4%nat ∨ length (cidr_Ip c) = 16%nat;
  co_form : canon (cidr_Ip c) = cidr_Ip c;
  co_prefix : 0 <= cidr_Prefix c <= bits_of c;
  co_zero : be_Z (cidr_Ip c) mod 2 ^ (bits_of c - cidr_Prefix c) = 0;
}.

Definition net_of (c : CIDR) : IPNet := mkIPNet (cidr_Ip c) (CIDRMask (cidr_Prefix c) (bits_of c)).

Lemma net_of_aligned c : cidr_ok c → aligned (length (cidr_Ip c)) (net_of c) (cidr_Prefix c).
Proof.
  intros [Hl Hf Hp Hz]. split; try done. cbn [net_of net_Mask]. by apply CIDRMask_mask.
Qed.

Lemma in_cidr_Contains c ip : cidr_ok c → length (canon ip) = length (cidr_Ip c) →
  IPNet_Contains (net_of c) ip = in_cidr c ip.
Proof.
  intros Hc Hl. apply eq_true_iff_eq.
  assert (canon (canon ip) = canon ip) as Hcc.
  { destruct (canon_cases ip) as [[H E]|[(c' & -> & E & H)|(H & E & _)]]; rewrite E; try done.
    unfold canon, To4. rewrite H. cbn. by destruct c'. }
  rewrite (IPNet_Contains_canon _ ip (canon ip)) by done.
  rewrite (Contains_interval _ _ _ (canon ip) (net_of_aligned c Hc)) by done.
  unfold in_cidr. rewrite Hl, Nat.eqb_refl, !andb_true_iff, Z.leb_le, Z.ltb_lt. cbn [net_of net_IP]. naive_solver.
Qed.

Definition has_length (l : nat) (c : CIDR) : Prop := length (cidr_Ip c) = l.

#[export] Instance has_length_dec l c : Decision (has_length l c).
Proof. unfold has_length. apply _. Defined.

Lemma split_cidrs_spec cs : Forall cidr_ok cs →
  split_cidrs cs = Some (net_of <$> filter (has_length 4) cs, net_of <$> filter (has_length 16) cs).
Proof.
  induction 1 as [|c cs Hc Hcs IH]; [done|]. cbn [split_cidrs]. rewrite IH. cbn [mbind option_bind].
  destruct (co_length c Hc) as [Hl|Hl]; rewrite Hl; cbn [Nat.eqb].
  - rewrite filter_cons_True by done. rewrite filter_cons_False by (unfold has_length; lia).
    cbn [fmap list_fmap]. unfold net_of at 3, bits_of, len. by rewrite Hl.
  - rewrite filter_cons_False by (unfold has_length; lia). rewrite filter_cons_True by done.
    cbn [fmap list_fmap]. unfold net_of at 4, bits_of, len. by rewrite Hl.
Qed.

(** At most one network for an address: so also among those of one length. *)
Lemma unique_of_length l cs (Hl : l = 4%nat ∨ l = 16%nat) :
  Forall cidr_ok cs → (∀ x, (length (filter (λ c, in_cidr c x = true) cs) <= 1)%nat) →
  ∀ x, (length (filter (λ m, IPNet_Contains m x = true) (net_of <$> filter (has_length l) cs)) <= 1)%nat.
Proof.
  intros Hok Hu x. specialize (Hu x). etransitivity; [|exact Hu]. clear Hu.
  induction Hok as [|c cs Hc Hok IH]; [cbn; lia|].
  destruct (decide (has_length l c)) as [E|E].
  - rewrite (filter_cons_True (has_length l)) by done. cbn [fmap list_fmap].
    destruct (IPNet_Contains (net_of c) x) eqn:Hx.
    + rewrite (filter_cons_True (λ m, IPNet_Contains m x = true)) by done.
      rewrite (filter_cons_True (λ c, in_cidr c x = true)); [cbn [length]; lia|].
      rewrite <-(in_cidr_Contains c x Hc); [done|]. by eapply Contains_length; [apply net_of_aligned|].
    + rewrite (filter_cons_False (λ m, IPNet_Contains m x = true)) by congruence.
      etransitivity; [exact IH|]. rewrite filter_cons. case_decide; cbn [length]; lia.
  - rewrite (filter_cons_False (has_length l)) by done.
    etransitivity; [exact IH|]. rewrite filter_cons. case_decide; cbn [length]; lia.
Qed.

Lemma existsb_perm {A} (f : A → bool) l k : l ≡ₚ k → existsb f l = existsb f k.
Proof.
  intros Hp. apply eq_true_iff_eq. rewrite !existsb_exists. setoid_rewrite <-list_elem_of_In. by setoid_rewrite Hp.
Qed.

Lemma existsb_of_length l cs x : Forall cidr_ok cs → length (canon x) = l →
  existsb (λ m, IPNet_Contains m x) (net_of <$> filter (has_length l) cs) = existsb (λ c, in_cidr c x) cs.
Proof.
  intros Hok Hl. induction Hok as [|c cs Hc Hok IH]; [done|]. cbn [existsb]. rewrite filter_cons.
  case_decide as E; unfold has_length in E.
  - cbn [fmap list_fmap existsb]. rewrite IH, in_cidr_Contains by (done || congruence). done.
  - rewrite IH. unfold in_cidr at 2. rewrite Hl, (proj2 (Nat.eqb_neq _ _)) by congruence. done.
Qed.

Section GeoIP.
Context `{SortNets}.

Lemma search_sorted l cs x : l = 4%nat ∨ l = 16%nat → Forall cidr_ok cs →
  (∀ x, (length (filter (λ c, in_cidr c x = true) cs) <= 1)%nat) → length x = l → canon x = x →
  let n := sort_nets (net_of <$> filter (has_length l) cs) in
  search_nets (S (length n)) n x 0 (len n - 1) = Some (existsb (λ c, in_cidr c x) cs).
Proof.
  intros Hl Hok Hu Hx Hcx n.
  assert (n ≡ₚ net_of <$> filter (has_length l) cs) as Hp by apply sort_nets_perm.
  rewrite (search_nets_spec l n x); try done; try (unfold len; lia).
  - f_equal. rewrite (existsb_perm _ _ _ Hp). apply existsb_of_length; congruence.
  - rewrite Hp. apply Forall_fmap. apply list.Forall_forall. intros c [Hc Hin]%list_elem_of_filter.
    rewrite list.Forall_forall in Hok. exists (cidr_Prefix c). cbn. rewrite <-Hc. by apply net_of_aligned, Hok.
  - apply sort_nets_sorted.
  - intros y. rewrite Hp. by apply unique_of_length.
  - intros k m Hk _. apply lookup_lt_Some in Hk. unfold len. lia.
Qed.

Lemma matchIP_spec cs inv x : Forall cidr_ok cs →
  (∀ x, (length (filter (λ c, in_cidr c x = true) cs) <= 1)%nat) → valid_ip x →
  let m := mkGeoipMatcher (sort_nets (net_of <$> filter (has_length 4) cs))
             (sort_nets (net_of <$> filter (has_length 16) cs)) inv in
  negb (bool_decide (x = [])) && matchIP m x = existsb (λ c, in_cidr c x) cs.
Proof.
  intros Hok Hu Hv m. unfold matchIP.
  assert (x ≠ [] → To4 x = [] → length x = 16%nat ∧ canon x = x) as H6.
  { intros Hne HT. unfold canon. rewrite HT. split; [|done]. destruct Hv as [Hv|[Hv|Hv]]; [by destruct x| |done].
    exfalso. unfold To4 in HT. rewrite Hv in HT. cbn in HT. congruence. }
  assert (∀ y, canon y = canon x → existsb (λ c, in_cidr c y) cs = existsb (λ c, in_cidr c x) cs) as Hcan.
  { intros y Hy. clear -Hy. induction cs as [|c cs IH]; [done|]. cbn [existsb]. rewrite IH.
    f_equal. unfold in_cidr. by rewrite Hy. }
  case_bool_decide as Hne; cbn [negb andb].
  - subst x. symmetry. apply not_true_is_false. rewrite existsb_exists. intros (c & Hin%list_elem_of_In & Hc).
    rewrite list.Forall_forall in Hok. unfold in_cidr in Hc. rewrite !andb_true_iff in Hc. destruct Hc as [[Hc%Nat.eqb_eq _] _].
    destruct (co_length c (Hok c Hin)); cbn in Hc; lia.
  - destruct (To4 x) as [|i t] eqn:HT; cbn [N4 N6 m].
    + destruct (H6 Hne eq_refl) as [Hl Hc]. rewrite (search_sorted 16 cs x) by (done || by right). done.
    + destruct (To4_length x) as [H4|H4]; rewrite HT in H4; [|done].
      assert (canon x = i :: t) as Hc by (unfold canon; by rewrite HT).
      assert (canon (i :: t) = i :: t) as Hcc by (unfold canon, To4; rewrite H4; done).
      rewrite (search_sorted 4 cs (i :: t)) by (done || by left). cbn [default from_option id].
      apply Hcan. congruence.
Qed.

End GeoIP.

(** ** Theorems *)

(** A wildcard pattern matches exactly the names it becomes when each star
    is replaced by some text. *)
Theorem deepMatchRune_spec pattern str :
  deepMatchRune pattern str = true ↔ ∃ subs, fill pattern subs = Some str.
Proof.
  revert str. induction pattern as [|p ps IH]; intros str.
  - destruct str; cbn; (split; [try done; by exists []|]).
    + done.
    + by intros ([|] & ?).
  - cbn [fill]. destruct (Z.eqb_spec p star) as [->|Hp].
    + rewrite deepMatchRune_star. setoid_rewrite IH. split.
      * intros (s & t & -> & subs & Hs). exists (s :: subs). by rewrite Hs.
      * intros ([|s subs] & E); [done|]. destruct (fill ps subs) as [t|] eqn:Ht; [|done].
        injection E as <-. eauto.
    + cbn [deepMatchRune]. rewrite (proj2 (Z.eqb_neq p star)) by done. destruct str as [|c str].
      * split; [done|]. intros (subs & E). by destruct (fill ps subs).
      * rewrite andb_true_iff, Z.eqb_eq, IH. split.
        -- intros (-> & subs & Hs). exists subs. by rewrite Hs.
        -- intros (subs & E). destruct (fill ps subs) as [t|] eqn:Ht; [|done]. injection E as -> ->. eauto.
Qed.

Section GeoTheorem.
Context `{SortNets}.

(** On a list of disjoint networks the GeoIP matcher, a binary search, says
    whether one of the host's addresses lies in one of the networks (or, on an
    inverted list, that none does), whatever order equal elements are sorted in. *)
Theorem geoip_Match_spec geoip host :
  Forall cidr_ok (Cidr geoip) →
  (∀ x, (length (filter (λ c, in_cidr c x = true) (Cidr geoip)) <= 1)%nat) →
  valid_ip (IPv4 host) → valid_ip (IPv6 host) →
  ∃ m, newGeoIPMatcher geoip = Some m ∧
  geoipMatcher_Match m host =
    xorb (InverseMatch geoip)
      (existsb (λ c, in_cidr c (IPv4 host)) (Cidr geoip) || existsb (λ c, in_cidr c (IPv6 host)) (Cidr geoip)).
Proof.
  intros Hok Hu H4 H6. unfold newGeoIPMatcher. rewrite (split_cidrs_spec _ Hok). cbn [mbind option_bind].
  eexists. split; [done|]. unfold geoipMatcher_Match.
  rewrite (matchIP_spec (Cidr geoip) (InverseMatch geoip) (IPv4 host)) by done.
  rewrite (matchIP_spec (Cidr geoip) (InverseMatch geoip) (IPv6 host)) by done. cbn [Inverse].
  destruct (existsb _ _), (existsb _ _), (InverseMatch geoip); done.
Qed.
End GeoTheorem.

(** ** Witness *)
Definition net_le (a b : IPNet) : Prop := bytes_ltb (net_IP b) (net_IP a) = false.

#[local] Instance net_le_dec : RelDecision net_le.
Proof. intros a b. unfold net_le. apply _. Defined.

Definition sample_geoip : GeoIP :=
  {| Cidr := [mkCIDR [Byte.x0a; Byte.x00; Byte.x00; Byte.x00] 8; mkCIDR [Byte.xc0; Byte.x00; Byte.x02; Byte.x00] 24];
     InverseMatch := false |}.

#[local] Instance net_le_total : Total net_le.
Proof.
  intros a b. unfold net_le. generalize (net_IP a), (net_IP b). clear a b.
  induction l as [|x a IH]; intros [|y b]; cbn [bytes_ltb]; try (by left); [by right|].
  rewrite !orb_false_iff, !andb_false_iff, !Z.ltb_ge, !Z.eqb_neq. destruct (IH b); lia || (destruct (decide (Z_of_byte x = Z_of_byte y)); [|lia]; naive_solver lia).
Qed.

#[local] Instance net_le_trans : Transitive net_le.
Proof.
  intros a b c. unfold net_le. generalize (net_IP a), (net_IP b), (net_IP c). clear a b c.
  induction l as [|x a IH]; intros [|y b] [|z c]; cbn [bytes_ltb]; try done.
  rewrite !orb_false_iff, !andb_false_iff, !Z.ltb_ge, !Z.eqb_neq.
  intros [H1 H2] [H3 H4]. split; [lia|].
  destruct (decide (Z_of_byte z = Z_of_byte x)); [|lia]. right. apply (IH b); [destruct H2 | destruct H4]; done || lia.
Qed.

#[local] Instance sample_sort : SortNets.
Proof.
  refine {| sort_nets := merge_sort net_le |}.
  - apply merge_sort_Permutation.
  - intros l. apply (StronglySorted_merge_sort net_le).
Defined.

Lemma sample_disjoint x : (length (filter (λ c, in_cidr c x = true) (Cidr sample_geoip)) <= 1)%nat.
Proof.
  cbn [Cidr sample_geoip]. rewrite !filter_cons, filter_nil.
  case_decide as H1; case_decide as H2; cbn [length]; try lia. exfalso.
  unfold in_cidr in *. rewrite !andb_true_iff, !Z.leb_le, !Z.ltb_lt in *.
  destruct H1 as [[_ _] H1], H2 as [[_ H2] _].
  change (be_Z (cidr_Ip _) + _) with 184549376 in H1. change (be_Z (cidr_Ip _)) with 3221225984 in H2. lia.
Qed.

Lemma geoip_Match_spec_witness :
  ∃ m, newGeoIPMatcher sample_geoip = Some m ∧
  geoipMatcher_Match m (mkHostInfo "example.com" (ip_of "192.0.2.77") []) = true.
Proof.
  destruct (geoip_Match_spec sample_geoip (mkHostInfo "example.com" (ip_of "192.0.2.77") [])) as (m & Hm & E).
  - repeat apply List.Forall_cons; try apply List.Forall_nil;
      (split; [by left|vm_compute; reflexivity|split; vm_compute; congruence|vm_compute; reflexivity]).
  - exact sample_disjoint.
  - right; right. vm_compute. reflexivity.
  - by left.
  - exists m. split; [exact Hm|]. rewrite E. vm_compute. reflexivity.
Defined.
