(* ===== verification/Acl.v ===== *)
(** * The access control list (extras/outbounds/acl/parse.go, compile.go)

    Rules as text, their compilation, and matching through a cache.  The cache
    is an interface: it returns what was added under a key, or nothing, and may
    forget anything at any time. *)
From S2P Require Import GoStd Netip Utf8 IP AclMatchers Prelude.

(** ** Parsing (parse.go) *)
Record TextRule := mkTextRule {
  tr_Outbound : string;
  tr_Address : string;
  tr_ProtoPort : string;
  tr_HijackAddress : string;
  tr_LineNum : Z;
}.

Inductive compile_message : Type :=
| OutboundNotFound (name : string)
| EmptyCountry | LoadGeoIPFailed | CountryNotFound (country : string) | InvalidGeoIP
| EmptySite | LoadGeoSiteFailed | SiteNotFound (name : string) | InvalidGeoSite
| EmptySuffix | InvalidCIDR (addr : string)
| InvalidProtoPort (protoPort : string)
| InvalidHijack (addr : string).

Inductive acl_error : Type :=
| InvalidSyntaxError (Line : string) (LineNum : Z)
| CompilationError (LineNum : Z) (Message : compile_message)
| CacheError.

Definition is_word (c : ascii) : bool :=
  let k := code c in
  is_digit c || ((65 <=? k) && (k <=? 90)) || ((97 <=? k) && (k <=? 122)) || (k =? 95).

(** The white space of a regular expression, [\s]. *)
Definition regexp_space (c : ascii) : bool :=
  let k := code c in (k =? 9) || (k =? 10) || (k =? 12) || (k =? 13) || (k =? 32).

Fixpoint span (p : ascii → bool) (s : string) : string * string :=
  match s with
  | String c t => if p c then let '(a, b) := span p t in (String c a, b) else (EmptyString, s)
  | EmptyString => (EmptyString, EmptyString)
  end.

(** The submatches of [^(\w+)\s*\(([^,]+)(?:,([^,]+))?(?:,([^,]+))?\)$]: the
    name and one to three fields without commas, up to the last parenthesis;
    a field that is missing is empty. *)
Definition linePattern (line : string) : option (string * string * string * string) :=
  let '(name, rest) := span is_word line in
  if bool_decide (name = EmptyString) then None else
  match (span regexp_space rest).2 with
  | String "(" rest =>
      if negb (Strings.HasSuffix rest ")") then None else
      let fields := Strings.Split (Strings.first (String.length rest - 1) rest) "," in
      if existsb (λ f, bool_decide (f = EmptyString)) fields then None else
      match fields with
      | [a] => Some (name, a, EmptyString, EmptyString)
      | [a; b] => Some (name, a, b, EmptyString)
      | [a; b; c] => Some (name, a, b, c)
      | _ => None
      end
  | _ => None
  end.

Definition parseLine (line : string) (num : Z) : option TextRule :=
  '(name, a, b, c) ← linePattern line;
  Some (mkTextRule name (TrimSpace a) (TrimSpace b) (TrimSpace c) num).

(** The loop over the lines, from line number [lineNum + 1] on. *)
Fixpoint parse_lines (lines : list string) (lineNum : Z) : result acl_error (list TextRule) :=
  match lines with
  | [] => Ok []
  | line :: lines =>
      let lineNum := lineNum + 1 in
      let i := Strings.IndexByte line "#" in
      let line := if 0 <=? i then Strings.first (Z.to_nat i) line else line in
      let line := TrimSpace line in
      if bool_decide (line = EmptyString) then parse_lines lines lineNum else
      match parseLine line lineNum with
      | None => Err (InvalidSyntaxError line lineNum)
      | Some rule => rules ← parse_lines lines lineNum; Ok (rule :: rules)
      end
  end.

Definition newline : ascii := "010"%char.

Definition ParseTextRules (text : string) : result acl_error (list TextRule) :=
  parse_lines (Strings.Split text newline) 0.

(** ** Compilation (compile.go) *)
Inductive Protocol : Type := ProtocolBoth | ProtocolTCP | ProtocolUDP.

#[export] Instance Protocol_eq_dec : EqDecision Protocol.
Proof. solve_decision. Defined.

#[export] Instance Protocol_countable : Countable Protocol.
Proof.
  refine (inj_countable' (λ p, match p with ProtocolBoth => 0%nat | ProtocolTCP => 1%nat | ProtocolUDP => 2%nat end)
            (λ n, match n with 0 => ProtocolBoth | 1 => ProtocolTCP | _ => ProtocolUDP end%nat) _).
  by intros [].
Defined.

(** [%s] of a host. *)
Definition HostInfo_String (h : HostInfo) : string :=
  Name h ++ "|" ++ IP_String (IPv4 h) ++ "|" ++ IP_String (IPv6 h).

(** The databases, each loaded or failing to load; a list may be nil. *)
Record GeoLoader := mkGeoLoader {
  LoadGeoIP : option (gmap string (option GeoIP));
  LoadGeoSite : option (gmap string (option GeoSite));
}.

Definition parseGeoSiteName (s : string) : string * list string :=
  match Strings.Split s "@" with
  | base :: attrs => (TrimSpace base, TrimSpace <$> attrs)
  | [] => (EmptyString, [])
  end.

Section Compile.
Context `{UnicodeTables, Idna, Regexp, SortNets}.

Definition parseProtoPort (protoPort : string) : option (Protocol * Z * Z) :=
  let protoPort := ToLower protoPort in
  if decide (protoPort ∈ [""; "*"; "*/*"]%string) then Some (ProtocolBoth, 0, 0) else
  match Strings.SplitN2 protoPort "/" with
  | [p] =>
      if decide (p = "tcp"%string) then Some (ProtocolTCP, 0, 0)
      else if decide (p = "udp"%string) then Some (ProtocolUDP, 0, 0) else None
  | [p; port] =>
      proto ← (if decide (p = "tcp"%string) then Some ProtocolTCP
               else if decide (p = "udp"%string) then Some ProtocolUDP
               else if decide (p = "*"%string) then Some ProtocolBoth else None);
      if decide (port = "*"%string) then Some (proto, 0, 0) else
      match Strings.SplitN2 (TrimSpace port) "-" with
      | [_] =>
          let '(p64, err) := Strconv.ParseUint port 16 in
          if err then None else Some (proto, u16 p64, u16 p64)
      | [a; b] =>
          let '(p64, err) := Strconv.ParseUint a 16 in
          if err then None else
          let startPort := u16 p64 in
          let '(p64, err) := Strconv.ParseUint b 16 in
          if err then None else
          let endPort := u16 p64 in
          if endPort <? startPort then None else Some (proto, startPort, endPort)
      | _ => None
      end
  | _ => None
  end.

Definition compileHostMatcher (addr : string) (geoLoader : GeoLoader) : result compile_message hostMatcher :=
  let addr := TrimRight (ToLower addr) "." in
  if decide (addr = "*"%string ∨ addr = "all"%string) then Ok allMatcher else
  if Strings.HasPrefix addr "geoip:" then
    let country := Strings.skip 6 addr in
    if bool_decide (country = EmptyString) then Err EmptyCountry else
    match LoadGeoIP geoLoader with
    | None => Err LoadGeoIPFailed
    | Some gMap =>
        match mjoin (gMap !! country) with
        | None => Err (CountryNotFound country)
        | Some geoip => match newGeoIPMatcher geoip with Some m => Ok (geoipMatcher_ m) | None => Err InvalidGeoIP end
        end
    end
  else if Strings.HasPrefix addr "geosite:" then
    let '(name, attrs) := parseGeoSiteName (Strings.skip 8 addr) in
    if bool_decide (name = EmptyString) then Err EmptySite else
    match LoadGeoSite geoLoader with
    | None => Err LoadGeoSiteFailed
    | Some gMap =>
        match mjoin (gMap !! name) with
        | None => Err (SiteNotFound name)
        | Some site => match newGeositeMatcher site attrs with
                       | Some m => Ok (geositeMatcher_ m)
                       | None => Err InvalidGeoSite
                       end
        end
    end
  else if Strings.HasPrefix addr "suffix:" then
    let suffix := Strings.skip 7 addr in
    if bool_decide (suffix = EmptyString) then Err EmptySuffix else Ok (domainMatcher suffix domainMatchSuffix)
  else if Strings.ContainsRune addr "/" then
    match ParseCIDR addr with Some ipnet => Ok (cidrMatcher ipnet) | None => Err (InvalidCIDR addr) end
  else match ParseIP addr with
  | Some ip => Ok (ipMatcher ip)
  | None => if Strings.ContainsRune addr "*" then Ok (domainMatcher addr domainMatchWildcard)
            else Ok (domainMatcher addr domainMatchExact)
  end.

(** [None] is the zero value of the outbound type. *)
Context {O : Type}.

Record compiledRule := mkCompiledRule {
  cr_Outbound : option O;
  cr_HostMatcher : hostMatcher;
  cr_Protocol : Protocol;
  cr_StartPort : Z;
  cr_EndPort : Z;
  cr_HijackAddress : IP;
}.

Definition rule_Match (r : compiledRule) (host : HostInfo) (proto : Protocol) (port : Z) : bool :=
  if negb (bool_decide (cr_Protocol r = ProtocolBoth)) && negb (bool_decide (cr_Protocol r = proto)) then false else
  if negb (cr_StartPort r =? 0) && ((port <? cr_StartPort r) || (cr_EndPort r <? port)) then false else
  HostMatcher_Match (cr_HostMatcher r) host.

(** One turn of the loop of [Compile]. *)
Definition compile_rule (outbounds : gmap string (option O)) (geoLoader : GeoLoader) (rule : TextRule)
    : result acl_error compiledRule :=
  match outbounds !! ToLower (tr_Outbound rule) with
  | None => Err (CompilationError (tr_LineNum rule) (OutboundNotFound (tr_Outbound rule)))
  | Some outbound =>
      match compileHostMatcher (tr_Address rule) geoLoader with
      | Err m => Err (CompilationError (tr_LineNum rule) m)
      | Ok hm =>
          match parseProtoPort (tr_ProtoPort rule) with
          | None => Err (CompilationError (tr_LineNum rule) (InvalidProtoPort (tr_ProtoPort rule)))
          | Some (proto, startPort, endPort) =>
              if bool_decide (tr_HijackAddress rule = EmptyString)
              then Ok (mkCompiledRule outbound hm proto startPort endPort [])
              else match ParseIP (tr_HijackAddress rule) with
                   | None => Err (CompilationError (tr_LineNum rule) (InvalidHijack (tr_HijackAddress rule)))
                   | Some hijack => Ok (mkCompiledRule outbound hm proto startPort endPort hijack)
                   end
          end
      end
  end.

Fixpoint compile_rules (outbounds : gmap string (option O)) (geoLoader : GeoLoader) (rules : list TextRule)
    : result acl_error (list compiledRule) :=
  match rules with
  | [] => Ok []
  | rule :: rules =>
      r ← compile_rule outbounds geoLoader rule;
      rs ← compile_rules outbounds geoLoader rules;
      Ok (r :: rs)
  end.

(** *** Matching through the cache *)
Definition matchResult : Type := option O * IP.
Definition matchResultCacheKey : Type := string * Protocol * Z.

Class Cache (C : Type) := {
  cache_New : Z → option C;
  cache_Get : matchResultCacheKey → C → C * option matchResult;
  cache_Add : matchResultCacheKey → matchResult → C → C;
  (** What the cache holds. *)
  cache_view : C → gmap matchResultCacheKey matchResult;
  cache_New_empty size c : cache_New size = Some c → cache_view c = ∅;
  cache_Get_result k c : (cache_Get k c).2 = cache_view c !! k;
  cache_Get_view k c : cache_view (cache_Get k c).1 ⊆ cache_view c;
  cache_Add_view k r c : cache_view (cache_Add k r c) ⊆ <[k := r]> (cache_view c);
}.

Context `{Cache C}.

Record compiledRuleSetImpl := mkRuleSet { Rules : list compiledRule; rs_Cache : C }.

(** Lower case, without trailing dots. *)
Definition normalize_host (host : HostInfo) : HostInfo :=
  mkHostInfo (TrimRight (ToLower (Name host)) ".") (IPv4 host) (IPv6 host).

(** The loop over the rules: the first that matches, or the zero value. *)
Fixpoint first_match (rules : list compiledRule) (host : HostInfo) (proto : Protocol) (port : Z) : matchResult :=
  match rules with
  | [] => (None, [])
  | rule :: rules =>
      if rule_Match rule host proto port then (cr_Outbound rule, cr_HijackAddress rule)
      else first_match rules host proto port
  end.

Definition Match (s : compiledRuleSetImpl) (q : HostInfo * Protocol * Z) : compiledRuleSetImpl * matchResult :=
  let '(host, proto, port) := q in
  let host := normalize_host host in
  let key := (HostInfo_String host, proto, port) in
  let '(c, hit) := cache_Get key (rs_Cache s) in
  match hit with
  | Some result => (mkRuleSet (Rules s) c, result)
  | None => let result := first_match (Rules s) host proto port in
            (mkRuleSet (Rules s) (cache_Add key result c), result)
  end.

Definition Compile (rules : list TextRule) (outbounds : gmap string (option O)) (cacheSize : Z)
    (geoLoader : GeoLoader) : result acl_error compiledRuleSetImpl :=
  compiledRules ← compile_rules outbounds geoLoader rules;
  match cache_New cacheSize with
  | None => Err CacheError
  | Some c => Ok (mkRuleSet compiledRules c)
  end.

End Compile.

Arguments compiledRule O : clear implicits.
Arguments matchResult O : clear implicits.
Arguments Cache O C : clear implicits.
Arguments compiledRuleSetImpl O C : clear implicits.

Example ParseTextRules_sample :
  ParseTextRules "direct(10.0.0.0/8) # local" = Ok [mkTextRule "direct" "10.0.0.0/8" "" "" 1].
Proof. vm_compute. reflexivity. Qed.
Example linePattern_three : linePattern "r ( a , tcp/80, 1.1.1.1)" = Some ("r", " a ", " tcp/80", " 1.1.1.1")%string.
Proof. vm_compute. reflexivity. Qed.
Example linePattern_four : linePattern "r(a,b,c,d)" = None.
Proof. vm_compute. reflexivity. Qed.
Example linePattern_empty : linePattern "r(a,)" = None.
Proof. vm_compute. reflexivity. Qed.

(** ** Lemmas: the cache key determines the host *)
Definition host_ok (h : HostInfo) : Prop := valid_ip (IPv4 h) ∧ valid_ip (IPv6 h).

Lemma HostInfo_String_inj a b : host_ok a → host_ok b → HostInfo_String a = HostInfo_String b → host_equiv a b.
Proof.
  intros [Ha4 Ha6] [Hb4 Hb6] E. unfold HostInfo_String in E.
  assert (∀ n x y : string, (n ++ ("|" ++ (x ++ ("|" ++ y))) = (n ++ ("|" ++ x)) ++ String "|" y)%string) as Hs
    by (intros; by rewrite !Strings.append_assoc).
  rewrite !Hs in E.
  apply Strings.append_sep_inj in E as [E E6]; [|by apply IP_String_free..].
  change ("|" ++ ?x)%string with (String "|" x) in E.
  apply Strings.append_sep_inj in E as [En E4]; [|by apply IP_String_free..].
  split; [exact En|]. split; [exact (IP_String_inj _ _ Ha4 Hb4 E4)|exact (IP_String_inj _ _ Ha6 Hb6 E6)].
Qed.

Section Match.
Context `{UnicodeTables, Idna, Regexp, SortNets} {O C : Type} `{Cache O C}.

#[export] Instance rule_Match_proper (r : compiledRule O) :
  Proper (host_equiv ==> (=) ==> (=) ==> (=)) (rule_Match r).
Proof. intros a b Hab p ? <- port ? <-. unfold rule_Match. by rewrite Hab. Qed.

Lemma first_match_equiv (rules : list (compiledRule O)) a b proto port :
  host_equiv a b → first_match rules a proto port = first_match rules b proto port.
Proof.
  intros Hab. induction rules as [|r rules IH]; [done|]. cbn [first_match].
  by rewrite (rule_Match_proper r a b Hab proto proto eq_refl port port eq_refl), IH.
Qed.

(** Everything the cache holds is what the rules say. *)
Definition cache_ok (rules : list (compiledRule O)) (c : C) : Prop :=
  ∀ host proto port result, host_ok host →
    cache_view c !! (HostInfo_String host, proto, port) = Some result →
    result = first_match rules host proto port.

Definition query_ok (q : HostInfo * Protocol * Z) : Prop := host_ok q.1.1.

Lemma Match_step (s : compiledRuleSetImpl O C) q :
  cache_ok (Rules s) (rs_Cache s) → query_ok q →
  let '(host, proto, port) := q in
  (Match s q).2 = first_match (Rules s) (normalize_host host) proto port
  ∧ Rules (Match s q).1 = Rules s ∧ cache_ok (Rules s) (rs_Cache (Match s q).1).
Proof.
  intros Hc Hq. destruct q as [[host proto] port]. unfold query_ok in Hq. cbn [fst] in Hq. unfold Match.
  set (h := normalize_host host). assert (host_ok h) as Hh by done.
  pose proof (cache_Get_result (HostInfo_String h, proto, port) (rs_Cache s)) as Hr.
  pose proof (cache_Get_view (HostInfo_String h, proto, port) (rs_Cache s)) as Hv.
  destruct (cache_Get _ (rs_Cache s)) as [c hit]. cbn [fst snd] in *.
  assert (cache_ok (Rules s) c) as Hc'.
  { intros h' p' q' r' Hh' Hl. apply (Hc h' p' q' r' Hh'). by eapply lookup_weaken. }
  destruct hit as [result|]; cbn [fst snd Rules rs_Cache].
  - split; [|done]. apply (Hc h); [done|]. by symmetry.
  - split; [done|]. split; [done|]. intros h' p' q' r' Hh' Hl.
    eapply lookup_weaken in Hl; [|apply cache_Add_view].
    apply lookup_insert_Some in Hl as [[E <-]|[_ Hl]]; [|by apply (Hc' h' p' q' r')].
    injection E as Es <- <-. apply first_match_equiv. by apply HostInfo_String_inj.
Qed.

(** C40: Matching through the cache is matching: whatever the cache keeps or
    forgets, and whatever was asked before, the answer to a query is the first
    rule that matches its host, protocol and port, or none. *)
Theorem Match_first_match (rules : list (compiledRule O)) size c qs :
  cache_New size = Some c → Forall query_ok qs →
  (run Match (mkRuleSet rules c) qs).2
  = (λ '(host, proto, port), first_match rules (normalize_host host) proto port) <$> qs.
Proof.
  intros Hnew. assert (cache_ok rules c) as Hc.
  { intros h p q r _. by rewrite (cache_New_empty _ _ Hnew), lookup_empty. }
  clear Hnew. intros Hq. remember (mkRuleSet rules c) as s eqn:Hs.
  assert (Rules s = rules) as Hr by by subst. assert (cache_ok rules (rs_Cache s)) as Hcs by by subst.
  clear c Hs Hc. revert s Hr Hcs. induction Hq as [|q qs Hq Hqs IH]; intros s Hr Hcs; [done|].
  cbn [run fmap list_fmap]. pose proof (Match_step s q) as Hm. rewrite Hr in Hm. specialize (Hm Hcs Hq).
  destruct q as [[host proto] port]. destruct Hm as (E & Hr' & Hc').
  destruct (Match s (host, proto, port)) as [s' o]. cbn [fst snd] in *.
  specialize (IH s' ltac:(congruence) Hc'). destruct (run Match s' qs) as [s'' os]. cbn [snd] in *. congruence.
Qed.
End Match.

Section Ports.
Context `{UnicodeTables, Idna, Regexp, SortNets} {O : Type}.

(** The protocols a rule can name, with a port. *)
Definition protocol_names : list (string * Protocol) := [("tcp"%string, ProtocolTCP); ("udp"%string, ProtocolUDP); ("*"%string, ProtocolBoth)].

Definition port_range_text (p : string) (a b : Z) : string :=
  p ++ "/" ++ Strconv.FormatUint a ++ "-" ++ Strconv.FormatUint b.

Lemma protocol_name_plain p P : (p, P) ∈ protocol_names →
  plain_text p ∧ Strings.free_of "/" p ∧
  (if decide (p = "tcp"%string) then Some ProtocolTCP
   else if decide (p = "udp"%string) then Some ProtocolUDP
   else if decide (p = "*"%string) then Some ProtocolBoth else None) = Some P.
Proof.
  unfold protocol_names. rewrite !elem_of_cons.
  intros [[= -> ->]|[[= -> ->]|[[= -> ->]|[]%elem_of_nil]]];
    (split; [apply (bool_decide_unpack _); vm_compute; exact I|];
     split; [rewrite ?Strings.free_of_cons; split_and?; try done; apply Strings.free_of_nil|done]).
Qed.

Lemma parse_port_range p P a b : (p, P) ∈ protocol_names → 0 <= a <= b → b < 65536 →
  parseProtoPort (port_range_text p a b) = Some (P, a, b).
Proof.
  intros (Hpl & Hfr & Hproto)%protocol_name_plain Hab Hb. unfold parseProtoPort.
  pose proof (FormatUint_plain a ltac:(lia)) as Pa. pose proof (FormatUint_plain b ltac:(lia)) as Pb.
  pose proof (Strconv.ParseUint_FormatUint_bits 16 a ltac:(lia) ltac:(lia)) as Va.
  pose proof (Strconv.ParseUint_FormatUint_bits 16 b ltac:(lia) ltac:(lia)) as Vb.
  pose proof (FormatUint_free "-" a ltac:(lia) eq_refl) as Fa.
  unfold port_range_text. set (fa := Strconv.FormatUint a) in *. set (fb := Strconv.FormatUint b) in *.
  assert (plain_text "/" ∧ plain_text "-") as [P1 P2]
    by (split; apply (bool_decide_unpack _); vm_compute; exact I).
  set (port := (fa ++ "-" ++ fb)%string).
  assert (plain_text port) as Pport by (unfold port; auto using plain_text_app).
  assert (∀ t, Strings.free_of "-" t → t ≠ port) as Hport.
  { intros t Ht ->. unfold port in Ht. change ("-" ++ fb)%string with (String "-" fb) in Ht.
    apply Strings.free_of_app in Ht as [_ Ht]. by apply Strings.free_of_cons in Ht as [? _]. }
  assert (∀ t, Strings.free_of "-" t → t ≠ (p ++ "/" ++ port)%string) as Htext.
  { intros t Ht ->. apply Strings.free_of_app in Ht as [_ Ht]. apply Strings.free_of_app in Ht as [_ Ht].
    by apply (Hport port). }
  assert (∀ t : string, t ∈ [""; "*"; "*/*"]%string → Strings.free_of "-" t) as Hspecial.
  { intros t. rewrite !elem_of_cons. intros [->|[->|[->|[]%elem_of_nil]]]; rewrite ?Strings.free_of_cons;
      split_and?; try done; apply Strings.free_of_nil. }
  rewrite ToLower_plain by auto using plain_text_app.
  rewrite decide_False by (intros Hin; by apply (Htext _ (Hspecial _ Hin))).
  change ("/" ++ port)%string with (String "/" port). rewrite Strings.SplitN2_app by done. rewrite Hproto. cbn [mbind option_bind].
  rewrite decide_False by (intros E; apply (Hport "*"%string); [apply Hspecial; rewrite !elem_of_cons; tauto|done]).
  rewrite TrimSpace_plain by done. unfold port at 1. change ("-" ++ fb)%string with (String "-" fb).
  rewrite Strings.SplitN2_app by done. rewrite Va, Vb. cbn iota.
  rewrite !wrapU_small by lia. by rewrite (proj2 (Z.ltb_ge _ _)) by lia.
Qed.

(** A rule for the ports from [a] to [b] applies to the connections of its
    protocol whose port is from [a] to [b] and whose host matches; but a range
    that starts at 0 applies to every port, the compiled form of "any port"
    being a start of 0. *)
Lemma port_range_rule p P a b (r : compiledRule O) host proto port :
  (p, P) ∈ protocol_names → 0 <= a <= b → b < 65536 →
  parseProtoPort (port_range_text p a b) = Some (cr_Protocol r, cr_StartPort r, cr_EndPort r) →
  rule_Match r host proto port = true ↔
    (P = ProtocolBoth ∨ P = proto) ∧ (a = 0 ∨ a <= port <= b) ∧ HostMatcher_Match (cr_HostMatcher r) host = true.
Proof.
  intros Hp Hab Hb E. rewrite (parse_port_range p P a b Hp Hab Hb) in E. injection E as EP Ea Eb.
  unfold rule_Match. rewrite <-EP, <-Ea, <-Eb.
  assert (negb (bool_decide (P = ProtocolBoth)) && negb (bool_decide (P = proto)) = false
          ↔ P = ProtocolBoth ∨ P = proto) as HP.
  { rewrite andb_false_iff, !negb_false_iff, !bool_decide_eq_true. done. }
  assert (negb (a =? 0) && ((port <? a) || (b <? port)) = false ↔ a = 0 ∨ a <= port <= b) as Hport.
  { rewrite andb_false_iff, negb_false_iff, orb_false_iff, Z.eqb_eq, !Z.ltb_ge. lia. }
  destruct (negb (bool_decide (P = ProtocolBoth)) && _).
  { split; [done|]. intros (H' & _). apply HP in H'. done. }
  destruct (negb (a =? 0) && _).
  { split; [done|]. intros (_ & H' & _). apply Hport in H'. done. }
  pose proof (proj1 HP eq_refl). pose proof (proj1 Hport eq_refl). tauto.
Qed.
End Ports.

(** ** Witnesses *)
#[local] Instance sample_tables : UnicodeTables := {| wide_lower s := s |}.
#[local] Instance sample_idna : Idna := {| ToUnicode s := (s, false) |}.
#[local] Instance sample_regexp : Regexp := {| regexp_Compile _ := None |}.
#[local] Existing Instance sample_sort.

(** A cache that never forgets. *)
#[local] Instance sample_cache : Cache string (gmap matchResultCacheKey (matchResult string)).
Proof.
  refine {| cache_New size := if 0 <? size then Some ∅ else None;
            cache_Get k c := (c, c !! k); cache_Add k r c := <[k := r]> c; cache_view c := c |}.
  - intros size c. case_if; [by intros [= <-]|done].
  - done.
  - done.
  - done.
Defined.

Definition sample_rules : list (compiledRule string) :=
  [ mkCompiledRule (Some "proxy"%string) (domainMatcher "example.com" domainMatchSuffix) ProtocolTCP 0 0 [];
    mkCompiledRule (Some "direct"%string) allMatcher ProtocolBoth 0 0 [] ].

Definition sample_query (name : string) (proto : Protocol) : HostInfo * Protocol * Z :=
  (mkHostInfo name (ip_of "192.0.2.1") [], proto, 443).

Lemma Match_first_match_witness :
  (run Match (mkRuleSet sample_rules ∅)
    [sample_query "WWW.example.com." ProtocolTCP; sample_query "www.example.com" ProtocolUDP;
     sample_query "www.example.com" ProtocolTCP]).2
  = [(Some "proxy"%string, []); (Some "direct"%string, []); (Some "proxy"%string, [])].
Proof.
  rewrite (Match_first_match sample_rules 1024 ∅).
  - vm_compute. reflexivity.
  - reflexivity.
  - repeat apply List.Forall_cons; try apply List.Forall_nil;
      (split; [right; right; vm_compute; reflexivity|by left]).
Defined.

Lemma port_range_rule_witness :
  let r := mkCompiledRule (Some "reject"%string) allMatcher ProtocolTCP 0 100 [] in
  parseProtoPort "tcp/0-100" = Some (ProtocolTCP, 0, 100) ∧
  rule_Match r (mkHostInfo "example.com" [] []) ProtocolTCP 443 = true.
Proof.
  split; [vm_compute; reflexivity|].
  apply (port_range_rule "tcp" ProtocolTCP 0 100 _ (mkHostInfo "example.com" [] []) ProtocolTCP 443).
  - left.
  - split; vm_compute; congruence.
  - vm_compute. reflexivity.
  - vm_compute. reflexivity.
  - split; [by right|]. split; [by left|done].
Defined.
