(* ===== verification/AclEngine.v ===== *)
(** * The outbound dispatcher (extras/outbounds/acl.go)

    Named outbounds with the three built-in ones, and the choice of an outbound
    for each request by the access control list, with the rewriting of the
    request's address. *)
From S2P Require Import GoStd Netip Utf8 IP AclMatchers Acl Prelude.

Definition aclCacheSize : Z := 1024.

(** The resolved addresses of a request, if there is a resolver. *)
Record ResolveInfo := mkResolveInfo { ri_IPv4 : IP; ri_IPv6 : IP; ri_Err : bool }.

Record AddrEx := mkAddrEx { ax_Host : string; ax_Port : Z; ax_ResolveInfo : option ResolveInfo }.

Section Engine.
Context `{UnicodeTables, Idna, Regexp, SortNets} {O C : Type} `{Cache O C}.

(** The built-in outbounds: [NewDirectOutboundSimple] and [aclRejectOutbound]. *)
Context (directOutbound rejectOutbound : O).

Record OutboundEntry := mkEntry { oe_Name : string; oe_Outbound : O }.

Record aclEngine := mkAclEngine { RuleSet : compiledRuleSetImpl O C; Default : option O }.

(** [if _, ok := m\[k\]; !ok { m\[k\] = v }]. *)
Definition add_missing (k : string) (v : option O) (m : gmap string (option O)) : gmap string (option O) :=
  match m !! k with Some _ => m | None => <[k := v]> m end.

Definition outboundsToMap (outbounds : list OutboundEntry) : gmap string (option O) :=
  let obMap := foldl (λ m ob, <[ToLower (oe_Name ob) := Some (oe_Outbound ob)]> m) ∅ outbounds in
  let obMap := add_missing "direct" (Some directOutbound) obMap in
  let obMap := add_missing "reject" (Some rejectOutbound) obMap in
  add_missing "default"
    (match outbounds with ob :: _ => Some (oe_Outbound ob) | [] => mjoin (obMap !! "direct"%string) end) obMap.

Definition NewACLEngineFromString (rules : string) (outbounds : list OutboundEntry) (geoLoader : GeoLoader)
    : result acl_error aclEngine :=
  trs ← ParseTextRules rules;
  let obMap := outboundsToMap outbounds in
  rs ← Compile trs obMap aclCacheSize geoLoader;
  Ok (mkAclEngine rs (mjoin (obMap !! "default"%string))).

(** The host a request is matched by. *)
Definition host_of (reqAddr : AddrEx) : HostInfo :=
  match ax_ResolveInfo reqAddr with
  | Some ri => mkHostInfo (ax_Host reqAddr) (ri_IPv4 ri) (ri_IPv6 ri)
  | None => mkHostInfo (ax_Host reqAddr) [] []
  end.

(** The rewriting of a request whose rule has a hijack address. *)
Definition hijack (hijackIP : IP) (reqAddr : AddrEx) : AddrEx :=
  match hijackIP with
  | [] => reqAddr
  | _ =>
      mkAddrEx (IP_String hijackIP) (ax_Port reqAddr)
        (Some (match To4 hijackIP with
               | [] => mkResolveInfo [] hijackIP false
               | ip4 => mkResolveInfo ip4 [] false
               end))
  end.

(** The outbound chosen (None is nil, whose method call would panic) and the
    address it is called with. *)
Definition handle (a : aclEngine) (req : AddrEx * Protocol) : aclEngine * (option O * AddrEx) :=
  let '(reqAddr, proto) := req in
  let '(rs, (ob, hijackIP)) := Match (RuleSet a) (host_of reqAddr, proto, ax_Port reqAddr) in
  let a := mkAclEngine rs (Default a) in
  match ob with
  | None => (a, (Default a, reqAddr))
  | Some ob => (a, (Some ob, hijack hijackIP reqAddr))
  end.

(** ** Lemmas *)

(** What a map of outbounds contains: only outbounds that were given. *)
Definition given (outbounds : list OutboundEntry) (o : option O) : Prop :=
  ∃ ob, o = Some ob ∧ (ob = directOutbound ∨ ob = rejectOutbound ∨ ob ∈ oe_Outbound <$> outbounds).

Definition all_given (outbounds : list OutboundEntry) (m : gmap string (option O)) : Prop :=
  ∀ k o, m !! k = Some o → given outbounds o.

Lemma all_given_insert outbounds m k o : all_given outbounds m → given outbounds o → all_given outbounds (<[k := o]> m).
Proof. intros Hm Ho k' o' [[_ <-]|[_ ?]]%lookup_insert_Some; eauto. Qed.

Lemma add_missing_given outbounds m k o : all_given outbounds m → given outbounds o → all_given outbounds (add_missing k o m).
Proof. intros Hm Ho. unfold add_missing. destruct (m !! k); [done|by apply all_given_insert]. Qed.

Lemma add_missing_same k v m : is_Some (add_missing k v m !! k).
Proof. unfold add_missing. destruct (m !! k) eqn:E; [by rewrite E|by rewrite lookup_insert_eq]. Qed.

Lemma add_missing_other k k' v m : is_Some (m !! k') → is_Some (add_missing k v m !! k').
Proof.
  unfold add_missing. destruct (m !! k) eqn:E; [done|]. intros [o Ho].
  rewrite lookup_insert_ne; [by exists o|]. intros ->. congruence.
Qed.

Lemma outboundsToMap_given outbounds : all_given outbounds (outboundsToMap outbounds).
Proof.
  unfold outboundsToMap.
  assert (∀ l m, all_given outbounds m → (∀ ob, ob ∈ l → ob ∈ outbounds) →
    all_given outbounds (foldl (λ m ob, <[ToLower (oe_Name ob) := Some (oe_Outbound ob)]> m) m l)) as Hfold.
  { induction l as [|ob l IH]; intros m Hm Hl; [done|]. cbn [foldl]. apply IH; [|intros; apply Hl; by right].
    apply all_given_insert; [done|]. eexists. split; [done|]. right; right.
    apply list_elem_of_fmap_2. apply Hl. by left. }
  set (m0 := foldl _ ∅ outbounds).
  assert (all_given outbounds m0) as H0' by (apply Hfold; [intros ??; by rewrite lookup_empty|done]).
  clearbody m0. clear Hfold.
  assert (all_given outbounds (add_missing "direct" (Some directOutbound) m0)) as H1'
    by (apply add_missing_given; [done|]; exists directOutbound; by split; [|left]).
  assert (all_given outbounds (add_missing "reject" (Some rejectOutbound) (add_missing "direct" (Some directOutbound) m0))) as H2'
    by (apply add_missing_given; [done|]; exists rejectOutbound; by split; [|right; left]).
  apply add_missing_given; [done|]. destruct outbounds as [|ob l].
  - destruct (add_missing_other "reject" "direct" (Some rejectOutbound) _ (add_missing_same "direct" (Some directOutbound) m0)) as [d Hd].
    rewrite Hd. destruct (H2' _ _ Hd) as (x & -> & Hx). by exists x.
  - exists (oe_Outbound ob). split; [done|]. right; right. by left.
Qed.

Lemma outboundsToMap_default outbounds : is_Some (outboundsToMap outbounds !! "default"%string).
Proof. apply add_missing_same. Qed.

Lemma compile_rules_given outbounds loader trs rs :
  compile_rules (outboundsToMap outbounds) loader trs = Ok rs →
  Forall (λ r, given outbounds (cr_Outbound r)) rs.
Proof.
  revert rs. induction trs as [|tr trs IH]; intros rs; cbn [compile_rules].
  - intros [= <-]. constructor.
  - intros Hb. apply result_bind_inv in Hb as (r & Hr & Hb). apply result_bind_inv in Hb as (rs' & Hrs & Hb).
    injection Hb as <-. apply List.Forall_cons; [|by apply IH]. revert Hr. unfold compile_rule.
    destruct (outboundsToMap outbounds !! _) as [o|] eqn:Ho; [|done].
    apply outboundsToMap_given in Ho. repeat case_match; intros; simplify_eq; done.
Qed.

Lemma first_match_given outbounds rs host proto port :
  Forall (λ r : compiledRule O, given outbounds (cr_Outbound r)) rs →
  (first_match rs host proto port).1 = None ∨ given outbounds (first_match rs host proto port).1.
Proof.
  induction 1 as [|r rs Hr Hrs IH]; [by left|]. cbn [first_match]. case_if; [by right|done].
Qed.

(** What the dispatcher is to do with a request. *)
Definition dispatch (rs : list (compiledRule O)) (dflt : option O) (req : AddrEx * Protocol) : option O * AddrEx :=
  let '(reqAddr, proto) := req in
  match first_match rs (normalize_host (host_of reqAddr)) proto (ax_Port reqAddr) with
  | (None, _) => (dflt, reqAddr)
  | (Some ob, hijackIP) => (Some ob, hijack hijackIP reqAddr)
  end.

Definition request_ok (req : AddrEx * Protocol) : Prop := host_ok (host_of req.1).

(** An engine sends every request, whatever came before and whatever the
    cache keeps, to the outbound of the first rule that matches it, with its
    address rewritten when the rule says so, and to the default outbound when
    no rule matches; the outbound is always one that was configured or built
    in, never nil. *)
Theorem handle_dispatches text outbounds loader e reqs :
  NewACLEngineFromString text outbounds loader = Ok e → Forall request_ok reqs →
  ∃ trs rs, ParseTextRules text = Ok trs ∧ compile_rules (outboundsToMap outbounds) loader trs = Ok rs ∧
  (run handle e reqs).2 = dispatch rs (mjoin (outboundsToMap outbounds !! "default"%string)) <$> reqs ∧
  Forall (λ out, given outbounds out.1) (run handle e reqs).2.
Proof.
  unfold NewACLEngineFromString. intros He Hreqs.
  apply result_bind_inv in He as (trs & Htrs & He). cbv zeta in He.
  apply result_bind_inv in He as (s & Hs & He). injection He as <-. unfold Compile in Hs.
  apply result_bind_inv in Hs as (rs & Hrs & Hs). destruct (cache_New aclCacheSize) as [c|] eqn:Hc; [|done].
  injection Hs as <-. exists trs, rs. split; [done|]. split; [done|].
  set (dflt := mjoin _). assert (given outbounds dflt) as Hd.
  { unfold dflt. destruct (outboundsToMap_default outbounds) as [o Ho]. rewrite Ho.
    apply outboundsToMap_given in Ho. destruct Ho as (ob & -> & ?). by exists ob. }
  pose proof (compile_rules_given _ _ _ _ Hrs) as Hgiven.
  assert (cache_ok rs c) as Hok by (intros ?????; by rewrite (cache_New_empty _ _ Hc), lookup_empty).
  clear Hc. revert c Hok. induction Hreqs as [|req reqs Hreq Hreqs IH]; intros c Hok; [by split|].
  cbn [run fmap list_fmap]. destruct req as [reqAddr proto]. unfold handle. cbn [RuleSet Default].
  destruct (Match_step (mkRuleSet rs c) (host_of reqAddr, proto, ax_Port reqAddr)) as (E & Hr & Hc'); [done|done|].
  pose proof (first_match_given outbounds rs (normalize_host (host_of reqAddr)) proto (ax_Port reqAddr) Hgiven) as Hg.
  destruct (Match _ _) as [s' [ob ip]]. cbn [fst snd Rules rs_Cache] in *. destruct s' as [rs' c']. cbn in Hr, Hc'. subst rs'.
  specialize (IH c' Hc').
  unfold dispatch at 1. rewrite <-E in *. cbn [fst] in Hg.
  change (run _ ?e reqs) with (run handle e reqs) in *.
  destruct ob as [ob|]; destruct (run handle _ reqs) as [e' outs]; cbn [snd] in *.
  - destruct IH as [-> Hall]. split; [done|]. apply List.Forall_cons; [|done]. by destruct Hg.
  - destruct IH as [-> Hall]. split; [done|]. by apply List.Forall_cons.
Qed.
End Engine.

(** ** Witness: one hijacked request, one rejected, one by default *)
#[local] Existing Instance sample_tables.
#[local] Existing Instance sample_idna.
#[local] Existing Instance sample_regexp.
#[local] Existing Instance sample_sort.
#[local] Existing Instance sample_cache.

Definition sample_text : string :=
  "# split" ++ String newline ("direct(suffix:example.com, tcp, 10.0.0.1)" ++ String newline "Reject(10.0.0.0/8)").

Definition sample_engine : aclEngine :=
  match NewACLEngineFromString "direct" "reject" sample_text [mkEntry "proxy" "via proxy"] (mkGeoLoader None None) with
  | Ok e => e
  | Err _ => mkAclEngine (mkRuleSet [] ∅) None
  end.

Definition sample_requests : list (AddrEx * Protocol) :=
  [ (mkAddrEx "WWW.Example.com" 443 None, ProtocolTCP);
    (mkAddrEx "internal" 443 (Some (mkResolveInfo (ip_of "10.1.2.3") [] false)), ProtocolTCP);
    (mkAddrEx "internal" 443 None, ProtocolUDP) ].

Lemma handle_dispatches_witness :
  fst <$> (run handle sample_engine sample_requests).2 = [Some "direct"; Some "reject"; Some "via proxy"]%string
  ∧ Forall (λ out, given "direct"%string "reject"%string [mkEntry "proxy" "via proxy"%string] out.1)
      (run handle sample_engine sample_requests).2.
Proof.
  split; [vm_compute; reflexivity|].
  destruct (handle_dispatches "direct"%string "reject"%string sample_text [mkEntry "proxy" "via proxy"%string]
              (mkGeoLoader None None) sample_engine sample_requests) as (_ & _ & _ & _ & _ & Hall).
  - unfold sample_engine. assert (is_ok (NewACLEngineFromString "direct"%string "reject"%string sample_text
      [mkEntry "proxy" "via proxy"%string] (mkGeoLoader None None)) = true) as Hok by (vm_compute; reflexivity).
    by destruct (NewACLEngineFromString _ _ _ _ _).
  - repeat apply List.Forall_cons; try apply List.Forall_nil; split; try (by left); right; right; vm_compute; reflexivity.
  - exact Hall.
Defined.
