(* ===== verification/UdpServer.v ===== *)
(** * UDP sessions of the server (core/server/udp.go)

    One manager per connection, one entry per session, and the goroutines
    around them: the receive loop (Run), the idle sweep, and for each entry its
    send loop and receive loop.  A function of the source that runs under one
    lock, or between two channel operations, is one definition; the goroutines'
    turns are the labels of [step], and any interleaving is a list of labels.
    What the network and the outbounds answer is part of the label. *)
From S2P Require Import Protocol Frag Prelude.

Definition maxSessionACLCache : Z := 256.
Definition sessionSendQueueLen : Z := 1024.

(** What the world sees: the event logger's calls, the dials with their
    outcome, the policy checks, the writes to the target, the messages sent to
    the client, the closed connections.  [p] is the entry. *)
Inductive event : Type :=
| EvNew (p : nat) (sessionID : Z) (reqAddr : bytes)
| EvDial (p : nat) (addr : bytes) (ok : bool)
| EvCheck (p : nat) (addr : bytes) (ok : bool)
| EvWrite (p : nat) (addr : bytes) (data : bytes)
| EvSend (p : nat) (msg : UDPMessage)
| EvConnClose (p : nat)
| EvClose (p : nat) (sessionID : Z) (timedOut : bool).

Record udpSessionEntry := mkEntry {
  ID : Z;                         (* uint32 *)
  OverrideAddr : bytes;
  OriginalAddr : bytes;
  D : Defragger;
  Last : Z;
  conn : bool;                    (* a connection has been dialled *)
  closed : bool;                  (* and done is closed with it *)
  sendCh : list UDPMessage;
  sendLoop : bool;                (* its send loop is running *)
  recvLoop : bool;                (* its receive loop is running *)
  exiting : option bool;          (* between closing and ExitFunc; the error is nil *)
  aclCache : gmap bytes bool;     (* true is a nil error *)
}.

Definition newUDPSessionEntry (id now : Z) : udpSessionEntry :=
  mkEntry id [] [] NewDefragger now false false [] true false None ∅.

Definition set_Last (now : Z) (e : udpSessionEntry) : udpSessionEntry :=
  mkEntry (ID e) (OverrideAddr e) (OriginalAddr e) (D e) now (conn e) (closed e) (sendCh e) (sendLoop e) (recvLoop e) (exiting e) (aclCache e).
Definition set_D (d : Defragger) (e : udpSessionEntry) : udpSessionEntry :=
  mkEntry (ID e) (OverrideAddr e) (OriginalAddr e) d (Last e) (conn e) (closed e) (sendCh e) (sendLoop e) (recvLoop e) (exiting e) (aclCache e).
Definition set_sendCh (q : list UDPMessage) (e : udpSessionEntry) : udpSessionEntry :=
  mkEntry (ID e) (OverrideAddr e) (OriginalAddr e) (D e) (Last e) (conn e) (closed e) q (sendLoop e) (recvLoop e) (exiting e) (aclCache e).
Definition set_sendLoop (b : bool) (e : udpSessionEntry) : udpSessionEntry :=
  mkEntry (ID e) (OverrideAddr e) (OriginalAddr e) (D e) (Last e) (conn e) (closed e) (sendCh e) b (recvLoop e) (exiting e) (aclCache e).
Definition set_closed (c : bool) (x : option bool) (e : udpSessionEntry) : udpSessionEntry :=
  mkEntry (ID e) (OverrideAddr e) (OriginalAddr e) (D e) (Last e) (conn e) c (sendCh e) (sendLoop e) (recvLoop e) x (aclCache e).
Definition set_conn (override original : bytes) (e : udpSessionEntry) : udpSessionEntry :=
  mkEntry (ID e) override original (D e) (Last e) true (closed e) (sendCh e) (sendLoop e) true (exiting e) (aclCache e).
Definition set_aclCache (c : gmap bytes bool) (e : udpSessionEntry) : udpSessionEntry :=
  mkEntry (ID e) (OverrideAddr e) (OriginalAddr e) (D e) (Last e) (conn e) (closed e) (sendCh e) (sendLoop e) (recvLoop e) (exiting e) c.
Definition stop_recvLoop (e : udpSessionEntry) : udpSessionEntry :=
  mkEntry (ID e) (OverrideAddr e) (OriginalAddr e) (D e) (Last e) (conn e) (closed e) (sendCh e) (sendLoop e) false (exiting e) (aclCache e).

(** What dialling answers: the hook's error or the address it leaves, and
    whether the outbound gives a connection. *)
Record dial_answer := mkDial { hook : option bytes; dialled : bool }.

Section Entry.
Context `{QuicVarint} `{!MapRange Z defraggerEntry} `{!MapRange bytes bool}.

(** The two choices of a select whose cases are both ready are [pick].  The
    second component counts a full queue. *)
Definition Enqueue (msg : UDPMessage) (now : Z) (pick : bool) (e : udpSessionEntry) : udpSessionEntry * bool :=
  let e := set_Last now e in
  let room := len (sendCh e) <? sessionSendQueueLen in
  if room && (negb (closed e) || pick) then (set_sendCh (sendCh e ++ [msg]) e, false)
  else if closed e then (e, false)
  else (e, true).

(** The part under connLock; ExitFunc follows (see [ExitFunc]). *)
Definition CloseWithErr (p : nat) (timedOut : bool) (e : udpSessionEntry) : udpSessionEntry * list event :=
  if closed e then (e, [])
  else (set_closed true (Some timedOut) e, if conn e then [EvConnClose p] else []).

(** [dialFunc], a closure of the manager's [feed]. *)
Definition dialFunc (p : nat) (id : Z) (addr : bytes) (answer : dial_answer)
    : option bytes * list event :=
  match hook answer with
  | None => (None, [])
  | Some addr => (if dialled answer then Some addr else None, [EvNew p id addr; EvDial p addr (dialled answer)])
  end.

Definition initConn (p : nat) (firstMsg : UDPMessage) (answer : dial_answer) (e : udpSessionEntry)
    : udpSessionEntry * bool * list event :=
  if closed e then (e, false, []) else
  match dialFunc p (ID e) (Addr firstMsg) answer with
  | (None, evs) => let '(e, evs') := CloseWithErr p false e in (e, false, evs ++ evs')
  | (Some actualAddr, evs) =>
      (if decide (Addr firstMsg = actualAddr) then set_conn (OverrideAddr e) (OriginalAddr e) e
       else set_conn actualAddr (Addr firstMsg) e, true, evs)
  end.

(** Dropping the first entry a range visits. *)
Definition evict_one (c : gmap bytes bool) : gmap bytes bool :=
  match map_range c with (k, _) :: _ => delete k c | [] => c end.

Definition checkAddr (p : nat) (addr : bytes) (answer : bool) (e : udpSessionEntry)
    : udpSessionEntry * bool * list event :=
  match aclCache e !! addr with
  | Some decision => (e, decision, [])
  | None =>
      let c := if maxSessionACLCache <=? Z.of_nat (base.size (aclCache e)) then evict_one (aclCache e) else aclCache e in
      (set_aclCache (<[addr := answer]> c) e, answer, [EvCheck p addr answer])
  end.

(** [Feed]: the entry, whether there was no error, the events.  [check] is what
    CheckUDP answers, [written] whether the write succeeds. *)
Definition Feed (p : nat) (msg : UDPMessage) (now : Z) (answer : dial_answer) (check written : bool)
    (e : udpSessionEntry) : outcome (udpSessionEntry * bool * list event) :=
  let e := set_Last now e in
  '(d, dfMsg) ← Frag.Feed msg now (D e);
  let e := set_D d e in
  match dfMsg with
  | None => Ret (e, true, [])
  | Some dfMsg =>
      let '(e, ok, evs) :=
        if conn e then (e, true, []) else
        let '(e, ok, evs) := initConn p dfMsg answer e in
        (if ok && bool_decide (OverrideAddr e = []) then set_aclCache {[Addr dfMsg := true]} e else e, ok, evs) in
      if negb ok then Ret (e, false, evs) else
      if negb (bool_decide (OverrideAddr e = [])) then
        Ret (e, written, evs ++ [EvWrite p (OverrideAddr e) (Data dfMsg)])
      else
        let '(e, allowed, evs') := checkAddr p (Addr dfMsg) check e in
        if allowed then Ret (e, written, evs ++ evs' ++ [EvWrite p (Addr dfMsg) (Data dfMsg)])
        else Ret (e, false, evs ++ evs')
  end.

(** What SendMessage answers: fine, too large with the size that fits, or
    another error. *)
Inductive send_answer : Type := SendOk | SendTooLarge (MaxDatagramPayloadSize : Z) | SendErr.

(** [err := io.SendMessage(...)] for each fragment, until one fails. *)
Fixpoint send_all (fails : nat → bool) (k : nat) (fMsgs : list UDPMessage) : list UDPMessage * bool :=
  match fMsgs with
  | [] => ([], true)
  | f :: fMsgs => if fails k then ([f], false)
                  else let '(sent, ok) := send_all fails (S k) fMsgs in (f :: sent, ok)
  end.

(** The messages given to SendMessage, and whether there was no error; [rnd] is
    the random number below 0xFFFF. *)
Definition sendMessageAutoFrag (msg : UDPMessage) (answer : send_answer) (fails : nat → bool) (rnd : Z)
    : outcome (list UDPMessage * bool) :=
  match answer with
  | SendOk => Ret ([msg], true)
  | SendErr => Ret ([msg], false)
  | SendTooLarge maxSize =>
      let msg' := mkUDPMessage (SessionID msg) (u16 (rnd + 1)) (FragID msg) (FragCount msg) (Addr msg) (Data msg) in
      fMsgs ← FragUDPMessage msg' maxSize;
      let '(sent, ok) := send_all fails 0 fMsgs in
      Ret (msg :: sent, ok)
  end.

(** What ReadFrom answers to the receive loop. *)
Inductive read_answer : Type := ReadErr | ReadOk (rAddr data : bytes).

(** One turn of [receiveLoop], which runs once there is a connection. *)
Definition receive_turn (p : nat) (now : Z) (answer : read_answer) (send : send_answer) (fails : nat → bool)
    (rnd : Z) (e : udpSessionEntry) : outcome (udpSessionEntry * list event) :=
  match answer with
  | ReadErr => Ret (CloseWithErr p false (stop_recvLoop e))
  | ReadOk rAddr data =>
      let e := set_Last now e in
      let rAddr := if bool_decide (OriginalAddr e = []) then rAddr else OriginalAddr e in
      let msg := mkUDPMessage (ID e) 0 0 1 rAddr (take (Z.to_nat MaxUDPSize) data) in
      '(sent, ok) ← sendMessageAutoFrag msg send fails rnd;
      let evs := EvSend p <$> sent in
      if (ok : bool) then Ret (e, evs)
      else let '(e, evs') := CloseWithErr p false (stop_recvLoop e) in Ret (e, evs ++ evs')
  end.

End Entry.

(** ** The manager *)
Record udpSessionManager := mkManager {
  idleTimeout : Z;
  m : gmap Z nat;
  heap : gmap nat udpSessionEntry;       (* every entry ever made *)
  next : nat;
  QueueFull : Z;                         (* uint64 counters *)
  FeedFailed : Z;
  running : bool;                        (* Run has not returned *)
  feeding : option (nat * UDPMessage);   (* between the lookup of feed and Enqueue *)
  idleSweep : list nat;                  (* what the idle sweep still has to close *)
  finalSweep : list nat;                 (* what the sweep at the end of Run still has to close *)
}.

Definition newUDPSessionManager (idleTimeout : Z) : udpSessionManager :=
  mkManager idleTimeout ∅ ∅ 0 0 0 true None [] [].

Definition set_entry (p : nat) (e : udpSessionEntry) (s : udpSessionManager) : udpSessionManager :=
  mkManager (idleTimeout s) (m s) (<[p := e]> (heap s)) (next s) (QueueFull s) (FeedFailed s)
    (running s) (feeding s) (idleSweep s) (finalSweep s).

Section Manager.
Context `{QuicVarint} `{!MapRange Z defraggerEntry} `{!MapRange bytes bool} `{!MapRange Z nat}.

(** [feed] up to Enqueue: the session's entry, made if there is none. *)
Definition feed_lookup (msg : UDPMessage) (now : Z) (s : udpSessionManager) : udpSessionManager :=
  match m s !! SessionID msg with
  | Some p => mkManager (idleTimeout s) (m s) (heap s) (next s) (QueueFull s) (FeedFailed s)
                (running s) (Some (p, msg)) (idleSweep s) (finalSweep s)
  | None =>
      let p := next s in
      mkManager (idleTimeout s) (<[SessionID msg := p]> (m s))
        (<[p := newUDPSessionEntry (SessionID msg) now]> (heap s)) (S p) (QueueFull s) (FeedFailed s)
        (running s) (Some (p, msg)) (idleSweep s) (finalSweep s)
  end.

Definition feed_enqueue (now : Z) (pick : bool) (s : udpSessionManager) : udpSessionManager :=
  match feeding s with
  | Some (p, msg) =>
      match heap s !! p with
      | Some e =>
          let '(e, full) := Enqueue msg now pick e in
          mkManager (idleTimeout s) (m s) (<[p := e]> (heap s)) (next s)
            (if full then u64 (QueueFull s + 1) else QueueFull s) (FeedFailed s)
            (running s) None (idleSweep s) (finalSweep s)
      | None => s
      end
  | None => s
  end.

(** [exitFunc], the other closure: it logs and removes the session. *)
Definition ExitFunc (p : nat) (e : udpSessionEntry) (timedOut : bool) (s : udpSessionManager)
    : udpSessionManager * list event :=
  (mkManager (idleTimeout s) (delete (ID e) (m s)) (<[p := set_closed true None e]> (heap s)) (next s)
     (QueueFull s) (FeedFailed s) (running s) (feeding s) (idleSweep s) (finalSweep s),
   [EvClose p (ID e) timedOut]).

(** The scan of [cleanup]: the entries to close. *)
Definition swept (idleOnly : bool) (now : Z) (s : udpSessionManager) (p : nat) : bool :=
  match heap s !! p with
  | Some e => negb idleOnly || (idleTimeout s <? time_Sub now (Last e))
  | None => false
  end.

Definition cleanup_scan (idleOnly : bool) (now : Z) (s : udpSessionManager) : list nat :=
  filter (λ p, swept idleOnly now s p = true) (map_range (m s)).*2.

(** ** The goroutines *)
Inductive label : Type :=
| Receive (msg : UDPMessage) (now : Z)                    (* Run: ReceiveMessage, feed *)
| Push (now : Z) (pick : bool)                            (* Run: Enqueue *)
| Stop                                                    (* Run: ReceiveMessage fails; the scan *)
| StopNext                                                (* Run: the next CloseWithErr *)
| Sweep (now : Z)                                         (* the idle loop: a scan *)
| SweepNext                                               (* the idle loop: the next CloseWithErr *)
| Send (p : nat) (now : Z) (answer : dial_answer) (check written : bool)   (* sendLoop: a message *)
| SendDone (p : nat)                                      (* sendLoop: done *)
| Read (p : nat) (now : Z) (answer : read_answer) (send : send_answer) (fails : nat → bool) (rnd : Z)
| Exit (p : nat).                                         (* whoever closed it: ExitFunc *)

Definition close_entry (p : nat) (s : udpSessionManager) : udpSessionManager * list event :=
  match heap s !! p with
  | Some e => let '(e, evs) := CloseWithErr p true e in (set_entry p e s, evs)
  | None => (s, [])
  end.

Definition count_failed (ok : bool) (s : udpSessionManager) : udpSessionManager :=
  mkManager (idleTimeout s) (m s) (heap s) (next s) (QueueFull s)
    (if ok then FeedFailed s else u64 (FeedFailed s + 1)) (running s) (feeding s) (idleSweep s) (finalSweep s).

(** A label that is not possible changes nothing. *)
Definition step (s : udpSessionManager) (l : label) : outcome (udpSessionManager * list event) :=
  match l with
  | Receive msg now =>
      if running s && bool_decide (feeding s = None) then Ret (feed_lookup msg now s, []) else Ret (s, [])
  | Push now pick => Ret (feed_enqueue now pick s, [])
  | Stop =>
      if running s && bool_decide (feeding s = None)
      then Ret (mkManager (idleTimeout s) (m s) (heap s) (next s) (QueueFull s) (FeedFailed s) false None
                  (idleSweep s) (cleanup_scan false 0 s), [])
      else Ret (s, [])
  | StopNext =>
      match finalSweep s with
      | p :: ps => Ret (close_entry p (mkManager (idleTimeout s) (m s) (heap s) (next s) (QueueFull s) (FeedFailed s)
                                         (running s) (feeding s) (idleSweep s) ps))
      | [] => Ret (s, [])
      end
  | Sweep now =>
      if bool_decide (idleSweep s = [])
      then Ret (mkManager (idleTimeout s) (m s) (heap s) (next s) (QueueFull s) (FeedFailed s) (running s) (feeding s)
                  (cleanup_scan true now s) (finalSweep s), [])
      else Ret (s, [])
  | SweepNext =>
      match idleSweep s with
      | p :: ps => Ret (close_entry p (mkManager (idleTimeout s) (m s) (heap s) (next s) (QueueFull s) (FeedFailed s)
                                         (running s) (feeding s) ps (finalSweep s)))
      | [] => Ret (s, [])
      end
  | Send p now answer check written =>
      match heap s !! p with
      | Some e =>
          match sendLoop e, sendCh e with
          | true, msg :: q =>
              '(e, ok, evs) ← Feed p msg now answer check written (set_sendCh q e);
              Ret (count_failed ok (set_entry p e s), evs)
          | _, _ => Ret (s, [])
          end
      | None => Ret (s, [])
      end
  | SendDone p =>
      match heap s !! p with
      | Some e => if closed e then Ret (set_entry p (set_sendLoop false e) s, []) else Ret (s, [])
      | None => Ret (s, [])
      end
  | Read p now answer send fails rnd =>
      match heap s !! p with
      | Some e =>
          if recvLoop e then
            '(e, evs) ← receive_turn p now answer send fails rnd e;
            Ret (set_entry p e s, evs)
          else Ret (s, [])
      | None => Ret (s, [])
      end
  | Exit p =>
      match heap s !! p with
      | Some e => match exiting e with
                  | Some timedOut => Ret (ExitFunc p e timedOut s)
                  | None => Ret (s, [])
                  end
      | None => Ret (s, [])
      end
  end.

Fixpoint steps (s : udpSessionManager) (ls : list label) : outcome (udpSessionManager * list event) :=
  match ls with
  | [] => Ret (s, [])
  | l :: ls => '(s, evs) ← step s l; '(s, evs') ← steps s ls; Ret (s, evs ++ evs')
  end.

(** [Count]. *)
Definition Count (s : udpSessionManager) : Z := Z.of_nat (base.size (m s)).

End Manager.

(** ** Lemmas: the log *)
Definition about (ev : event) : nat :=
  match ev with
  | EvNew p _ _ | EvDial p _ _ | EvCheck p _ _ | EvWrite p _ _ | EvSend p _ | EvConnClose p | EvClose p _ _ => p
  end.

Definition is_exit (p : nat) (ev : event) : Prop := match ev with EvClose q _ _ => q = p | _ => False end.
Definition is_conn_close (p : nat) (ev : event) : Prop := match ev with EvConnClose q => q = p | _ => False end.
Definition is_write (ev : event) : Prop := match ev with EvWrite _ _ _ => True | _ => False end.

#[export] Instance is_exit_dec p ev : Decision (is_exit p ev).
Proof. destruct ev; cbn [is_exit is_conn_close]; apply _. Defined.
#[export] Instance is_conn_close_dec p ev : Decision (is_conn_close p ev).
Proof. destruct ev; cbn [is_exit is_conn_close]; apply _. Defined.

(** How often a session was reported closed, and its connection closed. *)
Definition exits (p : nat) (log : list event) : Z := len (filter (is_exit p) log).
Definition conn_closes (p : nat) (log : list event) : Z := len (filter (is_conn_close p) log).

(** The outbound agreed to this address, by dialling it or when asked. *)
Definition allowed (p : nat) (log : list event) (addr : bytes) : Prop :=
  EvDial p addr true ∈ log ∨ EvCheck p addr true ∈ log.

(** Every write was agreed to before. *)
Definition writes_ok (log : list event) : Prop :=
  ∀ l1 p addr data l2, log = l1 ++ EvWrite p addr data :: l2 → allowed p l1 addr.

Lemma exits_app p l k : exits p (l ++ k) = exits p l + exits p k.
Proof. unfold exits. by rewrite filter_app, len_app. Qed.

Lemma conn_closes_app p l k : conn_closes p (l ++ k) = conn_closes p l + conn_closes p k.
Proof. unfold conn_closes. by rewrite filter_app, len_app. Qed.

Lemma exits_none p evs : Forall (λ ev, ¬ is_exit p ev) evs → exits p evs = 0.
Proof.
  intros Hf. unfold exits. induction Hf as [|ev evs Hev Hf IH]; [done|]. by rewrite filter_cons_False.
Qed.

Lemma conn_closes_none p evs : Forall (λ ev, ¬ is_conn_close p ev) evs → conn_closes p evs = 0.
Proof.
  intros Hf. unfold conn_closes. induction Hf as [|ev evs Hev Hf IH]; [done|]. by rewrite filter_cons_False.
Qed.

Lemma other_silent p q evs : p ≠ q → Forall (λ ev, about ev = q) evs → exits p evs = 0 ∧ conn_closes p evs = 0.
Proof.
  intros Hpq Hf. split; [apply exits_none|apply conn_closes_none]; (eapply Forall_impl; [exact Hf|]);
    intros [] <-; cbn in *; congruence || done.
Qed.

Lemma allowed_app p l k addr : allowed p l addr → allowed p (l ++ k) addr.
Proof. unfold allowed. rewrite !elem_of_app. tauto. Qed.

Lemma writes_ok_app l k : writes_ok l → Forall (λ ev, ¬ is_write ev) k → writes_ok (l ++ k).
Proof.
  intros Hl Hk l1 p addr data l2 E.
  apply app_eq_inv in E as [(k' & -> & E)|(k' & -> & E)].
  - destruct k' as [|x k']; cbn in E; [|].
    + rewrite <-E in Hk. apply Forall_cons in Hk as [Hw _]. done.
    + injection E as <- _. eapply (Hl _ _ _ _ _ eq_refl).
  - rewrite E in Hk. apply Forall_app in Hk as [_ Hk]. apply Forall_cons in Hk as [Hw _]. done.
Qed.

Lemma writes_ok_snoc l p addr data : writes_ok l → allowed p l addr → writes_ok (l ++ [EvWrite p addr data]).
Proof.
  intros Hl Ha l1 q a d l2 E. destruct l2 as [|x l2 _] using rev_ind.
  - apply app_inj_tail in E as [<- [= -> -> _]]. done.
  - rewrite app_comm_cons, app_assoc in E. apply app_inj_tail in E as [-> _]. by eapply Hl.
Qed.

(** ** The invariant of an entry *)
Record entry_inv (p : nat) (log : list event) (e : udpSessionEntry) : Prop := {
  ei_D : Defragger_ok (D e);
  ei_queue : Forall wf_message (sendCh e);
  ei_room : len (sendCh e) <= sessionSendQueueLen;
  ei_cache : Z.of_nat (base.size (aclCache e)) <= maxSessionACLCache;
  ei_exiting : exiting e ≠ None → closed e = true;
  ei_recv : recvLoop e = true → conn e = true;
  ei_exits : exits p log = if closed e && bool_decide (exiting e = None) then 1 else 0;
  ei_conns : conn_closes p log = if closed e && conn e then 1 else 0;
  ei_undialled : conn e = false → OverrideAddr e = [];
  ei_override : OverrideAddr e ≠ [] → allowed p log (OverrideAddr e);
  ei_allowed a : aclCache e !! a = Some true → allowed p log a;
}.

(** What an operation on entry [p] keeps: the invariant with the events it
    adds, which are its own, and the identity and the state the manager sees. *)
Record keeps (p : nat) (log : list event) (e e' : udpSessionEntry) (evs : list event) : Prop := {
  kp_inv : entry_inv p (log ++ evs) e';
  kp_about : Forall (λ ev, about ev = p) evs;
  kp_writes : writes_ok log → writes_ok (log ++ evs);
  kp_ID : ID e' = ID e;
  kp_live : (closed e = false ∨ exiting e ≠ None) ↔ (closed e' = false ∨ exiting e' ≠ None);
  kp_closed : closed e = true → closed e' = true;
}.

Lemma keeps_trans p log e1 e2 e3 evs1 evs2 :
  keeps p log e1 e2 evs1 → keeps p (log ++ evs1) e2 e3 evs2 → keeps p log e1 e3 (evs1 ++ evs2).
Proof.
  intros [I1 A1 W1 D1 L1 C1] [I2 A2 W2 D2 L2 C2]. split.
  - by rewrite app_assoc.
  - by apply Forall_app.
  - rewrite app_assoc. auto.
  - congruence.
  - by rewrite L1.
  - auto.
Qed.

Lemma keeps_then p log e1 e2 e3 evs : keeps p log e1 e2 [] → keeps p log e2 e3 evs → keeps p log e1 e3 evs.
Proof. intros H1 H2. apply (keeps_trans p log e1 e2 e3 [] evs H1). by rewrite app_nil_r. Qed.

(** An operation without events that changes neither the connection nor the
    closing state. *)
Lemma keeps_quiet p log e e' :
  entry_inv p log e → ID e' = ID e → closed e' = closed e → exiting e' = exiting e → conn e' = conn e →
  Defragger_ok (D e') → Forall wf_message (sendCh e') → len (sendCh e') <= sessionSendQueueLen →
  Z.of_nat (base.size (aclCache e')) <= maxSessionACLCache → (recvLoop e' = true → conn e' = true) →
  (conn e' = false → OverrideAddr e' = []) →
  (OverrideAddr e' ≠ [] → allowed p log (OverrideAddr e')) → (∀ a, aclCache e' !! a = Some true → allowed p log a) →
  keeps p log e e' [].
Proof.
  intros [] HI Hc Hx Hn **. split; rewrite ?app_nil_r; try done; [|by rewrite Hc, Hx|by rewrite Hc].
  split; rewrite ?Hc, ?Hx, ?Hn; try done; by rewrite <-Hn.
Qed.

Lemma CloseWithErr_keeps p log timedOut e :
  entry_inv p log e → let '(e', evs) := CloseWithErr p timedOut e in keeps p log e e' evs ∧ closed e' = true.
Proof.
  intros He. unfold CloseWithErr. destruct (closed e) eqn:Hc.
  - split; [|done]. destruct He. by apply keeps_quiet.
  - destruct He as [? ? ? ? Hx ? Hex Hcc ? ? ?]. rewrite Hc in *. cbn [andb] in *.
    assert (exiting e = None) as Hn by (destruct (exiting e); [by specialize (Hx ltac:(done))|done]).
    split; [|done]. split; cbn; try done.
    + split; cbn; try done.
      * rewrite exits_app, Hex, exits_none by (destruct (conn e); repeat constructor; auto). done.
      * rewrite conn_closes_app, Hcc. destruct (conn e); cbn.
        -- unfold conn_closes. rewrite filter_cons_True by done. done.
        -- done.
      * intros Ho. apply allowed_app. auto.
      * intros a Ha. apply allowed_app. auto.
    + destruct (conn e); repeat constructor.
    + intros Hw. apply writes_ok_app; [done|]. destruct (conn e); repeat constructor; auto.
    + rewrite Hc. split; [intros _; by right|intros _; by left].
Qed.

(** Events that only inform. *)
Definition quiet (p : nat) (ev : event) : Prop :=
  about ev = p ∧ ¬ is_exit p ev ∧ ¬ is_conn_close p ev ∧ ¬ is_write ev.

Lemma entry_inv_log p log e evs : entry_inv p log e →
  Forall (λ ev, ¬ is_exit p ev) evs → Forall (λ ev, ¬ is_conn_close p ev) evs → entry_inv p (log ++ evs) e.
Proof.
  intros [] Hx Hc. split; try done.
  - rewrite exits_app, (exits_none p evs Hx). lia.
  - rewrite conn_closes_app, (conn_closes_none p evs Hc). lia.
  - intros. by apply allowed_app; auto.
  - intros. by apply allowed_app; auto.
Qed.

Lemma keeps_log p log e evs : entry_inv p log e → Forall (quiet p) evs → keeps p log e e evs.
Proof.
  intros He Hq. split; try done.
  - apply entry_inv_log; [done|..]; (eapply Forall_impl; [exact Hq|]); unfold quiet; naive_solver.
  - eapply Forall_impl; [exact Hq|]. unfold quiet. naive_solver.
  - intros Hw. apply writes_ok_app; [done|]. eapply Forall_impl; [exact Hq|]. unfold quiet. naive_solver.
Qed.

Lemma keeps_write p log e addr data : entry_inv p log e → allowed p log addr → keeps p log e e [EvWrite p addr data].
Proof.
  intros He Ha. split; try done.
  - apply entry_inv_log; [done|repeat constructor; auto..].
  - by repeat constructor.
  - intros. by apply writes_ok_snoc.
Qed.

Section EntryLemmas.
Context `{QuicVarint} `{!MapRange Z defraggerEntry} `{!MapRange bytes bool}.

Lemma Enqueue_keeps p log msg now pick e : entry_inv p log e → wf_message msg →
  keeps p log e (Enqueue msg now pick e).1 [].
Proof.
  intros He Hm. pose proof He as []. unfold Enqueue. cbn [sendCh set_Last closed].
  destruct ((len (sendCh e) <? sessionSendQueueLen) && _) eqn:Hroom.
  - apply andb_true_iff in Hroom as [Hroom%Z.ltb_lt _]. apply keeps_quiet; try done.
    + cbn. apply Forall_app. split; [done|]. apply List.Forall_cons; [done|apply List.Forall_nil].
    + cbn. rewrite len_app, len_cons. change (len []) with 0. unfold sessionSendQueueLen in *. lia.
  - case_if; by apply keeps_quiet.
Qed.

(** An address the outbound dials is not empty. *)
Definition answer_ok (answer : dial_answer) : Prop := dialled answer = true → hook answer ≠ Some [].

Lemma initConn_keeps p log firstMsg answer e : entry_inv p log e → answer_ok answer →
  let '(e', ok, evs) := initConn p firstMsg answer e in
  keeps p log e e' evs ∧
  (ok = true → conn e' = true ∧ (OverrideAddr e = [] → OverrideAddr e' = [] → allowed p (log ++ evs) (Addr firstMsg))).
Proof.
  intros He Ha. unfold initConn. destruct (closed e) eqn:Hc.
  { split; [|done]. apply keeps_log; [done|constructor]. }
  unfold dialFunc. destruct (hook answer) as [addr|] eqn:Hh.
  2:{ pose proof (CloseWithErr_keeps p log false e He) as Hcl. destruct (CloseWithErr p false e) as [e' evs']. by destruct Hcl. }
  assert (Forall (quiet p) [EvNew p (ID e) addr; EvDial p addr (dialled answer)]) as Hq
    by (repeat constructor; cbn; auto).
  pose proof (keeps_log p log e _ He Hq) as Hk. destruct (dialled answer) eqn:Hd.
  - assert (addr ≠ []) as Hne by (intros ->; by apply (Ha Hd)).
    assert (allowed p (log ++ [EvNew p (ID e) addr; EvDial p addr true]) addr) as Hal.
    { left. set_solver. }
    destruct Hk as [Hi Hab Hw _ _ _]. destruct Hi.
    assert (conn_closes p (log ++ [EvNew p (ID e) addr; EvDial p addr true]) = 0) as Hcc by (by rewrite ei_conns0, Hc).
    assert (exits p (log ++ [EvNew p (ID e) addr; EvDial p addr true]) = 0) as Hex by (by rewrite ei_exits0, Hc).
    case_decide as Heq.
    + subst addr. split; [|intros _; cbn; by split].
      split; cbn; rewrite ?Hc; try done; [].
      split; cbn; rewrite ?Hc; try done. by rewrite <-Hc.
    + split; [|intros _; cbn; split; [done|by intros _ ?]].
      split; cbn; rewrite ?Hc; try done; [].
      split; cbn; rewrite ?Hc; try done. by rewrite <-Hc.
  - pose proof (CloseWithErr_keeps p _ false e (kp_inv _ _ _ _ _ Hk)) as Hcl.
    destruct (CloseWithErr p false e) as [e' evs']. destruct Hcl as [Hcl _]. split; [|done]. by eapply keeps_trans.
Qed.

Lemma evict_one_size c : (1 <= base.size c)%nat → base.size (evict_one c) = (base.size c - 1)%nat.
Proof.
  intros Hc. unfold evict_one. destruct (map_range c) as [|[k v] l] eqn:E.
  - apply map_range_nil in E as ->. rewrite map_size_empty in Hc. lia.
  - assert (c !! k = Some v) as Hk by (apply elem_of_map_range; rewrite E; left).
    rewrite map_size_delete_Some by eauto. lia.
Qed.

Lemma evict_one_subseteq c : evict_one c ⊆ c.
Proof. unfold evict_one. destruct (map_range c) as [|[k v] l]; [done|apply delete_subseteq]. Qed.

Lemma checkAddr_keeps p log addr answer e : entry_inv p log e →
  let '(e', ok, evs) := checkAddr p addr answer e in
  keeps p log e e' evs ∧ (ok = true → allowed p (log ++ evs) addr) ∧ conn e' = conn e ∧ OverrideAddr e' = OverrideAddr e.
Proof.
  intros He. unfold checkAddr. destruct (aclCache e !! addr) as [d|] eqn:Hd.
  - split; [by apply keeps_log|]. split; [|done]. intros ->. rewrite app_nil_r. by apply (ei_allowed _ _ _ He).
  - assert (Forall (quiet p) [EvCheck p addr answer]) as Hq by (repeat constructor; cbn; auto).
    pose proof (keeps_log p log e _ He Hq) as Hk.
    assert (answer = true → allowed p (log ++ [EvCheck p addr answer]) addr) as Hal.
    { intros ->. right. apply elem_of_app. right. left. }
    split; [|by split].
    replace [EvCheck p addr answer] with ([EvCheck p addr answer] ++ []) by done.
    eapply keeps_trans; [exact Hk|]. destruct (kp_inv _ _ _ _ _ Hk). apply keeps_quiet; try done.
    + cbn. rewrite map_size_insert_None.
      * case_if; [|unfold maxSessionACLCache in *; lia]. rewrite evict_one_size by (unfold maxSessionACLCache in *; lia).
        unfold maxSessionACLCache in *. lia.
      * case_if; [|done]. apply not_elem_of_dom. intros Hin.
        apply (subseteq_dom _ _ (evict_one_subseteq (aclCache e))) in Hin. by apply not_elem_of_dom in Hd.
    + cbn. intros a [[<- ->]|[_ Hl]]%lookup_insert_Some; [by apply Hal|]. apply ei_allowed0.
      revert Hl. case_if; [|done]. intros Hl. eapply lookup_weaken; [exact Hl|apply evict_one_subseteq].
Qed.

Lemma Feed_keeps p log msg now answer check written e :
  entry_inv p log e → wf_message msg → answer_ok answer →
  ∃ e' ok evs, Feed p msg now answer check written e = Ret (e', ok, evs) ∧ keeps p log e e' evs.
Proof.
  intros He Hm Ha. unfold Feed. cbn [D set_Last].
  destruct (Feed_spec msg now (D e) (ei_D _ _ _ He) Hm) as (d & o & -> & Hd & _). cbn [mbind outcome_bind].
  set (e0 := set_D d (set_Last now e)).
  assert (keeps p log e e0 []) as H0 by (pose proof He as []; by apply keeps_quiet).
  destruct o as [dfMsg|]; [|by exists e0, true, []]. clearbody e0.
  set (r := if conn e0 then _ else _).
  assert (let '(e1, ok, evs) := r in keeps p log e e1 evs) as Hr.
  { unfold r. destruct (conn e0) eqn:Hconn; [done|].
    pose proof (initConn_keeps p log dfMsg answer e0) as Hi.
    destruct (initConn p dfMsg answer e0) as [[e1 ok] evs].
    pose proof (kp_inv _ _ _ _ _ H0) as I0. rewrite app_nil_r in I0. destruct (Hi I0 Ha) as [Hk Hok].
    pose proof (keeps_trans p log e e0 e1 [] evs H0) as Ht. rewrite app_nil_r in Ht. specialize (Ht Hk).
    destruct ok; cbn [andb]; [|done]. destruct (Hok eq_refl) as [Hc1 Hal]. case_bool_decide as Ho; [|done].
    replace evs with (evs ++ []) by apply app_nil_r. eapply keeps_trans; [exact Ht|].
    pose proof (kp_inv _ _ _ _ _ Ht) as I1. pose proof I1 as []. apply keeps_quiet; try done.
    - cbn. rewrite map_size_singleton. done.
    - cbn. intros a [<- _]%lookup_singleton_Some. apply Hal; [by apply (ei_undialled _ _ _ I0)|done]. }
  clearbody r. destruct r as [[e1 ok] evs]. rename Hr into H1.
  pose proof (kp_inv _ _ _ _ _ H1) as I1.
  destruct ok; cbn [negb]; [|by exists e1, false, evs].
  case_bool_decide as Ho; cbn [negb].
  - pose proof (checkAddr_keeps p (log ++ evs) (Addr dfMsg) check e1 I1) as Hc.
    destruct (checkAddr p (Addr dfMsg) check e1) as [[e2 al] evs2]. destruct Hc as (H2 & Hal & Hc2 & Ho2).
    pose proof (keeps_trans _ _ _ _ _ _ _ H1 H2) as H12.
    destruct al; (do 3 eexists; split; [done|]).
    + rewrite app_assoc. eapply keeps_trans; [exact H12|]. apply keeps_write; [apply H12|]. rewrite app_assoc. by apply Hal.
    + exact H12.
  - do 3 eexists. split; [done|]. eapply keeps_trans; [exact H1|].
    apply keeps_write; [done|]. by apply (ei_override _ _ _ I1).
Qed.

Lemma receive_turn_keeps p log now answer send fails rnd e : entry_inv p log e →
  (∃ e' evs, receive_turn p now answer send fails rnd e = Ret (e', evs) ∧ keeps p log e e' evs) ∨
  receive_turn p now answer send fails rnd e = Panic ∧ ∃ n, send = SendTooLarge n.
Proof.
  intros He. pose proof He as [].
  assert (entry_inv p log (stop_recvLoop e)) as Hs by (split; cbn; done).
  unfold receive_turn. destruct answer as [|rAddr data].
  { left. pose proof (CloseWithErr_keeps p log false _ Hs) as Hc.
    destruct (CloseWithErr p false (stop_recvLoop e)) as [e' evs]. destruct Hc as [Hc _].
    do 2 eexists. split; [done|]. apply (keeps_then p log e (stop_recvLoop e)); [by apply keeps_quiet|done]. }
  set (msg := mkUDPMessage _ _ _ _ _ _).
  destruct (sendMessageAutoFrag msg send fails rnd) as [[sent ok]|] eqn:Hsend.
  2:{ right. cbn [mbind outcome_bind]. split; [done|]. revert Hsend. unfold sendMessageAutoFrag. destruct send; eauto; done. }
  left. cbn [mbind outcome_bind].
  assert (Forall (quiet p) (EvSend p <$> sent)) as Hq
    by (apply Forall_fmap, Forall_true; intros; unfold quiet; cbn; auto).
  set (e1 := set_Last now e).
  assert (keeps p log e e1 (EvSend p <$> sent)) as H1.
  { assert (keeps p log e e1 []) as H0 by by apply keeps_quiet.
    apply (keeps_then p log e e1); [done|]. apply keeps_log; [|done]. generalize (kp_inv _ _ _ _ _ H0). by rewrite app_nil_r. }
  destruct ok; [by eauto|].
  pose proof (kp_inv _ _ _ _ _ H1) as I1. pose proof I1 as [].
  assert (keeps p (log ++ (EvSend p <$> sent)) e1 (stop_recvLoop e1) []) as H2 by by apply keeps_quiet.
  pose proof (kp_inv _ _ _ _ _ H2) as I2. rewrite app_nil_r in I2.
  pose proof (CloseWithErr_keeps p _ false _ I2) as Hc.
  destruct (CloseWithErr p false (stop_recvLoop e1)) as [e' evs]. destruct Hc as [Hc _].
  do 2 eexists. split; [done|]. eapply keeps_trans; [exact H1|]. by eapply keeps_then.
Qed.
End EntryLemmas.

(** ** The invariant of the manager *)
Definition live (e : udpSessionEntry) : Prop := closed e = false ∨ exiting e ≠ None.

Record Inv (log : list event) (s : udpSessionManager) : Prop := {
  inv_fresh p : (next s <= p)%nat → heap s !! p = None ∧ Forall (λ ev, about ev ≠ p) log;
  inv_entry p e : heap s !! p = Some e → entry_inv p log e;
  inv_map id p : m s !! id = Some p ↔ ∃ e, heap s !! p = Some e ∧ ID e = id ∧ live e;
  inv_feeding p msg : feeding s = Some (p, msg) → running s = true ∧ is_Some (heap s !! p) ∧ wf_message msg;
  inv_done p e : running s = false → heap s !! p = Some e → closed e = false → p ∈ finalSweep s;
  inv_writes : writes_ok log;
}.

(** The messages are decoded ones, and an outbound does not dial "". *)
Definition label_ok (l : label) : Prop :=
  match l with
  | Receive msg _ => wf_message msg
  | Send _ _ answer _ _ => answer_ok answer
  | _ => True
  end.

(** A reply the connection has refused for its size. *)
Definition too_large (l : label) : Prop :=
  match l with Read _ _ (ReadOk _ _) (SendTooLarge _) _ _ => True | _ => False end.

Lemma entry_inv_other p q log evs e : p ≠ q → Forall (λ ev, about ev = q) evs →
  entry_inv p log e → entry_inv p (log ++ evs) e.
Proof.
  intros Hpq Hf He. destruct (other_silent p q evs Hpq Hf) as [Hx Hc]. destruct He. split; try done.
  - by rewrite exits_app, Hx, Z.add_0_r.
  - by rewrite conn_closes_app, Hc, Z.add_0_r.
  - intros. by apply allowed_app; auto.
  - intros. by apply allowed_app; auto.
Qed.

(** Only these fields of the manager are constrained. *)
Lemma Inv_frame log s s' : Inv log s →
  m s' = m s → heap s' = heap s → next s' = next s → running s' = running s →
  (∀ p msg, feeding s' = Some (p, msg) → feeding s = Some (p, msg)) →
  (running s = false → ∀ p e, p ∈ finalSweep s → heap s !! p = Some e → closed e = false → p ∈ finalSweep s') →
  Inv log s'.
Proof.
  intros [] Hm Hh Hn Hr Hf Hs. split; rewrite ?Hm, ?Hh, ?Hn, ?Hr; eauto.
Qed.

Lemma Inv_set_entry log s p e e' evs : Inv log s → heap s !! p = Some e → keeps p log e e' evs →
  Inv (log ++ evs) (set_entry p e' s).
Proof.
  intros [] Hp Hk. destruct Hk as [Ki Ka Kw Kid Kl Kc]. split; cbn.
  - intros q Hq. destruct (inv_fresh0 q Hq) as [Hn Hf].
    assert (p ≠ q) as Hpq by congruence. rewrite lookup_insert_ne by done. split; [done|].
    apply Forall_app. split; [done|]. eapply Forall_impl; [exact Ka|]. intros ev Hev ?. apply Hpq. by rewrite <-Hev.
  - intros q eq [[<- <-]|[Hpq Hq]]%lookup_insert_Some; [done|]. eapply entry_inv_other; [|exact Ka|by apply inv_entry0].
    done.
  - intros id q. rewrite inv_map0. destruct (decide (p = q)) as [<-|Hpq].
    + rewrite lookup_insert_eq, Hp. split; intros (? & [= <-] & <- & Hl);
        (eexists; split_and!; [done|done|by apply Kl]).
    + by setoid_rewrite lookup_insert_ne.
  - intros q msg Hf. destruct (inv_feeding0 q msg Hf) as (? & Hs & ?). split_and!; [done| |done].
    destruct (decide (p = q)) as [<-|Hpq]; [rewrite lookup_insert_eq; by eexists|by rewrite lookup_insert_ne].
  - intros q eq Hr [[<- <-]|[Hpq Hq]]%lookup_insert_Some Hc; [|by eapply inv_done0].
    apply (inv_done0 p e Hr Hp). destruct (closed e); [by specialize (Kc eq_refl); congruence|done].
  - by apply Kw.
Qed.

Section Steps.
Context `{QuicVarint} `{!MapRange Z defraggerEntry} `{!MapRange bytes bool} `{!MapRange Z nat}.

Lemma Inv_Receive log s msg now : Inv log s → running s = true → wf_message msg → Inv log (feed_lookup msg now s).
Proof.
  intros HI Hr Hm. unfold feed_lookup. destruct (m s !! SessionID msg) as [p|] eqn:Hid; destruct HI.
  - apply inv_map0 in Hid as (e & Hp & _). split; cbn; eauto. by intros ? ? [= <- <-].
  - pose proof (inv_fresh0 (next s) (le_n _)) as [Hn Hlog]. split; cbn.
    + intros p Hp. rewrite lookup_insert_ne by lia. apply inv_fresh0. lia.
    + intros p e [[<- <-]|[Hp He]]%lookup_insert_Some; [|by apply inv_entry0].
      pose proof NewDefragger_ok. split; cbn; try done.
      * apply exits_none. eapply Forall_impl; [exact Hlog|]. intros []; cbn; congruence || auto.
      * apply conn_closes_none. eapply Forall_impl; [exact Hlog|]. intros []; cbn; congruence || auto.
    + intros id p. destruct (decide (next s = p)) as [<-|Hp].
      * rewrite lookup_insert_eq. rewrite lookup_insert_Some. split.
        -- intros [[<- _]|[_ Hx]]; [eexists; split_and!; [done|done|by left]|].
           apply inv_map0 in Hx as (e & He & _). congruence.
        -- intros (e & [= <-] & <- & _). by left.
      * rewrite (lookup_insert_ne (heap s)) by done. rewrite <-inv_map0, lookup_insert_Some. split.
        -- intros [[_ ?]|[_ Hx]]; done.
        -- intros Hx. right. split; [|done]. intros <-. congruence.
    + intros p msg' [= <- <-]. split_and!; [done|rewrite lookup_insert_eq; by eexists|done].
    + congruence.
    + done.
Qed.

Lemma Inv_Push log s now pick : Inv log s → Inv log (feed_enqueue now pick s).
Proof.
  intros HI. unfold feed_enqueue. destruct (feeding s) as [[p msg]|] eqn:Hf; [|done].
  destruct (heap s !! p) as [e|] eqn:Hp; [|done]. destruct (inv_feeding _ _ HI p msg Hf) as (Hr & _ & Hm).
  pose proof (Enqueue_keeps p log msg now pick e (inv_entry _ _ HI p e Hp) Hm) as Hk.
  destruct (Enqueue msg now pick e) as [e' full]. pose proof (Inv_set_entry _ _ _ _ _ _ HI Hp Hk) as Hs.
  rewrite app_nil_r in Hs. eapply Inv_frame; [exact Hs|done..].
Qed.

Lemma Inv_close log s p : Inv log s →
  Inv (log ++ (close_entry p s).2) (close_entry p s).1 ∧
  (∀ e, heap (close_entry p s).1 !! p = Some e → closed e = true) ∧
  running (close_entry p s).1 = running s ∧ finalSweep (close_entry p s).1 = finalSweep s.
Proof.
  intros HI. unfold close_entry. destruct (heap s !! p) as [e|] eqn:Hp.
  - pose proof (CloseWithErr_keeps p log true e (inv_entry _ _ HI p e Hp)) as Hc.
    destruct (CloseWithErr p true e) as [e' evs]. destruct Hc as [Hk Hcl]. cbn. split_and!; [by eapply Inv_set_entry| |done..].
    intros e1. rewrite lookup_insert_eq. by intros [= <-].
  - cbn. rewrite app_nil_r. split_and!; [done|congruence|done..].
Qed.

Lemma Inv_Exit log s p e timedOut : Inv log s → heap s !! p = Some e → exiting e = Some timedOut →
  let r := ExitFunc p e timedOut s in Inv (log ++ r.2) r.1.
Proof.
  intros HI Hp Hx. cbn. pose proof (inv_entry _ _ HI p e Hp) as He. destruct HI.
  assert (closed e = true) as Hc by (apply (ei_exiting _ _ _ He); congruence).
  assert (Forall (λ ev, about ev = p) [EvClose p (ID e) timedOut]) as Ha by by repeat constructor.
  split; cbn.
  - intros q Hq. destruct (inv_fresh0 q Hq) as [Hn Hf]. assert (p ≠ q) as Hpq by congruence.
    rewrite lookup_insert_ne by done. split; [done|]. apply Forall_app. split; [done|]. by repeat constructor.
  - intros q e' [[<- <-]|[Hpq Hq]]%lookup_insert_Some; [|by eapply entry_inv_other; [|exact Ha|apply inv_entry0]].
    destruct He. split; cbn; try done.
    + rewrite exits_app, ei_exits0, Hc, Hx. rewrite bool_decide_eq_false_2 by done. cbn.
      unfold exits. by rewrite filter_cons_True.
    + rewrite conn_closes_app, ei_conns0, Hc. rewrite conn_closes_none by (repeat constructor; auto). cbn. lia.
    + intros. by apply allowed_app; auto.
    + intros. by apply allowed_app; auto.
  - intros id q. rewrite lookup_delete_Some, inv_map0. destruct (decide (p = q)) as [<-|Hpq].
    + rewrite lookup_insert_eq, Hp. split.
      * intros [Hne (? & [= <-] & <- & _)]. done.
      * intros (? & [= <-] & <- & [Hl|Hl]); cbn in Hl; done.
    + setoid_rewrite lookup_insert_ne; [|done]. split; [by intros [_ Hl]|]. intros Hl. split; [|done].
      intros <-. apply Hpq. assert (m s !! ID e = Some p) as Hm1.
      { apply inv_map0. exists e. split_and!; [done|done|right; congruence]. }
      apply inv_map0 in Hl. congruence.
  - intros q msg Hf. destruct (inv_feeding0 q msg Hf) as (? & Hs & ?). split_and!; [done| |done].
    destruct (decide (p = q)) as [<-|Hpq]; [rewrite lookup_insert_eq; by eexists|by rewrite lookup_insert_ne].
  - intros q e' Hr [[<- <-]|[_ Hq]]%lookup_insert_Some Hcl; [done|by eapply inv_done0].
  - apply writes_ok_app; [done|]. apply List.Forall_cons; [by intros []|apply List.Forall_nil].
Qed.

(** A sweep's list may change with what it closes. *)
Lemma Inv_close_next log s s0 p : Inv log s →
  m s0 = m s → heap s0 = heap s → next s0 = next s → running s0 = running s → feeding s0 = feeding s →
  (∀ q, q ∈ finalSweep s → q = p ∨ q ∈ finalSweep s0) →
  let r := close_entry p s0 in Inv (log ++ r.2) r.1.
Proof.
  intros HI Hm Hh Hn Hr Hf Hs. pose proof (Inv_close log s p HI) as (Hi & Hc & Hr' & Hs').
  assert ((close_entry p s0).2 = (close_entry p s).2) as He.
  { unfold close_entry. rewrite Hh. destruct (heap s !! p) as [e|]; [|done]. by destruct (CloseWithErr p true e). }
  cbn. rewrite He. eapply Inv_frame; [exact Hi|..].
  1-5: unfold close_entry; rewrite Hh; destruct (heap s !! p) as [e|]; [destruct (CloseWithErr p true e)|];
    cbn; congruence.
  assert (finalSweep (close_entry p s0).1 = finalSweep s0) as ->.
  { unfold close_entry. destruct (heap s0 !! p) as [e|]; [|done]. by destruct (CloseWithErr p true e). }
  rewrite Hs'. intros _ q e Hq He' Hce. destruct (Hs q Hq) as [->|]; [|done]. specialize (Hc e He'). congruence.
Qed.

Lemma step_Inv log s l : Inv log s → label_ok l →
  (∃ s' evs, step s l = Ret (s', evs) ∧ Inv (log ++ evs) s') ∨ step s l = Panic ∧ too_large l.
Proof.
  intros HI Hl.
  assert (∃ s' evs, Ret (s, []) = Ret (s', evs) ∧ Inv (log ++ evs) s') as Hid
    by (do 2 eexists; split; [done|]; by rewrite app_nil_r).
  destruct l as [msg now|now pick| | |now| |p now answer check written|p|p now answer send fails rnd|p];
    cbn [step label_ok too_large] in *.
  - left. destruct (running s && _) eqn:Hr; [apply andb_true_iff in Hr as [Hr _]|done]. do 2 eexists. split; [done|]. rewrite app_nil_r. by apply Inv_Receive.
  - left. do 2 eexists. split; [done|]. rewrite app_nil_r. by apply Inv_Push.
  - left. destruct (running s && _) eqn:Hr; [apply andb_true_iff in Hr as [Hr _]|done]. do 2 eexists. split; [done|]. rewrite app_nil_r.
    destruct HI. split; cbn; try done. intros p e _ Hp Hc. apply list_elem_of_filter. split.
    + unfold swept. by rewrite Hp.
    + apply list_elem_of_fmap. exists (ID e, p). split; [done|]. apply elem_of_map_range, inv_map0.
      exists e. split_and!; [done|done|by left].
  - left. destruct (finalSweep s) as [|p ps] eqn:Hs; [done|]. do 2 eexists. split; [apply f_equal, surjective_pairing|].
    apply Inv_close_next with s; try done. rewrite Hs. cbn. intros q Hq. apply elem_of_cons in Hq. tauto.
  - left. case_if; [|done]. do 2 eexists. split; [done|]. rewrite app_nil_r. by eapply Inv_frame.
  - left. destruct (idleSweep s) as [|p ps] eqn:Hs; [done|]. do 2 eexists. split; [apply f_equal, surjective_pairing|].
    apply Inv_close_next with s; try done. intros q Hq. by right.
  - left. destruct (heap s !! p) as [e|] eqn:Hp; [|done]. destruct (sendLoop e); [|done].
    destruct (sendCh e) as [|msg q] eqn:Hq; [done|]. pose proof (inv_entry _ _ HI p e Hp) as He.
    pose proof (ei_queue _ _ _ He) as Hwf. rewrite Hq in Hwf. apply Forall_cons in Hwf as [Hm Hwf].
    assert (keeps p log e (set_sendCh q e) []) as H1.
    { pose proof He as []. apply keeps_quiet; try done. cbn. rewrite Hq, len_cons in *. lia. }
    pose proof (kp_inv _ _ _ _ _ H1) as I1. rewrite app_nil_r in I1.
    destruct (Feed_keeps p log msg now answer check written _ I1 Hm Hl) as (e' & ok & evs & -> & Hk).
    cbn [mbind outcome_bind]. do 2 eexists. split; [done|].
    eapply Inv_frame; [eapply Inv_set_entry; [exact HI|exact Hp|by eapply keeps_then]|done..].
  - left. destruct (heap s !! p) as [e|] eqn:Hp; [|done]. case_if; [|done]. do 2 eexists. split; [done|].
    eapply Inv_set_entry; [exact HI|exact Hp|]. pose proof (inv_entry _ _ HI p e Hp) as He. pose proof He as []. by apply keeps_quiet.
  - destruct (heap s !! p) as [e|] eqn:Hp; [|by left]. destruct (recvLoop e) eqn:Hr; [|by left].
    destruct answer as [|rAddr data].
    { left. destruct (receive_turn_keeps p log now ReadErr send fails rnd e (inv_entry _ _ HI p e Hp))
        as [(e' & evs & -> & Hk)|[Hx _]]; [|done].
      cbn [mbind outcome_bind]. do 2 eexists. split; [done|]. by eapply Inv_set_entry. }
    destruct (receive_turn_keeps p log now (ReadOk rAddr data) send fails rnd e (inv_entry _ _ HI p e Hp))
      as [(e' & evs & -> & Hk)|[-> [n ->]]].
    + left. cbn [mbind outcome_bind]. do 2 eexists. split; [done|]. by eapply Inv_set_entry.
    + by right.
  - left. destruct (heap s !! p) as [e|] eqn:Hp; [|done]. destruct (exiting e) as [b|] eqn:Hx; [|done].
    do 2 eexists. split; [apply f_equal, surjective_pairing|]. by apply Inv_Exit.
Qed.

Lemma steps_Inv ls : ∀ log s, Inv log s → Forall label_ok ls →
  (∃ s' evs, steps s ls = Ret (s', evs) ∧ Inv (log ++ evs) s') ∨ steps s ls = Panic ∧ Exists too_large ls.
Proof.
  induction ls as [|l ls IH]; intros log s HI Hls; cbn [steps].
  - left. do 2 eexists. split; [done|]. by rewrite app_nil_r.
  - apply Forall_cons in Hls as [Hl Hls].
    destruct (step_Inv log s l HI Hl) as [(s1 & evs1 & -> & H1)|[-> Ht]]; cbn [mbind outcome_bind].
    + destruct (IH _ _ H1 Hls) as [(s2 & evs2 & -> & H2)|[-> Ht]]; cbn [mbind outcome_bind].
      * left. do 2 eexists. split; [done|]. by rewrite app_assoc.
      * right. split; [done|]. by apply List.Exists_cons_tl.
    + right. split; [done|]. by apply List.Exists_cons_hd.
Qed.

Lemma newUDPSessionManager_Inv idle : Inv [] (newUDPSessionManager idle).
Proof.
  split; cbn; try done.
  - intros id p. rewrite lookup_empty. split; [done|]. intros (e & He & _). by rewrite lookup_empty in He.
  - intros l1 p addr data l2 E. by destruct l1.
Qed.
End Steps.

(** ** Properties *)
Section Properties.
Context `{QuicVarint} `{!MapRange Z defraggerEntry} `{!MapRange bytes bool} `{!MapRange Z nat}.

Lemma first_queued idle msg now1 now2 pick :
  heap (feed_enqueue now2 pick (feed_lookup msg now1 (newUDPSessionManager idle))) !! 0%nat =
  Some (set_sendCh [msg] (set_Last now2 (newUDPSessionEntry (SessionID msg) now1))).
Proof.
  unfold feed_lookup. cbn [m newUDPSessionManager]. rewrite lookup_empty. unfold feed_enqueue. cbn [feeding heap next].
  rewrite lookup_insert_eq. unfold Enqueue. cbn [set_Last sendCh newUDPSessionEntry closed heap].
  change (len [] <? sessionSendQueueLen) with true. cbn [andb orb negb heap]. apply lookup_insert_eq.
Qed.

Lemma Feed_dials p msg now addr check written e :
  FragCount msg <= 1 → addr ≠ [] → Addr msg ≠ addr → conn e = false → closed e = false →
  let e' := set_D (D e) (set_Last now e) in
  Feed p msg now (mkDial (Some addr) true) check written e =
  Ret (set_conn addr (Addr msg) e', written,
       [EvNew p (ID e) addr; EvDial p addr true] ++ [EvWrite p addr (Data msg)]).
Proof.
  intros Hf Ha Hne Hc Hcl e'. unfold Feed. cbn [set_Last D]. rewrite Feed_small by done. cbn [mbind outcome_bind].
  fold e'. assert (conn e' = false) as -> by done. unfold initConn. assert (closed e' = false) as -> by done.
  unfold dialFunc. cbn [hook dialled]. rewrite decide_False by done. cbn [set_conn OverrideAddr andb].
  rewrite bool_decide_eq_false_2 by done. cbn [negb OverrideAddr set_conn andb].
  rewrite bool_decide_eq_false_2 by done. done.
Qed.

(** The reply as it is split: [rnd] gives the packet ID. *)
Definition split_reply (sessionID rnd : Z) (addr data : bytes) : UDPMessage :=
  mkUDPMessage sessionID (u16 (rnd + 1)) 0 1 addr (take (Z.to_nat MaxUDPSize) data).

(** C2: However the receive loop, the idle sweep and the sessions' send and
    receive loops interleave, the manager either is in a state where its map
    holds exactly the sessions not yet reported closed, one per ID, with every
    queue within 1024 messages and every policy cache within 256 decisions,
    where a session has been reported closed once if it is finished and not at
    all otherwise, and its connection, if it was dialled, has been closed
    exactly once if the session is closed; or it has panicked splitting a reply
    that did not fit in a datagram. *)
Theorem sessions_tracked idle ls : Forall label_ok ls →
  (∃ s log, steps (newUDPSessionManager idle) ls = Ret (s, log) ∧
     (∀ id p, m s !! id = Some p ↔ ∃ e, heap s !! p = Some e ∧ ID e = id ∧ (closed e = false ∨ exiting e ≠ None)) ∧
     (∀ p e, heap s !! p = Some e →
        len (sendCh e) <= 1024 ∧ Z.of_nat (base.size (aclCache e)) <= 256 ∧
        exits p log = (if closed e && bool_decide (exiting e = None) then 1 else 0) ∧
        conn_closes p log = (if closed e && conn e then 1 else 0))) ∨
  steps (newUDPSessionManager idle) ls = Panic ∧ Exists too_large ls.
Proof.
  intros Hls. destruct (steps_Inv ls [] _ (newUDPSessionManager_Inv idle) Hls) as [(s & log & E & HI)|]; [|by right].
  left. exists s, log. split; [done|]. split; [apply HI|]. intros p e Hp. destruct (inv_entry _ _ HI p e Hp). done.
Qed.

(** C3: Once Run has ended, its sweep is through and no closed session has its
    report outstanding, nothing is left: every session ever made is closed and
    has been reported closed exactly once, every connection dialled is closed
    exactly once, and the count is zero. *)
Theorem Run_leaves_nothing idle ls s log : Forall label_ok ls →
  steps (newUDPSessionManager idle) ls = Ret (s, log) →
  running s = false → finalSweep s = [] → (∀ p e, heap s !! p = Some e → exiting e = None) →
  Count s = 0 ∧
  ∀ p e, heap s !! p = Some e →
    closed e = true ∧ exits p log = 1 ∧ conn_closes p log = (if conn e then 1 else 0).
Proof.
  intros Hls E Hr Hs Hx.
  destruct (steps_Inv ls [] _ (newUDPSessionManager_Inv idle) Hls) as [(s' & log' & E' & HI)|[E' _]]; [|congruence].
  rewrite E in E'. injection E' as <- <-. cbn in HI.
  assert (∀ p e, heap s !! p = Some e → closed e = true) as Hc.
  { intros p e Hp. destruct (closed e) eqn:Hc; [done|]. pose proof (inv_done _ _ HI p e Hr Hp Hc) as Hin.
    rewrite Hs in Hin. by apply not_elem_of_nil in Hin. }
  split.
  - unfold Count. assert (m s = ∅) as ->; [|by rewrite map_size_empty].
    apply map_eq. intros id. rewrite lookup_empty. destruct (m s !! id) as [p|] eqn:Hid; [|done].
    apply (inv_map _ _ HI) in Hid as (e & Hp & _ & [Hl|Hl]); [specialize (Hc p e Hp); congruence|by specialize (Hx p e Hp)].
  - intros p e Hp. destruct (inv_entry _ _ HI p e Hp). specialize (Hc p e Hp). specialize (Hx p e Hp).
    rewrite Hc, bool_decide_eq_true_2 in * by done. done.
Qed.

(** C4: A datagram is only ever written to an address the outbound has agreed to
    for that session before: by dialling it, or by allowing it when asked. *)
Theorem writes_allowed idle ls s log l1 p addr data l2 : Forall label_ok ls →
  steps (newUDPSessionManager idle) ls = Ret (s, log) → log = l1 ++ EvWrite p addr data :: l2 →
  EvDial p addr true ∈ l1 ∨ EvCheck p addr true ∈ l1.
Proof.
  intros Hls E Hlog.
  destruct (steps_Inv ls [] _ (newUDPSessionManager_Inv idle) Hls) as [(s' & log' & E' & HI)|[E' _]]; [|congruence].
  rewrite E in E'. injection E' as <- <-. by eapply (inv_writes _ _ HI).
Qed.

(** With a hook that rewrites the address, the replies carry the address the
    client asked for.  When it is so long that a reply takes more than 255
    fragments, one message of the client and one reply of the target crash the
    server: splitting the reply panics in the session's own goroutine. *)
Theorem long_address_crashes idle msg addr check written rAddr data maxSize fails rnd now1 now2 now3 now4 pick :
  FragCount msg <= 1 → addr ≠ [] → Addr msg ≠ [] → Addr msg ≠ addr →
  let reply := split_reply (SessionID msg) rnd (Addr msg) data in
  maxSize < Protocol.Size reply → HeaderSize reply < maxSize → 255 < needed reply maxSize →
  steps (newUDPSessionManager idle)
    [Receive msg now1; Push now2 pick; Send 0 now3 (mkDial (Some addr) true) check written;
     Read 0 now4 (ReadOk rAddr data) (SendTooLarge maxSize) fails rnd] = Panic.
Proof.
  intros Hf Ha Hm Hne reply Hs Hh Hn. cbn [steps step]. cbn [running feeding newUDPSessionManager].
  rewrite bool_decide_eq_true_2 by done. cbn [andb mbind outcome_bind].
  rewrite (first_queued idle msg now1 now2 pick). cbn [sendLoop sendCh set_sendCh set_Last newUDPSessionEntry].
  rewrite (Feed_dials 0 msg now3 addr check written) by done. cbn [mbind outcome_bind].
  cbn [count_failed set_entry heap]. rewrite lookup_insert_eq. cbn [recvLoop set_conn].
  unfold receive_turn, sendMessageAutoFrag. cbn [OriginalAddr set_conn set_Last ID].
  rewrite bool_decide_eq_false_2 by done. cbn [SessionID PacketID FragID FragCount Addr Data].
  change (mkUDPMessage _ (u16 (rnd + 1)) _ _ _ _) with reply.
  rewrite (FragUDPMessage_overflow reply maxSize) by done. done.
Qed.
End Properties.

(** ** Witnesses *)
#[local] Existing Instance rfc9000.
#[local] Instance canonical_groups : MapRange Z defraggerEntry := canonical_range Z defraggerEntry.
#[local] Instance canonical_cache : MapRange bytes bool := canonical_range bytes bool.
#[local] Instance canonical_sessions : MapRange Z nat := canonical_range Z nat.

Definition sample_msg (addr : bytes) : UDPMessage := mkUDPMessage 7 0 0 1 addr (bytes_of_string "hello").

(** A session dialled as asked, used once, answered once, and closed at the end. *)
Definition sample_run : list label :=
  [Receive (sample_msg (bytes_of_string "a:1")) 1; Push 1 true;
   Send 0 2 (mkDial (Some (bytes_of_string "a:1")) true) true true;
   Read 0 3 (ReadOk (bytes_of_string "a:1") (bytes_of_string "hi")) SendOk (λ _, false) 0;
   Stop; StopNext; Exit 0].

Lemma sample_run_ok : Forall label_ok sample_run.
Proof.
  repeat apply List.Forall_cons; try apply List.Forall_nil; try done.
Qed.

(** What a run has to have reached for the end to be complete. *)
Definition at_rest (o : outcome (udpSessionManager * list event)) : bool :=
  match o with
  | Ret (s, _) => negb (running s) && bool_decide (finalSweep s = []) &&
                  bool_decide (map_Forall (λ _ e, exiting e = None) (heap s))
  | Panic => false
  end.

Lemma sessions_tracked_witness :
  (∃ s log, steps (newUDPSessionManager 60) sample_run = Ret (s, log) ∧
     (∀ id p, m s !! id = Some p ↔ ∃ e, heap s !! p = Some e ∧ ID e = id ∧ (closed e = false ∨ exiting e ≠ None)) ∧
     (∀ p e, heap s !! p = Some e →
        len (sendCh e) <= 1024 ∧ Z.of_nat (base.size (aclCache e)) <= 256 ∧
        exits p log = (if closed e && bool_decide (exiting e = None) then 1 else 0) ∧
        conn_closes p log = (if closed e && conn e then 1 else 0))) ∨
  steps (newUDPSessionManager 60) sample_run = Panic ∧ Exists too_large sample_run.
Proof. apply sessions_tracked, sample_run_ok. Defined.

Lemma Run_leaves_nothing_witness :
  ∃ s log, steps (newUDPSessionManager 60) sample_run = Ret (s, log) ∧ Count s = 0 ∧
    ∀ p e, heap s !! p = Some e →
      closed e = true ∧ exits p log = 1 ∧ conn_closes p log = (if conn e then 1 else 0).
Proof.
  assert (at_rest (steps (newUDPSessionManager 60) sample_run) = true) as Hrest by (vm_compute; reflexivity).
  destruct (steps (newUDPSessionManager 60) sample_run) as [[s log]|] eqn:E; [|discriminate].
  cbn [at_rest] in Hrest. apply andb_true_iff in Hrest as [[Hr Hs]%andb_true_iff Hx].
  exists s, log. split; [done|]. apply (Run_leaves_nothing 60 sample_run); [apply sample_run_ok|exact E|by apply negb_true_iff| |].
  - by apply bool_decide_eq_true_1 in Hs.
  - apply bool_decide_eq_true_1 in Hx. exact Hx.
Defined.

Lemma writes_allowed_witness :
  let a := bytes_of_string "a:1" in
  EvDial 0 a true ∈ [EvNew 0 7 a; EvDial 0 a true] ∨ EvCheck 0 a true ∈ [EvNew 0 7 a; EvDial 0 a true].
Proof.
  intros a. set (log := match steps (newUDPSessionManager 60) sample_run with Ret (_, log) => log | Panic => [] end).
  assert (log = [EvNew 0 7 a; EvDial 0 a true] ++ EvWrite 0 a (bytes_of_string "hello") :: drop 3 log) as Hlog
    by (vm_compute; reflexivity).
  assert (at_rest (steps (newUDPSessionManager 60) sample_run) = true) as Hret by (vm_compute; reflexivity).
  destruct (steps (newUDPSessionManager 60) sample_run) as [[s log']|] eqn:E; [|discriminate].
  eapply (writes_allowed 60 sample_run s log' _ 0%nat a _ _ sample_run_ok E Hlog).
Defined.

(** A host name of 1,172 bytes and a reply of 4,096 bytes, with datagrams of at
    most 1,200 bytes: the header takes 1,186 bytes, which leaves 14 a fragment. *)
Definition long_address : bytes := replicate 1172 Byte.x61 ++ bytes_of_string ".com:443".

Lemma long_address_crashes_witness :
  steps (newUDPSessionManager 60)
    [Receive (sample_msg long_address) 1; Push 1 true;
     Send 0 2 (mkDial (Some (bytes_of_string "sni.example:443")) true) true true;
     Read 0 3 (ReadOk (bytes_of_string "192.0.2.1:443") (replicate 4096 Byte.x00)) (SendTooLarge 1200) (λ _, false) 9] = Panic.
Proof. apply long_address_crashes; vm_compute; congruence || done. Defined.
