(* ===== verification/UdpClient.v ===== *)
(** * UDP sessions of the client (core/client/udp.go)

    One manager per connection: [run] hands incoming messages to the sessions'
    channels, the application makes, reads and closes sessions.  The sessions
    are objects in a heap, since the manager's map and the application share
    them.  Every method runs under the manager's mutex or on one session, so any
    interleaving is a list of labels for [step].  Sending on a closed channel
    and closing one twice panic, as in Go. *)
From S2P Require Import UdpServer Protocol Frag Prelude.

Definition udpMessageChanSize : Z := 1024.

Record udpConn := mkConn {
  ID : Z;                            (* uint32 *)
  D : Defragger;
  ReceiveCh : list UDPMessage;
  chClosed : bool;                   (* ReceiveCh is closed *)
  Closed : bool;
}.

Inductive receive_result : Type :=
| Got (data addr : bytes)
| EndOfFile
| Blocked.                           (* the channel is empty; a later call goes on *)

Record udpSessionManager := mkManager {
  stats : Z * Z;                     (* UDPRxNoSession, UDPRxQueueFull: uint64 *)
  m : gmap Z nat;
  heap : gmap nat udpConn;
  next : nat;
  nextID : Z;                        (* uint32 *)
  closed : bool;
}.

Definition newUDPSessionManager : udpSessionManager := mkManager (0, 0) ∅ ∅ 0 1 false.

Definition set_conn (p : nat) (c : udpConn) (s : udpSessionManager) : udpSessionManager :=
  mkManager (stats s) (m s) (<[p := c]> (heap s)) (next s) (nextID s) (closed s).

Section Conn.
Context `{QuicVarint} `{!MapRange Z defraggerEntry}.

(** [Receive]: what is left in the channel, the defragger, the result.
    [clock k] is the time of the [k]-th message taken. *)
Fixpoint receive_loop (clock : nat → Z) (k : nat) (q : list UDPMessage) (chClosed : bool) (d : Defragger)
    : outcome (list UDPMessage * Defragger * receive_result) :=
  match q with
  | [] => Ret ([], d, if chClosed then EndOfFile else Blocked)
  | msg :: q =>
      '(d, dfMsg) ← Feed msg (clock k) d;
      match dfMsg with
      | None => receive_loop clock (S k) q chClosed d
      | Some dfMsg => Ret (q, d, Got (Data dfMsg) (Addr dfMsg))
      end
  end.

Definition Receive (clock : nat → Z) (u : udpConn) : outcome (udpConn * receive_result) :=
  '(q, d, r) ← receive_loop clock 0 (ReceiveCh u) (chClosed u) (D u);
  Ret (mkConn (ID u) d q (chClosed u) (Closed u), r).

(** The messages given to SendFunc, and whether there was no error. *)
Definition Send (u : udpConn) (data addr : bytes) (answer : send_answer) (fails : nat → bool) (rnd : Z)
    : outcome (list UDPMessage * bool) :=
  let msg := mkUDPMessage (ID u) 0 0 1 addr data in
  match answer with
  | SendOk => Ret ([msg], true)
  | SendErr => Ret ([msg], false)
  | SendTooLarge maxSize =>
      fMsgs ← FragUDPMessage (mkUDPMessage (ID u) (u16 (rnd + 1)) 0 1 addr data) maxSize;
      let '(sent, ok) := send_all fails 0 fMsgs in
      Ret (msg :: sent, ok)
  end.
End Conn.

(** ** The manager *)
Section Manager.
Context `{QuicVarint} `{!MapRange Z defraggerEntry} `{!MapRange Z nat}.

(** [close], called with the mutex held. *)
Definition close (p : nat) (s : udpSessionManager) : outcome udpSessionManager :=
  match heap s !! p with
  | Some c =>
      if Closed c then Ret s
      else if chClosed c then Panic
      else Ret (mkManager (stats s) (delete (ID c) (m s))
                  (<[p := mkConn (ID c) (D c) (ReceiveCh c) true true]> (heap s)) (next s) (nextID s) (closed s))
  | None => Panic
  end.

Fixpoint close_all (ps : list nat) (s : udpSessionManager) : outcome udpSessionManager :=
  match ps with
  | [] => Ret s
  | p :: ps => s ← close p s; close_all ps s
  end.

Definition closeCleanup (s : udpSessionManager) : outcome udpSessionManager :=
  s ← close_all (map_range (m s)).*2 s;
  Ret (mkManager (stats s) (m s) (heap s) (next s) (nextID s) true).

Definition feed (msg : UDPMessage) (s : udpSessionManager) : outcome udpSessionManager :=
  let '(noSession, queueFull) := stats s in
  match m s !! SessionID msg with
  | None => Ret (mkManager (u64 (noSession + 1), queueFull) (m s) (heap s) (next s) (nextID s) (closed s))
  | Some p =>
      match heap s !! p with
      | Some c =>
          if chClosed c then Panic
          else if len (ReceiveCh c) <? udpMessageChanSize
          then Ret (set_conn p (mkConn (ID c) (D c) (ReceiveCh c ++ [msg]) (chClosed c) (Closed c)) s)
          else Ret (mkManager (noSession, u64 (queueFull + 1)) (m s) (heap s) (next s) (nextID s) (closed s))
      | None => Panic
      end
  end.

(** [NewUDP]: None is ClosedError. *)
Definition NewUDP (s : udpSessionManager) : udpSessionManager * option nat :=
  if closed s then (s, None) else
  let id := nextID s in
  let p := next s in
  (mkManager (stats s) (<[id := p]> (m s)) (<[p := mkConn id NewDefragger [] false false]> (heap s)) (S p)
     (u32 (nextID s + 1)) (closed s), Some p).

Definition Count (s : udpSessionManager) : Z := Z.of_nat (base.size (m s)).

(** ** Interleavings *)
Inductive label : Type :=
| Rx (msg : UDPMessage)                (* run: a message *)
| RxFail                               (* run: ReceiveMessage fails *)
| New
| CloseConn (p : nat)
| ReceiveConn (p : nat) (clock : nat → Z).

(** [run] has ended once the manager is closed; only sessions that were made can
    be closed or read. *)
Definition step (s : udpSessionManager) (l : label) : outcome udpSessionManager :=
  match l with
  | Rx msg => if closed s then Ret s else feed msg s
  | RxFail => if closed s then Ret s else closeCleanup s
  | New => Ret (NewUDP s).1
  | CloseConn p => if bool_decide (p < next s)%nat then close p s else Ret s
  | ReceiveConn p clock =>
      match heap s !! p with
      | Some c => '(c, _) ← Receive clock c; Ret (set_conn p c s)
      | None => Ret s
      end
  end.

Fixpoint steps (s : udpSessionManager) (ls : list label) : outcome udpSessionManager :=
  match ls with
  | [] => Ret s
  | l :: ls => s ← step s l; steps s ls
  end.

(** [run] over a stretch of traffic. *)
Fixpoint feed_all (ms : list UDPMessage) (s : udpSessionManager) : outcome udpSessionManager :=
  match ms with
  | [] => Ret s
  | msg :: ms => s ← feed msg s; feed_all ms s
  end.
End Manager.

(** ** The invariant *)
Record conn_inv (p : nat) (c : udpConn) : Prop := {
  ci_ID : ID c = u32 (Z.of_nat p + 1);
  ci_D : Defragger_ok (D c);
  ci_queue : Forall wf_message (ReceiveCh c);
  ci_room : len (ReceiveCh c) <= udpMessageChanSize;
  ci_closed : chClosed c = Closed c;
}.

Record Inv (s : udpSessionManager) : Prop := {
  inv_next p : is_Some (heap s !! p) ↔ (p < next s)%nat;
  inv_nextID : nextID s = u32 (Z.of_nat (next s) + 1);
  inv_conn p c : heap s !! p = Some c → conn_inv p c;
  inv_map id p : m s !! id = Some p ↔ ∃ c, heap s !! p = Some c ∧ ID c = id ∧ Closed c = false;
  inv_closed : closed s = true → m s = ∅;
}.

Definition label_ok (l : label) : Prop := match l with Rx msg => wf_message msg | _ => True end.

Definition is_New (l : label) : bool := match l with New => true | _ => false end.

Lemma ID_inj p q c d n : conn_inv p c → conn_inv q d → (p < n)%nat → (q < n)%nat → Z.of_nat n <= 2 ^ 32 →
  ID c = ID d → p = q.
Proof.
  intros Hc Hd Hp Hq Hn. rewrite (ci_ID _ _ Hc), (ci_ID _ _ Hd). unfold wrapU. intros E.
  assert ((Z.of_nat p + 1 - (Z.of_nat q + 1)) mod 2 ^ 32 = 0) as Hm by by rewrite Zminus_mod, E, Z.sub_diag.
  apply Z.mod_divide in Hm as [k Hk]; [|done]. nia.
Qed.

Section Invariants.
Context `{QuicVarint} `{!MapRange Z defraggerEntry} `{!MapRange Z nat}.

(** Replacing a session by one with the same identity and state. *)
Lemma Inv_set_conn s p c c' : Inv s → heap s !! p = Some c → conn_inv p c' → Closed c' = Closed c →
  Inv (set_conn p c' s).
Proof.
  intros HI Hp Hc' Hcl. pose proof (inv_conn _ HI p c Hp) as Hc. destruct HI. split; cbn; try done.
  - intros q. destruct (decide (p = q)) as [<-|Hpq].
    + rewrite lookup_insert_eq, <-inv_next0. split; by eexists.
    + by rewrite lookup_insert_ne.
  - intros q d [[<- <-]|[_ Hq]]%lookup_insert_Some; [done|by apply inv_conn0].
  - intros id q. rewrite inv_map0. destruct (decide (p = q)) as [<-|Hpq]; [|by setoid_rewrite lookup_insert_ne].
    rewrite lookup_insert_eq, Hp. pose proof (ci_ID _ _ Hc). pose proof (ci_ID _ _ Hc').
    split; intros (? & [= <-] & <- & Hl); (eexists; split_and!; [done|congruence|congruence]).
Qed.

Lemma Inv_stats s st : Inv s → Inv (mkManager st (m s) (heap s) (next s) (nextID s) (closed s)).
Proof. intros []. by split. Qed.

Lemma feed_Inv msg s : Inv s → wf_message msg → ∃ s', feed msg s = Ret s' ∧ Inv s' ∧ next s' = next s.
Proof.
  intros HI Hm. unfold feed. destruct (stats s) as [ns qf]. destruct (m s !! SessionID msg) as [p|] eqn:Hp.
  2:{ eexists. split; [done|]. split; [by apply Inv_stats|done]. }
  apply (inv_map _ HI) in Hp as (c & Hp & _ & Hcl). rewrite Hp. destruct (inv_conn _ HI p c Hp) as [Hid HD Hq Hr Hch].
  rewrite Hch, Hcl. destruct (Z.ltb_spec (len (ReceiveCh c)) udpMessageChanSize) as [Hlt|].
  - eexists. split; [done|]. split; [|done]. apply (Inv_set_conn s p c); try done. split; cbn; try done.
    + apply Forall_app. split; [done|]. apply List.Forall_cons; [done|apply List.Forall_nil].
    + rewrite len_app. change (len [msg]) with 1. lia.
  - eexists. split; [done|]. split; [by apply Inv_stats|done].
Qed.

Lemma close_Inv p s : Inv s → (p < next s)%nat → Z.of_nat (next s) <= 2 ^ 32 →
  ∃ s', close p s = Ret s' ∧ Inv s' ∧ next s' = next s ∧ closed s' = closed s ∧
    (∀ id q, m s' !! id = Some q ↔ m s !! id = Some q ∧ q ≠ p).
Proof.
  intros HI Hlt Hn. pose proof (inv_next _ HI p) as [_ Hs]. destruct (Hs Hlt) as [c Hp]. unfold close. rewrite Hp.
  pose proof (inv_conn _ HI p c Hp) as Hc. rewrite (ci_closed _ _ Hc). destruct (Closed c) eqn:Hcl.
  - eexists. split_and!; try done. intros id q. split; [|by intros []]. intros Hq. split; [done|]. intros ->.
    apply (inv_map _ HI) in Hq as (c' & Hp' & _ & Hcl'). congruence.
  - assert (∀ id q, delete (ID c) (m s) !! id = Some q ↔ m s !! id = Some q ∧ q ≠ p) as Hmap.
    { intros id q. rewrite lookup_delete_Some. split.
      - intros [Hne Hq]. split; [done|]. intros ->. apply (inv_map _ HI) in Hq as (c' & Hp' & Hid & _). congruence.
      - intros [Hq Hne]. split; [|done]. intros <-. apply (inv_map _ HI) in Hq as (c' & Hp' & Hid & _). apply Hne.
        eapply ID_inj; [by apply (inv_conn _ HI)|exact Hc| |exact Hlt|exact Hn|done]. apply (inv_next _ HI). by eexists. }
    eexists. split; [done|]. split; [|by split_and!]. destruct HI. destruct Hc. split; cbn; try done.
    + intros q. destruct (decide (p = q)) as [<-|Hpq]; [rewrite lookup_insert_eq; split; [done|by eexists]|by rewrite lookup_insert_ne].
    + intros q d [[<- <-]|[_ Hq]]%lookup_insert_Some; [by split|by apply inv_conn0].
    + intros id q. rewrite Hmap, inv_map0. destruct (decide (p = q)) as [<-|Hpq].
      * rewrite lookup_insert_eq. split; [by intros [_ ?]|]. by intros (? & [= <-] & _ & ?).
      * setoid_rewrite lookup_insert_ne; [|done]. split; [by intros []|]. by intros.
    + intros Hcd. rewrite (inv_closed0 Hcd). by rewrite delete_empty.
Qed.

Lemma close_all_Inv ps : ∀ s, Inv s → Forall (λ p, (p < next s)%nat) ps → Z.of_nat (next s) <= 2 ^ 32 →
  ∃ s', close_all ps s = Ret s' ∧ Inv s' ∧ next s' = next s ∧ closed s' = closed s ∧
    (∀ id q, m s' !! id = Some q ↔ m s !! id = Some q ∧ q ∉ ps).
Proof.
  induction ps as [|p ps IH]; intros s HI Hps Hn; cbn [close_all].
  - eexists. split_and!; try done. intros id q. split; [|by intros []]. intros ?. split; [done|]. apply not_elem_of_nil.
  - apply Forall_cons in Hps as [Hp Hps]. destruct (close_Inv p s HI Hp Hn) as (s1 & -> & H1 & Hn1 & Hc1 & Hm1).
    cbn [mbind outcome_bind]. destruct (IH s1 H1) as (s2 & -> & H2 & Hn2 & Hc2 & Hm2); [by rewrite Hn1|by rewrite Hn1|].
    eexists. split_and!; try done; [congruence..|]. intros id q. rewrite Hm2, Hm1, not_elem_of_cons. tauto.
Qed.

Lemma closeCleanup_Inv s : Inv s → Z.of_nat (next s) <= 2 ^ 32 →
  ∃ s', closeCleanup s = Ret s' ∧ Inv s' ∧ next s' = next s.
Proof.
  intros HI Hn. unfold closeCleanup.
  assert (∀ p, p ∈ (map_range (m s)).*2 ↔ ∃ id, m s !! id = Some p) as Hps.
  { intros p. rewrite list_elem_of_fmap. split.
    - intros ([id q] & -> & Hin%elem_of_map_range). by exists id.
    - intros [id Hid]. exists (id, p). split; [done|]. by apply elem_of_map_range. }
  destruct (close_all_Inv (map_range (m s)).*2 s HI) as (s1 & -> & H1 & Hn1 & Hc1 & Hm1); [|done|].
  - apply Forall_forall. intros p [id Hid]%Hps. apply (inv_map _ HI) in Hid as (c & Hp & _). apply (inv_next _ HI). by eexists.
  - cbn [mbind outcome_bind]. eexists. split; [done|]. split; [|done].
    assert (m s1 = ∅) as Hem.
    { apply map_eq. intros id. rewrite lookup_empty. destruct (m s1 !! id) as [q|] eqn:Hq; [|done].
      apply Hm1 in Hq as [Hq Hno]. exfalso. apply Hno, Hps. by exists id. }
    destruct H1. by split.
Qed.

Lemma NewUDP_Inv s : Inv s → Z.of_nat (S (next s)) <= 2 ^ 32 → Inv (NewUDP s).1 ∧ (next (NewUDP s).1 <= S (next s))%nat.
Proof.
  intros HI Hn. unfold NewUDP. destruct (closed s) eqn:Hcl; cbn; [by split; [|lia]|]. split; [|done].
  assert (heap s !! next s = None) as Hfresh.
  { apply eq_None_not_Some. rewrite (inv_next _ HI). lia. }
  pose proof NewDefragger_ok as Hnd.
  assert (conn_inv (next s) (mkConn (nextID s) NewDefragger [] false false)) as Hnew by (split; cbn; try done; apply HI).
  destruct HI. split; cbn.
  - intros q. destruct (decide (next s = q)) as [<-|Hpq].
    + rewrite lookup_insert_eq. split; [lia|by eexists].
    + rewrite lookup_insert_ne, inv_next0 by done. lia.
  - rewrite inv_nextID0. unfold wrapU. rewrite Zplus_mod_idemp_l. f_equal. lia.
  - intros q d [[<- <-]|[_ Hq]]%lookup_insert_Some; [done|by apply inv_conn0].
  - intros id q. destruct (decide (next s = q)) as [<-|Hpq].
    + rewrite (lookup_insert_eq (heap s)), lookup_insert_Some. split.
      * intros [[<- _]|[_ Hx]]; [by eexists|]. apply inv_map0 in Hx as (c & Hx & _). congruence.
      * intros (? & [= <-] & <- & _). by left.
    + rewrite (lookup_insert_ne (heap s)), <-inv_map0, lookup_insert_Some by done. split; [by intros [[_ ?]|[_ ?]]|].
      intros Hq. right. split; [|done]. intros <-. apply Hpq.
      apply inv_map0 in Hq as (c & Hq & Hid & _).
      eapply (ID_inj _ _ _ c (S (next s))); [exact Hnew|by apply inv_conn0|lia| |done|done].
      assert (q < next s)%nat; [|lia]. apply inv_next0. by eexists.
  - congruence.
Qed.

Lemma receive_loop_ok clock q ch : ∀ k d, Forall wf_message q → Defragger_ok d →
  ∃ q' d' r, receive_loop clock k q ch d = Ret (q', d', r) ∧ Forall wf_message q' ∧ Defragger_ok d' ∧ len q' <= len q.
Proof.
  induction q as [|msg q IH]; intros k d Hq Hd; cbn [receive_loop].
  - by do 3 eexists.
  - apply Forall_cons in Hq as [Hm Hq]. destruct (Feed_spec msg (clock k) d Hd Hm) as (d1 & o & -> & Hd1 & _).
    cbn [mbind outcome_bind]. rewrite len_cons. destruct o as [r|].
    + do 3 eexists. split_and!; try done. lia.
    + destruct (IH (S k) d1 Hq Hd1) as (q' & d' & r & -> & ? & ? & ?). do 3 eexists. split_and!; try done. lia.
Qed.

Lemma client_step_Inv s l : Inv s → label_ok l → Z.of_nat (next s) + (if is_New l then 1 else 0) <= 2 ^ 32 →
  ∃ s', step s l = Ret s' ∧ Inv s' ∧ Z.of_nat (next s') <= Z.of_nat (next s) + (if is_New l then 1 else 0).
Proof.
  intros HI Hl Hn. destruct l as [msg| | |p|p clock]; cbn [step label_ok is_New] in *.
  - destruct (closed s); [exists s; split_and!; by try lia|].
    destruct (feed_Inv msg s HI Hl) as (s' & -> & ? & ?). eexists. split_and!; [done|done|lia].
  - destruct (closed s); [exists s; split_and!; by try lia|].
    destruct (closeCleanup_Inv s HI) as (s' & -> & ? & ?); [lia|]. eexists. split_and!; [done|done|lia].
  - destruct (NewUDP_Inv s HI) as [? ?]; [lia|]. eexists. split_and!; [done|done|lia].
  - case_bool_decide as Hp; [|exists s; split_and!; by try lia].
    destruct (close_Inv p s HI Hp) as (s' & -> & ? & ? & _); [lia|]. eexists. split_and!; [done|done|lia].
  - destruct (heap s !! p) as [c|] eqn:Hp; [|exists s; split_and!; by try lia].
    destruct (inv_conn _ HI p c Hp) as [Hid HD Hq Hr Hch]. unfold Receive.
    destruct (receive_loop_ok clock (ReceiveCh c) (chClosed c) 0 (D c) Hq HD) as (q' & d' & r & -> & ? & ? & ?).
    cbn [mbind outcome_bind]. eexists. split; [done|]. split; [|cbn; lia].
    apply (Inv_set_conn s p c); try done. split; cbn; try done. lia.
Qed.

Lemma client_steps_Inv ls : ∀ s, Inv s → Forall label_ok ls →
  Z.of_nat (next s) + len (filter (λ l, is_New l = true) ls) <= 2 ^ 32 →
  ∃ s', steps s ls = Ret s' ∧ Inv s'.
Proof.
  induction ls as [|l ls IH]; intros s HI Hls Hn; cbn [steps]; [by eexists|].
  apply Forall_cons in Hls as [Hl Hls].
  assert (len (filter (λ l, is_New l = true) (l :: ls)) =
          (if is_New l then 1 else 0) + len (filter (λ l, is_New l = true) ls)) as Hlen.
  { rewrite filter_cons. destruct (is_New l); case_decide; try done. by rewrite len_cons. }
  rewrite Hlen in Hn. pose proof (len_nonneg (filter (λ l, is_New l = true) ls)) as Hnn.
  destruct (client_step_Inv s l HI Hl) as (s1 & -> & H1 & Hn1); [lia|]. cbn [mbind outcome_bind].
  apply IH; [done|done|lia].
Qed.

Lemma client_new_Inv : Inv newUDPSessionManager.
Proof.
  split; cbn; try done.
  - intros p. rewrite lookup_empty. split; [by intros []|lia].
  - intros id p. rewrite !lookup_empty. split; [done|]. by intros (c & ? & _).
Qed.
End Invariants.

(** ** Delivery *)
Section Delivery.
Context `{QuicVarint} `{!MapRange Z defraggerEntry} `{!MapRange Z nat}.

Definition of_session (id : Z) (ms : list UDPMessage) : list UDPMessage := filter (λ msg, SessionID msg = id) ms.

Definition queued (c : udpConn) (ms : list UDPMessage) : udpConn :=
  mkConn (ID c) (D c) (ReceiveCh c ++ ms) (chClosed c) (Closed c).

(** What does not concern a session leaves it as it is. *)
Lemma feed_other id p c msg s : Inv s → wf_message msg → m s !! id = Some p → heap s !! p = Some c →
  SessionID msg ≠ id →
  ∃ s', feed msg s = Ret s' ∧ Inv s' ∧ m s' = m s ∧ heap s' !! p = Some c.
Proof.
  intros HI Hm Hid Hp Hne. destruct (feed_Inv msg s HI Hm) as (s' & Hf & HI' & _). exists s'. split; [done|]. split; [done|].
  revert Hf. unfold feed. destruct (stats s) as [ns qf]. destruct (m s !! SessionID msg) as [q|] eqn:Hq; [|by intros [= <-]].
  assert (q ≠ p) as Hqp.
  { intros ->. apply (inv_map _ HI) in Hq as (d & Hd & Hd1 & _), Hid as (e & He & He1 & _). congruence. }
  destruct (heap s !! q) as [d|]; [|done]. destruct (chClosed d); [done|]. case_match; intros [= <-]; cbn; [|done].
  by rewrite lookup_insert_ne.
Qed.

Lemma feed_mine p c msg s : Inv s → wf_message msg → m s !! SessionID msg = Some p → heap s !! p = Some c →
  len (ReceiveCh c) < udpMessageChanSize →
  ∃ s', feed msg s = Ret s' ∧ Inv s' ∧ m s' = m s ∧ heap s' !! p = Some (queued c [msg]).
Proof.
  intros HI Hm Hid Hp Hlt. destruct (feed_Inv msg s HI Hm) as (s' & Hf & HI' & _). exists s'. split; [done|]. split; [done|].
  revert Hf. unfold feed. rewrite Hid, Hp. apply (inv_map _ HI) in Hid as (c' & Hp' & _ & Hcl).
  assert (c' = c) as -> by congruence. rewrite (ci_closed _ _ (inv_conn _ HI p c Hp)), Hcl.
  rewrite (proj2 (Z.ltb_lt _ _)) by done. destruct (stats s). intros [= <-]. cbn. rewrite lookup_insert_eq. split; [done|].
  unfold queued. by rewrite (ci_closed _ _ (inv_conn _ HI p c Hp)), Hcl.
Qed.

Lemma feed_all_queues id p ms : ∀ c s, Inv s → Forall wf_message ms → m s !! id = Some p → heap s !! p = Some c →
  len (ReceiveCh c) + len (of_session id ms) <= udpMessageChanSize →
  ∃ s', feed_all ms s = Ret s' ∧ Inv s' ∧ heap s' !! p = Some (queued c (of_session id ms)).
Proof.
  induction ms as [|msg ms IH]; intros c s HI Hms Hid Hp Hroom; cbn [feed_all].
  - eexists. split_and!; [done|done|]. unfold queued. cbn. rewrite app_nil_r. by destruct c.
  - apply Forall_cons in Hms as [Hm Hms]. unfold of_session in *. rewrite filter_cons in *. case_decide as Hs.
    + rewrite len_cons in Hroom. pose proof (len_nonneg (filter (λ msg, SessionID msg = id) ms)).
      rewrite <-Hs in Hid. destruct (feed_mine p c msg s HI Hm Hid Hp) as (s1 & -> & H1 & Hm1 & Hp1); [lia|].
      cbn [mbind outcome_bind]. rewrite Hs, <-Hm1 in Hid.
      destruct (IH (queued c [msg]) s1 H1 Hms Hid Hp1) as (s2 & -> & H2 & Hp2).
      { cbn. rewrite len_app. change (len [msg]) with 1. lia. }
      eexists. split_and!; [done|done|]. rewrite Hp2. unfold queued. cbn. by rewrite <-app_assoc.
    + destruct (feed_other id p c msg s HI Hm Hid Hp Hs) as (s1 & -> & H1 & Hm1 & Hp1). cbn [mbind outcome_bind].
      rewrite <-Hm1 in Hid. by apply IH.
Qed.

Lemma receive_loop_first clock ch r d' q : ∀ k d,
  Feed_all (zip q (clock <$> seq k (length q))) d = Ret (d', replicate (pred (length q)) None ++ [Some r]) → q ≠ [] →
  receive_loop clock k q ch d = Ret ([], d', Got (Data r) (Addr r)).
Proof.
  induction q as [|msg q IH]; intros k d Hf Hne; [done|]. cbn [zip zip_with seq length fmap list_fmap Feed_all] in Hf.
  cbn [receive_loop]. destruct (Feed msg (clock k) d) as [[d1 o]|]; cbn [mbind outcome_bind] in Hf |- *; [|done].
  change (zip_with pair q (clock <$> seq (S k) (length q))) with (zip q (clock <$> seq (S k) (length q))) in Hf.
  destruct q as [|msg2 q].
  - cbn in Hf. by injection Hf as -> ->.
  - cbn [length pred replicate app] in Hf.
    destruct (Feed_all (zip (msg2 :: q) (clock <$> seq (S k) (S (length q)))) d1) as [[d2 os]|] eqn:E; cbn [mbind outcome_bind] in Hf; [|done].
    injection Hf as -> -> ->. by apply IH.
Qed.

Lemma send_all_fine fs : ∀ k, send_all (λ _, false) k fs = (fs, true).
Proof. induction fs as [|f fs IH]; intros k; cbn; [done|]. by rewrite IH. Qed.

Lemma filter_all {A} (P : A → Prop) `{!∀ x, Decision (P x)} (l : list A) : Forall P l → filter P l = l.
Proof. induction 1; [done|]. rewrite filter_cons_True by done. by f_equal. Qed.

Lemma length_Feed_all ms : ∀ d d' os, Feed_all ms d = Ret (d', os) → length os = length ms.
Proof.
  induction ms as [|[f t] ms IH]; intros d d' os; cbn [Feed_all]; [by intros [= _ <-]|].
  destruct (Feed f t d) as [[d1 o]|]; cbn [mbind outcome_bind]; [|done].
  destruct (Feed_all ms d1) as [[d2 os']|] eqn:E; cbn [mbind outcome_bind]; [|done].
  intros [= _ <-]. cbn. f_equal. by eapply IH.
Qed.

(** The fragments of one message in a queue, in any order. *)
Lemma receive_group clock ch msg maxSize q :
  maxSize < Protocol.Size msg → HeaderSize msg < maxSize → needed msg maxSize <= 255 →
  len (Data msg) <= defraggerMaxMessageSize →
  Forall wf_message q → q ≡ₚ frags_of msg maxSize → (∀ i j, clock j - clock i <= defraggerTimeout) →
  ∃ d', receive_loop clock 0 q ch NewDefragger = Ret ([], d', Got (Data msg) (Addr msg)).
Proof.
  intros Hs Hh Hn Hl Hwf Hperm Hclock. destruct (needed_bounds msg maxSize Hs Hh) as (H2 & _).
  assert (length q = Z.to_nat (needed msg maxSize)) as Hlen by by rewrite Hperm, length_frags_of.
  set (ms := zip q (clock <$> seq 0 (length q))).
  assert (ms.*1 = q) as Hq by (apply fst_zip; rewrite length_fmap, length_seq; lia).
  assert (Forall (in_group msg) ms) as Hall.
  { apply Forall_forall. intros [f t] Hin. apply (list_elem_of_fmap_2 fst) in Hin. rewrite Hq, Hperm in Hin.
    destruct (frags_of_props msg maxSize ∅ f Hin) as (Hid & Hc & _). unfold in_group. cbn. rewrite Hid, Hc. by split. }
  assert (group_of msg ms = q) as Hg by (unfold group_of; by rewrite filter_all).
  destruct (Feed_all_group msg maxSize Hs Hh Hn Hl {[PacketID msg]} (clock <$> seq 0 (length q)) defraggerTimeout 8)
    with (ms := ms) (d := NewDefragger) (gs := @nil UDPMessage) as (d' & os & Hf & Ho).
  - by rewrite size_singleton.
  - by apply elem_of_singleton.
  - intros t1 t2 (i & -> & _)%list_elem_of_fmap (j & -> & _)%list_elem_of_fmap. apply Hclock.
  - split; try done.
  - apply Forall_forall. intros [f t] Hin. pose proof Hin as Hin2.
    apply (list_elem_of_fmap_2 fst) in Hin. rewrite Hq in Hin.
    apply elem_of_zip_r in Hin2. split_and!; [by eapply (Forall_forall wf_message q)|done|].
    rewrite Hperm in Hin. apply elem_of_singleton. apply (frags_of_props msg maxSize ∅ f Hin).
  - by rewrite Hg.
  - rewrite Hg. intros ->. cbn in Hlen. lia.
  - exists d'. assert (os = replicate (pred (length q)) None ++ [Some (fragment msg 0 1 (Data msg))]) as ->.
    { pose proof (length_Feed_all _ _ _ _ Hf) as Hos. rewrite Hg in Ho. rewrite <-Ho. unfold group_answers.
      rewrite filter_all; [symmetry; apply snd_zip; lia|]. apply Forall_forall. intros [x o] Hin%elem_of_zip_l.
      by eapply (Forall_forall (in_group msg) ms). }
    by apply (receive_loop_first _ _ (fragment msg 0 1 (Data msg))); [|intros ->; cbn in Hlen; lia].
Qed.
End Delivery.

(** ** Properties *)
Section Properties.
Context `{QuicVarint} `{!MapRange Z defraggerEntry} `{!MapRange bytes bool} `{!MapRange Z nat}.

(** C5: Through any interleaving of traffic, session creation, reads and closing
    with at most 2^32 sessions made, nothing panics: no message is sent on a
    closed channel and no channel is closed twice.  The map holds exactly the
    open sessions under their IDs, a channel is closed exactly when its session
    is and never holds more than 1024 messages, the reassembly state of every
    session is well formed, and once the connection has failed no session is
    left open. *)
Theorem client_sessions_typed ls : Forall label_ok ls → len (filter (λ l, is_New l = true) ls) <= 2 ^ 32 →
  ∃ s, steps newUDPSessionManager ls = Ret s ∧
    (∀ id p, m s !! id = Some p ↔ ∃ c, heap s !! p = Some c ∧ ID c = id ∧ Closed c = false) ∧
    (∀ p c, heap s !! p = Some c →
       chClosed c = Closed c ∧ len (ReceiveCh c) <= 1024 ∧ Defragger_ok (D c) ∧ (closed s = true → Closed c = true)) ∧
    (closed s = true → Count s = 0).
Proof.
  intros Hls Hn. destruct (client_steps_Inv ls newUDPSessionManager client_new_Inv Hls) as (s & E & HI); [done|].
  exists s. split; [done|]. split; [apply HI|]. split.
  - intros p c Hp. destruct (inv_conn _ HI p c Hp) as [Hid HD _ Hr Hc]. split_and!; [done|done|done|].
    intros Hcl. destruct (Closed c) eqn:Hcc; [done|].
    assert (m s !! ID c = Some p) as Hm by (apply (inv_map _ HI); by exists c).
    rewrite (inv_closed _ HI Hcl) in Hm. by rewrite lookup_empty in Hm.
  - intros Hcl. unfold Count. rewrite (inv_closed _ HI Hcl). by rewrite map_size_empty.
Qed.

(** C6: A reply the server had to split reaches the application: if the
    fragments it sent arrive in any order, between the messages of any other
    sessions, and are read within the reassembly timeout, then Receive returns
    the reply's payload and address, once, and nothing is left. *)
Theorem reply_reaches_client ls s p c reply maxSize rnd first frs ms clock :
  Forall label_ok ls → len (filter (λ l, is_New l = true) ls) <= 2 ^ 32 → steps newUDPSessionManager ls = Ret s →
  m s !! SessionID reply = Some p → heap s !! p = Some c → ReceiveCh c = [] → D c = NewDefragger →
  maxSize < Protocol.Size reply → HeaderSize reply < maxSize → needed reply maxSize <= 255 →
  len (Data reply) <= 65535 →
  sendMessageAutoFrag reply (SendTooLarge maxSize) (λ _, false) rnd = Ret (first :: frs, true) →
  Forall wf_message ms → of_session (SessionID reply) ms ≡ₚ frs →
  (∀ i j, clock j - clock i <= defraggerTimeout) →
  ∃ s' c' c'', feed_all ms s = Ret s' ∧ heap s' !! p = Some c' ∧
    Receive clock c' = Ret (c'', Got (Data reply) (Addr reply)) ∧ ReceiveCh c'' = [].
Proof.
  intros Hls Hnew E Hid Hp Hq HD Hs Hh Hn Hl Hsend Hms Hperm Hclock.
  destruct (client_steps_Inv ls newUDPSessionManager client_new_Inv Hls) as (s1 & E1 & HI); [done|].
  assert (s1 = s) as -> by congruence.
  set (reply' := mkUDPMessage (SessionID reply) (u16 (rnd + 1)) (FragID reply) (FragCount reply) (Addr reply) (Data reply)).
  assert (frs = frags_of reply' maxSize) as ->.
  { revert Hsend. unfold sendMessageAutoFrag. fold reply'. rewrite (FragUDPMessage_frags reply' maxSize) by done.
    cbn [mbind outcome_bind]. rewrite send_all_fine. by intros [= _ <-]. }
  assert (len (of_session (SessionID reply) ms) <= 255) as Hlen.
  { unfold len. rewrite Hperm, length_frags_of. change (needed reply' maxSize) with (needed reply maxSize). lia. }
  destruct (feed_all_queues (SessionID reply) p ms c s HI Hms Hid Hp) as (s' & Hf & HI' & Hp').
  { rewrite Hq. change (len []) with 0. unfold udpMessageChanSize. lia. }
  exists s'. eexists. unfold queued in Hp'. rewrite Hq, app_nil_l in Hp'.
  destruct (receive_group clock (chClosed c) reply' maxSize (of_session (SessionID reply) ms)) as [d' Hr]; try done.
  { apply Forall_forall. intros x Hx. eapply (Forall_forall wf_message ms); [done|].
    by apply list_elem_of_filter in Hx as [_ Hx]. }
  eexists. split; [done|]. split; [done|]. unfold Receive. cbn [ReceiveCh chClosed D]. rewrite HD, Hr. done.
Qed.
End Properties.

(** ** Witnesses *)
#[local] Existing Instance rfc9000.
#[local] Instance canonical_groups : MapRange Z defraggerEntry := canonical_range Z defraggerEntry.
#[local] Instance canonical_sessions : MapRange Z nat := canonical_range Z nat.

Definition sample_labels : list label := [New; New; Rx (sample_msg (bytes_of_string "a:1")); CloseConn 0; ReceiveConn 1 (λ _, 0); RxFail].

Lemma client_sessions_typed_witness :
  ∃ s, steps newUDPSessionManager sample_labels = Ret s ∧
    (∀ id p, m s !! id = Some p ↔ ∃ c, heap s !! p = Some c ∧ ID c = id ∧ Closed c = false) ∧
    (∀ p c, heap s !! p = Some c →
       chClosed c = Closed c ∧ len (ReceiveCh c) <= 1024 ∧ Defragger_ok (D c) ∧ (closed s = true → Closed c = true)) ∧
    (closed s = true → Count s = 0).
Proof.
  apply client_sessions_typed; [|vm_compute; discriminate].
  repeat apply List.Forall_cons; try apply List.Forall_nil; done.
Defined.

(** The first session of a fresh manager, a reply of ten bytes in datagrams of
    at most 16, its three fragments in reverse order around another message. *)
Definition sample_reply : UDPMessage := mkUDPMessage 1 0 0 1 (bytes_of_string "a:1") (bytes_of_string "0123456789").

Definition sample_fragments : list UDPMessage :=
  match sendMessageAutoFrag sample_reply (SendTooLarge 16) (λ _, false) 4 with
  | Ret (_ :: frs, _) => frs
  | _ => []
  end.

Definition sample_arrivals : list UDPMessage :=
  match rev sample_fragments with
  | f :: fs => f :: sample_msg (bytes_of_string "b:2") :: fs
  | [] => []
  end.

Lemma reply_reaches_client_witness :
  ∃ s' c' c'', feed_all sample_arrivals (NewUDP newUDPSessionManager).1 = Ret s' ∧ heap s' !! 0%nat = Some c' ∧
    Receive (λ k, Z.of_nat k mod 2) c' = Ret (c'', Got (bytes_of_string "0123456789") (bytes_of_string "a:1")) ∧
    ReceiveCh c'' = [].
Proof.
  apply (reply_reaches_client [New] (NewUDP newUDPSessionManager).1 0%nat (mkConn 1 NewDefragger [] false false)
           sample_reply 16 4 sample_reply sample_fragments sample_arrivals).
  - repeat apply List.Forall_cons; try apply List.Forall_nil; done.
  - vm_compute. discriminate.
  - reflexivity.
  - reflexivity.
  - reflexivity.
  - reflexivity.
  - reflexivity.
  - vm_compute. reflexivity.
  - vm_compute. reflexivity.
  - vm_compute. discriminate.
  - vm_compute. discriminate.
  - vm_compute. reflexivity.
  - apply (bool_decide_unpack _). vm_compute. exact I.
  - assert (of_session (SessionID sample_reply) sample_arrivals = rev sample_fragments) as -> by (vm_compute; reflexivity).
    symmetry. apply Permutation_rev.
  - intros i j. pose proof (Z.mod_pos_bound (Z.of_nat i) 2). pose proof (Z.mod_pos_bound (Z.of_nat j) 2).
    unfold defraggerTimeout, Second. lia.
Defined.
