(* ===== verification/Reconnect.v ===== *)
(** * The reconnecting client (core/client/reconnect.go)

    A connection is a handle handed out by NewClient.  [clientDo] takes the
    mutex twice, around the call on the connection it found, so it is two steps,
    with the calls in flight in the state; any number of goroutines is any list
    of labels.  What the configuration, NewClient and the connections answer is
    part of the label. *)
From S2P Require Import Prelude.

(** What a caller gets, and what happens to the connections. *)
Inductive call_result : Type := CallOk | CallClosed | CallErr.

Inductive event : Type :=
| Connected (c : nat) (count : Z)        (* connectedFunc *)
| ConnClosed (c : nat)                   (* the wrapper called Close *)
| Reported (c : nat)                     (* a call on c returned ClosedError *)
| Returned (i : nat) (r : call_result).  (* clientDo returned to caller i *)

Record reconnectableClientImpl := mkClient {
  client : option nat;
  count : Z;                             (* int *)
  closed : bool;
  made : nat;                            (* connections NewClient has given *)
  calls : gmap nat nat;                  (* calls in flight and their connection *)
}.

(** [configFunc] and [NewClient] succeed or not. *)
Definition reconnect (config dial : bool) (rc : reconnectableClientImpl)
    : reconnectableClientImpl * bool * list event :=
  let evs := match client rc with Some c => [ConnClosed c] | None => [] end in
  if negb config then (rc, false, evs)
  else if negb dial then (mkClient None (count rc) (closed rc) (made rc) (calls rc), false, evs)
  else let n := i64 (count rc + 1) in
       (mkClient (Some (made rc)) n (closed rc) (S (made rc)) (calls rc), true, evs ++ [Connected (made rc) n]).

Definition NewReconnectableClient (lazy config dial : bool) : option (reconnectableClientImpl * list event) :=
  let rc := mkClient None 0 false 0 ∅ in
  if lazy then Some (rc, [])
  else let '(rc, ok, evs) := reconnect config dial rc in
       if ok then Some (rc, evs) else None.

(** [clientDo] up to the call. *)
Definition clientDo_begin (i : nat) (config dial : bool) (rc : reconnectableClientImpl)
    : reconnectableClientImpl * list event :=
  if closed rc then (rc, [Returned i CallClosed]) else
  let '(rc, ok, evs) := match client rc with Some _ => (rc, true, []) | None => reconnect config dial rc end in
  if negb ok then (rc, evs ++ [Returned i CallErr]) else
  match client rc with
  | Some c => (mkClient (client rc) (count rc) (closed rc) (made rc) (<[i := c]> (calls rc)), evs)
  | None => (rc, evs)
  end.

(** [clientDo] after the call. *)
Definition clientDo_end (i : nat) (r : call_result) (rc : reconnectableClientImpl)
    : reconnectableClientImpl * list event :=
  match calls rc !! i with
  | None => (rc, [])
  | Some c =>
      let calls := delete i (calls rc) in
      match r with
      | CallClosed =>
          (mkClient (if bool_decide (client rc = Some c) then None else client rc) (count rc) (closed rc) (made rc) calls,
           [Reported c; Returned i r])
      | _ => (mkClient (client rc) (count rc) (closed rc) (made rc) calls, [Returned i r])
      end
  end.

Definition Close (rc : reconnectableClientImpl) : reconnectableClientImpl * list event :=
  (mkClient (client rc) (count rc) true (made rc) (calls rc),
   match client rc with Some c => [ConnClosed c] | None => [] end).

(** The connection [PathStats] asks, if there is one. *)
Definition PathStats (rc : reconnectableClientImpl) : option nat := client rc.

Inductive label : Type :=
| Begin (i : nat) (config dial : bool)
| End_ (i : nat) (r : call_result)
| CloseAll.

Definition step (rc : reconnectableClientImpl) (l : label) : reconnectableClientImpl * list event :=
  match l with
  | Begin i config dial => match calls rc !! i with None => clientDo_begin i config dial rc | Some _ => (rc, []) end
  | End_ i r => clientDo_end i r rc
  | CloseAll => Close rc
  end.

Fixpoint steps (rc : reconnectableClientImpl) (ls : list label) : reconnectableClientImpl * list event :=
  match ls with
  | [] => (rc, [])
  | l :: ls => let '(rc, evs) := step rc l in let '(rc, evs') := steps rc ls in (rc, evs ++ evs')
  end.

(** ** What the specification says of a log *)

(** The connections announced, with their numbers. *)
Definition connections (log : list event) : list (nat * Z) :=
  omap (λ ev, match ev with Connected c n => Some (c, n) | _ => None end) log.

(** A connection that is over: it has said so itself, or it was closed. *)
Definition over (log : list event) (c : nat) : Prop := Reported c ∈ log ∨ ConnClosed c ∈ log.

Record Inv (log : list event) (rc : reconnectableClientImpl) : Prop := {
  inv_made : connections log = (λ c, (c, i64 (Z.of_nat c + 1))) <$> seq 0 (made rc);
  inv_count : count rc = i64 (Z.of_nat (made rc));
  inv_client c : client rc = Some c → S c = made rc;
  inv_over c : (c < made rc)%nat → client rc ≠ Some c → Reported c ∈ log;
  inv_closed c : closed rc = true → client rc = Some c → ConnClosed c ∈ log;
  inv_only c : ConnClosed c ∈ log → closed rc = true;
  inv_calls i c : calls rc !! i = Some c → (c < made rc)%nat;
}.

Lemma connections_app l k : connections (l ++ k) = connections l ++ connections k.
Proof. unfold connections. apply omap_app. Qed.

Lemma rc_new_Inv : Inv [] (mkClient None 0 false 0 ∅).
Proof.
  split; cbn; try done; try lia.
  intros c Hc. by apply not_elem_of_nil in Hc.
Qed.

(** Events that neither announce nor close a connection. *)
Lemma Inv_log log rc evs : Inv log rc → connections evs = [] → (∀ c, ConnClosed c ∉ evs) → Inv (log ++ evs) rc.
Proof.
  intros [] Hc Hn. split; try done.
  - by rewrite connections_app, Hc, app_nil_r.
  - intros. apply elem_of_app. left. auto.
  - intros. apply elem_of_app. left. auto.
  - intros c [Hin|Hin]%elem_of_app; [eauto|by apply Hn in Hin].
Qed.

(** [reconnect] is only called without a connection. *)
Lemma reconnect_Inv log rc config dial : Inv log rc → client rc = None → closed rc = false →
  let '(rc', ok, evs) := reconnect config dial rc in
  Inv (log ++ evs) rc' ∧ closed rc' = false ∧ (client rc' = None → ok = false) ∧ calls rc' = calls rc.
Proof.
  intros HI Hn Hcl. unfold reconnect. rewrite Hn. destruct config; cbn [negb]; [|by rewrite app_nil_r].
  destruct dial; cbn [negb].
  2:{ rewrite app_nil_r. split; [|done]. destruct HI. split; cbn; try done. intros c Hc _. apply inv_over0; congruence. }
  cbn. split; [|done]. destruct HI. assert (i64 (count rc + 1) = i64 (Z.of_nat (made rc) + 1)) as Hi.
  { rewrite inv_count0. unfold wrapS. f_equal.
    replace ((Z.of_nat (made rc) + 2 ^ (64 - 1)) mod 2 ^ 64 - 2 ^ (64 - 1) + 1 + 2 ^ (64 - 1))
      with ((Z.of_nat (made rc) + 2 ^ (64 - 1)) mod 2 ^ 64 + 1) by lia.
    rewrite Zplus_mod_idemp_l. f_equal. lia. }
  split; cbn [client count closed made calls]; try congruence.
  - rewrite connections_app, inv_made0, seq_S, fmap_app. cbn. by rewrite Hi.
  - rewrite Hi. f_equal. lia.
  - intros c Hc Hne. apply elem_of_app. left. apply inv_over0; [|congruence].
    assert (c ≠ made rc) by congruence. lia.
  - intros c [Hin|Hin]%elem_of_app; [by eapply inv_only0|]. apply list_elem_of_singleton in Hin. congruence.
  - intros i c Hc. apply inv_calls0 in Hc. lia.
Qed.

Lemma Inv_calls log rc cs : Inv log rc → (∀ i c, cs !! i = Some c → (c < made rc)%nat) →
  Inv log (mkClient (client rc) (count rc) (closed rc) (made rc) cs).
Proof. intros [] Hc. by split. Qed.

Lemma rc_step_Inv log rc l : Inv log rc → let '(rc', evs) := step rc l in Inv (log ++ evs) rc'.
Proof.
  intros HI. destruct l as [i config dial|i r|]; cbn [step].
  - destruct (calls rc !! i) as [|] eqn:Hi; [by rewrite app_nil_r|]. unfold clientDo_begin.
    destruct (closed rc) eqn:Hcl.
    { apply Inv_log; [done|done|]. intros c Hin. apply list_elem_of_singleton in Hin. congruence. }
    destruct (client rc) as [c|] eqn:Hc; cbn [negb].
    + rewrite Hc, app_nil_r. rewrite <-Hc. apply Inv_calls; [done|].
      intros j d [[<- <-]|[_ Hj]]%lookup_insert_Some; [|by eapply (inv_calls _ _ HI)].
      pose proof (inv_client _ _ HI c Hc). lia.
    + pose proof (reconnect_Inv log rc config dial HI Hc Hcl) as Hr.
      destruct (reconnect config dial rc) as [[rc' ok] evs]. destruct Hr as (HI' & Hcl' & Hno & Hcs). destruct ok; cbn [negb].
      * destruct (client rc') as [c|] eqn:Hc'; [|by specialize (Hno eq_refl)]. rewrite <-Hc'. apply Inv_calls; [done|].
        intros j d [[<- <-]|[_ Hj]]%lookup_insert_Some; [|by eapply (inv_calls _ _ HI')].
        pose proof (inv_client _ _ HI' c Hc'). lia.
      * rewrite app_assoc. apply Inv_log; [done|done|]. intros c Hin. apply list_elem_of_singleton in Hin. congruence.
  - unfold clientDo_end. destruct (calls rc !! i) as [c|] eqn:Hi; [|by rewrite app_nil_r].
    assert (∀ j d, delete i (calls rc) !! j = Some d → (d < made rc)%nat) as Hcs
      by (intros j d [_ Hj]%lookup_delete_Some; by eapply (inv_calls _ _ HI)).
    assert (∀ evs, connections evs = [] → (∀ c, ConnClosed c ∉ evs) →
      Inv (log ++ evs) (mkClient (client rc) (count rc) (closed rc) (made rc) (delete i (calls rc)))) as Hplain
      by (intros; apply Inv_log; [by apply Inv_calls|done|done]).
    destruct r; try (apply Hplain; [done|]; intros d Hin; apply list_elem_of_singleton in Hin; congruence).
    specialize (Hplain [Reported c; Returned i CallClosed] eq_refl ltac:(set_solver)).
    case_bool_decide as Hc; [|done]. destruct Hplain. split; cbn in *; try done.
    intros d Hd _. destruct (decide (d = c)) as [->|Hdc]; [set_solver|]. apply inv_over0; [done|congruence].
  - unfold Close. destruct HI. split; cbn.
    + rewrite connections_app, inv_made0. destruct (client rc); cbn; by rewrite app_nil_r.
    + done.
    + done.
    + intros. apply elem_of_app. left. auto.
    + intros c _ ->. set_solver.
    + done.
    + done.
Qed.

Lemma rc_steps_Inv ls : ∀ log rc, Inv log rc → let '(rc', evs) := steps rc ls in Inv (log ++ evs) rc'.
Proof.
  induction ls as [|l ls IH]; intros log rc HI; cbn [steps]; [by rewrite app_nil_r|].
  pose proof (rc_step_Inv log rc l HI) as H1. destruct (step rc l) as [rc1 evs1].
  specialize (IH _ _ H1). destruct (steps rc1 ls) as [rc2 evs2]. by rewrite app_assoc.
Qed.

Lemma NewReconnectableClient_Inv lazy config dial rc log :
  NewReconnectableClient lazy config dial = Some (rc, log) → Inv log rc.
Proof.
  unfold NewReconnectableClient. destruct lazy; [intros [= <- <-]; apply rc_new_Inv|].
  pose proof (reconnect_Inv [] _ config dial rc_new_Inv eq_refl eq_refl) as Hr.
  destruct (reconnect _ _ _) as [[rc' ok] evs]. destruct Hr as (Hr & _). destruct ok; [|done]. by intros [= <- <-].
Qed.

(** Nothing opens a closed client again. *)
Lemma steps_closed ls : ∀ rc, closed rc = true →
  let '(rc', evs) := steps rc ls in closed rc' = true ∧ made rc' = made rc ∧ connections evs = [].
Proof.
  induction ls as [|l ls IH]; intros rc Hcl; cbn [steps]; [done|].
  assert (let '(rc', evs) := step rc l in closed rc' = true ∧ made rc' = made rc ∧ connections evs = []) as H1.
  { destruct l as [i config dial|i r|]; cbn [step].
    - destruct (calls rc !! i); [done|]. unfold clientDo_begin. by rewrite Hcl.
    - unfold clientDo_end. destruct (calls rc !! i); [|done]. by destruct r.
    - unfold Close. by destruct (client rc). }
  destruct (step rc l) as [rc1 evs1]. destruct H1 as (Hc1 & Hm1 & He1). specialize (IH rc1 Hc1).
  destruct (steps rc1 ls) as [rc2 evs2]. destruct IH as (Hc2 & Hm2 & He2).
  split_and!; [done|congruence|]. by rewrite connections_app, He1, He2.
Qed.

(** ** Property *)


