(* ===== verification/Ring.v ===== *)
(** * The ring buffer (core/internal/congestion/bbr/ringbuffer.go)

    A queue in a slice that doubles when it is full.  Positions are ints that
    are never negative, so they are natural numbers here; an index out of range
    and an operation on an empty buffer panic.  The abstract buffer is the list
    of its elements. *)
From S2P Require Import Prelude.

(** Case analysis on the comparisons of positions. *)
Ltac nat_cases :=
  repeat match goal with
  | |- context [(?a <=? ?b)%nat] => destruct (Nat.leb_spec a b)
  | |- context [(?a =? ?b)%nat] => destruct (Nat.eqb_spec a b)
  | |- context [decide ?P] => destruct (decide P)
  | H : context [(?a <=? ?b)%nat] |- _ => destruct (Nat.leb_spec a b)
  | H : context [(?a =? ?b)%nat] |- _ => destruct (Nat.eqb_spec a b)
  end; try lia.

Record RingBuffer (T : Type) := mkRing {
  ring : list T;
  headPos : nat;
  tailPos : nat;
  full : bool;
}.
Arguments mkRing {T} _ _ _ _.
Arguments ring {T} _.
Arguments headPos {T} _.
Arguments tailPos {T} _.
Arguments full {T} _.

Section Ring.
(** The zero value of the element type. *)
Context {T : Type} (zero : T).

Definition zeroRing : RingBuffer T := mkRing [] 0 0 false.

Definition Init (size : nat) (r : RingBuffer T) : RingBuffer T :=
  mkRing (replicate size zero) (headPos r) (tailPos r) (full r).

Definition Len (r : RingBuffer T) : nat :=
  if full r then length (ring r)
  else if (headPos r <=? tailPos r)%nat then (tailPos r - headPos r)%nat
  else (tailPos r + length (ring r) - headPos r)%nat.

Definition Empty (r : RingBuffer T) : bool := negb (full r) && (headPos r =? tailPos r)%nat.

(** [copy(dst[off:], src)]. *)
Definition copy_at (dst : list T) (off : nat) (src : list T) : list T :=
  take off dst ++ take (length dst - off) src ++ drop (off + length src) dst.

Definition grow (r : RingBuffer T) : RingBuffer T :=
  let newSize := if (length (ring r) * 2 =? 0)%nat then 1%nat else (length (ring r) * 2)%nat in
  let headLen := Nat.min newSize (length (drop (headPos r) (ring r))) in
  mkRing (copy_at (copy_at (replicate newSize zero) 0 (drop (headPos r) (ring r))) headLen (take (headPos r) (ring r)))
    0 (length (ring r)) false.

Definition PushBack (t : T) (r : RingBuffer T) : outcome (RingBuffer T) :=
  let r := if full r || (length (ring r) =? 0)%nat then grow r else r in
  if (tailPos r <? length (ring r))%nat then
    let tail := if (S (tailPos r) =? length (ring r))%nat then 0%nat else S (tailPos r) in
    Ret (mkRing (<[tailPos r := t]> (ring r)) (headPos r) tail ((tail =? headPos r)%nat || full r))
  else Panic.

Definition PopFront (r : RingBuffer T) : outcome (RingBuffer T * T) :=
  if Empty r then Panic else
  match ring r !! headPos r with
  | None => Panic
  | Some t =>
      let head := if (S (headPos r) =? length (ring r))%nat then 0%nat else S (headPos r) in
      Ret (mkRing (<[headPos r := zero]> (ring r)) head (tailPos r) false, t)
  end.

(** The position of the element a pointer from [Offset] points at. *)
Definition Offset_pos (index : nat) (r : RingBuffer T) : outcome nat :=
  if Empty r || (Len r <=? index)%nat then Panic else Ret ((headPos r + index) mod length (ring r))%nat.

Definition Offset (index : nat) (r : RingBuffer T) : outcome T :=
  i ← Offset_pos index r;
  match ring r !! i with Some t => Ret t | None => Panic end.

(** A write through the pointer [Offset] returned. *)
Definition Offset_write (index : nat) (t : T) (r : RingBuffer T) : outcome (RingBuffer T) :=
  i ← Offset_pos index r;
  if (i <? length (ring r))%nat then Ret (mkRing (<[i := t]> (ring r)) (headPos r) (tailPos r) (full r)) else Panic.

Definition Front (r : RingBuffer T) : outcome T :=
  if Empty r then Panic else match ring r !! headPos r with Some t => Ret t | None => Panic end.

Definition Back (r : RingBuffer T) : outcome T :=
  if Empty r then Panic else Offset (Len r - 1) r.

Definition Clear (r : RingBuffer T) : RingBuffer T := mkRing (replicate (length (ring r)) zero) 0 0 false.

(** ** The list it holds *)
Record ring_ok (r : RingBuffer T) : Prop := {
  ro_head : (headPos r < length (ring r))%nat ∨ ring r = [] ∧ headPos r = 0%nat;
  ro_tail : (tailPos r < length (ring r))%nat ∨ ring r = [] ∧ tailPos r = 0%nat;
  ro_full : full r = true → headPos r = tailPos r ∧ ring r ≠ [];
}.

Definition contents (r : RingBuffer T) : list T :=
  (λ i, default zero (ring r !! ((headPos r + i) mod length (ring r))%nat)) <$> seq 0 (Len r).

Lemma wrap_mod h i n : (h < n)%nat → (i <= n)%nat → ((h + i) mod n = if decide (h + i < n) then h + i else h + i - n)%nat.
Proof.
  intros Hh Hi. case_decide as Hlt; [by apply Nat.mod_small|].
  rewrite <-(Nat.mod_small (h + i - n) n) by lia. rewrite <-(Nat.Div0.mod_add (h + i - n) 1 n). f_equal. lia.
Qed.

Lemma length_contents r : length (contents r) = Len r.
Proof. unfold contents. by rewrite length_fmap, length_seq. Qed.

Lemma contents_lookup r i : (i < Len r)%nat →
  contents r !! i = Some (default zero (ring r !! ((headPos r + i) mod length (ring r))%nat)).
Proof. intros Hi. unfold contents. rewrite list_lookup_fmap, lookup_seq_lt by done. done. Qed.

Lemma Len_bound r : ring_ok r → (Len r <= length (ring r))%nat ∧ (full r = false → ring r ≠ [] → Len r < length (ring r))%nat.
Proof.
  intros [Hh Ht Hf]. unfold Len. assert (length (ring r) = 0 ↔ ring r = [])%nat as Hn by (destruct (ring r); cbn; split; congruence || lia).
  destruct (full r); [split; [done|congruence]|]. case_match eqn:E; [apply Nat.leb_le in E|apply Nat.leb_gt in E].
  - destruct Ht as [|[He Ht]]; [split; lia|]. split; [lia|]. tauto.
  - destruct Hh as [|[He Hh]]; [|lia]. split; [lia|]. intros _ Hne. lia.
Qed.

Lemma Empty_spec r : ring_ok r → Empty r = bool_decide (contents r = []).
Proof.
  intros Hr. pose proof (Len_bound r Hr) as [Hb _]. unfold Empty. apply eq_bool_prop_intro.
  assert (contents r = [] ↔ Len r = 0%nat) as Hc by (rewrite <-length_contents; destruct (contents r); cbn; split; congruence || lia).
  assert (length (ring r) = 0 ↔ ring r = [])%nat as Hn by (destruct (ring r); cbn; split; congruence || lia).
  split; intros Ht; apply Is_true_true in Ht; apply Is_true_true.
  - apply andb_true_iff in Ht as [Hf%negb_true_iff He%Nat.eqb_eq]. apply bool_decide_eq_true_2, Hc. unfold Len. rewrite Hf.
    rewrite He, Nat.leb_refl. lia.
  - apply bool_decide_eq_true_1 in Ht. apply Hc in Ht. destruct Hr as [Hh Hta Hfu]. unfold Len in Ht.
    destruct (full r); [destruct (Hfu eq_refl); tauto|]. cbn. apply Nat.eqb_eq. case_match eqn:E; [apply Nat.leb_le in E|apply Nat.leb_gt in E]; [lia|].
    destruct Hh; lia.
Qed.

Lemma zeroRing_ok : ring_ok zeroRing ∧ contents zeroRing = [].
Proof. split; [|done]. split; cbn; auto; done. Qed.

Lemma Init_ok size : ring_ok (Init size zeroRing) ∧ contents (Init size zeroRing) = [].
Proof.
  split; [|done]. split; cbn; rewrite ?length_replicate; [destruct size; auto; left; lia..|done].
Qed.

Lemma Clear_ok r : ring_ok (Clear r) ∧ contents (Clear r) = [].
Proof.
  split; [|done]. unfold Clear. split; cbn; rewrite ?length_replicate; [destruct (ring r); cbn; auto; left; lia..|done].
Qed.

(** A buffer with room: not full. *)
Lemma grow_ok r : ring_ok r → full r = true ∨ ring r = [] →
  ring_ok (grow r) ∧ full (grow r) = false ∧ ring (grow r) ≠ [] ∧ contents (grow r) = contents r.
Proof.
  intros Hr Hfull. set (n := length (ring r)).
  assert (Len r = n) as HL.
  { unfold Len. destruct Hfull as [->|He]; [done|]. destruct Hr as [Hh Ht Hf]. unfold n. rewrite He in *. cbn in *.
    destruct (full r); [done|]. assert (headPos r = 0%nat ∧ tailPos r = 0%nat) as [-> ->] by lia. done. }
  assert (headPos r <= n)%nat as Hh by (destruct Hr as [[|[_ ->]] _ _]; unfold n; lia).
  assert (ring (grow r) = drop (headPos r) (ring r) ++ take (headPos r) (ring r) ++
    replicate ((if n * 2 =? 0 then 1 else n * 2) - n) zero)%nat as Hring.
  { unfold grow. fold n. set (size := (if n * 2 =? 0 then 1 else n * 2)%nat).
    assert (n <= size)%nat as Hsz by (unfold size; nat_cases).
    cbn [ring]. unfold copy_at. rewrite take_0, !app_nil_l, !length_replicate, length_drop. fold n.
    rewrite (Nat.min_r size) by lia. rewrite Nat.add_0_l.
    rewrite (take_ge (drop (headPos r) (ring r))) by (rewrite length_drop; fold n; lia).
    rewrite take_app_le, take_ge by (rewrite length_drop; fold n; lia).
    rewrite !length_app, length_drop, !length_take. fold n. rewrite drop_replicate, length_replicate.
    rewrite take_ge by (rewrite length_take; fold n; lia).
    rewrite drop_app_ge by (rewrite length_drop; fold n; lia). rewrite length_drop, drop_replicate. fold n.
    do 3 f_equal. lia. }
  assert (length (ring (grow r)) = if n * 2 =? 0 then 1 else n * 2)%nat as Hlen.
  { rewrite Hring, !length_app, length_drop, length_take, length_replicate. fold n. nat_cases. }
  assert (headPos (grow r) = 0%nat ∧ tailPos (grow r) = n ∧ full (grow r) = false) as (Hgh & Hgt & Hgf) by done.
  assert (n < length (ring (grow r)))%nat as Hlt by (rewrite Hlen; nat_cases).
  split; [split; rewrite ?Hgh, ?Hgt, ?Hgf; [left; lia..|done]|]. split; [done|].
  split; [intros E; rewrite E in Hlt; cbn in Hlt; lia|].
  assert (Len (grow r) = n) as HL2 by (unfold Len; rewrite Hgf, Hgh, Hgt; cbn; lia).
  apply list_eq_same_length with n; [by rewrite length_contents|by rewrite length_contents|].
  intros i x y Hi Hx Hy. rewrite contents_lookup in Hx, Hy by lia. apply (inj Some). rewrite <-Hx, <-Hy.
  apply (f_equal (λ o, Some (default zero o))). rewrite Hgh, Nat.add_0_l, Nat.mod_small by lia. rewrite Hring. fold n.
  assert (headPos r < n)%nat as Hhn by (destruct Hr as [[|[He _]] _ _]; [done|unfold n in Hi; rewrite He in Hi; cbn in Hi; lia]).
  rewrite wrap_mod by lia. case_decide.
  - rewrite lookup_app_l by (rewrite length_drop; fold n; lia). by rewrite lookup_drop.
  - rewrite lookup_app_r by (rewrite length_drop; fold n; lia). rewrite length_drop. fold n.
    rewrite lookup_app_l by (rewrite length_take; fold n; lia). rewrite lookup_take_lt by lia. f_equal. lia.
Qed.

Lemma PushBack_ok t r : ring_ok r → ∃ r', PushBack t r = Ret r' ∧ ring_ok r' ∧ contents r' = contents r ++ [t].
Proof.
  intros Hr. unfold PushBack. set (r1 := if _ : bool then grow r else r).
  assert (ring_ok r1 ∧ full r1 = false ∧ ring r1 ≠ [] ∧ contents r1 = contents r) as (Hr1 & Hf & Hne & <-).
  { unfold r1. destruct (full r || _) eqn:E.
    - apply grow_ok; [done|]. apply orb_true_iff in E as [|E%Nat.eqb_eq]; [by left|right]. by apply length_zero_iff_nil.
    - apply orb_false_iff in E as [Hf Hl%Nat.eqb_neq]. split_and!; try done. intros E. by rewrite E in Hl. }
  clearbody r1. clear r Hr. pose proof (Len_bound r1 Hr1) as [_ HL]. specialize (HL Hf Hne).
  destruct Hr1 as [Hh Ht _]. set (n := length (ring r1)) in *.
  destruct Hh as [Hh|[]]; [|done]. destruct Ht as [Ht|[]]; [|done].
  rewrite (proj2 (Nat.ltb_lt _ _)) by done. eexists. split; [done|].
  set (tail := if _ : bool then 0%nat else _).
  assert (tail < n)%nat as Htl by (unfold tail; nat_cases).
  rewrite Hf, orb_false_r.
  set (r2 := mkRing _ _ _ _). assert (length (ring r2) = n) as Hn2 by by (unfold r2; cbn; rewrite length_insert).
  assert ((headPos r1 + Len r1) mod n = tailPos r1)%nat as Htm.
  { rewrite wrap_mod by lia. unfold Len. rewrite Hf. fold n. nat_cases. }
  assert (Len r2 = S (Len r1)) as HL2.
  { unfold Len. rewrite Hf. cbn [full headPos tailPos r2]. fold n. rewrite Hn2.
    assert (S (tailPos r1) = n ∧ tail = 0 ∨ S (tailPos r1) < n ∧ tail = S (tailPos r1))%nat as Hcase
      by (unfold tail; nat_cases).
    unfold Len in HL. rewrite Hf in HL. fold n in HL.
    nat_cases. }
  split.
  - split; cbn [headPos tailPos full r2]; rewrite ?Hn2; [by left|by left|]. intros E%Nat.eqb_eq. split; [done|].
    intros E2. rewrite E2 in Hn2. cbn in Hn2. lia.
  - unfold contents. rewrite HL2, seq_S, fmap_app, Hn2. fold n. cbn [headPos ring r2 Nat.add]. f_equal.
    + apply list_fmap_ext. intros i j Hj. apply lookup_seq in Hj as [-> Hj]. cbn.
      rewrite list_lookup_insert_ne; [done|]. rewrite <-Htm, !wrap_mod by lia. repeat case_decide; lia.
    + cbn. do 2 f_equal. rewrite Htm. by rewrite list_lookup_insert_eq.
Qed.

Lemma contents_head r x xs : ring_ok r → contents r = x :: xs →
  Empty r = false ∧ (headPos r < length (ring r))%nat ∧ ring r !! headPos r = Some x ∧ Len r = S (length xs).
Proof.
  intros Hr Hc. pose proof (length_contents r) as HL. rewrite Hc in HL. cbn in HL.
  pose proof (Len_bound r Hr) as [Hb _]. rewrite Empty_spec, Hc by done. split; [done|].
  assert (headPos r < length (ring r))%nat as Hh by (destruct Hr as [[|[He _]] _ _]; [done|rewrite He in Hb; cbn in Hb; lia]).
  split; [done|]. split; [|done]. assert (contents r !! 0%nat = Some x) as H0 by by rewrite Hc.
  rewrite contents_lookup in H0 by lia. rewrite Nat.add_0_r, Nat.mod_small in H0 by done.
  destruct (lookup_lt_is_Some_2 (ring r) (headPos r) Hh) as [y Hy]. rewrite Hy in *. by injection H0 as ->.
Qed.

Lemma PopFront_ok r : ring_ok r →
  match contents r with
  | [] => PopFront r = Panic
  | x :: xs => ∃ r', PopFront r = Ret (r', x) ∧ ring_ok r' ∧ contents r' = xs
  end.
Proof.
  intros Hr. unfold PopFront. destruct (contents r) as [|x xs] eqn:Hc; [by rewrite Empty_spec, Hc|].
  destruct (contents_head r x xs Hr Hc) as (-> & Hh & Hx & HL). rewrite Hx.
  pose proof (Len_bound r Hr) as [Hb _]. set (n := length (ring r)) in *.
  eexists. split; [done|]. set (head := if _ : bool then 0%nat else _).
  assert (head = (headPos r + 1) mod n)%nat as Hhead.
  { rewrite wrap_mod by lia. unfold head. fold n. nat_cases. }
  assert (head < n)%nat as Hhn by (rewrite Hhead; apply Nat.mod_upper_bound; lia).
  set (r' := mkRing _ _ _ _). assert (length (ring r') = n) as Hn by by (unfold r'; cbn; rewrite length_insert).
  assert (tailPos r < n)%nat as Ht by (destruct Hr as [_ [|[He _]] _]; [done|unfold n in Hh; rewrite He in Hh; cbn in Hh; lia]).
  assert (Len r' = length xs) as HL'.
  { assert (S (headPos r) = n ∧ head = 0 ∨ S (headPos r) < n ∧ head = S (headPos r))%nat as Hcase
      by (unfold head; fold n; nat_cases).
    destruct Hr as [_ _ Hf]. unfold Len in HL |- *. cbn [full headPos tailPos r']. rewrite Hn. fold n in HL.
    destruct (full r); [destruct (Hf eq_refl)|]; nat_cases. }
  split; [split; cbn [headPos tailPos full r']; rewrite ?Hn; [by left|by left|done]|].
  apply list_eq_same_length with (length xs); [done|by rewrite length_contents|].
  intros i y z Hi Hy Hz. rewrite contents_lookup in Hy by lia.
  assert (contents r !! S i = Some z) as Hs by by rewrite Hc.
  rewrite contents_lookup in Hs by lia. apply (inj Some). rewrite <-Hy, <-Hs.
  apply (f_equal (λ o, Some (default zero o))). rewrite Hn. cbn [headPos ring r']. fold n.
  assert ((head + i) mod n = (headPos r + S i) mod n)%nat as ->.
  { rewrite Hhead, Nat.Div0.add_mod_idemp_l. f_equal. lia. }
  rewrite list_lookup_insert_ne; [done|]. rewrite wrap_mod by lia. case_decide; lia.
Qed.

Lemma Offset_pos_ok i r : ring_ok r →
  Offset_pos i r = (if decide (i < Len r)%nat then Ret ((headPos r + i) mod length (ring r))%nat else Panic) ∧
  ((i < Len r)%nat → (headPos r + i) mod length (ring r) < length (ring r))%nat.
Proof.
  intros Hr. unfold Offset_pos. rewrite Empty_spec by done. pose proof (Len_bound r Hr) as [Hb _]. split.
  - case_bool_decide as He; cbn.
    + rewrite <-length_contents, He. by rewrite decide_False by (cbn; lia).
    + case_decide; [by rewrite (proj2 (Nat.leb_gt _ _))|by rewrite (proj2 (Nat.leb_le _ _)) by lia].
  - intros Hi. apply Nat.mod_upper_bound. lia.
Qed.

Lemma Offset_ok i r : ring_ok r →
  Offset i r = match contents r !! i with Some x => Ret x | None => Panic end.
Proof.
  intros Hr. unfold Offset. destruct (Offset_pos_ok i r Hr) as [-> Hi]. case_decide as Hlt; cbn [mbind outcome_bind].
  - rewrite contents_lookup by done. destruct (lookup_lt_is_Some_2 (ring r) _ (Hi Hlt)) as [y Hy]. by rewrite Hy.
  - by rewrite lookup_ge_None_2 by (rewrite length_contents; lia).
Qed.

Lemma Offset_write_ok i x r : ring_ok r → (i < Len r)%nat →
  ∃ r', Offset_write i x r = Ret r' ∧ ring_ok r' ∧ contents r' = <[i := x]> (contents r).
Proof.
  intros Hr Hi. unfold Offset_write. destruct (Offset_pos_ok i r Hr) as [-> Hp]. specialize (Hp Hi).
  rewrite decide_True by done. cbn [mbind outcome_bind]. rewrite (proj2 (Nat.ltb_lt _ _)) by done.
  pose proof (Len_bound r Hr) as [Hb _].
  eexists. split; [done|]. set (r' := mkRing _ _ _ _).
  assert (length (ring r') = length (ring r)) as Hn by by (unfold r'; cbn; rewrite length_insert).
  assert (Len r' = Len r) as HL by by (unfold Len; cbn [full headPos tailPos r']; rewrite Hn).
  assert (headPos r < length (ring r))%nat as Hh by (destruct Hr as [[|[He _]] _ _]; [done|rewrite He in Hb; cbn in Hb; lia]).
  split.
  - destruct Hr as [Hrh Hrt Hrf]. split; rewrite ?Hn; cbn [headPos tailPos full r']; [by left| |].
    + destruct Hrt as [|[He _]]; [by left|]. rewrite He in Hh. cbn in Hh. lia.
    + intros Hf. split; [by apply Hrf|]. intros He. rewrite He in Hn. cbn in Hn. lia.
  - apply list_eq_same_length with (Len r); [by rewrite length_insert, length_contents|by rewrite length_contents|].
    intros j y z Hj Hy Hz. rewrite contents_lookup, Hn in Hy by lia. cbn [headPos ring r'] in Hy.
    apply (inj Some). rewrite <-Hy. clear y Hy.
    destruct (decide (i = j)) as [<-|Hij].
    + rewrite list_lookup_insert_eq in Hz by by rewrite length_contents. rewrite <-Hz. by rewrite list_lookup_insert_eq.
    + rewrite list_lookup_insert_ne in Hz by done. rewrite contents_lookup in Hz by done. rewrite <-Hz.
      rewrite list_lookup_insert_ne; [done|]. rewrite !wrap_mod by lia. repeat case_decide; lia.
Qed.

Lemma Front_ok r : ring_ok r → Front r = match contents r with x :: _ => Ret x | [] => Panic end.
Proof.
  intros Hr. unfold Front. destruct (contents r) as [|x xs] eqn:Hc; [by rewrite Empty_spec, Hc|].
  destruct (contents_head r x xs Hr Hc) as (-> & _ & -> & _). done.
Qed.

Lemma Back_ok r : ring_ok r → Back r = match last (contents r) with Some x => Ret x | None => Panic end.
Proof.
  intros Hr. unfold Back. rewrite Empty_spec by done. case_bool_decide as He; [by rewrite He|].
  rewrite Offset_ok, last_lookup, length_contents by done. by rewrite Nat.sub_1_r.
Qed.
End Ring.
