(* ===== verification/PnQueue.v ===== *)
(** * The queue indexed by packet number
    (core/internal/congestion/bbr/packet_number_indexed_queue.go)

    Entries for mostly consecutive packet numbers in a ring buffer, each slot
    marked as present or not, the front slot always present.  The abstract queue
    is a finite map with the number of the last packet inserted. *)
From S2P Require Import Prelude Ring.

Definition invalidPacketNumber : Z := -1.

Record entryWrapper (T : Type) := mkWrapper { present : bool; entry : T }.
Arguments mkWrapper {T} _ _.
Arguments present {T} _.
Arguments entry {T} _.

Record packetNumberIndexedQueue (T : Type) := mkQueue {
  entries : RingBuffer (entryWrapper T);
  numberOfPresentEntries : Z;
  firstPacket : Z;                       (* congestion.PacketNumber, an int64 *)
}.
Arguments mkQueue {T} _ _ _.
Arguments entries {T} _.
Arguments numberOfPresentEntries {T} _.
Arguments firstPacket {T} _.

Section Queue.
Context {T : Type} (zero : T).

Definition zeroWrapper : entryWrapper T := mkWrapper false zero.

Definition newPacketNumberIndexedQueue (size : nat) : packetNumberIndexedQueue T :=
  mkQueue (Init zeroWrapper size zeroRing) 0 invalidPacketNumber.

Definition IsEmpty (p : packetNumberIndexedQueue T) : bool := numberOfPresentEntries p =? 0.

Definition EntrySlotsUsed (p : packetNumberIndexedQueue T) : Z := Z.of_nat (Len (entries p)).

Definition FirstPacket (p : packetNumberIndexedQueue T) : Z := firstPacket p.

Definition LastPacket (p : packetNumberIndexedQueue T) : Z :=
  if IsEmpty p then invalidPacketNumber else i64 (firstPacket p + i64 (Z.of_nat (Len (entries p)) - 1)).

(** The loop that fills the gap: [gap] slots that are not present. *)
Fixpoint push_gap (gap : nat) (r : RingBuffer (entryWrapper T)) : outcome (RingBuffer (entryWrapper T)) :=
  match gap with
  | O => Ret r
  | S gap => r ← PushBack zeroWrapper zeroWrapper r; push_gap gap r
  end.

Definition Emplace (packetNumber : Z) (e : T) (p : packetNumberIndexedQueue T)
    : outcome (packetNumberIndexedQueue T * bool) :=
  if packetNumber =? invalidPacketNumber then Ret (p, false) else
  if IsEmpty p then
    r ← PushBack zeroWrapper (mkWrapper true e) (entries p);
    Ret (mkQueue r 1 packetNumber, true)
  else if packetNumber <=? LastPacket p then Ret (p, false)
  else
    let offset := i64 (packetNumber - FirstPacket p) in
    let gap := i64 (offset - Z.of_nat (Len (entries p))) in
    r ← push_gap (Z.to_nat gap) (entries p);
    r ← PushBack zeroWrapper (mkWrapper true e) r;
    Ret (mkQueue r (numberOfPresentEntries p + 1) (firstPacket p), true).

(** [getEntryWraper]: the offset of the wrapper in the buffer, and the wrapper. *)
Definition getEntryWraper (packetNumber : Z) (p : packetNumberIndexedQueue T)
    : outcome (option (nat * entryWrapper T)) :=
  if (packetNumber =? invalidPacketNumber) || IsEmpty p || (packetNumber <? firstPacket p) then Ret None else
  let offset := i64 (packetNumber - firstPacket p) in
  if Z.of_nat (Len (entries p)) <=? offset then Ret None else
  ew ← Offset (Z.to_nat offset) (entries p);
  Ret (if present ew then Some (Z.to_nat offset, ew) else None).

Definition GetEntry (packetNumber : Z) (p : packetNumberIndexedQueue T) : outcome (option T) :=
  ew ← getEntryWraper packetNumber p;
  Ret (match ew with Some (_, ew) => Some (entry ew) | None => None end).

(** The loop of [clearup], with fuel; one slot is popped in each turn. *)
Fixpoint clearup_loop (fuel : nat) (r : RingBuffer (entryWrapper T)) (first : Z)
    : outcome (RingBuffer (entryWrapper T) * Z) :=
  match fuel with
  | O => Ret (r, first)
  | S fuel =>
      if Empty r then Ret (r, first) else
      ew ← Front r;
      if present ew then Ret (r, first) else
      '(r, _) ← PopFront zeroWrapper r;
      clearup_loop fuel r (i64 (first + 1))
  end.

Definition clearup (p : packetNumberIndexedQueue T) : outcome (packetNumberIndexedQueue T) :=
  '(r, first) ← clearup_loop (S (Len (entries p))) (entries p) (firstPacket p);
  Ret (mkQueue r (numberOfPresentEntries p) (if Empty r then invalidPacketNumber else first)).

(** The second component is what [f] is called with, when the entry was there. *)
Definition Remove (packetNumber : Z) (p : packetNumberIndexedQueue T)
    : outcome (packetNumberIndexedQueue T * option T) :=
  ew ← getEntryWraper packetNumber p;
  match ew with
  | None => Ret (p, None)
  | Some (offset, ew) =>
      r ← Offset_write offset (mkWrapper false (entry ew)) (entries p);
      let p := mkQueue r (numberOfPresentEntries p - 1) (firstPacket p) in
      p ← (if packetNumber =? FirstPacket p then clearup p else Ret p);
      Ret (p, Some (entry ew))
  end.

(** The loop of [RemoveUpTo], with fuel. *)
Fixpoint remove_loop (fuel : nat) (packetNumber : Z) (p : packetNumberIndexedQueue T)
    : outcome (packetNumberIndexedQueue T) :=
  match fuel with
  | O => Ret p
  | S fuel =>
      if negb (Empty (entries p)) && negb (firstPacket p =? invalidPacketNumber) && (firstPacket p <? packetNumber) then
        ew ← Front (entries p);
        '(r, _) ← PopFront zeroWrapper (entries p);
        remove_loop fuel packetNumber
          (mkQueue r (if present ew then numberOfPresentEntries p - 1 else numberOfPresentEntries p) (i64 (firstPacket p + 1)))
      else Ret p
  end.

Definition RemoveUpTo (packetNumber : Z) (p : packetNumberIndexedQueue T) : outcome (packetNumberIndexedQueue T) :=
  p ← remove_loop (S (Len (entries p))) packetNumber p;
  clearup p.

(** ** Calls *)
Inductive call : Type :=
| CEmplace (packetNumber : Z) (e : T)
| CGet (packetNumber : Z)
| CRemove (packetNumber : Z)
| CRemoveUpTo (packetNumber : Z).

Inductive answer : Type := Inserted (ok : bool) | Found (e : option T) | Removed (e : option T) | Done.

Definition step (p : packetNumberIndexedQueue T) (c : call) : outcome (packetNumberIndexedQueue T * answer) :=
  match c with
  | CEmplace pn e => '(p, ok) ← Emplace pn e p; Ret (p, Inserted ok)
  | CGet pn => e ← GetEntry pn p; Ret (p, Found e)
  | CRemove pn => '(p, e) ← Remove pn p; Ret (p, Removed e)
  | CRemoveUpTo pn => p ← RemoveUpTo pn p; Ret (p, Done)
  end.

Fixpoint steps (p : packetNumberIndexedQueue T) (cs : list call) : outcome (packetNumberIndexedQueue T * list answer) :=
  match cs with
  | [] => Ret (p, [])
  | c :: cs => '(p, a) ← step p c; '(p, answers) ← steps p cs; Ret (p, a :: answers)
  end.

(** ** The specification: a finite map and the last packet inserted *)
Definition spec_step (st : gmap Z T * Z) (c : call) : (gmap Z T * Z) * answer :=
  let '(m, last) := st in
  match c with
  | CEmplace pn e =>
      if bool_decide (m = ∅) then (({[pn := e]}, pn), Inserted true)
      else if pn <=? last then (st, Inserted false)
      else ((<[pn := e]> m, pn), Inserted true)
  | CGet pn => (st, Found (m !! pn))
  | CRemove pn => ((delete pn m, last), Removed (m !! pn))
  | CRemoveUpTo pn => ((filter (λ kv, pn <= kv.1) m, last), Done)
  end.

Fixpoint spec_steps (st : gmap Z T * Z) (cs : list call) : (gmap Z T * Z) * list answer :=
  match cs with
  | [] => (st, [])
  | c :: cs => let '(st, a) := spec_step st c in let '(st, answers) := spec_steps st cs in (st, a :: answers)
  end.

(** ** The relation between the two *)
Abbreviation slots := (list (entryWrapper T)).

Definition present_slots (xs : slots) : Z := len (filter (λ w, present w = true) xs).

(** The slots from packet [f] on hold the map. *)
Definition view (xs : slots) (f : Z) (m : gmap Z T) : Prop :=
  ∀ k v, m !! k = Some v ↔ ∃ i, k = f + Z.of_nat i ∧ xs !! i = Some (mkWrapper true v).

Record represents (p : packetNumberIndexedQueue T) (st : gmap Z T * Z) : Prop := {
  rp_ok : ring_ok (entries p);
  rp_view : view (contents zeroWrapper (entries p)) (firstPacket p) st.1;
  rp_count : numberOfPresentEntries p = present_slots (contents zeroWrapper (entries p));
  rp_front : match contents zeroWrapper (entries p) with
             | [] => firstPacket p = invalidPacketNumber
             | x :: xs => present x = true ∧ 0 <= firstPacket p ∧ st.2 = firstPacket p + len xs ∧ st.2 < 2 ^ 62
             end;
}.

Lemma present_slots_cons x xs : present_slots (x :: xs) = (if present x then 1 else 0) + present_slots xs.
Proof. unfold present_slots. rewrite filter_cons. destruct (present x); case_decide; rewrite ?len_cons; done || lia. Qed.

Lemma present_slots_app xs ys : present_slots (xs ++ ys) = present_slots xs + present_slots ys.
Proof. unfold present_slots. by rewrite filter_app, len_app. Qed.

Lemma present_slots_nonneg xs : 0 <= present_slots xs.
Proof. apply len_nonneg. Qed.

Lemma present_slots_absent xs : Forall (λ w, present w = false) xs → present_slots xs = 0.
Proof. induction 1 as [|x xs Hx _ IH]; [done|]. by rewrite present_slots_cons, Hx, IH. Qed.

Lemma view_nil f m : view [] f m ↔ m = ∅.
Proof.
  split.
  - intros Hv. apply map_eq. intros k. rewrite lookup_empty. destruct (m !! k) as [v|] eqn:Hk; [|done].
    apply Hv in Hk as (i & _ & Hi). by rewrite lookup_nil in Hi.
  - intros -> k v. rewrite lookup_empty. split; [done|]. intros (i & _ & Hi). by rewrite lookup_nil in Hi.
Qed.

Lemma view_drop xs f m j : view xs f m → view (drop j xs) (f + Z.of_nat j) (filter (λ kv, f + Z.of_nat j <= kv.1) m).
Proof.
  intros Hv k v. rewrite map_lookup_filter_Some, (Hv k v). cbn. split.
  - intros [(i & -> & Hi) Hle]. exists (i - j)%nat. split; [lia|]. rewrite lookup_drop. by replace (j + (i - j))%nat with i by lia.
  - intros (i & -> & Hi). rewrite lookup_drop in Hi. split; [|lia]. exists (j + i)%nat. split; [lia|done].
Qed.

(** Dropping slots that are not present. *)
Lemma view_drop_absent xs f m j : view xs f m → Forall (λ w, present w = false) (take j xs) →
  view (drop j xs) (f + Z.of_nat j) m.
Proof.
  intros Hv Ha. pose proof (view_drop xs f m j Hv) as Hd.
  replace (filter (λ kv, f + Z.of_nat j <= kv.1) m) with m in Hd; [done|].
  symmetry. apply map_filter_id. intros k v Hk. apply Hv in Hk as (i & -> & Hi). cbn.
  destruct (decide (i < j)%nat) as [Hij|]; [|lia]. exfalso.
  assert (take j xs !! i = Some (mkWrapper true v)) as Ht by by rewrite lookup_take_lt.
  eapply Forall_lookup_1 in Ha; [|exact Ht]. done.
Qed.

Lemma view_empty x xs f m : view (x :: xs) f m → present x = true → m ≠ ∅.
Proof.
  intros Hv Hx ->. destruct x as [b v]. cbn in Hx. subst b.
  assert ((∅ : gmap Z T) !! f = Some v) as Hf; [apply Hv; exists 0%nat; split; [lia|done]|]. by rewrite lookup_empty in Hf.
Qed.

Lemma IsEmpty_spec p st : represents p st →
  IsEmpty p = bool_decide (st.1 = ∅) ∧ (st.1 = ∅ ↔ contents zeroWrapper (entries p) = []).
Proof.
  intros [Hr Hv Hc Hf]. unfold IsEmpty. rewrite Hc. destruct (contents zeroWrapper (entries p)) as [|x xs].
  - apply view_nil in Hv. rewrite bool_decide_eq_true_2 by done. by split.
  - destruct Hf as (Hx & _). pose proof (view_empty x xs _ _ Hv Hx) as Hne. rewrite bool_decide_eq_false_2 by done.
    rewrite present_slots_cons, Hx. pose proof (present_slots_nonneg xs). split; [apply Z.eqb_neq; lia|]. by split.
Qed.

Lemma push_gap_ok gap : ∀ r, ring_ok r →
  ∃ r', push_gap gap r = Ret r' ∧ ring_ok r' ∧ contents zeroWrapper r' = contents zeroWrapper r ++ replicate gap zeroWrapper.
Proof.
  induction gap as [|gap IH]; intros r Hr; cbn [push_gap].
  - eexists. split_and!; [done|done|]. cbn. by rewrite app_nil_r.
  - destruct (PushBack_ok zeroWrapper zeroWrapper r Hr) as (r1 & -> & H1 & Hc1). cbn [mbind outcome_bind].
    destruct (IH r1 H1) as (r2 & -> & H2 & Hc2). eexists. split_and!; [done|done|].
    rewrite Hc2, Hc1. cbn. by rewrite <-app_assoc.
Qed.

(** The loop of [clearup] drops exactly the leading slots that are not present. *)
Lemma clearup_loop_ok fuel : ∀ r f xs, ring_ok r → contents zeroWrapper r = xs → (length xs < fuel)%nat →
  0 <= f → f + len xs < 2 ^ 63 →
  ∃ r' j, clearup_loop fuel r f = Ret (r', f + Z.of_nat j) ∧ ring_ok r' ∧ (j <= length xs)%nat ∧
    contents zeroWrapper r' = drop j xs ∧ Forall (λ w, present w = false) (take j xs) ∧
    (match drop j xs with [] => True | x :: _ => present x = true end).
Proof.
  induction fuel as [|fuel IH]; intros r f xs Hr Hc Hfuel Hf Hb; [lia|]. cbn [clearup_loop].
  rewrite (Empty_spec zeroWrapper), Front_ok with (zero := zeroWrapper), Hc by done.
  destruct xs as [|x xs].
  - rewrite bool_decide_eq_true_2 by done. exists r, 0%nat. rewrite Z.add_0_r. split_and!; cbn; done || lia.
  - rewrite bool_decide_eq_false_2 by done. cbn [mbind outcome_bind]. destruct (present x) eqn:Hx.
    + exists r, 0%nat. rewrite Z.add_0_r. split_and!; cbn; done || lia.
    + pose proof (PopFront_ok zeroWrapper r Hr) as Hp. rewrite Hc in Hp. destruct Hp as (r1 & -> & H1 & Hc1).
      cbn [mbind outcome_bind]. rewrite len_cons in Hb. cbn in Hfuel. pose proof (len_nonneg xs).
      rewrite i64_small by (unfold MinInt64, MaxInt64; lia).
      destruct (IH r1 (f + 1) xs H1 Hc1) as (r' & j & E & Hr' & Hj & Hc' & Ha & Hh); [lia..|].
      exists r', (S j). rewrite E. split_and!; cbn; [do 2 f_equal; lia|done|lia|done|by constructor|done].
Qed.

Lemma clearup_ok p m f xs : ring_ok (entries p) → contents zeroWrapper (entries p) = xs → view xs (firstPacket p) m →
  numberOfPresentEntries p = present_slots xs → 0 <= firstPacket p → firstPacket p + len xs - 1 = f → f < 2 ^ 62 →
  ∃ p', clearup p = Ret p' ∧ represents p' (m, f).
Proof.
  intros Hr Hc Hv Hn Hf Hl Hb. unfold clearup.
  destruct (clearup_loop_ok (S (Len (entries p))) (entries p) (firstPacket p) xs Hr Hc) as (r' & j & -> & Hr' & Hj & Hc' & Ha & Hh).
  { rewrite <-Hc, length_contents. lia. } { done. } { lia. }
  cbn [mbind outcome_bind]. eexists. split; [done|].
  pose proof (view_drop_absent xs _ m j Hv Ha) as Hv'.
  assert (present_slots xs = present_slots (drop j xs)) as Hcount.
  { rewrite <-(take_drop j xs) at 1. rewrite present_slots_app.
    rewrite (present_slots_absent _ Ha). done. }
  assert (len (drop j xs) = len xs - Z.of_nat j) as Hlen by (unfold len; rewrite length_drop; lia).
  split; cbn [entries firstPacket numberOfPresentEntries fst snd]; rewrite ?Hc'; [done| |congruence|].
  - rewrite (Empty_spec zeroWrapper), Hc' by done. case_bool_decide as He; [|done]. rewrite He in *.
    apply view_nil. by apply view_nil in Hv'.
  - rewrite (Empty_spec zeroWrapper), Hc' by done. destruct (drop j xs) as [|x ys] eqn:E.
    + by rewrite bool_decide_eq_true_2.
    + rewrite bool_decide_eq_false_2 by done. rewrite len_cons in Hlen. split_and!; [done|lia|lia|done].
Qed.

(** The loop of [RemoveUpTo] drops the slots below the packet number. *)
Lemma remove_loop_ok pn fuel : ∀ p xs, ring_ok (entries p) → contents zeroWrapper (entries p) = xs → (length xs < fuel)%nat →
  numberOfPresentEntries p = present_slots xs → 0 <= firstPacket p → firstPacket p + len xs < 2 ^ 63 →
  ∃ p' j, remove_loop fuel pn p = Ret p' ∧ ring_ok (entries p') ∧ contents zeroWrapper (entries p') = drop j xs ∧
    firstPacket p' = firstPacket p + Z.of_nat j ∧ numberOfPresentEntries p' = present_slots (drop j xs) ∧
    (j <= length xs)%nat ∧ (drop j xs ≠ [] → pn <= firstPacket p') ∧ (j = 0%nat ∨ firstPacket p' <= pn).
Proof.
  induction fuel as [|fuel IH]; intros p xs Hr Hc Hfuel Hn Hf Hb; [lia|]. cbn [remove_loop].
  rewrite (Empty_spec zeroWrapper), Front_ok with (zero := zeroWrapper), Hc by done.
  rewrite (proj2 (Z.eqb_neq (firstPacket p) invalidPacketNumber)) by (unfold invalidPacketNumber; lia). cbn [negb].
  rewrite andb_true_r.
  assert ((xs ≠ [] → pn <= firstPacket p) → ∃ p' j, Ret p = Ret p' ∧ ring_ok (entries p') ∧ contents zeroWrapper (entries p') = drop j xs ∧
    firstPacket p' = firstPacket p + Z.of_nat j ∧ numberOfPresentEntries p' = present_slots (drop j xs) ∧
    (j <= length xs)%nat ∧ (drop j xs ≠ [] → pn <= firstPacket p') ∧ (j = 0%nat ∨ firstPacket p' <= pn)) as Hstop.
  { intros Hle. exists p, 0%nat. split_and!; rewrite ?drop_0; try done; lia || auto. }
  destruct xs as [|x xs]; [rewrite bool_decide_eq_true_2 by done; by apply Hstop|].
  rewrite bool_decide_eq_false_2 by done. cbn [negb andb].
  destruct (Z.ltb_spec (firstPacket p) pn) as [Hlt|Hge]; [|by apply Hstop]. clear Hstop.
  cbn [mbind outcome_bind]. pose proof (PopFront_ok zeroWrapper (entries p) Hr) as Hp. rewrite Hc in Hp.
  destruct Hp as (r1 & -> & H1 & Hc1). cbn [mbind outcome_bind]. rewrite len_cons in Hb. cbn in Hfuel. pose proof (len_nonneg xs).
  rewrite i64_small by (unfold MinInt64, MaxInt64; lia). rewrite present_slots_cons in Hn.
  set (p1 := mkQueue _ _ _).
  destruct (IH p1 xs H1 Hc1) as (p' & j & -> & Hr' & Hc' & Hf' & Hn' & Hj & Hd & Hle).
  { lia. } { cbn. destruct (present x); lia. } { cbn. lia. } { cbn. lia. }
  cbn [firstPacket p1] in Hf'. exists p', (S j). split_and!; cbn; done || lia.
Qed.

Lemma new_represents size : represents (newPacketNumberIndexedQueue size) (∅, 0).
Proof.
  destruct (Init_ok zeroWrapper size) as [Hr Hc].
  split; cbn [entries firstPacket newPacketNumberIndexedQueue fst snd]; rewrite ?Hc; [done|by apply view_nil|done..].
Qed.

Definition packet_ok (pn : Z) : Prop := 0 <= pn < 2 ^ 62.

Definition call_ok (c : call) : Prop :=
  match c with CEmplace pn _ | CGet pn | CRemove pn => packet_ok pn | CRemoveUpTo _ => True end.

Lemma front_bounds p st x xs : represents p st → contents zeroWrapper (entries p) = x :: xs →
  present x = true ∧ 0 <= firstPacket p ∧ st.2 = firstPacket p + len xs ∧ st.2 < 2 ^ 62 ∧
  Z.of_nat (Len (entries p)) = 1 + len xs.
Proof.
  intros [_ _ _ Hf] E. rewrite E in Hf. destruct Hf as (?&?&?&?). split_and!; try done.
  rewrite <-(length_contents zeroWrapper), E. cbn. unfold len. lia.
Qed.

Lemma getEntryWraper_ok p st pn : represents p st → packet_ok pn →
  ∃ o, getEntryWraper pn p = Ret o ∧
    match st.1 !! pn with
    | None => o = None
    | Some v => ∃ i, o = Some (i, mkWrapper true v) ∧ pn = firstPacket p + Z.of_nat i ∧ (i < Len (entries p))%nat ∧
                     contents zeroWrapper (entries p) !! i = Some (mkWrapper true v)
    end.
Proof.
  intros Hp [Hpn1 Hpn2]. pose proof (IsEmpty_spec p st Hp) as [He Hnil]. unfold getEntryWraper. rewrite He.
  rewrite (proj2 (Z.eqb_neq pn invalidPacketNumber)) by (unfold invalidPacketNumber; lia). cbn [orb].
  case_bool_decide as Hem; cbn [orb].
  { exists None. split; [done|]. by rewrite Hem, lookup_empty. }
  destruct (contents zeroWrapper (entries p)) as [|x xs] eqn:E; [by destruct Hem; apply Hnil|].
  destruct (front_bounds p st x xs Hp E) as (_ & Hf0 & Hl & Hb & HL).
  pose proof (rp_view _ _ Hp) as Hv. rewrite E in Hv. pose proof (len_nonneg xs) as Hxs.
  destruct (Z.ltb_spec pn (firstPacket p)) as [Hlt|Hge].
  { exists None. split; [done|]. destruct (st.1 !! pn) as [v|] eqn:Hk; [|done]. apply Hv in Hk as (i & -> & _). lia. }
  rewrite i64_small by (unfold MinInt64, MaxInt64; lia).
  destruct (Z.leb_spec (Z.of_nat (Len (entries p))) (pn - firstPacket p)) as [Hle|Hlt].
  { exists None. split; [done|]. destruct (st.1 !! pn) as [v|] eqn:Hk; [|done]. apply Hv in Hk as (i & -> & Hi).
    apply lookup_lt_Some in Hi. cbn in Hi. unfold len in HL. lia. }
  rewrite (Offset_ok zeroWrapper) by apply Hp. rewrite E.
  destruct (lookup_lt_is_Some_2 (x :: xs) (Z.to_nat (pn - firstPacket p))) as [w Hw].
  { cbn. unfold len in HL. lia. }
  rewrite Hw. cbn [mbind outcome_bind]. eexists. split; [done|]. destruct (present w) eqn:Hpw.
  - destruct w as [b v]. cbn in Hpw. subst b.
    assert (st.1 !! pn = Some v) as -> by (apply Hv; exists (Z.to_nat (pn - firstPacket p)); split; [lia|done]).
    exists (Z.to_nat (pn - firstPacket p)). split_and!; [done|lia|lia|done].
  - destruct (st.1 !! pn) as [v|] eqn:Hk; [|done]. apply Hv in Hk as (i & Hi1 & Hi2).
    replace (Z.to_nat (pn - firstPacket p)) with i in Hw by lia. rewrite Hi2 in Hw. injection Hw as <-. done.
Qed.

Lemma GetEntry_ok p st pn : represents p st → packet_ok pn → GetEntry pn p = Ret (st.1 !! pn).
Proof.
  intros Hp Hpn. destruct (getEntryWraper_ok p st pn Hp Hpn) as (o & Ho & Hm). unfold GetEntry. rewrite Ho.
  cbn [mbind outcome_bind]. destruct (st.1 !! pn) as [v|]; [|by subst]. by destruct Hm as (i & -> & _).
Qed.

Lemma view_snoc xs f m pn e gap : view xs f m → pn = f + len xs + Z.of_nat gap →
  view (xs ++ replicate gap zeroWrapper ++ [mkWrapper true e]) f (<[pn := e]> m).
Proof.
  intros Hv Hpn k v. rewrite lookup_insert_Some, (Hv k v). split.
  - intros [[<- <-]|[Hne (i & -> & Hi)]].
    + exists (length xs + gap)%nat. unfold len in Hpn. split; [lia|].
      rewrite lookup_app_r by lia. rewrite lookup_app_r by (rewrite length_replicate; lia).
      rewrite length_replicate. by replace (length xs + gap - length xs - gap)%nat with 0%nat by lia.
    + exists i. split; [done|]. rewrite lookup_app_l; [done|]. by eapply lookup_lt_Some.
  - intros (i & -> & Hi). apply lookup_app_Some in Hi as [Hi|[Hle Hi]].
    + right. split; [|by exists i]. apply lookup_lt_Some in Hi. unfold len in Hpn. lia.
    + apply lookup_app_Some in Hi as [Hi|[Hle2 Hi]].
      * apply lookup_replicate in Hi as [Hi _]. done.
      * rewrite length_replicate in *. apply list_lookup_singleton_Some in Hi as [Hi [= ->]]. left. unfold len in Hpn. split; [lia|done].
Qed.

Lemma Emplace_ok p st pn e : represents p st → packet_ok pn →
  ∃ p', step p (CEmplace pn e) = Ret (p', (spec_step st (CEmplace pn e)).2) ∧
    represents p' (spec_step st (CEmplace pn e)).1.
Proof.
  intros Hp [Hpn1 Hpn2]. pose proof (IsEmpty_spec p st Hp) as [He Hnil]. cbn [step]. unfold Emplace. rewrite He.
  rewrite (proj2 (Z.eqb_neq pn invalidPacketNumber)) by (unfold invalidPacketNumber; lia).
  unfold spec_step. destruct st as [m last]. cbn [fst snd] in *. pose proof Hp as [Hr Hv Hc Hf]. cbn [fst snd] in *.
  case_bool_decide as Hem.
  - destruct (PushBack_ok zeroWrapper (mkWrapper true e) _ Hr) as (r & -> & Hr' & Hc'). cbn [mbind outcome_bind].
    eexists. split; [done|]. apply Hnil in Hem. rewrite Hem in Hc'. cbn in Hc'.
    split; cbn [entries firstPacket numberOfPresentEntries fst snd]; rewrite ?Hc'; [done| |done|].
    + intros k v. rewrite lookup_singleton_Some. split.
      * intros [<- <-]. exists 0%nat. split; [lia|done].
      * intros ([|i] & -> & Hi); [|done]. injection Hi as <-. split; [lia|done].
    + change (len []) with 0. split_and!; [done|lia|lia|done].
  - destruct (contents zeroWrapper (entries p)) as [|x xs] eqn:E; [by destruct Hem; apply Hnil|].
    destruct (front_bounds p (m, last) x xs Hp E) as (Hx & Hf0 & Hl & Hb & HL). cbn [fst snd] in *.
    pose proof (len_nonneg xs) as Hxs.
    assert (LastPacket p = last) as ->.
    { unfold LastPacket. rewrite He.
      rewrite (i64_small (Z.of_nat _ - 1)), i64_small by (unfold MinInt64, MaxInt64; lia). lia. }
    destruct (Z.leb_spec pn last) as [Hle|Hgt]; [by exists p|].
    unfold FirstPacket. rewrite (i64_small (pn - _)), i64_small by (unfold MinInt64, MaxInt64; lia).
    set (gap := Z.to_nat _).
    destruct (push_gap_ok gap (entries p) Hr) as (r1 & -> & H1 & Hc1). cbn [mbind outcome_bind].
    destruct (PushBack_ok zeroWrapper (mkWrapper true e) r1 H1) as (r2 & -> & H2 & Hc2). cbn [mbind outcome_bind].
    eexists. split; [done|]. rewrite Hc1, E, <-app_assoc in Hc2.
    split; cbn [entries firstPacket numberOfPresentEntries fst snd]; rewrite ?Hc2; [done| | |].
    + apply view_snoc; [done|]. rewrite len_cons. unfold gap. lia.
    + rewrite !present_slots_app, (present_slots_absent (replicate _ _)) by (by apply Forall_replicate). rewrite Hc. rewrite (present_slots_cons _ []). change (present_slots []) with 0. cbn [present]. lia.
    + cbn [app]. rewrite !len_app. unfold len at 2. rewrite length_replicate. change (len [mkWrapper true e]) with 1.
      split_and!; [done|done|unfold gap; lia|done].
Qed.

Lemma CRemoveUpTo_ok p st pn : represents p st →
  ∃ p', step p (CRemoveUpTo pn) = Ret (p', (spec_step st (CRemoveUpTo pn)).2) ∧
    represents p' (spec_step st (CRemoveUpTo pn)).1.
Proof.
  intros Hp. cbn [step]. unfold RemoveUpTo, spec_step. destruct st as [m last]. cbn [fst snd].
  pose proof Hp as [Hr Hv Hc Hf]. cbn [fst snd] in *.
  destruct (contents zeroWrapper (entries p)) as [|x xs] eqn:E.
  - apply view_nil in Hv. subst m. rewrite map_filter_empty.
    assert (Empty (entries p) = true) as Hemp by by rewrite (Empty_spec zeroWrapper), E.
    cbn [remove_loop]. rewrite Hemp. cbn [negb andb mbind outcome_bind]. unfold clearup. cbn [clearup_loop]. rewrite Hemp.
    cbn [mbind outcome_bind]. rewrite Hemp. eexists. split; [done|].
    split; cbn [entries firstPacket numberOfPresentEntries fst snd]; rewrite ?E; [done|by apply view_nil|done..].
  - destruct (front_bounds p (m, last) x xs Hp E) as (Hx & Hf0 & Hl & Hb & HL). cbn [fst snd] in *.
    pose proof (len_nonneg xs) as Hxs.
    destruct (remove_loop_ok pn (S (Len (entries p))) p (x :: xs) Hr E) as (p1 & j & -> & H1 & Hc1 & Hf1 & Hn1 & Hj & Hd & Hle).
    { rewrite <-E, length_contents. lia. } { done. } { done. } { rewrite len_cons. lia. }
    cbn [mbind outcome_bind].
    pose proof (view_drop _ _ _ j Hv) as Hv1.
    assert (filter (λ kv, firstPacket p + Z.of_nat j <= kv.1) m = filter (λ kv, pn <= kv.1) m) as Heq.
    { apply map_filter_ext. intros k v Hk. cbn. split; [|].
      - intros Hge. destruct (decide (pn <= firstPacket p + Z.of_nat j)) as [|Hno]; [lia|].
        exfalso. rewrite <-Hf1 in Hno. destruct (drop j (x :: xs)) as [|y ys] eqn:Ed; [|by apply Hno, Hd].
        apply (Hv k v) in Hk as (i & -> & Hi). apply lookup_lt_Some in Hi. apply (f_equal length) in Ed. rewrite length_drop in Ed. cbn in Ed, Hi. lia.
      - intros Hge. destruct Hle as [->|Hle]; [|lia]. apply (Hv k v) in Hk as (i & -> & Hi). lia. }
    rewrite Heq, <-Hf1 in Hv1.
    destruct (clearup_ok p1 _ last (drop j (x :: xs)) H1 Hc1 Hv1 Hn1) as (p2 & -> & H2); [lia| |done|].
    { unfold len. rewrite length_drop. cbn. unfold len in Hl. cbn in Hj. lia. }
    cbn [mbind outcome_bind]. by exists p2.
Qed.

Lemma CRemove_ok p st pn : represents p st → packet_ok pn →
  ∃ p', step p (CRemove pn) = Ret (p', (spec_step st (CRemove pn)).2) ∧ represents p' (spec_step st (CRemove pn)).1.
Proof.
  intros Hp Hpn. destruct (getEntryWraper_ok p st pn Hp Hpn) as (o & Ho & Hm). cbn [step]. unfold Remove, spec_step. rewrite Ho.
  destruct st as [m last]. cbn [fst snd mbind outcome_bind] in *.
  destruct (m !! pn) as [v|] eqn:Hk.
  2:{ subst o. cbn [mbind outcome_bind]. exists p. by rewrite delete_id. }
  destruct Hm as (i & -> & Hpi & Hi & Hxi). pose proof Hp as [Hr Hv Hc Hf]. cbn [fst snd mbind outcome_bind entry] in *.
  destruct (Offset_write_ok zeroWrapper i (mkWrapper false v) (entries p) Hr Hi) as (r & -> & Hr' & Hc'). cbn [mbind outcome_bind entry].
  remember (contents zeroWrapper (entries p)) as ws eqn:E.
  assert (view (<[i := mkWrapper false v]> ws) (firstPacket p) (delete pn m)) as Hv'.
  { intros k w. rewrite lookup_delete_Some, (Hv k w). split.
    - intros [Hne (j & -> & Hj)]. exists j. split; [done|]. rewrite list_lookup_insert_ne; [done|]. lia.
    - intros (j & -> & Hj). destruct (decide (i = j)) as [<-|Hij].
      + rewrite list_lookup_insert_eq in Hj by (by eapply lookup_lt_Some). done.
      + rewrite list_lookup_insert_ne in Hj by done. split; [lia|by exists j]. }
  assert (present_slots (<[i := mkWrapper false v]> ws) = numberOfPresentEntries p - 1) as Hn'.
  { rewrite Hc. rewrite <-(take_drop_middle ws i _ Hxi) at 2. rewrite insert_take_drop by (by eapply lookup_lt_Some).
    rewrite !present_slots_app, !present_slots_cons. cbn. lia. }
  assert (len (<[i := mkWrapper false v]> ws) = len ws) as Hlen by (unfold len; by rewrite length_insert).
  destruct ws as [|x xs]; [done|]. destruct (front_bounds p (m, last) x xs Hp) as (Hx & Hf0 & Hl & Hb & HL); [done|].
  cbn [fst snd] in *. unfold FirstPacket. cbn [firstPacket]. destruct (Z.eqb_spec pn (firstPacket p)) as [Hfirst|Hnot].
  - destruct (clearup_ok (mkQueue r (numberOfPresentEntries p - 1) (firstPacket p)) (delete pn m) last _ Hr' Hc' Hv') as (p' & -> & H');
      cbn [numberOfPresentEntries firstPacket]; [done|done|rewrite Hlen, len_cons; lia|done|].
    cbn [mbind outcome_bind]. by exists p'.
  - cbn [mbind outcome_bind]. eexists. split; [done|].
    destruct i as [|i]; [lia|]. split; cbn [entries firstPacket numberOfPresentEntries fst snd]; rewrite ?Hc'; [done|done|done|].
    change (<[S i := mkWrapper false v]> (x :: xs)) with (x :: <[i := mkWrapper false v]> xs). cbn [fst snd].
    assert (len (<[i := mkWrapper false v]> xs) = len xs) as -> by (unfold len; by rewrite length_insert). by split_and!.
Qed.

Lemma pn_step_ok p st c : represents p st → call_ok c →
  ∃ p', step p c = Ret (p', (spec_step st c).2) ∧ represents p' (spec_step st c).1.
Proof.
  intros Hp Hc. destruct c as [pn e|pn|pn|pn]; cbn [call_ok] in Hc.
  - by apply Emplace_ok.
  - exists p. cbn [step]. rewrite (GetEntry_ok p st pn Hp Hc). destruct st as [m last]. by split.
  - by apply CRemove_ok.
  - by apply CRemoveUpTo_ok.
Qed.
End Queue.

Arguments CEmplace {T} _ _.
Arguments CGet {T} _.
Arguments CRemove {T} _.
Arguments CRemoveUpTo {T} _.

(** ** The loops end: more turns change nothing *)
Section Termination.
Context {T : Type} (zero : T).

Lemma clearup_loop_ends n fuel : ∀ r f, ring_ok r → (Len r < fuel)%nat →
  returns (clearup_loop zero fuel r f) ∧ clearup_loop zero (fuel + n) r f = clearup_loop zero fuel r f.
Proof.
  induction fuel as [|fuel IH]; intros r f Hr Hfuel; [lia|]. cbn [clearup_loop Nat.add].
  rewrite (Empty_spec (zeroWrapper zero)), Front_ok with (zero := zeroWrapper zero) by done.
  rewrite <-(length_contents (zeroWrapper zero)) in Hfuel.
  destruct (contents (zeroWrapper zero) r) as [|x xs] eqn:Hc.
  - rewrite bool_decide_eq_true_2 by done. by split; [eexists|].
  - rewrite bool_decide_eq_false_2 by done. cbn [mbind outcome_bind]. destruct (present x); [by split; [eexists|]|].
    pose proof (PopFront_ok (zeroWrapper zero) r Hr) as Hp. rewrite Hc in Hp. destruct Hp as (r1 & -> & H1 & Hc1).
    cbn [mbind outcome_bind]. apply IH; [done|]. rewrite <-(length_contents (zeroWrapper zero)), Hc1. cbn in Hfuel. lia.
Qed.

Lemma remove_loop_ends n pn fuel : ∀ p, ring_ok (entries p) → (Len (entries p) < fuel)%nat →
  returns (remove_loop zero fuel pn p) ∧ remove_loop zero (fuel + n) pn p = remove_loop zero fuel pn p.
Proof.
  induction fuel as [|fuel IH]; intros p Hr Hfuel; [lia|]. cbn [remove_loop Nat.add].
  rewrite (Empty_spec (zeroWrapper zero)), Front_ok with (zero := zeroWrapper zero) by done.
  rewrite <-(length_contents (zeroWrapper zero)) in Hfuel.
  destruct (negb _ && _ && _) eqn:E; [|by split; [eexists|]]. rewrite !andb_true_iff, negb_true_iff, bool_decide_eq_false in E.
  destruct E as [[Hne _] _]. pose proof (PopFront_ok (zeroWrapper zero) (entries p) Hr) as Hp.
  destruct (contents (zeroWrapper zero) (entries p)) as [|x xs]; [done|]. destruct Hp as (r1 & -> & H1 & Hc1).
  cbn [mbind outcome_bind]. apply IH; [done|]. cbn [entries]. rewrite <-(length_contents (zeroWrapper zero)), Hc1. cbn in Hfuel. lia.
Qed.

(** The queues that calls can lead to. *)
Lemma reachable_ok size cs p answers : Forall call_ok cs →
  steps zero (newPacketNumberIndexedQueue zero size) cs = Ret (p, answers) → ∃ st, represents zero p st.
Proof.
  intros Hcs. assert (represents zero (newPacketNumberIndexedQueue zero size) (∅, 0)) as Hnew by apply new_represents.
  revert Hnew answers. generalize (newPacketNumberIndexedQueue zero size) (∅ : gmap Z T, 0).
  induction Hcs as [|c cs Hc Hcs IH]; intros q st Hq answers; cbn [steps]; [intros [= <- _]; by exists st|].
  destruct (pn_step_ok zero q st c Hq Hc) as (q1 & -> & H1). cbn [mbind outcome_bind].
  destruct (steps zero q1 cs) as [[q2 as2]|] eqn:E; cbn [mbind outcome_bind]; [|done]. intros [= <- _]. by eapply IH.
Qed.
End Termination.

(** ** Properties *)

(** C37: The loops of the queue end.  In any queue that calls can lead to, the loop
    that removes slots up to a packet number and the loop that clears the front
    return after at most as many turns as there are slots in use: without
    panicking, and with the same result however many more turns they are given. *)
Theorem queue_loops_end {T : Type} (zero : T) (size : nat) (cs : list (call (T := T))) p answers packetNumber n :
  Forall call_ok cs → steps zero (newPacketNumberIndexedQueue zero size) cs = Ret (p, answers) →
  let turns := S (Z.to_nat (EntrySlotsUsed p)) in
  (returns (remove_loop zero turns packetNumber p) ∧
   remove_loop zero (turns + n) packetNumber p = remove_loop zero turns packetNumber p) ∧
  (returns (clearup_loop zero turns (entries p) (firstPacket p)) ∧
   clearup_loop zero (turns + n) (entries p) (firstPacket p) = clearup_loop zero turns (entries p) (firstPacket p)).
Proof.
  intros Hcs Hp. destruct (reachable_ok zero size cs p answers Hcs Hp) as [st Hst]. unfold EntrySlotsUsed. rewrite Nat2Z.id.
  cbn zeta. split; [apply remove_loop_ends|apply clearup_loop_ends]; try apply Hst; lia.
Qed.

Lemma queue_loops_end_witness :
  let p := mkQueue (mkRing [mkWrapper true 7; mkWrapper false 0; mkWrapper false 0; mkWrapper true 8] 0 0 true) 2 5 in
  returns (remove_loop 0 5 6 p) ∧ remove_loop 0 9 6 p = remove_loop 0 5 6 p.
Proof.
  intros p. refine (proj1 (queue_loops_end 0 4 [CEmplace 5 7; CEmplace 8 8] p [Inserted true; Inserted true] 6 4 _ _)); [|vm_compute; reflexivity].
  repeat (apply List.Forall_cons; [by vm_compute|]). apply List.Forall_nil.
Defined.

(** C36: The queue is a finite map.  Whatever packets are inserted, looked up and
    removed, one by one or up to a number, no operation panics, every loop ends,
    and every answer is the finite map's: an insertion succeeds exactly when the
    queue is empty or the packet is later than every one inserted since it last
    was, and a lookup finds what was inserted and not removed.  The packet the
    queue starts at is the first present one, and the number of entries it
    counts is zero exactly when the map is empty. *)
Theorem queue_refines_map {T : Type} (zero : T) (size : nat) (cs : list (call (T := T))) :
  Forall call_ok cs →
  ∃ p, steps zero (newPacketNumberIndexedQueue zero size) cs = Ret (p, (spec_steps (∅, 0) cs).2) ∧
    let m := (spec_steps (∅, 0) cs).1.1 in
    (IsEmpty p = true ↔ m = ∅) ∧
    (m ≠ ∅ → is_Some (m !! FirstPacket p) ∧ ∀ k, is_Some (m !! k) → FirstPacket p <= k <= LastPacket p).
Proof.
  intros Hcs.
  assert (represents zero (newPacketNumberIndexedQueue zero size) (∅, 0)) as Hnew by apply new_represents.
  revert Hnew. generalize (newPacketNumberIndexedQueue zero size) (∅ : gmap Z T, 0).
  induction Hcs as [|c cs Hc Hcs IH]; intros p st Hp; cbn [steps spec_steps].
  - exists p. split; [done|]. cbn [fst snd]. destruct (IsEmpty_spec zero p st Hp) as [He Hnil].
    rewrite He, bool_decide_eq_true. split; [done|]. intros Hne.
    destruct (contents (zeroWrapper zero) (entries p)) as [|x xs] eqn:E; [by destruct Hne; apply Hnil|].
    destruct (front_bounds zero p st x xs Hp E) as (Hx & Hf0 & Hl & Hb & HL).
    pose proof (rp_view _ _ _ Hp) as Hv. rewrite E in Hv. split.
    + destruct x as [b v]. cbn in Hx. subst b. exists v. apply Hv. exists 0%nat. split; [unfold FirstPacket; lia|done].
    + intros k [v (i & -> & Hi)%Hv]. apply lookup_lt_Some in Hi. cbn in Hi. unfold FirstPacket, LastPacket.
      pose proof (len_nonneg xs). rewrite He, bool_decide_eq_false_2 by done.
      rewrite (i64_small (Z.of_nat _ - 1)), i64_small by (unfold MinInt64, MaxInt64; lia). unfold len in *. lia.
  - destruct (pn_step_ok zero p st c Hp Hc) as (p1 & -> & H1). cbn [mbind outcome_bind].
    destruct (spec_step st c) as [st1 a]. cbn [fst snd] in *. destruct (IH p1 st1 H1) as (p2 & -> & H2).
    cbn [mbind outcome_bind]. exists p2. destruct (spec_steps st1 cs) as [st2 answers]. by split.
Qed.

Lemma queue_refines_map_witness :
  let cs := [CEmplace 5 "a"%string; CEmplace 8 "b"%string; CEmplace 7 "c"%string; CRemove 5; CGet 8; CRemoveUpTo 9; CEmplace 3 "d"%string] in
  ∃ p, steps ""%string (newPacketNumberIndexedQueue ""%string 1) cs = Ret (p, (spec_steps (∅, 0) cs).2) ∧
    let m := (spec_steps (∅, 0) cs).1.1 in
    (IsEmpty p = true ↔ m = ∅) ∧
    (m ≠ ∅ → is_Some (m !! FirstPacket p) ∧ ∀ k, is_Some (m !! k) → FirstPacket p <= k <= LastPacket p).
Proof. apply queue_refines_map. repeat (apply List.Forall_cons; [by vm_compute|]). apply List.Forall_nil. Defined.
