(* ===== verification/WindowedFilter.v ===== *)
(** * The windowed filter (core/internal/congestion/bbr/windowed_filter.go)

    Kathleen Nichols' three estimates of the best sample of a window.  The
    values are any type with its zero value and a comparator; the times are the
    round trip counts of the callers, uint64 with wrap-around. *)
From S2P Require Import Prelude.

Record entry (V : Type) := mkEntry { sample : V; time : Z }.
Arguments mkEntry {V} _ _.
Arguments sample {V} _.
Arguments time {V} _.

(** The slice of three estimates, as its elements. *)
Record WindowedFilter (V : Type) := mkFilter {
  windowLength : Z;
  estimates0 : entry V;
  estimates1 : entry V;
  estimates2 : entry V;
}.
Arguments mkFilter {V} _ _ _ _.
Arguments windowLength {V} _.
Arguments estimates0 {V} _.
Arguments estimates1 {V} _.
Arguments estimates2 {V} _.

(** On integers. *)
Definition MaxFilter (a b : Z) : Z := if b <? a then 1 else if a <? b then -1 else 0.
Definition MinFilter (a b : Z) : Z := if a <? b then 1 else if b <? a then -1 else 0.

Section Filter.
(** The zero value of the sample type, and the comparator. *)
Context {V : Type} (zero : V) (comparator : V → V → Z).

Definition NewWindowedFilter (windowLength : Z) : WindowedFilter V :=
  mkFilter windowLength (mkEntry zero 0) (mkEntry zero 0) (mkEntry zero 0).

Definition SetWindowLength (windowLength : Z) (f : WindowedFilter V) : WindowedFilter V :=
  mkFilter windowLength (estimates0 f) (estimates1 f) (estimates2 f).

Definition GetBest (f : WindowedFilter V) : V := sample (estimates0 f).
Definition GetSecondBest (f : WindowedFilter V) : V := sample (estimates1 f).
Definition GetThirdBest (f : WindowedFilter V) : V := sample (estimates2 f).

Definition Reset (newSample : V) (newTime : Z) (f : WindowedFilter V) : WindowedFilter V :=
  let e := mkEntry newSample newTime in mkFilter (windowLength f) e e e.

Definition Clear (f : WindowedFilter V) : WindowedFilter V := NewWindowedFilter (windowLength f).

Definition Update (newSample : V) (newTime : Z) (f : WindowedFilter V) : WindowedFilter V :=
  let w := windowLength f in
  if (comparator (sample (estimates0 f)) zero =? 0) || (0 <=? comparator newSample (sample (estimates0 f)))
     || (w <? u64 (newTime - time (estimates2 f)))
  then Reset newSample newTime f else
  let new := mkEntry newSample newTime in
  let '(e1, e2) :=
    if 0 <=? comparator newSample (sample (estimates1 f)) then (new, new)
    else if 0 <=? comparator newSample (sample (estimates2 f)) then (estimates1 f, new)
    else (estimates1 f, estimates2 f) in
  let e0 := estimates0 f in
  if w <? u64 (newTime - time e0) then
    let '(e0, e1, e2) := (e1, e2, new) in
    if w <? u64 (newTime - time e0) then mkFilter w e1 e2 e2 else mkFilter w e0 e1 e2
  else if (comparator (sample e1) (sample e0) =? 0) && (w / 4 <? u64 (newTime - time e1)) then mkFilter w e0 new new
  else if (comparator (sample e2) (sample e1) =? 0) && (w / 2 <? u64 (newTime - time e2)) then mkFilter w e0 e1 new
  else mkFilter w e0 e1 e2.

Fixpoint Update_all (samples : list (V * Z)) (f : WindowedFilter V) : WindowedFilter V :=
  match samples with
  | [] => f
  | (v, t) :: samples => Update_all samples (Update v t f)
  end.

(** ** What a comparator is *)
Class TotalComparator : Prop := {
  cmp_flip a b : 0 <= comparator a b ↔ comparator b a <= 0;
  cmp_trans a b c : 0 <= comparator a b → 0 <= comparator b c → 0 <= comparator a c;
}.

(** ** The invariant: the estimates are samples of the stream, best first, each
    taken no earlier than the one before. *)
Record filter_ok (seen : list (V * Z)) (f : WindowedFilter V) : Prop := {
  fo_seen : (sample (estimates0 f), time (estimates0 f)) ∈ seen ∧ (sample (estimates1 f), time (estimates1 f)) ∈ seen
            ∧ (sample (estimates2 f), time (estimates2 f)) ∈ seen;
  fo_times : time (estimates0 f) <= time (estimates1 f) <= time (estimates2 f);
  fo_order : 0 <= comparator (sample (estimates0 f)) (sample (estimates1 f))
             ∧ 0 <= comparator (sample (estimates1 f)) (sample (estimates2 f));
}.

Context `{!TotalComparator}.

Lemma cmp_refl a : 0 <= comparator a a.
Proof. destruct (Z.le_gt_cases 0 (comparator a a)) as [|Hlt]; [done|]. apply cmp_flip. lia. Qed.

Lemma cmp_lt a b : comparator a b < 0 → 0 <= comparator b a.
Proof. intros Hlt. apply cmp_flip. lia. Qed.

Lemma Reset_ok seen f v t : filter_ok ((v, t) :: seen) (Reset v t f).
Proof. split; cbn; [split_and!; left|lia|split; apply cmp_refl]. Qed.

(** The estimates after a sample that is not a new best, before the clock is
    looked at. *)
Lemma replaced seen f v t e1 e2 : filter_ok seen f → comparator v (sample (estimates0 f)) < 0 → time (estimates2 f) <= t →
  (let new := mkEntry v t in
   (if 0 <=? comparator v (sample (estimates1 f)) then (new, new)
    else if 0 <=? comparator v (sample (estimates2 f)) then (estimates1 f, new)
    else (estimates1 f, estimates2 f)) = (e1, e2)) →
  filter_ok ((v, t) :: seen) (mkFilter (windowLength f) (estimates0 f) e1 e2) ∧
  0 <= comparator (sample e2) v ∧ time e2 <= t ∧ time (estimates2 f) <= time e2.
Proof.
  intros [Hs Ht Ho] Hlt Hle. cbn zeta. destruct Hs as (H0 & H1 & H2). destruct Ho as [Ho1 Ho2].
  destruct (Z.leb_spec 0 (comparator v (sample (estimates1 f)))) as [Hc1|Hc1]; [|destruct (Z.leb_spec 0 (comparator v (sample (estimates2 f)))) as [Hc2|Hc2]];
    intros [= <- <-]; (split; [|split; [cbn|cbn; lia]]); try (by apply cmp_refl || by apply cmp_lt); split; cbn;
    try (split_and!; (by left) || by right); try lia; split; (by apply cmp_lt) || (by apply cmp_refl) || done.
Qed.

(** One more sample, not older than what is there. *)
Lemma Update_ok seen f v t :
  (filter_ok seen f ∨ estimates0 f = mkEntry zero 0) →
  0 <= windowLength f → 0 <= time (estimates0 f) → 0 <= t → time (estimates2 f) <= t < 2 ^ 64 →
  let f' := Update v t f in
  filter_ok ((v, t) :: seen) f' ∧ windowLength f' = windowLength f ∧ 0 <= time (estimates0 f') ∧ time (estimates2 f') <= t ∧
  t - time (estimates0 f') <= windowLength f ∧ 0 <= comparator (GetBest f') v ∧
  (comparator (GetBest f) zero ≠ 0 → t - time (estimates0 f) <= windowLength f → filter_ok seen f →
   0 <= comparator (GetBest f') (GetBest f)).
Proof.
  intros Hok Hw H0 Hpos Ht. cbn zeta. unfold Update.
  assert (comparator zero zero = 0) as Hz.
  { pose proof (cmp_refl zero). pose proof (proj1 (cmp_flip zero zero) ltac:(done)). lia. }
  destruct Hok as [Hok|Hnew].
  2:{ rewrite Hnew. cbn [sample]. rewrite Hz. cbn [Z.eqb orb]. split; [apply Reset_ok|]. cbn.
      split_and!; [done|lia|lia|lia|by apply cmp_refl|]. unfold GetBest. rewrite Hnew. cbn. by rewrite Hz. }
  pose proof Hok as [Hs Htm Ho].
  assert (∀ x, time (estimates0 f) <= x <= t → u64 (t - x) = t - x) as Hu by (intros; apply wrapU_small; lia).
  rewrite (Hu (time (estimates2 f))), (Hu (time (estimates0 f))) by lia.
  destruct ((comparator (sample (estimates0 f)) zero =? 0) || (0 <=? comparator v (sample (estimates0 f)))
     || (windowLength f <? t - time (estimates2 f))) eqn:E.
  { split; [apply Reset_ok|]. cbn. split_and!; [done|lia|lia|lia|by apply cmp_refl|]. intros Hne Hfresh _. unfold GetBest in Hne.
    rewrite !orb_true_iff, Z.eqb_eq, Z.leb_le, Z.ltb_lt in E. destruct E as [[|]|]; [done|done|lia]. }
  rewrite !orb_false_iff, Z.eqb_neq, Z.leb_gt, Z.ltb_ge in E. destruct E as [[Hnz Hlt] Hwin].
  destruct (if 0 <=? comparator v (sample (estimates1 f)) then _ else _) as [e1 e2] eqn:Er.
  destruct (replaced seen f v t e1 e2 Hok Hlt) as (Hr & Hv2 & Hte2 & Hge2); [lia|exact Er|].
  pose proof Hr as [(Hs0 & Hs1 & Hs2) Htr Hor]. cbn in Hs0, Hs1, Hs2, Htr, Hor. destruct Hor as [Hor1 Hor2].
  assert (0 <= comparator (sample e1) v) as Hv1 by by eapply cmp_trans.
  assert (0 <= comparator (sample (estimates0 f)) v) as Hv0 by by eapply cmp_trans.
  assert (∀ g, filter_ok ((v, t) :: seen) g → windowLength g = windowLength f → estimates0 g = estimates0 f → time (estimates2 g) <= t →
    t - time (estimates0 f) <= windowLength f →
    filter_ok ((v, t) :: seen) g ∧ windowLength g = windowLength f ∧ 0 <= time (estimates0 g) ∧ time (estimates2 g) <= t ∧
    t - time (estimates0 g) <= windowLength f ∧ 0 <= comparator (GetBest g) v ∧
    (comparator (GetBest f) zero ≠ 0 → t - time (estimates0 f) <= windowLength f → filter_ok seen f →
     0 <= comparator (GetBest g) (GetBest f))) as Hkeep.
  { intros g Hg Hgw Hg0 Hg2 Hfr. unfold GetBest. rewrite Hg0. split_and!; try done; intros; apply cmp_refl. }
  destruct (Z.ltb_spec (windowLength f) (t - time (estimates0 f))) as [Hexp|Hfresh].
  - rewrite (Hu (time e1)) by lia. destruct (Z.ltb_spec (windowLength f) (t - time e1)).
    + split; [split; cbn; [split_and!; (by left) || done|lia|split; [done|apply cmp_refl]]|]. cbn. split_and!; try done; lia.
    + split; [split; cbn; [split_and!; (by left) || done|lia|by split]|]. cbn. split_and!; try done; lia.
  - rewrite (Hu (time e1)), (Hu (time e2)) by lia. clear Er. destruct (_ && _); [|destruct (_ && _)]; apply Hkeep; cbn; try done; try lia.
    + split; cbn; [split_and!; (by left) || done|lia|]. split; [done|apply cmp_refl].
    + split; cbn; [split_and!; (by left) || done|lia|]. by split.
Qed.

(** Times that do not go back. *)
Fixpoint ordered (from : Z) (samples : list (V * Z)) : Prop :=
  match samples with
  | [] => True
  | (_, t) :: samples => from <= t < 2 ^ 64 ∧ ordered t samples
  end.

Lemma ordered_app from l k : ordered from (l ++ k) ↔ ordered from l ∧ ordered (default from (snd <$> last l)) k.
Proof.
  revert from. induction l as [|[v t] l IH]; intros from; cbn [ordered app]; [cbn; tauto|].
  rewrite IH. destruct l as [|x l]; cbn [last]; [cbn; tauto|]. destruct (last (x :: l)) eqn:E; [cbn; tauto|].
  apply last_None in E. done.
Qed.

Lemma Update_all_app l k f : Update_all (l ++ k) f = Update_all k (Update_all l f).
Proof. revert f. induction l as [|[v t] l IH]; intros f; cbn; [done|apply IH]. Qed.

Lemma Update_all_ok w samples : 0 <= w → ordered 0 samples →
  let f := Update_all samples (NewWindowedFilter w) in
  windowLength f = w ∧ 0 <= default 0 (snd <$> last samples) ∧ 0 <= time (estimates0 f) ∧ time (estimates2 f) <= default 0 (snd <$> last samples) ∧
  (samples = [] ∧ f = NewWindowedFilter w ∨
   ∃ v t, last samples = Some (v, t) ∧ filter_ok (rev samples) f ∧ t - time (estimates0 f) <= w ∧ 0 <= comparator (GetBest f) v).
Proof.
  intros Hw. induction samples as [|[v t] samples IH] using rev_ind; intros Ho; cbn zeta.
  - cbn. split_and!; [done|lia|lia|lia|by left].
  - rewrite ordered_app in Ho. destruct Ho as [Ho1 [Ht _]]. specialize (IH Ho1). cbn zeta in IH.
    rewrite Update_all_app, last_snoc. cbn [Update_all]. set (f := Update_all samples (NewWindowedFilter w)) in *.
    destruct IH as (Hwl & Hd & H0 & H2 & Hor).
    destruct (Update_ok (rev samples) f v t) as (Hf & Hwl' & H0' & H2' & Hfr & Hv & _); [|lia|done|lia|lia|].
    { destruct Hor as [[_ ->]|(v' & t' & _ & Hok & _)]; [by right|by left]. }
    cbn. split_and!; [congruence|lia|done|done|]. right. exists v, t. rewrite rev_app_distr. cbn. by rewrite <-Hwl.
Qed.
End Filter.

#[export] Instance MaxFilter_total : TotalComparator MaxFilter.
Proof. split; unfold MaxFilter; intros; repeat case_match; lia. Qed.

#[export] Instance MinFilter_total : TotalComparator MinFilter.
Proof. split; unfold MinFilter; intros; repeat case_match; lia. Qed.

(** ** Property *)

(** After any stream of samples whose times do not go back, the best
    estimate is one of the samples, was taken no longer than a window ago, and
    is at least as good as the latest; the second and third are samples of the
    stream taken in that order, each no better than the one before.  The best
    does not get worse with a further sample as long as it is within the window
    (unless it is the zero value, which stands for no sample). *)
Theorem WindowedFilter_sound {V : Type} (zero : V) (comparator : V → V → Z) `{!TotalComparator comparator}
    w samples v t v' t' :
  0 <= w → ordered 0 (samples ++ [(v, t); (v', t')]) →
  let f := Update_all zero comparator (samples ++ [(v, t)]) (NewWindowedFilter zero w) in
  filter_ok comparator (samples ++ [(v, t)]) f ∧ time (estimates2 f) <= t <= time (estimates0 f) + w ∧
  0 <= comparator (GetBest f) v ∧
  (comparator (GetBest f) zero ≠ 0 → t' <= time (estimates0 f) + w →
   0 <= comparator (GetBest (Update zero comparator v' t' f)) (GetBest f)).
Proof.
  intros Hw Ho. cbn zeta. replace (samples ++ [(v, t); (v', t')]) with ((samples ++ [(v, t)]) ++ [(v', t')]) in Ho by by rewrite <-app_assoc.
  apply ordered_app in Ho as [Ho [Ht' _]]. pose proof (Update_all_ok zero comparator w _ Hw Ho) as Hf. cbn zeta in Hf.
  rewrite last_snoc in Hf, Ht'. change (default 0 (snd <$> Some (v, t))) with t in *.
  destruct Hf as (Hwl & Hd & H0 & H2 & [[Hnil _]|(v1 & t1 & [= <- <-] & Hok & Hfr & Hv)]); [by destruct samples|].
  assert (filter_ok comparator (samples ++ [(v, t)]) (Update_all zero comparator (samples ++ [(v, t)]) (NewWindowedFilter zero w))) as Hok'.
  { destruct Hok as [Hs Htm Hor]. split; [|done|done]. rewrite !list_elem_of_In in *. by rewrite <-!in_rev in Hs. }
  split; [done|]. split; [lia|]. split; [done|]. intros Hne Hfresh.
  destruct (Update_ok zero comparator (rev (samples ++ [(v, t)])) (Update_all zero comparator (samples ++ [(v, t)]) (NewWindowedFilter zero w)) v' t')
    as (_ & _ & _ & _ & _ & _ & Hmono); [by left|by rewrite Hwl|done|lia|lia|].
  apply Hmono; [done|rewrite Hwl; lia|done].
Qed.

Lemma WindowedFilter_sound_witness :
  let f := Update_all 0 MaxFilter [(5, 1); (9, 2); (7, 3); (8, 4)] (NewWindowedFilter 0 10) in
  filter_ok MaxFilter [(5, 1); (9, 2); (7, 3); (8, 4)] f ∧ time (estimates2 f) <= 4 <= time (estimates0 f) + 10 ∧
  0 <= MaxFilter (GetBest f) 8 ∧
  (MaxFilter (GetBest f) 0 ≠ 0 → 12 <= time (estimates0 f) + 10 →
   0 <= MaxFilter (GetBest (Update 0 MaxFilter 3 12 f)) (GetBest f)).
Proof. apply (WindowedFilter_sound 0 MaxFilter 10 [(5, 1); (9, 2); (7, 3)] 8 4 3 12); [lia|cbn; lia]. Defined.
