(* ===== verification/Sampler.v ===== *)
(** * The bandwidth sampler of BBR
    (core/internal/congestion/bbr/bandwidth_sampler.go, bandwidth.go)

    What is known of a packet when it is sent is kept until it is acknowledged
    or obsolete; an acknowledgement gives a sample of the bandwidth, the smaller
    of the rates at which the data was sent and acknowledged.  Byte counts are
    int64, bandwidths uint64 and instants int64, all with their wrap-around; the
    methods of a monotone time that Pacer.v does not need are the interface
    [QuicBbr]. *)
From S2P Require Import Prelude Float Pacer Ring PnQueue WindowedFilter.

(** More of quic-go: a difference of times is an int64, the comparisons of times,
    and two constants. *)
Class QuicBbr `{QuicCongestion} := {
  mono_Sub_int64 t u : MinInt64 <= mono_Sub t u <= MaxInt64;
  mono_After : Z → Z → bool;
  mono_Before : Z → Z → bool;
  PacketsPerConnectionID : Z;
  MaxPacketBufferSize : Z;
  mono_After_spec t u : mono_After t u = (u <? t);
  mono_Before_spec t u : mono_Before t u = (t <? u);
  PacketsPerConnectionID_bound : 0 < PacketsPerConnectionID < 2 ^ 31;
  MaxPacketBufferSize_bound : 0 < MaxPacketBufferSize <= 65535;
}.

(** quic-go's figures, for concrete runs. *)
Program Definition quic_go_bbr : @QuicBbr quic_go := {|
  mono_After t u := u <? t;
  mono_Before t u := t <? u;
  PacketsPerConnectionID := 10000;
  MaxPacketBufferSize := 1452;
|}.
Next Obligation. intros t u. apply i64_bound. Qed.
Solve All Obligations with done.

(** ** bandwidth.go *)
Definition infBandwidth : Z := MaxUint64.
Definition BitsPerSecond : Z := 1.
Definition BytesPerSecond : Z := 8 * BitsPerSecond.

(** The division by a delta of zero panics. *)
Definition BandwidthFromDelta (bytes delta : Z) : outcome Z :=
  if u64 delta =? 0 then Panic
  else Ret (u64 (u64 (u64 bytes * u64 Second) / u64 delta * BytesPerSecond)).

(** ** Data *)
Definition infRTT : Z := MaxInt64.
Definition defaultConnectionStateMapQueueSize : nat := 256.
Definition defaultCandidatesBufferSize : nat := 256.

Record sendTimeState := mkSendTimeState {
  isValid : bool;
  sts_isAppLimited : bool;
  sts_totalBytesSent : Z;
  sts_totalBytesAcked : Z;
  sts_totalBytesLost : Z;
  sts_bytesInFlight : Z;
}.

Definition zeroSendTimeState : sendTimeState := mkSendTimeState false false 0 0 0 0.

Record extraAckedEvent := mkExtraAcked { extraAcked : Z; bytesAcked : Z; timeDelta : Z; round : Z }.

Definition zeroExtraAcked : extraAckedEvent := mkExtraAcked 0 0 0 0.

Definition maxExtraAckedEventFunc (a b : extraAckedEvent) : Z :=
  if extraAcked b <? extraAcked a then 1 else if extraAcked a <? extraAcked b then -1 else 0.

Record bandwidthSample := mkSample {
  bandwidth : Z;
  rtt : Z;
  sendRate : Z;
  stateAtSend : sendTimeState;
}.

Definition newBandwidthSample : bandwidthSample := mkSample 0 0 infBandwidth zeroSendTimeState.

Record ackHeightTracker := mkTracker {
  maxAckHeightFilter : WindowedFilter extraAckedEvent;
  aggregationEpochStartTime : Z;
  aggregationEpochBytes : Z;
  lastSentPacketNumberBeforeEpoch : Z;
  numAckAggregationEpochs : Z;
  ackAggregationBandwidthThreshold : float64;
  startNewAggregationEpochAfterFullRound : bool;
  reduceExtraAckedOnBandwidthIncrease : bool;
}.

Record ackPoint := mkAckPoint { ackTime : Z; ap_totalBytesAcked : Z }.

Definition zeroAckPoint : ackPoint := mkAckPoint 0 0.

Record connectionStateOnSentPacket := mkSentPacket {
  sentTime : Z;
  size : Z;
  csp_totalBytesSentAtLastAckedPacket : Z;
  csp_lastAckedPacketSentTime : Z;
  csp_lastAckedPacketAckTime : Z;
  csp_sendTimeState : sendTimeState;
}.

Definition zeroSentPacket : connectionStateOnSentPacket := mkSentPacket 0 0 0 0 0 zeroSendTimeState.

Record bandwidthSampler := mkSampler {
  totalBytesSent : Z;
  totalBytesAcked : Z;
  totalBytesLost : Z;
  totalBytesNeutered : Z;
  totalBytesSentAtLastAckedPacket : Z;
  lastAckedPacketSentTime : Z;
  lastAckedPacketAckTime : Z;
  lastSentPacket : Z;
  lastAckedPacket : Z;
  isAppLimited : bool;
  endOfAppLimitedPhase : Z;
  connectionStateMap : packetNumberIndexedQueue connectionStateOnSentPacket;
  recentAckPoints : ackPoint * ackPoint;
  a0Candidates : RingBuffer ackPoint;
  maxAckHeightTracker : ackHeightTracker;
  totalBytesAckedAfterLastAckEvent : Z;
  overestimateAvoidance : bool;
  limitMaxAckHeightTrackerBySendRate : bool;
}.

Record congestionEventSample := mkEventSample {
  sampleMaxBandwidth : Z;
  sampleIsAppLimited : bool;
  sampleRtt : Z;
  sampleMaxInflight : Z;
  lastPacketSendState : sendTimeState;
  es_extraAcked : Z;
}.

Definition newCongestionEventSample : congestionEventSample :=
  mkEventSample 0 false infRTT 0 zeroSendTimeState 0.

Definition set_maxAckHeightFilter (v : WindowedFilter extraAckedEvent) (m : ackHeightTracker) : ackHeightTracker :=
  mkTracker v (aggregationEpochStartTime m) (aggregationEpochBytes m)
    (lastSentPacketNumberBeforeEpoch m) (numAckAggregationEpochs m) (ackAggregationBandwidthThreshold m)
    (startNewAggregationEpochAfterFullRound m) (reduceExtraAckedOnBandwidthIncrease m).
Definition set_aggregationEpochBytes (v : Z) (m : ackHeightTracker) : ackHeightTracker :=
  mkTracker (maxAckHeightFilter m) (aggregationEpochStartTime m) v (lastSentPacketNumberBeforeEpoch m)
    (numAckAggregationEpochs m) (ackAggregationBandwidthThreshold m)
    (startNewAggregationEpochAfterFullRound m) (reduceExtraAckedOnBandwidthIncrease m).
Definition set_ackAggregationBandwidthThreshold (v : float64) (m : ackHeightTracker) : ackHeightTracker :=
  mkTracker (maxAckHeightFilter m) (aggregationEpochStartTime m) (aggregationEpochBytes m)
    (lastSentPacketNumberBeforeEpoch m) (numAckAggregationEpochs m) v
    (startNewAggregationEpochAfterFullRound m) (reduceExtraAckedOnBandwidthIncrease m).
Definition set_startNewAggregationEpochAfterFullRound (v : bool) (m : ackHeightTracker) : ackHeightTracker :=
  mkTracker (maxAckHeightFilter m) (aggregationEpochStartTime m) (aggregationEpochBytes m)
    (lastSentPacketNumberBeforeEpoch m) (numAckAggregationEpochs m) (ackAggregationBandwidthThreshold m)
    v (reduceExtraAckedOnBandwidthIncrease m).
Definition set_reduceExtraAckedOnBandwidthIncrease (v : bool) (m : ackHeightTracker) : ackHeightTracker :=
  mkTracker (maxAckHeightFilter m) (aggregationEpochStartTime m) (aggregationEpochBytes m)
    (lastSentPacketNumberBeforeEpoch m) (numAckAggregationEpochs m) (ackAggregationBandwidthThreshold m)
    (startNewAggregationEpochAfterFullRound m) v.

Definition set_totalBytesSent (v : Z) (b : bandwidthSampler) : bandwidthSampler :=
  mkSampler v (totalBytesAcked b) (totalBytesLost b) (totalBytesNeutered b)
    (totalBytesSentAtLastAckedPacket b) (lastAckedPacketSentTime b) (lastAckedPacketAckTime b)
    (lastSentPacket b) (lastAckedPacket b) (isAppLimited b) (endOfAppLimitedPhase b)
    (connectionStateMap b) (recentAckPoints b) (a0Candidates b) (maxAckHeightTracker b)
    (totalBytesAckedAfterLastAckEvent b) (overestimateAvoidance b)
    (limitMaxAckHeightTrackerBySendRate b).
Definition set_totalBytesAcked (v : Z) (b : bandwidthSampler) : bandwidthSampler :=
  mkSampler (totalBytesSent b) v (totalBytesLost b) (totalBytesNeutered b)
    (totalBytesSentAtLastAckedPacket b) (lastAckedPacketSentTime b) (lastAckedPacketAckTime b)
    (lastSentPacket b) (lastAckedPacket b) (isAppLimited b) (endOfAppLimitedPhase b)
    (connectionStateMap b) (recentAckPoints b) (a0Candidates b) (maxAckHeightTracker b)
    (totalBytesAckedAfterLastAckEvent b) (overestimateAvoidance b)
    (limitMaxAckHeightTrackerBySendRate b).
Definition set_totalBytesLost (v : Z) (b : bandwidthSampler) : bandwidthSampler :=
  mkSampler (totalBytesSent b) (totalBytesAcked b) v (totalBytesNeutered b)
    (totalBytesSentAtLastAckedPacket b) (lastAckedPacketSentTime b) (lastAckedPacketAckTime b)
    (lastSentPacket b) (lastAckedPacket b) (isAppLimited b) (endOfAppLimitedPhase b)
    (connectionStateMap b) (recentAckPoints b) (a0Candidates b) (maxAckHeightTracker b)
    (totalBytesAckedAfterLastAckEvent b) (overestimateAvoidance b)
    (limitMaxAckHeightTrackerBySendRate b).
Definition set_totalBytesNeutered (v : Z) (b : bandwidthSampler) : bandwidthSampler :=
  mkSampler (totalBytesSent b) (totalBytesAcked b) (totalBytesLost b) v
    (totalBytesSentAtLastAckedPacket b) (lastAckedPacketSentTime b) (lastAckedPacketAckTime b)
    (lastSentPacket b) (lastAckedPacket b) (isAppLimited b) (endOfAppLimitedPhase b)
    (connectionStateMap b) (recentAckPoints b) (a0Candidates b) (maxAckHeightTracker b)
    (totalBytesAckedAfterLastAckEvent b) (overestimateAvoidance b)
    (limitMaxAckHeightTrackerBySendRate b).
Definition set_totalBytesSentAtLastAckedPacket (v : Z) (b : bandwidthSampler) : bandwidthSampler :=
  mkSampler (totalBytesSent b) (totalBytesAcked b) (totalBytesLost b) (totalBytesNeutered b) v
    (lastAckedPacketSentTime b) (lastAckedPacketAckTime b) (lastSentPacket b) (lastAckedPacket b)
    (isAppLimited b) (endOfAppLimitedPhase b) (connectionStateMap b) (recentAckPoints b)
    (a0Candidates b) (maxAckHeightTracker b) (totalBytesAckedAfterLastAckEvent b)
    (overestimateAvoidance b) (limitMaxAckHeightTrackerBySendRate b).
Definition set_lastAckedPacketSentTime (v : Z) (b : bandwidthSampler) : bandwidthSampler :=
  mkSampler (totalBytesSent b) (totalBytesAcked b) (totalBytesLost b) (totalBytesNeutered b)
    (totalBytesSentAtLastAckedPacket b) v (lastAckedPacketAckTime b) (lastSentPacket b)
    (lastAckedPacket b) (isAppLimited b) (endOfAppLimitedPhase b) (connectionStateMap b)
    (recentAckPoints b) (a0Candidates b) (maxAckHeightTracker b) (totalBytesAckedAfterLastAckEvent b)
    (overestimateAvoidance b) (limitMaxAckHeightTrackerBySendRate b).
Definition set_lastAckedPacketAckTime (v : Z) (b : bandwidthSampler) : bandwidthSampler :=
  mkSampler (totalBytesSent b) (totalBytesAcked b) (totalBytesLost b) (totalBytesNeutered b)
    (totalBytesSentAtLastAckedPacket b) (lastAckedPacketSentTime b) v (lastSentPacket b)
    (lastAckedPacket b) (isAppLimited b) (endOfAppLimitedPhase b) (connectionStateMap b)
    (recentAckPoints b) (a0Candidates b) (maxAckHeightTracker b) (totalBytesAckedAfterLastAckEvent b)
    (overestimateAvoidance b) (limitMaxAckHeightTrackerBySendRate b).
Definition set_lastSentPacket (v : Z) (b : bandwidthSampler) : bandwidthSampler :=
  mkSampler (totalBytesSent b) (totalBytesAcked b) (totalBytesLost b) (totalBytesNeutered b)
    (totalBytesSentAtLastAckedPacket b) (lastAckedPacketSentTime b) (lastAckedPacketAckTime b) v
    (lastAckedPacket b) (isAppLimited b) (endOfAppLimitedPhase b) (connectionStateMap b)
    (recentAckPoints b) (a0Candidates b) (maxAckHeightTracker b) (totalBytesAckedAfterLastAckEvent b)
    (overestimateAvoidance b) (limitMaxAckHeightTrackerBySendRate b).
Definition set_lastAckedPacket (v : Z) (b : bandwidthSampler) : bandwidthSampler :=
  mkSampler (totalBytesSent b) (totalBytesAcked b) (totalBytesLost b) (totalBytesNeutered b)
    (totalBytesSentAtLastAckedPacket b) (lastAckedPacketSentTime b) (lastAckedPacketAckTime b)
    (lastSentPacket b) v (isAppLimited b) (endOfAppLimitedPhase b) (connectionStateMap b)
    (recentAckPoints b) (a0Candidates b) (maxAckHeightTracker b) (totalBytesAckedAfterLastAckEvent b)
    (overestimateAvoidance b) (limitMaxAckHeightTrackerBySendRate b).
Definition set_isAppLimited (v : bool) (b : bandwidthSampler) : bandwidthSampler :=
  mkSampler (totalBytesSent b) (totalBytesAcked b) (totalBytesLost b) (totalBytesNeutered b)
    (totalBytesSentAtLastAckedPacket b) (lastAckedPacketSentTime b) (lastAckedPacketAckTime b)
    (lastSentPacket b) (lastAckedPacket b) v (endOfAppLimitedPhase b) (connectionStateMap b)
    (recentAckPoints b) (a0Candidates b) (maxAckHeightTracker b) (totalBytesAckedAfterLastAckEvent b)
    (overestimateAvoidance b) (limitMaxAckHeightTrackerBySendRate b).
Definition set_endOfAppLimitedPhase (v : Z) (b : bandwidthSampler) : bandwidthSampler :=
  mkSampler (totalBytesSent b) (totalBytesAcked b) (totalBytesLost b) (totalBytesNeutered b)
    (totalBytesSentAtLastAckedPacket b) (lastAckedPacketSentTime b) (lastAckedPacketAckTime b)
    (lastSentPacket b) (lastAckedPacket b) (isAppLimited b) v (connectionStateMap b) (recentAckPoints b)
    (a0Candidates b) (maxAckHeightTracker b) (totalBytesAckedAfterLastAckEvent b)
    (overestimateAvoidance b) (limitMaxAckHeightTrackerBySendRate b).
Definition set_connectionStateMap (v : packetNumberIndexedQueue connectionStateOnSentPacket) (b : bandwidthSampler) : bandwidthSampler :=
  mkSampler (totalBytesSent b) (totalBytesAcked b) (totalBytesLost b) (totalBytesNeutered b)
    (totalBytesSentAtLastAckedPacket b) (lastAckedPacketSentTime b) (lastAckedPacketAckTime b)
    (lastSentPacket b) (lastAckedPacket b) (isAppLimited b) (endOfAppLimitedPhase b) v
    (recentAckPoints b) (a0Candidates b) (maxAckHeightTracker b) (totalBytesAckedAfterLastAckEvent b)
    (overestimateAvoidance b) (limitMaxAckHeightTrackerBySendRate b).
Definition set_recentAckPoints (v : ackPoint * ackPoint) (b : bandwidthSampler) : bandwidthSampler :=
  mkSampler (totalBytesSent b) (totalBytesAcked b) (totalBytesLost b) (totalBytesNeutered b)
    (totalBytesSentAtLastAckedPacket b) (lastAckedPacketSentTime b) (lastAckedPacketAckTime b)
    (lastSentPacket b) (lastAckedPacket b) (isAppLimited b) (endOfAppLimitedPhase b)
    (connectionStateMap b) v (a0Candidates b) (maxAckHeightTracker b)
    (totalBytesAckedAfterLastAckEvent b) (overestimateAvoidance b)
    (limitMaxAckHeightTrackerBySendRate b).
Definition set_a0Candidates (v : RingBuffer ackPoint) (b : bandwidthSampler) : bandwidthSampler :=
  mkSampler (totalBytesSent b) (totalBytesAcked b) (totalBytesLost b) (totalBytesNeutered b)
    (totalBytesSentAtLastAckedPacket b) (lastAckedPacketSentTime b) (lastAckedPacketAckTime b)
    (lastSentPacket b) (lastAckedPacket b) (isAppLimited b) (endOfAppLimitedPhase b)
    (connectionStateMap b) (recentAckPoints b) v (maxAckHeightTracker b)
    (totalBytesAckedAfterLastAckEvent b) (overestimateAvoidance b)
    (limitMaxAckHeightTrackerBySendRate b).
Definition set_maxAckHeightTracker (v : ackHeightTracker) (b : bandwidthSampler) : bandwidthSampler :=
  mkSampler (totalBytesSent b) (totalBytesAcked b) (totalBytesLost b) (totalBytesNeutered b)
    (totalBytesSentAtLastAckedPacket b) (lastAckedPacketSentTime b) (lastAckedPacketAckTime b)
    (lastSentPacket b) (lastAckedPacket b) (isAppLimited b) (endOfAppLimitedPhase b)
    (connectionStateMap b) (recentAckPoints b) (a0Candidates b) v (totalBytesAckedAfterLastAckEvent b)
    (overestimateAvoidance b) (limitMaxAckHeightTrackerBySendRate b).
Definition set_totalBytesAckedAfterLastAckEvent (v : Z) (b : bandwidthSampler) : bandwidthSampler :=
  mkSampler (totalBytesSent b) (totalBytesAcked b) (totalBytesLost b) (totalBytesNeutered b)
    (totalBytesSentAtLastAckedPacket b) (lastAckedPacketSentTime b) (lastAckedPacketAckTime b)
    (lastSentPacket b) (lastAckedPacket b) (isAppLimited b) (endOfAppLimitedPhase b)
    (connectionStateMap b) (recentAckPoints b) (a0Candidates b) (maxAckHeightTracker b) v
    (overestimateAvoidance b) (limitMaxAckHeightTrackerBySendRate b).
Definition set_overestimateAvoidance (v : bool) (b : bandwidthSampler) : bandwidthSampler :=
  mkSampler (totalBytesSent b) (totalBytesAcked b) (totalBytesLost b) (totalBytesNeutered b)
    (totalBytesSentAtLastAckedPacket b) (lastAckedPacketSentTime b) (lastAckedPacketAckTime b)
    (lastSentPacket b) (lastAckedPacket b) (isAppLimited b) (endOfAppLimitedPhase b)
    (connectionStateMap b) (recentAckPoints b) (a0Candidates b) (maxAckHeightTracker b)
    (totalBytesAckedAfterLastAckEvent b) v (limitMaxAckHeightTrackerBySendRate b).
Definition set_limitMaxAckHeightTrackerBySendRate (v : bool) (b : bandwidthSampler) : bandwidthSampler :=
  mkSampler (totalBytesSent b) (totalBytesAcked b) (totalBytesLost b) (totalBytesNeutered b)
    (totalBytesSentAtLastAckedPacket b) (lastAckedPacketSentTime b) (lastAckedPacketAckTime b)
    (lastSentPacket b) (lastAckedPacket b) (isAppLimited b) (endOfAppLimitedPhase b)
    (connectionStateMap b) (recentAckPoints b) (a0Candidates b) (maxAckHeightTracker b)
    (totalBytesAckedAfterLastAckEvent b) (overestimateAvoidance b) v.

(** ** Arithmetic *)

(** [ByteCount(gain * float64(n))]. *)
Definition scale_int `{FloatToInt} (gain : float64) (n : Z) : Z :=
  if 0 <=? n then toInt64 (mul gain (of_Z n))
  else let a := mul gain (of_Z (- n)) in
       if trunc a <=? 2 ^ 63 then - trunc a else out_of_range (F (- fm a) (fe a)).

Definition bytesFromBandwidthAndTimeDelta (bandwidth delta : Z) : Z :=
  quot (i64 (i64 bandwidth * delta)) (Second * 8).

(** ** The tracker of ack aggregation *)
Section Tracker.
Context `{QuicCongestion} `{FloatToInt}.

Definition newMaxAckHeightTracker (windowLength : Z) : ackHeightTracker :=
  mkTracker (NewWindowedFilter zeroExtraAcked windowLength) 0 0 invalidPacketNumber 0 (of_Z 1) false false.

Definition tracker_Get (m : ackHeightTracker) : Z := extraAcked (GetBest (maxAckHeightFilter m)).

Definition filter_Update (e : extraAckedEvent) (time : Z) (f : WindowedFilter extraAckedEvent) :=
  WindowedFilter.Update zeroExtraAcked maxExtraAckedEventFunc e time f.

(** Reinserting one of the heights with the new estimate. *)
Definition reinsert (bandwidthEstimate : Z) (e : extraAckedEvent) (f : WindowedFilter extraAckedEvent) :=
  let expectedBytesAcked := bytesFromBandwidthAndTimeDelta bandwidthEstimate (timeDelta e) in
  if expectedBytesAcked <? bytesAcked e
  then filter_Update (mkExtraAcked (i64 (bytesAcked e - expectedBytesAcked)) (bytesAcked e) (timeDelta e) (round e)) (round e) f
  else f.

Definition new_epoch (bytesAcked ackTime lastSentPacketNumber : Z) (m : ackHeightTracker) : ackHeightTracker :=
  mkTracker (maxAckHeightFilter m) ackTime bytesAcked lastSentPacketNumber (u64 (numAckAggregationEpochs m + 1))
    (ackAggregationBandwidthThreshold m) (startNewAggregationEpochAfterFullRound m) (reduceExtraAckedOnBandwidthIncrease m).

Definition tracker_Update (bandwidthEstimate : Z) (isNewMaxBandwidth : bool)
    (roundTripCount lastSentPacketNumber lastAckedPacketNumber ackTime bytesAcked : Z) (m : ackHeightTracker)
    : ackHeightTracker * Z :=
  let m :=
    if reduceExtraAckedOnBandwidthIncrease m && isNewMaxBandwidth then
      let f := maxAckHeightFilter m in
      set_maxAckHeightFilter
        (reinsert bandwidthEstimate (GetThirdBest f)
           (reinsert bandwidthEstimate (GetSecondBest f)
              (reinsert bandwidthEstimate (GetBest f) (Clear zeroExtraAcked f)))) m
    else m in
  let forceNewEpoch :=
    startNewAggregationEpochAfterFullRound m
    && negb (lastSentPacketNumberBeforeEpoch m =? invalidPacketNumber)
    && negb (lastAckedPacketNumber =? invalidPacketNumber)
    && (lastSentPacketNumberBeforeEpoch m <? lastAckedPacketNumber) in
  if mono_IsZero (aggregationEpochStartTime m) || forceNewEpoch
  then (new_epoch bytesAcked ackTime lastSentPacketNumber m, 0) else
  let aggregationDelta := mono_Sub ackTime (aggregationEpochStartTime m) in
  let expectedBytesAcked := bytesFromBandwidthAndTimeDelta bandwidthEstimate aggregationDelta in
  if aggregationEpochBytes m <=? scale_int (ackAggregationBandwidthThreshold m) expectedBytesAcked
  then (new_epoch bytesAcked ackTime lastSentPacketNumber m, 0) else
  let m := set_aggregationEpochBytes (i64 (aggregationEpochBytes m + bytesAcked)) m in
  let extraBytesAcked := i64 (aggregationEpochBytes m - expectedBytesAcked) in
  let newEvent := mkExtraAcked extraBytesAcked (aggregationEpochBytes m) aggregationDelta 0 in
  (set_maxAckHeightFilter (filter_Update newEvent roundTripCount (maxAckHeightFilter m)) m, extraBytesAcked).

Definition SetFilterWindowLength (length : Z) (m : ackHeightTracker) : ackHeightTracker :=
  set_maxAckHeightFilter (SetWindowLength length (maxAckHeightFilter m)) m.

Definition tracker_Reset (newHeight newTime : Z) (m : ackHeightTracker) : ackHeightTracker :=
  set_maxAckHeightFilter (Reset (mkExtraAcked newHeight 0 0 newTime) newTime (maxAckHeightFilter m)) m.
End Tracker.

(** ** Recent ack points *)
Section AckPoints.
Context `{QuicCongestion} `{!QuicBbr}.

Definition recent_Update (time totalBytesAcked : Z) (r : ackPoint * ackPoint) : ackPoint * ackPoint :=
  let '(p0, p1) := r in
  if mono_Before time (ackTime p1) then (p0, mkAckPoint time totalBytesAcked)
  else if mono_After time (ackTime p1) then (p1, mkAckPoint time totalBytesAcked)
  else (p0, mkAckPoint (ackTime p1) totalBytesAcked).

Definition recent_Clear : ackPoint * ackPoint := (zeroAckPoint, zeroAckPoint).

Definition MostRecentPoint (r : ackPoint * ackPoint) : ackPoint := r.2.

Definition LessRecentPoint (r : ackPoint * ackPoint) : ackPoint :=
  if negb (ap_totalBytesAcked r.1 =? 0) then r.1 else r.2.
End AckPoints.

(** ** The sampler *)
Section Sampler.
Context `{QuicCongestion} `{!QuicBbr} `{FloatToInt}.

Definition newConnectionStateOnSentPacket (time bytes bytesInFlight : Z) (sampler : bandwidthSampler)
    : connectionStateOnSentPacket :=
  mkSentPacket time bytes (totalBytesSentAtLastAckedPacket sampler) (lastAckedPacketSentTime sampler)
    (lastAckedPacketAckTime sampler)
    (mkSendTimeState true (isAppLimited sampler) (totalBytesSent sampler) (totalBytesAcked sampler)
       (totalBytesLost sampler) bytesInFlight).

Definition newBandwidthSampler (maxAckHeightTrackerWindowLength : Z) : bandwidthSampler :=
  mkSampler 0 0 0 0 0 0 0 invalidPacketNumber invalidPacketNumber false invalidPacketNumber
    (newPacketNumberIndexedQueue zeroSentPacket defaultConnectionStateMapQueueSize)
    (zeroAckPoint, zeroAckPoint) (Init zeroAckPoint defaultCandidatesBufferSize zeroRing)
    (newMaxAckHeightTracker maxAckHeightTrackerWindowLength) 0 false false.

Definition MaxAckHeight (b : bandwidthSampler) : Z := tracker_Get (maxAckHeightTracker b).

Definition ResetMaxAckHeightTracker (newHeight newTime : Z) (b : bandwidthSampler) : bandwidthSampler :=
  set_maxAckHeightTracker (tracker_Reset newHeight newTime (maxAckHeightTracker b)) b.

Definition SetMaxAckHeightTrackerWindowLength (length : Z) (b : bandwidthSampler) : bandwidthSampler :=
  set_maxAckHeightTracker (SetFilterWindowLength length (maxAckHeightTracker b)) b.

Definition SetStartNewAggregationEpochAfterFullRound (value : bool) (b : bandwidthSampler) : bandwidthSampler :=
  set_maxAckHeightTracker (set_startNewAggregationEpochAfterFullRound value (maxAckHeightTracker b)) b.

Definition SetReduceExtraAckedOnBandwidthIncrease (value : bool) (b : bandwidthSampler) : bandwidthSampler :=
  set_maxAckHeightTracker (set_reduceExtraAckedOnBandwidthIncrease value (maxAckHeightTracker b)) b.

Definition EnableOverestimateAvoidance (b : bandwidthSampler) : bandwidthSampler :=
  if overestimateAvoidance b then b
  else set_maxAckHeightTracker (set_ackAggregationBandwidthThreshold (of_Z 2) (maxAckHeightTracker b))
         (set_overestimateAvoidance true b).

(** The part of [OnPacketSent] for a packet sent with nothing in flight. *)
Definition open_transmission (time : Z) (b : bandwidthSampler) : outcome bandwidthSampler :=
  let b := set_lastAckedPacketAckTime time b in
  b ← (if overestimateAvoidance b then
         let r := recent_Update time (totalBytesAcked b) recent_Clear in
         let b := set_recentAckPoints r b in
         q ← PushBack zeroAckPoint (MostRecentPoint r) (Ring.Clear zeroAckPoint (a0Candidates b));
         Ret (set_a0Candidates q b)
       else Ret b);
  Ret (set_lastAckedPacketSentTime time (set_totalBytesSentAtLastAckedPacket (totalBytesSent b) b)).

Definition OnPacketSent (time packetNumber bytes bytesInFlight : Z) (isRetransmittable : bool) (b : bandwidthSampler)
    : outcome bandwidthSampler :=
  let b := set_lastSentPacket packetNumber b in
  if negb isRetransmittable then Ret b else
  let b := set_totalBytesSent (i64 (totalBytesSent b + bytes)) b in
  b ← (if bytesInFlight =? 0 then open_transmission time b else Ret b);
  '(q, _) ← Emplace zeroSentPacket packetNumber
              (newConnectionStateOnSentPacket time bytes (i64 (bytesInFlight + bytes)) b) (connectionStateMap b);
  Ret (set_connectionStateMap q b).

Definition sentPacketToSendTimeState (sentPacket : connectionStateOnSentPacket) : sendTimeState :=
  let s := csp_sendTimeState sentPacket in
  mkSendTimeState true (sts_isAppLimited s) (sts_totalBytesSent s) (sts_totalBytesAcked s)
    (sts_totalBytesLost s) (sts_bytesInFlight s).

Definition OnPacketLost (packetNumber bytesLost : Z) (b : bandwidthSampler) : outcome (bandwidthSampler * sendTimeState) :=
  let b := set_totalBytesLost (i64 (totalBytesLost b + bytesLost)) b in
  e ← GetEntry packetNumber (connectionStateMap b);
  Ret (b, match e with Some e => sentPacketToSendTimeState e | None => zeroSendTimeState end).

Definition OnPacketNeutered (packetNumber : Z) (b : bandwidthSampler) : outcome bandwidthSampler :=
  '(q, e) ← Remove zeroSentPacket packetNumber (connectionStateMap b);
  let b := set_connectionStateMap q b in
  Ret (match e with Some e => set_totalBytesNeutered (i64 (totalBytesNeutered b + size e)) b | None => b end).

Definition OnAppLimited (b : bandwidthSampler) : bandwidthSampler :=
  set_endOfAppLimitedPhase (lastSentPacket b) (set_isAppLimited true b).

Definition RemoveObsoletePackets (leastUnacked : Z) (b : bandwidthSampler) : outcome bandwidthSampler :=
  q ← RemoveUpTo zeroSentPacket leastUnacked (connectionStateMap b);
  Ret (set_connectionStateMap q b).

(** The loop that pops candidates: [k] counts up while the buffer shrinks,
    since its length is evaluated again in each turn. *)
Fixpoint pop_candidates (fuel : nat) (k : nat) (q : RingBuffer ackPoint) : outcome (RingBuffer ackPoint) :=
  match fuel with
  | O => Ret q
  | S fuel => if (k <? Len q - 1)%nat then '(q, _) ← PopFront zeroAckPoint q; pop_candidates fuel (S k) q else Ret q
  end.

(** Popping a fixed number of candidates. *)
Fixpoint pop_front (n : nat) (q : RingBuffer ackPoint) : outcome (RingBuffer ackPoint) :=
  match n with
  | O => Ret q
  | S n => '(q, _) ← PopFront zeroAckPoint q; pop_front n q
  end.

(** The search of [chooseA0Point], from [i] on, with fuel. *)
Fixpoint search_candidates (fuel i : nat) (totalBytesAcked : Z) (q : RingBuffer ackPoint)
    : outcome (option nat) :=
  match fuel with
  | O => Ret None
  | S fuel =>
      if (i <? Len q)%nat then
        p ← Offset i q;
        if totalBytesAcked <? ap_totalBytesAcked p then Ret (Some i) else search_candidates fuel (S i) totalBytesAcked q
      else Ret None
  end.

Definition chooseA0Point (totalBytesAcked : Z) (b : bandwidthSampler) : outcome (bandwidthSampler * option ackPoint) :=
  let q := a0Candidates b in
  if Empty q then Ret (b, None)
  else if (Len q =? 1)%nat then a0 ← Front q; Ret (b, Some a0)
  else
    found ← search_candidates (Len q) 1 totalBytesAcked q;
    match found with
    | Some i =>
        a0 ← Offset (i - 1) q;
        q ← (if (1 <? i)%nat then pop_front (i - 1) q else Ret q);
        Ret (set_a0Candidates q b, Some a0)
    | None =>
        a0 ← Back q;
        q ← pop_candidates (Len q) 0 q;
        Ret (set_a0Candidates q b, Some a0)
    end.

(** The state after an acknowledgement, before the sample is made. *)
Definition ack_state (time packetNumber : Z) (p : connectionStateOnSentPacket) (b : bandwidthSampler) : bandwidthSampler :=
  let b := set_totalBytesAcked (i64 (totalBytesAcked b + size p)) b in
  let b := set_totalBytesSentAtLastAckedPacket (sts_totalBytesSent (csp_sendTimeState p)) b in
  let b := set_lastAckedPacketAckTime time (set_lastAckedPacketSentTime (sentTime p) b) in
  let b := if overestimateAvoidance b
           then set_recentAckPoints (recent_Update time (totalBytesAcked b) (recentAckPoints b)) b else b in
  if isAppLimited b && ((endOfAppLimitedPhase b =? invalidPacketNumber) || (endOfAppLimitedPhase b <? packetNumber))
  then set_isAppLimited false b else b.

Definition onPacketAcknowledged (time packetNumber : Z) (b : bandwidthSampler)
    : outcome (bandwidthSampler * bandwidthSample) :=
  let b := set_lastAckedPacket packetNumber b in
  e ← GetEntry packetNumber (connectionStateMap b);
  match e with
  | None => Ret (b, newBandwidthSample)
  | Some p =>
      let b := ack_state time packetNumber p b in
      if mono_IsZero (csp_lastAckedPacketSentTime p) then Ret (b, newBandwidthSample) else
      sendRate ← (if mono_After (sentTime p) (csp_lastAckedPacketSentTime p)
                  then BandwidthFromDelta
                         (i64 (sts_totalBytesSent (csp_sendTimeState p) - csp_totalBytesSentAtLastAckedPacket p))
                         (mono_Sub (sentTime p) (csp_lastAckedPacketSentTime p))
                  else Ret infBandwidth);
      '(b, chosen) ← (if overestimateAvoidance b then chooseA0Point (sts_totalBytesAcked (csp_sendTimeState p)) b
                      else Ret (b, None));
      let a0 := match chosen with
                | Some a0 => a0
                | None => mkAckPoint (csp_lastAckedPacketAckTime p) (sts_totalBytesAcked (csp_sendTimeState p))
                end in
      if mono_Sub time (ackTime a0) <=? 0 then Ret (b, newBandwidthSample) else
      ackRate ← BandwidthFromDelta (i64 (totalBytesAcked b - ap_totalBytesAcked a0)) (mono_Sub time (ackTime a0));
      Ret (b, mkSample (Z.min sendRate ackRate) (mono_Sub time (sentTime p)) sendRate
                (sentPacketToSendTimeState p))
  end.

Definition onAckEventEnd (bandwidthEstimate : Z) (isNewMaxBandwidth : bool) (roundTripCount : Z) (b : bandwidthSampler)
    : outcome (bandwidthSampler * Z) :=
  let newlyAckedBytes := i64 (totalBytesAcked b - totalBytesAckedAfterLastAckEvent b) in
  if newlyAckedBytes =? 0 then Ret (b, 0) else
  let b := set_totalBytesAckedAfterLastAckEvent (totalBytesAcked b) b in
  let '(t, extra) := tracker_Update bandwidthEstimate isNewMaxBandwidth roundTripCount (lastSentPacket b)
                       (lastAckedPacket b) (lastAckedPacketAckTime b) newlyAckedBytes (maxAckHeightTracker b) in
  let b := set_maxAckHeightTracker t b in
  if overestimateAvoidance b && (extra =? 0) then
    q ← PushBack zeroAckPoint (LessRecentPoint (recentAckPoints b)) (a0Candidates b);
    Ret (set_a0Candidates q b, extra)
  else Ret (b, extra).

(** ** OnCongestionEvent *)

(** The loop over the lost packets: the send state of the last valid one. *)
Fixpoint lost_loop (lost : list (Z * Z)) (b : bandwidthSampler) (last : sendTimeState)
    : outcome (bandwidthSampler * sendTimeState) :=
  match lost with
  | [] => Ret (b, last)
  | (pn, bytes) :: lost =>
      '(b, s) ← OnPacketLost pn bytes b;
      lost_loop lost b (if isValid s then s else last)
  end.

(** The loop over the acknowledged packets: the event's sample so far, the send
    state of the last valid one, the largest send rate. *)
Fixpoint acked_loop (time : Z) (acked : list (Z * Z)) (b : bandwidthSampler) (es : congestionEventSample)
    (last : sendTimeState) (maxSendRate : Z)
    : outcome (bandwidthSampler * congestionEventSample * sendTimeState * Z) :=
  match acked with
  | [] => Ret (b, es, last, maxSendRate)
  | (pn, _) :: acked =>
      '(b, sample) ← onPacketAcknowledged time pn b;
      if negb (isValid (stateAtSend sample)) then acked_loop time acked b es last maxSendRate else
      let last := stateAtSend sample in
      let sampleRtt := if negb (rtt sample =? 0) then Z.min (sampleRtt es) (rtt sample) else sampleRtt es in
      let '(bw, limited) := if sampleMaxBandwidth es <? bandwidth sample
                            then (bandwidth sample, sts_isAppLimited (stateAtSend sample))
                            else (sampleMaxBandwidth es, sampleIsAppLimited es) in
      let maxSendRate := if negb (sendRate sample =? infBandwidth) then Z.max maxSendRate (sendRate sample) else maxSendRate in
      let inflightSample := i64 (totalBytesAcked b - sts_totalBytesAcked last) in
      let inflight := if sampleMaxInflight es <? inflightSample then inflightSample else sampleMaxInflight es in
      acked_loop time acked b (mkEventSample bw limited sampleRtt inflight (lastPacketSendState es) (es_extraAcked es))
        last maxSendRate
  end.

(** Packets are their numbers with the bytes acknowledged or lost. *)
Definition OnCongestionEvent (time : Z) (ackedPackets lostPackets : list (Z * Z))
    (maxBandwidth estBandwidthUpperBound roundTripCount : Z) (b : bandwidthSampler)
    : outcome (bandwidthSampler * congestionEventSample) :=
  let es := newCongestionEventSample in
  '(b, lastLost) ← lost_loop lostPackets b zeroSendTimeState;
  match ackedPackets with
  | [] => Ret (b, mkEventSample (sampleMaxBandwidth es) (sampleIsAppLimited es) (sampleRtt es) (sampleMaxInflight es)
                    lastLost (es_extraAcked es))
  | _ =>
      '(b, es, lastAcked, maxSendRate) ← acked_loop time ackedPackets b es zeroSendTimeState 0;
      lastState ← (if negb (isValid lastLost) then Ret lastAcked
                   else if negb (isValid lastAcked) then Ret lastLost
                   else match last lostPackets, last ackedPackets with
                        | Some (l, _), Some (a, _) => Ret (if a <? l then lastLost else lastAcked)
                        | _, _ => Panic
                        end);
      let isNewMaxBandwidth := maxBandwidth <? sampleMaxBandwidth es in
      let maxBandwidth := Z.max maxBandwidth (sampleMaxBandwidth es) in
      let maxBandwidth := if limitMaxAckHeightTrackerBySendRate b then Z.max maxBandwidth maxSendRate else maxBandwidth in
      '(b, extra) ← onAckEventEnd (Z.min estBandwidthUpperBound maxBandwidth) isNewMaxBandwidth roundTripCount b;
      Ret (b, mkEventSample (sampleMaxBandwidth es) (sampleIsAppLimited es) (sampleRtt es) (sampleMaxInflight es)
                lastState extra)
  end.
End Sampler.
