(* ===== verification/SamplerFacts.v ===== *)
(** * What the bandwidth sampler maintains

    No operation of the sampler panics in the states that it can reach: the
    packets it knows are a finite map, its candidates a list, the times it
    remembers are instants, and so it never divides by a delta of zero. *)
From S2P Require Import Prelude Float Pacer Ring PnQueue WindowedFilter Sampler.

Definition time_ok (t : Z) : Prop := 0 <= t <= MaxInt64.

Definition entry_ok (p : connectionStateOnSentPacket) : Prop :=
  time_ok (sentTime p) ∧ time_ok (csp_lastAckedPacketSentTime p).

(** ** The packets in flight *)
Definition packets_ok (q : packetNumberIndexedQueue connectionStateOnSentPacket) : Prop :=
  ∃ st, represents zeroSentPacket q st ∧ map_Forall (λ _ p, entry_ok p) st.1.

Lemma new_packets_ok size : packets_ok (newPacketNumberIndexedQueue zeroSentPacket size).
Proof. eexists. split; [apply new_represents|]. cbn. apply map_Forall_empty. Qed.

Lemma GetEntry_packets q pn : packets_ok q → packet_ok pn →
  ends_in (GetEntry pn q) (λ o, ∀ p, o = Some p → entry_ok p).
Proof.
  intros (st & Hq & Hall) Hpn. exists (st.1 !! pn). split; [by eapply GetEntry_ok|].
  intros p Hp. by apply (Hall pn).
Qed.

Lemma Emplace_packets q pn e : packets_ok q → packet_ok pn → entry_ok e →
  ends_in (Emplace zeroSentPacket pn e q) (λ '(q, _), packets_ok q).
Proof.
  intros (st & Hq & Hall) Hpn He. destruct (Emplace_ok zeroSentPacket q st pn e Hq Hpn) as (q' & Hs & Hq').
  cbn [PnQueue.step] in Hs. apply outcome_bind_inv in Hs as ([q1 ok] & -> & [= -> _]). apply ends_Ret.
  eexists. split; [exact Hq'|]. destruct st as [m last]. unfold spec_step.
  case_bool_decide; cbn [fst]; [by apply map_Forall_singleton|].
  case_match; cbn [fst]; [done|]. by apply map_Forall_insert_2.
Qed.

Lemma Remove_packets q pn : packets_ok q → packet_ok pn →
  ends_in (Remove zeroSentPacket pn q) (λ '(q, _), packets_ok q).
Proof.
  intros (st & Hq & Hall) Hpn. destruct (CRemove_ok zeroSentPacket q st pn Hq Hpn) as (q' & Hs & Hq').
  cbn [PnQueue.step] in Hs. apply outcome_bind_inv in Hs as ([q1 e] & -> & [= -> _]). apply ends_Ret.
  eexists. split; [exact Hq'|]. destruct st as [m last]. cbn. by apply map_Forall_delete.
Qed.

Lemma RemoveUpTo_packets q pn : packets_ok q → ends_in (RemoveUpTo zeroSentPacket pn q) packets_ok.
Proof.
  intros (st & Hq & Hall). destruct (CRemoveUpTo_ok zeroSentPacket q st pn Hq) as (q' & Hs & Hq').
  cbn [PnQueue.step] in Hs. apply outcome_bind_inv in Hs as (q1 & -> & [= -> _]). apply ends_Ret.
  eexists. split; [exact Hq'|]. destruct st as [m last]. cbn.
  intros k v [Hk _]%map_lookup_filter_Some. by apply (Hall k).
Qed.

(** ** The candidates *)
Lemma PushBack_ring {T} (zero t : T) r : ring_ok r → ends_in (PushBack zero t r) ring_ok.
Proof. intros Hr. destruct (PushBack_ok zero t r Hr) as (r' & -> & H & _). by apply ends_Ret. Qed.

Lemma PopFront_ring {T} (zero : T) r : ring_ok r → (0 < Len r)%nat →
  ends_in (PopFront zero r) (λ '(r', _), ring_ok r' ∧ Len r = S (Len r')).
Proof.
  intros Hr HL. pose proof (PopFront_ok zero r Hr) as Hp. pose proof (length_contents zero r) as Hl.
  destruct (contents zero r) as [|x xs]; [cbn in Hl; lia|]. destruct Hp as (r' & -> & H & Hc). apply ends_Ret.
  split; [done|]. by rewrite <-(length_contents zero r'), Hc, <-Hl.
Qed.

Lemma pop_front_ring n : ∀ q, ring_ok q → (n <= Len q)%nat → ends_in (pop_front n q) ring_ok.
Proof.
  induction n as [|n IH]; intros q Hq Hn; cbn [pop_front]; [by apply ends_Ret|].
  apply (ends_bind _ _ _ _ (PopFront_ring _ q Hq ltac:(lia))). intros [q' x] [H HL]. apply IH; [done|lia].
Qed.

Lemma pop_candidates_ring fuel : ∀ k q, ring_ok q → ends_in (pop_candidates fuel k q) ring_ok.
Proof.
  induction fuel as [|fuel IH]; intros k q Hq; cbn [pop_candidates]; [by apply ends_Ret|].
  destruct (Nat.ltb_spec k (Len q - 1)); [|by apply ends_Ret].
  apply (ends_bind _ _ _ _ (PopFront_ring _ q Hq ltac:(lia))). intros [q' x] [H' _]. by apply IH.
Qed.

Lemma Offset_ends {T} (zero : T) i q : ring_ok q → (i < Len q)%nat → ends_in (Offset i q) (λ x, contents zero q !! i = Some x).
Proof.
  intros Hq Hi. rewrite (Offset_ok zero) by done.
  destruct (lookup_lt_is_Some_2 (contents zero q) i) as [x Hx]; [by rewrite length_contents|].
  rewrite Hx. by apply ends_Ret.
Qed.

Lemma search_candidates_ends t q fuel : ∀ i, ring_ok q →
  ends_in (search_candidates fuel i t q) (λ o, ∀ j, o = Some j → (i <= j < Len q)%nat).
Proof.
  induction fuel as [|fuel IH]; intros i Hq; cbn [search_candidates]; [by apply ends_Ret|].
  destruct (Nat.ltb_spec i (Len q)) as [Hi|]; [|by apply ends_Ret].
  apply (ends_bind _ _ _ _ (Offset_ends zeroAckPoint i q Hq Hi)). intros p _.
  case_match; [apply ends_Ret; intros j [= <-]; lia|].
  apply (ends_mono _ _ _ (IH (S i) Hq)). intros o Ho j Hj. specialize (Ho j Hj). lia.
Qed.

Lemma Empty_Len {T} (zero : T) (q : RingBuffer T) : ring_ok q → Empty q = false → (0 < Len q)%nat.
Proof.
  intros Hq. rewrite (Empty_spec zero), bool_decide_eq_false by done. rewrite <-(length_contents zero).
  destruct (contents zero q); [done|]. cbn. lia.
Qed.

(** ** The sampler *)
Record sampler_ok (b : bandwidthSampler) : Prop := {
  so_packets : packets_ok (connectionStateMap b);
  so_candidates : ring_ok (a0Candidates b);
  so_sent : time_ok (lastAckedPacketSentTime b);
}.

Lemma BandwidthFromDelta_ends n d : 0 < d ∨ d < 0 → MinInt64 <= d <= MaxInt64 → returns (BandwidthFromDelta n d).
Proof.
  unfold MinInt64, MaxInt64. intros Hd Hb. unfold BandwidthFromDelta.
  destruct (Z.eqb_spec (u64 d) 0) as [E|]; [|by eexists]. unfold wrapU in E. exfalso.
  apply Z.mod_divide in E as [k Hk]; [|lia]. nia.
Qed.

Lemma BandwidthFromDelta_bind {B} n d (f : Z → outcome B) Q : 0 < d ∨ d < 0 → MinInt64 <= d <= MaxInt64 →
  (∀ r, ends_in (f r) Q) → ends_in (r ← BandwidthFromDelta n d; f r) Q.
Proof.
  intros Hd Hb Hf. destruct (BandwidthFromDelta_ends n d Hd Hb) as [r Hr].
  destruct (BandwidthFromDelta n d); [|done]. apply Hf.
Qed.

Section Facts.
Context `{QuicCongestion} `{!QuicBbr} `{FloatToInt}.

Lemma newBandwidthSampler_ok w : sampler_ok (newBandwidthSampler w).
Proof.
  split; cbn [connectionStateMap a0Candidates lastAckedPacketSentTime newBandwidthSampler].
  - apply new_packets_ok.
  - apply Init_ok.
  - unfold time_ok, MaxInt64. lia.
Qed.

Lemma OnAppLimited_ok b : sampler_ok b → sampler_ok (OnAppLimited b).
Proof. by intros [? ? ?]. Qed.

Lemma Sampler_OnPacketSent_ok time pn bytes inFlight r b : sampler_ok b → time_ok time → packet_ok pn →
  ends_in (Sampler.OnPacketSent time pn bytes inFlight r b) sampler_ok.
Proof.
  intros [Hp Hc Hs] Ht Hpn. unfold Sampler.OnPacketSent. destruct r; cbn [negb]; [|by apply ends_Ret].
  eapply (ends_bind _ _ sampler_ok).
  - case_match; [|by apply ends_Ret]. unfold open_transmission. eapply (ends_bind _ _ (λ b, packets_ok (connectionStateMap b) ∧ ring_ok (a0Candidates b))).
    + case_match; [|by apply ends_Ret]. cbn [set_recentAckPoints a0Candidates].
      eapply ends_bind; [apply PushBack_ring, Clear_ok|]. intros q Hq. by apply ends_Ret.
    + intros b1 [Hp1 Hc1]. by apply ends_Ret.
  - intros b1 [Hp1 Hc1 Hs1]. eapply ends_bind; [by apply Emplace_packets|]. intros [q ok] Hq. by apply ends_Ret.
Qed.

Lemma Sampler_OnPacketLost_ok pn n b : sampler_ok b → packet_ok pn →
  ends_in (OnPacketLost pn n b) (λ '(b, _), sampler_ok b).
Proof.
  intros [Hp Hc Hs] Hpn. unfold OnPacketLost. eapply ends_bind; [by apply GetEntry_packets|]. intros o _. by apply ends_Ret.
Qed.

Lemma RemoveObsoletePackets_ok pn b : sampler_ok b → ends_in (RemoveObsoletePackets pn b) sampler_ok.
Proof.
  intros [Hp Hc Hs]. unfold RemoveObsoletePackets. eapply ends_bind; [by apply RemoveUpTo_packets|]. intros q Hq. by apply ends_Ret.
Qed.

Lemma chooseA0Point_ok t b : sampler_ok b → ends_in (chooseA0Point t b) (λ '(b', _), sampler_ok b' ∧ totalBytesAcked b' = totalBytesAcked b).
Proof.
  intros [Hp Hc Hs]. unfold chooseA0Point. destruct (Empty (a0Candidates b)) eqn:He; [by apply ends_Ret|].
  pose proof (Empty_Len zeroAckPoint _ Hc He) as HL.
  destruct (Nat.eqb_spec (Len (a0Candidates b)) 1).
  - rewrite (Front_ok zeroAckPoint) by done. pose proof (length_contents zeroAckPoint (a0Candidates b)) as Hl.
    destruct (contents _ _); [cbn in Hl; lia|]. by apply ends_Ret.
  - eapply ends_bind; [by apply search_candidates_ends|]. intros [i|] Hi.
    + specialize (Hi i eq_refl). eapply ends_bind; [apply (Offset_ends zeroAckPoint); [done|lia]|]. intros a0 _.
      eapply (ends_bind _ _ ring_ok); [case_match; [apply pop_front_ring; [done|lia]|by apply ends_Ret]|].
      intros q Hq. by apply ends_Ret.
    + eapply ends_bind.
      * unfold Back. rewrite He. apply (Offset_ends zeroAckPoint); [done|lia].
      * intros a0 _. eapply ends_bind; [by apply pop_candidates_ring|]. intros q Hq. by apply ends_Ret.
Qed.

Lemma ack_state_ok time pn p b : sampler_ok b → entry_ok p → sampler_ok (ack_state time pn p b).
Proof.
  intros [Hp Hc Hs] [He _]. unfold ack_state. cbv zeta.
  repeat (match goal with |- context [if ?c then _ else _] => destruct c end; cbn); by split.
Qed.

Lemma onPacketAcknowledged_ok time pn b : sampler_ok b → packet_ok pn →
  ends_in (onPacketAcknowledged time pn b) (λ '(b, s), sampler_ok b ∧ MinInt64 <= rtt s <= MaxInt64).
Proof.
  intros Hb Hpn. unfold onPacketAcknowledged. cbn [set_lastAckedPacket connectionStateMap].
  assert (∀ b, sampler_ok b → ends_in (Ret (b, newBandwidthSample)) (λ '(b, s), sampler_ok b ∧ MinInt64 <= rtt s <= MaxInt64)) as Hnone.
  { intros b1 Hb1. apply ends_Ret. split; [done|]. cbn. unfold MinInt64, MaxInt64. lia. }
  eapply ends_bind; [apply GetEntry_packets; [apply Hb|done]|]. intros [p|] He; [|apply Hnone; by destruct Hb].
  specialize (He p eq_refl).
  assert (sampler_ok (ack_state time pn p (set_lastAckedPacket pn b))) as Hb1 by (apply ack_state_ok; [by destruct Hb|done]).
  generalize dependent (ack_state time pn p (set_lastAckedPacket pn b)). intros b1 Hb1.
  case_match; [by apply Hnone|].
  eapply (ends_bind _ _ (λ _, True)).
  { destruct (mono_After _ _) eqn:Ha; [|by apply ends_Ret]. rewrite mono_After_spec, Z.ltb_lt in Ha.
    destruct He as [[] []]. eapply ends_mono; [|done]. rewrite mono_Sub_spec by lia.
    destruct (BandwidthFromDelta_ends (i64 (sts_totalBytesSent (csp_sendTimeState p) - csp_totalBytesSentAtLastAckedPacket p))
      (sentTime p - csp_lastAckedPacketSentTime p)) as [r Hr]; [lia|unfold MinInt64; lia|].
    destruct (BandwidthFromDelta _ _); [|done]. by apply (ends_Ret _ (λ _, True)). }
  intros sr _. eapply (ends_bind _ _ (λ '(b', _), sampler_ok b')).
  { case_match; [|by apply ends_Ret]. eapply ends_mono; [by apply chooseA0Point_ok|]. by intros [b2 o] [? _]. }
  intros [b2 chosen] Hb2. set (a0 := match chosen with Some a0 => a0 | None => _ end).
  destruct (Z.leb_spec (mono_Sub time (ackTime a0)) 0); [by apply Hnone|].
  apply BandwidthFromDelta_bind; [lia|apply mono_Sub_int64|]. intros ar. apply ends_Ret. split; [done|]. apply mono_Sub_int64.
Qed.

Lemma onAckEventEnd_ok bw new r b : sampler_ok b → ends_in (onAckEventEnd bw new r b) (λ '(b, _), sampler_ok b).
Proof.
  intros [Hp Hc Hs]. unfold onAckEventEnd. case_match; [by apply ends_Ret|].
  destruct (tracker_Update _ _ _ _ _ _ _) as [t extra]. case_match; [|by apply ends_Ret].
  eapply ends_bind; [by apply PushBack_ring|]. intros q Hq. by apply ends_Ret.
Qed.

Lemma lost_loop_ok lost : ∀ b s, sampler_ok b → Forall (λ p, packet_ok p.1) lost →
  ends_in (lost_loop lost b s) (λ '(b, s'), sampler_ok b ∧ (isValid s = false → isValid s' = true → lost ≠ [])).
Proof.
  induction lost as [|[pn n] lost IH]; intros b s Hb Hall; cbn [lost_loop].
  - apply ends_Ret. split; [done|]. congruence.
  - apply Forall_cons in Hall as [Hpn Hall]. eapply ends_bind; [by apply Sampler_OnPacketLost_ok|]. intros [b1 s1] Hb1.
    eapply ends_mono; [by apply IH|]. intros [b2 s2] [H2 _]. by split.
Qed.

Lemma acked_loop_ok time acked : ∀ b es s m, sampler_ok b → Forall (λ p, packet_ok p.1) acked → MinInt64 <= sampleRtt es <= MaxInt64 →
  ends_in (acked_loop time acked b es s m) (λ '(b, es, s', _), sampler_ok b ∧ MinInt64 <= sampleRtt es <= MaxInt64).
Proof.
  induction acked as [|[pn n] acked IH]; intros b es s m Hb Hall Hr; cbn [acked_loop]; [by apply ends_Ret|].
  apply Forall_cons in Hall as [Hpn Hall]. eapply ends_bind; [by apply onPacketAcknowledged_ok|]. intros [b1 sm] [Hb1 Hr1].
  case_match; [by apply IH|]. destruct (if sampleMaxBandwidth es <? bandwidth sm then _ else _) as [bw limited].
  apply IH; [done|done|]. cbn [sampleRtt]. case_match; lia.
Qed.

Lemma Sampler_OnCongestionEvent_ok time acked lost mb ub r b : sampler_ok b →
  Forall (λ p, packet_ok p.1) acked → Forall (λ p, packet_ok p.1) lost →
  ends_in (Sampler.OnCongestionEvent time acked lost mb ub r b)
    (λ '(b, es), sampler_ok b ∧ MinInt64 <= sampleRtt es <= MaxInt64).
Proof.
  intros Hb Ha Hl. unfold Sampler.OnCongestionEvent.
  assert (MinInt64 <= infRTT <= MaxInt64) as Hinf by (unfold infRTT, MinInt64, MaxInt64; lia).
  eapply ends_bind; [by apply lost_loop_ok|]. intros [b1 sl] [Hb1 Hv]. specialize (Hv eq_refl).
  destruct acked as [|p acked]; [by apply ends_Ret|].
  eapply ends_bind; [by apply acked_loop_ok|]. intros [[[b2 es] sa] ms] [Hb2 Hr2].
  eapply (ends_bind _ _ (λ _, True)).
  { destruct (isValid sl); cbn [negb]; [|by apply (ends_Ret _ (λ _, True))].
    destruct (isValid sa); cbn [negb]; [|by apply (ends_Ret _ (λ _, True))]. specialize (Hv eq_refl).
    destruct (last lost) as [[l ?]|] eqn:El; [|by apply last_None in El].
    destruct (last (p :: acked)) as [[a ?]|] eqn:Ea; [|by apply last_None in Ea]. by apply (ends_Ret _ (λ _, True)). }
  intros ls _. eapply ends_bind; [by apply onAckEventEnd_ok|]. intros [b3 extra] Hb3. by apply ends_Ret.
Qed.
End Facts.
