(* ===== verification/BbrState.v ===== *)
(** * The state of the BBR sender (core/internal/congestion/bbr/bbr_sender.go)

    The struct and the assignments to its fields.  Left out are the fields that
    nothing reads (marked "not used" in the source), the debug flag, and what a
    method is given as an argument here: the clock and the round trip
    statistics. *)
From Stdlib Require Import String.
From S2P Require Import Prelude Float Pacer WindowedFilter Sampler.

Inductive bbrMode : Type := bbrModeStartup | bbrModeDrain | bbrModeProbeBw | bbrModeProbeRtt.

#[export] Instance bbrMode_eq_dec : EqDecision bbrMode.
Proof. solve_decision. Defined.

Inductive bbrRecoveryState : Type :=
| bbrRecoveryStateNotInRecovery
| bbrRecoveryStateConservation
| bbrRecoveryStateGrowth.

#[export] Instance bbrRecoveryState_eq_dec : EqDecision bbrRecoveryState.
Proof. solve_decision. Defined.

Definition Profile : Type := string.
Definition ProfileConservative : Profile := "conservative".
Definition ProfileStandard : Profile := "standard".
Definition ProfileAggressive : Profile := "aggressive".

Record bbrSender := mkBbrSender {
  pacer : Pacer;
  mode : bbrMode;
  sampler : bandwidthSampler;
  roundTripCount : Z;
  lastSentPacket : Z;
  currentRoundTripEnd : Z;
  numLossEventsInRound : Z;
  bytesLostInRound : Z;
  maxBandwidth : WindowedFilter Z;
  minRtt : Z;
  minRttTimestamp : Z;
  congestionWindow : Z;
  initialCongestionWindow : Z;
  maxCongestionWindow : Z;
  minCongestionWindow : Z;
  profile : Profile;
  highGain : float64;
  highCwndGain : float64;
  drainGain : float64;
  pacingRate : Z;
  pacingGain : float64;
  congestionWindowGain : float64;
  congestionWindowGainConstant : float64;
  numStartupRtts : Z;
  cycleCurrentOffset : Z;
  lastCycleStart : Z;
  isAtFullBandwidth : bool;
  roundsWithoutBandwidthGain : Z;
  bandwidthAtLastRound : Z;
  exitingQuiescence : bool;
  exitProbeRttAt : Z;
  probeRttRoundPassed : bool;
  lastSampleIsAppLimited : bool;
  hasNoAppLimitedSample : bool;
  recoveryState : bbrRecoveryState;
  endRecoveryAt : Z;
  recoveryWindow : Z;
  enableAckAggregationDuringStartup : bool;
  expireAckAggregationInStartup : bool;
  drainToTarget : bool;
  detectOvershooting : bool;
  bytesLostWhileDetectingOvershooting : Z;
  bytesLostMultiplierWhileDetectingOvershooting : Z;
  cwndToCalculateMinPacingRate : Z;
  maxCongestionWindowWithNetworkParametersAdjusted : Z;
  maxDatagramSize : Z;
  bytesInFlight : Z;
}.

Definition set_pacer (v : Pacer) (b : bbrSender) : bbrSender :=
  mkBbrSender v (mode b) (sampler b) (roundTripCount b) (lastSentPacket b) (currentRoundTripEnd b)
    (numLossEventsInRound b) (bytesLostInRound b) (maxBandwidth b) (minRtt b) (minRttTimestamp b)
    (congestionWindow b) (initialCongestionWindow b) (maxCongestionWindow b) (minCongestionWindow b)
    (profile b) (highGain b) (highCwndGain b) (drainGain b) (pacingRate b) (pacingGain b)
    (congestionWindowGain b) (congestionWindowGainConstant b) (numStartupRtts b) (cycleCurrentOffset b)
    (lastCycleStart b) (isAtFullBandwidth b) (roundsWithoutBandwidthGain b) (bandwidthAtLastRound b)
    (exitingQuiescence b) (exitProbeRttAt b) (probeRttRoundPassed b) (lastSampleIsAppLimited b)
    (hasNoAppLimitedSample b) (recoveryState b) (endRecoveryAt b) (recoveryWindow b)
    (enableAckAggregationDuringStartup b) (expireAckAggregationInStartup b) (drainToTarget b)
    (detectOvershooting b) (bytesLostWhileDetectingOvershooting b)
    (bytesLostMultiplierWhileDetectingOvershooting b) (cwndToCalculateMinPacingRate b)
    (maxCongestionWindowWithNetworkParametersAdjusted b) (maxDatagramSize b) (bytesInFlight b).
Definition set_mode (v : bbrMode) (b : bbrSender) : bbrSender :=
  mkBbrSender (pacer b) v (sampler b) (roundTripCount b) (lastSentPacket b) (currentRoundTripEnd b)
    (numLossEventsInRound b) (bytesLostInRound b) (maxBandwidth b) (minRtt b) (minRttTimestamp b)
    (congestionWindow b) (initialCongestionWindow b) (maxCongestionWindow b) (minCongestionWindow b)
    (profile b) (highGain b) (highCwndGain b) (drainGain b) (pacingRate b) (pacingGain b)
    (congestionWindowGain b) (congestionWindowGainConstant b) (numStartupRtts b) (cycleCurrentOffset b)
    (lastCycleStart b) (isAtFullBandwidth b) (roundsWithoutBandwidthGain b) (bandwidthAtLastRound b)
    (exitingQuiescence b) (exitProbeRttAt b) (probeRttRoundPassed b) (lastSampleIsAppLimited b)
    (hasNoAppLimitedSample b) (recoveryState b) (endRecoveryAt b) (recoveryWindow b)
    (enableAckAggregationDuringStartup b) (expireAckAggregationInStartup b) (drainToTarget b)
    (detectOvershooting b) (bytesLostWhileDetectingOvershooting b)
    (bytesLostMultiplierWhileDetectingOvershooting b) (cwndToCalculateMinPacingRate b)
    (maxCongestionWindowWithNetworkParametersAdjusted b) (maxDatagramSize b) (bytesInFlight b).
Definition set_sampler (v : bandwidthSampler) (b : bbrSender) : bbrSender :=
  mkBbrSender (pacer b) (mode b) v (roundTripCount b) (lastSentPacket b) (currentRoundTripEnd b)
    (numLossEventsInRound b) (bytesLostInRound b) (maxBandwidth b) (minRtt b) (minRttTimestamp b)
    (congestionWindow b) (initialCongestionWindow b) (maxCongestionWindow b) (minCongestionWindow b)
    (profile b) (highGain b) (highCwndGain b) (drainGain b) (pacingRate b) (pacingGain b)
    (congestionWindowGain b) (congestionWindowGainConstant b) (numStartupRtts b) (cycleCurrentOffset b)
    (lastCycleStart b) (isAtFullBandwidth b) (roundsWithoutBandwidthGain b) (bandwidthAtLastRound b)
    (exitingQuiescence b) (exitProbeRttAt b) (probeRttRoundPassed b) (lastSampleIsAppLimited b)
    (hasNoAppLimitedSample b) (recoveryState b) (endRecoveryAt b) (recoveryWindow b)
    (enableAckAggregationDuringStartup b) (expireAckAggregationInStartup b) (drainToTarget b)
    (detectOvershooting b) (bytesLostWhileDetectingOvershooting b)
    (bytesLostMultiplierWhileDetectingOvershooting b) (cwndToCalculateMinPacingRate b)
    (maxCongestionWindowWithNetworkParametersAdjusted b) (maxDatagramSize b) (bytesInFlight b).
Definition set_roundTripCount (v : Z) (b : bbrSender) : bbrSender :=
  mkBbrSender (pacer b) (mode b) (sampler b) v (lastSentPacket b) (currentRoundTripEnd b)
    (numLossEventsInRound b) (bytesLostInRound b) (maxBandwidth b) (minRtt b) (minRttTimestamp b)
    (congestionWindow b) (initialCongestionWindow b) (maxCongestionWindow b) (minCongestionWindow b)
    (profile b) (highGain b) (highCwndGain b) (drainGain b) (pacingRate b) (pacingGain b)
    (congestionWindowGain b) (congestionWindowGainConstant b) (numStartupRtts b) (cycleCurrentOffset b)
    (lastCycleStart b) (isAtFullBandwidth b) (roundsWithoutBandwidthGain b) (bandwidthAtLastRound b)
    (exitingQuiescence b) (exitProbeRttAt b) (probeRttRoundPassed b) (lastSampleIsAppLimited b)
    (hasNoAppLimitedSample b) (recoveryState b) (endRecoveryAt b) (recoveryWindow b)
    (enableAckAggregationDuringStartup b) (expireAckAggregationInStartup b) (drainToTarget b)
    (detectOvershooting b) (bytesLostWhileDetectingOvershooting b)
    (bytesLostMultiplierWhileDetectingOvershooting b) (cwndToCalculateMinPacingRate b)
    (maxCongestionWindowWithNetworkParametersAdjusted b) (maxDatagramSize b) (bytesInFlight b).
Definition set_lastSentPacket (v : Z) (b : bbrSender) : bbrSender :=
  mkBbrSender (pacer b) (mode b) (sampler b) (roundTripCount b) v (currentRoundTripEnd b)
    (numLossEventsInRound b) (bytesLostInRound b) (maxBandwidth b) (minRtt b) (minRttTimestamp b)
    (congestionWindow b) (initialCongestionWindow b) (maxCongestionWindow b) (minCongestionWindow b)
    (profile b) (highGain b) (highCwndGain b) (drainGain b) (pacingRate b) (pacingGain b)
    (congestionWindowGain b) (congestionWindowGainConstant b) (numStartupRtts b) (cycleCurrentOffset b)
    (lastCycleStart b) (isAtFullBandwidth b) (roundsWithoutBandwidthGain b) (bandwidthAtLastRound b)
    (exitingQuiescence b) (exitProbeRttAt b) (probeRttRoundPassed b) (lastSampleIsAppLimited b)
    (hasNoAppLimitedSample b) (recoveryState b) (endRecoveryAt b) (recoveryWindow b)
    (enableAckAggregationDuringStartup b) (expireAckAggregationInStartup b) (drainToTarget b)
    (detectOvershooting b) (bytesLostWhileDetectingOvershooting b)
    (bytesLostMultiplierWhileDetectingOvershooting b) (cwndToCalculateMinPacingRate b)
    (maxCongestionWindowWithNetworkParametersAdjusted b) (maxDatagramSize b) (bytesInFlight b).
Definition set_currentRoundTripEnd (v : Z) (b : bbrSender) : bbrSender :=
  mkBbrSender (pacer b) (mode b) (sampler b) (roundTripCount b) (lastSentPacket b) v
    (numLossEventsInRound b) (bytesLostInRound b) (maxBandwidth b) (minRtt b) (minRttTimestamp b)
    (congestionWindow b) (initialCongestionWindow b) (maxCongestionWindow b) (minCongestionWindow b)
    (profile b) (highGain b) (highCwndGain b) (drainGain b) (pacingRate b) (pacingGain b)
    (congestionWindowGain b) (congestionWindowGainConstant b) (numStartupRtts b) (cycleCurrentOffset b)
    (lastCycleStart b) (isAtFullBandwidth b) (roundsWithoutBandwidthGain b) (bandwidthAtLastRound b)
    (exitingQuiescence b) (exitProbeRttAt b) (probeRttRoundPassed b) (lastSampleIsAppLimited b)
    (hasNoAppLimitedSample b) (recoveryState b) (endRecoveryAt b) (recoveryWindow b)
    (enableAckAggregationDuringStartup b) (expireAckAggregationInStartup b) (drainToTarget b)
    (detectOvershooting b) (bytesLostWhileDetectingOvershooting b)
    (bytesLostMultiplierWhileDetectingOvershooting b) (cwndToCalculateMinPacingRate b)
    (maxCongestionWindowWithNetworkParametersAdjusted b) (maxDatagramSize b) (bytesInFlight b).
Definition set_numLossEventsInRound (v : Z) (b : bbrSender) : bbrSender :=
  mkBbrSender (pacer b) (mode b) (sampler b) (roundTripCount b) (lastSentPacket b)
    (currentRoundTripEnd b) v (bytesLostInRound b) (maxBandwidth b) (minRtt b) (minRttTimestamp b)
    (congestionWindow b) (initialCongestionWindow b) (maxCongestionWindow b) (minCongestionWindow b)
    (profile b) (highGain b) (highCwndGain b) (drainGain b) (pacingRate b) (pacingGain b)
    (congestionWindowGain b) (congestionWindowGainConstant b) (numStartupRtts b) (cycleCurrentOffset b)
    (lastCycleStart b) (isAtFullBandwidth b) (roundsWithoutBandwidthGain b) (bandwidthAtLastRound b)
    (exitingQuiescence b) (exitProbeRttAt b) (probeRttRoundPassed b) (lastSampleIsAppLimited b)
    (hasNoAppLimitedSample b) (recoveryState b) (endRecoveryAt b) (recoveryWindow b)
    (enableAckAggregationDuringStartup b) (expireAckAggregationInStartup b) (drainToTarget b)
    (detectOvershooting b) (bytesLostWhileDetectingOvershooting b)
    (bytesLostMultiplierWhileDetectingOvershooting b) (cwndToCalculateMinPacingRate b)
    (maxCongestionWindowWithNetworkParametersAdjusted b) (maxDatagramSize b) (bytesInFlight b).
Definition set_bytesLostInRound (v : Z) (b : bbrSender) : bbrSender :=
  mkBbrSender (pacer b) (mode b) (sampler b) (roundTripCount b) (lastSentPacket b)
    (currentRoundTripEnd b) (numLossEventsInRound b) v (maxBandwidth b) (minRtt b) (minRttTimestamp b)
    (congestionWindow b) (initialCongestionWindow b) (maxCongestionWindow b) (minCongestionWindow b)
    (profile b) (highGain b) (highCwndGain b) (drainGain b) (pacingRate b) (pacingGain b)
    (congestionWindowGain b) (congestionWindowGainConstant b) (numStartupRtts b) (cycleCurrentOffset b)
    (lastCycleStart b) (isAtFullBandwidth b) (roundsWithoutBandwidthGain b) (bandwidthAtLastRound b)
    (exitingQuiescence b) (exitProbeRttAt b) (probeRttRoundPassed b) (lastSampleIsAppLimited b)
    (hasNoAppLimitedSample b) (recoveryState b) (endRecoveryAt b) (recoveryWindow b)
    (enableAckAggregationDuringStartup b) (expireAckAggregationInStartup b) (drainToTarget b)
    (detectOvershooting b) (bytesLostWhileDetectingOvershooting b)
    (bytesLostMultiplierWhileDetectingOvershooting b) (cwndToCalculateMinPacingRate b)
    (maxCongestionWindowWithNetworkParametersAdjusted b) (maxDatagramSize b) (bytesInFlight b).
Definition set_maxBandwidth (v : WindowedFilter Z) (b : bbrSender) : bbrSender :=
  mkBbrSender (pacer b) (mode b) (sampler b) (roundTripCount b) (lastSentPacket b)
    (currentRoundTripEnd b) (numLossEventsInRound b) (bytesLostInRound b) v (minRtt b)
    (minRttTimestamp b) (congestionWindow b) (initialCongestionWindow b) (maxCongestionWindow b)
    (minCongestionWindow b) (profile b) (highGain b) (highCwndGain b) (drainGain b) (pacingRate b)
    (pacingGain b) (congestionWindowGain b) (congestionWindowGainConstant b) (numStartupRtts b)
    (cycleCurrentOffset b) (lastCycleStart b) (isAtFullBandwidth b) (roundsWithoutBandwidthGain b)
    (bandwidthAtLastRound b) (exitingQuiescence b) (exitProbeRttAt b) (probeRttRoundPassed b)
    (lastSampleIsAppLimited b) (hasNoAppLimitedSample b) (recoveryState b) (endRecoveryAt b)
    (recoveryWindow b) (enableAckAggregationDuringStartup b) (expireAckAggregationInStartup b)
    (drainToTarget b) (detectOvershooting b) (bytesLostWhileDetectingOvershooting b)
    (bytesLostMultiplierWhileDetectingOvershooting b) (cwndToCalculateMinPacingRate b)
    (maxCongestionWindowWithNetworkParametersAdjusted b) (maxDatagramSize b) (bytesInFlight b).
Definition set_minRtt (v : Z) (b : bbrSender) : bbrSender :=
  mkBbrSender (pacer b) (mode b) (sampler b) (roundTripCount b) (lastSentPacket b)
    (currentRoundTripEnd b) (numLossEventsInRound b) (bytesLostInRound b) (maxBandwidth b) v
    (minRttTimestamp b) (congestionWindow b) (initialCongestionWindow b) (maxCongestionWindow b)
    (minCongestionWindow b) (profile b) (highGain b) (highCwndGain b) (drainGain b) (pacingRate b)
    (pacingGain b) (congestionWindowGain b) (congestionWindowGainConstant b) (numStartupRtts b)
    (cycleCurrentOffset b) (lastCycleStart b) (isAtFullBandwidth b) (roundsWithoutBandwidthGain b)
    (bandwidthAtLastRound b) (exitingQuiescence b) (exitProbeRttAt b) (probeRttRoundPassed b)
    (lastSampleIsAppLimited b) (hasNoAppLimitedSample b) (recoveryState b) (endRecoveryAt b)
    (recoveryWindow b) (enableAckAggregationDuringStartup b) (expireAckAggregationInStartup b)
    (drainToTarget b) (detectOvershooting b) (bytesLostWhileDetectingOvershooting b)
    (bytesLostMultiplierWhileDetectingOvershooting b) (cwndToCalculateMinPacingRate b)
    (maxCongestionWindowWithNetworkParametersAdjusted b) (maxDatagramSize b) (bytesInFlight b).
Definition set_minRttTimestamp (v : Z) (b : bbrSender) : bbrSender :=
  mkBbrSender (pacer b) (mode b) (sampler b) (roundTripCount b) (lastSentPacket b)
    (currentRoundTripEnd b) (numLossEventsInRound b) (bytesLostInRound b) (maxBandwidth b) (minRtt b) v
    (congestionWindow b) (initialCongestionWindow b) (maxCongestionWindow b) (minCongestionWindow b)
    (profile b) (highGain b) (highCwndGain b) (drainGain b) (pacingRate b) (pacingGain b)
    (congestionWindowGain b) (congestionWindowGainConstant b) (numStartupRtts b) (cycleCurrentOffset b)
    (lastCycleStart b) (isAtFullBandwidth b) (roundsWithoutBandwidthGain b) (bandwidthAtLastRound b)
    (exitingQuiescence b) (exitProbeRttAt b) (probeRttRoundPassed b) (lastSampleIsAppLimited b)
    (hasNoAppLimitedSample b) (recoveryState b) (endRecoveryAt b) (recoveryWindow b)
    (enableAckAggregationDuringStartup b) (expireAckAggregationInStartup b) (drainToTarget b)
    (detectOvershooting b) (bytesLostWhileDetectingOvershooting b)
    (bytesLostMultiplierWhileDetectingOvershooting b) (cwndToCalculateMinPacingRate b)
    (maxCongestionWindowWithNetworkParametersAdjusted b) (maxDatagramSize b) (bytesInFlight b).
Definition set_congestionWindow (v : Z) (b : bbrSender) : bbrSender :=
  mkBbrSender (pacer b) (mode b) (sampler b) (roundTripCount b) (lastSentPacket b)
    (currentRoundTripEnd b) (numLossEventsInRound b) (bytesLostInRound b) (maxBandwidth b) (minRtt b)
    (minRttTimestamp b) v (initialCongestionWindow b) (maxCongestionWindow b) (minCongestionWindow b)
    (profile b) (highGain b) (highCwndGain b) (drainGain b) (pacingRate b) (pacingGain b)
    (congestionWindowGain b) (congestionWindowGainConstant b) (numStartupRtts b) (cycleCurrentOffset b)
    (lastCycleStart b) (isAtFullBandwidth b) (roundsWithoutBandwidthGain b) (bandwidthAtLastRound b)
    (exitingQuiescence b) (exitProbeRttAt b) (probeRttRoundPassed b) (lastSampleIsAppLimited b)
    (hasNoAppLimitedSample b) (recoveryState b) (endRecoveryAt b) (recoveryWindow b)
    (enableAckAggregationDuringStartup b) (expireAckAggregationInStartup b) (drainToTarget b)
    (detectOvershooting b) (bytesLostWhileDetectingOvershooting b)
    (bytesLostMultiplierWhileDetectingOvershooting b) (cwndToCalculateMinPacingRate b)
    (maxCongestionWindowWithNetworkParametersAdjusted b) (maxDatagramSize b) (bytesInFlight b).
Definition set_initialCongestionWindow (v : Z) (b : bbrSender) : bbrSender :=
  mkBbrSender (pacer b) (mode b) (sampler b) (roundTripCount b) (lastSentPacket b)
    (currentRoundTripEnd b) (numLossEventsInRound b) (bytesLostInRound b) (maxBandwidth b) (minRtt b)
    (minRttTimestamp b) (congestionWindow b) v (maxCongestionWindow b) (minCongestionWindow b)
    (profile b) (highGain b) (highCwndGain b) (drainGain b) (pacingRate b) (pacingGain b)
    (congestionWindowGain b) (congestionWindowGainConstant b) (numStartupRtts b) (cycleCurrentOffset b)
    (lastCycleStart b) (isAtFullBandwidth b) (roundsWithoutBandwidthGain b) (bandwidthAtLastRound b)
    (exitingQuiescence b) (exitProbeRttAt b) (probeRttRoundPassed b) (lastSampleIsAppLimited b)
    (hasNoAppLimitedSample b) (recoveryState b) (endRecoveryAt b) (recoveryWindow b)
    (enableAckAggregationDuringStartup b) (expireAckAggregationInStartup b) (drainToTarget b)
    (detectOvershooting b) (bytesLostWhileDetectingOvershooting b)
    (bytesLostMultiplierWhileDetectingOvershooting b) (cwndToCalculateMinPacingRate b)
    (maxCongestionWindowWithNetworkParametersAdjusted b) (maxDatagramSize b) (bytesInFlight b).
Definition set_maxCongestionWindow (v : Z) (b : bbrSender) : bbrSender :=
  mkBbrSender (pacer b) (mode b) (sampler b) (roundTripCount b) (lastSentPacket b)
    (currentRoundTripEnd b) (numLossEventsInRound b) (bytesLostInRound b) (maxBandwidth b) (minRtt b)
    (minRttTimestamp b) (congestionWindow b) (initialCongestionWindow b) v (minCongestionWindow b)
    (profile b) (highGain b) (highCwndGain b) (drainGain b) (pacingRate b) (pacingGain b)
    (congestionWindowGain b) (congestionWindowGainConstant b) (numStartupRtts b) (cycleCurrentOffset b)
    (lastCycleStart b) (isAtFullBandwidth b) (roundsWithoutBandwidthGain b) (bandwidthAtLastRound b)
    (exitingQuiescence b) (exitProbeRttAt b) (probeRttRoundPassed b) (lastSampleIsAppLimited b)
    (hasNoAppLimitedSample b) (recoveryState b) (endRecoveryAt b) (recoveryWindow b)
    (enableAckAggregationDuringStartup b) (expireAckAggregationInStartup b) (drainToTarget b)
    (detectOvershooting b) (bytesLostWhileDetectingOvershooting b)
    (bytesLostMultiplierWhileDetectingOvershooting b) (cwndToCalculateMinPacingRate b)
    (maxCongestionWindowWithNetworkParametersAdjusted b) (maxDatagramSize b) (bytesInFlight b).
Definition set_minCongestionWindow (v : Z) (b : bbrSender) : bbrSender :=
  mkBbrSender (pacer b) (mode b) (sampler b) (roundTripCount b) (lastSentPacket b)
    (currentRoundTripEnd b) (numLossEventsInRound b) (bytesLostInRound b) (maxBandwidth b) (minRtt b)
    (minRttTimestamp b) (congestionWindow b) (initialCongestionWindow b) (maxCongestionWindow b) v
    (profile b) (highGain b) (highCwndGain b) (drainGain b) (pacingRate b) (pacingGain b)
    (congestionWindowGain b) (congestionWindowGainConstant b) (numStartupRtts b) (cycleCurrentOffset b)
    (lastCycleStart b) (isAtFullBandwidth b) (roundsWithoutBandwidthGain b) (bandwidthAtLastRound b)
    (exitingQuiescence b) (exitProbeRttAt b) (probeRttRoundPassed b) (lastSampleIsAppLimited b)
    (hasNoAppLimitedSample b) (recoveryState b) (endRecoveryAt b) (recoveryWindow b)
    (enableAckAggregationDuringStartup b) (expireAckAggregationInStartup b) (drainToTarget b)
    (detectOvershooting b) (bytesLostWhileDetectingOvershooting b)
    (bytesLostMultiplierWhileDetectingOvershooting b) (cwndToCalculateMinPacingRate b)
    (maxCongestionWindowWithNetworkParametersAdjusted b) (maxDatagramSize b) (bytesInFlight b).
Definition set_profile (v : Profile) (b : bbrSender) : bbrSender :=
  mkBbrSender (pacer b) (mode b) (sampler b) (roundTripCount b) (lastSentPacket b)
    (currentRoundTripEnd b) (numLossEventsInRound b) (bytesLostInRound b) (maxBandwidth b) (minRtt b)
    (minRttTimestamp b) (congestionWindow b) (initialCongestionWindow b) (maxCongestionWindow b)
    (minCongestionWindow b) v (highGain b) (highCwndGain b) (drainGain b) (pacingRate b) (pacingGain b)
    (congestionWindowGain b) (congestionWindowGainConstant b) (numStartupRtts b) (cycleCurrentOffset b)
    (lastCycleStart b) (isAtFullBandwidth b) (roundsWithoutBandwidthGain b) (bandwidthAtLastRound b)
    (exitingQuiescence b) (exitProbeRttAt b) (probeRttRoundPassed b) (lastSampleIsAppLimited b)
    (hasNoAppLimitedSample b) (recoveryState b) (endRecoveryAt b) (recoveryWindow b)
    (enableAckAggregationDuringStartup b) (expireAckAggregationInStartup b) (drainToTarget b)
    (detectOvershooting b) (bytesLostWhileDetectingOvershooting b)
    (bytesLostMultiplierWhileDetectingOvershooting b) (cwndToCalculateMinPacingRate b)
    (maxCongestionWindowWithNetworkParametersAdjusted b) (maxDatagramSize b) (bytesInFlight b).
Definition set_highGain (v : float64) (b : bbrSender) : bbrSender :=
  mkBbrSender (pacer b) (mode b) (sampler b) (roundTripCount b) (lastSentPacket b)
    (currentRoundTripEnd b) (numLossEventsInRound b) (bytesLostInRound b) (maxBandwidth b) (minRtt b)
    (minRttTimestamp b) (congestionWindow b) (initialCongestionWindow b) (maxCongestionWindow b)
    (minCongestionWindow b) (profile b) v (highCwndGain b) (drainGain b) (pacingRate b) (pacingGain b)
    (congestionWindowGain b) (congestionWindowGainConstant b) (numStartupRtts b) (cycleCurrentOffset b)
    (lastCycleStart b) (isAtFullBandwidth b) (roundsWithoutBandwidthGain b) (bandwidthAtLastRound b)
    (exitingQuiescence b) (exitProbeRttAt b) (probeRttRoundPassed b) (lastSampleIsAppLimited b)
    (hasNoAppLimitedSample b) (recoveryState b) (endRecoveryAt b) (recoveryWindow b)
    (enableAckAggregationDuringStartup b) (expireAckAggregationInStartup b) (drainToTarget b)
    (detectOvershooting b) (bytesLostWhileDetectingOvershooting b)
    (bytesLostMultiplierWhileDetectingOvershooting b) (cwndToCalculateMinPacingRate b)
    (maxCongestionWindowWithNetworkParametersAdjusted b) (maxDatagramSize b) (bytesInFlight b).
Definition set_highCwndGain (v : float64) (b : bbrSender) : bbrSender :=
  mkBbrSender (pacer b) (mode b) (sampler b) (roundTripCount b) (lastSentPacket b)
    (currentRoundTripEnd b) (numLossEventsInRound b) (bytesLostInRound b) (maxBandwidth b) (minRtt b)
    (minRttTimestamp b) (congestionWindow b) (initialCongestionWindow b) (maxCongestionWindow b)
    (minCongestionWindow b) (profile b) (highGain b) v (drainGain b) (pacingRate b) (pacingGain b)
    (congestionWindowGain b) (congestionWindowGainConstant b) (numStartupRtts b) (cycleCurrentOffset b)
    (lastCycleStart b) (isAtFullBandwidth b) (roundsWithoutBandwidthGain b) (bandwidthAtLastRound b)
    (exitingQuiescence b) (exitProbeRttAt b) (probeRttRoundPassed b) (lastSampleIsAppLimited b)
    (hasNoAppLimitedSample b) (recoveryState b) (endRecoveryAt b) (recoveryWindow b)
    (enableAckAggregationDuringStartup b) (expireAckAggregationInStartup b) (drainToTarget b)
    (detectOvershooting b) (bytesLostWhileDetectingOvershooting b)
    (bytesLostMultiplierWhileDetectingOvershooting b) (cwndToCalculateMinPacingRate b)
    (maxCongestionWindowWithNetworkParametersAdjusted b) (maxDatagramSize b) (bytesInFlight b).
Definition set_drainGain (v : float64) (b : bbrSender) : bbrSender :=
  mkBbrSender (pacer b) (mode b) (sampler b) (roundTripCount b) (lastSentPacket b)
    (currentRoundTripEnd b) (numLossEventsInRound b) (bytesLostInRound b) (maxBandwidth b) (minRtt b)
    (minRttTimestamp b) (congestionWindow b) (initialCongestionWindow b) (maxCongestionWindow b)
    (minCongestionWindow b) (profile b) (highGain b) (highCwndGain b) v (pacingRate b) (pacingGain b)
    (congestionWindowGain b) (congestionWindowGainConstant b) (numStartupRtts b) (cycleCurrentOffset b)
    (lastCycleStart b) (isAtFullBandwidth b) (roundsWithoutBandwidthGain b) (bandwidthAtLastRound b)
    (exitingQuiescence b) (exitProbeRttAt b) (probeRttRoundPassed b) (lastSampleIsAppLimited b)
    (hasNoAppLimitedSample b) (recoveryState b) (endRecoveryAt b) (recoveryWindow b)
    (enableAckAggregationDuringStartup b) (expireAckAggregationInStartup b) (drainToTarget b)
    (detectOvershooting b) (bytesLostWhileDetectingOvershooting b)
    (bytesLostMultiplierWhileDetectingOvershooting b) (cwndToCalculateMinPacingRate b)
    (maxCongestionWindowWithNetworkParametersAdjusted b) (maxDatagramSize b) (bytesInFlight b).
Definition set_pacingRate (v : Z) (b : bbrSender) : bbrSender :=
  mkBbrSender (pacer b) (mode b) (sampler b) (roundTripCount b) (lastSentPacket b)
    (currentRoundTripEnd b) (numLossEventsInRound b) (bytesLostInRound b) (maxBandwidth b) (minRtt b)
    (minRttTimestamp b) (congestionWindow b) (initialCongestionWindow b) (maxCongestionWindow b)
    (minCongestionWindow b) (profile b) (highGain b) (highCwndGain b) (drainGain b) v (pacingGain b)
    (congestionWindowGain b) (congestionWindowGainConstant b) (numStartupRtts b) (cycleCurrentOffset b)
    (lastCycleStart b) (isAtFullBandwidth b) (roundsWithoutBandwidthGain b) (bandwidthAtLastRound b)
    (exitingQuiescence b) (exitProbeRttAt b) (probeRttRoundPassed b) (lastSampleIsAppLimited b)
    (hasNoAppLimitedSample b) (recoveryState b) (endRecoveryAt b) (recoveryWindow b)
    (enableAckAggregationDuringStartup b) (expireAckAggregationInStartup b) (drainToTarget b)
    (detectOvershooting b) (bytesLostWhileDetectingOvershooting b)
    (bytesLostMultiplierWhileDetectingOvershooting b) (cwndToCalculateMinPacingRate b)
    (maxCongestionWindowWithNetworkParametersAdjusted b) (maxDatagramSize b) (bytesInFlight b).
Definition set_pacingGain (v : float64) (b : bbrSender) : bbrSender :=
  mkBbrSender (pacer b) (mode b) (sampler b) (roundTripCount b) (lastSentPacket b)
    (currentRoundTripEnd b) (numLossEventsInRound b) (bytesLostInRound b) (maxBandwidth b) (minRtt b)
    (minRttTimestamp b) (congestionWindow b) (initialCongestionWindow b) (maxCongestionWindow b)
    (minCongestionWindow b) (profile b) (highGain b) (highCwndGain b) (drainGain b) (pacingRate b) v
    (congestionWindowGain b) (congestionWindowGainConstant b) (numStartupRtts b) (cycleCurrentOffset b)
    (lastCycleStart b) (isAtFullBandwidth b) (roundsWithoutBandwidthGain b) (bandwidthAtLastRound b)
    (exitingQuiescence b) (exitProbeRttAt b) (probeRttRoundPassed b) (lastSampleIsAppLimited b)
    (hasNoAppLimitedSample b) (recoveryState b) (endRecoveryAt b) (recoveryWindow b)
    (enableAckAggregationDuringStartup b) (expireAckAggregationInStartup b) (drainToTarget b)
    (detectOvershooting b) (bytesLostWhileDetectingOvershooting b)
    (bytesLostMultiplierWhileDetectingOvershooting b) (cwndToCalculateMinPacingRate b)
    (maxCongestionWindowWithNetworkParametersAdjusted b) (maxDatagramSize b) (bytesInFlight b).
Definition set_congestionWindowGain (v : float64) (b : bbrSender) : bbrSender :=
  mkBbrSender (pacer b) (mode b) (sampler b) (roundTripCount b) (lastSentPacket b)
    (currentRoundTripEnd b) (numLossEventsInRound b) (bytesLostInRound b) (maxBandwidth b) (minRtt b)
    (minRttTimestamp b) (congestionWindow b) (initialCongestionWindow b) (maxCongestionWindow b)
    (minCongestionWindow b) (profile b) (highGain b) (highCwndGain b) (drainGain b) (pacingRate b)
    (pacingGain b) v (congestionWindowGainConstant b) (numStartupRtts b) (cycleCurrentOffset b)
    (lastCycleStart b) (isAtFullBandwidth b) (roundsWithoutBandwidthGain b) (bandwidthAtLastRound b)
    (exitingQuiescence b) (exitProbeRttAt b) (probeRttRoundPassed b) (lastSampleIsAppLimited b)
    (hasNoAppLimitedSample b) (recoveryState b) (endRecoveryAt b) (recoveryWindow b)
    (enableAckAggregationDuringStartup b) (expireAckAggregationInStartup b) (drainToTarget b)
    (detectOvershooting b) (bytesLostWhileDetectingOvershooting b)
    (bytesLostMultiplierWhileDetectingOvershooting b) (cwndToCalculateMinPacingRate b)
    (maxCongestionWindowWithNetworkParametersAdjusted b) (maxDatagramSize b) (bytesInFlight b).
Definition set_congestionWindowGainConstant (v : float64) (b : bbrSender) : bbrSender :=
  mkBbrSender (pacer b) (mode b) (sampler b) (roundTripCount b) (lastSentPacket b)
    (currentRoundTripEnd b) (numLossEventsInRound b) (bytesLostInRound b) (maxBandwidth b) (minRtt b)
    (minRttTimestamp b) (congestionWindow b) (initialCongestionWindow b) (maxCongestionWindow b)
    (minCongestionWindow b) (profile b) (highGain b) (highCwndGain b) (drainGain b) (pacingRate b)
    (pacingGain b) (congestionWindowGain b) v (numStartupRtts b) (cycleCurrentOffset b)
    (lastCycleStart b) (isAtFullBandwidth b) (roundsWithoutBandwidthGain b) (bandwidthAtLastRound b)
    (exitingQuiescence b) (exitProbeRttAt b) (probeRttRoundPassed b) (lastSampleIsAppLimited b)
    (hasNoAppLimitedSample b) (recoveryState b) (endRecoveryAt b) (recoveryWindow b)
    (enableAckAggregationDuringStartup b) (expireAckAggregationInStartup b) (drainToTarget b)
    (detectOvershooting b) (bytesLostWhileDetectingOvershooting b)
    (bytesLostMultiplierWhileDetectingOvershooting b) (cwndToCalculateMinPacingRate b)
    (maxCongestionWindowWithNetworkParametersAdjusted b) (maxDatagramSize b) (bytesInFlight b).
Definition set_numStartupRtts (v : Z) (b : bbrSender) : bbrSender :=
  mkBbrSender (pacer b) (mode b) (sampler b) (roundTripCount b) (lastSentPacket b)
    (currentRoundTripEnd b) (numLossEventsInRound b) (bytesLostInRound b) (maxBandwidth b) (minRtt b)
    (minRttTimestamp b) (congestionWindow b) (initialCongestionWindow b) (maxCongestionWindow b)
    (minCongestionWindow b) (profile b) (highGain b) (highCwndGain b) (drainGain b) (pacingRate b)
    (pacingGain b) (congestionWindowGain b) (congestionWindowGainConstant b) v (cycleCurrentOffset b)
    (lastCycleStart b) (isAtFullBandwidth b) (roundsWithoutBandwidthGain b) (bandwidthAtLastRound b)
    (exitingQuiescence b) (exitProbeRttAt b) (probeRttRoundPassed b) (lastSampleIsAppLimited b)
    (hasNoAppLimitedSample b) (recoveryState b) (endRecoveryAt b) (recoveryWindow b)
    (enableAckAggregationDuringStartup b) (expireAckAggregationInStartup b) (drainToTarget b)
    (detectOvershooting b) (bytesLostWhileDetectingOvershooting b)
    (bytesLostMultiplierWhileDetectingOvershooting b) (cwndToCalculateMinPacingRate b)
    (maxCongestionWindowWithNetworkParametersAdjusted b) (maxDatagramSize b) (bytesInFlight b).
Definition set_cycleCurrentOffset (v : Z) (b : bbrSender) : bbrSender :=
  mkBbrSender (pacer b) (mode b) (sampler b) (roundTripCount b) (lastSentPacket b)
    (currentRoundTripEnd b) (numLossEventsInRound b) (bytesLostInRound b) (maxBandwidth b) (minRtt b)
    (minRttTimestamp b) (congestionWindow b) (initialCongestionWindow b) (maxCongestionWindow b)
    (minCongestionWindow b) (profile b) (highGain b) (highCwndGain b) (drainGain b) (pacingRate b)
    (pacingGain b) (congestionWindowGain b) (congestionWindowGainConstant b) (numStartupRtts b) v
    (lastCycleStart b) (isAtFullBandwidth b) (roundsWithoutBandwidthGain b) (bandwidthAtLastRound b)
    (exitingQuiescence b) (exitProbeRttAt b) (probeRttRoundPassed b) (lastSampleIsAppLimited b)
    (hasNoAppLimitedSample b) (recoveryState b) (endRecoveryAt b) (recoveryWindow b)
    (enableAckAggregationDuringStartup b) (expireAckAggregationInStartup b) (drainToTarget b)
    (detectOvershooting b) (bytesLostWhileDetectingOvershooting b)
    (bytesLostMultiplierWhileDetectingOvershooting b) (cwndToCalculateMinPacingRate b)
    (maxCongestionWindowWithNetworkParametersAdjusted b) (maxDatagramSize b) (bytesInFlight b).
Definition set_lastCycleStart (v : Z) (b : bbrSender) : bbrSender :=
  mkBbrSender (pacer b) (mode b) (sampler b) (roundTripCount b) (lastSentPacket b)
    (currentRoundTripEnd b) (numLossEventsInRound b) (bytesLostInRound b) (maxBandwidth b) (minRtt b)
    (minRttTimestamp b) (congestionWindow b) (initialCongestionWindow b) (maxCongestionWindow b)
    (minCongestionWindow b) (profile b) (highGain b) (highCwndGain b) (drainGain b) (pacingRate b)
    (pacingGain b) (congestionWindowGain b) (congestionWindowGainConstant b) (numStartupRtts b)
    (cycleCurrentOffset b) v (isAtFullBandwidth b) (roundsWithoutBandwidthGain b)
    (bandwidthAtLastRound b) (exitingQuiescence b) (exitProbeRttAt b) (probeRttRoundPassed b)
    (lastSampleIsAppLimited b) (hasNoAppLimitedSample b) (recoveryState b) (endRecoveryAt b)
    (recoveryWindow b) (enableAckAggregationDuringStartup b) (expireAckAggregationInStartup b)
    (drainToTarget b) (detectOvershooting b) (bytesLostWhileDetectingOvershooting b)
    (bytesLostMultiplierWhileDetectingOvershooting b) (cwndToCalculateMinPacingRate b)
    (maxCongestionWindowWithNetworkParametersAdjusted b) (maxDatagramSize b) (bytesInFlight b).
Definition set_isAtFullBandwidth (v : bool) (b : bbrSender) : bbrSender :=
  mkBbrSender (pacer b) (mode b) (sampler b) (roundTripCount b) (lastSentPacket b)
    (currentRoundTripEnd b) (numLossEventsInRound b) (bytesLostInRound b) (maxBandwidth b) (minRtt b)
    (minRttTimestamp b) (congestionWindow b) (initialCongestionWindow b) (maxCongestionWindow b)
    (minCongestionWindow b) (profile b) (highGain b) (highCwndGain b) (drainGain b) (pacingRate b)
    (pacingGain b) (congestionWindowGain b) (congestionWindowGainConstant b) (numStartupRtts b)
    (cycleCurrentOffset b) (lastCycleStart b) v (roundsWithoutBandwidthGain b) (bandwidthAtLastRound b)
    (exitingQuiescence b) (exitProbeRttAt b) (probeRttRoundPassed b) (lastSampleIsAppLimited b)
    (hasNoAppLimitedSample b) (recoveryState b) (endRecoveryAt b) (recoveryWindow b)
    (enableAckAggregationDuringStartup b) (expireAckAggregationInStartup b) (drainToTarget b)
    (detectOvershooting b) (bytesLostWhileDetectingOvershooting b)
    (bytesLostMultiplierWhileDetectingOvershooting b) (cwndToCalculateMinPacingRate b)
    (maxCongestionWindowWithNetworkParametersAdjusted b) (maxDatagramSize b) (bytesInFlight b).
Definition set_roundsWithoutBandwidthGain (v : Z) (b : bbrSender) : bbrSender :=
  mkBbrSender (pacer b) (mode b) (sampler b) (roundTripCount b) (lastSentPacket b)
    (currentRoundTripEnd b) (numLossEventsInRound b) (bytesLostInRound b) (maxBandwidth b) (minRtt b)
    (minRttTimestamp b) (congestionWindow b) (initialCongestionWindow b) (maxCongestionWindow b)
    (minCongestionWindow b) (profile b) (highGain b) (highCwndGain b) (drainGain b) (pacingRate b)
    (pacingGain b) (congestionWindowGain b) (congestionWindowGainConstant b) (numStartupRtts b)
    (cycleCurrentOffset b) (lastCycleStart b) (isAtFullBandwidth b) v (bandwidthAtLastRound b)
    (exitingQuiescence b) (exitProbeRttAt b) (probeRttRoundPassed b) (lastSampleIsAppLimited b)
    (hasNoAppLimitedSample b) (recoveryState b) (endRecoveryAt b) (recoveryWindow b)
    (enableAckAggregationDuringStartup b) (expireAckAggregationInStartup b) (drainToTarget b)
    (detectOvershooting b) (bytesLostWhileDetectingOvershooting b)
    (bytesLostMultiplierWhileDetectingOvershooting b) (cwndToCalculateMinPacingRate b)
    (maxCongestionWindowWithNetworkParametersAdjusted b) (maxDatagramSize b) (bytesInFlight b).
Definition set_bandwidthAtLastRound (v : Z) (b : bbrSender) : bbrSender :=
  mkBbrSender (pacer b) (mode b) (sampler b) (roundTripCount b) (lastSentPacket b)
    (currentRoundTripEnd b) (numLossEventsInRound b) (bytesLostInRound b) (maxBandwidth b) (minRtt b)
    (minRttTimestamp b) (congestionWindow b) (initialCongestionWindow b) (maxCongestionWindow b)
    (minCongestionWindow b) (profile b) (highGain b) (highCwndGain b) (drainGain b) (pacingRate b)
    (pacingGain b) (congestionWindowGain b) (congestionWindowGainConstant b) (numStartupRtts b)
    (cycleCurrentOffset b) (lastCycleStart b) (isAtFullBandwidth b) (roundsWithoutBandwidthGain b) v
    (exitingQuiescence b) (exitProbeRttAt b) (probeRttRoundPassed b) (lastSampleIsAppLimited b)
    (hasNoAppLimitedSample b) (recoveryState b) (endRecoveryAt b) (recoveryWindow b)
    (enableAckAggregationDuringStartup b) (expireAckAggregationInStartup b) (drainToTarget b)
    (detectOvershooting b) (bytesLostWhileDetectingOvershooting b)
    (bytesLostMultiplierWhileDetectingOvershooting b) (cwndToCalculateMinPacingRate b)
    (maxCongestionWindowWithNetworkParametersAdjusted b) (maxDatagramSize b) (bytesInFlight b).
Definition set_exitingQuiescence (v : bool) (b : bbrSender) : bbrSender :=
  mkBbrSender (pacer b) (mode b) (sampler b) (roundTripCount b) (lastSentPacket b)
    (currentRoundTripEnd b) (numLossEventsInRound b) (bytesLostInRound b) (maxBandwidth b) (minRtt b)
    (minRttTimestamp b) (congestionWindow b) (initialCongestionWindow b) (maxCongestionWindow b)
    (minCongestionWindow b) (profile b) (highGain b) (highCwndGain b) (drainGain b) (pacingRate b)
    (pacingGain b) (congestionWindowGain b) (congestionWindowGainConstant b) (numStartupRtts b)
    (cycleCurrentOffset b) (lastCycleStart b) (isAtFullBandwidth b) (roundsWithoutBandwidthGain b)
    (bandwidthAtLastRound b) v (exitProbeRttAt b) (probeRttRoundPassed b) (lastSampleIsAppLimited b)
    (hasNoAppLimitedSample b) (recoveryState b) (endRecoveryAt b) (recoveryWindow b)
    (enableAckAggregationDuringStartup b) (expireAckAggregationInStartup b) (drainToTarget b)
    (detectOvershooting b) (bytesLostWhileDetectingOvershooting b)
    (bytesLostMultiplierWhileDetectingOvershooting b) (cwndToCalculateMinPacingRate b)
    (maxCongestionWindowWithNetworkParametersAdjusted b) (maxDatagramSize b) (bytesInFlight b).
Definition set_exitProbeRttAt (v : Z) (b : bbrSender) : bbrSender :=
  mkBbrSender (pacer b) (mode b) (sampler b) (roundTripCount b) (lastSentPacket b)
    (currentRoundTripEnd b) (numLossEventsInRound b) (bytesLostInRound b) (maxBandwidth b) (minRtt b)
    (minRttTimestamp b) (congestionWindow b) (initialCongestionWindow b) (maxCongestionWindow b)
    (minCongestionWindow b) (profile b) (highGain b) (highCwndGain b) (drainGain b) (pacingRate b)
    (pacingGain b) (congestionWindowGain b) (congestionWindowGainConstant b) (numStartupRtts b)
    (cycleCurrentOffset b) (lastCycleStart b) (isAtFullBandwidth b) (roundsWithoutBandwidthGain b)
    (bandwidthAtLastRound b) (exitingQuiescence b) v (probeRttRoundPassed b) (lastSampleIsAppLimited b)
    (hasNoAppLimitedSample b) (recoveryState b) (endRecoveryAt b) (recoveryWindow b)
    (enableAckAggregationDuringStartup b) (expireAckAggregationInStartup b) (drainToTarget b)
    (detectOvershooting b) (bytesLostWhileDetectingOvershooting b)
    (bytesLostMultiplierWhileDetectingOvershooting b) (cwndToCalculateMinPacingRate b)
    (maxCongestionWindowWithNetworkParametersAdjusted b) (maxDatagramSize b) (bytesInFlight b).
Definition set_probeRttRoundPassed (v : bool) (b : bbrSender) : bbrSender :=
  mkBbrSender (pacer b) (mode b) (sampler b) (roundTripCount b) (lastSentPacket b)
    (currentRoundTripEnd b) (numLossEventsInRound b) (bytesLostInRound b) (maxBandwidth b) (minRtt b)
    (minRttTimestamp b) (congestionWindow b) (initialCongestionWindow b) (maxCongestionWindow b)
    (minCongestionWindow b) (profile b) (highGain b) (highCwndGain b) (drainGain b) (pacingRate b)
    (pacingGain b) (congestionWindowGain b) (congestionWindowGainConstant b) (numStartupRtts b)
    (cycleCurrentOffset b) (lastCycleStart b) (isAtFullBandwidth b) (roundsWithoutBandwidthGain b)
    (bandwidthAtLastRound b) (exitingQuiescence b) (exitProbeRttAt b) v (lastSampleIsAppLimited b)
    (hasNoAppLimitedSample b) (recoveryState b) (endRecoveryAt b) (recoveryWindow b)
    (enableAckAggregationDuringStartup b) (expireAckAggregationInStartup b) (drainToTarget b)
    (detectOvershooting b) (bytesLostWhileDetectingOvershooting b)
    (bytesLostMultiplierWhileDetectingOvershooting b) (cwndToCalculateMinPacingRate b)
    (maxCongestionWindowWithNetworkParametersAdjusted b) (maxDatagramSize b) (bytesInFlight b).
Definition set_lastSampleIsAppLimited (v : bool) (b : bbrSender) : bbrSender :=
  mkBbrSender (pacer b) (mode b) (sampler b) (roundTripCount b) (lastSentPacket b)
    (currentRoundTripEnd b) (numLossEventsInRound b) (bytesLostInRound b) (maxBandwidth b) (minRtt b)
    (minRttTimestamp b) (congestionWindow b) (initialCongestionWindow b) (maxCongestionWindow b)
    (minCongestionWindow b) (profile b) (highGain b) (highCwndGain b) (drainGain b) (pacingRate b)
    (pacingGain b) (congestionWindowGain b) (congestionWindowGainConstant b) (numStartupRtts b)
    (cycleCurrentOffset b) (lastCycleStart b) (isAtFullBandwidth b) (roundsWithoutBandwidthGain b)
    (bandwidthAtLastRound b) (exitingQuiescence b) (exitProbeRttAt b) (probeRttRoundPassed b) v
    (hasNoAppLimitedSample b) (recoveryState b) (endRecoveryAt b) (recoveryWindow b)
    (enableAckAggregationDuringStartup b) (expireAckAggregationInStartup b) (drainToTarget b)
    (detectOvershooting b) (bytesLostWhileDetectingOvershooting b)
    (bytesLostMultiplierWhileDetectingOvershooting b) (cwndToCalculateMinPacingRate b)
    (maxCongestionWindowWithNetworkParametersAdjusted b) (maxDatagramSize b) (bytesInFlight b).
Definition set_hasNoAppLimitedSample (v : bool) (b : bbrSender) : bbrSender :=
  mkBbrSender (pacer b) (mode b) (sampler b) (roundTripCount b) (lastSentPacket b)
    (currentRoundTripEnd b) (numLossEventsInRound b) (bytesLostInRound b) (maxBandwidth b) (minRtt b)
    (minRttTimestamp b) (congestionWindow b) (initialCongestionWindow b) (maxCongestionWindow b)
    (minCongestionWindow b) (profile b) (highGain b) (highCwndGain b) (drainGain b) (pacingRate b)
    (pacingGain b) (congestionWindowGain b) (congestionWindowGainConstant b) (numStartupRtts b)
    (cycleCurrentOffset b) (lastCycleStart b) (isAtFullBandwidth b) (roundsWithoutBandwidthGain b)
    (bandwidthAtLastRound b) (exitingQuiescence b) (exitProbeRttAt b) (probeRttRoundPassed b)
    (lastSampleIsAppLimited b) v (recoveryState b) (endRecoveryAt b) (recoveryWindow b)
    (enableAckAggregationDuringStartup b) (expireAckAggregationInStartup b) (drainToTarget b)
    (detectOvershooting b) (bytesLostWhileDetectingOvershooting b)
    (bytesLostMultiplierWhileDetectingOvershooting b) (cwndToCalculateMinPacingRate b)
    (maxCongestionWindowWithNetworkParametersAdjusted b) (maxDatagramSize b) (bytesInFlight b).
Definition set_recoveryState (v : bbrRecoveryState) (b : bbrSender) : bbrSender :=
  mkBbrSender (pacer b) (mode b) (sampler b) (roundTripCount b) (lastSentPacket b)
    (currentRoundTripEnd b) (numLossEventsInRound b) (bytesLostInRound b) (maxBandwidth b) (minRtt b)
    (minRttTimestamp b) (congestionWindow b) (initialCongestionWindow b) (maxCongestionWindow b)
    (minCongestionWindow b) (profile b) (highGain b) (highCwndGain b) (drainGain b) (pacingRate b)
    (pacingGain b) (congestionWindowGain b) (congestionWindowGainConstant b) (numStartupRtts b)
    (cycleCurrentOffset b) (lastCycleStart b) (isAtFullBandwidth b) (roundsWithoutBandwidthGain b)
    (bandwidthAtLastRound b) (exitingQuiescence b) (exitProbeRttAt b) (probeRttRoundPassed b)
    (lastSampleIsAppLimited b) (hasNoAppLimitedSample b) v (endRecoveryAt b) (recoveryWindow b)
    (enableAckAggregationDuringStartup b) (expireAckAggregationInStartup b) (drainToTarget b)
    (detectOvershooting b) (bytesLostWhileDetectingOvershooting b)
    (bytesLostMultiplierWhileDetectingOvershooting b) (cwndToCalculateMinPacingRate b)
    (maxCongestionWindowWithNetworkParametersAdjusted b) (maxDatagramSize b) (bytesInFlight b).
Definition set_endRecoveryAt (v : Z) (b : bbrSender) : bbrSender :=
  mkBbrSender (pacer b) (mode b) (sampler b) (roundTripCount b) (lastSentPacket b)
    (currentRoundTripEnd b) (numLossEventsInRound b) (bytesLostInRound b) (maxBandwidth b) (minRtt b)
    (minRttTimestamp b) (congestionWindow b) (initialCongestionWindow b) (maxCongestionWindow b)
    (minCongestionWindow b) (profile b) (highGain b) (highCwndGain b) (drainGain b) (pacingRate b)
    (pacingGain b) (congestionWindowGain b) (congestionWindowGainConstant b) (numStartupRtts b)
    (cycleCurrentOffset b) (lastCycleStart b) (isAtFullBandwidth b) (roundsWithoutBandwidthGain b)
    (bandwidthAtLastRound b) (exitingQuiescence b) (exitProbeRttAt b) (probeRttRoundPassed b)
    (lastSampleIsAppLimited b) (hasNoAppLimitedSample b) (recoveryState b) v (recoveryWindow b)
    (enableAckAggregationDuringStartup b) (expireAckAggregationInStartup b) (drainToTarget b)
    (detectOvershooting b) (bytesLostWhileDetectingOvershooting b)
    (bytesLostMultiplierWhileDetectingOvershooting b) (cwndToCalculateMinPacingRate b)
    (maxCongestionWindowWithNetworkParametersAdjusted b) (maxDatagramSize b) (bytesInFlight b).
Definition set_recoveryWindow (v : Z) (b : bbrSender) : bbrSender :=
  mkBbrSender (pacer b) (mode b) (sampler b) (roundTripCount b) (lastSentPacket b)
    (currentRoundTripEnd b) (numLossEventsInRound b) (bytesLostInRound b) (maxBandwidth b) (minRtt b)
    (minRttTimestamp b) (congestionWindow b) (initialCongestionWindow b) (maxCongestionWindow b)
    (minCongestionWindow b) (profile b) (highGain b) (highCwndGain b) (drainGain b) (pacingRate b)
    (pacingGain b) (congestionWindowGain b) (congestionWindowGainConstant b) (numStartupRtts b)
    (cycleCurrentOffset b) (lastCycleStart b) (isAtFullBandwidth b) (roundsWithoutBandwidthGain b)
    (bandwidthAtLastRound b) (exitingQuiescence b) (exitProbeRttAt b) (probeRttRoundPassed b)
    (lastSampleIsAppLimited b) (hasNoAppLimitedSample b) (recoveryState b) (endRecoveryAt b) v
    (enableAckAggregationDuringStartup b) (expireAckAggregationInStartup b) (drainToTarget b)
    (detectOvershooting b) (bytesLostWhileDetectingOvershooting b)
    (bytesLostMultiplierWhileDetectingOvershooting b) (cwndToCalculateMinPacingRate b)
    (maxCongestionWindowWithNetworkParametersAdjusted b) (maxDatagramSize b) (bytesInFlight b).
Definition set_enableAckAggregationDuringStartup (v : bool) (b : bbrSender) : bbrSender :=
  mkBbrSender (pacer b) (mode b) (sampler b) (roundTripCount b) (lastSentPacket b)
    (currentRoundTripEnd b) (numLossEventsInRound b) (bytesLostInRound b) (maxBandwidth b) (minRtt b)
    (minRttTimestamp b) (congestionWindow b) (initialCongestionWindow b) (maxCongestionWindow b)
    (minCongestionWindow b) (profile b) (highGain b) (highCwndGain b) (drainGain b) (pacingRate b)
    (pacingGain b) (congestionWindowGain b) (congestionWindowGainConstant b) (numStartupRtts b)
    (cycleCurrentOffset b) (lastCycleStart b) (isAtFullBandwidth b) (roundsWithoutBandwidthGain b)
    (bandwidthAtLastRound b) (exitingQuiescence b) (exitProbeRttAt b) (probeRttRoundPassed b)
    (lastSampleIsAppLimited b) (hasNoAppLimitedSample b) (recoveryState b) (endRecoveryAt b)
    (recoveryWindow b) v (expireAckAggregationInStartup b) (drainToTarget b) (detectOvershooting b)
    (bytesLostWhileDetectingOvershooting b) (bytesLostMultiplierWhileDetectingOvershooting b)
    (cwndToCalculateMinPacingRate b) (maxCongestionWindowWithNetworkParametersAdjusted b)
    (maxDatagramSize b) (bytesInFlight b).
Definition set_expireAckAggregationInStartup (v : bool) (b : bbrSender) : bbrSender :=
  mkBbrSender (pacer b) (mode b) (sampler b) (roundTripCount b) (lastSentPacket b)
    (currentRoundTripEnd b) (numLossEventsInRound b) (bytesLostInRound b) (maxBandwidth b) (minRtt b)
    (minRttTimestamp b) (congestionWindow b) (initialCongestionWindow b) (maxCongestionWindow b)
    (minCongestionWindow b) (profile b) (highGain b) (highCwndGain b) (drainGain b) (pacingRate b)
    (pacingGain b) (congestionWindowGain b) (congestionWindowGainConstant b) (numStartupRtts b)
    (cycleCurrentOffset b) (lastCycleStart b) (isAtFullBandwidth b) (roundsWithoutBandwidthGain b)
    (bandwidthAtLastRound b) (exitingQuiescence b) (exitProbeRttAt b) (probeRttRoundPassed b)
    (lastSampleIsAppLimited b) (hasNoAppLimitedSample b) (recoveryState b) (endRecoveryAt b)
    (recoveryWindow b) (enableAckAggregationDuringStartup b) v (drainToTarget b) (detectOvershooting b)
    (bytesLostWhileDetectingOvershooting b) (bytesLostMultiplierWhileDetectingOvershooting b)
    (cwndToCalculateMinPacingRate b) (maxCongestionWindowWithNetworkParametersAdjusted b)
    (maxDatagramSize b) (bytesInFlight b).
Definition set_drainToTarget (v : bool) (b : bbrSender) : bbrSender :=
  mkBbrSender (pacer b) (mode b) (sampler b) (roundTripCount b) (lastSentPacket b)
    (currentRoundTripEnd b) (numLossEventsInRound b) (bytesLostInRound b) (maxBandwidth b) (minRtt b)
    (minRttTimestamp b) (congestionWindow b) (initialCongestionWindow b) (maxCongestionWindow b)
    (minCongestionWindow b) (profile b) (highGain b) (highCwndGain b) (drainGain b) (pacingRate b)
    (pacingGain b) (congestionWindowGain b) (congestionWindowGainConstant b) (numStartupRtts b)
    (cycleCurrentOffset b) (lastCycleStart b) (isAtFullBandwidth b) (roundsWithoutBandwidthGain b)
    (bandwidthAtLastRound b) (exitingQuiescence b) (exitProbeRttAt b) (probeRttRoundPassed b)
    (lastSampleIsAppLimited b) (hasNoAppLimitedSample b) (recoveryState b) (endRecoveryAt b)
    (recoveryWindow b) (enableAckAggregationDuringStartup b) (expireAckAggregationInStartup b) v
    (detectOvershooting b) (bytesLostWhileDetectingOvershooting b)
    (bytesLostMultiplierWhileDetectingOvershooting b) (cwndToCalculateMinPacingRate b)
    (maxCongestionWindowWithNetworkParametersAdjusted b) (maxDatagramSize b) (bytesInFlight b).
Definition set_detectOvershooting (v : bool) (b : bbrSender) : bbrSender :=
  mkBbrSender (pacer b) (mode b) (sampler b) (roundTripCount b) (lastSentPacket b)
    (currentRoundTripEnd b) (numLossEventsInRound b) (bytesLostInRound b) (maxBandwidth b) (minRtt b)
    (minRttTimestamp b) (congestionWindow b) (initialCongestionWindow b) (maxCongestionWindow b)
    (minCongestionWindow b) (profile b) (highGain b) (highCwndGain b) (drainGain b) (pacingRate b)
    (pacingGain b) (congestionWindowGain b) (congestionWindowGainConstant b) (numStartupRtts b)
    (cycleCurrentOffset b) (lastCycleStart b) (isAtFullBandwidth b) (roundsWithoutBandwidthGain b)
    (bandwidthAtLastRound b) (exitingQuiescence b) (exitProbeRttAt b) (probeRttRoundPassed b)
    (lastSampleIsAppLimited b) (hasNoAppLimitedSample b) (recoveryState b) (endRecoveryAt b)
    (recoveryWindow b) (enableAckAggregationDuringStartup b) (expireAckAggregationInStartup b)
    (drainToTarget b) v (bytesLostWhileDetectingOvershooting b)
    (bytesLostMultiplierWhileDetectingOvershooting b) (cwndToCalculateMinPacingRate b)
    (maxCongestionWindowWithNetworkParametersAdjusted b) (maxDatagramSize b) (bytesInFlight b).
Definition set_bytesLostWhileDetectingOvershooting (v : Z) (b : bbrSender) : bbrSender :=
  mkBbrSender (pacer b) (mode b) (sampler b) (roundTripCount b) (lastSentPacket b)
    (currentRoundTripEnd b) (numLossEventsInRound b) (bytesLostInRound b) (maxBandwidth b) (minRtt b)
    (minRttTimestamp b) (congestionWindow b) (initialCongestionWindow b) (maxCongestionWindow b)
    (minCongestionWindow b) (profile b) (highGain b) (highCwndGain b) (drainGain b) (pacingRate b)
    (pacingGain b) (congestionWindowGain b) (congestionWindowGainConstant b) (numStartupRtts b)
    (cycleCurrentOffset b) (lastCycleStart b) (isAtFullBandwidth b) (roundsWithoutBandwidthGain b)
    (bandwidthAtLastRound b) (exitingQuiescence b) (exitProbeRttAt b) (probeRttRoundPassed b)
    (lastSampleIsAppLimited b) (hasNoAppLimitedSample b) (recoveryState b) (endRecoveryAt b)
    (recoveryWindow b) (enableAckAggregationDuringStartup b) (expireAckAggregationInStartup b)
    (drainToTarget b) (detectOvershooting b) v (bytesLostMultiplierWhileDetectingOvershooting b)
    (cwndToCalculateMinPacingRate b) (maxCongestionWindowWithNetworkParametersAdjusted b)
    (maxDatagramSize b) (bytesInFlight b).
Definition set_bytesLostMultiplierWhileDetectingOvershooting (v : Z) (b : bbrSender) : bbrSender :=
  mkBbrSender (pacer b) (mode b) (sampler b) (roundTripCount b) (lastSentPacket b)
    (currentRoundTripEnd b) (numLossEventsInRound b) (bytesLostInRound b) (maxBandwidth b) (minRtt b)
    (minRttTimestamp b) (congestionWindow b) (initialCongestionWindow b) (maxCongestionWindow b)
    (minCongestionWindow b) (profile b) (highGain b) (highCwndGain b) (drainGain b) (pacingRate b)
    (pacingGain b) (congestionWindowGain b) (congestionWindowGainConstant b) (numStartupRtts b)
    (cycleCurrentOffset b) (lastCycleStart b) (isAtFullBandwidth b) (roundsWithoutBandwidthGain b)
    (bandwidthAtLastRound b) (exitingQuiescence b) (exitProbeRttAt b) (probeRttRoundPassed b)
    (lastSampleIsAppLimited b) (hasNoAppLimitedSample b) (recoveryState b) (endRecoveryAt b)
    (recoveryWindow b) (enableAckAggregationDuringStartup b) (expireAckAggregationInStartup b)
    (drainToTarget b) (detectOvershooting b) (bytesLostWhileDetectingOvershooting b) v
    (cwndToCalculateMinPacingRate b) (maxCongestionWindowWithNetworkParametersAdjusted b)
    (maxDatagramSize b) (bytesInFlight b).
Definition set_cwndToCalculateMinPacingRate (v : Z) (b : bbrSender) : bbrSender :=
  mkBbrSender (pacer b) (mode b) (sampler b) (roundTripCount b) (lastSentPacket b)
    (currentRoundTripEnd b) (numLossEventsInRound b) (bytesLostInRound b) (maxBandwidth b) (minRtt b)
    (minRttTimestamp b) (congestionWindow b) (initialCongestionWindow b) (maxCongestionWindow b)
    (minCongestionWindow b) (profile b) (highGain b) (highCwndGain b) (drainGain b) (pacingRate b)
    (pacingGain b) (congestionWindowGain b) (congestionWindowGainConstant b) (numStartupRtts b)
    (cycleCurrentOffset b) (lastCycleStart b) (isAtFullBandwidth b) (roundsWithoutBandwidthGain b)
    (bandwidthAtLastRound b) (exitingQuiescence b) (exitProbeRttAt b) (probeRttRoundPassed b)
    (lastSampleIsAppLimited b) (hasNoAppLimitedSample b) (recoveryState b) (endRecoveryAt b)
    (recoveryWindow b) (enableAckAggregationDuringStartup b) (expireAckAggregationInStartup b)
    (drainToTarget b) (detectOvershooting b) (bytesLostWhileDetectingOvershooting b)
    (bytesLostMultiplierWhileDetectingOvershooting b) v
    (maxCongestionWindowWithNetworkParametersAdjusted b) (maxDatagramSize b) (bytesInFlight b).
Definition set_maxCongestionWindowWithNetworkParametersAdjusted (v : Z) (b : bbrSender) : bbrSender :=
  mkBbrSender (pacer b) (mode b) (sampler b) (roundTripCount b) (lastSentPacket b)
    (currentRoundTripEnd b) (numLossEventsInRound b) (bytesLostInRound b) (maxBandwidth b) (minRtt b)
    (minRttTimestamp b) (congestionWindow b) (initialCongestionWindow b) (maxCongestionWindow b)
    (minCongestionWindow b) (profile b) (highGain b) (highCwndGain b) (drainGain b) (pacingRate b)
    (pacingGain b) (congestionWindowGain b) (congestionWindowGainConstant b) (numStartupRtts b)
    (cycleCurrentOffset b) (lastCycleStart b) (isAtFullBandwidth b) (roundsWithoutBandwidthGain b)
    (bandwidthAtLastRound b) (exitingQuiescence b) (exitProbeRttAt b) (probeRttRoundPassed b)
    (lastSampleIsAppLimited b) (hasNoAppLimitedSample b) (recoveryState b) (endRecoveryAt b)
    (recoveryWindow b) (enableAckAggregationDuringStartup b) (expireAckAggregationInStartup b)
    (drainToTarget b) (detectOvershooting b) (bytesLostWhileDetectingOvershooting b)
    (bytesLostMultiplierWhileDetectingOvershooting b) (cwndToCalculateMinPacingRate b) v
    (maxDatagramSize b) (bytesInFlight b).
Definition set_maxDatagramSize (v : Z) (b : bbrSender) : bbrSender :=
  mkBbrSender (pacer b) (mode b) (sampler b) (roundTripCount b) (lastSentPacket b)
    (currentRoundTripEnd b) (numLossEventsInRound b) (bytesLostInRound b) (maxBandwidth b) (minRtt b)
    (minRttTimestamp b) (congestionWindow b) (initialCongestionWindow b) (maxCongestionWindow b)
    (minCongestionWindow b) (profile b) (highGain b) (highCwndGain b) (drainGain b) (pacingRate b)
    (pacingGain b) (congestionWindowGain b) (congestionWindowGainConstant b) (numStartupRtts b)
    (cycleCurrentOffset b) (lastCycleStart b) (isAtFullBandwidth b) (roundsWithoutBandwidthGain b)
    (bandwidthAtLastRound b) (exitingQuiescence b) (exitProbeRttAt b) (probeRttRoundPassed b)
    (lastSampleIsAppLimited b) (hasNoAppLimitedSample b) (recoveryState b) (endRecoveryAt b)
    (recoveryWindow b) (enableAckAggregationDuringStartup b) (expireAckAggregationInStartup b)
    (drainToTarget b) (detectOvershooting b) (bytesLostWhileDetectingOvershooting b)
    (bytesLostMultiplierWhileDetectingOvershooting b) (cwndToCalculateMinPacingRate b)
    (maxCongestionWindowWithNetworkParametersAdjusted b) v (bytesInFlight b).
Definition set_bytesInFlight (v : Z) (b : bbrSender) : bbrSender :=
  mkBbrSender (pacer b) (mode b) (sampler b) (roundTripCount b) (lastSentPacket b)
    (currentRoundTripEnd b) (numLossEventsInRound b) (bytesLostInRound b) (maxBandwidth b) (minRtt b)
    (minRttTimestamp b) (congestionWindow b) (initialCongestionWindow b) (maxCongestionWindow b)
    (minCongestionWindow b) (profile b) (highGain b) (highCwndGain b) (drainGain b) (pacingRate b)
    (pacingGain b) (congestionWindowGain b) (congestionWindowGainConstant b) (numStartupRtts b)
    (cycleCurrentOffset b) (lastCycleStart b) (isAtFullBandwidth b) (roundsWithoutBandwidthGain b)
    (bandwidthAtLastRound b) (exitingQuiescence b) (exitProbeRttAt b) (probeRttRoundPassed b)
    (lastSampleIsAppLimited b) (hasNoAppLimitedSample b) (recoveryState b) (endRecoveryAt b)
    (recoveryWindow b) (enableAckAggregationDuringStartup b) (expireAckAggregationInStartup b)
    (drainToTarget b) (detectOvershooting b) (bytesLostWhileDetectingOvershooting b)
    (bytesLostMultiplierWhileDetectingOvershooting b) (cwndToCalculateMinPacingRate b)
    (maxCongestionWindowWithNetworkParametersAdjusted b) (maxDatagramSize b) v.
