(* ===== verification/Bbr.v ===== *)
(** * The BBR sender (core/internal/congestion/bbr/bbr_sender.go)

    What the sender asks of its surroundings is an argument of its methods: the
    smallest round trip of the connection ([MinRTT], 0 when there is none) and
    the number drawn by [rand.Int31n].  Packets are their numbers with the bytes
    acknowledged or lost. *)
From S2P Require Import Prelude GoStd Utf8 Float Pacer Ring PnQueue WindowedFilter Sampler BbrState.
Open Scope Z_scope.

(** ** Constants *)
Definition minBps : Z := 65536.
Definition initialCongestionWindowPackets : Z := 32.
Definition minCongestionWindowPackets : Z := 4.
Definition defaultHighGain : float64 := round_ratio 2885 1000.
Definition derivedHighCWNDGain : float64 := of_Z 2.

(** The cycle of gains used in PROBE_BW. *)
Definition pacingGainCycle : list float64 :=
  [round_ratio 125 100; round_ratio 75 100; of_Z 1; of_Z 1; of_Z 1; of_Z 1; of_Z 1; of_Z 1].
Definition gainCycleLength : Z := len pacingGainCycle.
Definition bandwidthWindowSize : Z := gainCycleLength + 2.
Definition minRttExpiry : Z := 10 * Second.
Definition probeRttTime : Z := 200 * Millisecond.
Definition startupGrowthTarget : float64 := round_ratio 125 100.
Definition roundTripsWithoutGrowthBeforeExitingStartup : Z := 3.
Definition defaultStartupFullLossCount : Z := 8.
Definition quicBbr2DefaultLossThreshold : float64 := round_ratio 2 100.

(** Equality of float64. *)
Definition feq (a b : float64) : bool := negb (ltb a b) && negb (ltb b a).

(** Indexing the cycle. *)
Definition cycle_gain (i : Z) : outcome float64 :=
  if i <? 0 then Panic else match pacingGainCycle !! Z.to_nat i with Some g => Ret g | None => Panic end.

(** ** Profiles *)
Record profileConfig := mkProfileConfig {
  pc_highGain : float64;
  pc_highCwndGain : float64;
  pc_congestionWindowGainConstant : float64;
  pc_numStartupRtts : Z;
  pc_drainToTarget : bool;
  pc_detectOvershooting : bool;
  pc_bytesLostMultiplier : Z;
  pc_enableAckAggregationStartup : bool;
  pc_expireAckAggregationStartup : bool;
  pc_enableOverestimateAvoidance : bool;
  pc_reduceExtraAckedOnBandwidthIncrease : bool;
}.

(** The error carries the profile that is not supported. *)
Definition ParseProfile `{UnicodeTables} (profile : string) : result string Profile :=
  let normalized := ToLower profile in
  if bool_decide (normalized = ""%string) || bool_decide (normalized = ProfileStandard) then Ok ProfileStandard
  else if bool_decide (normalized = ProfileConservative) then Ok ProfileConservative
  else if bool_decide (normalized = ProfileAggressive) then Ok ProfileAggressive
  else Err profile.

Definition configForProfile (profile : Profile) : profileConfig :=
  if bool_decide (profile = ProfileConservative) then
    mkProfileConfig (round_ratio 225 100) (round_ratio 175 100) (round_ratio 175 100) 2 true true 1 false false true true
  else if bool_decide (profile = ProfileAggressive) then
    mkProfileConfig (of_Z 3) (round_ratio 225 100) (round_ratio 25 10) 4 false false 2 true true false false
  else
    mkProfileConfig defaultHighGain derivedHighCWNDGain (of_Z 2) roundTripsWithoutGrowthBeforeExitingStartup
      false false 2 false false false false.

Definition applyProfile (profile : Profile) (b : bbrSender) : bbrSender :=
  let profile := if bool_decide (profile = ""%string) then ProfileStandard else profile in
  let cfg := configForProfile profile in
  let b := set_profile profile b in
  let b := set_highGain (pc_highGain cfg) b in
  let b := set_highCwndGain (pc_highCwndGain cfg) b in
  let b := set_drainGain (div (of_Z 1) (pc_highGain cfg)) b in
  let b := set_congestionWindowGainConstant (pc_congestionWindowGainConstant cfg) b in
  let b := set_numStartupRtts (pc_numStartupRtts cfg) b in
  let b := set_drainToTarget (pc_drainToTarget cfg) b in
  let b := set_detectOvershooting (pc_detectOvershooting cfg) b in
  let b := set_bytesLostMultiplierWhileDetectingOvershooting (pc_bytesLostMultiplier cfg) b in
  let b := set_enableAckAggregationDuringStartup (pc_enableAckAggregationStartup cfg) b in
  let b := set_expireAckAggregationInStartup (pc_expireAckAggregationStartup cfg) b in
  let b := if pc_enableOverestimateAvoidance cfg then set_sampler (EnableOverestimateAvoidance (sampler b)) b else b in
  set_sampler (SetReduceExtraAckedOnBandwidthIncrease (pc_reduceExtraAckedOnBandwidthIncrease cfg) (sampler b)) b.

(** ** Windows counted in packets *)
Definition minCongestionWindowForMaxDatagramSize (maxDatagramSize : Z) : Z :=
  i64 (minCongestionWindowPackets * maxDatagramSize).

(** The division by an old size of zero panics. *)
Definition scaleByteWindowForDatagramSize (window oldMaxDatagramSize newMaxDatagramSize : Z) : outcome Z :=
  if oldMaxDatagramSize =? newMaxDatagramSize then Ret window
  else if u64 oldMaxDatagramSize =? 0 then Panic
  else Ret (i64 (u64 (u64 window * u64 newMaxDatagramSize) / u64 oldMaxDatagramSize)).

Definition rescalePacketSizedWindows (size : Z) (b : bbrSender) : outcome bbrSender :=
  let old := maxDatagramSize b in
  let b := set_maxDatagramSize size b in
  w ← scaleByteWindowForDatagramSize (initialCongestionWindow b) old size;
  let b := set_initialCongestionWindow w b in
  w ← scaleByteWindowForDatagramSize (maxCongestionWindow b) old size;
  let b := set_maxCongestionWindow w b in
  let b := set_minCongestionWindow (minCongestionWindowForMaxDatagramSize size) b in
  w ← scaleByteWindowForDatagramSize (cwndToCalculateMinPacingRate b) old size;
  let b := set_cwndToCalculateMinPacingRate w b in
  w ← scaleByteWindowForDatagramSize (maxCongestionWindowWithNetworkParametersAdjusted b) old size;
  Ret (set_maxCongestionWindowWithNetworkParametersAdjusted w b).

(** ** Modes *)
Definition enterStartupMode (b : bbrSender) : bbrSender :=
  set_congestionWindowGain (highCwndGain b) (set_pacingGain (highGain b) (set_mode bbrModeStartup b)).

(** [r] is the number drawn. *)
Definition enterProbeBandwidthMode (r now : Z) (b : bbrSender) : outcome bbrSender :=
  let b := set_congestionWindowGain (congestionWindowGainConstant b) (set_mode bbrModeProbeBw b) in
  let offset := rem r (gainCycleLength - 1) in
  let offset := if 1 <=? offset then offset + 1 else offset in
  let b := set_lastCycleStart now (set_cycleCurrentOffset offset b) in
  g ← cycle_gain offset;
  Ret (set_pacingGain g b).

Definition setHighCwndGain (gain : float64) (b : bbrSender) : bbrSender :=
  let b := set_highCwndGain gain b in
  if bool_decide (mode b = bbrModeStartup) then set_congestionWindowGain gain b else b.

Section Sender.
Context `{QuicCongestion} `{!QuicBbr} `{FloatToInt} `{FloatToUint}.

(** ** Construction *)
Definition newBbrSender (initialMaxDatagramSize initialCongestionWindow initialMaxCongestionWindow : Z)
    (profile : Profile) : bbrSender :=
  let b := {|
    pacer := NewPacer;
    mode := bbrModeStartup;
    sampler := newBandwidthSampler bandwidthWindowSize;
    roundTripCount := 0;
    lastSentPacket := invalidPacketNumber;
    currentRoundTripEnd := invalidPacketNumber;
    numLossEventsInRound := 0;
    bytesLostInRound := 0;
    maxBandwidth := NewWindowedFilter 0 bandwidthWindowSize;
    minRtt := 0;
    minRttTimestamp := 0;
    congestionWindow := initialCongestionWindow;
    BbrState.initialCongestionWindow := initialCongestionWindow;
    maxCongestionWindow := initialMaxCongestionWindow;
    minCongestionWindow := minCongestionWindowForMaxDatagramSize initialMaxDatagramSize;
    BbrState.profile := ProfileStandard;
    highGain := defaultHighGain;
    highCwndGain := derivedHighCWNDGain;
    drainGain := round_ratio 1000 2885;
    pacingRate := 0;
    pacingGain := of_Z 1;
    congestionWindowGain := of_Z 1;
    congestionWindowGainConstant := of_Z 2;
    numStartupRtts := roundTripsWithoutGrowthBeforeExitingStartup;
    cycleCurrentOffset := 0;
    lastCycleStart := 0;
    isAtFullBandwidth := false;
    roundsWithoutBandwidthGain := 0;
    bandwidthAtLastRound := 0;
    exitingQuiescence := false;
    exitProbeRttAt := 0;
    probeRttRoundPassed := false;
    lastSampleIsAppLimited := false;
    hasNoAppLimitedSample := false;
    recoveryState := bbrRecoveryStateNotInRecovery;
    endRecoveryAt := invalidPacketNumber;
    recoveryWindow := initialMaxCongestionWindow;
    enableAckAggregationDuringStartup := false;
    expireAckAggregationInStartup := false;
    drainToTarget := false;
    detectOvershooting := false;
    bytesLostWhileDetectingOvershooting := 0;
    bytesLostMultiplierWhileDetectingOvershooting := 2;
    cwndToCalculateMinPacingRate := initialCongestionWindow;
    maxCongestionWindowWithNetworkParametersAdjusted := initialMaxCongestionWindow;
    maxDatagramSize := initialMaxDatagramSize;
    bytesInFlight := 0;
  |} in
  enterStartupMode (applyProfile profile b).

Definition NewBbrSender (initialMaxDatagramSize : Z) (profile : Profile) : bbrSender :=
  newBbrSender initialMaxDatagramSize (i64 (initialCongestionWindowPackets * initialMaxDatagramSize))
    (i64 (MaxCongestionWindowPackets * initialMaxDatagramSize)) profile.

(** ** Estimates *)
Definition bandwidthEstimate (b : bbrSender) : Z := GetBest (maxBandwidth b).

Definition getMinRtt (MinRTT : Z) (b : bbrSender) : Z :=
  if negb (minRtt b =? 0) then minRtt b
  else if MinRTT =? 0 then 100 * Millisecond else MinRTT.

Definition PacingRate (MinRTT : Z) (b : bbrSender) : outcome Z :=
  if pacingRate b =? 0 then
    rate ← BandwidthFromDelta (initialCongestionWindow b) (getMinRtt MinRTT b);
    Ret (toUint64 (mul (highGain b) (of_Z rate)))
  else Ret (pacingRate b).

Definition bandwidthForPacer (MinRTT : Z) (b : bbrSender) : outcome Z :=
  rate ← PacingRate MinRTT b;
  let bps := toInt64 (div (of_Z rate) (of_Z BytesPerSecond)) in
  Ret (if bps <? minBps then minBps else bps).

Definition bdpFromRttAndBandwidth (rtt bandwidth : Z) : Z :=
  quot (quot (i64 (rtt * i64 bandwidth)) BytesPerSecond) Second.

Definition getTargetCongestionWindow (MinRTT : Z) (gain : float64) (b : bbrSender) : Z :=
  let bdp := bdpFromRttAndBandwidth (getMinRtt MinRTT b) (bandwidthEstimate b) in
  let window := scale_int gain bdp in
  let window := if window =? 0 then scale_int gain (initialCongestionWindow b) else window in
  Z.max window (minCongestionWindow b).

Definition probeRttCongestionWindow (b : bbrSender) : Z := minCongestionWindow b.

(** ** The methods quic-go calls *)
Definition TimeUntilSend (MinRTT : Z) (b : bbrSender) : outcome Z :=
  bw ← bandwidthForPacer MinRTT b;
  Pacer.TimeUntilSend bw (pacer b).

Definition HasPacingBudget (MinRTT now : Z) (b : bbrSender) : outcome bool :=
  bw ← bandwidthForPacer MinRTT b;
  Ret (maxDatagramSize b <=? Budget bw now (pacer b)).

Definition OnPacketSent (MinRTT sentTime inFlight packetNumber bytes : Z) (isRetransmittable : bool)
    (b : bbrSender) : outcome bbrSender :=
  bw ← bandwidthForPacer MinRTT b;
  let b := set_pacer (SentPacket bw sentTime bytes (pacer b)) b in
  let b := set_bytesInFlight inFlight (set_lastSentPacket packetNumber b) in
  let b := if inFlight =? 0 then set_exitingQuiescence true b else b in
  s ← Sampler.OnPacketSent sentTime packetNumber bytes inFlight isRetransmittable (sampler b);
  Ret (set_sampler s b).

Definition InSlowStart (b : bbrSender) : bool := bool_decide (mode b = bbrModeStartup).
Definition InRecovery (b : bbrSender) : bool := negb (bool_decide (recoveryState b = bbrRecoveryStateNotInRecovery)).

Definition GetCongestionWindow (b : bbrSender) : Z :=
  if bool_decide (mode b = bbrModeProbeRtt) then probeRttCongestionWindow b
  else if InRecovery b then Z.min (congestionWindow b) (recoveryWindow b)
  else congestionWindow b.

Definition CanSend (inFlight : Z) (b : bbrSender) : bool := inFlight <? GetCongestionWindow b.

(** A decreased size panics. *)
Definition SetMaxDatagramSize (s : Z) (b : bbrSender) : outcome bbrSender :=
  if s <? maxDatagramSize b then Panic else
  let oldMin := minCongestionWindow b in
  let oldInitial := initialCongestionWindow b in
  b ← rescalePacketSizedWindows s b;
  let window :=
    if congestionWindow b =? oldMin then minCongestionWindow b
    else if congestionWindow b =? oldInitial then initialCongestionWindow b
    else Z.min (maxCongestionWindow b) (Z.max (congestionWindow b) (minCongestionWindow b)) in
  let b := set_congestionWindow window b in
  let b := set_recoveryWindow (Z.min (maxCongestionWindow b) (Z.max (recoveryWindow b) (minCongestionWindow b))) b in
  Ret (set_pacer (Pacer.SetMaxDatagramSize s (pacer b)) b).

(** ** The steps of a congestion event *)
Definition maybeUpdateMinRtt (now sampleMinRtt : Z) (b : bbrSender) : bbrSender * bool :=
  let expired := negb (minRtt b =? 0) && mono_After now (mono_Add (minRttTimestamp b) minRttExpiry) in
  ((if expired || (sampleMinRtt <? minRtt b) || (minRtt b =? 0)
    then set_minRttTimestamp now (set_minRtt sampleMinRtt b) else b), expired).

Definition updateRoundTripCounter (lastAckedPacket : Z) (b : bbrSender) : bbrSender * bool :=
  if (currentRoundTripEnd b =? invalidPacketNumber) || (currentRoundTripEnd b <? lastAckedPacket)
  then (set_currentRoundTripEnd (lastSentPacket b) (set_roundTripCount (u64 (roundTripCount b + 1)) b), true)
  else (b, false).

Definition updateGainCyclePhase (MinRTT now priorInFlight : Z) (hasLosses : bool) (b : bbrSender) : outcome bbrSender :=
  let advance := mono_After now (mono_Add (lastCycleStart b) (getMinRtt MinRTT b)) in
  let advance :=
    if ltb (of_Z 1) (pacingGain b) && negb hasLosses
       && (priorInFlight <? getTargetCongestionWindow MinRTT (pacingGain b) b)
    then false else advance in
  let advance :=
    if ltb (pacingGain b) (of_Z 1) && (bytesInFlight b <=? getTargetCongestionWindow MinRTT (of_Z 1) b)
    then true else advance in
  if advance then
    let b := set_cycleCurrentOffset (rem (cycleCurrentOffset b + 1) gainCycleLength) b in
    let b := set_lastCycleStart now b in
    g ← cycle_gain (cycleCurrentOffset b);
    if drainToTarget b && ltb (pacingGain b) (of_Z 1) && feq g (of_Z 1)
       && (getTargetCongestionWindow MinRTT (of_Z 1) b <? bytesInFlight b)
    then Ret b else Ret (set_pacingGain g b)
  else Ret b.

Definition shouldExitStartupDueToLoss (s : sendTimeState) (b : bbrSender) : bool :=
  if (numLossEventsInRound b <? defaultStartupFullLossCount) || negb (isValid s) then false else
  let inflightAtSend := sts_bytesInFlight s in
  if (0 <? inflightAtSend) && (0 <? bytesLostInRound b)
  then toInt64 (mul (of_Z inflightAtSend) quicBbr2DefaultLossThreshold) <? bytesLostInRound b
  else false.

Definition checkIfFullBandwidthReached (s : sendTimeState) (b : bbrSender) : bbrSender :=
  if lastSampleIsAppLimited b then b else
  let target := toUint64 (mul (of_Z (bandwidthAtLastRound b)) startupGrowthTarget) in
  if target <=? bandwidthEstimate b then
    let b := set_roundsWithoutBandwidthGain 0 (set_bandwidthAtLastRound (bandwidthEstimate b) b) in
    if expireAckAggregationInStartup b
    then set_sampler (ResetMaxAckHeightTracker 0 (roundTripCount b) (sampler b)) b else b
  else
    let b := set_roundsWithoutBandwidthGain (i64 (roundsWithoutBandwidthGain b + 1)) b in
    if (numStartupRtts b <=? roundsWithoutBandwidthGain b) || shouldExitStartupDueToLoss s b
    then set_isAtFullBandwidth true b else b.

Definition maybeAppLimited (MinRTT inFlight : Z) (b : bbrSender) : bbrSender :=
  if inFlight <? getTargetCongestionWindow MinRTT (of_Z 1) b then set_sampler (OnAppLimited (sampler b)) b else b.

Definition maybeExitStartupOrDrain (MinRTT r now : Z) (b : bbrSender) : outcome bbrSender :=
  let b :=
    if bool_decide (mode b = bbrModeStartup) && isAtFullBandwidth b
    then set_congestionWindowGain (highCwndGain b) (set_pacingGain (drainGain b) (set_mode bbrModeDrain b))
    else b in
  if bool_decide (mode b = bbrModeDrain) && (bytesInFlight b <=? getTargetCongestionWindow MinRTT (of_Z 1) b)
  then enterProbeBandwidthMode r now b
  else Ret b.

Definition maybeEnterOrExitProbeRtt (r now : Z) (isRoundStart minRttExpired : bool) (b : bbrSender) : outcome bbrSender :=
  let b :=
    if minRttExpired && negb (exitingQuiescence b) && negb (bool_decide (mode b = bbrModeProbeRtt))
    then set_exitProbeRttAt 0 (set_pacingGain (of_Z 1) (set_mode bbrModeProbeRtt b))
    else b in
  b ← (if bool_decide (mode b = bbrModeProbeRtt) then
         let b := set_sampler (OnAppLimited (sampler b)) b in
         if mono_IsZero (exitProbeRttAt b) then
           Ret (if bytesInFlight b <? i64 (probeRttCongestionWindow b + MaxPacketBufferSize)
                then set_probeRttRoundPassed false (set_exitProbeRttAt (mono_Add now probeRttTime) b) else b)
         else
           let b := if isRoundStart then set_probeRttRoundPassed true b else b in
           if (0 <=? mono_Sub now (exitProbeRttAt b)) && probeRttRoundPassed b then
             let b := set_minRttTimestamp now b in
             if negb (isAtFullBandwidth b) then Ret (enterStartupMode b) else enterProbeBandwidthMode r now b
           else Ret b
       else Ret b);
  Ret (set_exitingQuiescence false b).

Definition updateRecoveryState (lastAckedPacket : Z) (hasLosses isRoundStart : bool) (b : bbrSender) : bbrSender :=
  if negb (isAtFullBandwidth b) then b else
  let b := if hasLosses then set_endRecoveryAt (lastSentPacket b) b else b in
  let exit b := if negb hasLosses && (endRecoveryAt b <? lastAckedPacket)
                then set_recoveryState bbrRecoveryStateNotInRecovery b else b in
  match recoveryState b with
  | bbrRecoveryStateNotInRecovery =>
      if hasLosses
      then set_currentRoundTripEnd (lastSentPacket b)
             (set_recoveryWindow 0 (set_recoveryState bbrRecoveryStateConservation b))
      else b
  | bbrRecoveryStateConservation =>
      exit (if isRoundStart then set_recoveryState bbrRecoveryStateGrowth b else b)
  | bbrRecoveryStateGrowth => exit b
  end.

Definition calculatePacingRate (MinRTT bytesLost : Z) (b : bbrSender) : outcome bbrSender :=
  if bandwidthEstimate b =? 0 then Ret b else
  let targetRate := toUint64 (mul (pacingGain b) (of_Z (bandwidthEstimate b))) in
  if isAtFullBandwidth b then Ret (set_pacingRate targetRate b) else
  if (pacingRate b =? 0) && negb (MinRTT =? 0) then
    rate ← BandwidthFromDelta (initialCongestionWindow b) MinRTT;
    Ret (set_pacingRate rate b)
  else
    b ← (if detectOvershooting b then
           let b := set_bytesLostWhileDetectingOvershooting (i64 (bytesLostWhileDetectingOvershooting b + bytesLost)) b in
           if (targetRate <? pacingRate b) && (0 <? bytesLostWhileDetectingOvershooting b)
              && (hasNoAppLimitedSample b
                  || (initialCongestionWindow b <? i64 (bytesLostWhileDetectingOvershooting b
                                                       * bytesLostMultiplierWhileDetectingOvershooting b)))
           then
             rate ← BandwidthFromDelta (cwndToCalculateMinPacingRate b) MinRTT;
             Ret (set_detectOvershooting false (set_bytesLostWhileDetectingOvershooting 0
                    (set_pacingRate (Z.max targetRate rate) b)))
           else Ret b
         else Ret b);
    Ret (set_pacingRate (Z.max (pacingRate b) targetRate) b).

Definition calculateCongestionWindow (MinRTT bytesAcked excessAcked : Z) (b : bbrSender) : bbrSender :=
  if bool_decide (mode b = bbrModeProbeRtt) then b else
  let targetWindow := getTargetCongestionWindow MinRTT (congestionWindowGain b) b in
  let targetWindow :=
    if isAtFullBandwidth b then i64 (targetWindow + MaxAckHeight (sampler b))
    else if enableAckAggregationDuringStartup b then i64 (targetWindow + excessAcked)
    else targetWindow in
  let window :=
    if isAtFullBandwidth b then Z.min targetWindow (i64 (congestionWindow b + bytesAcked))
    else if (congestionWindow b <? targetWindow) || (totalBytesAcked (sampler b) <? initialCongestionWindow b)
    then i64 (congestionWindow b + bytesAcked)
    else congestionWindow b in
  set_congestionWindow (Z.min (Z.max window (minCongestionWindow b)) (maxCongestionWindow b)) b.

Definition calculateRecoveryWindow (bytesAcked bytesLost : Z) (b : bbrSender) : bbrSender :=
  if bool_decide (recoveryState b = bbrRecoveryStateNotInRecovery) then b else
  if recoveryWindow b =? 0 then
    set_recoveryWindow (Z.max (minCongestionWindow b) (i64 (bytesInFlight b + bytesAcked))) b
  else
    let window := if bytesLost <=? recoveryWindow b then i64 (recoveryWindow b - bytesLost) else maxDatagramSize b in
    let window := if bool_decide (recoveryState b = bbrRecoveryStateGrowth) then i64 (window + bytesAcked) else window in
    let window := Z.max window (i64 (bytesInFlight b + bytesAcked)) in
    set_recoveryWindow (Z.max (minCongestionWindow b) window) b.

(** ** OnCongestionEventEx

    Its four parts, in order: the bytes in flight, the round and the recovery
    state; the sample; the modes; the rate and the windows with the cleanup. *)
Definition event_begins (MinRTT priorInFlight : Z) (acked lost : list (Z * Z)) (b : bbrSender) : bbrSender * bool :=
  let b := maybeAppLimited MinRTT priorInFlight b in
  let subtract := λ n p, i64 (n - snd p) in
  let b := set_bytesInFlight (foldl subtract (foldl subtract priorInFlight acked) lost) b in
  match last acked with
  | Some (lastAckedPacket, _) =>
      let '(b, isRoundStart) := updateRoundTripCounter lastAckedPacket b in
      (updateRecoveryState lastAckedPacket (negb (bool_decide (lost = []))) isRoundStart b, isRoundStart)
  | None => (b, false)
  end.

(** The sample, whether the smallest round trip had expired, and the bytes lost. *)
Definition event_sample (eventTime totalBytesAckedBefore totalBytesLostBefore : Z) (acked lost : list (Z * Z)) (b : bbrSender)
    : outcome (bbrSender * congestionEventSample * bool * Z) :=
  '(s, sample) ← Sampler.OnCongestionEvent eventTime acked lost (GetBest (maxBandwidth b)) infBandwidth
                   (roundTripCount b) (sampler b);
  let b := set_sampler s b in
  let b :=
    if isValid (lastPacketSendState sample) then
      let b := set_lastSampleIsAppLimited (sts_isAppLimited (lastPacketSendState sample)) b in
      set_hasNoAppLimitedSample (hasNoAppLimitedSample b || negb (lastSampleIsAppLimited b)) b
    else b in
  let b :=
    if negb (totalBytesAckedBefore =? totalBytesAcked (sampler b))
       && (negb (sampleIsAppLimited sample) || (GetBest (maxBandwidth b) <? sampleMaxBandwidth sample))
    then set_maxBandwidth (WindowedFilter.Update 0 MaxFilter (sampleMaxBandwidth sample) (roundTripCount b) (maxBandwidth b)) b
    else b in
  let '(b, minRttExpired) :=
    if negb (sampleRtt sample =? infRTT) then maybeUpdateMinRtt eventTime (sampleRtt sample) b else (b, false) in
  let bytesLost := i64 (totalBytesLost (sampler b) - totalBytesLostBefore) in
  let b :=
    if negb (bool_decide (lost = []))
    then set_bytesLostInRound (i64 (bytesLostInRound b + bytesLost))
           (set_numLossEventsInRound (u64 (numLossEventsInRound b + 1)) b)
    else b in
  Ret (b, sample, minRttExpired, bytesLost).

Definition event_modes (MinRTT r eventTime priorInFlight : Z) (lost : list (Z * Z)) (isRoundStart minRttExpired : bool)
    (s : sendTimeState) (b : bbrSender) : outcome bbrSender :=
  b ← (if bool_decide (mode b = bbrModeProbeBw)
       then updateGainCyclePhase MinRTT eventTime priorInFlight (negb (bool_decide (lost = []))) b else Ret b);
  let b := if isRoundStart && negb (isAtFullBandwidth b) then checkIfFullBandwidthReached s b else b in
  b ← maybeExitStartupOrDrain MinRTT r eventTime b;
  maybeEnterOrExitProbeRtt r eventTime isRoundStart minRttExpired b.

(** An event with no packet at all panics. *)
Definition event_ends (MinRTT totalBytesAckedBefore bytesLost excessAcked : Z) (acked lost : list (Z * Z))
    (isRoundStart : bool) (b : bbrSender) : outcome bbrSender :=
  let bytesAcked := i64 (totalBytesAcked (sampler b) - totalBytesAckedBefore) in
  b ← calculatePacingRate MinRTT bytesLost b;
  let b := calculateCongestionWindow MinRTT bytesAcked excessAcked b in
  let b := calculateRecoveryWindow bytesAcked bytesLost b in
  leastUnacked ← (match last acked, last lost with
                  | Some (pn, _), _ => Ret (i64 (pn - 2))
                  | None, Some (pn, _) => Ret (i64 (pn + 1))
                  | None, None => Panic
                  end);
  s ← RemoveObsoletePackets leastUnacked (sampler b);
  let b := set_sampler s b in
  Ret (if isRoundStart then set_bytesLostInRound 0 (set_numLossEventsInRound 0 b) else b).

Definition OnCongestionEventEx (MinRTT r priorInFlight eventTime : Z) (ackedPackets lostPackets : list (Z * Z))
    (b : bbrSender) : outcome bbrSender :=
  let totalBytesAckedBefore := totalBytesAcked (sampler b) in
  let totalBytesLostBefore := totalBytesLost (sampler b) in
  let '(b, isRoundStart) := event_begins MinRTT priorInFlight ackedPackets lostPackets b in
  '(b, sample, minRttExpired, bytesLost) ←
    event_sample eventTime totalBytesAckedBefore totalBytesLostBefore ackedPackets lostPackets b;
  b ← event_modes MinRTT r eventTime priorInFlight lostPackets isRoundStart minRttExpired (lastPacketSendState sample) b;
  event_ends MinRTT totalBytesAckedBefore bytesLost (es_extraAcked sample) ackedPackets lostPackets isRoundStart b.

(** ** What quic-go does with a sender *)
Inductive event : Type :=
| Sent (sentTime inFlight packetNumber bytes : Z) (isRetransmittable : bool)
| Acks (r priorInFlight eventTime : Z) (ackedPackets lostPackets : list (Z * Z))
| Datagram (size : Z).

(** Each event comes with the smallest round trip at its time. *)
Definition step (b : bbrSender) (e : Z * event) : outcome bbrSender :=
  match e with
  | (MinRTT, Sent sentTime inFlight packetNumber bytes isRetransmittable) =>
      OnPacketSent MinRTT sentTime inFlight packetNumber bytes isRetransmittable b
  | (MinRTT, Acks r priorInFlight eventTime ackedPackets lostPackets) =>
      OnCongestionEventEx MinRTT r priorInFlight eventTime ackedPackets lostPackets b
  | (_, Datagram size) => SetMaxDatagramSize size b
  end.

Fixpoint steps (b : bbrSender) (es : list (Z * event)) : outcome bbrSender :=
  match es with
  | [] => Ret b
  | e :: es => b ← step b e; steps b es
  end.
End Sender.
