(* ===== verification/BbrFacts.v ===== *)
(** * What the BBR sender maintains

    Three invariants of the sender, of its state machine, of its windows and of
    what keeps it from panicking, each preserved by every event, and the
    theorems they give over any sequence of events. *)
From Stdlib Require Import String.
From S2P Require Import Prelude GoStd Utf8 Float Pacer Ring PnQueue WindowedFilter Sampler SamplerFacts BbrState Bbr.

#[local] Arguments of_Z : simpl never.
#[local] Arguments wrapS : simpl never.
#[local] Arguments wrapU : simpl never.

(** Deciding the conditions of the code, outermost first. *)
Ltac cases :=
  repeat match goal with
  | |- context [if ?c then _ else _] => let E := fresh "E" in destruct c eqn:E
  end.

Section Facts.
Context {QC : QuicCongestion} {QB : QuicBbr} {FI : FloatToInt} {FU : FloatToUint}.

(** ** The state machine *)
Definition phase : Type := bbrMode * bool.
Definition phase_of (b : bbrSender) : phase := (mode b, isAtFullBandwidth b).

(** The mode, with whether full bandwidth has been reached. *)
Inductive moves : phase → phase → Prop :=
| moves_full : moves (bbrModeStartup, false) (bbrModeDrain, true)
| moves_drained : moves (bbrModeDrain, true) (bbrModeProbeBw, true)
| moves_probe m f : m ≠ bbrModeProbeRtt → moves (m, f) (bbrModeProbeRtt, f)
| moves_full_probing : moves (bbrModeProbeRtt, false) (bbrModeProbeRtt, true)
| moves_restart : moves (bbrModeProbeRtt, false) (bbrModeStartup, false)
| moves_resume : moves (bbrModeProbeRtt, true) (bbrModeProbeBw, true).

(** What the mode says of the gains and of full bandwidth. *)
Definition mode_ok (b : bbrSender) : Prop :=
  match mode b with
  | bbrModeStartup => pacingGain b = highGain b ∧ congestionWindowGain b = highCwndGain b
  | bbrModeDrain => isAtFullBandwidth b = true ∧ pacingGain b = drainGain b ∧ congestionWindowGain b = highCwndGain b
  | bbrModeProbeBw =>
      isAtFullBandwidth b = true ∧ pacingGain b ∈ pacingGainCycle ∧ congestionWindowGain b = congestionWindowGainConstant b
  | bbrModeProbeRtt => pacingGain b = of_Z 1
  end ∧ (recoveryState b ≠ bbrRecoveryStateNotInRecovery → isAtFullBandwidth b = true).

(** Between events, STARTUP ends when full bandwidth is reached. *)
Definition at_rest (b : bbrSender) : Prop := mode_ok b ∧ (mode b = bbrModeStartup → isAtFullBandwidth b = false).

(** What the machine reads. *)
Definition controls (b : bbrSender) :=
  (phase_of b, (pacingGain b, congestionWindowGain b), (highGain b, highCwndGain b, drainGain b, congestionWindowGainConstant b),
   recoveryState b).

Lemma controls_phase b b' : controls b' = controls b → phase_of b' = phase_of b.
Proof. intros E. exact (f_equal (λ c, c.1.1.1) E). Qed.

Lemma mode_ok_controls b b' : controls b' = controls b → mode_ok b → mode_ok b'.
Proof. intros [= Hm Hf Hp Hc Hh Hhc Hd Hk Hr]. unfold mode_ok. by rewrite Hm, Hf, Hp, Hc, Hh, Hhc, Hd, Hk, Hr. Qed.

Lemma at_rest_controls b b' : controls b' = controls b → at_rest b → at_rest b'.
Proof.
  intros E [Hm Hs]. split; [by eapply mode_ok_controls|]. injection E as -> -> _ _ _ _ _ _ _. done.
Qed.

Lemma at_rest_recovery b b' : (controls b').1 = (controls b).1 → isAtFullBandwidth b = true → at_rest b → at_rest b'.
Proof.
  intros [= Hm Hf Hp Hc Hh Hhc Hd Hk] Hfull [[Hb _] Hs]. unfold at_rest, mode_ok.
  by rewrite Hm, Hf, Hp, Hc, Hh, Hhc, Hd, Hk.
Qed.

Lemma cycle_gain_spec i : if_ends (cycle_gain i) (λ g, g ∈ pacingGainCycle).
Proof.
  unfold cycle_gain. case_match; [apply if_ends_Panic|]. destruct (pacingGainCycle !! Z.to_nat i) as [g|] eqn:Hg; [|apply if_ends_Panic].
  apply if_ends_Ret. by eapply list_elem_of_lookup_2.
Qed.

Lemma enterProbeBandwidthMode_modes r now b : mode_ok b → isAtFullBandwidth b = true →
  if_ends (enterProbeBandwidthMode r now b)
    (λ b', mode_ok b' ∧ phase_of b' = (bbrModeProbeBw, true)).
Proof.
  intros [_ Hr] Hf. unfold enterProbeBandwidthMode. eapply if_ends_bind; [apply cycle_gain_spec|]. intros g Hg.
  apply if_ends_Ret. cbn in *. unfold mode_ok, phase_of. cbn. rewrite Hf. auto.
Qed.

Lemma updateGainCyclePhase_modes m now prior l b : mode_ok b → mode b = bbrModeProbeBw →
  if_ends (updateGainCyclePhase m now prior l b) (λ b', mode_ok b' ∧ phase_of b' = phase_of b).
Proof.
  intros Hb Hm. unfold updateGainCyclePhase. cbv zeta. destruct (if ltb (pacingGain b) _ && _ then _ else _); [|by apply if_ends_Ret].
  eapply if_ends_bind; [apply cycle_gain_spec|]. intros g Hg. case_match; apply if_ends_Ret.
  - split; [|done]. by apply (mode_ok_controls b).
  - split; [|done]. revert Hb. unfold mode_ok. cbn. rewrite Hm. naive_solver.
Qed.

Lemma checkIfFullBandwidthReached_modes s b : mode_ok b → (mode b = bbrModeStartup ∨ mode b = bbrModeProbeRtt) →
  let b' := checkIfFullBandwidthReached s b in
  mode_ok b' ∧ mode b' = mode b ∧ (isAtFullBandwidth b = true → isAtFullBandwidth b' = true).
Proof.
  intros Hb Hm. unfold checkIfFullBandwidthReached. cbv zeta.
  cases; cbn; (split; [|by auto]); try (by apply (mode_ok_controls b)).
  revert Hb. unfold mode_ok. cbn. destruct Hm as [-> | ->]; naive_solver.
Qed.

Lemma maybeExitStartupOrDrain_modes m r now b : mode_ok b →
  if_ends (maybeExitStartupOrDrain m r now b)
    (λ b', at_rest b' ∧ (phase_of b' = phase_of b ∨ mode b = bbrModeStartup ∧ isAtFullBandwidth b = true ∧
       (phase_of b' = (bbrModeDrain, true) ∨ phase_of b' = (bbrModeProbeBw, true)) ∨
       mode b = bbrModeDrain ∧ phase_of b' = (bbrModeProbeBw, true))).
Proof.
  intros Hb. unfold maybeExitStartupOrDrain. cbv zeta.
  destruct (bool_decide (mode b = bbrModeStartup) && isAtFullBandwidth b) eqn:E.
  - apply andb_true_iff in E as [Hm%bool_decide_eq_true Hf]. set (b1 := set_congestionWindowGain _ _).
    assert (mode_ok b1) as Hb1 by (destruct Hb as [_ Hr]; split; cbn; [by rewrite Hf|by intros ?]).
    destruct (_ && _).
    + eapply if_ends_mono; [by apply enterProbeBandwidthMode_modes|]. intros b' [Hb' Hp]. cbn beta. rewrite Hp.
      split; [split; [done|]|right; left; auto]. injection Hp as -> _. done.
    + apply if_ends_Ret. split; [split; done|]. right. left. split_and!; [done|done|left]. unfold phase_of. cbn. by rewrite Hf.
  - assert (mode b = bbrModeStartup → isAtFullBandwidth b = false) as Hs.
    { intros Hm. rewrite Hm, bool_decide_eq_true_2 in E by done. done. }
    clear E. destruct (_ && _) eqn:Ed; [|apply if_ends_Ret; split; [by split|by left]].
    apply andb_true_iff in Ed as [Hm%bool_decide_eq_true _].
    assert (isAtFullBandwidth b = true) as Hf by (destruct Hb as [Hb _]; rewrite Hm in Hb; apply Hb).
    eapply if_ends_mono; [by apply enterProbeBandwidthMode_modes|]. intros b' [Hb' Hp]. cbn beta. rewrite Hp.
    split; [split; [done|]|right; right; auto]. injection Hp as -> _. done.
Qed.

Lemma maybeEnterOrExitProbeRtt_modes r now rs ex b : at_rest b →
  if_ends (maybeEnterOrExitProbeRtt r now rs ex b) (λ b', at_rest b' ∧ rtc moves (phase_of b) (phase_of b')).
Proof.
  intros Hb. unfold maybeEnterOrExitProbeRtt. cbv zeta. set (b1 := if ex && _ && _ then _ else b).
  assert (at_rest b1 ∧ rtc moves (phase_of b) (phase_of b1)) as [Hb1 Hm1].
  { unfold b1. destruct (_ && _) eqn:E; [|done]. rewrite !andb_true_iff, !negb_true_iff, bool_decide_eq_false in E.
    destruct E as [_ Hne]. destruct Hb as [[_ Hr] _]. split; [split; [split; [done|exact Hr]|done]|].
    apply rtc_once. by constructor. }
  clearbody b1. apply (if_ends_bind _ _ (λ b', at_rest b' ∧ rtc moves (phase_of b) (phase_of b'))).
  2:{ intros b2 [Hb2 Hm2]. apply if_ends_Ret. split; [by apply (at_rest_controls b2)|done]. }
  case_bool_decide as Hm; [|by apply if_ends_Ret]. set (b2 := set_sampler _ b1).
  assert (at_rest b2 ∧ phase_of b2 = phase_of b1) as [Hb2 Hp2] by (by split; [apply (at_rest_controls b1)|]).
  rewrite <-Hp2 in Hm1. assert (mode b2 = bbrModeProbeRtt) as Hm2 by done. clearbody b2. clear b1 Hb1 Hp2 Hm.
  destruct (mono_IsZero _).
  { apply if_ends_Ret. case_match; [|done]. split; [by apply (at_rest_controls b2)|done]. }
  set (b3 := if rs then _ else b2).
  assert (at_rest b3 ∧ phase_of b3 = phase_of b2) as [Hb3 Hp3].
  { unfold b3. destruct rs; [|done]. by split; [apply (at_rest_controls b2)|]. }
  rewrite <-Hp3 in Hm1. assert (mode b3 = bbrModeProbeRtt) as Hm3 by (by injection Hp3 as -> _). clearbody b3.
  destruct (_ && _); [|by apply if_ends_Ret]. destruct (isAtFullBandwidth _) eqn:Hf; cbn in Hf; cbn [negb].
  - eapply if_ends_mono; [apply enterProbeBandwidthMode_modes; [by apply Hb3|done]|]. intros b' [Hb' Hp].
    split; [split; [done|by injection Hp as -> _]|]. eapply rtc_r; [exact Hm1|]. rewrite Hp. unfold phase_of. rewrite Hm3, Hf. constructor.
  - apply if_ends_Ret. destruct Hb3 as [[_ Hr] _]. split; [split; [split; [done|exact Hr]|done]|].
    eapply rtc_r; [exact Hm1|]. unfold phase_of. rewrite Hm3. cbn. rewrite Hf. constructor.
Qed.

Lemma updateRecoveryState_modes pn l rs b : at_rest b →
  at_rest (updateRecoveryState pn l rs b) ∧ phase_of (updateRecoveryState pn l rs b) = phase_of b.
Proof.
  intros Hb. unfold updateRecoveryState. cbv zeta. destruct (isAtFullBandwidth b) eqn:Hf; cbn [negb]; [|done].
  pose proof (λ b' E, at_rest_recovery b b' E Hf Hb) as Hrec.
  destruct l, rs; cbn; destruct (recoveryState b); cases; split; done || by apply Hrec.
Qed.

Lemma event_modes_ok m r t prior lost rs ex s b : at_rest b →
  if_ends (event_modes m r t prior lost rs ex s b) (λ b', at_rest b' ∧ rtc moves (phase_of b) (phase_of b')).
Proof.
  intros [Hb Hs]. unfold event_modes. eapply (if_ends_bind _ _ (λ b', mode_ok b' ∧ phase_of b' = phase_of b)).
  { case_bool_decide; [by apply updateGainCyclePhase_modes|by apply if_ends_Ret]. }
  intros b1 [Hb1 Hp1]. rewrite <-Hp1.
  assert (mode b1 = bbrModeStartup → isAtFullBandwidth b1 = false) as Hs1 by (injection Hp1 as -> ->; done). clear b Hb Hs Hp1.
  set (b2 := if rs && _ then _ else b1).
  assert (mode_ok b2 ∧ mode b2 = mode b1 ∧ (phase_of b2 = phase_of b1 ∨
    isAtFullBandwidth b1 = false ∧ isAtFullBandwidth b2 = true ∧ (mode b1 = bbrModeStartup ∨ mode b1 = bbrModeProbeRtt))) as (Hb2 & Hm2 & Hf2).
  { unfold b2. destruct rs; cbn [andb]; [|by auto]. destruct (isAtFullBandwidth b1) eqn:Hf; cbn [negb]; [by auto|].
    assert (mode b1 = bbrModeStartup ∨ mode b1 = bbrModeProbeRtt) as Hor.
    { revert Hb1. unfold mode_ok. rewrite Hf. intros [Hb1 _]. destruct (mode b1); auto; by destruct Hb1. }
    destruct (checkIfFullBandwidthReached_modes s b1 Hb1 Hor) as (Hc & Hm & _). split_and!; [done|done|].
    destruct (isAtFullBandwidth (checkIfFullBandwidthReached s b1)) eqn:Hf'; [by auto|left]. unfold phase_of. by rewrite Hm, Hf, Hf'. }
  clearbody b2. eapply if_ends_bind; [by apply (maybeExitStartupOrDrain_modes m r t b2)|]. intros b3 [Hb3 Hp3].
  eapply if_ends_mono; [by apply maybeEnterOrExitProbeRtt_modes|]. intros b4 [Hb4 Hm4]. split; [done|].
  etrans; [|exact Hm4]. destruct Hp3 as [Hp3|[(Hs2 & Hfull & Hp3)|[Hd Hp3]]].
  - rewrite Hp3. destruct Hf2 as [->|(Hf1 & Hf2 & Hor)]; [done|]. destruct Hor as [Hm1|Hm1].
    + exfalso. destruct Hb3 as [_ Hb3]. injection Hp3 as Ea Eb. rewrite Ea, Eb, Hm2, Hm1, Hf2 in Hb3. by specialize (Hb3 eq_refl).
    + unfold phase_of. rewrite Hm2, Hm1, Hf1, Hf2. apply rtc_once. constructor.
  - rewrite Hm2 in Hs2. unfold phase_of at 1. rewrite Hs2, (Hs1 Hs2). eapply rtc_l; [constructor|].
    destruct Hp3 as [-> | ->]; [done|]. apply rtc_once. constructor.
  - assert (phase_of b1 = (bbrModeDrain, true)) as ->.
    { rewrite Hm2 in Hd. destruct Hf2 as [Hf2|(_ & _ & [Hm1|Hm1])]; [|congruence..].
      rewrite <-Hf2. destruct Hb2 as [Hb2 _]. unfold phase_of. rewrite Hm2, Hd in *. by destruct Hb2 as [-> _]. }
    rewrite Hp3. apply rtc_once. constructor.
Qed.

(** ** The windows *)
Record windows_ok (b : bbrSender) : Prop := {
  wo_size : 0 < maxDatagramSize b <= 65535;
  wo_min : minCongestionWindow b = 4 * maxDatagramSize b;
  wo_initial : initialCongestionWindow b = 32 * maxDatagramSize b;
  wo_max : maxCongestionWindow b = MaxCongestionWindowPackets * maxDatagramSize b;
  wo_pacing : cwndToCalculateMinPacingRate b = 32 * maxDatagramSize b;
  wo_adjusted : maxCongestionWindowWithNetworkParametersAdjusted b = MaxCongestionWindowPackets * maxDatagramSize b;
  wo_window : minCongestionWindow b <= congestionWindow b <= maxCongestionWindow b;
}.

(** The recovery window is set up later in the event that starts a recovery. *)
Definition pending_ok (b : bbrSender) : Prop :=
  minCongestionWindow b <= recoveryWindow b ∨ recoveryWindow b = 0 ∧ recoveryState b ≠ bbrRecoveryStateNotInRecovery.

Definition windows (b : bbrSender) :=
  (maxDatagramSize b, minCongestionWindow b, initialCongestionWindow b, maxCongestionWindow b,
   cwndToCalculateMinPacingRate b, maxCongestionWindowWithNetworkParametersAdjusted b).

Lemma windows_ok_eq b b' : windows b' = windows b → congestionWindow b' = congestionWindow b → windows_ok b → windows_ok b'.
Proof. intros [= Hs Hm Hi Hx Hp Ha] Hc [? ? ? ? ? ? ?]. split; by rewrite ?Hs, ?Hm, ?Hi, ?Hx, ?Hc, ?Hp, ?Ha. Qed.

(** What the parts of an event before the windows are recalculated leave alone. *)
Definition kept (b b' : bbrSender) : Prop :=
  windows b' = windows b ∧ congestionWindow b' = congestionWindow b ∧
  recoveryWindow b' = recoveryWindow b ∧ recoveryState b' = recoveryState b.

Lemma kept_trans b1 b2 b3 : kept b1 b2 → kept b2 b3 → kept b1 b3.
Proof. intros (? & ? & ? & ?) (? & ? & ? & ?). split_and!; congruence. Qed.

Lemma kept_ok b b' : kept b b' → windows_ok b → pending_ok b → windows_ok b' ∧ pending_ok b'.
Proof.
  intros (Hw & Hc & Hr & Hs) Hb Hp. split; [by eapply windows_ok_eq|].
  injection Hw as _ Hm _ _ _ _. unfold pending_ok. by rewrite Hm, Hr, Hs.
Qed.

Lemma enterProbeBandwidthMode_kept r now b : if_ends (enterProbeBandwidthMode r now b) (kept b).
Proof. unfold enterProbeBandwidthMode. eapply if_ends_bind; [apply cycle_gain_spec|]. intros g _. by apply if_ends_Ret. Qed.

Lemma checkIfFullBandwidthReached_kept s b : kept b (checkIfFullBandwidthReached s b).
Proof. unfold checkIfFullBandwidthReached. cbv zeta. cases; done. Qed.

Lemma event_modes_kept m r t prior lost rs ex s b : if_ends (event_modes m r t prior lost rs ex s b) (kept b).
Proof.
  unfold event_modes. apply (if_ends_bind _ _ (kept b)).
  { case_bool_decide; [|by apply if_ends_Ret]. unfold updateGainCyclePhase. cbv zeta.
    destruct (if ltb (pacingGain b) _ && _ then _ else _); [|by apply if_ends_Ret].
    eapply if_ends_bind; [apply cycle_gain_spec|]. intros g _. case_match; by apply if_ends_Ret. }
  intros b1 H1. set (b2 := if _ && _ then _ else b1). assert (kept b b2) as H2.
  { unfold b2. case_match; [|done]. eapply kept_trans; [done|]. apply checkIfFullBandwidthReached_kept. }
  clearbody b2. apply (if_ends_bind _ _ (kept b)).
  { unfold maybeExitStartupOrDrain. cbv zeta. set (b3 := if _ && _ then _ else b2).
    assert (kept b b3) as H3 by (unfold b3; case_match; [by eapply kept_trans|done]).
    case_match; [|by apply if_ends_Ret]. eapply if_ends_mono; [apply enterProbeBandwidthMode_kept|]. intros b4 H4. by eapply kept_trans. }
  intros b3 H3. unfold maybeEnterOrExitProbeRtt. cbv zeta. set (b4 := if ex && _ && _ then _ else b3).
  assert (kept b b4) as H4 by (unfold b4; case_match; [by eapply kept_trans|done]). clearbody b4.
  apply (if_ends_bind _ _ (kept b)); [|intros b5 H5; by apply if_ends_Ret].
  case_match; [|by apply if_ends_Ret]. case_match; [apply if_ends_Ret; by case_match|].
  set (b5 := if rs then _ else _). assert (kept b b5) as H5 by (unfold b5; by case_match). clearbody b5.
  case_match; [|by apply if_ends_Ret]. case_match; [by apply if_ends_Ret|].
  eapply if_ends_mono; [apply enterProbeBandwidthMode_kept|]. intros b6 Hb6. by eapply kept_trans.
Qed.

Lemma event_sample_kept t a l acked lost b :
  if_ends (event_sample t a l acked lost b) (λ '(b', _, _, _), kept b b' ∧ controls b' = controls b).
Proof.
  unfold event_sample. apply (if_ends_bind _ _ (λ _, True)); [done|]. intros [s es] _. cbv zeta.
  set (b1 := if isValid _ then _ else _). assert (kept b b1 ∧ controls b1 = controls b) as H1 by (unfold b1; by case_match). clearbody b1.
  set (b2 := if negb _ && _ then _ else _). assert (kept b b2 ∧ controls b2 = controls b) as H2 by (unfold b2; by case_match). clearbody b2.
  unfold maybeUpdateMinRtt. destruct (negb (sampleRtt es =? infRTT)).
  - set (b3 := if _ || _ then _ else b2). assert (kept b b3 ∧ controls b3 = controls b) as H3 by (unfold b3; by case_match). clearbody b3.
    apply if_ends_Ret. by case_match.
  - apply if_ends_Ret. by case_match.
Qed.

(** The recovery window as it was, or to be set up. *)
Definition recovery_kept (b b' : bbrSender) : Prop :=
  windows b' = windows b ∧ congestionWindow b' = congestionWindow b ∧
  (recoveryWindow b' = recoveryWindow b ∨ recoveryWindow b' = 0 ∧ recoveryState b' ≠ bbrRecoveryStateNotInRecovery).

Lemma recovery_kept_ok b b' : recovery_kept b b' → windows_ok b → minCongestionWindow b <= recoveryWindow b →
  windows_ok b' ∧ pending_ok b'.
Proof.
  intros (Hw & Hc & Hr) Hb Hp. split; [by eapply windows_ok_eq|]. injection Hw as _ Hm _ _ _ _. unfold pending_ok. rewrite Hm.
  destruct Hr as [->|]; auto.
Qed.

Lemma updateRecoveryState_kept pn l rs b : recovery_kept b (updateRecoveryState pn l rs b).
Proof.
  unfold updateRecoveryState. cbv zeta. destruct (negb _); [by split_and!; auto|].
  destruct l, rs; cbn; destruct (recoveryState b); cases; split_and!; cbn; auto.
Qed.

Lemma event_begins_ok m prior acked lost b : 
  let '(b', _) := event_begins m prior acked lost b in
  (at_rest b → at_rest b') ∧ phase_of b' = phase_of b ∧ recovery_kept b b'.
Proof.
  unfold event_begins. cbv zeta. set (b1 := set_bytesInFlight _ _).
  assert (kept b b1 ∧ controls b1 = controls b) as [Hk Hctl] by (unfold b1, maybeAppLimited; cases; done). clearbody b1.
  assert ((at_rest b → at_rest b1) ∧ phase_of b1 = phase_of b ∧ recovery_kept b b1) as H1.
  { destruct Hk as (Hw & Hc & Hr & Hs). split_and!; [by apply at_rest_controls|by apply controls_phase|]. by split_and!; auto. }
  destruct (last acked) as [[pn n]|]; [|done]. unfold updateRoundTripCounter.
  set (p := if _ || _ then _ else _).
  assert (kept b p.1 ∧ controls p.1 = controls b) as [(Hw & Hc & Hr & Hs) Hctl2] by (unfold p; case_match; done).
  clearbody p. destruct p as [b2 rs]. cbn [fst] in *. set (l := negb _). clearbody l.
  destruct (updateRecoveryState_kept pn l rs b2) as (Hw3 & Hc3 & Hr3). split_and!.
  - intros Hb. apply updateRecoveryState_modes. by apply (at_rest_controls b).
  - assert (phase_of b2 = phase_of b) as <- by (by apply controls_phase).
    unfold updateRecoveryState. cbv zeta. destruct (negb _); [done|]. destruct l, rs; cbn; destruct (recoveryState b2); cases; done.
  - split_and!; [congruence..|]. by rewrite <-Hr.
Qed.

Lemma calculatePacingRate_kept m n b : if_ends (calculatePacingRate m n b) (λ b', kept b b' ∧ controls b' = controls b).
Proof.
  unfold calculatePacingRate. cbv zeta. case_match; [by apply if_ends_Ret|]. case_match; [by apply if_ends_Ret|].
  case_match; [eapply (if_ends_bind _ _ (λ _, True)); [done|]; intros; by apply if_ends_Ret|].
  apply (if_ends_bind _ _ (λ b', kept b b' ∧ controls b' = controls b)); [|intros b1 H1'; by apply if_ends_Ret].
  destruct (detectOvershooting b); [|by apply if_ends_Ret]. destruct (_ && _ && _); [|by apply if_ends_Ret].
  eapply (if_ends_bind _ _ (λ _, True)); [done|]. intros. by apply if_ends_Ret.
Qed.

Lemma calculateCongestionWindow_ok m n e b : let b' := calculateCongestionWindow m n e b in
  (windows_ok b → windows_ok b') ∧ windows b' = windows b ∧ recoveryWindow b' = recoveryWindow b ∧ controls b' = controls b.
Proof.
  unfold calculateCongestionWindow. cbv zeta. case_match; [done|]. split; [|done]. intros Hb.
  destruct Hb as [Hs Hm Hi Hx Hp Ha Hc]. pose proof MaxCongestionWindowPackets_bound.
  split; cbn [set_congestionWindow maxDatagramSize minCongestionWindow initialCongestionWindow maxCongestionWindow congestionWindow
    cwndToCalculateMinPacingRate maxCongestionWindowWithNetworkParametersAdjusted]; try done. nia.
Qed.

Lemma calculateRecoveryWindow_ok n l b : let b' := calculateRecoveryWindow n l b in
  (pending_ok b → minCongestionWindow b' <= recoveryWindow b') ∧ windows b' = windows b ∧
  congestionWindow b' = congestionWindow b ∧ controls b' = controls b.
Proof.
  unfold calculateRecoveryWindow. cbv zeta. case_bool_decide as Hr.
  - split; [|done]. by intros [|[_ ?]].
  - case_match; (split; [|done]); cbn; lia.
Qed.

(** The end of an event. *)
Lemma event_ends_ok m a l e acked lost rs b :
  if_ends (event_ends m a l e acked lost rs b) (λ b', controls b' = controls b ∧ windows b' = windows b ∧
    (windows_ok b → pending_ok b → windows_ok b' ∧ minCongestionWindow b' <= recoveryWindow b')).
Proof.
  unfold event_ends. cbv zeta. eapply if_ends_bind; [apply calculatePacingRate_kept|]. intros b1 [Hk1 Hctl1].
  set (n := i64 (totalBytesAcked (sampler b) - a)). clearbody n.
  pose proof (calculateCongestionWindow_ok m n e b1) as (Hw2 & He2 & Hr2 & Hctl2). set (b2 := calculateCongestionWindow _ _ _ _) in *.
  pose proof (calculateRecoveryWindow_ok n l b2) as (Hr3 & He3 & Hc3 & Hctl3). set (b3 := calculateRecoveryWindow _ _ _) in *.
  clearbody b3. clearbody b2.
  assert (controls b3 = controls b ∧ windows b3 = windows b ∧ (windows_ok b → pending_ok b →
    windows_ok b3 ∧ minCongestionWindow b3 <= recoveryWindow b3)) as (Hc & Hw & Hok).
  { split_and!; [congruence|destruct Hk1; congruence|]. intros Hb Hp. destruct (kept_ok b b1 Hk1 Hb Hp) as [Hb1 Hp1].
    split; [apply (windows_ok_eq b2); auto|]. apply Hr3. unfold pending_ok in *. rewrite Hr2.
    injection He2 as _ -> _ _ _ _. by injection Hctl2 as _ _ _ _ _ _ _ _ ->. }
  clear - Hc Hw Hok. apply (if_ends_bind _ _ (λ _, True)); [done|]. intros lu _. apply (if_ends_bind _ _ (λ _, True)); [done|].
  intros s _. apply if_ends_Ret. case_match; (split_and!; [done|done|]); intros Hb Hp; destruct (Hok Hb Hp); (split; [|done]); by apply (windows_ok_eq b3).
Qed.

Lemma OnCongestionEventEx_ok m r prior t acked lost b :
  if_ends (OnCongestionEventEx m r prior t acked lost b) (λ b',
    (at_rest b → at_rest b' ∧ rtc moves (phase_of b) (phase_of b')) ∧ windows b' = windows b ∧
    (windows_ok b → minCongestionWindow b <= recoveryWindow b → windows_ok b' ∧ minCongestionWindow b' <= recoveryWindow b')).
Proof.
  unfold OnCongestionEventEx. cbv zeta. pose proof (event_begins_ok m prior acked lost b) as H1.
  destruct (event_begins m prior acked lost b) as [b1 rs]. destruct H1 as (Ha1 & Hp1 & Hr1).
  eapply if_ends_bind; [apply event_sample_kept|]. intros [[[b2 es] ex] n] [Hk2 Hc2].
  apply (if_ends_bind _ _ (λ b', kept b2 b' ∧ (at_rest b → at_rest b' ∧ rtc moves (phase_of b) (phase_of b')))).
  - intros b3 E. split; [by eapply event_modes_kept|]. intros Hb.
    assert (phase_of b = phase_of b2) as -> by (rewrite <-Hp1; symmetry; by apply controls_phase).
    eapply event_modes_ok; [|exact E]. apply (at_rest_controls b1); auto.
  - intros b3 [Hk3 Ha3]. eapply if_ends_mono; [apply event_ends_ok|]. intros b4 (Hc4 & Hw4 & Hok). split_and!.
    + intros Hb. destruct (Ha3 Hb). split; [by apply (at_rest_controls b3)|]. by rewrite (controls_phase _ _ Hc4).
    + rewrite Hw4. destruct Hk3 as (-> & _), Hk2 as (-> & _), Hr1 as (-> & _). done.
    + intros Hb Hrec. destruct (recovery_kept_ok b b1 Hr1 Hb Hrec) as [Hb1 Hpd1].
      destruct (kept_ok b1 b2 Hk2 Hb1 Hpd1) as [Hb2 Hpd2]. destruct (kept_ok b2 b3 Hk3 Hb2 Hpd2). by apply Hok.
Qed.
(** ** The size of a packet *)
Lemma scale_packets k old new : 0 <= k <= 2 ^ 20 → 0 < old <= 65535 → 0 < new <= 65535 →
  scaleByteWindowForDatagramSize (k * old) old new = Ret (k * new).
Proof.
  intros Hk Ho Hn. unfold scaleByteWindowForDatagramSize. destruct (Z.eqb_spec old new) as [<-|]; [done|].
  assert (0 <= k * old <= 2 ^ 20 * 65535) by nia. assert (0 <= k * old * new <= 2 ^ 20 * 65535 * 65535) by nia.
 
  rewrite (wrapU_small 64 (k * old)), (wrapU_small 64 new), (wrapU_small 64 old), (wrapU_small 64 (k * old * new)) by lia.
  destruct (Z.eqb_spec old 0); [lia|]. f_equal.
  replace (k * old * new) with (k * new * old) by ring. rewrite Z.div_mul by lia. apply i64_small. unfold MinInt64, MaxInt64. nia.
Qed.

(** The other fields that invariants speak of. *)
Definition rest (b : bbrSender) := (pacer b, sampler b, minRtt b, cycleCurrentOffset b).

Lemma rescalePacketSizedWindows_ok s b : windows_ok b → 0 < s <= 65535 →
  ends_in (rescalePacketSizedWindows s b) (λ b',
    windows b' = (s, 4 * s, 32 * s, MaxCongestionWindowPackets * s, 32 * s, MaxCongestionWindowPackets * s) ∧
    congestionWindow b' = congestionWindow b ∧ recoveryWindow b' = recoveryWindow b ∧ controls b' = controls b ∧ rest b' = rest b).
Proof.
  intros [Hs Hm Hi Hx Hp Ha Hc] Hn. pose proof MaxCongestionWindowPackets_bound as HM. unfold rescalePacketSizedWindows. cbv zeta.
  cbn [set_maxDatagramSize set_initialCongestionWindow set_maxCongestionWindow set_minCongestionWindow set_cwndToCalculateMinPacingRate
    initialCongestionWindow maxCongestionWindow cwndToCalculateMinPacingRate maxCongestionWindowWithNetworkParametersAdjusted].
  rewrite Hi, Hx, Hp, Ha. rewrite (scale_packets 32), (scale_packets MaxCongestionWindowPackets) by lia. cbn [mbind outcome_bind].
  apply ends_Ret. unfold windows, minCongestionWindowForMaxDatagramSize, minCongestionWindowPackets.
  rewrite i64_small by (unfold MinInt64, MaxInt64; lia). done.
Qed.

Lemma SetMaxDatagramSize_ok s b : windows_ok b → maxDatagramSize b <= s <= 65535 →
  ends_in (SetMaxDatagramSize s b) (λ b', windows_ok b' ∧ minCongestionWindow b' <= recoveryWindow b' ∧ maxDatagramSize b' = s ∧
    controls b' = controls b ∧ (sampler b', minRtt b', cycleCurrentOffset b') = (sampler b, minRtt b, cycleCurrentOffset b)).
Proof.
  intros Hb Hs. unfold SetMaxDatagramSize. rewrite (proj2 (Z.ltb_ge s _)) by lia. cbv zeta.
  eapply ends_bind; [apply rescalePacketSizedWindows_ok; [done|destruct Hb; lia]|].
  intros b1 (Hw & Hc & Hr & Hctl & Hrest). apply ends_Ret. destruct Hb as [H1 Hm Hi Hx _ _ _]. pose proof MaxCongestionWindowPackets_bound as HM.
  injection Hw as E1 E2 E3 E4 E5 E6. injection Hrest as _ R1 R2 R3. rewrite Hc, Hm, Hi.
  set (w := if _ =? _ then _ else _).
  assert (4 * s <= w <= MaxCongestionWindowPackets * s) as Hwin by (unfold w; rewrite E2, E3, E4; repeat case_match; nia).
  clearbody w. split_and!; [|cbn; rewrite E2, E4; nia|done|done|cbn; congruence].
  split; cbn; rewrite ?E1, ?E2, ?E3, ?E4, ?E5, ?E6; done || lia.
Qed.

Lemma OnPacketSent_kept m t i pn n r b :
  if_ends (OnPacketSent m t i pn n r b) (λ b', kept b b' ∧ controls b' = controls b).
Proof.
  unfold OnPacketSent. apply (if_ends_bind _ _ (λ _, True)); [done|]. intros bw _. cbv zeta.
  apply (if_ends_bind _ _ (λ _, True)); [done|]. intros s _. apply if_ends_Ret. by case_match.
Qed.

(** ** What holds between events *)
Record sender_ok (b : bbrSender) : Prop := {
  sk_rest : at_rest b;
  sk_windows : windows_ok b;
  sk_recovery : minCongestionWindow b <= recoveryWindow b;
}.

(** Sizes of packets: those of UDP. *)
Definition size_ok (e : Z * event) : Prop := match e.2 with Datagram s => s <= 65535 | _ => True end.

Lemma step_ok b e : sender_ok b → size_ok e →
  if_ends (step b e) (λ b', sender_ok b' ∧ rtc moves (phase_of b) (phase_of b') ∧
    match e.2 with Datagram s => maxDatagramSize b <= s ∧ maxDatagramSize b' = s | _ => maxDatagramSize b' = maxDatagramSize b end).
Proof.
  intros [Ha Hw Hr] He. destruct e as [m [t i pn n rt|r prior t acked lost|s]]; cbn [step snd].
  - eapply if_ends_mono; [apply OnPacketSent_kept|]. intros b' [(Hw' & Hc' & Hr' & Hs') Hctl].
    split; [split; [by eapply at_rest_controls|by eapply windows_ok_eq|]|].
    + injection Hw' as _ -> _ _ _ _. by rewrite Hr'.
    + split; [by rewrite (controls_phase _ _ Hctl)|by injection Hw'].
  - eapply if_ends_mono; [apply OnCongestionEventEx_ok|]. intros b' (Ha' & Hw' & Hok).
    destruct (Ha' Ha) as [Har Hm]. destruct (Hok Hw Hr). split; [by split|]. split; [done|by injection Hw'].
  - unfold if_ends. intros b' E. assert (maxDatagramSize b <= s) as Hle.
    { unfold SetMaxDatagramSize in E. destruct (Z.ltb_spec s (maxDatagramSize b)); [done|lia]. }
    destruct (SetMaxDatagramSize_ok s b Hw) as (b1 & E1 & Hw1 & Hr1 & Hs1 & Hctl & _); [unfold size_ok in He; cbn in He; lia|].
    rewrite E1 in E. injection E as ->. split; [split; [by eapply at_rest_controls|done|done]|].
    split; [by rewrite (controls_phase _ _ Hctl)|done].
Qed.

Lemma applyProfile_kept p b :
  kept b (applyProfile p b) ∧ isAtFullBandwidth (applyProfile p b) = isAtFullBandwidth b ∧
  minRtt (applyProfile p b) = minRtt b ∧ cycleCurrentOffset (applyProfile p b) = cycleCurrentOffset b ∧
  (sampler_ok (sampler b) → sampler_ok (sampler (applyProfile p b))).
Proof.
  unfold applyProfile. cbv zeta. generalize (if bool_decide (p = ""%string) then ProfileStandard else p). intros q.
  case_match; (split_and!; [done..|]); intros [? ? ?]; split; cbn; unfold EnableOverestimateAvoidance; cbn; by repeat case_match.
Qed.

Lemma enterStartupMode_ok b : windows_ok b → minCongestionWindow b <= recoveryWindow b →
  recoveryState b = bbrRecoveryStateNotInRecovery → isAtFullBandwidth b = false →
  sender_ok (enterStartupMode b) ∧ phase_of (enterStartupMode b) = (bbrModeStartup, false).
Proof.
  intros Hw Hr Hs Hf. split; [|unfold phase_of; cbn; by rewrite Hf].
  split; [split; [split; [done|cbn; by rewrite Hs]|done]|by apply (windows_ok_eq b)|done].
Qed.

Lemma new_state_ok b p : windows_ok b → minCongestionWindow b <= recoveryWindow b →
  recoveryState b = bbrRecoveryStateNotInRecovery → isAtFullBandwidth b = false → sampler_ok (sampler b) →
  let b' := enterStartupMode (applyProfile p b) in
  sender_ok b' ∧ maxDatagramSize b' = maxDatagramSize b ∧ phase_of b' = (bbrModeStartup, false) ∧
  minRtt b' = minRtt b ∧ cycleCurrentOffset b' = cycleCurrentOffset b ∧ sampler_ok (sampler b').
Proof.
  intros Hw Hr Hs Hf Hsm. cbn zeta. destruct (applyProfile_kept p b) as ((Hw1 & Hc1 & Hr1 & Hs1) & Hf1 & Hm1 & Ho1 & Hsm1).
  generalize dependent (applyProfile p b). intros b1 Hw1 Hc1 Hr1 Hs1 Hf1 Hm1 Ho1 Hsm1.
  destruct (enterStartupMode_ok b1) as [Hok Hp]; [by apply (windows_ok_eq b)|by injection Hw1 as _ -> _ _ _ _; rewrite Hr1|congruence..|].
  split_and!; [done|by injection Hw1|done|done|done|by apply Hsm1].
Qed.

Lemma NewBbrSender_ok s p : 0 < s <= 65535 →
  let b := NewBbrSender s p in
  sender_ok b ∧ maxDatagramSize b = s ∧ phase_of b = (bbrModeStartup, false) ∧ minRtt b = 0 ∧ cycleCurrentOffset b = 0 ∧ sampler_ok (sampler b).
Proof.
  intros Hs. pose proof MaxCongestionWindowPackets_bound as HM. cbn zeta.
  assert (32 * s <= MaxCongestionWindowPackets * s <= 2 ^ 20 * 65535) as Hb by nia. apply new_state_ok.
  - unfold minCongestionWindowForMaxDatagramSize, initialCongestionWindowPackets, minCongestionWindowPackets.
    split; cbn; rewrite ?i64_small; unfold MinInt64, MaxInt64; lia.
  - unfold minCongestionWindowForMaxDatagramSize, minCongestionWindowPackets. cbn. rewrite !i64_small; unfold MinInt64, MaxInt64; lia.
  - done.
  - done.
  - apply newBandwidthSampler_ok.
Qed.

(** ** No event panics *)
Record safe (b : bbrSender) : Prop := {
  sf_sampler : sampler_ok (sampler b);
  sf_rtt : MinInt64 <= minRtt b <= MaxInt64;
  sf_offset : 0 <= cycleCurrentOffset b < 8;
}.

Definition safe_part (b : bbrSender) := (sampler b, minRtt b, cycleCurrentOffset b).

Lemma safe_eq b b' : safe_part b' = safe_part b → safe b → safe b'.
Proof. intros [= Hs Hr Ho] [? ? ?]. split; by rewrite ?Hs, ?Hr, ?Ho. Qed.

Lemma cycle_gain_ends i : 0 <= i < 8 → ends_in (cycle_gain i) (λ _, True).
Proof.
  intros Hi. unfold cycle_gain. rewrite (proj2 (Z.ltb_ge i 0)) by lia.
  destruct (lookup_lt_is_Some_2 pacingGainCycle (Z.to_nat i)) as [g Hg]; [cbn; lia|]. rewrite Hg. by apply (ends_Ret _ (λ _, True)).
Qed.

Lemma enterProbeBandwidthMode_safe r now b : safe b → 0 <= r → ends_in (enterProbeBandwidthMode r now b) safe.
Proof.
  intros [Hs Hrt Ho] Hr. unfold enterProbeBandwidthMode. cbv zeta.
  set (i := if _ : bool then _ else _). assert (0 <= i < 8) as Hi.
  { unfold i. change (gainCycleLength - 1) with 7. pose proof (Z.rem_bound_pos r 7). case_match; lia. }
  clearbody i. eapply ends_bind; [by apply cycle_gain_ends|]. intros g _. by apply ends_Ret.
Qed.

Lemma updateGainCyclePhase_safe m now prior l b : safe b → ends_in (updateGainCyclePhase m now prior l b) safe.
Proof.
  intros [Hs Hrt Ho]. unfold updateGainCyclePhase. cbv zeta.
  destruct (if ltb (pacingGain b) _ && _ then _ else _); [|by apply ends_Ret].
  change gainCycleLength with 8. pose proof (Z.rem_bound_pos (cycleCurrentOffset b + 1) 8).
  eapply ends_bind; [apply cycle_gain_ends; cbn; lia|]. intros g _. case_match; apply ends_Ret; split; cbn; done || lia.
Qed.

Lemma checkIfFullBandwidthReached_safe s b : safe b → safe (checkIfFullBandwidthReached s b).
Proof.
  intros Hb. unfold checkIfFullBandwidthReached. cbv zeta. cases; try (by apply (safe_eq b)).
  destruct Hb as [[? ? ?] ? ?]. by split.
Qed.

Lemma maybeExitStartupOrDrain_safe m r now b : safe b → 0 <= r → ends_in (maybeExitStartupOrDrain m r now b) safe.
Proof.
  intros Hb Hr. unfold maybeExitStartupOrDrain. cbv zeta. set (b1 := if _ && _ then _ else b).
  assert (safe b1) as Hb1 by (unfold b1; case_match; [by apply (safe_eq b)|done]). clearbody b1.
  case_match; [by apply enterProbeBandwidthMode_safe|by apply ends_Ret].
Qed.

Lemma maybeEnterOrExitProbeRtt_safe r now rs ex b : safe b → 0 <= r → ends_in (maybeEnterOrExitProbeRtt r now rs ex b) safe.
Proof.
  intros Hb Hr. unfold maybeEnterOrExitProbeRtt. cbv zeta. set (b1 := if ex && _ && _ then _ else b).
  assert (safe b1) as Hb1 by (unfold b1; case_match; [by apply (safe_eq b)|done]). clearbody b1.
  apply (ends_bind _ _ safe); [|intros b2 Hb2; apply ends_Ret; by apply (safe_eq b2)].
  case_match; [|by apply ends_Ret].
  assert (safe (set_sampler (OnAppLimited (sampler b1)) b1)) as Hb2 by (destruct Hb1 as [[? ? ?] ? ?]; by split).
  generalize dependent (set_sampler (OnAppLimited (sampler b1)) b1). intros b2 Hb2.
  case_match; [apply ends_Ret; case_match; [by apply (safe_eq b2)|done]|].
  set (b3 := if rs then _ else b2). assert (safe b3) as Hb3 by (unfold b3; case_match; [by apply (safe_eq b2)|done]). clearbody b3.
  assert (safe (set_minRttTimestamp now b3)) as Hb4 by by apply (safe_eq b3).
  case_match; [|by apply ends_Ret]. case_match; [apply ends_Ret; by apply (safe_eq b3)|by apply enterProbeBandwidthMode_safe].
Qed.
Lemma event_modes_safe m r t prior lost rs ex s b : safe b → 0 <= r → ends_in (event_modes m r t prior lost rs ex s b) safe.
Proof.
  intros Hb Hr. unfold event_modes. apply (ends_bind _ _ safe).
  { case_match; [by apply updateGainCyclePhase_safe|by apply ends_Ret]. }
  intros b1 Hb1. cbv zeta. set (b2 := if _ && _ then _ else b1).
  assert (safe b2) as Hb2 by (unfold b2; case_match; [by apply checkIfFullBandwidthReached_safe|done]). clearbody b2.
  eapply ends_bind; [by apply maybeExitStartupOrDrain_safe|]. intros b3 Hb3. by apply maybeEnterOrExitProbeRtt_safe.
Qed.

Lemma event_begins_safe m prior acked lost b : safe b → safe (event_begins m prior acked lost b).1.
Proof.
  intros Hb. unfold event_begins. cbv zeta. set (b1 := set_bytesInFlight _ _).
  assert (safe b1) as Hb1 by (unfold b1, maybeAppLimited; destruct Hb as [[? ? ?] ? ?]; case_match; by split). clearbody b1.
  destruct (last acked) as [[pn n]|]; [|done]. unfold updateRoundTripCounter.
  set (p := if _ || _ then _ else _).
  assert (safe p.1) as Hp by (unfold p; case_match; [by apply (safe_eq b1)|done]). clearbody p. destruct p as [b2 rs]. cbn [fst] in *.
  set (l := negb _). clearbody l. apply (safe_eq b2); [|done]. unfold updateRecoveryState. cbv zeta.
  destruct (negb _); [done|]. destruct l, rs; cbn; destruct (recoveryState b2); cases; done.
Qed.

Definition packets_valid (l : list (Z * Z)) : Prop := Forall (λ p, packet_ok p.1) l.

Lemma event_sample_safe t a l acked lost b : safe b → packets_valid acked → packets_valid lost →
  ends_in (event_sample t a l acked lost b) (λ '(b, _, _, _), safe b).
Proof.
  intros [Hs Hr Ho] Ha Hl. unfold event_sample. eapply ends_bind; [by apply Sampler_OnCongestionEvent_ok|].
  intros [s es] [Hs' Hes]. cbv zeta. assert (safe (set_sampler s b)) as H0 by by split.
  set (b1 := if isValid _ then _ else _). assert (safe b1) as H1 by (unfold b1; case_match; [by eapply safe_eq|done]). clearbody b1.
  set (b2 := if negb _ && _ then _ else _). assert (safe b2) as H2 by (unfold b2; case_match; [by apply (safe_eq b1)|done]). clearbody b2.
  unfold maybeUpdateMinRtt. destruct (negb (sampleRtt es =? infRTT)).
  - set (b3 := if _ || _ then _ else b2). assert (safe b3) as H3 by (unfold b3; case_match; [by destruct H2|done]). clearbody b3.
    apply ends_Ret. case_match; [by apply (safe_eq b3)|done].
  - apply ends_Ret. case_match; [by apply (safe_eq b2)|done].
Qed.

Lemma calculatePacingRate_safe m n b : safe b → 0 < m <= MaxInt64 → ends_in (calculatePacingRate m n b) safe.
Proof.
  intros Hb Hm. assert (MinInt64 <= m <= MaxInt64) as Hm' by (unfold MinInt64 in *; lia).
  unfold calculatePacingRate. cbv zeta. case_match; [by apply ends_Ret|]. case_match; [apply ends_Ret; by apply (safe_eq b)|].
  case_match; [apply BandwidthFromDelta_bind; [lia|done|]; intros r; apply ends_Ret; by apply (safe_eq b)|].
  apply (ends_bind _ _ safe); [|intros b1 Hb1; apply ends_Ret; by apply (safe_eq b1)].
  destruct (detectOvershooting b); [|by apply ends_Ret].
  assert (safe (set_bytesLostWhileDetectingOvershooting (i64 (bytesLostWhileDetectingOvershooting b + n)) b)) as Hb1 by by apply (safe_eq b).
  destruct (_ && _ && _); [|by apply ends_Ret].
  apply BandwidthFromDelta_bind; [lia|done|]. intros r. apply ends_Ret. by apply (safe_eq b).
Qed.

Lemma event_ends_safe m a l e acked lost rs b : safe b → 0 < m <= MaxInt64 → acked ++ lost ≠ [] →
  ends_in (event_ends m a l e acked lost rs b) safe.
Proof.
  intros Hb Hm Hne. unfold event_ends. cbv zeta. eapply ends_bind; [by apply calculatePacingRate_safe|]. intros b1 Hb1.
  set (n := i64 (totalBytesAcked (sampler b) - a)). clearbody n.
  assert (safe (calculateRecoveryWindow n l (calculateCongestionWindow m n e b1))) as H1.
  { apply (safe_eq b1); [|done]. unfold calculateRecoveryWindow, calculateCongestionWindow. cbv zeta. by repeat case_match. }
  generalize dependent (calculateRecoveryWindow n l (calculateCongestionWindow m n e b1)). intros b2 H2.
  apply (ends_bind _ _ (λ _, True)).
  { destruct (last acked) as [[pn ?]|] eqn:Ea; [by apply (ends_Ret _ (λ _, True))|].
    destruct (last lost) as [[pn ?]|] eqn:El; [by apply (ends_Ret _ (λ _, True))|].
    apply last_None in Ea, El. by subst. }
  intros lu _. eapply ends_bind; [apply RemoveObsoletePackets_ok, H2|]. intros s Hs. apply ends_Ret.
  destruct H2. by case_match.
Qed.

(** ** The pacer's rate *)
Lemma getMinRtt_spec m b : MinInt64 <= minRtt b <= MaxInt64 → 0 <= m <= MaxInt64 →
  MinInt64 <= getMinRtt m b <= MaxInt64 ∧ (0 < getMinRtt m b ∨ getMinRtt m b < 0).
Proof.
  intros Hb Hm. unfold getMinRtt. destruct (Z.eqb_spec (minRtt b) 0); cbn [negb]; [|split; [done|lia]].
  destruct (Z.eqb_spec m 0); unfold MinInt64, MaxInt64, Millisecond in *; lia.
Qed.

Lemma bandwidthForPacer_ends m b : safe b → 0 <= m <= MaxInt64 →
  ends_in (bandwidthForPacer m b) (λ bw, minBps <= bw <= MaxInt64).
Proof.
  intros [_ Hr _] Hm. destruct (getMinRtt_spec m b Hr Hm) as [Hb Hd]. unfold bandwidthForPacer, PacingRate.
  apply (ends_bind _ _ (λ _, True)).
  - case_match; [|by apply (ends_Ret _ (λ _, True))]. apply BandwidthFromDelta_bind; [done..|]. intros r. by apply (ends_Ret _ (λ _, True)).
  - intros rate _. apply ends_Ret. cbv zeta. set (bps := toInt64 _).
    assert (bps <= MaxInt64) as Hle.
    { unfold bps, toInt64. case_match; [lia|]. apply out_of_range_int64. }
    clearbody bps. unfold minBps, MaxInt64 in *. case_match; lia.
Qed.

Lemma OnPacketSent_safe m t i pn n r b : safe b → 0 <= m <= MaxInt64 → time_ok t → packet_ok pn →
  ends_in (OnPacketSent m t i pn n r b) safe.
Proof.
  intros Hb Hm Ht Hpn. unfold OnPacketSent. eapply ends_bind; [by apply bandwidthForPacer_ends|]. intros bw _. cbv zeta.
  set (b1 := if i =? 0 then _ else _).
  assert (safe b1) as Hb1 by (unfold b1; case_match; by apply (safe_eq b)). clearbody b1.
  eapply ends_bind; [apply Sampler_OnPacketSent_ok; [apply Hb1|done|done]|]. intros s Hs. apply ends_Ret. by destruct Hb1.
Qed.

(** What quic-go hands over: instants, packet numbers, a smallest round trip as
    soon as a packet has been acknowledged, an event for at least one packet, and
    datagram sizes that do not decrease. *)
Definition event_ok (size : Z) (e : Z * event) : Prop :=
  match e with
  | (m, Sent t _ pn _ _) => 0 <= m <= MaxInt64 ∧ time_ok t ∧ packet_ok pn
  | (m, Acks r _ t acked lost) =>
      0 < m <= MaxInt64 ∧ 0 <= r < PacketsPerConnectionID ∧ time_ok t ∧ packets_valid acked ∧ packets_valid lost ∧ acked ++ lost ≠ []
  | (_, Datagram s) => size <= s <= 65535
  end.

Fixpoint events_ok (size : Z) (es : list (Z * event)) : Prop :=
  match es with
  | [] => True
  | e :: es => event_ok size e ∧ events_ok (match e.2 with Datagram s => s | _ => size end) es
  end.

Lemma step_safe b e : safe b → windows_ok b → event_ok (maxDatagramSize b) e → ends_in (step b e) safe.
Proof.
  intros Hb Hw He. destruct e as [m [t i pn n rt|r prior t acked lost|s]]; cbn [step event_ok] in *.
  - destruct He as (? & ? & ?). by apply OnPacketSent_safe.
  - destruct He as (Hm & Hr & _ & Ha & Hl & Hne). unfold OnCongestionEventEx. cbv zeta.
    pose proof (event_begins_safe m prior acked lost b Hb) as H1. destruct (event_begins m prior acked lost b) as [b1 rs]. cbn [fst] in H1.
    eapply ends_bind; [by apply event_sample_safe|]. intros [[[b2 es] ex] n] H2.
    eapply ends_bind; [apply event_modes_safe; [done|lia]|]. intros b3 H3. by apply event_ends_safe.
  - eapply ends_mono; [by apply SetMaxDatagramSize_ok|]. intros b' (_ & _ & _ & _ & E). by apply (safe_eq b).
Qed.

Lemma event_ok_size size e : event_ok size e → size_ok e.
Proof. destruct e as [m []]; cbn; unfold size_ok; cbn; lia || done. Qed.

Lemma steps_safe es : ∀ b, safe b → sender_ok b → events_ok (maxDatagramSize b) es →
  ends_in (steps b es) (λ b', safe b' ∧ sender_ok b').
Proof.
  induction es as [|e es IH]; intros b Hb Hs Hes; cbn [steps]; [by apply ends_Ret|]. destruct Hes as [He Hes].
  eapply ends_bind; [apply ends_and; [apply step_safe; [done|apply Hs|done]|apply step_ok; [done|by eapply event_ok_size]]|].
  intros b1 (Hb1 & Hs1 & _ & Hm). apply IH; [done|done|].
  replace (maxDatagramSize b1) with (match e.2 with Datagram s => s | _ => maxDatagramSize b end); [done|].
  destruct e as [m []]; cbn [snd] in *; lia.
Qed.

Lemma steps_ok es : ∀ b, sender_ok b → Forall size_ok es →
  if_ends (steps b es) (λ b', sender_ok b' ∧ maxDatagramSize b <= maxDatagramSize b').
Proof.
  induction es as [|e es IH]; intros b Hs Hes; cbn [steps]; [by apply if_ends_Ret|]. apply Forall_cons in Hes as [He Hes].
  eapply if_ends_bind; [by apply step_ok|]. intros b1 (Hs1 & _ & Hm).
  eapply if_ends_mono; [by apply IH|]. intros b2 [Hs2 Hle]. split; [done|]. destruct (e.2); lia.
Qed.

Lemma moves_full_kept p q : rtc moves p q → p.2 = true → q.2 = true ∧ (p.1 ≠ bbrModeStartup → q.1 ≠ bbrModeStartup).
Proof.
  induction 1 as [p|p q r Hpq _ IH]; [done|]. intros Hp. assert (q.2 = true ∧ (p.1 ≠ bbrModeStartup → q.1 ≠ bbrModeStartup)) as [Hq Hs].
  { destruct Hpq; cbn in *; done. }
  destruct (IH Hq). auto.
Qed.
End Facts.

(** ** Properties *)
Section Properties.
Context {QC : QuicCongestion} {QB : QuicBbr} {FI : FloatToInt} {FU : FloatToUint}.

(** C33: The sender never panics and never stalls.  Whatever the profile and
    whatever packets quic-go sends, acknowledges and loses, the run of events
    returns; after it the rate given to the pacer is at least 64 KB/s, so that
    the time of the next packet is computed without a division by zero. *)
Theorem bbr_never_panics (size : Z) (profile : Profile) (es : list (Z * event)) (MinRTT now : Z) :
  0 < size <= 65535 → events_ok size es → 0 <= MinRTT <= MaxInt64 →
  ∃ b bw, steps (NewBbrSender size profile) es = Ret b ∧
    bandwidthForPacer MinRTT b = Ret bw ∧ minBps <= bw ∧
    returns (TimeUntilSend MinRTT b) ∧ returns (HasPacingBudget MinRTT now b).
Proof.
  intros Hs Hes Hm. destruct (NewBbrSender_ok size profile Hs) as (Hok & Hsize & _ & Hr & Ho & Hsm).
  destruct (steps_safe es (NewBbrSender size profile)) as (b & E & Hb & _); [|done|by rewrite Hsize|].
  { split; [done|rewrite Hr; unfold MinInt64, MaxInt64; lia|lia]. }
  destruct (bandwidthForPacer_ends MinRTT b Hb Hm) as (bw & Ebw & Hbw). exists b, bw.
  unfold TimeUntilSend, HasPacingBudget. rewrite Ebw. cbn [mbind outcome_bind]. split_and!; [done|done|lia| |by eexists].
  unfold Pacer.TimeUntilSend. case_match; [by eexists|]. cbv zeta.
  rewrite (wrapU_small 64 bw) by (unfold minBps, MaxInt64 in *; lia).
  destruct (Z.eqb_spec bw 0); [unfold minBps in *; lia|by eexists].
Qed.

(** C35: The windows keep their limits.  After any events whatsoever, as long as
    datagram sizes are UDP's, the limits are 4, 32 and the maximal number of
    packets of the current size, the congestion window is between the least and
    the largest, and so is the window that counts, of the recovery and of
    PROBE_RTT included: with less than four packets in flight, one more can
    always be sent. *)
Theorem bbr_windows (size : Z) (profile : Profile) (es : list (Z * event)) b :
  0 < size <= 65535 → Forall size_ok es → steps (NewBbrSender size profile) es = Ret b →
  let s := maxDatagramSize b in
  size <= s <= 65535 ∧ minCongestionWindow b = 4 * s ∧ initialCongestionWindow b = 32 * s ∧
  maxCongestionWindow b = MaxCongestionWindowPackets * s ∧
  4 * s <= congestionWindow b <= MaxCongestionWindowPackets * s ∧
  4 * s <= GetCongestionWindow b <= MaxCongestionWindowPackets * s ∧
  ∀ inFlight, inFlight < 4 * s → CanSend inFlight b = true.
Proof.
  intros Hs Hes E. destruct (NewBbrSender_ok size profile Hs) as (Hok & Hsize & _).
  destruct (steps_ok es _ Hok Hes b E) as [[_ [Hsz Hm Hi Hx _ _ Hw] Hr] Hle]. rewrite Hsize in Hle. cbv zeta.
  pose proof MaxCongestionWindowPackets_bound as HM.
  assert (4 * maxDatagramSize b <= GetCongestionWindow b <= MaxCongestionWindowPackets * maxDatagramSize b) as Hg.
  { unfold GetCongestionWindow, probeRttCongestionWindow. repeat case_match; nia. }
  split_and!; try done; try lia. intros n Hn. apply Z.ltb_lt. lia.
Qed.

(** C34: The sender follows BBR's state machine.  Every event takes it along the
    allowed moves: STARTUP is left for DRAIN when full bandwidth is reached,
    DRAIN for PROBE_BW, and any mode for PROBE_RTT, which goes back to STARTUP
    or on to PROBE_BW as full bandwidth has been reached or not.  Between events
    the gains are those of the mode, STARTUP means that full bandwidth is not
    reached, and recovery that it is; once reached it stays so, and STARTUP is
    over for good outside PROBE_RTT. *)
Theorem bbr_state_machine (size : Z) (profile : Profile) (es : list (Z * event)) e b b' :
  0 < size <= 65535 → Forall size_ok (es ++ [e]) →
  steps (NewBbrSender size profile) es = Ret b → step b e = Ret b' →
  rtc moves (bbrModeStartup, false) (phase_of b) ∧ rtc moves (phase_of b) (phase_of b') ∧ at_rest b' ∧
  (isAtFullBandwidth b = true → isAtFullBandwidth b' = true ∧ mode b' ≠ bbrModeStartup).
Proof.
  intros Hs [Hes He]%Forall_app E1 E2. rewrite Forall_singleton in He.
  destruct (NewBbrSender_ok size profile Hs) as (Hok & _ & Hp & _).
  destruct (steps_ok es _ Hok Hes b E1) as [Hb _]. destruct (step_ok b e Hb He b' E2) as (Hb' & Hm & _). split_and!.
  - rewrite <-Hp. clear e He b' E2 Hb Hb' Hm Hp Hs. revert Hok E1. generalize (NewBbrSender size profile).
    induction Hes as [|e es He Hes IH]; cbn [steps]; intros b0 Hok; [by intros [= <-]|].
    intros (b1 & E & Hst)%outcome_bind_inv. destruct (step_ok b0 e Hok He b1 E) as (H1 & Hm & _). etrans; [exact Hm|]. by apply IH.
  - done.
  - apply Hb'.
  - intros Hf. destruct (moves_full_kept _ _ Hm Hf) as [Hf' _]. cbn in Hf'. split; [done|].
    intros Hst. destruct Hb' as [[_ Hr] _ _]. rewrite (Hr Hst) in Hf'. done.
Qed.
End Properties.

(** ** Concrete runs *)
#[local] Program Instance amd64 : FloatToInt := {| out_of_range _ := MinInt64 |}.
Next Obligation. done. Qed.
#[local] Program Instance amd64_unsigned : FloatToUint := {| out_of_range_u _ := 2 ^ 63 |}.
Next Obligation. done. Qed.
#[local] Existing Instance quic_go.
#[local] Existing Instance quic_go_bbr.

(** Two packets acknowledged, a third lost, larger datagrams. *)
Definition some_events : list (Z * event) :=
  [(0, Sent 1000000 0 0 1200 true); (0, Sent 2000000 1200 1 1200 true);
   (50000000, Acks 7 2400 51000000 [(0, 1200); (1, 1200)] []);
   (50000000, Sent 52000000 0 2 1200 true); (50000000, Sent 53000000 1200 3 1200 true);
   (50000000, Acks 7 2400 104000000 [(3, 1200)] [(2, 1200)]); (50000000, Datagram 1400)].

Lemma bbr_never_panics_witness :
  ∃ b bw, steps (NewBbrSender 1200 ProfileConservative) some_events = Ret b ∧
    bandwidthForPacer 50000000 b = Ret bw ∧ minBps <= bw ∧
    returns (TimeUntilSend 50000000 b) ∧ returns (HasPacingBudget 50000000 105000000 b).
Proof.
  apply (bbr_never_panics 1200 ProfileConservative some_events 50000000 105000000).
  - lia.
  - cbn [some_events events_ok event_ok snd]. unfold time_ok, packet_ok, packets_valid, packet_ok, MaxInt64.
    change (PacketsPerConnectionID) with 10000. cbn [app].
    repeat split; try lia; try discriminate; repeat (apply List.Forall_cons; [cbn; lia|]); apply List.Forall_nil.
  - unfold MaxInt64. lia.
Defined.

Lemma some_sizes : Forall size_ok some_events.
Proof. repeat (apply List.Forall_cons; [cbn; done || lia|]). apply List.Forall_nil. Qed.

Lemma bbr_windows_witness :
  match steps (NewBbrSender 1200 ProfileStandard) some_events with
  | Ret b => maxDatagramSize b = 1400 ∧ 5600 <= GetCongestionWindow b <= 14000000 ∧ CanSend 5599 b = true
  | Panic => False
  end.
Proof.
  assert (match steps (NewBbrSender 1200 ProfileStandard) some_events with Ret b => maxDatagramSize b | Panic => 0 end = 1400) as Hs
    by (vm_compute; reflexivity).
  destruct (steps (NewBbrSender 1200 ProfileStandard) some_events) as [b|] eqn:E; [|discriminate Hs].
  pose proof (bbr_windows 1200 ProfileStandard some_events b ltac:(lia) some_sizes E) as (_ & _ & _ & _ & _ & Hg & Hc).
  rewrite Hs in Hg, Hc. change MaxCongestionWindowPackets with 10000 in Hg.
  split; [done|]. split; [lia|]. apply Hc. lia.
Defined.

(** With no growth in eight rounds, STARTUP and DRAIN are over in one event. *)
Definition a_round (n : Z) : list (Z * event) :=
  [(50000000, Sent (n * 50000000 + 1000000) 48800 n 1200 true);
   (50000000, Acks 7 50000 (n * 50000000 + 50000000) [(n, 1200)] [])].

Definition eight_rounds : list (Z * event) := List.concat (a_round <$> [1; 2; 3; 4; 5; 6; 7; 8]).

Definition next_event : Z * event := (50000000, Acks 7 50000 500000000 [(9, 1200)] []).

Lemma bbr_state_machine_witness :
  match steps (NewBbrSender 1200 ProfileStandard) eight_rounds with
  | Ret b => match step b next_event with
             | Ret b' => rtc moves (bbrModeStartup, false) (phase_of b) ∧ rtc moves (phase_of b) (phase_of b') ∧ at_rest b'
             | Panic => False
             end
  | Panic => False
  end.
Proof.
  assert (match steps (NewBbrSender 1200 ProfileStandard) eight_rounds with
          | Ret b => match step b next_event with Ret _ => true | Panic => false end
          | Panic => false
          end = true) as Hret by (vm_compute; reflexivity).
  destruct (steps (NewBbrSender 1200 ProfileStandard) eight_rounds) as [b|] eqn:E1; [|discriminate Hret].
  destruct (step b next_event) as [b'|] eqn:E2; [|discriminate Hret].
  assert (Forall size_ok (eight_rounds ++ [next_event])) as Hs by (repeat (apply List.Forall_cons; [done|]); apply List.Forall_nil).
  destruct (bbr_state_machine 1200 ProfileStandard eight_rounds next_event b b' ltac:(lia) Hs E1 E2) as (H1 & H2 & H3 & _).
  split; [exact H1|]. split; [exact H2|exact H3].
Defined.
