(* ===== verification/Config.v ===== *)
(** * Configuration of the two ends
    (core/client/config.go, core/server/config.go, core/internal/congestion/utils.go)

    [verifyAndFill] and [fill] put defaults for what is unset and refuse what
    is out of range, in the order of the source; a configuration refused half
    way keeps the defaults filled so far.  Interface-typed fields are options
    over handles, nil being [None].  Fields the functions pass through (TLS,
    loggers, the masquerade) are left out. *)
From S2P Require Import GoStd Utf8 Prelude Netip BbrState Bbr.

(** ** Congestion control names *)
Definition TypeBBR : string := "bbr".
Definition TypeReno : string := "reno".

Definition NormalizeType `{UnicodeTables} (congestionType : string) : result string string :=
  let normalized := ToLower congestionType in
  if bool_decide (normalized = ""%string) || bool_decide (normalized = TypeBBR) then Ok TypeBBR
  else if bool_decide (normalized = TypeReno) then Ok TypeReno
  else Err congestionType.

Definition NormalizeBBRProfile `{UnicodeTables} (profile : string) : result string string :=
  match ParseProfile profile with Err e => Err e | Ok normalized => Ok normalized end.

(** ** Errors (core/errors/errors.go)

    The reason of a refused name quotes it; the text around it is fmt's. *)
Inductive reason : Type := Text (s : string) | Unsupported (value : string).
Record ConfigError := mkConfigError { Field : string; Reason : reason }.

(** ** Checks in sequence *)
Fixpoint run_checks {C} (fs : list (C → C * option ConfigError)) (c : C) : C * option ConfigError :=
  match fs with
  | [] => (c, None)
  | f :: fs => match f c with (c, None) => run_checks fs c | (c, Some e) => (c, Some e) end
  end.

(** [if x == 0 { x = default } else if !ok(x) { return error }]. *)
Definition fill_number {C} (field text : string) (dflt : Z) (ok : Z → bool) (get : C → Z) (set : Z → C → C)
    (c : C) : C * option ConfigError :=
  if get c =? 0 then (set dflt c, None)
  else if ok (get c) then (c, None) else (c, Some (mkConfigError field (Text text))).

(** [if !ok { return error }]. *)
Definition must {C} (field text : string) (ok : C → bool) (c : C) : C * option ConfigError :=
  if ok c then (c, None) else (c, Some (mkConfigError field (Text text))).

(** An assignment that cannot fail. *)
Definition assign {C} (f : C → C) (c : C) : C * option ConfigError := (f c, None).

Definition defaultStreamReceiveWindow : Z := 8388608.
Definition defaultConnReceiveWindow : Z := quot (defaultStreamReceiveWindow * 5) 2.
Definition defaultMaxIdleTimeout : Z := 30 * Second.
Definition defaultKeepAlivePeriod : Z := 10 * Second.
Definition defaultMaxIncomingStreams : Z := 1024.
Definition defaultUDPIdleTimeout : Z := 60 * Second.

Definition window_ok (v : Z) : bool := 16384 <=? v.
Definition between (lo hi v : Z) : bool := (lo <=? v) && (v <=? hi).

Record CongestionConfig := mkCongestion { Type_ : string; BBRProfile : string }.
Record BandwidthConfig := mkBandwidth { MaxTx : Z; MaxRx : Z; DisableLossCompensation : bool }. (* uint64 *)

Definition normalize_congestion `{UnicodeTables} (c : CongestionConfig) : CongestionConfig * option ConfigError :=
  match NormalizeType (Type_ c) with
  | Err v => (mkCongestion "" (BBRProfile c), Some (mkConfigError "CongestionConfig.Type" (Unsupported v)))
  | Ok t =>
      if bool_decide (t = TypeBBR) then
        match NormalizeBBRProfile (BBRProfile c) with
        | Err v => (mkCongestion t "", Some (mkConfigError "CongestionConfig.BBRProfile" (Unsupported v)))
        | Ok p => (mkCongestion t p, None)
        end
      else (mkCongestion t (BBRProfile c), None)
  end.

Module Client.
Record QUICConfig := mkQUICConfig {
  InitialStreamReceiveWindow : Z;
  MaxStreamReceiveWindow : Z;
  InitialConnectionReceiveWindow : Z;
  MaxConnectionReceiveWindow : Z;
  MaxIdleTimeout : Z;
  KeepAlivePeriod : Z;
  DisablePathMTUDiscovery : bool;
  DisableGSO : bool;
  DisableChromeParrot : bool;
}.

Definition set_InitialStreamReceiveWindow (v : Z) (q : QUICConfig) : QUICConfig :=
  mkQUICConfig v (MaxStreamReceiveWindow q) (InitialConnectionReceiveWindow q)
    (MaxConnectionReceiveWindow q) (MaxIdleTimeout q) (KeepAlivePeriod q) (DisablePathMTUDiscovery q)
    (DisableGSO q) (DisableChromeParrot q).
Definition set_MaxStreamReceiveWindow (v : Z) (q : QUICConfig) : QUICConfig :=
  mkQUICConfig (InitialStreamReceiveWindow q) v (InitialConnectionReceiveWindow q)
    (MaxConnectionReceiveWindow q) (MaxIdleTimeout q) (KeepAlivePeriod q) (DisablePathMTUDiscovery q)
    (DisableGSO q) (DisableChromeParrot q).
Definition set_InitialConnectionReceiveWindow (v : Z) (q : QUICConfig) : QUICConfig :=
  mkQUICConfig (InitialStreamReceiveWindow q) (MaxStreamReceiveWindow q) v
    (MaxConnectionReceiveWindow q) (MaxIdleTimeout q) (KeepAlivePeriod q) (DisablePathMTUDiscovery q)
    (DisableGSO q) (DisableChromeParrot q).
Definition set_MaxConnectionReceiveWindow (v : Z) (q : QUICConfig) : QUICConfig :=
  mkQUICConfig (InitialStreamReceiveWindow q) (MaxStreamReceiveWindow q)
    (InitialConnectionReceiveWindow q) v (MaxIdleTimeout q) (KeepAlivePeriod q)
    (DisablePathMTUDiscovery q) (DisableGSO q) (DisableChromeParrot q).
Definition set_MaxIdleTimeout (v : Z) (q : QUICConfig) : QUICConfig :=
  mkQUICConfig (InitialStreamReceiveWindow q) (MaxStreamReceiveWindow q)
    (InitialConnectionReceiveWindow q) (MaxConnectionReceiveWindow q) v (KeepAlivePeriod q)
    (DisablePathMTUDiscovery q) (DisableGSO q) (DisableChromeParrot q).
Definition set_KeepAlivePeriod (v : Z) (q : QUICConfig) : QUICConfig :=
  mkQUICConfig (InitialStreamReceiveWindow q) (MaxStreamReceiveWindow q)
    (InitialConnectionReceiveWindow q) (MaxConnectionReceiveWindow q) (MaxIdleTimeout q) v
    (DisablePathMTUDiscovery q) (DisableGSO q) (DisableChromeParrot q).
Definition set_DisablePathMTUDiscovery (v : bool) (q : QUICConfig) : QUICConfig :=
  mkQUICConfig (InitialStreamReceiveWindow q) (MaxStreamReceiveWindow q)
    (InitialConnectionReceiveWindow q) (MaxConnectionReceiveWindow q) (MaxIdleTimeout q)
    (KeepAlivePeriod q) v (DisableGSO q) (DisableChromeParrot q).

(** [ConnFactory]: the program's own, or a caller's. *)
Inductive ConnFactory := udpConnFactory | CustomFactory (h : nat).

Record Config := mkConfig {
  ConnFactory_ : option ConnFactory;
  ServerAddr : option net_Addr;
  Auth : string;
  QUIC : QUICConfig;
  Congestion : CongestionConfig;
  Bandwidth : BandwidthConfig;
  FastOpen : bool;
  PaddingSeed : bytes;
  StatsSet : bool;
  filled : bool;
}.

Definition set_ConnFactory (v : option ConnFactory) (c : Config) : Config :=
  mkConfig v (ServerAddr c) (Auth c) (QUIC c) (Congestion c) (Bandwidth c) (FastOpen c) (PaddingSeed c) (StatsSet c) (filled c).
Definition set_QUIC (v : QUICConfig) (c : Config) : Config :=
  mkConfig (ConnFactory_ c) (ServerAddr c) (Auth c) v (Congestion c) (Bandwidth c) (FastOpen c) (PaddingSeed c) (StatsSet c) (filled c).
Definition set_Congestion (v : CongestionConfig) (c : Config) : Config :=
  mkConfig (ConnFactory_ c) (ServerAddr c) (Auth c) (QUIC c) v (Bandwidth c) (FastOpen c) (PaddingSeed c) (StatsSet c) (filled c).
Definition set_done (c : Config) : Config :=
  mkConfig (ConnFactory_ c) (ServerAddr c) (Auth c) (QUIC c) (Congestion c) (Bandwidth c) (FastOpen c) (PaddingSeed c) true true.

Section Fill.
Context `{UnicodeTables} (pmtud_DisablePathMTUDiscovery : bool).

(** A field of [c.QUICConfig]. *)
Definition quic_number (field text : string) (dflt : Z) (ok : Z → bool) (get : QUICConfig → Z)
    (set : Z → QUICConfig → QUICConfig) : Config → Config * option ConfigError :=
  fill_number field text dflt ok (λ c, get (QUIC c)) (λ v c, set_QUIC (set v (QUIC c)) c).

Definition checks : list (Config → Config * option ConfigError) :=
  [ assign (λ c, set_ConnFactory (Some (default udpConnFactory (ConnFactory_ c))) c);
    must "ServerAddr" "must be set" (λ c, bool_decide (is_Some (ServerAddr c)));
    quic_number "QUICConfig.InitialStreamReceiveWindow" "must be at least 16384"
      defaultStreamReceiveWindow window_ok InitialStreamReceiveWindow set_InitialStreamReceiveWindow;
    quic_number "QUICConfig.MaxStreamReceiveWindow" "must be at least 16384"
      defaultStreamReceiveWindow window_ok MaxStreamReceiveWindow set_MaxStreamReceiveWindow;
    quic_number "QUICConfig.InitialConnectionReceiveWindow" "must be at least 16384"
      defaultConnReceiveWindow window_ok InitialConnectionReceiveWindow set_InitialConnectionReceiveWindow;
    quic_number "QUICConfig.MaxConnectionReceiveWindow" "must be at least 16384"
      defaultConnReceiveWindow window_ok MaxConnectionReceiveWindow set_MaxConnectionReceiveWindow;
    quic_number "QUICConfig.MaxIdleTimeout" "must be between 4s and 120s"
      defaultMaxIdleTimeout (between (4 * Second) (120 * Second)) MaxIdleTimeout set_MaxIdleTimeout;
    quic_number "QUICConfig.KeepAlivePeriod" "must be between 2s and 60s"
      defaultKeepAlivePeriod (between (2 * Second) (60 * Second)) KeepAlivePeriod set_KeepAlivePeriod;
    assign (λ c, set_QUIC (set_DisablePathMTUDiscovery
      (DisablePathMTUDiscovery (QUIC c) || pmtud_DisablePathMTUDiscovery) (QUIC c)) c);
    (λ c, let '(g, e) := normalize_congestion (Congestion c) in (set_Congestion g c, e)) ].

Definition verifyAndFill (c : Config) : Config * option ConfigError :=
  if filled c then (c, None)
  else match run_checks checks c with (c, None) => (set_done c, None) | r => r end.
End Fill.
End Client.

Module Server.
Record QUICConfig := mkQUICConfig {
  InitialStreamReceiveWindow : Z;
  MaxStreamReceiveWindow : Z;
  InitialConnectionReceiveWindow : Z;
  MaxConnectionReceiveWindow : Z;
  MaxIdleTimeout : Z;
  MaxIncomingStreams : Z;
  DisablePathMTUDiscovery : bool;
  DisableGSO : bool;
}.

Definition set_InitialStreamReceiveWindow (v : Z) (q : QUICConfig) : QUICConfig :=
  mkQUICConfig v (MaxStreamReceiveWindow q) (InitialConnectionReceiveWindow q)
    (MaxConnectionReceiveWindow q) (MaxIdleTimeout q) (MaxIncomingStreams q) (DisablePathMTUDiscovery q)
    (DisableGSO q).
Definition set_MaxStreamReceiveWindow (v : Z) (q : QUICConfig) : QUICConfig :=
  mkQUICConfig (InitialStreamReceiveWindow q) v (InitialConnectionReceiveWindow q)
    (MaxConnectionReceiveWindow q) (MaxIdleTimeout q) (MaxIncomingStreams q) (DisablePathMTUDiscovery q)
    (DisableGSO q).
Definition set_InitialConnectionReceiveWindow (v : Z) (q : QUICConfig) : QUICConfig :=
  mkQUICConfig (InitialStreamReceiveWindow q) (MaxStreamReceiveWindow q) v
    (MaxConnectionReceiveWindow q) (MaxIdleTimeout q) (MaxIncomingStreams q) (DisablePathMTUDiscovery q)
    (DisableGSO q).
Definition set_MaxConnectionReceiveWindow (v : Z) (q : QUICConfig) : QUICConfig :=
  mkQUICConfig (InitialStreamReceiveWindow q) (MaxStreamReceiveWindow q)
    (InitialConnectionReceiveWindow q) v (MaxIdleTimeout q) (MaxIncomingStreams q)
    (DisablePathMTUDiscovery q) (DisableGSO q).
Definition set_MaxIdleTimeout (v : Z) (q : QUICConfig) : QUICConfig :=
  mkQUICConfig (InitialStreamReceiveWindow q) (MaxStreamReceiveWindow q)
    (InitialConnectionReceiveWindow q) (MaxConnectionReceiveWindow q) v (MaxIncomingStreams q)
    (DisablePathMTUDiscovery q) (DisableGSO q).
Definition set_MaxIncomingStreams (v : Z) (q : QUICConfig) : QUICConfig :=
  mkQUICConfig (InitialStreamReceiveWindow q) (MaxStreamReceiveWindow q)
    (InitialConnectionReceiveWindow q) (MaxConnectionReceiveWindow q) (MaxIdleTimeout q) v
    (DisablePathMTUDiscovery q) (DisableGSO q).
Definition set_DisablePathMTUDiscovery (v : bool) (q : QUICConfig) : QUICConfig :=
  mkQUICConfig (InitialStreamReceiveWindow q) (MaxStreamReceiveWindow q)
    (InitialConnectionReceiveWindow q) (MaxConnectionReceiveWindow q) (MaxIdleTimeout q)
    (MaxIncomingStreams q) v (DisableGSO q).

(** Handles stand for the caller's objects; [None] is nil. *)
Inductive Outbound := defaultOutbound | CustomOutbound (h : nat).

Record Config := mkConfig {
  Certificates : nat;              (* their number *)
  GetCertificate : bool;           (* set *)
  QUIC : QUICConfig;
  ConnSet : bool;
  Outbound_ : option Outbound;
  Congestion : CongestionConfig;
  Bandwidth : BandwidthConfig;
  IgnoreClientBandwidth : bool;
  DisableUDP : bool;
  UDPIdleTimeout : Z;              (* time.Duration *)
  AuthenticatorSet : bool;
  PaddingSeed : bytes;
  StatsSet : bool;
}.

Definition set_QUIC (v : QUICConfig) (c : Config) : Config :=
  mkConfig (Certificates c) (GetCertificate c) v (ConnSet c) (Outbound_ c) (Congestion c) (Bandwidth c)
    (IgnoreClientBandwidth c) (DisableUDP c) (UDPIdleTimeout c) (AuthenticatorSet c) (PaddingSeed c) (StatsSet c).
Definition set_Outbound (v : option Outbound) (c : Config) : Config :=
  mkConfig (Certificates c) (GetCertificate c) (QUIC c) (ConnSet c) v (Congestion c) (Bandwidth c)
    (IgnoreClientBandwidth c) (DisableUDP c) (UDPIdleTimeout c) (AuthenticatorSet c) (PaddingSeed c) (StatsSet c).
Definition set_Congestion (v : CongestionConfig) (c : Config) : Config :=
  mkConfig (Certificates c) (GetCertificate c) (QUIC c) (ConnSet c) (Outbound_ c) v (Bandwidth c)
    (IgnoreClientBandwidth c) (DisableUDP c) (UDPIdleTimeout c) (AuthenticatorSet c) (PaddingSeed c) (StatsSet c).
Definition set_UDPIdleTimeout (v : Z) (c : Config) : Config :=
  mkConfig (Certificates c) (GetCertificate c) (QUIC c) (ConnSet c) (Outbound_ c) (Congestion c) (Bandwidth c)
    (IgnoreClientBandwidth c) (DisableUDP c) v (AuthenticatorSet c) (PaddingSeed c) (StatsSet c).
Definition set_StatsSet (c : Config) : Config :=
  mkConfig (Certificates c) (GetCertificate c) (QUIC c) (ConnSet c) (Outbound_ c) (Congestion c) (Bandwidth c)
    (IgnoreClientBandwidth c) (DisableUDP c) (UDPIdleTimeout c) (AuthenticatorSet c) (PaddingSeed c) true.

Section Fill.
Context `{UnicodeTables} (pmtud_DisablePathMTUDiscovery : bool).

Definition quic_number (field text : string) (dflt : Z) (ok : Z → bool) (get : QUICConfig → Z)
    (set : Z → QUICConfig → QUICConfig) : Config → Config * option ConfigError :=
  fill_number field text dflt ok (λ c, get (QUIC c)) (λ v c, set_QUIC (set v (QUIC c)) c).

Definition rate_ok (v : Z) : bool := (v =? 0) || (65536 <=? v).

Definition checks : list (Config → Config * option ConfigError) :=
  [ must "TLSConfig" "must set at least one of Certificates or GetCertificate"
      (λ c, negb (Nat.eqb (Certificates c) 0) || GetCertificate c);
    quic_number "QUICConfig.InitialStreamReceiveWindow" "must be at least 16384"
      defaultStreamReceiveWindow window_ok InitialStreamReceiveWindow set_InitialStreamReceiveWindow;
    quic_number "QUICConfig.MaxStreamReceiveWindow" "must be at least 16384"
      defaultStreamReceiveWindow window_ok MaxStreamReceiveWindow set_MaxStreamReceiveWindow;
    quic_number "QUICConfig.InitialConnectionReceiveWindow" "must be at least 16384"
      defaultConnReceiveWindow window_ok InitialConnectionReceiveWindow set_InitialConnectionReceiveWindow;
    quic_number "QUICConfig.MaxConnectionReceiveWindow" "must be at least 16384"
      defaultConnReceiveWindow window_ok MaxConnectionReceiveWindow set_MaxConnectionReceiveWindow;
    quic_number "QUICConfig.MaxIdleTimeout" "must be between 4s and 120s"
      defaultMaxIdleTimeout (between (4 * Second) (120 * Second)) MaxIdleTimeout set_MaxIdleTimeout;
    quic_number "QUICConfig.MaxIncomingStreams" "must be at least 8"
      defaultMaxIncomingStreams (λ v, 8 <=? v) MaxIncomingStreams set_MaxIncomingStreams;
    assign (λ c, set_QUIC (set_DisablePathMTUDiscovery
      (DisablePathMTUDiscovery (QUIC c) || pmtud_DisablePathMTUDiscovery) (QUIC c)) c);
    (λ c, let '(g, e) := normalize_congestion (Congestion c) in (set_Congestion g c, e));
    must "Conn" "must be set" ConnSet;
    assign (λ c, set_Outbound (Some (default defaultOutbound (Outbound_ c))) c);
    must "BandwidthConfig.MaxTx" "must be at least 65536" (λ c, rate_ok (MaxTx (Bandwidth c)));
    must "BandwidthConfig.MaxRx" "must be at least 65536" (λ c, rate_ok (MaxRx (Bandwidth c)));
    fill_number "UDPIdleTimeout" "must be between 2s and 600s"
      defaultUDPIdleTimeout (between (2 * Second) (600 * Second)) UDPIdleTimeout set_UDPIdleTimeout;
    must "Authenticator" "must be set" AuthenticatorSet;
    assign set_StatsSet ].

Definition fill (c : Config) : Config * option ConfigError := run_checks checks c.
End Fill.
End Server.

(** * What the two functions promise *)

(** A number as given, or the default for zero. *)
Definition or_default (d v : Z) : Z := if v =? 0 then d else v.
Definition unset_or (ok : Z → bool) (v : Z) : bool := (v =? 0) || ok v.

Lemma fill_number_eq {C} f t d ok (get : C → Z) set c :
  (∀ c, set (get c) c = c) →
  fill_number f t d ok get set c =
    if unset_or ok (get c) then (set (or_default d (get c)) c, None) else (c, Some (mkConfigError f (Text t))).
Proof.
  intros Hl. unfold fill_number, unset_or, or_default. destruct (get c =? 0); [done|]. cbn [orb]. by rewrite Hl.
Qed.

Section Names.
Context `{UnicodeTables}.

Definition known_type (t : string) : bool :=
  bool_decide (ToLower t ∈ [""%string; TypeBBR; TypeReno]).
Definition known_profile (p : string) : bool :=
  bool_decide (ToLower p ∈ [""%string; ProfileStandard; ProfileConservative; ProfileAggressive]).

(** The canonical forms. *)
Definition type_of (t : string) : string := if decide (ToLower t = TypeReno) then TypeReno else TypeBBR.
Definition profile_of (p : string) : string := if decide (ToLower p = ""%string) then ProfileStandard else ToLower p.

Definition known_congestion (c : CongestionConfig) : bool :=
  known_type (Type_ c) && (bool_decide (type_of (Type_ c) = TypeReno) || known_profile (BBRProfile c)).
Definition canonical_congestion (c : CongestionConfig) : CongestionConfig :=
  mkCongestion (type_of (Type_ c))
    (if decide (type_of (Type_ c) = TypeReno) then BBRProfile c else profile_of (BBRProfile c)).

Lemma NormalizeType_eq t : NormalizeType t = if known_type t then Ok (type_of t) else Err t.
Proof.
  unfold NormalizeType, known_type, type_of.
  destruct (decide (ToLower t = "")) as [->|E1]; [done|].
  destruct (decide (ToLower t = TypeBBR)) as [->|E2]; [done|].
  destruct (decide (ToLower t = TypeReno)) as [->|E3]; [done|].
  rewrite !bool_decide_eq_false_2; [done| |done..].
  rewrite !elem_of_cons, elem_of_nil. tauto.
Qed.

Lemma NormalizeBBRProfile_eq p : NormalizeBBRProfile p = if known_profile p then Ok (profile_of p) else Err p.
Proof.
  unfold NormalizeBBRProfile, ParseProfile, known_profile, profile_of.
  destruct (decide (ToLower p = "")) as [->|E1]; [done|].
  destruct (decide (ToLower p = ProfileStandard)) as [->|E2]; [done|].
  destruct (decide (ToLower p = ProfileConservative)) as [->|E3]; [done|].
  destruct (decide (ToLower p = ProfileAggressive)) as [->|E4]; [done|].
  rewrite !bool_decide_eq_false_2; [done| |done..].
  rewrite !elem_of_cons, elem_of_nil. tauto.
Qed.

Lemma type_of_cases t : type_of t = TypeBBR ∨ type_of t = TypeReno.
Proof. unfold type_of. destruct (decide _); auto. Qed.

Lemma type_of_canonical t : ToLower (type_of t) = type_of t ∧ type_of (type_of t) = type_of t.
Proof.
  assert (ToLower TypeReno = TypeReno ∧ ToLower TypeBBR = TypeBBR) as [E1 E2].
  { split; apply ToLower_plain; by apply (bool_decide_unpack _). }
  unfold type_of. destruct (decide (ToLower t = TypeReno)).
  - rewrite E1. by rewrite decide_True.
  - rewrite E2. rewrite decide_False by (vm_compute; congruence). done.
Qed.

Lemma profile_of_canonical p : known_profile p = true → ToLower (profile_of p) = profile_of p ∧ profile_of p ≠ ""%string.
Proof.
  unfold known_profile, profile_of. intros Hp%bool_decide_eq_true.
  destruct (decide (ToLower p = "")) as [E|E].
  - split; [|done]. apply ToLower_plain. by apply (bool_decide_unpack _).
  - split; [|done]. rewrite !elem_of_cons in Hp.
    destruct Hp as [?|[->|[->|[->|[]%not_elem_of_nil]]]]; [done|..];
      apply ToLower_plain; by apply (bool_decide_unpack _).
Qed.

Lemma canonical_known c : known_congestion c = true →
  known_congestion (canonical_congestion c) = true ∧ canonical_congestion (canonical_congestion c) = canonical_congestion c.
Proof.
  destruct c as [t p]. unfold known_congestion, canonical_congestion. cbn [Type_ BBRProfile].
  intros [Ht Hp]%andb_prop. destruct (type_of_canonical t) as [E1 E2]. rewrite E2.
  assert (known_type (type_of t) = true) as ->.
  { unfold known_type. rewrite E1. apply bool_decide_eq_true_2. unfold type_of. destruct (decide _); by apply (bool_decide_unpack _). }
  destruct (decide (type_of t = TypeReno)) as [E|E].
  - by rewrite bool_decide_eq_true_2.
  - rewrite bool_decide_eq_false_2 in * by done. cbn in Hp |- *.
    destruct (profile_of_canonical p Hp) as [E3 E4]. split.
    + unfold known_profile in *. rewrite E3. apply bool_decide_eq_true in Hp. apply bool_decide_eq_true_2.
      unfold profile_of. destruct (decide _); [by apply (bool_decide_unpack _) | done].
    + f_equal. unfold profile_of at 1. rewrite E3. by rewrite decide_False.
Qed.

Lemma normalize_congestion_eq c :
  normalize_congestion c =
    if known_congestion c then (canonical_congestion c, None)
    else if known_type (Type_ c)
    then (mkCongestion TypeBBR "", Some (mkConfigError "CongestionConfig.BBRProfile" (Unsupported (BBRProfile c))))
    else (mkCongestion "" (BBRProfile c), Some (mkConfigError "CongestionConfig.Type" (Unsupported (Type_ c)))).
Proof.
  unfold normalize_congestion, known_congestion, canonical_congestion. rewrite NormalizeType_eq.
  destruct (known_type (Type_ c)); [|done]. cbn [andb].
  destruct (type_of_cases (Type_ c)) as [->| ->].
  - rewrite (bool_decide_eq_true_2 (TypeBBR = TypeBBR)), (bool_decide_eq_false_2 (TypeBBR = TypeReno)) by done.
    rewrite NormalizeBBRProfile_eq. by destruct (known_profile (BBRProfile c)).
  - done.
Qed.
End Names.

Lemma unset_or_default ok d v : ok d = true → unset_or ok v = true → ok (or_default d v) = true.
Proof. unfold unset_or, or_default. destruct (v =? 0); auto. Qed.

Lemma or_default_idemp d v : or_default d (or_default d v) = or_default d v.
Proof. unfold or_default. destruct (Z.eqb_spec v 0); [by destruct (d =? 0)|]. by rewrite (proj2 (Z.eqb_neq v 0)). Qed.

Lemma unset_or_idemp ok d v : ok d = true → unset_or ok v = true → unset_or ok (or_default d v) = true.
Proof. intros Hd Hv. unfold unset_or at 1. by rewrite (unset_or_default ok d v Hd Hv), orb_true_r. Qed.

#[local] Arguments fill_number : simpl never.
#[local] Arguments normalize_congestion : simpl never.
#[local] Arguments unset_or : simpl never.
#[local] Arguments or_default : simpl never.
#[local] Arguments known_congestion : simpl never.
#[local] Arguments canonical_congestion : simpl never.
#[local] Arguments known_type : simpl never.
#[local] Arguments Nat.eqb : simpl never.
#[local] Arguments Client.quic_number : simpl never.
#[local] Arguments Server.quic_number : simpl never.
#[local] Arguments run_checks : simpl never.

Lemma run_checks_cons {C} (f : C → C * option ConfigError) fs c :
  run_checks (f :: fs) c = match f c with (c, None) => run_checks fs c | (c, Some e) => (c, Some e) end.
Proof. done. Qed.

(** One condition of [valid] at a time, in the order of the checks; [eq] turns
    the next one into an [if]. *)
Tactic Notation "check_next" uconstr(eq) :=
  rewrite run_checks_cons; cbn; rewrite ?eq by (by intros []); cbn;
  match goal with |- context [if ?b then _ else _] => destruct b; [|by split; [|try destruct (known_type _); eauto]] end; cbn.

Section ServerSpec.
Context `{UnicodeTables} (pmtud : bool).
Import Server.

Definition server_valid (c : Config) : bool :=
  (negb (Nat.eqb (Certificates c) 0) || GetCertificate c)
  && unset_or window_ok (InitialStreamReceiveWindow (QUIC c)) && unset_or window_ok (MaxStreamReceiveWindow (QUIC c))
  && unset_or window_ok (InitialConnectionReceiveWindow (QUIC c)) && unset_or window_ok (MaxConnectionReceiveWindow (QUIC c))
  && unset_or (between (4 * Second) (120 * Second)) (MaxIdleTimeout (QUIC c))
  && unset_or (λ v, 8 <=? v) (MaxIncomingStreams (QUIC c))
  && known_congestion (Congestion c) && ConnSet c
  && rate_ok (MaxTx (Bandwidth c)) && rate_ok (MaxRx (Bandwidth c))
  && unset_or (between (2 * Second) (600 * Second)) (UDPIdleTimeout c) && AuthenticatorSet c.

Definition server_completed (c : Config) : Config :=
  let q := QUIC c in
  mkConfig (Certificates c) (GetCertificate c)
    (mkQUICConfig (or_default defaultStreamReceiveWindow (InitialStreamReceiveWindow q))
       (or_default defaultStreamReceiveWindow (MaxStreamReceiveWindow q))
       (or_default defaultConnReceiveWindow (InitialConnectionReceiveWindow q))
       (or_default defaultConnReceiveWindow (MaxConnectionReceiveWindow q))
       (or_default defaultMaxIdleTimeout (MaxIdleTimeout q))
       (or_default defaultMaxIncomingStreams (MaxIncomingStreams q))
       (DisablePathMTUDiscovery q || pmtud) (DisableGSO q))
    (ConnSet c) (Some (default defaultOutbound (Outbound_ c))) (canonical_congestion (Congestion c)) (Bandwidth c)
    (IgnoreClientBandwidth c) (DisableUDP c) (or_default defaultUDPIdleTimeout (UDPIdleTimeout c))
    (AuthenticatorSet c) (PaddingSeed c) true.

Lemma quic_number_eq f t d ok get set c :
  (∀ q, set (get q) q = q) →
  quic_number f t d ok get set c =
    if unset_or ok (get (QUIC c)) then (set_QUIC (set (or_default d (get (QUIC c))) (QUIC c)) c, None)
    else (c, Some (mkConfigError f (Text t))).
Proof. intros Hl. unfold quic_number. rewrite fill_number_eq; [done|]. intros []. cbn. by rewrite Hl. Qed.

Lemma fill_eq c :
  (server_valid c = true → fill pmtud c = (server_completed c, None)) ∧
  (server_valid c = false → ∃ c' e, fill pmtud c = (c', Some e)).
Proof.
  destruct c as [ce gc [a b d e f g h i] cs o k bw ig du u au ps st].
  unfold server_valid, fill, checks, must, assign. cbn.
  do 7 check_next quic_number_eq.
  rewrite run_checks_cons; cbn. check_next normalize_congestion_eq. check_next normalize_congestion_eq.
  rewrite run_checks_cons; cbn. do 2 check_next normalize_congestion_eq.
  do 2 check_next fill_number_eq. rewrite run_checks_cons. split; [|done]. intros _. done.
Qed.

Lemma server_completed_valid c : server_valid c = true →
  server_valid (server_completed c) = true ∧ server_completed (server_completed c) = server_completed c.
Proof.
  unfold server_valid, server_completed. rewrite !andb_true_iff. intros Hv. destruct_and!. cbn.
  match goal with H : known_congestion _ = true |- _ => apply canonical_known in H as [Hk1 Hk2] end.
  split; [split_and!; first [done | by apply unset_or_idemp]|].
  repeat rewrite or_default_idemp. rewrite Hk2. by rewrite <-orb_assoc, orb_diag.
Qed.
(** What a filled configuration guarantees to the rest of the server. *)
Record server_ready (c : Config) : Prop := {
  sr_windows : 16384 <= InitialStreamReceiveWindow (QUIC c) ∧ 16384 <= MaxStreamReceiveWindow (QUIC c) ∧
               16384 <= InitialConnectionReceiveWindow (QUIC c) ∧ 16384 <= MaxConnectionReceiveWindow (QUIC c);
  sr_idle : 4 * Second <= MaxIdleTimeout (QUIC c) <= 120 * Second;
  sr_streams : 8 <= MaxIncomingStreams (QUIC c);
  sr_udp_idle : 2 * Second <= UDPIdleTimeout c <= 600 * Second;
  sr_type : Type_ (Congestion c) = TypeBBR ∨ Type_ (Congestion c) = TypeReno;
  sr_profile : Type_ (Congestion c) = TypeBBR → ParseProfile (BBRProfile (Congestion c)) = Ok (BBRProfile (Congestion c));
  sr_rates : (MaxTx (Bandwidth c) = 0 ∨ 65536 <= MaxTx (Bandwidth c)) ∧ (MaxRx (Bandwidth c) = 0 ∨ 65536 <= MaxRx (Bandwidth c));
  sr_set : is_Some (Outbound_ c) ∧ ConnSet c = true ∧ AuthenticatorSet c = true ∧ StatsSet c = true;
}.

Lemma canonical_congestion_ready c : known_congestion c = true →
  let k := canonical_congestion c in
  (Type_ k = TypeBBR ∨ Type_ k = TypeReno) ∧ (Type_ k = TypeBBR → ParseProfile (BBRProfile k) = Ok (BBRProfile k)).
Proof.
  unfold known_congestion, canonical_congestion. intros [_ Hp]%andb_prop. cbn.
  pose proof (type_of_cases (Type_ c)) as Ht.
  split; [done|]. intros E. rewrite E in *. rewrite bool_decide_eq_false_2 in Hp by done. cbn in Hp |- *.
  destruct (profile_of_canonical _ Hp) as [E1 E2]. pose proof (NormalizeBBRProfile_eq (profile_of (BBRProfile c))) as HN.
  unfold known_profile in HN, Hp. apply bool_decide_eq_true in Hp. rewrite E1, bool_decide_eq_true_2 in HN.
  - unfold NormalizeBBRProfile in HN. destruct (ParseProfile _); [done|]. rewrite HN. f_equal.
    unfold profile_of at 1. rewrite E1. by rewrite decide_False.
  - unfold profile_of. destruct (decide _); [by apply (bool_decide_unpack _) | done].
Qed.

Lemma server_completed_ready c : server_valid c = true → server_ready (server_completed c).
Proof.
  unfold server_valid. rewrite !andb_true_iff. intros Hv. destruct_and!.
  repeat match goal with
  | H : unset_or ?ok ?v = true |- _ =>
      match ok with
      | window_ok => pose proof (unset_or_default ok defaultStreamReceiveWindow v eq_refl H);
                     apply (unset_or_default ok defaultConnReceiveWindow v eq_refl) in H
      | between (4 * _) _ => apply (unset_or_default ok defaultMaxIdleTimeout v eq_refl) in H
      | between _ _ => apply (unset_or_default ok defaultUDPIdleTimeout v eq_refl) in H
      | _ => apply (unset_or_default ok defaultMaxIncomingStreams v eq_refl) in H
      end
  end. unfold window_ok, between, rate_ok in *.
  destruct (canonical_congestion_ready (Congestion c)) as [Ht Hp]; [done|].
  split; cbn; try done; try lia; split_and!; done || lia.
Qed.

(** [fill] accepts a configuration exactly when every field is unset or in
    range and what is required is there.  It then keeps what was set, puts the
    defaults for the rest, leaves every field in its range with a congestion
    controller and profile that exist, and filling again changes nothing. *)
Theorem fill_spec c :
  ((fill pmtud c).2 = None ↔ server_valid c = true) ∧
  (server_valid c = true → fill pmtud c = (server_completed c, None) ∧ server_ready (server_completed c)
     ∧ fill pmtud (server_completed c) = (server_completed c, None)).
Proof.
  destruct (fill_eq c) as [Ht Hf]. split.
  - destruct (server_valid c); [by rewrite Ht|]. destruct (Hf eq_refl) as (c' & e & ->). done.
  - intros Hv. rewrite Ht by done. destruct (server_completed_valid c Hv) as [Hv' E].
    destruct (fill_eq (server_completed c)) as [Ht' _]. rewrite Ht' by done. rewrite E.
    split_and!; auto using server_completed_ready.
Qed.
(** A configuration refused for its congestion control is left with an empty
    name, so the same object filled a second time is accepted as BBR. *)
Lemma refused_type_forgotten c t p :
  server_valid (set_Congestion (mkCongestion TypeReno p) c) = true →
  Congestion c = mkCongestion t p → known_type t = false → known_profile p = true →
  ∃ c', fill pmtud c = (c', Some (mkConfigError "CongestionConfig.Type" (Unsupported t))) ∧
        ∃ c'', fill pmtud c' = (c'', None) ∧ Type_ (Congestion c'') = TypeBBR.
Proof.
  destruct c as [ce gc [a b d e f g h i] cs o k bw ig du u au ps st]. cbn. intros Hv -> Ht Hp.
  unfold server_valid in Hv. cbn in Hv. rewrite !andb_true_iff in Hv. destruct_and!.
  unfold fill at 1, checks, must, assign. rewrite run_checks_cons; cbn.
  repeat match goal with H : ?x = true |- context [if ?x then _ else _] => rewrite H end; cbn.
  do 6 (rewrite run_checks_cons; cbn; rewrite quic_number_eq by (by intros []); cbn;
        match goal with H : ?x = true |- context [if ?x then _ else _] => rewrite H end; cbn).
  rewrite run_checks_cons; cbn. rewrite run_checks_cons; cbn. rewrite normalize_congestion_eq.
  unfold known_congestion at 1. cbn. rewrite Ht. cbn. eexists; split; [done|].
  eexists; split.
  - apply fill_eq. unfold server_valid. cbn. rewrite !andb_true_iff.
    split_and!; first [done | by apply unset_or_idemp].
  - done.
Qed.
End ServerSpec.

Section ClientSpec.
Context `{UnicodeTables} (pmtud : bool).
Import Client.

Definition client_valid (c : Config) : bool :=
  bool_decide (is_Some (ServerAddr c))
  && unset_or window_ok (InitialStreamReceiveWindow (QUIC c)) && unset_or window_ok (MaxStreamReceiveWindow (QUIC c))
  && unset_or window_ok (InitialConnectionReceiveWindow (QUIC c)) && unset_or window_ok (MaxConnectionReceiveWindow (QUIC c))
  && unset_or (between (4 * Second) (120 * Second)) (MaxIdleTimeout (QUIC c))
  && unset_or (between (2 * Second) (60 * Second)) (KeepAlivePeriod (QUIC c))
  && known_congestion (Congestion c).

Definition client_completed (c : Config) : Config :=
  let q := QUIC c in
  mkConfig (Some (default udpConnFactory (ConnFactory_ c))) (ServerAddr c) (Auth c)
    (mkQUICConfig (or_default defaultStreamReceiveWindow (InitialStreamReceiveWindow q))
       (or_default defaultStreamReceiveWindow (MaxStreamReceiveWindow q))
       (or_default defaultConnReceiveWindow (InitialConnectionReceiveWindow q))
       (or_default defaultConnReceiveWindow (MaxConnectionReceiveWindow q))
       (or_default defaultMaxIdleTimeout (MaxIdleTimeout q))
       (or_default defaultKeepAlivePeriod (KeepAlivePeriod q))
       (DisablePathMTUDiscovery q || pmtud) (DisableGSO q) (DisableChromeParrot q))
    (canonical_congestion (Congestion c)) (Bandwidth c) (FastOpen c) (PaddingSeed c) true true.

Lemma client_quic_number_eq f t d ok get set c :
  (∀ q, set (get q) q = q) →
  quic_number f t d ok get set c =
    if unset_or ok (get (QUIC c)) then (set_QUIC (set (or_default d (get (QUIC c))) (QUIC c)) c, None)
    else (c, Some (mkConfigError f (Text t))).
Proof. intros Hl. unfold quic_number. rewrite fill_number_eq; [done|]. intros []. cbn. by rewrite Hl. Qed.

(** The client's [verifyAndFill] accepts the valid configurations and completes
    them; on one it has filled before it does nothing. *)
Lemma verifyAndFill_eq c :
  (filled c = true → verifyAndFill pmtud c = (c, None)) ∧
  (filled c = false → client_valid c = true → verifyAndFill pmtud c = (client_completed c, None)) ∧
  (filled c = false → client_valid c = false → ∃ c' e, verifyAndFill pmtud c = (c', Some e)).
Proof.
  unfold verifyAndFill. destruct (filled c) eqn:E; [done|]. split; [done|].
  enough ((client_valid c = true →
             ∃ c', run_checks (checks pmtud) c = (c', None) ∧ set_done c' = client_completed c) ∧
          (client_valid c = false → ∃ c' e, run_checks (checks pmtud) c = (c', Some e))) as [Ht Hf].
  { split; intros _ Hv.
    - by destruct (Ht Hv) as (c' & -> & <-).
    - destruct (Hf Hv) as (c' & e & ->). eauto. }
  destruct c as [cf sa a [q1 q2 q3 q4 q5 q6 q7 q8 q9] k bw fo ps st fi].
  unfold client_valid, checks, must, assign. cbn.
  rewrite run_checks_cons. cbn. do 7 check_next client_quic_number_eq.
  rewrite run_checks_cons. cbn. check_next normalize_congestion_eq.
  split; [|done]. intros _. by eexists.
Qed.
End ClientSpec.

(** ** Example *)
Definition sample_tables : UnicodeTables := {| wide_lower := λ s, s |}.

Definition sample_server : Server.Config :=
  Server.mkConfig 1 false (Server.mkQUICConfig 0 20000 0 0 (5 * Second) 0 false false) true None
    (mkCongestion "BBR" "Aggressive") (mkBandwidth 0 125000 false) false false 0 true [] false.

Lemma fill_spec_witness :
  server_valid (H := sample_tables) sample_server = true ∧
  Server.fill (H := sample_tables) false sample_server = (server_completed (H := sample_tables) false sample_server, None).
Proof.
  assert (server_valid (H := sample_tables) sample_server = true) as Hv by (vm_compute; reflexivity).
  split; [exact Hv|].
  exact (proj1 (proj2 (fill_spec (H := sample_tables) false sample_server) Hv)).
Defined.

Example sample_filled :
  let c := server_completed (H := sample_tables) false sample_server in
  (Server.Congestion c, Server.UDPIdleTimeout c) = (mkCongestion "bbr" "aggressive", 60 * Second).
Proof. vm_compute. reflexivity. Qed.
