(* ===== verification/Congestion.v ===== *)
(** * Congestion controllers on a connection (core/internal/congestion/utils.go)

    A connection is quic-go's; what the code relies on is the class [QuicConn]:
    a slot for a controller, which quic-go's own Reno sender occupies until
    another is installed and again after [ResetPathState].  What the connection
    does by itself between two calls (it dies, it follows the peer's address,
    its controller works) is [drift]. *)
From S2P Require Import GoStd Utf8 Prelude Netip Float Pacer Brutal BbrState Bbr Config.

(** The controller last installed, as it was when it was installed. *)
Inductive controller : Type :=
| Reno
| WithBbr (b : bbrSender)
| WithBrutal (b : BrutalSender).

Class QuicConn (C : Type) := {
  alive : C → bool;                    (* Context().Err() == nil *)
  RemoteAddr : C → net_Addr;
  qc_InitialPacketSize : C → Z;        (* conn.InitialPacketSize(), a ByteCount *)
  installed : C → controller;
  SetRemoteAddr : net_Addr → C → C;
  ResetPathState : C → C;
  SetCongestionControl : controller → C → C;
  drift : C → C → Prop;
  SetRemoteAddr_spec a c : RemoteAddr (SetRemoteAddr a c) = a ∧ alive (SetRemoteAddr a c) = alive c
    ∧ installed (SetRemoteAddr a c) = installed c;
  ResetPathState_alive c : alive c = true → installed (ResetPathState c) = Reno;
  ResetPathState_dead c : alive c = false → ResetPathState c = c;
  ResetPathState_spec c : alive (ResetPathState c) = alive c ∧ RemoteAddr (ResetPathState c) = RemoteAddr c;
  SetCongestionControl_spec k c : installed (SetCongestionControl k c) = k
    ∧ alive (SetCongestionControl k c) = alive c ∧ RemoteAddr (SetCongestionControl k c) = RemoteAddr c;
  drift_alive c c' : drift c c' → alive c' = true → alive c = true;
  drift_installed c c' : drift c c' → alive c' = true → installed c' = installed c;
  drift_refl c : drift c c;
  drift_trans c1 c2 c3 : drift c1 c2 → drift c2 c3 → drift c1 c3;
}.

Section Use.
Context `{QuicCongestion} `{FloatToInt} `{FloatToUint} `{!MapRange Z Z}.
Context {C : Type} `{!QuicConn C}.
(** quic-go's MinInitialPacketSize, and the debug switch of the environment. *)
Context (MinInitialPacketSize : Z) (debug : bool).

(** bbr_sender.go *)
Definition GetInitialPacketSize (addr : net_Addr) : Z :=
  match addr with UDPAddr _ _ => InitialPacketSize | OtherAddr => MinInitialPacketSize end.

Definition seedPacketSize (quicSize byAddr : Z) : Z :=
  if quicSize <=? 0 then byAddr else Z.min quicSize byAddr.

Definition UseBBR (profile : Profile) (conn : C) : C :=
  SetCongestionControl (WithBbr (NewBbrSender
    (seedPacketSize (qc_InitialPacketSize conn) (GetInitialPacketSize (RemoteAddr conn))) profile)) conn.

Definition UseBrutal (tx : Z) (disableLossCompensation : bool) (conn : C) : C :=
  SetCongestionControl (WithBrutal (NewBrutalSender tx disableLossCompensation debug)) conn.

Definition UseConfigured (congestionType bbrProfile : string) (conn : C) : C :=
  if bool_decide (congestionType = TypeReno) then conn else UseBBR bbrProfile conn.

(** What is agreed: a rate, or the configured controller. *)
Inductive agreement : Type :=
| AgreedRate (tx : Z) (disableLossCompensation : bool)
| Configured (congestionType bbrProfile : string).

(** The controller serves the agreement. *)
Definition serves (a : agreement) (k : controller) : Prop :=
  match a with
  | AgreedRate tx dis => k = WithBrutal (NewBrutalSender tx dis debug)
  | Configured t p =>
      if decide (t = TypeReno) then k = Reno
      else ∃ size, k = WithBbr (NewBbrSender size p) ∧ size <= Z.max InitialPacketSize MinInitialPacketSize
  end.

Lemma UseBrutal_serves tx dis c : serves (AgreedRate tx dis) (installed (UseBrutal tx dis c)).
Proof. unfold UseBrutal. apply SetCongestionControl_spec. Qed.

(** A controller is only left out where the connection has Reno. *)
Lemma UseConfigured_serves t p c : installed c = Reno → serves (Configured t p) (installed (UseConfigured t p c)).
Proof.
  intros Hr. unfold UseConfigured. cbn. destruct (decide (t = TypeReno)) as [E|E].
  - by rewrite bool_decide_eq_true_2.
  - rewrite bool_decide_eq_false_2 by done. unfold UseBBR. eexists. split; [apply SetCongestionControl_spec|].
    unfold seedPacketSize, GetInitialPacketSize. destruct (RemoteAddr c), (_ <=? 0) eqn:E'; lia.
Qed.

Lemma UseConfigured_alive t p c : alive (UseConfigured t p c) = alive c ∧ RemoteAddr (UseConfigured t p c) = RemoteAddr c.
Proof. unfold UseConfigured, UseBBR. case_bool_decide; [done|]. apply SetCongestionControl_spec. Qed.

Lemma UseBrutal_alive tx dis c : alive (UseBrutal tx dis c) = alive c ∧ RemoteAddr (UseBrutal tx dis c) = RemoteAddr c.
Proof. unfold UseBrutal. apply SetCongestionControl_spec. Qed.
End Use.

(** ** A connection for concrete runs *)
Record sim_conn := mkSim { sim_alive : bool; sim_addr : net_Addr; sim_size : Z; sim_cc : controller }.

Definition sim_drift (c c' : sim_conn) : Prop :=
  (sim_alive c' = true → sim_alive c = true) ∧ (sim_alive c' = true → sim_cc c' = sim_cc c).

Definition sim_quic : QuicConn sim_conn.
Proof.
  refine {| alive := sim_alive; RemoteAddr := sim_addr; qc_InitialPacketSize := sim_size; installed := sim_cc;
    SetRemoteAddr a c := mkSim (sim_alive c) a (sim_size c) (sim_cc c);
    ResetPathState c := if sim_alive c then mkSim (sim_alive c) (sim_addr c) (sim_size c) Reno else c;
    SetCongestionControl k c := mkSim (sim_alive c) (sim_addr c) (sim_size c) k;
    drift := sim_drift |}; unfold sim_drift.
  all: try (by intros ? []). all: try done.
  1,2,3: intros [[] ? ? ?]; done.
  1,2: by intros c c' [].
  intros c1 c2 c3 [A1 B1] [A2 B2]. split; intros E; [auto|]. rewrite (B2 E). apply B1, A2, E.
Defined.
