(* ===== verification/ClientConn.v ===== *)
(** * The client's connection (core/client/client.go, core/client/path.go)

    Connecting and the handshake, opening streams, fast open, and moving a live
    connection to another address.  The connection is a [QuicConn]; what the
    network and the server answer is an argument; what happens to the
    connection between two of the client's calls on it is [env]. *)
From S2P Require Import GoStd Utf8 Prelude Netip Float Pacer Brutal BbrState Bbr Protocol Http Frag Config Congestion UdpClient Reconnect.
Import Config.Client.

Definition closeErrCodeOK : Z := 0x100.
Definition closeErrCodeProtocolError : Z := 0x101.

(** What a stream operation fails with: quic-go's recoverable error, a frame
    that does not read, or anything else. *)
Inductive stream_error : Type :=
| StreamLimitReachedError
| FrameError (e : read_error)
| OtherStreamError (h : nat).

Inductive client_error : Type :=
| ErrConfig (e : ConfigError)
| ErrFactory
| ConnectError
| AuthError (StatusCode : Z)
| DialError (Message : bytes)
| ClosedError (e : stream_error)
| Recoverable (e : stream_error)
| ReadFailed (e : read_error)
| ErrNilAddress
| ErrNoConnection.

Definition nonPermanent (e : stream_error) : bool :=
  match e with StreamLimitReachedError => true | _ => false end.

Definition wrapIfConnectionClosed (e : stream_error) : client_error :=
  if nonPermanent e then Recoverable e else ClosedError e.

(** What the client does to the connection, its transport and its socket. *)
Inductive event : Type :=
| CloseWithError (code : Z)
| TransportClose
| PktConnClose.

Record HandshakeInfo := mkInfo { info_UDPEnabled : bool; Tx : Z; info_ServerAddr : option net_Addr }.

Record clientImpl {C : Type} := mkClientImpl {
  config : Config;
  conn : option C;
  txRate : Z;                       (* uint64 *)
  udpSM : option udpSessionManager;
}.
Arguments clientImpl : clear implicits.
Arguments mkClientImpl {C}.

(** The connection of a fast-open or an established stream: what is still to
    come on it. *)
Record tcpConn := mkTcpConn { Orig : bytes; Established : bool }.

Section Client.
Context `{QuicCongestion} `{FloatToInt} `{FloatToUint} `{!MapRange Z Z} `{QuicVarint} `{UnicodeTables}.
Context {C : Type} `{!QuicConn C}.
Context (MinInitialPacketSize : Z) (debug pmtud : bool) (hmac_sha256 : bytes → bytes → bytes).

Definition set_conn (q : C) (c : clientImpl C) : clientImpl C :=
  mkClientImpl (config c) (Some q) (txRate c) (udpSM c).

Definition installCongestionControl (c : clientImpl C) (q : C) : C :=
  if 0 <? txRate c then UseBrutal debug (txRate c) (DisableLossCompensation (Bandwidth (config c))) q
  else UseConfigured MinInitialPacketSize (Type_ (Congestion (config c))) (BBRProfile (Congestion (config c))) q.

(** The send rate: the server's declared one, the client's own limit, or none
    when the server asks for detection. *)
Definition actualTx (authResp : AuthResponse) (maxTx : Z) : Z :=
  if RxAuto authResp then 0
  else if (resp_Rx authResp =? 0) || (maxTx <? resp_Rx authResp) then maxTx else resp_Rx authResp.

Definition scheme (cfg : Config) : PaddingScheme := NewPaddingScheme hmac_sha256 (PaddingSeed cfg).

(** [factory] is whether ConnFactory gives a socket, [roundTrip] what the
    authentication request is answered with: the connection dialled, if it was,
    and the status and header of the response, if there is one. *)
Definition connect (cfg : Config) (factory : bool) (roundTrip : Header → option C * option (Z * Header))
    (rnd : entropy) : outcome (result client_error (clientImpl C * HandshakeInfo) * list event) :=
  if negb factory then Ret (Err ErrFactory, []) else
  header ← AuthRequestToHeader ∅ (mkAuthRequest (Auth cfg) (MaxRx (Bandwidth cfg))) (Some (scheme cfg)) rnd;
  match roundTrip header with
  | (conn, None) =>
      Ret (Err ConnectError,
           (match conn with Some _ => [CloseWithError closeErrCodeProtocolError] | None => [] end)
           ++ [TransportClose; PktConnClose])
  | (None, Some _) => Panic
  | (Some q, Some (status, header)) =>
      if negb (status =? StatusAuthOK) || negb (IsAuthResponse header)
      then Ret (Err (AuthError status), [CloseWithError closeErrCodeProtocolError; TransportClose; PktConnClose])
      else
        let authResp := AuthResponseFromHeader header in
        let tx := actualTx authResp (MaxTx (Bandwidth cfg)) in
        let c := mkClientImpl cfg None tx (if UDPEnabled authResp then Some newUDPSessionManager else None) in
        Ret (Ok (set_conn (installCongestionControl c q) c, mkInfo (UDPEnabled authResp) tx (ServerAddr cfg)), [])
  end.

Definition NewClient (cfg : Config) (factory : bool) (roundTrip : Header → option C * option (Z * Header))
    (rnd : entropy) : outcome (result client_error (clientImpl C * HandshakeInfo) * list event) :=
  match verifyAndFill pmtud cfg with
  | (_, Some e) => Ret (Err (ErrConfig e), [])
  | (cfg, None) => connect cfg factory roundTrip rnd
  end.

(** [TCP]: what is written to the stream and the result.  [open] and [write]
    are the errors of OpenStream and Write, [incoming] what the server sends on
    the stream until it ends it. *)
Definition TCP (addr : bytes) (open write : option stream_error) (incoming : bytes) (rnd : entropy) (c : clientImpl C)
    : outcome (bytes * result client_error tcpConn) :=
  match open with
  | Some e => Ret ([], Err (wrapIfConnectionClosed e))
  | None =>
      req ← WriteTCPRequest addr (Some (scheme (config c))) rnd;
      match write with
      | Some e => Ret (req, Err (wrapIfConnectionClosed e))
      | None =>
          if FastOpen (config c) then Ret (req, Ok (mkTcpConn incoming false)) else
          match ReadTCPResponse incoming with
          | Err e => Ret (req, Err (wrapIfConnectionClosed (FrameError e)))
          | Ok (ok, msg, rest) => Ret (req, if ok then Ok (mkTcpConn rest true) else Err (DialError msg))
          end
      end
  end.

(** A [Read] of at most [n] bytes. *)
Definition tcpConn_Read (n : nat) (c : tcpConn) : result client_error (bytes * tcpConn) :=
  if Established c then Ok (take n (Orig c), mkTcpConn (drop n (Orig c)) true)
  else match ReadTCPResponse (Orig c) with
       | Err e => Err (ReadFailed e)
       | Ok (ok, msg, rest) =>
           if ok then Ok (take n rest, mkTcpConn (drop n rest) true) else Err (DialError msg)
       end.

(** Everything the application reads from the connection. *)
Definition contents (c : tcpConn) : result client_error bytes :=
  if Established c then Ok (Orig c)
  else match ReadTCPResponse (Orig c) with
       | Err e => Err (ReadFailed e)
       | Ok (ok, msg, rest) => if ok then Ok rest else Err (DialError msg)
       end.

(** [UDP]: the manager afterwards and the session. *)
Definition UDP (c : clientImpl C) : clientImpl C * result client_error (option nat) :=
  match udpSM c with
  | None => (c, Err (DialError (bytes_of_string "UDP not enabled")))
  | Some s => let '(s, p) := NewUDP s in (mkClientImpl (config c) (conn c) (txRate c) (Some s), Ok p)
  end.

Definition Close (c : clientImpl C) : list event := [CloseWithError closeErrCodeOK; TransportClose; PktConnClose].

(** [ReceiveMessage] of udpIOImpl over what the connection delivers until it
    fails: the messages handed on, in order, and the malformed ones counted. *)
Fixpoint ReceiveMessages (datagrams : list bytes) : list UDPMessage * Z :=
  match datagrams with
  | [] => ([], 0)
  | d :: ds =>
      let '(ms, bad) := ReceiveMessages ds in
      match ParseUDPMessage d with Ok m => (m :: ms, bad) | Err _ => (ms, u64 (bad + 1)) end
  end.

(** ** Moving the connection (path.go) *)
Definition SwitchTo (addr : option net_Addr) (env : nat → C → C) (c : clientImpl C)
    : clientImpl C * option client_error :=
  match addr with
  | None => (c, Some ErrNilAddress)
  | Some a =>
      match conn c with
      | None => (c, Some ErrNoConnection)
      | Some q =>
          let q := env 0%nat q in
          if negb (alive q) then (set_conn q c, Some ErrNoConnection) else
          let q := env 1%nat (SetRemoteAddr a q) in
          let q := env 2%nat (ResetPathState q) in
          if negb (alive q) then (set_conn q c, Some ErrNoConnection) else
          (set_conn (installCongestionControl c (env 3%nat q)) c, None)
      end
  end.

Definition Current (c : clientImpl C) : option net_Addr := RemoteAddr <$> conn c.

(** The reconnecting client's, on the connection that is current; the handles
    of Reconnect index the connections. *)
Definition rc_SwitchTo (addr : option net_Addr) (env : nat → C → C) (rc : reconnectableClientImpl)
    (clients : gmap nat (clientImpl C)) : gmap nat (clientImpl C) * option client_error :=
  match client rc ≫= λ h, (h,.) <$> clients !! h with
  | Some (h, c) => let '(c, e) := SwitchTo addr env c in (<[h := c]> clients, e)
  | None => (clients, Some ErrNoConnection)
  end.

Definition rc_Current (rc : reconnectableClientImpl) (clients : gmap nat (clientImpl C)) : option net_Addr :=
  client rc ≫= λ h, clients !! h ≫= Current.
End Client.

(** ** Histories of a connection *)
Section Facts.
Context `{QuicCongestion} `{FloatToInt} `{FloatToUint} `{!MapRange Z Z} `{QuicVarint} `{UnicodeTables}.
Context {C : Type} `{!QuicConn C}.
Context (MinInitialPacketSize : Z) (debug pmtud : bool) (hmac_sha256 : bytes → bytes → bytes).

Definition env_ok (env : nat → C → C) : Prop := ∀ n q, drift q (env n q).

(** A switch, with what the connection does meanwhile, or time passing. *)
Inductive label : Type :=
| Switch (addr : option net_Addr) (env : nat → C → C)
| Pass (env : nat → C → C).

Definition label_ok (l : label) : Prop := match l with Switch _ env => env_ok env | Pass env => env_ok env end.

Definition step (c : clientImpl C) (l : label) : clientImpl C :=
  match l with
  | Switch a env => (SwitchTo MinInitialPacketSize debug a env c).1
  | Pass env => match conn c with Some q => set_conn (env 0%nat q) c | None => c end
  end.

(** What the handshake agreed on. *)
Definition agreed (c : clientImpl C) : agreement :=
  if 0 <? txRate c then AgreedRate (txRate c) (DisableLossCompensation (Bandwidth (config c)))
  else Configured (Type_ (Congestion (config c))) (BBRProfile (Congestion (config c))).

(** A live connection runs the controller the handshake agreed on. *)
Definition on_agreed (c : clientImpl C) : Prop :=
  ∀ q, conn c = Some q → alive q = true → serves MinInitialPacketSize debug (agreed c) (installed q).

Lemma install_serves c q : installed q = Reno →
  serves MinInitialPacketSize debug (agreed c) (installed (installCongestionControl MinInitialPacketSize debug c q)).
Proof.
  intros Hq. unfold installCongestionControl, agreed. destruct (0 <? txRate c).
  - apply UseBrutal_serves.
  - by apply UseConfigured_serves.
Qed.

Lemma install_alive c q :
  alive (installCongestionControl MinInitialPacketSize debug c q) = alive q ∧
  RemoteAddr (installCongestionControl MinInitialPacketSize debug c q) = RemoteAddr q.
Proof. unfold installCongestionControl. destruct (0 <? txRate c); [apply UseBrutal_alive | apply UseConfigured_alive]. Qed.

Lemma set_conn_agreed q c : agreed (set_conn q c) = agreed c ∧ conn (set_conn q c) = Some q.
Proof. done. Qed.

(** After a switch that succeeds the connection runs the agreed controller if
    it is still alive; one that fails without a connection has found it dead. *)
Lemma SwitchTo_spec a env c c' e :
  env_ok env → on_agreed c → SwitchTo MinInitialPacketSize debug a env c = (c', e) →
  on_agreed c' ∧ agreed c' = agreed c ∧
  (e = Some ErrNoConnection → ∀ q, conn c' = Some q → alive q = false) ∧
  (e = None → is_Some a ∧ is_Some (conn c) ∧
     ((∀ n q, RemoteAddr (env n q) = RemoteAddr q) → Current c' = a)).
Proof.
  intros Henv Hc. unfold SwitchTo. destruct a as [a|]; [|by intros [= <- <-]].
  destruct (conn c) as [q|] eqn:Eq; [|intros [= <- <-]; split_and!; try done; intros _ q' Hq'; congruence].
  destruct (alive (env 0%nat q)) eqn:E0; cbn [negb].
  2:{ intros [= <- <-]. split_and!; try done; [intros ? [= <-]; congruence|]. by intros _ ? [= <-]. }
  set (q1 := env 1%nat (SetRemoteAddr a (env 0%nat q))). set (q2 := env 2%nat (ResetPathState q1)).
  destruct (alive q2) eqn:E2; cbn [negb].
  2:{ intros [= <- <-]. split_and!; try done; [intros ? [= <-]; congruence|]. by intros _ ? [= <-]. }
  intros [= <- <-]. split_and!; try done.
  - intros q' [= <-] Ha. rewrite (proj1 (install_alive _ _)) in Ha.
    change (serves MinInitialPacketSize debug (agreed c)
      (installed (installCongestionControl MinInitialPacketSize debug c (env 3%nat q2)))).
    apply install_serves. rewrite (drift_installed q2) by auto.
    unfold q2. rewrite (drift_installed (ResetPathState q1)) by auto. apply ResetPathState_alive.
    rewrite <-(proj1 (ResetPathState_spec q1)). by eapply drift_alive.
  - intros _. split_and!; [by eexists..|]. intros Hr. unfold Current, set_conn. cbn.
    unfold q2, q1. by rewrite (proj2 (install_alive _ _)), !Hr, (proj2 (ResetPathState_spec _)), Hr, (proj1 (SetRemoteAddr_spec _ _)).
Qed.

Lemma step_agreed l c : label_ok l → on_agreed c → on_agreed (step c l) ∧ agreed (step c l) = agreed c.
Proof.
  intros Hl Hc. destruct l as [a env|env]; cbn in *.
  - destruct (SwitchTo _ _ a env c) as [c' e] eqn:E. by destruct (SwitchTo_spec _ _ _ _ _ Hl Hc E) as (? & ? & _).
  - destruct (conn c) as [q|] eqn:Eq; [|done]. split; [|done]. intros q' [= <-] Ha. cbn.
    change (agreed (set_conn (env 0%nat q) c)) with (agreed c).
    rewrite (drift_installed q) by auto. apply Hc; [done|]. by eapply drift_alive.
Qed.

Lemma steps_agreed ls c : Forall label_ok ls → on_agreed c →
  on_agreed (foldl step c ls) ∧ agreed (foldl step c ls) = agreed c.
Proof.
  revert c. induction ls as [|l ls IH]; [done|]. intros c [Hl Hls]%Forall_cons Hc. cbn.
  destruct (step_agreed l c Hl Hc) as [Hc' E]. rewrite <-E. by apply IH.
Qed.
(** Connecting installs the controller of the rate it reports. *)
Lemma connect_agreed cfg factory roundTrip rnd c info evs :
  connect MinInitialPacketSize debug hmac_sha256 cfg factory roundTrip rnd = Ret (Ok (c, info), evs) →
  (∀ h q, (roundTrip h).1 = Some q → installed q = Reno) →
  on_agreed c ∧ config c = cfg ∧ txRate c = Tx info ∧ evs = [].
Proof.
  unfold connect. intros Hc Hr. destruct factory; [|done]. cbn in Hc.
  apply outcome_bind_inv in Hc as (header & _ & Hc). specialize (Hr header).
  destruct (roundTrip header) as [[q|] [[status h]|]] eqn:E; try done.
  cbv zeta in Hc. destruct (_ || _); [done|]. injection Hc as <- <- <-. cbn. split_and!; try done.
  intros q' [= <-] _.
  change (serves MinInitialPacketSize debug (agreed (mkClientImpl cfg None (actualTx (AuthResponseFromHeader h) (MaxTx (Bandwidth cfg))) (@None udpSessionManager)))
    (installed (installCongestionControl MinInitialPacketSize debug (mkClientImpl cfg None (actualTx (AuthResponseFromHeader h) (MaxTx (Bandwidth cfg))) (@None udpSessionManager)) q))).
  by apply install_serves, Hr.
Qed.

(** Whatever switches are made and whatever the connection does between
    and during them, a connection that is alive runs the congestion controller
    its handshake agreed on: Brutal at the rate the client reports, or the
    configured one.  A switch reports success only when it had a connection
    and installed that controller, and without interference the connection
    then sends to the new address; it reports that there is no connection only
    when there is none alive. *)
Theorem switch_keeps_controller cfg factory roundTrip rnd c info evs ls a env c' e :
  connect MinInitialPacketSize debug hmac_sha256 cfg factory roundTrip rnd = Ret (Ok (c, info), evs) →
  (∀ h q, (roundTrip h).1 = Some q → installed q = Reno) →
  Forall label_ok ls → env_ok env →
  SwitchTo MinInitialPacketSize debug a env (foldl step c ls) = (c', e) →
  (∀ q, conn c' = Some q → alive q = true →
     serves MinInitialPacketSize debug
       (if 0 <? Tx info then AgreedRate (Tx info) (DisableLossCompensation (Bandwidth cfg))
        else Configured (Type_ (Congestion cfg)) (BBRProfile (Congestion cfg))) (installed q)) ∧
  (e = Some ErrNoConnection → ∀ q, conn c' = Some q → alive q = false) ∧
  (e = None → is_Some a ∧ is_Some (conn c') ∧ ((∀ n q, RemoteAddr (env n q) = RemoteAddr q) → Current c' = a)).
Proof.
  intros Hc Hr Hls Henv Hs. destruct (connect_agreed _ _ _ _ _ _ _ Hc Hr) as (Hon & <- & <- & _).
  destruct (steps_agreed ls c Hls Hon) as [Hon' E].
  destruct (SwitchTo_spec _ _ _ _ _ Henv Hon' Hs) as (Hon2 & E2 & Hno & Hok).
  split_and!; [|done|].
  - intros q Hq Ha. specialize (Hon2 q Hq Ha). rewrite E2, E in Hon2. exact Hon2.
  - intros He. destruct (Hok He) as (Ha & _ & Hcur). split_and!; [done| |done].
    unfold SwitchTo in Hs. destruct a as [a|]; [|by destruct Ha].
    destruct (conn (foldl _ c ls)); [|by simplify_eq]. destruct (negb _); [by simplify_eq|].
    cbv zeta in Hs. destruct (negb _); simplify_eq. by eexists.
Qed.
End Facts.

(** ** A concrete run: two switches, the second of them while the connection
    lives, over a connection that follows no other address. *)
#[local] Program Instance amd64 : FloatToInt := {| out_of_range _ := MinInt64 |}.
Next Obligation. done. Qed.
#[local] Program Instance amd64_unsigned : FloatToUint := {| out_of_range_u _ := 2 ^ 63 |}.
Next Obligation. done. Qed.
#[local] Existing Instance quic_go.
#[local] Existing Instance rfc9000.
#[local] Existing Instance sim_quic.
#[local] Existing Instance sample_tables.
#[local] Instance canonical_lost : MapRange Z Z := canonical_range Z Z.

Definition sample_addr (n : Z) : net_Addr := UDPAddr (be_bytes 4 n) 443.
Definition sample_config : Config :=
  mkConfig None (Some (sample_addr 1)) "secret" (mkQUICConfig 0 0 0 0 0 0 false false false)
    (mkCongestion "bbr" "") (mkBandwidth 200000 0 false) false [Byte.x01] false false.
Definition sample_response : Header :=
  Header_Set (Header_Set ∅ ResponseHeaderUDPEnabled "true") CommonHeaderCCRX "125000".
Definition sample_roundtrip (_ : Header) : option sim_conn * option (Z * Header) :=
  (Some (mkSim true (sample_addr 1) 1280 Reno), Some (200, sample_response)).
Definition still (_ : nat) (q : sim_conn) : sim_conn := q.

Lemma still_ok : env_ok still.
Proof. intros n q. apply drift_refl. Qed.

Lemma switch_keeps_controller_witness :
  ∃ c info c', connect 1200 false zero_hmac sample_config true sample_roundtrip zero_entropy = Ret (Ok (c, info), []) ∧
    SwitchTo 1200 false (Some (sample_addr 3)) still
      (foldl (step 1200 false) c [Switch (Some (sample_addr 2)) still; Pass still]) = (c', None) ∧
    Tx info = 125000 ∧ Current c' = Some (sample_addr 3).
Proof.
  eexists _, _, _. split; [vm_compute; reflexivity|]. split; [vm_compute; reflexivity|]. split; [reflexivity|].
  eapply (switch_keeps_controller 1200 false zero_hmac sample_config true sample_roundtrip zero_entropy _ _ _
    [Switch (Some (sample_addr 2)) still; Pass still] _ still);
    [vm_compute; reflexivity | by intros h q [= <-] | | | | reflexivity | done].
  - repeat apply List.Forall_cons; [exact still_ok..|apply List.Forall_nil].
  - exact still_ok.
  - vm_compute. reflexivity.
Defined.
