(* ===== verification/CoreServer.v ===== *)
(** * The server's side of a connection (core/server/server.go, copy.go, config.go)

    One [h3sHandler] per connection: authentication as an HTTP request, the
    masquerade for everything else, the proxy streams of an authenticated
    client, and what is logged.  ServeHTTP runs under the handler's mutex up to
    the masquerade, so a connection is a list of [label]s.  Authenticator, hook,
    outbound and target are arguments. *)
From S2P Require Import GoStd Utf8 Prelude Netip Float Pacer Brutal BbrState Bbr Protocol Http Config Congestion.
Import Config.Server.

Definition closeErrCodeOK : Z := 0x100.
Definition closeErrCodeTrafficLimitReached : Z := 0x107.

Inductive StreamState := StreamStateInitial | StreamStateHooking | StreamStateConnecting
| StreamStateEstablished | StreamStateClosed.

(** Counters of Stats that this file changes (uint64). *)
Record Stats := mkStats { MasqFallback : Z; MasqAuthFailed : Z; UDPRxMalformed : Z }.

(** What the handler does that others see. *)
Inductive event : Type :=
| LogOnlineState (id : string) (online : bool)
| Connect (id : string) (tx : Z)
| ConnStats (id : string)
| Disconnect (id : string)
| RunUDP (id : string)                    (* a UDP session manager is started *)
| CloseConn (code : Z)
| TraceStream | UntraceStream
| SetState (s : StreamState)
| SetReqAddr (addr : bytes)
| SetHookedReqAddr (addr : bytes)
| Respond (resp : bytes)                  (* written to the stream *)
| HookTCP (addr : bytes)
| TCPRequest (id : string) (addr : bytes)
| Dial (addr : bytes) (ok : bool)
| WriteTarget (data : bytes)
| WriteStream (data : bytes)
| LogTraffic (id : string) (tx rx : Z)
| TCPError (id : string) (addr : bytes)
| CloseTarget
| CloseStream.

Record Request := mkRequest { Method : string; Host : string; Path : string; ReqHeader : Header }.

(** What the client is answered: this protocol's response, or the masquerade. *)
Inductive Response : Type := AuthOK (h : Header) | Masquerade.

(** The parts of the configuration that are interfaces. *)
Record Hooks := mkHooks {
  TrafficLogger : bool;                    (* set *)
  EventLogger : bool;
  ConnStatsLogger : bool;                  (* the event logger also is one *)
  Authenticate : string → Z → bool * string;
}.

Record h3sHandler {C : Type} := mkHandler {
  h_conn : C;
  authenticated : bool;
  authID : string;
  managers : nat;                          (* UDP session managers started *)
  stats : Stats;
}.
Arguments h3sHandler : clear implicits.
Arguments mkHandler {C}.

Definition URLHost : string := "chameleon".
Definition URLPath : string := "/auth".
Definition MethodPost : string := "POST".

Section Handler.
Context `{QuicCongestion} `{FloatToInt} `{FloatToUint} `{!MapRange Z Z} `{QuicVarint}.
Context {C : Type} `{!QuicConn C}.
Context (MinInitialPacketSize : Z) (debug : bool) (hmac_sha256 : bytes → bytes → bytes).
Context (config : Config) (hooks : Hooks).

Definition scheme : PaddingScheme := NewPaddingScheme hmac_sha256 (PaddingSeed config).

Definition newH3sHandler (conn : C) (st : Stats) : h3sHandler C := mkHandler conn false "" 0 st.

Definition authResponse : AuthResponse :=
  mkAuthResponse (negb (DisableUDP config)) (MaxRx (Bandwidth config)) (IgnoreClientBandwidth config).

Definition masqHandler (h : h3sHandler C) : h3sHandler C :=
  let s := stats h in
  mkHandler (h_conn h) (authenticated h) (authID h) (managers h)
    (mkStats (u64 (MasqFallback s + 1)) (MasqAuthFailed s) (UDPRxMalformed s)).

Definition countAuthFailed (h : h3sHandler C) : h3sHandler C :=
  let s := stats h in
  mkHandler (h_conn h) (authenticated h) (authID h) (managers h)
    (mkStats (MasqFallback s) (u64 (MasqAuthFailed s + 1)) (UDPRxMalformed s)).

(** min(serverTx, clientRx), a zero server limit being none. *)
Definition serverTx (clientRx : Z) : Z :=
  let maxTx := MaxTx (Bandwidth config) in
  if (0 <? maxTx) && (maxTx <? clientRx) then maxTx else clientRx.

Definition useConfigured : C → C :=
  UseConfigured MinInitialPacketSize (Type_ (Congestion config)) (BBRProfile (Congestion config)).

(** The controller for a client that declared [rx], and the rate it is logged with. *)
Definition install (rx : Z) (conn : C) : C * Z :=
  if IgnoreClientBandwidth config then (useConfigured conn, 0)
  else let tx := serverTx rx in
       (if 0 <? tx then UseBrutal debug tx (DisableLossCompensation (Bandwidth config)) conn else useConfigured conn, tx).

Definition isAuthRequest (r : Request) : bool :=
  bool_decide (Method r = MethodPost) && bool_decide (Host r = URLHost) && bool_decide (Path r = URLPath).

Definition ServeHTTP (r : Request) (rnd : entropy) (h : h3sHandler C)
    : outcome (h3sHandler C * Response * list event) :=
  if negb (isAuthRequest r) then Ret (masqHandler h, Masquerade, []) else
  if authenticated h then
    header ← AuthResponseToHeader ∅ authResponse (Some scheme) rnd;
    Ret (h, AuthOK header, [])
  else
    let authReq := AuthRequestFromHeader (ReqHeader r) in
    let '(ok, id) := Authenticate hooks (Auth authReq) (req_Rx authReq) in
    if negb ok then Ret (masqHandler (countAuthFailed h), Masquerade, []) else
    let '(conn, tx) := install (req_Rx authReq) (h_conn h) in
    header ← AuthResponseToHeader ∅ authResponse (Some scheme) rnd;
    let udp := negb (DisableUDP config) in
    Ret (mkHandler conn true id (if udp then S (managers h) else managers h) (stats h), AuthOK header,
         (if TrafficLogger hooks then [LogOnlineState id true] else [])
         ++ (if EventLogger hooks then [Connect id tx] else [])
         ++ (if udp then [RunUDP id] else [])).

(** [ProxyStreamHijacker]: whether the stream is taken, and what is left of it
    for the request.  [err] is the dispatcher's, [data] what comes on the
    stream. *)
Definition ProxyStreamHijacker (ft : Z) (data : bytes) (err : bool) (h : h3sHandler C)
    : result read_error (option bytes) :=
  if err || negb (authenticated h) then Ok None
  else if ft =? FrameTypeTCPRequest then '(_, rest) ← qv_Read data; Ok (Some rest)
  else Ok None.

(** The end of handleClient, once ServeQUICConn has returned. *)
Definition disconnect (h : h3sHandler C) : list event :=
  (if authenticated h then
     (if TrafficLogger hooks then [LogOnlineState (authID h) false] else [])
     ++ (if EventLogger hooks
         then (if ConnStatsLogger hooks then [ConnStats (authID h)] else []) ++ [Disconnect (authID h)] else [])
   else []) ++ [CloseConn closeErrCodeOK].
End Handler.

(** ** Copying (copy.go) *)

(** What a Read gives: some bytes, and nothing, the end, or an error with them. *)
Inductive read_end := More | EndOfFile | ReadErr.
Record read_answer := mkRead { r_data : bytes; r_end : read_end; r_log : bool; r_write : bool }.

Inductive copy_error := ErrDisconnect | ErrRead | ErrWrite.

#[export] Instance copy_error_eq_dec : EqDecision copy_error.
Proof. solve_decision. Defined.

(** A chunk is given to the logger, then to the writer. *)
Inductive copy_event := Logged (c : bytes) | Wrote (c : bytes).

(** [copyBufferLog] over the answers of Read, with what the logger and the
    writer say to each: what it does, and its result, which is missing while
    the loop still waits. *)
Fixpoint copyBufferLog (reads : list read_answer) : list copy_event * option (option copy_error) :=
  match reads with
  | [] => ([], None)
  | r :: rs =>
      let ending := match r_end r with
                    | More => copyBufferLog rs
                    | EndOfFile => ([], Some None)
                    | ReadErr => ([], Some (Some ErrRead))
                    end in
      if decide (r_data r = []) then ending else
      if negb (r_log r) then ([Logged (r_data r)], Some (Some ErrDisconnect)) else
      if negb (r_write r) then ([Logged (r_data r); Wrote (r_data r)], Some (Some ErrWrite)) else
      let '(evs, res) := ending in
      (Logged (r_data r) :: Wrote (r_data r) :: evs, res)
  end.

(** Which goroutine answers first; the other has only come so far. *)
Inductive direction := ToClient | ToTarget.

Definition copied (id : string) (d : direction) (e : copy_event) : event :=
  match d, e with
  | ToClient, Logged c => LogTraffic id 0 (len c)
  | ToClient, Wrote c => WriteStream c
  | ToTarget, Logged c => LogTraffic id (len c) 0
  | ToTarget, Wrote c => WriteTarget c
  end.

(** The events of each direction in their order; the two goroutines run side
    by side, and no theorem depends on how their events mix. *)
Definition copyTwoWayEx (id : string) (first : direction) (toClient toTarget : list read_answer)
    : list event * option copy_error :=
  ((copied id ToClient <$> (copyBufferLog toClient).1) ++ (copied id ToTarget <$> (copyBufferLog toTarget).1),
   default None (copyBufferLog (match first with ToClient => toClient | ToTarget => toTarget end)).2).

(** Without a traffic logger, [io.Copy] both ways: nothing is logged. *)
Definition without_log (r : read_answer) : read_answer := mkRead (r_data r) (r_end r) true (r_write r).

Definition is_log (e : event) : bool := match e with LogTraffic _ _ _ => true | _ => false end.

Definition copyTwoWay (first : direction) (toClient toTarget : list read_answer) : list event * option copy_error :=
  let '(evs, e) := copyTwoWayEx "" first (without_log <$> toClient) (without_log <$> toTarget) in
  (filter (λ ev, negb (is_log ev)) evs, e).

(** ** A proxied stream *)

(** What happens to a stream: the bytes of the request, the hook's answers
    (whether it takes the request; what it wants put back and the address it
    leaves, or an error), the target's, and the traffic. *)
Record stream_answers := mkAnswers {
  s_in : bytes;
  s_check : bytes → bool;
  s_hook : bytes → option (bytes * bytes);
  s_dial : bytes → option bytes;           (* None: connected; else the error's text *)
  s_first : direction;
  s_toClient : list read_answer;
  s_toTarget : list read_answer;
}.

Section Stream.
Context `{QuicVarint} (hmac_sha256 : bytes → bytes → bytes) (config : Config) (hooks : Hooks).
Context (hookSet : bool) (id : string).

Definition respond (ok : bool) (msg : bytes) (rnd : entropy) : outcome (list event) :=
  resp ← WriteTCPResponse ok msg (Some (scheme hmac_sha256 config)) rnd;
  Ret [Respond resp].

Definition setHookedReqAddr (reqAddr addr : bytes) : list event :=
  if decide (addr = reqAddr) then [] else [SetHookedReqAddr addr].

(** From the dial on. *)
Definition proxy (a : stream_answers) (hooked : bool) (reqAddr putback : bytes) (rnd : entropy)
    : outcome (list event) :=
  let log e := if EventLogger hooks then [e] else [] in
  let start := log (TCPRequest id reqAddr) ++ [SetState StreamStateConnecting] in
  match s_dial a reqAddr with
  | Some err =>
      r ← (if hooked then Ret [] else respond false err rnd);
      Ret (start ++ [Dial reqAddr false] ++ r ++ [CloseStream] ++ log (TCPError id reqAddr))
  | None =>
      r ← (if hooked then Ret [] else respond true (bytes_of_string "Connected") rnd);
      let '(evs, err) := if TrafficLogger hooks then copyTwoWayEx id (s_first a) (s_toClient a) (s_toTarget a)
                         else copyTwoWay (s_first a) (s_toClient a) (s_toTarget a) in
      Ret (start ++ [Dial reqAddr true] ++ r ++ [SetState StreamStateEstablished]
           ++ (if decide (putback = []) then [] else [WriteTarget putback])
           ++ evs ++ log (TCPError id reqAddr) ++ [CloseTarget; CloseStream]
           ++ (if decide (err = Some ErrDisconnect) then [CloseConn closeErrCodeTrafficLimitReached] else []))
  end.

Definition handle_request (a : stream_answers) (rnd : entropy) : outcome (list event) :=
  match ReadTCPRequest (s_in a) with
  | Err _ => Ret [CloseStream]
  | Ok (reqAddr, _) =>
      if hookSet && s_check a reqAddr then
        r ← respond true (bytes_of_string "RequestHook enabled") rnd;
        let evs := [SetReqAddr reqAddr; SetState StreamStateHooking] ++ r ++ [HookTCP reqAddr] in
        match s_hook a reqAddr with
        | None => Ret (evs ++ [CloseStream])
        | Some (putback, addr) =>
            p ← proxy a true addr putback rnd;
            Ret (evs ++ setHookedReqAddr reqAddr addr ++ p)
        end
      else
        p ← proxy a false reqAddr [] rnd;
        Ret ([SetReqAddr reqAddr] ++ p)
  end.

Definition handleTCPRequest (a : stream_answers) (rnd : entropy) : outcome (list event) :=
  evs ← handle_request a rnd;
  Ret ([SetState StreamStateInitial] ++ (if TrafficLogger hooks then [TraceStream] else []) ++ evs
       ++ (if TrafficLogger hooks then [UntraceStream] else []) ++ [SetState StreamStateClosed]).
End Stream.

(** ** A connection's life *)
Section Life.
Context `{QuicCongestion} `{FloatToInt} `{FloatToUint} `{!MapRange Z Z} `{QuicVarint}.
Context {C : Type} `{!QuicConn C}.
Context (MinInitialPacketSize : Z) (debug : bool) (hmac_sha256 : bytes → bytes → bytes).
Context (config : Config) (hooks : Hooks).

(** Requests and streams as they come, and what is seen of them. *)
Inductive label : Type :=
| Req (r : Request) (rnd : entropy)
| Open (ft : Z) (data : bytes) (err : bool).

Inductive note : Type :=
| Answer (r : Request) (resp : Response)
| Did (e : event)
| Stream (request : bytes).

Definition step (h : h3sHandler C) (l : label) : outcome (h3sHandler C * list note) :=
  match l with
  | Req r rnd =>
      '(h, resp, evs) ← ServeHTTP MinInitialPacketSize debug hmac_sha256 config hooks r rnd h;
      Ret (h, Answer r resp :: (Did <$> evs))
  | Open ft data err =>
      Ret (h, match ProxyStreamHijacker ft data err h with Ok (Some rest) => [Stream rest] | _ => [] end)
  end.

Fixpoint steps (h : h3sHandler C) (ls : list label) : outcome (h3sHandler C * list note) :=
  match ls with
  | [] => Ret (h, [])
  | l :: ls => '(h, ns) ← step h l; '(h, ns') ← steps h ls; Ret (h, ns ++ ns')
  end.

Definition credentials (r : Request) : bool * string :=
  let a := AuthRequestFromHeader (ReqHeader r) in Authenticate hooks (Auth a) (req_Rx a).

(** A request that the authenticator lets in as [id]. *)
Definition grants (id : string) (n : note) : Prop :=
  match n with
  | Answer r (AuthOK _) => isAuthRequest r = true ∧ credentials r = (true, id)
  | _ => False
  end.

Definition count {A} (f : A → bool) (l : list A) : Z := len (List.filter f l).

Lemma count_app {A} (f : A → bool) l k : count f (l ++ k) = count f l + count f k.
Proof. unfold count. by rewrite List.filter_app, len_app. Qed.

Definition b2z (b : bool) : Z := if b then 1 else 0.

Lemma count_nil {A} (f : A → bool) : count f [] = 0.
Proof. done. Qed.

Lemma count_cons {A} (f : A → bool) x l : count f (x :: l) = b2z (f x) + count f l.
Proof. unfold count. cbn. destruct (f x); [apply len_cons | done]. Qed.

Lemma count_none {A} (f : A → bool) l : (∀ x, x ∈ l → f x = false) → count f l = 0.
Proof.
  induction l as [|x l IH]; [done|]. intros Hf. rewrite count_cons, Hf by left. cbn. apply IH. intros. apply Hf. by right.
Qed.

Definition is_connect (n : note) : bool := match n with Did (Connect _ _) => true | _ => false end.
Definition is_online (n : note) : bool := match n with Did (LogOnlineState _ true) => true | _ => false end.
Definition is_run (n : note) : bool := match n with Did (RunUDP _) => true | _ => false end.
Definition is_masquerade (n : note) : bool := match n with Answer _ Masquerade => true | _ => false end.
Definition is_refused (n : note) : bool :=
  match n with Answer r Masquerade => isAuthRequest r | _ => false end.
(** What only an authenticated client may cause. *)
Definition is_proxied (n : note) : bool :=
  match n with Stream _ | Did _ | Answer _ (AuthOK _) => true | Answer _ Masquerade => false end.

(** The state of a connection against what has been seen of it since the
    handler was made with the counters [st]. *)
Record Inv (st : Stats) (log : list note) (h : h3sHandler C) : Prop := {
  inv_granted : authenticated h = true → ∃ l1 n l2, log = l1 ++ n :: l2 ∧ grants (authID h) n ∧ count is_proxied l1 = 0;
  inv_guard : authenticated h = false → count is_proxied log = 0;
  inv_connect : count is_connect log = b2z (authenticated h && EventLogger hooks);
  inv_online : count is_online log = b2z (authenticated h && TrafficLogger hooks);
  inv_run : count is_run log = b2z (authenticated h && negb (DisableUDP config)) ∧ Z.of_nat (managers h) = count is_run log;
  inv_ids e : Did e ∈ log → match e with
                            | LogOnlineState id on => id = authID h ∧ on = true
                            | Connect id _ | RunUDP id => id = authID h
                            | _ => False
                            end;
  inv_masq : MasqFallback (stats h) = u64 (MasqFallback st + count is_masquerade log);
  inv_failed : MasqAuthFailed (stats h) = u64 (MasqAuthFailed st + count is_refused log);
}.

Lemma response_returns rnd : returns (AuthResponseToHeader ∅ (authResponse config) (Some (scheme hmac_sha256 config)) rnd).
Proof.
  unfold AuthResponseToHeader, scheme. cbv zeta. simpl orDefault.
  destruct (scheme_generates hmac_sha256 (PaddingSeed config)
    (AuthResponse_pad (NewPaddingScheme hmac_sha256 (PaddingSeed config))) rnd) as [pad ->];
    [by right; left | by eexists].
Qed.

Lemma u64_add a b : u64 (u64 a + b) = u64 (a + b).
Proof. unfold wrapU. by rewrite Z.add_mod_idemp_l. Qed.
Lemma returns_Ret {A} (o : outcome A) : returns o → ∃ a, o = Ret a.
Proof. destruct o as [a|]; [by eexists | by intros [? ?]]. Qed.

Lemma Did_in_Answer e r resp evs : Did e ∈ Answer r resp :: (Did <$> evs) ↔ e ∈ evs.
Proof. rewrite elem_of_cons, list_elem_of_fmap. split; [intros [?|(e' & [= ->] & ?)]; done | eauto]. Qed.

(** An answer by the masquerade only moves the counters. *)
Lemma Inv_masquerade st log h r (refused : bool) :
  Inv st log h → isAuthRequest r = refused →
  Inv st (log ++ [Answer r Masquerade]) (masqHandler (if refused then countAuthFailed h else h)).
Proof.
  intros [Hgr Hg Hc Ho Hr Hi Hm Hf] Hrf.
  assert (authenticated (masqHandler (if refused then countAuthFailed h else h)) = authenticated h ∧
          authID (masqHandler (if refused then countAuthFailed h else h)) = authID h ∧
          managers (masqHandler (if refused then countAuthFailed h else h)) = managers h) as (Ea & Ei & Em)
    by by destruct refused.
  split; rewrite ?Ea, ?Ei, ?Em, ?count_app, ?count_cons, ?count_nil; cbn; rewrite ?Z.add_0_r; try done.
  - intros Ha. destruct (Hgr Ha) as (l1 & n & l2 & -> & Hn & Hz). exists l1, n, (l2 ++ [Answer r Masquerade]).
    by rewrite <-app_assoc.
  - intros e. rewrite elem_of_app, list_elem_of_singleton. intros [?|[=]]. by apply Hi.
  - by destruct refused; cbn; rewrite Hm, u64_add, Z.add_assoc.
  - rewrite Hrf. destruct refused; cbn; rewrite Hf; [by rewrite u64_add, Z.add_assoc | by rewrite Z.add_0_r].
Qed.

(** The step that lets the client in. *)
Lemma Inv_grant st log h r header conn tx id :
  Inv st log h → authenticated h = false → isAuthRequest r = true → credentials r = (true, id) →
  let udp := negb (DisableUDP config) in
  Inv st (log ++ Answer r (AuthOK header) :: (Did <$>
            ((if TrafficLogger hooks then [LogOnlineState id true] else [])
             ++ (if EventLogger hooks then [Connect id tx] else []) ++ (if udp then [RunUDP id] else []))))
    (mkHandler conn true id (if udp then S (managers h) else managers h) (stats h)).
Proof.
  intros [Hgr Hg Hc Ho Hr Hi Hm Hf] Ha Hq Hid udp. rewrite Ha in *. cbn in Hc, Ho, Hr.
  assert (∀ e, Did e ∉ log) as Hno.
  { intros e (l1 & l2 & ->)%list_elem_of_split. specialize (Hg eq_refl).
    rewrite count_app, count_cons in Hg. cbn in Hg. unfold count in Hg.
    pose proof (len_nonneg (List.filter is_proxied l1)). pose proof (len_nonneg (List.filter is_proxied l2)). lia. }
  destruct Hr as [Hr1 Hr2].
  split; cbn; rewrite ?count_app, ?count_cons, ?fmap_app, ?count_app.
  - intros _. exists log. eexists _, _. split; [done|]. split; [done | by apply Hg].
  - done.
  - rewrite Hc. by destruct (TrafficLogger hooks), (EventLogger hooks), udp.
  - rewrite Ho. by destruct (TrafficLogger hooks), (EventLogger hooks), udp.
  - rewrite Hr1 in *. subst udp. destruct (TrafficLogger hooks), (EventLogger hooks), (DisableUDP config); cbn -[Z.of_nat];
      rewrite ?count_cons, ?count_nil; cbn -[Z.of_nat]; lia.
  - intros e. rewrite elem_of_app, elem_of_cons, <-!fmap_app, list_elem_of_fmap.
    intros [Hin|[[=]|(e' & [= ->] & Hin)]]; [by apply Hno in Hin|].
    rewrite !elem_of_app in Hin.
    destruct Hin as [Hin|[Hin|Hin]]; repeat case_match; rewrite ?elem_of_nil, ?list_elem_of_singleton in Hin;
      try done; by simplify_eq.
  - rewrite Hm. f_equal. destruct (TrafficLogger hooks), (EventLogger hooks), udp; cbn; rewrite ?count_cons, ?count_nil; cbn; lia.
  - rewrite Hf. f_equal. destruct (TrafficLogger hooks), (EventLogger hooks), udp; cbn; rewrite ?count_cons, ?count_nil; cbn; lia.
Qed.

(** Anything an authenticated client may cause, and nothing else. *)
Lemma Inv_allowed st log h n :
  Inv st log h → authenticated h = true →
  (match n with Stream _ | Answer _ (AuthOK _) => True | _ => False end) → Inv st (log ++ [n]) h.
Proof.
  intros [Hgr Hg Hc Ho Hr Hi Hm Hf] Ha Hn. rewrite Ha in *.
  assert (is_connect n = false ∧ is_online n = false ∧ is_run n = false ∧ is_masquerade n = false ∧ is_refused n = false)
    as (E1 & E2 & E3 & E4 & E5) by by destruct n as [? []| |].
  split; rewrite ?Ha, ?count_app, ?count_cons, ?count_nil, ?E1, ?E2, ?E3, ?E4, ?E5; cbn; rewrite ?Z.add_0_r; try done.
  - intros _. destruct (Hgr eq_refl) as (l1 & n' & l2 & -> & Hn' & Hz). exists l1, n', (l2 ++ [n]). by rewrite <-app_assoc.
  - intros e. rewrite elem_of_app, list_elem_of_singleton. intros [?|<-]; [by apply Hi | done].
Qed.

Lemma connection_step_Inv st log h l :
  Inv st log h → ends_in (step h l) (λ '(h', ns), Inv st (log ++ ns) h').
Proof.
  intros HI. destruct l as [r rnd|ft data err]; cbn.
  - unfold ServeHTTP. destruct (isAuthRequest r) eqn:Er; cbn [negb].
    2:{ cbn [mbind outcome_bind]. apply ends_Ret. exact (Inv_masquerade st log h r false HI Er). }
    destruct (returns_Ret _ (response_returns rnd)) as [header Hh].
    destruct (authenticated h) eqn:Ea.
    + rewrite Hh. cbn [mbind outcome_bind]. apply ends_Ret. by apply Inv_allowed.
    + destruct (Authenticate hooks _ _) as [ok id] eqn:Eid. destruct ok; cbn [negb].
      2:{ cbn [mbind outcome_bind]. apply ends_Ret. exact (Inv_masquerade st log h r true HI Er). }
      destruct (install _ _ _ _ _) as [conn tx]. rewrite Hh. cbn [mbind outcome_bind]. apply ends_Ret.
      by apply Inv_grant.
  - apply ends_Ret. unfold ProxyStreamHijacker. destruct (err || negb (authenticated h)) eqn:Eg.
    { by rewrite app_nil_r. }
    apply orb_false_elim in Eg as [_ Ea%negb_false_iff].
    destruct (ft =? FrameTypeTCPRequest); [|by rewrite app_nil_r].
    destruct (qv_Read data) as [e|[v rest]]; cbn; [by rewrite app_nil_r|]. by apply Inv_allowed.
Qed.
Lemma connection_steps_Inv st ls log h :
  Inv st log h → ends_in (steps h ls) (λ '(h', ns), Inv st (log ++ ns) h').
Proof.
  revert log h. induction ls as [|l ls IH]; intros log h HI; cbn.
  - apply ends_Ret. by rewrite app_nil_r.
  - eapply ends_bind; [by apply connection_step_Inv|]. intros [h1 ns] H1'. eapply ends_bind; [by apply IH|].
    intros [h2 ns'] H2'. apply ends_Ret. by rewrite app_assoc.
Qed.

Definition stats_ok (st : Stats) : Prop := 0 <= MasqFallback st < 2 ^ 64 ∧ 0 <= MasqAuthFailed st < 2 ^ 64.

Lemma new_Inv conn st : stats_ok st → Inv st [] (newH3sHandler conn st).
Proof.
  intros [Hm Hf]. split; cbn; rewrite ?count_nil, ?Z.add_0_r; try done.
  - by intros e ?%not_elem_of_nil.
  - by rewrite wrapU_small.
  - by rewrite wrapU_small.
Qed.

(** C8: however requests and streams follow each other on a connection,
    nothing panics and nothing is done for the client before a request that
    the authenticator lets in: no stream is taken, no UDP session manager is
    started, nothing is logged and this protocol's response is not sent.  From
    then on the identity is the one that request gave: connecting is logged
    once, disconnecting as often, with that identity, one session manager is
    started if UDP is enabled, and the counters of the masquerade are the
    numbers of answers it gave, in all and to refused credentials. *)
Theorem connection_guarded conn st ls :
  stats_ok st →
  ends_in (steps (newH3sHandler conn st) ls) (λ '(h, log),
    (count is_proxied log = 0 ∧ authenticated h = false ∨
     ∃ l1 n l2, log = l1 ++ n :: l2 ∧ count is_proxied l1 = 0 ∧ grants (authID h) n) ∧
    (let whole := log ++ (Did <$> disconnect hooks h) in
     count is_connect whole = b2z (authenticated h && EventLogger hooks) ∧
     count (λ n, match n with Did (Disconnect _) => true | _ => false end) whole = count is_connect whole ∧
     count is_online whole = b2z (authenticated h && TrafficLogger hooks) ∧
     count (λ n, match n with Did (LogOnlineState _ false) => true | _ => false end) whole = count is_online whole ∧
     (∀ id, Did (Disconnect id) ∈ whole ∨ (∃ tx, Did (Connect id tx) ∈ whole) ∨ (∃ on, Did (LogOnlineState id on) ∈ whole)
            → id = authID h)) ∧
    count is_run log = b2z (authenticated h && negb (DisableUDP config)) ∧
    MasqFallback (stats h) = u64 (MasqFallback st + count is_masquerade log) ∧
    MasqAuthFailed (stats h) = u64 (MasqAuthFailed st + count is_refused log)).
Proof.
  intros Hst. eapply ends_mono; [apply connection_steps_Inv, new_Inv, Hst|]. cbn. intros [h log] [Hgr Hg Hc Ho [Hr _] Hi Hm Hf].
  split; [|split; [|done]].
  { destruct (authenticated h); [right|left; auto].
    destruct (Hgr eq_refl) as (l1 & n & l2 & -> & Hn & Hz). by exists l1, n, l2. }
  assert (∀ f : note → bool, (∀ n, f n = true → ∃ e, n = Did e ∧ match e with LogOnlineState _ false | Disconnect _ => True | _ => False end)
    → count f log = 0) as Hnone.
  { intros f Hd. apply count_none. intros n Hn. destruct (f n) eqn:Ef; [|done].
    destruct (Hd n Ef) as (e & -> & He). specialize (Hi e Hn). destruct e; try done. by destruct Hi as [_ ->]. }
  cbv zeta. rewrite !count_app, Hc, Ho, !Hnone.
  2,3: intros [|e|] Hn; try done; exists e; destruct e; try done; by destruct online.
  unfold disconnect. split_and!.
  1-4: destruct (authenticated h), (TrafficLogger hooks), (EventLogger hooks), (ConnStatsLogger hooks); reflexivity.
  intros id Hid. assert (∃ e, Did e ∈ log ++ (Did <$> disconnect hooks h) ∧
    match e with Disconnect i | Connect i _ | LogOnlineState i _ => i = id | _ => False end) as (e & He & Hei)
    by (destruct Hid as [?|[[x ?]|[x ?]]];
        [by exists (Disconnect id)|by exists (Connect id x)|by exists (LogOnlineState id x)]).
  apply elem_of_app in He as [He|(e' & [= <-] & He)%list_elem_of_fmap].
  - specialize (Hi e He). destruct e; simplify_eq; try done. by destruct Hi.
  - unfold disconnect in He.
    destruct (authenticated h), (TrafficLogger hooks), (EventLogger hooks), (ConnStatsLogger hooks); cbn in He;
      repeat (apply elem_of_cons in He as [->|He]; [by cbn in Hei|]); by apply elem_of_nil in He.
Qed.
End Life.

(** ** The life of a stream *)

(** What the two ends of a stream are given, in order. *)
Definition to_client (evs : list event) : bytes :=
  concat ((λ e, match e with Respond b | WriteStream b => b | _ => [] end) <$> evs).
Definition to_target (evs : list event) : bytes :=
  concat ((λ e, match e with WriteTarget b => b | _ => [] end) <$> evs).

Lemma to_client_app l k : to_client (l ++ k) = to_client l ++ to_client k.
Proof. unfold to_client. by rewrite fmap_app, concat_app. Qed.
Lemma to_target_app l k : to_target (l ++ k) = to_target l ++ to_target k.
Proof. unfold to_target. by rewrite fmap_app, concat_app. Qed.

Definition wrote (evs : list copy_event) : bytes :=
  concat ((λ e, match e with Wrote c => c | Logged _ => [] end) <$> evs).
Definition logged (evs : list copy_event) : bytes :=
  concat ((λ e, match e with Logged c => c | Wrote _ => [] end) <$> evs).
Definition read_bytes (reads : list read_answer) : bytes := concat (r_data <$> reads).

(** What is written is what was read, in order and without gaps; all of it when
    the source ends or the loop still waits, and never more than was logged. *)
Lemma copyBufferLog_spec reads :
  let '(evs, res) := copyBufferLog reads in
  wrote evs `prefix_of` logged evs ∧ logged evs `prefix_of` read_bytes reads ∧
  (res = None → wrote evs = read_bytes reads) ∧
  (res = Some None → ∃ rs rest, reads = rs ++ rest ∧ wrote evs = read_bytes rs) ∧
  (Forall (λ r, r_log r = true) reads → res ≠ Some (Some ErrDisconnect)).
Proof.
  induction reads as [|r rs IH]; cbn [copyBufferLog].
  { split_and!; try done; try apply prefix_nil. }
  cbv zeta. set (rec := copyBufferLog rs) in *.
  assert (∀ l : bytes, l `prefix_of` read_bytes rs → (r_data r ++ l) `prefix_of` read_bytes (r :: rs)) as Hcons
    by (intros l [k Hk]; exists k; unfold read_bytes in *; cbn; by rewrite Hk, app_assoc).
  destruct (decide (r_data r = [])) as [Ed|Ed].
  { destruct (r_end r).
    - destruct rec as [evs res]. destruct IH as (H1 & H2 & H3 & H4 & H5). split_and!; try done.
      + specialize (Hcons _ H2). by rewrite Ed in Hcons.
      + intros Hr. unfold read_bytes. cbn. rewrite Ed. by apply H3.
      + intros Hr. destruct (H4 Hr) as (a & b & -> & Hw). exists (r :: a), b. split; [done|].
        unfold read_bytes. cbn. by rewrite Ed.
      + intros [_ ?]%Forall_cons. by apply H5.
    - split_and!; try done; try apply prefix_nil. intros _. exists [r], rs. split; [done|]. unfold read_bytes. cbn. by rewrite Ed.
    - split_and!; try done; apply prefix_nil. }
  assert ([] `prefix_of` read_bytes rs) as Hnil by apply prefix_nil.
  specialize (Hcons [] Hnil) as H1. rewrite app_nil_r in H1.
  destruct (r_log r) eqn:El; cbn [negb].
  2:{ unfold wrote, logged. cbn. rewrite app_nil_r. split_and!; try done; [apply prefix_nil|].
      intros [? _]%Forall_cons. congruence. }
  destruct (r_write r); cbn [negb].
  2:{ unfold wrote, logged. cbn. rewrite app_nil_r. by split_and!. }
  assert (let '(evs, res) := match r_end r with More => rec | EndOfFile => ([], Some None) | ReadErr => ([], Some (Some ErrRead)) end in
    wrote evs `prefix_of` logged evs ∧ logged evs `prefix_of` read_bytes rs ∧
    (res = None → wrote evs = read_bytes rs) ∧
    (res = Some None → ∃ a b, rs = a ++ b ∧ wrote evs = read_bytes a) ∧
    (Forall (λ r, r_log r = true) rs → res ≠ Some (Some ErrDisconnect))) as Hend.
  { destruct (r_end r); [exact IH| |]; split_and!; try done; try apply prefix_nil. intros _. by exists [], rs. }
  destruct (match r_end r with More => rec | EndOfFile => _ | ReadErr => _ end) as [evs res].
  destruct Hend as (P1 & P2 & P3 & P4 & P5). unfold wrote, logged in *. cbn. split_and!.
  - by apply prefix_app.
  - by apply Hcons.
  - intros Hr. unfold read_bytes. cbn. by rewrite P3.
  - intros Hr. destruct (P4 Hr) as (a & b & -> & Hw). exists (r :: a), b. split; [done|]. unfold read_bytes. cbn. by rewrite Hw.
  - intros [_ ?]%Forall_cons. by apply P5.
Qed.

Lemma to_client_copied id d evs :
  to_client (copied id d <$> evs) = match d with ToClient => wrote evs | ToTarget => [] end.
Proof.
  unfold to_client, wrote. induction evs as [|[c|c] evs IH]; destruct d; cbn; try done; by f_equal.
Qed.

Lemma to_target_copied id d evs :
  to_target (copied id d <$> evs) = match d with ToTarget => wrote evs | ToClient => [] end.
Proof.
  unfold to_target, wrote. induction evs as [|[c|c] evs IH]; destruct d; cbn; try done; by f_equal.
Qed.

Definition is_copy (e : event) : bool :=
  match e with LogTraffic _ _ _ | WriteStream _ | WriteTarget _ => true | _ => false end.

Lemma copied_is_copy id d evs : Forall (λ e, is_copy e = true) (copied id d <$> evs).
Proof. apply Forall_fmap, Forall_true. by intros [] ; destruct d. Qed.

Lemma drop_logs evs : to_client (filter (λ ev, negb (is_log ev)) evs) = to_client evs
  ∧ to_target (filter (λ ev, negb (is_log ev)) evs) = to_target evs.
Proof.
  unfold to_client, to_target. induction evs as [|e evs [IH1 IH2]]; [done|].
  rewrite !filter_cons. destruct (decide (negb (is_log e))) as [Hd|Hd]; destruct e; cbn in Hd |- *; try done;
    rewrite ?IH1, ?IH2; done.
Qed.

(** Both copies: only traffic, each direction a prefix of what its source gave;
    the client is only thrown out when the logger refused a chunk. *)
Lemma copying_spec (logging : bool) id first toClient toTarget :
  let '(evs, err) := if logging then copyTwoWayEx id first toClient toTarget else copyTwoWay first toClient toTarget in
  Forall (λ e, is_copy e = true) evs ∧
  to_client evs `prefix_of` read_bytes toClient ∧ to_target evs `prefix_of` read_bytes toTarget ∧
  (err = Some ErrDisconnect → logging = true ∧ ∃ r, r ∈ toClient ++ toTarget ∧ r_log r = false).
Proof.
  assert (∀ rs, (copyBufferLog rs).2 = Some (Some ErrDisconnect) → ∃ r, r ∈ rs ∧ r_log r = false) as Href.
  { intros rs Hr. pose proof (copyBufferLog_spec rs) as Hs. destruct (copyBufferLog rs) as [evs res].
    destruct Hs as (_ & _ & _ & _ & Hs). destruct (decide (Forall (λ r, r_log r = true) rs)) as [Hf|Hf]; [by specialize (Hs Hf)|].
    apply not_Forall_Exists in Hf; [|intros x; apply _]. apply Exists_exists in Hf as (r & Hin & Hl). exists r.
    split; [done|]. by apply not_true_is_false. }
  assert (∀ rs, wrote (copyBufferLog rs).1 `prefix_of` read_bytes rs) as Hpre.
  { intros rs. pose proof (copyBufferLog_spec rs) as Hs. destruct (copyBufferLog rs) as [evs res].
    destruct Hs as (Hp & Hq & _). by etrans. }
  assert (∀ rs, read_bytes (without_log <$> rs) = read_bytes rs) as Hwl
    by (intros rs; unfold read_bytes; by rewrite <-list_fmap_compose).
  destruct logging; [|unfold copyTwoWay]; unfold copyTwoWayEx; cbv beta iota zeta.
  - split_and!.
    + apply Forall_app. split; apply copied_is_copy.
    + by rewrite to_client_app, !to_client_copied, app_nil_r.
    + by rewrite to_target_app, !to_target_copied, app_nil_l.
    + intros He. split; [done|]. set (rs := match first with ToClient => toClient | ToTarget => toTarget end) in He.
      destruct (Href rs) as (r & Hin & Hl); [by destruct (copyBufferLog rs).2 as [[]|]; simplify_eq/=|].
      exists r. split; [|done]. apply elem_of_app. subst rs. destruct first; auto.
  - split_and!.
    + apply list.Forall_forall. intros e [_ [He|He]%elem_of_app]%list_elem_of_filter.
      * revert e He. apply list.Forall_forall, copied_is_copy.
      * revert e He. apply list.Forall_forall, copied_is_copy.
    + by rewrite (proj1 (drop_logs _)), to_client_app, !to_client_copied, app_nil_r, <-(Hwl toClient).
    + by rewrite (proj2 (drop_logs _)), to_target_app, !to_target_copied, app_nil_l, <-(Hwl toTarget).
    + intros He. exfalso.
      set (rs := match first with ToClient => without_log <$> toClient | ToTarget => without_log <$> toTarget end) in He.
      destruct (Href rs) as (r & Hin & Hl); [by destruct (copyBufferLog rs).2 as [[]|]; simplify_eq/=|].
      subst rs. destruct first; apply list_elem_of_fmap in Hin as (? & -> & _); done.
Qed.

Section StreamSpec.
Context `{QuicVarint} (hmac_sha256 : bytes → bytes → bytes) (config : Config) (hooks : Hooks).
Context (hookSet : bool) (id : string).

(** What the request asks for in the end: the target, what is put back first,
    and whether the hook took the request; nothing when it cannot be read or
    the hook refuses it. *)
Definition verdict (a : stream_answers) : option (bytes * bytes * bool) :=
  match ReadTCPRequest (s_in a) with
  | Err _ => None
  | Ok (addr, _) =>
      if hookSet && s_check a addr
      then match s_hook a addr with Some (putback, addr) => Some (addr, putback, true) | None => None end
      else Some (addr, [], false)
  end.

Definition frame (ok : bool) (msg : bytes) (rnd : entropy) : outcome bytes :=
  WriteTCPResponse ok msg (Some (scheme hmac_sha256 config)) rnd.

Lemma frame_returns ok msg rnd : len msg < 2 ^ 62 → ∃ f, frame ok msg rnd = Ret f.
Proof.
  intros Hm. unfold frame, scheme. pose proof (len_nonneg msg).
  destruct (scheme_generates hmac_sha256 (PaddingSeed config)
    (TCPResponse_pad (NewPaddingScheme hmac_sha256 (PaddingSeed config))) rnd) as [pad Hpad]; [by right; right; right; left|].
  pose proof (NewPaddingScheme_pads_ok hmac_sha256 (PaddingSeed config)) as Hok. rewrite list.Forall_forall in Hok.
  destruct (Hok (TCPResponse_pad (NewPaddingScheme hmac_sha256 (PaddingSeed config)))) as [Hmin Hmax]; [by right; right; right; left|].
  unfold MaxPaddingLength in *.
  destruct (generate_spec _ rnd Hmin) as (pad' & Hpad' & Hl & _); [lia|]. rewrite Hpad' in Hpad. simplify_eq.
  destruct (varint_bytes_spec (len msg)) as (l & El & Ll & _); [unfold maxVarInt8; lia|].
  destruct (varint_bytes_spec (len pad)) as (p & Ep & Lp & _); [unfold maxVarInt8; lia|].
  eexists. by eapply WriteTCPResponse_wire.
Qed.

(** The dials, with their outcome. *)
Definition dials (evs : list event) : list (bytes * bool) :=
  omap (λ e, match e with Dial t ok => Some (t, ok) | _ => None end) evs.
Definition is_connected (e : event) : bool := match e with Dial _ true => true | _ => false end.
Definition is_close_target (e : event) : bool := match e with CloseTarget => true | _ => false end.
Definition is_close_stream (e : event) : bool := match e with CloseStream => true | _ => false end.
Definition is_kick (e : event) : bool := match e with CloseConn _ => true | _ => false end.
Definition is_trace (e : event) : bool := match e with TraceStream => true | _ => false end.
Definition is_untrace (e : event) : bool := match e with UntraceStream => true | _ => false end.

(** The order of the states of a stream. *)
Definition states (evs : list event) : list Z :=
  omap (λ e, match e with
             | SetState StreamStateInitial => Some 0 | SetState StreamStateHooking => Some 1
             | SetState StreamStateConnecting => Some 2 | SetState StreamStateEstablished => Some 3
             | SetState StreamStateClosed => Some 4 | _ => None end) evs.

Lemma copy_counts (f : event → bool) evs :
  (∀ e, is_copy e = true → f e = false) → Forall (λ e, is_copy e = true) evs → count f evs = 0.
Proof. intros Hf He. apply count_none. intros x Hx. apply Hf. by eapply list.Forall_forall in He. Qed.

Lemma copy_states evs : Forall (λ e, is_copy e = true) evs → states evs = [].
Proof. unfold states. induction 1 as [|e evs He _ IH]; [done|]. by destruct e. Qed.

Lemma copy_dials evs : Forall (λ e, is_copy e = true) evs → dials evs = [].
Proof. unfold dials. induction 1 as [|e evs He _ IH]; [done|]. by destruct e. Qed.

Lemma dials_app l k : dials (l ++ k) = dials l ++ dials k.
Proof. apply omap_app. Qed.

Lemma states_app l k : states (l ++ k) = states l ++ states k.
Proof. apply omap_app. Qed.

(** What a stream's events amount to. *)
Record served (a : stream_answers) (rnd : entropy) (evs : list event) : Prop := {
  sv_closed : count is_close_stream evs = 1;
  sv_target : count is_close_target evs = count is_connected evs;
  sv_dials : dials evs = match verdict a with Some (t, _, _) => [(t, bool_decide (s_dial a t = None))] | None => [] end;
  sv_kick : count is_kick evs = 0 ∨ TrafficLogger hooks = true ∧ ∃ r, r ∈ s_toClient a ++ s_toTarget a ∧ r_log r = false;
  sv_trace : count is_trace evs = b2z (TrafficLogger hooks) ∧ count is_untrace evs = b2z (TrafficLogger hooks);
  sv_states : StronglySorted Z.lt (states evs) ∧ last (states evs) = Some 4;
  sv_data : match verdict a with
            | None => to_target evs = []
            | Some (t, p, hooked) =>
                match s_dial a t with
                | None => (∃ d, to_target evs = p ++ d ∧ d `prefix_of` read_bytes (s_toTarget a)) ∧
                          ∃ f d, frame true (bytes_of_string (if hooked then "RequestHook enabled" else "Connected")) rnd = Ret f ∧
                            to_client evs = f ++ d ∧ d `prefix_of` read_bytes (s_toClient a)
                | Some err => to_target evs = [] ∧
                    frame hooked (if hooked then bytes_of_string "RequestHook enabled" else err) rnd = Ret (to_client evs)
                end
            end;
}.
(** Each of these observations of a list put together from pieces. *)
Ltac observe :=
  rewrite ?count_app, ?count_cons, ?count_nil, ?states_app, ?dials_app, ?to_client_app, ?to_target_app; cbn;
  rewrite ?count_app, ?count_cons, ?count_nil, ?states_app, ?dials_app, ?to_client_app, ?to_target_app; cbn.

(** The same of the part after the hook: it starts by connecting. *)
Record proxied (a : stream_answers) (hooked : bool) (t p : bytes) (rnd : entropy) (evs : list event) : Prop := {
  px_closed : count is_close_stream evs = 1;
  px_target : count is_close_target evs = count is_connected evs;
  px_dials : dials evs = [(t, bool_decide (s_dial a t = None))];
  px_kick : count is_kick evs = 0 ∨ TrafficLogger hooks = true ∧ ∃ r, r ∈ s_toClient a ++ s_toTarget a ∧ r_log r = false;
  px_trace : count is_trace evs = 0 ∧ count is_untrace evs = 0;
  px_states : states evs = [2] ∨ states evs = [2; 3];
  px_data : match s_dial a t with
            | None => (∃ d, to_target evs = p ++ d ∧ d `prefix_of` read_bytes (s_toTarget a)) ∧
                      ∃ f d, (if hooked then Ret [] else frame true (bytes_of_string "Connected") rnd) = Ret f ∧
                        to_client evs = f ++ d ∧ d `prefix_of` read_bytes (s_toClient a)
            | Some err => to_target evs = [] ∧ (if hooked then Ret [] else frame false err rnd) = Ret (to_client evs)
            end;
}.

Lemma respond_spec (hooked ok : bool) msg rnd : len msg < 2 ^ 62 →
  ∃ r f, (if hooked then Ret [] else respond hmac_sha256 config ok msg rnd) = Ret r ∧
         (if hooked then Ret [] else frame ok msg rnd) = Ret f ∧
         to_client r = f ∧ to_target r = [] ∧ states r = [] ∧ dials r = [] ∧
         ∀ g, (∀ b, g (Respond b) = false) → count g r = 0.
Proof.
  intros Hm. destruct hooked; [by exists [], []|].
  destruct (frame_returns ok msg rnd Hm) as [f Hf]. exists [Respond f], f.
  unfold respond. change (WriteTCPResponse ok msg _ rnd) with (frame ok msg rnd). rewrite Hf.
  split_and!; try done; [unfold to_client; cbn; by rewrite app_nil_r|]. intros g Hg. by rewrite count_cons, Hg.
Qed.

Lemma proxy_spec a hooked t p rnd :
  (∀ err, s_dial a t = Some err → len err < 2 ^ 62) →
  ends_in (proxy hmac_sha256 config hooks id a hooked t p rnd) (proxied a hooked t p rnd).
Proof.
  intros Herr. unfold proxy. cbv zeta. destruct (s_dial a t) as [err|] eqn:Ed.
  - destruct (respond_spec hooked false err rnd (Herr err eq_refl)) as (r & f & -> & Hf & Hc & Ht & Hs & Hd & Hg).
    cbn [mbind outcome_bind]. apply ends_Ret.
    split; rewrite ?Ed; try (destruct (EventLogger hooks); observe; rewrite ?Hg, ?Hs, ?Hd, ?Ht, ?Hc by done; cbn; by auto).
    destruct (EventLogger hooks); observe; rewrite Ht, Hc; cbn; rewrite app_nil_r; by split.
  - assert (len (bytes_of_string "Connected") < 2 ^ 62) as Hl by (vm_compute; done).
    destruct (respond_spec hooked true _ rnd Hl) as (r & f & -> & Hf & Hc & Ht & Hs & Hd & Hg).
    cbn [mbind outcome_bind].
    pose proof (copying_spec (TrafficLogger hooks) id (s_first a) (s_toClient a) (s_toTarget a)) as Hcp.
    destruct (if TrafficLogger hooks then _ else _) as [evs err]. destruct Hcp as (Hq & Htc & Htt & Hk).
    apply ends_Ret.
    assert (∀ g, (∀ e, is_copy e = true → g e = false) → count g evs = 0) as Hg' by (intros; by apply copy_counts).
    assert (to_target (if decide (p = []) then [] else [WriteTarget p]) = p ∧
            to_client (if decide (p = []) then [] else [WriteTarget p]) = [] ∧
            states (if decide (p = []) then [] else [WriteTarget p]) = [] ∧
            dials (if decide (p = []) then [] else [WriteTarget p]) = [] ∧
            ∀ g, (∀ b, g (WriteTarget b) = false) → count g (if decide (p = []) then [] else [WriteTarget p]) = 0)
      as (Hp1 & Hp2 & Hp3 & Hp4 & Hp5).
    { destruct (decide (p = [])) as [->|]; [done|]. unfold to_target. cbn. rewrite app_nil_r.
      split_and!; try done. intros g Hgb. by rewrite count_cons, Hgb. }
    set (pb := if decide (p = []) then [] else [WriteTarget p]) in *.
    set (kick := if decide (err = Some ErrDisconnect) then [CloseConn closeErrCodeTrafficLimitReached] else []).
    assert (to_target kick = [] ∧ to_client kick = [] ∧ states kick = [] ∧ dials kick = [] ∧
            ∀ g, (∀ c, g (CloseConn c) = false) → count g kick = 0) as (Hk1 & Hk2 & Hk3 & Hk4 & Hk5).
    { unfold kick. case_decide; [|done]. split_and!; try done. intros g Hgb. by rewrite count_cons, Hgb. }
    assert (count is_kick kick = 0 ∨ err = Some ErrDisconnect) as Hk0 by (unfold kick; case_decide; auto).
    clearbody pb kick.
    split; rewrite ?Ed.
    + destruct (EventLogger hooks); observe; rewrite Hg, Hp5, Hg', Hk5 by (done || by intros []); done.
    + destruct (EventLogger hooks); observe; rewrite !Hg, !Hp5, !Hg', !Hk5 by (done || by intros []); done.
    + destruct (EventLogger hooks); observe; rewrite Hd, Hp4, (copy_dials evs Hq), Hk4; done.
    + destruct Hk0 as [Hk0|Hk0]; [left|right; by apply Hk].
      destruct (EventLogger hooks); observe; rewrite Hg, Hp5, Hg', Hk0 by (done || by intros []); done.
    + split; destruct (EventLogger hooks); observe; rewrite Hg, Hp5, Hg', Hk5 by (done || by intros []); done.
    + right. destruct (EventLogger hooks); observe; rewrite Hs, Hp3, (copy_states evs Hq), Hk3; done.
    + split.
      * exists (to_target evs). split; [|done].
        destruct (EventLogger hooks); observe; rewrite Ht, Hp1, Hk1; cbn; by rewrite app_nil_r.
      * exists f, (to_client evs). split; [done|]. split; [|done].
        destruct (EventLogger hooks); observe; rewrite Hc, Hp2, Hk2; cbn; by rewrite app_nil_r.
Qed.

(** Events that none of the observations see. *)
Lemma setHookedReqAddr_spec x y :
  let l := setHookedReqAddr x y in
  to_target l = [] ∧ to_client l = [] ∧ states l = [] ∧ dials l = [] ∧
  ∀ g, (∀ b, g (SetHookedReqAddr b) = false) → count g l = 0.
Proof.
  cbv zeta. unfold setHookedReqAddr. case_decide; [done|]. split_and!; try done. intros g Hg. by rewrite count_cons, Hg.
Qed.

(** A request that reaches the dial, with what goes before. *)
Lemma served_proxied a hooked t p rnd evs before :
  verdict a = Some (t, p, hooked) → proxied a hooked t p rnd evs →
  to_target before = [] → dials before = [] →
  states before = (if hooked then [1] else []) →
  (if hooked then frame true (bytes_of_string "RequestHook enabled") rnd else Ret []) = Ret (to_client before) →
  (∀ g, (∀ e, match e with SetReqAddr _ | SetState _ | Respond _ | HookTCP _ | SetHookedReqAddr _ => g e = false | _ => True end)
     → count g before = 0) →
  served a rnd ([SetState StreamStateInitial] ++ (if TrafficLogger hooks then [TraceStream] else []) ++ (before ++ evs)
    ++ (if TrafficLogger hooks then [UntraceStream] else []) ++ [SetState StreamStateClosed]).
Proof.
  intros Hv [P1 P2 P3 P4 [P5 P6] P7 P8] Bt Bd Bs Bc Bg.
  assert (count is_close_stream before = 0 ∧ count is_close_target before = 0 ∧ count is_connected before = 0 ∧
          count is_kick before = 0 ∧ count is_trace before = 0 ∧ count is_untrace before = 0)
    as (B1 & B2 & B3 & B4 & B5 & B6) by (split_and!; apply Bg; by intros []).
  split; rewrite ?Hv.
  - destruct (TrafficLogger hooks); observe; rewrite B1, P1; done.
  - destruct (TrafficLogger hooks); observe; rewrite B2, B3, P2; done.
  - destruct (TrafficLogger hooks); observe; rewrite Bd, P3; done.
  - destruct P4 as [P4|P4]; [left|by right]. destruct (TrafficLogger hooks); observe; rewrite B4, P4; done.
  - destruct (TrafficLogger hooks); observe; rewrite B5, B6, P5, P6; done.
  - assert (states ([SetState StreamStateInitial] ++ (if TrafficLogger hooks then [TraceStream] else []) ++ (before ++ evs)
      ++ (if TrafficLogger hooks then [UntraceStream] else []) ++ [SetState StreamStateClosed])
      = 0 :: (if hooked then [1] else []) ++ states evs ++ [4]) as ->
      by (destruct (TrafficLogger hooks); observe; by rewrite Bs, <-app_assoc).
    destruct P7 as [-> | ->], hooked; (split; [repeat constructor | done]).
  - assert (∀ l, to_target ([SetState StreamStateInitial] ++ (if TrafficLogger hooks then [TraceStream] else []) ++ (before ++ l)
        ++ (if TrafficLogger hooks then [UntraceStream] else []) ++ [SetState StreamStateClosed]) = to_target l ∧
      to_client ([SetState StreamStateInitial] ++ (if TrafficLogger hooks then [TraceStream] else []) ++ (before ++ l)
        ++ (if TrafficLogger hooks then [UntraceStream] else []) ++ [SetState StreamStateClosed]) = to_client before ++ to_client l)
      as Hwrap by (intros l; destruct (TrafficLogger hooks); observe; by rewrite ?Bt, ?app_nil_r).
    rewrite (proj1 (Hwrap evs)), (proj2 (Hwrap evs)). destruct (s_dial a t) as [err|].
    + destruct P8 as [P8 P9]. split; [done|].
      destruct hooked; [by injection P9 as <-; rewrite app_nil_r | by injection Bc as <-].
    + destruct P8 as [P8 (f & d & P9 & P10 & P11)]. split; [done|].
      destruct hooked; [injection P9 as <- | injection Bc as <-]; eexists _, d; (split; [done|]); by rewrite P10.
Qed.

Lemma stream_run a rnd :
  (∀ t err, s_dial a t = Some err → len err < 2 ^ 62) →
  ends_in (handleTCPRequest hmac_sha256 config hooks hookSet id a rnd) (served a rnd).
Proof.
  intros Herr. unfold handleTCPRequest, handle_request, verdict.
  destruct (ReadTCPRequest (s_in a)) as [e|[addr rest]] eqn:Er.
  { cbn [mbind outcome_bind]. apply ends_Ret.
    split; unfold verdict; rewrite ?Er; destruct (TrafficLogger hooks); observe; auto.
    all: split; [|done]; repeat constructor. }
  destruct (hookSet && s_check a addr) eqn:Eh.
  - assert (len (bytes_of_string "RequestHook enabled") < 2 ^ 62) as Hl by (vm_compute; done).
    destruct (respond_spec false true _ rnd Hl) as (r & f & -> & Hf & Hc & Ht & Hs & Hd & Hg). cbn [mbind outcome_bind].
    destruct (s_hook a addr) as [[putback t]|] eqn:Ek.
    + destruct (proxy_spec a true t putback rnd (Herr t)) as (evs & -> & Hp). cbn [mbind outcome_bind].
      apply ends_Ret. rewrite (app_assoc ([SetReqAddr addr; SetState StreamStateHooking] ++ r ++ [HookTCP addr])).
      destruct (setHookedReqAddr_spec addr t) as (S1 & S2 & S3 & S4 & S5).
      apply served_proxied with (hooked := true) (t := t) (p := putback).
      * unfold verdict. by rewrite Er, Eh, Ek.
      * done.
      * observe. by rewrite Ht, S1.
      * observe. by rewrite Hd, S4.
      * observe. by rewrite Hs, S3.
      * observe. rewrite Hc, S2, !app_nil_r. exact Hf.
      * intros g Hgs. observe. rewrite Hg by (intros b; apply (Hgs (Respond b))).
        rewrite S5 by (intros b; apply (Hgs (SetHookedReqAddr b))).
        pose proof (Hgs (SetReqAddr addr)) as ->. pose proof (Hgs (SetState StreamStateHooking)) as ->.
        pose proof (Hgs (HookTCP addr)) as ->. done.
    + apply ends_Ret.
      split; unfold verdict; rewrite ?Er, ?Eh, ?Ek; destruct (TrafficLogger hooks); observe;
        rewrite ?Hg, ?Ht, ?Hs, ?Hd by done; cbn; auto.
      all: split; [|done]; repeat constructor.
  - destruct (proxy_spec a false addr [] rnd (Herr addr)) as (evs & -> & Hp). cbn [mbind outcome_bind].
    apply ends_Ret. apply served_proxied with (hooked := false) (t := addr) (p := []); try done.
    + unfold verdict. by rewrite Er, Eh.
    + intros g Hgs. rewrite count_cons. by rewrite (Hgs (SetReqAddr addr)).
Qed.

End StreamSpec.

(** ** Concrete runs *)
#[local] Program Instance amd64 : FloatToInt := {| out_of_range _ := MinInt64 |}.
Next Obligation. done. Qed.
#[local] Program Instance amd64_unsigned : FloatToUint := {| out_of_range_u _ := 2 ^ 63 |}.
Next Obligation. done. Qed.
#[local] Existing Instance quic_go.
#[local] Existing Instance rfc9000.
#[local] Existing Instance sim_quic.
#[local] Instance canonical_lost : MapRange Z Z := canonical_range Z Z.

Definition sample_hooks : Hooks := mkHooks true true false (λ auth _, (bool_decide (auth = "secret"), "user")).
Definition sample_conn : sim_conn := mkSim true (UDPAddr (be_bytes 4 1) 443) 1280 Reno.

Definition sample_request (auth : string) : Request :=
  mkRequest MethodPost URLHost URLPath (Header_Set ∅ RequestHeaderAuth auth).

(** A stream too early, a refused request, one that is let in, a stream. *)
Definition sample_labels : list label :=
  [Open FrameTypeTCPRequest [Byte.x44; Byte.x01] false; Req (sample_request "guess") zero_entropy;
   Req (sample_request "secret") zero_entropy; Open FrameTypeTCPRequest [Byte.x44; Byte.x01] false].

Lemma connection_guarded_witness :
  ∃ h log, steps 1200 false zero_hmac sample_server sample_hooks (newH3sHandler sample_conn (mkStats 0 0 0)) sample_labels = Ret (h, log) ∧
    authID h = "user" ∧ count is_masquerade log = 1 ∧
    MasqFallback (stats h) = u64 (0 + count is_masquerade log) ∧ List.In (Stream []) log.
Proof.
  assert (stats_ok (mkStats 0 0 0)) as Hst by (unfold stats_ok; cbn; lia).
  destruct (connection_guarded 1200 false zero_hmac sample_server sample_hooks sample_conn (mkStats 0 0 0) sample_labels Hst)
    as ([h log] & E & _ & _ & _ & Hm & _).
  exists h, log. split; [exact E|].
  vm_compute in E. injection E as <- <-. split; [reflexivity|]. split; [reflexivity|]. split; [exact Hm|].
  repeat first [left; reflexivity | right].
Defined.

(** "a:1" with no padding, for which the target answers once and ends. *)
Definition sample_stream : stream_answers :=
  mkAnswers ([Byte.x03; Byte.x61; Byte.x3a; Byte.x31; Byte.x00] ++ [Byte.x68]) (λ _, false) (λ _, None) (λ _, None) ToClient
    [mkRead [Byte.x6f; Byte.x6b] EndOfFile true true] [mkRead [Byte.x68] More true true].

