(* ===== verification/Endpoints.v ===== *)
(** * The two ends together

    The client's [connect] against the server's [ServeHTTP], and a proxied
    stream from the client's [TCP] through the server's hijacker and
    [handleTCPRequest] to the target and back. *)
From S2P Require Import ClientConn CoreServer GoStd Utf8 Prelude Netip Float Pacer Brutal BbrState Bbr Protocol Http Frag Config Congestion UdpClient Reconnect.

Section Ends.
Context `{QuicCongestion} `{FloatToInt} `{FloatToUint} `{!MapRange Z Z} `{QuicVarint} `{UnicodeTables}.
Context {C : Type} `{!QuicConn C}.
Context (MinInitialPacketSize : Z) (debug pmtud : bool) (hmac_sha256 : bytes → bytes → bytes).

(** The rate of a sender that knows its own limit or does not (zero), towards a
    receiver that has declared one or has none (zero). *)
Definition sending_rate (own declared : Z) : Z :=
  if own =? 0 then 0 else if declared =? 0 then own else Z.min own declared.

(** The rate of a server with a limit or without (zero), towards a client that
    has declared what it can take or does not know it (zero). *)
Definition granted_rate (limit declared : Z) : Z :=
  if declared =? 0 then 0 else if limit =? 0 then declared else Z.min limit declared.

(** The request the client sends, as the server's HTTP layer hands it on. *)
Definition auth_request (header : Header) : CoreServer.Request :=
  CoreServer.mkRequest CoreServer.MethodPost CoreServer.URLHost CoreServer.URLPath header.

Definition server_answer (scfg : Server.Config) (hooks : CoreServer.Hooks) (rnd : entropy) (h : CoreServer.h3sHandler C)
    (header : Header) : outcome (CoreServer.h3sHandler C * CoreServer.Response * list CoreServer.event) :=
  CoreServer.ServeHTTP MinInitialPacketSize debug hmac_sha256 scfg hooks (auth_request header) rnd h.

(** What the server does with the request, as the client's round trip sees it:
    [masq] is the masquerade's answer. *)
Definition round_trip (scfg : Server.Config) (hooks : CoreServer.Hooks) (rnd : entropy) (h : CoreServer.h3sHandler C)
    (q : C) (masq : Z * Header) (header : Header) : option C * option (Z * Header) :=
  match server_answer scfg hooks rnd h header with
  | Ret (_, CoreServer.AuthOK hdr, _) => (Some q, Some (StatusAuthOK, hdr))
  | Ret (_, CoreServer.Masquerade, _) => (Some q, Some masq)
  | Panic => (Some q, None)
  end.

Definition rates_ok (b : BandwidthConfig) : Prop := 0 <= MaxTx b <= MaxUint64 ∧ 0 <= MaxRx b <= MaxUint64.

Lemma AuthResponse_read hmac seed resp rnd :
  0 <= resp_Rx resp <= MaxUint64 →
  ∃ h', AuthResponseToHeader ∅ resp (Some (NewPaddingScheme hmac seed)) rnd = Ret h' ∧
    AuthResponseFromHeader h' = mkAuthResponse (UDPEnabled resp) (if RxAuto resp then 0 else resp_Rx resp) (RxAuto resp) ∧
    IsAuthResponse h' = true.
Proof.
  intros Hrx. destruct resp as [u rx auto]. cbn in *.
  change (AuthResponseToHeader ∅ (mkAuthResponse u rx auto)) with
    (λ ps, AuthResponseToHeader ∅ (mkAuthResponse u rx auto) ps).
  destruct auto.
  - destruct (AuthResponse_read_back hmac seed ∅ (mkAuthResponse u 0 true) rnd) as (h' & E & E2 & E3); [cbn; unfold MaxUint64; lia|done|].
    exists h'. by split.
  - by apply AuthResponse_read_back.
Qed.

Lemma install_agrees scfg rx q : installed q = Reno → 0 <= rx → 0 <= MaxTx (Server.Bandwidth scfg) →
  let '(q', tx) := CoreServer.install MinInitialPacketSize debug scfg rx q in
  tx = (if Server.IgnoreClientBandwidth scfg then 0 else granted_rate (MaxTx (Server.Bandwidth scfg)) rx) ∧
  serves MinInitialPacketSize debug
    (if 0 <? tx then AgreedRate tx (DisableLossCompensation (Server.Bandwidth scfg))
     else Configured (Type_ (Server.Congestion scfg)) (BBRProfile (Server.Congestion scfg))) (installed q').
Proof.
  intros Hq Hrx Hmax. unfold CoreServer.install, CoreServer.serverTx, granted_rate, CoreServer.useConfigured.
  destruct (Server.IgnoreClientBandwidth scfg).
  { split; [done|]. by apply UseConfigured_serves. }
  set (tx := if (0 <? _) && (_ <? rx) then _ else rx).
  assert (tx = (if rx =? 0 then 0 else if MaxTx (Server.Bandwidth scfg) =? 0 then rx else Z.min (MaxTx (Server.Bandwidth scfg)) rx)) as <-.
  { unfold tx. destruct (Z.ltb_spec 0 (MaxTx (Server.Bandwidth scfg))), (Z.ltb_spec (MaxTx (Server.Bandwidth scfg)) rx),
      (Z.eqb_spec rx 0), (Z.eqb_spec (MaxTx (Server.Bandwidth scfg)) 0); cbn; lia. }
  split; [done|]. destruct (0 <? tx); [apply UseBrutal_serves | by apply UseConfigured_serves].
Qed.

Lemma actualTx_rate scfg maxTx : 0 <= MaxRx (Server.Bandwidth scfg) → 0 <= maxTx →
  ClientConn.actualTx (mkAuthResponse (negb (Server.DisableUDP scfg))
    (if Server.IgnoreClientBandwidth scfg then 0 else MaxRx (Server.Bandwidth scfg)) (Server.IgnoreClientBandwidth scfg)) maxTx =
  if Server.IgnoreClientBandwidth scfg then 0 else sending_rate maxTx (MaxRx (Server.Bandwidth scfg)).
Proof.
  intros. unfold ClientConn.actualTx, sending_rate. cbn. destruct (Server.IgnoreClientBandwidth scfg); [done|].
  destruct (Z.eqb_spec (MaxRx (Server.Bandwidth scfg)) 0), (Z.ltb_spec maxTx (MaxRx (Server.Bandwidth scfg))), (Z.eqb_spec maxTx 0); cbn; lia.
Qed.

(** C10: a client and a server of the same configuration of bandwidths agree on
    what the connection does in each direction, whatever the padding: if the
    authenticator accepts the credentials, which reach it unchanged with the
    client's receive rate, the client learns whether UDP is enabled and runs
    Brutal at the lesser of its own rate and the server's limit, and the
    server at the lesser of its own limit and what the client can take, each
    the configured controller when no rate is known or the server ignores
    them.  If it refuses them the client gets whatever the masquerade says,
    and closes everything when that is not this protocol's response. *)
Theorem handshake_agrees (cfg : Client.Config) (scfg : Server.Config) hooks rndC rndS sq q masq st :
  rates_ok (Client.Bandwidth cfg) → rates_ok (Server.Bandwidth scfg) →
  installed q = Reno → installed sq = Reno → IsAuthResponse masq.2 = false →
  let rt := round_trip scfg hooks rndS (CoreServer.newH3sHandler sq st) q masq in
  let '(ok, id) := CoreServer.Authenticate hooks (Client.Auth cfg) (MaxRx (Client.Bandwidth cfg)) in
  if ok then
    let up := if Server.IgnoreClientBandwidth scfg then 0 else sending_rate (MaxTx (Client.Bandwidth cfg)) (MaxRx (Server.Bandwidth scfg)) in
    let down := if Server.IgnoreClientBandwidth scfg then 0 else granted_rate (MaxTx (Server.Bandwidth scfg)) (MaxRx (Client.Bandwidth cfg)) in
    ∃ c info header h resp evs,
      ClientConn.connect MinInitialPacketSize debug hmac_sha256 cfg true rt rndC = Ret (Ok (c, info), []) ∧
      server_answer scfg hooks rndS (CoreServer.newH3sHandler sq st) header = Ret (h, resp, evs) ∧
      ClientConn.Tx info = up ∧ ClientConn.info_UDPEnabled info = negb (Server.DisableUDP scfg) ∧
      CoreServer.authenticated h = true ∧ CoreServer.authID h = id ∧
      (∀ q', ClientConn.conn c = Some q' → serves MinInitialPacketSize debug
         (if 0 <? up then AgreedRate up (DisableLossCompensation (Client.Bandwidth cfg))
          else Configured (Type_ (Client.Congestion cfg)) (BBRProfile (Client.Congestion cfg))) (installed q')) ∧
      serves MinInitialPacketSize debug
         (if 0 <? down then AgreedRate down (DisableLossCompensation (Server.Bandwidth scfg))
          else Configured (Type_ (Server.Congestion scfg)) (BBRProfile (Server.Congestion scfg))) (installed (CoreServer.h_conn h))
  else
    ClientConn.connect MinInitialPacketSize debug hmac_sha256 cfg true rt rndC =
      Ret (Err (ClientConn.AuthError masq.1),
           [ClientConn.CloseWithError ClientConn.closeErrCodeProtocolError; ClientConn.TransportClose; ClientConn.PktConnClose]).
Proof.
  intros [HcT HcR] [HsT HsR] Hq Hsq Hmasq rt.
  destruct (AuthRequest_read_back hmac_sha256 (Client.PaddingSeed cfg) ∅
    (mkAuthRequest (Client.Auth cfg) (MaxRx (Client.Bandwidth cfg))) rndC) as (header & Eh & Er); [done|].
  assert (server_answer scfg hooks rndS (CoreServer.newH3sHandler sq st) header =
    let '(ok, id) := CoreServer.Authenticate hooks (Client.Auth cfg) (MaxRx (Client.Bandwidth cfg)) in
    if ok then
      let '(conn, tx) := CoreServer.install MinInitialPacketSize debug scfg (MaxRx (Client.Bandwidth cfg)) sq in
      hdr ← AuthResponseToHeader ∅ (CoreServer.authResponse scfg) (Some (CoreServer.scheme hmac_sha256 scfg)) rndS;
      let udp := negb (Server.DisableUDP scfg) in
      Ret (CoreServer.mkHandler conn true id (if udp then 1%nat else 0%nat) st, CoreServer.AuthOK hdr,
         (if CoreServer.TrafficLogger hooks then [CoreServer.LogOnlineState id true] else [])
         ++ (if CoreServer.EventLogger hooks then [CoreServer.Connect id tx] else [])
         ++ (if udp then [CoreServer.RunUDP id] else []))
    else Ret (CoreServer.masqHandler (CoreServer.countAuthFailed (CoreServer.newH3sHandler sq st)), CoreServer.Masquerade, [])) as Hans.
  { unfold server_answer, CoreServer.ServeHTTP, auth_request, CoreServer.isAuthRequest. cbn.
    rewrite Er. cbn. destruct (CoreServer.Authenticate hooks _ _) as [[] id]; done. }
  destruct (CoreServer.Authenticate hooks _ _) as [ok id]. unfold ClientConn.connect, ClientConn.scheme. cbn [negb].
  rewrite Eh. cbn [mbind outcome_bind]. unfold rt, round_trip. rewrite Hans. clear rt. destruct ok.
  - pose proof (install_agrees scfg (MaxRx (Client.Bandwidth cfg)) sq Hsq (proj1 HcR) (proj1 HsT)) as Hins.
    destruct (CoreServer.install _ _ _ _ _) as [conn tx]. destruct Hins as [-> Hins].
    destruct (AuthResponse_read hmac_sha256 (Server.PaddingSeed scfg) (CoreServer.authResponse scfg) rndS HsR) as (hdr & Ehdr & Eread & Eis).
    unfold CoreServer.scheme in Hans |- *. rewrite Ehdr in Hans |- *. cbn [mbind outcome_bind] in Hans |- *.
    rewrite Eis, Eread. unfold StatusAuthOK at 1. cbn [negb orb Z.eqb Pos.eqb]. cbv zeta.
    cbn [CoreServer.authResponse UDPEnabled resp_Rx RxAuto]. rewrite (actualTx_rate scfg _ (proj1 HsR) (proj1 HcT)).
    eexists _, _, header, _, _, _. split; [reflexivity|]. split; [exact Hans|]. split_and!; try done.
    intros q' [= <-]. unfold ClientConn.installCongestionControl. cbn [ClientConn.txRate ClientConn.config].
    set (up := if Server.IgnoreClientBandwidth scfg then 0 else sending_rate _ _).
    destruct (0 <? up); [apply UseBrutal_serves | by apply UseConfigured_serves].
  - cbn [mbind outcome_bind]. destruct masq as [ms mh]. cbn in Hmasq. rewrite Hmasq. cbn [negb]. by rewrite orb_true_r.
Qed.
(** ** A proxied stream, end to end *)

Lemma TCPRequest_in hmac seed : TCPRequest_pad (NewPaddingScheme hmac seed) ∈ pads (NewPaddingScheme hmac seed).
Proof. by right; right; left. Qed.
Lemma TCPResponse_in hmac seed : TCPResponse_pad (NewPaddingScheme hmac seed) ∈ pads (NewPaddingScheme hmac seed).
Proof. by right; right; right; left. Qed.

Lemma pad_varint hmac seed p rnd pad :
  p ∈ pads (NewPaddingScheme hmac seed) → generate p rnd = Ret pad →
  ∃ v, varint_bytes (len pad) = Ret v ∧ len v = qv_Len (len pad).
Proof.
  intros Hp Hg. pose proof (NewPaddingScheme_pads_ok hmac seed) as Hok. rewrite list.Forall_forall in Hok.
  destruct (Hok p Hp) as [Hmin Hmax]. unfold MaxPaddingLength in *.
  destruct (generate_spec p rnd Hmin) as (pad' & E & Hl & _); [lia|]. rewrite E in Hg. injection Hg as ->.
  destruct (varint_bytes_spec (len pad)) as (v & ? & ? & _); [unfold maxVarInt8; lia|]. by exists v.
Qed.

(** A response whose message is too long is refused by the reader. *)
Lemma long_response_refused ok msg rnd f rest scfg :
  MaxMessageLength < len msg < 2 ^ 62 → CoreServer.frame hmac_sha256 scfg ok msg rnd = Ret f →
  ReadTCPResponse (f ++ rest) = Err (ProtocolError "invalid message length").
Proof.
  intros Hm Hf. unfold CoreServer.frame, CoreServer.scheme in Hf.
  destruct (scheme_generates hmac_sha256 (Server.PaddingSeed scfg)
    (TCPResponse_pad (NewPaddingScheme hmac_sha256 (Server.PaddingSeed scfg))) rnd) as [pad Hpad]; [apply TCPResponse_in|].
  destruct (varint_bytes_spec (len msg)) as (l & El & Ll & Rl); [unfold maxVarInt8, MaxMessageLength in *; lia|].
  destruct (pad_varint _ _ _ _ _ (TCPResponse_in _ _) Hpad) as (p & Ep & Lp).
  rewrite (WriteTCPResponse_wire ok msg (Some _) rnd pad l p Hpad El Ll Ep Lp) in Hf.
  assert (f = [if ok then Byte.x00 else Byte.x01] ++ l ++ msg ++ p ++ pad) as -> by congruence. clear Hf.
  unfold ReadTCPResponse. rewrite <-!app_assoc, ReadFull_app by done. cbn [mbind result_bind].
  rewrite Rl. cbn [mbind result_bind]. by rewrite (proj2 (Z.ltb_lt _ _)) by lia.
Qed.

(** The request of an address the server does not take. *)
Lemma bad_address_refused addr rnd cfg :
  len addr = 0 ∨ MaxAddressLength < len addr < 2 ^ 62 →
  ∃ body, WriteTCPRequest addr (Some (ClientConn.scheme hmac_sha256 cfg)) rnd = Ret ([Byte.x44; Byte.x01] ++ body) ∧
    ∀ rest, ReadTCPRequest (body ++ rest) = Err (ProtocolError "invalid address length").
Proof.
  intros Ha. pose proof (len_nonneg addr). unfold ClientConn.scheme.
  destruct (scheme_generates hmac_sha256 (Client.PaddingSeed cfg)
    (TCPRequest_pad (NewPaddingScheme hmac_sha256 (Client.PaddingSeed cfg))) rnd) as [pad Hpad]; [apply TCPRequest_in|].
  destruct (varint_bytes_spec (len addr)) as (l & El & Ll & Rl); [unfold maxVarInt8, MaxAddressLength in *; lia|].
  destruct (pad_varint _ _ _ _ _ (TCPRequest_in _ _) Hpad) as (p & Ep & Lp).
  exists (l ++ addr ++ p ++ pad). split.
  - apply (WriteTCPRequest_wire addr (Some _) rnd pad [Byte.x44; Byte.x01] l p); try done. by rewrite qv_Len_spec.
  - intros rest. unfold ReadTCPRequest. rewrite <-app_assoc, Rl. cbn [mbind result_bind].
    destruct Ha as [-> | Ha]; [done|]. by rewrite (proj2 (Z.ltb_lt _ _)), orb_true_r by lia.
Qed.
(** The answers, with the request that came on the stream. *)
Definition with_in (rest : bytes) (a : CoreServer.stream_answers) : CoreServer.stream_answers :=
  CoreServer.mkAnswers rest (CoreServer.s_check a) (CoreServer.s_hook a) (CoreServer.s_dial a)
    (CoreServer.s_first a) (CoreServer.s_toClient a) (CoreServer.s_toTarget a).

(** The error that a call through the reconnecting client sees. *)
Definition call_of {A} (r : result ClientConn.client_error A) : call_result :=
  match r with
  | Ok _ => CallOk
  | Err (ClientConn.ClosedError _) => CallClosed
  | Err _ => CallErr
  end.

(** The hijacker hands the body of a request on. *)
Lemma hijacked (h : CoreServer.h3sHandler C) body : CoreServer.authenticated h = true →
  CoreServer.ProxyStreamHijacker FrameTypeTCPRequest ([Byte.x44; Byte.x01] ++ body) false h = Ok (Some body).
Proof.
  intros Ha. unfold CoreServer.ProxyStreamHijacker. rewrite Ha. cbn [negb orb]. rewrite Z.eqb_refl.
  destruct (varint_bytes_spec FrameTypeTCPRequest) as (t & Et & _ & Rt); [unfold maxVarInt8, FrameTypeTCPRequest; lia|].
  assert (t = [Byte.x44; Byte.x01]) as -> by (vm_compute in Et; congruence). by rewrite Rt.
Qed.

(** What a client that waits for the response makes of a stream whose request
    or whose failure the two ends cannot agree on. *)
Lemma unreadable_is_closed (c : ClientConn.clientImpl C) incoming rnd addr req e :
  Client.FastOpen (ClientConn.config c) = false →
  WriteTCPRequest addr (Some (ClientConn.scheme hmac_sha256 (ClientConn.config c))) rnd = Ret req →
  ReadTCPResponse incoming = Err e →
  ∃ result, ClientConn.TCP hmac_sha256 addr None None incoming rnd c = Ret (req, result) ∧ call_of result = CallClosed.
Proof.
  intros Hfo Hw He. unfold ClientConn.TCP. rewrite Hw. cbn [mbind outcome_bind]. rewrite Hfo, He. by eexists.
Qed.

(** A request that does not read ends the stream with nothing sent back. *)
Lemma refused_request_dropped scfg hooks id a rnd e :
  ReadTCPRequest (CoreServer.s_in a) = Err e →
  ∃ evs, CoreServer.handleTCPRequest hmac_sha256 scfg hooks false id a rnd = Ret evs ∧
    ReadTCPResponse (CoreServer.to_client evs) = Err EOF.
Proof.
  intros Hr. unfold CoreServer.handleTCPRequest, CoreServer.handle_request. rewrite Hr.
  cbn [mbind outcome_bind]. eexists. split; [done|]. destruct (CoreServer.TrafficLogger hooks); vm_compute; done.
Qed.

(** C12: a stream error is taken for the end of the connection.  When the
    client asks for an address that the server's reader refuses (empty, or
    longer than 2048 bytes), or for one whose dial fails with a message longer
    than 2048 bytes, [TCP] reports the connection as closed; the reconnecting
    client then forgets the connection, which is alive and is never closed,
    and makes another for the next call. *)
Theorem stream_error_drops_connection (c : ClientConn.clientImpl C) scfg hooks id a addr rndC rndS i x rc :
  Client.FastOpen (ClientConn.config c) = false →
  len addr = 0 ∨ MaxAddressLength < len addr < 2 ^ 62 ∨
    (1 <= len addr <= MaxAddressLength ∧ ∃ err, CoreServer.s_dial a addr = Some err ∧ MaxMessageLength < len err) →
  (∀ t err, CoreServer.s_dial a t = Some err → len err < 2 ^ 62) →
  calls rc !! i = Some x → client rc = Some x →
  ∃ rest evs result,
    CoreServer.handleTCPRequest hmac_sha256 scfg hooks false id (with_in rest a) rndS = Ret evs ∧
    ClientConn.TCP hmac_sha256 addr None None (CoreServer.to_client evs) rndC c = Ret ([Byte.x44; Byte.x01] ++ rest, result) ∧
    call_of result = CallClosed ∧
    let '(rc', log) := clientDo_end i (call_of result) rc in
    client rc' = None ∧ (∀ y, ConnClosed y ∉ log) ∧
    ∀ j, (clientDo_begin j true true rc').2 =
      if closed rc then [Returned j CallClosed] else [Connected (made rc) (i64 (count rc + 1))].
Proof.
  intros Hfo Hcase Herr Hcall Hcur.
  assert (∃ rest evs e, WriteTCPRequest addr (Some (ClientConn.scheme hmac_sha256 (ClientConn.config c))) rndC
      = Ret ([Byte.x44; Byte.x01] ++ rest) ∧
    CoreServer.handleTCPRequest hmac_sha256 scfg hooks false id (with_in rest a) rndS = Ret evs ∧
    ReadTCPResponse (CoreServer.to_client evs) = Err e) as (rest & evs & e & Hw & Hev & He).
  { assert ((len addr = 0 ∨ MaxAddressLength < len addr < 2 ^ 62) ∨
      (1 <= len addr <= MaxAddressLength ∧ ∃ err, CoreServer.s_dial a addr = Some err ∧ MaxMessageLength < len err))
      as [Hbad|(Hok & err & Hd & Hl)] by tauto.
    { destruct (bad_address_refused addr rndC (ClientConn.config c) Hbad) as (body & Hw & Hr).
      pose proof (Hr []) as Hr0. rewrite app_nil_r in Hr0.
      destruct (refused_request_dropped scfg hooks id (with_in body a) rndS _ Hr0) as (evs & Hev & He).
      by eexists body, evs, _. }
    destruct (TCPRequest_read_back hmac_sha256 (Client.PaddingSeed (ClientConn.config c)) addr rndC Hok) as (body & Hw & Hr).
    specialize (Hr []). rewrite app_nil_r in Hr.
    destruct (CoreServer.stream_run hmac_sha256 scfg hooks false id (with_in body a) rndS Herr) as (evs & Hev & Hs).
    destruct Hs as [_ _ _ _ _ _ Hdata].
    assert (CoreServer.verdict false (with_in body a) = Some (addr, [], false)) as Hv by (unfold CoreServer.verdict; cbn; by rewrite Hr).
    rewrite Hv in Hdata. cbn in Hdata. rewrite Hd in Hdata. destruct Hdata as [_ Hf].
    exists body, evs. eexists. split; [exact Hw|]. split; [exact Hev|]. rewrite <-(app_nil_r (CoreServer.to_client evs)).
    eapply long_response_refused; [|exact Hf]. split; [done | by eapply Herr]. }
  destruct (unreadable_is_closed c (CoreServer.to_client evs) rndC addr _ e Hfo Hw He) as (result & Ht & Hc).
  exists rest, evs, result. split; [done|]. split; [done|]. split; [done|]. rewrite Hc.
  unfold clientDo_end. rewrite Hcall. rewrite bool_decide_eq_true_2 by done. split; [done|]. split.
  - intros y. rewrite !elem_of_cons, elem_of_nil. naive_solver.
  - intros j. unfold clientDo_begin, reconnect. cbn. by destruct (closed rc).
Qed.
End Ends.

(** ** Concrete runs *)
#[local] Program Instance amd64 : FloatToInt := {| out_of_range _ := MinInt64 |}.
Next Obligation. done. Qed.
#[local] Program Instance amd64_unsigned : FloatToUint := {| out_of_range_u _ := 2 ^ 63 |}.
Next Obligation. done. Qed.
#[local] Existing Instance quic_go.
#[local] Existing Instance rfc9000.
#[local] Existing Instance sim_quic.
#[local] Existing Instance sample_tables.
#[local] Instance canonical_lost : MapRange Z Z := canonical_range Z Z.

Definition sample_client : Client.Config :=
  Client.mkConfig None (Some (ClientConn.sample_addr 1)) "secret" (Client.mkQUICConfig 0 0 0 0 0 0 false false false)
    (mkCongestion "bbr" "") (mkBandwidth 200000 300000 false) false [Byte.x01] false false.

Definition sample_server : Server.Config :=
  Server.mkConfig 1 false (Server.mkQUICConfig 0 20000 0 0 (5 * Second) 0 false false) true None
    (mkCongestion "bbr" "aggressive") (mkBandwidth 0 125000 false) false false 0 true [Byte.x01] false.

Lemma handshake_agrees_witness :
  ∃ c info, ClientConn.connect 1200 false zero_hmac sample_client true
      (round_trip 1200 false zero_hmac sample_server CoreServer.sample_hooks zero_entropy
         (CoreServer.newH3sHandler CoreServer.sample_conn (CoreServer.mkStats 0 0 0)) CoreServer.sample_conn (404, ∅))
      zero_entropy = Ret (Ok (c, info), []) ∧ ClientConn.Tx info = 125000.
Proof.
  assert (rates_ok (Client.Bandwidth sample_client)) as H1 by (unfold rates_ok; cbn; unfold MaxUint64; lia).
  assert (rates_ok (Server.Bandwidth sample_server)) as H2 by (unfold rates_ok; cbn; unfold MaxUint64; lia).
  pose proof (handshake_agrees 1200 false zero_hmac sample_client sample_server CoreServer.sample_hooks zero_entropy zero_entropy
    CoreServer.sample_conn CoreServer.sample_conn (404, ∅) (CoreServer.mkStats 0 0 0) H1 H2 eq_refl eq_refl eq_refl) as Hh.
  destruct Hh as (c & info & header & h & resp & evs & Hc & _ & Htx & _).
  exists c, info. split; [exact Hc | exact Htx].
Defined.

Definition sample_connected : ClientConn.clientImpl sim_conn :=
  ClientConn.mkClientImpl sample_client (Some CoreServer.sample_conn) 125000 None.
Definition sample_handler : CoreServer.h3sHandler sim_conn :=
  CoreServer.mkHandler CoreServer.sample_conn true "user" 1 (CoreServer.mkStats 0 0 0).


(** One call, on the first connection. *)
Definition sample_reconnecting : reconnectableClientImpl := mkClient (Some 0%nat) 1 false 1 {[ 0%nat := 0%nat ]}.

Lemma stream_error_drops_connection_witness :
  ∃ result, call_of (A := ClientConn.tcpConn) result = CallClosed ∧
    client (clientDo_end 0 (call_of result) sample_reconnecting).1 = None.
Proof.
  assert (len (@nil byte) = 0 ∨ MaxAddressLength < len (@nil byte) < 2 ^ 62 ∨
    (1 <= len (@nil byte) <= MaxAddressLength ∧
     ∃ err, CoreServer.s_dial CoreServer.sample_stream [] = Some err ∧ MaxMessageLength < len err)) as H1 by (left; reflexivity).
  assert (∀ t err, CoreServer.s_dial CoreServer.sample_stream t = Some err → len err < 2 ^ 62) as H2 by discriminate.
  destruct (stream_error_drops_connection zero_hmac sample_connected sample_server CoreServer.sample_hooks "user"
    CoreServer.sample_stream [] zero_entropy zero_entropy 0 0 sample_reconnecting eq_refl H1 H2 eq_refl eq_refl)
    as (rest & evs & result & _ & _ & Hc & Hend).
  exists result. split; [exact Hc|]. rewrite Hc in Hend |- *. exact (proj1 Hend).
Defined.
