(* ===== verification/TimeSource.v ===== *)
(** * The boot-time clock correction (extras/timesource, app/cmd/timesync.go)

    SNTP exchanges with their checks, the median of several, the decision to
    correct a clock, the corrected clock, and the obfuscator that uses it.
    Readings of the clocks, the random source and the servers' answers are
    arguments.  [Now] is one step: a correction is made once, before the clock
    is shared. *)
From S2P Require Import GoStd Utf8 Prelude Obfs.

(** ** Instants with a monotonic reading

    [time.Time] as [time.Now] makes it: both clocks.  [Round(0)], [time.Unix]
    and [time.Parse] leave only the wall clock, in nanoseconds since 1970. *)
Record Time := mkTime { wall : Z; monotonic : option Z }.

Definition wall_time (w : Z) : Time := mkTime w None.
Definition Round0 (t : Time) : Time := wall_time (wall t).

(** The zero Time, in year 1. *)
Definition zero_Time : Time := wall_time (-62135596800 * Second).
Definition IsZero (t : Time) : bool := wall t =? wall zero_Time.

Definition Sub (t u : Time) : Z :=
  match monotonic t, monotonic u with
  | Some m, Some n => time_Sub m n
  | _, _ => time_Sub (wall t) (wall u)
  end.

Definition Add (t : Time) (d : Z) : Time :=
  mkTime (wall t + d)
    (match monotonic t with
     | Some m => if decide (MinInt64 <= m + d <= MaxInt64) then Some (m + d) else None
     | None => None
     end).

Definition Before (t u : Time) : bool :=
  match monotonic t, monotonic u with
  | Some m, Some n => m <? n
  | _, _ => wall t <? wall u
  end.

(** ** SNTP (sntp.go) *)
Definition ntpPacketSize : Z := 48.
Definition ntpEpochOffset : Z := 2208988800.
Definition sntpClientHeader : byte := Byte.x23.
Definition defaultQueryTimeout : Z := 3 * Second.
Definition maxRoundTrip : Z := 5 * Second.

Definition DefaultServers : list string :=
  ["time.cloudflare.com:123"; "time.google.com:123"; "pool.ntp.org:123"].

Inductive exchange_error : Type :=
| errShortPacket | errNotServerMode | errUnsynchronized | errBadStratum
| errNonceMismatch | errZeroTimestamp | errBadRoundTrip
| errRandom | errExchange | errContext.

(** [errAll] is [errors.Join] of each server's. *)
Inductive query_error : Type := ErrNoServers | errAll (es : list (string * exchange_error)).

Record Result := mkResult { res_Server : string; res_Time : Time; Offset : Z; RTT : Z }.

(** What an exchange with a server meets: the context already done, the nonce
    read, the clock before and after, and the answer. *)
Record exchange := mkExchange {
  ctx_done : bool;
  nonce : option bytes;
  x_t1 : Time;
  answer : option bytes;
  x_t4 : Time;
}.

Definition NewSNTPClient (servers : list string) : list string :=
  match servers with [] => DefaultServers | _ => servers end.

(** The time [Exchange] gives a server. *)
Definition query_timeout (timeout : Z) : Z := if timeout <=? 0 then defaultQueryTimeout else timeout.

(** [b[i:j]], within bounds. *)
Definition field (b : bytes) (i j : Z) : bytes := take (Z.to_nat (j - i)) (drop (Z.to_nat i) b).
Definition byte_at (b : bytes) (i : Z) : Z := be_Z (field b i (i + 1)).

Definition request (nonce : bytes) : bytes :=
  sntpClientHeader :: replicate 39 Byte.x00 ++ nonce.

Definition ntpTime (b : bytes) : Time :=
  let sec := be_Z (field b 0 4) in
  let frac := be_Z (field b 4 8) in
  let sec := if Z.land sec 0x80000000 =? 0 then sec + Z.shiftl 1 32 else sec in
  let nsec := Z.shiftr (i64 (frac * Second)) 32 in
  wall_time ((sec - ntpEpochOffset) * Second + nsec).

Definition queryOne (server : string) (x : exchange) : result exchange_error Result :=
  match nonce x with
  | None => Err errRandom
  | Some nonce =>
      match answer x with
      | None => Err errExchange
      | Some resp =>
          if len resp <? ntpPacketSize then Err errShortPacket else
          if Z.shiftr (byte_at resp 0) 6 =? 3 then Err errUnsynchronized else
          if negb (Z.land (byte_at resp 0) 7 =? 4) then Err errNotServerMode else
          let stratum := byte_at resp 1 in
          if (stratum =? 0) || (15 <? stratum) then Err errBadStratum else
          if negb (bool_decide (field resp 24 32 = nonce)) then Err errNonceMismatch else
          if be_Z (field resp 40 48) =? 0 then Err errZeroTimestamp else
          let t2 := ntpTime (field resp 32 40) in
          let t3 := ntpTime (field resp 40 48) in
          let rtt := i64 (Sub (x_t4 x) (x_t1 x) - Sub t3 t2) in
          if (rtt <? 0) || (maxRoundTrip <? rtt) then Err errBadRoundTrip else
          let offset := i64 (Sub t3 (x_t4 x) + quot rtt 2) in
          Ok (mkResult server (Add (x_t4 x) offset) offset rtt)
      end
  end.

(** [sort.Slice] by offset: some permutation in order. *)
Class SortResults := {
  sort_results : list Result → list Result;
  sort_results_perm l : sort_results l ≡ₚ l;
  sort_results_sorted l : StronglySorted (λ a b, Offset a <= Offset b) (sort_results l);
}.

(** The loop over the servers: the measurements and the errors, in order. *)
Fixpoint query_all (xs : list (string * exchange)) : list Result * list (string * exchange_error) :=
  match xs with
  | [] => ([], [])
  | (server, x) :: xs =>
      if ctx_done x then ([], [(""%string, errContext)]) else
      let '(rs, es) := query_all xs in
      match queryOne server x with
      | Ok r => (r :: rs, es)
      | Err e => (rs, (server, e) :: es)
      end
  end.

Definition Query `{SortResults} (xs : list (string * exchange)) : result query_error Result :=
  match xs with
  | [] => Err ErrNoServers
  | _ =>
      let '(rs, es) := query_all xs in
      match sort_results rs !! (length rs `div` 2)%nat with
      | Some r => Ok r
      | None => Err (errAll es)
      end
  end.

(** ** The clock (clock.go) *)
Definition clockStepThreshold : Z := 15 * Second.

Record Clock := mkClock { corrected : bool; offset : Z; anchorWall : Time; anchorMono : Z }.

Definition NewClock : Clock := mkClock false 0 zero_Time 0.

Definition release (c : Clock) : Clock := mkClock false 0 (anchorWall c) (anchorMono c).

(** [wallNow] and [mono] are the readings of the two clocks. *)
Definition Now (wallNow : Time) (mono : Z) (c : Clock) : Clock * Time :=
  let wall := Round0 wallNow in
  if negb (corrected c) then (c, wall) else
  let expected := Add (anchorWall c) (i64 (mono - anchorMono c)) in
  let diff := Sub wall expected in
  if (clockStepThreshold <? diff) || (diff <? - clockStepThreshold) then (release c, wall)
  else (c, Add wall (offset c)).

Definition Correct (offset : Z) (wallNow : Time) (mono : Z) (c : Clock) : Clock :=
  mkClock true offset (Round0 wallNow) mono.

(** ** The policy (policy.go) *)

(** [parse] is [time.Parse(time.RFC3339, _)], [settings] those of the build. *)
Definition BuildTime (parse : string → option Time) (BuildTimeOverride : string)
    (settings : option (list (string * string))) : option Time :=
  match (if bool_decide (BuildTimeOverride = "") then None else parse BuildTimeOverride) with
  | Some t => Some t
  | None =>
      settings ≫= λ l, match List.find (λ s, bool_decide (s.1 = "vcs.time")) l with
                       | Some (_, v) => parse v
                       | None => None
                       end
  end.

Definition NeedsCorrection (local floor : Time) : bool := negb (IsZero floor) && Before local floor.

Inductive sync_error : Type :=
| ErrClockUnsynced (Local Floor : Time) (e : query_error)
| ErrPredatesBuild (Local Floor : Time) (server : string) (time : Time).

(** A reading of both clocks. *)
Record reading := mkReading { r_wall : Time; r_mono : Z }.

(** The readings at the three moments the clocks are read. *)
Definition Bootstrap (query : result query_error Result) (floor : Time) (r1 r2 r3 : reading) (clk : Clock)
    : Clock * (bool * option sync_error) :=
  let '(clk, local) := Now (r_wall r1) (r_mono r1) clk in
  if negb (NeedsCorrection local floor) then (clk, (false, None)) else
  match query with
  | Err e => (clk, (false, Some (ErrClockUnsynced local floor e)))
  | Ok res =>
      if Before (res_Time res) floor
      then (clk, (false, Some (ErrPredatesBuild local floor (res_Server res) (res_Time res))))
      else
        let '(clk, now) := Now (r_wall r2) (r_mono r2) clk in
        (Correct (Sub (res_Time res) now) (r_wall r3) (r_mono r3) clk, (true, None))
  end.

(** ** The programs' use of it (timesync.go) *)
Definition obfsNeedsTimestamps `{UnicodeTables} (obfsType : string) : bool :=
  bool_decide (ToLower obfsType = "salamander-v2").

(** [log] is the reading the log line makes, when there is a logger. *)
Definition bootstrapObfsClock `{UnicodeTables} (obfsType : string) (query : result query_error Result) (floor : Time)
    (r1 r2 r3 : reading) (log : option reading) : result sync_error (option Clock) :=
  if negb (obfsNeedsTimestamps obfsType) then Ok None else
  if IsZero floor then Ok None else
  match Bootstrap query floor r1 r2 r3 NewClock with
  | (_, (_, Some e)) => Err e
  | (_, (false, None)) => Ok None
  | (clk, (true, None)) =>
      Ok (Some (match log with Some r => (Now (r_wall r) (r_mono r) clk).1 | None => clk end))
  end.

Definition buildTimeFloor (built : option Time) : Time := default zero_Time built.

(** The clock an obfuscator stamps its packets with. *)
Definition obfs_now (clk : option Clock) (r : reading) : option Clock * Z :=
  match clk with
  | None => (None, wall (r_wall r))
  | Some c => let '(c, t) := Now (r_wall r) (r_mono r) c in (Some c, wall t)
  end.

(** ** What the measurements are worth *)

(** The instants that a 64-bit NTP time names: 1968 to 2104, but the one
    that reads as no time at all. *)
Definition in_eras (t : Z) : Prop :=
  2 ^ 31 * Second <= t + ntpEpochOffset * Second < (2 ^ 32 + 2 ^ 31) * Second ∧
  t + ntpEpochOffset * Second ≠ 2 ^ 32 * Second.

(** The time a server puts into its answer, cut to 2^-32 of a second. *)
Definition ntp_stamp (t : Z) : bytes :=
  be_bytes 4 (t / Second + ntpEpochOffset) ++ be_bytes 4 (t mod Second * 2 ^ 32 / Second).

Lemma bit31 s : 0 <= s < 2 ^ 32 → (Z.land s 0x80000000 =? 0) = (s <? 2 ^ 31).
Proof.
  intros Hs. change 0x80000000 with (Z.shiftl 1 31). rewrite land_single by lia.
  assert (Z.b2z (Z.testbit s 31) = s / 2 ^ 31) as Hb
    by (rewrite Z.testbit_spec' by lia; Z.to_euclidean_division_equations; lia).
  destruct (Z.testbit s 31), (Z.ltb_spec s (2 ^ 31)); cbn in *; (done || (Z.to_euclidean_division_equations; lia)).
Qed.

Lemma stamp_fields t : field (ntp_stamp t) 0 4 = be_bytes 4 (t / Second + ntpEpochOffset) ∧
  field (ntp_stamp t) 4 8 = be_bytes 4 (t mod Second * 2 ^ 32 / Second).
Proof.
  unfold ntp_stamp, field. split; [apply (take_app_length' _ _ 4) | rewrite (drop_app_length' _ _ 4), take_ge]; try done.
Qed.

Lemma ntpTime_stamp t : in_eras t → ∃ w, ntpTime (ntp_stamp t) = wall_time w ∧ t - 1 <= w <= t.
Proof.
  unfold in_eras, ntpEpochOffset, Second. intros [Ht _]. unfold ntpTime. destruct (stamp_fields t) as [-> ->].
  rewrite !be_Z_be_bytes. unfold ntpEpochOffset, Second. change (256 ^ Z.of_nat 4) with (2 ^ 32).
  set (sec := t / 1000000000 + 2208988800). set (n := t mod 1000000000).
  assert (t = (sec - 2208988800) * 1000000000 + n ∧ 0 <= n < 1000000000) as [Et Hn]
    by (subst sec n; Z.to_euclidean_division_equations; lia).
  assert (2 ^ 31 <= sec < 2 ^ 32 + 2 ^ 31) as Hsec by lia. clearbody sec n.
  assert (0 <= n * 2 ^ 32 / 1000000000 < 2 ^ 32) as Hf by (Z.to_euclidean_division_equations; lia).
  rewrite (Z.mod_small (_ / _)), i64_small by (unfold MinInt64, MaxInt64; lia).
  rewrite Z.shiftr_div_pow2 by lia. rewrite bit31 by (apply Z.mod_pos_bound; lia).
  assert (n - 1 <= n * 2 ^ 32 / 1000000000 * 1000000000 / 2 ^ 32 <= n) as Hns by (Z.to_euclidean_division_equations; lia).
  eexists. split; [done|]. change (Z.shiftl 1 32) with (2 ^ 32).
  destruct (decide (sec < 2 ^ 32)).
  - rewrite Z.mod_small by lia. rewrite (proj2 (Z.ltb_ge _ _)) by lia. lia.
  - replace (sec mod 2 ^ 32) with (sec - 2 ^ 32) by (rewrite <-(Z.mod_add _ (-1)), Z.mod_small; lia).
    rewrite (proj2 (Z.ltb_lt _ _)) by lia. lia.
Qed.

Lemma be_Z_app l k : be_Z (l ++ k) = be_Z l * 256 ^ len k + be_Z k.
Proof.
  induction l as [|b l IH]; [done|]. cbn [app]. rewrite !be_Z_cons, IH, len_app, Z.pow_add_r by apply len_nonneg. ring.
Qed.

Lemma stamp_nonzero t : in_eras t → be_Z (ntp_stamp t) ≠ 0.
Proof.
  unfold in_eras, ntp_stamp, ntpEpochOffset, Second. intros [Ht Hne].
  set (sec := t / 1000000000 + 2208988800). set (n := t mod 1000000000).
  assert (t = (sec - 2208988800) * 1000000000 + n ∧ 0 <= n < 1000000000) as [Et Hn]
    by (subst sec n; Z.to_euclidean_division_equations; lia). clearbody sec n.
  rewrite be_Z_app, !be_Z_be_bytes. unfold len. rewrite length_be_bytes. change (256 ^ Z.of_nat 4) with (2 ^ 32).
  intros E. pose proof (Z.mod_pos_bound sec (2 ^ 32) ltac:(done)).
  rewrite (Z.mod_small (_ / _)) in E by (Z.to_euclidean_division_equations; lia).
  assert (0 <= n * 2 ^ 32 / 1000000000) by (apply Z.div_pos; lia).
  assert (n * 2 ^ 32 / 1000000000 = 0) as Hn0 by lia. assert (sec mod 2 ^ 32 = 0) as Hs0 by lia.
  assert (n = 0) as -> by (Z.to_euclidean_division_equations; lia).
  Z.to_euclidean_division_equations; lia.
Qed.

(** A server's answer that passes the checks of the header, with the times at
    which it received and sent by its clock. *)
Record proper_answer (nonce resp : bytes) (t2 t3 : Z) : Prop := {
  pa_len : ntpPacketSize <= len resp;
  pa_leap : Z.shiftr (byte_at resp 0) 6 ≠ 3;
  pa_mode : Z.land (byte_at resp 0) 7 = 4;
  pa_stratum : 1 <= byte_at resp 1 <= 15;
  pa_nonce : field resp 24 32 = nonce;
  pa_t2 : field resp 32 40 = ntp_stamp t2;
  pa_t3 : field resp 40 48 = ntp_stamp t3;
}.

(** An exchange that takes [d] of the local time from [a], which the server
    sees from [t2] to [t3] by its clock; local times are [theta] behind it. *)
Record faithful_exchange (x : exchange) (a d t2 t3 theta : Z) : Prop := {
  fx_nonce : ∃ n resp, nonce x = Some n ∧ answer x = Some resp ∧ proper_answer n resp t2 t3;
  fx_eras : in_eras t2 ∧ in_eras t3;
  fx_t1 : wall (x_t1 x) = a;
  fx_t4 : wall (x_t4 x) = a + d;
  fx_mono : ∃ m, monotonic (x_t1 x) = Some m ∧ monotonic (x_t4 x) = Some (m + d);
  fx_order : a + theta <= t2 <= t3 ∧ t3 <= a + d + theta;
  fx_delay : 1 <= d - (t3 - t2) < maxRoundTrip;
  fx_small : - 2 ^ 61 <= a ∧ a + d <= 2 ^ 61 ∧ - 2 ^ 61 <= theta <= 2 ^ 61;
}.

Lemma queryOne_accurate server x a d t2 t3 theta :
  faithful_exchange x a d t2 t3 theta →
  ∃ r, queryOne server x = Ok r ∧ res_Server r = server ∧ wall (res_Time r) = a + d + Offset r ∧
    Z.abs (Offset r - theta) <= (d - (t3 - t2)) / 2 + 2.
Proof.
  intros [(n & resp & Hn & Hans & [Hl Hli Hm Hst Hno Ht2 Ht3]) [He2 He3] H1 H4 (m & Hm1 & Hm4) Hord Hd Hs].
  unfold maxRoundTrip, Second in *.
  unfold queryOne. rewrite Hn, Hans.
  rewrite (proj2 (Z.ltb_ge _ _)) by done. rewrite (proj2 (Z.eqb_neq _ _)) by done.
  rewrite (proj2 (Z.eqb_eq _ _) Hm). cbn [negb].
  rewrite (proj2 (Z.eqb_neq _ 0)), (proj2 (Z.ltb_ge 15 _)) by lia. cbn [orb].
  rewrite bool_decide_eq_true_2 by done. cbn [negb].
  rewrite Ht3, Ht2, (proj2 (Z.eqb_neq _ _)) by (by apply stamp_nonzero).
  destruct (ntpTime_stamp t2 He2) as (w2 & -> & Hw2). destruct (ntpTime_stamp t3 He3) as (w3 & -> & Hw3).
  unfold Sub. rewrite Hm1, Hm4. cbn [wall_time monotonic wall]. rewrite H4.
  rewrite !time_Sub_small by (unfold MinInt64, MaxInt64; lia).
  rewrite (i64_small (m + d - m - _)) by (unfold MinInt64, MaxInt64; lia).
  rewrite (proj2 (Z.ltb_ge _ 0)) by lia. rewrite (proj2 (Z.ltb_ge (maxRoundTrip) _)) by (unfold maxRoundTrip, Second; lia). cbn [orb].
  rewrite i64_small by (unfold MinInt64, MaxInt64; Z.to_euclidean_division_equations; lia).
  eexists. split; [done|]. cbn. rewrite H4. split; [done|]. split; [done|].
  Z.to_euclidean_division_equations; lia.
Qed.

(** ** The median *)
Section Median.
Context `{SortResults}.

Definition within (lo hi : Z) (r : Result) : bool := (lo <=? Offset r) && (Offset r <=? hi).

Lemma within_iff lo hi r : within lo hi r = true ↔ lo <= Offset r <= hi.
Proof. unfold within. rewrite andb_true_iff, !Z.leb_le. done. Qed.

Lemma filter_none {A} (f : A → bool) l : (∀ x, x ∈ l → f x = false) → List.filter f l = [].
Proof.
  induction l as [|x l IH]; [done|]. intros Hf. cbn. rewrite Hf by left. apply IH. intros. apply Hf. by right.
Qed.

Lemma filter_le {A} (f : A → bool) l : (length (List.filter f l) <= length l)%nat.
Proof. induction l as [|x l IH]; cbn; [done|]. destruct (f x); cbn; lia. Qed.

Lemma filter_perm {A} (f : A → bool) l k : l ≡ₚ k → length (List.filter f l) = length (List.filter f k).
Proof. induction 1; cbn; repeat case_match; cbn; congruence. Qed.

(** When most measurements lie in a range, so does the median. *)
Lemma median_within lo hi rs r :
  sort_results rs !! (length rs `div` 2)%nat = Some r →
  (length rs < 2 * length (List.filter (within lo hi) rs))%nat → lo <= Offset r <= hi.
Proof.
  intros Hr Hmaj. pose proof (sort_results_sorted rs) as Hs. pose proof (sort_results_perm rs) as Hp.
  assert (length (List.filter (within lo hi) rs) = length (List.filter (within lo hi) (sort_results rs))) as Hlen.
  { by rewrite (filter_perm (within lo hi) _ _ Hp). }
  rewrite Hlen in Hmaj. pose proof (Permutation_length Hp) as Hn.
  apply list_elem_of_split_length in Hr as (l1 & l2 & Hl & H1). rewrite Hl in *.
  pose proof (Nat.div_mod_eq (length rs) 2). pose proof (Nat.mod_upper_bound (length rs) 2 ltac:(done)).
  apply StronglySorted_app in Hs as (Hle & _ & Hs2). apply StronglySorted_inv in Hs2 as [_ Hgt].
  rewrite list.Forall_forall in Hgt. rewrite length_app in Hn. cbn [length] in Hn.
  rewrite List.filter_app, length_app in Hmaj.
  destruct (Z.le_gt_cases lo (Offset r)) as [Hlo|Hlo]; [destruct (Z.le_gt_cases (Offset r) hi) as [|Hhi]; [done|]|]; exfalso.
  - rewrite (filter_none _ (r :: l2)) in Hmaj.
    + pose proof (filter_le (within lo hi) l1). cbn in Hmaj. lia.
    + intros y [->|Hy]%elem_of_cons; apply not_true_is_false; rewrite within_iff; [lia|]. specialize (Hgt y Hy). lia.
  - rewrite (filter_none _ l1) in Hmaj.
    + cbn in Hmaj. replace (within lo hi r) with false in Hmaj by (symmetry; apply not_true_is_false; rewrite within_iff; lia).
      pose proof (filter_le (within lo hi) l2). lia.
    + intros y Hy. apply not_true_is_false. rewrite within_iff. specialize (Hle y r Hy ltac:(left)). lia.
Qed.

(** The measurements come from the exchanges. *)
Lemma query_all_result xs r : r ∈ (query_all xs).1 → ∃ s x, (s, x) ∈ xs ∧ queryOne s x = Ok r.
Proof.
  induction xs as [|[s x] xs IH]; [by intros ?%elem_of_nil|]. cbn. destruct (ctx_done x); [by intros ?%elem_of_nil|].
  destruct (query_all xs) as [rs es]. destruct (queryOne s x) as [e|r'] eqn:E; cbn in *.
  - intros Hr. destruct (IH Hr) as (s' & x' & ? & ?). exists s', x'. split; [by right|done].
  - intros [->|Hr]%elem_of_cons; [exists s, x; split; [by left|done]|].
    destruct (IH Hr) as (s' & x' & ? & ?). exists s', x'. split; [by right|done].
Qed.

(** Every honest exchange counts. *)
Lemma query_all_honest (honest : string * exchange → bool) lo hi xs :
  (∀ sx, sx ∈ xs → ctx_done sx.2 = false) →
  (∀ sx, sx ∈ xs → honest sx = true → ∃ r, queryOne sx.1 sx.2 = Ok r ∧ lo <= Offset r <= hi) →
  (length (List.filter honest xs) <= length (List.filter (within lo hi) (query_all xs).1))%nat.
Proof.
  induction xs as [|[s x] xs IH]; [done|]. intros Hctx Hh. cbn.
  pose proof (Hctx (s, x) ltac:(left)) as Hx. cbn in Hx. rewrite Hx.
  specialize (IH ltac:(intros; apply Hctx; by right) ltac:(intros; apply Hh; [by right|done])).
  destruct (query_all xs) as [rs es]. destruct (honest (s, x)) eqn:E.
  - destruct (Hh (s, x) ltac:(left) E) as (r & Hr & Hb). cbn in Hr. rewrite Hr. cbn.
    apply within_iff in Hb. rewrite Hb. cbn in *. lia.
  - destruct (queryOne s x) as [|r]; cbn in *; [done|]. destruct (within lo hi r); cbn; lia.
Qed.

Lemma Query_median xs : (query_all xs).1 ≠ [] →
  ∃ r, Query xs = Ok r ∧ r ∈ (query_all xs).1 ∧
       sort_results (query_all xs).1 !! (length (query_all xs).1 `div` 2)%nat = Some r.
Proof.
  intros Hne. unfold Query. destruct (query_all xs) as [rs es] eqn:E. destruct xs as [|sx xs]; [cbn in E; by simplify_eq|].
  cbn [fst] in *.
  assert (is_Some (sort_results rs !! (length rs `div` 2)%nat)) as [r Hr].
  { apply lookup_lt_is_Some. rewrite sort_results_perm. destruct rs; [done|]. apply Nat.div_lt; cbn [length]; lia. }
  rewrite Hr. exists r. split; [done|]. split; [|done]. rewrite <-(sort_results_perm rs). by eapply list_elem_of_lookup_2.
Qed.
End Median.

(** A measurement is dated by the end of its exchange. *)
Lemma queryOne_time s x r : queryOne s x = Ok r → wall (res_Time r) = wall (x_t4 x) + Offset r ∧ monotonic (res_Time r) = monotonic (Add (x_t4 x) (Offset r)).
Proof.
  unfold queryOne. destruct (nonce x); [|done]. destruct (answer x) as [resp|]; [|done].
  repeat match goal with |- context [if ?b then Err _ else _] => destruct b; [done|] end. by intros [= <-].
Qed.

(** ** The corrected clock *)
Definition small (z : Z) : Prop := - 2 ^ 61 <= z <= 2 ^ 61.
Definition small_reading (r : reading) : Prop := small (wall (r_wall r)) ∧ - 2 ^ 60 <= r_mono r <= 2 ^ 60.

(** The wall clock has moved with the monotonic one since [r0]. *)
Definition steady (r0 r : reading) : bool :=
  Z.abs ((wall (r_wall r) - wall (r_wall r0)) - (r_mono r - r_mono r0)) <=? clockStepThreshold.

Definition corrected_at (o : Z) (r0 : reading) (c : Clock) : Prop :=
  corrected c = true ∧ offset c = o ∧ anchorWall c = Round0 (r_wall r0) ∧ anchorMono c = r_mono r0.

Lemma Now_corrected o r0 r c : small_reading r0 → small_reading r → corrected_at o r0 c →
  Now (r_wall r) (r_mono r) c =
    if steady r0 r then (c, wall_time (wall (r_wall r) + o)) else (release c, wall_time (wall (r_wall r))).
Proof.
  unfold small_reading, small. intros [Hw0 Hm0] [Hw Hm] (Hc & Ho & Ha & Hma). unfold Now, steady. rewrite Hc, Ho, Ha, Hma. cbn [negb].
  rewrite i64_small by (unfold MinInt64, MaxInt64; lia).
  unfold Sub, Add, Round0, wall_time. cbn [monotonic wall].
  rewrite time_Sub_small by (unfold MinInt64, MaxInt64; lia).
  set (x := wall (r_wall r) - (wall (r_wall r0) + (r_mono r - r_mono r0))).
  replace ((clockStepThreshold <? x) || (x <? - clockStepThreshold)) with
    (negb (Z.abs (wall (r_wall r) - wall (r_wall r0) - (r_mono r - r_mono r0)) <=? clockStepThreshold)); [by destruct (Z.abs _ <=? _)|].
  subst x. apply eq_true_iff_eq. rewrite negb_true_iff, Z.leb_gt, orb_true_iff, !Z.ltb_lt. lia.
Qed.

Lemma Now_uncorrected c r : corrected c = false → Now (r_wall r) (r_mono r) c = (c, Round0 (r_wall r)).
Proof. intros Hc. unfold Now. by rewrite Hc. Qed.

Definition read_clock (c : Clock) (r : reading) : Clock * Time := Now (r_wall r) (r_mono r) c.

(** What a clock corrected at [r0] is to read: corrected as long as nobody
    steps the system clock, and the system clock ever after. *)
Fixpoint corrected_readings (o : Z) (r0 : reading) (rs : list reading) : list Time :=
  match rs with
  | [] => []
  | r :: rs' => if steady r0 r then wall_time (wall (r_wall r) + o) :: corrected_readings o r0 rs'
                else (λ r, Round0 (r_wall r)) <$> rs
  end.

Lemma uncorrected_readings c rs : corrected c = false → (run read_clock c rs).2 = (λ r, Round0 (r_wall r)) <$> rs.
Proof.
  intros Hc. induction rs as [|r rs IH]; [done|]. cbn. unfold read_clock at 1. rewrite Now_uncorrected by done.
  destruct (run read_clock c rs) as [c' ts]. cbn in *. by rewrite IH.
Qed.

(** A step of the system clock retires the correction for good. *)
Lemma corrected_until_stepped o r0 c rs : small_reading r0 → Forall small_reading rs →
  (run read_clock (Correct o (r_wall r0) (r_mono r0) c) rs).2 = corrected_readings o r0 rs.
Proof.
  intros H0 Hrs. assert (corrected_at o r0 (Correct o (r_wall r0) (r_mono r0) c)) as Hc by done.
  revert Hc. generalize (Correct o (r_wall r0) (r_mono r0) c) as d. induction Hrs as [|r rs Hr _ IH]; [done|]. intros d Hc.
  cbn. unfold read_clock at 1. rewrite (Now_corrected o r0 r d) by done. destruct (steady r0 r).
  - specialize (IH d Hc). destruct (run read_clock d rs). cbn in *. by rewrite IH.
  - pose proof (uncorrected_readings (release d) rs eq_refl) as Hu. destruct (run read_clock (release d) rs). cbn in *. by rewrite Hu.
Qed.

(** A clock that may be right is left alone, and nothing is asked. *)
Lemma plausible_clock_untouched query floor r1 r2 r3 :
  IsZero floor = true ∨ wall floor <= wall (r_wall r1) → monotonic floor = None →
  Bootstrap query floor r1 r2 r3 NewClock = (NewClock, (false, None)).
Proof.
  intros Hf Hm. unfold Bootstrap. rewrite Now_uncorrected by done.
  replace (NeedsCorrection (Round0 (r_wall r1)) floor) with false; [done|]. symmetry. unfold NeedsCorrection, Before. rewrite Hm.
  destruct Hf as [-> | Hf]; [done|]. cbn. rewrite (proj2 (Z.ltb_ge _ _)) by done. apply andb_false_r.
Qed.

(** A stamp close enough to the peer's time is accepted. *)
Lemma stamp_accepted o stamp p :
  bootTime o + 60 * Second <= p → 0 <= stamp < 2 ^ 32 * Second → Z.abs (p - stamp) <= 29 * Second →
  timestampInWindow (u32 (Unix stamp)) p o = true.
Proof.
  unfold timestampInWindow, Unix, smV2MaxSkew, Second. intros Hb Hs Hp.
  rewrite wrapU_small by (Z.to_euclidean_division_equations; lia). change (quot (30 * 1000000000) 1000000000) with 30.
  rewrite (proj2 (Z.ltb_ge _ _)) by (Z.to_euclidean_division_equations; lia).
  rewrite (proj2 (Z.ltb_ge (time_Sub _ _) _)) by (unfold time_Sub, MinInt64, MaxInt64; lia).
  apply Z.leb_le. Z.to_euclidean_division_equations; lia.
Qed.

Lemma bootstrap_sets res floor r1 r2 r3 :
  monotonic floor = None → IsZero floor = false → wall (r_wall r1) < wall floor → wall floor <= wall (res_Time res) →
  Bootstrap (Ok res) floor r1 r2 r3 NewClock =
    (Correct (time_Sub (wall (res_Time res)) (wall (r_wall r2))) (r_wall r3) (r_mono r3) NewClock, (true, None)).
Proof.
  intros Hm Hz Hb Hr. unfold Bootstrap. rewrite !Now_uncorrected by done. unfold NeedsCorrection, Before. rewrite Hz, Hm. cbn [Round0 wall_time monotonic wall].
  rewrite (proj2 (Z.ltb_lt _ _)) by done. cbn [negb andb].
  replace (match monotonic (res_Time res) with Some _ => wall (res_Time res) <? wall floor | None => wall (res_Time res) <? wall floor end)
    with false by (destruct (monotonic (res_Time res)); symmetry; by apply Z.ltb_ge).
  unfold Sub. by destruct (monotonic (res_Time res)).
Qed.

Section Bootstrapping.
Context `{SortResults}.

(** A host whose clock is behind, and provably so, recovers whatever the
    minority of its time servers says: if most of the answers that pass the
    checks come from servers that tell the time, the clock is corrected to
    within half a round trip (2.5 seconds) of the time, less the time that
    went by between the chosen measurement and the correction; and as long as
    nobody steps the system clock, the packets it stamps are accepted by a
    peer that knows the time, provided that lag is at most 25 seconds. *)
Theorem bootstrap_restores (honest : string * exchange → bool) xs theta floor r1 r2 r3 r :
  (∀ sx, sx ∈ xs → ctx_done sx.2 = false ∧ small (wall (x_t4 sx.2)) ∧ wall floor + 3 * Second <= wall (x_t4 sx.2) + theta) →
  (∀ sx, sx ∈ xs → honest sx = true → ∃ a d t2 t3, faithful_exchange sx.2 a d t2 t3 theta) →
  (length (query_all xs).1 < 2 * length (List.filter honest xs))%nat →
  monotonic floor = None → IsZero floor = false → wall (r_wall r1) < wall floor →
  small theta → Forall small_reading [r2; r3; r] → steady r3 r = true →
  ∃ clk sx, sx ∈ xs ∧ Bootstrap (Query xs) floor r1 r2 r3 NewClock = (clk, (true, None)) ∧
    let now := wall (r_wall r) + theta in
    let lag := wall (r_wall r2) - wall (x_t4 sx.2) in
    let stamp := (obfs_now (Some clk) r).2 in
    Z.abs (now - lag - stamp) <= 2500000002 ∧
    ∀ o p, 0 <= lag <= 25 * Second → 60 * Second <= now < 2 ^ 31 * Second →
      Z.abs (p - now) <= Second → bootTime o + 60 * Second <= p →
      timestampInWindow (u32 (Unix stamp)) p o = true.
Proof.
  intros Hxs Hhon Hmaj Hfm Hfz Hlocal Htheta Hsm Hsteady.
  apply list.Forall_cons in Hsm as [H2 Hsm]. apply list.Forall_cons in Hsm as [H3 Hsm]. apply list.Forall_cons in Hsm as [Hr _].
  set (lo := theta - 2500000002). set (hi := theta + 2500000002).
  assert (length (List.filter honest xs) <= length (List.filter (within lo hi) (query_all xs).1))%nat as Hgood.
  { apply query_all_honest; [intros sx Hin; by apply Hxs|]. intros sx Hin Hh.
    destruct (Hhon sx Hin Hh) as (a & d & t2 & t3 & Hf).
    destruct (queryOne_accurate sx.1 sx.2 a d t2 t3 theta Hf) as (m & Hm & _ & _ & Hacc). exists m. split; [done|].
    pose proof (fx_delay _ _ _ _ _ _ Hf) as Hd. unfold maxRoundTrip, Second in Hd. subst lo hi.
    Z.to_euclidean_division_equations; lia. }
  destruct (Query_median xs) as (m & -> & Hin & Hmed); [intros E; rewrite E in Hgood; rewrite E in Hmaj; cbn in *; lia|].
  pose proof (median_within lo hi _ _ Hmed ltac:(lia)) as Hoff.
  destruct (query_all_result xs m Hin) as (s & x & Hsx & Hm). destruct (queryOne_time s x m Hm) as [Ht _].
  destruct (Hxs (s, x) Hsx) as (_ & Hsmall & Hfl). cbn [snd] in Hsmall, Hfl.
  unfold small_reading, small, Second in *.
  eexists _, (s, x). split; [done|]. split; [apply bootstrap_sets; (done || (subst lo hi; lia))|]. cbn [snd obfs_now].
  rewrite (Now_corrected _ r3 r) by (done || (split; unfold small; lia)). rewrite Hsteady. cbn [snd wall wall_time].
  rewrite Ht, time_Sub_small by (unfold MinInt64, MaxInt64; subst lo hi; lia).
  unfold Correct. cbn [offset].
  split; [subst lo hi; lia|]. intros o p Hlag Hnow Hp Hboot.
  apply stamp_accepted; unfold Second; subst lo hi; lia.
Qed.
End Bootstrapping.

(** ** Concrete runs *)
Definition offset_le (a b : Result) : Prop := Offset a <= Offset b.
#[local] Instance offset_le_dec a b : Decision (offset_le a b).
Proof. apply Z_le_dec. Defined.
#[local] Instance offset_le_trans : Transitive offset_le.
Proof. intros a b c. unfold offset_le. lia. Qed.
#[local] Instance offset_le_total : Total offset_le.
Proof. intros a b. unfold offset_le. lia. Qed.

Definition merge_results : SortResults.
Proof.
  refine {| sort_results := merge_sort offset_le |}.
  - apply merge_sort_Permutation.
  - intros l. apply (StronglySorted_merge_sort offset_le).
Defined.
#[local] Existing Instance merge_results.

(** The host boots at the epoch, in fact at the start of 2026; a server
    answers in a second, of which half is its own. *)
Definition behind : Z := 1767225600 * Second.
Definition sample_nonce : bytes := be_bytes 8 0x0123456789abcdef.
Definition sample_answer (a : Z) : bytes :=
  [Byte.x24; Byte.x02] ++ replicate 22 Byte.x00 ++ sample_nonce
  ++ ntp_stamp (a + behind + Second / 4) ++ ntp_stamp (a + behind + 3 * Second / 4).
Definition sample_exchange (a : Z) : exchange :=
  mkExchange false (Some sample_nonce) (mkTime a (Some a)) (Some (sample_answer a)) (mkTime (a + Second) (Some (a + Second))).
Definition silent_exchange (a : Z) : exchange :=
  mkExchange false (Some sample_nonce) (mkTime a (Some a)) None (mkTime (a + 3 * Second) (Some (a + 3 * Second))).
Definition sample_reading (w : Z) : reading := mkReading (mkTime w (Some w)) w.
Definition sample_floor : Time := wall_time (1750000000 * Second).

Lemma sample_faithful a : a = 0 ∨ a = 4 * Second →
  faithful_exchange (sample_exchange a) a Second (a + behind + Second / 4) (a + behind + 3 * Second / 4) behind.
Proof.
  intros Ha. split; try done.
  - exists sample_nonce, (sample_answer a). split; [done|]. split; [done|].
    destruct Ha as [-> | ->]; split; vm_compute; (done || (by split)).
  - destruct Ha as [-> | ->]; unfold in_eras; vm_compute; done.
  - by exists a.
  - destruct Ha as [-> | ->]; vm_compute; repeat split; first [discriminate | reflexivity].
  - destruct Ha as [-> | ->]; vm_compute; repeat split; first [discriminate | reflexivity].
  - unfold behind, Second in *. lia.
Qed.

(** One of two servers answers; the other is silent for three seconds. *)
Definition sample_servers : list (string * exchange) := [("a:123", sample_exchange 0); ("b:123", silent_exchange (1 * Second))].

Lemma bootstrap_restores_witness :
  ∃ clk, Bootstrap (Query sample_servers) sample_floor (sample_reading 0) (sample_reading (4 * Second)) (sample_reading (4 * Second)) NewClock
      = (clk, (true, None)) ∧
    Z.abs (wall (r_wall (sample_reading (100 * Second))) + behind - 3 * Second - (obfs_now (Some clk) (sample_reading (100 * Second))).2) <= 2500000002.
Proof.
  destruct (bootstrap_restores (λ sx, bool_decide (sx.1 = "a:123")) sample_servers behind sample_floor
    (sample_reading 0) (sample_reading (4 * Second)) (sample_reading (4 * Second)) (sample_reading (100 * Second)))
    as (clk & sx & Hin & Hb & Hnow & _).
  - intros sx Hin. repeat (apply elem_of_cons in Hin as [-> | Hin]; [vm_compute; done|]). by apply elem_of_nil in Hin.
  - intros sx Hin Hh. apply elem_of_cons in Hin as [-> | Hin].
    + eexists _, _, _, _. apply (sample_faithful 0). by left.
    + apply list_elem_of_singleton in Hin as ->. by vm_compute in Hh.
  - vm_compute. lia.
  - reflexivity.
  - reflexivity.
  - reflexivity.
  - unfold small. vm_compute. done.
  - repeat apply List.Forall_cons; [..|apply List.Forall_nil]; vm_compute; done.
  - reflexivity.
  - exists clk. split; [exact Hb|].
    clear Hnow. vm_compute in Hb. injection Hb as <-. vm_compute. discriminate.
Defined.

(** The delay is part of the error: with eleven silent servers after the one
    that answers, the corrected clock is half a minute late and the peer
    refuses what it stamps. *)
Definition slow_servers : list (string * exchange) :=
  ("a:123", sample_exchange 0) :: replicate 11 ("b:123", silent_exchange Second).
Definition sample_peer : salamanderV2 :=
  mkSalamanderV2 [] [] ((1767225600 - 86400) * Second) newReplaySet (mkStats 0 0 0 0 0 0).

Lemma slow_servers_lag :
  let done_at := 34 * Second in
  let '(clk, r) := Bootstrap (Query slow_servers) sample_floor (sample_reading 0) (sample_reading done_at) (sample_reading done_at) NewClock in
  let stamp := (obfs_now (Some clk) (sample_reading done_at)).2 in
  r = (true, None) ∧ done_at + behind - stamp = 33 * Second ∧
  timestampInWindow (u32 (Unix stamp)) (done_at + behind) sample_peer = false.
Proof. vm_compute. done. Qed.
