(* ===== verification/Punch.v ===== *)
(** * Punch packets (extras/realm/punch.go)

    The mask that a realm's packets share, the packet's header under it, and
    the lengths it may take on the wire.  SHA-256 and the key derivation are
    those of Obfs; the random source is an argument. *)
From S2P Require Import GoStd Prelude Netip Obfs.

Definition PunchNonceSize : Z := 16.
Definition punchSaltLen : Z := 8.
Definition punchHeaderLen : Z := 8 + 1 + PunchNonceSize.
Definition punchMinWireLen : Z := punchSaltLen + punchHeaderLen.
Definition punchMaxWireLen : Z := 1484.
Definition MaxPunchPadding : Z := punchMaxWireLen - punchMinWireLen.
Definition punchMaskKeyLen : Z := 32.
Definition punchFallbackMinLen : Z := 1280.
Definition punchFallbackMaxLen : Z := 1473.
Definition CtxPunchMask : string := "chameleon/punch-mask-v1".

Inductive punch_error : Type :=
| ErrPunchMaskRequired
| errPunchPacketTooShort | errPunchPacketTooLong | errPunchBadMagic | errPunchUnknownType | errPunchNonceMismatch
| errInvalidHex (name : string) | errHexLength (name : string) | errWireLength | errRand.

(** "CHRLMv3" and a zero. *)
Definition punchMagic : bytes :=
  [Byte.x43; Byte.x48; Byte.x52; Byte.x4c; Byte.x4d; Byte.x76; Byte.x33; Byte.x00].

Abbreviation PunchPacketType := byte.
Definition PunchPacketHello : PunchPacketType := Byte.x01.
Definition PunchPacketAck : PunchPacketType := Byte.x02.

Record PunchPacket := mkPunchPacket { Type_ : PunchPacketType; PaddingLength : Z }.

(** [PunchMask]: its key. *)
Abbreviation PunchMask := bytes.
Definition valid (m : PunchMask) : bool := len m =? punchMaskKeyLen.
Definition equal (m other : PunchMask) : bool := bool_decide (m = other).

Record PunchMetadata := mkMetadata { Nonce : string; Obfs_ : string }.
Record punchKey := mkPunchKey { nonce : bytes; mask : PunchMask }.
Record punchHeader := mkPunchHeader { packetType : PunchPacketType; h_nonce : bytes }.

(** [hex.DecodeString]. *)
Fixpoint hex_DecodeString (s : string) : option bytes :=
  match s with
  | EmptyString => Some []
  | String a (String b s) =>
      hi ← hex_digit a; lo ← hex_digit b; rest ← hex_DecodeString s; Some (byte_of_Z (hi * 16 + lo) :: rest)
  | String _ EmptyString => None
  end.

Definition decodeHexSize (name value : string) (size : Z) : result punch_error bytes :=
  match hex_DecodeString value with
  | None => Err (errInvalidHex name)
  | Some b => if negb (len b =? size) then Err (errHexLength name) else Ok b
  end.

Definition newPunchKey (meta : PunchMetadata) (mask : PunchMask) : result punch_error punchKey :=
  if negb (valid mask) then Err ErrPunchMaskRequired else
  nonce ← decodeHexSize "nonce" (Nonce meta) PunchNonceSize;
  Ok (mkPunchKey nonce mask).

Definition clampPunchWireLen (wireLen : Z) : Z := Z.min (Z.max wireLen punchMinWireLen) punchMaxWireLen.
Definition validPunchWireLen (n : Z) : bool := (punchMinWireLen <=? n) && (n <=? punchMaxWireLen).
Definition validPunchPacketType (t : PunchPacketType) : bool :=
  bool_decide (t = PunchPacketHello) || bool_decide (t = PunchPacketAck).

(** [rnd] is what the random source yields: four bytes, or nothing. *)
Definition randomUint (n : Z) (rnd : option bytes) : result punch_error Z :=
  if n <=? 1 then Ok 0 else
  match rnd with
  | None => Err errRand
  | Some buf => Ok (u32 (be_Z buf) mod u32 n)
  end.

Definition fallbackPunchWireLen (rnd : option bytes) : result punch_error Z :=
  n ← randomUint (punchFallbackMaxLen - punchFallbackMinLen + 1) rnd; Ok (punchFallbackMinLen + n).

Section Codec.
Context `{Primitives}.

Definition NewPunchMask (password : bytes) (realmName : string) (cache : gmap (bytes * string) bytes)
    : gmap (bytes * string) bytes * result obfs_error PunchMask :=
  let '(cache, root) := StretchPassword password realmName cache in
  (cache, root ← root; DeriveSubkey root CtxPunchMask punchMaskKeyLen).

Definition xorPunchHeader (header : bytes) (mask : PunchMask) (salt : bytes) : bytes :=
  zip_with xor_byte header (sha256 (mask ++ salt)).

(** [rnd] fills the whole packet. *)
Definition encodePunchPacket (packetType : PunchPacketType) (key : punchKey) (wireLen : Z) (rnd : Z → option bytes)
    : result punch_error bytes :=
  if negb (validPunchPacketType packetType) then Err errPunchUnknownType else
  if negb (valid (mask key)) then Err ErrPunchMaskRequired else
  match rnd (clampPunchWireLen wireLen) with
  | None => Err errRand
  | Some packet =>
      let salt := take (Z.to_nat punchSaltLen) packet in
      let header := punchMagic ++ [packetType] ++ nonce key in
      Ok (salt ++ xorPunchHeader header (mask key) salt ++ drop (Z.to_nat punchMinWireLen) packet)
  end.

Definition EncodePunchPacketAt (packetType : PunchPacketType) (meta : PunchMetadata) (mask : PunchMask) (wireLen : Z)
    (rnd : Z → option bytes) : result punch_error bytes :=
  key ← newPunchKey meta mask;
  if negb (validPunchWireLen wireLen) then Err errWireLength
  else encodePunchPacket packetType key wireLen rnd.

Definition EncodePunchPacket (packetType : PunchPacketType) (meta : PunchMetadata) (mask : PunchMask)
    (length : option bytes) (rnd : Z → option bytes) : result punch_error bytes :=
  wireLen ← fallbackPunchWireLen length;
  EncodePunchPacketAt packetType meta mask wireLen rnd.

Definition unmaskPunchHeader (packet : bytes) (mask : PunchMask) : result punch_error punchHeader :=
  if negb (valid mask) then Err ErrPunchMaskRequired else
  if len packet <? punchMinWireLen then Err errPunchPacketTooShort else
  if punchMaxWireLen <? len packet then Err errPunchPacketTooLong else
  let header := xorPunchHeader (take (Z.to_nat punchHeaderLen) (drop (Z.to_nat punchSaltLen) packet)) mask
                  (take (Z.to_nat punchSaltLen) packet) in
  if negb (bool_decide (take 8 header = punchMagic)) then Err errPunchBadMagic else
  let packetType := default Byte.x00 (header !! 8%nat) in
  if negb (validPunchPacketType packetType) then Err errPunchUnknownType else
  Ok (mkPunchHeader packetType (drop 9 header)).

Definition decodePunchPacket (packet : bytes) (key : punchKey) : result punch_error PunchPacket :=
  header ← unmaskPunchHeader packet (mask key);
  if negb (bool_decide (h_nonce header = nonce key)) then Err errPunchNonceMismatch
  else Ok (mkPunchPacket (packetType header) (len packet - punchMinWireLen)).

Definition DecodePunchPacket (packet : bytes) (meta : PunchMetadata) (mask : PunchMask) : result punch_error PunchPacket :=
  key ← newPunchKey meta mask; decodePunchPacket packet key.

(** ** Round trip *)
Definition key_ok (key : punchKey) : Prop := len (nonce key) = PunchNonceSize ∧ valid (mask key) = true.

(** What the random source may do: fail, or fill the buffer. *)
Definition fills (rnd : Z → option bytes) : Prop := ∀ n b, rnd n = Some b → len b = n.

Lemma newPunchKey_ok meta m key : newPunchKey meta m = Ok key → key_ok key ∧ mask key = m.
Proof.
  unfold newPunchKey, decodeHexSize, key_ok. destruct (valid m) eqn:Hv; [|done]. cbn [negb].
  destruct (hex_DecodeString _) as [b|]; [|done]. destruct (len b =? PunchNonceSize) eqn:E; [|done]. cbn.
  intros [= <-]. cbn. apply Z.eqb_eq in E. done.
Qed.


Lemma xor_header_involutive h m salt : len h = punchHeaderLen → xorPunchHeader (xorPunchHeader h m salt) m salt = h.
Proof.
  unfold len, punchHeaderLen, PunchNonceSize. intros Hl. apply zip_xor_involutive. rewrite sha256_length. lia.
Qed.

Lemma len_xor_header h m salt : len h = punchHeaderLen → len (xorPunchHeader h m salt) = punchHeaderLen.
Proof.
  unfold len, punchHeaderLen, PunchNonceSize, xorPunchHeader. intros Hl. rewrite length_zip_with, sha256_length. lia.
Qed.

Lemma clamp_bounds n : punchMinWireLen <= clampPunchWireLen n <= punchMaxWireLen.
Proof. unfold clampPunchWireLen, punchMinWireLen, punchMaxWireLen, punchSaltLen, punchHeaderLen, PunchNonceSize. lia. Qed.

Lemma clamp_valid n : validPunchWireLen n = true → clampPunchWireLen n = n.
Proof.
  unfold validPunchWireLen. rewrite andb_true_iff, !Z.leb_le. unfold clampPunchWireLen. lia.
Qed.

(** What a packet on the wire is made of. *)
Definition punch_wire (t : PunchPacketType) (key : punchKey) (salt pad : bytes) : bytes :=
  salt ++ xorPunchHeader (punchMagic ++ [t] ++ nonce key) (mask key) salt ++ pad.

Lemma len_punch_wire t key salt pad : key_ok key → len salt = punchSaltLen →
  len (punch_wire t key salt pad) = punchMinWireLen + len pad.
Proof.
  intros [Hn _] Hs. unfold punch_wire. rewrite !len_app, len_xor_header, Hs; [unfold punchMinWireLen; lia|].
  rewrite !len_app, Hn. reflexivity.
Qed.

Lemma encode_wire t key wireLen rnd : validPunchPacketType t = true → key_ok key → fills rnd →
  match rnd (clampPunchWireLen wireLen) with
  | None => encodePunchPacket t key wireLen rnd = Err errRand
  | Some b => ∃ salt pad, encodePunchPacket t key wireLen rnd = Ok (punch_wire t key salt pad) ∧
                len salt = punchSaltLen ∧ len pad = clampPunchWireLen wireLen - punchMinWireLen
  end.
Proof.
  intros Ht [Hn Hv] Hf. unfold encodePunchPacket. rewrite Ht, Hv. cbn [negb].
  destruct (rnd _) as [b|] eqn:E; [|done]. apply Hf in E. pose proof (clamp_bounds wireLen).
  eexists _, _. split; [reflexivity|]. unfold len in *. rewrite length_take, length_drop.
  unfold punchMinWireLen, punchHeaderLen, punchSaltLen, PunchNonceSize in *. lia.
Qed.

Lemma unmask_wire t key salt pad : validPunchPacketType t = true → key_ok key → len salt = punchSaltLen →
  punchMinWireLen + len pad <= punchMaxWireLen →
  unmaskPunchHeader (punch_wire t key salt pad) (mask key) = Ok (mkPunchHeader t (nonce key)).
Proof.
  intros Ht Hk Hs Hp. pose proof (len_punch_wire t key salt pad Hk Hs) as Hl. destruct Hk as [Hn Hv].
  assert (len (punchMagic ++ [t] ++ nonce key) = punchHeaderLen) as Hh by (rewrite !len_app, Hn; reflexivity).
  unfold unmaskPunchHeader. rewrite Hv, Hl. cbn [negb]. pose proof (len_nonneg pad).
  rewrite (proj2 (Z.ltb_ge _ _)), (proj2 (Z.ltb_ge _ _)) by lia.
  assert (take (Z.to_nat punchSaltLen) (punch_wire t key salt pad) = salt) as ->
    by (unfold punch_wire; apply take_app_length'; unfold len, punchSaltLen in *; lia).
  unfold punch_wire. rewrite (drop_app_length' salt) by (unfold len, punchSaltLen in *; lia).
  rewrite take_app_length' by (pose proof (len_xor_header _ (mask key) salt Hh) as Hx; unfold len, punchHeaderLen, PunchNonceSize in *; lia).
  rewrite xor_header_involutive by done. cbn [app]. rewrite bool_decide_eq_true_2 by done. cbn [negb].
  change (default Byte.x00 ((punchMagic ++ t :: nonce key) !! 8%nat)) with t. by rewrite Ht.
Qed.

(** Whatever the salt, the padding and the length asked for, a punch
    packet has a length between 33 and 1484 bytes (the one asked for when it
    is possible), the holder of the same mask and nonce reads back its type
    and padding, and the holder of another nonce is told that it is not for
    him.  Only the random source can make encoding fail. *)
Theorem punch_roundtrip t meta m key wireLen rnd :
  validPunchPacketType t = true → newPunchKey meta m = Ok key → fills rnd →
  match rnd (clampPunchWireLen wireLen) with
  | None => encodePunchPacket t key wireLen rnd = Err errRand
  | Some _ =>
      ∃ wire, encodePunchPacket t key wireLen rnd = Ok wire ∧
        punchMinWireLen <= len wire <= punchMaxWireLen ∧ (validPunchWireLen wireLen = true → len wire = wireLen) ∧
        DecodePunchPacket wire meta m = Ok (mkPunchPacket t (len wire - punchMinWireLen)) ∧
        ∀ meta' key', newPunchKey meta' m = Ok key' → nonce key' ≠ nonce key →
          DecodePunchPacket wire meta' m = Err errPunchNonceMismatch
  end.
Proof.
  intros Ht Hkey Hf. destruct (newPunchKey_ok meta m key Hkey) as [Hk Hm].
  pose proof (encode_wire t key wireLen rnd Ht Hk Hf) as He. destruct (rnd _) as [b|]; [|done].
  destruct He as (salt & pad & He & Hs & Hp). exists (punch_wire t key salt pad). split; [done|].
  pose proof (len_punch_wire t key salt pad Hk Hs) as Hl. pose proof (clamp_bounds wireLen).
  assert (unmaskPunchHeader (punch_wire t key salt pad) (mask key) = Ok (mkPunchHeader t (nonce key))) as Hu
    by (apply unmask_wire; (done || lia)).
  split; [lia|]. split; [intros Hv; rewrite (clamp_valid _ Hv) in Hp; lia|].
  unfold DecodePunchPacket, decodePunchPacket. split.
  - rewrite Hkey. cbn [mbind result_bind]. rewrite Hu. cbn [mbind result_bind h_nonce packetType]. by rewrite bool_decide_eq_true_2.
  - intros meta' key' Hkey' Hne. destruct (newPunchKey_ok meta' m key' Hkey') as [_ Hm']. rewrite Hkey'. cbn [mbind result_bind].
    rewrite Hm', <-Hm, Hu. cbn [mbind result_bind h_nonce]. by rewrite bool_decide_eq_false_2.
Qed.
End Codec.

(** ** Example *)
#[local] Existing Instance toy.
Definition sample_meta : PunchMetadata := mkMetadata "000102030405060708090a0b0c0d0e0f" "".
Definition sample_mask : PunchMask := replicate 32 Byte.x2a.
Definition zero_random (n : Z) : option bytes := if 0 <=? n then Some (replicate (Z.to_nat n) Byte.x00) else None.

Lemma zero_random_fills : fills zero_random.
Proof.
  intros n b. unfold zero_random. destruct (Z.leb_spec 0 n); [|done]. intros [= <-]. unfold len. rewrite length_replicate. lia.
Qed.

Lemma punch_roundtrip_witness :
  ∃ key wire, newPunchKey sample_meta sample_mask = Ok key ∧
    encodePunchPacket PunchPacketHello key 1300 zero_random = Ok wire ∧
    DecodePunchPacket wire sample_meta sample_mask = Ok (mkPunchPacket PunchPacketHello (len wire - punchMinWireLen)).
Proof.
  assert (∃ key, newPunchKey sample_meta sample_mask = Ok key) as [key E] by (vm_compute; by eexists).
  exists key. pose proof (punch_roundtrip PunchPacketHello sample_meta sample_mask key 1300 zero_random eq_refl E zero_random_fills) as Hr.
  change (clampPunchWireLen 1300) with 1300 in Hr. unfold zero_random at 1 in Hr. cbn [Z.leb Z.compare] in Hr.
  destruct Hr as (wire & He & _ & _ & Hd & _). exists wire. split; [exact E|]. split; [exact He | exact Hd].
Defined.
