(* ===== verification/Nat.v ===== *)
(** * Candidate addresses and NAT port prediction (extras/realm/nat.go, local.go)

    The addresses a host announces, the class of a NAT, and the ports guessed
    on a peer whose NAT takes a fresh one for every destination.  Interfaces
    and random draws are arguments. *)
From S2P Require Import GoStd Prelude Netip IP.

(** ** What the code uses of net/netip *)
Definition IsLoopback (a : Addr) : bool :=
  match Unmap a with ZeroAddr => false | V4 x => x / 2 ^ 24 =? 127 | V6 x _ => x =? 1 end.
Definition IsUnspecified (a : Addr) : bool :=
  match a with ZeroAddr => false | V4 x => x =? 0 | V6 x z => (x =? 0) && bool_decide (z = EmptyString) end.
Definition IsMulticast (a : Addr) : bool :=
  match Unmap a with ZeroAddr => false | V4 x => x / 2 ^ 28 =? 14 | V6 x _ => x / 2 ^ 120 =? 255 end.
Definition IsLinkLocalUnicast (a : Addr) : bool :=
  match Unmap a with ZeroAddr => false | V4 x => x / 2 ^ 16 =? 43518 | V6 x _ => x / 2 ^ 118 =? 1018 end.
Definition IsValid (a : Addr) : bool := negb (bool_decide (a = ZeroAddr)).

Definition zone_suffix (z : string) : string := if bool_decide (z = EmptyString) then EmptyString else ("%" ++ z)%string.

Definition AddrPort_String (p : AddrPort) : string :=
  let port := (":" ++ Strconv.FormatUint (ap_Port p))%string in
  match ap_Addr p with
  | ZeroAddr => "invalid AddrPort"
  | V4 x => string4 (be_bytes 4 x) ++ port
  | V6 x z =>
      if Is4In6 (V6 x z) then "[::ffff:" ++ string4 (be_bytes 4 x) ++ zone_suffix z ++ "]" ++ port
      else "[" ++ string6 (be_bytes 16 x) ++ zone_suffix z ++ "]" ++ port
  end%string.

(** [Addr.Compare]: by length, value and zone. *)
Definition Addr_key (a : Addr) : Z * Z * string :=
  match a with ZeroAddr => (0, 0, EmptyString) | V4 x => (32, x, EmptyString) | V6 x z => (128, x, z) end.
Definition Addr_leb (a b : Addr) : bool :=
  let '(l, x, z) := Addr_key a in
  let '(l', x', z') := Addr_key b in
  (l <? l') || ((l =? l') && ((x <? x') || ((x =? x') && String.leb z z'))).

(** A stable sort: each element goes behind those that are not after it. *)
Fixpoint insert_stable {A} (before : A → A → bool) (x : A) (l : list A) : list A :=
  match l with
  | [] => [x]
  | y :: l' => if before x y then x :: l else y :: insert_stable before x l'
  end.
Definition sort_stable {A} (before : A → A → bool) (l : list A) : list A :=
  foldl (λ acc x, insert_stable before x acc) [] l.

(** ** Address families (stun.go) *)
Inductive AddrFamily := AddrFamilyAny | AddrFamilyIPv4 | AddrFamilyIPv6.

Definition family_allows (f : AddrFamily) (ip : IP) : bool :=
  let is4 := negb (bool_decide (To4 ip = [])) in
  match f with AddrFamilyIPv4 => is4 | AddrFamilyIPv6 => negb is4 | AddrFamilyAny => true end.

Definition IP_IsUnspecified (ip : IP) : bool := IP_Equal ip (v4InV6Prefix ++ replicate 4 Byte.x00) || IP_Equal ip (replicate 16 Byte.x00).

Definition localAddrFamily (addr : net_Addr) : AddrFamily :=
  match addr with
  | OtherAddr => AddrFamilyAny
  | UDPAddr ip _ =>
      if bool_decide (ip = []) || IP_IsUnspecified ip then AddrFamilyAny
      else if bool_decide (To4 ip = []) then AddrFamilyIPv6 else AddrFamilyIPv4
  end.

Definition effectiveFamily (family : AddrFamily) (local : net_Addr) : AddrFamily :=
  match family with AddrFamilyAny => localAddrFamily local | _ => family end.

(** [sortAddrPorts] (punch_engine.go): the same by any sort, as the strings differ. *)
Definition sortAddrPorts (addrs : list AddrPort) : list AddrPort :=
  sort_stable (λ a b, String.ltb (AddrPort_String a) (AddrPort_String b)) addrs.

(** ** Local candidates (local.go) *)
Definition maxLocalCandidates : nat := 8.

Record Interface := mkInterface { if_Name : string; FlagUp : bool; FlagLoopback : bool; Addrs : list Addr }.

Definition normalized (a : AddrPort) : AddrPort := AddrPortFrom (WithZone (Unmap (ap_Addr a)) EmptyString) (ap_Port a).

(** IPv6 before IPv4, then by text. *)
Definition candidate_before (a b : AddrPort) : bool :=
  if negb (Bool.eqb (Is4 (ap_Addr a)) (Is4 (ap_Addr b))) then negb (Is4 (ap_Addr a))
  else String.ltb (AddrPort_String a) (AddrPort_String b).

Definition orderCandidates (addrs : list AddrPort) : list AddrPort := sort_stable candidate_before (normalized <$> addrs).

Definition capLocalCandidates (v6 v4 : list AddrPort) : list AddrPort :=
  if (length v6 + length v4 <=? maxLocalCandidates)%nat then v6 ++ v4 else
  let share := (maxLocalCandidates / 2)%nat in
  let take6 := Nat.min (length v6) share in
  let take4 := Nat.min (length v4) share in
  let spare := (maxLocalCandidates - take6 - take4)%nat in
  let extra6 := Nat.min spare (length v6 - take6) in
  let extra4 := Nat.min (spare - extra6) (length v4 - take4) in
  take (take6 + extra6) v6 ++ take (take4 + extra4) v4.

Record gathered := mkGathered {
  routable6 : list AddrPort; routable4 : list AddrPort; linkLocal4 : list AddrPort; g_seen : gset AddrPort }.

(** One address of an interface that is up and no loopback. *)
Definition gather (port : Z) (family : AddrFamily) (g : gathered) (a : Addr) : gathered :=
  let ip := Unmap a in
  if negb (IsValid ip) || IsLoopback ip || IsUnspecified ip || IsMulticast ip then g else
  if negb (family_allows family (AsSlice ip)) then g else
  let addr := AddrPortFrom (WithZone ip EmptyString) port in
  if bool_decide (addr ∈ g_seen g) then g else
  let seen := {[addr]} ∪ g_seen g in
  if Is4 ip && IsLinkLocalUnicast ip then mkGathered (routable6 g) (routable4 g) (linkLocal4 g ++ [addr]) seen
  else if Is6 ip && IsLinkLocalUnicast ip then mkGathered (routable6 g) (routable4 g) (linkLocal4 g) seen
  else if Is6 ip then mkGathered (routable6 g ++ [addr]) (routable4 g) (linkLocal4 g) seen
  else mkGathered (routable6 g) (routable4 g ++ [addr]) (linkLocal4 g) seen.

Definition LocalCandidatesFrom (ifaces : list Interface) (port : Z) (family : AddrFamily) : list AddrPort :=
  if port =? 0 then [] else
  let g := foldl (λ g i, if negb (FlagUp i) || FlagLoopback i then g else foldl (gather port family) g (Addrs i))
             (mkGathered [] [] [] ∅) ifaces in
  let out := capLocalCandidates (orderCandidates (routable6 g)) (orderCandidates (routable4 g)) in
  if decide (out = []) then capLocalCandidates [] (orderCandidates (linkLocal4 g)) else out.

Definition merge_one (st : list AddrPort * gset AddrPort) (a : AddrPort) : list AddrPort * gset AddrPort :=
  let '(out, seen) := st in
  if negb (AddrPort_IsValid a) || (ap_Port a =? 0) then st else
  if bool_decide (a ∈ seen) then st else (out ++ [a], {[a]} ∪ seen).

Definition MergeCandidates (local reflexive : list AddrPort) : list AddrPort :=
  (foldl (λ st addrs, foldl merge_one st (orderCandidates addrs)) ([], ∅) [local; reflexive]).1.

(** ** The class of a NAT (nat.go) *)
Inductive NATClass := NATClassUnknown | NATClassEndpointIndependent | NATClassEndpointDependent.

#[export] Instance NATClass_eq_dec : EqDecision NATClass.
Proof. solve_decision. Defined.

Fixpoint classify (observed : list AddrPort) (ports : gmap Addr Z) : NATClass :=
  match observed with
  | [] => NATClassUnknown
  | a :: observed =>
      if negb (AddrPort_IsValid a) then classify observed ports else
      let ip := Unmap (ap_Addr a) in
      match ports !! ip with
      | Some port => if negb (port =? ap_Port a) then NATClassEndpointDependent
                     else classify observed (<[ip := ap_Port a]> ports)
      | None => classify observed (<[ip := ap_Port a]> ports)
      end
  end.
Definition ClassifyNAT (observed : list AddrPort) : NATClass := classify observed ∅.

(** [slices.Compact]: equal neighbours become one. *)
Fixpoint Compact (l : list Z) : list Z :=
  match l with
  | [] => []
  | x :: l => match Compact l with
              | y :: l' => if x =? y then y :: l' else x :: y :: l'
              | [] => [x]
              end
  end.

Definition uniqueSortedPorts (ports : list Z) : list Z := Compact (merge_sort Z.le ports).

(** The ports of a valid IPv4 address, appended to those of its host. *)
Definition by_host (m : gmap Addr (list Z)) (a : AddrPort) : gmap Addr (list Z) :=
  if negb (AddrPort_IsValid a) || negb (Is4 (ap_Addr a)) then m else
  let ip := Unmap (ap_Addr a) in <[ip := default [] (m !! ip) ++ [ap_Port a]]> m.

Definition endpointDependentHosts (addrs : list AddrPort) (force : bool) : gmap Addr (list Z) :=
  omap (λ ports, let ports := uniqueSortedPorts ports in
                 if (length ports <? 2)%nat && negb force then None else Some ports)
    (foldl by_host ∅ addrs).

Definition symmetricNATSequentialSpan : Z := 64.
Definition symmetricNATStrideProbes : Z := 16.
Definition symmetricNATProbeMissLimit : Z := 256.
Definition symmetricNATMinProbePort : Z := 1024.

Definition portStride (ports : list Z) : option Z :=
  match ports with
  | p0 :: p1 :: rest =>
      let stride := p1 - p0 in
      if stride <=? 0 then None else
      (fix same (last : Z) (rest : list Z) : option Z :=
         match rest with
         | [] => Some stride
         | p :: rest => if negb (p - last =? stride) then None else same p rest
         end) p1 rest
  | _ => None
  end.

Record probing := mkProbing { probes : list AddrPort; p_seen : gset AddrPort }.

(** The closure [add]: whether there is room for more. *)
Definition add (limit : Z) (ip : Addr) (port : Z) (st : probing) : probing * bool :=
  if limit <=? len (probes st) then (st, false) else
  if (port <? symmetricNATMinProbePort) || (65535 <? port) then (st, true) else
  let a := AddrPortFrom ip (u16 port) in
  if bool_decide (a ∈ p_seen st) then (st, true)
  else (mkProbing (probes st ++ [a]) ({[a]} ∪ p_seen st), true).

(** Guesses in order, until there is no room. *)
Fixpoint add_all (limit : Z) (guesses : list (Addr * Z)) (st : probing) : probing :=
  match guesses with
  | [] => st
  | (ip, port) :: guesses =>
      let '(st, ok) := add limit ip port st in if ok then add_all limit guesses st else st
  end.

Definition tier1 (ips : list Addr) (hosts : gmap Addr (list Z)) : list (Addr * Z) :=
  offset ← seqZ 1 symmetricNATSequentialSpan;
  ip ← ips;
  port ← default [] (hosts !! ip);
  [(ip, port + offset); (ip, port - offset)].

Definition tier2 (hosts : gmap Addr (list Z)) (ip : Addr) : list (Addr * Z) :=
  let ports := default [] (hosts !! ip) in
  match portStride ports with
  | Some stride => (λ i, (ip, default 0 (last ports) + stride * i)) <$> seqZ 1 symmetricNATStrideProbes
  | None => []
  end.

(** The random ports of one turn: one for each host until there is no room;
    [k] counts the draws. *)
Fixpoint draw_round (limit : Z) (draw : nat → Z) (ips : list Addr) (k : nat) (st : probing) : probing * nat :=
  match ips with
  | [] => (st, k)
  | ip :: ips =>
      let '(st, ok) := add limit ip (symmetricNATMinProbePort + draw k mod (65536 - symmetricNATMinProbePort)) st in
      if ok then draw_round limit draw ips (S k) st else (st, S k)
  end.

Fixpoint tier3 (fuel : nat) (limit : Z) (draw : nat → Z) (ips : list Addr) (k : nat) (misses : Z) (st : probing) : option probing :=
  if negb ((len (probes st) <? limit) && (misses <? symmetricNATProbeMissLimit)) then Some st else
  match fuel with
  | O => None
  | S fuel =>
      let '(st', k) := draw_round limit draw ips k st in
      tier3 fuel limit draw ips k (if len (probes st') =? len (probes st) then misses + 1 else 0) st'
  end.

(** Enough turns: fewer than 257 for each probe. *)
Definition tier3_fuel (limit : Z) : nat := Z.to_nat ((limit + 1) * (symmetricNATProbeMissLimit + 1)).

Definition symmetricNATProbes (peerAddrs : list AddrPort) (limit : Z) (force : bool) (draw : nat → Z) : option (list AddrPort) :=
  if limit <=? 0 then Some [] else
  let hosts := endpointDependentHosts peerAddrs force in
  if decide (hosts = ∅) then Some [] else
  let ips := merge_sort Addr_leb (elements (dom hosts)) in
  let seen := list_to_set ((λ a, AddrPortFrom (Unmap (ap_Addr a)) (ap_Port a)) <$> peerAddrs) in
  let st := add_all limit (tier1 ips hosts) (mkProbing [] seen) in
  let st := foldl (λ st ip, add_all limit (tier2 hosts ip) st) st ips in
  probes <$> tier3 (tier3_fuel limit) limit draw ips 0 0 st.

(** ** Sorting *)
Lemma insert_stable_perm {A} (before : A → A → bool) x l : insert_stable before x l ≡ₚ x :: l.
Proof.
  induction l as [|y l IH]; [done|]. cbn. destruct (before x y); [done|]. rewrite IH. apply Permutation_swap.
Qed.

Lemma sort_stable_perm {A} (before : A → A → bool) l : sort_stable before l ≡ₚ l.
Proof.
  unfold sort_stable. assert (∀ acc, foldl (λ acc x, insert_stable before x acc) acc l ≡ₚ acc ++ l) as H; [|apply (H [])].
  induction l as [|x l IH]; intros acc; cbn; [by rewrite app_nil_r|]. rewrite IH, insert_stable_perm. apply Permutation_middle.
Qed.

Lemma elem_of_orderCandidates a l : a ∈ orderCandidates l ↔ ∃ b, b ∈ l ∧ a = normalized b.
Proof.
  unfold orderCandidates. rewrite (sort_stable_perm candidate_before (normalized <$> l)), list_elem_of_fmap. naive_solver.
Qed.

(** ** Local candidates *)

(** At most eight, and each family is sure of half of them. *)
Lemma capLocalCandidates_fair v6 v4 : ∃ n6 n4,
  capLocalCandidates v6 v4 = take n6 v6 ++ take n4 v4 ∧ (n6 <= length v6)%nat ∧ (n4 <= length v4)%nat ∧
  (n6 + n4 = Nat.min maxLocalCandidates (length v6 + length v4))%nat ∧
  (Nat.min (length v6) 4 <= n6)%nat ∧ (Nat.min (length v4) 4 <= n4)%nat.
Proof.
  unfold capLocalCandidates. change (maxLocalCandidates / 2)%nat with 4%nat. unfold maxLocalCandidates.
  destruct (Nat.leb_spec (length v6 + length v4) 8).
  - exists (length v6), (length v4). rewrite !firstn_all. split; [done|]. lia.
  - eexists _, _. split; [reflexivity|]. lia.
Qed.

Definition usable (a : AddrPort) : Prop := AddrPort_IsValid a = true ∧ ap_Port a ≠ 0.

Lemma keep_iff {A} (P U : A → Prop) a l b : ¬ U a ∨ P a → (P b ∨ b ∈ l ∧ U b) ↔ (P b ∨ b ∈ a :: l ∧ U b).
Proof. rewrite elem_of_cons. intros Ha. split; [tauto|]. intros [?|[[->|?] ?]]; tauto. Qed.

Lemma take_iff {A} (P U : A → Prop) a l b : U a → ((P b ∨ b = a) ∨ b ∈ l ∧ U b) ↔ (P b ∨ b ∈ a :: l ∧ U b).
Proof. rewrite elem_of_cons. intros Ha. split; [intros [[?| ->]|?]; tauto|]. intros [?|[[->|?] ?]]; tauto. Qed.

Lemma merge_one_spec a out seen : (∀ b, b ∈ seen ↔ b ∈ out) → NoDup out →
  let '(out', seen') := merge_one (out, seen) a in
  (∀ b, b ∈ seen' ↔ b ∈ out') ∧ NoDup out' ∧
  ((out' = out ∧ (¬ usable a ∨ a ∈ out)) ∨ (out' = out ++ [a] ∧ usable a)).
Proof.
  intros Hs Hn. unfold merge_one, usable. destruct (AddrPort_IsValid a); cbn [negb orb].
  2:{ split; [done|]. split; [done|]. left. split; [done|]. by left; intros []. }
  destruct (Z.eqb_spec (ap_Port a) 0).
  { split; [done|]. split; [done|]. left. split; [done|]. by left; intros []. }
  case_bool_decide as Hin.
  { split; [done|]. split; [done|]. left. split; [done|]. right. by apply Hs. }
  split; [intros b; rewrite elem_of_union, elem_of_singleton, elem_of_app, list_elem_of_singleton, Hs; tauto|].
  split; [|by right]. apply NoDup_app. split; [done|]. split; [|apply NoDup_singleton].
  intros b Hb ->%list_elem_of_singleton. by apply Hin, Hs.
Qed.

Lemma merge_fold_spec l out seen :
  (∀ a, a ∈ seen ↔ a ∈ out) → NoDup out →
  let '(out', seen') := foldl merge_one (out, seen) l in
  (∀ a, a ∈ seen' ↔ a ∈ out') ∧ NoDup out' ∧ out `prefix_of` out' ∧
  ∀ a, a ∈ out' ↔ a ∈ out ∨ a ∈ l ∧ usable a.
Proof.
  revert out seen. induction l as [|a l IH]; intros out seen Hs Hn; cbn [foldl].
  { split_and!; try done. intros a. rewrite elem_of_nil. tauto. }
  pose proof (merge_one_spec a out seen Hs Hn) as H1. destruct (merge_one (out, seen) a) as [out1 seen1].
  destruct H1 as (Hs1 & Hn1 & H1). specialize (IH out1 seen1 Hs1 Hn1).
  destruct (foldl merge_one (out1, seen1) l) as [out' seen']. destruct IH as (? & ? & Hp & Hm).
  destruct H1 as [[-> H1]|[-> H1]]; split_and!; try done.
  - intros b. rewrite Hm. by apply (keep_iff (λ b, b ∈ out) usable).
  - etrans; [by apply prefix_app_r|exact Hp].
  - intros b. rewrite Hm, elem_of_app, list_elem_of_singleton. by apply (take_iff (λ b, b ∈ out) usable).
Qed.

Lemma MergeCandidates_spec local reflexive : ∃ out1 out2,
  MergeCandidates local reflexive = out1 ++ out2 ∧ NoDup (out1 ++ out2) ∧
  (∀ a, a ∈ out1 ↔ usable a ∧ ∃ b, b ∈ local ∧ a = normalized b) ∧
  (∀ a, a ∈ out1 ++ out2 ↔ usable a ∧ ∃ b, b ∈ local ++ reflexive ∧ a = normalized b).
Proof.
  unfold MergeCandidates. cbn [foldl].
  pose proof (merge_fold_spec (orderCandidates local) [] ∅ ltac:(set_solver) (NoDup_nil_2)) as H1.
  destruct (foldl merge_one ([], ∅) _) as [out1 seen1]. destruct H1 as (Hs1 & Hn1 & _ & Hm1).
  pose proof (merge_fold_spec (orderCandidates reflexive) out1 seen1 Hs1 Hn1) as H2.
  destruct (foldl merge_one (out1, seen1) _) as [out seen]. destruct H2 as (_ & Hn & [out2 ->] & Hm).
  exists out1, out2. split; [done|]. split; [done|].
  assert (∀ a, a ∈ out1 ↔ usable a ∧ ∃ b, b ∈ local ∧ a = normalized b) as H1.
  { intros a. rewrite Hm1, elem_of_orderCandidates, elem_of_nil. unfold usable. tauto. }
  split; [exact H1|]. intros a. rewrite Hm, H1, elem_of_orderCandidates. unfold usable.
  assert ((∃ b, b ∈ local ++ reflexive ∧ a = normalized b) ↔ (∃ b, b ∈ local ∧ a = normalized b) ∨ ∃ b, b ∈ reflexive ∧ a = normalized b) as ->.
  { setoid_rewrite elem_of_app. naive_solver. }
  tauto.
Qed.

Lemma normalized_idemp a : normalized (normalized a) = normalized a.
Proof.
  unfold normalized. cbn [ap_Addr ap_Port]. f_equal. destruct (ap_Addr a) as [|x|x z]; try done.
  unfold Unmap at 2 3. destruct (Is4In6 (V6 x z)) eqn:E; [done|]. cbn [WithZone]. unfold Unmap. by rewrite (E : Is4In6 (V6 x "") = false).
Qed.

(** An address of an interface that is up, fit to be announced. *)
Definition announceable (ifaces : list Interface) (port : Z) (family : AddrFamily) (a : AddrPort) : Prop :=
  ∃ i x, i ∈ ifaces ∧ FlagUp i = true ∧ FlagLoopback i = false ∧ x ∈ Addrs i ∧
    a = normalized (AddrPortFrom x port) ∧ IsValid (Unmap x) = true ∧ IsLoopback (Unmap x) = false ∧
    IsUnspecified (Unmap x) = false ∧ IsMulticast (Unmap x) = false ∧
    family_allows family (AsSlice (Unmap x)) = true ∧ Is6 (Unmap x) && IsLinkLocalUnicast (Unmap x) = false.

Definition gathered_ok (P : AddrPort → Prop) (g : gathered) : Prop :=
  Forall P (routable6 g) ∧ Forall P (routable4 g) ∧ Forall P (linkLocal4 g).

Lemma gather_ok ifaces port family i x g : i ∈ ifaces → FlagUp i = true → FlagLoopback i = false → x ∈ Addrs i →
  gathered_ok (announceable ifaces port family) g → gathered_ok (announceable ifaces port family) (gather port family g x).
Proof.
  intros Hi Hup Hlo Hx Hg. unfold gather.
  destruct (IsValid (Unmap x)) eqn:E1, (IsLoopback (Unmap x)) eqn:E2, (IsUnspecified (Unmap x)) eqn:E3, (IsMulticast (Unmap x)) eqn:E4;
    cbn [negb orb]; try done.
  destruct (family_allows family (AsSlice (Unmap x))) eqn:E5; cbn [negb]; [|done].
  case_bool_decide; [done|]. destruct Hg as (H6 & H4 & Hl).
  assert (Is6 (Unmap x) && IsLinkLocalUnicast (Unmap x) = false →
          announceable ifaces port family (AddrPortFrom (WithZone (Unmap x) "") port)) as Ha
    by (intros E6; by exists i, x).
  destruct (Is4 (Unmap x)) eqn:E4', (Is6 (Unmap x)) eqn:E6', (IsLinkLocalUnicast (Unmap x)) eqn:El; cbn [andb];
    unfold gathered_ok; cbn [routable6 routable4 linkLocal4]; rewrite ?Forall_app, ?Forall_singleton; auto.
  all: destruct (Unmap x); discriminate.
Qed.

Lemma capLocalCandidates_elem v6 v4 a : a ∈ capLocalCandidates v6 v4 → a ∈ v6 ∨ a ∈ v4.
Proof.
  destruct (capLocalCandidates_fair v6 v4) as (n6 & n4 & -> & _). rewrite elem_of_app.
  intros [H|H]; apply elem_of_take in H as (? & ? & _); [left|right]; by eapply list_elem_of_lookup_2.
Qed.

Lemma capLocalCandidates_length v6 v4 : (length (capLocalCandidates v6 v4) <= maxLocalCandidates)%nat.
Proof.
  destruct (capLocalCandidates_fair v6 v4) as (n6 & n4 & -> & ? & ? & ? & _). rewrite length_app, !length_take. lia.
Qed.

Lemma LocalCandidatesFrom_spec ifaces port family :
  (length (LocalCandidatesFrom ifaces port family) <= maxLocalCandidates)%nat ∧
  ∀ a, a ∈ LocalCandidatesFrom ifaces port family → port ≠ 0 ∧ announceable ifaces port family a.
Proof.
  unfold LocalCandidatesFrom. destruct (Z.eqb_spec port 0) as [|Hp]; [split; [cbn; unfold maxLocalCandidates; lia | by intros a ?%elem_of_nil]|].
  assert (∀ js g, (∀ i, i ∈ js → i ∈ ifaces) → gathered_ok (announceable ifaces port family) g →
    gathered_ok (announceable ifaces port family)
      (foldl (λ g i, if negb (FlagUp i) || FlagLoopback i then g else foldl (gather port family) g (Addrs i)) g js)) as Hf.
  { induction js as [|i js IH]; [done|]. intros g Hin Hg. cbn. apply IH; [intros; apply Hin; by right|].
    destruct (FlagUp i) eqn:Eu, (FlagLoopback i) eqn:El; cbn [negb orb]; try done.
    assert (∀ xs g, (∀ x, x ∈ xs → x ∈ Addrs i) → gathered_ok (announceable ifaces port family) g →
      gathered_ok (announceable ifaces port family) (foldl (gather port family) g xs)) as Hx; [|apply Hx; done].
    induction xs as [|x xs IHx]; [done|]. intros g' Hxs Hg'. cbn. apply IHx; [intros; apply Hxs; by right|].
    eapply gather_ok; [apply Hin; by left|done|done|apply Hxs; by left|done]. }
  specialize (Hf ifaces (mkGathered [] [] [] ∅) ltac:(done)). destruct (foldl _ _ ifaces) as [r6 r4 l4 seen].
  destruct Hf as (H6 & H4 & Hl); [split_and!; constructor|]. cbn [routable6 routable4 linkLocal4] in *.
  assert (∀ l a, Forall (announceable ifaces port family) l → a ∈ orderCandidates l → announceable ifaces port family a) as Ho.
  { intros l a Hall (b & Hb & ->)%elem_of_orderCandidates. rewrite list.Forall_forall in Hall.
    destruct (Hall b Hb) as (i & x & ? & ? & ? & ? & -> & ?). exists i, x. by rewrite normalized_idemp. }
  split; [case_decide; apply capLocalCandidates_length|].
  intros a Ha. split; [done|]. case_decide; apply capLocalCandidates_elem in Ha as [Ha|Ha]; eauto.
Qed.

(** ** The hosts worth probing *)
Lemma elem_of_Compact x l : x ∈ Compact l ↔ x ∈ l.
Proof.
  induction l as [|y l IH]; [done|]. cbn. rewrite elem_of_cons, <-IH. destruct (Compact l) as [|z l'].
  - rewrite list_elem_of_singleton, elem_of_nil. tauto.
  - destruct (Z.eqb_spec y z) as [->|]; rewrite ?elem_of_cons; tauto.
Qed.

Lemma Compact_sorted l : StronglySorted Z.le l → StronglySorted Z.lt (Compact l).
Proof.
  induction 1 as [|x l Hl IH Hx]; [constructor|]. cbn. destruct (Compact l) as [|y l'] eqn:E; [repeat constructor|].
  rewrite list.Forall_forall in Hx. destruct (Z.eqb_spec x y) as [->|Hne]; [done|]. constructor; [done|].
  apply list.Forall_forall. intros z Hz. assert (x <= y) by (apply Hx; apply elem_of_Compact; rewrite E; by left).
  apply elem_of_cons in Hz as [->|Hz]; [lia|]. apply StronglySorted_inv in IH as [_ IH]. rewrite list.Forall_forall in IH.
  specialize (IH z Hz). lia.
Qed.

Lemma uniqueSortedPorts_spec l : StronglySorted Z.lt (uniqueSortedPorts l) ∧ ∀ x, x ∈ uniqueSortedPorts l ↔ x ∈ l.
Proof.
  unfold uniqueSortedPorts. split; [apply Compact_sorted, (StronglySorted_merge_sort Z.le)|].
  intros x. by rewrite elem_of_Compact, (merge_sort_Permutation Z.le l).
Qed.

(** A port announced for an IPv4 host. *)
Definition announced (addrs : list AddrPort) (ip : Addr) (port : Z) : Prop :=
  ∃ a, a ∈ addrs ∧ Is4 (ap_Addr a) = true ∧ ap_Addr a = ip ∧ ap_Port a = port.

Lemma by_host_spec addrs (m : gmap Addr (list Z)) ip port :
  port ∈ default [] (foldl by_host m addrs !! ip) ↔
  port ∈ default [] (m !! ip) ∨ announced addrs ip port.
Proof.
  revert m. induction addrs as [|a addrs IH]; intros m; cbn [foldl].
  { unfold announced. setoid_rewrite elem_of_nil. naive_solver. }
  rewrite IH. assert (announced (a :: addrs) ip port ↔
    (Is4 (ap_Addr a) = true ∧ ap_Addr a = ip ∧ ap_Port a = port) ∨ announced addrs ip port) as ->.
  { unfold announced. setoid_rewrite elem_of_cons. split; [intros (b & [->|Hb] & H); [by left|right; by exists b]|].
    intros [H|(b & Hb & H)]; [exists a; by split; [left|] | exists b; by split; [right|]]. }
  unfold by_host. destruct (ap_Addr a) as [|x|x z] eqn:Ea; unfold AddrPort_IsValid; rewrite Ea; cbn [Is4 negb orb].
  - rewrite bool_decide_eq_true_2 by done. cbn. split; [tauto|]. intros [?|[[? _]|?]]; tauto || done.
  - rewrite bool_decide_eq_false_2 by done. cbn [negb orb Unmap]. destruct (decide (V4 x = ip)) as [<-|Hne].
    + rewrite lookup_insert_eq. cbn. rewrite elem_of_app, list_elem_of_singleton. split; [intros [[?| ->]|?]; tauto|].
      intros [?|[(_ & _ & ->)|?]]; tauto.
    + rewrite lookup_insert_ne by done. split; [tauto|]. intros [?|[(_ & ? & _)|?]]; tauto.
  - rewrite bool_decide_eq_false_2 by done. cbn. split; [tauto|]. intros [?|[[? _]|?]]; tauto || done.
Qed.

Lemma by_host_nonempty addrs (m : gmap Addr (list Z)) : map_Forall (λ _ l, l ≠ []) m →
  map_Forall (λ _ l, l ≠ []) (foldl by_host m addrs).
Proof.
  revert m. induction addrs as [|a addrs IH]; [done|]. intros m Hm. cbn [foldl]. apply IH. unfold by_host. destruct (_ || _); [done|].
  apply map_Forall_insert_2; [|done]. by destruct (default [] _).
Qed.

Lemma endpointDependentHosts_spec addrs force ip ports :
  endpointDependentHosts addrs force !! ip = Some ports →
  StronglySorted Z.lt ports ∧ ports ≠ [] ∧ (∀ x, x ∈ ports ↔ announced addrs ip x) ∧ (force = true ∨ (2 <= length ports)%nat).
Proof.
  unfold endpointDependentHosts. rewrite lookup_omap.
  pose proof (by_host_nonempty addrs ∅ (map_Forall_empty _)) as Hne. set (m := foldl by_host ∅ addrs) in *. intros Hp.
  destruct (m !! ip) as [raw|] eqn:E; [|done]. cbn in Hp.
  destruct (uniqueSortedPorts_spec raw) as [Hs He].
  assert (∀ x, x ∈ raw ↔ announced addrs ip x) as Hr.
  { intros x. pose proof (by_host_spec addrs ∅ ip x) as H. fold m in H. rewrite lookup_empty in H. cbn [default] in H.
    rewrite E in H. cbn [default from_option] in H.
    rewrite H, elem_of_nil. tauto. }
  destruct (_ && _) eqn:Eb in Hp; [done|]. injection Hp as <-. split; [done|]. split.
  { intros Hnil. apply (Hne ip raw E). destruct raw as [|x raw]; [done|]. exfalso.
    apply (not_elem_of_nil x). rewrite <-Hnil. apply He. by left. }
  split; [intros x; by rewrite He, Hr|].
  apply andb_false_iff in Eb as [Eb|Eb]; [right; by apply Nat.ltb_ge | left; by apply negb_false_iff].
Qed.

(** ** The probes *)
Section Probes.
Context (limit : Z) (P : AddrPort → Prop) (seen0 : gset AddrPort).

Record probing_ok (st : probing) : Prop := {
  pr_len : len (probes st) <= limit;
  pr_nodup : NoDup (probes st);
  pr_all : ∀ a, a ∈ probes st → P a ∧ a ∉ seen0;
  pr_seen : ∀ a, a ∈ p_seen st ↔ a ∈ seen0 ∨ a ∈ probes st;
}.

Definition ranged (ip : Addr) : Prop :=
  ∀ port, symmetricNATMinProbePort <= port <= 65535 → P (AddrPortFrom ip port).

Lemma add_ok ip port st : ranged ip → probing_ok st →
  let '(st', ok) := add limit ip port st in
  probing_ok st' ∧ (probes st `prefix_of` probes st') ∧ (ok = false → limit <= len (probes st)) ∧
  (ok = true → symmetricNATMinProbePort <= port <= 65535 →
     AddrPortFrom ip port ∈ seen0 ∨ AddrPortFrom ip port ∈ probes st').
Proof.
  intros Hip [Hl Hn Ha Hs]. unfold add. destruct (Z.leb_spec limit (len (probes st))).
  { split; [done|]. split; [done|]. split; [done|]. done. }
  destruct (Z.ltb_spec port symmetricNATMinProbePort), (Z.ltb_spec 65535 port); cbn [orb];
    try (split; [done|]; split; [done|]; split; [done|]; lia).
  assert (0 <= port < 2 ^ 16) as Hport by (unfold symmetricNATMinProbePort in *; lia).
  rewrite wrapU_small by done. case_bool_decide as Hin.
  { split; [done|]. split; [done|]. split; [done|]. intros _ _. by apply Hs. }
  assert ((AddrPortFrom ip port ∉ seen0) ∧ (AddrPortFrom ip port ∉ probes st)) as [Hn0 Hnp] by (rewrite Hs in Hin; tauto).
  split; [|split; [by apply prefix_app_r|split; [done|]]].
  - split; cbn [probes p_seen].
    + rewrite len_app. change (len [_]) with 1. lia.
    + apply NoDup_app. split; [done|]. split; [|apply NoDup_singleton]. by intros b Hb ->%list_elem_of_singleton.
    + intros b. rewrite elem_of_app, list_elem_of_singleton. intros [?| ->]; [auto|]. split; [|done]. apply Hip. lia.
    + intros b. rewrite elem_of_union, elem_of_singleton, elem_of_app, list_elem_of_singleton, Hs. tauto.
  - intros _ _. right. cbn. apply elem_of_app. right. by apply list_elem_of_singleton.
Qed.

Lemma add_all_ok gs st : (∀ ip port, (ip, port) ∈ gs → ranged ip) → probing_ok st →
  probing_ok (add_all limit gs st) ∧ probes st `prefix_of` probes (add_all limit gs st).
Proof.
  revert st. induction gs as [|[ip port] gs IH]; intros st Hg Hst; [done|]. cbn.
  pose proof (add_ok ip port st (Hg ip port ltac:(left)) Hst) as H1. destruct (add limit ip port st) as [st' []].
  - destruct H1 as (H1 & Hp & _). destruct (IH st') as [H2 Hp2]; [intros i q Hiq; apply (Hg i q); by right|done|]. split; [done|]. by etrans.
  - by destruct H1 as (H1 & Hp & _).
Qed.

(** With room for all, every guess in range is made unless it was announced. *)
Lemma add_all_complete gs st : (∀ ip port, (ip, port) ∈ gs → ranged ip) → probing_ok st →
  len (probes st) + len gs <= limit →
  ∀ ip port, (ip, port) ∈ gs → symmetricNATMinProbePort <= port <= 65535 →
    AddrPortFrom ip port ∈ seen0 ∨ AddrPortFrom ip port ∈ probes (add_all limit gs st).
Proof.
  revert st. induction gs as [|[i q] gs IH]; intros st Hg Hst Hl ip port; [by intros ?%elem_of_nil|]. cbn [add_all].
  rewrite len_cons in Hl. pose proof (len_nonneg gs).
  pose proof (add_ok i q st (Hg i q ltac:(left)) Hst) as H1.
  assert (len (probes (add limit i q st).1) <= len (probes st) + 1) as Hlen.
  { unfold add. repeat case_match; cbn [fst probes]; rewrite ?len_app; try lia. change (len [_]) with 1. lia. }
  destruct (add limit i q st) as [st' ok]. destruct H1 as (H1 & Hp & Hf & Ht). cbn [fst] in Hlen.
  destruct ok; [|specialize (Hf eq_refl); lia].
  assert (∀ a b, (a, b) ∈ gs → ranged a) as Hg' by (intros a b Hab; apply (Hg a b); by right).
  intros Hin Hr. apply elem_of_cons in Hin as [[= -> ->]|Hin].
  - destruct (Ht eq_refl Hr) as [?|Hin]; [by left|right]. destruct (add_all_ok gs st' Hg' H1) as [_ [k ->]].
    apply elem_of_app. by left.
  - apply IH; (done || lia).
Qed.

Lemma draw_round_ok draw ips k st : (∀ ip, ip ∈ ips → ranged ip) → probing_ok st →
  let '(st', _) := draw_round limit draw ips k st in probing_ok st' ∧ probes st `prefix_of` probes st'.
Proof.
  revert k st. induction ips as [|ip ips IH]; intros k st Hips Hst; [done|]. cbn [draw_round].
  pose proof (add_ok ip (symmetricNATMinProbePort + draw k mod (65536 - symmetricNATMinProbePort)) st (Hips ip ltac:(left)) Hst) as H1.
  destruct (add limit ip _ st) as [st1 []]; [|by destruct H1 as (? & ? & _)]. destruct H1 as (H1 & Hp & _).
  specialize (IH (S k) st1 ltac:(intros; apply Hips; by right) H1). destruct (draw_round limit draw ips (S k) st1) as [st' k'].
  destruct IH as [? ?]. split; [done|]. by etrans.
Qed.

Lemma tier3_ends fuel draw ips k misses st : (∀ ip, ip ∈ ips → ranged ip) → probing_ok st → 0 <= misses <= symmetricNATProbeMissLimit →
  (limit - len (probes st)) * (symmetricNATProbeMissLimit + 1) + (symmetricNATProbeMissLimit - misses) < Z.of_nat fuel →
  ∃ st', tier3 fuel limit draw ips k misses st = Some st' ∧ probing_ok st' ∧ probes st `prefix_of` probes st'.
Proof.
  revert k misses st. induction fuel as [|fuel IH]; intros k misses st Hips Hst Hm Hf; pose proof (pr_len st Hst).
  { exfalso. unfold symmetricNATProbeMissLimit in *. lia. }
  cbn [tier3]. destruct (_ && _) eqn:E; cbn [negb]; [|by exists st].
  apply andb_true_iff in E as [E1%Z.ltb_lt E2%Z.ltb_lt].
  pose proof (draw_round_ok draw ips k st Hips Hst) as H1. destruct (draw_round limit draw ips k st) as [st1 k1].
  destruct H1 as [H1 Hp]. pose proof (pr_len st1 H1). pose proof (prefix_length _ _ Hp) as Hlen.
  destruct (IH k1 (if len (probes st1) =? len (probes st) then misses + 1 else 0) st1) as (st' & E & H2 & Hp2);
    [done|done| | |exists st'; split; [done|]; split; [done|]; by etrans].
  - unfold symmetricNATProbeMissLimit in *. destruct (_ =? _); lia.
  - unfold len, symmetricNATProbeMissLimit in *. destruct (Z.eqb_spec (Z.of_nat (length (probes st1))) (Z.of_nat (length (probes st)))); lia.
Qed.
End Probes.

(** The neighbours of the announced ports, in the order they are tried. *)
Definition neighbours (addrs : list AddrPort) (force : bool) : list (Addr * Z) :=
  let hosts := endpointDependentHosts addrs force in tier1 (merge_sort Addr_leb (elements (dom hosts))) hosts.

Lemma elem_of_ips (hosts : gmap Addr (list Z)) ip : ip ∈ merge_sort Addr_leb (elements (dom hosts)) ↔ is_Some (hosts !! ip).
Proof. by rewrite (merge_sort_Permutation Addr_leb), elem_of_elements, elem_of_dom. Qed.

Lemma elem_of_tier1 ips hosts ip port : (ip, port) ∈ tier1 ips hosts ↔
  ip ∈ ips ∧ ∃ p d, p ∈ default [] (hosts !! ip) ∧ 1 <= Z.abs d <= symmetricNATSequentialSpan ∧ port = p + d.
Proof.
  unfold tier1. rewrite list_elem_of_bind. setoid_rewrite list_elem_of_bind. setoid_rewrite list_elem_of_bind.
  setoid_rewrite elem_of_seqZ. split.
  - intros (o & (i & (p & Hin & Hp) & Hi) & Ho).
    apply elem_of_cons in Hin as [[= -> ->]|Hin]; [|apply list_elem_of_singleton in Hin as [= -> ->]].
    + split; [done|]. exists p, o. split; [done|]. split; lia.
    + split; [done|]. exists p, (- o). split; [done|]. split; lia.
  - intros (Hi & p & d & Hp & Hd & ->). exists (Z.abs d). split; [|lia]. exists ip. split; [|done]. exists p. split; [|done].
    destruct (Z.leb_spec 0 d); [replace (p + d) with (p + Z.abs d) by lia; left | replace (p + d) with (p - Z.abs d) by lia; right; left].
Qed.

Lemma elem_of_tier2 hosts ip i port : (i, port) ∈ tier2 hosts ip → i = ip.
Proof.
  unfold tier2. destruct (portStride _); [|by intros ?%elem_of_nil]. by intros (? & [= -> ->] & _)%list_elem_of_fmap.
Qed.

Lemma Unmap_other a : Is4In6 a = false → Unmap a = a.
Proof. unfold Unmap. destruct a; try done. by intros ->. Qed.

(** The ports guessed on a peer are at most as many as asked for, all
    different, none of them announced and none below 1024; they are on IPv4
    hosts the peer announced, and unless forced only on hosts announced with
    two ports at least; when there is room, each of the 64 neighbours on both
    sides of every announced port is among them.  The search always ends. *)
Lemma symmetricNATProbes_spec addrs limit force draw : (∀ a, a ∈ addrs → Is4In6 (ap_Addr a) = false) →
  ∃ ps, symmetricNATProbes addrs limit force draw = Some ps ∧
    len ps <= Z.max 0 limit ∧ NoDup ps ∧
    (∀ a, a ∈ ps → symmetricNATMinProbePort <= ap_Port a <= 65535 ∧ (a ∉ addrs) ∧ Is4 (ap_Addr a) = true ∧
       ∃ p q, announced addrs (ap_Addr a) p ∧ announced addrs (ap_Addr a) q ∧ (force = true ∨ p ≠ q)) ∧
    (len (neighbours addrs force) <= limit → ∀ ip p d,
       is_Some (endpointDependentHosts addrs force !! ip) → announced addrs ip p → 1 <= Z.abs d <= symmetricNATSequentialSpan →
       symmetricNATMinProbePort <= p + d <= 65535 → AddrPortFrom ip (p + d) ∈ addrs ++ ps).
Proof.
  intros Hun. unfold symmetricNATProbes, neighbours. set (hosts := endpointDependentHosts addrs force).
  set (ips := merge_sort Addr_leb (elements (dom hosts))).
  assert (∀ ip p d, is_Some (hosts !! ip) → announced addrs ip p → 1 <= Z.abs d <= symmetricNATSequentialSpan →
    (ip, p + d) ∈ tier1 ips hosts) as Hnb.
  { intros ip p d [ports E] Hp Hd. apply elem_of_tier1. split; [apply elem_of_ips; by eexists|]. exists p, d.
    rewrite E. split; [|done]. by apply (proj2 (proj2 (endpointDependentHosts_spec addrs force ip ports E))). }
  destruct (Z.leb_spec limit 0).
  { exists []. split; [done|]. split; [unfold len; cbn; lia|]. split; [constructor|]. split; [by intros a ?%elem_of_nil|].
    intros Hl ip p d Hi Hp Hd. exfalso. specialize (Hnb ip p d Hi Hp Hd). destruct (tier1 ips hosts); [by apply elem_of_nil in Hnb|].
    rewrite len_cons in Hl. pose proof (len_nonneg l). lia. }
  destruct (decide (hosts = ∅)) as [E|_].
  { exists []. split; [done|]. split; [unfold len; cbn; lia|]. split; [constructor|]. split; [by intros a ?%elem_of_nil|].
    intros _ ip p d [? Hi]. by rewrite E, lookup_empty in Hi. }
  set (seen0 := list_to_set _ : gset AddrPort).
  assert (∀ a, a ∈ seen0 ↔ a ∈ addrs) as Hseen.
  { intros a. unfold seen0. rewrite elem_of_list_to_set, list_elem_of_fmap. split.
    - intros (b & -> & Hb). rewrite Unmap_other by auto. by destruct b.
    - intros Ha. exists a. rewrite Unmap_other by auto. by destruct a. }
  set (P := λ a, symmetricNATMinProbePort <= ap_Port a <= 65535 ∧ is_Some (hosts !! ap_Addr a)).
  assert (∀ ip, ip ∈ ips → ranged P ip) as Hips by (intros ip Hip port Hport; split; [done|]; by apply elem_of_ips).
  assert (probing_ok limit P seen0 (mkProbing [] seen0)) as H0.
  { split; cbn [probes p_seen]; [unfold len; cbn; lia|constructor|by intros a ?%elem_of_nil|]. intros a. rewrite elem_of_nil. tauto. }
  assert (∀ ip port, (ip, port) ∈ tier1 ips hosts → ranged P ip) as Hr1 by (intros ip port [Hi _]%elem_of_tier1; auto).
  destruct (add_all_ok limit P seen0 (tier1 ips hosts) _ Hr1 H0) as [H1 _].
  pose proof (add_all_complete limit P seen0 (tier1 ips hosts) _ Hr1 H0) as Hc.
  set (st1 := add_all limit (tier1 ips hosts) _) in *.
  assert (∀ is' st, (∀ ip, ip ∈ is' → ip ∈ ips) → probing_ok limit P seen0 st →
    probing_ok limit P seen0 (foldl (λ st ip, add_all limit (tier2 hosts ip) st) st is') ∧
    (probes st `prefix_of` probes (foldl (λ st ip, add_all limit (tier2 hosts ip) st) st is'))) as H2.
  { induction is' as [|ip is' IH]; [done|]. intros st Hi Hst. cbn.
    destruct (add_all_ok limit P seen0 (tier2 hosts ip) st) as [Ha Hp]; [|done|].
    - intros i port ->%elem_of_tier2. apply Hips, Hi. by left.
    - destruct (IH (add_all limit (tier2 hosts ip) st)) as [Hb Hq]; [intros; apply Hi; by right|done|]. split; [done|]. by etrans. }
  destruct (H2 ips st1 ltac:(done) H1) as [H2' Hp2]. set (st2 := foldl _ st1 ips) in *.
  destruct (tier3_ends limit P seen0 (tier3_fuel limit) draw ips 0 0 st2 Hips H2') as (st3 & -> & H3 & Hp3).
  { unfold symmetricNATProbeMissLimit. lia. }
  { unfold tier3_fuel, symmetricNATProbeMissLimit. pose proof (len_nonneg (probes st2)). lia. }
  destruct H3 as [Hl3 Hn3 Ha3 _]. exists (probes st3). split; [done|]. split; [lia|]. split; [done|]. split.
  - intros a Ha. destruct (Ha3 a Ha) as [[Hport [ports Eh]] Hns]. split; [done|]. rewrite Hseen in Hns. split; [done|].
    destruct (endpointDependentHosts_spec addrs force _ ports Eh) as (Hs & Hne & He & Hf).
    destruct ports as [|p ports]; [done|]. destruct (proj1 (He p) ltac:(left)) as (b & Hb & H4 & Eb & Hpb). split; [by rewrite <-Eb|].
    destruct ports as [|q ports].
    + destruct Hf as [->|?]; [|cbn in *; lia]. exists p, p. split; [by exists b|]. split; [by exists b|]. by left.
    + exists p, q. split; [by exists b|]. split; [apply He; right; left|]. right.
      apply StronglySorted_inv in Hs as [_ Hs]. apply list.Forall_cons in Hs as [Hs _]. lia.
  - intros Hl ip p d Hi Hp Hd Hr. apply elem_of_app.
    destruct (Hc Hl ip (p + d) (Hnb ip p d Hi Hp Hd) Hr) as [Hin|Hin]; [left; by apply Hseen|right].
    destruct Hp2 as [k2 E2], Hp3 as [k3 E3]. rewrite E3, E2, !elem_of_app. tauto.
Qed.

(** ** Example: a host announced with two ports *)
Definition sample_host : Addr := V4 16843009.
Example sample_probes :
  symmetricNATProbes [AddrPortFrom sample_host 40000; AddrPortFrom sample_host 40002] 3 false (λ k, Z.of_nat k) =
  Some (AddrPortFrom sample_host <$> [40001; 39999; 40003]).
Proof. vm_compute. reflexivity. Qed.
