(* ===== verification/Net.v ===== *)
(** * Hosts and ports: [net.SplitHostPort] and [net.JoinHostPort] *)
From S2P Require Import GoStd Prelude Netip.
Import Strings.

Inductive addr_error := missingPort | tooManyColons | missingBracket | unexpectedOpen | unexpectedClose.

(** [s[i:j]]. *)
Definition slice (s : string) (i j : Z) : string := first (Z.to_nat (j - i)) (skip (Z.to_nat i) s).

Definition SplitHostPort (hostport : string) : result addr_error (string * string) :=
  let i := LastIndexByte hostport ":" in
  if i <? 0 then Err missingPort else
  let n := Z.of_nat (String.length hostport) in
  let rest := λ host j k,
    if 0 <=? IndexByte (skip j hostport) "[" then Err unexpectedOpen
    else if 0 <=? IndexByte (skip k hostport) "]" then Err unexpectedClose
    else Ok (host, skip (Z.to_nat (i + 1)) hostport) in
  match hostport with
  | String "[" _ =>
      let stop := IndexByte hostport "]" in
      if stop <? 0 then Err missingBracket
      else if stop + 1 =? n then Err missingPort
      else if stop + 1 =? i then rest (slice hostport 1 stop) 1%nat (Z.to_nat (stop + 1))
      else if bool_decide (slice hostport (stop + 1) (stop + 2) = ":"%string) then Err tooManyColons
      else Err missingPort
  | _ =>
      let host := first (Z.to_nat i) hostport in
      if 0 <=? IndexByte host ":" then Err tooManyColons else rest host 0%nat 0%nat
  end.

Definition JoinHostPort (host port : string) : string :=
  if 0 <=? IndexByte host ":" then ("[" ++ host ++ "]:" ++ port)%string else (host ++ ":" ++ port)%string.

(** ** Joined hosts and ports are split again *)
Lemma IndexByte_free s c : free_of c s → IndexByte s c = -1.
Proof.
  induction s as [|d s IH]; [done|]. intros [Hd Hs]%free_of_cons. cbn [IndexByte]. rewrite decide_False by done. by rewrite (IH Hs).
Qed.

Lemma IndexByte_app s c t : free_of c s → IndexByte (s ++ String c t) c = Z.of_nat (String.length s).
Proof.
  induction s as [|d s IH]; intros Hs; [change (EmptyString ++ String c t)%string with (String c t); cbn [IndexByte]; by rewrite decide_True|].
  apply free_of_cons in Hs as [Hd Hs]. change (String d s ++ String c t)%string with (String d (s ++ String c t)).
  cbn [IndexByte]. rewrite decide_False by done. rewrite (IH Hs). destruct (Z.ltb_spec (Z.of_nat (String.length s)) 0); [lia|].
  cbn [String.length]. lia.
Qed.

Lemma LastIndexByte_free s c : free_of c s → LastIndexByte s c = -1.
Proof.
  induction s as [|d s IH]; [done|]. intros [Hd Hs]%free_of_cons. cbn [LastIndexByte]. rewrite (IH Hs), decide_False by done. done.
Qed.

Lemma LastIndexByte_app s c t : free_of c t → LastIndexByte (s ++ String c t) c = Z.of_nat (String.length s).
Proof.
  intros Ht. induction s as [|d s IH].
  - change (EmptyString ++ String c t)%string with (String c t). cbn [LastIndexByte].
    by rewrite (LastIndexByte_free _ _ Ht), decide_True.
  - change (String d s ++ String c t)%string with (String d (s ++ String c t)). cbn [LastIndexByte]. rewrite IH.
    destruct (Z.leb_spec 0 (Z.of_nat (String.length s))); [|lia]. cbn [String.length]. lia.
Qed.

Lemma skip_app s t : skip (String.length s) (s ++ t) = t.
Proof. induction s as [|d s IH]; [done|]. exact IH. Qed.
Lemma first_app s t : first (String.length s) (s ++ t) = s.
Proof.
  induction s as [|d s IH]; [by destruct t|].
  change (String d (first (String.length s) (s ++ t)) = String d s). by rewrite IH.
Qed.
Lemma length_app_string s t : String.length (s ++ t) = (String.length s + String.length t)%nat.
Proof.
  induction s as [|d s IH]; [done|]. change (S (String.length (s ++ t)) = S (String.length s) + String.length t)%nat.
  by rewrite IH.
Qed.

Definition plain_port (port : string) : Prop := free_of ":" port ∧ free_of "[" port ∧ free_of "]" port.

Lemma SplitHostPort_JoinHostPort host port : free_of "[" host → free_of "]" host → plain_port port →
  SplitHostPort (JoinHostPort host port) = Ok (host, port).
Proof.
  intros Ho Hc (Pp & Po & Pc). unfold JoinHostPort. destruct (Z.leb_spec 0 (IndexByte host ":")) as [Hi|Hi].
  - unfold SplitHostPort.
    change ("[" ++ host ++ "]:" ++ port)%string with (String "[" (host ++ String "]" (String ":" port))).
    assert (LastIndexByte (String "[" (host ++ String "]" (String ":" port))) ":" = Z.of_nat (String.length host) + 2) as ->.
    { replace (String "[" (host ++ String "]" (String ":" port))) with ((String "[" (host ++ "]")) ++ String ":" port)%string
        by (change (String "[" ((host ++ "]") ++ String ":" port) = String "[" (host ++ String "]" (String ":" port)))%string;
            by rewrite append_assoc).
      rewrite (LastIndexByte_app _ _ _ Pp). cbn [String.length]. rewrite length_app_string. cbn. lia. }
    assert (IndexByte (String "[" (host ++ String "]" (String ":" port))) "]" = Z.of_nat (String.length host) + 1) as ->.
    { change (String "[" (host ++ String "]" (String ":" port))) with ((String "[" host) ++ String "]" (String ":" port))%string.
      rewrite IndexByte_app; [cbn [String.length]; lia|]. by apply free_of_cons. }
    rewrite !(proj2 (Z.ltb_ge _ 0)) by lia.
    assert (Z.of_nat (String.length (String "[" (host ++ String "]" (String ":" port)))) =
            Z.of_nat (String.length host) + 3 + Z.of_nat (String.length port)) as ->
      by (cbn [String.length]; rewrite length_app_string; cbn [String.length]; lia).
    destruct (Z.eqb_spec (Z.of_nat (String.length host) + 1 + 1) (Z.of_nat (String.length host) + 3 + Z.of_nat (String.length port))); [lia|].
    destruct (Z.eqb_spec (Z.of_nat (String.length host) + 1 + 1) (Z.of_nat (String.length host) + 2)); [|lia].
    cbn [skip]. rewrite (IndexByte_free (host ++ _)).
    2: { apply free_of_app. split; [done|]. rewrite !free_of_cons. done. }
    replace (Z.to_nat (Z.of_nat (String.length host) + 1 + 1)) with (S (S (String.length host))) by lia. cbn [skip].
    replace (Z.to_nat (Z.of_nat (String.length host) + 2 + 1)) with (S (String.length (host ++ "]:"))) by (rewrite length_app_string; cbn; lia).
    cbn [skip].
    assert (host ++ String "]" (String ":" port) = (host ++ "]:") ++ port)%string as -> by (by rewrite append_assoc).
    rewrite skip_app.
    match goal with |- context [IndexByte ?m "]"] => change m with (skip (S (String.length host)) ((host ++ "]:") ++ port)%string) end.
    assert (skip (S (String.length host)) ((host ++ "]:") ++ port)%string = String ":" port) as ->.
    { replace ((host ++ "]:") ++ port)%string with ((host ++ "]") ++ String ":" port)%string by (by rewrite !append_assoc).
      replace (S (String.length host)) with (String.length (host ++ "]")) by (rewrite length_app_string; cbn; lia). apply skip_app. }
    rewrite (IndexByte_free (String ":" port)) by (by apply free_of_cons). cbn [Z.leb Z.compare].
    unfold slice. replace (Z.to_nat (Z.of_nat (String.length host) + 1 - 1)) with (String.length host) by lia.
    change (Z.to_nat 1) with 1%nat. cbn [skip]. rewrite append_assoc. by rewrite first_app.
  - assert (free_of ":" host) as Hh.
    { destruct (decide (free_of ":" host)) as [|Hn]; [done|]. exfalso. clear -Hi Hn.
      induction host as [|d s IH]; [apply Hn, free_of_nil|]. cbn [IndexByte] in Hi. destruct (decide (d = ":"%char)); [lia|].
      destruct (Z.ltb_spec (IndexByte s ":") 0); [|lia]. apply IH; [lia|]. intros ?. by apply Hn, free_of_cons. }
    unfold SplitHostPort. change (host ++ ":" ++ port)%string with (host ++ String ":" port)%string.
    rewrite (LastIndexByte_app _ _ _ Pp). destruct (Z.ltb_spec (Z.of_nat (String.length host)) 0); [lia|].
    replace (Z.to_nat (Z.of_nat (String.length host))) with (String.length host) by lia. rewrite first_app.
    rewrite (IndexByte_free host) by done. cbn [Z.leb Z.compare].
    replace (Z.to_nat (Z.of_nat (String.length host) + 1)) with (String.length (host ++ ":")) by (rewrite length_app_string; cbn; lia).
    assert (∀ c, free_of c host → free_of c port → c ≠ ":"%char → IndexByte (skip 0 (host ++ String ":" port)) c = -1) as Hfree.
    { intros c H1 H2 H3. apply IndexByte_free, free_of_app. split; [done|]. by apply free_of_cons. }
    rewrite !Hfree by done. cbn [Z.leb Z.compare].
    assert (skip (String.length (host ++ ":")) (host ++ String ":" port) = port) as ->.
    { rewrite <-(skip_app (host ++ ":") port) at 2. by rewrite append_assoc. }
    destruct host as [|d s]; [done|]. destruct (decide (d = "["%char)) as [->|Hd]; [by apply free_of_cons in Ho as [? _]|].
    cbn. destruct d as [[] [] [] [] [] [] [] []]; done.
Qed.
