(* ===== verification/Stun.v ===== *)
(** * STUN discovery (extras/realm/stun.go)

    The servers asked, the transactions open, and the addresses learned, either
    from the socket or from the events of the demultiplexer.  The STUN codec
    is the one of the class below; resolution, sending and receiving are
    arguments. *)
From S2P Require Import GoStd Prelude Netip Net IP Nat.

(** What the code relies on in the STUN library. *)
Class StunLib := {
  Message : Type;
  IsMessage : bytes → bool;
  Decode : bytes → option Message;
  BindingSuccess : Message → bool;
  TransactionID : Message → bytes;
  XORMappedAddress : Message → option (IP * Z);
  MappedAddress : Message → option (IP * Z);
  Decode_IsMessage p m : Decode p = Some m → IsMessage p = true }.

Definition defaultSTUNPort : string := "3478".
Definition defaultSTUNTimeout : Z := 4 * Second.

Inductive stun_error : Type :=
| ErrInvalidSTUNConfig (why : string)
| errInvalidPort
| errLookup
| errBuild
| errReadFrom
| errContext (e : context_error).

Definition validatePort (port : string) : bool :=
  let '(p, err) := Strconv.Atoi port in negb (err || (p <=? 0) || (65535 <? p)).

Definition splitSTUNServer (server : string) : result stun_error (string * string) :=
  if bool_decide (server = EmptyString) then Err (ErrInvalidSTUNConfig "STUN server is empty") else
  match SplitHostPort server with
  | Ok (host, port) =>
      if bool_decide (host = EmptyString) then Err (ErrInvalidSTUNConfig "STUN server host is required")
      else if negb (validatePort port) then Err errInvalidPort else Ok (host, port)
  | Err _ =>
      if 1 <? Strings.Count server ":" then
        match ParseAddr server with
        | None => Err (ErrInvalidSTUNConfig "invalid STUN server address")
        | Some _ => Ok (server, defaultSTUNPort)
        end
      else if Strings.Contains server ":" then
        match SplitHostPort server with
        | Err _ => Err (ErrInvalidSTUNConfig "invalid STUN server address")
        | Ok hp => Ok hp
        end
      else Ok (server, defaultSTUNPort)
  end.

Definition netIPPortToAddrPort (ip : IP) (port : Z) : option AddrPort :=
  if (port <=? 0) || (65535 <? port) then None else
  match To4 ip with
  | [] => if (length ip =? 16)%nat then Some (AddrPortFrom (V6 (be_Z ip) EmptyString) (u16 port)) else None
  | ip4 => Some (AddrPortFrom (V4 (be_Z ip4)) (u16 port))
  end.

(** The addresses of one server, those seen before left out. *)
Fixpoint add_ips (family : AddrFamily) (port : string) (ips : list IP) (st : list net_Addr * gset string)
    : list net_Addr * gset string :=
  match ips with
  | [] => st
  | ip :: ips =>
      let '(out, seen) := st in
      if bool_decide (ip = []) || negb (family_allows family ip) then add_ips family port ips st else
      let key := JoinHostPort (IP_String ip) port in
      if bool_decide (key ∈ seen) then add_ips family port ips st
      else add_ips family port ips (out ++ [UDPAddr ip (Strconv.Atoi port).1], {[key]} ∪ seen)
  end.

Fixpoint resolve_loop (lookup : string → option (list IP)) (family : AddrFamily) (servers : list string)
    (st : list net_Addr * gset string) : result stun_error (list net_Addr) :=
  match servers with
  | [] => Ok st.1
  | server :: servers =>
      '(host, port) ← splitSTUNServer server;
      match lookup host with
      | None => Err errLookup
      | Some ips => resolve_loop lookup family servers (add_ips family port ips st)
      end
  end.

Definition resolveSTUNServers (lookup : string → option (list IP)) (servers : list string) (family : AddrFamily)
    : result stun_error (list net_Addr) := resolve_loop lookup family servers ([], ∅).

(** Each address with what [stun.Build] and [WriteTo] give for it. *)
Record request := mkRequest { rq_id : option bytes; rq_written : bool }.

Fixpoint send_loop (addrs : list net_Addr) (reqs : nat → request) (i : nat) (transactions : gmap bytes net_Addr)
    : result stun_error (gmap bytes net_Addr) :=
  match addrs with
  | [] => Ok transactions
  | addr :: addrs =>
      match rq_id (reqs i) with
      | None => Err errBuild
      | Some id => send_loop addrs reqs (S i) (if rq_written (reqs i) then <[id := addr]> transactions else transactions)
      end
  end.

Definition sendSTUNRequests (addrs : list net_Addr) (reqs : nat → request) : result stun_error (gmap bytes net_Addr) :=
  if len addrs =? 0 then Err (ErrInvalidSTUNConfig "no STUN server addresses match the local socket family") else
  transactions ← send_loop addrs reqs 0 ∅;
  if decide (transactions = ∅) then Err (ErrInvalidSTUNConfig "failed to send STUN binding requests") else Ok transactions.

Definition finishSTUNResults (results : gset AddrPort) (err : option context_error) : result stun_error (list AddrPort) :=
  if decide (results = ∅) then
    match err with Some e => Err (errContext e) | None => Err (ErrInvalidSTUNConfig "no STUN responses received") end
  else Ok (sortAddrPorts (elements results)).

Section Discovery.
Context `{StunLib}.

Definition parseSTUNBindingResponse (packet : bytes) : option (Message * AddrPort) :=
  msg ← Decode packet;
  if negb (BindingSuccess msg) then None else
  match XORMappedAddress msg with
  | Some (ip, port) => addr ← netIPPortToAddrPort ip port; Some (msg, addr)
  | None =>
      match MappedAddress msg with
      | Some (ip, port) => addr ← netIPPortToAddrPort ip port; Some (msg, addr)
      | None => None
      end
  end.

(** An answer to an open transaction. *)
Definition answer (st : gmap bytes net_Addr * gset AddrPort) (msg : Message) (addr : AddrPort) : gmap bytes net_Addr * gset AddrPort :=
  match st.1 !! TransactionID msg with
  | None => st
  | Some _ => (delete (TransactionID msg) st.1, {[addr]} ∪ st.2)
  end.

(** A read of the socket: a packet, or an error with what the context says
    after it. *)
Inductive read := ReadPacket (p : bytes) | ReadFailed (ctxErr : option context_error) (timeout : bool).

(** [None]: still waiting. *)
Fixpoint discover_loop (reads : list read) (ctxErr : option context_error) (st : gmap bytes net_Addr * gset AddrPort)
    : option (result stun_error (list AddrPort)) :=
  if decide (st.1 = ∅) then Some (finishSTUNResults st.2 ctxErr) else
  match reads with
  | [] => None
  | ReadFailed e timeout :: _ =>
      if bool_decide (e ≠ None) || timeout then Some (finishSTUNResults st.2 e) else Some (Err errReadFrom)
  | ReadPacket p :: reads =>
      match parseSTUNBindingResponse p with
      | None => discover_loop reads ctxErr st
      | Some (msg, addr) => discover_loop reads ctxErr (answer st msg addr)
      end
  end.

Record STUNPacketEvent := mkSTUNEvent { e_Message : Message; e_Addr : AddrPort }.

(** What the select of [DiscoverWithDemux] takes. *)
Inductive selected := CtxDone (e : context_error) | STUNEvent (ev : STUNPacketEvent).

Fixpoint demux_loop (evs : list selected) (st : gmap bytes net_Addr * gset AddrPort)
    : option (result stun_error (list AddrPort)) :=
  if decide (st.1 = ∅) then Some (finishSTUNResults st.2 None) else
  match evs with
  | [] => None
  | CtxDone e :: _ => Some (finishSTUNResults st.2 (Some e))
  | STUNEvent ev :: evs => demux_loop evs (answer st (e_Message ev) (e_Addr ev))
  end.

Record STUNConfig := mkSTUNConfig { Servers : list string; s_Timeout : Z; s_Family : AddrFamily }.

(** The part both share: the transactions opened. *)
Definition openTransactions (config : STUNConfig) (local : net_Addr) (lookup : string → option (list IP)) (reqs : nat → request)
    : result stun_error (gmap bytes net_Addr) :=
  if len (Servers config) =? 0 then Err (ErrInvalidSTUNConfig "at least one STUN server is required") else
  let timeout := if s_Timeout config =? 0 then defaultSTUNTimeout else s_Timeout config in
  if timeout <? 0 then Err (ErrInvalidSTUNConfig "timeout must not be negative") else
  stunAddrs ← resolveSTUNServers lookup (Servers config) (effectiveFamily (s_Family config) local);
  sendSTUNRequests stunAddrs reqs.

Definition Discover (config : STUNConfig) (local : net_Addr) (lookup : string → option (list IP)) (reqs : nat → request)
    (reads : list read) (ctxErr : option context_error) : option (result stun_error (list AddrPort)) :=
  match openTransactions config local lookup reqs with
  | Err e => Some (Err e)
  | Ok transactions => discover_loop reads ctxErr (transactions, ∅)
  end.

Definition DiscoverWithDemux (config : STUNConfig) (local : net_Addr) (lookup : string → option (list IP)) (reqs : nat → request)
    (evs : list selected) : option (result stun_error (list AddrPort)) :=
  match openTransactions config local lookup reqs with
  | Err e => Some (Err e)
  | Ok transactions => demux_loop evs (transactions, ∅)
  end.

(** [PunchPacketConn.decodeSTUNPacket] (punch_conn.go). *)
Definition decodeSTUNPacket (packet : bytes) : option STUNPacketEvent :=
  if negb (IsMessage packet) then None else
  '(msg, addr) ← parseSTUNBindingResponse packet; Some (mkSTUNEvent msg addr).
End Discovery.

(** ** Both ways of receiving agree *)
Section Facts.
Context `{StunLib}.

Lemma decodeSTUNPacket_parse p : decodeSTUNPacket p = '(m, a) ← parseSTUNBindingResponse p; Some (mkSTUNEvent m a).
Proof.
  unfold decodeSTUNPacket. destruct (parseSTUNBindingResponse p) as [[m a]|] eqn:E; [|by destruct (IsMessage p)].
  assert (∃ m', Decode p = Some m') as [m' Em].
  { unfold parseSTUNBindingResponse in E. destruct (Decode p) as [m'|]; [by exists m'|done]. }
  by rewrite (Decode_IsMessage _ _ Em).
Qed.

Definition transactions_ok (st : gmap bytes net_Addr * gset AddrPort) : Prop := st.1 = ∅ → st.2 ≠ ∅.

Lemma answer_ok st m a : transactions_ok st → transactions_ok (answer st m a).
Proof.
  unfold answer, transactions_ok. intros Hst. destruct (st.1 !! TransactionID m); [|done]. intros _. cbn.
  set_solver.
Qed.

Lemma loops_agree ps e t c st : transactions_ok st →
  discover_loop ((ReadPacket <$> ps) ++ [ReadFailed (Some e) t]) c st =
  demux_loop ((STUNEvent <$> omap decodeSTUNPacket ps) ++ [CtxDone e]) st ∧
  is_Some (discover_loop ((ReadPacket <$> ps) ++ [ReadFailed (Some e) t]) c st).
Proof.
  revert st. induction ps as [|p ps IH]; intros st Hst.
  - cbn. destruct (decide (st.1 = ∅)) as [E|_]; [|by eauto]. specialize (Hst E). unfold finishSTUNResults.
    destruct (decide (st.2 = ∅)); [done|by eauto].
  - cbn [fmap list_fmap app discover_loop omap list_omap]. rewrite decodeSTUNPacket_parse.
    destruct (decide (st.1 = ∅)) as [E|Hne].
    { specialize (Hst E). assert (∀ evs, demux_loop evs st = Some (finishSTUNResults st.2 None)) as ->
        by (intros []; cbn [demux_loop]; by rewrite decide_True).
      unfold finishSTUNResults. destruct (decide (st.2 = ∅)); [done|by eauto]. }
    destruct (parseSTUNBindingResponse p) as [[m a]|]; cbn [mbind option_bind].
    + cbn [fmap list_fmap app demux_loop e_Message e_Addr]. rewrite decide_False by done. apply IH. by apply answer_ok.
    + by apply IH.
Qed.

(** What has been learned of the transactions [ts] from the packets [ps]. *)
Record learned (ts : gmap bytes net_Addr) (ps : list bytes) (st : gmap bytes net_Addr * gset AddrPort) : Prop := {
  ln_open : st.1 ⊆ ts;
  ln_results : ∀ a, a ∈ st.2 → ∃ p m, p ∈ ps ∧ parseSTUNBindingResponse p = Some (m, a) ∧ is_Some (ts !! TransactionID m);
  ln_size : (size st.2 + size st.1 <= size ts)%nat }.

Lemma answer_learned ts ps st p m a : parseSTUNBindingResponse p = Some (m, a) → p ∈ ps → learned ts ps st → learned ts ps (answer st m a).
Proof.
  intros Hp Hin [H1 H2 H3]. unfold answer. destruct (st.1 !! TransactionID m) as [x|] eqn:E; [|done].
  assert (ts !! TransactionID m = Some x) as Hts by (eapply lookup_weaken; [exact E|done]).
  split; cbn [fst snd].
  - etrans; [apply delete_subseteq|done].
  - intros b [->%elem_of_singleton|?]%elem_of_union; [|by apply H2]. exists p, m. split; [done|]. split; [done|]. by eexists.
  - assert (size ({[a]} ∪ st.2) <= S (size st.2))%nat.
    { rewrite size_union_alt, size_singleton. pose proof (subseteq_size (st.2 ∖ {[a]}) st.2 ltac:(set_solver)). lia. }
    rewrite map_size_delete, E. assert (size st.1 ≠ 0)%nat; [|lia].
    intros Hz%map_size_empty_inv. by rewrite Hz in E.
Qed.

Lemma loop_learned ts all ps e t c st : ps ⊆ all → learned ts all st →
  ∀ addrs, discover_loop ((ReadPacket <$> ps) ++ [ReadFailed (Some e) t]) c st = Some (Ok addrs) →
  ∃ st', learned ts all st' ∧ st'.2 ≠ ∅ ∧ addrs = sortAddrPorts (elements st'.2).
Proof.
  assert (∀ (st : gmap bytes net_Addr * gset AddrPort) e addrs, finishSTUNResults st.2 e = Ok addrs → st.2 ≠ ∅ ∧ addrs = sortAddrPorts (elements st.2)) as Hfin.
  { intros st' e' addrs. unfold finishSTUNResults. destruct (decide (st'.2 = ∅)); [by destruct e'|]. by intros [= <-]. }
  revert st. induction ps as [|p ps IH]; intros st Hall Hst addrs.
  - cbn. destruct (decide (st.1 = ∅)); [|cbn]; intros [= E]; exists st; (split; [done|by eapply Hfin]).
  - cbn [fmap list_fmap app discover_loop]. destruct (decide (st.1 = ∅)).
    { intros [= E]. exists st. split; [done|by eapply Hfin]. }
    destruct (parseSTUNBindingResponse p) as [[m a]|] eqn:E; apply IH; try done.
    + intros q Hq. apply Hall. by right.
    + eapply answer_learned; [done| |done]. apply Hall. by left.
    + intros q Hq. apply Hall. by right.
Qed.

Lemma send_loop_size addrs reqs i ts ts' : send_loop addrs reqs i ts = Ok ts' → (size ts' <= size ts + length addrs)%nat.
Proof.
  revert i ts. induction addrs as [|a addrs IH]; intros i ts; cbn; [intros [= <-]; lia|].
  destruct (rq_id (reqs i)) as [id|]; [|done]. intros Hs%IH. destruct (rq_written (reqs i)); [|lia].
  destruct (ts !! id) eqn:E.
  - rewrite map_size_insert_Some in Hs by by eexists. lia.
  - rewrite map_size_insert_None in Hs by done. lia.
Qed.

End Facts.

(** ** Example: a codec of eight bytes, one server, one answer *)
Definition toy_stun : StunLib := {|
  Message := bytes;
  IsMessage p := len p =? 8;
  Decode p := if len p =? 8 then Some p else None;
  BindingSuccess m := bool_decide (take 1 m = [Byte.x01]);
  TransactionID m := take 1 (drop 1 m);
  XORMappedAddress m := Some (take 4 (drop 2 m), be_Z (drop 6 m));
  MappedAddress _ := None;
  Decode_IsMessage p m := ltac:(cbn beta; destruct (len p =? 8); [done|intros; discriminate]) |}.
#[local] Existing Instance toy_stun.

Definition sample_stun_config : STUNConfig := mkSTUNConfig ["stun.example"] 0 AddrFamilyAny.
Definition sample_lookup (host : string) : option (list IP) := Some [be_bytes 4 0xc0000201].
Definition sample_request (i : nat) : request := mkRequest (Some [Byte.x07]) true.
Definition sample_answers : list bytes :=
  [[Byte.x01; Byte.x09] ++ be_bytes 4 0xcb007101 ++ be_bytes 2 1; [Byte.x01; Byte.x07] ++ be_bytes 4 0xcb007101 ++ be_bytes 2 40000].

