(* ===== verification/PunchEngine.v ===== *)
(** * The punch engine (extras/realm/punch_engine.go, family rules of stun.go)

    A punch attempt: which addresses it sends to, which sources it believes,
    the plan of a configuration, and the loop that paces the packets until an
    answer, an error or the deadline.  The loop is a turn on the clock and on
    what the transport received; random draws are arguments. *)
From S2P Require Import GoStd Prelude Netip IP Obfs Punch Nat.

Definition defaultPunchTimeout : Z := 10 * Second.
Definition defaultPunchInterval : Z := 100 * Millisecond.
Definition defaultSymmetricNATProbes : Z := 1024.
Definition defaultSymmetricNATProbeRate : Z := 100.
Definition defaultSymmetricNATProbeBudget : Z := 20 * Second.
Definition defaultSymmetricNATPunchTimeout : Z := defaultSymmetricNATProbeBudget.
Definition defaultSymmetricNATBothEndsTimeout : Z := 2 * Second.
Definition maxPunchPeerAddrs : Z := 16.
Definition maxSymmetricNATProbes : Z := 4096.

Inductive engine_error : Type :=
| ErrInvalidPunchConfig (why : string)
| ErrInvalidPunchAttempt (why : string)
| ErrPunchTimeout
| ErrPunchTimeoutBothEnds            (* wraps ErrPunchTimeout and ErrSymmetricNATBothEnds *)
| ErrContext (e : context_error)
| ErrPacket (e : punch_error)
| errRead                            (* of the socket *)
| errRandomID.

Abbreviation key_result := (result punch_error punchKey).
Definition of_packet {A} (r : result punch_error A) : result engine_error A :=
  match r with Ok a => Ok a | Err e => Err (ErrPacket e) end.

(** ** Sources *)
Inductive PunchSourcePolicy :=
| PunchSourceDefault | PunchSourceCandidates | PunchSourceCandidateHosts | PunchSourceAny
| PunchSourceOther (n : Z).

Definition resolvePunchSourcePolicy (policy fallback : PunchSourcePolicy) : result engine_error PunchSourcePolicy :=
  match policy with
  | PunchSourceDefault => Ok fallback
  | PunchSourceCandidates | PunchSourceCandidateHosts | PunchSourceAny => Ok policy
  | PunchSourceOther _ => Err (ErrInvalidPunchConfig "unknown source policy")
  end.

Record punchSourceFilter := mkFilter { policy : PunchSourcePolicy; f_addrs : gset AddrPort; f_hosts : gset Addr }.

Definition newPunchSourceFilter (candidates : list AddrPort) (policy : PunchSourcePolicy) : punchSourceFilter :=
  match policy with
  | PunchSourceCandidates => mkFilter policy (list_to_set candidates) ∅
  | PunchSourceCandidateHosts => mkFilter policy ∅ (list_to_set (ap_Addr <$> candidates))
  | _ => mkFilter policy ∅ ∅
  end.

Definition source_allows (f : punchSourceFilter) (addr : AddrPort) : bool :=
  match policy f with
  | PunchSourceCandidates => bool_decide (addr ∈ f_addrs f)
  | PunchSourceCandidateHosts => bool_decide (ap_Addr addr ∈ f_hosts f)
  | PunchSourceAny => true
  | _ => false
  end.

(** ** Families *)
Record punchFamilySet := mkFamilies { v4 : bool; v6 : bool }.

Definition punchFamilies (localAddrs : list AddrPort) (family : AddrFamily) : punchFamilySet :=
  match family with
  | AddrFamilyIPv4 => mkFamilies true false
  | AddrFamilyIPv6 => mkFamilies false true
  | AddrFamilyAny =>
      let families := foldl (λ fs a,
        if negb (AddrPort_IsValid a) then fs
        else if Is4 (ap_Addr a) then mkFamilies true (v6 fs)
        else if Is6 (ap_Addr a) then mkFamilies (v4 fs) true
        else fs) (mkFamilies false false) localAddrs in
      if negb (v4 families) && negb (v6 families) then mkFamilies true true else families
  end.

Definition families_allow (s : punchFamilySet) (addr : Addr) : bool :=
  if Is4 addr then v4 s else if Is6 addr then v6 s else false.

(** ** Candidates *)
Definition containsLoopback (addrs : list AddrPort) : bool :=
  existsb (λ a, AddrPort_IsValid a && IsLoopback (ap_Addr a)) addrs.

Definition punchableTarget (addr : AddrPort) (allowLoopback : bool) : bool :=
  if negb (AddrPort_IsValid addr) || (ap_Port addr =? 0) then false else
  let ip := ap_Addr addr in
  if IsUnspecified ip || IsMulticast ip then false else
  negb (IsLoopback ip) || allowLoopback.

Fixpoint candidates_loop (families : punchFamilySet) (allowLoopback : bool) (peerAddrs : list AddrPort)
    (seen : gset AddrPort) (candidates : list AddrPort) : list AddrPort :=
  match peerAddrs with
  | [] => candidates
  | addr :: peerAddrs =>
      if maxPunchPeerAddrs <=? len candidates then candidates else
      let addr := AddrPortFrom (Unmap (ap_Addr addr)) (ap_Port addr) in
      if negb (punchableTarget addr allowLoopback) then candidates_loop families allowLoopback peerAddrs seen candidates else
      if negb (families_allow families (ap_Addr addr)) then candidates_loop families allowLoopback peerAddrs seen candidates else
      if bool_decide (addr ∈ seen) then candidates_loop families allowLoopback peerAddrs seen candidates else
      candidates_loop families allowLoopback peerAddrs ({[addr]} ∪ seen) (candidates ++ [addr])
  end.

Definition candidatePunchAddrs (localAddrs peerAddrs : list AddrPort) (family : AddrFamily) : list AddrPort :=
  sortAddrPorts (candidates_loop (punchFamilies localAddrs family) (containsLoopback localAddrs) peerAddrs ∅ []).

(** ** Configuration and plan *)
Record SymmetricNATConfig := mkSymmetricNATConfig {
  Disable : bool; LocalNAT : NATClass; PeerNAT : NATClass;
  Probes : Z; ProbeRate : Z; ProbeBudget : Z; BothEndsTimeout : Z }.

Record PunchConfig := mkPunchConfig {
  Timeout : Z; Interval : Z; Family : AddrFamily; SourcePolicy : PunchSourcePolicy;
  SymmetricNAT : SymmetricNATConfig; PadToWireLen : Z }.

Record punchPlan := mkPlan {
  key : punchKey;
  sources : punchSourceFilter;
  padToWireLen : Z;
  targets : list AddrPort;
  interval : Z;
  plan_probes : list AddrPort;
  probeBurst : Z;
  probeGap : Z;
  probeBudget : Z;
  timeout : Z;
  bothEndsSymmetric : bool }.

Definition probePacing (rate : Z) : Z * Z :=
  if rate <=? 0 then (0, 0) else
  let burst := Z.max 1 (Z.quot rate 10) in
  (burst, Z.quot (i64 (Second * burst)) rate).

(** What the plan holds about probes. *)
Record probePlan := mkProbePlan { pp_probes : list AddrPort; pp_burst : Z; pp_gap : Z; pp_budget : Z }.

Definition no_probes : probePlan := mkProbePlan [] 0 0 0.

(** [None] only when the search for ports has no end. *)
Definition planProbes (sym : SymmetricNATConfig) (targets : list AddrPort) (draw : nat → Z)
    : option (result engine_error probePlan) :=
  let probes := if Probes sym =? 0 then defaultSymmetricNATProbes else Probes sym in
  if probes <? 0 then Some (Err (ErrInvalidPunchConfig "probes must not be negative")) else
  let probes := Z.min probes maxSymmetricNATProbes in
  let rate := if ProbeRate sym =? 0 then defaultSymmetricNATProbeRate else ProbeRate sym in
  if rate <? 0 then Some (Err (ErrInvalidPunchConfig "probe rate must not be negative")) else
  guesses ← symmetricNATProbes targets probes (bool_decide (PeerNAT sym = NATClassEndpointDependent)) draw;
  let '(burst, gap) := probePacing rate in
  let guesses := if burst =? 0 then [] else guesses in
  let budget := if ProbeBudget sym =? 0 then defaultSymmetricNATProbeBudget else ProbeBudget sym in
  if budget <? 0 then Some (Err (ErrInvalidPunchConfig "probe budget must not be negative"))
  else Some (Ok (mkProbePlan guesses burst gap budget)).

Definition planTimeout (config : PunchConfig) (probes : list AddrPort) (bothEnds : bool) : result engine_error Z :=
  let timeout := if Timeout config =? 0
                 then if 0 <? len probes then defaultSymmetricNATPunchTimeout else defaultPunchTimeout
                 else Timeout config in
  if timeout <? 0 then Err (ErrInvalidPunchConfig "timeout must not be negative") else
  if bothEnds then
    let limit := if BothEndsTimeout (SymmetricNAT config) =? 0 then defaultSymmetricNATBothEndsTimeout
                 else BothEndsTimeout (SymmetricNAT config) in
    if limit <? 0 then Err (ErrInvalidPunchConfig "both-ends timeout must not be negative")
    else Ok (Z.min timeout limit)
  else Ok timeout.

Definition natClass (configured : NATClass) (addrs : list AddrPort) : NATClass :=
  if decide (configured = NATClassUnknown) then ClassifyNAT addrs else configured.

Definition newPunchPlan (localAddrs peerAddrs : list AddrPort) (meta : PunchMetadata) (mask : PunchMask)
    (config : PunchConfig) (fallbackPolicy : PunchSourcePolicy) (local : net_Addr) (draw : nat → Z)
    : option (result engine_error punchPlan) :=
  match of_packet (newPunchKey meta mask) with Err e => Some (Err e) | Ok key =>
  match resolvePunchSourcePolicy (SourcePolicy config) fallbackPolicy with Err e => Some (Err e) | Ok policy =>
  let targets := candidatePunchAddrs localAddrs peerAddrs (effectiveFamily (Family config) local) in
  if len targets =? 0 then Some (Err (ErrInvalidPunchConfig "no compatible peer addresses")) else
  let interval := if Interval config =? 0 then defaultPunchInterval else Interval config in
  if interval <=? 0 then Some (Err (ErrInvalidPunchConfig "interval must be positive")) else
  let sym := SymmetricNAT config in
  let localNAT := natClass (LocalNAT sym) localAddrs in
  let peerNAT := natClass (PeerNAT sym) peerAddrs in
  let bothEnds := bool_decide (localNAT = NATClassEndpointDependent) && bool_decide (peerNAT = NATClassEndpointDependent) in
  probing ← if negb (Disable sym) && bool_decide (peerNAT = NATClassEndpointDependent) && negb bothEnds
            then planProbes sym targets draw else Some (Ok no_probes);
  match probing with Err e => Some (Err e) | Ok pp =>
  match planTimeout config (pp_probes pp) bothEnds with Err e => Some (Err e) | Ok timeout =>
  Some (Ok (mkPlan key (newPunchSourceFilter (targets ++ pp_probes pp) policy) (PadToWireLen config) targets interval
              (pp_probes pp) (pp_burst pp) (pp_gap pp) (pp_budget pp) timeout bothEnds))
  end end end end.

(** ** The loop *)
Record PunchPacketEvent := mkPunchEvent { AttemptID : string; From : AddrPort; Packet : PunchPacket }.
Record PunchResult := mkPunchResult { PeerAddr : AddrPort; r_Packet : PunchPacket }.

(** A packet handed to the transport. *)
Record sent := mkSent { s_to : AddrPort; s_type : PunchPacketType }.

Definition timeoutError (p : punchPlan) (err : context_error) : engine_error :=
  match err with
  | Canceled => ErrContext Canceled
  | DeadlineExceeded => if bothEndsSymmetric p then ErrPunchTimeoutBothEnds else ErrPunchTimeout
  end.

Record loop := mkLoop { nextTargets : Z; nextProbe : Z; probeDeadline : Z; punchDeadline : Z; probeIndex : Z }.

Definition startLoop (p : punchPlan) (now : Z) : loop :=
  mkLoop now now (now + probeBudget p) (now + timeout p) 0.

(** One turn up to the wait: the error that ends the attempt, or the packets
    sent, the new state and the time to wake at.  [ctxDeadline] is that of the
    context. *)
Definition turn (p : punchPlan) (ctxErr : option context_error) (ctxDeadline : option Z) (now : Z) (l : loop)
    : result engine_error (list sent * loop * Z) :=
  match ctxErr with Some err => Err (timeoutError p err) | None =>
  if punchDeadline l <=? now then Err (timeoutError p DeadlineExceeded) else
  let '(hellos, nextTargets) :=
    if nextTargets l <=? now then ((λ t, mkSent t PunchPacketHello) <$> targets p, now + interval p)
    else ([], nextTargets l) in
  let probing := (probeIndex l <? len (plan_probes p)) && (now <? probeDeadline l) in
  let '(guesses, index, probing, nextProbe) :=
    if probing && (nextProbe l <=? now) then
      let stop := Z.min (probeIndex l + probeBurst p) (len (plan_probes p)) in
      ((λ t, mkSent t PunchPacketHello) <$>
         take (Z.to_nat (stop - probeIndex l)) (drop (Z.to_nat (probeIndex l)) (plan_probes p)),
       stop, stop <? len (plan_probes p), now + probeGap p)
    else ([], probeIndex l, probing, nextProbe l) in
  let deadline := punchDeadline l in
  let deadline := if nextTargets <? deadline then nextTargets else deadline in
  let deadline := if probing && (nextProbe <? deadline) then nextProbe else deadline in
  let deadline := match ctxDeadline with Some d => if d <? deadline then d else deadline | None => deadline end in
  let deadline := if now <? deadline then deadline else now + Millisecond in
  Ok (hellos ++ guesses, mkLoop nextTargets nextProbe (probeDeadline l) (punchDeadline l) index, deadline)
  end.

(** What the wait gives: an error, nothing, or a packet. *)
Definition received_event (p : punchPlan) (ev : result engine_error (option PunchPacketEvent))
    : list sent * option (result engine_error PunchResult) :=
  match ev with
  | Err e => ([], Some (Err e))
  | Ok None => ([], None)
  | Ok (Some ev) =>
      if negb (source_allows (sources p) (From ev)) then ([], None) else
      (if bool_decide (Type_ (Packet ev) = PunchPacketHello) then [mkSent (From ev) PunchPacketAck] else [],
       Some (Ok (mkPunchResult (From ev) (Packet ev))))
  end.

(** What the environment supplies in a turn: the context's error, the clock,
    and what [recvUntil] returns. *)
Record turn_input := mkTurn {
  t_err : option context_error; t_ctx : option Z; t_now : Z; t_recv : result engine_error (option PunchPacketEvent) }.

(** The turns so far: what was sent, when, and the outcome if there is one. *)
Fixpoint runPunch_loop (p : punchPlan) (l : loop) (turns : list turn_input)
    : list (Z * sent) * option (result engine_error PunchResult) :=
  match turns with
  | [] => ([], None)
  | t :: turns =>
      match turn p (t_err t) (t_ctx t) (t_now t) l with
      | Err e => ([], Some (Err e))
      | Ok (out, l, _) =>
          let '(ack, res) := received_event p (t_recv t) in
          let log := (λ s, (t_now t, s)) <$> out ++ ack in
          match res with
          | Some res => (log, Some res)
          | None => let '(log', res) := runPunch_loop p l turns in (log ++ log', res)
          end
      end
  end.

Definition runPunch (p : punchPlan) (start : Z) (turns : list turn_input) : list (Z * sent) * option (result engine_error PunchResult) :=
  runPunch_loop p (startLoop p start) turns.

(** ** Candidates: what is sent to *)
Definition unmapped (a : AddrPort) : AddrPort := AddrPortFrom (Unmap (ap_Addr a)) (ap_Port a).

(** An announced address that may be punched at. *)
Definition acceptable (families : punchFamilySet) (allowLoopback : bool) (a : AddrPort) : bool :=
  punchableTarget a allowLoopback && families_allow families (ap_Addr a).

Lemma candidates_loop_spec families lo peers seen cands : (∀ a, a ∈ seen ↔ a ∈ cands) → NoDup cands →
  len cands <= maxPunchPeerAddrs →
  let r := candidates_loop families lo peers seen cands in
  NoDup r ∧ len r <= maxPunchPeerAddrs ∧ cands `prefix_of` r ∧
  (∀ a, a ∈ r → a ∈ cands ∨ a ∈ unmapped <$> peers ∧ acceptable families lo a = true) ∧
  (len r < maxPunchPeerAddrs → ∀ a, a ∈ unmapped <$> peers → acceptable families lo a = true → a ∈ r).
Proof.
  revert seen cands. induction peers as [|b peers IH]; intros seen cands Hs Hn Hl; cbn [candidates_loop].
  { split; [done|]. split; [done|]. split; [done|]. split; [by left|]. by intros _ a ?%elem_of_nil. }
  destruct (Z.leb_spec maxPunchPeerAddrs (len cands)).
  { split; [done|]. split; [done|]. split; [done|]. split; [by left|]. lia. }
  fold (unmapped b). rewrite fmap_cons.
  assert (∀ seen' cands', (∀ a, a ∈ seen' ↔ a ∈ cands') → NoDup cands' → len cands' <= maxPunchPeerAddrs →
    cands `prefix_of` cands' → (∀ a, a ∈ cands' → a ∈ cands ∨ a = unmapped b ∧ acceptable families lo a = true) →
    (acceptable families lo (unmapped b) = true → unmapped b ∈ cands') →
    let r := candidates_loop families lo peers seen' cands' in
    NoDup r ∧ len r <= maxPunchPeerAddrs ∧ cands `prefix_of` r ∧
    (∀ a, a ∈ r → a ∈ cands ∨ a ∈ unmapped b :: (unmapped <$> peers) ∧ acceptable families lo a = true) ∧
    (len r < maxPunchPeerAddrs → ∀ a, a ∈ unmapped b :: (unmapped <$> peers) → acceptable families lo a = true → a ∈ r)) as Hnext.
  { intros seen' cands' Hs' Hn' Hl' Hp' Hnew Hb. destruct (IH seen' cands' Hs' Hn' Hl') as (R1 & R2 & R3 & R4 & R5).
    cbn zeta. split; [done|]. split; [done|]. split; [by etrans|]. split.
    - intros a [Ha|[Ha Hok]]%R4.
      + destruct (Hnew a Ha) as [?|[-> ?]]; [by left|right]. split; [left|done].
      + right. split; [by right|done].
    - intros Hlt a [->|Ha]%elem_of_cons Hok; [|by apply R5]. eapply elem_of_prefix; [|exact R3]. by apply Hb. }
  unfold acceptable in Hnext at 2.
  destruct (punchableTarget (unmapped b) lo) eqn:E1; cbn [negb andb] in *; [|apply Hnext; auto; done].
  destruct (families_allow families (ap_Addr (unmapped b))) eqn:E2; cbn [negb] in *; [|apply Hnext; auto; done].
  case_bool_decide as E3; [apply Hnext; auto; intros _; by apply Hs|].
  apply Hnext.
  - intros a. rewrite elem_of_union, elem_of_singleton, elem_of_app, list_elem_of_singleton, Hs. tauto.
  - apply NoDup_app. split; [done|]. split; [|apply NoDup_singleton]. intros a Ha ->%list_elem_of_singleton. by apply E3, Hs.
  - rewrite len_app. unfold len at 2. cbn. lia.
  - by apply prefix_app_r.
  - intros a [?| ->%list_elem_of_singleton]%elem_of_app; [by left|right]. split; [done|]. unfold acceptable. by rewrite E1, E2.
  - intros _. apply elem_of_app. right. by left.
Qed.

Lemma candidatePunchAddrs_spec localAddrs peerAddrs family :
  let r := candidatePunchAddrs localAddrs peerAddrs family in
  let ok := acceptable (punchFamilies localAddrs family) (containsLoopback localAddrs) in
  NoDup r ∧ len r <= maxPunchPeerAddrs ∧
  (∀ a, a ∈ r → a ∈ unmapped <$> peerAddrs ∧ ok a = true) ∧
  (len r < maxPunchPeerAddrs → ∀ a, a ∈ unmapped <$> peerAddrs → ok a = true → a ∈ r).
Proof.
  unfold candidatePunchAddrs, sortAddrPorts. set (before := λ a b : AddrPort, String.ltb (AddrPort_String a) (AddrPort_String b)).
  destruct (candidates_loop_spec (punchFamilies localAddrs family) (containsLoopback localAddrs) peerAddrs ∅ [])
    as (R1 & R2 & _ & R4 & R5); [set_solver|constructor|unfold len, maxPunchPeerAddrs; cbn; lia|].
  set (c := candidates_loop _ _ _ _ _) in *. pose proof (sort_stable_perm before c) as Hp. cbn zeta.
  assert (len (sort_stable before c) = len c) as El by (unfold len; by rewrite Hp). rewrite El.
  split; [by rewrite Hp|]. split; [done|]. split.
  - intros a. rewrite Hp. by intros [Ha%elem_of_nil|Ha]%R4.
  - intros Hl a Ha Hok. rewrite Hp. by apply R5.
Qed.

(** ** The plan *)
Lemma planProbes_spec sym targets draw : (∀ a, a ∈ targets → Is4In6 (ap_Addr a) = false) →
  ∃ r, planProbes sym targets draw = Some r ∧
  match r with
  | Err e => Probes sym < 0 ∨ ProbeRate sym < 0 ∨ ProbeBudget sym < 0
  | Ok pp =>
      NoDup (pp_probes pp) ∧ len (pp_probes pp) <= maxSymmetricNATProbes ∧ 1 <= pp_burst pp ∧ 0 <= pp_budget pp ∧
      (Probes sym ≠ 0 → len (pp_probes pp) <= Probes sym) ∧
      (pp_burst pp, pp_gap pp) = probePacing (if ProbeRate sym =? 0 then defaultSymmetricNATProbeRate else ProbeRate sym) ∧
      ∀ a, a ∈ pp_probes pp → symmetricNATMinProbePort <= ap_Port a <= 65535 ∧ (a ∉ targets) ∧ Is4 (ap_Addr a) = true ∧
        ap_Addr a ∈ ap_Addr <$> targets
  end.
Proof.
  intros Hun. unfold planProbes. set (n := if Probes sym =? 0 then _ else _).
  set (rate := if ProbeRate sym =? 0 then _ else _). set (budget := if ProbeBudget sym =? 0 then _ else _).
  destruct (Z.ltb_spec n 0) as [Hn|Hn].
  { eexists. split; [done|]. left. subst n. unfold defaultSymmetricNATProbes in Hn. destruct (Z.eqb_spec (Probes sym) 0); lia. }
  destruct (Z.ltb_spec rate 0) as [Hr|Hr].
  { eexists. split; [done|]. right; left. subst rate. unfold defaultSymmetricNATProbeRate in Hr.
    destruct (Z.eqb_spec (ProbeRate sym) 0); lia. }
  assert (0 < rate) as Hrate.
  { subst rate. unfold defaultSymmetricNATProbeRate in *. destruct (Z.eqb_spec (ProbeRate sym) 0); lia. }
  destruct (symmetricNATProbes_spec targets (Z.min n maxSymmetricNATProbes)
              (bool_decide (PeerNAT sym = NATClassEndpointDependent)) draw Hun) as (ps & -> & Hl & Hnd & Hp & _).
  cbn [mbind option_bind]. unfold probePacing. destruct (Z.leb_spec rate 0); [lia|]. set (burst := Z.max 1 _).
  destruct (Z.eqb_spec burst 0); [lia|]. destruct (Z.ltb_spec budget 0) as [Hb|Hb].
  { eexists. split; [done|]. right; right. subst budget. unfold defaultSymmetricNATProbeBudget, Second in Hb.
    destruct (Z.eqb_spec (ProbeBudget sym) 0); lia. }
  eexists. split; [done|]. cbn [pp_probes pp_burst pp_gap pp_budget].
  split; [done|]. split; [unfold maxSymmetricNATProbes in *; lia|]. split; [lia|]. split; [done|].
  split; [intros H0; subst n; destruct (Z.eqb_spec (Probes sym) 0); lia|]. split; [done|].
  intros a Ha. destruct (Hp a Ha) as (H1 & H2 & H3 & q & q' & (b & Hb1 & _ & Hb2 & _) & _).
  split; [done|]. split; [done|]. split; [done|]. apply list_elem_of_fmap. by exists b.
Qed.

(** What a plan promises. *)
Record plan_ok (localAddrs peerAddrs : list AddrPort) (config : PunchConfig) (family : AddrFamily) (p : punchPlan) : Prop := {
  po_targets : NoDup (targets p) ∧ 0 < len (targets p) <= maxPunchPeerAddrs;
  po_candidates : ∀ a, a ∈ targets p →
    a ∈ unmapped <$> peerAddrs ∧ acceptable (punchFamilies localAddrs family) (containsLoopback localAddrs) a = true;
  po_complete : len (targets p) < maxPunchPeerAddrs → ∀ a, a ∈ unmapped <$> peerAddrs →
    acceptable (punchFamilies localAddrs family) (containsLoopback localAddrs) a = true → a ∈ targets p;
  po_interval : 0 < interval p;
  po_probes : NoDup (plan_probes p) ∧ len (plan_probes p) <= maxSymmetricNATProbes;
  po_guesses : ∀ a, a ∈ plan_probes p → symmetricNATMinProbePort <= ap_Port a <= 65535 ∧ (a ∉ targets p) ∧
    Is4 (ap_Addr a) = true ∧ ap_Addr a ∈ ap_Addr <$> targets p;
  po_pacing : plan_probes p ≠ [] → 1 <= probeBurst p ∧
    (probeBurst p, probeGap p) = probePacing (if ProbeRate (SymmetricNAT config) =? 0 then defaultSymmetricNATProbeRate
                                               else ProbeRate (SymmetricNAT config));
  po_unneeded : bothEndsSymmetric p = true ∨ Disable (SymmetricNAT config) = true → plan_probes p = [];
  po_budget : 0 <= probeBudget p;
  po_timeout : 0 <= timeout p ∧ (0 < Timeout config → timeout p <= Timeout config);
  po_both_ends : bothEndsSymmetric p = true → BothEndsTimeout (SymmetricNAT config) = 0 →
    timeout p <= defaultSymmetricNATBothEndsTimeout;
  po_sources : ∃ policy, sources p = newPunchSourceFilter (targets p ++ plan_probes p) policy }.

Lemma planTimeout_ok config probes both t : planTimeout config probes both = Ok t →
  0 <= t ∧ (0 < Timeout config → t <= Timeout config) ∧
  (both = true → BothEndsTimeout (SymmetricNAT config) = 0 → t <= defaultSymmetricNATBothEndsTimeout).
Proof.
  unfold planTimeout. set (d := if Timeout config =? 0 then _ else _). set (l := if BothEndsTimeout _ =? 0 then _ else _).
  assert (0 < Timeout config → d = Timeout config) as Hd by (intros ?; subst d; destruct (Z.eqb_spec (Timeout config) 0); lia).
  assert (BothEndsTimeout (SymmetricNAT config) = 0 → l = defaultSymmetricNATBothEndsTimeout) as Hl
    by (intros ?; subst l; destruct (Z.eqb_spec (BothEndsTimeout (SymmetricNAT config)) 0); [done|lia]).
  destruct (Z.ltb_spec d 0); [done|]. destruct both; [destruct (Z.ltb_spec l 0); [done|]|]; intros [= <-]; split_and!; try lia; done.
Qed.

Lemma newPunchPlan_spec localAddrs peerAddrs meta m config fallback local draw :
  ∃ r, newPunchPlan localAddrs peerAddrs meta m config fallback local draw = Some r ∧
  match r with
  | Err _ => True
  | Ok p => plan_ok localAddrs peerAddrs config (effectiveFamily (Family config) local) p ∧
      newPunchKey meta m = Ok (key p) ∧
      ∃ policy, resolvePunchSourcePolicy (SourcePolicy config) fallback = Ok policy ∧
        sources p = newPunchSourceFilter (targets p ++ plan_probes p) policy
  end.
Proof.
  unfold newPunchPlan. destruct (newPunchKey meta m) as [|k]; cbn [of_packet]; [eexists; split; [reflexivity|exact I]|].
  destruct (resolvePunchSourcePolicy _ _) as [|pol]; [eexists; split; [reflexivity|exact I]|].
  destruct (candidatePunchAddrs_spec localAddrs peerAddrs (effectiveFamily (Family config) local)) as (T1 & T2 & T3 & T4).
  set (ts := candidatePunchAddrs _ _ _) in *. pose proof (len_nonneg ts).
  destruct (Z.eqb_spec (len ts) 0); [by eexists|].
  set (iv := if Interval config =? 0 then _ else _). destruct (Z.leb_spec iv 0); [by eexists|].
  set (both := bool_decide _ && bool_decide _).
  assert (∀ a, a ∈ ts → Is4In6 (ap_Addr a) = false) as Hun.
  { intros a [(b & -> & _)%list_elem_of_fmap _]%T3. apply Is4In6_Unmap. }
  destruct (negb (Disable (SymmetricNAT config)) && _ && negb both) eqn:E.
  - destruct (planProbes_spec (SymmetricNAT config) ts draw Hun) as ([|pp] & -> & Hpp); [eexists; split; [reflexivity|exact I]|].
    cbn [mbind option_bind]. destruct (planTimeout config (pp_probes pp) both) as [|t] eqn:Et; [eexists; split; [reflexivity|exact I]|].
    destruct (planTimeout_ok _ _ _ _ Et) as (Ht1 & Ht2 & Ht3). eexists. split; [done|]. cbn beta iota.
    destruct Hpp as (P1 & P2 & P3 & P4 & _ & P6 & P7). apply andb_true_iff in E as [[E1 _]%andb_true_iff E2].
    split; [|by eauto]. split; cbn [targets plan_probes interval probeBurst probeGap probeBudget timeout bothEndsSymmetric sources];
      try done; try lia; eauto.
    + split; [done|lia].
    + intros [Hb|Hb]; [by rewrite Hb in E2|by rewrite Hb in E1].
  - cbn [mbind option_bind]. destruct (planTimeout config (pp_probes no_probes) both) as [|t] eqn:Et; [eexists; split; [reflexivity|exact I]|].
    destruct (planTimeout_ok _ _ _ _ Et) as (Ht1 & Ht2 & Ht3). eexists. split; [done|]. cbn beta iota.
    split; [|by eauto]. split; cbn [targets plan_probes interval probeBurst probeGap probeBudget timeout bothEndsSymmetric sources
      no_probes pp_probes pp_burst pp_gap pp_budget]; try done; try lia; eauto.
    + split; [done|lia].
    + split; [constructor|]. unfold len, maxSymmetricNATProbes. cbn. lia.
    + by intros a ?%elem_of_nil.
Qed.

(** ** The loop's packets *)
Definition is_guess (p : punchPlan) (e : Z * sent) : bool :=
  bool_decide (s_type e.2 = PunchPacketHello) && bool_decide (s_to e.2 ∈ plan_probes p).

(** The guesses of a log, in order. *)
Definition guesses_of (p : punchPlan) (log : list (Z * sent)) : list AddrPort := (λ e, s_to e.2) <$> filter (is_guess p) log.

(** The greetings of announced candidates. *)
Definition greetings_of (p : punchPlan) (log : list (Z * sent)) : list (Z * sent) :=
  filter (λ e, bool_decide (s_type e.2 = PunchPacketHello) && bool_decide (s_to e.2 ∈ targets p)) log.

Section Loop.
Context (p : punchPlan) (start last : Z).
Context (Hdisj : ∀ a, a ∈ plan_probes p → a ∉ targets p).
Context (Hburst : plan_probes p ≠ [] → 1 <= probeBurst p) (Hint : 0 < interval p).

(** What a log may hold, given the outcome. *)
Definition sent_ok (res : option (result engine_error PunchResult)) (e : Z * sent) : Prop :=
  e.1 < start + timeout p ∧
  ((s_type e.2 = PunchPacketHello ∧ (s_to e.2 ∈ targets p ∨ s_to e.2 ∈ plan_probes p ∧ e.1 < start + probeBudget p)) ∨
   (s_type e.2 = PunchPacketAck ∧ source_allows (sources p) (s_to e.2) = true ∧
    ∃ r, res = Some (Ok r) ∧ PeerAddr r = s_to e.2)).

(** The loop after [n] rounds of greetings and [m] bursts of guesses. *)
Record loop_ok (l : loop) (n m : Z) : Prop := {
  lo_n : 0 <= n; lo_m : 0 <= m;
  lo_deadlines : probeDeadline l = start + probeBudget p ∧ punchDeadline l = start + timeout p;
  lo_targets : start + n * interval p <= nextTargets l;
  lo_probe : start + m * probeGap p <= nextProbe l;
  lo_index : 0 <= probeIndex l <= len (plan_probes p) ∧ probeIndex l <= m * probeBurst p }.

Lemma turn_wakes e c now l out l' d : turn p e c now l = Ok (out, l', d) →
  now < d <= Z.max (punchDeadline l) (now + Millisecond) ∧ now < punchDeadline l.
Proof.
  unfold turn. destruct e; [done|]. destruct (Z.leb_spec (punchDeadline l) now); [done|].
  destruct (if nextTargets l <=? now then _ else _) as [hs nt].
  destruct (if (_ && _) && _ then _ else _) as [[[gs ix] pr] np].
  set (d1 := if nt <? punchDeadline l then nt else punchDeadline l).
  set (d2 := if pr && (np <? d1) then np else d1).
  set (d3 := match c with Some d => if d <? d2 then d else d2 | None => d2 end).
  assert (d1 <= punchDeadline l) by (subst d1; destruct (Z.ltb_spec nt (punchDeadline l)); lia).
  assert (d2 <= d1) by (subst d2; destruct pr; cbn; [destruct (Z.ltb_spec np d1); lia|lia]).
  assert (d3 <= d2) by (subst d3; destruct c as [x|]; [destruct (Z.ltb_spec x d2); lia|lia]).
  intros [= <- <- <-]. unfold Millisecond. destruct (Z.ltb_spec now d3); lia.
Qed.

(** Packets of one kind to a list of addresses, at one time. *)
Definition log_at (now : Z) (t : PunchPacketType) (l : list AddrPort) : list (Z * sent) := (λ a, (now, mkSent a t)) <$> l.

Lemma guesses_of_app l k : guesses_of p (l ++ k) = guesses_of p l ++ guesses_of p k.
Proof. unfold guesses_of. by rewrite filter_app, fmap_app. Qed.
Lemma greetings_of_app l k : greetings_of p (l ++ k) = greetings_of p l ++ greetings_of p k.
Proof. apply filter_app. Qed.

Lemma guesses_of_guesses now l : (∀ a, a ∈ l → a ∈ plan_probes p) → guesses_of p (log_at now PunchPacketHello l) = l.
Proof.
  unfold guesses_of. induction l as [|a l IH]; intros Hl; [done|]. cbn [log_at fmap list_fmap].
  rewrite filter_cons_True; [|unfold is_guess; cbn; rewrite !bool_decide_eq_true_2; [done|by apply Hl; left|done]].
  cbn [fmap list_fmap s_to snd]. f_equal. apply IH. intros. apply Hl. by right.
Qed.

Lemma guesses_of_others now t l : t = PunchPacketAck ∨ (∀ a, a ∈ l → a ∉ plan_probes p) → guesses_of p (log_at now t l) = [].
Proof.
  unfold guesses_of. induction l as [|a l IH]; intros Hl; [done|]. cbn [log_at fmap list_fmap].
  rewrite filter_cons_False.
  - apply IH. destruct Hl as [?|Hl]; [by left|right]. intros. apply Hl. by right.
  - unfold is_guess. cbn. destruct Hl as [->|Hl]; [rewrite bool_decide_eq_false_2 by done; cbn; tauto|]. rewrite (bool_decide_eq_false_2 (a ∈ _)) by (apply Hl; by left).
    destruct (bool_decide _); cbn; tauto.
Qed.

Lemma greetings_of_all now : greetings_of p (log_at now PunchPacketHello (targets p)) = log_at now PunchPacketHello (targets p).
Proof.
  unfold greetings_of. assert (∀ l, (∀ a, a ∈ l → a ∈ targets p) →
    filter (λ e, bool_decide (s_type e.2 = PunchPacketHello) && bool_decide (s_to e.2 ∈ targets p)) (log_at now PunchPacketHello l)
    = log_at now PunchPacketHello l) as Hl; [|by apply Hl].
  induction l as [|a l IH]; intros Hl; [done|]. cbn [log_at fmap list_fmap].
  rewrite filter_cons_True; [|cbn; rewrite !bool_decide_eq_true_2; [done|by apply Hl; left|done]].
  f_equal. apply IH. intros. apply Hl. by right.
Qed.

Lemma greetings_of_others now t l : t = PunchPacketAck ∨ (∀ a, a ∈ l → a ∉ targets p) → greetings_of p (log_at now t l) = [].
Proof.
  unfold greetings_of. induction l as [|a l IH]; intros Hl; [done|]. cbn [log_at fmap list_fmap].
  rewrite filter_cons_False.
  - apply IH. destruct Hl as [?|Hl]; [by left|right]. intros. apply Hl. by right.
  - cbn. destruct Hl as [->|Hl]; [rewrite bool_decide_eq_false_2 by done; cbn; tauto|]. rewrite (bool_decide_eq_false_2 (a ∈ _)) by (apply Hl; by left).
    destruct (bool_decide _); cbn; tauto.
Qed.

(** One turn: at most a round of greetings and a burst of guesses. *)
Lemma turn_spec e c now l out l' d n m : loop_ok l n m → turn p e c now l = Ok (out, l', d) →
  ∃ hs gs dn dm, (λ s, (now, s)) <$> out = log_at now PunchPacketHello hs ++ log_at now PunchPacketHello gs ∧
    loop_ok l' (n + dn) (m + dm) ∧ e = None ∧ now < start + timeout p ∧
    (hs = [] ∧ dn = 0 ∨ hs = targets p ∧ dn = 1 ∧ start + n * interval p <= now) ∧
    gs = take (length gs) (drop (Z.to_nat (probeIndex l)) (plan_probes p)) ∧
    probeIndex l' = probeIndex l + len gs ∧
    (gs = [] ∧ dm = 0 ∨ dm = 1 ∧ now < start + probeBudget p ∧ start + m * probeGap p <= now).
Proof.
  intros [Hn Hm [Hd1 Hd2] Ht Hp [Hi1 Hi2]]. unfold turn. destruct e; [done|].
  destruct (Z.leb_spec (punchDeadline l) now) as [|Hnow]; [done|].
  destruct (if nextTargets l <=? now then _ else _) as [hs nt] eqn:Eh.
  destruct (if (_ && _) && _ then _ else _) as [[[gs ix] pr] np] eqn:Eg. intros [= <- <- _].
  assert (∃ hl dn, hs = (λ t, mkSent t PunchPacketHello) <$> hl ∧ (hl = [] ∧ dn = 0 ∨ hl = targets p ∧ dn = 1 ∧ start + n * interval p <= now) ∧
    0 <= dn ∧ start + (n + dn) * interval p <= nt) as (hl & dn & -> & Hhl & Hdn & Hnt).
  { destruct (Z.leb_spec (nextTargets l) now); injection Eh as <- <-; [exists (targets p), 1|exists [], 0].
    - split; [done|]. split; [right|]; [split; [done|]; split; [done|lia]|lia].
    - split; [done|]. split; [by left|lia]. }
  assert (∃ gl dm, gs = (λ t, mkSent t PunchPacketHello) <$> gl ∧ gl = take (length gl) (drop (Z.to_nat (probeIndex l)) (plan_probes p)) ∧
    ix = probeIndex l + len gl ∧ (gl = [] ∧ dm = 0 ∨ dm = 1 ∧ now < start + probeBudget p ∧ start + m * probeGap p <= now) ∧
    0 <= dm ∧ start + (m + dm) * probeGap p <= np ∧ 0 <= ix <= len (plan_probes p) ∧ ix <= (m + dm) * probeBurst p)
    as (gl & dm & -> & Hgl & -> & Hdm & Hdm0 & Hnp & Hix & Hixm).
  { destruct (_ && _) eqn:E in Eg; injection Eg as <- <- _ <-.
    - apply andb_true_iff in E as [[E1%Z.ltb_lt E2%Z.ltb_lt]%andb_true_iff E3%Z.leb_le].
      assert (plan_probes p ≠ []) as Hne by (intros E; rewrite E in E1; unfold len in E1; cbn in E1; lia). specialize (Hburst Hne).
      set (stop := Z.min _ _). set (gl := take _ _). exists gl, 1.
      assert (len gl = stop - probeIndex l) as Hlen.
      { subst gl. unfold len. rewrite length_take, length_drop. unfold len in *. lia. }
      split; [done|]. split.
      { subst gl. rewrite length_take, length_drop. f_equal. unfold len in *. lia. }
      split; [lia|]. split; [right; lia|]. split; [lia|]. split; [lia|]. split; [lia|]. nia.
    - exists [], 0. split; [done|]. split; [done|]. unfold len at 1. cbn [length]. split; [lia|]. split; [by left|]. lia. }
  exists hl, gl, dn, dm. split; [unfold log_at; by rewrite fmap_app, <-!list_fmap_compose|].
  split; [split; cbn [probeDeadline punchDeadline nextTargets nextProbe probeIndex]; done || lia|].
  split; [done|]. split; [lia|]. split; [done|]. split; [done|]. split; done.
Qed.

(** How the attempt stands after the turns. *)
Definition outcome_ok (turns : list turn_input) (res : option (result engine_error PunchResult)) : Prop :=
  match res with
  | None => ∀ t, t ∈ turns → t_err t = None ∧ t_now t < start + timeout p
  | Some (Err e) => ∃ t, t ∈ turns ∧
      ((∃ err, t_err t = Some err ∧ e = timeoutError p err) ∨
       (start + timeout p <= t_now t ∧ e = timeoutError p DeadlineExceeded) ∨ t_recv t = Err e)
  | Some (Ok r) => source_allows (sources p) (PeerAddr r) = true ∧
      ∃ t ev, t ∈ turns ∧ t_recv t = Ok (Some ev) ∧ r = mkPunchResult (From ev) (Packet ev) ∧ t_now t < start + timeout p
  end.

Lemma received_event_spec ev : ∃ acks,
  (received_event p ev).1 = (λ a, mkSent a PunchPacketAck) <$> acks ∧
  match (received_event p ev).2 with
  | None => acks = [] ∧ (ev = Ok None ∨ ∃ e, ev = Ok (Some e) ∧ source_allows (sources p) (From e) = false)
  | Some (Err e) => acks = [] ∧ ev = Err e
  | Some (Ok r) => ∃ e, ev = Ok (Some e) ∧ r = mkPunchResult (From e) (Packet e) ∧ source_allows (sources p) (From e) = true ∧
      ∀ a, a ∈ acks → a = From e
  end.
Proof.
  destruct ev as [e|[e|]]; cbn [received_event].
  - by exists [].
  - destruct (source_allows _ _) eqn:E; cbn [negb].
    + case_bool_decide; [exists [From e]|exists []]; (split; [done|]); exists e; (do 3 (split; [done|])).
      * by intros a ->%list_elem_of_singleton.
      * by intros a ?%elem_of_nil.
    + exists []. split; [done|]. split; [done|]. right. by exists e.
  - exists []. split; [done|]. split; [done|]. by left.
Qed.

Lemma mul_div_bound a b c d : 0 < d → 0 <= b → c + a * d <= b → 0 <= a → a <= (b - c) / d.
Proof. intros. apply Z.div_le_lower_bound; lia. Qed.

(** The log from a state on. *)
Record log_ok (l : loop) (n : Z) (turns : list turn_input) (log : list (Z * sent))
    (res : option (result engine_error PunchResult)) : Prop := {
  lk_sent : ∀ e, e ∈ log → sent_ok res e;
  lk_guesses : guesses_of p log `prefix_of` drop (Z.to_nat (probeIndex l)) (plan_probes p);
  lk_rate : guesses_of p log ≠ [] → 0 < probeGap p →
    probeIndex l + len (guesses_of p log) <= probeBurst p * (1 + (last - start) / probeGap p);
  lk_greetings : greetings_of p log ≠ [] →
    n * len (targets p) + len (greetings_of p log) <= len (targets p) * (1 + (last - start) / interval p);
  lk_outcome : outcome_ok turns res }.

Lemma outcome_later t turns res : t_err t = None → t_now t < start + timeout p → outcome_ok turns res → outcome_ok (t :: turns) res.
Proof.
  intros He Ht. destruct res as [[e|r]|]; cbn.
  - intros (t' & ? & ?). exists t'. split; [by right|done].
  - intros (? & t' & ev & ? & ?). split; [done|]. exists t', ev. split; [by right|done].
  - intros Hall t' [->|?]%elem_of_cons; [done|by apply Hall].
Qed.

Lemma prefix_take_drop {A} (gs k l : list A) i : gs = take (length gs) (drop i l) → k `prefix_of` drop (i + length gs) l →
  gs ++ k `prefix_of` drop i l.
Proof.
  intros Hg [r Hk]. exists r. rewrite <-app_assoc, <-Hk. rewrite Hg at 1. rewrite <-drop_drop. symmetry. apply take_drop.
Qed.

Lemma turn_log now hs gs l d n m dn dm : loop_ok l n m → now <= last → now < start + timeout p →
  (hs = [] ∧ dn = 0 ∨ hs = targets p ∧ dn = 1 ∧ start + n * interval p <= now) →
  gs = take (length gs) (drop (Z.to_nat (probeIndex l)) (plan_probes p)) →
  probeIndex d = probeIndex l + len gs →
  (gs = [] ∧ dm = 0 ∨ dm = 1 ∧ now < start + probeBudget p ∧ start + m * probeGap p <= now) →
  probeIndex d <= (m + dm) * probeBurst p →
  let log := log_at now PunchPacketHello hs ++ log_at now PunchPacketHello gs in
  (∀ res e, e ∈ log → sent_ok res e) ∧ guesses_of p log = gs ∧ greetings_of p log = log_at now PunchPacketHello hs ∧
  (gs ≠ [] → 0 < probeGap p → probeIndex d <= probeBurst p * (1 + (last - start) / probeGap p)) ∧
  (hs ≠ [] → n * len (targets p) + len hs <= len (targets p) * (1 + (last - start) / interval p)).
Proof.
  intros [Hn Hm _ _ _ _] Hlast Hnow Hhs Hgs Hix Hdm Hixm. cbn zeta.
  assert (∀ a, a ∈ gs → a ∈ plan_probes p) as Hin.
  { intros a Ha. rewrite Hgs in Ha. by apply elem_of_take, list_elem_of_drop in Ha || (eapply subseteq_drop, subseteq_take; exact Ha). }
  assert (∀ a, a ∈ hs → a ∈ targets p) as Hht by (destruct Hhs as [[-> _]|[-> _]]; [by intros a ?%elem_of_nil|done]).
  split; [|split; [|split; [|split]]].
  - intros res e [(a & -> & Ha)%list_elem_of_fmap|(a & -> & Ha)%list_elem_of_fmap]%elem_of_app; (split; [done|left; split; [done|]]); cbn.
    + left. by apply Hht.
    + right. split; [by apply Hin|]. destruct Hdm as [[-> _]|(_ & ? & _)]; [by apply elem_of_nil in Ha|done].
  - rewrite guesses_of_app, (guesses_of_guesses now gs Hin), guesses_of_others; [done|]. right. intros a Ha Hp. by apply (Hdisj a Hp), Hht.
  - rewrite greetings_of_app, (greetings_of_others now _ gs) by (right; intros a Ha; by apply Hdisj, Hin). rewrite app_nil_r.
    destruct Hhs as [[-> _]|[-> _]]; [done|apply greetings_of_all].
  - intros Hne Hg. destruct Hdm as [[-> _]|(-> & _ & Hp)]; [done|].
    assert (m <= (last - start) / probeGap p) by (apply Z.div_le_lower_bound; lia).
    assert (plan_probes p ≠ []) as Hp0 by (intros E; rewrite E, drop_nil, take_nil in Hgs; done). specialize (Hburst Hp0). nia.
  - intros Hne. destruct Hhs as [[-> _]|(-> & _ & Ht)]; [done|].
    assert (n <= (last - start) / interval p) by (apply Z.div_le_lower_bound; lia). pose proof (len_nonneg (targets p)). nia.
Qed.

Lemma log_at_length now t l : len (log_at now t l) = len l.
Proof. unfold log_at, len. by rewrite length_fmap. Qed.

Lemma loop_spec turns l n m : loop_ok l n m → (∀ t, t ∈ turns → t_now t <= last) →
  log_ok l n turns (runPunch_loop p l turns).1 (runPunch_loop p l turns).2.
Proof.
  revert l n m. induction turns as [|t turns IH]; intros l n m Hl Hlast; cbn [runPunch_loop].
  { split; cbn; [by intros ? ?%elem_of_nil|by apply prefix_nil|done|done|by intros ? ?%elem_of_nil]. }
  assert (t_now t <= last) as Hnow by (apply Hlast; left).
  destruct (turn p _ _ _ l) as [e|[[out l'] d]] eqn:E.
  { split; cbn [fst snd]; [by intros ? ?%elem_of_nil|by apply prefix_nil|done|done|].
    exists t. split; [left|]. revert E. unfold turn. destruct (t_err t) as [err|].
    - intros [= <-]. left. by exists err.
    - destruct (Z.leb_spec (punchDeadline l) (t_now t)) as [Hd|]; [|by repeat case_match].
      intros [= <-]. right; left. by rewrite (proj2 (lo_deadlines _ _ _ Hl)) in Hd. }
  destruct (turn_spec _ _ _ _ _ _ _ _ _ Hl E) as (hs & gs & dn & dm & Eout & Hl' & He & Ht & Hhs & Hgs & Hix & Hdm).
  destruct (turn_log (t_now t) hs gs l l' n m dn dm Hl Hnow Ht Hhs Hgs Hix Hdm (proj2 (lo_index _ _ _ Hl'))) as (L1 & L2 & L3 & L4 & L5).
  destruct (received_event_spec (t_recv t)) as (acks & Ha & Hres). destruct (received_event p (t_recv t)) as [ack res].
  cbn [fst snd] in Ha, Hres. subst ack. rewrite fmap_app, Eout.
  assert ((λ s, (t_now t, s)) <$> ((λ a, mkSent a PunchPacketAck) <$> acks) = log_at (t_now t) PunchPacketAck acks) as ->
    by (unfold log_at; by rewrite <-list_fmap_compose).
  set (log := log_at (t_now t) PunchPacketHello hs ++ _) in *.
  destruct res as [res|].
  - cbn [fst snd]. split; cbn [fst snd].
    + intros e [Hin|Hin]%elem_of_app; [by apply L1|].
      apply list_elem_of_fmap in Hin as (a & -> & Hin). destruct res as [|r].
      { destruct Hres as [-> _]. by apply elem_of_nil in Hin. }
      destruct Hres as (ev & _ & -> & Hs & Hev). rewrite (Hev a Hin). split; [done|]. right. split; [done|]. split; [done|]. by eexists.
    + rewrite guesses_of_app, L2, guesses_of_others, app_nil_r by (by left). rewrite Hgs at 1. apply prefix_take.
    + rewrite guesses_of_app, L2, guesses_of_others, app_nil_r by (by left). intros Hne Hg. rewrite <-Hix. by apply L4.
    + rewrite greetings_of_app, L3, greetings_of_others, app_nil_r by (by left). rewrite log_at_length. intros Hne. apply L5.
      by intros ->.
    + destruct res as [e|r]; cbn.
      * destruct Hres as [_ Hr]. exists t. split; [left|]. right; right. done.
      * destruct Hres as (ev & Hr & -> & Hs & _). split; [done|]. exists t, ev. split; [left|]. done.
  - destruct Hres as [-> _]. cbn [log_at fmap list_fmap]. rewrite app_nil_r.
    assert (∀ t', t' ∈ turns → t_now t' <= last) as Hlast' by (intros; apply Hlast; by right).
    specialize (IH l' _ _ Hl' Hlast'). destruct (runPunch_loop p l' turns) as [log' res].
    cbn [fst snd] in *. destruct IH as [K1 K2 K3 K4 K5].
    split.
    + intros e [Hin|Hin]%elem_of_app; [by apply L1|by apply K1].
    + rewrite guesses_of_app, L2. apply prefix_take_drop; [done|]. rewrite Hix in K2.
      replace (Z.to_nat (probeIndex l) + length gs)%nat with (Z.to_nat (probeIndex l + len gs)); [done|].
      pose proof (proj1 (lo_index _ _ _ Hl)). unfold len. lia.
    + rewrite guesses_of_app, L2, len_app. intros Hne Hg. destruct (guesses_of p log') as [|g k] eqn:Eg.
      * rewrite app_nil_r in Hne. change (len (@nil AddrPort)) with 0. rewrite Z.add_0_r, <-Hix. by apply L4.
      * rewrite Z.add_assoc, <-Hix. by apply K3.
    + rewrite greetings_of_app, L3, len_app, log_at_length. intros Hne. destruct (greetings_of p log') as [|g k] eqn:Eg.
      * rewrite app_nil_r in Hne. change (len (@nil (Z * sent))) with 0. rewrite Z.add_0_r. apply L5. by intros ->.
      * specialize (K4 ltac:(done)). destruct Hhs as [[-> ->]|(-> & -> & _)]; [change (len (@nil AddrPort)) with 0|]; lia.
    + by apply outcome_later.
Qed.
End Loop.

(** C28: an attempt made with a plan of the configuration sends only to the
    candidates and guesses of the plan, before its deadline, and answers only
    the source it returns, which the policy accepts; each guess is sent at
    most once, in order and within the probe budget; no more greetings than a
    round per interval, no more guesses than a burst per gap; once the clock
    reaches the deadline the attempt has ended, and no wait is for the past
    or for longer than the deadline. *)
Theorem punch_bounded localAddrs peerAddrs meta m config fallback local draw :
  ∃ r, newPunchPlan localAddrs peerAddrs meta m config fallback local draw = Some r ∧
  ∀ p, r = Ok p →
    plan_ok localAddrs peerAddrs config (effectiveFamily (Family config) local) p ∧
    ∀ start last turns log res, (∀ t, t ∈ turns → t_now t <= last) → start <= last → runPunch p start turns = (log, res) →
      (∀ e, e ∈ log → sent_ok p start res e) ∧
      guesses_of p log `prefix_of` plan_probes p ∧
      (0 < probeGap p → len (guesses_of p log) <= Z.max 0 (probeBurst p * (1 + (last - start) / probeGap p))) ∧
      len (greetings_of p log) <= len (targets p) * (1 + (last - start) / interval p) ∧
      outcome_ok p start turns res ∧
      (∀ e c now l out l' d, turn p e c now l = Ok (out, l', d) → now < d <= Z.max (punchDeadline l) (now + Millisecond)).
Proof.
  destruct (newPunchPlan_spec localAddrs peerAddrs meta m config fallback local draw) as (r & -> & Hr).
  exists r. split; [done|]. intros p ->. destruct Hr as [Hp _]. split; [done|]. intros start last turns log res Hlast Hs E.
  pose proof (po_interval _ _ _ _ _ Hp) as Hint.
  destruct (loop_spec p start last (λ a Ha, proj1 (proj2 (po_guesses _ _ _ _ _ Hp a Ha))) (λ H, proj1 (po_pacing _ _ _ _ _ Hp H))
    Hint turns (startLoop p start) 0 0) as [K1 K2 K3 K4 K5]; [|done|].
  { pose proof (len_nonneg (plan_probes p)). by split; cbn [startLoop probeDeadline punchDeadline nextTargets nextProbe probeIndex]; try lia. }
  unfold runPunch in E. rewrite E in *. cbn [fst snd] in *. split; [done|]. split; [done|].
  split; [|split; [|split; [done|]]].
  - intros Hg. destruct (guesses_of p log) as [|g k] eqn:Eg; [change (len (@nil AddrPort)) with 0; lia|].
    specialize (K3 ltac:(done) Hg). cbn [startLoop probeIndex] in K3. lia.
  - destruct (greetings_of p log) as [|g k] eqn:Eg; [change (len (@nil (Z * sent))) with 0|rewrite <-Eg; specialize (K4 ltac:(congruence))].
    + pose proof (len_nonneg (targets p)). assert (0 <= (last - start) / interval p) by (apply Z.div_pos; lia). nia.
    + rewrite Eg. lia.
  - intros e c now l out l' d Ht. by apply (turn_wakes p e c now l out l' d Ht).
Qed.

(** ** Example: a peer announced with two ports answers from one of them *)
#[local] Existing Instance toy.
Definition sample_local : list AddrPort := [AddrPortFrom (V4 3221225985) 5000].
Definition sample_peers : list AddrPort := [AddrPortFrom sample_host 40000; AddrPortFrom sample_host 40002].
Definition sample_config : PunchConfig :=
  mkPunchConfig 0 0 AddrFamilyAny PunchSourceDefault (mkSymmetricNATConfig false NATClassUnknown NATClassUnknown 3 0 0 0) 0.
Definition sample_turns : list turn_input :=
  [mkTurn None None 0 (Ok None);
   mkTurn None None (10 * Millisecond)
     (Ok (Some (mkPunchEvent "a" (AddrPortFrom sample_host 40001) (mkPunchPacket PunchPacketHello 0))))].
Definition sample_plan : option (result engine_error punchPlan) :=
  newPunchPlan sample_local sample_peers sample_meta sample_mask sample_config PunchSourceCandidates OtherAddr (λ k, Z.of_nat k).

Example sample_run : (r ← sample_plan; match r with Ok p => Some (runPunch p 0 sample_turns) | Err _ => None end) =
  Some ([(0, mkSent (AddrPortFrom sample_host 40000) PunchPacketHello); (0, mkSent (AddrPortFrom sample_host 40002) PunchPacketHello);
         (0, mkSent (AddrPortFrom sample_host 40001) PunchPacketHello); (0, mkSent (AddrPortFrom sample_host 39999) PunchPacketHello);
         (0, mkSent (AddrPortFrom sample_host 40003) PunchPacketHello);
         (10 * Millisecond, mkSent (AddrPortFrom sample_host 40001) PunchPacketAck)],
        Some (Ok (mkPunchResult (AddrPortFrom sample_host 40001) (mkPunchPacket PunchPacketHello 0)))).
Proof. vm_compute. reflexivity. Qed.

Lemma punch_bounded_witness : ∃ p, sample_plan = Some (Ok p) ∧
  plan_ok sample_local sample_peers sample_config AddrFamilyAny p ∧
  guesses_of p (runPunch p 0 sample_turns).1 `prefix_of` plan_probes p ∧
  outcome_ok p 0 sample_turns (runPunch p 0 sample_turns).2.
Proof.
  destruct (punch_bounded sample_local sample_peers sample_meta sample_mask sample_config PunchSourceCandidates OtherAddr (λ k, Z.of_nat k))
    as (r & E & Hr).
  assert (∃ p, sample_plan = Some (Ok p)) as [p Ep] by (vm_compute; by eexists).
  exists p. split; [exact Ep|]. unfold sample_plan in Ep. rewrite E in Ep. injection Ep as Ep.
  destruct (Hr p Ep) as [H1 H2]. split; [exact H1|].
  assert (∀ t, t ∈ sample_turns → t_now t <= 10 * Millisecond) as Hl.
  { intros t [->|[->|[]%elem_of_nil]%elem_of_cons]%elem_of_cons; unfold Millisecond; cbn; lia. }
  destruct (H2 0 (10 * Millisecond) sample_turns (runPunch p 0 sample_turns).1 (runPunch p 0 sample_turns).2 Hl ltac:(unfold Millisecond; lia)
    ltac:(by destruct (runPunch p 0 sample_turns))) as (_ & H3 & _ & _ & H4 & _). split; [exact H3 | exact H4].
Defined.
