(* ===== verification/PunchConn.v ===== *)
(** * The punch demultiplexer (extras/realm/punch_conn.go, puncher.go)

    The socket wrapper that routes punch packets to the attempt they belong
    to, STUN answers to their channel and the rest to the reader; the window
    of lengths punch packets imitate; the sends and receives of an attempt;
    and the pump that reads before anyone else does, as a step relation over
    the interleavings of pump, reader and [StopPump]. *)
From S2P Require Import GoStd Prelude Netip IP Obfs Punch Nat Net Stun PunchEngine.

Definition defaultPunchEventBuffer : Z := 16.
Definition pumpQueueSize : Z := 32.
Definition wireLenSamples : Z := 16.

(** ** The window of lengths *)
Record wireLenSampler := mkSampler { lens : list Z; count : Z (* uint64 *) }.

Definition newSampler : wireLenSampler := mkSampler (replicate (Z.to_nat wireLenSamples) 0) 0.

Definition observe (s : wireLenSampler) (n : Z) : wireLenSampler :=
  if (n <? punchMinWireLen) || (punchMaxWireLen <? n) then s else
  let count := u64 (count s + 1) in
  let i := u64 (count - 1) in
  mkSampler (<[Z.to_nat (i mod wireLenSamples) := n]> (lens s)) count.

Definition sample (s : wireLenSampler) (rnd : option bytes) : option Z :=
  let filled := Z.min (count s) wireLenSamples in
  if filled =? 0 then None else
  match randomUint filled rnd with
  | Err _ => None
  | Ok i => let n := default 0 (lens s !! Z.to_nat i) in if n =? 0 then None else Some n
  end.

(** ** Attempts *)
Record punchAttempt := mkAttempt { a_id : string; a_key : punchKey; a_events : list PunchPacketEvent }.

Section Conn.
Context `{StunLib, Primitives}.

(** The attempts are shared: both indexes hold references into [objs]. *)
Record PunchPacketConn := mkConn {
  eventBuffer : Z;
  c_mask : PunchMask;
  lengths : wireLenSampler;
  objs : list punchAttempt;
  attempts : gmap string nat;
  byNonce : gmap bytes (list nat);
  stun : list STUNPacketEvent }.

Definition set_lengths (s : wireLenSampler) (c : PunchPacketConn) : PunchPacketConn :=
  mkConn (eventBuffer c) (c_mask c) s (objs c) (attempts c) (byNonce c) (stun c).
Definition set_objs (o : list punchAttempt) (c : PunchPacketConn) : PunchPacketConn :=
  mkConn (eventBuffer c) (c_mask c) (lengths c) o (attempts c) (byNonce c) (stun c).
Definition set_index (a : gmap string nat) (n : gmap bytes (list nat)) (c : PunchPacketConn) : PunchPacketConn :=
  mkConn (eventBuffer c) (c_mask c) (lengths c) (objs c) a n (stun c).
Definition set_stun (s : list STUNPacketEvent) (c : PunchPacketConn) : PunchPacketConn :=
  mkConn (eventBuffer c) (c_mask c) (lengths c) (objs c) (attempts c) (byNonce c) s.

Definition NewPunchPacketConn (mask : PunchMask) (eventBuffer : Z) : result punch_error PunchPacketConn :=
  if negb (valid mask) then Err ErrPunchMaskRequired else
  Ok (mkConn (if eventBuffer <=? 0 then defaultPunchEventBuffer else eventBuffer) mask newSampler [] ∅ ∅ []).

(** The reference returned stands for the attempt's channel. *)
Definition AddPunchAttempt (id : string) (meta : PunchMetadata) (c : PunchPacketConn)
    : PunchPacketConn * result engine_error nat :=
  if bool_decide (id = EmptyString) then (c, Err (ErrInvalidPunchAttempt "id is required")) else
  match newPunchKey meta (c_mask c) with
  | Err e => (c, Err (ErrPacket e))
  | Ok key =>
      match attempts c !! id with
      | Some _ => (c, Err (ErrInvalidPunchAttempt "duplicate id"))
      | None =>
          let r := length (objs c) in
          let c := set_objs (objs c ++ [mkAttempt id key []]) c in
          (set_index (<[id := r]> (attempts c)) (<[nonce key := default [] (byNonce c !! nonce key) ++ [r]]> (byNonce c)) c, Ok r)
      end
  end.

(** The first occurrence leaves the bucket. *)
Fixpoint remove_first (r : nat) (bucket : list nat) : list nat :=
  match bucket with [] => [] | x :: bucket => if (x =? r)%nat then bucket else x :: remove_first r bucket end.

Definition RemovePunchAttempt (id : string) (c : PunchPacketConn) : PunchPacketConn :=
  match attempts c !! id with
  | None => c
  | Some r =>
      match objs c !! r with
      | None => c
      | Some a =>
          let n := nonce (a_key a) in
          let bucket := remove_first r (default [] (byNonce c !! n)) in
          set_index (delete id (attempts c)) (if (length bucket =? 0)%nat then delete n (byNonce c) else <[n := bucket]> (byNonce c)) c
      end
  end.

Definition hasAttempts (c : PunchPacketConn) : bool := negb (bool_decide (attempts c = ∅)).

(** ** Dispatch *)
Definition conn_decodePunchPacket (packet : bytes) (from : net_Addr) (c : PunchPacketConn) : option (nat * PunchPacketEvent) :=
  if negb (hasAttempts c) then None else
  match unmaskPunchHeader packet (c_mask c) with
  | Err _ => None
  | Ok header =>
      fromAddr ← addrToAddrPort from;
      r ← head (default [] (byNonce c !! h_nonce header));
      a ← objs c !! r;
      Some (r, mkPunchEvent (a_id a) fromAddr (mkPunchPacket (packetType header) (len packet - punchMinWireLen)))
  end.

(** A send on a channel that drops when it is full. *)
Definition offer {A} (size : Z) (ch : list A) (x : A) : list A := if len ch <? size then ch ++ [x] else ch.

Definition deliver (size : Z) (ev : PunchPacketEvent) (a : punchAttempt) : punchAttempt :=
  mkAttempt (a_id a) (a_key a) (offer size (a_events a) ev).

Definition emitPunch (r : nat) (ev : PunchPacketEvent) (c : PunchPacketConn) : PunchPacketConn :=
  set_objs (alter (deliver (eventBuffer c) ev) r (objs c)) c.

Definition emitSTUN (ev : STUNPacketEvent) (c : PunchPacketConn) : PunchPacketConn :=
  set_stun (offer (eventBuffer c) (stun c) ev) c.

Definition dispatch (packet : bytes) (addr : net_Addr) (c : PunchPacketConn) : PunchPacketConn * bool :=
  match decodeSTUNPacket packet with
  | Some ev => (emitSTUN ev c, true)
  | None =>
      match conn_decodePunchPacket packet addr c with
      | Some (r, ev) => (emitPunch r ev c, true)
      | None => (c, false)
      end
  end.

(** A receive from an attempt's channel. *)
Definition receive (r : nat) (c : PunchPacketConn) : PunchPacketConn * option PunchPacketEvent :=
  match objs c !! r with
  | Some a =>
      match a_events a with
      | ev :: evs => (set_objs (<[r := mkAttempt (a_id a) (a_key a) evs]> (objs c)) c, Some ev)
      | [] => (c, None)
      end
  | None => (c, None)
  end.

Definition receiveSTUN (c : PunchPacketConn) : PunchPacketConn * option STUNPacketEvent :=
  match stun c with ev :: evs => (set_stun evs c, Some ev) | [] => (c, None) end.

(** ** Sends

    What the socket is given: a datagram and where it goes. *)
Record datagram := mkDatagram { d_data : bytes; d_to : net_Addr }.

Definition WriteTo (p : bytes) (addr : net_Addr) (c : PunchPacketConn) : PunchPacketConn * datagram :=
  (set_lengths (observe (lengths c) (len p)) c, mkDatagram p addr).
Definition writePunch (p : bytes) (addr : net_Addr) (c : PunchPacketConn) : PunchPacketConn * datagram :=
  (c, mkDatagram p addr).

Definition sampleWireLen (padToWireLen : Z) (r1 r2 : option bytes) (c : PunchPacketConn) : result punch_error Z :=
  match sample (lengths c) r1 with
  | Some n => Ok n
  | None => if validPunchWireLen padToWireLen then Ok padToWireLen else fallbackPunchWireLen r2
  end.

(** The random draws of one packet: the slot, the length, the packet. *)
Record draws := mkDraws { d_slot : option bytes; d_len : option bytes; d_packet : Z → option bytes }.

(** [demux] is the connection, when it is one that samples. *)
Definition punchWireLen (demux : option PunchPacketConn) (padToWireLen : Z) (d : draws) : result punch_error Z :=
  match demux with
  | Some c => sampleWireLen padToWireLen (d_slot d) (d_len d) c
  | None => if validPunchWireLen padToWireLen then Ok padToWireLen else fallbackPunchWireLen (d_len d)
  end.

Definition sendPunchPacket (demux : option PunchPacketConn) (addr : AddrPort) (key : punchKey) (t : PunchPacketType)
    (padToWireLen : Z) (d : draws) : option PunchPacketConn * option datagram :=
  match (wireLen ← punchWireLen demux padToWireLen d; encodePunchPacket t key wireLen (d_packet d)) with
  | Err _ => (demux, None)
  | Ok packet =>
      match demux with
      | Some c => let '(c, out) := writePunch packet (udpAddrFromAddrPort addr) c in (Some c, Some out)
      | None => (None, Some (mkDatagram packet (udpAddrFromAddrPort addr)))
      end
  end.

(** ** Receives of an attempt *)

(** [directPunchTransport.recvUntil] over the reads of the socket; [None]: it
    waits. *)
Inductive socket_read := Datagram (p : bytes) (from : net_Addr) | SocketError (timeout : bool).

Fixpoint direct_recvUntil (key : punchKey) (reads : list socket_read) : option (result engine_error (option PunchPacketEvent)) :=
  match reads with
  | [] => None
  | SocketError timeout :: _ => Some (if timeout then Ok None else Err errRead)
  | Datagram p addr :: reads =>
      match addrToAddrPort addr with
      | None => direct_recvUntil key reads
      | Some from =>
          match decodePunchPacket p key with
          | Err _ => direct_recvUntil key reads
          | Ok packet => Some (Ok (Some (mkPunchEvent EmptyString from packet)))
          end
      end
  end.

(** [demuxPunchTransport.recvUntil]: the case the select takes. *)
Inductive recv_case := FromEvents | Timer | CtxDone.

Definition demux_recvUntil (r : nat) (case : recv_case) (c : PunchPacketConn)
    : PunchPacketConn * result engine_error (option PunchPacketEvent) :=
  match case with
  | FromEvents => let '(c, ev) := receive r c in (c, Ok ev)
  | Timer | CtxDone => (c, Ok None)
  end.

(** [Puncher.run] up to the loop: the plan, and the attempt registered. *)
Definition Puncher_start (attemptID : string) (localAddrs peerAddrs : list AddrPort) (meta : PunchMetadata) (config : PunchConfig)
    (fallbackPolicy : PunchSourcePolicy) (local : net_Addr) (draw : nat → Z) (c : PunchPacketConn)
    : option (PunchPacketConn * result engine_error (punchPlan * nat)) :=
  if bool_decide (attemptID = EmptyString) then Some (c, Err (ErrInvalidPunchAttempt "id is required")) else
  plan ← newPunchPlan localAddrs peerAddrs meta (c_mask c) config fallbackPolicy local draw;
  match plan with
  | Err e => Some (c, Err e)
  | Ok plan =>
      let '(c, r) := AddPunchAttempt attemptID meta c in
      Some (c, r ← r; Ok (plan, r))
  end.

Definition Puncher_Punch (attemptID : string) (localAddrs peerAddrs : list AddrPort) (meta : PunchMetadata) (config : PunchConfig)
    : net_Addr → (nat → Z) → PunchPacketConn → option (PunchPacketConn * result engine_error (punchPlan * nat)) :=
  Puncher_start attemptID localAddrs peerAddrs meta config PunchSourceCandidates.
Definition Puncher_Respond (attemptID : string) (localAddrs peerAddrs : list AddrPort) (meta : PunchMetadata) (config : PunchConfig)
    : net_Addr → (nat → Z) → PunchPacketConn → option (PunchPacketConn * result engine_error (punchPlan * nat)) :=
  Puncher_start attemptID localAddrs peerAddrs meta config PunchSourceAny.

Definition randomAttemptID (rnd : option bytes) : result engine_error string :=
  match rnd with None => Err errRandomID | Some buf => Ok ("punch-" ++ hexString buf)%string end.

(** ** What happens to a connection *)
Inductive conn_op : Type :=
| OpAdd (id : string) (meta : PunchMetadata)
| OpRemove (id : string)
| OpPacket (p : bytes) (from : net_Addr)
| OpReceive (r : nat)
| OpReceiveSTUN
| OpWriteTo (p : bytes) (to : net_Addr)
| OpSendPunch (to : AddrPort) (key : punchKey) (t : PunchPacketType) (pad : Z) (d : draws).

Definition apply_op (c : PunchPacketConn) (op : conn_op) : PunchPacketConn :=
  match op with
  | OpAdd id meta => (AddPunchAttempt id meta c).1
  | OpRemove id => RemovePunchAttempt id c
  | OpPacket p from => (dispatch p from c).1
  | OpReceive r => (receive r c).1
  | OpReceiveSTUN => (receiveSTUN c).1
  | OpWriteTo p to => (WriteTo p to c).1
  | OpSendPunch to key t pad d => default c (sendPunchPacket (Some c) to key t pad d).1
  end.

Definition apply_ops (c : PunchPacketConn) (ops : list conn_op) : PunchPacketConn := foldl apply_op c ops.

(** ** The window holds the lengths sent last *)
Record sampler_ok (ns : list Z) (s : wireLenSampler) : Prop := {
  so_count : count s = len ns;
  so_size : len (lens s) = wireLenSamples;
  so_lens : ∀ i v, lens s !! i = Some v →
    (v = 0 ∧ len ns <= Z.of_nat i) ∨
    (∃ k, ns !! k = Some v ∧ len ns - wireLenSamples <= Z.of_nat k ∧ Z.of_nat k mod wireLenSamples = Z.of_nat i) }.

Lemma newSampler_ok : sampler_ok [] newSampler.
Proof.
  split; [done|done|]. intros i v Hi. left. unfold newSampler in Hi. cbn [lens] in Hi.
  apply lookup_replicate in Hi as [-> _]. unfold len. cbn. lia.
Qed.

Lemma observe_ok ns s n : len ns + 1 < 2 ^ 64 → sampler_ok ns s →
  sampler_ok (ns ++ if validPunchWireLen n then [n] else []) (observe s n).
Proof.
  intros Hlen Hs. unfold observe, validPunchWireLen.
  destruct (Z.ltb_spec n punchMinWireLen), (Z.leb_spec punchMinWireLen n); try lia; cbn [orb andb]; [by rewrite app_nil_r|].
  destruct (Z.ltb_spec punchMaxWireLen n), (Z.leb_spec n punchMaxWireLen); try lia; cbn [orb]; [by rewrite app_nil_r|].
  destruct Hs as [Hc Hz Hl]. pose proof (len_nonneg ns). cbn zeta.
  assert (u64 (count s + 1) = len ns + 1) as -> by (rewrite Hc; apply wrapU_small; lia).
  assert (u64 (len ns + 1 - 1) = len ns) as -> by (rewrite Z.add_simpl_r; apply wrapU_small; lia).
  assert (0 <= len ns mod wireLenSamples < wireLenSamples) by (apply Z.mod_pos_bound; done).
  split; cbn [count lens].
  - by rewrite len_app.
  - unfold len in *. by rewrite length_insert.
  - intros i v. rewrite len_app. change (len [n]) with 1. destruct (decide (i = Z.to_nat (len ns mod wireLenSamples))) as [->|Hne].
    + rewrite list_lookup_insert_eq by (unfold len in *; lia). intros [= <-]. right. exists (length ns).
      rewrite list_lookup_middle by done. split; [done|]. unfold wireLenSamples, len in *. lia.
    + rewrite list_lookup_insert_ne by done. intros Hin. pose proof (lookup_lt_Some _ _ _ Hin) as Hlt.
      apply Hl in Hin as [[-> Hi]|(k & Hk & Hk1 & Hk2)].
      * left. split; [done|]. destruct (decide (Z.of_nat i = len ns)) as [E|]; [|lia]. exfalso. apply Hne.
        rewrite <-E, Z.mod_small by (unfold len in *; lia). lia.
      * right. exists k. rewrite lookup_app_l by (by eapply lookup_lt_Some). split; [done|]. split; [|done].
        destruct (decide (Z.of_nat k = len ns - wireLenSamples)) as [E|]; [|lia]. exfalso. apply Hne.
        rewrite E in Hk2. unfold wireLenSamples in *. rewrite <-(Z.mod_add (len ns - 16) 1 16), Z.mul_1_l in Hk2 by lia.
        replace (len ns - 16 + 16) with (len ns) in Hk2 by lia. lia.
Qed.

(** A sample is one of the sixteen lengths observed last. *)
Lemma sample_recent ns s rnd n : sampler_ok ns s → sample s rnd = Some n →
  ∃ k, ns !! k = Some n ∧ len ns - wireLenSamples <= Z.of_nat k.
Proof.
  intros [Hc Hz Hl]. unfold sample. set (filled := Z.min _ _). destruct (Z.eqb_spec filled 0); [done|].
  assert (0 < filled <= wireLenSamples) by (pose proof (len_nonneg ns); unfold wireLenSamples in *; lia).
  destruct (randomUint filled rnd) as [|i] eqn:E; [done|].
  assert (0 <= i < filled) as Hi.
  { unfold randomUint in E. destruct (Z.leb_spec filled 1); [injection E as <-; lia|]. destruct rnd as [b|]; [|done]. injection E as <-.
    rewrite (wrapU_small 32 filled) by (unfold wireLenSamples in *; lia). apply Z.mod_pos_bound. lia. }
  destruct (lens s !! Z.to_nat i) as [v|] eqn:Ev; [|cbn; intros; discriminate]. cbn zeta. change (default 0 (Some v)) with v.
  destruct (Z.eqb_spec v 0); [done|]. intros [= <-].
  destruct (Hl _ _ Ev) as [[-> _]|(k & Hk & Hk1 & _)]; [done|]. by exists k.
Qed.

(** The lengths of the data datagrams written, those that may be imitated. *)
Definition written (ops : list conn_op) : list Z :=
  ops ≫= λ op, match op with OpWriteTo p _ => if validPunchWireLen (len p) then [len p] else [] | _ => [] end.

(** Punch packets leave the connection as it is. *)
Lemma sendPunchPacket_conn c to key t pad d : (sendPunchPacket (Some c) to key t pad d).1 = Some c.
Proof. unfold sendPunchPacket, writePunch. by destruct (_ ≫= _). Qed.

Lemma apply_op_lengths c op : (∀ p to, op ≠ OpWriteTo p to) → lengths (apply_op c op) = lengths c.
Proof.
  intros Hop. destruct op as [id meta|id|p from|r| |p to|to key t pad d]; cbn [apply_op].
  - unfold AddPunchAttempt. by repeat case_match.
  - unfold RemovePunchAttempt. by repeat case_match.
  - unfold dispatch, emitPunch, emitSTUN, set_objs, set_stun. repeat case_match; done.
  - unfold receive. by repeat case_match.
  - unfold receiveSTUN. by repeat case_match.
  - by destruct (Hop p to).
  - by rewrite sendPunchPacket_conn.
Qed.

Lemma apply_ops_sampler c ns ops : sampler_ok ns (lengths c) → len ns + len ops < 2 ^ 64 →
  sampler_ok (ns ++ written ops) (lengths (apply_ops c ops)).
Proof.
  revert c ns. induction ops as [|op ops IH]; intros c ns Hs Hl; [by rewrite app_nil_r|].
  rewrite len_cons in Hl. pose proof (len_nonneg ops). unfold written. cbn [apply_ops foldl mbind list_bind].
  fold (written ops) (apply_ops (apply_op c op) ops). rewrite app_assoc. apply IH.
  - pose proof (apply_op_lengths c op) as Hkeep.
    destruct op as [| | | | |p to|]; try (rewrite Hkeep by done; by rewrite app_nil_r). cbn [apply_op WriteTo fst].
    apply observe_ok; [lia|done].
  - rewrite len_app. destruct op as [| | | | |p to|]; try (change (len (@nil Z)) with 0; lia).
    destruct (validPunchWireLen _); [change (len [len p]) with 1|change (len (@nil Z)) with 0]; lia.
Qed.

Lemma written_valid ops n : n ∈ written ops → validPunchWireLen n = true.
Proof.
  unfold written. intros (op & Hop & _)%list_elem_of_bind. destruct op; try by apply elem_of_nil in Hop.
  destruct (validPunchWireLen _) eqn:Ev; [|by apply elem_of_nil in Hop]. by apply list_elem_of_singleton in Hop as ->.
Qed.

(** With a length observed and a random number there is a sample. *)
Lemma sample_some ns s b : sampler_ok ns s → (∀ n, n ∈ ns → validPunchWireLen n = true) → ns ≠ [] → is_Some (sample s (Some b)).
Proof.
  intros [Hc Hz Hl] Hv Hne. unfold sample. set (filled := Z.min _ _).
  assert (0 < filled <= wireLenSamples ∧ filled <= len ns).
  { destruct ns as [|x l]; [done|]. pose proof (len_nonneg l). subst filled. rewrite Hc, len_cons. unfold wireLenSamples. lia. }
  destruct (Z.eqb_spec filled 0); [lia|].
  assert (∃ i, randomUint filled (Some b) = Ok i ∧ 0 <= i < filled) as (i & -> & Hi).
  { unfold randomUint. destruct (Z.leb_spec filled 1); [exists 0; split; [done|lia]|]. eexists. split; [done|].
    rewrite (wrapU_small 32 filled) by (unfold wireLenSamples in *; lia). apply Z.mod_pos_bound. lia. }
  destruct (lookup_lt_is_Some_2 (lens s) (Z.to_nat i)) as [v Ev]; [unfold len in *; lia|]. rewrite Ev. cbn zeta.
  change (default 0 (Some v)) with v. destruct (Hl _ _ Ev) as [[_ ?]|(k & Hk & _)]; [lia|].
  apply list_elem_of_lookup_2, Hv in Hk. unfold validPunchWireLen, punchMinWireLen, punchSaltLen, punchHeaderLen, PunchNonceSize in Hk.
  apply andb_true_iff in Hk as [Hk%Z.leb_le _]. destruct (Z.eqb_spec v 0); [lia|]. by eexists.
Qed.

(** ** The indexes agree, and channels hold what was sent to them *)
Definition bucket (c : PunchPacketConn) (n : bytes) : list nat := default [] (byNonce c !! n).

(** The datagrams that arrived. *)
Definition arrived (ops : list conn_op) : list (bytes * net_Addr) :=
  ops ≫= λ op, match op with OpPacket p from => [(p, from)] | _ => [] end.

Record conn_ok (ps : list (bytes * net_Addr)) (c : PunchPacketConn) : Prop := {
  co_mask : ∀ r a, objs c !! r = Some a → mask (a_key a) = c_mask c;
  co_attempts : ∀ id r, attempts c !! id = Some r →
    ∃ a, objs c !! r = Some a ∧ a_id a = id ∧ r ∈ bucket c (nonce (a_key a));
  co_bucket : ∀ n r, r ∈ bucket c n → ∃ a, objs c !! r = Some a ∧ nonce (a_key a) = n ∧ attempts c !! a_id a = Some r;
  co_sorted : ∀ n, StronglySorted lt (bucket c n);
  co_nonempty : ∀ n l, byNonce c !! n = Some l → l ≠ [];
  co_events : ∀ r a, objs c !! r = Some a → len (a_events a) <= eventBuffer c ∧
    ∀ ev, ev ∈ a_events a → AttemptID ev = a_id a ∧ ∃ p from, (p, from) ∈ ps ∧
      addrToAddrPort from = Some (From ev) ∧ decodePunchPacket p (a_key a) = Ok (Packet ev);
  co_stun : len (stun c) <= eventBuffer c ∧ ∀ ev, ev ∈ stun c → ∃ p from, (p, from) ∈ ps ∧ decodeSTUNPacket p = Some ev }.

Lemma NewPunchPacketConn_ok m size c : NewPunchPacketConn m size = Ok c → conn_ok [] c ∧ c_mask c = m ∧ 0 < eventBuffer c.
Proof.
  unfold NewPunchPacketConn. destruct (valid m); [|done]. intros [= <-].
  assert (0 < (if size <=? 0 then defaultPunchEventBuffer else size)) by (unfold defaultPunchEventBuffer; destruct (Z.leb_spec size 0); lia).
  split; [|done]. split; cbn [objs attempts byNonce stun bucket eventBuffer]; try done; unfold bucket; cbn [byNonce].
  - intros n r. rewrite lookup_empty. by intros ?%elem_of_nil.
  - intros n. rewrite lookup_empty. constructor.
  - split; [unfold len; cbn; lia|]. by intros ev ?%elem_of_nil.
Qed.

Lemma lookup_snoc_cases {A} (l : list A) x i y : (l ++ [x]) !! i = Some y → l !! i = Some y ∨ i = length l ∧ y = x.
Proof.
  destruct (decide (i < length l)%nat) as [Hi|Hi]; [rewrite lookup_app_l by done; by left|].
  rewrite lookup_app_r by lia. intros Hy. right. destruct (i - length l)%nat eqn:E; [|by destruct n]. injection Hy as ->. split; [lia|done].
Qed.

Lemma StronglySorted_snoc l x : StronglySorted lt l → (∀ y, y ∈ l → (y < x)%nat) → StronglySorted lt (l ++ [x]).
Proof.
  induction l as [|a l IH]; intros Hs Hx; [repeat constructor|]. apply StronglySorted_inv in Hs as [Hs Ha]. constructor.
  - apply IH; [done|]. intros. apply Hx. by right.
  - apply list.Forall_app. split; [done|]. repeat constructor. apply Hx. left.
Qed.

Lemma AddPunchAttempt_ok ps c id meta : conn_ok ps c → conn_ok ps (AddPunchAttempt id meta c).1.
Proof.
  intros Hc. unfold AddPunchAttempt. case_bool_decide; [done|]. destruct (newPunchKey meta (c_mask c)) as [|key] eqn:Ek; [done|].
  destruct (attempts c !! id) eqn:Ei; [done|]. apply newPunchKey_ok in Ek as [_ Hmask]. destruct Hc as [C1 C2 C3 C4 C5 C6 C7].
  assert (∀ n r, r ∈ bucket c n → (r < length (objs c))%nat) as Hlt
    by (intros n r Hr; destruct (C3 n r Hr) as (a & Ha & _); by eapply lookup_lt_Some).
  set (r := length (objs c)). set (new := mkAttempt id key []). cbn [fst].
  match goal with |- conn_ok ps ?x => set (c' := x) end.
  assert (∀ n, bucket c' n = bucket c n ++ (if decide (n = nonce key) then [r] else [])) as Hb.
  { intros n. unfold bucket. cbn [c' set_index byNonce]. destruct (decide (n = nonce key)) as [->|Hn].
    - by rewrite lookup_insert_eq.
    - rewrite lookup_insert_ne by done. by rewrite app_nil_r. }
  split; cbn [c' set_index set_objs objs attempts c_mask eventBuffer stun]; try done.
  - intros r' a [Ha|[-> ->]]%lookup_snoc_cases; [by eapply C1|done].
  - intros id' r' [[<- <-]|[Hne Hr]]%lookup_insert_Some.
    + exists new. split; [by apply list_lookup_middle|]. split; [done|]. rewrite Hb, decide_True by done. apply elem_of_app. right. left.
    + destruct (C2 id' r' Hr) as (a & Ha & Hid & Hin). exists a. split; [by apply lookup_app_l_Some|]. split; [done|].
      rewrite Hb. apply elem_of_app. by left.
  - intros n r'. rewrite Hb. intros [Hr|Hr]%elem_of_app.
    + destruct (C3 n r' Hr) as (a & Ha & Hn & Hat). exists a. split; [by apply lookup_app_l_Some|]. split; [done|].
      rewrite lookup_insert_ne; [done|]. intros ->. congruence.
    + destruct (decide (n = nonce key)) as [->|]; [|by apply elem_of_nil in Hr]. apply list_elem_of_singleton in Hr as ->.
      exists new. split; [by apply list_lookup_middle|]. split; [done|]. by rewrite lookup_insert_eq.
  - intros n. rewrite Hb. destruct (decide _) as [->|]; [|by rewrite app_nil_r]. apply StronglySorted_snoc; [apply C4|]. apply Hlt.
  - intros n l. cbn [c' set_index byNonce]. intros [[<- <-]|[_ Hl]]%lookup_insert_Some; [by intros [_ ?]%app_nil|by eapply C5].
  - intros r' a [Ha|[-> ->]]%lookup_snoc_cases; [by eapply C6|]. cbn [a_events a_id new].
    destruct C7 as [C7 _]. pose proof (len_nonneg (stun c)). split; [change (len (@nil PunchPacketEvent)) with 0; lia|]. by intros ev ?%elem_of_nil.
Qed.

Lemma elem_of_remove_first r l x : StronglySorted lt l → x ∈ remove_first r l ↔ x ∈ l ∧ x ≠ r.
Proof.
  induction l as [|a l IH]; intros Hs; cbn [remove_first].
  { split; [by intros ?%elem_of_nil|]. by intros [?%elem_of_nil _]. }
  apply StronglySorted_inv in Hs as [Hs Ha]. rewrite list.Forall_forall in Ha. destruct (Nat.eqb_spec a r) as [->|Hne].
  - rewrite elem_of_cons. split; [intros Hx; split; [by right|]; specialize (Ha _ Hx); lia|]. intros [[->|?] ?]; [done|done].
  - rewrite !elem_of_cons, (IH Hs). split; [intros [->|[? ?]]; auto|]. intros [[->|?] ?]; auto.
Qed.

Lemma remove_first_sorted r l : StronglySorted lt l → StronglySorted lt (remove_first r l).
Proof.
  induction l as [|a l IH]; intros Hs; cbn [remove_first]; [done|]. pose proof Hs as Hs'. apply StronglySorted_inv in Hs as [Hs Ha].
  destruct (Nat.eqb_spec a r); [done|]. constructor; [by apply IH|]. rewrite list.Forall_forall in *.
  intros x [Hx _]%(elem_of_remove_first _ _ _ Hs). by apply Ha.
Qed.

Lemma RemovePunchAttempt_ok ps c id : conn_ok ps c → conn_ok ps (RemovePunchAttempt id c).
Proof.
  intros Hc. pose proof Hc as [C1 C2 C3 C4 C5 C6 C7]. unfold RemovePunchAttempt. destruct (attempts c !! id) as [r|] eqn:Ei; [|done].
  destruct (C2 _ _ Ei) as (a & Ha & Hid & Hr). rewrite Ha. set (n := nonce (a_key a)) in *. fold (bucket c n).
  match goal with |- conn_ok ps ?x => set (c' := x) end.
  assert (∀ m, bucket c' m = if decide (m = n) then remove_first r (bucket c n) else bucket c m) as Hb.
  { intros m. unfold bucket at 1. cbn [c' set_index byNonce]. destruct (Nat.eqb_spec (length (remove_first r (bucket c n))) 0) as [E|E].
    - destruct (decide (m = n)) as [->|]; [|by rewrite lookup_delete_ne]. rewrite lookup_delete_eq.
      by destruct (remove_first r (bucket c n)).
    - destruct (decide (m = n)) as [->|]; [by rewrite lookup_insert_eq|by rewrite lookup_insert_ne]. }
  assert (∀ m x, x ∈ bucket c' m ↔ x ∈ bucket c m ∧ x ≠ r) as Hin.
  { intros m x. rewrite Hb. destruct (decide (m = n)) as [->|Hne]; [apply elem_of_remove_first, C4|].
    split; [|by intros [? _]]. intros Hx. split; [done|]. intros ->. destruct (C3 m r Hx) as (a' & Ha' & Hn' & _).
    rewrite Ha in Ha'. injection Ha' as <-. by apply Hne. }
  split; cbn [c' set_index objs attempts c_mask eventBuffer stun]; try done.
  - intros id' r' [Hne Hr']%lookup_delete_Some. destruct (C2 id' r' Hr') as (a' & Ha' & Hid' & Hin').
    exists a'. split; [done|]. split; [done|]. apply Hin. split; [done|]. intros ->. congruence.
  - intros m r' [Hr' Hne]%Hin. destruct (C3 m r' Hr') as (a' & Ha' & Hn' & Hat). exists a'. split; [done|]. split; [done|].
    rewrite lookup_delete_ne; [done|]. intros E. rewrite <-E, Ei in Hat. injection Hat as Hat. by apply Hne.
  - intros m. rewrite Hb. destruct (decide (m = n)); [apply remove_first_sorted|]; apply C4.
  - intros m l. cbn [c' set_index byNonce]. destruct (Nat.eqb_spec (length (remove_first r (bucket c n))) 0) as [E|E].
    + intros [_ Hl]%lookup_delete_Some. by eapply C5.
    + intros [[<- <-]|[_ Hl]]%lookup_insert_Some; [by intros E'; rewrite E' in E|by eapply C5].
Qed.

(** Changing the channels only. *)
Lemma set_objs_ok ps ps' c o : conn_ok ps c → ps ⊆ ps' →
  (∀ r a', o !! r = Some a' → ∃ a, objs c !! r = Some a ∧ a_id a' = a_id a ∧ a_key a' = a_key a ∧
     len (a_events a') <= eventBuffer c ∧
     ∀ ev, ev ∈ a_events a' → ev ∈ a_events a ∨ AttemptID ev = a_id a ∧ ∃ p from, (p, from) ∈ ps' ∧
       addrToAddrPort from = Some (From ev) ∧ decodePunchPacket p (a_key a) = Ok (Packet ev)) →
  (∀ r a, objs c !! r = Some a → ∃ a', o !! r = Some a' ∧ a_id a' = a_id a ∧ a_key a' = a_key a) →
  conn_ok ps' (set_objs o c).
Proof.
  intros [C1 C2 C3 C4 C5 C6 [C7 C8]] Hps Hback Hfwd. split; cbn [set_objs objs attempts byNonce c_mask eventBuffer stun];
    unfold bucket; cbn [set_objs byNonce]; fold (bucket c); try done.
  - intros r a' (a & Ha & _ & -> & _)%Hback. by eapply C1.
  - intros id r Hr. destruct (C2 id r Hr) as (a & Ha & Hid & Hin). destruct (Hfwd r a Ha) as (a' & Ha' & Hid' & Hk').
    exists a'. split; [done|]. split; [congruence|]. rewrite Hk'. done.
  - intros n r Hr. destruct (C3 n r Hr) as (a & Ha & Hn & Hat). destruct (Hfwd r a Ha) as (a' & Ha' & Hid' & Hk').
    exists a'. split; [done|]. split; [congruence|]. by rewrite Hid'.
  - intros r a' (a & Ha & -> & -> & Hl & Hev)%Hback. split; [done|]. intros ev [Hin|Hnew]%Hev; [|done].
    destruct (proj2 (C6 r a Ha) ev Hin) as (? & p & from & ? & ?). split; [done|]. exists p, from. split; [by apply Hps|done].
  - split; [done|]. intros ev (p & from & ? & ?)%C8. exists p, from. split; [by apply Hps|done].
Qed.

Lemma elem_of_offer {A} size (ch : list A) x y : y ∈ offer size ch x → y ∈ ch ∨ y = x.
Proof. unfold offer. destruct (_ <? _); [|by left]. intros [?|?%list_elem_of_singleton]%elem_of_app; auto. Qed.

Lemma offer_length {A} size (ch : list A) x : len ch <= size → len (offer size ch x) <= size.
Proof. unfold offer. destruct (Z.ltb_spec (len ch) size); [|done]. rewrite len_app. change (len [x]) with 1. lia. Qed.

Lemma decode_with_attempt c p h a : unmaskPunchHeader p (c_mask c) = Ok h → mask (a_key a) = c_mask c → nonce (a_key a) = h_nonce h →
  decodePunchPacket p (a_key a) = Ok (mkPunchPacket (packetType h) (len p - punchMinWireLen)).
Proof.
  intros Hu Hm Hn. unfold decodePunchPacket. rewrite Hm, Hu. cbn [mbind result_bind]. by rewrite bool_decide_eq_true_2.
Qed.

(** A packet routed goes to the first attempt registered with its nonce, under
    whose key it decodes. *)
Lemma decode_routes ps c p from r ev : conn_ok ps c → conn_decodePunchPacket p from c = Some (r, ev) →
  ∃ a rest, bucket c (nonce (a_key a)) = r :: rest ∧ objs c !! r = Some a ∧ attempts c !! a_id a = Some r ∧
    AttemptID ev = a_id a ∧ addrToAddrPort from = Some (From ev) ∧ decodePunchPacket p (a_key a) = Ok (Packet ev).
Proof.
  intros Hc. unfold conn_decodePunchPacket. destruct (hasAttempts c); [|done]. cbn [negb].
  destruct (unmaskPunchHeader p (c_mask c)) as [|h] eqn:Eu; [done|].
  destruct (addrToAddrPort from) as [f|]; [|done]. cbn [mbind option_bind]. fold (bucket c (h_nonce h)).
  destruct (bucket c (h_nonce h)) as [|x rest] eqn:Eb; [done|]. cbn [head mbind option_bind].
  destruct (objs c !! x) as [a|] eqn:Ea; [|done]. cbn [mbind option_bind]. intros [= <- <-].
  destruct (co_bucket _ _ Hc (h_nonce h) x) as (a' & Ha' & Hn & Hat); [rewrite Eb; left|].
  rewrite Ea in Ha'. injection Ha' as <-. exists a, rest. rewrite Hn. split; [done|]. split; [done|]. split; [done|].
  split; [done|]. split; [done|]. apply (decode_with_attempt c p h a Eu); [by eapply co_mask|done].
Qed.

Lemma conn_ok_mono ps ps' c : conn_ok ps c → ps ⊆ ps' → conn_ok ps' c.
Proof.
  intros [C1 C2 C3 C4 C5 C6 [C7 C8]] Hps. split; try done.
  - intros r a Ha. destruct (C6 r a Ha) as [Hl Hev]. split; [done|]. intros ev (Hid & p & from & ? & ?)%Hev.
    split; [done|]. exists p, from. split; [by apply Hps|done].
  - split; [done|]. intros ev (p & from & ? & ?)%C8. exists p, from. split; [by apply Hps|done].
Qed.

Lemma dispatch_ok ps c p from : conn_ok ps c → conn_ok (ps ++ [(p, from)]) (dispatch p from c).1.
Proof.
  intros Hc. assert (ps ⊆ ps ++ [(p, from)]) as Hps by (intros x Hx; apply elem_of_app; by left).
  assert ((p, from) ∈ ps ++ [(p, from)]) as Hnew by (apply elem_of_app; right; left).
  pose proof (conn_ok_mono _ _ c Hc Hps) as Hc'. unfold dispatch. destruct (decodeSTUNPacket p) as [ev|] eqn:Es.
  - cbn [fst]. destruct Hc' as [C1 C2 C3 C4 C5 C6 [C7 C8]].
    unfold emitSTUN. split; try done. cbn [set_stun stun eventBuffer]. split; [by apply offer_length|].
    intros e [He| ->]%elem_of_offer; [by apply C8|]. by exists p, from.
  - destruct (conn_decodePunchPacket p from c) as [[r ev]|] eqn:Ed; [|done]. cbn [fst].
    destruct (decode_routes _ _ _ _ _ _ Hc Ed) as (a & rest & _ & Ha & _ & Hid & Hf & Hd).
    unfold emitPunch. apply (set_objs_ok ps); [done|done| |].
    + intros x a'. destruct (decide (x = r)) as [->|Hne]; [rewrite list_lookup_alter_eq, Ha|rewrite list_lookup_alter_ne by done].
      * intros [= <-]. exists a. cbn [deliver a_id a_key a_events].
        do 3 (split; [done|]). split; [apply offer_length; by apply (co_events _ _ Hc r a Ha)|].
        intros e [He| ->]%elem_of_offer; [by left|right]. split; [done|]. by exists p, from.
      * intros Hx. exists a'. do 3 (split; [done|]). split; [by apply (co_events _ _ Hc x a' Hx)|]. by left.
    + intros x b Hb. destruct (decide (x = r)) as [->|Hne].
      * exists (deliver (eventBuffer c) ev b). by rewrite list_lookup_alter_eq, Hb.
      * exists b. by rewrite list_lookup_alter_ne.
Qed.

Lemma receive_ok ps c r : conn_ok ps c → conn_ok ps (receive r c).1.
Proof.
  intros Hc. unfold receive. destruct (objs c !! r) as [a|] eqn:Ea; [|done]. destruct (a_events a) as [|ev evs] eqn:Ee; [done|]. cbn [fst].
  destruct (co_events _ _ Hc r a Ea) as [Hl _]. rewrite Ee, len_cons in Hl.
  apply (set_objs_ok ps); [done|done| |].
  - intros x a' [(<- & <- & _)|[Hne Hx]]%list_lookup_insert_Some.
    + exists a. do 3 (split; [done|]). cbn [a_events]. split; [lia|]. intros e He. left. rewrite Ee. by right.
    + exists a'. do 3 (split; [done|]). split; [by apply (co_events _ _ Hc x a' Hx)|]. by left.
  - intros x b Hb. destruct (decide (x = r)) as [->|Hne].
    + exists (mkAttempt (a_id a) (a_key a) evs). rewrite list_lookup_insert_eq by (by eapply lookup_lt_Some).
      rewrite Ea in Hb. by injection Hb as <-.
    + exists b. by rewrite list_lookup_insert_ne.
Qed.

Lemma apply_op_ok ps c op : conn_ok ps c → conn_ok (ps ++ arrived [op]) (apply_op c op).
Proof.
  intros Hc. unfold arrived. cbn [mbind list_bind]. rewrite app_nil_r.
  destruct op as [id meta|id|p from|r| |p to|to key t pad d]; cbn [apply_op]; rewrite ?app_nil_r.
  - by apply AddPunchAttempt_ok.
  - by apply RemovePunchAttempt_ok.
  - by apply dispatch_ok.
  - by apply receive_ok.
  - unfold receiveSTUN. destruct (stun c) as [|ev evs] eqn:E; [done|]. destruct Hc as [C1 C2 C3 C4 C5 C6 [C7 C8]].
    rewrite E, len_cons in C7. split; try done. cbn [fst set_stun stun eventBuffer]. split; [lia|]. intros e He. apply C8. rewrite E. by right.
  - by destruct Hc.
  - by rewrite sendPunchPacket_conn.
Qed.

Lemma apply_ops_ok ps c ops : conn_ok ps c → conn_ok (ps ++ arrived ops) (apply_ops c ops).
Proof.
  revert ps c. induction ops as [|op ops IH]; intros ps c Hc; [by rewrite app_nil_r|].
  assert (arrived (op :: ops) = arrived [op] ++ arrived ops) as -> by (unfold arrived; cbn [mbind list_bind]; by rewrite app_nil_r).
  rewrite app_assoc. apply IH. by apply apply_op_ok.
Qed.

(** The attempt a packet is for: the first of those registered that share its
    nonce. *)
Definition for_attempt (c : PunchPacketConn) (p : bytes) (from : net_Addr) (r : nat) (a : punchAttempt) (ev : PunchPacketEvent) : Prop :=
  objs c !! r = Some a ∧ attempts c !! a_id a = Some r ∧
  (∀ r' a', attempts c !! a_id a' = Some r' → objs c !! r' = Some a' → nonce (a_key a') = nonce (a_key a) → (r <= r')%nat) ∧
  decodePunchPacket p (a_key a) = Ok (Packet ev) ∧ addrToAddrPort from = Some (From ev) ∧ AttemptID ev = a_id a.

Lemma decode_iff ps c p from r ev : conn_ok ps c →
  conn_decodePunchPacket p from c = Some (r, ev) ↔ ∃ a, for_attempt c p from r a ev.
Proof.
  intros Hc. split.
  - intros Hd. destruct (decode_routes _ _ _ _ _ _ Hc Hd) as (a & rest & Hb & Ha & Hat & Hid & Hf & Hp). exists a.
    split; [done|]. split; [done|]. split; [|done]. intros r' a' Hat' Ha' Hn.
    destruct (co_attempts _ _ Hc _ _ Hat') as (b & Hb' & _ & Hin). rewrite Ha' in Hb'. injection Hb' as <-.
    pose proof (co_sorted _ _ Hc (nonce (a_key a))) as Hs. rewrite Hn, Hb in Hin. rewrite Hb in Hs.
    apply StronglySorted_inv in Hs as [_ Hs]. rewrite list.Forall_forall in Hs.
    apply elem_of_cons in Hin as [->|Hin]; [done|]. specialize (Hs _ Hin). lia.
  - intros (a & Ha & Hat & Hfirst & Hp & Hf & Hid). unfold conn_decodePunchPacket.
    assert (hasAttempts c = true) as ->.
    { unfold hasAttempts. rewrite bool_decide_eq_false_2; [done|]. intros E. by rewrite E, lookup_empty in Hat. }
    cbn [negb]. unfold decodePunchPacket in Hp. rewrite (co_mask _ _ Hc _ _ Ha) in Hp.
    destruct (unmaskPunchHeader p (c_mask c)) as [|h]; [done|]. cbn [mbind result_bind] in Hp.
    case_bool_decide as En; [|done]. cbn [negb] in Hp. rewrite Hf. cbn [mbind option_bind].
    destruct (co_attempts _ _ Hc _ _ Hat) as (b & Hb & _ & Hin). rewrite Ha in Hb. injection Hb as <-.
    rewrite En. fold (bucket c (nonce (a_key a))). destruct (bucket c (nonce (a_key a))) as [|x rest] eqn:Eb; [by apply elem_of_nil in Hin|].
    assert (x = r) as ->.
    { destruct (co_bucket _ _ Hc (nonce (a_key a)) x) as (a' & Ha' & Hn' & Hat'); [rewrite Eb; left|].
      pose proof (Hfirst x a' Hat' Ha' Hn'). pose proof (co_sorted _ _ Hc (nonce (a_key a))) as Hs. rewrite Eb in Hs.
      apply StronglySorted_inv in Hs as [_ Hs]. rewrite list.Forall_forall in Hs.
      apply elem_of_cons in Hin as [->|Hin]; [done|]. specialize (Hs _ Hin). lia. }
    cbn [head mbind option_bind]. rewrite Ha. cbn [mbind option_bind]. f_equal. injection Hp as Hp. destruct ev. cbn in *. by subst.
Qed.

(** What no operation changes. *)
Lemma apply_op_fixed c op : c_mask (apply_op c op) = c_mask c ∧ eventBuffer (apply_op c op) = eventBuffer c.
Proof.
  destruct op as [id meta|id|p from|r| |p to|to key t pad d]; cbn [apply_op].
  - unfold AddPunchAttempt. by repeat case_match.
  - unfold RemovePunchAttempt. by repeat case_match.
  - unfold dispatch, emitPunch, emitSTUN, set_objs, set_stun. repeat case_match; done.
  - unfold receive. by repeat case_match.
  - unfold receiveSTUN. by repeat case_match.
  - done.
  - by rewrite sendPunchPacket_conn.
Qed.

Lemma encode_decode t key n rnd w : key_ok key → fills rnd → encodePunchPacket t key n rnd = Ok w →
  decodePunchPacket w key = Ok (mkPunchPacket t (len w - punchMinWireLen)).
Proof.
  intros Hk Hf E. assert (validPunchPacketType t = true) as Ht by (unfold encodePunchPacket in E; by destruct (validPunchPacketType t)).
  pose proof (encode_wire t key n rnd Ht Hk Hf) as He. destruct (rnd _) as [b|]; [|by rewrite E in He].
  destruct He as (salt & padding & He & Hs & Hp). rewrite E in He. injection He as ->. pose proof (clamp_bounds n).
  unfold decodePunchPacket. rewrite unmask_wire by (done || lia). cbn [mbind result_bind h_nonce packetType]. by rewrite bool_decide_eq_true_2.
Qed.

(** Whatever has happened to a connection, its two indexes agree, each
    channel holds no more than it may and only packets that arrived and decode
    under the attempt's own key; a datagram that is no STUN answer goes to the
    first attempt registered of those it decodes for, and to the reader, with
    nothing changed, when there is none. *)
Theorem demux_routes m size c0 ops : NewPunchPacketConn m size = Ok c0 →
  let c := apply_ops c0 ops in
  conn_ok (arrived ops) c ∧
  ∀ p from, decodeSTUNPacket p = None →
    (∀ r a ev, for_attempt c p from r a ev → dispatch p from c = (emitPunch r ev c, true)) ∧
    ((∀ r a ev, ¬ for_attempt c p from r a ev) → dispatch p from c = (c, false)).
Proof.
  intros Hn. destruct (NewPunchPacketConn_ok _ _ _ Hn) as (Hnew & _ & _). pose proof (apply_ops_ok [] c0 ops Hnew) as Hc. cbn zeta.
  split; [done|]. intros p from Hs. unfold dispatch. rewrite Hs. split.
  - intros r a ev Hf. by rewrite (proj2 (decode_iff _ _ p from r ev Hc) (ex_intro _ a Hf)).
  - intros Hno. destruct (conn_decodePunchPacket p from (apply_ops c0 ops)) as [[r ev]|] eqn:E; [|done].
    apply (decode_iff _ _ _ _ _ _ Hc) in E as [a Hf]. by destruct (Hno r a ev).
Qed.

(** The length of what [sendPunchPacket] puts on the wire. *)
Lemma sendPunchPacket_length demux to key t pad d c out : key_ok key → fills (d_packet d) →
  sendPunchPacket demux to key t pad d = (c, Some out) →
  c = demux ∧ d_to out = udpAddrFromAddrPort to ∧ ∃ n, punchWireLen demux pad d = Ok n ∧ encodePunchPacket t key n (d_packet d) = Ok (d_data out) ∧
    len (d_data out) = clampPunchWireLen n.
Proof.
  intros Hk Hf. unfold sendPunchPacket. destruct (punchWireLen demux pad d) as [|n]; [done|]. cbn [mbind result_bind].
  destruct (encodePunchPacket t key n (d_packet d)) as [|w] eqn:E; [done|]. intros Hs.
  assert (c = demux ∧ out = mkDatagram w (udpAddrFromAddrPort to)) as [-> ->]
    by (destruct demux; unfold writePunch in Hs; by injection Hs as <- <-).
  split; [done|]. split; [done|]. exists n. cbn [d_data]. split; [done|]. split; [done|].
  assert (validPunchPacketType t = true) as Ht by (unfold encodePunchPacket in E; by destruct (validPunchPacketType t)).
  pose proof (encode_wire t key n (d_packet d) Ht Hk Hf) as He. destruct (d_packet d _) as [b|].
  - destruct He as (salt & padding & He & Hsalt & Hpad). rewrite E in He. injection He as ->.
    pose proof (len_punch_wire t key salt padding Hk Hsalt). lia.
  - by rewrite E in He.
Qed.

(** A punch packet has the length of one of the sixteen data datagrams
    sent last that it can imitate; before there is one, the length the
    configuration names, or one of the fallback band; and no punch packet ever
    counts as a sample. *)
Theorem punch_lengths_imitate m size c0 ops to key t pad d c' out :
  NewPunchPacketConn m size = Ok c0 → len ops < 2 ^ 64 → key_ok key → fills (d_packet d) →
  sendPunchPacket (Some (apply_ops c0 ops)) to key t pad d = (c', Some out) →
  c' = Some (apply_ops c0 ops) ∧ punchMinWireLen <= len (d_data out) <= punchMaxWireLen ∧
  ((∃ k, written ops !! k = Some (len (d_data out)) ∧ len (written ops) - wireLenSamples <= Z.of_nat k) ∨
   (written ops = [] ∨ d_slot d = None) ∧
   (validPunchWireLen pad = true ∧ len (d_data out) = pad ∨
    punchFallbackMinLen <= len (d_data out) <= punchFallbackMaxLen)).
Proof.
  intros Hn Hops Hk Hf Hs. destruct (sendPunchPacket_length _ _ _ _ _ _ _ _ Hk Hf Hs) as (-> & _ & n & Hw & _ & Hl). split; [done|].
  pose proof (clamp_bounds n). split; [lia|].
  assert (sampler_ok [] (lengths c0)) as Hnew.
  { unfold NewPunchPacketConn in Hn. destruct (valid m); [|done]. injection Hn as <-. apply newSampler_ok. }
  pose proof (apply_ops_sampler c0 [] ops Hnew) as Hsam. specialize (Hsam ltac:(change (len (@nil Z)) with 0; lia)). cbn [app] in Hsam.
  unfold punchWireLen, sampleWireLen in Hw. destruct (sample (lengths (apply_ops c0 ops)) (d_slot d)) as [v|] eqn:Es.
  - injection Hw as ->. left. destruct (sample_recent _ _ _ _ Hsam Es) as (k & Hk1 & Hk2). exists k. split; [|done].
    rewrite Hl. rewrite clamp_valid; [done|]. by eapply written_valid, list_elem_of_lookup_2.
  - right. split.
    + destruct (d_slot d) as [b|]; [left|by right]. destruct (decide (written ops = [])) as [|Hne]; [done|]. exfalso.
      destruct (sample_some _ _ b Hsam (written_valid ops) Hne) as [v Hv]. congruence.
    + destruct (validPunchWireLen pad) eqn:Ev.
      * injection Hw as <-. left. split; [done|]. by rewrite Hl, clamp_valid.
      * right. unfold fallbackPunchWireLen in Hw. apply result_bind_inv in Hw as (i & Hi & [= <-]).
        assert (0 <= i <= punchFallbackMaxLen - punchFallbackMinLen).
        { unfold randomUint in Hi. destruct (_ <=? 1); [injection Hi as <-; unfold punchFallbackMaxLen, punchFallbackMinLen; lia|].
          destruct (d_len d) as [b|]; [|done]. injection Hi as <-. unfold punchFallbackMaxLen, punchFallbackMinLen.
          change (u32 (1473 - 1280 + 1)) with 194. pose proof (Z.mod_pos_bound (u32 (be_Z b)) 194). lia. }
        rewrite Hl, clamp_valid; [lia|]. unfold validPunchWireLen, punchFallbackMaxLen, punchFallbackMinLen in *.
        apply andb_true_iff. rewrite !Z.leb_le. unfold punchMinWireLen, punchSaltLen, punchHeaderLen, PunchNonceSize, punchMaxWireLen. lia.
Qed.

(** A packet sent by the other end of an attempt, whatever socket it
    leaves from, is what the attempt receives next: registered with the same
    metadata under the same mask, with no attempt of that nonce before it, it
    gets the packet from its own channel, with its sender and type. *)
Theorem punch_packet_arrives m size c0 ops id meta c1 r key demux to t pad d c' out from :
  NewPunchPacketConn m size = Ok c0 →
  AddPunchAttempt id meta (apply_ops c0 ops) = (c1, Ok r) →
  (∀ id' r' a', attempts (apply_ops c0 ops) !! id' = Some r' → objs (apply_ops c0 ops) !! r' = Some a' → nonce (a_key a') ≠ nonce key) →
  newPunchKey meta m = Ok key → fills (d_packet d) →
  sendPunchPacket demux to key t pad d = (c', Some out) → decodeSTUNPacket (d_data out) = None →
  addrToAddrPort (udpAddrFromAddrPort from) = Some from →
  let '(c2, taken) := dispatch (d_data out) (udpAddrFromAddrPort from) c1 in
  taken = true ∧ (receive r c2).2 = Some (mkPunchEvent id from (mkPunchPacket t (len (d_data out) - punchMinWireLen))).
Proof.
  intros Hn Hadd Hfresh Hkey Hf Hs Hstun Haddr.
  destruct (NewPunchPacketConn_ok _ _ _ Hn) as (Hnew & Hm & Hsize).
  pose proof (apply_ops_ok [] c0 ops Hnew) as Hc. set (c := apply_ops c0 ops) in *. cbn [app] in Hc.
  assert (c_mask c = m ∧ eventBuffer c = eventBuffer c0) as [Hcm Hcb].
  { rewrite <-Hm. subst c. clear. revert c0. induction ops as [|op ops IH]; intros c0; [done|]. change (apply_ops c0 (op :: ops)) with (apply_ops (apply_op c0 op) ops).
    destruct (IH (apply_op c0 op)) as [-> ->].
    apply apply_op_fixed. }
  pose proof (AddPunchAttempt_ok _ _ id meta Hc) as Hc1. rewrite Hadd in Hc1. cbn [fst] in Hc1.
  unfold AddPunchAttempt in Hadd. rewrite Hcm, Hkey in Hadd. case_bool_decide; [done|]. destruct (attempts c !! id) eqn:Eid; [done|].
  injection Hadd as <- <-. set (r := length (objs c)) in *. set (new := mkAttempt id key []) in *.
  match goal with |- context [dispatch _ _ ?x] => set (c1 := x) in * end.
  destruct (newPunchKey_ok _ _ _ Hkey) as [Hk Hmask].
  destruct (sendPunchPacket_length _ _ _ _ _ _ _ _ Hk Hf Hs) as (_ & _ & n & _ & He & Hl).
  assert (decodePunchPacket (d_data out) key = Ok (mkPunchPacket t (len (d_data out) - punchMinWireLen))) as Hdec by (eapply encode_decode; eauto).
  assert (objs c1 !! r = Some new) as Hr by (subst c1; cbn; by apply list_lookup_middle).
  assert (dispatch (d_data out) (udpAddrFromAddrPort from) c1 =
    (emitPunch r (mkPunchEvent id from (mkPunchPacket t (len (d_data out) - punchMinWireLen))) c1, true)) as ->.
  { unfold dispatch. rewrite Hstun. erewrite (proj2 (decode_iff _ _ _ _ _ _ Hc1)); [reflexivity|]. exists new.
    split; [done|]. split; [subst c1; cbn; apply lookup_insert_eq|]. split; [|split; [done|done]].
    intros r' a' Hat Ha' Hn'. cbn [c1 set_index set_objs attempts objs] in Hat, Ha'. apply lookup_insert_Some in Hat as [[_ <-]|[_ Hat]]; [done|].
    destruct (co_attempts _ _ Hc _ _ Hat) as (b & Hb & _ & _). exfalso. eapply (Hfresh _ _ b Hat Hb).
    rewrite (lookup_app_l_Some _ _ _ _ Hb) in Ha'. injection Ha' as <-. exact Hn'. }
  split; [done|]. unfold receive, emitPunch. cbn [set_objs objs]. rewrite list_lookup_alter_eq, Hr. cbn [fmap option_fmap option_map deliver a_events new].
  unfold offer. change (len (@nil PunchPacketEvent)) with 0. assert (eventBuffer c1 = eventBuffer c0) as -> by exact Hcb.
  by rewrite (proj2 (Z.ltb_lt 0 (eventBuffer c0)) Hsize).
Qed.
End Conn.

(** ** Examples *)
#[local] Existing Instance toy.
#[local] Existing Instance toy_stun.

Definition sample_draws : draws := mkDraws (Some [Byte.x00; Byte.x00; Byte.x00; Byte.x05]) (Some [Byte.x00; Byte.x00; Byte.x00; Byte.x05]) zero_random.
Definition sample_key : punchKey := match newPunchKey sample_meta sample_mask with Ok k => k | Err _ => mkPunchKey [] [] end.
Definition sample_from : AddrPort := AddrPortFrom sample_host 40001.
Definition sample_conn : PunchPacketConn := match NewPunchPacketConn sample_mask 0 with Ok c => c | Err _ => mkConn 0 [] newSampler [] ∅ ∅ [] end.
Definition sample_ops : list conn_op :=
  [OpAdd "a" sample_meta; OpWriteTo (replicate 1252 Byte.x00) OtherAddr; OpRemove "a"].
Definition sample_registered : PunchPacketConn := (AddPunchAttempt "b" sample_meta (apply_ops sample_conn sample_ops)).1.
Definition sample_datagram : datagram :=
  default (mkDatagram [] OtherAddr) (sendPunchPacket None sample_from sample_key PunchPacketAck 1300 sample_draws).2.

Lemma punch_packet_arrives_witness :
  let '(c2, taken) := dispatch (d_data sample_datagram) (udpAddrFromAddrPort sample_from) sample_registered in
  taken = true ∧ (receive 1 c2).2 = Some (mkPunchEvent "b" sample_from (mkPunchPacket PunchPacketAck (len (d_data sample_datagram) - punchMinWireLen))).
Proof.
  apply (punch_packet_arrives sample_mask 0 sample_conn sample_ops "b" sample_meta sample_registered 1 sample_key None sample_from
           PunchPacketAck 1300 sample_draws None sample_datagram sample_from).
  - vm_compute. reflexivity.
  - vm_compute. reflexivity.
  - intros id' r' a' Hat. exfalso. assert (attempts (apply_ops sample_conn sample_ops) = ∅) as E by (vm_compute; reflexivity).
    rewrite E, lookup_empty in Hat. discriminate.
  - vm_compute. reflexivity.
  - exact zero_random_fills.
  - vm_compute. reflexivity.
  - vm_compute. reflexivity.
  - vm_compute. reflexivity.
Defined.

Lemma punch_lengths_imitate_witness :
  len (d_data (default (mkDatagram [] OtherAddr) (sendPunchPacket (Some (apply_ops sample_conn sample_ops)) sample_from sample_key
    PunchPacketHello 1300 sample_draws).2)) = 1252 ∧
  written sample_ops = [1252] ∧
  (∃ k, written sample_ops !! k = Some 1252 ∧ len (written sample_ops) - wireLenSamples <= Z.of_nat k).
Proof.
  set (out := default (mkDatagram [] OtherAddr) _). assert (len (d_data out) = 1252) as El by (vm_compute; reflexivity).
  assert (written sample_ops = [1252]) as Ew by (vm_compute; reflexivity). split; [exact El|]. split; [exact Ew|].
  assert (key_ok sample_key) as Hk by (split; vm_compute; reflexivity).
  destruct (punch_lengths_imitate sample_mask 0 sample_conn sample_ops sample_from sample_key PunchPacketHello 1300 sample_draws
    (Some (apply_ops sample_conn sample_ops)) out ltac:(vm_compute; reflexivity) ltac:(vm_compute; reflexivity) Hk
    zero_random_fills ltac:(vm_compute; reflexivity)) as (_ & _ & [(k & H1 & H2)|([H1|H1] & _)]).
  - exists k. rewrite <-El. split; [exact H1 | exact H2].
  - rewrite Ew in H1. discriminate.
  - discriminate.
Defined.

Lemma demux_routes_witness : ∃ c, NewPunchPacketConn sample_mask 0 = Ok c ∧ conn_ok (arrived sample_ops) (apply_ops c sample_ops).
Proof.
  exists sample_conn. split; [vm_compute; reflexivity|].
  exact (proj1 (demux_routes sample_mask 0 sample_conn sample_ops ltac:(vm_compute; reflexivity))).
Defined.
