(* ===== verification/Pump.v ===== *)
(** * The pump of the punch demultiplexer (extras/realm/punch_conn.go)

    Before anybody reads the socket a goroutine does, and queues the data
    packets for the reader to come.  The pump, one reader and [StartPump] or
    [StopPump] (one at a time, under the mutex) run concurrently: each of
    their accesses to the queue, to [queued], to [pump] and to the channels of
    the pump's state is one move. *)
From S2P Require Import GoStd Prelude PunchConn.

Section Pump.
Context {packet : Type}.

(** Where [ReadFrom] is: outside; at the head of its loop; taking from the
    queue; about to store false; looking at the pump; waiting on the queue and
    on the end of pump number [g]; reading the socket. *)
Inductive reader := RIdle | RHead | RPop | RClear | RLook | RWait (g : nat) | RRead.

(** Where [runPump] is: not running; at the stop check; reading; queueing a
    packet; about to set [queued]; finished. *)
Inductive pumper := POff | PCheck | PRead | PPush (x : packet) | PMark | PDone.

(** Where [StopPump] is: not running; waiting for the pump; about to clear
    [pump]; about to measure the queue; about to store what it saw. *)
Inductive stopper := SIdle | SWait | SUnset | SLen | SStore (b : bool).

Record sys := mkSys {
  queue : list packet; queued : bool;
  pump_set : bool; stop : bool; gen : nat;
  pump_at : pumper; reader_at : reader; stopper_at : stopper;
  (* what has been put in the queue, taken from it, and read off the socket *)
  pushed : list packet; taken : list packet; direct : list packet }.

Definition initial : sys := mkSys [] false false false 0 POff RIdle SIdle [] [] [].

Definition at_reader (r : reader) (s : sys) : sys :=
  mkSys (queue s) (queued s) (pump_set s) (stop s) (gen s) (pump_at s) r (stopper_at s) (pushed s) (taken s) (direct s).
Definition at_pump (p : pumper) (s : sys) : sys :=
  mkSys (queue s) (queued s) (pump_set s) (stop s) (gen s) p (reader_at s) (stopper_at s) (pushed s) (taken s) (direct s).
Definition at_stopper (t : stopper) (s : sys) : sys :=
  mkSys (queue s) (queued s) (pump_set s) (stop s) (gen s) (pump_at s) (reader_at s) t (pushed s) (taken s) (direct s).
Definition set_queued (b : bool) (s : sys) : sys :=
  mkSys (queue s) b (pump_set s) (stop s) (gen s) (pump_at s) (reader_at s) (stopper_at s) (pushed s) (taken s) (direct s).
Definition set_pump (set stop : bool) (g : nat) (s : sys) : sys :=
  mkSys (queue s) (queued s) set stop g (pump_at s) (reader_at s) (stopper_at s) (pushed s) (taken s) (direct s).
Definition push (x : packet) (s : sys) : sys :=
  mkSys (queue s ++ [x]) (queued s) (pump_set s) (stop s) (gen s) (pump_at s) (reader_at s) (stopper_at s) (pushed s ++ [x]) (taken s) (direct s).
Definition take_from_queue (s : sys) : option sys :=
  match queue s with
  | [] => None
  | x :: q => Some (mkSys q (queued s) (pump_set s) (stop s) (gen s) (pump_at s) RIdle (stopper_at s) (pushed s) (taken s ++ [x]) (direct s))
  end.
Definition read_direct (x : packet) (s : sys) : sys :=
  mkSys (queue s) (queued s) (pump_set s) (stop s) (gen s) (pump_at s) RIdle (stopper_at s) (pushed s) (taken s) (direct s ++ [x]).

(** Pump number [g] has closed [done]. *)
Definition isClosed (g : nat) (s : sys) : bool :=
  bool_decide (g < gen s)%nat || match pump_at s with PDone | POff => true | _ => false end.

Inductive move :=
| ReadFrom | LoadQueued | PopQueued | StoreFalse | LookPump | TakeWaiting | WakeDone
| SocketData (x : packet) | SocketConsumed | SocketError
| CheckStop | PumpData (x : packet) | PumpConsumed | PumpError | Enqueue | MarkQueued
| StartPump | StopPump | WaitDone | UnsetPump | MeasureQueue | StoreQueued.

Definition do_move (m : move) (s : sys) : option sys :=
  match m with
  (* ReadFrom *)
  | ReadFrom => match reader_at s with RIdle => Some (at_reader RHead s) | _ => None end
  | LoadQueued => match reader_at s with RHead => Some (at_reader (if queued s then RPop else RLook) s) | _ => None end
  | PopQueued => match reader_at s with RPop => match take_from_queue s with Some s' => Some s' | None => Some (at_reader RClear s) end | _ => None end
  | StoreFalse => match reader_at s with RClear => Some (at_reader RLook (set_queued false s)) | _ => None end
  | LookPump => match reader_at s with RLook => Some (at_reader (if pump_set s && negb (isClosed (gen s) s) then RWait (gen s) else RRead) s) | _ => None end
  | TakeWaiting => match reader_at s with RWait _ => take_from_queue s | _ => None end
  | WakeDone => match reader_at s with RWait g => if isClosed g s then Some (at_reader RHead s) else None | _ => None end
  | SocketData x => match reader_at s with RRead => Some (read_direct x s) | _ => None end
  | SocketConsumed => match reader_at s with RRead => Some (at_reader RHead s) | _ => None end
  | SocketError => match reader_at s with RRead => Some (at_reader RIdle s) | _ => None end
  (* runPump *)
  | CheckStop => match pump_at s with PCheck => Some (at_pump (if stop s then PDone else PRead) s) | _ => None end
  | PumpData x => match pump_at s with PRead => Some (at_pump (PPush x) s) | _ => None end
  | PumpConsumed => match pump_at s with PRead => Some (at_pump PCheck s) | _ => None end
  | PumpError => match pump_at s with PRead => Some (at_pump PDone s) | _ => None end
  | Enqueue => match pump_at s with PPush x => if len (queue s) <? pumpQueueSize then Some (at_pump PMark (push x s)) else Some (at_pump PCheck s) | _ => None end
  | MarkQueued => match pump_at s with PMark => Some (at_pump PCheck (set_queued true s)) | _ => None end
  (* StartPump and StopPump *)
  | StartPump => match stopper_at s with SIdle => if pump_set s then Some s else Some (at_pump PCheck (set_pump true false (S (gen s)) s)) | _ => None end
  | StopPump => match stopper_at s with SIdle => if pump_set s then Some (at_stopper SWait (set_pump true true (gen s) s)) else Some s | _ => None end
  | WaitDone => match pump_at s with PDone => match stopper_at s with SWait => Some (at_stopper SUnset s) | _ => None end | _ => None end
  | UnsetPump => match stopper_at s with SUnset => Some (at_stopper SLen (set_pump false (stop s) (gen s) s)) | _ => None end
  | MeasureQueue => match stopper_at s with SLen => Some (at_stopper (SStore (0 <? len (queue s))) s) | _ => None end
  | StoreQueued => match stopper_at s with SStore b => Some (at_stopper SIdle (set_queued b s)) | _ => None end
  end.

Definition moves (ms : list move) (s : sys) : option sys := foldl (λ s m, s ← s; do_move m s) (Some s) ms.

Inductive reachable : sys → Prop :=
| reach_initial : reachable initial
| reach_move s m s' : reachable s → do_move m s = Some s' → reachable s'.

(** The same, while no [ReadFrom] is about to store false when [StopPump]
    stores what it saw. *)
Inductive reachable_calm : sys → Prop :=
| calm_initial : reachable_calm initial
| calm_move s m s' : reachable_calm s → do_move m s = Some s' →
    (m = StoreQueued → reader_at s ≠ RClear) → reachable_calm s'.

(** ** In all interleavings: no packet of the queue is lost, doubled or moved *)
Ltac places :=
  repeat match goal with
  | E : reader_at ?s = _ |- _ => progress rewrite ?E in *
  | E : pump_at ?s = _ |- _ => progress rewrite ?E in *
  | E : stopper_at ?s = _ |- _ => progress rewrite ?E in *
  | E : pump_set ?s = _ |- _ => progress rewrite ?E in *
  end.
Ltac moving H :=
  unfold do_move in H; repeat (case_match; try discriminate H); try discriminate H;
  repeat match goal with E : Some _ = Some _ |- _ => injection E as <- end;
  places.

Record fifo (s : sys) : Prop := {
  ff_order : pushed s = taken s ++ queue s;
  ff_bound : len (queue s) <= pumpQueueSize }.

Lemma take_from_queue_fifo s s' : fifo s → take_from_queue s = Some s' → fifo s'.
Proof.
  intros [Ho Hb]. unfold take_from_queue. destruct (queue s) as [|x q] eqn:E; [done|]. intros [= <-].
  rewrite len_cons in Hb. split; cbn; [|lia]. rewrite Ho, <-app_assoc. done.
Qed.

Lemma fifo_move s m s' : fifo s → do_move m s = Some s' → fifo s'.
Proof.
  intros Hf Hm. destruct m; moving Hm; try (by eapply take_from_queue_fifo); destruct Hf as [Ho Hb]; split; cbn; try done.
  - rewrite Ho. by rewrite app_assoc.
  - rewrite len_app. change (len [x]) with 1. match goal with E : (_ <? _) = true |- _ => apply Z.ltb_lt in E end. lia.
Qed.

(** ** The handover *)

(** What each part knows of the others. *)
Record sane (s : sys) : Prop := {
  sn_pump : pump_set s = false → pump_at s = PDone ∨ pump_at s = POff;
  sn_stopper : match stopper_at s with
    | SIdle => True
    | SWait => pump_set s = true
    | SUnset => pump_set s = true ∧ pump_at s = PDone
    | SLen => pump_set s = false
    | SStore b => pump_set s = false ∧ (b = false → queue s = [])
    end }.

Lemma sane_move s m s' : sane s → do_move m s = Some s' → sane s'.
Proof.
  intros [Hp Hs] Hm.
  destruct m; moving Hm; unfold take_from_queue in *; repeat case_match; simplify_eq; split; cbn in *; places; try done;
    try (intros; intuition congruence).
  - split; [done|]. intros Hb%Z.ltb_ge. pose proof (len_nonneg (queue s)). destruct (queue s) as [|y q]; [done|].
    rewrite len_cons in Hb. pose proof (len_nonneg q). lia.
Qed.

Definition calm (s : sys) : Prop :=
  pump_set s = false → stopper_at s = SIdle → queue s = [] ∨ queued s = true ∧ reader_at s ≠ RClear.

Lemma calm_move_ok s m s' : sane s → calm s → do_move m s = Some s' → (m = StoreQueued → reader_at s ≠ RClear) → calm s'.
Proof.
  unfold calm. intros [Hp Hs] Hc Hm Hg.
  destruct m; moving Hm; unfold take_from_queue in *; repeat case_match; simplify_eq; cbn in *; intros; try done;
    try (intuition congruence).
  - destruct Hs as [_ Hs]. destruct b; [right|left; by apply Hs]. split; [done|by apply Hg].
Qed.

Lemma reachable_fifo s : reachable s → fifo s.
Proof. induction 1 as [|s m s' _ IH Hm]; [by split|by eapply fifo_move]. Qed.

Lemma reachable_calm_ok s : reachable_calm s → sane s ∧ calm s.
Proof.
  induction 1 as [|s m s' _ [H1 H2] Hm Hg].
  - split; [split; [by right|done]|]. intros _ _. by left.
  - split; [by eapply sane_move|by eapply calm_move_ok].
Qed.

(** However pump, reader and [StopPump] interleave, the reader takes the
    queued packets once each and in order, and no more than 32 wait; and once
    [StopPump] has returned, a [ReadFrom] that starts with packets waiting
    gets the oldest of them before it touches the socket, unless a [ReadFrom]
    was about to lower the flag when [StopPump] raised it. *)
Theorem pump_hands_over s :
  (reachable s → pushed s = taken s ++ queue s ∧ len (queue s) <= pumpQueueSize) ∧
  (reachable_calm s → pump_set s = false → stopper_at s = SIdle → reader_at s = RIdle →
   ∀ x q, queue s = x :: q →
     ∃ s', moves [ReadFrom; LoadQueued; PopQueued] s = Some s' ∧ taken s' = taken s ++ [x] ∧ queue s' = q ∧
       direct s' = direct s ∧ reader_at s' = RIdle).
Proof.
  split; [intros Hr; by destruct (reachable_fifo s Hr)|]. intros Hr Hp Hs Hi x q Hq.
  destruct (reachable_calm_ok s Hr) as [_ Hc]. destruct (Hc Hp Hs) as [E|[E _]]; [by rewrite Hq in E|].
  unfold moves. cbn [foldl mbind option_bind do_move]. rewrite Hi. cbn [mbind option_bind do_move at_reader reader_at queued].
  rewrite E. cbn [mbind option_bind do_move at_reader reader_at]. unfold take_from_queue. cbn [at_reader queue]. rewrite Hq.
  eexists. split; [done|]. done.
Qed.

(** What the exception costs: a packet left in the queue with the flag down,
    for readers that go to the socket from then on. *)
Definition stranding (x : packet) : list move :=
  [StartPump; CheckStop; PumpData x; Enqueue; MarkQueued; ReadFrom; LoadQueued; PopQueued;
   ReadFrom; LoadQueued; PopQueued;                              (* empty: about to store false *)
   CheckStop; PumpData x; Enqueue; MarkQueued;
   StopPump; CheckStop; WaitDone; UnsetPump; MeasureQueue; StoreQueued;
   StoreFalse; LookPump; SocketData x].

Lemma moves_reachable ms s s' : reachable s → moves ms s = Some s' → reachable s'.
Proof.
  unfold moves. revert s. induction ms as [|m ms IH]; intros s Hs; [by intros [= <-]|]. cbn [foldl mbind option_bind].
  destruct (do_move m s) as [t|] eqn:E.
  - apply IH. by eapply reach_move.
  - intros Hn. exfalso. clear -Hn. induction ms as [|m' ms IH]; [done|by apply IH].
Qed.

Lemma late_reader_strands (x : packet) : ∃ s, reachable s ∧ pump_set s = false ∧ stopper_at s = SIdle ∧ reader_at s = RIdle ∧
  queue s = [x] ∧ queued s = false.
Proof.
  assert (∃ s, moves (stranding x) initial = Some s ∧ pump_set s = false ∧ stopper_at s = SIdle ∧ reader_at s = RIdle ∧
    queue s = [x] ∧ queued s = false) as (s & Hm & Hs) by (eexists; split; [vm_compute; reflexivity|done]).
  exists s. split; [|done]. eapply moves_reachable; [constructor|exact Hm].
Qed.
Fixpoint calm_trace (ms : list move) (s : sys) : bool :=
  match ms with
  | [] => true
  | m :: ms =>
      match m, reader_at s with StoreQueued, RClear => false | _, _ => true end &&
      match do_move m s with Some s => calm_trace ms s | None => false end
  end.

Lemma calm_trace_reachable ms s s' : reachable_calm s → calm_trace ms s = true → moves ms s = Some s' → reachable_calm s'.
Proof.
  unfold moves. revert s. induction ms as [|m ms IH]; intros s Hs; [by intros _ [= <-]|]. cbn [calm_trace foldl mbind option_bind].
  intros [Hm Hms]%andb_true_iff. destruct (do_move m s) as [t|] eqn:E; [|done]. apply IH; [|done].
  eapply calm_move; [done|exact E|]. intros -> Hr. by rewrite Hr in Hm.
Qed.
End Pump.

(** ** Example: a packet queued, the pump stopped *)
Definition sample_trace : list (@move nat) :=
  [StartPump; CheckStop; PumpData 7%nat; Enqueue; MarkQueued; StopPump; CheckStop; WaitDone; UnsetPump; MeasureQueue; StoreQueued].

Lemma pump_hands_over_witness : ∃ s s', moves sample_trace initial = Some s ∧ moves [ReadFrom; LoadQueued; PopQueued] s = Some s' ∧
  taken s' = [7%nat].
Proof.
  assert (∃ s, moves sample_trace initial = Some s ∧ pump_set s = false ∧ stopper_at s = SIdle ∧ reader_at s = RIdle ∧
    queue s = [7%nat] ∧ taken s = []) as (s & Hm & Hp & Hs & Hr & Hq & Ht) by (eexists; split; [vm_compute; reflexivity|done]).
  assert (reachable_calm s) as Hc.
  { apply (calm_trace_reachable sample_trace initial s); [constructor|vm_compute; reflexivity|exact Hm]. }
  destruct (proj2 (pump_hands_over s) Hc Hp Hs Hr 7%nat [] Hq) as (s' & E & Et & _). exists s, s'.
  split; [exact Hm|]. split; [exact E|]. rewrite Et, Ht. reflexivity.
Defined.
