(* ===== verification/Url.v ===== *)
(** * URLs (app/internal/url/url.go)

    The program's copy of Go's net/url, which lets the port be a union of
    ranges: escaping in each part of a URL, parsing, printing and query values.
    Resolution of references and path joining are not modelled. *)
From S2P Require Import GoStd Prelude Netip Net Utf8.
Import Strings.

(** ** Escaping *)
Inductive encoding :=
| encodePath | encodePathSegment | encodeHost | encodeZone | encodeUserPassword | encodeQueryComponent | encodeFragment.

#[export] Instance encoding_eq_dec : EqDecision encoding.
Proof. solve_decision. Defined.

Inductive url_error : Type :=
| EscapeError (s : string) | InvalidHostError (s : string)
| errMissingScheme | errControlCharacter | errEmptyURL | errInvalidURI | errFirstSegmentColon
| errMissingBracket | errInvalidPort (p : string) | errInvalidUserinfo | errSemicolon.

Definition upperhex : string := "0123456789ABCDEF".

Definition is_lower (c : ascii) : bool := (97 <=? code c) && (code c <=? 122).
Definition is_upper (c : ascii) : bool := (65 <=? code c) && (code c <=? 90).

Definition ishex (c : ascii) : bool :=
  is_digit c || ((97 <=? code c) && (code c <=? 102)) || ((65 <=? code c) && (code c <=? 70)).

Definition unhex (c : ascii) : Z :=
  if is_digit c then code c - 48
  else if (97 <=? code c) && (code c <=? 102) then code c - 97 + 10
  else if (65 <=? code c) && (code c <=? 70) then code c - 65 + 10
  else 0.

Definition is_in (s : string) (c : ascii) : bool := bool_decide (c ∈ list_ascii_of_string s).

Definition char (z : Z) : ascii := ascii_of_N (Z.to_N z).

(** A double quote. *)
Definition quote : ascii := char 34.

Definition shouldEscape (c : ascii) (mode : encoding) : bool :=
  if is_lower c || is_upper c || is_digit c then false else
  if (bool_decide (mode = encodeHost) || bool_decide (mode = encodeZone)) &&
     (is_in "!$&'()*+,;=:[]<>" c || bool_decide (c = quote)) then false else
  if is_in "-_.~" c then false else
  if is_in "$&+,/:;=?@" c then
    match mode with
    | encodePath => bool_decide (c = "?"%char)
    | encodePathSegment => is_in "/;,?" c
    | encodeUserPassword => is_in "@/?:" c
    | encodeQueryComponent => true
    | encodeFragment => false
    | encodeHost | encodeZone => true
    end
  else if bool_decide (mode = encodeFragment) && is_in "!()*" c then false
  else true.

(** The byte of [%ab]. *)
Definition hex_pair (a b : ascii) : ascii := char (u8 (Z.lor (u8 (Z.shiftl (unhex a) 4)) (unhex b))).

(** The first loop of [unescape]: the number of escapes and whether there is
    a plus that stands for a space. *)
Fixpoint check_escapes (mode : encoding) (s : string) (n : Z) (hasPlus : bool) : result url_error (Z * bool) :=
  match s with
  | EmptyString => Ok (n, hasPlus)
  | String c rest =>
      if bool_decide (c = "%"%char) then
        match rest with
        | String a (String b rest') =>
            if negb (ishex a) || negb (ishex b) then Err (EscapeError (first 3 s)) else
            let pct25 := bool_decide (a = "2"%char) && bool_decide (b = "5"%char) in
            if bool_decide (mode = encodeHost) && (unhex a <? 8) && negb pct25 then Err (EscapeError (first 3 s)) else
            let v := hex_pair a b in
            if bool_decide (mode = encodeZone) && negb pct25 && negb (bool_decide (v = " "%char)) && shouldEscape v encodeHost
            then Err (EscapeError (first 3 s))
            else check_escapes mode rest' (n + 1) hasPlus
        | _ => Err (EscapeError (first 3 s))
        end
      else if bool_decide (c = "+"%char) then check_escapes mode rest n (bool_decide (mode = encodeQueryComponent))
      else if (bool_decide (mode = encodeHost) || bool_decide (mode = encodeZone)) && (code c <? 128) && shouldEscape c mode
      then Err (InvalidHostError (String c EmptyString))
      else check_escapes mode rest n hasPlus
  end.

(** The second loop. *)
Fixpoint decode_escapes (mode : encoding) (s : string) : string :=
  match s with
  | EmptyString => EmptyString
  | String c rest =>
      if bool_decide (c = "%"%char) then
        match rest with String a (String b rest') => String (hex_pair a b) (decode_escapes mode rest') | _ => EmptyString end
      else if bool_decide (c = "+"%char)
      then String (if bool_decide (mode = encodeQueryComponent) then " "%char else "+"%char) (decode_escapes mode rest)
      else String c (decode_escapes mode rest)
  end.

Definition unescape (s : string) (mode : encoding) : result url_error string :=
  '(n, hasPlus) ← check_escapes mode s 0 false;
  if (n =? 0) && negb hasPlus then Ok s else Ok (decode_escapes mode s).

Definition QueryUnescape (s : string) : result url_error string := unescape s encodeQueryComponent.
Definition PathUnescape (s : string) : result url_error string := unescape s encodePathSegment.

(** How many characters [escape] turns into a plus and into [%ab]. *)
Fixpoint count_escapes (mode : encoding) (s : string) : Z * Z :=
  match s with
  | EmptyString => (0, 0)
  | String c s =>
      let '(spaceCount, hexCount) := count_escapes mode s in
      if shouldEscape c mode
      then if bool_decide (c = " "%char) && bool_decide (mode = encodeQueryComponent) then (spaceCount + 1, hexCount) else (spaceCount, hexCount + 1)
      else (spaceCount, hexCount)
  end.

Definition nibble (z : Z) : ascii := default "0"%char (list_ascii_of_string upperhex !! Z.to_nat z).

Fixpoint spaces_to_plus (s : string) : string :=
  match s with EmptyString => EmptyString | String c s => String (if decide (c = " "%char) then "+"%char else c) (spaces_to_plus s) end.

Fixpoint encode_escapes (mode : encoding) (s : string) : string :=
  match s with
  | EmptyString => EmptyString
  | String c s =>
      if bool_decide (c = " "%char) && bool_decide (mode = encodeQueryComponent) then String "+" (encode_escapes mode s)
      else if shouldEscape c mode
      then String "%" (String (nibble (Z.shiftr (code c) 4)) (String (nibble (Z.land (code c) 15)) (encode_escapes mode s)))
      else String c (encode_escapes mode s)
  end.

Definition escape (s : string) (mode : encoding) : string :=
  let '(spaceCount, hexCount) := count_escapes mode s in
  if (spaceCount =? 0) && (hexCount =? 0) then s
  else if hexCount =? 0 then spaces_to_plus s
  else encode_escapes mode s.

Definition QueryEscape (s : string) : string := escape s encodeQueryComponent.
Definition PathEscape (s : string) : string := escape s encodePathSegment.

(** ** URLs *)
Record Userinfo := mkUserinfo { username : string; password : string; passwordSet : bool }.

Record URL := mkURL {
  Scheme : string; Opaque : string; User : option Userinfo; Host : string; Path : string; RawPath : string;
  OmitHost : bool; ForceQuery : bool; RawQuery : string; Fragment : string; RawFragment : string }.

Definition new_User (u : string) : Userinfo := mkUserinfo u EmptyString false.
Definition UserPassword (u p : string) : Userinfo := mkUserinfo u p true.

Definition Userinfo_Username (u : option Userinfo) : string := match u with None => EmptyString | Some u => username u end.
Definition Userinfo_Password (u : option Userinfo) : string * bool :=
  match u with None => (EmptyString, false) | Some u => (password u, passwordSet u) end.

Definition Userinfo_String (u : Userinfo) : string :=
  let s := escape (username u) encodeUserPassword in
  if passwordSet u then (s ++ ":" ++ escape (password u) encodeUserPassword)%string else s.

(** [i0]: whether the loop is at its first character. *)
Fixpoint getScheme_loop (rawURL : string) (rest : string) (acc : string) : result url_error (string * string) :=
  match rest with
  | EmptyString => Ok (EmptyString, rawURL)
  | String c rest =>
      if is_lower c || is_upper c then getScheme_loop rawURL rest (acc ++ String c EmptyString)
      else if is_digit c || is_in "+-." c then
        if bool_decide (acc = EmptyString) then Ok (EmptyString, rawURL) else getScheme_loop rawURL rest (acc ++ String c EmptyString)
      else if bool_decide (c = ":"%char) then
        if bool_decide (acc = EmptyString) then Err errMissingScheme else Ok (acc, rest)
      else Ok (EmptyString, rawURL)
  end.

Definition getScheme (rawURL : string) : result url_error (string * string) := getScheme_loop rawURL rawURL EmptyString.

Definition validOptionalPort (port : string) : bool :=
  match port with
  | EmptyString => true
  | String ":" rest => forallb (λ c, is_digit c || bool_decide (c = "-"%char) || bool_decide (c = ","%char)) (list_ascii_of_string rest)
  | String _ _ => false
  end.

Definition validUserinfo (s : string) : bool :=
  forallb (λ c, is_upper c || is_lower c || is_digit c || is_in "-._:~!$&'()*+,;=%@" c) (list_ascii_of_string s).

Definition stringContainsCTLByte (s : string) : bool :=
  existsb (λ c, (code c <? 32) || (code c =? 127)) (list_ascii_of_string s).

(** [strings.Index(s, "%25")]. *)
Fixpoint IndexPct25 (s : string) : Z :=
  if HasPrefix s "%25" then 0 else
  match s with
  | EmptyString => -1
  | String _ s => let i := IndexPct25 s in if i <? 0 then -1 else i + 1
  end.

Definition parseHost (host : string) : result url_error string :=
  if HasPrefix host "[" then
    let i := LastIndexByte host "]" in
    if i <? 0 then Err errMissingBracket else
    let colonPort := skip (Z.to_nat (i + 1)) host in
    if negb (validOptionalPort colonPort) then Err (errInvalidPort colonPort) else
    let zone := IndexPct25 (first (Z.to_nat i) host) in
    if 0 <=? zone then
      host1 ← unescape (first (Z.to_nat zone) host) encodeHost;
      host2 ← unescape (skip (Z.to_nat zone) (first (Z.to_nat i) host)) encodeZone;
      host3 ← unescape (skip (Z.to_nat i) host) encodeHost;
      Ok (host1 ++ host2 ++ host3)%string
    else unescape host encodeHost
  else
    let i := LastIndexByte host ":" in
    if negb (i =? -1) && negb (validOptionalPort (skip (Z.to_nat i) host)) then Err (errInvalidPort (skip (Z.to_nat i) host))
    else unescape host encodeHost.

Definition parseAuthority (authority : string) : result url_error (option Userinfo * string) :=
  let i := LastIndexByte authority "@" in
  host ← parseHost (if i <? 0 then authority else skip (Z.to_nat (i + 1)) authority);
  if i <? 0 then Ok (None, host) else
  let userinfo := first (Z.to_nat i) authority in
  if negb (validUserinfo userinfo) then Err errInvalidUserinfo else
  if negb (ContainsRune userinfo ":") then
    u ← unescape userinfo encodeUserPassword; Ok (Some (new_User u), host)
  else
    let '(u, p, _) := Cut userinfo ":" in
    u ← unescape u encodeUserPassword;
    p ← unescape p encodeUserPassword;
    Ok (Some (UserPassword u p), host).

Definition setPath (p : string) (u : URL) : result url_error URL :=
  path ← unescape p encodePath;
  Ok (mkURL (Scheme u) (Opaque u) (User u) (Host u) path (if bool_decide (p = escape path encodePath) then EmptyString else p)
        (OmitHost u) (ForceQuery u) (RawQuery u) (Fragment u) (RawFragment u)).

Definition setFragment (f : string) (u : URL) : result url_error URL :=
  frag ← unescape f encodeFragment;
  Ok (mkURL (Scheme u) (Opaque u) (User u) (Host u) (Path u) (RawPath u) (OmitHost u) (ForceQuery u) (RawQuery u) frag
        (if bool_decide (f = escape frag encodeFragment) then EmptyString else f)).

Definition validEncoded (s : string) (mode : encoding) : bool :=
  forallb (λ c, is_in "!$&'()*+,;=:@[]%" c || negb (shouldEscape c mode)) (list_ascii_of_string s).

Definition EscapedPath (u : URL) : string :=
  let raw := if negb (bool_decide (RawPath u = EmptyString)) && validEncoded (RawPath u) encodePath
             then match unescape (RawPath u) encodePath with Ok p => bool_decide (p = Path u) | Err _ => false end else false in
  if raw then RawPath u
  else if bool_decide (Path u = "*"%string) then "*" else escape (Path u) encodePath.

Definition EscapedFragment (u : URL) : string :=
  let raw := if negb (bool_decide (RawFragment u = EmptyString)) && validEncoded (RawFragment u) encodeFragment
             then match unescape (RawFragment u) encodeFragment with Ok f => bool_decide (f = Fragment u) | Err _ => false end else false in
  if raw then RawFragment u else escape (Fragment u) encodeFragment.

Section Parsing.
Context `{UnicodeTables}.

Definition parse (rawURL : string) (viaRequest : bool) : result url_error URL :=
  if stringContainsCTLByte rawURL then Err errControlCharacter else
  if bool_decide (rawURL = EmptyString) && viaRequest then Err errEmptyURL else
  if bool_decide (rawURL = "*"%string)
  then Ok (mkURL EmptyString EmptyString None EmptyString "*" EmptyString false false EmptyString EmptyString EmptyString) else
  '(scheme, rest) ← getScheme rawURL;
  let scheme := ToLower scheme in
  let '(forceQuery, rest, rawQuery) :=
    if HasSuffix rest "?" && (Count rest "?" =? 1) then (true, first (String.length rest - 1) rest, EmptyString)
    else let '(a, b, _) := Cut rest "?" in (false, a, b) in
  let url user host omit := mkURL scheme EmptyString user host EmptyString EmptyString omit forceQuery rawQuery EmptyString EmptyString in
  if negb (HasPrefix rest "/") && negb (bool_decide (scheme = EmptyString))
  then Ok (mkURL scheme rest None EmptyString EmptyString EmptyString false forceQuery rawQuery EmptyString EmptyString) else
  if negb (HasPrefix rest "/") && viaRequest then Err errInvalidURI else
  if negb (HasPrefix rest "/") && ContainsRune (Cut rest "/").1.1 ":" then Err errFirstSegmentColon else
  if (negb (bool_decide (scheme = EmptyString)) || negb viaRequest && negb (HasPrefix rest "///")) && HasPrefix rest "//" then
    let authority := skip 2 rest in
    let i := IndexByte authority "/" in
    let '(authority, rest) := if 0 <=? i then (first (Z.to_nat i) authority, skip (Z.to_nat i) authority) else (authority, EmptyString) in
    '(user, host) ← parseAuthority authority;
    setPath rest (url user host false)
  else setPath rest (url None EmptyString (negb (bool_decide (scheme = EmptyString)) && HasPrefix rest "/")).

Definition Parse (rawURL : string) : result url_error URL :=
  let '(u, frag, _) := Cut rawURL "#" in
  url ← parse u false;
  if bool_decide (frag = EmptyString) then Ok url else setFragment frag url.

(** The standard library's parser, from which this one was copied, takes
    nothing but digits as a port. *)
Definition strict_port (p : string) : bool :=
  match p with EmptyString => true | String c p => bool_decide (c = ":"%char) && forallb is_digit (list_ascii_of_string p) end.

Definition strict_host (h : string) : bool :=
  if HasPrefix h "[" then strict_port (skip (Z.to_nat (LastIndexByte h "]" + 1)) h)
  else let i := LastIndexByte h ":" in (i =? -1) || strict_port (skip (Z.to_nat i) h).

Definition std_Parse (rawURL : string) : result url_error URL :=
  u ← Parse rawURL;
  if strict_host (Host u) then Ok u else Err (errInvalidPort (Host u)).

Definition ParseRequestURI (rawURL : string) : result url_error URL := parse rawURL true.
End Parsing.

Definition URL_String (u : URL) : string :=
  let buf := if bool_decide (Scheme u = EmptyString) then EmptyString else (Scheme u ++ ":")%string in
  let buf :=
    if negb (bool_decide (Opaque u = EmptyString)) then (buf ++ Opaque u)%string else
    let has_user := bool_decide (User u ≠ None) in
    let has_host := negb (bool_decide (Host u = EmptyString)) in
    let buf :=
      if negb (bool_decide (Scheme u = EmptyString)) || has_host || has_user then
        if OmitHost u && negb has_host && negb has_user then buf else
        let buf := if has_host || negb (bool_decide (Path u = EmptyString)) || has_user then (buf ++ "//")%string else buf in
        let buf := match User u with Some ui => (buf ++ Userinfo_String ui ++ "@")%string | None => buf end in
        if has_host then (buf ++ escape (Host u) encodeHost)%string else buf
      else buf in
    let path := EscapedPath u in
    let buf := if negb (bool_decide (path = EmptyString)) && negb (HasPrefix path "/") && has_host then (buf ++ "/")%string else buf in
    let buf := if bool_decide (buf = EmptyString) && ContainsRune (Cut path "/").1.1 ":" then (buf ++ "./")%string else buf in
    (buf ++ path)%string in
  let buf := if ForceQuery u || negb (bool_decide (RawQuery u = EmptyString)) then (buf ++ "?" ++ RawQuery u)%string else buf in
  if negb (bool_decide (Fragment u = EmptyString)) then (buf ++ "#" ++ EscapedFragment u)%string else buf.

(** ** Query values *)
Abbreviation Values := (gmap string (list string)).

Definition Values_Get (v : Values) (k : string) : string := match default [] (v !! k) with [] => EmptyString | x :: _ => x end.
Definition Values_Set (v : Values) (k value : string) : Values := <[k := [value]]> v.
Definition Values_Add (v : Values) (k value : string) : Values := <[k := default [] (v !! k) ++ [value]]> v.

(** One setting of a query. *)
Definition parse_setting (st : Values * option url_error) (setting : string) : Values * option url_error :=
  let '(m, err) := st in
  if ContainsRune setting ";" then (m, Some errSemicolon) else
  if bool_decide (setting = EmptyString) then (m, err) else
  let '(key, value, _) := Cut setting "=" in
  match QueryUnescape key with
  | Err e => (m, match err with None => Some e | _ => err end)
  | Ok key =>
      match QueryUnescape value with
      | Err e => (m, match err with None => Some e | _ => err end)
      | Ok value => (Values_Add m key value, err)
      end
  end.

(** The settings are what the ampersands separate. *)
Definition ParseQuery (query : string) : Values * option url_error := foldl parse_setting (∅, None) (Split query "&").

Definition Query (u : URL) : Values := (ParseQuery (RawQuery u)).1.

Definition encode_key (v : Values) (buf k : string) : string :=
  foldl (λ buf x, ((if bool_decide (buf = EmptyString) then buf else buf ++ "&") ++ QueryEscape k ++ "=" ++ QueryEscape x)%string)
    buf (default [] (v !! k)).

Definition Values_Encode (v : Values) : string :=
  foldl (encode_key v) EmptyString (merge_sort String.leb (elements (dom v))).

(** ** The host of a URL *)
Definition splitHostPort (hostPort : string) : string * string :=
  let colon := LastIndexByte hostPort ":" in
  let '(host, port) :=
    if negb (colon =? -1) && validOptionalPort (skip (Z.to_nat colon) hostPort)
    then (first (Z.to_nat colon) hostPort, skip (Z.to_nat (colon + 1)) hostPort) else (hostPort, EmptyString) in
  (if HasPrefix host "[" && HasSuffix host "]" then first (String.length host - 2) (skip 1 host) else host, port).

Definition Hostname (u : URL) : string := (splitHostPort (Host u)).1.
Definition Port (u : URL) : string := (splitHostPort (Host u)).2.

Definition RequestURI (u : URL) : string :=
  let result := if bool_decide (Opaque u = EmptyString)
                then if bool_decide (EscapedPath u = EmptyString) then "/"%string else EscapedPath u
                else if HasPrefix (Opaque u) "//" then (Scheme u ++ ":" ++ Opaque u)%string else Opaque u in
  if ForceQuery u || negb (bool_decide (RawQuery u = EmptyString)) then (result ++ "?" ++ RawQuery u)%string else result.

Definition Redacted (u : URL) : string :=
  if (Userinfo_Password (User u)).2
  then URL_String (mkURL (Scheme u) (Opaque u) (Some (UserPassword (Userinfo_Username (User u)) "xxxxx")) (Host u) (Path u) (RawPath u)
         (OmitHost u) (ForceQuery u) (RawQuery u) (Fragment u) (RawFragment u))
  else URL_String u.

(** ** Escaping is undone by unescaping *)
Definition all_modes : list encoding :=
  [encodePath; encodePathSegment; encodeHost; encodeZone; encodeUserPassword; encodeQueryComponent; encodeFragment].

Lemma every_char_mode (P : encoding → ascii → bool) : forallb (λ m, forallb (P m) all_ascii) all_modes = true → ∀ m c, P m c = true.
Proof.
  rewrite forallb_forall. intros HP m c. apply every_char, HP. destruct m; cbn; tauto.
Qed.

(** The parts of a URL in which every byte may be escaped. *)
Definition free_mode (m : encoding) : bool := negb (bool_decide (m = encodeHost) || bool_decide (m = encodeZone)).

(** What is true of a character that is escaped, or is not. *)
Definition escape_facts (m : encoding) (c : ascii) : bool :=
  let a := nibble (Z.shiftr (code c) 4) in
  let b := nibble (Z.land (code c) 15) in
  (ishex a && ishex b && bool_decide (hex_pair a b = c)) &&
  negb (bool_decide (a = "%"%char)) &&
  (negb (shouldEscape a m) && negb (shouldEscape b m)) &&
  implb (negb (shouldEscape c m)) (negb (bool_decide (c = "%"%char)) && negb (bool_decide (c = " "%char))) &&
  implb (bool_decide (c = "+"%char) && bool_decide (m = encodeQueryComponent)) (shouldEscape c m).

Lemma escape_fact m c : escape_facts m c = true.
Proof. revert m c. apply every_char_mode. vm_compute. reflexivity. Qed.

Ltac char_facts m c :=
  pose proof (escape_fact m c) as Hfact; unfold escape_facts in Hfact; cbv zeta in Hfact;
  rewrite !andb_true_iff in Hfact; destruct Hfact as [[[[[[Hxa Hxb] Hpair%bool_decide_eq_true_1] Hnib] [Hea Heb]] Hplain] Hplus].

Lemma count_nonneg m s : 0 <= (count_escapes m s).1 ∧ 0 <= (count_escapes m s).2.
Proof.
  induction s as [|c s IH]; cbn [count_escapes]; [done|]. destruct (count_escapes m s) as [sp hx]. cbn in IH.
  destruct (shouldEscape c m); [destruct (_ && _)|]; cbn; lia.
Qed.

Lemma escape_eq s m : escape s m = encode_escapes m s.
Proof.
  unfold escape.
  assert (((count_escapes m s).2 = 0 → encode_escapes m s = spaces_to_plus s) ∧
          ((count_escapes m s).1 = 0 → (count_escapes m s).2 = 0 → encode_escapes m s = s)) as [H1 H2].
  { induction s as [|c s [IH1 IH2]]; [done|]. cbn [count_escapes encode_escapes spaces_to_plus]. pose proof (count_nonneg m s) as Hn.
    destruct (count_escapes m s) as [sp hx]. cbn in Hn, IH1, IH2. char_facts m c.
    destruct (shouldEscape c m) eqn:E; [destruct (bool_decide (c = " "%char) && bool_decide (m = encodeQueryComponent)) eqn:E2|].
    - apply andb_true_iff in E2 as [->%bool_decide_eq_true_1 _]. cbn [fst snd]. split; [|lia]. intros Hx. by rewrite IH1.
    - cbn [fst snd]. split; lia.
    - cbn [negb implb] in Hplain. apply andb_true_iff in Hplain as [_ Hsp%negb_true_iff]. rewrite Hsp. cbn [andb fst snd].
      apply bool_decide_eq_false_1 in Hsp. rewrite decide_False by done. split; intros; f_equal; auto. }
  destruct (count_escapes m s) as [sp hx]. cbn in H1, H2.
  destruct (Z.eqb_spec sp 0), (Z.eqb_spec hx 0); cbn [andb]; auto. - by rewrite H2. - by rewrite H1.
Qed.

Lemma check_encode m s n p : free_mode m = true → ∃ r, check_escapes m (encode_escapes m s) n p = Ok r.
Proof.
  intros Hm. assert (bool_decide (m = encodeHost) = false ∧ bool_decide (m = encodeZone) = false) as [Hh Hz]
    by (unfold free_mode in Hm; by apply negb_true_iff, orb_false_iff in Hm).
  revert n p. induction s as [|c s IH]; intros n p; [by eexists|]. cbn [encode_escapes]. char_facts m c.
  destruct (bool_decide (c = " "%char) && bool_decide (m = encodeQueryComponent)) eqn:E2; [|destruct (shouldEscape c m) eqn:E].
  - cbn [check_escapes]. apply IH.
  - cbn [check_escapes]. rewrite Hxa, Hxb, Hh, Hz. cbn [negb orb andb]. apply IH.
  - cbn [negb implb] in Hplain. apply andb_true_iff in Hplain as [Hpc%negb_true_iff _]. cbn [check_escapes]. rewrite Hpc, Hh, Hz. cbn [orb andb].
    destruct (bool_decide (c = "+"%char)); apply IH.
Qed.

Lemma decode_escaped m s : decode_escapes m (encode_escapes m s) = s.
Proof.
  induction s as [|c s IH]; [done|]. cbn [encode_escapes]. char_facts m c.
  destruct (bool_decide (c = " "%char) && bool_decide (m = encodeQueryComponent)) eqn:E2; [|destruct (shouldEscape c m) eqn:E].
  - apply andb_true_iff in E2 as [->%bool_decide_eq_true_1 Em]. cbn [decode_escapes].
    rewrite bool_decide_eq_false_2, bool_decide_eq_true_2 by done. rewrite Em. by f_equal.
  - cbn [decode_escapes]. rewrite bool_decide_eq_true_2 by done. by rewrite Hpair, IH.
  - cbn [negb implb] in Hplain. apply andb_true_iff in Hplain as [Hpc%negb_true_iff _]. cbn [decode_escapes]. rewrite Hpc.
    destruct (bool_decide (c = "+"%char)) eqn:Ep; [|by f_equal]. destruct (bool_decide (m = encodeQueryComponent)); [done|].
    apply bool_decide_eq_true_1 in Ep as ->. by f_equal.
Qed.

(** Without an escape the second loop changes nothing. *)
Lemma decode_id m s n p r : check_escapes m s n p = Ok r →
  n <= r.1 ∧ (r.2 = false → m = encodeQueryComponent → p = false) ∧ (r.1 = n → r.2 = false → decode_escapes m s = s).
Proof.
  revert n p r. induction s as [s IH] using (induction_ltof1 _ String.length). unfold ltof in IH. intros n p r.
  destruct s as [|c rest]; cbn [check_escapes decode_escapes].
  { intros [= <-]. split; [done|]. by split. }
  destruct (bool_decide (c = "%"%char)) eqn:E.
  - destruct rest as [|a [|b rest']]; try done. cbv zeta.
    destruct (negb (ishex a) || negb (ishex b)); [done|]. destruct (_ && _ && _); [done|]. destruct (_ && _ && _ && _); [done|].
    intros Hc. apply IH in Hc as (H1 & H2 & _); [|cbn; lia]. split; [lia|]. split; [done|]. lia.
  - destruct (bool_decide (c = "+"%char)) eqn:Ep.
    + intros Hc. apply IH in Hc as (H1 & H2 & H3); [|cbn; lia]. split; [done|]. split.
      * intros Hr Hm. specialize (H2 Hr Hm). by rewrite bool_decide_eq_true_2 in H2.
      * intros Hn Hr. apply bool_decide_eq_true_1 in Ep as ->. rewrite (H3 Hn Hr).
        case_bool_decide as Hm; [|done]. by specialize (H2 Hr Hm).
    + destruct (_ && _ && _); [done|]. intros Hc. apply IH in Hc as (H1 & H2 & H3); [|cbn; lia].
      split; [done|]. split; [done|]. intros Hn Hr. by rewrite (H3 Hn Hr).
Qed.

Lemma unescape_ok m s r : check_escapes m s 0 false = Ok r → unescape s m = Ok (decode_escapes m s).
Proof.
  intros Hc. unfold unescape. rewrite Hc. cbn [mbind result_bind]. destruct (decode_id _ _ _ _ _ Hc) as (_ & _ & H3).
  destruct r as [n hasPlus]. cbn in H3. destruct (Z.eqb_spec n 0) as [->|]; [|done]. destruct hasPlus; [done|]. by rewrite H3.
Qed.

Lemma unescape_escape m s : free_mode m = true → unescape (escape s m) m = Ok s.
Proof.
  intros Hm. rewrite escape_eq. destruct (check_encode m s 0 false Hm) as [r Hr]. rewrite (unescape_ok _ _ _ Hr). by rewrite decode_escaped.
Qed.

(** Text with nothing to escape. *)
Definition unescaped (m : encoding) (s : string) : bool := forallb (λ c, negb (shouldEscape c m)) (list_ascii_of_string s).

Lemma unescaped_cons m c s : unescaped m (String c s) = negb (shouldEscape c m) && unescaped m s.
Proof. done. Qed.

Lemma escape_unescaped m s : unescaped m s = true → escape s m = s.
Proof.
  rewrite escape_eq. induction s as [|c s IH]; [done|]. rewrite unescaped_cons. intros [Hc%negb_true_iff Hs]%andb_true_iff.
  cbn [encode_escapes]. char_facts m c. rewrite Hc in Hplain |- *. cbn [negb implb] in Hplain.
  apply andb_true_iff in Hplain as [_ Hsp%negb_true_iff]. rewrite Hsp. cbn [andb]. by rewrite IH.
Qed.

(** Outside hosts and queries the parts are unescaped alike. *)
Definition text_mode (m : encoding) : bool := free_mode m && negb (bool_decide (m = encodeQueryComponent)).

Lemma check_text_mode m m' s n p : text_mode m = true → text_mode m' = true → check_escapes m s n p = check_escapes m' s n p.
Proof.
  intros Hm Hm'. revert n p. induction s as [s IH] using (induction_ltof1 _ String.length). unfold ltof in IH. intros n p.
  destruct s as [|c s]; [done|].
  assert (∀ m, text_mode m = true → bool_decide (m = encodeHost) = false ∧ bool_decide (m = encodeZone) = false ∧ bool_decide (m = encodeQueryComponent) = false) as Hb by (by intros []).
  destruct (Hb m Hm) as (E1 & E2 & E3), (Hb m' Hm') as (F1 & F2 & F3). cbn [check_escapes]. rewrite E1, E2, E3, F1, F2, F3. cbn [andb orb].
  destruct (bool_decide (c = "%"%char)).
  - destruct s as [|a [|b s]]; [done..|]. destruct (_ || _); [done|]. apply IH. cbn. lia.
  - destruct (bool_decide (c = "+"%char)); apply IH; cbn; lia.
Qed.

Lemma decode_text_mode m m' s : text_mode m = true → text_mode m' = true → decode_escapes m s = decode_escapes m' s.
Proof.
  intros Hm Hm'. induction s as [s IH] using (induction_ltof1 _ String.length). unfold ltof in IH.
  destruct s as [|c s]; [done|].
  assert (∀ m, text_mode m = true → bool_decide (m = encodeQueryComponent) = false) as Hb by (by intros []).
  cbn [decode_escapes]. rewrite (Hb m Hm), (Hb m' Hm'). destruct (bool_decide (c = "%"%char)).
  - destruct s as [|a [|b s]]; [done..|]. f_equal. apply IH. cbn. lia.
  - destruct (bool_decide (c = "+"%char)); f_equal; apply IH; cbn; lia.
Qed.

Lemma unescape_text_mode m m' s : text_mode m = true → text_mode m' = true → unescape s m = unescape s m'.
Proof. intros Hm Hm'. unfold unescape. by rewrite (check_text_mode m m') , (decode_text_mode m m'). Qed.

Lemma unescape_unescaped m s : m ≠ encodeQueryComponent → unescaped m s = true → unescape s m = Ok s.
Proof.
  intros Hm Hs. assert (∀ n p, (p = true → m = encodeQueryComponent) → ∃ p', check_escapes m s n p = Ok (n, p') ∧ (p' = true → m = encodeQueryComponent)) as Hc.
  { induction s as [|c s IH]; intros n p Hp; [by exists p|]. rewrite unescaped_cons in Hs. apply andb_true_iff in Hs as [Hc%negb_true_iff Hs].
    cbn [check_escapes]. char_facts m c. rewrite Hc in Hplain |- *. cbn [negb implb] in Hplain.
    apply andb_true_iff in Hplain as [Hpc%negb_true_iff _]. rewrite Hpc, andb_false_r.
    destruct (bool_decide (c = "+"%char)); [|by apply IH]. apply IH; [done|]. by intros ?%bool_decide_eq_true_1. }
  destruct (Hc 0 false) as (p' & Hp & Hp'); [done|]. unfold unescape. rewrite Hp. cbn [mbind result_bind].
  destruct p'; [by destruct Hm; auto|done].
Qed.

(** What escaping keeps out. *)
Lemma escape_free m s c : shouldEscape c m = true → c ≠ "%"%char → c ≠ "+"%char → free_of c (escape s m).
Proof.
  intros Hc Hp Hq. rewrite escape_eq. induction s as [|d s IH]; [apply free_of_nil|]. cbn [encode_escapes].
  destruct (_ && _); [|destruct (shouldEscape d m) eqn:E].
  - apply free_of_cons. done.
  - char_facts m d. apply negb_true_iff in Hea, Heb. rewrite !free_of_cons. split; [congruence|]. split; [intros ?; congruence|].
    split; [intros ?; congruence|done].
  - apply free_of_cons. split; [intros ->; congruence|done].
Qed.

(** ** Parts of a string *)
Lemma Cut_app s t c : free_of c s → Cut (s ++ String c t) c = (s, t, true).
Proof.
  induction s as [|d s IH]; intros Hs.
  - change (EmptyString ++ String c t)%string with (String c t). cbn [Cut]. by rewrite decide_True.
  - apply free_of_cons in Hs as [Hd Hs]. change (String d s ++ String c t)%string with (String d (s ++ String c t)). cbn [Cut].
    by rewrite decide_False, (IH Hs).
Qed.

Lemma Cut_free s c : free_of c s → Cut s c = (s, EmptyString, false).
Proof.
  induction s as [|d s IH]; [done|]. intros [Hd Hs]%free_of_cons. cbn [Cut]. by rewrite decide_False, (IH Hs).
Qed.

Lemma Count_free s c : free_of c s → Count s c = 0.
Proof. induction s as [|d s IH]; [done|]. intros [Hd Hs]%free_of_cons. cbn [Count]. by rewrite decide_False, (IH Hs). Qed.

Lemma Count_nonneg s c : 0 <= Count s c.
Proof. induction s as [|d s IH]; cbn [Count]; [done|]. destruct (decide _); lia. Qed.

Lemma Count_app s t c : Count (s ++ t) c = Count s c + Count t c.
Proof.
  induction s as [|d s IH]; [done|]. change (String d s ++ t)%string with (String d (s ++ t)). cbn [Count]. rewrite IH. lia.
Qed.

Lemma Count_zero s c : Count s c = 0 → free_of c s.
Proof.
  induction s as [|d s IH]; [intros _; apply free_of_nil|]. cbn [Count]. pose proof (Count_nonneg s c). intros Hs. apply free_of_cons.
  destruct (decide (d = c)); [lia|]. split; [done|]. apply IH. lia.
Qed.

Lemma free_of_skip i s c : free_of c s → free_of c (skip i s).
Proof.
  revert s. induction i as [|i IH]; intros [|d s] Hs; cbn; try done. apply free_of_cons in Hs as [_ Hs]. by apply IH.
Qed.

Lemma free_of_first i s c : free_of c s → free_of c (first i s).
Proof.
  revert s. induction i as [|i IH]; intros [|d s] Hs; cbn; try apply free_of_nil. apply free_of_cons in Hs as [Hd Hs].
  apply free_of_cons. split; [done|]. by apply IH.
Qed.

(** A question mark at the end that is the only one. *)
Lemma no_bare_query a q : free_of "?" a → q ≠ EmptyString → HasSuffix (a ++ String "?" q) "?" && (Count (a ++ String "?" q) "?" =? 1) = false.
Proof.
  intros Ha Hq. destruct (HasSuffix _ _) eqn:E; [|done]. cbn [andb]. apply Z.eqb_neq. rewrite Count_app, (Count_free a) by done. cbn [Count].
  rewrite decide_True by done. intros Hc. assert (Count q "?" = 0) as Hf%Count_zero by lia.
  unfold HasSuffix in E. apply andb_true_iff in E as [_ E%bool_decide_eq_true_1].
  destruct q as [|d q]; [done|]. rewrite length_app_string in E. cbn [String.length] in E.
  replace (String.length a + S (S (String.length q)) - 1)%nat with (String.length (a ++ "?") + String.length q)%nat in E
    by (rewrite length_app_string; cbn; lia).
  assert (∀ i (s t : string), skip (String.length s + i) (s ++ t) = skip i t) as Hskip.
  { intros i s t. induction s as [|x s IH]; [done|]. exact IH. }
  replace (a ++ String "?" (String d q))%string with ((a ++ "?") ++ String d q)%string in E by (by rewrite append_assoc).
  rewrite Hskip in E. apply (free_of_skip (String.length q)) in Hf. rewrite E in Hf. by apply free_of_cons in Hf as [? _].
Qed.

Lemma no_query a : free_of "?" a → HasSuffix a "?" && (Count a "?" =? 1) = false.
Proof. intros Ha. rewrite (Count_free _ _ Ha). apply andb_false_r. Qed.

(** Control characters. *)
Definition ctl (c : ascii) : bool := (code c <? 32) || (code c =? 127).

Lemma no_ctl_app s t : stringContainsCTLByte (s ++ t) = stringContainsCTLByte s || stringContainsCTLByte t.
Proof.
  unfold stringContainsCTLByte. induction s as [|c s IH]; [done|]. change (String c s ++ t)%string with (String c (s ++ t)).
  cbn [list_ascii_of_string existsb]. by rewrite IH, orb_assoc.
Qed.

Definition ctl_facts (m : encoding) (c : ascii) : bool :=
  implb (ctl c) (shouldEscape c m && negb (bool_decide (c = "%"%char)) && negb (bool_decide (c = "+"%char)) &&
                 negb (is_lower c || is_digit c || is_in "+-." c)).

Lemma ctl_fact m c : ctl_facts m c = true.
Proof. revert m c. apply every_char_mode. vm_compute. reflexivity. Qed.

Lemma ctl_escaped m c : ctl c = true →
  shouldEscape c m = true ∧ c ≠ "%"%char ∧ c ≠ "+"%char ∧ (is_lower c || is_digit c || is_in "+-." c) = false.
Proof.
  pose proof (ctl_fact m c) as Hc. unfold ctl_facts in Hc. intros Hctl. rewrite Hctl in Hc. cbn [implb] in Hc.
  rewrite !andb_true_iff, !negb_true_iff in Hc. destruct Hc as [[[H1 H2%bool_decide_eq_false_1] H3%bool_decide_eq_false_1] H4]. done.
Qed.

Lemma escape_no_ctl m s : stringContainsCTLByte (escape s m) = false.
Proof.
  apply not_true_iff_false. unfold stringContainsCTLByte. intros (c & Hin%list_elem_of_In & Hc)%existsb_exists. fold (ctl c) in Hc.
  destruct (ctl_escaped m c Hc) as (H1 & H2 & H3 & _). by apply (escape_free m s c H1 H2 H3).
Qed.

Lemma plain_no_ctl s : forallb (λ c, is_lower c || is_digit c || is_in "+-." c) (list_ascii_of_string s) = true → stringContainsCTLByte s = false.
Proof.
  intros Hs. apply not_true_iff_false. unfold stringContainsCTLByte. intros (c & Hin & Hc)%existsb_exists. fold (ctl c) in Hc.
  rewrite forallb_forall in Hs. specialize (Hs c Hin). destruct (ctl_escaped encodePath c Hc) as (_ & _ & _ & Hf). by rewrite Hf in Hs.
Qed.

(** ** Hosts *)
(** The port, if there is one, is a union of ranges. *)
Definition host_port_ok (h : string) : bool :=
  if HasPrefix h "[" then let i := LastIndexByte h "]" in (0 <=? i) && validOptionalPort (skip (Z.to_nat (i + 1)) h)
  else let i := LastIndexByte h ":" in (i =? -1) || validOptionalPort (skip (Z.to_nat i) h).

Definition host_ok (h : string) : bool := unescaped encodeHost h && host_port_ok h.

Lemma unescaped_free m s c : unescaped m s = true → shouldEscape c m = true → free_of c s.
Proof.
  unfold unescaped. rewrite forallb_forall. intros Hs Hc Hin%list_elem_of_In. specialize (Hs c Hin). by rewrite Hc in Hs.
Qed.

Lemma IndexPct25_free s : free_of "%" s → IndexPct25 s = -1.
Proof.
  induction s as [|c s IH]; [done|]. intros [Hc Hs]%free_of_cons. cbn [IndexPct25]. rewrite (IH Hs).
  assert (HasPrefix (String c s) "%25" = false) as ->; [|done]. cbn [HasPrefix]. rewrite bool_decide_eq_false_2; [done|congruence].
Qed.

Lemma parseHost_ok h : host_ok h = true → parseHost h = Ok h.
Proof.
  unfold host_ok, host_port_ok, parseHost. intros [Hu Hp]%andb_true_iff.
  assert (free_of "%" h) as Hf by (by apply (unescaped_free _ _ _ Hu)).
  destruct (HasPrefix h "[").
  - apply andb_true_iff in Hp as [Hi%Z.leb_le Hv]. rewrite (proj2 (Z.ltb_ge _ 0)) by lia. rewrite Hv. cbn [negb].
    rewrite IndexPct25_free by (by apply free_of_first). cbn [Z.leb Z.compare]. by apply unescape_unescaped.
  - apply orb_true_iff in Hp as [->|Hv]; [cbn [negb andb]|rewrite Hv, andb_false_r]; by apply unescape_unescaped.
Qed.

(** ** A URL printed is parsed again *)
Definition userinfo_ok (u : option Userinfo) : Prop :=
  match u with Some u => passwordSet u = false → password u = EmptyString | None => True end.

Record url_ok (u : URL) : Prop := {
  uo_scheme : ∃ c s, Scheme u = String c s ∧ is_lower c = true ∧
    forallb (λ c, is_lower c || is_digit c || is_in "+-." c) (list_ascii_of_string s) = true;
  uo_opaque : Opaque u = EmptyString;
  uo_user : userinfo_ok (User u);
  uo_host : Host u ≠ EmptyString ∧ host_ok (Host u) = true;
  uo_path : Path u = EmptyString ∨ ∃ p, Path u = String "/" p;
  uo_raw : RawPath u = EmptyString ∧ RawFragment u = EmptyString ∧ OmitHost u = false ∧ ForceQuery u = false;
  uo_query : free_of "#" (RawQuery u) ∧ stringContainsCTLByte (RawQuery u) = false }.

(** The parts of the text. *)
Definition user_part (u : option Userinfo) : string := match u with Some u => (Userinfo_String u ++ "@")%string | None => EmptyString end.
Definition query_part (q : string) : string := if bool_decide (q = EmptyString) then EmptyString else String "?" q.
Definition body (u : URL) : string :=
  (Scheme u ++ String ":" (String "/" (String "/" (user_part (User u) ++ Host u ++ escape (Path u) encodePath ++ query_part (RawQuery u)))))%string.

Lemma append_String c s t : (String c s ++ t)%string = String c (s ++ t).
Proof. done. Qed.

Lemma URL_String_parts u : url_ok u →
  URL_String u = (body u ++ if bool_decide (Fragment u = EmptyString) then EmptyString else String "#" (escape (Fragment u) encodeFragment))%string.
Proof.
  intros [(c & s & Hs & _) Ho _ [Hh1 Hh2] Hp (Hr1 & Hr2 & Hr3 & Hr4) _]. unfold URL_String, body.
  rewrite Ho, Hr3, Hr4. rewrite (bool_decide_eq_false_2 (Host u = EmptyString)) by done.
  rewrite (bool_decide_eq_false_2 (Scheme u = EmptyString)) by (by rewrite Hs). cbn [negb bool_decide orb andb].
  rewrite (bool_decide_eq_true_2 (EmptyString = EmptyString)) by done. cbn [negb].
  unfold host_ok in Hh2. apply andb_true_iff in Hh2 as [Hh2 _]. rewrite (escape_unescaped _ _ Hh2).
  assert (EscapedPath u = escape (Path u) encodePath) as ->.
  { unfold EscapedPath. rewrite Hr1. rewrite (bool_decide_eq_true_2 (EmptyString = EmptyString)) by done. cbn [negb andb].
    rewrite bool_decide_eq_false_2; [done|]. by destruct Hp as [->|[p ->]]. }
  assert (EscapedFragment u = escape (Fragment u) encodeFragment) as ->.
  { unfold EscapedFragment. rewrite Hr2. by rewrite (bool_decide_eq_true_2 (EmptyString = EmptyString)). }
  assert (∃ pe, escape (Path u) encodePath = EmptyString ∨ escape (Path u) encodePath = String "/" pe) as (pe & Hpe).
  { destruct Hp as [->|[p ->]]; [by exists EmptyString; left|]. rewrite escape_eq. cbn [encode_escapes]. by eexists; right. }
  assert (∀ b x : string, (if negb (bool_decide (escape (Path u) encodePath = EmptyString)) &&
    negb (HasPrefix (escape (Path u) encodePath) "/") && true then x else b) = b) as Hslash.
  { intros b x. destruct Hpe as [->| ->]; [by rewrite (bool_decide_eq_true_2 (EmptyString = EmptyString))|]. cbn [HasPrefix]. rewrite (bool_decide_eq_true_2 ("/"%char = "/"%char)) by done.
    destruct pe; cbn [HasPrefix andb negb]; by rewrite andb_false_r. }
  rewrite Hslash.
match goal with |- context [bool_decide (?b = EmptyString) && ContainsRune _ _] => set (buf := b) end.
  assert (buf = Scheme u ++ String ":" (String "/" (String "/" (user_part (User u) ++ Host u))))%string as Hbuf.
  { subst buf. unfold user_part. destruct (User u); rewrite ?append_assoc; reflexivity. }
  rewrite (bool_decide_eq_false_2 (buf = EmptyString)) by (rewrite Hbuf, Hs; done). cbn [andb]. rewrite Hbuf. unfold query_part.
  destruct (bool_decide (RawQuery u = EmptyString)), (bool_decide (Fragment u = EmptyString)); cbn [negb];
    rewrite ?append_nil_r; repeat first [rewrite append_assoc | rewrite append_String]; reflexivity.
Qed.

(** *** Parsing the parts *)
Definition valid_user_char (c : ascii) : bool := is_upper c || is_lower c || is_digit c || is_in "-._:~!$&'()*+,;=%@" c.
Definition user_facts (c : ascii) : bool :=
  valid_user_char (nibble (Z.shiftr (code c) 4)) && valid_user_char (nibble (Z.land (code c) 15)) &&
  (shouldEscape c encodeUserPassword || valid_user_char c).

Lemma user_fact c : user_facts c = true.
Proof. revert c. apply every_char. vm_compute. reflexivity. Qed.

Lemma getScheme_ok c s rest : is_lower c = true →
  forallb (λ c, is_lower c || is_digit c || is_in "+-." c) (list_ascii_of_string s) = true →
  getScheme (String c s ++ String ":" rest) = Ok (String c s, rest).
Proof.
  intros Hc Hs. unfold getScheme. generalize (String c s ++ String ":" rest)%string at 1 as raw. intros raw.
  rewrite append_String. cbn [getScheme_loop]. rewrite Hc. cbn [orb].
  change (EmptyString ++ String c EmptyString)%string with (String c EmptyString).
  assert (∀ acc, acc ≠ EmptyString → getScheme_loop raw (s ++ String ":" rest) acc = Ok (acc ++ s, rest)%string) as Hl.
  { clear Hc. induction s as [|d s IH]; intros acc Ha.
    - change (EmptyString ++ String ":" rest)%string with (String ":" rest). cbn. by rewrite bool_decide_eq_false_2, append_nil_r.
    - cbn [list_ascii_of_string forallb] in Hs. apply andb_true_iff in Hs as [Hd Hs]. rewrite append_String. cbn [getScheme_loop].
      assert (acc ++ String d EmptyString ≠ EmptyString)%string as Hne by (by destruct acc).
      assert ((acc ++ String d EmptyString) ++ s = acc ++ String d s)%string as Happ by (by rewrite append_assoc).
      destruct (is_lower d), (is_digit d), (is_in "+-." d); cbn [orb] in *; try done; destruct (is_upper d); cbn [orb];
        rewrite ?(bool_decide_eq_false_2 _ Ha); by rewrite (IH Hs _ Hne), Happ. }
  apply Hl. done.
Qed.

Lemma ContainsRune_free s c : free_of c s → ContainsRune s c = false.
Proof. intros Hs. unfold ContainsRune. by rewrite IndexByte_free. Qed.

Lemma ContainsRune_app s t c : free_of c s → ContainsRune (s ++ String c t) c = true.
Proof. intros Hs. unfold ContainsRune. rewrite IndexByte_app by done. apply Z.leb_le. lia. Qed.

Lemma userinfo_valid s : validUserinfo (escape s encodeUserPassword) = true.
Proof.
  unfold validUserinfo. rewrite forallb_forall, escape_eq. intros c Hc%list_elem_of_In. revert Hc.
  induction s as [|d s IH]; [by intros ?%elem_of_nil|]. cbn [encode_escapes].
  rewrite (bool_decide_eq_false_2 (encodeUserPassword = encodeQueryComponent)), andb_false_r by done.
  pose proof (user_fact d) as Hf. unfold user_facts in Hf. rewrite !andb_true_iff in Hf. destruct Hf as [[Ha Hb] Hd].
  destruct (shouldEscape d encodeUserPassword); cbn [list_ascii_of_string].
  - intros [->|[->|[->|?]%elem_of_cons]%elem_of_cons]%elem_of_cons; [done|done|done|by apply IH].
  - intros [->|?]%elem_of_cons; [done|by apply IH].
Qed.

Lemma validUserinfo_app s t : validUserinfo (s ++ t) = validUserinfo s && validUserinfo t.
Proof.
  unfold validUserinfo. induction s as [|c s IH]; [done|]. rewrite append_String. cbn [list_ascii_of_string forallb]. by rewrite IH, andb_assoc.
Qed.

Lemma parseAuthority_ok ui h : userinfo_ok ui → host_ok h = true → parseAuthority (user_part ui ++ h) = Ok (ui, h).
Proof.
  intros Hu Hh. pose proof (parseHost_ok h Hh) as Hp. unfold host_ok in Hh. apply andb_true_iff in Hh as [Hh _].
  assert (free_of "@" h) as Hat by (by apply (unescaped_free _ _ _ Hh)). unfold parseAuthority. destruct ui as [[name pass set]|]; cbn [user_part].
  - set (us := Userinfo_String (mkUserinfo name pass set)).
    assert ((us ++ "@") ++ h = us ++ String "@" h)%string as -> by (by rewrite append_assoc).
    rewrite LastIndexByte_app by done. rewrite (proj2 (Z.ltb_ge _ 0)) by lia.
    replace (Z.to_nat (Z.of_nat (String.length us) + 1)) with (String.length (us ++ "@")) by (rewrite length_app_string; cbn; lia).
    assert (skip (String.length (us ++ "@")) (us ++ String "@" h) = h) as ->.
    { replace (us ++ String "@" h)%string with ((us ++ "@") ++ h)%string by (by rewrite append_assoc). apply skip_app. }
    rewrite Hp. cbn [mbind result_bind]. rewrite Nat2Z.id, first_app.
    assert (validUserinfo us = true) as ->.
    { subst us. unfold Userinfo_String. cbn [username password passwordSet]. destruct set; [|apply userinfo_valid].
      rewrite !validUserinfo_app, !userinfo_valid. done. }
    cbn [negb]. assert (free_of ":" (escape name encodeUserPassword)) as Hc by (by apply escape_free).
    destruct set.
    + assert (us = escape name encodeUserPassword ++ String ":" (escape pass encodeUserPassword))%string as -> by done.
      rewrite ContainsRune_app by done. cbn [negb]. rewrite Cut_app by done. rewrite !unescape_escape by done. done.
    + assert (us = escape name encodeUserPassword) as -> by done. rewrite ContainsRune_free by done. cbn [negb].
      rewrite unescape_escape by done. cbn [mbind result_bind]. cbn in Hu. by rewrite Hu.
  - rewrite LastIndexByte_free by done. cbn [Z.ltb Z.compare]. change (EmptyString ++ h)%string with h. by rewrite Hp.
Qed.


Definition authority (u : URL) : string := (user_part (User u) ++ Host u)%string.

(** What the text of the authority and of the path leave out. *)
Lemma user_part_free ui c : c ≠ "%"%char → c ≠ "+"%char → c ≠ ":"%char → c ≠ "@"%char → shouldEscape c encodeUserPassword = true →
  free_of c (user_part ui).
Proof.
  intros Hp Hq H1 H2 Hc. destruct ui as [[name pass set]|]; [|apply free_of_nil]. cbn [user_part]. unfold Userinfo_String.
  cbn [username password passwordSet]. apply free_of_app. split; [|by apply free_of_cons; split; [|apply free_of_nil]].
  destruct set; [|by apply escape_free]. apply free_of_app. split; [by apply escape_free|]. apply free_of_app.
  split; [by apply free_of_cons; split; [|apply free_of_nil]|by apply escape_free].
Qed.

Lemma authority_free u c : url_ok u → c ≠ "%"%char → c ≠ "+"%char → c ≠ ":"%char → c ≠ "@"%char →
  shouldEscape c encodeUserPassword = true → shouldEscape c encodeHost = true → free_of c (authority u).
Proof.
  intros Hu Hp Hq H1 H2 Hc Hh. apply free_of_app. split; [by apply user_part_free|].
  pose proof (proj2 (uo_host _ Hu)) as Hok. unfold host_ok in Hok. apply andb_true_iff in Hok as [Hok _]. by apply (unescaped_free _ _ _ Hok).
Qed.

Lemma no_ctl_cons c s : stringContainsCTLByte (String c s) = ctl c || stringContainsCTLByte s.
Proof. done. Qed.

Lemma unescaped_no_ctl m s : unescaped m s = true → stringContainsCTLByte s = false.
Proof. intros Hs. rewrite <-(escape_unescaped m s Hs). apply escape_no_ctl. Qed.

Lemma body_no_ctl u : url_ok u → stringContainsCTLByte (body u) = false.
Proof.
  intros Hu. destruct (uo_scheme _ Hu) as (c & s & Hs & Hc & Hf). unfold body.
  rewrite no_ctl_app, !no_ctl_cons, !no_ctl_app, escape_no_ctl, Hs. rewrite no_ctl_cons, (plain_no_ctl s Hf).
  assert (ctl c = false) as ->.
  { apply not_true_iff_false. intros Hctl. destruct (ctl_escaped encodePath c Hctl) as (_ & _ & _ & Hn). by rewrite Hc in Hn. }
  pose proof (proj2 (uo_host _ Hu)) as Hok. unfold host_ok in Hok. apply andb_true_iff in Hok as [Hok _].
  rewrite (unescaped_no_ctl _ _ Hok).
  assert (stringContainsCTLByte (user_part (User u)) = false) as ->.
  { destruct (User u) as [[name pass []]|]; cbn [user_part]; unfold Userinfo_String; cbn [username password passwordSet];
      rewrite ?no_ctl_app, ?escape_no_ctl; done. }
  unfold query_part. destruct (bool_decide _); [done|]. rewrite no_ctl_cons, (proj2 (uo_query _ Hu)). done.
Qed.

Lemma scheme_free u : url_ok u → free_of "#" (Scheme u) ∧ free_of "?" (Scheme u).
Proof.
  intros Hu. destruct (uo_scheme _ Hu) as (c & s & -> & Hc & Hf).
  assert (∀ d, is_lower d || is_digit d || is_in "+-." d = false → free_of d (String c s)) as Hd; [|split; by apply Hd].
  intros d Hd. apply free_of_cons. split; [intros ->; by rewrite Hc in Hd|]. rewrite forallb_forall in Hf.
  intros Hin%list_elem_of_In%Hf. by rewrite Hin in Hd.
Qed.

Lemma body_free u : url_ok u → free_of "#" (body u).
Proof.
  intros Hu. unfold body. apply free_of_app. split; [by apply scheme_free|]. rewrite !free_of_cons. do 3 (split; [done|]).
  rewrite <-append_assoc. fold (authority u). apply free_of_app. split; [by apply authority_free|].
  apply free_of_app. split; [by apply escape_free|]. unfold query_part. destruct (bool_decide _); [apply free_of_nil|].
  apply free_of_cons. split; [done|]. by destruct (uo_query _ Hu).
Qed.

Definition scheme_facts (c : ascii) : bool := implb (is_lower c || is_digit c || is_in "+-." c) (bool_decide (plain c)).

Lemma scheme_fact c : scheme_facts c = true.
Proof. revert c. apply every_char. vm_compute. reflexivity. Qed.

Section ParseString.
Context `{UnicodeTables}.

Lemma ToLower_scheme c s : is_lower c = true → forallb (λ c, is_lower c || is_digit c || is_in "+-." c) (list_ascii_of_string s) = true →
  ToLower (String c s) = String c s.
Proof.
  intros Hc Hs. apply ToLower_plain. unfold plain_text. rewrite list.Forall_forall. cbn [list_ascii_of_string].
  assert (∀ d, is_lower d || is_digit d || is_in "+-." d = true → plain d) as Hp.
  { intros d Hd. pose proof (scheme_fact d) as Hf. unfold scheme_facts in Hf. rewrite Hd in Hf. by apply bool_decide_eq_true_1 in Hf. }
  rewrite forallb_forall in Hs. intros d [->|Hd%list_elem_of_In%Hs]%elem_of_cons; apply Hp; [by rewrite Hc|done].
Qed.

Lemma HasPrefix_slash s : HasPrefix (String "/" s) "/" = true.
Proof. unfold HasPrefix. cbn. by destruct s. Qed.

Lemma HasPrefix_slashes s : HasPrefix (String "/" (String "/" s)) "//" = true.
Proof. unfold HasPrefix. cbn. by destruct s. Qed.

Lemma parse_body u : url_ok u → parse (body u) false =
  Ok (mkURL (Scheme u) EmptyString (User u) (Host u) (Path u) EmptyString false false (RawQuery u) EmptyString EmptyString).
Proof.
  intros Hu. pose proof (body_no_ctl u Hu) as Hctl. pose proof (scheme_free u Hu) as [_ Hsq].
  destruct (uo_scheme _ Hu) as (c & s & Hs & Hc & Hf). unfold parse. rewrite Hctl.
  assert (body u ≠ EmptyString ∧ body u ≠ "*"%string) as [Hb1 Hb2].
  { unfold body. rewrite Hs, append_String. split; [done|]. intros [= -> _]. done. }
  rewrite (bool_decide_eq_false_2 _ Hb1), (bool_decide_eq_false_2 _ Hb2). cbn [andb].
  unfold body. rewrite Hs. rewrite getScheme_ok by done. cbn [mbind result_bind]. rewrite ToLower_scheme by done.
  set (before := String "/" (String "/" (authority u ++ escape (Path u) encodePath))).
  assert (String "/" (String "/" (user_part (User u) ++ Host u ++ escape (Path u) encodePath ++ query_part (RawQuery u))) =
          before ++ query_part (RawQuery u))%string as ->.
  { subst before. unfold authority. rewrite !append_String, !append_assoc. done. }
  assert (free_of "?" before) as Hbq.
  { subst before. rewrite !free_of_cons. do 2 (split; [done|]). apply free_of_app. split; [by apply authority_free|by apply escape_free]. }
  assert ((if HasSuffix (before ++ query_part (RawQuery u)) "?" && (Count (before ++ query_part (RawQuery u)) "?" =? 1)
           then (true, first (String.length (before ++ query_part (RawQuery u)) - 1) (before ++ query_part (RawQuery u)), EmptyString)
           else let '(a, b, _) := Cut (before ++ query_part (RawQuery u)) "?" in (false, a, b)) = (false, before, RawQuery u)) as ->.
  { unfold query_part. destruct (decide (RawQuery u = EmptyString)) as [E|E].
    - rewrite bool_decide_eq_true_2, append_nil_r by done. rewrite no_query, Cut_free by done. by rewrite E.
    - rewrite bool_decide_eq_false_2 by done. rewrite no_bare_query, Cut_app by done. done. }
  assert (HasPrefix before "/" = true ∧ HasPrefix before "//" = true) as [-> ->] by (split; [apply HasPrefix_slash|apply HasPrefix_slashes]).
  cbn [negb andb orb]. rewrite (bool_decide_eq_false_2 (String c s = EmptyString)) by done. cbn [negb orb andb].
  change (skip 2 before) with (authority u ++ escape (Path u) encodePath)%string.
  assert (free_of "/" (authority u)) as Hsl by (by apply authority_free).
  assert (∃ p, (if (0 <=? IndexByte (authority u ++ escape (Path u) encodePath) "/")%Z
     then (first (Z.to_nat (IndexByte (authority u ++ escape (Path u) encodePath) "/")) (authority u ++ escape (Path u) encodePath),
           skip (Z.to_nat (IndexByte (authority u ++ escape (Path u) encodePath) "/")) (authority u ++ escape (Path u) encodePath))
     else (authority u ++ escape (Path u) encodePath, EmptyString))%string = (authority u, p) ∧ p = escape (Path u) encodePath) as (p & -> & ->).
  { destruct (uo_path _ Hu) as [->|[q ->]].
    - change (escape EmptyString encodePath) with EmptyString. rewrite append_nil_r, IndexByte_free by done. by eexists.
    - rewrite escape_eq. cbn [encode_escapes]. change (bool_decide ("/"%char = " "%char) && bool_decide (encodePath = encodeQueryComponent)) with false.
      change (shouldEscape "/" encodePath) with false. cbn iota. rewrite IndexByte_app by done.
      rewrite (proj2 (Z.leb_le 0 _)) by lia. rewrite Nat2Z.id, first_app, skip_app. by eexists. }
  unfold authority. rewrite (parseAuthority_ok _ _ (uo_user _ Hu) (proj2 (uo_host _ Hu))). cbn [mbind result_bind].
  unfold setPath. rewrite unescape_escape by done. cbn [mbind result_bind]. by rewrite bool_decide_eq_true_2.
Qed.

(** A URL is read back from its text. *)
Lemma Parse_printed u : url_ok u → Parse (URL_String u) = Ok u.
Proof.
  intros Hu. rewrite (URL_String_parts u Hu). unfold Parse. pose proof (body_free u Hu) as Hf.
  destruct (uo_raw _ Hu) as (Hr1 & Hr2 & Hr3 & Hr4). pose proof (uo_opaque _ Hu) as Ho.
  destruct (decide (Fragment u = EmptyString)) as [E|E].
  - rewrite bool_decide_eq_true_2, append_nil_r, Cut_free by done. rewrite (parse_body u Hu). cbn [mbind result_bind].
    rewrite bool_decide_eq_true_2 by done. f_equal. destruct u. cbn in *. by subst.
  - rewrite (bool_decide_eq_false_2 (Fragment u = EmptyString)), Cut_app by done. rewrite (parse_body u Hu). cbn [mbind result_bind].
    assert (escape (Fragment u) encodeFragment ≠ EmptyString) as Hne.
    { intros He. pose proof (unescape_escape encodeFragment (Fragment u) eq_refl) as Hun. rewrite He in Hun. injection Hun as Hun. by apply E. }
    rewrite bool_decide_eq_false_2 by done. unfold setFragment. rewrite unescape_escape by done. cbn [mbind result_bind].
    rewrite bool_decide_eq_true_2 by done. f_equal. destruct u. cbn in *. by subst.
Qed.
End ParseString.

(** ** Query values in a query *)
Definition setting (kx : string * string) : string := (QueryEscape kx.1 ++ String "=" (QueryEscape kx.2))%string.

(** The settings joined by ampersands, as [encode_key] adds them to a buffer. *)
Definition add_setting (buf s : string) : string := ((if bool_decide (buf = EmptyString) then buf else buf ++ "&") ++ s)%string.

Fixpoint join (ss : list string) : string :=
  match ss with
  | [] => EmptyString
  | [s] => s
  | s :: ss => (s ++ String "&" (join ss))%string
  end.

Lemma add_settings buf ss : buf ≠ EmptyString → foldl add_setting buf ss = match ss with [] => buf | _ => (buf ++ String "&" (join ss))%string end.
Proof.
  revert buf. induction ss as [|s ss IH]; [done|]; intros buf Hb. cbn [foldl]. unfold add_setting at 2.
  rewrite bool_decide_eq_false_2 by done. rewrite append_assoc, append_String. cbn [append].
  rewrite IH by (by destruct buf). destruct ss; [done|]. by rewrite append_assoc, append_String.
Qed.

Lemma join_settings ss : Forall (λ s, s ≠ EmptyString) ss → foldl add_setting EmptyString ss = join ss.
Proof.
  intros Hs. destruct Hs as [|s ss Hs _]; [done|]. cbn [foldl]. unfold add_setting at 2.
  rewrite bool_decide_eq_true_2 by done. cbn [append]. rewrite add_settings by done. by destruct ss.
Qed.

Lemma Split_join ss : ss ≠ [] → Forall (free_of "&") ss → Split (join ss) "&" = ss.
Proof.
  intros Hne Hf. induction Hf as [|s ss Hs Hf IH]; [done|]. destruct ss as [|s' ss]; [by apply Split_free|].
  change (join (s :: s' :: ss)) with (s ++ String "&" (join (s' :: ss)))%string. rewrite Split_app by done. by rewrite IH.
Qed.

Lemma setting_free kx c : c ≠ "%"%char → c ≠ "+"%char → c ≠ "="%char → shouldEscape c encodeQueryComponent = true → free_of c (setting kx).
Proof. intros H1 H2 H3 Hc. apply free_of_app. split; [by apply escape_free|]. apply free_of_cons. split; [done|by apply escape_free]. Qed.

Lemma setting_nonempty kx : setting kx ≠ EmptyString.
Proof. unfold setting. by destruct (QueryEscape kx.1). Qed.

Lemma parse_setting_ok m kx : parse_setting (m, None) (setting kx) = (Values_Add m kx.1 kx.2, None).
Proof.
  unfold parse_setting. rewrite ContainsRune_free by (by apply setting_free). rewrite bool_decide_eq_false_2 by apply setting_nonempty.
  unfold setting. rewrite Cut_app by (by apply escape_free). unfold QueryUnescape, QueryEscape. by rewrite !unescape_escape.
Qed.

Lemma parse_settings m kxs : foldl parse_setting (m, None) (setting <$> kxs) = (foldl (λ m kx, Values_Add m kx.1 kx.2) m kxs, None).
Proof. revert m. induction kxs as [|kx kxs IH]; [done|]; intros m. rewrite fmap_cons. cbn [foldl]. by rewrite parse_setting_ok, IH. Qed.

(** The pairs that [Values_Encode] writes, in its order. *)
Definition pairs_of (v : Values) (ks : list string) : list (string * string) := ks ≫= λ k, pair k <$> default [] (v !! k).

Lemma Encode_pairs v : Values_Encode v = foldl add_setting EmptyString (setting <$> pairs_of v (merge_sort String.leb (elements (dom v)))).
Proof.
  unfold Values_Encode. generalize EmptyString as buf. generalize (merge_sort String.leb (elements (dom v))) as ks.
  induction ks as [|k ks IH]; [done|]; intros buf. cbn [foldl]. rewrite IH. unfold pairs_of. cbn [mbind list_bind].
  rewrite fmap_app, foldl_app. f_equal. unfold encode_key. generalize (default [] (v !! k)) as xs. intros xs. revert buf.
  induction xs as [|x xs IHx]; [done|]; intros buf. cbn [foldl fmap list_fmap]. by rewrite IHx.
Qed.

Lemma add_values m k x xs : foldl (λ m kx, Values_Add m kx.1 kx.2) m (pair k <$> x :: xs) = <[k := default [] (m !! k) ++ x :: xs]> m.
Proof.
  revert m x. induction xs as [|y xs IH]; [done|]; intros m x.
  change (foldl (λ m kx, Values_Add m kx.1 kx.2) (Values_Add m k x) (pair k <$> y :: xs) = <[k := default [] (m !! k) ++ x :: y :: xs]> m).
  rewrite IH. unfold Values_Add. rewrite lookup_insert_eq, insert_insert_eq. cbn [default from_option id]. by rewrite <-app_assoc.
Qed.

Definition all_valued (v : Values) : Prop := map_Forall (λ _ xs, xs ≠ []) v.

#[export] Instance all_valued_dec v : Decision (all_valued v).
Proof. unfold all_valued. apply _. Defined.

Lemma add_pairs v ks m k : all_valued v → NoDup ks → (∀ k, k ∈ ks → is_Some (v !! k) ∧ m !! k = None) →
  foldl (λ m kx, Values_Add m kx.1 kx.2) m (pairs_of v ks) !! k = if decide (k ∈ ks) then v !! k else m !! k.
Proof.
  intros Hv Hnd. revert m. induction Hnd as [|j ks Hj Hnd IH]; [done|]; intros m Hks.
  unfold pairs_of. cbn [mbind list_bind]. rewrite foldl_app. destruct (Hks j ltac:(left)) as [[xs Hxs] Hmj].
  pose proof (Hv j xs Hxs) as Hne. rewrite Hxs. cbn [default from_option id]. destruct xs as [|x xs]; [done|].
  rewrite add_values, Hmj. cbn [default from_option id app]. fold (pairs_of v ks). rewrite IH.
  - destruct (decide (k ∈ ks)) as [Hk|Hk].
    + by rewrite decide_True by by right.
    + destruct (decide (k = j)) as [->|Hkj].
      * rewrite decide_True by left. by rewrite lookup_insert_eq.
      * rewrite lookup_insert_ne by done. by rewrite decide_False by (by intros [?|?]%elem_of_cons).
  - intros i Hi. destruct (Hks i ltac:(by right)) as [Hs Hm]. split; [done|]. rewrite lookup_insert_ne; [done|]. by intros ->.
Qed.

(** The values of a query are read back from it, each with its values in order. *)
Lemma ParseQuery_Encode v : all_valued v → ParseQuery (Values_Encode v) = (v, None).
Proof.
  intros Hv. rewrite Encode_pairs. set (ks := merge_sort String.leb (elements (dom v))).
  assert (∀ k, k ∈ ks ↔ is_Some (v !! k)) as Hks.
  { intros k. subst ks. by rewrite (merge_sort_Permutation String.leb), elem_of_elements, elem_of_dom. }
  assert (NoDup ks) as Hnd by (subst ks; rewrite (merge_sort_Permutation String.leb); apply NoDup_elements).
  rewrite join_settings by (apply list.Forall_fmap, list.Forall_true; apply setting_nonempty). unfold ParseQuery.
  assert (foldl parse_setting (∅, None) (Split (join (setting <$> pairs_of v ks)) "&") =
          foldl parse_setting (∅, None) (setting <$> pairs_of v ks)) as ->.
  { destruct (pairs_of v ks) as [|kx kxs]; [done|]. rewrite Split_join; [done..|].
    apply list.Forall_fmap, list.Forall_true. intros. by apply setting_free. }
  rewrite parse_settings. f_equal. apply map_eq. intros k. rewrite add_pairs; [|done..|].
  - destruct (decide (k ∈ ks)) as [|Hk]; [done|]. rewrite lookup_empty. rewrite Hks in Hk. symmetry. by apply eq_None_not_Some.
  - intros i Hi. split; [by apply Hks|apply lookup_empty].
Qed.

Definition sample_values : Values := <["obfs" := ["salamander"]]> (<["obfs-password" := ["a&b=c"; "%"]]> ∅).

(** A query [Values_Encode] writes can be put into a URL. *)
Lemma encoded_query v : free_of "#" (Values_Encode v) ∧ stringContainsCTLByte (Values_Encode v) = false.
Proof.
  rewrite Encode_pairs. rewrite join_settings by (apply list.Forall_fmap, list.Forall_true; apply setting_nonempty).
  generalize (pairs_of v (merge_sort String.leb (elements (dom v)))) as kxs. induction kxs as [|kx kxs [IH1 IH2]]; [by split; [apply free_of_nil|]|].
  assert (free_of "#" (setting kx) ∧ stringContainsCTLByte (setting kx) = false) as [H1 H2].
  { split; [by apply setting_free|]. unfold setting, QueryEscape. by rewrite no_ctl_app, no_ctl_cons, !escape_no_ctl. }
  rewrite fmap_cons. destruct (setting <$> kxs) as [|s ss] eqn:E; [done|]. change (join (setting kx :: s :: ss)) with (setting kx ++ String "&" (join (s :: ss)))%string.
  rewrite free_of_app, free_of_cons, no_ctl_app, no_ctl_cons, H2, IH2. done.
Qed.

(** C17: a URL with a scheme, a host with ports or ranges of them, any user name
    and password, an absolute path or none and a fragment is read back from its
    text as it was, whatever bytes its parts hold; and so are the values of its
    query, each with its values in order. *)
Theorem Parse_String `{UnicodeTables} u v : url_ok u → all_valued v → RawQuery u = Values_Encode v →
  Parse (URL_String u) = Ok u ∧ ParseQuery (RawQuery u) = (v, None).
Proof. intros Hu Hv ->. split; [by apply Parse_printed|by apply ParseQuery_Encode]. Qed.

#[local] Instance sample_tables : UnicodeTables := {| wide_lower s := s |}.

Definition sample_url : URL :=
  mkURL "chameleon" EmptyString (Some (UserPassword "me" "a:b@c/%")) "[::1]:443-500,900" "/a b?" EmptyString false false
    (Values_Encode sample_values) "x#y" EmptyString.

Lemma Parse_String_witness : url_ok sample_url ∧
  Parse (URL_String sample_url) = Ok sample_url ∧ ParseQuery (RawQuery sample_url) = (sample_values, None).
Proof.
  assert (url_ok sample_url) as Hu.
  { split; try done.
    - by exists "c"%char, "hameleon"%string.
    - right. by exists "a b?"%string.
    - apply encoded_query. }
  assert (all_valued sample_values) as Hv by (by apply (bool_decide_unpack _); vm_compute).
  split; [exact Hu|exact (Parse_String sample_url sample_values Hu Hv eq_refl)].
Defined.

Example sample_text : URL_String sample_url =
  "chameleon://me:a%3Ab%40c%2F%25@[::1]:443-500,900/a%20b%3F?obfs=salamander&obfs-password=a%26b%3Dc&obfs-password=%25#x%23y"%string.
Proof. vm_compute. reflexivity. Qed.
