(* ===== verification/Base64.v ===== *)
(** * Base64 (the standard library's encoding/base64)

    The four encodings the program decodes: the standard and the URL alphabet,
    with and without padding, none of them strict. *)
From S2P Require Import GoStd Prelude Utf8.

Definition letters : string := "ABCDEFGHIJKLMNOPQRSTUVWXYZabcdefghijklmnopqrstuvwxyz0123456789".

Record Encoding := mkEncoding { alphabet : string; padded : bool }.
Definition StdEncoding : Encoding := mkEncoding (letters ++ "+/") true.
Definition RawStdEncoding : Encoding := mkEncoding (letters ++ "+/") false.
Definition URLEncoding : Encoding := mkEncoding (letters ++ "-_") true.
Definition RawURLEncoding : Encoding := mkEncoding (letters ++ "-_") false.

Definition symbol (e : Encoding) (v : Z) : ascii := default "="%char (list_ascii_of_string (alphabet e) !! Z.to_nat v).

Definition sextet (e : Encoding) (c : ascii) : option Z :=
  let i := Strings.IndexByte (alphabet e) c in if i <? 0 then None else Some i.

(** [EncodeToString]. *)
Fixpoint encode (e : Encoding) (b : bytes) : list ascii :=
  match b with
  | [] => []
  | [x] =>
      let x := Z_of_byte x in
      symbol e (x / 4) :: symbol e (x mod 4 * 16) :: if padded e then ["="; "="]%char else []
  | [x; y] =>
      let x := Z_of_byte x in let y := Z_of_byte y in
      symbol e (x / 4) :: symbol e (x mod 4 * 16 + y / 16) :: symbol e (y mod 16 * 4) :: if padded e then ["="]%char else []
  | x :: y :: z :: b =>
      let x := Z_of_byte x in let y := Z_of_byte y in let z := Z_of_byte z in
      symbol e (x / 4) :: symbol e (x mod 4 * 16 + y / 16) :: symbol e (y mod 16 * 4 + z / 64) :: symbol e (z mod 64) :: encode e b
  end.

Definition EncodeToString (e : Encoding) (b : bytes) : string := string_of_list_ascii (encode e b).

(** A group of four characters, of which the last one or two may be padding
    when they end the text; without padding the last group is shorter. *)
Fixpoint decode (e : Encoding) (s : list ascii) : option bytes :=
  match s with
  | [] => Some []
  | c0 :: c1 :: rest =>
      a ← sextet e c0; b ← sextet e c1;
      let x := byte_of_Z (a * 4 + b / 16) in
      match rest with
      | [] => if padded e then None else Some [x]
      | c2 :: rest =>
          if padded e && bool_decide (c2 = "="%char) then (if decide (rest = ["="%char]) then Some [x] else None) else
          c ← sextet e c2;
          let y := byte_of_Z (b mod 16 * 16 + c / 4) in
          match rest with
          | [] => if padded e then None else Some [x; y]
          | c3 :: rest =>
              if padded e && bool_decide (c3 = "="%char) then (if decide (rest = []) then Some [x; y] else None) else
              d ← sextet e c3;
              tl ← decode e rest;
              Some (x :: y :: byte_of_Z (c mod 4 * 64 + d) :: tl)
          end
      end
  | _ => None
  end.

(** [DecodeString]: line breaks are skipped wherever they are. *)
Definition DecodeString (e : Encoding) (s : string) : option bytes :=
  decode e (filter (λ c, c ≠ "010"%char ∧ c ≠ "013"%char) (list_ascii_of_string s)).

(** ** What is encoded is decoded *)
Definition symbol_facts (e : Encoding) : bool :=
  forallb (λ n, let c := symbol e (Z.of_nat n) in
    bool_decide (sextet e c = Some (Z.of_nat n)) && negb (bool_decide (c = "="%char)) && (33 <=? code c) && (code c <? 127)) (seq 0 64).

Class GoodAlphabet (e : Encoding) := good_alphabet : symbol_facts e = true.
#[export] Instance StdEncoding_good : GoodAlphabet StdEncoding.
Proof. vm_compute. reflexivity. Qed.
#[export] Instance URLEncoding_good : GoodAlphabet URLEncoding.
Proof. vm_compute. reflexivity. Qed.
#[export] Instance RawStdEncoding_good : GoodAlphabet RawStdEncoding.
Proof. vm_compute. reflexivity. Qed.
#[export] Instance RawURLEncoding_good : GoodAlphabet RawURLEncoding.
Proof. vm_compute. reflexivity. Qed.

#[local] Ltac Zify.zify_post_hook ::= Z.to_euclidean_division_equations.

Section Roundtrip.
Context (e : Encoding) `{!GoodAlphabet e}.

Lemma symbol_fact v : 0 <= v < 64 → sextet e (symbol e v) = Some v ∧ symbol e v ≠ "="%char ∧ visible (symbol e v).
Proof.
  intros Hv. pose proof good_alphabet as H. unfold symbol_facts in H. rewrite forallb_forall in H.
  specialize (H (Z.to_nat v) ltac:(apply in_seq; lia)). cbv zeta in H. rewrite Z2Nat.id in H by lia.
  apply andb_true_iff in H as [[[H1%bool_decide_eq_true_1 H2%negb_true_iff%bool_decide_eq_false_1]%andb_true_iff H3%Z.leb_le]%andb_true_iff H4%Z.ltb_lt].
  done.
Qed.

Lemma symbol_sextet v : 0 <= v < 64 → sextet e (symbol e v) = Some v.
Proof. apply symbol_fact. Qed.

Lemma symbol_not_pad v : 0 <= v < 64 → bool_decide (symbol e v = "="%char) = false.
Proof. intros Hv. by apply bool_decide_eq_false_2, symbol_fact. Qed.

Lemma first_parts x k : 0 <= k < 16 → x / 4 * 4 + (x mod 4 * 16 + k) / 16 = x.
Proof. intros. rewrite Z.div_add_l, (Z.div_small k) by lia. lia. Qed.

Lemma second_parts h y k : 0 <= y < 256 → 0 <= k < 4 → (h * 16 + y / 16) mod 16 * 16 + (y mod 16 * 4 + k) / 4 = y.
Proof.
  intros. rewrite Z.div_add_l, (Z.div_small k) by lia. rewrite (Z.add_comm (h * 16)), Z.mod_add, Z.mod_small by lia. lia.
Qed.

Lemma third_parts h z : 0 <= z < 256 → (h * 4 + z / 64) mod 4 * 64 + z mod 64 = z.
Proof. intros. rewrite (Z.add_comm (h * 4)), Z.mod_add, Z.mod_small by lia. lia. Qed.

Lemma byte_of_parts x v : v = Z_of_byte x → byte_of_Z v = x.
Proof. intros ->. apply byte_of_Z_of_byte. Qed.

Lemma decode_encoded b : decode e (encode e b) = Some b.
Proof.
  induction b as [b IH] using (induction_ltof1 _ length). unfold ltof in IH.
  destruct b as [|x [|y [|z b]]]; [done|..]; pose proof (Z_of_byte_bound x) as Hx.
  - cbn [encode]. cbv zeta. cbn [decode]. rewrite !symbol_sextet by lia. cbn [mbind option_bind].
    replace (Z_of_byte x mod 4 * 16) with (Z_of_byte x mod 4 * 16 + 0) by lia.
    rewrite (byte_of_parts x) by (by rewrite first_parts by lia).
    destruct (padded e); cbn [andb]; [|done]. rewrite bool_decide_eq_true_2 by done. by rewrite decide_True.
  - pose proof (Z_of_byte_bound y). cbn [encode]. cbv zeta. cbn [decode]. rewrite !symbol_sextet by lia. cbn [mbind option_bind].
    rewrite symbol_not_pad, andb_false_r by lia. rewrite ?symbol_sextet by lia. cbn [mbind option_bind].
    replace (Z_of_byte y mod 16 * 4) with (Z_of_byte y mod 16 * 4 + 0) by lia.
    rewrite (byte_of_parts x) by (by rewrite first_parts by lia). rewrite (byte_of_parts y) by (by rewrite second_parts by lia).
    destruct (padded e); cbn [andb]; [|done]. rewrite bool_decide_eq_true_2 by done. by rewrite decide_True.
  - pose proof (Z_of_byte_bound y). pose proof (Z_of_byte_bound z). cbn [encode]. cbv zeta. cbn [decode].
    rewrite !symbol_sextet by lia. cbn [mbind option_bind]. rewrite symbol_not_pad, andb_false_r by lia. rewrite ?symbol_sextet by lia.
    cbn [mbind option_bind]. rewrite symbol_not_pad, andb_false_r by lia. rewrite ?symbol_sextet by lia. cbn [mbind option_bind].
    rewrite IH by (cbn; lia). cbn [mbind option_bind].
    rewrite (byte_of_parts x) by (by rewrite first_parts by lia). rewrite (byte_of_parts y) by (by rewrite second_parts by lia).
    by rewrite (byte_of_parts z) by (by rewrite third_parts by lia).
Qed.

Lemma encode_visible b : Forall visible (encode e b).
Proof.
  assert (visible "="%char) as Hp by done.
  induction b as [b IH] using (induction_ltof1 _ length). unfold ltof in IH.
  destruct b as [|x [|y [|z b]]]; [constructor|..]; pose proof (Z_of_byte_bound x) as Hx; cbn [encode]; cbv zeta;
    try pose proof (Z_of_byte_bound y); try pose proof (Z_of_byte_bound z);
    repeat (apply list.Forall_cons; split; [apply symbol_fact; lia|]);
    [destruct (padded e); repeat constructor; done..|]. apply IH. cbn. lia.
Qed.

Lemma DecodeString_EncodeToString b : DecodeString e (EncodeToString e b) = Some b.
Proof.
  unfold DecodeString, EncodeToString. rewrite list_ascii_of_string_of_list_ascii.
  assert (filter (λ c, c ≠ "010"%char ∧ c ≠ "013"%char) (encode e b) = encode e b) as ->.
  { induction (encode_visible b) as [|c l Hc _ IH]; [done|]. rewrite filter_cons_True, IH; [done|].
    unfold visible in Hc. split; intros ->; unfold code in Hc; cbn in Hc; lia. }
  apply decode_encoded.
Qed.

Lemma TrimSpace_encoded b : TrimSpace (EncodeToString e b) = EncodeToString e b.
Proof. apply TrimSpace_visible. unfold EncodeToString. rewrite list_ascii_of_string_of_list_ascii. apply encode_visible. Qed.
End Roundtrip.
