(* ===== verification/Ech.v ===== *)
(** * Encrypted Client Hello keys and configuration lists (app/internal/utils/ech.go)

    The server loads its keys from a PEM file and derives from them the list
    of configurations that it publishes; the client is given that list, in
    base64 or in a file.  Reading files and the PEM format are arguments. *)
From S2P Require Import GoStd Prelude Utf8 Base64.

Inductive ech_error : Type :=
| truncatedPrefix | prefixExceedsData                       (* readU16Prefixed *)
| trailingData | truncatedHeader | noConfigs                (* validateECHConfigList *)
| noPEMBlock | noKeyEntries | invalidECHKeys (e : ech_error) (* LoadECHKeys *)
| emptyConfigList | unreadable (path : string) | noValidList.

(** [tls.EncryptedClientHelloKey]. *)
Record ECHKey := mkKey { Config : bytes; PrivateKey : bytes; SendAsRetry : bool }.

(** Files, and the first PEM block of some data: its type, its bytes and what
    follows it, which is shorter. *)
Class Files := { os_ReadFile : string → option bytes }.
Class Pem := {
  pem_Decode : bytes → option (string * bytes * bytes);
  pem_Decode_shorter b ty x rest : pem_Decode b = Some (ty, x, rest) → (length rest < length b)%nat }.

Definition pemBlockECHKeys : string := "ECH KEYS".
Definition pemBlockECHConfigs : string := "ECH CONFIGS".

(** ** Length-prefixed data *)
Definition readU16Prefixed (data : bytes) : result ech_error (bytes * bytes) :=
  if len data <? 2 then Err truncatedPrefix else
  let n := be_Z (take 2 data) in
  if len data <? 2 + n then Err prefixExceedsData
  else Ok (take (Z.to_nat n) (drop 2 data), drop (2 + Z.to_nat n) data).

(** The configurations of a list's body: how many there are.  Every one takes
    at least four bytes, so that the body's length is enough fuel. *)
Fixpoint count_configs (fuel : nat) (body : bytes) (n : Z) : result ech_error Z :=
  match body, fuel with
  | [], _ => Ok n
  | _, O => Err truncatedHeader
  | _, S fuel =>
      if len body <? 4 then Err truncatedHeader else
      '(_, next) ← readU16Prefixed (drop 2 body);
      count_configs fuel next (n + 1)
  end.

Definition validateECHConfigList (list : bytes) : result ech_error () :=
  '(body, rest) ← readU16Prefixed list;
  if negb (len rest =? 0) then Err trailingData else
  n ← count_configs (length body) body 0;
  if n =? 0 then Err noConfigs else Ok ().

(** ** Keys *)
Fixpoint parse_keys (fuel : nat) (blob : bytes) (keys : list ECHKey) : result ech_error (list ECHKey) :=
  match blob, fuel with
  | [], _ => Ok keys
  | _, O => Err (invalidECHKeys truncatedPrefix)
  | _, S fuel =>
      match readU16Prefixed blob with
      | Err e => Err (invalidECHKeys e)
      | Ok (priv, rest) =>
          match readU16Prefixed rest with
          | Err e => Err (invalidECHKeys e)
          | Ok (config, rest2) => parse_keys fuel rest2 (keys ++ [mkKey config priv false])
          end
      end
  end.

Definition parseECHKeysBlob (blob : bytes) : result ech_error (list ECHKey) := parse_keys (length blob) blob [].

Definition marshalConfigListFromKeys (keys : list ECHKey) : bytes :=
  let body := concat (Config <$> keys) in
  be_bytes 2 (u16 (len body)) ++ body.

Section Loading.
Context `{Files} `{Pem}.

(** The block of [blockType], looked for while there are PEM blocks. *)
Fixpoint find_block (fuel : nat) (data : bytes) (blockType : string) : option bytes :=
  match fuel with
  | O => None
  | S fuel =>
      match pem_Decode data with
      | None => None
      | Some (ty, x, rest) => if decide (ty = blockType) then Some x else find_block fuel rest blockType
      end
  end.

Definition findPEMBlock (data : bytes) (blockType : string) : option bytes := find_block (S (length data)) data blockType.

Definition LoadECHKeys (path : string) : result ech_error (list ECHKey * bytes) :=
  match os_ReadFile path with
  | None => Err (unreadable path)
  | Some data =>
      match findPEMBlock data pemBlockECHKeys with
      | None => Err noPEMBlock
      | Some blob =>
          keys ← parseECHKeysBlob blob;
          if len keys =? 0 then Err noKeyEntries else
          let keys := (λ k, mkKey (Config k) (PrivateKey k) true) <$> keys in
          Ok (keys, marshalConfigListFromKeys keys)
      end
  end.

(** The first of the encodings in which the text decodes to a valid list. *)
Fixpoint decode_in (encs : list Encoding) (s : string) : option bytes :=
  match encs with
  | [] => None
  | e :: encs =>
      match DecodeString e s with
      | Some raw => match validateECHConfigList raw with Ok _ => Some raw | Err _ => decode_in encs s end
      | None => decode_in encs s
      end
  end.

Definition decodeECHConfigList (s : string) : option bytes :=
  decode_in [StdEncoding; RawStdEncoding; URLEncoding; RawURLEncoding] (TrimSpace s).

(** [string(data)]. *)
Definition string_of_bytes (b : bytes) : string := string_of_list_ascii (ascii_of_byte <$> b).

Definition ParseECHConfigList (s : string) : result ech_error bytes :=
  let s := TrimSpace s in
  if decide (s = EmptyString) then Err emptyConfigList else
  match decodeECHConfigList s with
  | Some list => Ok list
  | None =>
      match os_ReadFile s with
      | None => Err (unreadable s)
      | Some data =>
          match findPEMBlock data pemBlockECHConfigs with
          | Some blob => _ ← validateECHConfigList blob; Ok blob
          | None => match decodeECHConfigList (string_of_bytes data) with Some list => Ok list | None => Err noValidList end
          end
      end
  end.
End Loading.

(** ** The server's list is what the client reads *)

(** A length and that many bytes. *)
Definition prefixed (b : bytes) : bytes := be_bytes 2 (len b) ++ b.

Lemma readU16Prefixed_app b rest : len b < 65536 → readU16Prefixed (prefixed b ++ rest) = Ok (b, rest).
Proof.
  intros Hb. unfold readU16Prefixed, prefixed. pose proof (len_nonneg b). pose proof (len_nonneg rest).
  assert (take 2 ((be_bytes 2 (len b) ++ b) ++ rest) = be_bytes 2 (len b)) as ->.
  { rewrite <-app_assoc. apply take_app_length'. by rewrite length_be_bytes. }
  rewrite be_Z_be_bytes_small by (change (256 ^ Z.of_nat 2) with 65536; lia).
  assert (len ((be_bytes 2 (len b) ++ b) ++ rest) = 2 + len b + len rest) as ->.
  { rewrite !len_app. unfold len at 1. rewrite length_be_bytes. lia. }
  rewrite !(proj2 (Z.ltb_ge _ _)) by lia. f_equal.
  assert (Z.to_nat (len b) = length b) as -> by (unfold len; lia).
  rewrite <-app_assoc. rewrite drop_app_length' by (by rewrite length_be_bytes). rewrite take_app_length. f_equal.
  rewrite app_assoc. apply drop_app_length'. rewrite length_app, length_be_bytes. lia.
Qed.

Lemma readU16Prefixed_inv data b rest : readU16Prefixed data = Ok (b, rest) → data = prefixed b ++ rest ∧ len b < 65536.
Proof.
  unfold readU16Prefixed. destruct (Z.ltb_spec (len data) 2) as [|H2]; [done|].
  destruct (Z.ltb_spec (len data) (2 + be_Z (take 2 data))) as [|Hn]; [done|]. intros [= <- <-].
  assert (length (take 2 data) = 2%nat) as Ht by (rewrite length_take; unfold len in *; lia).
  pose proof (be_Z_bound (take 2 data)) as Hb. unfold len at 1 in Hb. rewrite Ht in Hb. change (256 ^ Z.of_nat 2) with 65536 in Hb.
  assert (len (take (Z.to_nat (be_Z (take 2 data))) (drop 2 data)) = be_Z (take 2 data)) as Hl.
  { unfold len in *. rewrite length_take, length_drop. lia. }
  split; [|lia]. unfold prefixed. rewrite Hl. rewrite <-Ht at 1. rewrite be_bytes_be_Z.
  set (k := Z.to_nat _). rewrite <-app_assoc. rewrite <-(take_drop 2 data) at 1. f_equal.
  rewrite <-(take_drop k (drop 2 data)) at 1. by rewrite drop_drop.
Qed.

(** A configuration: a version, and a body with its length. *)
Definition config_ok (c : bytes) : Prop := ∃ version body, length version = 2%nat ∧ len body < 65536 ∧ c = version ++ prefixed body.

Lemma count_configs_concat cs fuel n : Forall config_ok cs → (length (concat cs) <= fuel)%nat → count_configs fuel (concat cs) n = Ok (n + len cs).
Proof.
  intros Hcs. revert fuel n. induction Hcs as [|c cs (v & b & Hv & Hb & ->) Hcs IH]; intros fuel n Hf.
  - cbn [concat]. destruct fuel; cbn [count_configs]; by rewrite Z.add_0_r.
  - cbn [concat] in *. pose proof (length_be_bytes 2 (len b)) as Hp.
    destruct v as [|v0 [|v1 [|]]]; try done. assert (length (prefixed b) = 2 + length b)%nat as Hpl by (unfold prefixed; by rewrite length_app, Hp).
    cbn [app] in *. destruct fuel as [|fuel]; [cbn in Hf; lia|]. cbn [count_configs].
    rewrite (proj2 (Z.ltb_ge _ 4)).
    + rewrite drop_0 || (cbn [drop]; rewrite drop_0). rewrite readU16Prefixed_app by done. cbn [mbind result_bind].
      rewrite IH; [f_equal; rewrite len_cons; lia|]. revert Hf. cbn [length]. rewrite !length_app. lia.
    + rewrite !len_cons, !len_app. unfold len at 1. rewrite Hpl. pose proof (len_nonneg (concat cs)). lia.
Qed.

Definition keys_ok (keys : list ECHKey) : Prop :=
  keys ≠ [] ∧ Forall (λ k, config_ok (Config k)) keys ∧ len (concat (Config <$> keys)) < 65536.

Lemma marshal_valid keys : keys_ok keys → validateECHConfigList (marshalConfigListFromKeys keys) = Ok ().
Proof.
  intros (Hne & Hcs & Hl). unfold marshalConfigListFromKeys, validateECHConfigList. cbv zeta.
  pose proof (len_nonneg (concat (Config <$> keys))). rewrite wrapU_small by (change (2 ^ 16) with 65536; lia).
  fold (prefixed (concat (Config <$> keys))). rewrite <-(app_nil_r (prefixed _)), readU16Prefixed_app by done.
  cbn [mbind result_bind]. change (negb (len (@nil byte) =? 0)) with false. cbn iota.
  rewrite count_configs_concat by (done || by apply list.Forall_fmap). cbn [mbind result_bind].
  rewrite (proj2 (Z.eqb_neq _ 0)); [done|]. destruct keys; [done|]. rewrite fmap_cons, len_cons. pose proof (len_nonneg (Config <$> keys)). lia.
Qed.

Lemma parse_keys_step fuel blob keys : blob ≠ [] → parse_keys (S fuel) blob keys =
  match readU16Prefixed blob with
  | Err e => Err (invalidECHKeys e)
  | Ok (priv, rest) =>
      match readU16Prefixed rest with
      | Err e => Err (invalidECHKeys e)
      | Ok (config, rest2) => parse_keys fuel rest2 (keys ++ [mkKey config priv false])
      end
  end.
Proof. by destruct blob. Qed.

Lemma parse_keys_blob keys fuel acc : Forall (λ k, len (Config k) < 65536 ∧ len (PrivateKey k) < 65536 ∧ SendAsRetry k = false) keys →
  (length (keys ≫= λ k, prefixed (PrivateKey k) ++ prefixed (Config k)) <= fuel)%nat →
  parse_keys fuel (keys ≫= λ k, prefixed (PrivateKey k) ++ prefixed (Config k)) acc = Ok (acc ++ keys).
Proof.
  intros Hk. revert fuel acc. induction Hk as [|[c p r] ks (Hc & Hp & Hr) Hk IH]; intros fuel acc Hf.
  - cbn [mbind list_bind]. destruct fuel; cbn [parse_keys]; by rewrite app_nil_r.
  - cbn [mbind list_bind Config PrivateKey SendAsRetry] in *. subst r. rewrite <-app_assoc in *.
    assert (length (prefixed p) = 2 + length p)%nat as Hpl by (unfold prefixed; by rewrite length_app, length_be_bytes).
    destruct fuel as [|fuel]; [rewrite length_app in Hf; lia|].
    rewrite parse_keys_step; [|intros [E _]%app_nil; by rewrite E in Hpl]. rewrite !readU16Prefixed_app by done.
    rewrite IH; [by rewrite <-app_assoc|]. rewrite !length_app in Hf. lia.
Qed.

Section Agreement.
Context `{Files} `{Pem}.

(** A valid list in base64 is what [ParseECHConfigList] reads, whatever the
    files hold. *)
Lemma ParseECHConfigList_encoded list : validateECHConfigList list = Ok () →
  ParseECHConfigList (EncodeToString StdEncoding list) = Ok list.
Proof.
  intros Hv. unfold ParseECHConfigList. cbv zeta. rewrite TrimSpace_encoded by apply _. rewrite decide_False.
  - unfold decodeECHConfigList. rewrite TrimSpace_encoded by apply _. cbn [decode_in].
    by rewrite (DecodeString_EncodeToString StdEncoding), Hv.
  - intros He. pose proof (DecodeString_EncodeToString StdEncoding list) as Hd. rewrite He in Hd.
    change (DecodeString StdEncoding EmptyString) with (Some (@nil byte)) in Hd. injection Hd as <-. done.
Qed.

(** What a key file holds: the private keys and the configurations, each with
    its length. *)
Definition key_blob (keys : list ECHKey) : bytes := keys ≫= λ k, prefixed (PrivateKey k) ++ prefixed (Config k).

Definition retry (k : ECHKey) : ECHKey := mkKey (Config k) (PrivateKey k) true.

(** The server that loads a file of keys has every key of it, marked for
    retries, and the list that it publishes is valid and is what a client reads
    from its base64 form. *)
Theorem ech_agree path data keys : os_ReadFile path = Some data → findPEMBlock data pemBlockECHKeys = Some (key_blob keys) →
  keys_ok keys → Forall (λ k, len (Config k) < 65536 ∧ len (PrivateKey k) < 65536 ∧ SendAsRetry k = false) keys →
  ∃ list, LoadECHKeys path = Ok (retry <$> keys, list) ∧ validateECHConfigList list = Ok () ∧
    ParseECHConfigList (EncodeToString StdEncoding list) = Ok list.
Proof.
  intros Hr Hp Hok Hks. exists (marshalConfigListFromKeys (retry <$> keys)). unfold LoadECHKeys. rewrite Hr, Hp.
  unfold parseECHKeysBlob, key_blob. rewrite parse_keys_blob by done. cbn [app mbind result_bind].
  assert (keys_ok (retry <$> keys)) as Hok'.
  { destruct Hok as (Hne & Hc & Hl). assert (Config <$> (retry <$> keys) = Config <$> keys) as E by (by rewrite <-list_fmap_compose).
    split; [by intros ?%fmap_nil_inv|]. rewrite E. by split; [apply list.Forall_fmap|]. }
  split; [|by split; [apply marshal_valid|apply ParseECHConfigList_encoded, marshal_valid]].
  rewrite (proj2 (Z.eqb_neq _ 0)); [done|]. destruct Hok as [Hne _]. destruct keys; [done|].
  rewrite len_cons. pose proof (len_nonneg keys). lia.
Qed.
End Agreement.

(** A file whose whole content is one block of keys. *)
#[local] Instance sample_pem : Pem.
Proof.
  refine {| pem_Decode b := match b with [] => None | _ => Some (pemBlockECHKeys, b, []) end |}.
  intros [|x b] ty y rest [= <- <- <-]. cbn. lia.
Defined.

Definition sample_config : bytes := byte_of_Z <$> [0xfe; 0x0d] ++ [0; 3] ++ [1; 2; 3].
Definition sample_keys : list ECHKey := [mkKey sample_config (byte_of_Z <$> [7; 8]) false; mkKey sample_config [] false].

#[local] Instance sample_files : Files := {| os_ReadFile path := if decide (path = "ech.pem"%string) then Some (key_blob sample_keys) else None |}.

Lemma ech_agree_witness : os_ReadFile "ech.pem" = Some (key_blob sample_keys) ∧
  ∃ list, LoadECHKeys "ech.pem" = Ok (retry <$> sample_keys, list) ∧ validateECHConfigList list = Ok () ∧
    ParseECHConfigList (EncodeToString StdEncoding list) = Ok list.
Proof.
  split; [done|]. apply (ech_agree "ech.pem" (key_blob sample_keys) sample_keys).
  - done.
  - vm_compute. reflexivity.
  - split; [done|]. split; [|vm_compute; reflexivity].
    assert (config_ok sample_config) by (exists (byte_of_Z <$> [0xfe; 0x0d]), (byte_of_Z <$> [1; 2; 3]); done).
    by repeat constructor.
  - by repeat constructor.
Defined.

Example ech_base64 : EncodeToString StdEncoding (marshalConfigListFromKeys sample_keys) = "AA7+DQADAQID/g0AAwECAw=="%string.
Proof. vm_compute. reflexivity. Qed.

(** A list longer than its length prefix can say is not valid: the length of
    its body is cut to sixteen bits. *)
Definition long_keys : list ECHKey := replicate 2 (mkKey (be_bytes 2 0xfe0d ++ prefixed (replicate (Z.to_nat 32764) Byte.x00)) [] false).

Example long_list_refused : validateECHConfigList (marshalConfigListFromKeys long_keys) = Err trailingData.
Proof. vm_compute. reflexivity. Qed.
