(* ===== verification/Settings.v ===== *)
(** * Settings that both programs read (app/cmd, app/internal/utils/bpsconv.go)

    Bandwidths, the names of congestion controllers, and what is derived from
    the obfuscation password: the padding seed, the punch mask and the
    obfuscator itself.  The cache of stretched passwords is passed along. *)
From S2P Require Import GoStd Prelude Utf8 Net Bbr Config Obfs Gecko Punch.
Import Strings.

(** ** Bandwidths (bpsconv.go) *)
Definition Byte_ : Z := 1.
Definition Kilobyte : Z := Byte_ * 1000.
Definition Megabyte : Z := Kilobyte * 1000.
Definition Gigabyte : Z := Megabyte * 1000.
Definition Terabyte : Z := Gigabyte * 1000.

Inductive bps_error := invalidFormat | badNumber | unsupportedUnit.

(** The index of the first character that is not a digit, 0 when there is none. *)
Fixpoint digits_end (s : string) (i : nat) : nat :=
  match s with EmptyString => O | String c s => if is_digit c then digits_end s (S i) else i end.

Section Bandwidth.
Context `{UnicodeTables}.

Definition unit_of (unit : string) : option Z :=
  let among (names : list string) := bool_decide (ToLower unit ∈ names) in
  if among ["b"; "bps"]%string then Some Byte_
  else if among ["k"; "kb"; "kbps"]%string then Some Kilobyte
  else if among ["m"; "mb"; "mbps"]%string then Some Megabyte
  else if among ["g"; "gb"; "gbps"]%string then Some Gigabyte
  else if among ["t"; "tb"; "tbps"]%string then Some Terabyte
  else None.

Definition StringToBps (s : string) : result bps_error Z :=
  let s := ToLower (TrimSpace s) in
  let spl := digits_end s 0 in
  if Nat.eqb spl 0 then Err invalidFormat else
  let '(v, err) := Strconv.ParseUint (Strings.first spl s) 64 in
  if err then Err badNumber else
  match unit_of (TrimSpace (Strings.skip spl s)) with
  | Some m => Ok (quot (u64 (v * m)) 8)
  | None => Err unsupportedUnit
  end.

(** [ConvBandwidth] on the strings of a configuration file. *)
Definition ConvBandwidth (bw : string) : result bps_error Z := StringToBps bw.
End Bandwidth.

(** ** Errors (errors.go)

    The reasons that come from other packages are kept as their values. *)
Inductive reason : Type :=
| Text (s : string)
| UnsupportedName (value : string)
| BpsError (e : bps_error)
| ObfsError (e : obfs_error)
| GeckoError (e : gecko_error)
| LibraryError (e : string).

Record configError := mkConfigError { Field : string; Err_ : reason }.

(** ** Congestion controllers (congestion.go) *)
Section Congestion.
Context `{UnicodeTables}.
Definition congestionTypeBBR : string := "bbr".
Definition congestionTypeReno : string := "reno".

Definition normalizeCongestionType (congestionType : string) : result reason string :=
  let normalized := ToLower congestionType in
  if bool_decide (normalized = ""%string) || bool_decide (normalized = congestionTypeBBR) then Ok congestionTypeBBR
  else if bool_decide (normalized = congestionTypeReno) then Ok congestionTypeReno
  else Err (UnsupportedName congestionType).

Definition normalizeBBRProfile (profile : string) : result reason string :=
  let normalized := ToLower profile in
  if bool_decide (normalized = ""%string) || bool_decide (normalized = "standard"%string) then Ok "standard"%string
  else if bool_decide (normalized = "conservative"%string) || bool_decide (normalized = "aggressive"%string) then Ok normalized
  else Err (UnsupportedName profile).
End Congestion.

(** ** Obfuscation *)

(** The obfs section, the same in the files of both programs. *)
Record salamanderV2Config := mkV2Config { v2_Password : string; v2_Realm : string }.
Record geckoConfig := mkGeckoConfig { g_Password : string; g_MinPacketSize : Z; g_MaxPacketSize : Z }.
Record obfsConfig := mkObfs { Type_ : string; Salamander : string; SalamanderV2 : salamanderV2Config; Gecko : geckoConfig }.

(** The connection below QUIC: bare, or wrapped. *)
Inductive obfuscated :=
| Bare
| WrappedSalamander (psk : bytes)
| WrappedSalamanderV2 (o : salamanderV2)
| WrappedGecko (g : geckoPacketConn).

Abbreviation KdfCache := (gmap (bytes * string) bytes).

Section Obfuscation.
Context `{UnicodeTables} `{Primitives}.

Definition obfsPassword (o : obfsConfig) : string :=
  let t := ToLower (Type_ o) in
  if bool_decide (t = "salamander"%string) then Salamander o
  else if bool_decide (t = "salamander-v2"%string) then v2_Password (SalamanderV2 o)
  else if bool_decide (t = "gecko"%string) then g_Password (Gecko o)
  else EmptyString.

Definition paddingSeedLen : Z := 32.
Definition CtxAppPadding : string := "chameleon/protocol/padding-v1".

Definition paddingSeed (password realm : string) (cache : KdfCache) : KdfCache * result obfs_error bytes :=
  let '(cache, root) := StretchPassword (string_bytes password) realm cache in
  (cache, root ← root; DeriveSubkey root CtxAppPadding paddingSeedLen).

(** The seed for the core configuration: none without a password. *)
Definition fillPaddingSeed (o : obfsConfig) (cache : KdfCache) : KdfCache * result configError (option bytes) :=
  let password := obfsPassword o in
  if bool_decide (password = EmptyString) then (cache, Ok None) else
  let '(cache, seed) := paddingSeed password (v2_Realm (SalamanderV2 o)) cache in
  (cache, match seed with Ok s => Ok (Some s) | Err e => Err (mkConfigError "obfs" (ObfsError e)) end).

(** [clock]: what the corrected clock reads when the obfuscator is made. *)
Definition wrapObfs (o : obfsConfig) (role : Role) (clock : Z) (cache : KdfCache) : KdfCache * result configError obfuscated :=
  let t := ToLower (Type_ o) in
  if bool_decide (t = ""%string) || bool_decide (t = "plain"%string) then (cache, Ok Bare)
  else if bool_decide (t = "salamander"%string) then
    (cache, match newSalamanderObfuscator (string_bytes (Salamander o)) with
            | Ok psk => Ok (WrappedSalamander psk)
            | Err e => Err (mkConfigError "obfs.salamander.password" (ObfsError e)) end)
  else if bool_decide (t = "salamander-v2"%string) then
    let '(cache, ob) := NewSalamanderV2 (string_bytes (v2_Password (SalamanderV2 o))) (v2_Realm (SalamanderV2 o)) role clock cache in
    (cache, match ob with Ok ob => Ok (WrappedSalamanderV2 ob) | Err e => Err (mkConfigError "obfs.salamanderV2" (ObfsError e)) end)
  else if bool_decide (t = "gecko"%string) then
    (cache, match WrapPacketConnGecko (mkGeckoOptions (string_bytes (g_Password (Gecko o))) (g_MinPacketSize (Gecko o)) (g_MaxPacketSize (Gecko o))) with
            | Ok g => Ok (WrappedGecko g)
            | Err e => Err (mkConfigError "obfs.gecko" (GeckoError e)) end)
  else (cache, Err (mkConfigError "obfs.type" (Text "unsupported obfuscation type"))).

(** *** Punching (realm_punch_mask.go, realm_punch_length.go) *)
Definition errRealmPunchNeedsObfs : reason := Text "realm punching requires obfs.type salamander-v2, so the punch mask key has a password to derive from and the punch packets have a measured background to hide in".
Definition errRealmPunchNeedsV2 : reason := Text "realm punching requires obfs.type salamander-v2: it is the only obfuscator whose traffic the punch packet lengths were measured against".

Definition punchMaskOrConfigError (field password realmName : string) (cache : KdfCache) : KdfCache * result configError PunchMask :=
  let '(cache, mask) := NewPunchMask (string_bytes password) realmName cache in
  (cache, match mask with Ok m => Ok m | Err e => Err (mkConfigError field (ObfsError e)) end).

Definition realmPunchMask (o : obfsConfig) (cache : KdfCache) : KdfCache * result configError PunchMask :=
  let t := ToLower (Type_ o) in
  if bool_decide (t = ""%string) || bool_decide (t = "plain"%string) then (cache, Err (mkConfigError "obfs.type" errRealmPunchNeedsObfs))
  else if bool_decide (t = "salamander"%string) || bool_decide (t = "gecko"%string) then (cache, Err (mkConfigError "obfs.type" errRealmPunchNeedsV2))
  else if bool_decide (t = "salamander-v2"%string)
  then punchMaskOrConfigError "obfs.salamanderV2.password" (v2_Password (SalamanderV2 o)) (v2_Realm (SalamanderV2 o)) cache
  else (cache, Err (mkConfigError "obfs.type" (Text "unsupported obfuscation type"))).

(** [obfs.WireOverheadOf]: the bytes a datagram grows by, when that is fixed. *)
Definition WireOverheadOf (conn : obfuscated) : option Z :=
  match conn with
  | WrappedSalamander _ => Some smSaltLen
  | WrappedSalamanderV2 _ => Some smV2Overhead
  | Bare | WrappedGecko _ => None
  end.

Definition quicFullDatagramSize : Z := 1439.
Definition quicFullDatagramSizeServer : Z := 1441.

Definition punchWireLen (obfsType : string) (probe : obfuscated) (fullDatagram : Z) : Z :=
  match WireOverheadOf probe with
  | None => 0
  | Some overhead =>
      let t := ToLower obfsType in
      if bool_decide (t = "salamander"%string) || bool_decide (t = "salamander-v2"%string) then fullDatagram + overhead else 0
  end.

Definition realmPunchWireLen (obfsType : string) (probe : obfuscated) : Z := punchWireLen obfsType probe quicFullDatagramSize.
Definition realmPunchWireLenServer (obfsType : string) (probe : obfuscated) : Z := punchWireLen obfsType probe quicFullDatagramSizeServer.

(** [warnDeprecatedObfs]: which of its two warnings it logs. *)
Definition warnDeprecatedObfs (obfsType : string) (chromeParrot : bool) : bool * bool :=
  if bool_decide (ToLower obfsType = "gecko"%string) then (true, chromeParrot) else (false, false).
End Obfuscation.

(** ** Bandwidths are read exactly, in 64 bits *)
Lemma digits_end_app s c t i : Strconv.all_digits s = true → is_digit c = false →
  digits_end (s ++ String c t) i = (i + String.length s)%nat.
Proof.
  intros Hs Hc. revert i. induction s as [|d s IH]; intros i.
  - change (digits_end ("" ++ String c t) i) with (if is_digit c then digits_end t (S i) else i). rewrite Hc. cbn [String.length]. lia.
  - unfold Strconv.all_digits in Hs. cbn in Hs. apply andb_true_iff in Hs as [Hd Hs]. change (digits_end (String d s ++ String c t) i) with (if is_digit d then digits_end (s ++ String c t) (S i) else i).
    rewrite Hd, IH by done. cbn [String.length]. lia.
Qed.

Section BandwidthFacts.
Context `{UnicodeTables}.

Lemma unit_of_spec u m : plain_text u → unit_of u = Some m → (∃ c r, u = String c r ∧ is_digit c = false) ∧ 0 < m <= 10 ^ 12.
Proof.
  intros Hu. unfold unit_of. cbv zeta. rewrite (ToLower_plain u Hu).
  assert (∀ names (m' : Z), forallb (λ n, match n with String c _ => negb (is_digit c) | _ => false end) names = true → 0 < m' <= 10 ^ 12 →
    u ∈ names → Some m' = Some m → (∃ c r, u = String c r ∧ is_digit c = false) ∧ 0 < m <= 10 ^ 12) as Hgo.
  { intros names m' Hn Hm' Hin [= <-]. split; [|done]. rewrite forallb_forall in Hn. apply list_elem_of_In, Hn in Hin.
    destruct u as [|c r]; [done|]. exists c, r. by destruct (is_digit c). }
  repeat (case_bool_decide as Hin; [intros Hm; refine (Hgo _ _ _ _ Hin Hm); [reflexivity|by vm_compute]|clear Hin]). done.
Qed.

(** A number and a unit are read as that many bits per second, in bytes;
    the product is taken in 64 bits, so that the result is right exactly when it
    fits them, and is below 2^61 in any case. *)
Theorem StringToBps_spec v unit m : 0 <= v < 2 ^ 64 → plain_text unit → unit_of unit = Some m →
  ∃ r, StringToBps (Strconv.FormatUint v ++ unit) = Ok r ∧ 0 <= r < 2 ^ 61 ∧ (r = v * m / 8 ↔ v * m < 2 ^ 64).
Proof.
  intros Hv Hu Hm. destruct (unit_of_spec unit m Hu Hm) as [(c & rest & Eu & Hc) Hmb].
  exists (quot (u64 (v * m)) 8). pose proof (wrapU_bound 64 (v * m) ltac:(lia)) as Hw.
  rewrite Z.quot_div_nonneg by lia. change (2 ^ 61) with (2 ^ 64 / 8). split; [|split].
  - unfold StringToBps. assert (plain_text (Strconv.FormatUint v ++ unit)) as Hp by (apply plain_text_app; [apply FormatUint_plain; lia|done]).
    rewrite (TrimSpace_plain _ Hp), (ToLower_plain _ Hp). cbv zeta.
    assert (digits_end (Strconv.FormatUint v ++ unit) 0 = String.length (Strconv.FormatUint v)) as ->.
    { rewrite Eu, digits_end_app; [done| |done]. apply Strconv.FormatUint_loop_digits; [lia|done]. }
    destruct (Nat.eqb_spec (String.length (Strconv.FormatUint v)) 0) as [E|_].
    { destruct (Strconv.FormatUint v) eqn:F; [|done]. by apply Strconv.FormatUint_nonempty in F. }
    rewrite first_app, skip_app. rewrite Strconv.ParseUint_FormatUint by (unfold MaxUint64; lia).
    rewrite (TrimSpace_plain unit Hu), Hm. rewrite Z.quot_div_nonneg by lia. done.
  - split; [apply Z.div_pos; lia|]. change (2 ^ 64 / 8) with 2305843009213693952. change (2 ^ 64) with 18446744073709551616 in Hw.
    apply Z.div_lt_upper_bound; lia.
  - split; intros E.
    + destruct (Z.lt_ge_cases (v * m) (2 ^ 64)) as [|Hge]; [done|]. exfalso.
      assert (2 ^ 64 / 8 <= v * m / 8) by (apply Z.div_le_mono; lia).
      assert (u64 (v * m) / 8 < 2 ^ 64 / 8); [|lia]. change (2 ^ 64 / 8) with 2305843009213693952. change (2 ^ 64) with 18446744073709551616 in *.
      apply Z.div_lt_upper_bound; lia.
    + by rewrite wrapU_small by nia.
Qed.
End BandwidthFacts.

#[local] Instance sample_tables : UnicodeTables := {| wide_lower s := s |}.

Lemma StringToBps_spec_witness : 0 <= 100 < 2 ^ 64 ∧
  ∃ r, StringToBps (Strconv.FormatUint 100 ++ "mbps") = Ok r ∧ 0 <= r < 2 ^ 61 ∧ (r = 100 * Megabyte / 8 ↔ 100 * Megabyte < 2 ^ 64).
Proof.
  split; [done|]. apply (StringToBps_spec 100 "mbps" Megabyte).
  - done.
  - apply (bool_decide_unpack _). vm_compute. exact I.
  - vm_compute. reflexivity.
Defined.

Example Bps_samples : StringToBps " 100 Mbps " = Ok 12500000 ∧ StringToBps "1g" = Ok 125000000 ∧ StringToBps "100" = Err invalidFormat
  ∧ StringToBps "18446744073710 mbps" = Ok 56048.
Proof. vm_compute. repeat split. Qed.

(** ** The two ends of a deployment *)
Section Ends.
Context `{UnicodeTables} `{Primitives}.

(** The cache holds nothing for the password and the realm, or their key.  A
    process stretches no other password, and starts with an empty cache. *)
Definition faithful (password : bytes) (realm : string) (cache : KdfCache) : Prop :=
  ∀ rk, cache !! (sha256 password, realm) = Some rk → rk = stretch password realm.

Lemma faithful_empty password realm : faithful password realm ∅.
Proof. by intros rk Hrk. Qed.

Lemma StretchPassword_faithful password realm cache : faithful password realm cache →
  faithful password realm (StretchPassword password realm cache).1 ∧
  (StretchPassword password realm cache).2 = if len password <? MinPasswordLen then Err ErrPasswordTooShort else Ok (stretch password realm).
Proof.
  intros Hf. unfold StretchPassword. destruct (len password <? MinPasswordLen); [done|].
  destruct (cache !! _) as [rk|] eqn:E; [by rewrite (Hf rk E)|]. split; [|done].
  intros rk. cbn [fst]. rewrite lookup_insert_eq. by intros [= <-].
Qed.

(** What is derived from a password and a realm. *)
Definition derived {A} (password : bytes) (k : bytes → result obfs_error A) (realm : string) : result obfs_error A :=
  if len password <? MinPasswordLen then Err ErrPasswordTooShort else k (stretch password realm).

Lemma paddingSeed_faithful password realm cache : faithful (string_bytes password) realm cache →
  faithful (string_bytes password) realm (paddingSeed password realm cache).1 ∧
  (paddingSeed password realm cache).2 = derived (string_bytes password) (λ root, DeriveSubkey root CtxAppPadding paddingSeedLen) realm.
Proof.
  intros Hf%StretchPassword_faithful. unfold paddingSeed, derived. destruct (StretchPassword _ _ _) as [c r]. cbn [fst snd] in *.
  destruct Hf as [Hf ->]. split; [done|]. by destruct (_ <? _).
Qed.

Definition pairOf (root : bytes) (role : Role) (now : Z) : result obfs_error salamanderV2 :=
  c2s ← DeriveSubkey root CtxSalamanderV2C2S smV2KeyLen;
  s2c ← DeriveSubkey root CtxSalamanderV2S2C smV2KeyLen;
  let '(sk, rk) := match role with RoleServer => (s2c, c2s) | RoleClient => (c2s, s2c) end in
  Ok {| sendKey := sk; recvKey := rk; bootTime := now; replay := newReplaySet; stats := zero_stats |}.

Lemma NewSalamanderV2_faithful password realm role now cache : faithful password realm cache →
  faithful password realm (NewSalamanderV2 password realm role now cache).1 ∧
  (NewSalamanderV2 password realm role now cache).2 =
    if len password =? 0 then Err ErrPasswordRequired else derived password (λ root, pairOf root role now) realm.
Proof.
  intros Hf. unfold NewSalamanderV2, derived. destruct (len password =? 0); [done|].
  apply StretchPassword_faithful in Hf. destruct (StretchPassword _ _ _) as [c r]. cbn [fst snd] in *.
  destruct Hf as [Hf ->]. split; [done|]. by destruct (_ <? _).
Qed.

(** A datagram of the client, once obfuscated, is what the server reads. *)
Definition interoperate (client server : obfuscated) : Prop :=
  match client, server with
  | Bare, Bare => True
  | WrappedSalamander c, WrappedSalamander s => ∀ salt data now t addr cap rest,
      length salt = 8%nat → 0 < len data <= cap → len data + smSaltLen <= udpBufferSize →
      Obfs.ReadFrom cap (mkDatagram (Obfs.WriteTo salt data now (c, zero_stats)).1 addr false t :: rest) (s, zero_stats)
      = ((s, zero_stats), Some (data, addr, false), rest)
  | WrappedSalamanderV2 c, WrappedSalamanderV2 s => ∀ salt data tc t addr cap rest,
      length salt = 12%nat → 0 < len data <= cap → len data + smV2Overhead <= udpBufferSize →
      0 <= Unix tc < 2 ^ 32 → Z.abs (Unix tc - Unix t) <= 30 → Unix (bootTime s) <= Unix tc → bootTime s <= t < bootTime s + 2 ^ 62 →
      ∃ s', Obfs.ReadFrom cap (mkDatagram (Obfs.WriteTo salt data tc c).1 addr false t :: rest) s = (s', Some (data, addr, false), rest)
  | WrappedGecko c, WrappedGecko s => c = s
  | _, _ => False
  end.

Lemma salamander_delivers psk salt data now t addr cap rest :
  length salt = 8%nat → 0 < len data <= cap → len data + smSaltLen <= udpBufferSize →
  Obfs.ReadFrom cap (mkDatagram (Obfs.WriteTo salt data now (psk, zero_stats)).1 addr false t :: rest) (psk, zero_stats)
  = ((psk, zero_stats), Some (data, addr, false), rest).
Proof.
  intros Hs Hd Hfit. unfold Obfs.WriteTo, ob_Obfuscate. cbn [salamander_obfuscator fst].
  destruct (Obfuscate psk salt data udpBufferSize) as [wire|] eqn:Hw.
  2:{ exfalso. revert Hw. unfold Obfuscate. by rewrite (proj2 (Z.ltb_ge _ _)) by lia. }
  pose proof (Deobfuscate_Obfuscate psk salt data udpBufferSize wire cap Hs Hd Hw) as Hde.
  assert (len wire = 8 + len data) as Hl.
  { revert Hw. unfold Obfuscate. destruct (_ <? _); [done|]. intros [= <-]. unfold len. rewrite length_app, xor_key_length, Hs. lia. }
  cbn [default from_option]. cbn [Obfs.ReadFrom dg_data dg_addr dg_err dg_now]. change (id wire) with wire.
  unfold smSaltLen, udpBufferSize, len in *. rewrite take_ge by lia. rewrite (proj2 (Z.leb_gt _ 0)) by lia.
  cbn [ob_Deobfuscate salamander_obfuscator fst snd]. by rewrite Hde.
Qed.

Lemma wrapped_v2_interoperate password realm tc ts c s :
  derived password (λ root, pairOf root RoleClient tc) realm = Ok c → derived password (λ root, pairOf root RoleServer ts) realm = Ok s →
  interoperate (WrappedSalamanderV2 c) (WrappedSalamanderV2 s).
Proof.
  intros Hc Hs salt data t0 t addr cap rest H1 H2 H3 H4 H5 H6 H7.
  assert ((len password =? 0) = false) as Hne.
  { revert Hc. unfold derived. destruct (Z.ltb_spec (len password) MinPasswordLen) as [|Hl]; [done|]. intros _.
    apply Z.eqb_neq. unfold MinPasswordLen in Hl. lia. }
  destruct (NewSalamanderV2_faithful password realm RoleClient tc ∅ (faithful_empty _ _)) as [Hf1 Hn1]. rewrite Hne, Hc in Hn1.
  destruct (NewSalamanderV2 password realm RoleClient tc ∅) as [cache1 r1] eqn:E1. cbn [fst snd] in *. subst r1.
  destruct (NewSalamanderV2_faithful password realm RoleServer ts cache1 Hf1) as [_ Hn2]. rewrite Hne, Hs in Hn2.
  destruct (NewSalamanderV2 password realm RoleServer ts cache1) as [cache2 r2] eqn:E2. cbn [fst snd] in *. subst r2.
  assert (bootTime s = ts) as Hb by (by destruct (NewSalamanderV2_paired _ _ _ _ _ _ _ _ _ _ eq_refl E1 E2) as (_ & _ & _ & Hb & _)).
  rewrite Hb in *. by eapply SalamanderV2_delivers.
Qed.

Lemma pairOf_err root role role' now now' e : pairOf root role now = Err e → pairOf root role' now' = Err e.
Proof. unfold pairOf. destruct (DeriveSubkey _ _ _); [done|]. cbn [mbind result_bind]. destruct (DeriveSubkey _ _ _); [done|]. by destruct role, role'. Qed.

Definition both_or_neither (client server : result configError obfuscated) : Prop :=
  match client, server with
  | Ok c, Ok s => interoperate c s
  | Err e, Err e' => e = e'
  | _, _ => False
  end.

Lemma wrapObfs_ends o tc ts cacheC cacheS :
  let password := string_bytes (obfsPassword o) in let realm := v2_Realm (SalamanderV2 o) in
  faithful password realm cacheC → faithful password realm cacheS →
  faithful password realm (wrapObfs o RoleServer ts cacheS).1 ∧
  both_or_neither (wrapObfs o RoleClient tc cacheC).2 (wrapObfs o RoleServer ts cacheS).2.
Proof.
  cbv zeta. unfold wrapObfs, obfsPassword. cbv zeta. set (t := ToLower (Type_ o)).
  destruct (bool_decide (t = "")); [by intros _ ?|]. destruct (bool_decide (t = "plain")); [by intros _ ?|]. cbn [orb].
  destruct (bool_decide (t = "salamander")).
  { intros _ Hf. split; [done|]. cbn [snd]. destruct (newSalamanderObfuscator _) as [|psk] eqn:E; [done|]. intros ?????????. by apply salamander_delivers. }
  destruct (bool_decide (t = "salamander-v2")).
  { intros HC%(NewSalamanderV2_faithful _ _ RoleClient tc) HS%(NewSalamanderV2_faithful _ _ RoleServer ts).
    destruct (NewSalamanderV2 _ _ RoleClient tc cacheC) as [cc rc], (NewSalamanderV2 _ _ RoleServer ts cacheS) as [cs rs].
    cbn [fst snd] in *. destruct HC as [_ ->], HS as [HS ->]. split; [done|]. set (pw := string_bytes _).
    destruct (len pw =? 0); [done|].
    destruct (derived pw (λ root, pairOf root RoleClient tc) _) as [e|c] eqn:Hc, (derived pw (λ root, pairOf root RoleServer ts) _) as [e'|s] eqn:Hs; cbn [both_or_neither].
    - revert Hc Hs. unfold derived. destruct (_ <? _); [by intros [= <-] [= <-]|]. intros Hc%(pairOf_err _ _ RoleServer _ ts). rewrite Hc. by intros [= <-].
    - revert Hc Hs. unfold derived. destruct (_ <? _); [done|]. intros Hc%(pairOf_err _ _ RoleServer _ ts). by rewrite Hc.
    - revert Hc Hs. unfold derived. destruct (_ <? _); [done|]. intros Hc Hs%(pairOf_err _ _ RoleClient _ tc). by rewrite Hs in Hc.
    - by eapply wrapped_v2_interoperate. }
  destruct (bool_decide (t = "gecko")); intros _ Hf; (split; [done|]); [|done]. cbn [snd]. by destruct (WrapPacketConnGecko _).
Qed.

Lemma fillPaddingSeed_faithful o cache :
  let password := string_bytes (obfsPassword o) in let realm := v2_Realm (SalamanderV2 o) in
  faithful password realm cache →
  faithful password realm (fillPaddingSeed o cache).1 ∧
  (fillPaddingSeed o cache).2 = (fillPaddingSeed o ∅).2.
Proof.
  cbv zeta. intros Hf. unfold fillPaddingSeed. case_bool_decide; [done|].
  destruct (paddingSeed_faithful _ _ _ Hf) as [Hf' Hs], (paddingSeed_faithful (obfsPassword o) (v2_Realm (SalamanderV2 o)) ∅ (faithful_empty _ _)) as [_ Hs'].
  destruct (paddingSeed _ _ cache) as [c1 r1], (paddingSeed _ _ ∅) as [c2 r2]. cbn [fst snd] in *. split; [done|]. by rewrite Hs, Hs'.
Qed.

(** Two sections say the same of the obfuscator that engages: what the other
    obfuscators' fields hold, and the letter case of the type, do not matter. *)
Definition agree (o o' : obfsConfig) : Prop :=
  ToLower (Type_ o) = ToLower (Type_ o') ∧ obfsPassword o = obfsPassword o' ∧ v2_Realm (SalamanderV2 o) = v2_Realm (SalamanderV2 o') ∧
  g_MinPacketSize (Gecko o) = g_MinPacketSize (Gecko o') ∧ g_MaxPacketSize (Gecko o) = g_MaxPacketSize (Gecko o').

Lemma agree_wrapObfs o o' role now cache : agree o o' → wrapObfs o role now cache = wrapObfs o' role now cache.
Proof.
  intros (Ht & Hp & Hr & Hmin & Hmax). unfold wrapObfs, obfsPassword in *. cbv zeta. rewrite <-Ht in *. rewrite Hr, Hmin, Hmax.
  destruct (bool_decide (_ = "")); [done|]. destruct (bool_decide (_ = "plain")); [done|]. cbn [orb].
  destruct (bool_decide (_ = "salamander")); [by rewrite Hp|]. destruct (bool_decide (_ = "salamander-v2")); [by rewrite Hp|].
  destruct (bool_decide (_ = "gecko")); [by rewrite Hp|done].
Qed.

Lemma agree_fillPaddingSeed o o' cache : agree o o' → fillPaddingSeed o cache = fillPaddingSeed o' cache.
Proof. intros (_ & Hp & Hr & _). unfold fillPaddingSeed. by rewrite Hp, Hr. Qed.


Lemma mask_type o cache cache' mask : realmPunchMask o cache = (cache', Ok mask) → ToLower (Type_ o) = "salamander-v2"%string.
Proof.
  unfold realmPunchMask. cbv zeta. destruct (_ || _); [done|]. destruct (_ || _); [done|]. by case_bool_decide.
Qed.

Lemma wrapObfs_v2 o role now cache cache' ob : ToLower (Type_ o) = "salamander-v2"%string → wrapObfs o role now cache = (cache', Ok ob) →
  (∃ v, ob = WrappedSalamanderV2 v) ∧ realmPunchWireLen (Type_ o) ob = 1471 ∧ realmPunchWireLenServer (Type_ o) ob = 1473.
Proof.
  intros E. unfold wrapObfs. rewrite E. cbn zeta. repeat (rewrite bool_decide_eq_false_2 by done). rewrite bool_decide_eq_true_2 by done. cbn [orb].
  destruct (NewSalamanderV2 _ _ _ _ _) as [k [e|v]]; [done|]. intros [= <- <-].
  split; [by exists v|]. unfold realmPunchWireLen, realmPunchWireLenServer, punchWireLen. cbn [WireOverheadOf]. by rewrite E.
Qed.

(** Where the punch mask can be had, the connection is Salamander v2's, or
    is refused; its datagrams then have a known length, which the punch packets
    of each side take. *)
Theorem punching_is_masked o role now cache cache' mask :
  realmPunchMask o cache = (cache', Ok mask) → ∀ cache1 cache2 ob, wrapObfs o role now cache1 = (cache2, Ok ob) →
  (∃ v, ob = WrappedSalamanderV2 v) ∧ realmPunchWireLen (Type_ o) ob = 1471 ∧ realmPunchWireLenServer (Type_ o) ob = 1473 ∧
  punchMinWireLen <= 1471 <= punchMaxWireLen ∧ punchMinWireLen <= 1473 <= punchMaxWireLen.
Proof.
  intros Hm%mask_type cache1 cache2 ob Hw. destruct (wrapObfs_v2 o role now cache1 cache2 ob Hm Hw) as (Hv & H1 & H2). by split_and!.
Qed.
End Ends.

#[local] Existing Instance toy.

Definition sample_obfs (t : string) : obfsConfig :=
  mkObfs t "horse" (mkV2Config "correct horse" "realm") (mkGeckoConfig "" 0 0).


Definition sample_masked : KdfCache * result configError PunchMask := realmPunchMask (sample_obfs "salamander-v2") ∅.
Definition sample_wrapped : KdfCache * result configError obfuscated := wrapObfs (sample_obfs "salamander-v2") RoleClient 0 ∅.
Definition mask_of (r : result configError PunchMask) : PunchMask := match r with Ok m => m | Err _ => [] end.
Definition conn_of (r : result configError obfuscated) : obfuscated := match r with Ok c => c | Err _ => Bare end.

Lemma mask_of_ok (r : KdfCache * result configError PunchMask) : is_ok r.2 = true → r = (r.1, Ok (mask_of r.2)).
Proof. by destruct r as [c []]. Qed.

Lemma conn_of_ok (r : KdfCache * result configError obfuscated) : is_ok r.2 = true → r = (r.1, Ok (conn_of r.2)).
Proof. by destruct r as [c []]. Qed.

Lemma punching_is_masked_witness : sample_masked = (sample_masked.1, Ok (mask_of sample_masked.2)) ∧
  sample_wrapped = (sample_wrapped.1, Ok (conn_of sample_wrapped.2)) ∧ realmPunchWireLen "salamander-v2" (conn_of sample_wrapped.2) = 1471.
Proof.
  assert (is_ok sample_masked.2 = true) as Hm by (vm_compute; reflexivity). apply mask_of_ok in Hm.
  assert (is_ok sample_wrapped.2 = true) as Hw by (vm_compute; reflexivity). apply conn_of_ok in Hw.
  split; [exact Hm|]. split; [exact Hw|].
  unfold sample_masked at 1 in Hm. unfold sample_wrapped at 1 in Hw.
  destruct (punching_is_masked (sample_obfs "salamander-v2") RoleClient 0 ∅ sample_masked.1 (mask_of sample_masked.2) Hm
    ∅ sample_wrapped.1 (conn_of sample_wrapped.2) Hw) as (_ & Hl & _). exact Hl.
Defined.
