(* ===== verification/UdpHop.v ===== *)
(** * Port hopping (extras/transport/udphop)

    A connection that moves its local socket, and the port of the server that
    it sends to, at intervals.  The sockets are objects of the state, each with
    the settings it was given and whether it is open.  A run is a sequence of
    labels: a turn of a receiving goroutine, of the timer, or a call, each of
    which holds the lock or touches a channel once. *)
From S2P Require Import GoStd Prelude Netip IP Net PortUnion.

(** ** Addresses (addr.go) *)
Record UDPHopAddr := mkHopAddr { IP_ : bytes; Ports_ : list Z; PortStr : string }.

Definition Network (a : UDPHopAddr) : string := "udphop".
Definition UDPHopAddr_String (a : UDPHopAddr) : string := JoinHostPort (IP_String (IP_ a)) (PortStr a).

(** One address for each port. *)
Definition addrs (a : UDPHopAddr) : list net_Addr := UDPAddr (IP_ a) <$> Ports_ a.

Inductive hop_error : Type :=
| SplitError (e : addr_error) | ResolveError (host : string) | InvalidPortError (s : string)
| errMinMax | errMinAboveMax | errTooShort.

(** [net.ResolveIPAddr] asks the resolver of the system. *)
Class Resolver := { net_ResolveIPAddr : string → option bytes }.

Definition ResolveUDPHopAddr `{Resolver} (addr : string) : result hop_error UDPHopAddr :=
  match SplitHostPort addr with
  | Err e => Err (SplitError e)
  | Ok (host, portStr) =>
      match net_ResolveIPAddr host with
      | None => Err (ResolveError host)
      | Some ip =>
          match ParsePortUnion portStr with
          | None => Err (InvalidPortError portStr)
          | Some pu => Ok (mkHopAddr ip (Ports pu) portStr)
          end
      end
  end.

(** ** Intervals (conn.go) *)
Record HopIntervalConfig := mkHopInterval { Min : Z; Max : Z }.

Definition packetQueueSize : Z := 1024.
Definition udpBufferSize : Z := 2048.
Definition defaultHopInterval : Z := 30 * Second.

Definition normalized (c : HopIntervalConfig) : result hop_error HopIntervalConfig :=
  if (Min c =? 0) && (Max c =? 0) then Ok (mkHopInterval defaultHopInterval defaultHopInterval)
  else if (Min c =? 0) || (Max c =? 0) then Err errMinMax
  else if Max c <? Min c then Err errMinAboveMax
  else if Min c <? 5 * Second then Err errTooShort
  else Ok c.

(** [rnd] is what the random source yields; [rand.Int63n] and [rand.Intn] panic
    unless their argument is positive. *)
Definition Intn (rnd n : Z) : outcome Z := if n <=? 0 then Panic else Ret (rnd mod n).

Definition nextHopInterval (c : HopIntervalConfig) (rnd : Z) : outcome Z :=
  if Min c =? Max c then Ret (Min c)
  else r ← Intn rnd (i64 (i64 (Max c - Min c) + 1)); Ret (i64 (Min c + r)).

(** ** Sockets and the connection *)

(** A socket: the settings it was given, [None] being the default of the
    system or the zero time. *)
Record socket := mkSocket {
  opened : bool; s_readBuffer : option Z; s_writeBuffer : option Z; s_readDeadline : option Z; s_writeDeadline : option Z }.

Definition new_socket : socket := mkSocket true None None None None.
Definition close_socket (s : socket) : socket := mkSocket false (s_readBuffer s) (s_writeBuffer s) (s_readDeadline s) (s_writeDeadline s).
Definition set_s_readBuffer (v : option Z) (s : socket) : socket := mkSocket (opened s) v (s_writeBuffer s) (s_readDeadline s) (s_writeDeadline s).
Definition set_s_writeBuffer (v : option Z) (s : socket) : socket := mkSocket (opened s) (s_readBuffer s) v (s_readDeadline s) (s_writeDeadline s).
Definition set_s_readDeadline (t : option Z) (s : socket) : socket := mkSocket (opened s) (s_readBuffer s) (s_writeBuffer s) t (s_writeDeadline s).
Definition set_s_writeDeadline (t : option Z) (s : socket) : socket := mkSocket (opened s) (s_readBuffer s) (s_writeBuffer s) (s_readDeadline s) t.
Definition set_s_deadline (t : option Z) (s : socket) : socket := set_s_writeDeadline t (set_s_readDeadline t s).

(** A received packet, or a timeout of the socket. *)
Inductive udpPacket := Packet (buf : bytes) | Timeout.

Record settings := mkSettings {
  readBufferSize : Z; writeBufferSize : Z;
  deadline : option Z; readDeadline : option Z; writeDeadline : option Z }.

Record udpHopPacketConn := mkHopConn {
  Addr_ : UDPHopAddr;
  Addrs : list net_Addr;
  HopInterval : HopIntervalConfig;
  prevConn : option nat;
  currentConn : nat;
  addrIndex : Z;
  opts : settings;
  recvQueue : list udpPacket;
  closed : bool;
}.

Record state := mkState {
  sockets : gmap nat socket;
  receiving : gset nat;            (* the sockets whose recvLoop runs *)
  conn : udpHopPacketConn;
}.

Definition set_opts (o : settings) (c : udpHopPacketConn) : udpHopPacketConn :=
  mkHopConn (Addr_ c) (Addrs c) (HopInterval c) (prevConn c) (currentConn c) (addrIndex c) o (recvQueue c) (closed c).
Definition set_queue (q : list udpPacket) (c : udpHopPacketConn) : udpHopPacketConn :=
  mkHopConn (Addr_ c) (Addrs c) (HopInterval c) (prevConn c) (currentConn c) (addrIndex c) (opts c) q (closed c).
Definition set_conn (c : udpHopPacketConn) (s : state) : state := mkState (sockets s) (receiving s) c.

(** [NewUDPHopPacketConn]: [listen] is the socket that the listening function
    gives, if any. *)
Definition NewUDPHopPacketConn (addr : UDPHopAddr) (hopInterval : HopIntervalConfig) (listen : option nat) (rnd : Z)
    : outcome (result hop_error (option state)) :=
  match normalized hopInterval with
  | Err e => Ret (Err e)
  | Ok hopInterval =>
      match listen with
      | None => Ret (Ok None)
      | Some id =>
          i ← Intn rnd (len (addrs addr));
          Ret (Ok (Some (mkState {[id := new_socket]} {[id]}
            (mkHopConn addr (addrs addr) hopInterval None id i (mkSettings 0 0 None None None) [] false))))
      end
  end.

(** [f] on the previous socket, when there is one, and on the current one. *)
Definition on_both (f : socket → socket) (c : udpHopPacketConn) (m : gmap nat socket) : gmap nat socket :=
  alter f (currentConn c) (match prevConn c with Some p => alter f p m | None => m end).

(** What a hop gives the new socket of the settings made before. *)
Definition apply_settings (o : settings) (s : socket) : socket :=
  let s := if 0 <? readBufferSize o then set_s_readBuffer (Some (readBufferSize o)) s else s in
  let s := if 0 <? writeBufferSize o then set_s_writeBuffer (Some (writeBufferSize o)) s else s in
  let s := match deadline o with Some _ => set_s_deadline (deadline o) s | None => s end in
  let s := match readDeadline o with Some _ => set_s_readDeadline (readDeadline o) s | None => s end in
  match writeDeadline o with Some _ => set_s_writeDeadline (writeDeadline o) s | None => s end.

Definition hop (listen : option nat) (rnd : Z) (s : state) : outcome state :=
  let c := conn s in
  if closed c then Ret s else
  match listen with
  | None => Ret s
  | Some id =>
      let m := match prevConn c with Some p => alter close_socket p (sockets s) | None => sockets s end in
      i ← Intn rnd (len (Addrs c));
      Ret (mkState (<[id := apply_settings (opts c) new_socket]> m) ({[id]} ∪ receiving s)
        (mkHopConn (Addr_ c) (Addrs c) (HopInterval c) (Some (currentConn c)) id i (opts c) (recvQueue c) false))
  end.

(** A turn of a receiving goroutine: what the socket gave it.  A timeout waits
    for room in the queue, a packet is dropped when there is none; any other
    error ends the loop. *)
Inductive read_result := Data (b : bytes) | TimedOut | Failed.

Definition recv_turn (id : nat) (r : read_result) (s : state) : option state :=
  if negb (bool_decide (id ∈ receiving s)) then None else
  let c := conn s in
  let room := len (recvQueue c) <? packetQueueSize in
  match r with
  | Failed => Some (mkState (sockets s) (receiving s ∖ {[id]}) c)
  | TimedOut => if room then Some (set_conn (set_queue (recvQueue c ++ [Timeout]) c) s) else None
  | Data b => Some (if room then set_conn (set_queue (recvQueue c ++ [Packet (take (Z.to_nat udpBufferSize) b)]) c) s else s)
  end.

(** What a call returns, and a packet that leaves a socket. *)
Inductive output :=
| Silent
| ReadOK (b : bytes) (addr : UDPHopAddr)
| ReadTimeout
| ErrClosed
| Sent (socket : nat) (b : bytes) (to : net_Addr)
| Gave (addr : nat).

(** ReadFrom into a buffer of [cap] bytes, when its select finds a packet, and
    when it finds the connection closed. *)
Definition ReadFrom (cap : Z) (s : state) : option (state * output) :=
  match recvQueue (conn s) with
  | [] => None
  | p :: q =>
      let s := set_conn (set_queue q (conn s)) s in
      Some (s, match p with Timeout => ReadTimeout | Packet b => ReadOK (take (Z.to_nat cap) b) (Addr_ (conn s)) end)
  end.

Definition ReadFrom_closed (s : state) : option (state * output) :=
  if closed (conn s) then Some (s, ErrClosed) else None.

(** The address that the caller names is ignored. *)
Definition WriteTo (b : bytes) (addr : net_Addr) (s : state) : outcome output :=
  let c := conn s in
  if closed c then Ret ErrClosed else
  match (if addrIndex c <? 0 then None else Addrs c !! Z.to_nat (addrIndex c)) with
  | Some to => Ret (Sent (currentConn c) b to)
  | None => Panic
  end.

Definition Close (s : state) : state :=
  let c := conn s in
  if closed c then s else
  mkState (on_both close_socket c (sockets s)) (receiving s)
    (mkHopConn (Addr_ c) [] (HopInterval c) (prevConn c) (currentConn c) (addrIndex c) (opts c) (recvQueue c) true).

Definition LocalAddr (s : state) : nat := currentConn (conn s).

Definition set_both (f : socket → socket) (g : settings → settings) (s : state) : state :=
  let c := conn s in mkState (on_both f c (sockets s)) (receiving s) (set_opts (g (opts c)) c).

Definition SetDeadline (t : option Z) : state → state :=
  set_both (set_s_deadline t) (λ o, mkSettings (readBufferSize o) (writeBufferSize o) t t t).
Definition SetReadDeadline (t : option Z) : state → state :=
  set_both (set_s_readDeadline t) (λ o, mkSettings (readBufferSize o) (writeBufferSize o) None t (writeDeadline o)).
Definition SetWriteDeadline (t : option Z) : state → state :=
  set_both (set_s_writeDeadline t) (λ o, mkSettings (readBufferSize o) (writeBufferSize o) None (readDeadline o) t).
Definition SetReadBuffer (n : Z) : state → state :=
  set_both (set_s_readBuffer (Some n)) (λ o, mkSettings n (writeBufferSize o) (deadline o) (readDeadline o) (writeDeadline o)).
Definition SetWriteBuffer (n : Z) : state → state :=
  set_both (set_s_writeBuffer (Some n)) (λ o, mkSettings (readBufferSize o) n (deadline o) (readDeadline o) (writeDeadline o)).

(** ** Runs *)
Inductive label :=
| LRecv (id : nat) (r : read_result)
| LTick (listen : option nat) (rnd : Z)
| LRead (cap : Z) | LReadClosed
| LWrite (b : bytes) (addr : net_Addr)
| LClose | LLocalAddr
| LDeadline (t : option Z) | LReadDeadline (t : option Z) | LWriteDeadline (t : option Z)
| LReadBuffer (n : Z) | LWriteBuffer (n : Z).

(** A label that cannot be taken now (an empty queue, a loop that has ended, a
    socket number in use) gives nothing. *)
Definition step (s : state) (l : label) : outcome (option (state * output)) :=
  match l with
  | LRecv id r => Ret ((λ s, (s, Silent)) <$> recv_turn id r s)
  | LTick listen rnd =>
      if match listen with Some id => bool_decide (is_Some (sockets s !! id)) | None => false end then Ret None
      else s ← hop listen rnd s; Ret (Some (s, Silent))
  | LRead cap => Ret (ReadFrom cap s)
  | LReadClosed => Ret (ReadFrom_closed s)
  | LWrite b addr => o ← WriteTo b addr s; Ret (Some (s, o))
  | LClose => Ret (Some (Close s, Silent))
  | LLocalAddr => Ret (Some (s, Gave (LocalAddr s)))
  | LDeadline t => Ret (Some (SetDeadline t s, Silent))
  | LReadDeadline t => Ret (Some (SetReadDeadline t s, Silent))
  | LWriteDeadline t => Ret (Some (SetWriteDeadline t s, Silent))
  | LReadBuffer n => Ret (Some (SetReadBuffer n s, Silent))
  | LWriteBuffer n => Ret (Some (SetWriteBuffer n s, Silent))
  end.

Fixpoint steps (s : state) (ls : list label) : outcome (option (state * list output)) :=
  match ls with
  | [] => Ret (Some (s, []))
  | l :: ls =>
      r ← step s l;
      match r with
      | None => Ret None
      | Some (s, o) =>
          r ← steps s ls;
          Ret (match r with None => None | Some (s, os) => Some (s, o :: os) end)
      end
  end.

(** ** What every run keeps *)

(** The sockets in use: the current one and the one before it. *)
Definition in_use (c : udpHopPacketConn) (id : nat) : Prop := id = currentConn c ∨ prevConn c = Some id.

#[export] Instance in_use_dec c id : Decision (in_use c id).
Proof. unfold in_use. apply _. Defined.

(** A socket has the settings that were made. *)
Definition carries (o : settings) (k : socket) : Prop :=
  s_readDeadline k = readDeadline o ∧ s_writeDeadline k = writeDeadline o ∧
  (0 < readBufferSize o → s_readBuffer k = Some (readBufferSize o)) ∧
  (0 < writeBufferSize o → s_writeBuffer k = Some (writeBufferSize o)).

Record inv (s : state) : Prop := {
  inv_prev : prevConn (conn s) ≠ Some (currentConn (conn s));
  inv_known id : in_use (conn s) id → is_Some (sockets s !! id);
  inv_open id k : sockets s !! id = Some k → opened k = true → closed (conn s) = false ∧ in_use (conn s) id;
  inv_live id k : sockets s !! id = Some k → in_use (conn s) id → closed (conn s) = false → opened k = true;
  inv_carries id k : sockets s !! id = Some k → in_use (conn s) id → carries (opts (conn s)) k;
  inv_deadline : deadline (opts (conn s)) = None ∨
    (readDeadline (opts (conn s)) = deadline (opts (conn s)) ∧ writeDeadline (opts (conn s)) = deadline (opts (conn s)));
  inv_addrs : closed (conn s) = false → Addrs (conn s) = addrs (Addr_ (conn s)) ∧ 0 <= addrIndex (conn s) < len (addrs (Addr_ (conn s)));
  inv_queue : len (recvQueue (conn s)) <= packetQueueSize;
}.

Lemma on_both_lookup f c m id : prevConn c ≠ Some (currentConn c) →
  on_both f c m !! id = if decide (in_use c id) then f <$> m !! id else m !! id.
Proof.
  intros Hp. unfold on_both. destruct (decide (id = currentConn c)) as [->|Hc].
  - rewrite lookup_alter_eq. rewrite (decide_True (P := in_use c _)) by (by left).
    destruct (prevConn c) as [p|]; [|done]. rewrite lookup_alter_ne; [done|]. by intros ->.
  - rewrite lookup_alter_ne by done. destruct (prevConn c) as [p|] eqn:Ep.
    + destruct (decide (p = id)) as [->|Hpi].
      * rewrite lookup_alter_eq, (decide_True (P := in_use c _)) by (by right). done.
      * rewrite lookup_alter_ne by done. rewrite (decide_False (P := in_use c _)); [done|].
        intros [?|Hq]; [done|]. rewrite Ep in Hq. by injection Hq.
    + rewrite (decide_False (P := in_use c _)); [done|]. intros [?|Hq]; [done|]. by rewrite Ep in Hq.
Qed.

Lemma Intn_ret rnd n : 0 < n → ∃ i, Intn rnd n = Ret i ∧ 0 <= i < n.
Proof. intros Hn. unfold Intn. rewrite (proj2 (Z.leb_gt n 0)) by lia. eexists. split; [done|]. by apply Z.mod_pos_bound. Qed.

Lemma apply_settings_ok o : deadline o = None ∨ (readDeadline o = deadline o ∧ writeDeadline o = deadline o) →
  opened (apply_settings o new_socket) = true ∧ carries o (apply_settings o new_socket).
Proof.
  destruct o as [rb wb d r w]. unfold apply_settings, carries. cbn [readBufferSize writeBufferSize deadline readDeadline writeDeadline].
  intros Hd. destruct (Z.ltb_spec 0 rb), (Z.ltb_spec 0 wb), d, r, w; cbn in *; destruct Hd as [?|[? ?]]; simplify_eq;
    repeat split; try done; lia.
Qed.

(** A setting made on both sockets and remembered. *)
Lemma set_both_inv f g s : inv s → (∀ k, opened (f k) = opened k) →
  (∀ o k, carries o k → carries (g o) (f k)) →
  (deadline (g (opts (conn s))) = None ∨ (readDeadline (g (opts (conn s))) = deadline (g (opts (conn s))) ∧ writeDeadline (g (opts (conn s))) = deadline (g (opts (conn s))))) →
  inv (set_both f g s).
Proof.
  intros [H1 H2 H3 H4 H5 H6 H7 H8] Hf Hg Hd. unfold set_both. split; cbn [conn sockets set_opts prevConn currentConn closed Addrs Addr_ addrIndex opts recvQueue] in *; try done.
  - intros id Hid. rewrite on_both_lookup by done. rewrite decide_True by done. apply fmap_is_Some. by apply H2.
  - intros id k. rewrite on_both_lookup by done. destruct (decide _) as [Hu|Hu]; [|by apply H3].
    intros (k' & Hk' & ->)%fmap_Some. rewrite Hf. by apply (H3 id k').
  - intros id k. rewrite on_both_lookup by done. intros Hk Hu. rewrite decide_True in Hk by done.
    apply fmap_Some in Hk as (k' & Hk' & ->). rewrite Hf. by apply (H4 id k').
  - intros id k. rewrite on_both_lookup by done. intros Hk Hu. rewrite decide_True in Hk by done.
    apply fmap_Some in Hk as (k' & Hk' & ->). apply Hg. by apply (H5 id k').
Qed.

Lemma queue_inv q r s : inv s → len q <= packetQueueSize → inv (mkState (sockets s) r (set_queue q (conn s))).
Proof. intros [H1 H2 H3 H4 H5 H6 H7 H8] Hq. by split. Qed.

Lemma hop_inv listen rnd s : inv s → (∀ id, listen = Some id → sockets s !! id = None) → ∃ s', hop listen rnd s = Ret s' ∧ inv s'.
Proof.
  intros Hi Hl. unfold hop. destruct (closed (conn s)) eqn:Hc; [by exists s|]. destruct listen as [id|]; [|by exists s].
  specialize (Hl id eq_refl). pose proof Hi as [H1 H2 H3 H4 H5 H6 H7 H8]. destruct (H7 Hc) as [Ha Hx].
  destruct (Intn_ret rnd (len (Addrs (conn s)))) as (i & -> & Hib); [rewrite Ha; lia|]. eexists. split; [done|].
  destruct (apply_settings_ok _ H6) as [Ho Hcar].
  assert (currentConn (conn s) ≠ id) as Hne. { intros <-. destruct (H2 (currentConn (conn s)) ltac:(by left)) as [? E]. by rewrite Hl in E. }
  set (m := match prevConn (conn s) with Some p => alter close_socket p (sockets s) | None => sockets s end).
  assert (∀ j, m !! j = if decide (prevConn (conn s) = Some j) then close_socket <$> sockets s !! j else sockets s !! j) as Hm.
  { intros j. unfold m. destruct (prevConn (conn s)) as [p|]; [|by rewrite decide_False].
    destruct (decide (p = j)) as [->|Hpj]; [by rewrite lookup_alter_eq, decide_True|].
    rewrite lookup_alter_ne by done. rewrite decide_False; [done|]. by intros [= ?]. }
  assert (∀ j, j ≠ id → in_use (conn s) j → prevConn (conn s) ≠ Some j → j = currentConn (conn s)) as Hcur by (intros j _ [?|?]; done).
  split; cbn [conn sockets prevConn currentConn closed Addrs Addr_ addrIndex opts recvQueue]; try done.
  - intros [= ?]. done.
  - intros j [->|[= <-]]; cbn [currentConn prevConn]; [by rewrite lookup_insert_eq|]. rewrite lookup_insert_ne by done. rewrite Hm.
    rewrite decide_False by done. apply H2. by left.
  - intros j k. destruct (decide (j = id)) as [->|Hj]; [by split; [|left]|]. rewrite lookup_insert_ne by done. rewrite Hm.
    destruct (decide _) as [Hp|Hp]; [intros (k' & _ & ->)%fmap_Some; done|]. intros Hk Hop. split; [done|]. right. cbn [prevConn].
    destruct (H3 j k Hk Hop) as [_ Hu]. f_equal. symmetry. by apply Hcur.
  - intros j k Hk Hu _. destruct (decide (j = id)) as [->|Hj]; [rewrite lookup_insert_eq in Hk; by injection Hk as <-|].
    rewrite lookup_insert_ne in Hk by done. destruct Hu as [?|Hu]; [done|]. cbn [prevConn] in Hu. injection Hu as <-. rewrite Hm, decide_False in Hk by done.
    apply (H4 _ k Hk); [by left|done].
  - intros j k Hk Hu. destruct (decide (j = id)) as [->|Hj]; [rewrite lookup_insert_eq in Hk; by injection Hk as <-|].
    rewrite lookup_insert_ne in Hk by done. destruct Hu as [?|Hu]; [done|]. cbn [prevConn] in Hu. injection Hu as <-. rewrite Hm, decide_False in Hk by done.
    apply (H5 _ k Hk). by left.
  - intros _. split; [done|]. rewrite <-Ha. lia.
Qed.

Lemma Close_inv s : inv s → inv (Close s).
Proof.
  intros Hi. unfold Close. destruct (closed (conn s)) eqn:Hc; [done|]. destruct Hi as [H1 H2 H3 H4 H5 H6 H7 H8].
  split; cbn [conn sockets prevConn currentConn closed Addrs Addr_ addrIndex opts recvQueue]; try done.
  - intros id Hid. rewrite on_both_lookup by done. rewrite decide_True by done. apply fmap_is_Some. by apply H2.
  - intros id k. rewrite on_both_lookup by done. destruct (decide _) as [Hu|Hu]; [by intros (k' & _ & ->)%fmap_Some|].
    intros Hk Ho. by destruct (H3 id k Hk Ho).
  - intros id k Hk Hu. rewrite on_both_lookup in Hk by done. rewrite decide_True in Hk by done.
    apply fmap_Some in Hk as (k' & Hk' & ->). by apply (H5 id k').
Qed.

Lemma set_carries : ∀ t n o k, carries o k →
  carries (mkSettings (readBufferSize o) (writeBufferSize o) t t t) (set_s_deadline t k) ∧
  carries (mkSettings (readBufferSize o) (writeBufferSize o) None t (writeDeadline o)) (set_s_readDeadline t k) ∧
  carries (mkSettings (readBufferSize o) (writeBufferSize o) None (readDeadline o) t) (set_s_writeDeadline t k) ∧
  carries (mkSettings n (writeBufferSize o) (deadline o) (readDeadline o) (writeDeadline o)) (set_s_readBuffer (Some n) k) ∧
  carries (mkSettings (readBufferSize o) n (deadline o) (readDeadline o) (writeDeadline o)) (set_s_writeBuffer (Some n) k).
Proof. intros t n o k (H1 & H2 & H3 & H4). unfold carries. cbn. by repeat split. Qed.

(** The connection, and what each label does to it. *)
Lemma step_inv s l : inv s → ∃ r, step s l = Ret r ∧ match r with Some (s', _) => inv s' | None => True end.
Proof.
  intros Hi. destruct l as [id r|listen rnd|cap| |b a| | |t|t|t|n|n]; cbn [step]; try (eexists; split; [reflexivity|]; cbn -[set_both]).
  - unfold recv_turn. destruct (negb _); [done|]. destruct r; cbn [fmap option_fmap option_map].
    + destruct (Z.ltb_spec (len (recvQueue (conn s))) packetQueueSize); [|done].
      apply (queue_inv _ _ _ Hi). rewrite len_app. unfold packetQueueSize in *. change (len [_]) with 1. lia.
    + destruct (Z.ltb_spec (len (recvQueue (conn s))) packetQueueSize); [|done].
      apply (queue_inv _ _ _ Hi). rewrite len_app. unfold packetQueueSize in *. change (len [_]) with 1. lia.
    + destruct Hi as [H1 H2 H3 H4 H5 H6 H7 H8]. by split.
  - assert ((∀ id, listen = Some id → sockets s !! id = None) ∨ ∃ id, listen = Some id ∧ is_Some (sockets s !! id)) as [Hn|(id & -> & Hs)].
    { destruct listen as [id|]; [|by left]. destruct (sockets s !! id) eqn:E; [right; by eauto|left]. by intros ? [= <-]. }
    + destruct (hop_inv listen rnd s Hi Hn) as (s' & Hh & Hi'). exists (Some (s', Silent)). split; [|done].
      destruct listen as [id|]; [rewrite (Hn id eq_refl)|]; rewrite Hh; [|done].
      by rewrite bool_decide_eq_false_2 by (by intros [? ?]).
    + exists None. split; [|done]. by rewrite bool_decide_eq_true_2.
  - unfold ReadFrom. destruct (recvQueue (conn s)) as [|p q] eqn:Hq; [done|]. pose proof (inv_queue s Hi) as Hl. rewrite Hq, len_cons in Hl.
    apply (queue_inv _ _ _ Hi). lia.
  - unfold ReadFrom_closed. by destruct (closed (conn s)).
  - unfold WriteTo. destruct (closed (conn s)) eqn:Hc; [by eexists|]. destruct (inv_addrs s Hi Hc) as [Ha [Hx1 Hx2]].
    rewrite (proj2 (Z.ltb_ge _ 0)) by lia. rewrite Ha.
    destruct (lookup_lt_is_Some_2 (addrs (Addr_ (conn s))) (Z.to_nat (addrIndex (conn s)))) as [to ->]; [unfold len in Hx2; lia|]. by eexists.
  - by apply Close_inv.
  - done.
  - apply set_both_inv; try done; [by intros o k Hk; apply (set_carries t 0 o k Hk)|by right].
  - apply set_both_inv; try done; [by intros o k Hk; apply (set_carries t 0 o k Hk)|by left].
  - apply set_both_inv; try done; [by intros o k Hk; apply (set_carries t 0 o k Hk)|by left].
  - apply set_both_inv; try done; [by intros o k Hk; apply (set_carries None n o k Hk)|by apply inv_deadline].
  - apply set_both_inv; try done; [by intros o k Hk; apply (set_carries None n o k Hk)|by apply inv_deadline].
Qed.

Lemma New_inv addr c listen rnd : Ports_ addr ≠ [] → ∃ r, NewUDPHopPacketConn addr c listen rnd = Ret r ∧
  match r with Ok (Some s) => inv s ∧ Addr_ (conn s) = addr ∧ opts (conn s) = mkSettings 0 0 None None None ∧ normalized c = Ok (HopInterval (conn s)) | _ => True end.
Proof.
  intros Hp. unfold NewUDPHopPacketConn. destruct (normalized c) as [e|c']; [by eexists|]. destruct listen as [id|]; [|by eexists].
  assert (0 < len (addrs addr)) as Hl.
  { unfold addrs, len. rewrite length_fmap. destruct (Ports_ addr); [done|]. cbn. lia. }
  destruct (Intn_ret rnd _ Hl) as (i & -> & Hi). eexists. split; [done|]. split; [|done].
  split; cbn [conn sockets prevConn currentConn closed Addrs Addr_ addrIndex opts recvQueue]; try done.
  - intros j [->|?]; [|done]. cbn. by rewrite lookup_singleton_eq.
  - intros j k [<- _]%lookup_singleton_Some _. split; [done|by left].
  - by intros j k [_ <-]%lookup_singleton_Some _ _.
  - intros j k [_ <-]%lookup_singleton_Some _. unfold carries. cbn. repeat split; lia.
  - by left.
Qed.

(** ** What the callers see *)

(** The settings that the calls of a run ask for. *)
Record wanted := mkWanted { w_read : option Z; w_write : option Z; w_readBuffer : Z; w_writeBuffer : Z }.

Definition want (w : wanted) (l : label) : wanted :=
  match l with
  | LDeadline t => mkWanted t t (w_readBuffer w) (w_writeBuffer w)
  | LReadDeadline t => mkWanted t (w_write w) (w_readBuffer w) (w_writeBuffer w)
  | LWriteDeadline t => mkWanted (w_read w) t (w_readBuffer w) (w_writeBuffer w)
  | LReadBuffer n => mkWanted (w_read w) (w_write w) n (w_writeBuffer w)
  | LWriteBuffer n => mkWanted (w_read w) (w_write w) (w_readBuffer w) n
  | _ => w
  end.

Definition wants (o : settings) : wanted := mkWanted (readDeadline o) (writeDeadline o) (readBufferSize o) (writeBufferSize o).

(** A packet goes to a port of the union, one that is read comes from the
    address that the caller knows. *)
Definition output_ok (a : UDPHopAddr) (o : output) : Prop :=
  match o with
  | Sent _ _ to => ∃ p, p ∈ Ports_ a ∧ to = UDPAddr (IP_ a) p
  | ReadOK _ from => from = a
  | _ => True
  end.

Lemma step_effects s l s' o : inv s → step s l = Ret (Some (s', o)) →
  Addr_ (conn s') = Addr_ (conn s) ∧ wants (opts (conn s')) = want (wants (opts (conn s))) l ∧ output_ok (Addr_ (conn s)) o.
Proof.
  intros Hi. destruct l as [id r|listen rnd|cap| |b a| | |t|t|t|n|n]; cbn [step want]; try (by intros [= <- <-]).
  - unfold recv_turn. destruct (negb _); [done|]. destruct r; cbn [fmap option_fmap option_map]; [|destruct (_ <? _); [|done]|]; intros [= <- <-]; [|done..].
    by destruct (_ <? _).
  - destruct (match listen with Some _ => _ | None => _ end); [done|]. intros (s1 & Hh & Hs)%outcome_bind_inv. injection Hs as <- <-. revert Hh. unfold hop.
    destruct (closed (conn s)); [by intros [= <-]|]. destruct listen as [id|]; [|by intros [= <-]].
    intros (i & _ & Hs)%outcome_bind_inv. by injection Hs as <-.
  - unfold ReadFrom. destruct (recvQueue (conn s)) as [|[b|] q]; [done|..]; by intros [= <- <-].
  - unfold ReadFrom_closed. destruct (closed (conn s)); [|done]. by intros [= <- <-].
  - intros (o' & Hw & Hs)%outcome_bind_inv. injection Hs as <- <-. split; [done|]. split; [done|]. revert Hw. unfold WriteTo.
    destruct (closed (conn s)) eqn:Hc; [by intros [= <-]|]. destruct (inv_addrs s Hi Hc) as [-> _].
    destruct (if _ <? 0 then _ else _) as [to|] eqn:E; [|done]. intros [= <-]. cbn [output_ok].
    destruct (_ <? 0); [done|]. unfold addrs in E. apply list_lookup_fmap_Some in E as (p & -> & Hp). exists p. split; [|done].
    by eapply list_elem_of_lookup_2.
  - unfold Close. intros [= <- <-]. by destruct (closed (conn s)).
Qed.

Lemma steps_inv ls s : inv s → ∃ r, steps s ls = Ret r ∧
  match r with
  | Some (s', os) => inv s' ∧ Addr_ (conn s') = Addr_ (conn s) ∧ wants (opts (conn s')) = foldl want (wants (opts (conn s))) ls ∧
      Forall (output_ok (Addr_ (conn s))) os
  | None => True
  end.
Proof.
  revert s. induction ls as [|l ls IH]; intros s Hi; [by eexists|]. cbn [steps foldl].
  destruct (step_inv s l Hi) as (r & Hr & Hi'). rewrite Hr. cbn [mbind outcome_bind]. destruct r as [[s1 o]|]; [|by eexists].
  destruct (step_effects s l s1 o Hi Hr) as (Ha & Hw & Ho). destruct (IH s1 Hi') as (r & -> & Hr').
  cbn [mbind outcome_bind]. destruct r as [[s2 os]|]; [|by eexists]. eexists. split; [done|].
  destruct Hr' as (H1 & H2 & H3 & H4). rewrite <-Hw. rewrite Ha in H2, H4.
  do 3 (split; [done|]). by constructor.
Qed.

Lemma Resolve_ports `{Resolver} text a : ResolveUDPHopAddr text = Ok a →
  ∃ host pu, SplitHostPort text = Ok (host, PortStr a) ∧ ParsePortUnion (PortStr a) = Some pu ∧ Ports_ a = Ports pu ∧ Ports_ a ≠ [].
Proof.
  unfold ResolveUDPHopAddr. destruct (SplitHostPort text) as [|[host portStr]]; [done|]. destruct (net_ResolveIPAddr host) as [ip|]; [|done].
  destruct (ParsePortUnion portStr) as [pu|] eqn:Hp; [|done]. intros [= <-]. exists host, pu. cbn [PortStr Ports_]. repeat split; try done.
  intros Hn. destruct (decide (portStr = "all"%string ∨ portStr = "*"%string)) as [Hall|Hall].
  - unfold ParsePortUnion in Hp. rewrite decide_True in Hp by done. injection Hp as <-.
    assert (0 ∈ Ports [mkPortRange 0 65535]) as Hin by (by apply elem_of_Ports). by rewrite Hn in Hin; apply elem_of_nil in Hin.
  - destruct (ParsePortUnion_normalized portStr pu Hp) as (_ & _ & _ & _ & Hok & Hne & _); [naive_solver..|].
    destruct pu as [|r pu]; [done|]. apply Forall_cons in Hok as [[? ?] _].
    assert (Start r ∈ Ports (r :: pu)) as Hin; [|by rewrite Hn in Hin; apply elem_of_nil in Hin].
    apply elem_of_Ports, Contains_spec. exists r. split; [by left|]. unfold in_range. lia.
Qed.

Section Theorems.
Context `{Resolver}.

(** C15: whatever the sockets give, the timer does and the callers ask, in any
    order, a hopping connection never panics; the sockets open are the current
    one and the one before it, and none once it is closed, so that none leaks;
    the queue stays within its bound. *)
Theorem hop_sockets text addr c listen rnd s0 ls :
  ResolveUDPHopAddr text = Ok addr → NewUDPHopPacketConn addr c listen rnd = Ret (Ok (Some s0)) →
  ∃ r, steps s0 ls = Ret r ∧ ∀ s os, r = Some (s, os) →
    (∀ id, (∃ k, sockets s !! id = Some k ∧ opened k = true) ↔ closed (conn s) = false ∧ in_use (conn s) id) ∧
    len (recvQueue (conn s)) <= packetQueueSize.
Proof.
  intros (host & pu & _ & _ & _ & Hp)%Resolve_ports Hnew. destruct (New_inv addr c listen rnd Hp) as (r0 & E & Hi). rewrite Hnew in E.
  injection E as <-. destruct Hi as [Hi _]. destruct (steps_inv ls s0 Hi) as (r & -> & Hr). exists r. split; [done|]. intros s os ->.
  destruct Hr as [[H1 H2 H3 H4 H5 H6 H7 H8] _]. split; [|done]. intros id. split.
  - intros (k & Hk & Ho). by eapply H3.
  - intros [Hc Hu]. destruct (H2 id Hu) as [k Hk]. exists k. split; [done|]. by eapply H4.
Qed.

(** C16: hopping is invisible above the connection: every packet goes to the
    server's address and a port of the union in its name, every packet read
    comes from the one address that the caller knows, and the socket in use, and
    the one before it, have the deadlines and the buffer sizes that were asked
    for last, however often the connection hopped in between. *)
Theorem hop_invisible text addr c listen rnd s0 ls s os :
  ResolveUDPHopAddr text = Ok addr → NewUDPHopPacketConn addr c listen rnd = Ret (Ok (Some s0)) → steps s0 ls = Ret (Some (s, os)) →
  (∃ host pu, SplitHostPort text = Ok (host, PortStr addr) ∧ ParsePortUnion (PortStr addr) = Some pu ∧
    Forall (λ o, match o with
                 | Sent _ _ to => ∃ p, Contains pu p = true ∧ to = UDPAddr (IP_ addr) p
                 | ReadOK _ from => from = addr
                 | _ => True
                 end) os) ∧
  let w := foldl want (mkWanted None None 0 0) ls in
  ∀ id k, in_use (conn s) id → sockets s !! id = Some k →
    s_readDeadline k = w_read w ∧ s_writeDeadline k = w_write w ∧
    (0 < w_readBuffer w → s_readBuffer k = Some (w_readBuffer w)) ∧ (0 < w_writeBuffer w → s_writeBuffer k = Some (w_writeBuffer w)).
Proof.
  intros (host & pu & Hs & Hpu & Hports & Hp)%Resolve_ports Hnew Hrun. destruct (New_inv addr c listen rnd Hp) as (r0 & E & Hi). rewrite Hnew in E.
  injection E as <-. destruct Hi as (Hi & Ha & Ho & _). destruct (steps_inv ls s0 Hi) as (r & E & Hr). rewrite Hrun in E. injection E as <-.
  destruct Hr as (Hi' & _ & Hw & Hout). split.
  - exists host, pu. split; [done|]. split; [done|]. rewrite Ha in Hout. eapply list.Forall_impl; [exact Hout|]. intros [] Hok; try done.
    destruct Hok as (p & Hin & ->). exists p. split; [|done]. rewrite Hports in Hin. by apply elem_of_Ports.
  - cbv zeta. rewrite Ho in Hw. change (wants (mkSettings 0 0 None None None)) with (mkWanted None None 0 0) in Hw. rewrite <-Hw. intros id k Hu Hk. exact (inv_carries s Hi' id k Hk Hu).
Qed.
End Theorems.

(** An interval that is accepted is of at least five seconds, and the time
    to the next hop is always within it, in 64 bits. *)
Theorem hop_interval_bounds c c' rnd : normalized c = Ok c' → Min c <= MaxInt64 → Max c <= MaxInt64 →
  ∃ d, nextHopInterval c' rnd = Ret d ∧ 5 * Second <= Min c' <= d ∧ d <= Max c'.
Proof.
  unfold normalized, nextHopInterval, MaxInt64, Second. intros Hn Hmin Hmax.
  assert (Min c' <= Max c' ∧ 5 * 1000000000 <= Min c' ∧ Max c' <= 2 ^ 63 - 1) as (H1 & H2 & H3).
  { destruct (_ && _); [injection Hn as <-; by vm_compute|]. destruct (_ || _); [done|].
    destruct (Z.ltb_spec (Max c) (Min c)); [done|]. destruct (Z.ltb_spec (Min c) (5 * 1000000000)); [done|]. injection Hn as <-. lia. }
  destruct (Z.eqb_spec (Min c') (Max c')) as [E|E]; [eexists; split; [done|]; lia|].
  rewrite (i64_small (Max c' - Min c')), i64_small by (unfold MinInt64, MaxInt64; lia). destruct (Intn_ret rnd (Max c' - Min c' + 1)) as (r & -> & Hr); [lia|]. cbn [mbind outcome_bind].
  rewrite i64_small by (unfold MinInt64, MaxInt64; lia). eexists. split; [done|]. lia.
Qed.

(** ** Runs on a server with three ports *)
#[local] Instance sample_resolver : Resolver := {| net_ResolveIPAddr host := Some (byte_of_Z <$> [192; 0; 2; 1]) |}.

Definition sample_addr : UDPHopAddr := mkHopAddr (byte_of_Z <$> [192; 0; 2; 1]) [443; 8000; 8001] "8000-8001,443".
Definition sample_start : state :=
  mkState {[1%nat := new_socket]} {[1%nat]} (mkHopConn sample_addr (addrs sample_addr) (mkHopInterval defaultHopInterval defaultHopInterval) None 1 1
    (mkSettings 0 0 None None None) [] false).

Definition sample_run : list label :=
  [LWrite [Byte.x01] OtherAddr; LReadBuffer 4096; LReadDeadline (Some 7); LTick (Some 2%nat) 5; LTick (Some 3%nat) 0; LWrite [Byte.x02] OtherAddr;
   LRecv 2 (Data [Byte.x03]); LRead 100].

Definition ended (r : outcome (option (state * list output))) : state * list output :=
  match r with Ret (Some x) => x | _ => (sample_start, []) end.

Lemma hop_sockets_witness : ResolveUDPHopAddr "example.com:8000-8001,443" = Ok sample_addr ∧
  ∃ r, steps sample_start sample_run = Ret r ∧ ∀ s os, r = Some (s, os) →
    (∀ id, (∃ k, sockets s !! id = Some k ∧ opened k = true) ↔ closed (conn s) = false ∧ in_use (conn s) id) ∧
    len (recvQueue (conn s)) <= packetQueueSize.
Proof.
  assert (ResolveUDPHopAddr "example.com:8000-8001,443" = Ok sample_addr) as Hr by (vm_compute; reflexivity).
  split; [exact Hr|].
  apply (hop_sockets "example.com:8000-8001,443" sample_addr (mkHopInterval 0 0) (Some 1%nat) 1 sample_start sample_run Hr).
  reflexivity.
Defined.

Lemma hop_invisible_witness : (ended (steps sample_start sample_run)).2 =
    [Sent 1 [Byte.x01] (UDPAddr (byte_of_Z <$> [192; 0; 2; 1]) 8000); Silent; Silent; Silent; Silent;
     Sent 3 [Byte.x02] (UDPAddr (byte_of_Z <$> [192; 0; 2; 1]) 443); Silent; ReadOK [Byte.x03] sample_addr] ∧
  ∀ id k, in_use (conn (ended (steps sample_start sample_run)).1) id → sockets (ended (steps sample_start sample_run)).1 !! id = Some k →
    s_readDeadline k = Some 7 ∧ s_readBuffer k = Some 4096.
Proof.
  split; [vm_compute; reflexivity|]. intros id k Hu Hk.
  destruct (hop_invisible "example.com:8000-8001,443" sample_addr (mkHopInterval 0 0) (Some 1%nat) 1 sample_start sample_run
    (ended (steps sample_start sample_run)).1 (ended (steps sample_start sample_run)).2) as [_ Hw]; [vm_compute; reflexivity..|].
  destruct (Hw id k Hu Hk) as (H1 & _ & H2 & _). split; [exact H1|exact (H2 eq_refl)].
Defined.

Lemma hop_interval_bounds_witness : normalized (mkHopInterval (5 * Second) (9 * Second)) = Ok (mkHopInterval (5 * Second) (9 * Second)) ∧
  ∃ d, nextHopInterval (mkHopInterval (5 * Second) (9 * Second)) 12345 = Ret d ∧ 5 * Second <= 5 * Second <= d ∧ d <= 9 * Second.
Proof.
  split; [reflexivity|]. apply (hop_interval_bounds (mkHopInterval (5 * Second) (9 * Second))); [reflexivity|by vm_compute|by vm_compute].
Defined.

(** A timeout stays in the queue when the deadline that caused it is lifted:
    the next read fails although no deadline is set. *)
Example stale_timeout : (ended (steps sample_start [LReadDeadline (Some 0); LRecv 1 TimedOut; LRecv 1 TimedOut; LRead 100; LReadDeadline None;
  LRecv 1 (Data [Byte.x07]); LRead 100])).2 = [Silent; Silent; Silent; ReadTimeout; Silent; Silent; ReadTimeout].
Proof. vm_compute. reflexivity. Qed.
