(* ===== verification/Rendezvous.v ===== *)
(** * The rendezvous of a realm (extras/realm/addr.go, client.go)

    Realm addresses, the requests of the rendezvous client, and the stream of
    events that the server sends.  The HTTP client that carries a request and
    the JSON encodings of the messages are arguments. *)
From S2P Require Import GoStd Prelude Netip Net Utf8 Punch Url.
Import Strings.

(** ** Addresses (addr.go) *)
Definition SchemeHTTPS : string := "realm".
Definition SchemeHTTP : string := "realm+http".
Definition defaultHTTPSPort : string := "443".
Definition defaultHTTPPort : string := "80".

Inductive addr_reason :=
| badURL (e : url_error) | hostRequired | tokenRequired | emptyQueryMarker | fragmentGiven | idRequired | idNotSegment
| badPort | badHostPort | lportTwice | badLport.

Inductive realm_error := ErrInvalidScheme | ErrInvalidAddr (r : addr_reason).

Record Addr := mkAddr {
  a_Scheme : string; RendezvousScheme : string; Token : string; a_Host : string; a_Port : string; HostPort : string;
  RealmID : string; LocalPort : Z; Params : Values }.

Definition TrimPrefix (s p : string) : string := if HasPrefix s p then skip (String.length p) s else s.

Definition schemeInfo (scheme : string) : result realm_error (string * string) :=
  if bool_decide (scheme = SchemeHTTPS) then Ok ("https", defaultHTTPSPort)%string
  else if bool_decide (scheme = SchemeHTTP) then Ok ("http", defaultHTTPPort)%string
  else Err ErrInvalidScheme.

Definition parseRealmID (u : URL) : result realm_error string :=
  if bool_decide (Path u = EmptyString) || bool_decide (Path u = "/"%string) then Err (ErrInvalidAddr idRequired) else
  let trimmed := TrimPrefix (EscapedPath u) "/" in
  if bool_decide (trimmed = EmptyString) || ContainsRune trimmed "/" then Err (ErrInvalidAddr idNotSegment) else
  match PathUnescape trimmed with
  | Err _ => Err (ErrInvalidAddr idNotSegment)
  | Ok realmID => if bool_decide (realmID = EmptyString) || ContainsRune realmID "/" then Err (ErrInvalidAddr idNotSegment) else Ok realmID
  end.

Definition validatePort (port : string) : result realm_error () :=
  let '(p, err) := Strconv.Atoi port in
  if err || (p <=? 0) || (65535 <? p) then Err (ErrInvalidAddr badPort) else Ok ().

Definition parseLocalPort (values : list string) : result realm_error Z :=
  match values with
  | [] => Ok 0
  | [v] => let '(p, err) := Strconv.Atoi v in if err || (p <? 1) || (65535 <? p) then Err (ErrInvalidAddr badLport) else Ok p
  | _ => Err (ErrInvalidAddr lportTwice)
  end.

(** A copy: values are not shared in the model. *)
Definition cloneValues (v : Values) : Values := v.

Section Address.
Context `{UnicodeTables}.

Definition ParseAddr (s : string) : result realm_error Addr :=
  match std_Parse s with
  | Err e => Err (ErrInvalidAddr (badURL e))
  | Ok u =>
      '(rendezvousScheme, defaultPort) ← schemeInfo (Scheme u);
      if negb (bool_decide (Opaque u = EmptyString)) || bool_decide (Host u = EmptyString) then Err (ErrInvalidAddr hostRequired) else
      match User u with
      | None => Err (ErrInvalidAddr tokenRequired)
      | Some ui =>
          match PathUnescape (Userinfo_String ui) with
          | Err _ => Err (ErrInvalidAddr tokenRequired)
          | Ok token =>
              if bool_decide (token = EmptyString) then Err (ErrInvalidAddr tokenRequired) else
              if negb (bool_decide (RawQuery u = EmptyString)) && ForceQuery u then Err (ErrInvalidAddr emptyQueryMarker) else
              if negb (bool_decide (Fragment u = EmptyString)) || negb (bool_decide (RawFragment u = EmptyString)) then Err (ErrInvalidAddr fragmentGiven) else
              realmID ← parseRealmID u;
              let host := Hostname u in
              if bool_decide (host = EmptyString) then Err (ErrInvalidAddr hostRequired) else
              let port := if bool_decide (Port u = EmptyString) then defaultPort else Port u in
              _ ← validatePort port;
              let hostPort := JoinHostPort host port in
              match SplitHostPort hostPort with
              | Err _ => Err (ErrInvalidAddr badHostPort)
              | Ok _ =>
                  let params := cloneValues (Query u) in
                  localPort ← parseLocalPort (default [] (params !! "lport"%string));
                  Ok (mkAddr (Scheme u) rendezvousScheme token host port hostPort realmID localPort params)
              end
          end
      end
  end.
End Address.

Definition BaseURL (a : Addr) : URL :=
  mkURL (RendezvousScheme a) EmptyString None (HostPort a) EmptyString EmptyString false false EmptyString EmptyString EmptyString.

(** ** The client (client.go) *)
Definition maxErrorBodySize : Z := 64 * 1024.
Definition PunchObfsKeySize : Z := 32.

Record Client := mkClient { baseURL : URL; token : string }.

Inductive config_reason := baseURLScheme | baseURLHost | tokenMissing.

Definition set_Path (p : string) (u : URL) : URL :=
  mkURL (Scheme u) (Opaque u) (User u) (Host u) p (RawPath u) (OmitHost u) (ForceQuery u) (RawQuery u) (Fragment u) (RawFragment u).
Definition set_RawQuery (q : string) (u : URL) : URL :=
  mkURL (Scheme u) (Opaque u) (User u) (Host u) (Path u) (RawPath u) (OmitHost u) (ForceQuery u) q (Fragment u) (RawFragment u).
Definition set_Fragment (f : string) (u : URL) : URL :=
  mkURL (Scheme u) (Opaque u) (User u) (Host u) (Path u) (RawPath u) (OmitHost u) (ForceQuery u) (RawQuery u) f (RawFragment u).

Definition NewClient (base : URL) (token : string) : result config_reason Client :=
  if negb (bool_decide (Scheme base = "https"%string)) && negb (bool_decide (Scheme base = "http"%string)) then Err baseURLScheme else
  if bool_decide (Host base = EmptyString) then Err baseURLHost else
  if bool_decide (token = EmptyString) then Err tokenMissing else
  Ok (mkClient (set_Fragment EmptyString (set_RawQuery EmptyString base)) token).

Definition NewClientFromAddr (a : Addr) : result config_reason Client := NewClient (BaseURL a) (Token a).

Record RegisterResponse := mkRegisterResponse { SessionID : string; reg_TTL : Z }.
Record HeartbeatResponse := mkHeartbeatResponse { hb_TTL : Z }.
Record AddressRequest := mkAddressRequest { req_Addresses : list string }.     (* also of a heartbeat, and of the answer to a connect *)
Record PunchEvent := mkPunchEvent { ev_Addresses : list string; ev_Metadata : PunchMetadata }.  (* also a connect request and its response *)
Record ErrorResponse := mkErrorResponse { Error : string; Message : string }.
Record StatusError := mkStatusError { StatusCode : Z; Response : ErrorResponse }.

(** [encoding/json] on the messages: one line of text, decoded to what it was
    encoded from. *)
Class Json (A : Type) := {
  Marshal : A → string;
  Unmarshal : string → option A;
  Unmarshal_Marshal a : Unmarshal (Marshal a) = Some a;
  Marshal_line a : Marshal a ≠ EmptyString;
}.

Record request := mkRequest { method : string; rawURL : string; authorization : option string; body : option string }.
Record response := mkResponse { status : Z; content : string }.

Inductive client_error :=
| InvalidRealm | BadRequestURL (e : url_error) | TransportError | StatusErr (e : StatusError) | DecodeError.

(** [strings.Trim(s, "/")]. *)
Definition trim_slashes (s : string) : string :=
  string_of_list_ascii (reverse (drop_char "/" (reverse (drop_char "/" (list_ascii_of_string s))))).

Fixpoint join_slash (parts : list string) : string :=
  match parts with
  | [] => EmptyString
  | [p] => p
  | p :: parts => (p ++ String "/" (join_slash parts))%string
  end.

Definition joinURLPath (parts : list string) : string :=
  String "/" (join_slash (filter (λ p, p ≠ EmptyString) (trim_slashes <$> parts))).

(** [hex.EncodeToString]. *)
Definition lower_nibble (z : Z) : ascii := default "0"%char (list_ascii_of_string "0123456789abcdef" !! Z.to_nat z).

Fixpoint hex_EncodeToString (b : bytes) : string :=
  match b with
  | [] => EmptyString
  | x :: b => String (lower_nibble (Z_of_byte x / 16)) (String (lower_nibble (Z_of_byte x mod 16)) (hex_EncodeToString b))
  end.

(** [hex.EncodeToString] of what the random source yields, if it does. *)
Definition randHex (rnd : option bytes) : option string := hex_EncodeToString <$> rnd.

Definition NewPunchMetadata (nonce obfs : option bytes) : option PunchMetadata :=
  n ← randHex nonce; o ← randHex obfs; Some (mkMetadata n o).

Section Requests.
Context `{UnicodeTables}.

(** [http.NewRequestWithContext] parses the URL again. *)
Definition newRequest (c : Client) (method realmID subPath token : string) (body : option string) : result client_error request :=
  if bool_decide (realmID = EmptyString) || ContainsRune realmID "/" then Err InvalidRealm else
  let u := set_RawQuery EmptyString (set_Path (joinURLPath [Path (baseURL c); "v1"%string; PathEscape realmID; subPath]) (baseURL c)) in
  match std_Parse (URL_String u) with
  | Err e => Err (BadRequestURL e)
  | Ok _ => Ok (mkRequest method (URL_String u) (if bool_decide (token = EmptyString) then None else Some ("Bearer " ++ token)%string) body)
  end.

Context `{!Json ErrorResponse}.

Definition decodeStatusError (resp : response) : StatusError :=
  mkStatusError (status resp) (default (mkErrorResponse EmptyString EmptyString) (Unmarshal (first (Z.to_nat maxErrorBodySize) (content resp)))).

(** [do] is the HTTP client.  [None] for what is sent, or for what is wanted,
    is nil. *)
Definition doJSON {A B} `{!Json A} `{!Json B} (do : request → option response) (c : Client)
    (method realmID subPath token : string) (input : option A) (expectedStatus : Z) (wanted : bool) : result client_error (option B) :=
  req ← newRequest c method realmID subPath token (Marshal <$> input);
  match do req with
  | None => Err TransportError
  | Some resp =>
      if negb (status resp =? expectedStatus) then Err (StatusErr (decodeStatusError resp)) else
      if negb wanted then Ok None else
      match Unmarshal (content resp) with Some b => Ok (Some b) | None => Err DecodeError end
  end.

Context `{!Json RegisterResponse} `{!Json HeartbeatResponse} `{!Json AddressRequest} `{!Json PunchEvent}.
Variable do : request → option response.

Definition Register (c : Client) (realmID : string) (addresses : list string) : result client_error (option RegisterResponse) :=
  doJSON do c "POST" realmID "" (token c) (Some (mkAddressRequest addresses)) 200 true.

Definition Deregister (c : Client) (realmID sessionID : string) : result client_error (option AddressRequest) :=
  doJSON (A := AddressRequest) do c "DELETE" realmID "" sessionID None 204 false.

Definition Heartbeat (c : Client) (realmID sessionID : string) (req : AddressRequest) : result client_error (option HeartbeatResponse) :=
  doJSON do c "POST" realmID "heartbeat" sessionID (Some req) 200 true.

Definition Connect (c : Client) (realmID : string) (req : PunchEvent) : result client_error (option PunchEvent) :=
  doJSON do c "POST" realmID "connect" (token c) (Some req) 200 true.

Definition ConnectResponse (c : Client) (realmID sessionID nonce : string) (addresses : list string) : result client_error (option AddressRequest) :=
  doJSON do c "POST" realmID ("connects/" ++ PathEscape nonce) sessionID (Some (mkAddressRequest addresses)) 204 false.

(** The body of the response is the stream. *)
Definition Events (c : Client) (realmID sessionID : string) : result client_error string :=
  req ← newRequest c "GET" realmID "events" sessionID None;
  match do req with
  | None => Err TransportError
  | Some resp => if negb (status resp =? 200) then Err (StatusErr (decodeStatusError resp)) else Ok (content resp)
  end.
End Requests.

(** *** The stream of events *)
Inductive stream_error := EOF | ScanError | BadEvent.

(** [bufio.Scanner] with its lines: what comes before a line break or the end,
    without a carriage return at the end; a line of the buffer's size or more is
    an error, which ends the lines. *)
Definition maxTokenSize : Z := 1024 * 1024.

Definition drop_cr (s : string) : string := if HasSuffix s (String "013" EmptyString) then first (String.length s - 1) s else s.

Fixpoint scan_lines (raw : list string) : list string * bool :=
  match raw with
  | [] => ([], false)
  | [last] => if bool_decide (last = EmptyString) then ([], false)
              else if maxTokenSize <=? Z.of_nat (String.length last) then ([], true) else ([drop_cr last], false)
  | l :: raw =>
      if maxTokenSize <=? Z.of_nat (String.length l) then ([], true)
      else let '(ls, err) := scan_lines raw in (drop_cr l :: ls, err)
  end.

(** The scanner's lines still to come, and whether an error ends them. *)
Record EventStream := mkStream { lines : list string; failed : bool }.

Definition newEventStream (body : string) : EventStream := let '(ls, err) := scan_lines (Split body "010") in mkStream ls err.

Section Stream.
Context `{!Json PunchEvent}.

Fixpoint next (ls : list string) (err : bool) (eventName data : string) : result stream_error PunchEvent * list string :=
  match ls with
  | [] => (Err (if err then ScanError else EOF), [])
  | line :: ls =>
      if bool_decide (line = EmptyString) then
        if bool_decide (eventName = EmptyString) && bool_decide (data = EmptyString) then next ls err eventName data
        else if negb (bool_decide (eventName = "punch"%string)) then next ls err EmptyString EmptyString
        else (match Unmarshal data with Some ev => Ok ev | None => Err BadEvent end, ls)
      else if HasPrefix line ":" then next ls err eventName data
      else
        let '(field, value, ok) := Cut line ":" in
        if negb ok then next ls err eventName data else
        let value := TrimPrefix value " " in
        if bool_decide (field = "event"%string) then next ls err value data
        else if bool_decide (field = "data"%string)
        then next ls err eventName (if bool_decide (data = EmptyString) then value else data ++ String "010" value)%string
        else next ls err eventName data
  end.

Definition Next (s : EventStream) : result stream_error PunchEvent * EventStream :=
  let '(r, ls) := next (lines s) (failed s) EmptyString EmptyString in (r, mkStream ls (failed s)).

(** The events that [Next] gives until it fails, and why it does; every event
    takes a line, so that [fuel] above their number is enough. *)
Fixpoint drain (fuel : nat) (s : EventStream) : list PunchEvent * option stream_error :=
  match fuel with
  | O => ([], None)
  | S fuel =>
      match Next s with
      | (Err e, _) => ([], Some e)
      | (Ok ev, s) => let '(evs, e) := drain fuel s in (ev :: evs, e)
      end
  end.
End Stream.

(** * What the client and the server exchange *)

(** ** Strings *)
Lemma TrimPrefix_app p s : TrimPrefix (p ++ s) p = s.
Proof.
  unfold TrimPrefix. assert (HasPrefix (p ++ s) p = true) as ->; [|apply skip_app].
  induction p as [|c p IH]; [by destruct s|]. rewrite append_String. cbn [HasPrefix]. by rewrite bool_decide_eq_true_2.
Qed.

Lemma drop_char_free c l : c ∉ l → drop_char c l = l.
Proof. destruct l as [|d l]; [done|]. intros Hn. cbn [drop_char]. rewrite decide_False; [done|]. intros ->. apply Hn. by left. Qed.

Lemma trim_slashes_free s : free_of "/" s → trim_slashes s = s.
Proof.
  intros Hs. unfold trim_slashes. rewrite (drop_char_free _ (list_ascii_of_string s)) by done.
  rewrite drop_char_free by (by rewrite elem_of_reverse). rewrite reverse_involutive. apply string_of_list_ascii_of_string.
Qed.

Lemma Atoi_FormatUint n : 0 <= n < 2 ^ 63 → Strconv.Atoi (Strconv.FormatUint n) = (n, false).
Proof.
  intros Hn. assert (Strconv.ParseUint (Strconv.FormatUint n) 64 = (n, false)) as Hp by (apply Strconv.ParseUint_FormatUint; unfold MaxUint64; lia).
  pose proof (Strconv.FormatUint_loop_digits 20 n EmptyString ltac:(lia) eq_refl) as Hd. fold (Strconv.FormatUint n) in Hd.
  unfold Strconv.Atoi. destruct (Strconv.FormatUint n) as [|c s] eqn:E.
  - exfalso. by apply (Strconv.FormatUint_nonempty n).
  - unfold Strconv.all_digits in Hd. cbn in Hd. apply andb_true_iff in Hd as [Hc _].
    assert (c ≠ "+"%char ∧ c ≠ "-"%char) as [H1 H2] by (split; intros ->; done).
    assert ((match String c s with String "+" d => (false, d) | String "-" d => (true, d) | _ => (false, String c s) end) = (false, String c s)) as ->.
    { clear -H1 H2. destruct c as [[] [] [] [] [] [] [] []]; done. }
    rewrite Hp. cbn [andb]. rewrite (proj2 (Z.leb_gt _ _)) by lia. done.
Qed.

Lemma FormatUint_lacks n c : 0 <= n → is_digit c = false → free_of c (Strconv.FormatUint n).
Proof.
  intros Hn Hc Hin. pose proof (Strconv.FormatUint_loop_digits 20 n EmptyString Hn eq_refl) as Hd. unfold Strconv.all_digits in Hd.
  rewrite forallb_forall in Hd. apply list_elem_of_In, Hd in Hin. by rewrite Hc in Hin.
Qed.

Lemma digits_port n : 0 <= n → strict_port (String ":" (Strconv.FormatUint n)) = true ∧ validOptionalPort (String ":" (Strconv.FormatUint n)) = true.
Proof.
  intros Hn. pose proof (Strconv.FormatUint_loop_digits 20 n EmptyString Hn eq_refl) as Hd. unfold Strconv.all_digits in Hd. fold (Strconv.FormatUint n) in Hd.
  split; [done|]. unfold validOptionalPort. rewrite ?bool_decide_eq_true_2 by done. cbn [andb negb]. rewrite forallb_forall in Hd |- *.
  intros c Hc. by rewrite (Hd c Hc).
Qed.

Lemma HasPrefix_bracket s : HasPrefix ("[" ++ s) "[" = true.
Proof. change ("[" ++ s)%string with (String "[" s). cbn [HasPrefix]. rewrite bool_decide_eq_true_2 by done. by destruct s. Qed.

Lemma HasSuffix_bracket s : HasSuffix (s ++ "]") "]" = true.
Proof.
  unfold HasSuffix. rewrite length_app_string. cbn [String.length].
  replace (String.length s + 1 - 1)%nat with (String.length s) by lia. rewrite skip_app, bool_decide_eq_true_2 by done.
  rewrite andb_true_r. apply Nat.leb_le. lia.
Qed.

(** The host and the port of a URL, taken apart. *)
Lemma JoinHostPort_cases host n : 0 <= n → free_of "[" host → free_of "]" host → host ≠ EmptyString →
  splitHostPort (JoinHostPort host (Strconv.FormatUint n)) = (host, Strconv.FormatUint n) ∧
  strict_host (JoinHostPort host (Strconv.FormatUint n)) = true.
Proof.
  intros Hn Ho Hc Hne. pose proof (FormatUint_lacks n ":" Hn eq_refl) as Hp. destruct (digits_port n Hn) as [Hs Hv].
  set (port := Strconv.FormatUint n) in *. unfold JoinHostPort. destruct (0 <=? IndexByte host ":") eqn:Hi.
  - assert ("[" ++ host ++ "]:" ++ port = ("[" ++ host ++ "]") ++ String ":" port)%string as -> by (rewrite !append_assoc; reflexivity).
    assert (HasPrefix (("[" ++ host ++ "]") ++ String ":" port) "[" = true) as Hpre.
    { rewrite append_assoc. apply HasPrefix_bracket. }
    split.
    + unfold splitHostPort. rewrite LastIndexByte_app by done. rewrite Nat2Z.id, skip_app, first_app, Hv.
      rewrite (proj2 (Z.eqb_neq _ (-1))) by lia. cbn [negb andb].
      replace (Z.to_nat (Z.of_nat (String.length ("[" ++ host ++ "]")) + 1)) with (String.length (("[" ++ host ++ "]") ++ ":")) by (rewrite length_app_string; cbn [String.length]; lia).
      replace (("[" ++ host ++ "]") ++ String ":" port)%string with ((("[" ++ host ++ "]") ++ ":") ++ port)%string by (by rewrite append_assoc).
      rewrite skip_app. f_equal.
      rewrite HasPrefix_bracket.
      replace (HasSuffix ("[" ++ host ++ "]") "]") with true by (rewrite <-append_assoc; by rewrite HasSuffix_bracket).
      cbn [andb]. rewrite !length_app_string. cbn [String.length]. change (skip 1 ("[" ++ host ++ "]")) with (host ++ "]")%string.
      replace (1 + (String.length host + 1) - 2)%nat with (String.length host) by lia. by rewrite first_app.
    + unfold strict_host. rewrite Hpre.
      replace (("[" ++ host ++ "]") ++ String ":" port)%string with (("[" ++ host) ++ String "]" (String ":" port))%string by (by rewrite !append_assoc).
      rewrite LastIndexByte_app.
      2:{ apply free_of_cons. split; [done|]. by apply FormatUint_lacks. }
      replace (Z.to_nat (Z.of_nat (String.length ("[" ++ host)) + 1)) with (String.length (("[" ++ host) ++ "]")) by (rewrite length_app_string; cbn [String.length]; lia).
      replace (("[" ++ host) ++ String "]" (String ":" port))%string with ((("[" ++ host) ++ "]") ++ String ":" port)%string by (by rewrite !append_assoc).
      by rewrite skip_app.
  - change (host ++ ":" ++ port)%string with (host ++ String ":" port)%string.
    assert (HasPrefix (host ++ String ":" port) "[" = false ∧ HasPrefix host "[" = false) as [Hpre Hpre'].
    { destruct host as [|c host]; [done|]. apply free_of_cons in Ho as [Hc' _]. rewrite append_String. cbn [HasPrefix]. by rewrite bool_decide_eq_false_2. }
    split.
    + unfold splitHostPort. rewrite LastIndexByte_app by done. rewrite Nat2Z.id, skip_app, first_app, Hv.
      rewrite (proj2 (Z.eqb_neq _ (-1))) by lia. cbn [negb andb].
      replace (Z.to_nat (Z.of_nat (String.length host) + 1)) with (String.length (host ++ ":")) by (rewrite length_app_string; cbn [String.length]; lia).
      replace (host ++ String ":" port)%string with ((host ++ ":") ++ port)%string by (by rewrite append_assoc).
      by rewrite skip_app, Hpre'.
    + unfold strict_host. rewrite Hpre, LastIndexByte_app by done. rewrite Nat2Z.id, skip_app, Hs. apply orb_true_r.
Qed.

(** ** Realm addresses *)
Definition http_of (scheme : string) : string := if bool_decide (scheme = SchemeHTTPS) then "https" else "http".

Section Addresses.
Context `{UnicodeTables}.

Lemma parseRealmID_ok u rid : Path u = String "/" rid → RawPath u = EmptyString → rid ≠ EmptyString → free_of "/" rid → parseRealmID u = Ok rid.
Proof.
  intros Hp Hr Hid Hf. unfold parseRealmID. rewrite Hp.
  rewrite (bool_decide_eq_false_2 (String "/" rid = EmptyString)) by done.
  rewrite (bool_decide_eq_false_2 (String "/" rid = "/"%string)) by (by intros [= ?]). cbn [orb].
  assert (EscapedPath u = String "/" (escape rid encodePath)) as ->.
  { unfold EscapedPath. rewrite Hr, Hp. rewrite (bool_decide_eq_true_2 (EmptyString = EmptyString)) by done. cbn [negb andb].
    rewrite bool_decide_eq_false_2 by (by intros [= ?]). rewrite !escape_eq. reflexivity. }
  change (TrimPrefix (String "/" (escape rid encodePath)) "/") with (TrimPrefix ("/" ++ escape rid encodePath) "/"). rewrite TrimPrefix_app.
  assert (free_of "/" (escape rid encodePath)) as Hfe.
  { intros Hin. apply Hf. revert Hin. clear. rewrite escape_eq. induction rid as [|c rid IH]; [done|]. cbn [encode_escapes].
    change (bool_decide (c = " "%char) && bool_decide (encodePath = encodeQueryComponent)) with (bool_decide (c = " "%char) && false). rewrite andb_false_r.
    cbn [list_ascii_of_string]. destruct (shouldEscape c encodePath) eqn:E; cbn [list_ascii_of_string].
    - rewrite !elem_of_cons. intros [?|[Hh|[Hh|Hin]]]; [done|..|right; by apply IH]; exfalso; char_facts encodePath c; rewrite <-Hh in *; done.
    - rewrite !elem_of_cons. intros [->|Hin]; [by left|right; by apply IH]. }
  rewrite (bool_decide_eq_false_2 (escape rid encodePath = EmptyString)).
  2:{ intros He. pose proof (unescape_escape encodePath rid eq_refl) as Hu. rewrite He in Hu. by injection Hu as <-. }
  rewrite ContainsRune_free by done. cbn [orb]. unfold PathUnescape. rewrite (unescape_text_mode encodePathSegment encodePath) by done.
  rewrite unescape_escape by done. rewrite bool_decide_eq_false_2 by done. by rewrite ContainsRune_free.
Qed.

(** A realm address names what its text says: the token and the realm with
    any bytes in them (but a slash in the realm), escaped where the URL needs it,
    the server's host and port, the local port asked for, and the query. *)
Theorem ParseAddr_String u tok host port rid v lport :
  url_ok u → Scheme u = SchemeHTTPS ∨ Scheme u = SchemeHTTP → User u = Some (new_User tok) → tok ≠ EmptyString →
  Host u = JoinHostPort host (Strconv.FormatUint port) → 1 <= port <= 65535 → host ≠ EmptyString → free_of "[" host → free_of "]" host →
  Path u = String "/" rid → rid ≠ EmptyString → free_of "/" rid → Fragment u = EmptyString →
  RawQuery u = Values_Encode v → all_valued v →
  v !! "lport"%string = match lport with Some p => Some [Strconv.FormatUint p] | None => None end → (∀ p, lport = Some p → 1 <= p <= 65535) →
  ParseAddr (URL_String u) = Ok (mkAddr (Scheme u) (http_of (Scheme u)) tok host (Strconv.FormatUint port) (Host u) rid (default 0 lport) v).
Proof.
  intros Hu Hs Hui Htok Hh Hport Hne Ho Hc Hp Hid Hf Hfr Hq Hv Hl Hlb.
  destruct (JoinHostPort_cases host port ltac:(lia) Ho Hc Hne) as [Hsplit Hstrict]. rewrite <-Hh in Hsplit, Hstrict.
  unfold ParseAddr, std_Parse. rewrite Parse_printed by done. cbn [mbind result_bind]. rewrite Hstrict.
  assert (∃ dflt, schemeInfo (Scheme u) = Ok (http_of (Scheme u), dflt)) as [dflt ->].
  { unfold schemeInfo, http_of. destruct Hs as [-> | ->]; [by eexists|]. by eexists. }
  destruct (uo_raw _ Hu) as (Hr1 & Hr2 & Hr3 & Hr4). pose proof (uo_opaque _ Hu) as Hop. destruct (uo_host _ Hu) as [Hhne _].
  cbn [mbind result_bind]. rewrite Hop, (bool_decide_eq_true_2 (EmptyString = EmptyString)) by done. rewrite (bool_decide_eq_false_2 (Host u = EmptyString)) by done.
  cbn [negb orb]. rewrite Hui. change (Userinfo_String (new_User tok)) with (escape tok encodeUserPassword). unfold PathUnescape at 1.
  rewrite (unescape_text_mode encodePathSegment encodeUserPassword) by done. rewrite unescape_escape by done.
  rewrite (bool_decide_eq_false_2 (tok = EmptyString)) by done. rewrite Hr4, andb_false_r, Hfr, Hr2.
  rewrite (bool_decide_eq_true_2 (EmptyString = EmptyString)) by done. cbn [negb orb].
  rewrite (parseRealmID_ok u rid) by done. cbn [mbind result_bind]. unfold Hostname, Port. rewrite Hsplit. cbn [fst snd].
  rewrite (bool_decide_eq_false_2 (host = EmptyString)) by done.
  rewrite (bool_decide_eq_false_2 (Strconv.FormatUint port = EmptyString)) by apply Strconv.FormatUint_nonempty.
  unfold validatePort. rewrite Atoi_FormatUint by lia. rewrite (proj2 (Z.leb_gt port 0)), (proj2 (Z.ltb_ge 65535 port)) by lia. cbn [orb mbind result_bind].
  rewrite SplitHostPort_JoinHostPort; [|done..|repeat split; apply FormatUint_lacks; (lia || done)].
  unfold cloneValues, Query. rewrite Hq, ParseQuery_Encode by done. cbn [fst]. rewrite Hl.
  assert (parseLocalPort (default [] (match lport with Some p => Some [Strconv.FormatUint p] | None => None end)) = Ok (default 0 lport)) as ->.
  { destruct lport as [p|]; [|done]. specialize (Hlb p eq_refl). cbn [default from_option id parseLocalPort]. rewrite Atoi_FormatUint by lia.
    by rewrite (proj2 (Z.ltb_ge p 1)), (proj2 (Z.ltb_ge 65535 p)) by lia. }
  cbn [mbind result_bind]. by rewrite Hh.
Qed.
End Addresses.

(** ** Requests *)
Definition path_of (rid subPath : string) : string :=
  ("/v1/" ++ PathEscape rid ++ if bool_decide (subPath = EmptyString) then EmptyString else String "/" subPath)%string.

Lemma PathEscape_free rid : free_of "/" (PathEscape rid).
Proof. by apply escape_free. Qed.

Lemma PathEscape_nonempty rid : rid ≠ EmptyString → PathEscape rid ≠ EmptyString.
Proof.
  intros Hr He. pose proof (unescape_escape encodePathSegment rid eq_refl) as Hu. unfold PathEscape in He. rewrite He in Hu. by injection Hu as <-.
Qed.

Lemma joinURLPath_spec rid subPath : rid ≠ EmptyString → trim_slashes subPath = subPath →
  joinURLPath [EmptyString; "v1"%string; PathEscape rid; subPath] = path_of rid subPath.
Proof.
  intros Hr Hs. unfold joinURLPath, path_of. cbn [fmap list_fmap]. rewrite Hs, (trim_slashes_free (PathEscape rid)) by apply PathEscape_free.
  change (trim_slashes EmptyString) with EmptyString. change (trim_slashes "v1") with "v1"%string.
  rewrite filter_cons_False by (by intros []). rewrite filter_cons_True by done. rewrite filter_cons_True by (by apply PathEscape_nonempty).
  destruct (decide (subPath = EmptyString)) as [->|Hne].
  - rewrite filter_cons_False by (by intros []). rewrite filter_nil, bool_decide_eq_true_2, append_nil_r by done. reflexivity.
  - rewrite filter_cons_True by done. rewrite filter_nil, bool_decide_eq_false_2 by done. reflexivity.
Qed.

Section RequestFacts.
Context `{UnicodeTables}.

(** Whatever the realm is called, the request for it can be made, goes to
    the server of the address and to the path whose segment after the version
    is the escaped name: unescaping that segment gives the name back, so that
    no two realms share a path. *)
Theorem request_names_realm a c method rid subPath token body :
  NewClientFromAddr a = Ok c → host_ok (HostPort a) = true → strict_host (HostPort a) = true →
  rid ≠ EmptyString → free_of "/" rid → trim_slashes subPath = subPath →
  ∃ r u, newRequest c method rid subPath token body = Ok r ∧ std_Parse (rawURL r) = Ok u ∧
    Scheme u = RendezvousScheme a ∧ Host u = HostPort a ∧ RawQuery u = EmptyString ∧
    Path u = path_of rid subPath ∧ free_of "/" (PathEscape rid) ∧ PathUnescape (PathEscape rid) = Ok rid.
Proof.
  intros Hc Hh Hs Hr Hf Ht. unfold NewClientFromAddr, NewClient in Hc. cbn [BaseURL Scheme Host] in Hc.
  destruct (negb _ && negb _) eqn:Esch; [done|]. destruct (bool_decide (HostPort a = EmptyString)) eqn:Eh; [done|]. destruct (bool_decide (Token a = EmptyString)); [done|].
  injection Hc as <-. apply bool_decide_eq_false_1 in Eh. unfold newRequest. cbn [baseURL set_Fragment set_RawQuery BaseURL Path].
  rewrite (bool_decide_eq_false_2 (rid = EmptyString)), ContainsRune_free by done. cbn [orb]. rewrite joinURLPath_spec by done.
  set (u := set_RawQuery _ _).
  assert (url_ok u) as Hu.
  { split; cbn [u set_RawQuery set_Path set_Fragment BaseURL Scheme Opaque User Host Path RawPath RawFragment OmitHost ForceQuery RawQuery]; try done.
    - apply andb_false_iff in Esch as [E|E]; apply negb_false_iff, bool_decide_eq_true_1 in E; rewrite E;
        [by exists "h"%char, "ttps"%string|by exists "h"%char, "ttp"%string].
    - right. eexists. reflexivity.
    - by split; [apply free_of_nil|]. }
  assert (std_Parse (URL_String u) = Ok u) as Hp.
  { unfold std_Parse. rewrite Parse_printed by done. cbn [mbind result_bind]. change (Host u) with (HostPort a). by rewrite Hs. }
  rewrite Hp. eexists _, u. split; [done|]. split; [exact Hp|]. do 4 (split; [done|]). split; [apply PathEscape_free|].
  unfold PathUnescape, PathEscape. by apply unescape_escape.
Qed.
End RequestFacts.

(** ** Events *)
Section EventFacts.
Context `{!Json PunchEvent}.

(** What a server sends on the stream: events of the protocol, others, comments
    that keep the connection alive, and blank lines. *)
Inductive frame := FPunch (ev : PunchEvent) | FOther (name data : string) | FComment (text : string) | FBlank.

Definition frame_lines (f : frame) : list string :=
  match f with
  | FPunch ev => ["event: punch"; "data: " ++ Marshal ev; EmptyString]%string
  | FOther name data => ["event: " ++ name; "data: " ++ data; EmptyString]%string
  | FComment text => [String ":" text]
  | FBlank => [EmptyString]
  end.

Definition frame_ok (f : frame) : Prop := match f with FOther name _ => name ≠ "punch"%string | _ => True end.
Definition punches (fs : list frame) : list PunchEvent := omap (λ f, match f with FPunch ev => Some ev | _ => None end) fs.

(** The text of the stream. *)
Definition stream_text (ls : list string) : string := foldr (λ l s, l ++ String "010" s)%string EmptyString ls.

(** A line the scanner takes as it is. *)
Definition line_ok (l : string) : Prop :=
  free_of "010" l ∧ HasSuffix l (String "013" EmptyString) = false ∧ Z.of_nat (String.length l) < maxTokenSize.

Lemma scan_stream ls : Forall line_ok ls → newEventStream (stream_text ls) = mkStream ls false.
Proof.
  intros Hls. unfold newEventStream. assert (scan_lines (Split (stream_text ls) "010") = (ls, false)) as ->; [|done].
  induction Hls as [|l ls (Hf & Hs & Hl) Hls IH]; [done|]. cbn [stream_text foldr]. fold (stream_text ls). rewrite Split_app by done.
  cbn [scan_lines]. assert (∃ x xs, Split (stream_text ls) "010" = x :: xs) as (x & xs & Ex).
  { destruct (stream_text ls) as [|c s]; [by eexists _, _|]. cbn. destruct (decide _); [by eexists _, _|]. destruct (Split s "010"); by eexists _, _. }
  rewrite Ex in *. rewrite (proj2 (Z.leb_gt _ _)) by lia. rewrite IH. unfold drop_cr. by rewrite Hs.
Qed.

Lemma next_field name value ls err e d : free_of ":" name → name ≠ EmptyString →
  next ((name ++ String ":" (String " " value)) :: ls)%string err e d =
    if bool_decide (name = "event"%string) then next ls err value d
    else if bool_decide (name = "data"%string) then next ls err e (if bool_decide (d = EmptyString) then value else d ++ String "010" value)%string
    else next ls err e d.
Proof.
  intros Hn Hne. cbn [next]. destruct name as [|c name]; [done|]. rewrite append_String.
  rewrite bool_decide_eq_false_2 by done. assert (HasPrefix (String c (name ++ String ":" (String " " value))) ":" = false) as ->.
  { apply free_of_cons in Hn as [Hc _]. cbn [HasPrefix]. by rewrite bool_decide_eq_false_2. }
  rewrite <-append_String, Cut_app by done. cbn [negb]. change (TrimPrefix (String " " value) " ") with (TrimPrefix (" " ++ value) " "). by rewrite TrimPrefix_app.
Qed.

Lemma names_free : free_of ":" "event" ∧ free_of ":" "data".
Proof. split; apply (bool_decide_unpack _); vm_compute; exact I. Qed.

Lemma next_frame f ls err : frame_ok f →
  next (frame_lines f ++ ls) err EmptyString EmptyString =
    match f with FPunch ev => (Ok ev, ls) | _ => next ls err EmptyString EmptyString end.
Proof.
  destruct names_free as [He Hd]. intros Hf. destruct f as [ev|name data|text|]; cbn [frame_lines app].
  - change "event: punch"%string with ("event" ++ String ":" (String " " "punch"))%string. rewrite next_field by done.
    rewrite bool_decide_eq_true_2 by done. change ("data: " ++ Marshal ev)%string with ("data" ++ String ":" (String " " (Marshal ev)))%string.
    rewrite next_field by done. change (bool_decide ("data"%string = "event"%string)) with false. rewrite !(bool_decide_eq_true_2 (_ = _)) by done.
    cbn [next]. rewrite bool_decide_eq_true_2 by done. pose proof (Marshal_line ev). rewrite (bool_decide_eq_false_2 (Marshal ev = EmptyString)), andb_false_r by done.
    change (bool_decide ("punch"%string = "punch"%string)) with true. cbn [negb]. by rewrite Unmarshal_Marshal.
  - change ("event: " ++ name)%string with ("event" ++ String ":" (String " " name))%string. rewrite next_field by done.
    rewrite bool_decide_eq_true_2 by done. change ("data: " ++ data)%string with ("data" ++ String ":" (String " " data))%string.
    rewrite next_field by done. change (bool_decide ("data"%string = "event"%string)) with false. rewrite !(bool_decide_eq_true_2 (_ = _)) by done.
    cbn [next]. rewrite bool_decide_eq_true_2 by done. rewrite (bool_decide_eq_false_2 (name = "punch"%string)) by done. cbn [negb].
    destruct (bool_decide (name = EmptyString) && bool_decide (data = EmptyString)) eqn:E; [|done].
    apply andb_true_iff in E as [->%bool_decide_eq_true_1 ->%bool_decide_eq_true_1]. done.
  - cbn [next]. rewrite bool_decide_eq_false_2 by done. assert (HasPrefix (String ":" text) ":" = true) as ->; [|done].
    cbn [HasPrefix]. rewrite bool_decide_eq_true_2 by done. by destruct text.
  - cbn [next]. by rewrite bool_decide_eq_true_2.
Qed.

Lemma drain_frames fs fuel : Forall frame_ok fs → (length (punches fs) < fuel)%nat →
  drain fuel (mkStream (fs ≫= frame_lines) false) = (punches fs, Some EOF).
Proof.
  intros Hfs. revert fuel. induction Hfs as [|f fs Hf Hfs IH]; intros fuel Hl.
  - destruct fuel; [lia|]. done.
  - destruct fuel as [|fuel]; [lia|]. change ((f :: fs) ≫= frame_lines) with (frame_lines f ++ (fs ≫= frame_lines)).
    destruct f as [ev|name data|text|].
    + cbn [drain]. unfold Next. cbn [lines failed]. rewrite next_frame by done. change (punches (FPunch ev :: fs)) with (ev :: punches fs) in *.
      rewrite IH; [done|cbn in Hl; lia].
    + specialize (IH (S fuel) Hl). cbn [drain] in *. unfold Next in *. cbn [lines failed] in *. by rewrite next_frame.
    + specialize (IH (S fuel) Hl). cbn [drain] in *. unfold Next in *. cbn [lines failed] in *. by rewrite next_frame.
    + specialize (IH (S fuel) Hl). cbn [drain] in *. unfold Next in *. cbn [lines failed] in *. by rewrite next_frame.
Qed.

(** C18: of a stream of events the client gets the punch events, each once, as
    they were sent and in order, whatever other events, comments and blank lines
    stand between them, and then the end of the stream. *)
Theorem events_in_order fs : Forall frame_ok fs → Forall line_ok (fs ≫= frame_lines) →
  drain (S (length (punches fs))) (newEventStream (stream_text (fs ≫= frame_lines))) = (punches fs, Some EOF).
Proof. intros Hf Hl. rewrite scan_stream by done. apply drain_frames; [done|lia]. Qed.
End EventFacts.

(** ** At concrete inputs *)
#[local] Instance sample_tables : UnicodeTables := {| wide_lower s := s |}.

(** ** Fresh metadata is a punch key *)
Lemma hex_digit_nibble v : 0 <= v < 16 → hex_digit (lower_nibble v) = Some v.
Proof.
  intros Hv. assert (forallb (λ n, bool_decide (hex_digit (lower_nibble (Z.of_nat n)) = Some (Z.of_nat n))) (seq 0 16) = true) as H by (vm_compute; reflexivity).
  rewrite forallb_forall in H. specialize (H (Z.to_nat v) ltac:(apply in_seq; lia)). rewrite Z2Nat.id in H by lia. by apply bool_decide_eq_true_1 in H.
Qed.

Lemma hex_DecodeString_EncodeToString b : hex_DecodeString (hex_EncodeToString b) = Some b.
Proof.
  induction b as [|x b IH]; [done|]. pose proof (Z_of_byte_bound x). cbn [hex_EncodeToString hex_DecodeString].
  assert (0 <= Z_of_byte x / 16 < 16) as H1 by (split; [apply Z.div_pos|apply Z.div_lt_upper_bound]; lia).
  assert (0 <= Z_of_byte x mod 16 < 16) as H2 by (apply Z.mod_pos_bound; lia).
  rewrite (hex_digit_nibble _ H1), (hex_digit_nibble _ H2).
  cbn [mbind option_bind]. rewrite IH. cbn [mbind option_bind]. do 2 f_equal.
  rewrite <-(byte_of_Z_of_byte x) at 3. f_equal. pose proof (Z.div_mod (Z_of_byte x) 16 ltac:(lia)). lia.
Qed.

Lemma NewPunchMetadata_usable nonce obfs mask meta : len nonce = PunchNonceSize → len obfs = PunchObfsKeySize → valid mask = true →
  NewPunchMetadata (Some nonce) (Some obfs) = Some meta → newPunchKey meta mask = Ok (mkPunchKey nonce mask).
Proof.
  intros Hn Ho Hm [= <-]. unfold newPunchKey. rewrite Hm. cbn [negb Nonce]. unfold decodeHexSize.
  rewrite hex_DecodeString_EncodeToString. rewrite Hn. change (negb (PunchNonceSize =? PunchNonceSize)) with false. reflexivity.
Qed.

(** A stand-in for JSON: the digits of a numbering of the events. *)
Fixpoint digits_of (p : positive) : string :=
  match p with xH => "1" | xO p => String "0" (digits_of p) | xI p => String "2" (digits_of p) end%string.

Fixpoint digits_to (s : string) : positive :=
  match s with
  | String "0" s => xO (digits_to s)
  | String "2" s => xI (digits_to s)
  | _ => xH
  end.

Lemma digits_to_of p : digits_to (digits_of p) = p.
Proof. induction p as [p IH|p IH|]; cbn; by rewrite ?IH. Qed.

#[local] Instance event_eq_dec : EqDecision PunchEvent.
Proof. assert (EqDecision PunchMetadata) by solve_decision. solve_decision. Defined.

#[local] Instance event_countable : Countable PunchEvent.
Proof.
  refine (inj_countable' (λ e, (ev_Addresses e, Nonce (ev_Metadata e), Obfs_ (ev_Metadata e))) (λ '(a, n, o), mkPunchEvent a (mkMetadata n o)) _).
  by intros [a [n o]].
Defined.

#[local] Instance sample_json : Json PunchEvent.
Proof.
  refine {| Marshal ev := digits_of (encode ev); Unmarshal s := decode (digits_to s) |}.
  - intros ev. rewrite digits_to_of. apply countable.decode_encode.
  - intros ev. by destruct (encode ev).
Defined.

#[local] Instance line_ok_dec l : Decision (line_ok l).
Proof. unfold line_ok, free_of. apply _. Defined.

Definition sample_frames : list frame :=
  [FComment " keep-alive"; FPunch (mkPunchEvent ["192.0.2.1:4000"%string] (mkMetadata "n1" "k")); FOther "ping" "x"; FBlank;
   FPunch (mkPunchEvent [] (mkMetadata "n2" "k"))].

Lemma events_in_order_witness : Forall line_ok (sample_frames ≫= frame_lines) ∧
  drain (S (length (punches sample_frames))) (newEventStream (stream_text (sample_frames ≫= frame_lines))) = (punches sample_frames, Some EOF).
Proof.
  assert (Forall line_ok (sample_frames ≫= frame_lines)) as Hl by (apply (bool_decide_unpack _); vm_compute; exact I).
  split; [exact Hl|]. apply (events_in_order sample_frames); [|exact Hl]. by repeat constructor.
Defined.

Definition sample_values : Values := <["lport"%string := ["4000"%string]]> (<["stun"%string := ["stun.example:3478"%string]]> ∅).
Definition sample_url : URL :=
  mkURL SchemeHTTPS EmptyString (Some (new_User "s3cret/:@")) "[2001:db8::1]:8443" "/my realm%" EmptyString false false
    (Values_Encode sample_values) EmptyString EmptyString.
Definition sample_addr : Addr :=
  mkAddr SchemeHTTPS "https" "s3cret/:@" "2001:db8::1" "8443" "[2001:db8::1]:8443" "my realm%" 4000 sample_values.

Lemma ParseAddr_String_witness : url_ok sample_url ∧ ParseAddr (URL_String sample_url) = Ok sample_addr.
Proof.
  assert (url_ok sample_url) as Hu.
  { split; try done.
    - by exists "r"%char, "ealm"%string.
    - right. by exists "my realm%"%string.
    - apply encoded_query. }
  split; [exact Hu|].
  apply (ParseAddr_String sample_url "s3cret/:@" "2001:db8::1" 8443 "my realm%" sample_values (Some 4000) Hu); try done; try (by left);
    try (apply (bool_decide_unpack _); vm_compute; exact I).
  - by intros p [= <-].
Defined.

Definition sample_client : Client := mkClient (set_Fragment EmptyString (set_RawQuery EmptyString (BaseURL sample_addr))) (Token sample_addr).

Lemma request_names_realm_witness : NewClientFromAddr sample_addr = Ok sample_client ∧
  ∃ r u, newRequest sample_client "POST" "my realm%" "connect" "t" None = Ok r ∧ std_Parse (rawURL r) = Ok u ∧
    Scheme u = "https"%string ∧ Host u = HostPort sample_addr ∧ RawQuery u = EmptyString ∧
    Path u = path_of "my realm%" "connect" ∧ free_of "/" (PathEscape "my realm%") ∧ PathUnescape (PathEscape "my realm%") = Ok "my realm%"%string.
Proof.
  split; [reflexivity|]. apply (request_names_realm sample_addr sample_client "POST" "my realm%" "connect" "t" None); try reflexivity; try done.
  apply (bool_decide_unpack _); vm_compute; exact I.
Defined.

(** The path is escaped once more when the URL is written: what a server
    unescapes once is the escaped name. *)
Example escaped_twice : match newRequest sample_client "POST" "my realm%" "connect" "t" None with
  | Ok r => rawURL r = "https://[2001:db8::1]:8443/v1/my%2520realm%2525/connect"%string | Err _ => False end.
Proof. vm_compute. reflexivity. Qed.
