(* ===== verification/ClientFile.v ===== *)
(** * The client's configuration file (app/cmd/client.go)

    What [clientConfig] holds of the file for the connection to the server (the
    local listeners' sections are not here), the share URI that it gives and
    takes, and the core configuration that is made of it.  The resolver, files,
    certificates and the sockets' options of the platform are arguments. *)
From S2P Require Import GoStd Prelude Netip Net Utf8 Nat Config Obfs Base64 Ech Url Settings UdpHop Rendezvous.
Import Strings.

(** ** The file *)
Record transportUDP := mkTransportUDP { HopInterval : Z; MinHopInterval : Z; MaxHopInterval : Z }.
Record transportConfig := mkTransport { t_Type : string; t_UDP : transportUDP }.
Record tlsConfig := mkTLS {
  SNI : string; Insecure : bool; PinSHA256 : string; CA : string; ClientCertificate : string; ClientKey : string; ECH : string }.
Record SocketOptions := mkSockopts { BindInterface : option string; FirewallMark : option Z; FdControlUnixSocket : option string }.
Record quicConfig := mkQUIC {
  InitStreamReceiveWindow : Z; q_MaxStreamReceiveWindow : Z; InitConnectionReceiveWindow : Z; q_MaxConnectionReceiveWindow : Z;
  q_MaxIdleTimeout : Z; q_KeepAlivePeriod : Z; q_DisablePathMTUDiscovery : bool; q_DisableChromeParrot : bool; Sockopts : SocketOptions }.
Record bandwidthConfig := mkBandwidthFile { Up : string; Down : string; b_DisableLossCompensation : bool }.
Record realmPortMappingConfig := mkPortMapping { pm_Enabled : bool; pm_Timeout : Z; pm_Lifetime : Z }.
Record realmFile := mkRealmFile {
  r_STUNServers : list string; r_STUNTimeout : Z; r_PunchTimeout : Z; r_Insecure : bool; IPMode : string; PortMapping : realmPortMappingConfig }.

Record clientConfig := mkClientFile {
  c_Server : string;
  c_Auth : string;
  c_Realm : realmFile;
  c_Transport : transportConfig;
  c_Obfs : obfsConfig;
  c_TLS : tlsConfig;
  c_QUIC : quicConfig;
  MimicEnabled : bool;
  CongestionType : string;
  CongestionBBRProfile : string;
  c_Bandwidth : bandwidthConfig;
  c_FastOpen : bool;
}.

(** Assignments to fields. *)
Definition set_Server (v : string) (c : clientConfig) : clientConfig :=
  mkClientFile v (c_Auth c) (c_Realm c) (c_Transport c) (c_Obfs c) (c_TLS c) (c_QUIC c) (MimicEnabled c) (CongestionType c) (CongestionBBRProfile c) (c_Bandwidth c) (c_FastOpen c).
Definition set_Auth (v : string) (c : clientConfig) : clientConfig :=
  mkClientFile (c_Server c) v (c_Realm c) (c_Transport c) (c_Obfs c) (c_TLS c) (c_QUIC c) (MimicEnabled c) (CongestionType c) (CongestionBBRProfile c) (c_Bandwidth c) (c_FastOpen c).
Definition set_Obfs (v : obfsConfig) (c : clientConfig) : clientConfig :=
  mkClientFile (c_Server c) (c_Auth c) (c_Realm c) (c_Transport c) v (c_TLS c) (c_QUIC c) (MimicEnabled c) (CongestionType c) (CongestionBBRProfile c) (c_Bandwidth c) (c_FastOpen c).
Definition set_TLS (v : tlsConfig) (c : clientConfig) : clientConfig :=
  mkClientFile (c_Server c) (c_Auth c) (c_Realm c) (c_Transport c) (c_Obfs c) v (c_QUIC c) (MimicEnabled c) (CongestionType c) (CongestionBBRProfile c) (c_Bandwidth c) (c_FastOpen c).

Definition set_Type (v : string) (o : obfsConfig) : obfsConfig := mkObfs v (Salamander o) (SalamanderV2 o) (Settings.Gecko o).
Definition set_Salamander (v : string) (o : obfsConfig) : obfsConfig := mkObfs (Type_ o) v (SalamanderV2 o) (Settings.Gecko o).
Definition set_GeckoPassword (v : string) (o : obfsConfig) : obfsConfig :=
  mkObfs (Type_ o) (Salamander o) (SalamanderV2 o) (mkGeckoConfig v (g_MinPacketSize (Settings.Gecko o)) (g_MaxPacketSize (Settings.Gecko o))).

Definition set_SNI (v : string) (t : tlsConfig) : tlsConfig := mkTLS v (Insecure t) (PinSHA256 t) (CA t) (ClientCertificate t) (ClientKey t) (ECH t).
Definition set_Insecure (v : bool) (t : tlsConfig) : tlsConfig := mkTLS (SNI t) v (PinSHA256 t) (CA t) (ClientCertificate t) (ClientKey t) (ECH t).
Definition set_PinSHA256 (v : string) (t : tlsConfig) : tlsConfig := mkTLS (SNI t) (Insecure t) v (CA t) (ClientCertificate t) (ClientKey t) (ECH t).
Definition set_ECH (v : string) (t : tlsConfig) : tlsConfig := mkTLS (SNI t) (Insecure t) (PinSHA256 t) (CA t) (ClientCertificate t) (ClientKey t) v.

(** ** Small parsers *)
Definition parseServerAddrString (addrStr : string) : string * string * string :=
  match SplitHostPort addrStr with
  | Err _ => (addrStr, "443", JoinHostPort addrStr "443")%string
  | Ok (h, p) => (h, p, addrStr)
  end.

Definition isPortHoppingPort (port : string) : bool := ContainsRune port "-" || ContainsRune port ",".

(** [strings.ReplaceAll(s, string(c), "")]. *)
Definition remove_char (c : ascii) (s : string) : string := string_of_list_ascii (filter (λ d, d ≠ c) (list_ascii_of_string s)).

Definition normalizeCertHash `{UnicodeTables} (hash : string) : string := remove_char "-" (remove_char ":" (ToLower hash)).

Definition realmIPMode `{UnicodeTables} (mode : string) : result string (AddrFamily * string) :=
  let m := ToLower (TrimSpace mode) in
  if bool_decide (m = EmptyString) || bool_decide (m = "dual"%string) then Ok (AddrFamilyAny, "udp"%string)
  else if bool_decide (m = "v4"%string) then Ok (AddrFamilyIPv4, "udp4"%string)
  else if bool_decide (m = "v6"%string) then Ok (AddrFamilyIPv6, "udp6"%string)
  else Err mode.

Definition hopRequested (c : transportUDP) : bool :=
  negb (HopInterval c =? 0) || negb (MinHopInterval c =? 0) || negb (MaxHopInterval c =? 0).

Definition hopIntervalConfig (c : transportUDP) : result string HopIntervalConfig :=
  if negb (HopInterval c =? 0) && (negb (MinHopInterval c =? 0) || negb (MaxHopInterval c =? 0))
  then Err "hopInterval cannot be used together with minHopInterval or maxHopInterval"%string
  else if (MinHopInterval c =? 0) && (MaxHopInterval c =? 0)
  then if HopInterval c =? 0 then Ok (mkHopInterval 0 0) else Ok (mkHopInterval (HopInterval c) (HopInterval c))
  else if (MinHopInterval c =? 0) || (MaxHopInterval c =? 0) then Err "minHopInterval and maxHopInterval must both be set"%string
  else Ok (mkHopInterval (MinHopInterval c) (MaxHopInterval c)).

(** ** The share URI *)
Section Share.
Context `{UnicodeTables} `{Files} `{Pem}.

(** The obfuscator and the password that a URI carries. *)
Definition shared_obfs (o : obfsConfig) : option (string * string) :=
  let t := ToLower (Type_ o) in
  if bool_decide (t = "salamander"%string) then Some ("salamander"%string, Salamander o)
  else if bool_decide (t = "gecko"%string) then Some ("gecko"%string, g_Password (Settings.Gecko o))
  else None.

Definition set_if (b : bool) (k v : string) (q : Values) : Values := if b then Values_Set q k v else q.

Definition share_query (c : clientConfig) : Values :=
  let q := match shared_obfs (c_Obfs c) with
           | Some (t, p) => Values_Set (Values_Set ∅ "obfs" t) "obfs-password" p
           | None => ∅
           end in
  let q := set_if (negb (bool_decide (SNI (c_TLS c) = EmptyString))) "sni" (SNI (c_TLS c)) q in
  let q := set_if (Insecure (c_TLS c)) "insecure" "1" q in
  let q := set_if (negb (bool_decide (PinSHA256 (c_TLS c) = EmptyString))) "pinSHA256" (normalizeCertHash (PinSHA256 (c_TLS c))) q in
  if bool_decide (ECH (c_TLS c) = EmptyString) then q else
  match ParseECHConfigList (ECH (c_TLS c)) with
  | Ok configList => Values_Set q "ech" (EncodeToString StdEncoding configList)
  | Err _ => q
  end.

(** A name with a colon is a user and a password. *)
Definition share_user (auth : string) : option Userinfo :=
  if bool_decide (auth = EmptyString) then None else
  match SplitN2 auth ":" with
  | [u; p] => Some (UserPassword u p)
  | _ => Some (new_User auth)
  end.

Definition share_URL (c : clientConfig) : URL :=
  mkURL "chameleon" EmptyString (share_user (c_Auth c)) (c_Server c) "/" EmptyString false false (Values_Encode (share_query c)) EmptyString EmptyString.

Definition URI (c : clientConfig) : string := URL_String (share_URL c).

(** The parts of a URI that replace a setting. *)
Definition take_user (u : URL) (c : clientConfig) : clientConfig :=
  match User u with
  | None => c
  | Some _ =>
      let username := Userinfo_Username (User u) in
      let '(password, hasPassword) := Userinfo_Password (User u) in
      set_Auth (if hasPassword then (username ++ ":" ++ password)%string else username) c
  end.

Definition take_obfs (q : Values) (c : clientConfig) : clientConfig :=
  let obfsType := Values_Get q "obfs" in
  if bool_decide (obfsType = EmptyString) then c else
  let c := set_Obfs (set_Type obfsType (c_Obfs c)) c in
  if bool_decide (ToLower obfsType = "salamander"%string) then set_Obfs (set_Salamander (Values_Get q "obfs-password") (c_Obfs c)) c
  else if bool_decide (ToLower obfsType = "gecko"%string) then set_Obfs (set_GeckoPassword (Values_Get q "obfs-password") (c_Obfs c)) c
  else c.

Definition take_tls (q : Values) (c : clientConfig) : clientConfig :=
  let sni := Values_Get q "sni" in
  let c := if bool_decide (sni = EmptyString) then c else set_TLS (set_SNI sni (c_TLS c)) c in
  let '(insecure, err) := Strconv.ParseBool (Values_Get q "insecure") in
  let c := if err then c else set_TLS (set_Insecure insecure (c_TLS c)) c in
  let pin := Values_Get q "pinSHA256" in
  let c := if bool_decide (pin = EmptyString) then c else set_TLS (set_PinSHA256 pin (c_TLS c)) c in
  let ech := Values_Get q "ech" in
  if bool_decide (ech = EmptyString) then c else set_TLS (set_ECH ech (c_TLS c)) c.

Definition parseURI (c : clientConfig) : bool * clientConfig :=
  match Parse (c_Server c) with
  | Err _ => (false, c)
  | Ok u =>
      if negb (bool_decide (Scheme u = "chameleon"%string)) && negb (bool_decide (Scheme u = "chm"%string)) then (false, c) else
      let c := set_Server (Host u) (take_user u c) in
      (true, take_tls (Query u) (take_obfs (Query u) c))
  end.

Definition resolvedObfsType (c : clientConfig) : string :=
  match Parse (c_Server c) with
  | Err _ => Type_ (c_Obfs c)
  | Ok u =>
      if negb (bool_decide (Scheme u = "chameleon"%string)) && negb (bool_decide (Scheme u = "chm"%string)) then Type_ (c_Obfs c)
      else let obfsType := Values_Get (Query u) "obfs" in
           if bool_decide (obfsType = EmptyString) then Type_ (c_Obfs c) else obfsType
  end.
End Share.

(** ** What a share URI carries *)
Lemma Get_Set q k v k' : Values_Get (Values_Set q k v) k' = if decide (k' = k) then v else Values_Get q k'.
Proof.
  unfold Values_Get, Values_Set. destruct (decide (k' = k)) as [->|Hk]; [by rewrite lookup_insert_eq|by rewrite lookup_insert_ne].
Qed.

Lemma all_valued_Set q k v : all_valued q → all_valued (Values_Set q k v).
Proof. intros Hq. by apply map_Forall_insert_2. Qed.

Lemma all_valued_set_if b q k v : all_valued q → all_valued (set_if b k v q).
Proof. intros Hq. destruct b; [by apply all_valued_Set|done]. Qed.

Section ShareFacts.
Context `{UnicodeTables} `{Files} `{Pem}.

(** What another client gets from the URI of [c], which has the settings [b] of
    its own: the fields that the URI names are those of [c]. *)
Definition or_own (theirs own : string) : string := if bool_decide (theirs = EmptyString) then own else theirs.

Definition shared_ech (s : string) : string :=
  match ParseECHConfigList s with Ok list => EncodeToString StdEncoding list | Err _ => EmptyString end.

Definition shared (c b : clientConfig) : clientConfig :=
  let o := match shared_obfs (c_Obfs c) with
           | Some (t, p) => set_Type t (if bool_decide (t = "salamander"%string) then set_Salamander p (c_Obfs b) else set_GeckoPassword p (c_Obfs b))
           | None => c_Obfs b
           end in
  let t := c_TLS c in let own := c_TLS b in
  set_Server (c_Server c) (set_Auth (or_own (c_Auth c) (c_Auth b)) (set_Obfs o (set_TLS
    (mkTLS (or_own (SNI t) (SNI own)) (Insecure t || Insecure own) (or_own (normalizeCertHash (PinSHA256 t)) (PinSHA256 own))
      (CA own) (ClientCertificate own) (ClientKey own) (or_own (shared_ech (ECH t)) (ECH own))) b))).

Lemma shared_obfs_cases o : shared_obfs o = None ∨ ∃ p, shared_obfs o = Some ("salamander"%string, p) ∨ shared_obfs o = Some ("gecko"%string, p).
Proof. unfold shared_obfs. repeat case_bool_decide; eauto. Qed.

Lemma share_query_valued c : all_valued (share_query c).
Proof.
  unfold share_query. assert (all_valued ∅) as Hv0 by (apply map_Forall_empty).
  destruct (shared_obfs (c_Obfs c)) as [[t p]|], (bool_decide (ECH (c_TLS c) = EmptyString)), (ParseECHConfigList (ECH (c_TLS c)));
    by repeat (apply all_valued_set_if || apply all_valued_Set).
Qed.

Lemma Get_set_if b q k v k' : Values_Get (set_if b k v q) k' = if decide (k' = k) then if b then v else Values_Get q k else Values_Get q k'.
Proof. destruct b; cbn [set_if]; [apply Get_Set|by destruct (decide (k' = k)) as [->|]]. Qed.

Lemma ToLower_empty : ToLower EmptyString = EmptyString.
Proof. done. Qed.

(** The values of a URI's query. *)
Lemma share_query_Get c :
  Values_Get (share_query c) "obfs" = match shared_obfs (c_Obfs c) with Some (t, _) => t | None => EmptyString end ∧
  Values_Get (share_query c) "obfs-password" = match shared_obfs (c_Obfs c) with Some (_, p) => p | None => EmptyString end ∧
  Values_Get (share_query c) "sni" = SNI (c_TLS c) ∧
  Values_Get (share_query c) "insecure" = (if Insecure (c_TLS c) then "1"%string else EmptyString) ∧
  Values_Get (share_query c) "pinSHA256" = normalizeCertHash (PinSHA256 (c_TLS c)) ∧
  Values_Get (share_query c) "ech" = shared_ech (ECH (c_TLS c)).
Proof.
  unfold share_query, shared_ech.
  assert (∀ q, (if bool_decide (ECH (c_TLS c) = EmptyString) then q else
    match ParseECHConfigList (ECH (c_TLS c)) with Ok l => Values_Set q "ech" (EncodeToString StdEncoding l) | Err _ => q end) =
    match ParseECHConfigList (ECH (c_TLS c)) with Ok l => Values_Set q "ech" (EncodeToString StdEncoding l) | Err _ => q end) as ->.
  { intros q. case_bool_decide as E; [|done]. by rewrite E. }
  assert (∀ k, Values_Get ∅ k = EmptyString) as Hno by (intros k; unfold Values_Get; by rewrite lookup_empty).
  destruct (ParseECHConfigList (ECH (c_TLS c))) as [e|l], (shared_obfs (c_Obfs c)) as [[t p]|];
    repeat split; repeat first [rewrite Get_Set | rewrite Get_set_if | rewrite Hno];
    repeat match goal with |- context [decide (?a = ?b)] => destruct (decide (a = b)); try discriminate end; try done;
    case_bool_decide as E; by rewrite ?E.
Qed.

Lemma SplitN2_shape s c : SplitN2 s c = [s] ∨ ∃ a b, SplitN2 s c = [a; b].
Proof.
  induction s as [|d s IH]; [by left|]. cbn [SplitN2]. destruct (decide (d = c)); [right; eauto|].
  destruct IH as [->|(a & b & ->)]; [by left|right; eauto].
Qed.

Lemma SplitN2_parts s c a b : SplitN2 s c = [a; b] → s = (a ++ String c b)%string.
Proof.
  revert a. induction s as [|d s IH]; [done|]; intros a. cbn [SplitN2]. destruct (decide (d = c)) as [->|Hd]; [by intros [= <- <-]|].
  destruct (SplitN2_shape s c) as [E|(x & y & E)]; rewrite E; [done|]. intros [= <- ->]. by rewrite (IH _ E).
Qed.

(** The user of a URI stands for the name it was made of. *)
Lemma share_user_auth auth : match share_user auth with
  | None => auth = EmptyString
  | Some u => userinfo_ok (Some u) ∧ auth ≠ EmptyString ∧ (if passwordSet u then (username u ++ String ":" (password u))%string else username u) = auth
  end.
Proof.
  unfold share_user. case_bool_decide as E; [done|].
  destruct (SplitN2_shape auth ":") as [->|(a & b & Hs)]; [done|]. rewrite Hs. split; [done|]. split; [done|]. by rewrite (SplitN2_parts _ _ _ _ Hs).
Qed.

Lemma share_URL_ok c : c_Server c ≠ EmptyString → host_ok (c_Server c) = true → url_ok (share_URL c).
Proof.
  intros Hs Hh. split; try done.
  - by exists "c"%char, "hameleon"%string.
  - cbn. pose proof (share_user_auth (c_Auth c)) as Hu. destruct (share_user (c_Auth c)); [|done]. by destruct Hu.
  - right. by exists EmptyString.
  - apply encoded_query.
Qed.

Lemma take_user_share c b : take_user (share_URL c) b = set_Auth (or_own (c_Auth c) (c_Auth b)) b.
Proof.
  unfold take_user. cbn [User share_URL]. pose proof (share_user_auth (c_Auth c)) as Hu. unfold or_own.
  destruct (share_user (c_Auth c)) as [u|]; [destruct Hu as (_ & Ha & Hv)|rewrite Hu].
  - rewrite (bool_decide_eq_false_2 _ Ha). by rewrite <-Hv.
  - rewrite bool_decide_eq_true_2 by done. by destruct b.
Qed.

Lemma take_obfs_share c b : take_obfs (share_query c) b = set_Obfs (match shared_obfs (c_Obfs c) with
  | Some (t, p) => set_Type t (if bool_decide (t = "salamander"%string) then set_Salamander p (c_Obfs b) else set_GeckoPassword p (c_Obfs b))
  | None => c_Obfs b
  end) b.
Proof.
  unfold take_obfs. destruct (share_query_Get c) as (-> & -> & _).
  assert (ToLower "salamander" = "salamander" ∧ ToLower "gecko" = "gecko")%string as [L1 L2].
  { split; apply ToLower_plain; by apply (bool_decide_unpack _). }
  destruct (shared_obfs_cases (c_Obfs c)) as [->|(p & [->| ->])].
  - rewrite bool_decide_eq_true_2 by done. by destruct b.
  - by rewrite L1.
  - by rewrite L2.
Qed.

Lemma take_tls_share c b : take_tls (share_query c) b = set_TLS
  (let t := c_TLS c in let own := c_TLS b in
   mkTLS (or_own (SNI t) (SNI own)) (Insecure t || Insecure own) (or_own (normalizeCertHash (PinSHA256 t)) (PinSHA256 own))
      (CA own) (ClientCertificate own) (ClientKey own) (or_own (shared_ech (ECH t)) (ECH own))) b.
Proof.
  unfold take_tls. destruct (share_query_Get c) as (_ & _ & -> & -> & -> & ->). cbv zeta.
  generalize (normalizeCertHash (PinSHA256 (c_TLS c))) as pin, (shared_ech (ECH (c_TLS c))) as ech. intros pin ech. unfold or_own.
  assert (Strconv.ParseBool (if Insecure (c_TLS c) then "1" else EmptyString)%string = (Insecure (c_TLS c), negb (Insecure (c_TLS c)))) as ->
    by (by destruct (Insecure (c_TLS c))).
  destruct b as [? ? ? ? ? [? ? ? ? ? ? ?] ? ? ? ? ? ?], (bool_decide (SNI (c_TLS c) = EmptyString)), (Insecure (c_TLS c)), (bool_decide (pin = EmptyString)),
    (bool_decide (ech = EmptyString)); reflexivity.
Qed.

Lemma parseURI_URI c b : c_Server c ≠ EmptyString → host_ok (c_Server c) = true → parseURI (set_Server (URI c) b) = (true, shared c b).
Proof.
  intros Hs Hh. unfold parseURI, URI. cbn [c_Server set_Server]. rewrite Parse_printed by (by apply share_URL_ok).
  assert (Query (share_URL c) = share_query c) as ->.
  { unfold Query, share_URL. cbn [RawQuery]. by rewrite ParseQuery_Encode by apply share_query_valued. }
  rewrite take_user_share, take_obfs_share, take_tls_share. reflexivity.
Qed.

Lemma decode_in_valid encs s l : decode_in encs s = Some l → validateECHConfigList l = Ok ().
Proof.
  induction encs as [|e encs IH]; [done|]. cbn [decode_in]. destruct (DecodeString e s) as [raw|]; [|done].
  destruct (validateECHConfigList raw) as [|[]] eqn:E; [done|]. by intros [= <-].
Qed.

(** A list that is read is valid, wherever it is read from. *)
Lemma ParseECHConfigList_valid s l : ParseECHConfigList s = Ok l → validateECHConfigList l = Ok ().
Proof.
  unfold ParseECHConfigList, decodeECHConfigList. cbv zeta. destruct (decide _); [done|].
  destruct (decode_in _ (TrimSpace (TrimSpace s))) as [l'|] eqn:E; [intros [= <-]; by apply decode_in_valid in E|].
  destruct (os_ReadFile _) as [data|]; [|done]. destruct (findPEMBlock _ _) as [blob|].
  - destruct (validateECHConfigList blob) as [|[]] eqn:Ev; [done|]. by intros [= <-].
  - destruct (decode_in _ (TrimSpace (string_of_bytes data))) as [l'|] eqn:E'; [|done]. intros [= <-]. by apply decode_in_valid in E'.
Qed.
End ShareFacts.

Section ShareTheorems.
Context `{UnicodeTables} `{Files} `{Pem}.

(** C13: a client that is given the share URI of another as its server address
    ends up with that client's server, credentials, TLS name, verification and
    pinned hash, with its salamander or gecko password, and with its ECH list
    even where none of the other client's files exist; what the URI does not
    name stays as it was. *)
Theorem URI_shares c b : c_Server c ≠ EmptyString → host_ok (c_Server c) = true →
  parseURI (set_Server (URI c) b) = (true, shared c b) ∧
  (shared_obfs (c_Obfs c) ≠ None →
    ToLower (Type_ (c_Obfs (shared c b))) = ToLower (Type_ (c_Obfs c)) ∧ obfsPassword (c_Obfs (shared c b)) = obfsPassword (c_Obfs c)) ∧
  (∀ (elsewhere : Files) list, ParseECHConfigList (ECH (c_TLS c)) = Ok list → ParseECHConfigList (H := elsewhere) (ECH (c_TLS (shared c b))) = Ok list).
Proof.
  intros Hs Hh. split; [by apply parseURI_URI|]. split.
  - assert (ToLower "salamander" = "salamander" ∧ ToLower "gecko" = "gecko")%string as [L1 L2].
    { split; apply ToLower_plain; by apply (bool_decide_unpack _). }
    unfold shared, obfsPassword, shared_obfs. cbn [c_Obfs set_Server set_Auth set_Obfs set_TLS].
    case_bool_decide as E1; [rewrite E1|case_bool_decide as E2; [rewrite E2|done]]; intros _; cbn; by rewrite ?L1, ?L2.
  - intros elsewhere list Hl. unfold shared, shared_ech. rewrite Hl. cbn [c_TLS set_Server set_Auth set_Obfs set_TLS ECH].
    pose proof (ParseECHConfigList_encoded (H := elsewhere) list (ParseECHConfigList_valid _ _ Hl)) as He.
    unfold or_own. case_bool_decide as E; [by rewrite E in He|done].
Qed.

(** The obfuscator that is asked for before the URI is consumed is the one
    that is set once it has been. *)
Theorem resolved_obfs c : resolvedObfsType c = Type_ (c_Obfs (parseURI c).2).
Proof.
  unfold resolvedObfsType, parseURI. destruct (Parse (c_Server c)) as [e|u]; [done|].
  destruct (_ && _); [done|]. cbn [snd].
  assert (∀ q d, c_Obfs (take_tls q d) = c_Obfs d) as ->.
  { intros q d. unfold take_tls. destruct (Strconv.ParseBool _) as [i []]; by repeat case_bool_decide. }
  assert (c_Obfs (set_Server (Host u) (take_user u c)) = c_Obfs c) as Hc.
  { unfold take_user. by destruct (User u). }
  unfold take_obfs. cbv zeta. repeat case_bool_decide; by rewrite ?Hc.
Qed.
End ShareTheorems.

#[local] Instance sample_tables : UnicodeTables := {| wide_lower s := s |}.
#[local] Instance sample_files : Files := {| os_ReadFile _ := None |}.
#[local] Instance sample_pem : Pem.
Proof. by refine {| pem_Decode _ := None |}. Defined.

Definition sample_list : bytes := byte_of_Z <$> [0; 7; 0xfe; 0x0d; 0; 3; 1; 2; 3].

Definition sample_file (t server auth : string) : clientConfig :=
  mkClientFile server auth (mkRealmFile [] 0 0 false "" (mkPortMapping false 0 0)) (mkTransport "" (mkTransportUDP 0 0 0))
    (mkObfs t "salt & pepper" (mkV2Config "a longer password" "") (mkGeckoConfig "" 0 0))
    (mkTLS "example.org" true "AB:CD-EF" "" "" "" (EncodeToString StdEncoding sample_list))
    (mkQUIC 0 0 0 0 0 0 false false (mkSockopts None None None)) false "" "" (mkBandwidthFile "" "" false) false.

Definition sample_sender : clientConfig := sample_file "Salamander" "[2001:db8::1]:443,5000-6000" "me:pass@word/1".
Definition sample_receiver : clientConfig := set_TLS (mkTLS "" false "" "" "" "" "") (set_Obfs (mkObfs "" "" (mkV2Config "" "") (mkGeckoConfig "" 0 0)) (sample_file "" "" "")).

Lemma URI_shares_witness :
  parseURI (set_Server (URI sample_sender) sample_receiver) = (true, shared sample_sender sample_receiver) ∧
  ParseECHConfigList (ECH (c_TLS (shared sample_sender sample_receiver))) = Ok sample_list.
Proof.
  destruct (URI_shares sample_sender sample_receiver) as (Hp & _ & He); [done|vm_compute; reflexivity|].
  split; [exact Hp|]. apply He. vm_compute. reflexivity.
Defined.

Example URI_sample : URI sample_sender =
  "chameleon://me:pass%40word%2F1@[2001:db8::1]:443,5000-6000/?ech=AAf%2BDQADAQID&insecure=1&obfs=salamander&obfs-password=salt+%26+pepper&pinSHA256=abcdef&sni=example.org"%string.
Proof. vm_compute. reflexivity. Qed.

(** The obfuscator that is recommended is not shared: whoever is given the URI
    sends bare QUIC. *)
Example v2_not_shared : Type_ (c_Obfs (parseURI (set_Server (URI (sample_file "salamander-v2" "example.org:443" "me")) sample_receiver)).2) = EmptyString.
Proof. vm_compute. reflexivity. Qed.

(** A bracketed IPv6 address without a port gets a second pair of brackets. *)
Example bracketed_twice : parseServerAddrString "[::1]" = ("[::1]", "443", "[[::1]]:443")%string.
Proof. vm_compute. reflexivity. Qed.
