(* ===== verification/PortMap.v ===== *)
(** * Port mapping (extras/realm/portmap.go, app/cmd/realm_portmap.go)

    A mapping of a UDP port that the gateway keeps on request, the loop that
    renews it, and its external address among those of STUN.  The gateway's
    answers are arguments; whether it holds the mapping is part of the state. *)
From S2P Require Import GoStd Prelude Netip IP Nat.

(** ** The mapping (portmap.go) *)
Definition defaultPortMapTimeout : Z := 10 * Second.
Definition defaultPortMapLifetime : Z := 10 * 60 * Second.

Inductive map_error := negativeTimeout | negativeLifetime | invalidPort | discoveryFailed | addFailed | noExternalAddress | unusableAddress.

Record PortMapConfig := mkPortMapConfig { Timeout : Z; Lifetime : Z }.

Definition withDefaults (c : PortMapConfig) : result map_error PortMapConfig :=
  let c := if Timeout c =? 0 then mkPortMapConfig defaultPortMapTimeout (Lifetime c) else c in
  if Timeout c <? 0 then Err negativeTimeout else
  let c := if Lifetime c =? 0 then mkPortMapConfig (Timeout c) defaultPortMapLifetime else c in
  if Lifetime c <? 0 then Err negativeLifetime else Ok c.

(** What the gateway answers to a request for a mapping and to the question for
    its address: [None] is an error. *)
Record answer := mkAnswer { AddPortMapping : option Z; GetExternalAddress : option bytes }.

(** The mapper, and whether the gateway holds the mapping. *)
Record PortMapper := mkMapper { internalPort : Z; config : PortMapConfig; externalAddr : AddrPort; held : bool }.

Definition Renew (ans : answer) (m : PortMapper) : PortMapper * result map_error bool :=
  match AddPortMapping ans with
  | None => (m, Err addFailed)
  | Some externalPort =>
      let m := mkMapper (internalPort m) (config m) (externalAddr m) true in
      match GetExternalAddress ans with
      | None => (m, Err noExternalAddress)
      | Some ip =>
          match AddrFromSlice ip with
          | None => (m, Err unusableAddress)
          | Some addr =>
              if IsUnspecified addr || IsLoopback addr then (m, Err unusableAddress) else
              let externalAddr' := AddrPortFrom (Unmap addr) (u16 externalPort) in
              (mkMapper (internalPort m) (config m) externalAddr' true, Ok (negb (bool_decide (externalAddr' = externalAddr m))))
          end
      end
  end.

(** The second component: whether a mapping that nobody renews or removes is
    left on the gateway. *)
Definition NewPortMapper (port : Z) (c : PortMapConfig) (discovered : bool) (ans : answer) : result map_error PortMapper * bool :=
  if (port <=? 0) || (65535 <? port) then (Err invalidPort, false) else
  match withDefaults c with
  | Err e => (Err e, false)
  | Ok c =>
      if negb discovered then (Err discoveryFailed, false) else
      match Renew ans (mkMapper port c zero_AddrPort false) with
      | (m, Ok _) => (Ok m, false)
      | (m, Err e) => (Err e, held m)
      end
  end.

Definition ExternalAddr (m : PortMapper) : AddrPort := externalAddr m.
Definition InternalPort (m : PortMapper) : Z := internalPort m.
Definition Mapper_Lifetime (m : PortMapper) : Z := Lifetime (config m).

(** Best effort: [deleted] is what the gateway answers. *)
Definition Close (deleted : bool) (m : PortMapper) : PortMapper * bool :=
  (mkMapper (internalPort m) (config m) (externalAddr m) (if deleted then false else held m), negb deleted).

(** ** The programs' use of it (realm_portmap.go) *)

(** Failures are not fatal: the program goes on without a mapping. *)
Definition newRealmPortMapper (localPort : Z) (c : PortMapConfig) (discovered : bool) (ans : answer) : option PortMapper * bool :=
  match NewPortMapper localPort c discovered ans with
  | (Ok m, leaked) => (Some m, leaked)
  | (Err _, leaked) => (None, leaked)
  end.

Definition renewInterval (m : PortMapper) : Z :=
  let interval := quot (Mapper_Lifetime m) 2 in if interval <=? 0 then 60 * Second else interval.

Inductive log := Warned | Recovered | Renewed (changed : bool).

(** A turn of the loop: a tick, with the gateway's answer and whether the
    context was cancelled while it was asked, or the cancellation. *)
Inductive turn := Tick (ans : answer) (cancelled : bool) | Done.

Fixpoint realmPortMapLoop (turns : list turn) (deleted : bool) (failing : bool) (m : PortMapper) : option (PortMapper * list log) :=
  match turns with
  | [] => None
  | Done :: _ => Some ((Close deleted m).1, [])
  | Tick ans cancelled :: turns =>
      let '(m, r) := Renew ans m in
      match r with
      | Err _ =>
          if cancelled then Some ((Close deleted m).1, [])
          else '(m, ls) ← realmPortMapLoop turns deleted true m; Some (m, (if failing then [] else [Warned]) ++ ls)
      | Ok changed =>
          '(m, ls) ← realmPortMapLoop turns deleted false m; Some (m, (if failing then [Recovered] else []) ++ Renewed changed :: ls)
      end
  end.

(** [slices.BinarySearchFunc] by text: the first position that is not below. *)
Fixpoint search (fuel : nat) (addrs : list AddrPort) (target : string) (i j : nat) : nat :=
  match fuel with
  | O => i
  | S fuel =>
      if (i <? j)%nat then
        let h := ((i + j) / 2)%nat in
        match addrs !! h with
        | Some a => if String.ltb (AddrPort_String a) target then search fuel addrs target (S h) j else search fuel addrs target i h
        | None => i
        end
      else i
  end.

Definition mergeMappedAddr (addrs : list AddrPort) (addr : AddrPort) : list AddrPort :=
  if negb (AddrPort_IsValid addr) then addrs else
  let i := search (length addrs) addrs (AddrPort_String addr) 0 (length addrs) in
  if match addrs !! i with Some a => bool_decide (AddrPort_String a = AddrPort_String addr) | None => false end then addrs
  else take i addrs ++ addr :: drop i addrs.

(** ** The external address *)

(** What the mapper announces: an address with a port, and not the host's own. *)
Definition announces (m : PortMapper) : Prop :=
  AddrPort_IsValid (externalAddr m) = true ∧ Is4In6 (ap_Addr (externalAddr m)) = false ∧ IsLoopback (ap_Addr (externalAddr m)) = false ∧
  0 <= ap_Port (externalAddr m) < 65536 ∧ held m = true.

Lemma Renew_ok ans m m' changed : Renew ans m = (m', Ok changed) → announces m' ∧ (changed = false ↔ externalAddr m' = externalAddr m).
Proof.
  unfold Renew. destruct (AddPortMapping ans) as [p|]; [|done]. destruct (GetExternalAddress ans) as [ip|]; [|done].
  destruct (AddrFromSlice ip) as [a|] eqn:Ea; [|done]. destruct (IsUnspecified a || IsLoopback a) eqn:E; [done|]. intros [= <- <-].
  apply orb_false_iff in E as [_ E]. cbn [externalAddr held ap_Addr ap_Port]. split.
  - split; [|split; [apply Is4In6_Unmap|split; [|split; [|done]]]].
    + unfold AddrPort_IsValid. cbn [ap_Addr]. destruct a as [|x|x z]; [|done|].
      * unfold AddrFromSlice in Ea. by repeat case_decide.
      * unfold Unmap. by destruct (Is4In6 _).
    + unfold IsLoopback in *. cbn [externalAddr ap_Addr]. by rewrite Unmap_idemp.
    + cbn [externalAddr ap_Port]. unfold u16. apply Z.mod_pos_bound. lia.
  - rewrite negb_false_iff. split; [by intros H%bool_decide_eq_true_1|by intros H; apply bool_decide_eq_true_2].
Qed.

Lemma Renew_failed ans m m' e : Renew ans m = (m', Err e) → externalAddr m' = externalAddr m ∧ (held m = true → held m' = true).
Proof.
  unfold Renew. destruct (AddPortMapping ans) as [p|]; [|by intros [= <- <-]]. destruct (GetExternalAddress ans) as [ip|]; [|by intros [= <- <-]].
  destruct (AddrFromSlice ip) as [a|]; [|by intros [= <- <-]]. destruct (IsUnspecified a || IsLoopback a); [by intros [= <- <-]|done].
Qed.

(** ** The order of the announced addresses *)
(** Not after, by text. *)
Definition text_le (a b : AddrPort) : Prop := String.ltb (AddrPort_String b) (AddrPort_String a) = false.

Lemma lt_text_le a b : String.ltb (AddrPort_String a) (AddrPort_String b) = true → text_le a b.
Proof. intros H. apply not_true_iff_false. intros H'. pose proof (ltb_trans _ _ _ H H') as Hn. by rewrite ltb_irrefl in Hn. Qed.

#[export] Instance text_le_preorder : PreOrder text_le.
Proof.
  split; [intros a; apply ltb_irrefl|]. intros a b c Hab Hbc. apply not_true_iff_false. intros Hca. unfold text_le in *.
  destruct (ltb_total (AddrPort_String a) (AddrPort_String b)) as [H|[H|H]]; [|rewrite H in Hca; congruence|congruence].
  pose proof (ltb_trans _ _ _ Hca H). congruence.
Qed.

Lemma insert_stable_sorted x l : StronglySorted text_le l →
  StronglySorted text_le (insert_stable (λ a b, String.ltb (AddrPort_String a) (AddrPort_String b)) x l).
Proof.
  induction 1 as [|y l Hl IH Hy]; cbn [insert_stable]; [by repeat constructor|].
  destruct (String.ltb (AddrPort_String x) (AddrPort_String y)) eqn:E.
  - apply lt_text_le in E. constructor; [by constructor|]. constructor; [done|]. eapply list.Forall_impl; [exact Hy|]. intros z Hz. by transitivity y.
  - constructor; [done|]. rewrite (insert_stable_perm _ x l). by constructor.
Qed.

Lemma sortAddrPorts_sorted addrs : StronglySorted text_le (sortAddrPorts addrs).
Proof.
  unfold sortAddrPorts, sort_stable. assert (StronglySorted text_le []) as H0 by constructor. revert H0. generalize (@nil AddrPort) as acc.
  induction addrs as [|x addrs IH]; intros acc Hacc; [done|]. cbn [foldl]. by apply IH, insert_stable_sorted.
Qed.

Lemma sorted_lookup l i j a b : StronglySorted text_le l → l !! i = Some a → l !! j = Some b → (i <= j)%nat → text_le a b.
Proof.
  intros Hl Hi Hj Hij. revert i j Hi Hj Hij. induction Hl as [|y l Hl IH Hy]; [done|]. intros [|i] [|j] Hi Hj Hij; try lia.
  - injection Hi as ->. by injection Hj as ->.
  - injection Hi as ->. rewrite list.Forall_lookup in Hy. by eapply Hy.
  - cbn in Hi, Hj. by apply (IH i j); [..|lia].
Qed.

Lemma search_spec fuel addrs t i j : StronglySorted text_le addrs → (i <= j <= length addrs)%nat → (j - i <= fuel)%nat →
  (∀ k a, (k < i)%nat → addrs !! k = Some a → String.ltb (AddrPort_String a) t = true) →
  (∀ k a, (j <= k)%nat → addrs !! k = Some a → String.ltb (AddrPort_String a) t = false) →
  let r := search fuel addrs t i j in (r <= length addrs)%nat ∧
  (∀ k a, (k < r)%nat → addrs !! k = Some a → String.ltb (AddrPort_String a) t = true) ∧
  (∀ k a, (r <= k)%nat → addrs !! k = Some a → String.ltb (AddrPort_String a) t = false).
Proof.
  intros Hs. revert i j. induction fuel as [|fuel IH]; intros i j Hij Hf Hlo Hhi; cbn [search].
  - assert (i = j) as -> by lia. by split; [lia|].
  - destruct (Nat.ltb_spec i j) as [Hlt|Hge]; [|assert (i = j) as -> by lia; by split; [lia|]].
    assert (i <= (i + j) / 2 < j)%nat as Hh by (split; [apply Nat.div_le_lower_bound; lia|apply Nat.Div0.div_lt_upper_bound; lia]).
    revert Hh. generalize ((i + j) / 2)%nat as h. intros h Hh.
    destruct (addrs !! h) as [a|] eqn:Ea; [|apply lookup_ge_None in Ea; lia].
    destruct (String.ltb (AddrPort_String a) t) eqn:E.
    + apply IH; [lia|lia| |done]. intros k b Hk Hb. pose proof (sorted_lookup _ _ _ _ _ Hs Hb Ea ltac:(lia)) as Hle.
      unfold text_le in Hle. destruct (ltb_total (AddrPort_String b) (AddrPort_String a)) as [H|[H|H]]; [by eapply ltb_trans|by rewrite H|congruence].
    + apply IH; [lia|lia|done|]. intros k b Hk Hb. pose proof (sorted_lookup _ _ _ _ _ Hs Ea Hb ltac:(lia)) as Hle. unfold text_le in Hle.
      apply not_true_iff_false. intros Ht. destruct (ltb_total (AddrPort_String a) (AddrPort_String b)) as [H|[H|H]]; [|congruence|congruence].
      pose proof (ltb_trans _ _ _ H Ht). congruence.
Qed.

(** Among sorted addresses, one of those that STUN gives is put in its place,
    unless its text is there already. *)
Lemma mergeMappedAddr_spec addrs addr : StronglySorted text_le addrs →
  StronglySorted text_le (mergeMappedAddr addrs addr) ∧
  (AddrPort_IsValid addr = false → mergeMappedAddr addrs addr = addrs) ∧
  (AddrPort_IsValid addr = true →
    (AddrPort_String addr ∈ AddrPort_String <$> addrs → mergeMappedAddr addrs addr = addrs) ∧
    (AddrPort_String addr ∉ AddrPort_String <$> addrs → mergeMappedAddr addrs addr ≡ₚ addr :: addrs)).
Proof.
  intros Hs. unfold mergeMappedAddr. destruct (AddrPort_IsValid addr); cbn [negb]; [|by split].
  destruct (search_spec (length addrs) addrs (AddrPort_String addr) 0 (length addrs) Hs) as (Hr & Hlo & Hhi);
    [lia|lia|intros; lia|intros k a Hk Ha%lookup_lt_Some; lia|].
  set (r := search _ _ _ _ _) in *.
  assert (∀ b, b ∈ take r addrs → String.ltb (AddrPort_String b) (AddrPort_String addr) = true) as Ht.
  { intros b (k & Hk & Hkr)%elem_of_take. by eapply Hlo. }
  assert (∀ b, b ∈ drop r addrs → String.ltb (AddrPort_String b) (AddrPort_String addr) = false) as Hd.
  { intros b [k Hk]%list_elem_of_lookup. rewrite lookup_drop in Hk. eapply Hhi, Hk. lia. }
  assert (StronglySorted text_le (take r addrs) ∧ StronglySorted text_le (drop r addrs)) as [St Sd].
  { rewrite <-(take_drop r addrs) in Hs. by apply StronglySorted_app in Hs as (? & ? & ?). }
  assert (AddrPort_String addr ∉ AddrPort_String <$> addrs → StronglySorted text_le (take r addrs ++ addr :: drop r addrs) ∧
    take r addrs ++ addr :: drop r addrs ≡ₚ addr :: addrs) as Hin.
  { intros Hn. split; [|by rewrite <-Permutation_middle, take_drop].
    apply StronglySorted_app. split; [|split; [done|]].
    - intros x y Hx [->|Hy]%elem_of_cons; [by apply lt_text_le, Ht|]. transitivity addr; [by apply lt_text_le, Ht|]. by apply Hd.
    - constructor; [done|]. rewrite list.Forall_forall. intros y Hy. by apply Hd. }
  destruct (addrs !! r) as [a|] eqn:Ea.
  - case_bool_decide as E.
    + split; [done|]. split; [done|]. intros _. split; [done|]. intros Hn. destruct Hn. rewrite <-E. apply list_elem_of_fmap_2. by eapply list_elem_of_lookup_2.
    + assert (AddrPort_String addr ∉ AddrPort_String <$> addrs) as Hn.
      { intros (b & Hb & [k Hk]%list_elem_of_lookup)%list_elem_of_fmap. destruct (decide (k < r)%nat) as [Hkr|Hkr].
        - pose proof (Hlo k b Hkr Hk) as H. rewrite <-Hb, ltb_irrefl in H. done.
        - pose proof (Hhi r a ltac:(lia) Ea) as H1. pose proof (sorted_lookup _ _ _ _ _ Hs Ea Hk ltac:(lia)) as H2. unfold text_le in H2.
          rewrite <-Hb in H2. destruct (ltb_total (AddrPort_String a) (AddrPort_String addr)) as [?|[?|?]]; congruence. }
      split; [by apply Hin|]. split; [done|]. intros _. split; [by intros ?|]. intros _. by apply Hin.
  - assert (AddrPort_String addr ∉ AddrPort_String <$> addrs) as Hn.
    { intros (b & Hb & [k Hk]%list_elem_of_lookup)%list_elem_of_fmap. apply lookup_ge_None in Ea. pose proof (lookup_lt_Some _ _ _ Hk) as Hlt.
      pose proof (Hlo k b ltac:(lia) Hk) as H. rewrite <-Hb, ltb_irrefl in H. done. }
    split; [by apply Hin|]. split; [done|]. intros _. split; [by intros ?|]. intros _. by apply Hin.
Qed.

(** ** The loop *)

(** Of the warnings and recoveries logged each is followed by the other. *)
Fixpoint alternates (failing : bool) (ls : list log) : Prop :=
  match ls with
  | [] => True
  | Warned :: ls => failing = false ∧ alternates true ls
  | Recovered :: ls => failing = true ∧ alternates false ls
  | Renewed _ :: ls => failing = false ∧ alternates failing ls
  end.

Definition renewed (m : PortMapper) (t : turn) : PortMapper := match t with Tick ans _ => (Renew ans m).1 | Done => m end.

Lemma renewed_announces m t : announces m → announces (renewed m t).
Proof.
  intros Hm. destruct t as [ans c|]; [|done]. cbn [renewed]. destruct (Renew ans m) as [m' [e|ch]] eqn:E; cbn [fst].
  - pose proof (Renew_failed _ _ _ _ E) as [He Hh]. destruct Hm as (? & ? & ? & ? & ?). unfold announces. rewrite He. split_and!; auto; lia.
  - by apply Renew_ok in E as [? _].
Qed.

(** Whatever the renewals give, the loop runs until its context is cancelled;
    all the while the mapper announces an address that is not the host's own,
    and in the end the mapping is left only on a gateway that refuses to remove
    it. One warning is logged for a run of failures. *)
Theorem port_map_loop turns deleted failing m : announces m → Done ∈ turns →
  (∀ k, announces (foldl renewed m (take k turns))) ∧
  ∃ m' ls, realmPortMapLoop turns deleted failing m = Some (m', ls) ∧ held m' = negb deleted ∧ alternates failing ls.
Proof.
  intros Hm Hd. split.
  - intros k. revert m Hm. generalize (take k turns) as ts. intros ts. induction ts as [|t ts IH]; intros m Hm; [done|]. cbn [foldl]. by apply IH, renewed_announces.
  - revert failing m Hm. induction turns as [|[ans c|] turns IH]; intros failing m Hm; [by apply elem_of_nil in Hd| |].
    + apply elem_of_cons in Hd as [|Hd]; [done|]. pose proof (renewed_announces m (Tick ans c) Hm) as Hm'. cbn [realmPortMapLoop renewed] in *.
      destruct (Renew ans m) as [m1 [e|ch]]; cbn [fst] in Hm'.
      * destruct c; [exists (Close deleted m1).1, []; split; [done|]; split; [|done]; destruct Hm' as (? & ? & ? & ? & Hh); cbn; rewrite Hh; by destruct deleted|].
        destruct (IH Hd true m1 Hm') as (m' & ls & -> & Hh & Ha). exists m', ((if failing then [] else [Warned]) ++ ls). split; [done|]. split; [done|].
        by destruct failing.
      * destruct (IH Hd false m1 Hm') as (m' & ls & -> & Hh & Ha). exists m', ((if failing then [Recovered] else []) ++ Renewed ch :: ls). split; [done|]. split; [done|].
        by destruct failing.
    + exists (Close deleted m).1, []. split; [done|]. split; [|done]. destruct Hm as (? & ? & ? & ? & Hh). cbn. rewrite Hh. by destruct deleted.
Qed.

(** ** Gateways that answer in part *)

(** A gateway that has no address answers 0.0.0.0, in the 16 bytes that
    net.ParseIP gives: the check for an unspecified address does not see it,
    and it is announced. *)
Example unspecified_announced :
  (λ m, AddrPort_String (externalAddr m)) <$> (newRealmPortMapper 4000 (mkPortMapConfig 0 0) true
    (mkAnswer (Some 4000) (Some (v4InV6Prefix ++ replicate 4 Byte.x00)))).1 = Some "0.0.0.0:4000"%string.
Proof. vm_compute. reflexivity. Qed.

(** A mapping that was made and whose address is not known is left behind. *)
Example mapping_left_behind : newRealmPortMapper 4000 (mkPortMapConfig 0 0) true (mkAnswer (Some 4000) None) = (None, true).
Proof. vm_compute. reflexivity. Qed.

Definition sample_mapper : option PortMapper :=
  (newRealmPortMapper 4000 (mkPortMapConfig 0 0) true (mkAnswer (Some 40000) (Some (byte_of_Z <$> [198; 51; 100; 7])))).1.

Example loop_sample :
  (m ← sample_mapper; '(m, ls) ← realmPortMapLoop [Tick (mkAnswer None None) false; Tick (mkAnswer None None) false;
     Tick (mkAnswer (Some 40001) (Some (byte_of_Z <$> [198; 51; 100; 7]))) false; Done] true false m;
   Some (AddrPort_String (externalAddr m), held m, ls)) = Some ("198.51.100.7:40001"%string, false, [Warned; Recovered; Renewed true]).
Proof. vm_compute. reflexivity. Qed.
