(* ===== verification/Effects.v ===== *)
(** * Programs that ask and may fail

    The programs start with a run of steps that read settings, ask the outside,
    and stop at the first error of the configuration. Such a run is a function
    of the process-wide key cache that also gives what it asked, as a list of
    events of a type that each program chooses; what it asks can be read off
    its steps. *)
From S2P Require Import GoStd Prelude Obfs Settings.

(** ** Programs that ask, and may fail *)
Record world (E : Type) := mkWorld { kdf : KdfCache; log : list E }.
Arguments mkWorld {E} _ _.
Arguments kdf {E} _.
Arguments log {E} _.

Definition M (E A : Type) : Type := world E → world E * result configError A.

#[export] Instance M_ret E : MRet (M E) := λ A x w, (w, Ok x).
#[export] Instance M_bind E : MBind (M E) := λ A B k m w, match m w with (w, Ok x) => k x w | (w, Err e) => (w, Err e) end.

Definition fail {E A : Type} (field : string) (e : Settings.reason) : M E A := λ w, (w, Err (Settings.mkConfigError field e)).
Definition emit {E} (e : E) : M E () := λ w, (mkWorld (kdf w) (log w ++ [e]), Ok ()).
Definition with_kdf {E A : Type} (f : KdfCache → KdfCache * result configError A) : M E A := λ w, let '(k, r) := f (kdf w) in (mkWorld k (log w), r).
Definition from_option {E A : Type} (field : string) (e : Settings.reason) (o : option A) : M E A := match o with Some x => mret x | None => fail field e end.
Definition from_result {E X A : Type} (field : string) (reason : X → Settings.reason) (r : result X A) : M E A :=
  match r with Ok x => mret x | Err e => fail field (reason e) end.

(** [cleanup] when [m] fails. *)
Definition protect {E A : Type} (cleanup : E) (m : M E A) : M E A := λ w,
  match m w with
  | (w, Ok x) => (w, Ok x)
  | (w, Err e) => (mkWorld (kdf w) (log w ++ [cleanup]), Err e)
  end.

(** ** What a program asks *)

(** [Q] of what [m] adds to the log and of what it gives. *)
Definition asks {E A : Type} (Q : list E → result configError A → Prop) (m : M E A) : Prop :=
  ∀ w, ∃ es k r, m w = (mkWorld k (log w ++ es), r) ∧ Q es r.

(** It asks for nothing. *)
Definition silent {E A : Type} (m : M E A) : Prop := asks (λ es _, es = []) m.

Create HintDb silent.

Lemma asks_mono {E A : Type} (Q Q' : list E → result configError A → Prop) m : asks Q m → (∀ es r, Q es r → Q' es r) → asks Q' m.
Proof. intros Hm HQ w. destruct (Hm w) as (es & k & r & Em & Hr). exists es, k, r. auto. Qed.

Lemma asks_ret {E A : Type} (Q : list E → result configError A → Prop) x : Q [] (Ok x) → asks Q (mret x).
Proof. intros HQ w. exists [], (kdf w), (Ok x). rewrite app_nil_r. split; [|done]. by destruct w. Qed.

Lemma asks_fail {E A : Type} (Q : list E → result configError A → Prop) f e : Q [] (Err (Settings.mkConfigError f e)) → asks Q (fail f e).
Proof. intros HQ w. exists [], (kdf w), (Err (Settings.mkConfigError f e)). rewrite app_nil_r. split; [|done]. by destruct w. Qed.

Lemma asks_bind {E A B : Type} (Q : list E → result configError B → Prop) (m : M E A) (k : A → M E B) :
  asks (λ es r, match r with Ok x => asks (λ es' r', Q (es ++ es') r') (k x) | Err e => Q es (Err e) end) m → asks Q (m ≫= k).
Proof.
  intros Hm w. destruct (Hm w) as (es & c & [e|x] & Em & Hr).
  - exists es, c, (Err e). split; [|done]. unfold mbind, M_bind. by rewrite Em.
  - destruct (Hr (mkWorld c (log w ++ es))) as (es' & c' & r & Em' & HQ). exists (es ++ es'), c', r. split; [|done].
    unfold mbind, M_bind. rewrite Em, Em'. cbn [log]. by rewrite app_assoc.
Qed.

(** A step that asks for nothing in front. *)
Lemma asks_silent {E A B : Type} (Q : list E → result configError B → Prop) (P : A → Prop) (m : M E A) (k : A → M E B) :
  asks (λ es r, es = [] ∧ match r with Ok x => P x | Err _ => True end) m → (∀ x, P x → asks Q (k x)) → (∀ e, Q [] (Err e)) → asks Q (m ≫= k).
Proof. intros Hm Hk He. apply asks_bind. eapply asks_mono; [exact Hm|]. intros es [e|x] [-> HP]; [apply He|by apply Hk]. Qed.

Lemma asks_quiet {E A B : Type} (Q : list E → result configError B → Prop) (m : M E A) (k : A → M E B) :
  silent m → (∀ x, asks Q (k x)) → (∀ e, Q [] (Err e)) → asks Q (m ≫= k).
Proof.
  intros Hm Hk He. apply (asks_silent Q (λ _, True)); [|by intros|done]. eapply asks_mono; [exact Hm|]. intros es [e|x] Hr; done.
Qed.

Lemma asks_emit {E B : Type} (Q : list E → result configError B → Prop) (e : E) (k : () → M E B) : asks (λ es r, Q (e :: es) r) (k ()) → asks Q (emit e ≫= k).
Proof.
  intros Hk. apply asks_bind. intros w. exists [e], (kdf w), (Ok ()). split; [done|]. exact Hk.
Qed.

Lemma asks_protect {E A : Type} (Q : list E → result configError A → Prop) (cleanup : E) (m : M E A) :
  asks (λ es r, match r with Ok _ => Q es r | Err _ => Q (es ++ [cleanup]) r end) m → asks Q (protect cleanup m).
Proof.
  intros Hm w. destruct (Hm w) as (es & c & [e|x] & Em & HQ); unfold protect; rewrite Em.
  - exists (es ++ [cleanup]), c, (Err e). cbn [log kdf]. by rewrite app_assoc.
  - by exists es, c, (Ok x).
Qed.

Lemma silent_ret {E A : Type} (x : A) : silent (E := E) (mret x).
Proof. by apply asks_ret. Qed.

Lemma silent_fail {E A : Type} f e : silent (fail (E := E) (A := A) f e).
Proof. by apply asks_fail. Qed.

Lemma silent_bind {E A B : Type} (m : M E A) (k : A → M E B) : silent m → (∀ x, silent (k x)) → silent (m ≫= k).
Proof. intros Hm Hk. by apply asks_quiet. Qed.

Lemma silent_option {E A : Type} f e (o : option A) : silent (E := E) (from_option f e o).
Proof. destruct o; [apply silent_ret|apply silent_fail]. Qed.

Lemma silent_result {E X A : Type} f (reason : X → Settings.reason) (r : result X A) : silent (E := E) (from_result f reason r).
Proof. destruct r; [apply silent_fail|apply silent_ret]. Qed.

Lemma silent_kdf {E A : Type} (f : KdfCache → KdfCache * result configError A) : silent (E := E) (with_kdf f).
Proof. intros w. unfold with_kdf. destruct (f (kdf w)) as [k r]. exists [], k, r. by rewrite app_nil_r. Qed.

#[export] Hint Resolve silent_ret silent_fail silent_bind silent_option silent_result silent_kdf : silent.

(** ** What a run that succeeds went through *)
Lemma bind_ok {E A B : Type} (m : M E A) (k : A → M E B) w w' y : (m ≫= k) w = (w', Ok y) → ∃ w1 x, m w = (w1, Ok x) ∧ k x w1 = (w', Ok y).
Proof. unfold mbind, M_bind. destruct (m w) as [w1 [e|x]]; [done|]. eauto. Qed.

Ltac run_ok :=
  repeat (cbn beta in *; match goal with
  | H : (_ ≫= _) _ = (_, Ok _) |- _ => apply bind_ok in H as (? & ? & ? & ?)
  | H : mret _ _ = (_, Ok _) |- _ => injection H as ? ?; subst
  | H : fail _ _ _ = (_, Ok _) |- _ => discriminate H
  | H : (if ?b then _ else _) _ = (_, Ok _) |- _ => destruct b
  | H : (let '(_, _) := ?x in _) _ = (_, Ok _) |- _ => destruct x
  | H : from_result _ _ ?r _ = (_, Ok _) |- _ => destruct r eqn:?; [discriminate H|]; injection H as ? ?; subst
  | H : from_option _ _ ?o _ = (_, Ok _) |- _ => destruct o eqn:?; [|discriminate H]; injection H as ? ?; subst
  end).
