(* ===== verification/ClientSetup.v ===== *)
(** * From the client's file to a connection (app/cmd/client.go)

    [Config]: the core configuration that a file gives, for a server's address
    and for a realm, where the client opens its socket, learns its addresses,
    asks the rendezvous server for the server's and punches before QUIC starts.
    What the system, STUN, the rendezvous server and the punch engine answer
    are arguments; what is asked of them is a list of events. *)
From S2P Require Import GoStd Prelude Netip Net Utf8 Nat Punch Congestion Config Obfs Base64 Ech Url Settings PunchEngine UdpHop Rendezvous PortMap ClientFile Effects.
Import Strings.

(** ** What the client has made so far *)
Inductive server_addr := Plain (ip : bytes) (port : Z) | Hop (addr : UDPHopAddr).

(** A connection factory that can be used once: it opens a socket and wraps it,
    or hands over the one that is open, with the mapping that is renewed until
    it is closed. *)
Inductive factory :=
| OpenUDP
| OpenHop (addr : UDPHopAddr) (interval : HopIntervalConfig)
| HandOver (conn : obfuscated) (mapped : bool).

Record TLSConfig := mkTLSConfig {
  ServerName : string; InsecureSkipVerify : bool; PinnedHash : option string; RootCAs : option bytes;
  ClientPair : option (string * string); ECHConfigList : option bytes }.

Record hyConfig := mkHy {
  h_ServerAddr : option server_addr;
  h_ConnFactory : option factory;
  h_Auth : string;
  h_TLS : TLSConfig;
  h_QUIC : Client.QUICConfig;
  h_Congestion : CongestionConfig;
  h_Bandwidth : BandwidthConfig;
  h_FastOpen : bool;
  h_PaddingSeed : bytes;
}.

Definition empty_hy : hyConfig :=
  mkHy None None EmptyString (mkTLSConfig EmptyString false None None None None) (Client.mkQUICConfig 0 0 0 0 0 0 false false false)
    (mkCongestion EmptyString EmptyString) (mkBandwidth 0 0 false) false [].

Definition set_addr (v : server_addr) (h : hyConfig) : hyConfig :=
  mkHy (Some v) (h_ConnFactory h) (h_Auth h) (h_TLS h) (h_QUIC h) (h_Congestion h) (h_Bandwidth h) (h_FastOpen h) (h_PaddingSeed h).
Definition set_factory (v : factory) (h : hyConfig) : hyConfig :=
  mkHy (h_ServerAddr h) (Some v) (h_Auth h) (h_TLS h) (h_QUIC h) (h_Congestion h) (h_Bandwidth h) (h_FastOpen h) (h_PaddingSeed h).
Definition set_auth (v : string) (h : hyConfig) : hyConfig :=
  mkHy (h_ServerAddr h) (h_ConnFactory h) v (h_TLS h) (h_QUIC h) (h_Congestion h) (h_Bandwidth h) (h_FastOpen h) (h_PaddingSeed h).
Definition set_tls (v : TLSConfig) (h : hyConfig) : hyConfig :=
  mkHy (h_ServerAddr h) (h_ConnFactory h) (h_Auth h) v (h_QUIC h) (h_Congestion h) (h_Bandwidth h) (h_FastOpen h) (h_PaddingSeed h).
Definition set_quic (v : Client.QUICConfig) (h : hyConfig) : hyConfig :=
  mkHy (h_ServerAddr h) (h_ConnFactory h) (h_Auth h) (h_TLS h) v (h_Congestion h) (h_Bandwidth h) (h_FastOpen h) (h_PaddingSeed h).
Definition set_congestion (v : CongestionConfig) (h : hyConfig) : hyConfig :=
  mkHy (h_ServerAddr h) (h_ConnFactory h) (h_Auth h) (h_TLS h) (h_QUIC h) v (h_Bandwidth h) (h_FastOpen h) (h_PaddingSeed h).
Definition set_bandwidth (v : BandwidthConfig) (h : hyConfig) : hyConfig :=
  mkHy (h_ServerAddr h) (h_ConnFactory h) (h_Auth h) (h_TLS h) (h_QUIC h) (h_Congestion h) v (h_FastOpen h) (h_PaddingSeed h).
Definition set_fast_open (v : bool) (h : hyConfig) : hyConfig :=
  mkHy (h_ServerAddr h) (h_ConnFactory h) (h_Auth h) (h_TLS h) (h_QUIC h) (h_Congestion h) (h_Bandwidth h) v (h_PaddingSeed h).
Definition set_seed (v : bytes) (h : hyConfig) : hyConfig :=
  mkHy (h_ServerAddr h) (h_ConnFactory h) (h_Auth h) (h_TLS h) (h_QUIC h) (h_Congestion h) (h_Bandwidth h) (h_FastOpen h) v.

Definition set_ServerName (v : string) (t : TLSConfig) : TLSConfig :=
  mkTLSConfig v (InsecureSkipVerify t) (PinnedHash t) (RootCAs t) (ClientPair t) (ECHConfigList t).

(** What core gets. *)
Definition core_of (h : hyConfig) : Client.Config :=
  Client.mkConfig (match h_ConnFactory h with Some _ => Some (Client.CustomFactory 0) | None => None end)
    (match h_ServerAddr h with Some (Plain ip port) => Some (UDPAddr ip port) | Some (Hop _) => Some OtherAddr | None => None end)
    (h_Auth h) (h_QUIC h) (h_Congestion h) (h_Bandwidth h) (h_FastOpen h) (h_PaddingSeed h) false false.

(** ** Outside of the program *)
Class System := {
  net_ResolveUDPAddr : string → option (bytes * Z);
  bindInterfaceFunc : bool;      (* what the platform supports *)
  firewallMarkFunc : bool;
  fdControlUnixSocketFunc : bool;
  AppendCertsFromPEM : bytes → bool;
  InitializeCache : string → string → option (option string);   (* an error, with its path when it has one *)
}.

(** What a run of [realmConfig] asks, and does, on the way. *)
Inductive event :=
| EvOpened (network : string) (port : Z)
| EvMap (port : Z)
| EvSTUN (servers : list string) (timeout : Z) (family : AddrFamily)
| EvConnect (realmID : string) (addresses : list string) (meta : PunchMetadata)
| EvPunch (mask : PunchMask) (local peers : list AddrPort) (meta : PunchMetadata) (config : PunchConfig)
| EvMapLoop
| EvUnmap
| EvCloseSocket.

(** The answers: the port of the socket opened, the gateway, the addresses that
    STUN saw, the interfaces, the random source, the clock, the rendezvous
    server, and the peer that punching found. *)
Record answers := mkAnswers {
  an_listen : option Z;
  an_gateway : bool * PortMap.answer;
  an_stun : option (list AddrPort);
  an_interfaces : option (list Interface);
  an_random : option bytes * option bytes;
  an_clock : Z;
  an_rendezvous : request → option response;
  an_punch : option AddrPort;
}.

Abbreviation Setup := (M event).

(** ** Filling the configuration *)
Section Fill.
Context `{UnicodeTables} `{Primitives} `{Files} `{Pem} `{Resolver} `{System}.

Definition CheckSupported (o : SocketOptions) : option string :=
  if negb (bool_decide (BindInterface o = None)) && negb bindInterfaceFunc then Some "bindInterface"%string
  else if negb (bool_decide (FirewallMark o = None)) && negb firewallMarkFunc then Some "fwmark"%string
  else if negb (bool_decide (FdControlUnixSocket o = None)) && negb fdControlUnixSocketFunc then Some "fdControlUnixSocket"%string
  else None.

Definition socketOptions (c : clientConfig) : Setup SocketOptions :=
  match CheckSupported (Sockopts (c_QUIC c)) with
  | Some f => fail ("quic.sockopts." ++ f)%string (Text "unsupported on this platform")
  | None => mret (Sockopts (c_QUIC c))
  end.

Definition fillServerAddr (c : clientConfig) (h : hyConfig) : Setup hyConfig :=
  if bool_decide (c_Server c = EmptyString) then fail "server" (Text "server address is empty") else
  let '(host, port, hostPort) := parseServerAddrString (c_Server c) in
  addr ← (if negb (isPortHoppingPort port)
          then from_option "server" (LibraryError "resolve") ((λ a, Plain a.1 a.2) <$> net_ResolveUDPAddr hostPort)
          else a ← from_result "server" (λ _, LibraryError "udphop") (ResolveUDPHopAddr hostPort); mret (Hop a));
  let h := set_addr addr h in
  mret (if bool_decide (SNI (c_TLS c) = EmptyString) then set_tls (set_ServerName host (h_TLS h)) h else h).

(** After [fillServerAddr]: the kind of socket depends on the address. *)
Definition fillConnFactory (c : clientConfig) (h : hyConfig) : Setup hyConfig :=
  _ ← socketOptions c;
  hopInterval ← from_result "transport.udp" Text (hopIntervalConfig (t_UDP (c_Transport c)));
  let t := ToLower (t_Type (c_Transport c)) in
  if bool_decide (t = EmptyString) || bool_decide (t = "udp"%string)
  then mret (set_factory (match h_ServerAddr h with Some (Hop a) => OpenHop a hopInterval | _ => OpenUDP end) h)
  else fail "transport.type" (Text "unsupported transport type").

Definition fillAuth (c : clientConfig) (h : hyConfig) : Setup hyConfig := mret (set_auth (c_Auth c) h).

Definition fillClientPair (t : tlsConfig) : Setup (option (string * string)) :=
  if negb (bool_decide (ClientCertificate t = EmptyString)) && negb (bool_decide (ClientKey t = EmptyString)) then
    match InitializeCache (ClientCertificate t) (ClientKey t) with
    | None => mret (Some (ClientCertificate t, ClientKey t))
    | Some (Some path) =>
        if bool_decide (path = ClientCertificate t) then fail "tls.clientCertificate" (LibraryError "path")
        else if bool_decide (path = ClientKey t) then fail "tls.clientKey" (LibraryError "path")
        else fail "tls.clientCertificate" (LibraryError "certificate")
    | Some None => fail "tls.clientCertificate" (LibraryError "certificate")
    end
  else mret None.

Definition fillRootCAs (t : tlsConfig) : Setup (option bytes) :=
  if bool_decide (CA t = EmptyString) then mret None else
  ca ← from_option "tls.ca" (LibraryError "read") (os_ReadFile (CA t));
  if AppendCertsFromPEM ca then mret (Some ca) else fail "tls.ca" (Text "failed to parse CA certificate").

Definition fillTLSConfig (c : clientConfig) (h : hyConfig) : Setup hyConfig :=
  let t := c_TLS c in
  let name := if bool_decide (SNI t = EmptyString) then ServerName (h_TLS h) else SNI t in
  let pinned := if bool_decide (PinSHA256 t = EmptyString) then PinnedHash (h_TLS h) else Some (normalizeCertHash (PinSHA256 t)) in
  roots ← fillRootCAs t;
  pair ← fillClientPair t;
  ech ← (if bool_decide (ECH t = EmptyString) then mret None
         else l ← from_result "tls.ech" (λ _, LibraryError "ech") (ParseECHConfigList (ECH t)); mret (Some l));
  mret (set_tls (mkTLSConfig name (Insecure t) pinned roots pair ech) h).

(** The check of a pinned certificate, given its SHA-256 in hexadecimal. *)
Definition VerifyPeerCertificate (t : TLSConfig) (hashHex : string) : bool :=
  match PinnedHash t with Some nHash => bool_decide (hashHex = nHash) | None => true end.

Definition validateMimic (c : clientConfig) : Setup () :=
  if negb (MimicEnabled c) then mret () else
  let '(_, port, _) := parseServerAddrString (c_Server c) in
  if isPortHoppingPort port then fail "mimic" (Text "cannot be used with port hopping") else mret ().

Definition fillQUICConfig (c : clientConfig) (h : hyConfig) : Setup hyConfig :=
  let q := c_QUIC c in
  mret (set_quic (Client.mkQUICConfig (InitStreamReceiveWindow q) (q_MaxStreamReceiveWindow q) (InitConnectionReceiveWindow q)
    (q_MaxConnectionReceiveWindow q) (q_MaxIdleTimeout q) (q_KeepAlivePeriod q) (q_DisablePathMTUDiscovery q) (MimicEnabled c) (q_DisableChromeParrot q)) h).

Definition fillCongestionConfig (c : clientConfig) (h : hyConfig) : Setup hyConfig :=
  t ← from_result "congestion.type" (λ r, r) (normalizeCongestionType (CongestionType c));
  if bool_decide (t = congestionTypeBBR) then
    p ← from_result "congestion.bbrProfile" (λ r, r) (normalizeBBRProfile (CongestionBBRProfile c));
    mret (set_congestion (mkCongestion t p) h)
  else mret (set_congestion (mkCongestion t (BBRProfile (h_Congestion h))) h).

Definition fillBandwidthConfig (c : clientConfig) (h : hyConfig) : Setup hyConfig :=
  let b := c_Bandwidth c in
  tx ← (if bool_decide (Up b = EmptyString) then mret (MaxTx (h_Bandwidth h)) else from_result "bandwidth.up" BpsError (ConvBandwidth (Up b)));
  rx ← (if bool_decide (Down b = EmptyString) then mret (MaxRx (h_Bandwidth h)) else from_result "bandwidth.down" BpsError (ConvBandwidth (Down b)));
  mret (set_bandwidth (mkBandwidth tx rx (b_DisableLossCompensation b)) h).

Definition fillFastOpen (c : clientConfig) (h : hyConfig) : Setup hyConfig := mret (set_fast_open (c_FastOpen c) h).

Definition fillSeed (c : clientConfig) (h : hyConfig) : Setup hyConfig :=
  seed ← with_kdf (Settings.fillPaddingSeed (c_Obfs c));
  mret (match seed with Some s => set_seed s h | None => h end).

Fixpoint fill_all (fillers : list (clientConfig → hyConfig → Setup hyConfig)) (c : clientConfig) (h : hyConfig) : Setup hyConfig :=
  match fillers with
  | [] => mret h
  | f :: fillers => h ← f c h; fill_all fillers c h
  end.

Definition fillers : list (clientConfig → hyConfig → Setup hyConfig) :=
  [fillServerAddr; fillConnFactory; fillAuth; fillTLSConfig; fillQUICConfig; fillCongestionConfig; fillBandwidthConfig; fillFastOpen; fillSeed].

(** *** Realms *)
Definition checkHopVersusRealm (c : clientConfig) : Setup () :=
  if negb (hopRequested (t_UDP (c_Transport c))) then mret () else
  fail "transport.udp" (Text "port hopping (transport.udp.hopInterval, or minHopInterval and maxHopInterval) cannot be used with a realm server address: both of them move the connection to a new address, and stacked they cancel each other out rather than combine. Use either a realm server address or a port range with the hop interval settings, not both").

Definition parseRealmAddr (c : clientConfig) : option (result realm_error Rendezvous.Addr) :=
  match ParseAddr (c_Server c) with
  | Ok addr => Some (Ok addr)
  | Err e => if HasPrefix (c_Server c) (SchemeHTTPS ++ ":") || HasPrefix (c_Server c) (SchemeHTTP ++ ":") then Some (Err e) else None
  end.

Definition realm_fillers : list (clientConfig → hyConfig → Setup hyConfig) :=
  [fillAuth; fillTLSConfig; fillQUICConfig; fillCongestionConfig; fillBandwidthConfig; fillFastOpen; fillSeed].

Definition defaultRealmSTUNServers : list string :=
  ["stun.nextcloud.com:3478"; "stun.sip.us:3478"; "global.stun.twilio.com:3478"]%string.

Definition realmSTUNServers (c : clientConfig) (addr : Rendezvous.Addr) : list string :=
  match default [] (Params addr !! "stun"%string) with
  | [] => match r_STUNServers (c_Realm c) with [] => defaultRealmSTUNServers | servers => servers end
  | servers => servers
  end.

(** [ifaces]: nothing when the system does not give its interfaces. *)
Definition withLocalCandidates (ifaces : option (list Interface)) (port : Z) (family : AddrFamily) (reflexive : list AddrPort) : list AddrPort :=
  match ifaces with None => reflexive | Some ifaces => MergeCandidates (LocalCandidatesFrom ifaces port family) reflexive end.

Definition localPort (addr : net_Addr) : Z :=
  match addr with UDPAddr _ port => if (port <=? 0) || (65535 <? port) then 0 else port | OtherAddr => 0 end.

Definition addrPortStrings (addrs : list AddrPort) : list string := AddrPort_String <$> addrs.

Fixpoint parseAddrPorts (addrs : list string) : option (list AddrPort) :=
  match addrs with
  | [] => Some []
  | s :: addrs => a ← ParseAddrPort s; out ← parseAddrPorts addrs; Some (a :: out)
  end.

Definition shortAttempt (nonce : string) : string := if (String.length nonce <=? 8)%nat then nonce else first 8 nonce.

(** *** The way to a peer *)
Context `{!Json ErrorResponse} `{!Json PunchEvent}.
Variable ans : answers.

Definition no_symmetric : SymmetricNATConfig := mkSymmetricNATConfig false NATClassUnknown NATClassUnknown 0 0 0 0.

(** With the socket open on [port], and the gateway's mapping. *)
Definition realm_session (c : clientConfig) (addr : Rendezvous.Addr) (h : hyConfig) (family : AddrFamily) (punchMask : PunchMask) (port : Z)
    (mapper : option PortMapper) : Setup hyConfig :=
  _ ← emit (EvSTUN (realmSTUNServers c addr) (r_STUNTimeout (c_Realm c)) family);
  localAddrs ← from_option "realm.stun" (LibraryError "stun") (an_stun ans);
  let localAddrs := match mapper with Some m => mergeMappedAddr localAddrs (ExternalAddr m) | None => localAddrs end in
  let localAddrs := withLocalCandidates (an_interfaces ans) (localPort (UDPAddr [] port)) family localAddrs in
  meta ← from_option "realm" (LibraryError "random") (NewPunchMetadata (an_random ans).1 (an_random ans).2);
  rClient ← from_result "realm" (λ _, LibraryError "client") (NewClientFromAddr addr);
  _ ← emit (EvConnect (RealmID addr) (addrPortStrings localAddrs) meta);
  connectResp ← (match Rendezvous.Connect (an_rendezvous ans) rClient (RealmID addr) (mkPunchEvent (addrPortStrings localAddrs) meta) with
                 | Ok (Some resp) => mret resp
                 | _ => fail "realm.connect" (LibraryError "connect")
                 end);
  peerAddrs ← from_option "realm.connect.addresses" (LibraryError "addresses") (parseAddrPorts (ev_Addresses connectResp));
  finalConn ← with_kdf (wrapObfs (c_Obfs c) RoleClient (an_clock ans));
  _ ← emit (EvPunch punchMask localAddrs peerAddrs (ev_Metadata connectResp)
              (mkPunchConfig (r_PunchTimeout (c_Realm c)) 0 family PunchSourceCandidates no_symmetric
                 (realmPunchWireLen (Settings.Type_ (c_Obfs c)) finalConn)));
  peer ← from_option "realm.punch" (LibraryError "punch") (an_punch ans);
  let h := set_addr (Plain (AsSlice (ap_Addr peer)) (ap_Port peer)) h in
  match mapper with
  | Some _ => _ ← emit EvMapLoop; mret (set_factory (HandOver finalConn true) h)
  | None => mret (set_factory (HandOver finalConn false) h)
  end.

Definition realm_mapped (c : clientConfig) (addr : Rendezvous.Addr) (h : hyConfig) (family : AddrFamily) (punchMask : PunchMask) (port : Z) : Setup hyConfig :=
  let pm := PortMapping (c_Realm c) in
  if pm_Enabled pm then
    _ ← emit (EvMap port);
    match (newRealmPortMapper port (mkPortMapConfig (pm_Timeout pm) (pm_Lifetime pm)) (an_gateway ans).1 (an_gateway ans).2).1 with
    | Some m => protect EvUnmap (realm_session c addr h family punchMask port (Some m))
    | None => realm_session c addr h family punchMask port None
    end
  else realm_session c addr h family punchMask port None.

Definition realmConfig (c : clientConfig) (addr : Rendezvous.Addr) : Setup hyConfig :=
  _ ← checkHopVersusRealm c;
  h ← fill_all realm_fillers c empty_hy;
  let h := if bool_decide (SNI (c_TLS c) = EmptyString) then set_tls (set_ServerName (a_Host addr) (h_TLS h)) h else h in
  '(family, network) ← from_result "realm.ipMode" UnsupportedName (realmIPMode (IPMode (c_Realm c)));
  punchMask ← with_kdf (realmPunchMask (c_Obfs c));
  _ ← socketOptions c;
  port ← from_option "realm" (LibraryError "listen") (an_listen ans);
  _ ← emit (EvOpened network (LocalPort addr));
  protect EvCloseSocket (realm_mapped c addr h family punchMask port).

(** *** The factory *)
Definition Open (c : clientConfig) (f : factory) : Setup obfuscated :=
  match f with
  | HandOver conn _ => mret conn
  | OpenUDP | OpenHop _ _ =>
      _ ← from_option "" (LibraryError "listen") (an_listen ans);
      _ ← emit (EvOpened "udp" 0);
      protect EvCloseSocket (with_kdf (wrapObfs (c_Obfs c) RoleClient (an_clock ans)))
  end.

(** [New] of the factory, and whether it has been used. *)
Definition New (c : clientConfig) (f : factory) (used : bool) : bool * Setup obfuscated :=
  (true, if used then fail "" (Text "connection factory already used") else Open c f).

(** [Config]; a share URI is taken apart first, and the file keeps its parts. *)
Definition Config (c : clientConfig) : Setup hyConfig :=
  match parseRealmAddr c with
  | Some (Err e) => fail "server" (LibraryError "realm")
  | Some (Ok addr) => realmConfig c addr
  | None => fill_all fillers (parseURI c).2 empty_hy
  end.
End Fill.

(** ** What the file gives core *)
(** The settings of QUIC within the bounds of core, or left to it. *)
Definition quic_in_range (q : quicConfig) : bool :=
  unset_or window_ok (InitStreamReceiveWindow q) && unset_or window_ok (q_MaxStreamReceiveWindow q)
  && unset_or window_ok (InitConnectionReceiveWindow q) && unset_or window_ok (q_MaxConnectionReceiveWindow q)
  && unset_or (between (4 * Second) (120 * Second)) (q_MaxIdleTimeout q)
  && unset_or (between (2 * Second) (60 * Second)) (q_KeepAlivePeriod q).

Section FillFacts.
Context `{UnicodeTables} `{Primitives} `{Files} `{Pem} `{Resolver} `{System}.

(** What [f] leaves as it was. *)
Definition keeps {T} (g : hyConfig → T) (f : clientConfig → hyConfig → Setup hyConfig) : Prop :=
  ∀ c h w w' h', f c h w = (w', Ok h') → g h' = g h.

Definition addr_quic_congestion (h : hyConfig) : option server_addr * Client.QUICConfig * CongestionConfig := (h_ServerAddr h, h_QUIC h, h_Congestion h).

Lemma fillConnFactory_keeps : keeps addr_quic_congestion fillConnFactory.
Proof. intros c h w w' h' Hr. unfold fillConnFactory, socketOptions in Hr. cbv zeta in Hr. run_ok; destruct (CheckSupported _); run_ok; done. Qed.
Lemma fillAuth_keeps : keeps addr_quic_congestion fillAuth.
Proof. intros c h w w' h' Hr. unfold fillAuth in Hr. by run_ok. Qed.
Lemma fillTLSConfig_keeps : keeps addr_quic_congestion fillTLSConfig.
Proof. intros c h w w' h' Hr. unfold fillTLSConfig in Hr. cbv zeta in Hr. by run_ok. Qed.
Lemma fillBandwidthConfig_keeps : keeps addr_quic_congestion fillBandwidthConfig.
Proof. intros c h w w' h' Hr. unfold fillBandwidthConfig in Hr. cbv zeta in Hr. by run_ok. Qed.
Lemma fillFastOpen_keeps : keeps addr_quic_congestion fillFastOpen.
Proof. intros c h w w' h' Hr. unfold fillFastOpen in Hr. by run_ok. Qed.
Lemma fillSeed_keeps : keeps addr_quic_congestion fillSeed.
Proof. intros c h w w' h' Hr. unfold fillSeed in Hr. run_ok. by match goal with |- context [match ?x with _ => _ end] => destruct x end. Qed.

Lemma fillServerAddr_addr c h w w' h' : fillServerAddr c h w = (w', Ok h') →
  is_Some (h_ServerAddr h') ∧ h_QUIC h' = h_QUIC h ∧ h_Congestion h' = h_Congestion h.
Proof. unfold fillServerAddr. intros Hr. run_ok; destruct (bool_decide (SNI _ = _)); (split; [by eexists|done]). Qed.

Lemma normalized_known t p t' p' : normalizeCongestionType t = Ok t' → normalizeBBRProfile p = Ok p' →
  known_type t' = true ∧ known_profile p' = true.
Proof.
  unfold normalizeCongestionType, normalizeBBRProfile, known_type, known_profile. cbv zeta. intros Ht Hp.
  assert (ToLower "bbr" = "bbr" ∧ ToLower "reno" = "reno" ∧ ToLower "standard" = "standard" ∧ ToLower "conservative" = "conservative" ∧
    ToLower "aggressive" = "aggressive")%string as (L1 & L2 & L3 & L4 & L5).
  { split_and!; apply ToLower_plain; by apply (bool_decide_unpack _). }
  split.
  - destruct (_ || _); [injection Ht as <-; unfold congestionTypeBBR; by rewrite L1|]. destruct (bool_decide _); [|done].
    injection Ht as <-. unfold congestionTypeReno. by rewrite L2.
  - destruct (bool_decide (ToLower p = ""%string) || _); [injection Hp as <-; by rewrite L3|].
    destruct (bool_decide (ToLower p = "conservative"%string)) eqn:E; cbn [orb] in Hp.
    + injection Hp as <-. apply bool_decide_eq_true_1 in E. by rewrite E, L4.
    + destruct (bool_decide (ToLower p = "aggressive"%string)) eqn:E'; [|done]. injection Hp as <-. apply bool_decide_eq_true_1 in E'. by rewrite E', L5.
Qed.

Lemma fillCongestionConfig_known c h w w' h' : fillCongestionConfig c h w = (w', Ok h') →
  known_congestion (h_Congestion h') = true ∧ h_QUIC h' = h_QUIC h ∧ h_ServerAddr h' = h_ServerAddr h.
Proof.
  unfold fillCongestionConfig. intros Hr. apply bind_ok in Hr as (w1 & t & Ht & Hr).
  destruct (normalizeCongestionType (CongestionType c)) as [|t'] eqn:Et; [discriminate Ht|]. injection Ht as <- <-.
  destruct (bool_decide (t' = congestionTypeBBR)) eqn:Eb.
  - apply bind_ok in Hr as (w2 & p & Hp & Hr). destruct (normalizeBBRProfile (CongestionBBRProfile c)) as [|p'] eqn:Ep; [discriminate Hp|].
    injection Hp as <- <-. injection Hr as <- <-. cbn [h_Congestion set_congestion h_QUIC h_ServerAddr]. split; [|done].
    destruct (normalized_known _ _ _ _ Et Ep) as [Hk1 Hk2]. unfold known_congestion. cbn [Config.Type_ BBRProfile]. rewrite Hk1, Hk2. apply orb_true_r.
  - injection Hr as <- <-. split; [|done]. cbn [h_Congestion set_congestion].
    unfold normalizeCongestionType in Et. cbv zeta in Et. destruct (_ || _); [injection Et as <-; done|]. destruct (bool_decide _); [|done].
    injection Et as <-. assert (ToLower congestionTypeReno = TypeReno) as L by (apply ToLower_plain; by apply (bool_decide_unpack _)).
    unfold known_congestion, known_type, type_of. cbn [Config.Type_]. rewrite L. done.
Qed.

Lemma core_valid h q : is_Some (h_ServerAddr h) → h_QUIC h = q → known_congestion (h_Congestion h) = true →
  client_valid (core_of h) =
    unset_or window_ok (Client.InitialStreamReceiveWindow q) && unset_or window_ok (Client.MaxStreamReceiveWindow q)
    && unset_or window_ok (Client.InitialConnectionReceiveWindow q) && unset_or window_ok (Client.MaxConnectionReceiveWindow q)
    && unset_or (between (4 * Second) (120 * Second)) (Client.MaxIdleTimeout q)
    && unset_or (between (2 * Second) (60 * Second)) (Client.KeepAlivePeriod q).
Proof.
  intros [a Ha] <- Hk. unfold client_valid, core_of. cbn [Client.ServerAddr Client.QUIC Client.Congestion]. rewrite Ha, Hk, andb_true_r.
  rewrite bool_decide_eq_true_2; [done|]. destruct a; by eexists.
Qed.

(** What is filled after the address and the factory. *)
Lemma filled_after c h w w' h' : fill_all realm_fillers c h w = (w', Ok h') →
  h_ServerAddr h' = h_ServerAddr h ∧ known_congestion (h_Congestion h') = true ∧
  h_QUIC h' = Client.mkQUICConfig (InitStreamReceiveWindow (c_QUIC c)) (q_MaxStreamReceiveWindow (c_QUIC c)) (InitConnectionReceiveWindow (c_QUIC c))
    (q_MaxConnectionReceiveWindow (c_QUIC c)) (q_MaxIdleTimeout (c_QUIC c)) (q_KeepAlivePeriod (c_QUIC c)) (q_DisablePathMTUDiscovery (c_QUIC c))
    (MimicEnabled c) (q_DisableChromeParrot (c_QUIC c)).
Proof.
  cbn [fill_all realm_fillers]. intros Hr.
  apply bind_ok in Hr as (w1 & h1 & E1 & Hr). apply bind_ok in Hr as (w2 & h2 & E2 & Hr). apply bind_ok in Hr as (w3 & h3 & E3 & Hr).
  apply bind_ok in Hr as (w4 & h4 & E4 & Hr). apply bind_ok in Hr as (w5 & h5 & E5 & Hr). apply bind_ok in Hr as (w6 & h6 & E6 & Hr).
  apply bind_ok in Hr as (w7 & h7 & E7 & Hr). injection Hr as <- <-.
  apply fillAuth_keeps in E1. apply fillTLSConfig_keeps in E2. apply fillBandwidthConfig_keeps in E5. apply fillFastOpen_keeps in E6. apply fillSeed_keeps in E7.
  apply fillCongestionConfig_known in E4 as (Hk & Hq & Ha). unfold fillQUICConfig in E3. injection E3 as _ <-.
  unfold addr_quic_congestion in *. injection E1 as A1 Q1 C1. injection E2 as A2 Q2 C2. injection E5 as A5 Q5 C5. injection E6 as A6 Q6 C6. injection E7 as A7 Q7 C7.
  cbn [h_ServerAddr h_QUIC h_Congestion set_quic] in *. split; [congruence|]. split; [congruence|]. by rewrite Q7, Q6, Q5, Hq.
Qed.
End FillFacts.

(** ** The way to a peer *)
Section RealmFacts.
Context `{UnicodeTables} `{Primitives} `{Files} `{Pem} `{Resolver} `{System} `{!Json ErrorResponse} `{!Json PunchEvent}.
Variable ans : answers.

(** The steps between the socket and QUIC, in their order. *)
Definition step_of (e : event) : option nat :=
  match e with EvSTUN _ _ _ => Some 0 | EvConnect _ _ _ => Some 1 | EvPunch _ _ _ _ _ => Some 2 | _ => None end%nat.

(** The first [n] of them; and a punch is masked, has the length of the data
    that follows, and believes only the addresses it was given. *)
Definition steps_made (mask : PunchMask) (n : nat) (es : list event) : Prop :=
  step_of <$> es = take n [Some 0; Some 1; Some 2]%nat ∧
  Forall (λ e, match e with
               | EvPunch m _ _ _ cfg => m = mask ∧ PadToWireLen cfg = 1471 ∧ SourcePolicy cfg = PunchSourceCandidates
               | _ => True
               end) es.

Definition handed_over (h : hyConfig) (mapped : bool) : Prop :=
  ∃ v peer, h_ConnFactory h = Some (HandOver (WrappedSalamanderV2 v) mapped) ∧ an_punch ans = Some peer ∧
    h_ServerAddr h = Some (Plain (AsSlice (ap_Addr peer)) (ap_Port peer)).

(** What [realm_session] adds to a configuration. *)
Definition same_settings (h h' : hyConfig) : Prop := h_QUIC h' = h_QUIC h ∧ h_Congestion h' = h_Congestion h.

Lemma session_asks c addr h family mask port mapper k0 k1 : realmPunchMask (c_Obfs c) k0 = (k1, Ok mask) →
  asks (λ es r, match r with
    | Err _ => ∃ n, steps_made mask n es
    | Ok h' => ∃ es', es = es' ++ (match mapper with Some _ => [EvMapLoop] | None => [] end) ∧ steps_made mask 3 es' ∧
        handed_over h' (bool_decide (is_Some mapper)) ∧ same_settings h h'
    end) (realm_session ans c addr h family mask port mapper).
Proof.
  intros Hm%mask_type. unfold realm_session. apply asks_emit.
  assert (∀ n (es : list event), (step_of <$> es = take n [Some 0; Some 1; Some 2]%nat) → (n <= 2)%nat → steps_made mask n es) as Hfew.
  { intros n es He Hn. split; [done|]. rewrite list.Forall_forall. intros [] Hin; try done. exfalso.
    assert (Some 2%nat ∈ step_of <$> es) as Hk by (apply list_elem_of_fmap; eexists; split; [|exact Hin]; done). rewrite He in Hk.
    destruct n as [|[|[|n]]]; [..|lia]; cbn in Hk; repeat (apply elem_of_cons in Hk as [?|Hk]; [done|]); by apply elem_of_nil in Hk. }
  apply asks_quiet; [apply silent_option| |intros; exists 1%nat; by apply Hfew; [|lia]]. intros stun. cbv zeta.
  set (local := withLocalCandidates _ _ _ _).
  apply asks_quiet; [apply silent_option| |intros; exists 1%nat; by apply Hfew; [|lia]]. intros meta.
  apply asks_quiet; [apply silent_result| |intros; exists 1%nat; by apply Hfew; [|lia]]. intros rClient. apply asks_emit.
  apply asks_quiet; [destruct (Connect _ _ _ _) as [?|[?|]]; auto with silent| |intros; exists 2%nat; by apply Hfew; [|lia]]. intros resp.
  apply asks_quiet; [apply silent_option| |intros; exists 2%nat; by apply Hfew; [|lia]]. intros peers.
  apply (asks_silent _ (λ ob, (∃ v, ob = WrappedSalamanderV2 v) ∧ realmPunchWireLen (Settings.Type_ (c_Obfs c)) ob = 1471)).
  { intros w. unfold with_kdf. destruct (wrapObfs _ _ _ (kdf w)) as [k r] eqn:E. exists [], k, r. rewrite app_nil_r. split; [done|]. split; [done|].
    destruct r as [|ob]; [done|]. destruct (wrapObfs_v2 _ _ _ _ _ _ Hm E) as (? & ? & _). done. }
  2:{ intros. exists 2%nat. by apply Hfew; [|lia]. }
  intros ob [[v ->] Hlen]. apply asks_emit.
  assert (steps_made mask 3 [EvSTUN (realmSTUNServers c addr) (r_STUNTimeout (c_Realm c)) family; EvConnect (RealmID addr) (addrPortStrings local) meta;
    EvPunch mask local peers (ev_Metadata resp) (mkPunchConfig (r_PunchTimeout (c_Realm c)) 0 family PunchSourceCandidates no_symmetric
      (realmPunchWireLen (Settings.Type_ (c_Obfs c)) (WrappedSalamanderV2 v)))]) as Hall by (split; [done|]; by repeat constructor).
  destruct (an_punch ans) as [peer|] eqn:Ep.
  2:{ unfold from_option. apply asks_bind, asks_fail. by exists 3%nat. }
  apply asks_bind, asks_ret. destruct mapper as [m|].
  - apply asks_emit, asks_ret. eexists [_; _; _]. split; [reflexivity|]. split; [exact Hall|]. split; [|done]. by exists v, peer.
  - apply asks_ret. eexists [_; _; _]. split; [reflexivity|]. split; [exact Hall|]. split; [|done]. by exists v, peer.
Qed.

(** What the gateway is asked, and whether it made the mapping. *)
Definition map_asked (c : clientConfig) (port : Z) : list event := if pm_Enabled (PortMapping (c_Realm c)) then [EvMap port] else [].
Definition map_made (c : clientConfig) (port : Z) : bool :=
  let pm := PortMapping (c_Realm c) in
  pm_Enabled pm && bool_decide (is_Some (newRealmPortMapper port (mkPortMapConfig (pm_Timeout pm) (pm_Lifetime pm)) (an_gateway ans).1 (an_gateway ans).2).1).

Definition mapped_log (c : clientConfig) (mask : PunchMask) (port : Z) (h : hyConfig) (es : list event) (r : result configError hyConfig) : Prop :=
  ∃ mid n, steps_made mask n mid ∧
    match r with
    | Err _ => es = map_asked c port ++ mid ++ (if map_made c port then [EvUnmap] else [])
    | Ok h' => n = 3%nat ∧ es = map_asked c port ++ mid ++ (if map_made c port then [EvMapLoop] else []) ∧
        handed_over h' (map_made c port) ∧ same_settings h h'
    end.

Lemma mapped_asks c addr h family mask port k0 k1 : realmPunchMask (c_Obfs c) k0 = (k1, Ok mask) →
  asks (mapped_log c mask port h) (realm_mapped ans c addr h family mask port).
Proof.
  intros Hm. unfold realm_mapped, mapped_log, map_asked, map_made. cbv zeta. destruct (pm_Enabled _); cbn [andb].
  - apply asks_emit. destruct (newRealmPortMapper _ _ _ _) as [[m|] leaked]; cbn [fst].
    + apply asks_protect. eapply asks_mono; [exact (session_asks _ _ _ _ _ _ _ _ _ Hm)|]. intros es [e|h'].
      * intros [n Hn]. by exists es, n.
      * intros (es' & -> & Hs & Hh & Hsame). by exists es', 3%nat.
    + eapply asks_mono; [exact (session_asks _ _ _ _ _ _ _ _ _ Hm)|]. intros es [e|h'].
      * intros [n Hn]. exists es, n. by rewrite app_nil_r.
      * intros (es' & -> & Hs & Hh & Hsame). by exists es', 3%nat.
  - eapply asks_mono; [exact (session_asks _ _ _ _ _ _ _ _ _ Hm)|]. intros es [e|h'].
    + intros [n Hn]. exists es, n. by rewrite app_nil_r.
    + intros (es' & -> & Hs & Hh & Hsame). by exists es', 3%nat.
Qed.

(** A configuration that is refused before the socket. *)
Lemma silent_fillers c h : silent (fill_all realm_fillers c h).
Proof.
  cbn [fill_all realm_fillers].
  repeat (apply silent_bind; [|intros]); auto with silent;
    unfold fillAuth, fillTLSConfig, fillQUICConfig, fillCongestionConfig, fillBandwidthConfig, fillFastOpen, fillSeed, fillRootCAs, fillClientPair; cbv zeta;
    repeat first [apply silent_bind; [|intros] | case_bool_decide | progress auto with silent | match goal with |- silent (match ?x with _ => _ end) => destruct x end].
Qed.


(** The factory of a server's address keeps no socket that it could not wrap. *)
Lemma Open_asks c f : asks (λ es r, match f with
    | HandOver conn _ => es = [] ∧ r = Ok conn
    | _ => match r with Ok _ => es = [EvOpened "udp" 0] | Err _ => es = [] ∨ es = [EvOpened "udp" 0; EvCloseSocket] end
    end) (Open ans c f).
Proof.
  assert (∀ g, g = OpenUDP ∨ (∃ a i, g = OpenHop a i) → asks (λ es r, match r with Ok _ => es = [EvOpened "udp" 0] | Err _ => es = [] ∨ es = [EvOpened "udp" 0; EvCloseSocket] end) (Open ans c g)) as Hg.
  { intros g Hg. assert (Open ans c g = (from_option "" (LibraryError "listen") (an_listen ans) ≫= λ _, emit (EvOpened "udp" 0) ≫= λ _,
      protect EvCloseSocket (with_kdf (wrapObfs (c_Obfs c) RoleClient (an_clock ans))))) as -> by (by destruct Hg as [->|(a & i & ->)]).
    apply asks_quiet; [apply silent_option| |by left]. intros _. apply asks_emit, asks_protect. eapply asks_mono; [apply silent_kdf|].
    intros es [e|ob] ->; [by right|done]. }
  destruct f as [|a i|conn mapped]; [apply Hg; by left|apply Hg; right; by eauto|by apply asks_ret].
Qed.

(** *** What core gets *)
Definition quic_of (c : clientConfig) : Client.QUICConfig :=
  Client.mkQUICConfig (InitStreamReceiveWindow (c_QUIC c)) (q_MaxStreamReceiveWindow (c_QUIC c)) (InitConnectionReceiveWindow (c_QUIC c))
    (q_MaxConnectionReceiveWindow (c_QUIC c)) (q_MaxIdleTimeout (c_QUIC c)) (q_KeepAlivePeriod (c_QUIC c)) (q_DisablePathMTUDiscovery (c_QUIC c))
    (MimicEnabled c) (q_DisableChromeParrot (c_QUIC c)).

Lemma realm_settings c addr w w' h : realmConfig ans c addr w = (w', Ok h) →
  is_Some (h_ServerAddr h) ∧ known_congestion (h_Congestion h) = true ∧ h_QUIC h = quic_of c.
Proof.
  unfold realmConfig. intros Hr. apply bind_ok in Hr as (w1 & [] & _ & Hr). apply bind_ok in Hr as (w2 & h0 & Hf & Hr).
  apply filled_after in Hf as (_ & Hk & Hq). apply bind_ok in Hr as (w3 & [family network] & _ & Hr). apply bind_ok in Hr as (w4 & mask & Hm & Hr).
  apply bind_ok in Hr as (w5 & so & _ & Hr). apply bind_ok in Hr as (w6 & port & _ & Hr). apply bind_ok in Hr as (w7 & [] & _ & Hr).
  unfold with_kdf in Hm. destruct (realmPunchMask (c_Obfs c) (kdf w3)) as [k1 r1] eqn:Em. injection Hm as <- ->.
  cbv zeta in Hr. set (h1 := if bool_decide _ then _ else _) in Hr.
  destruct (mapped_asks c addr h1 family mask port _ _ Em w7) as (es & k & r & E & Hlog). unfold protect in Hr. rewrite E in Hr.
  destruct Hlog as (mid & n & _ & Hlog). destruct r as [e|h']; [discriminate Hr|]. injection Hr as _ <-.
  destruct Hlog as (_ & _ & (v & peer & _ & _ & Ha) & Hq' & Hc'). rewrite Ha, Hq', Hc'. split; [by eexists|].
  assert (h_QUIC h1 = h_QUIC h0 ∧ h_Congestion h1 = h_Congestion h0) as [-> ->] by (subst h1; by destruct (bool_decide _)). done.
Qed.

Lemma plain_settings c w w' h : fill_all fillers c empty_hy w = (w', Ok h) →
  is_Some (h_ServerAddr h) ∧ known_congestion (h_Congestion h) = true ∧ h_QUIC h = quic_of c.
Proof.
  change fillers with (fillServerAddr :: fillConnFactory :: realm_fillers). cbn [fill_all]. intros Hr.
  apply bind_ok in Hr as (w1 & h1 & E1 & Hr). apply bind_ok in Hr as (w2 & h2 & E2 & Hr).
  apply fillServerAddr_addr in E1 as (Ha & _ & _). apply fillConnFactory_keeps in E2. injection E2 as A2 _ _.
  apply filled_after in Hr as (A & Hk & Hq). by rewrite A, A2.
Qed.

Lemma parseURI_QUIC c : c_QUIC (parseURI c).2 = c_QUIC c ∧ MimicEnabled (parseURI c).2 = MimicEnabled c.
Proof.
  unfold parseURI. destruct (Parse (c_Server c)) as [e|u]; [done|]. destruct (_ && _); [done|]. cbn [snd].
  assert (∀ q d, c_QUIC (take_tls q d) = c_QUIC d ∧ MimicEnabled (take_tls q d) = MimicEnabled d) as Ht.
  { intros q d. unfold take_tls. destruct (Strconv.ParseBool _) as [i []]; by repeat case_bool_decide. }
  assert (∀ q d, c_QUIC (take_obfs q d) = c_QUIC d ∧ MimicEnabled (take_obfs q d) = MimicEnabled d) as Ho.
  { intros q d. unfold take_obfs. by repeat case_bool_decide. }
  rewrite !(proj1 (Ht _ _)), !(proj2 (Ht _ _)), !(proj1 (Ho _ _)), !(proj2 (Ho _ _)). unfold take_user. by destruct (User u).
Qed.

(** C20: of a configuration that the program accepts core checks nothing anew
    but the numbers of QUIC: it takes those with every window, timeout and
    period unset or in range, whatever the file says otherwise, and completes
    them; the others it refuses. *)
Theorem accepted_by_core pmtud c w w' h : Config ans c w = (w', Ok h) →
  (quic_in_range (c_QUIC c) = true → Client.verifyAndFill pmtud (core_of h) = (client_completed pmtud (core_of h), None)) ∧
  (quic_in_range (c_QUIC c) = false → ∃ cfg e, Client.verifyAndFill pmtud (core_of h) = (cfg, Some e)).
Proof.
  intros Hc. assert (is_Some (h_ServerAddr h) ∧ known_congestion (h_Congestion h) = true ∧ ∃ d, h_QUIC h = quic_of d ∧ c_QUIC d = c_QUIC c) as (Ha & Hk & d & Hq & Hd).
  { unfold Config in Hc. destruct (parseRealmAddr c) as [[e|addr]|].
    - discriminate Hc.
    - apply realm_settings in Hc as (? & ? & ?). eauto 10.
    - apply plain_settings in Hc as (? & ? & ?). split; [done|]. split; [done|]. eexists. split; [done|]. apply parseURI_QUIC. }
  pose proof (core_valid h (quic_of d) Ha Hq Hk) as Hv. cbn in Hv. rewrite Hd in Hv. fold (quic_in_range (c_QUIC c)) in Hv.
  destruct (verifyAndFill_eq pmtud (core_of h)) as (_ & Ht & Hf). split; intros Hr.
  - apply Ht; [done|]. by rewrite Hv.
  - destruct (Hf eq_refl) as (cfg & e & E); [by rewrite Hv|]. by exists cfg, e.
Qed.
End RealmFacts.

(** ** At concrete inputs *)
#[local] Existing Instances toy ClientFile.sample_tables ClientFile.sample_files ClientFile.sample_pem Rendezvous.sample_json.
#[local] Instance sample_resolver : Resolver := {| net_ResolveIPAddr _ := Some (byte_of_Z <$> [192; 0; 2; 1]) |}.
#[local] Instance sample_system : System := {|
  net_ResolveUDPAddr _ := Some (byte_of_Z <$> [192; 0; 2; 1], 443);
  bindInterfaceFunc := true; firewallMarkFunc := true; fdControlUnixSocketFunc := false;
  AppendCertsFromPEM _ := true; InitializeCache _ _ := None |}.
#[local] Instance error_eq_dec : EqDecision ErrorResponse.
Proof. solve_decision. Defined.

#[local] Instance error_countable : Countable ErrorResponse.
Proof.
  refine (inj_countable' (λ e, (Error e, Message e)) (λ '(a, b), mkErrorResponse a b) _). by intros [].
Defined.

#[local] Instance sample_errors : Json ErrorResponse.
Proof.
  refine {| Marshal ev := digits_of (countable.encode ev); Unmarshal s := countable.decode (digits_to s) |}.
  - intros ev. rewrite digits_to_of. apply countable.decode_encode.
  - intros ev. by destruct (countable.encode ev).
Defined.

Definition sample_addrs (s : string) : list AddrPort := default [] (parseAddrPorts [s]).

Definition sample_answers (peer : option AddrPort) : answers :=
  mkAnswers (Some 40000) (true, PortMap.mkAnswer (Some 4000) (Some (byte_of_Z <$> [198; 51; 100; 7]))) (Some (sample_addrs "198.51.100.8:40000")) None
    (Some (replicate 16 Byte.x01), Some (replicate 32 Byte.x02)) 0
    (λ _, Some (mkResponse 200 (Marshal (mkPunchEvent ["203.0.113.9:4433"%string] (mkMetadata "00" "00"))))) peer.

Definition sample_client_file (server : string) (window : Z) : clientConfig :=
  let c := ClientFile.sample_file "salamander-v2" server "me" in
  mkClientFile (c_Server c) (c_Auth c) (mkRealmFile [] 0 0 false "v4" (mkPortMapping true 0 0)) (c_Transport c) (c_Obfs c) (c_TLS c)
    (mkQUIC window 0 0 0 0 0 false false (mkSockopts None None None)) false "BBR" "" (mkBandwidthFile "20 mbps" "" false) true.

Definition ok_hy (r : result configError hyConfig) : hyConfig := match r with Ok h => h | Err _ => empty_hy end.

Lemma ok_run (r : world event * result configError hyConfig) : is_ok r.2 = true → r = (r.1, Ok (ok_hy r.2)).
Proof. by destruct r as [w []]. Qed.

Definition sample_run (server : string) (window : Z) (peer : option AddrPort) : world event * result configError hyConfig :=
  Config (sample_answers peer) (sample_client_file server window) (mkWorld ∅ []).

Definition plain_run : world event * result configError hyConfig := sample_run "example.org:443" 65536 None.

Lemma accepted_by_core_witness : plain_run = (plain_run.1, Ok (ok_hy plain_run.2)) ∧
  Client.verifyAndFill false (core_of (ok_hy plain_run.2)) = (client_completed false (core_of (ok_hy plain_run.2)), None).
Proof.
  assert (is_ok plain_run.2 = true) as Hr by (vm_compute; reflexivity). apply ok_run in Hr. split; [exact Hr|].
  apply (accepted_by_core (sample_answers None) false _ _ _ _ Hr). vm_compute. reflexivity.
Defined.

(** A realm client with a window that core refuses: the socket is opened and
    handed over, the server is asked and punched, before core looks at it. *)
Definition realm_sample (window : Z) (peer : option AddrPort) : world event * result configError hyConfig :=
  sample_run "realm://token@rendezvous.example/my-realm" window peer.

Definition shown (es : list event) : list string :=
  (λ e, match e with
        | EvOpened n _ => n | EvMap _ => "map" | EvSTUN _ _ _ => "stun" | EvConnect r _ _ => r | EvPunch _ _ _ _ _ => "punch"
        | EvMapLoop => "renew" | EvUnmap => "unmap" | EvCloseSocket => "close" end)%string <$> es.

Example realm_refused_late :
  let '(w, r) := realm_sample 1 (head (sample_addrs "203.0.113.9:4433")) in
  shown (log w) = ["udp4"; "map"; "stun"; "my-realm"; "punch"; "renew"]%string ∧ is_ok r = true ∧
  match (Client.verifyAndFill false (core_of (ok_hy r))).2 with Some e => Config.Field e | None => EmptyString end = "QUICConfig.InitialStreamReceiveWindow"%string.
Proof. vm_compute. repeat split. Qed.

Example realm_no_peer : let '(w, r) := realm_sample 0 None in
  shown (log w) = ["udp4"; "map"; "stun"; "my-realm"; "punch"; "unmap"; "close"]%string ∧ is_ok r = false.
Proof. vm_compute. repeat split. Qed.
