(* ===== verification/RealmRuntime.v ===== *)
(** * A realm's server at run time (app/cmd/server.go)

    The server of a realm keeps a session with the rendezvous server: it
    registers its addresses, renews the session with heartbeats that carry them
    when they change, answers the punch events of a stream, and registers anew
    when the session is lost.  Each loop is a function of what happens in its
    turns: the answers, and the time when they are there. *)
From S2P Require Import GoStd Prelude Netip Nat Punch PunchEngine Url Rendezvous PortMap ClientSetup.

(** ** Sessions *)
Record realmSession := mkSession { sess_id : string; sess_ttl : Z }.

Definition no_session : realmSession := mkSession EmptyString 0.

Inductive session_error := errContext | errRealmSessionInvalid | errRealmSessionLost.

(** A product of durations is of 64 bits. *)
Definition sessionTTLDuration (ttl : Z) : Z := if ttl <=? 0 then 60 * Second else i64 (ttl * Second).

Definition isRealmSessionInvalid (e : client_error) : bool :=
  match e with StatusErr s => (StatusCode s =? 401) || (StatusCode s =? 404) | _ => false end.

Definition isRealmRegisterFatal (e : client_error) : bool := match e with StatusErr s => StatusCode s =? 400 | _ => false end.

(** ** Addresses *)

(** What does not change while the server runs, and what the interfaces and
    the gateway's mapping are at a time. *)
Record realm_settings := mkRealmSettings { rs_HeartbeatInterval : Z; rs_family : AddrFamily; rs_localPort : Z }.
Record surroundings := mkSurroundings { ifaces : option (list Interface); mapped : option AddrPort }.

Definition realmConnectSTUNCacheTTL : Z := 10 * Second.

Record addr_cache := mkCache { addrs : option (list AddrPort); addrsAt : Z }.

Definition withCandidates (rs : realm_settings) (env : surroundings) (a : list AddrPort) : list AddrPort :=
  let a := match mapped env with Some m => mergeMappedAddr a m | None => a end in
  withLocalCandidates (ifaces env) (rs_localPort rs) (rs_family rs) a.

Definition currentAddrs (rs : realm_settings) (env : surroundings) (c : addr_cache) : list AddrPort :=
  withCandidates rs env (default [] (addrs c)).

(** [None]: nothing, or nothing fresh, is cached. *)
Definition cachedAddrs (rs : realm_settings) (env : surroundings) (now : Z) (c : addr_cache) : option (list AddrPort) :=
  match addrs c with
  | None => None
  | Some a => if realmConnectSTUNCacheTTL <=? time_Sub now (addrsAt c) then None else Some (withCandidates rs env a)
  end.

(** A copy of a slice is nil when the slice is empty. *)
Definition nonempty (a : list AddrPort) : option (list AddrPort) := match a with [] => None | _ => Some a end.

(** [found]: what STUN gives; the second result is whether it changed. *)
Definition refreshAddrs (rs : realm_settings) (env : surroundings) (now : Z) (found : option (list AddrPort)) (c : addr_cache) :
    addr_cache * option (list AddrPort * bool) :=
  match found with
  | None => (c, None)
  | Some a =>
      let changed := negb (bool_decide (default [] (addrs c) = a)) in
      let c := mkCache (if changed then nonempty a else addrs c) now in
      (c, Some (withCandidates rs env (default [] (addrs c)), changed))
  end.

(** The addresses for a peer, and whether STUN failed. *)
Definition connectAddrs (rs : realm_settings) (env : surroundings) (now : Z) (found : option (list AddrPort)) (c : addr_cache) :
    addr_cache * list AddrPort * bool :=
  match cachedAddrs rs env now c with
  | Some a => (c, a, false)
  | None =>
      match refreshAddrs rs env now found c with
      | (c, Some (a, _)) => (c, a, false)
      | (c, None) => (c, currentAddrs rs env c, true)
      end
  end.

(** ** Registering *)

(** A call of [registerWithBackoff] goes through attempts: what STUN found,
    what the rendezvous server answered, and whether the context was cancelled
    in the pause after it. *)
Record attempt := mkAttempt { at_found : option (list AddrPort); at_now : Z; at_env : surroundings; at_answer : result client_error RegisterResponse; at_cancelled : bool }.

Definition initial_backoff : Z := Second.
Definition next_backoff (b : Z) : Z := if b <? 30 * Second then b * 2 else b.

Definition register (rs : realm_settings) (env : surroundings) (c : addr_cache) (answer : result client_error RegisterResponse) :
    list string * result client_error realmSession :=
  (addrPortStrings (currentAddrs rs env c),
   match answer with Err e => Err e | Ok r => Ok (mkSession (SessionID r) (reg_TTL r)) end).

(** What came of it, the addresses announced in each attempt, and the pauses. *)
Fixpoint registerWithBackoff (rs : realm_settings) (attempts : list attempt) (backoff : Z) (c : addr_cache) :
    addr_cache * realmSession * list (list string) * list Z :=
  match attempts with
  | [] => (c, no_session, [], [])      (* cancelled before the next attempt *)
  | a :: attempts =>
      let c := (refreshAddrs rs (at_env a) (at_now a) (at_found a) c).1 in
      let '(announced, r) := register rs (at_env a) c (at_answer a) in
      match r with
      | Ok sess => (c, sess, [announced], [])
      | Err e =>
          if isRealmRegisterFatal e then (c, no_session, [announced], []) else
          if at_cancelled a then (c, no_session, [announced], [backoff]) else
          let '(c, r, ans, pauses) := registerWithBackoff rs attempts (next_backoff backoff) c in
          (c, r, announced :: ans, backoff :: pauses)
      end
  end.

(** ** Heartbeats *)
Record heartbeat_state := mkHeartbeat { hb_interval : Z; lastOK : Z; lastPublished : list AddrPort }.

Definition first_interval (rs : realm_settings) (sess : realmSession) : Z :=
  if rs_HeartbeatInterval rs =? 0 then
    let i := quot (sessionTTLDuration (sess_ttl sess)) 2 in if i <=? 0 then 15 * Second else i
  else rs_HeartbeatInterval rs.

Definition heartbeat_start (rs : realm_settings) (sess : realmSession) (now : Z) (current : list AddrPort) : heartbeat_state :=
  mkHeartbeat (first_interval rs sess) now current.

(** A turn: the context ends, or a tick, with the addresses of the time, the
    answer and the time when it is there. *)
Inductive beat := Ended | Tick (current : list AddrPort) (answer : result client_error HeartbeatResponse) (now : Z).

Definition beat_request (current : list AddrPort) (s : heartbeat_state) : AddressRequest :=
  mkAddressRequest (if bool_decide (current = lastPublished s) then [] else addrPortStrings current).

Definition heartbeat (rs : realm_settings) (sess : realmSession) (current : list AddrPort) (answer : result client_error HeartbeatResponse) (now : Z)
    (s : heartbeat_state) : result session_error heartbeat_state :=
  let published := if bool_decide (current = lastPublished s) then lastPublished s else current in
  match answer with
  | Err e =>
      if isRealmSessionInvalid e then Err errRealmSessionInvalid
      else if sessionTTLDuration (sess_ttl sess) <? time_Sub now (lastOK s) then Err errRealmSessionLost
      else Ok (mkHeartbeat (hb_interval s) (lastOK s) published)
  | Ok resp =>
      let next := quot (i64 (hb_TTL resp * Second)) 2 in
      let interval := if (rs_HeartbeatInterval rs =? 0) && (0 <? hb_TTL resp) && (0 <? next) then next else hb_interval s in
      Ok (mkHeartbeat interval now published)
  end.

(** The requests made, and the error of the loop, if it has ended. *)
Fixpoint heartbeatLoop (rs : realm_settings) (sess : realmSession) (beats : list beat) (s : heartbeat_state) :
    list AddressRequest * heartbeat_state * option session_error :=
  match beats with
  | [] => ([], s, None)
  | Ended :: _ => ([], s, Some errContext)
  | Tick current answer now :: beats =>
      let req := beat_request current s in
      match heartbeat rs sess current answer now s with
      | Err e => ([req], s, Some e)
      | Ok s => let '(reqs, s, e) := heartbeatLoop rs sess beats s in (req :: reqs, s, e)
      end
  end.

(** ** Events *)

(** A connection of the stream, at a time: refused, with whether the context
    ends in the pause after it, or the events that [Next] gives, each with its
    time, until the stream drops. *)
Inductive connection := Refused (e : client_error) (now : Z) (cancelled : bool) | Stream (now : Z) (events : list (PunchEvent * Z)).

Fixpoint eventsLoop (sess : realmSession) (conns : list connection) (backoff lastOK : Z) : list PunchEvent * list Z * option session_error :=
  match conns with
  | [] => ([], [], None)
  | Refused e now cancelled :: conns =>
      if isRealmSessionInvalid e then ([], [], Some errRealmSessionInvalid) else
      if sessionTTLDuration (sess_ttl sess) <? time_Sub now lastOK then ([], [], Some errRealmSessionLost) else
      if cancelled then ([], [backoff], Some errContext) else
      let '(evs, pauses, r) := eventsLoop sess conns (next_backoff backoff) lastOK in (evs, backoff :: pauses, r)
  | Stream now events :: conns =>
      let '(evs, pauses, r) := eventsLoop sess conns initial_backoff (List.last (snd <$> events) now) in
      ((fst <$> events) ++ evs, pauses, r)
  end.

(** The answer to an event: what is posted for the peer, and what is punched
    from and to. *)
Record reply := mkReply { posted : option (string * string * list string); punched : option (list AddrPort * list AddrPort * PunchMetadata) }.

Definition respond (rs : realm_settings) (env : surroundings) (now : Z) (found : option (list AddrPort)) (sess : realmSession) (ev : PunchEvent) (c : addr_cache) :
    addr_cache * reply :=
  match parseAddrPorts (ev_Addresses ev) with
  | None => (c, mkReply None None)
  | Some peerAddrs =>
      let '(c, freshAddrs, _) := connectAddrs rs env now found c in
      (c, mkReply
        (if negb (bool_decide (sess_id sess = EmptyString)) && (0 <? len freshAddrs)
         then Some (sess_id sess, Nonce (ev_Metadata ev), addrPortStrings freshAddrs) else None)
        (Some (freshAddrs, peerAddrs, ev_Metadata ev)))
  end.

(** ** Sessions one after the other *)

(** Whichever error ends a session, the server registers anew, unless the
    context has ended: the sessions it has had, and what is left of it. *)
Fixpoint run (rs : realm_settings) (rounds : list (list attempt)) (sess : realmSession) (c : addr_cache) : list realmSession :=
  sess ::
  match rounds with
  | [] => []
  | attempts :: rounds =>
      let '(c, s, _, _) := registerWithBackoff rs attempts initial_backoff c in
      if bool_decide (sess_id s = EmptyString) then [] else run rs rounds s c
  end.

(** ** Registering *)

(** The pause after the [n]th failure. *)
Definition pause (n : nat) : Z := Z.min (2 ^ Z.of_nat n) 32 * Second.

Lemma next_backoff_pause n : next_backoff (pause n) = pause (S n).
Proof.
  unfold next_backoff, pause, Second. assert (1 <= 2 ^ Z.of_nat n) as H1 by (pose proof (Z.pow_pos_nonneg 2 (Z.of_nat n)); lia).
  rewrite Nat2Z.inj_succ, Z.pow_succ_r by lia. destruct (Z.ltb_spec (Z.min (2 ^ Z.of_nat n) 32 * 1000000000) (30 * 1000000000)) as [H|H].
  - destruct (Z.le_gt_cases (2 ^ Z.of_nat n) 16) as [H2|H2]; [lia|].
    assert (2 ^ Z.of_nat n < 2 ^ 5) as H3%Z.pow_lt_mono_r_iff by lia; [|lia|lia].
    assert (2 ^ 4 < 2 ^ Z.of_nat n) as H4%Z.pow_lt_mono_r_iff by lia; lia.
  - destruct (Z.le_gt_cases 32 (2 ^ Z.of_nat n)) as [H2|H2]; [lia|].
    assert (2 ^ Z.of_nat n < 2 ^ 5) as H3%Z.pow_lt_mono_r_iff by lia; [|lia|lia].
    assert (2 ^ Z.of_nat n <= 2 ^ 4) by (apply Z.pow_le_mono_r; lia). lia.
Qed.

Definition pauses_from (n len : nat) : list Z := pause <$> seq n len.

(** An attempt that does not settle the matter. *)
Definition retried (a : attempt) : bool :=
  match at_answer a with Ok _ => false | Err e => negb (isRealmRegisterFatal e) end.

(** What an attempt announces, and the cache after it. *)
Definition after_refresh (rs : realm_settings) (c : addr_cache) (a : attempt) : addr_cache := (refreshAddrs rs (at_env a) (at_now a) (at_found a) c).1.

Lemma registerWithBackoff_eq rs n c attempts :
  ∀ failed rest, Forall (λ a, retried a = true ∧ at_cancelled a = false) failed → attempts = failed ++ rest →
  registerWithBackoff rs attempts (pause n) c =
    let '(c', r, ans, ps) := registerWithBackoff rs rest (pause (n + length failed)) (foldl (after_refresh rs) c failed) in
    (c', r, imap (λ i a, addrPortStrings (currentAddrs rs (at_env a) (foldl (after_refresh rs) c (take (S i) failed)))) failed ++ ans,
     pauses_from n (length failed) ++ ps).
Proof.
  revert n c attempts. intros n c attempts failed. revert n c attempts. induction failed as [|a failed IH]; intros n c attempts rest Hf ->.
  - cbn [app foldl length]. rewrite Nat.add_0_r. by destruct (registerWithBackoff _ _ _ _) as [[[? ?] ?] ?].
  - apply list.Forall_cons in Hf as [[Hr Hc] Hf]. cbn [app registerWithBackoff]. fold (after_refresh rs c a). cbv zeta. unfold register.
    unfold retried in Hr. destruct (at_answer a) as [e|]; [|done]. apply negb_true_iff in Hr. rewrite Hr, Hc, next_backoff_pause.
    rewrite (IH (S n) (after_refresh rs c a) (failed ++ rest) rest Hf eq_refl). cbn [length foldl]. rewrite Nat.add_succ_r, Nat.add_succ_l.
    destruct (registerWithBackoff rs rest _ _) as [[[c' r] ans] ps]. cbn [imap seq]. done.
Qed.

(** What the attempts announce, each after its look at STUN. *)
Definition announced (rs : realm_settings) (c : addr_cache) (attempts : list attempt) : list (list string) :=
  imap (λ i a, addrPortStrings (currentAddrs rs (at_env a) (foldl (after_refresh rs) c (take (S i) attempts)))) attempts.

Lemma announced_snoc rs c failed a :
  announced rs c (failed ++ [a]) = announced rs c failed ++ [addrPortStrings (currentAddrs rs (at_env a) (after_refresh rs (foldl (after_refresh rs) c failed) a))].
Proof.
  unfold announced. rewrite imap_app. f_equal.
  - apply imap_ext. intros i x Hi%lookup_lt_Some. rewrite take_app_le by lia. done.
  - cbn [imap]. rewrite Nat.add_0_r, take_ge by (rewrite length_app; cbn; lia). by rewrite foldl_app.
Qed.

(** Registering anew goes on until the rendezvous server answers: the pauses
    between attempts double from a second to 32, every attempt announces what
    STUN, the interfaces and the gateway give at its time, the first answer that
    takes the registration is the session, and a refusal for good ends it. *)
Theorem register_backoff rs failed a rest c : Forall (λ a, retried a = true ∧ at_cancelled a = false) failed → retried a = false →
  registerWithBackoff rs (failed ++ a :: rest) initial_backoff c =
    (foldl (after_refresh rs) c (failed ++ [a]),
     match at_answer a with Ok r => mkSession (SessionID r) (reg_TTL r) | Err _ => no_session end,
     announced rs c (failed ++ [a]), pauses_from 0 (length failed)) ∧
  (∀ i p, pauses_from 0 (length failed) !! i = Some p → p = Z.min (2 ^ Z.of_nat i) 32 * Second).
Proof.
  intros Hf Ha. split.
  - change initial_backoff with (pause 0). rewrite (registerWithBackoff_eq rs 0 c _ failed (a :: rest) Hf eq_refl). cbn [Nat.add].
    rewrite announced_snoc. fold (announced rs c failed). rewrite foldl_app. cbn [registerWithBackoff foldl]. fold (after_refresh rs (foldl (after_refresh rs) c failed) a).
    cbv zeta. unfold register. unfold retried in Ha. destruct (at_answer a) as [e|r].
    + apply negb_false_iff in Ha. rewrite Ha. by rewrite app_nil_r.
    + by rewrite app_nil_r.
  - intros i p. unfold pauses_from. rewrite list_lookup_fmap_Some. intros (k & -> & [-> _]%lookup_seq). done.
Qed.

(** ** Heartbeats *)

(** What the rendezvous server has of the realm after some requests: a request
    without addresses leaves them. *)
Definition on_record (v : list string) (reqs : list AddressRequest) : list string :=
  foldl (λ v r, match req_Addresses r with [] => v | a => a end) v reqs.

(** The time of the last answer. *)
Definition last_answer (t : Z) (beats : list beat) : Z :=
  foldl (λ t b, match b with Tick _ (Ok _) now => now | _ => t end) t beats.

(** A turn that leaves the addresses known to the rendezvous server: it is
    answered, and announces something. *)
Definition answered (b : beat) : Prop := match b with Tick current (Ok _) _ => current ≠ [] | _ => False end.

Lemma last_after {A} (x d : A) l : List.last (x :: l) d = List.last l x.
Proof.
  revert x d. induction l as [|y l IH]; intros x d; [done|]. change (List.last (x :: y :: l) d) with (List.last (y :: l) d). by rewrite !IH.
Qed.

Lemma heartbeatLoop_answered rs sess beats s : Forall answered beats →
  ∃ reqs s', heartbeatLoop rs sess beats s = (reqs, s', None) ∧
    on_record (addrPortStrings (lastPublished s)) reqs = addrPortStrings (lastPublished s') ∧
    lastPublished s' = List.last ((λ b, match b with Tick current _ _ => current | Ended => [] end) <$> beats) (lastPublished s) ∧
    length reqs = length beats.
Proof.
  intros Hb. revert s. induction Hb as [|[|current [e|resp] now] beats Hb1 Hb IH]; intros s; [|done..|].
  { by exists [], s. }
  cbn [heartbeatLoop]. unfold heartbeat. set (s1 := mkHeartbeat _ now _).
  destruct (IH s1) as (reqs & s' & E & Hr & Hl & Hn). rewrite E. exists (beat_request current s :: reqs), s'. split; [done|].
  assert (lastPublished s1 = current) as Hs1 by (cbn; by case_bool_decide). split; [|split].
  - cbn [on_record foldl]. rewrite <-Hr. f_equal. rewrite Hs1. unfold beat_request. cbn [req_Addresses]. case_bool_decide as E1; [by rewrite E1|].
    destruct current as [|x current]; [done|reflexivity].
  - rewrite Hl, Hs1. cbn [fmap list_fmap]. by rewrite last_after.
  - cbn. by rewrite Hn.
Qed.

Lemma heartbeatLoop_app rs sess pre post s reqs s1 : heartbeatLoop rs sess pre s = (reqs, s1, None) →
  heartbeatLoop rs sess (pre ++ post) s = let '(r, s2, e) := heartbeatLoop rs sess post s1 in (reqs ++ r, s2, e).
Proof.
  revert s reqs. induction pre as [|[|current ans now] pre IH]; intros s reqs; cbn [heartbeatLoop app].
  - intros [= <- <-]. by destruct (heartbeatLoop _ _ _ _) as [[? ?] ?].
  - done.
  - destruct (heartbeat _ _ _ _ _ _) as [e|s2]; [done|]. destruct (heartbeatLoop rs sess pre s2) as [[r s3] e] eqn:E. intros [= <- -> ->].
    rewrite (IH _ _ E). by destruct (heartbeatLoop rs sess post s1) as [[? ?] ?].
Qed.

(** Why the loop ends. *)
Lemma heartbeatLoop_ends rs sess beats s reqs s' e : heartbeatLoop rs sess beats s = (reqs, s', Some e) →
  ∃ pre b post, beats = pre ++ b :: post ∧
    match e with
    | errContext => b = Ended
    | errRealmSessionInvalid => ∃ current err now, b = Tick current (Err err) now ∧ isRealmSessionInvalid err = true
    | errRealmSessionLost => ∃ current err now, b = Tick current (Err err) now ∧
        sessionTTLDuration (sess_ttl sess) < time_Sub now (last_answer (lastOK s) pre)
    end.
Proof.
  revert s reqs. induction beats as [|b beats IH]; intros s reqs; [done|]. destruct b as [|current ans now].
  { cbn [heartbeatLoop]. intros [= _ _ <-]. by exists [], Ended, beats. }
  cbn [heartbeatLoop]. destruct (heartbeat rs sess current ans now s) as [e1|s1] eqn:E.
  - intros [= _ _ <-]. exists [], (Tick current ans now), beats. split; [done|]. unfold heartbeat in E. destruct ans as [err|]; [|done].
    destruct (isRealmSessionInvalid err) eqn:Ei; [injection E as <-; by eauto|]. destruct (Z.ltb_spec (sessionTTLDuration (sess_ttl sess)) (time_Sub now (lastOK s))); [|done].
    injection E as <-. by eauto.
  - destruct (heartbeatLoop rs sess beats s1) as [[r s2] e2] eqn:El. intros [= _ -> ->]. destruct (IH _ _ El) as (pre & b & post & -> & Hb).
    exists (Tick current ans now :: pre), b, post. split; [done|]. destruct e; [done|done|]. destruct Hb as (cu & err & nw & -> & Hlt). exists cu, err, nw. split; [done|].
    cbn [last_answer foldl]. unfold heartbeat in E. destruct ans as [er|resp]; [|injection E as <-; done].
    destruct (isRealmSessionInvalid er); [done|]. destruct (_ <? _); [done|]. by injection E as <-.
Qed.


(** ** Events *)
Definition events_of (c : connection) : list PunchEvent := match c with Refused _ _ _ => [] | Stream _ events => fst <$> events end.

(** The last sign of life of the rendezvous server. *)
Definition last_sign (t : Z) (conns : list connection) : Z :=
  foldl (λ t c, match c with Refused _ _ _ => t | Stream now events => List.last (snd <$> events) now end) t conns.

(** The pauses: they start anew behind a stream. *)
Fixpoint pauses_of (n : nat) (conns : list connection) : list Z :=
  match conns with
  | [] => []
  | Refused _ _ _ :: conns => pause n :: pauses_of (S n) conns
  | Stream _ _ :: conns => pauses_of 0 conns
  end.

Lemma eventsLoop_spec sess conns n t evs ps r : eventsLoop sess conns (pause n) t = (evs, ps, r) →
  ∃ seen rest, conns = seen ++ rest ∧ evs = seen ≫= events_of ∧
    match r with
    | None => rest = [] ∧ ps = pauses_of n seen
    | Some errContext => ∃ e now rest', rest = Refused e now true :: rest' ∧ ps = pauses_of n (seen ++ [Refused e now true])
    | Some errRealmSessionInvalid => ∃ e now cancelled rest', rest = Refused e now cancelled :: rest' ∧ isRealmSessionInvalid e = true ∧ ps = pauses_of n seen
    | Some errRealmSessionLost => ∃ e now cancelled rest', rest = Refused e now cancelled :: rest' ∧ ps = pauses_of n seen ∧
        sessionTTLDuration (sess_ttl sess) < time_Sub now (last_sign t seen)
    end.
Proof.
  revert n t evs ps. induction conns as [|[e now cancelled|now events] conns IH]; intros n t evs ps; cbn [eventsLoop].
  - intros [= <- <- <-]. by exists [], [].
  - destruct (isRealmSessionInvalid e) eqn:Ei; [intros [= <- <- <-]; exists [], (Refused e now cancelled :: conns); repeat split; by eauto 10|].
    destruct (Z.ltb_spec (sessionTTLDuration (sess_ttl sess)) (time_Sub now t)) as [Hl|Hl].
    { intros [= <- <- <-]. exists [], (Refused e now cancelled :: conns). repeat split; by eauto 10. }
    destruct cancelled; [intros [= <- <- <-]; exists [], (Refused e now true :: conns); repeat split; by eauto 10|].
    rewrite next_backoff_pause. destruct (eventsLoop sess conns (pause (S n)) t) as [[evs' ps'] r'] eqn:E. intros [= <- <- <-].
    destruct (IH _ _ _ _ E) as (seen & rest & -> & -> & Hr). exists (Refused e now false :: seen), rest. split; [done|]. split; [done|].
    destruct r' as [[]|]; cbn [pauses_of app].
    + destruct Hr as (e' & now' & rest' & -> & ->). by eauto 10.
    + destruct Hr as (e' & now' & c' & rest' & -> & Hi & ->). by eauto 10.
    + destruct Hr as (e' & now' & c' & rest' & -> & -> & Hlt). by eauto 10.
    + destruct Hr as [-> ->]. done.
  - change initial_backoff with (pause 0). destruct (eventsLoop sess conns (pause 0) (List.last (snd <$> events) now)) as [[evs' ps'] r'] eqn:E. intros [= <- <- <-].
    destruct (IH _ _ _ _ E) as (seen & rest & -> & -> & Hr). exists (Stream now events :: seen), rest. split; [done|]. split; [done|].
    destruct r' as [[]|]; cbn [pauses_of app].
    + destruct Hr as (e' & now' & rest' & -> & ->). by eauto 10.
    + destruct Hr as (e' & now' & c' & rest' & -> & Hi & ->). by eauto 10.
    + destruct Hr as (e' & now' & c' & rest' & -> & -> & Hlt). by eauto 10.
    + destruct Hr as [-> ->]. done.
Qed.

(** The text of a stream of [frames], with the times at which its events are
    read. *)
Definition stream_gives `{!Json PunchEvent} (now : Z) (frames : list frame) (times : list Z) : connection :=
  Stream now (zip (drain (S (length (punches frames))) (newEventStream (stream_text (frames ≫= frame_lines)))).1 times).

(** C22: over any streams, however often they are refused or drop in between, the
    server answers every punch event once, in order, until the session is
    refused or more than its time to live has gone by since the last sign of
    the rendezvous server; the pauses after refusals double from a second to 32,
    and a stream resets them. *)
Theorem events_answered sess conns t evs ps r : eventsLoop sess conns initial_backoff t = (evs, ps, r) →
  (∀ i p, ps !! i = Some p → Second <= p <= 32 * Second) ∧
  ∃ seen rest, conns = seen ++ rest ∧ evs = seen ≫= events_of ∧
    match r with
    | None => rest = [] ∧ ps = pauses_of 0 seen
    | Some errContext => ∃ e now rest', rest = Refused e now true :: rest' ∧ ps = pauses_of 0 (seen ++ [Refused e now true])
    | Some errRealmSessionInvalid => ∃ e now cancelled rest', rest = Refused e now cancelled :: rest' ∧ isRealmSessionInvalid e = true ∧ ps = pauses_of 0 seen
    | Some errRealmSessionLost => ∃ e now cancelled rest', rest = Refused e now cancelled :: rest' ∧ ps = pauses_of 0 seen ∧
        sessionTTLDuration (sess_ttl sess) < time_Sub now (last_sign t seen)
    end.
Proof.
  intros E. change initial_backoff with (pause 0) in E. apply eventsLoop_spec in E. split; [|exact E].
  assert (∀ n cs, Forall (λ p, Second <= p <= 32 * Second) (pauses_of n cs)) as Hp.
  { intros n cs. revert n. induction cs as [|[? ? ?|? ?] cs IH]; intros n; cbn [pauses_of]; [constructor| |done]. constructor; [|done].
    unfold pause, Second. pose proof (Z.pow_pos_nonneg 2 (Z.of_nat n)). lia. }
  assert (∃ n cs, ps = pauses_of n cs) as (n & cs & ->).
  { destruct E as (seen & rest & _ & _ & E). destruct r as [[]|]; [destruct E as (? & ? & ? & _ & ->)|destruct E as (? & ? & ? & ? & _ & _ & ->)|
      destruct E as (? & ? & ? & ? & _ & -> & _)|destruct E as [_ ->]]; eauto. }
  intros i p Hi. specialize (Hp n cs). rewrite list.Forall_lookup in Hp. by eapply Hp.
Qed.

(** The answer to an event announces to the peer the addresses that are punched
    from, punches the peer's, and its information from STUN is less than ten
    seconds old, unless STUN gave none. *)
Theorem respond_announces rs env now found sess ev c peers : parseAddrPorts (ev_Addresses ev) = Some peers →
  let '(c', rep) := respond rs env now found sess ev c in
  ∃ fresh, punched rep = Some (fresh, peers, ev_Metadata ev) ∧
    (sess_id sess ≠ EmptyString → fresh ≠ [] → posted rep = Some (sess_id sess, Nonce (ev_Metadata ev), addrPortStrings fresh)) ∧
    (sess_id sess = EmptyString ∨ fresh = [] → posted rep = None) ∧
    fresh = currentAddrs rs env c' ∧
    (found ≠ None ∨ c' = c ∧ cachedAddrs rs env now c ≠ None → time_Sub now (addrsAt c') < realmConnectSTUNCacheTTL).
Proof.
  intros Hp. unfold respond. rewrite Hp.
  assert (∀ fresh (a b : option (string * string * list string)), (if negb (bool_decide (sess_id sess = EmptyString)) && (0 <? len (A := AddrPort) fresh) then a else b) =
    if decide (sess_id sess ≠ EmptyString ∧ fresh ≠ []) then a else b) as Hif.
  { intros fresh a b. case_bool_decide as E; cbn [negb andb]; [by rewrite decide_False by naive_solver|].
    destruct fresh as [|x l]; [by rewrite decide_False by naive_solver|]. rewrite decide_True by done.
    rewrite len_cons, (proj2 (Z.ltb_lt _ _)); [done|]. pose proof (len_nonneg l). lia. }
  unfold connectAddrs. destruct (cachedAddrs rs env now c) as [a|] eqn:Ec.
  - exists a. cbn [punched posted]. rewrite Hif. split; [done|]. split; [intros; by rewrite decide_True|]. split; [intros; rewrite decide_False; naive_solver|].
    unfold cachedAddrs in Ec. unfold currentAddrs. destruct (addrs c) as [l|]; [|done]. destruct (Z.leb_spec realmConnectSTUNCacheTTL (time_Sub now (addrsAt c))) as [|Hl]; [done|].
    injection Ec as <-. done.
  - destruct found as [l|]; cbn [refreshAddrs].
    + eexists. cbn [punched posted]. rewrite Hif. split; [reflexivity|]. split; [intros; by rewrite decide_True|]. split; [intros; rewrite decide_False; naive_solver|].
      split; [done|]. intros _. cbn [addrsAt]. rewrite time_Sub_small; unfold MinInt64, MaxInt64, realmConnectSTUNCacheTTL, Second; lia.
    + eexists. cbn [punched posted]. rewrite Hif. split; [reflexivity|]. split; [intros; by rewrite decide_True|]. split; [intros; rewrite decide_False; naive_solver|].
      split; [done|]. by intros [?|[_ ?]].
Qed.

(** The events that [Next] gives of a stream are those that were written. *)
Lemma stream_events `{!Json PunchEvent} now frames times : Forall frame_ok frames → Forall line_ok (frames ≫= frame_lines) →
  length times = length (punches frames) → events_of (stream_gives now frames times) = punches frames.
Proof.
  intros Hf Hl Ht. unfold stream_gives, events_of. rewrite scan_stream, drain_frames by (done || lia). cbn [fst]. by rewrite fst_zip by lia.
Qed.

(** ** At concrete inputs *)
Definition sample_settings : realm_settings := mkRealmSettings 0 AddrFamilyAny 4000.
Definition sample_env : surroundings := mkSurroundings None None.
Definition at_home : list AddrPort := [AddrPortFrom (V4 3325256712) 4000].       (* 198.51.100.8 *)
Definition on_the_road : list AddrPort := [AddrPortFrom (V4 3405803781) 4000].   (* 203.0.113.5 *)
Definition sample_session : realmSession := mkSession "s1" 60.
Definition unavailable : client_error := StatusErr (mkStatusError 503 (mkErrorResponse "" "")).

Definition sample_attempt (answer : result client_error RegisterResponse) : attempt := mkAttempt (Some at_home) 0 sample_env answer false.
Definition sample_failures : list attempt := replicate 7 (sample_attempt (Err unavailable)).
Definition sample_success : attempt := sample_attempt (Ok (mkRegisterResponse "s2" 60)).

Lemma register_backoff_witness :
  (registerWithBackoff sample_settings (sample_failures ++ [sample_success]) initial_backoff (mkCache None 0)).1.1.2 = mkSession "s2" 60 ∧
  (registerWithBackoff sample_settings (sample_failures ++ [sample_success]) initial_backoff (mkCache None 0)).2 =
    (λ n, n * Second) <$> [1; 2; 4; 8; 16; 32; 32].
Proof.
  destruct (register_backoff sample_settings sample_failures sample_success [] (mkCache None 0)) as [E _]; [|reflexivity|].
  - by apply list.Forall_replicate.
  - rewrite E. split; reflexivity.
Defined.

Definition beat_ok (current : list AddrPort) (now : Z) : beat := Tick current (Ok (mkHeartbeatResponse 60)) (now * Second).
Definition sample_beats : list beat := [beat_ok at_home 30; beat_ok on_the_road 60; beat_ok on_the_road 90].


(** A change of address whose heartbeat fails is not sent again: every later
    heartbeat is answered, and the rendezvous server never hears of it. *)
Example failed_update_lost :
  let '(reqs, _, e) := heartbeatLoop sample_settings sample_session
    [Tick on_the_road (Err unavailable) (30 * Second); beat_ok on_the_road 60; beat_ok on_the_road 90] (heartbeat_start sample_settings sample_session 0 at_home) in
  (λ r, req_Addresses r) <$> reqs = [["203.0.113.5:4000"%string]; []; []] ∧ e = None.
Proof. vm_compute. split; reflexivity. Qed.

(** The heartbeats follow a longer time to live that the rendezvous server
    grants, the patience with failures does not: after one of 600 seconds the
    next heartbeat is due in 300, and the first that fails loses the session. *)
Example longer_ttl_forgotten :
  let '(_, s, e) := heartbeatLoop sample_settings sample_session
    [Tick at_home (Ok (mkHeartbeatResponse 600)) (30 * Second); Tick at_home (Err unavailable) (330 * Second)] (heartbeat_start sample_settings sample_session 0 at_home) in
  hb_interval s = 300 * Second ∧ e = Some errRealmSessionLost.
Proof. vm_compute. split; reflexivity. Qed.

Definition sample_event (n : string) : PunchEvent := mkPunchEvent ["192.0.2.1:4000"%string] (mkMetadata n "").
Definition sample_conns : list connection :=
  [Refused unavailable Second false; Refused unavailable (3 * Second) false; Stream (5 * Second) [(sample_event "a", 6 * Second); (sample_event "b", 7 * Second)];
   Refused unavailable (8 * Second) false; Stream (9 * Second) [(sample_event "c", 9 * Second)]].

Lemma events_answered_witness :
  eventsLoop sample_session sample_conns initial_backoff 0 = (sample_event <$> ["a"; "b"; "c"]%string, (λ n, n * Second) <$> [1; 2; 1], None) ∧
  (∀ i p, ((λ n, n * Second) <$> [1; 2; 1]) !! i = Some p → Second <= p <= 32 * Second).
Proof.
  assert (eventsLoop sample_session sample_conns initial_backoff 0 = (sample_event <$> ["a"; "b"; "c"]%string, (λ n, n * Second) <$> [1; 2; 1], None)) as E by reflexivity.
  split; [exact E|]. destruct (events_answered _ _ _ _ _ _ E) as [Hp _]. exact Hp.
Defined.

(** A stream that drops is opened again at once: only refusals are paused for. *)
Example dropped_without_pause : (eventsLoop sample_session (replicate 5 (Stream 0 [])) initial_backoff 0).1.2 = [].
Proof. reflexivity. Qed.

(** A stream that is open and quiet is no sign of life: when it drops after more
    than the time to live, one refusal loses the session. *)
Example quiet_stream_forgotten :
  (eventsLoop sample_session [Stream 0 []; Refused unavailable (61 * Second) false] initial_backoff 0).2 = Some errRealmSessionLost.
Proof. reflexivity. Qed.

Example respond_sample :
  posted (respond sample_settings sample_env 0 (Some at_home) sample_session (sample_event "a") (mkCache None 0)).2 = Some ("s1", "a", ["198.51.100.8:4000"])%string.
Proof. vm_compute. reflexivity. Qed.
