(* ===== verification/QuicInitial.v ===== *)
(** * QUIC Initial packets (extras/sniff/internal/quic)

    What the sniffer reads of the first datagram of a QUIC connection: the
    long header, the packet protection that anybody can take off, and the CRYPTO
    frames of the client hello.  Protection is taken off in place, so a slice is
    the memory from its first byte to its capacity, and its length.  The
    ciphers and the key derivation are an interface. *)
From S2P Require Import Prelude Protocol.

(** ** Versions (quic.go) *)
Definition V1 : Z := 0x1.
Definition V2 : Z := 0x6b3343cf.

Definition hkdfLabelKeyV1 : string := "quic key".
Definition hkdfLabelKeyV2 : string := "quicv2 key".
Definition hkdfLabelIVV1 : string := "quic iv".
Definition hkdfLabelIVV2 : string := "quicv2 iv".
Definition hkdfLabelHPV1 : string := "quic hp".
Definition hkdfLabelHPV2 : string := "quicv2 hp".

Definition quicSaltOld : bytes := byte_of_Z <$>
  [0xaf; 0xbf; 0xec; 0x28; 0x99; 0x93; 0xd2; 0x4c; 0x9e; 0x97; 0x86; 0xf1; 0x9c; 0x61; 0x11; 0xe0; 0x43; 0x90; 0xa8; 0x99].
Definition quicSaltV1 : bytes := byte_of_Z <$>
  [0x38; 0x76; 0x2c; 0xf7; 0xf5; 0x59; 0x34; 0xb3; 0x4d; 0x17; 0x9a; 0xe6; 0xa4; 0xc8; 0x0c; 0xad; 0xcc; 0xbb; 0x7f; 0x0a].
Definition quicSaltV2 : bytes := byte_of_Z <$>
  [0x0d; 0xed; 0xe3; 0xde; 0xf7; 0x00; 0xa6; 0xdb; 0x81; 0x93; 0x81; 0xbe; 0x6e; 0x26; 0x9d; 0xcb; 0xf9; 0xbd; 0x2e; 0xd9].

Definition isLongHeader (b : byte) : bool := 0 <? Z.land (Z_of_byte b) 0x80.

Definition getSalt (v : Z) : bytes :=
  if v =? V1 then quicSaltV1 else if v =? V2 then quicSaltV2 else quicSaltOld.
Definition keyLabel (v : Z) : string := if v =? V2 then hkdfLabelKeyV2 else hkdfLabelKeyV1.
Definition ivLabel (v : Z) : string := if v =? V2 then hkdfLabelIVV2 else hkdfLabelIVV1.
Definition headerProtectionLabel (v : Z) : string := if v =? V2 then hkdfLabelHPV2 else hkdfLabelHPV1.

(** ** The header (header.go) *)
Inductive initial_error :=
| ReadError (e : read_error) | notQUIC | unsupportedVersion | invalidPacket | unsupportedSuite | tooShort | tooSmall | decryptionFailed
| unexpectedFrame (typ : Z) | invalidOffset | frameTooLarge | cannotAssemble.

Record Header := mkHeader {
  Version : Z; SrcConnectionID : bytes; DestConnectionID : bytes; Length : Z; Token : bytes }.

Abbreviation reader A := (bytes → result initial_error (A * bytes)).

Definition lift {A} (r : result read_error A) : result initial_error A := match r with Ok a => Ok a | Err e => Err (ReadError e) end.

Definition ReadByte : reader byte := λ b, match b with [] => Err (ReadError EOF) | x :: b => Ok (x, b) end.

Definition beUint32 : reader Z := λ b, '(x, b) ← lift (ReadFull b 4); mret (be_Z x, b).

(** A connection ID cut short is an error, one that is missing is left zero. *)
Definition readConnectionID (n : Z) : reader bytes := λ b,
  match ReadFull b n with
  | Ok (cid, b) => Ok (cid, b)
  | Err UnexpectedEOF => Err (ReadError EOF)
  | Err _ => Ok (replicate (Z.to_nat n) Byte.x00, [])
  end.

Section Header.
Context `{QuicVarint}.

Definition varint : reader Z := λ b, lift (qv_Read b).

Definition readToken (typeByte : byte) (version : Z) : reader bytes := λ b,
  let initialPacketType := if version =? V2 then 1 else 0 in
  if Z.land (Z.shiftr (Z_of_byte typeByte) 4) 3 =? initialPacketType then
    '(tokenLen, b) ← varint b;
    if len b <? tokenLen then Err (ReadError EOF) else lift (ReadFull b tokenLen)
  else mret ([], b).

Definition parseLongHeader : reader Header := λ b,
  '(typeByte, b) ← ReadByte b;
  '(ver, b) ← beUint32 b;
  if negb (ver =? 0) && (Z.land (Z_of_byte typeByte) 0x40 =? 0) then Err notQUIC else
  '(destConnIDLen, b) ← ReadByte b;
  '(dest, b) ← readConnectionID (Z_of_byte destConnIDLen) b;
  '(srcConnIDLen, b) ← ReadByte b;
  '(src, b) ← readConnectionID (Z_of_byte srcConnIDLen) b;
  '(token, b) ← readToken typeByte ver b;
  '(pl, b) ← varint b;
  mret (mkHeader ver src dest (i64 pl) token, b).

Definition ParseInitialHeader (data : bytes) : result initial_error (Header * Z) :=
  '(hdr, b) ← parseLongHeader data;
  mret (hdr, len data - len b).
End Header.

(** ** Packet protection (packet_protector.go) *)

(** HKDF with SHA-256, AES and ChaCha20 with their AEADs: [Open] gives what it
    leaves in the destination, and whether the message is authentic. *)
Class InitialCrypto := {
  hkdf_Extract : bytes → bytes → bytes;
  hkdf_Expand : bytes → bytes → Z → bytes;
  aes_Encrypt : bytes → bytes → bytes;
  gcm_Seal : bytes → bytes → bytes → bytes → bytes;
  gcm_Open : bytes → bytes → bytes → bytes → bytes * bool;
  chacha_Open : bytes → bytes → bytes → bytes → bytes * bool;
  chacha_Stream : bytes → bytes → Z → nat → bytes;
  len_Expand prk info n : 0 <= n <= 255 * 32 → len (hkdf_Expand prk info n) = n;
  len_Encrypt key block : len (aes_Encrypt key block) = 16;
  len_Seal key nonce text aad : len (gcm_Seal key nonce text aad) = len text + 16;
  gcm_Open_Seal key nonce text aad : gcm_Open key nonce (gcm_Seal key nonce text aad) aad = (text, true);
  len_gcm_Open key nonce text aad : len (gcm_Open key nonce text aad).1 = Z.max 0 (len text - 16);
  len_chacha_Open key nonce text aad : len (chacha_Open key nonce text aad).1 = Z.max 0 (len text - 16);
  len_Stream key nonce counter n : length (chacha_Stream key nonce counter n) = n;
}.

Definition TLS_AES_128_GCM_SHA256 : Z := 0x1301.
Definition TLS_CHACHA20_POLY1305_SHA256 : Z := 0x1303.

Record ProtectionKey := mkProtectionKey {
  aead_Open : bytes → bytes → bytes → bytes * bool; headerProtection : bytes → bytes; iv : bytes }.


Definition nonce (pk : ProtectionKey) (pn : Z) : outcome bytes :=
  if len (iv pk) <? 8 then Panic else
  Ret (zip_with xor_byte (replicate (length (iv pk) - 8) Byte.x00 ++ be_bytes 8 (u64 pn)) (iv pk)).

Definition decodePacketNumber (largest truncated nbits : Z) : Z :=
  let expected := largest + 1 in
  let win := Z.shiftl 1 (nbits * 8) in
  let hwin := quot win 2 in
  let mask := win - 1 in
  let candidate := Z.lor (Z.ldiff expected mask) truncated in
  if (candidate <=? expected - hwin) && (candidate <? 2 ^ 62 - win) then candidate + win
  else if (expected + hwin <? candidate) && (win <=? candidate) then candidate - win
  else candidate.

Section Protection.
Context `{InitialCrypto}.

Definition hkdfExpandLabel (secret : bytes) (label : string) (context : bytes) (length : Z) : bytes :=
  let text := bytes_of_string "tls13 " ++ bytes_of_string label in
  hkdf_Expand secret (be_bytes 2 length ++ be_bytes 1 (len text) ++ text ++ be_bytes 1 (len context) ++ context) length.

Definition NewProtectionKey (suite : Z) (secret : bytes) (v : Z) : option ProtectionKey :=
  if suite =? TLS_AES_128_GCM_SHA256 then
    let key := hkdfExpandLabel secret (keyLabel v) [] 16 in
    let iv := hkdfExpandLabel secret (ivLabel v) [] 12 in
    let hpKey := hkdfExpandLabel secret (headerProtectionLabel v) [] 16 in
    Some (mkProtectionKey (gcm_Open key) (aes_Encrypt hpKey) iv)
  else if suite =? TLS_CHACHA20_POLY1305_SHA256 then
    let key := hkdfExpandLabel secret (keyLabel v) [] 32 in
    let iv := hkdfExpandLabel secret (ivLabel v) [] 12 in
    let hpKey := hkdfExpandLabel secret (headerProtectionLabel v) [] 32 in
    Some (mkProtectionKey (chacha_Open key)
      (λ sample, chacha_Stream hpKey (take 12 (drop 4 sample)) (be_Z (rev (take 4 sample))) 5) iv)
  else None.

Definition NewInitialProtectionKey (secret : bytes) (v : Z) : option ProtectionKey :=
  NewProtectionKey TLS_AES_128_GCM_SHA256 secret v.
End Protection.

(** [packet[i] ^= m], for an index of the slice of length [n]. *)
Definition xor_at (mem : bytes) (n i : Z) (m : byte) : outcome (bytes * byte) :=
  if (i <? 0) || (n <=? i) then Panic else
  match mem !! Z.to_nat i with
  | None => Panic
  | Some b => Ret (<[Z.to_nat i := xor_byte b m]> mem, xor_byte b m)
  end.

(** The bytes of the packet number, the first at [off], and its value. *)
Fixpoint unmask_pn (mask : bytes) (mem : bytes) (n off : Z) (pn : Z) : outcome (bytes * Z) :=
  match mask with
  | [] => Ret (mem, pn)
  | m :: mask =>
      '(mem, b) ← xor_at mem n off m;
      unmask_pn mask mem n (off + 1) (Z.lor (Z.shiftl pn 8) (Z_of_byte b))
  end.

(** [mem]: the memory of the packet, up to its capacity; [n]: its length. *)
Definition UnProtect (key : ProtectionKey) (mem : bytes) (n pnOffset pnMax : Z) : outcome (bytes * result initial_error bytes) :=
  match mem with
  | [] => Panic
  | first :: _ =>
      if n <=? 0 then Panic else
      if isLongHeader first && (n <? pnOffset + 4 + 16) then Ret (mem, Err tooSmall) else
      let sampleOffset := pnOffset + 4 in
      if len mem <? sampleOffset + 16 then Panic else
      let sample := take 16 (drop (Z.to_nat sampleOffset) mem) in
      let mask := headerProtection key sample in
      match mask with
      | [] => Panic
      | m0 :: masks =>
          '(mem, first) ← xor_at mem n 0 (byte_of_Z (Z.land (Z_of_byte m0) (if isLongHeader first then 0x0f else 0x1f)));
          let pnLen := Z.land (Z_of_byte first) 0x3 + 1 in
          if len masks <? pnLen then Panic else
          '(mem, pn) ← unmask_pn (take (Z.to_nat pnLen) masks) mem n pnOffset 0;
          let pn := decodePacketNumber pnMax pn pnLen in
          let start := Z.to_nat (pnOffset + pnLen) in
          let hdr := take start mem in
          let payload := drop start (take (Z.to_nat n) mem) in
          nonce ← nonce key pn;
          let '(dec, ok) := aead_Open key nonce payload hdr in
          let mem := take start mem ++ dec ++ drop (start + length dec) mem in
          Ret (mem, if ok then Ok dec else Err decryptionFailed)
      end
  end.

(** ** The frames (payload.go) *)
Definition maxCryptoFrameDataLen : Z := 256 * 1024.
Definition maxCryptoPayloadLen : Z := 256 * 1024.
Definition paddingFrameType : Z := 0x00.
Definition pingFrameType : Z := 0x01.
Definition cryptoFrameType : Z := 0x06.

Record cryptoFrame := mkFrame { Offset : Z; Data : bytes }.

(** [sort.Slice] by offset: some permutation in order. *)
Class SortFrames := {
  sort_frames : list cryptoFrame → list cryptoFrame;
  sort_frames_perm l : sort_frames l ≡ₚ l;
  sort_frames_sorted l : StronglySorted (λ a b, Offset a <= Offset b) (sort_frames l);
}.

Section Payload.
Context `{QuicVarint} `{InitialCrypto} `{SortFrames}.

Definition readCryptoFrame : reader cryptoFrame := λ r,
  '(offset, r) ← varint r;
  if MaxInt64 <? offset then Err invalidOffset else
  '(dataLen, r) ← varint r;
  if maxCryptoFrameDataLen <? dataLen then Err frameTooLarge
  else if len r <? dataLen then Err (ReadError UnexpectedEOF) else
  '(data, r) ← lift (ReadFull r dataLen);
  mret (mkFrame (i64 offset) data, r).

(** [fuel]: one turn per byte is enough, every frame has one. *)
Fixpoint extractFrames (fuel : nat) (r : bytes) : result initial_error (list cryptoFrame) :=
  match fuel, r with
  | O, _ | _, [] => Ok []
  | S fuel, _ =>
      '(typ, r) ← varint r;
      if (typ =? paddingFrameType) || (typ =? pingFrameType) then extractFrames fuel r else
      if negb (typ =? cryptoFrameType) then Err (unexpectedFrame typ) else
      '(frame, r) ← readCryptoFrame r;
      frames ← extractFrames fuel r;
      mret (frame :: frames)
  end.

Definition extractCryptoFrames (r : bytes) : result initial_error (list cryptoFrame) := extractFrames (length r) r.

Fixpoint contiguous (frames : list cryptoFrame) : bool :=
  match frames with
  | a :: ((b :: _) as frames) => (Offset b =? i64 (Offset a + len (Data a))) && contiguous frames
  | _ => true
  end.

Definition copy_frame (data : outcome bytes) (f : cryptoFrame) : outcome bytes :=
  data ← data;
  if (Offset f <? 0) || (len data <? Offset f) then Panic else
  '(data, _) ← buf_copy data (Z.to_nat (Offset f)) (Data f);
  Ret data.

Definition assembleCryptoFrames (frames : list cryptoFrame) : outcome (option bytes) :=
  match frames with
  | [] => Ret None
  | [f] => Ret (Some (Data f))
  | _ =>
      let frames := sort_frames frames in
      if negb (contiguous frames) then Ret None else
      match List.last frames (mkFrame 0 []) with
      | last =>
          if Offset last <? 0 then Ret None
          else if maxCryptoPayloadLen <? Offset last then Ret None else
          let end_ := i64 (Offset last + len (Data last)) in
          if (end_ <? 0) || (maxCryptoPayloadLen <? end_) then Ret None else
          data ← foldl copy_frame (Ret (replicate (Z.to_nat end_) Byte.x00)) frames;
          Ret (Some data)
      end
  end.

(** [mem]: the memory of the packet, up to its capacity; [n]: its length.
    First what is left in that memory. *)
Definition ReadCryptoPayload (mem : bytes) (n : Z) : outcome (bytes * result initial_error bytes) :=
  match ParseInitialHeader (take (Z.to_nat n) mem) with
  | Err e => Ret (mem, Err e)
  | Ok (hdr, offset) =>
      if negb (Version hdr =? V1) && negb (Version hdr =? V2) then Ret (mem, Err unsupportedVersion)
      else if (offset =? 0) || (Length hdr =? 0) then Ret (mem, Err invalidPacket) else
      let initialSecret := hkdf_Extract (DestConnectionID hdr) (getSalt (Version hdr)) in
      let clientSecret := hkdfExpandLabel initialSecret "client in" [] 32 in
      match NewInitialProtectionKey clientSecret (Version hdr) with
      | None => Ret (mem, Err unsupportedSuite)
      | Some key =>
          let end_ := i64 (offset + Length hdr) in
          if n <? end_ then Ret (mem, Err tooShort)
          else if end_ <? 0 then Panic else
          '(mem, r) ← UnProtect key mem end_ offset 2;
          match r with
          | Err e => Ret (mem, Err e)
          | Ok unProtectedPayload =>
              match extractCryptoFrames unProtectedPayload with
              | Err e => Ret (mem, Err e)
              | Ok frs =>
                  data ← assembleCryptoFrames frs;
                  Ret (mem, match data with None => Err cannotAssemble | Some data => Ok data end)
              end
          end
      end
  end.
End Payload.

(** ** Lemmas: what is read *)
Section Reading.
Context `{QuicVarint}.

Lemma qv_Read_inv_bound buf v rest : qv_Read buf = Ok (v, rest) → ∃ enc, buf = enc ++ rest ∧ 1 <= len enc ∧ 0 <= v < 2 ^ 62.
Proof.
  destruct buf as [|b bs]; [by rewrite qv_Read_nil|]. intros Hr.
  destruct (decide (varint_width b <= length (b :: bs))%nat) as [Hw|Hw]; [|destruct (qv_Read_short b bs) as [e He]; [lia|]; by rewrite He in Hr].
  rewrite qv_Read_full in Hr by done. injection Hr as <- <-. exists (take (varint_width b) (b :: bs)). split; [by rewrite take_drop|].
  destruct (varint_width_bound b) as (n & Hn & Hn8).
  assert (len (take (varint_width b) (b :: bs)) = Z.of_nat (S n)) as Hl by (unfold len; rewrite length_take; lia).
  split; [lia|]. unfold varint_value. rewrite Hl.
  pose proof (Z.mod_pos_bound (be_Z (take (varint_width b) (b :: bs))) (2 ^ (8 * Z.of_nat (S n) - 2)) ltac:(apply Z.pow_pos_nonneg; lia)) as Hb.
  split; [lia|]. eapply Z.lt_le_trans; [apply Hb|]. apply Z.pow_le_mono_r; lia.
Qed.

Lemma varint_ok b v r : varint b = Ok (v, r) → len r < len b ∧ 0 <= v < 2 ^ 62.
Proof.
  unfold varint, lift. destruct (qv_Read b) as [|[v' r']] eqn:E; [done|]. intros [= -> ->].
  apply qv_Read_inv_bound in E as (enc & -> & He & Hv). rewrite len_app. lia.
Qed.

Lemma ReadFull_ok b n d r : lift (ReadFull b n) = Ok (d, r) → len r <= len b ∧ length d = Z.to_nat n.
Proof.
  unfold lift, ReadFull. case_decide; [|done]. intros [= <- <-]. unfold len. rewrite length_drop, length_take. lia.
Qed.

Lemma readConnectionID_ok n b d r : readConnectionID n b = Ok (d, r) → len r <= len b.
Proof.
  unfold readConnectionID, ReadFull. case_decide; [intros [= <- <-]; unfold len; rewrite length_drop; lia|].
  case_decide; [|done]. intros [= <- <-]. apply len_nonneg.
Qed.

Lemma ParseInitialHeader_ok data hdr offset : ParseInitialHeader data = Ok (hdr, offset) →
  0 < offset <= len data ∧ 0 <= Length hdr < 2 ^ 62.
Proof.
  unfold ParseInitialHeader. intros ([h b] & Hp & [= <- <-])%result_bind_inv.
  unfold parseLongHeader in Hp. apply result_bind_inv in Hp as ([t b1] & H1 & Hp).
  destruct data as [|x data]; [done|]. injection H1 as -> ->.
  apply result_bind_inv in Hp as ([v b2] & H2 & Hp). unfold beUint32 in H2. apply result_bind_inv in H2 as ([x r] & H2 & [= <- <-]).
  apply ReadFull_ok in H2 as [H2 _]. destruct (negb _ && _); [done|].
  apply result_bind_inv in Hp as ([dl b3] & H3 & Hp). destruct r as [|y r]; [done|]. injection H3 as -> ->.
  apply result_bind_inv in Hp as ([d b4] & H4%readConnectionID_ok & Hp).
  apply result_bind_inv in Hp as ([sl b5] & H5 & Hp). destruct b4 as [|z b4]; [done|]. injection H5 as -> ->.
  apply result_bind_inv in Hp as ([s b6] & H6%readConnectionID_ok & Hp).
  apply result_bind_inv in Hp as ([tok b7] & H7 & Hp).
  assert (len b7 <= len b6) as H7'.
  { unfold readToken in H7. destruct (_ =? _); [|injection H7 as _ <-; lia].
    apply result_bind_inv in H7 as ([tl b8] & [H8 _]%varint_ok & H7). destruct (len b8 <? tl); [done|]. apply ReadFull_ok in H7 as [H7 _]. lia. }
  apply result_bind_inv in Hp as ([pl b9] & [H9 Hpl]%varint_ok & [= <- <-]).
  rewrite len_cons in *. pose proof (len_nonneg b9). cbn [Length]. rewrite i64_small by (unfold MinInt64, MaxInt64; lia). lia.
Qed.
End Reading.

(** ** Lemmas: taking the protection off *)

(** What a key of the program does. *)
Definition key_ok (key : ProtectionKey) : Prop :=
  (∀ sample, 5 <= len (headerProtection key sample)) ∧ 8 <= len (iv key) ∧
  (∀ nonce text aad, len (aead_Open key nonce text aad).1 = Z.max 0 (len text - 16)).

Lemma NewProtectionKey_ok `{InitialCrypto} suite secret v key : NewProtectionKey suite secret v = Some key → key_ok key.
Proof.
  unfold NewProtectionKey. destruct (suite =? _); [intros [= <-]|destruct (suite =? _); [intros [= <-]|done]];
    (split; [|split]); cbn [headerProtection iv aead_Open]; intros; unfold hkdfExpandLabel; rewrite ?len_Encrypt, ?len_Expand, ?len_gcm_Open, ?len_chacha_Open by lia; try lia.
  unfold len. rewrite len_Stream. lia.
Qed.

Lemma xor_at_ok mem n i m : 0 <= i < n → n <= len mem → ∃ b, mem !! Z.to_nat i = Some b ∧
  xor_at mem n i m = Ret (<[Z.to_nat i := xor_byte b m]> mem, xor_byte b m).
Proof.
  intros Hi Hn. unfold xor_at. rewrite (proj2 (Z.ltb_ge i 0)), (proj2 (Z.leb_gt n i)) by lia. cbn [orb].
  destruct (mem !! Z.to_nat i) as [b|] eqn:E; [by exists b|]. apply lookup_ge_None in E. unfold len in Hn. lia.
Qed.

Lemma unmask_pn_ok mask mem n off pn : 0 <= off → off + len mask <= n → n <= len mem →
  ∃ mem' pn', unmask_pn mask mem n off pn = Ret (mem', pn') ∧ len mem' = len mem.
Proof.
  revert mem off pn. induction mask as [|m mask IH]; intros mem off pn Ho Hn Hm; [by exists mem, pn|].
  rewrite len_cons in Hn. pose proof (len_nonneg mask). cbn [unmask_pn]. destruct (xor_at_ok mem n off m) as (b & _ & ->); [lia|done|]. cbn [mbind outcome_bind].
  destruct (IH (<[Z.to_nat off:=xor_byte b m]> mem) (off + 1) (Z.lor (Z.shiftl pn 8) (Z_of_byte (xor_byte b m)))) as (mem' & pn' & -> & Hl);
    [lia|lia|unfold len; rewrite length_insert; exact Hm|].
  exists mem', pn'. split; [done|]. rewrite Hl. unfold len. by rewrite length_insert.
Qed.

Lemma nonce_ok key pn : key_ok key → ∃ x, nonce key pn = Ret x.
Proof. intros (_ & Hi & _). unfold nonce. rewrite (proj2 (Z.ltb_ge _ _)) by lia. eauto. Qed.

Lemma UnProtect_ok key first mem n off : key_ok key → isLongHeader first = true → 0 < n <= len (first :: mem) → 0 <= off →
  ∃ mem' r, UnProtect key (first :: mem) n off 2 = Ret (mem', r) ∧ len mem' = len (first :: mem).
Proof.
  intros Hk Hf Hn Ho. unfold UnProtect. rewrite (proj2 (Z.leb_gt n 0)), Hf by lia. cbn [andb].
  destruct (Z.ltb_spec n (off + 4 + 16)); [eauto|]. rewrite (proj2 (Z.ltb_ge _ _)) by lia.
  pose proof Hk as (Hh & Hi & Ha). set (sample := take 16 _). specialize (Hh sample).
  destruct (headerProtection key sample) as [|m0 masks]; [unfold len in Hh; cbn in Hh; lia|]. rewrite len_cons in Hh.
  destruct (xor_at_ok (first :: mem) n 0 (byte_of_Z (Z.land (Z_of_byte m0) 15))) as (b & _ & ->); [lia|lia|]. cbn [mbind outcome_bind].
  set (b' := xor_byte b _). set (mem1 := <[Z.to_nat 0:=b']> (first :: mem)). assert (len mem1 = len (first :: mem)) as Hl1 by (unfold len, mem1; by rewrite length_insert).
  assert (1 <= Z.land (Z_of_byte b') 3 + 1 <= 4) as Hp.
  { change 3 with (Z.ones 2). rewrite Z.land_ones by lia. pose proof (Z.mod_pos_bound (Z_of_byte b') (2 ^ 2)). lia. }
  rewrite (proj2 (Z.ltb_ge _ _)) by lia. set (l := Z.land _ 3 + 1) in *.
  destruct (unmask_pn_ok (take (Z.to_nat l) masks) mem1 n off 0) as (mem2 & pn & -> & Hl2); [lia| |lia|].
  { unfold len. rewrite length_take. lia. }
  cbn [mbind outcome_bind]. destruct (nonce_ok key (decodePacketNumber 2 pn l)) as [x ->]; [done|]. cbn [mbind outcome_bind].
  destruct (aead_Open key x _ _) as [dec ok] eqn:E. eexists _, _; split; [done|].
  pose proof (Ha x (drop (Z.to_nat (off + l)) (take (Z.to_nat n) mem2)) (take (Z.to_nat (off + l)) mem2)) as Hd. rewrite E in Hd. cbn [fst] in Hd.
  unfold len in *. rewrite length_drop, length_take in Hd. rewrite !length_app, length_take, length_drop. lia.
Qed.

(** ** Lemmas: frames *)
Section Frames.
Context `{QuicVarint} `{SortFrames}.

Definition frame_ok (f : cryptoFrame) : Prop := 0 <= Offset f ∧ len (Data f) <= maxCryptoFrameDataLen.

Lemma readCryptoFrame_ok r f r' : readCryptoFrame r = Ok (f, r') → frame_ok f ∧ len r' < len r.
Proof.
  unfold readCryptoFrame. intros ([o r1] & [H1 Ho]%varint_ok & Hf)%result_bind_inv. destruct (MaxInt64 <? o) eqn:E; [done|]. apply Z.ltb_ge in E.
  apply result_bind_inv in Hf as ([l r2] & [H2 Hl]%varint_ok & Hf). destruct (_ <? l) eqn:El; [done|]. apply Z.ltb_ge in El. destruct (_ <? l); [done|].
  apply result_bind_inv in Hf as ([d r3] & [H3 Hd]%ReadFull_ok & [= <- <-]). split; [|lia].
  unfold frame_ok. cbn [Offset Data]. rewrite i64_small by (unfold MinInt64; lia). unfold len. lia.
Qed.

Lemma extractFrames_ok fuel r fs : extractFrames fuel r = Ok fs → Forall frame_ok fs.
Proof.
  revert r fs. induction fuel as [|fuel IH]; intros r fs; [by intros [= <-]|]. cbn [extractFrames]. destruct r as [|b r]; [by intros [= <-]|].
  intros ([t r1] & _ & Hf)%result_bind_inv. destruct (_ || _); [by eapply IH|]. destruct (negb _); [done|].
  apply result_bind_inv in Hf as ([f r2] & [Hf1 _]%readCryptoFrame_ok & Hf). apply result_bind_inv in Hf as (fs' & Hfs & [= <-]). constructor; [done|by eapply IH].
Qed.

(** One turn per byte: with more fuel nothing changes. *)
Lemma extractFrames_fuel fuel r : (length r <= fuel)%nat → extractFrames fuel r = extractCryptoFrames r.
Proof.
  unfold extractCryptoFrames. intros Hf. assert (∀ f g r, (length r <= f)%nat → (length r <= g)%nat → extractFrames f r = extractFrames g r) as Heq; [|by apply Heq].
  clear. intros f. induction f as [|f IH]; intros g r Hf Hg; [destruct r; [by destruct g|cbn in Hf; lia]|]. destruct g as [|g]; [destruct r; [done|cbn in Hg; lia]|]. cbn [extractFrames].
  destruct r as [|b r]; [done|]. destruct (varint (b :: r)) as [|[t r1]] eqn:E; [done|]. apply varint_ok in E as [E _]. cbn [mbind result_bind].
  destruct (_ || _); [apply IH; unfold len in E; lia|]. destruct (negb _); [done|].
  destruct (readCryptoFrame r1) as [|[fr r2]] eqn:E2; [done|]. apply readCryptoFrame_ok in E2 as [_ E2]. cbn [mbind result_bind].
  rewrite (IH g r2); [done|unfold len in *; lia..].
Qed.

Lemma copy_frames_ok data fs : Forall (λ f, 0 <= Offset f <= len data) fs → ∃ data', foldl copy_frame (Ret data) fs = Ret data'.
Proof.
  revert data. induction fs as [|f fs IH]; intros data Hf; [by exists data|]. apply Forall_cons in Hf as [Hf Hfs]. cbn [foldl].
  assert (∃ d, copy_frame (Ret data) f = Ret d ∧ length d = length data) as (d & -> & Hd); [|apply IH; unfold len in *; by rewrite Hd].
  unfold copy_frame. cbn [mbind outcome_bind]. rewrite (proj2 (Z.ltb_ge _ _)), (proj2 (Z.ltb_ge _ _)) by lia. cbn [orb]. unfold buf_copy.
  rewrite decide_True by (unfold len in Hf; lia). cbn [mbind outcome_bind]. eexists; split; [done|].
  rewrite !length_app, !length_take, length_drop. unfold len in Hf. lia.
Qed.

Lemma sorted_last fs d : StronglySorted (λ a b, Offset a <= Offset b) fs → Forall (λ f, Offset f <= Offset (List.last fs d)) fs.
Proof.
  induction 1 as [|f fs Hs IH Hf]; [constructor|]. destruct fs as [|g fs]; [constructor; [cbn; lia|constructor]|].
  change (List.last (f :: g :: fs) d) with (List.last (g :: fs) d). constructor; [|done].
  rewrite Forall_cons in Hf, IH. destruct Hf as [? _], IH as [? _]. lia.
Qed.

Lemma assemble_ok fs : Forall frame_ok fs → returns (assembleCryptoFrames fs).
Proof.
  intros Hf. unfold assembleCryptoFrames. destruct fs as [|f [|g fs]]; [by eexists..|]. set (l := f :: g :: fs) in *. clearbody l. clear f g fs.
  destruct (negb _); [by eexists|]. set (last := List.last _ _). destruct (Z.ltb_spec (Offset last) 0); [by eexists|].
  destruct (Z.ltb_spec maxCryptoPayloadLen (Offset last)); [by eexists|]. set (e := i64 _).
  destruct (Z.ltb_spec e 0); [by eexists|]. destruct (Z.ltb_spec maxCryptoPayloadLen e); [by eexists|]. cbn [orb].
  destruct (copy_frames_ok (replicate (Z.to_nat e) Byte.x00) (sort_frames l)) as [data ->]; [|by eexists].
  pose proof (sorted_last _ (mkFrame 0 []) (sort_frames_sorted l)) as Hs. fold last in Hs. rewrite <-(sort_frames_perm l) in Hf.
  apply list.Forall_forall. intros f Hin. unfold len. rewrite length_replicate.
  pose proof (proj1 (list.Forall_forall _ _) Hs f Hin) as Hl. pose proof (proj1 (list.Forall_forall _ _) Hf f Hin) as [H0' _]. cbn in Hl.
  split; [done|]. rewrite Z2Nat.id by done. etrans; [exact Hl|]. unfold e. pose proof (len_nonneg (Data last)).
  assert (frame_ok last) as [_ Hd]; [|unfold maxCryptoFrameDataLen, maxCryptoPayloadLen in *; rewrite i64_small; unfold MinInt64, MaxInt64; lia].
  unfold last. destruct (sort_frames l) as [|x s] using rev_ind; [by apply elem_of_nil in Hin|]. rewrite last_last. apply Forall_app in Hf as [_ Hf]. by inversion Hf.
Qed.
End Frames.

(** ** Whatever arrives *)
Section Total.
Context `{QuicVarint} `{InitialCrypto} `{SortFrames}.

Lemma long_header_returns mem n : 0 <= n <= len mem → len mem < 2 ^ 62 → isLongHeader (default Byte.x80 (head mem)) = true →
  ∃ mem' r, ReadCryptoPayload mem n = Ret (mem', r) ∧ len mem' = len mem.
Proof.
  intros Hn Hm Hf. unfold ReadCryptoPayload. destruct (ParseInitialHeader _) as [e|[hdr off]] eqn:Hp; [eauto|].
  apply ParseInitialHeader_ok in Hp as [Ho Hl]. assert (len (take (Z.to_nat n) mem) <= n) as Ht by (unfold len; rewrite length_take; lia).
  destruct (_ && _); [eauto|]. destruct (_ || _); [eauto|]. destruct (NewInitialProtectionKey _ _) as [key|] eqn:Hk; [|eauto].
  apply NewProtectionKey_ok in Hk. cbv zeta. rewrite i64_small by (unfold MinInt64, MaxInt64; lia).
  destruct (Z.ltb_spec n (off + Length hdr)); [eauto|]. rewrite (proj2 (Z.ltb_ge _ 0)) by lia.
  destruct mem as [|first mem]; [unfold len in *; cbn in *; lia|].
  destruct (UnProtect_ok key first mem (off + Length hdr) off) as (mem' & r & -> & Hl'); [done|done|lia|lia|]. cbn [mbind outcome_bind].
  destruct r as [e|text]; [eauto|]. destruct (extractCryptoFrames text) as [e|frs] eqn:Hx; [eauto|].
  apply extractFrames_ok, assemble_ok in Hx as [data Hx]. destruct (assembleCryptoFrames frs) as [d|]; [|done]. cbn [mbind outcome_bind]. eauto.
Qed.

(** C24: a datagram whose first byte has the top bit, as every long header has,
    never makes the reader panic, whatever its bytes are and whatever lies
    behind it in memory, and the memory keeps its length.  (Without that bit it
    may: see [short_header_panics].) *)
Theorem long_header_safe mem n : 0 <= n <= len mem → len mem < 2 ^ 62 → isLongHeader (default Byte.x80 (head mem)) = true →
  ∃ mem' r, ReadCryptoPayload mem n = Ret (mem', r) ∧ len mem' = len mem.
Proof. apply long_header_returns. Qed.
End Total.

(** ** A client's first packet, as RFC 9000 and 9001 make it *)

Definition vi (i : Z) : bytes := match varint_bytes i with Ret b => b | Panic => [] end.

Inductive item := Padding | Ping | Crypto (f : cryptoFrame).

Definition item_bytes (i : item) : bytes :=
  match i with
  | Padding => vi paddingFrameType
  | Ping => vi pingFrameType
  | Crypto f => vi cryptoFrameType ++ vi (Offset f) ++ vi (len (Data f)) ++ Data f
  end.

Definition item_frames (i : item) : list cryptoFrame := match i with Crypto f => [f] | _ => [] end.

(** The pieces of a message, with their offsets. *)
Fixpoint pieces_at (off : Z) (ps : list bytes) : list cryptoFrame :=
  match ps with [] => [] | p :: ps => mkFrame off p :: pieces_at (off + len p) ps end.

Section Written.
Context `{QuicVarint} `{SortFrames}.

Lemma vi_read i rest : 0 <= i < 2 ^ 62 → varint (vi i ++ rest) = Ok (i, rest) ∧ (1 <= length (vi i))%nat.
Proof.
  intros Hi. destruct (varint_bytes_spec i) as (bs & Hb & Hl & Hr); [unfold maxVarInt8; lia|]. unfold vi, varint. rewrite Hb, Hr. split; [done|].
  destruct bs; [|cbn; lia]. specialize (Hr []). cbn in Hr. by rewrite qv_Read_nil in Hr.
Qed.

Lemma ReadFull_prefix d r : lift (ReadFull (d ++ r) (len d)) = Ok (d, r).
Proof. unfold ReadFull, len. rewrite Nat2Z.id, decide_True by (rewrite length_app; lia). by rewrite take_app_length, drop_app_length. Qed.

Lemma crypto_read f rest : frame_ok f → Offset f < 2 ^ 62 →
  readCryptoFrame (vi (Offset f) ++ vi (len (Data f)) ++ Data f ++ rest) = Ok (f, rest).
Proof.
  intros [Ho Hd] Hb. unfold readCryptoFrame, maxCryptoFrameDataLen in *. pose proof (len_nonneg (Data f)).
  rewrite (proj1 (vi_read _ _ (conj Ho Hb))). cbn [mbind result_bind]. rewrite (proj2 (Z.ltb_ge _ _)) by (unfold MaxInt64; lia).
  rewrite (proj1 (vi_read (len (Data f)) (Data f ++ rest) ltac:(lia))). cbn [mbind result_bind]. rewrite (proj2 (Z.ltb_ge _ _)) by lia.
  rewrite (proj2 (Z.ltb_ge _ _)) by (rewrite len_app; pose proof (len_nonneg rest); lia).
  rewrite ReadFull_prefix. cbn [mbind result_bind]. rewrite i64_small by (unfold MinInt64, MaxInt64; lia). by destruct f.
Qed.

Lemma extract_items items : Forall (λ f, frame_ok f ∧ Offset f < 2 ^ 62) (items ≫= item_frames) →
  extractCryptoFrames (items ≫= item_bytes) = Ok (items ≫= item_frames).
Proof.
  induction items as [|i items IH]; [done|]. rewrite !bind_cons, Forall_app. intros [Hi Hs]. specialize (IH Hs).
  set (rest := items ≫= item_bytes) in *. assert (∃ b bs, item_bytes i ++ rest = b :: bs) as (b & bs & Eb).
  { assert (1 <= length (item_bytes i))%nat; [|destruct (item_bytes i) as [|b bs]; [cbn in *; lia|by exists b, (bs ++ rest)]].
    destruct i as [| |f]; cbn [item_bytes]; rewrite ?length_app; [pose proof (vi_read paddingFrameType [])|pose proof (vi_read pingFrameType [])|pose proof (vi_read cryptoFrameType [])];
      unfold paddingFrameType, pingFrameType, cryptoFrameType in *; lia. }
  unfold extractCryptoFrames. rewrite Eb. cbn [length extractFrames]. rewrite <-Eb.
  assert (length (item_bytes i ++ rest) = S (length bs)) as Hl by (by rewrite Eb).
  destruct i as [| |f]; cbn [item_bytes item_frames] in *.
  - destruct (vi_read paddingFrameType rest) as [-> Hv]; [unfold paddingFrameType; lia|]. cbn [mbind result_bind]. cbn [orb Z.eqb paddingFrameType].
    rewrite extractFrames_fuel by (rewrite length_app in Hl; lia). exact IH.
  - destruct (vi_read pingFrameType rest) as [-> Hv]; [unfold pingFrameType; lia|]. cbn [mbind result_bind]. change ((pingFrameType =? paddingFrameType) || (pingFrameType =? pingFrameType)) with true.
    cbn iota. rewrite extractFrames_fuel by (rewrite length_app in Hl; lia). exact IH.
  - rewrite <-!app_assoc. destruct (vi_read cryptoFrameType (vi (Offset f) ++ vi (len (Data f)) ++ Data f ++ rest)) as [-> Hv]; [unfold cryptoFrameType; lia|].
    cbn [mbind result_bind]. change ((cryptoFrameType =? paddingFrameType) || (cryptoFrameType =? pingFrameType)) with false.
    change (negb (cryptoFrameType =? cryptoFrameType)) with false. cbn iota. apply Forall_cons in Hi as [[Hf Ho] _].
    rewrite crypto_read by done. cbn [mbind result_bind]. rewrite extractFrames_fuel by (rewrite !length_app in Hl; lia). fold (extractCryptoFrames rest) in *. by rewrite IH.
Qed.

Lemma pieces_at_bound off ps f : 0 <= off → f ∈ pieces_at off ps → off <= Offset f ∧ Offset f + len (Data f) <= off + len (concat ps).
Proof.
  revert off. induction ps as [|p ps IH]; intros off Ho; [by intros ?%elem_of_nil|]. cbn [pieces_at concat]. rewrite len_app. pose proof (len_nonneg p). pose proof (len_nonneg (concat ps)).
  intros [->|Hin]%elem_of_cons; [cbn; lia|]. specialize (IH (off + len p) ltac:(lia) Hin). lia.
Qed.

Lemma pieces_sorted off ps : 0 <= off → StronglySorted (λ a b, Offset a <= Offset b) (pieces_at off ps).
Proof.
  revert off. induction ps as [|p ps IH]; intros off Ho; cbn [pieces_at]; [constructor|]. pose proof (len_nonneg p). constructor; [apply IH; lia|].
  apply list.Forall_forall. intros f Hf. apply pieces_at_bound in Hf; [cbn; lia|lia].
Qed.

(** Pieces that are not empty are known by their offsets. *)
Lemma pieces_inj off ps f g : 0 <= off → Forall (λ p, p ≠ []) ps → f ∈ pieces_at off ps → g ∈ pieces_at off ps → Offset f = Offset g → f = g.
Proof.
  revert off. induction ps as [|p ps IH]; intros off Ho Hp; [by intros ?%elem_of_nil|]. apply Forall_cons in Hp as [Hp Hps]. cbn [pieces_at].
  assert (0 < len p) by (destruct p; [done|rewrite len_cons; pose proof (len_nonneg p); lia]).
  assert (∀ x, x ∈ pieces_at (off + len p) ps → off < Offset x) as Hb by (intros x Hx; apply pieces_at_bound in Hx; lia).
  intros [->|Hf]%elem_of_cons [->|Hg]%elem_of_cons He; cbn in He; [done| | |eapply (IH (off + len p)); [lia|done..]].
  - specialize (Hb g Hg). lia.
  - specialize (Hb f Hf). lia.
Qed.

Lemma sort_pieces fs ps : Forall (λ p, p ≠ []) ps → fs ≡ₚ pieces_at 0 ps → sort_frames fs = pieces_at 0 ps.
Proof.
  intros Hp Hf. assert (sort_frames fs ≡ₚ pieces_at 0 ps) as Hs by (etrans; [apply sort_frames_perm|done]).
  eapply (StronglySorted_unique_strong (λ a b, Offset a <= Offset b)); [|apply sort_frames_sorted|apply pieces_sorted; lia|done].
  intros a b Ha Hb H1 H2. rewrite Hs in Ha. eapply (pieces_inj 0 ps); [lia|done..|]. lia.
Qed.

Lemma contiguous_pieces off ps : 0 <= off → off + len (concat ps) <= MaxInt64 → contiguous (pieces_at off ps) = true.
Proof.
  revert off. induction ps as [|p ps IH]; intros off Ho Hm; [done|]. destruct ps as [|q ps]; [done|].
  cbn [concat] in Hm. rewrite len_app in Hm. pose proof (len_nonneg p). pose proof (len_nonneg (q ++ concat ps)).
  change (pieces_at off (p :: q :: ps)) with (mkFrame off p :: pieces_at (off + len p) (q :: ps)).
  specialize (IH (off + len p) ltac:(lia) ltac:(cbn [concat] in *; lia)). cbn [pieces_at contiguous] in *. rewrite IH. cbn [Offset Data].
  rewrite i64_small by (unfold MinInt64, MaxInt64 in *; lia). by rewrite Z.eqb_refl.
Qed.

Lemma last_piece ps d : ps ≠ [] → let l := List.last (pieces_at 0 ps) d in Offset l + len (Data l) = len (concat ps) ∧ 0 <= Offset l.
Proof.
  intros Hp. assert (∀ off ps, 0 <= off → ps ≠ [] → let l := List.last (pieces_at off ps) d in Offset l + len (Data l) = off + len (concat ps) ∧ off <= Offset l) as Hg; [|apply (Hg 0); [lia|done]].
  clear. intros off ps. revert off. induction ps as [|p ps IH]; intros off Ho Hp; [done|]. destruct ps as [|q ps].
  { cbn [pieces_at List.last concat Offset Data]. rewrite app_nil_r. lia. }
  pose proof (len_nonneg p). specialize (IH (off + len p) ltac:(lia) ltac:(done)). change (pieces_at off (p :: q :: ps)) with (mkFrame off p :: pieces_at (off + len p) (q :: ps)).
  change (concat (p :: q :: ps)) with (p ++ concat (q :: ps)). rewrite len_app.
  change (List.last (mkFrame off p :: pieces_at (off + len p) (q :: ps)) d) with (List.last (pieces_at (off + len p) (q :: ps)) d). cbv zeta in *. lia.
Qed.

Lemma copy_pieces written ps : foldl copy_frame (Ret (written ++ replicate (length (concat ps)) Byte.x00)) (pieces_at (len written) ps) = Ret (written ++ concat ps).
Proof.
  revert written. induction ps as [|p ps IH]; intros written; [done|]. cbn [pieces_at foldl concat].
  assert (copy_frame (Ret (written ++ replicate (length (p ++ concat ps)) Byte.x00)) (mkFrame (len written) p) = Ret ((written ++ p) ++ replicate (length (concat ps)) Byte.x00)) as ->.
  { unfold copy_frame. cbn [mbind outcome_bind Offset Data]. rewrite len_app. pose proof (len_nonneg written). pose proof (len_nonneg (replicate (length (p ++ concat ps)) Byte.x00)).
    rewrite (proj2 (Z.ltb_ge _ _)), (proj2 (Z.ltb_ge _ _)) by lia. cbn [orb]. unfold len at 1. rewrite Nat2Z.id.
    unfold buf_copy. rewrite decide_True by (rewrite length_app; lia). rewrite !length_app, length_replicate.
    replace (length p `min` _)%nat with (length p) by lia. cbn [mbind outcome_bind]. rewrite (take_ge p) by lia.
    rewrite take_app_length, drop_app_add, replicate_add, drop_app_length' by (by rewrite length_replicate). by rewrite app_assoc. }
  replace (len written + len p) with (len (written ++ p)) by (apply len_app). rewrite IH, app_assoc. done.
Qed.

(** The pieces of a message in any order are put together. *)
Lemma assemble_pieces fs ps : ps ≠ [] → Forall (λ p, p ≠ []) ps → len (concat ps) <= maxCryptoPayloadLen → fs ≡ₚ pieces_at 0 ps →
  assembleCryptoFrames fs = Ret (Some (concat ps)).
Proof.
  intros Hn Hp Hl Hf. unfold assembleCryptoFrames. destruct fs as [|f [|g fs]].
  - destruct ps; [done|]. by apply Permutation_nil_cons in Hf.
  - apply Permutation_singleton_l in Hf. destruct ps as [|p [|q ps]]; [done| |done]. injection Hf as ->. cbn. by rewrite app_nil_r.
  - rewrite (sort_pieces _ ps) by done. unfold maxCryptoPayloadLen in *. rewrite contiguous_pieces by (unfold MaxInt64; lia). cbn [negb].
    destruct (last_piece ps (mkFrame 0 []) Hn) as [He Ho]. set (last := List.last _ _) in *. pose proof (len_nonneg (Data last)).
    rewrite (proj2 (Z.ltb_ge _ _)), (proj2 (Z.ltb_ge _ _)) by lia. rewrite i64_small by (unfold MinInt64, MaxInt64; lia). rewrite He.
    rewrite (proj2 (Z.ltb_ge _ _)), (proj2 (Z.ltb_ge _ _)) by lia. cbn [orb]. unfold len. rewrite Nat2Z.id.
    pose proof (copy_pieces [] ps) as Hc. change (len (@nil byte)) with 0 in Hc. cbn [app] in Hc. by rewrite Hc.
Qed.
End Written.

(** *** The packet *)

(** The protected form of the first byte and of the packet number. *)
Definition mask_first (mask : bytes) (b : byte) : byte := xor_byte b (byte_of_Z (Z.land (Z_of_byte (default Byte.x00 (head mask))) 0x0f)).
Definition mask_pn (mask : bytes) (pn : bytes) : bytes := zip_with xor_byte pn (tail mask).

Record initial := mkInitial {
  in_Version : Z; in_Dest : bytes; in_Src : bytes; in_Token : bytes; in_pnLen : Z; in_pn : Z; in_items : list item }.

Definition initial_ok (p : initial) : Prop :=
  in_Version p ∈ [V1; V2] ∧ len (in_Dest p) < 256 ∧ len (in_Src p) < 256 ∧ len (in_Token p) < 2 ^ 62 ∧
  1 <= in_pnLen p <= 4 ∧ 0 <= in_pn p < 2 ^ (8 * in_pnLen p - 1).

Definition in_text (p : initial) : bytes := in_items p ≫= item_bytes.

(** The first byte, the header up to the packet number, and the number. *)
Definition first_byte (p : initial) : byte := byte_of_Z (0xc0 + (if in_Version p =? V2 then 0x10 else 0) + (in_pnLen p - 1)).
Definition header_rest (p : initial) : bytes :=
  be_bytes 4 (in_Version p) ++ [byte_of_Z (len (in_Dest p))] ++ in_Dest p ++ [byte_of_Z (len (in_Src p))] ++ in_Src p ++
  vi (len (in_Token p)) ++ in_Token p ++ vi (in_pnLen p + len (in_text p) + 16).
Definition pn_bytes (p : initial) : bytes := be_bytes (Z.to_nat (in_pnLen p)) (in_pn p).

Section Packet.
Context `{QuicVarint} `{InitialCrypto} `{SortFrames}.

Definition client_secret (p : initial) : bytes := hkdfExpandLabel (hkdf_Extract (in_Dest p) (getSalt (in_Version p))) "client in" [] 32.
Definition sealed (p : initial) : bytes :=
  let iv := hkdfExpandLabel (client_secret p) (ivLabel (in_Version p)) [] 12 in
  gcm_Seal (hkdfExpandLabel (client_secret p) (keyLabel (in_Version p)) [] 16)
    (zip_with xor_byte (replicate 4 Byte.x00 ++ be_bytes 8 (in_pn p)) iv) (in_text p)
    (first_byte p :: header_rest p ++ pn_bytes p).
Definition packet_mask (p : initial) : bytes :=
  aes_Encrypt (hkdfExpandLabel (client_secret p) (headerProtectionLabel (in_Version p)) [] 16)
    (take 16 (drop (4 - Z.to_nat (in_pnLen p)) (sealed p))).
Definition protected (p : initial) : bytes :=
  mask_first (packet_mask p) (first_byte p) :: header_rest p ++ mask_pn (packet_mask p) (pn_bytes p) ++ sealed p.
(** The same memory when the protection is off: the text, and the tag. *)
Definition unprotected (p : initial) : bytes :=
  first_byte p :: header_rest p ++ pn_bytes p ++ in_text p ++ drop (length (in_text p)) (sealed p).
End Packet.

(** *** Lemmas: what protection does to a byte *)
Lemma first_byte_facts v2 L m : 1 <= L <= 4 → let b := byte_of_Z (0xc0 + (if v2 : bool then 0x10 else 0) + (L - 1)) in
  let f := xor_byte b (byte_of_Z (Z.land (Z_of_byte m) 0x0f)) in
  isLongHeader f = true ∧ (Z.land (Z_of_byte f) 0x40 =? 0) = false ∧
  Z.land (Z.shiftr (Z_of_byte f) 4) 3 = (if v2 then 1 else 0) ∧ Z.land (Z_of_byte b) 3 + 1 = L.
Proof.
  intros HL b f.
  assert (Forall (λ k, Forall (λ i, ∀ v : bool, let b := byte_of_Z (0xc0 + (if v then 0x10 else 0) + Z.of_nat i) in
    let f := xor_byte b (byte_of_Z (Z.land (Z.of_nat k) 0x0f)) in
    isLongHeader f = true ∧ (Z.land (Z_of_byte f) 0x40 =? 0) = false ∧
    Z.land (Z.shiftr (Z_of_byte f) 4) 3 = (if v then 1 else 0) ∧ Z.land (Z_of_byte b) 3 + 1 = Z.of_nat i + 1) (seq 0 4)) (seq 0 256)) as Hall
    by (apply (bool_decide_unpack _); vm_compute; exact I).
  pose proof (Z_of_byte_bound m). rewrite list.Forall_forall in Hall. specialize (Hall (Z.to_nat (Z_of_byte m))).
  rewrite list.Forall_forall in Hall. specialize (Hall ltac:(apply elem_of_seq; lia) (Z.to_nat (L - 1)) ltac:(apply elem_of_seq; lia) v2).
  rewrite !Z2Nat.id in Hall by lia. cbv zeta in Hall. fold b in Hall. fold f in Hall. destruct Hall as (? & ? & ? & ?). repeat split; [done..|lia].
Qed.

Lemma shift_byte acc b : Z.lor (Z.shiftl acc 8) (Z_of_byte b) = acc * 256 + Z_of_byte b.
Proof.
  pose proof (Z_of_byte_bound b). rewrite <-Z.add_nocarry_lor; [by rewrite Z.shiftl_mul_pow2|].
  apply Z.bits_inj'. intros i Hi. rewrite Z.land_spec, Z.bits_0. destruct (Z.ltb_spec i 8).
  - by rewrite Z.shiftl_spec_low.
  - rewrite <-(Z.mod_small (Z_of_byte b) (2 ^ 8)), Z.mod_pow2_bits_high, andb_false_r by lia. done.
Qed.

Lemma unmask_pn_spec mask pn pre post n acc : length pn = length mask → len pre + len pn <= n →
  unmask_pn mask (pre ++ zip_with xor_byte pn mask ++ post) n (len pre) acc = Ret (pre ++ pn ++ post, be_Z_acc acc pn).
Proof.
  revert pn pre acc. induction mask as [|m mask IH]; intros [|b pn] pre acc Hl Hn; try done. injection Hl as Hl. rewrite len_cons in Hn.
  pose proof (len_nonneg pre). pose proof (len_nonneg pn). cbn [unmask_pn zip_with]. unfold xor_at.
  rewrite (proj2 (Z.ltb_ge _ 0)), (proj2 (Z.leb_gt n _)) by lia. cbn [orb]. replace (Z.to_nat (len pre)) with (length pre) by (unfold len; lia).
  replace ((pre ++ (xor_byte b m :: zip_with xor_byte pn mask) ++ post) !! length pre) with (Some (xor_byte b m)) by (rewrite <-app_comm_cons; by rewrite list_lookup_middle).
  cbn [mbind outcome_bind]. rewrite xor_byte_involutive, shift_byte. replace (<[length pre:=b]> _) with ((pre ++ [b]) ++ zip_with xor_byte pn mask ++ post).
  - replace (len pre + 1) with (len (pre ++ [b])) by (rewrite len_app; done). rewrite IH; [by rewrite <-app_assoc|done|]. rewrite len_app. change (len [b]) with 1. lia.
  - rewrite <-app_assoc. rewrite insert_app_r_alt by done. by rewrite Nat.sub_diag.
Qed.

Lemma decode_small L pn : 1 <= L <= 4 → 0 <= pn < 2 ^ (8 * L - 1) → decodePacketNumber 2 pn L = pn.
Proof.
  intros HL Hp. unfold decodePacketNumber. change (2 + 1) with 3.
  assert (∃ h, Z.shiftl 1 (L * 8) = 2 * h ∧ 2 ^ (8 * L - 1) = h ∧ 128 <= h) as (h & Hw & Hh & H128).
  { assert (L = 1 ∨ L = 2 ∨ L = 3 ∨ L = 4) as [-> | [-> | [-> | ->]]] by lia;
      [exists (2 ^ 7)|exists (2 ^ 15)|exists (2 ^ 23)|exists (2 ^ 31)]; (split; [reflexivity|split; [reflexivity|lia]]). }
  assert (Z.ldiff 3 (Z.shiftl 1 (L * 8) - 1) = 0) as ->.
  { assert (L = 1 ∨ L = 2 ∨ L = 3 ∨ L = 4) as [-> | [-> | [-> | ->]]] by lia; reflexivity. }
  rewrite Z.lor_0_l, Hw. replace (quot (2 * h) 2) with h by (rewrite Z.mul_comm, Z.quot_mul; lia).
  rewrite (proj2 (Z.leb_gt pn _)), (proj2 (Z.ltb_ge (3 + h) pn)) by lia. done.
Qed.

Section PacketFacts.
Context `{QuicVarint} `{InitialCrypto} `{SortFrames}.

Lemma ReadFull_be n v rest : lift (ReadFull (be_bytes n v ++ rest) (Z.of_nat n)) = Ok (be_bytes n v, rest).
Proof. pose proof (ReadFull_prefix (be_bytes n v) rest) as Hr. unfold len in Hr. by rewrite length_be_bytes in Hr. Qed.

Lemma beUint32_written v r : 0 <= v < 256 ^ 4 → beUint32 (be_bytes 4 v ++ r) = Ok (v, r).
Proof.
  intros Hv. unfold beUint32. change 4 with (Z.of_nat 4). rewrite ReadFull_be. cbn [mbind result_bind mret result_ret].
  by rewrite be_Z_be_bytes_small.
Qed.

Lemma readConnectionID_prefix d r : readConnectionID (len d) (d ++ r) = Ok (d, r).
Proof. pose proof (ReadFull_prefix d r) as Hr. unfold lift in Hr. unfold readConnectionID. destruct (ReadFull _ _); [done|]. by injection Hr as ->. Qed.

Lemma in_version_bound p : initial_ok p → 0 < in_Version p < 256 ^ 4.
Proof. intros (Hv & _). by repeat (apply elem_of_cons in Hv as [->|Hv]); [..|apply elem_of_nil in Hv]. Qed.

Lemma parse_written p m rest : initial_ok p → len (in_text p) < 2 ^ 61 →
  ParseInitialHeader (mask_first m (first_byte p) :: header_rest p ++ rest) =
    Ok (mkHeader (in_Version p) (in_Src p) (in_Dest p) (in_pnLen p + len (in_text p) + 16) (in_Token p), 1 + len (header_rest p)).
Proof.
  intros Hok Ht. pose proof (in_version_bound p Hok) as Hvb. destruct Hok as (Hv & Hd & Hs & Htok & HL & Hpn).
  pose proof (first_byte_facts (in_Version p =? V2) (in_pnLen p) (default Byte.x00 (head m)) HL) as Hfacts. cbv zeta in Hfacts.
  fold (first_byte p) in Hfacts. fold (mask_first m (first_byte p)) in Hfacts. destruct Hfacts as (_ & H40 & Hty & _).
  assert (parseLongHeader (mask_first m (first_byte p) :: header_rest p ++ rest) =
    Ok (mkHeader (in_Version p) (in_Src p) (in_Dest p) (in_pnLen p + len (in_text p) + 16) (in_Token p), rest)) as Hl.
  2: { unfold ParseInitialHeader. rewrite Hl. cbn [mbind result_bind mret result_ret]. do 2 f_equal. rewrite len_cons, len_app. lia. }
  unfold parseLongHeader. cbn [ReadByte mbind result_bind]. unfold header_rest. rewrite <-!app_assoc. rewrite beUint32_written by lia. cbn [mbind result_bind].
  rewrite H40, (proj2 (Z.eqb_neq _ 0)) by lia. cbn [negb andb].
  cbn [app ReadByte mbind result_bind]. pose proof (len_nonneg (in_Dest p)). pose proof (len_nonneg (in_Src p)). pose proof (len_nonneg (in_Token p)). pose proof (len_nonneg (in_text p)).
  rewrite byte_of_Z_small by lia. rewrite readConnectionID_prefix. cbn [ReadByte mbind result_bind].
  rewrite byte_of_Z_small by lia. rewrite readConnectionID_prefix. cbn [mbind result_bind].
  unfold readToken. rewrite Hty. replace (_ =? (if in_Version p =? V2 then 1 else 0)) with true by (symmetry; apply Z.eqb_refl).
  rewrite (proj1 (vi_read (len (in_Token p)) _ ltac:(lia))). cbn [mbind result_bind]. rewrite len_app, (proj2 (Z.ltb_ge _ _)) by (pose proof (len_nonneg (vi (in_pnLen p + len (in_text p) + 16) ++ rest)); lia).
  rewrite ReadFull_prefix. cbn [mbind result_bind]. rewrite (proj1 (vi_read (in_pnLen p + len (in_text p) + 16) rest ltac:(lia))). cbn [mbind result_bind mret result_ret].
  by rewrite i64_small by (unfold MinInt64, MaxInt64; lia).
Qed.
Definition packet_key (p : initial) : ProtectionKey :=
  mkProtectionKey (gcm_Open (hkdfExpandLabel (client_secret p) (keyLabel (in_Version p)) [] 16))
    (aes_Encrypt (hkdfExpandLabel (client_secret p) (headerProtectionLabel (in_Version p)) [] 16)) (hkdfExpandLabel (client_secret p) (ivLabel (in_Version p)) [] 12).

Lemma len_sealed p : length (sealed p) = (length (in_text p) + 16)%nat.
Proof. unfold sealed. cbv zeta. match goal with |- length (gcm_Seal ?k ?n ?t ?a) = _ => pose proof (len_Seal k n t a) as Hl end. unfold len in Hl. lia. Qed.

Lemma len_mask p : length (packet_mask p) = 16%nat.
Proof. unfold packet_mask. match goal with |- length (aes_Encrypt ?k ?b) = _ => pose proof (len_Encrypt k b) as Hl end. unfold len in Hl. lia. Qed.

Lemma length_mask_pn p : 1 <= in_pnLen p <= 4 → length (mask_pn (packet_mask p) (pn_bytes p)) = Z.to_nat (in_pnLen p).
Proof. intros HL. unfold mask_pn, pn_bytes. rewrite length_zip_with, length_be_bytes, length_tl, len_mask. lia. Qed.

Lemma len_protected p : initial_ok p → len (protected p) = 1 + len (header_rest p) + (in_pnLen p + len (in_text p) + 16).
Proof. intros (_ & _ & _ & _ & HL & _). unfold protected. rewrite len_cons, !len_app. unfold len. rewrite length_mask_pn, len_sealed by done. lia. Qed.

(** The header fits any slice. *)
Lemma vi_short i : 0 <= i < 2 ^ 62 → len (vi i) <= 8.
Proof.
  intros Hi. unfold vi. destruct (varint_bytes_spec i) as (bs & -> & -> & _); [unfold maxVarInt8; lia|]. rewrite qv_Len_spec by lia. repeat case_match; lia.
Qed.

Lemma header_rest_short p : initial_ok p → len (in_text p) < 2 ^ 61 → len (header_rest p) < 2 ^ 62 + 1024.
Proof.
  intros (_ & Hd & Hs & Ht & HL & _) Htx. unfold header_rest. rewrite !len_app. pose proof (len_nonneg (in_Token p)). pose proof (len_nonneg (in_text p)).
  pose proof (vi_short (len (in_Token p)) ltac:(lia)). pose proof (vi_short (in_pnLen p + len (in_text p) + 16) ltac:(lia)).
  change (len [byte_of_Z (len (in_Dest p))]) with 1. change (len [byte_of_Z (len (in_Src p))]) with 1. unfold len at 1. rewrite length_be_bytes. lia.
Qed.

Lemma packet_sample p m behind : initial_ok p → 4 <= in_pnLen p + len (in_text p) →
  take 16 (drop (Z.to_nat (1 + len (header_rest p) + 4)) (m :: header_rest p ++ mask_pn (packet_mask p) (pn_bytes p) ++ sealed p ++ behind)) =
    take 16 (drop (4 - Z.to_nat (in_pnLen p)) (sealed p)).
Proof.
  intros (_ & _ & _ & _ & HL & _) Ht. pose proof (length_mask_pn p HL) as Hm. pose proof (len_sealed p) as Hs.
  replace (Z.to_nat (1 + len (header_rest p) + 4)) with (S (length (header_rest p ++ mask_pn (packet_mask p) (pn_bytes p)) + (4 - Z.to_nat (in_pnLen p))))
    by (rewrite length_app, Hm; unfold len; lia).
  cbn [drop]. rewrite (app_assoc (header_rest p)), drop_app_add. rewrite drop_app_le, take_app_le; [done|rewrite length_drop|]; unfold len in Ht; lia.
Qed.

Lemma packet_nonce p : initial_ok p → nonce (packet_key p) (in_pn p) =
  Ret (zip_with xor_byte (replicate 4 Byte.x00 ++ be_bytes 8 (in_pn p)) (hkdfExpandLabel (client_secret p) (ivLabel (in_Version p)) [] 12)).
Proof.
  intros (_ & _ & _ & _ & HL & Hp). unfold nonce. cbn [iv packet_key].
  assert (len (hkdfExpandLabel (client_secret p) (ivLabel (in_Version p)) [] 12) = 12) as Hi by (unfold hkdfExpandLabel; rewrite len_Expand; lia).
  rewrite Hi. cbn [Z.ltb]. change (12 <? 8) with false. cbn iota. assert (length (hkdfExpandLabel (client_secret p) (ivLabel (in_Version p)) [] 12) = 12%nat) as -> by (unfold len in Hi; lia).
  change (12 - 8)%nat with 4%nat. rewrite wrapU_small; [done|]. split; [lia|]. eapply Z.lt_trans; [apply Hp|]. apply Z.pow_lt_mono_r; lia.
Qed.

Lemma unprotect_written p behind : initial_ok p → 4 <= in_pnLen p + len (in_text p) →
  UnProtect (packet_key p) (protected p ++ behind) (len (protected p)) (1 + len (header_rest p)) 2 = Ret (unprotected p ++ behind, Ok (in_text p)).
Proof.
  intros Hok Ht. pose proof Hok as (Hv & Hd & Hs & Htok & HL & Hpn).
  pose proof (len_sealed p) as Hsl. pose proof (len_mask p) as Hml. pose proof (length_mask_pn p HL) as Hpl. pose proof (len_protected p Hok) as Hn.
  destruct (packet_mask p) as [|m0 masks] eqn:Hmask; [done|]. injection Hml as Hml.
  pose proof (first_byte_facts (in_Version p =? V2) (in_pnLen p) m0 HL) as Hfacts. cbv zeta in Hfacts. fold (first_byte p) in Hfacts. destruct Hfacts as (Hlong & _ & _ & Hlow).
  pose proof (packet_sample p (mask_first (packet_mask p) (first_byte p)) behind Hok Ht) as Hsample.
  unfold protected in *. unfold mask_first in *. rewrite Hmask in *. cbn [head default id] in *. set (F := xor_byte (first_byte p) _) in *.
  assert (xor_byte F (byte_of_Z (Z.land (Z_of_byte m0) 15)) = first_byte p) as Hu by apply xor_byte_involutive.
  cbn [app]. unfold UnProtect. rewrite Hn. pose proof (len_nonneg (header_rest p)). pose proof (len_nonneg (in_text p)).
  rewrite (proj2 (Z.leb_gt _ 0)), Hlong, (proj2 (Z.ltb_ge _ _)) by lia. cbn [andb].
  rewrite (proj2 (Z.ltb_ge (len _) _)) by (rewrite app_comm_cons, len_app, Hn; pose proof (len_nonneg behind); lia).
  rewrite <-!app_assoc, Hsample. cbn [headerProtection packet_key]. fold (packet_mask p). rewrite Hmask. cbv zeta.
  unfold xor_at at 1. change (0 <? 0) with false. rewrite (proj2 (Z.leb_gt _ 0)) by lia. cbn [orb].
  match goal with |- context [(F :: ?l) !! Z.to_nat 0] => change ((F :: l) !! Z.to_nat 0) with (Some F); cbn iota; change (<[Z.to_nat 0:=xor_byte F (byte_of_Z (Z.land (Z_of_byte m0) 15))]> (F :: l))
    with (xor_byte F (byte_of_Z (Z.land (Z_of_byte m0) 15)) :: l) end.
  rewrite Hu. cbn [mbind outcome_bind]. rewrite Hlow, (proj2 (Z.ltb_ge (len masks) _)) by (unfold len; lia).
  set (pre := first_byte p :: header_rest p). assert (1 + len (header_rest p) = len pre) as Epre by (unfold pre; by rewrite len_cons).
  assert (length (pn_bytes p) = Z.to_nat (in_pnLen p)) as Hpb by apply length_be_bytes.
  unfold mask_pn. cbn [tail]. rewrite <-(zip_with_take_r xor_byte (pn_bytes p) masks), Hpb, app_comm_cons. fold pre. rewrite Epre.
  rewrite unmask_pn_spec; [|rewrite length_take; lia|unfold len in *; lia]. cbn [mbind outcome_bind].
  assert (be_Z_acc 0 (pn_bytes p) = in_pn p) as ->.
  { fold (be_Z (pn_bytes p)). unfold pn_bytes. rewrite be_Z_be_bytes_small; [done|]. rewrite Z2Nat.id by lia. split; [lia|].
    eapply Z.lt_trans; [apply Hpn|]. change 256 with (2 ^ 8). rewrite <-Z.pow_mul_r by lia. apply Z.pow_lt_mono_r; lia. }
  rewrite decode_small, packet_nonce by done. cbn [mbind outcome_bind aead_Open packet_key].
  assert (Z.to_nat (len pre + in_pnLen p) = length (pre ++ pn_bytes p)) as -> by (rewrite length_app; unfold len; lia).
  rewrite (app_assoc pre). rewrite take_app_length.
  assert (drop (length (pre ++ pn_bytes p)) (take (Z.to_nat (len pre + (in_pnLen p + len (in_text p) + 16))) ((pre ++ pn_bytes p) ++ sealed p ++ behind)) = sealed p) as ->.
  { replace (Z.to_nat _) with (length (pre ++ pn_bytes p) + length (sealed p))%nat by (rewrite length_app; unfold len; lia).
    by rewrite take_app_add, take_app_length, drop_app_length. }
  unfold sealed at 1. cbv zeta. unfold pre at 3. rewrite <-app_comm_cons, gcm_Open_Seal. fold (header_rest p).
  unfold unprotected. rewrite drop_app_add, drop_app_le by lia. unfold pre. cbn [app]. by rewrite <-!app_assoc.
Qed.

(** C23: the first packet of a client, as QUIC version 1 or 2 makes it, with its
    client hello cut into CRYPTO frames in any order among paddings and pings, is
    read: whatever follows it in the datagram or behind it in memory, the
    reader gives the client hello.  The datagram in memory is then no longer
    the one that came: its protection is off, and the text of the frames
    stands where they were sealed. *)
Theorem initial_read p ps more behind : initial_ok p → 4 <= in_pnLen p + len (in_text p) → len (in_text p) < 2 ^ 61 →
  ps ≠ [] → Forall (λ b, b ≠ []) ps → len (concat ps) <= maxCryptoPayloadLen → in_items p ≫= item_frames ≡ₚ pieces_at 0 ps →
  ReadCryptoPayload (protected p ++ more ++ behind) (len (protected p ++ more)) = Ret (unprotected p ++ more ++ behind, Ok (concat ps)).
Proof.
  intros Hok Ht Ht61 Hn Hp Hl Hf. unfold ReadCryptoPayload. unfold len at 1. rewrite Nat2Z.id, app_assoc, take_app_length, <-app_assoc.
  assert (len (protected p) = 1 + len (header_rest p) + (in_pnLen p + len (in_text p) + 16)) as Hlen by (by apply len_protected).
  assert (ParseInitialHeader (protected p ++ more) = Ok (mkHeader (in_Version p) (in_Src p) (in_Dest p) (in_pnLen p + len (in_text p) + 16) (in_Token p), 1 + len (header_rest p))) as ->.
  { unfold protected. rewrite <-app_comm_cons, <-!app_assoc. by apply parse_written. }
  cbn [Version Length DestConnectionID]. pose proof (len_nonneg (header_rest p)). pose proof (len_nonneg (in_text p)). pose proof (len_nonneg more).
  pose proof Hok as (Hv & _ & _ & _ & HL & _).
  assert (negb (in_Version p =? V1) && negb (in_Version p =? V2) = false) as ->.
  { apply elem_of_cons in Hv as [->|[->|[]%elem_of_nil]%elem_of_cons]; reflexivity. }
  rewrite (proj2 (Z.eqb_neq _ 0)), (proj2 (Z.eqb_neq _ 0)) by lia. cbn [orb].
  change (NewInitialProtectionKey _ _) with (Some (packet_key p)). cbv iota zeta.
  rewrite <-Hlen, len_app, i64_small by (unfold MinInt64, MaxInt64; pose proof (header_rest_short p Hok Ht61); lia).
  rewrite (proj2 (Z.ltb_ge _ _)), (proj2 (Z.ltb_ge _ 0)) by lia. rewrite unprotect_written by done. cbn [mbind outcome_bind].
  unfold in_text. rewrite extract_items; [by rewrite (assemble_pieces _ ps)|]. rewrite Hf. apply list.Forall_forall. intros f Hin. apply pieces_at_bound in Hin; [|lia].
  unfold frame_ok, maxCryptoFrameDataLen, maxCryptoPayloadLen in *. pose proof (len_nonneg (Data f)). lia.
Qed.
End PacketFacts.

(** ** Concrete runs *)
#[export] Instance frame_le_dec : RelDecision (λ a b : cryptoFrame, Offset a <= Offset b) := λ a b, Z_le_dec (Offset a) (Offset b).

Program Definition merge_frames : SortFrames := {| sort_frames := merge_sort (λ a b, Offset a <= Offset b) |}.
Next Obligation. apply merge_sort_Permutation. Qed.
Next Obligation. intros l. apply StronglySorted_merge_sort; [intros a b c ? ?; lia|intros a b; lia]. Qed.

(** A cipher with the laws: the text is masked, and the tag is of the header. *)
Definition toy_tag (aad : bytes) : bytes := replicate 16 (foldl xor_byte Byte.x00 aad).
Definition toy_seal (key nonce text aad : bytes) : bytes := ((λ b, xor_byte b Byte.x5a) <$> text) ++ toy_tag aad.
Definition toy_open (key nonce text aad : bytes) : bytes * bool :=
  let body := take (length text - 16) text in
  ((λ b, xor_byte b Byte.x5a) <$> body, bool_decide (drop (length text - 16) text = toy_tag aad)).

Lemma toy_open_seal key nonce text aad : toy_open key nonce (toy_seal key nonce text aad) aad = (text, true).
Proof.
  unfold toy_open, toy_seal. rewrite length_app, length_fmap. change (length (toy_tag aad)) with 16%nat. rewrite Nat.add_sub.
  rewrite take_app_length', drop_app_length' by (by rewrite length_fmap). rewrite bool_decide_true by done. f_equal.
  rewrite <-list_fmap_compose. rewrite <-(list_fmap_id text) at 2. apply list_fmap_ext. intros i b _. apply xor_byte_involutive.
Qed.

Lemma toy_open_length key nonce text aad : len (toy_open key nonce text aad).1 = Z.max 0 (len text - 16).
Proof. unfold toy_open, len. cbn [fst]. rewrite length_fmap, length_take. lia. Qed.

Program Definition toy_initial : InitialCrypto := {|
  hkdf_Extract secret salt := secret ++ salt;
  hkdf_Expand prk info n := replicate (Z.to_nat n) Byte.x5a;
  aes_Encrypt key block := take 16 (block ++ replicate 16 Byte.x00);
  gcm_Seal := toy_seal; gcm_Open := toy_open; chacha_Open := toy_open;
  chacha_Stream key nonce counter n := replicate n Byte.x17 |}.
Next Obligation. intros. unfold len. rewrite length_replicate. lia. Qed.
Next Obligation. intros. unfold len. rewrite length_take, length_app, length_replicate. lia. Qed.
Next Obligation. intros. unfold toy_seal, toy_tag, len. rewrite length_app, length_fmap, length_replicate. lia. Qed.
Next Obligation. intros. apply toy_open_seal. Qed.
Next Obligation. intros. apply toy_open_length. Qed.
Next Obligation. intros. apply toy_open_length. Qed.
Next Obligation. intros. apply length_replicate. Qed.

Definition sample_initial : initial :=
  mkInitial V1 (bytes_of_string "12345678") [] [] 2 7 [Padding; Crypto (mkFrame 3 (bytes_of_string "lo, server")); Ping; Crypto (mkFrame 0 (bytes_of_string "hel")); Padding].

Lemma sample_ok : initial_ok sample_initial.
Proof. unfold initial_ok. repeat apply conj; first [left; done | done | lia]. Qed.

Lemma initial_read_witness :
  let r := @ReadCryptoPayload rfc9000 toy_initial merge_frames
    (@protected toy_initial sample_initial ++ bytes_of_string "more" ++ []) (len (@protected toy_initial sample_initial ++ bytes_of_string "more")) in
  r = Ret (@unprotected toy_initial sample_initial ++ bytes_of_string "more", Ok (bytes_of_string "hello, server")) ∧
  @unprotected toy_initial sample_initial ≠ @protected toy_initial sample_initial.
Proof.
  split; [|vm_compute; discriminate].
  apply (@initial_read rfc9000 toy_initial merge_frames sample_initial [bytes_of_string "hel"; bytes_of_string "lo, server"] (bytes_of_string "more") []);
    [apply sample_ok|vm_compute; discriminate|vm_compute; reflexivity|discriminate|repeat constructor; discriminate|vm_compute; discriminate|].
  vm_compute. apply perm_swap.
Defined.

Lemma long_header_safe_witness : isLongHeader Byte.xc0 = true ∧
  ∃ mem' r, @ReadCryptoPayload rfc9000 toy_initial merge_frames [Byte.xc0; Byte.x00; Byte.x00] 2 = Ret (mem', r) ∧ len mem' = 3.
Proof. split; [reflexivity|]. apply (@long_header_safe rfc9000 toy_initial merge_frames); [vm_compute; split; discriminate|reflexivity|reflexivity]. Defined.

(** Ten bytes without the top bit: a header of version 1 whose packet number and
    text take one byte.  The sample for the mask is taken behind them, and the
    slice has no such bytes. *)
Definition short_datagram : bytes := byte_of_Z <$> [0x40; 0; 0; 0; 1; 0; 0; 0; 1; 0].

Example short_header_panics `{InitialCrypto} `{SortFrames} : @ReadCryptoPayload rfc9000 _ _ short_datagram (len short_datagram) = Panic.
Proof. reflexivity. Qed.

(** With memory behind the slice the sample is found there, and the packet
    number then runs over its end. *)
Example short_header_index_panics :
  @ReadCryptoPayload rfc9000 toy_initial merge_frames (short_datagram ++ replicate 30 Byte.x03) (len short_datagram) = Panic.
Proof. vm_compute. reflexivity. Qed.
