(* ===== verification/Sniff.v ===== *)
(** * Sniffing protocols (extras/sniff/sniff.go)

    The request hook that looks for the name of the server in what the client
    sends first, and puts what it has read back.  A stream is the chunks that
    its reads give until they fail; the parsers of HTTP and TLS are arguments,
    and for HTTP also the sizes of the buffers it reads into. *)
From S2P Require Import GoStd Prelude Netip Net PortUnion Protocol QuicInitial.
Import Strings.

Definition sniffDefaultTimeout : Z := 4 * Second.
Definition sniffMaxHTTPHeaderBytes : Z := 256 * 1024.

Record Sniffer := mkSniffer { Timeout : Z; RewriteDomain : bool; TCPPorts : option PortUnion; UDPPorts : option PortUnion }.

Definition isDomain (addr : string) : bool :=
  match SplitHostPort addr with Err _ => false | Ok (host, _) => bool_decide (ParseIP host = None) end.

Definition letter (b : byte) : bool :=
  let c := Z_of_byte b in negb (((c <? 65) || (90 <? c)) && ((c <? 97) || (122 <? c))).

Definition isHTTP (buf : bytes) : bool := if len buf <? 3 then false else forallb letter (take 3 buf).

Definition isTLS (buf : bytes) : bool :=
  match buf with
  | b0 :: b1 :: b2 :: _ => (0x16 <=? Z_of_byte b0) && (Z_of_byte b0 <=? 0x17) && (Z_of_byte b1 =? 0x03) && (Z_of_byte b2 <=? 0x09)
  | _ => false
  end.

(** The port is cut to 16 bits. *)
Definition Check (h : Sniffer) (isUDP : bool) (reqAddr : string) : bool :=
  if HasPrefix reqAddr "@" then false else
  match SplitHostPort reqAddr with
  | Err _ => false
  | Ok (host, port) =>
      if negb (RewriteDomain h) && bool_decide (ParseIP host = None) then false else
      let '(portNum, bad) := Strconv.Atoi port in
      if bad then false else
      match (if isUDP then UDPPorts h else TCPPorts h) with None => true | Some u => PortUnion.Contains u (u16 portNum) end
  end.

(** ** Streams *)

(** A Read of the first chunk, and whether it failed. *)
Definition Read (n : Z) (cs : list bytes) : bytes * list bytes * bool :=
  match cs with
  | [] => ([], [], true)
  | c :: cs => (take (Z.to_nat n) c, (if len c <=? n then cs else drop (Z.to_nat n) c :: cs), false)
  end.

Fixpoint ReadFull (n : Z) (cs : list bytes) : bytes * list bytes * bool :=
  if n <=? 0 then ([], cs, true) else
  match cs with
  | [] => ([], [], false)
  | c :: cs =>
      if n <? len c then (take (Z.to_nat n) c, drop (Z.to_nat n) c :: cs, true) else
      let '(d, cs, ok) := ReadFull (n - len c) cs in (c ++ d, cs, ok)
  end.

Record teeReader := mkTee { Stream : list bytes; Pre : bytes; buf : bytes }.

Definition tee_Read (n : Z) (c : teeReader) : teeReader * Z :=
  if 0 <? len (Pre c) then
    let b := take (Z.to_nat n) (Pre c) in (mkTee (Stream c) (drop (Z.to_nat n) (Pre c)) (buf c ++ b), len b)
  else
    let '(b, cs, _) := Read n (Stream c) in (mkTee cs (Pre c) (buf c ++ b), len b).

Definition Buffer (c : teeReader) : bytes := Pre c ++ buf c.

(** [io.LimitReader]: [N] bytes are left. *)
Fixpoint limited_reads (sizes : list Z) (N : Z) (c : teeReader) : teeReader :=
  match sizes with
  | [] => c
  | n :: sizes => if N <=? 0 then c else let '(c, k) := tee_Read (Z.min n N) c in limited_reads sizes (N - k) c
  end.

(** ** The hook *)
Section Hook.
Context `{QuicVarint} `{InitialCrypto} `{SortFrames}.

(** The server name of a client hello, and the host of a request, of what was
    read of it. *)
Variable ClientHelloName : bytes → option string.
Variable RequestHost : bytes → option string.

(** The address with another host. *)
Definition rewrite (name : string) (reqAddr : string) : option string :=
  match SplitHostPort reqAddr with Err _ => None | Ok (_, port) => Some (JoinHostPort name port) end.

Definition sniffHTTP (sizes : list Z) (pre : bytes) (cs : list bytes) (reqAddr : string) : option bytes * list bytes * string :=
  let tr := limited_reads sizes sniffMaxHTTPHeaderBytes (mkTee cs pre []) in
  match RequestHost (buf tr) with
  | None | Some EmptyString => (Some (Buffer tr), Stream tr, reqAddr)
  | Some reqHost =>
      let host := match SplitHostPort reqHost with Ok (host, _) => host | Err _ => reqHost end in
      match rewrite host reqAddr with
      | None => (None, Stream tr, reqAddr)
      | Some a => (Some (Buffer tr), Stream tr, a)
      end
  end.

Definition sniffTLS (pre : bytes) (cs : list bytes) (reqAddr : string) : option bytes * list bytes * string :=
  let '(l, cs, ok) := ReadFull 2 cs in
  if negb ok then (Some (pre ++ l), cs, reqAddr) else
  let contentLength := be_Z l in
  let '(content, cs, ok) := ReadFull contentLength cs in
  if negb ok then (Some (pre ++ l ++ content), cs, reqAddr) else
  match ClientHelloName content with
  | None | Some EmptyString => (Some (pre ++ l ++ content), cs, reqAddr)
  | Some name =>
      match rewrite name reqAddr with
      | None => (None, cs, reqAddr)
      | Some a => (Some (pre ++ l ++ content), cs, a)
      end
  end.

Inductive deadline := After (d : Z) | Never.

(** What is put back ([None]: an error), what is left to read, the address and
    the deadlines set.  [set]: whether the first deadline can be set. *)
Definition TCP (h : Sniffer) (set : bool) (sizes : list Z) (cs : list bytes) (reqAddr : string) : option bytes * list bytes * string * list deadline :=
  let d := After (if Timeout h =? 0 then sniffDefaultTimeout else Timeout h) in
  if negb set then (None, cs, reqAddr, [d]) else
  let '(pre, cs, ok) := ReadFull 3 cs in
  let r := if negb ok then (Some pre, cs, reqAddr)
           else if isHTTP pre then sniffHTTP sizes pre cs reqAddr
           else if isTLS pre then sniffTLS pre cs reqAddr
           else (Some pre, cs, reqAddr) in
  (r, [d; Never]).

(** What is left of the datagram in memory, whether it fails, and the address. *)
Definition UDP (mem : bytes) (n : Z) (reqAddr : string) : outcome (bytes * bool * string) :=
  '(mem, pl) ← ReadCryptoPayload mem n;
  match pl with
  | Ok ((b0 :: _) as pl) =>
      if (len pl <? 4) || negb (Z_of_byte b0 =? 0x01) then Ret (mem, false, reqAddr) else
      match ClientHelloName pl with
      | None | Some EmptyString => Ret (mem, false, reqAddr)
      | Some name =>
          match rewrite name reqAddr with None => Ret (mem, true, reqAddr) | Some a => Ret (mem, false, a) end
      end
  | _ => Ret (mem, false, reqAddr)
  end.
End Hook.

(** ** Lemmas: nothing read is lost *)
Lemma Read_spec n cs : 0 <= n → let '(b, cs', _) := Read n cs in b ++ concat cs' = concat cs.
Proof.
  intros Hn. destruct cs as [|c cs]; [done|]. cbn [Read]. destruct (Z.leb_spec (len c) n).
  - rewrite take_ge by (unfold len in *; lia). done.
  - cbn [concat]. by rewrite app_assoc, take_drop.
Qed.

Lemma ReadFull_spec n cs : let '(b, cs', ok) := ReadFull n cs in
  b ++ concat cs' = concat cs ∧ (ok = true → 0 <= n → len b = n).
Proof.
  revert n. induction cs as [|c cs IH]; intros n; cbn [ReadFull]; destruct (Z.leb_spec n 0).
  - split; [done|]. intros _ ?. change (len (@nil byte)) with 0. lia.
  - done.
  - split; [done|]. intros _ ?. change (len (@nil byte)) with 0. lia.
  - destruct (Z.ltb_spec n (len c)).
    + split; [cbn [concat]; by rewrite app_assoc, take_drop|]. intros _ _. unfold len in *. rewrite length_take. lia.
    + specialize (IH (n - len c)). destruct (ReadFull (n - len c) cs) as [[d cs'] ok]. destruct IH as [Hd Hl]. split.
      * cbn [concat]. by rewrite <-app_assoc, Hd.
      * intros Hok _. rewrite len_app, Hl by (done || lia). lia.
Qed.

(** What the tee has of the stream, as long as it takes what was read before at
    once. *)
Definition tee_has (all : bytes) (c : teeReader) : Prop := Buffer c ++ concat (Stream c) = all ∧ (Pre c = [] ∨ buf c = []).

Lemma tee_Read_has all n c : tee_has all c → len (Pre c) <= n → 0 <= n → tee_has all (tee_Read n c).1 ∧ Pre (tee_Read n c).1 = [].
Proof.
  intros [Hc Hp] Hn Hn0. unfold tee_Read. destruct (Z.ltb_spec 0 (len (Pre c))) as [Hl|Hl].
  - assert (buf c = []) as Hb by (destruct Hp as [Hp|]; [rewrite Hp in Hl; done|done]). cbn [fst Pre].
    assert (drop (Z.to_nat n) (Pre c) = []) as Hd by (apply drop_ge; unfold len in *; lia). split; [|done]. unfold tee_has, Buffer in *. cbn [Pre buf Stream].
    rewrite Hd, Hb, take_ge by (unfold len in *; lia). rewrite Hb, app_nil_r in Hc. split; [done|by left].
  - assert (Pre c = []) as Hb by (destruct (Pre c); [done|rewrite len_cons in Hl; pose proof (len_nonneg l); lia]).
    pose proof (Read_spec n (Stream c) Hn0) as Hr. destruct (Read n (Stream c)) as [[b cs] e]. cbn [fst Pre]. split; [|done].
    unfold tee_has, Buffer in *. cbn [Pre buf Stream]. rewrite Hb in *. cbn [app] in *. split; [|by left]. by rewrite <-app_assoc, Hr.
Qed.

Lemma tee_Read_len n c : 0 <= n → 0 <= (tee_Read n c).2 <= n.
Proof.
  intros Hn. unfold tee_Read, Read. destruct (_ <? _); [cbn; unfold len; rewrite length_take; lia|].
  destruct (Stream c); cbn; unfold len; rewrite ?length_take; cbn; lia.
Qed.

Lemma limited_reads_empty all sizes N c : tee_has all c → Pre c = [] → 0 <= N → Forall (λ n, 3 <= n) sizes → tee_has all (limited_reads sizes N c).
Proof.
  intros Hc Hp HN Hs. revert N c Hc Hp HN. induction Hs as [|n sizes Hn Hs IH]; intros N c Hc Hp HN; [done|]. cbn [limited_reads].
  destruct (Z.leb_spec N 0); [done|].
  destruct (tee_Read_has all (Z.min n N) c Hc) as [Hc' Hp']; [rewrite Hp; change (len (@nil byte)) with 0; lia|lia|].
  pose proof (tee_Read_len (Z.min n N) c ltac:(lia)) as Hk. destruct (tee_Read (Z.min n N) c) as [c' k]. cbn [fst snd] in *. apply IH; [done|done|lia].
Qed.

Lemma limited_reads_has all sizes pre cs : len pre = 3 → pre ++ concat cs = all → Forall (λ n, 3 <= n) sizes →
  tee_has all (limited_reads sizes sniffMaxHTTPHeaderBytes (mkTee cs pre [])).
Proof.
  intros Hp Hc Hs. assert (tee_has all (mkTee cs pre [])) as Ht by (split; [unfold Buffer; cbn; by rewrite app_nil_r|by right]).
  unfold sniffMaxHTTPHeaderBytes. destruct Hs as [|n sizes Hn Hs]; [done|]. cbn [limited_reads]. change (256 * 1024 <=? 0) with false. cbn iota.
  destruct (tee_Read_has all (Z.min n (256 * 1024)) _ Ht) as [Hc' Hp']; [cbn [Pre]; lia|lia|].
  pose proof (tee_Read_len (Z.min n (256 * 1024)) (mkTee cs pre []) ltac:(lia)) as Hk. destruct (tee_Read _ _) as [c' k]. cbn [fst snd] in *.
  by apply limited_reads_empty; [..|lia|].
Qed.

Section HookFacts.
Context `{QuicVarint} `{InitialCrypto} `{SortFrames} (ClientHelloName RequestHost : bytes → option string).

(** The address of a request that was sniffed: as it was, or with the port it
    had and a name that the client's bytes hold. *)
Definition rewritten (reqAddr addr : string) : Prop :=
  addr = reqAddr ∨ ∃ name host port, SplitHostPort reqAddr = Ok (host, port) ∧ addr = JoinHostPort name port.

Lemma rewrite_ok h u reqAddr name : Check h u reqAddr = true → ∃ a, rewrite name reqAddr = Some a ∧ rewritten reqAddr a.
Proof.
  unfold Check, rewrite. destruct (HasPrefix _ _); [done|]. destruct (SplitHostPort reqAddr) as [|[host port]] eqn:E; [done|]. intros _.
  eexists; split; [done|]. right. eauto.
Qed.


(** A datagram whose first byte has the top bit is never failed either. *)
Theorem sniffed_datagram h mem n reqAddr : Check h true reqAddr = true → 0 <= n <= len mem → len mem < 2 ^ 62 → isLongHeader (default Byte.x80 (head mem)) = true →
  ∃ mem' addr, UDP ClientHelloName mem n reqAddr = Ret (mem', false, addr) ∧ len mem' = len mem ∧ rewritten reqAddr addr.
Proof.
  intros Hc Hn Hm Hf. unfold UDP. destruct (long_header_returns mem n Hn Hm Hf) as (mem' & r & -> & Hl). cbn [mbind outcome_bind].
  assert (rewritten reqAddr reqAddr) as Hsame by (by left). destruct r as [e|[|b0 pl]]; [eauto..|]. destruct (_ || _); [eauto|].
  destruct (ClientHelloName (b0 :: pl)) as [[|c s]|]; [eauto| |eauto]. destruct (rewrite_ok h true reqAddr (String c s) Hc) as (a & -> & Ha). eauto.
Qed.
End HookFacts.

(** ** Concrete runs *)
Definition sample_sniffer : Sniffer := mkSniffer 0 false None None.

Definition sample_host (b : bytes) : option string := if 20 <? len b then Some "example.org:8080"%string else None.
Definition sample_request : list bytes := bytes_of_string <$> ["GE"; "T / HTTP/1.1"; "Host: example.org:8080"; "more"]%string.

Definition sample_TCP (name host : bytes → option string) (cs : list bytes) : option bytes * list bytes * string * list deadline :=
  TCP name host sample_sniffer true (replicate 4 4096) cs "192.0.2.1:80".


(** A host without a port keeps the brackets of an IPv6 address and gets them
    once more. *)
Example host_bracketed_twice :
  (sample_TCP (λ _, None) (λ _, Some "[2001:db8::1]"%string) sample_request).1.2 = "[[2001:db8::1]]:80"%string.
Proof. vm_compute. reflexivity. Qed.

(** A host that is only a port leaves no name. *)
Example host_without_name :
  (sample_TCP (λ _, None) (λ _, Some ":8080"%string) sample_request).1.2 = ":80"%string.
Proof. vm_compute. reflexivity. Qed.

(** A sniffed datagram is forwarded without its protection. *)
Example sniffed_datagram_changed :
  let mem := @protected toy_initial sample_initial in
  match @UDP rfc9000 toy_initial merge_frames (λ _, Some "example.org"%string) mem (len mem) "192.0.2.1:443" with
  | Ret (mem', _, _) => mem' = @unprotected toy_initial sample_initial ∧ mem' ≠ mem
  | Panic => False
  end.
Proof. vm_compute. repeat split; discriminate. Qed.
