(* ===== verification/LinkMon.v ===== *)
(** * Watching the network attachment (app/internal/linkmon/linkmon.go, poll.go)

    Raw notifications come from the system or from polling.  A loop gathers
    them into bursts, which end when they go quiet or have lasted too long, and
    hands an event over for each; events that nobody has taken are merged.  A
    run of the loop is a sequence of labels, with the times that it reads. *)
From S2P Require Import GoStd Prelude.

(** ** Changes *)
Abbreviation Change := Z.
Definition ChangeLink : Change := 1.
Definition ChangeAddr : Change := 2.

Definition Change_String (c : Change) : string :=
  if c =? 0 then "none"
  else if c =? ChangeLink then "link"
  else if c =? ChangeAddr then "addr"
  else if c =? Z.lor ChangeLink ChangeAddr then "link|addr"
  else "unknown".

Record Event := mkEvent { Changes : Change; At : Z; Count : Z }.

(** ** Configuration *)
Definition DefaultDebounce : Z := 250 * Millisecond.
Definition DefaultMaxDelay : Z := 750 * Millisecond.
Definition DefaultPollInterval : Z := 2 * Second.

Record Config := mkConfig { Debounce : Z; MaxDelay : Z; PollInterval : Z; ForcePolling : bool }.

Definition withDefaults (c : Config) : Config :=
  let debounce := if Debounce c <=? 0 then DefaultDebounce else Debounce c in
  let maxDelay := if MaxDelay c <=? 0 then DefaultMaxDelay else MaxDelay c in
  mkConfig debounce (if maxDelay <? debounce then debounce else maxDelay)
    (if PollInterval c <=? 0 then DefaultPollInterval else PollInterval c) (ForcePolling c).

(** ** Sources *)
Inductive Source := SourcePolling | PlatformSource.
Inductive source_error := errNoPlatformWatcher | watcherFailed | watcherStopped.

(** [native]: whether the platform has a watcher. *)
Definition initialSource (c : Config) (native : bool) : Source * option source_error :=
  if ForcePolling c then (SourcePolling, None)
  else if negb native then (SourcePolling, Some errNoPlatformWatcher)
  else (PlatformSource, None).

(** How the native watcher ends: with the context, or on its own, with an
    error or without. *)
Inductive watch_end := WithContext | OnItsOwn (failed : bool).

(** The source that [produce] leaves, and whether it goes on polling. *)
Definition produce (c : Config) (native : bool) (e : watch_end) (s : Source * option source_error) : (Source * option source_error) * bool :=
  if negb (ForcePolling c) && native then
    match e with
    | WithContext => (s, false)
    | OnItsOwn failed => ((SourcePolling, Some (if failed then watcherFailed else watcherStopped)), true)
    end
  else (s, true).

(** ** The loop *)

(** The timer is the time from which it may fire; [out] is the channel to the
    consumer, which holds one event. *)
Record loop := mkLoop { pending : Change; count : Z; burst : Z; timer : option Z; out : option Event; closed : bool }.

Definition start : loop := mkLoop 0 0 0 None None false.

Definition delay (c : Config) (burst now : Z) : Z :=
  let d := Debounce c in
  let rem := i64 (MaxDelay c - time_Sub now burst) in
  let d := if rem <? d then rem else d in
  if d <? 0 then 0 else d.

(** A turn of [emit] sends the event when the channel is free, and otherwise
    takes the old one out of it (or the consumer does).  Two turns do. *)
Fixpoint emit (fuel : nat) (out : option Event) (ev : Event) : option Event :=
  match fuel with
  | O => out
  | S fuel =>
      match out with
      | None => Some ev
      | Some old => emit fuel None (mkEvent (Z.lor (Changes ev) (Changes old)) (At ev) (Count ev + Count old))
      end
  end.

(** Reading a notification, with the time when a burst begins and the time
    from which the delay counts; the timer firing; the end of the context or
    of the source; the consumer taking an event. *)
Inductive label := Raw (c : Change) (began now : Z) | Fire (now : Z) | Stop | Take.

Definition step (cfg : Config) (l : label) (s : loop) : option (loop * list Event) :=
  match l with
  | Raw c began now =>
      if closed s then None
      else if c =? 0 then Some (s, [])
      else
        let b := if count s =? 0 then began else burst s in
        Some (mkLoop (Z.lor (pending s) c) (count s + 1) b (Some (now + delay cfg b now)) (out s) false, [])
  | Fire now =>
      match timer s with
      | Some at_ =>
          if closed s || (now <? at_) then None
          else Some (mkLoop 0 0 (burst s) None (emit 2 (out s) (mkEvent (pending s) now (count s))) false, [])
      | None => None
      end
  | Stop => if closed s then None else Some (mkLoop (pending s) (count s) (burst s) (timer s) (out s) true, [])
  | Take => match out s with Some ev => Some (mkLoop (pending s) (count s) (burst s) (timer s) None (closed s), [ev]) | None => None end
  end.

(** The state after a run, and what the consumer has taken. *)
Fixpoint run (cfg : Config) (ls : list label) (s : loop) : option (loop * list Event) :=
  match ls with
  | [] => Some (s, [])
  | l :: ls => '(s, a) ← step cfg l s; '(s, b) ← run cfg ls s; Some (s, a ++ b)
  end.

(** ** Polling (poll.go) *)
Record ifaceState := mkIface { index : Z; up : bool; addrs : list string }.
#[export] Instance ifaceState_eq_dec : EqDecision ifaceState.
Proof. solve_decision. Defined.

(** What the system says of an interface: its addresses may fail. *)
Record Interface := mkInterface { i_Name : string; i_Index : Z; i_Up : bool; i_Running : bool; i_Addrs : option (list string) }.

Definition string_le (a b : string) : Prop := String.ltb b a = false.
#[export] Instance string_le_dec : RelDecision string_le := λ a b, decide (String.ltb b a = false).

Fixpoint enumerate (ifis : list Interface) (out : gmap string ifaceState) : option (gmap string ifaceState) :=
  match ifis with
  | [] => Some out
  | i :: ifis => a ← i_Addrs i; enumerate ifis (<[i_Name i := mkIface (i_Index i) (i_Up i && i_Running i) (merge_sort string_le a)]> out)
  end.

Definition enumerateInterfaces (ifis : option (list Interface)) : option (gmap string ifaceState) := ifis ← ifis; enumerate ifis ∅.

Definition zero_iface : ifaceState := mkIface 0 false [].

(** The two loops over the interfaces, in any order. *)
Definition diffStates (prev cur : gmap string ifaceState) : Change :=
  let c := foldr (λ p c, let '(name, cs) := p in
    let ps := default zero_iface (prev !! name) in
    let c := if bool_decide (prev !! name = None) || negb (index ps =? index cs) || negb (Bool.eqb (up ps) (up cs)) then Z.lor c ChangeLink else c in
    if negb (bool_decide (addrs ps = addrs cs)) then Z.lor c ChangeAddr else c) 0 (map_to_list cur) in
  foldr (λ p c, if bool_decide (cur !! (p.1 : string) = None) then Z.lor c ChangeLink else c) c (map_to_list prev).

(** The changes that polling reports over its rounds. *)
Fixpoint poll (prev : option (gmap string ifaceState)) (rounds : list (option (gmap string ifaceState))) : list Change :=
  match rounds with
  | [] => []
  | None :: rounds => poll prev rounds
  | Some cur :: rounds =>
      match prev with
      | None => poll (Some cur) rounds
      | Some p => let c := diffStates p cur in (if c =? 0 then [] else [c]) ++ poll (Some cur) rounds
      end
  end.

(** ** Nothing is lost *)

(** The notifications read in a run. *)
Definition raw_of (l : label) : list Change := match l with Raw c _ _ => if c =? 0 then [] else [c] | _ => [] end.
Definition raws (ls : list label) : list Change := ls ≫= raw_of.

(** The time of the last one. *)
Definition last_of (t : Z) (l : label) : Z := match l with Raw c _ now => if c =? 0 then t else now | _ => t end.
Definition last_raw (ls : list label) : Z := foldl last_of 0 ls.

(** Times do not run backwards. *)
Fixpoint ordered (t : Z) (ls : list label) : Prop :=
  match ls with
  | [] => True
  | Raw _ began now :: ls => t <= began <= now ∧ now < 2 ^ 62 ∧ ordered now ls
  | Fire now :: ls => t <= now < 2 ^ 62 ∧ ordered now ls
  | _ :: ls => ordered t ls
  end.

Definition union (g : list Change) : Change := foldr Z.lor 0 g.

(** An event that reports a burst. *)
Definition reports (ev : Event) (g : list Change) : Prop := g ≠ [] ∧ Changes ev = union g ∧ Count ev = len g.

Definition in_channel (s : loop) : list Event := match out s with Some ev => [ev] | None => [] end.

(** When the timer may fire: at the end of the quiet period, unless the burst
    has lasted too long before. *)
Definition due (cfg : Config) (began last t : Z) : Prop :=
  last <= t <= last + Debounce cfg ∧ t <= Z.max last (began + MaxDelay cfg) ∧
  (last + Debounce cfg <= began + MaxDelay cfg → t = last + Debounce cfg).

(** The notifications fall into bursts, one for each event that was taken or
    waits, and a last one that the timer will report. *)
Record inv (cfg : Config) (hist : list Change) (last : Z) (taken : list Event) (s : loop) : Prop := mkInv {
  inv_groups : ∃ gs gp, concat gs ++ gp = hist ∧ Forall2 reports (taken ++ in_channel s) gs ∧
    pending s = union gp ∧ count s = len gp;
  inv_timer : match timer s with None => count s = 0 | Some t => 0 < count s ∧ 0 <= burst s <= last ∧ due cfg (burst s) last t end }.

Lemma union_app g h : union (g ++ h) = Z.lor (union g) (union h).
Proof. unfold union. induction g as [|c g IH]; [done|]. cbn. by rewrite IH, Z.lor_assoc. Qed.

Lemma reports_merge ev old g h : reports ev g → reports old h → ∀ t, reports (mkEvent (Z.lor (Changes ev) (Changes old)) t (Count ev + Count old)) (h ++ g).
Proof.
  intros (Hg & Hc & Hn) (Hh & Hd & Hm) t. split; [by destruct h|]. cbn. rewrite union_app, len_app, Hc, Hd, Hn, Hm. split; [apply Z.lor_comm|lia].
Qed.

Lemma delay_due cfg began now : 0 < Debounce cfg → 0 <= MaxDelay cfg < 2 ^ 62 → 0 <= began <= now → now < 2 ^ 62 →
  due cfg began now (now + delay cfg began now).
Proof.
  intros Hd Hm Hb Hn. unfold due, delay. rewrite time_Sub_small, i64_small by (unfold MinInt64, MaxInt64; lia).
  destruct (Z.ltb_spec (MaxDelay cfg - (now - began)) (Debounce cfg)); match goal with |- context [?a <? 0] => destruct (Z.ltb_spec a 0) end; lia.
Qed.

Definition cfg_ok (cfg : Config) : Prop := 0 < Debounce cfg ∧ 0 <= MaxDelay cfg < 2 ^ 62.

Lemma loop_step_inv cfg l s s' evs hist last taken t : cfg_ok cfg → step cfg l s = Some (s', evs) → inv cfg hist last taken s → 0 <= last <= t → ordered t [l] →
  inv cfg (hist ++ raw_of l) (last_of last l) (taken ++ evs) s'.
Proof.
  intros [Hd Hm] Hs [(gs & gp & Hh & Hg & Hp & Hc) Ht] Hlast Ho. destruct l as [c began now|now| |]; cbn [step raw_of last_of ordered] in *.
  - destruct (closed s); [done|]. destruct (c =? 0); [injection Hs as <- <-; rewrite !app_nil_r; by split; [exists gs, gp|]|]. injection Hs as <- <-. rewrite app_nil_r. split; cbn [pending count timer burst out].
    + exists gs, (gp ++ [c]). rewrite app_assoc, Hh. unfold in_channel in *. cbn [out]. rewrite union_app, len_app, Hp, Hc. change (len [c]) with 1. cbn. by rewrite Z.lor_0_r.
    + pose proof (len_nonneg gp). split; [lia|]. destruct (Z.eqb_spec (count s) 0); [split; [lia|apply delay_due; lia]|].
      destruct (timer s) as [t'|]; [|done]. destruct Ht as (_ & Hb & _). split; [lia|apply delay_due; lia].
  - destruct (timer s) as [t'|] eqn:Et; [|done]. destruct (_ || _); [done|]. injection Hs as <- <-. rewrite !app_nil_r. destruct Ht as (Hpos & _).
    assert (reports (mkEvent (pending s) now (count s)) gp) as Hr by (split; [intros ->; change (len (@nil Change)) with 0 in Hc; lia|done]).
    split; [|done]. cbn [pending count timer burst out]. unfold in_channel in *. cbn [out].
    destruct (out s) as [old|]; cbn [emit].
    + apply Forall2_app_inv_l in Hg as (gs1 & gs2 & Hg1 & Hg2 & ->). apply Forall2_cons_inv_l in Hg2 as (g & ? & Hg & ->%Forall2_nil_inv_l & ->).
      exists (gs1 ++ [g ++ gp]), []. split; [|split; [|done]].
      * rewrite <-Hh, app_nil_r, !concat_app. cbn. by rewrite !app_nil_r, app_assoc.
      * apply Forall2_app; [done|]. constructor; [|constructor]. by apply (reports_merge (mkEvent (pending s) now (count s))).
    + exists (gs ++ [gp]), []. split; [|split; [|done]].
      * rewrite <-Hh, app_nil_r, concat_app. cbn. by rewrite app_nil_r.
      * rewrite app_nil_r in Hg. apply Forall2_app; [done|]. by constructor.
  - destruct (closed s); [done|]. injection Hs as <- <-. rewrite !app_nil_r. by split; [exists gs, gp|].
  - destruct (out s) as [ev|] eqn:Eo; [|done]. injection Hs as <- <-. rewrite !app_nil_r. split; [|done]. exists gs, gp.
    unfold in_channel in *. rewrite Eo in Hg. cbn [out pending count]. by rewrite app_nil_r.
Qed.

Lemma ordered_cons t l ls : ordered t (l :: ls) → ordered t [l] ∧ ∃ t', t <= t' ∧ (∀ last, last <= t → last_of last l <= t') ∧ ordered t' ls.
Proof.
  destruct l as [c b n|n| |]; cbn; intros H.
  - destruct H as (? & ? & ?). split; [done|]. exists n. split; [lia|]. split; [|done]. intros last ?. case_match; lia.
  - destruct H as (? & ?). split; [done|]. exists n. split; [lia|]. split; [|done]. intros last ?. lia.
  - split; [done|]. exists t. split; [lia|done].
  - split; [done|]. exists t. split; [lia|done].
Qed.

Lemma run_inv cfg ls s s' evs hist last taken t : cfg_ok cfg → run cfg ls s = Some (s', evs) → inv cfg hist last taken s → 0 <= last <= t → ordered t ls →
  inv cfg (hist ++ raws ls) (foldl last_of last ls) (taken ++ evs) s'.
Proof.
  intros Hcfg. revert s evs hist last taken t. induction ls as [|l ls IH]; intros s evs hist last taken t Hr Hi Hl Ho.
  - injection Hr as <- <-. unfold raws. cbn. by rewrite !app_nil_r.
  - cbn [run] in Hr. destruct (step cfg l s) as [[s1 a]|] eqn:Es; [|done]. cbn in Hr. destruct (run cfg ls s1) as [[s2 b]|] eqn:Er; [|done]. injection Hr as <- <-.
    apply ordered_cons in Ho as (Ho & t' & Ht' & Hlast & Hos). pose proof (loop_step_inv _ _ _ _ _ _ _ _ t Hcfg Es Hi Hl Ho) as H1.
    unfold raws. rewrite bind_cons, !app_assoc. cbn [foldl]. eapply (IH _ _ _ _ _ t' Er H1); [|done].
    split; [|apply Hlast; lia]. destruct l as [c ? n|?| |]; cbn in Ho |- *; try lia. case_match; lia.
Qed.

Lemma withDefaults_ok c : MaxDelay c < 2 ^ 62 → Debounce c < 2 ^ 62 → cfg_ok (withDefaults c) ∧ Debounce (withDefaults c) <= MaxDelay (withDefaults c).
Proof.
  intros Hm Hd. unfold cfg_ok, withDefaults, DefaultDebounce, DefaultMaxDelay, Millisecond. cbn [Debounce MaxDelay].
  destruct (Z.leb_spec (Debounce c) 0), (Z.leb_spec (MaxDelay c) 0); repeat match goal with |- context [?a <? ?b] => destruct (Z.ltb_spec a b) end; lia.
Qed.

(** C26: however notifications, the timer and the consumer interleave, no
    notification is lost or reported twice: those that were read fall into
    bursts in their order, the events taken and the one that waits report the
    bursts, with the union and the number of their notifications, and the last
    burst is pending.  While one is, the timer runs: it fires when the burst has
    been quiet for the quiet period, or when it has lasted for the longest
    delay, whichever is first, and at once if that is past. *)
Theorem bursts_reported c ls s taken : MaxDelay c < 2 ^ 62 → Debounce c < 2 ^ 62 → ordered 0 ls → run (withDefaults c) ls start = Some (s, taken) →
  ∃ gs gp, concat gs ++ gp = raws ls ∧ Forall2 reports (taken ++ in_channel s) gs ∧ pending s = union gp ∧ count s = len gp ∧
    match timer s with None => gp = [] | Some t => gp ≠ [] ∧ burst s <= last_raw ls ∧ due (withDefaults c) (burst s) (last_raw ls) t end.
Proof.
  intros Hm Hd Ho Hr. destruct (withDefaults_ok c Hm Hd) as [Hok _].
  assert (inv (withDefaults c) [] 0 [] start) as Hi by (split; [exists [], []; repeat split; constructor|done]).
  destruct (run_inv _ _ _ _ _ _ _ _ 0 Hok Hr Hi ltac:(lia) Ho) as [(gs & gp & Hh & Hg & Hp & Hc) Ht]. cbn [app] in *.
  exists gs, gp. split; [done|]. split; [done|]. split; [done|]. split; [done|]. fold (last_raw ls) in Ht. rewrite Hc in Ht. destruct (timer s).
  - destruct Ht as (? & ? & ?). split; [intros ->; done|]. split; [lia|done].
  - destruct gp; [done|]. rewrite len_cons in Ht. pose proof (len_nonneg gp). lia.
Qed.

(** ** What polling sees *)
Definition link_moved (prev : gmap string ifaceState) (name : string) (cs : ifaceState) : Prop :=
  match prev !! name with None => True | Some ps => index ps ≠ index cs ∨ up ps ≠ up cs end.
Definition addrs_moved (prev : gmap string ifaceState) (name : string) (cs : ifaceState) : Prop :=
  addrs (default zero_iface (prev !! name)) ≠ addrs cs.

Lemma foldr_gone (gone : string * ifaceState → bool) l c i : 0 <= i →
  Z.testbit (foldr (λ p c, if gone p then Z.lor c ChangeLink else c) c l) i = true ↔
  Z.testbit c i = true ∨ (i = 0 ∧ ∃ p, p ∈ l ∧ gone p = true).
Proof.
  intros Hi. induction l as [|p l IH]; cbn [foldr].
  - split; [by left|intros [?|(_ & p & ?%elem_of_nil & _)]; done].
  - assert (Z.testbit ChangeLink i = true ↔ i = 0) as Hb by (unfold ChangeLink; destruct (decide (i = 0)) as [->|]; [done|rewrite Z.bits_above_log2 by (cbn; lia); lia]).
    destruct (gone p) eqn:E; [rewrite Z.lor_spec, orb_true_iff, IH, Hb|rewrite IH]; split.
    + intros [[?|(? & q & ? & ?)]| ->]; [by left|right; split; [done|]; exists q; by rewrite elem_of_cons; auto|right; split; [done|]; exists p; by rewrite elem_of_cons; auto].
    + intros [?|(? & q & [->|?]%elem_of_cons & ?)]; [by left; left|by right|left; right; eauto].
    + intros [?|(? & q & ? & ?)]; [by left|right; split; [done|]; exists q; by rewrite elem_of_cons; auto].
    + intros [?|(? & q & [->|?]%elem_of_cons & ?)]; [by left|congruence|right; eauto].
Qed.

Definition bits_of (link moved : bool) (c : Change) : Change :=
  let c := if link then Z.lor c ChangeLink else c in if moved then Z.lor c ChangeAddr else c.

Lemma foldr_moved (link moved : string * ifaceState → bool) l i : 0 <= i →
  Z.testbit (foldr (λ p c, bits_of (link p) (moved p) c) 0 l) i = true ↔
  (i = 0 ∧ ∃ p, p ∈ l ∧ link p = true) ∨ (i = 1 ∧ ∃ p, p ∈ l ∧ moved p = true).
Proof.
  intros Hi. induction l as [|p l IH]; cbn [foldr].
  - rewrite Z.bits_0. split; [done|]. intros [(_ & p & ?%elem_of_nil & _)|(_ & p & ?%elem_of_nil & _)]; done.
  - assert (Z.testbit ChangeLink i = true ↔ i = 0) as Hb by (unfold ChangeLink; destruct (decide (i = 0)) as [->|]; [done|rewrite Z.bits_above_log2 by (cbn; lia); lia]).
    assert (Z.testbit ChangeAddr i = true ↔ i = 1) as Hb1.
    { unfold ChangeAddr. destruct (decide (i = 0)) as [->|]; [done|]. destruct (decide (i = 1)) as [->|]; [done|]. rewrite Z.bits_above_log2 by (cbn; lia). lia. }
    cbv zeta. assert (∀ f : string * ifaceState → bool, (∃ q, q ∈ p :: l ∧ f q = true) ↔ f p = true ∨ ∃ q, q ∈ l ∧ f q = true) as Hc.
    { intros f. split; [intros (q & [->|?]%elem_of_cons & ?); eauto|intros [?|(q & ? & ?)]; eexists; rewrite elem_of_cons; eauto]. }
    rewrite !Hc. unfold bits_of at 1. destruct (link p) eqn:E, (moved p) eqn:E1; rewrite ?Z.lor_spec, ?orb_true_iff, IH, ?Hb, ?Hb1; clear; intuition congruence.
Qed.

Lemma diffStates_bits prev cur i : 0 <= i → Z.testbit (diffStates prev cur) i = true ↔
  (i = 0 ∧ ((∃ name cs, cur !! name = Some cs ∧ link_moved prev name cs) ∨ (∃ name ps, prev !! name = Some ps ∧ cur !! name = None))) ∨
  (i = 1 ∧ ∃ name cs, cur !! name = Some cs ∧ addrs_moved prev name cs).
Proof.
  intros Hi. unfold diffStates.
  pose (link := λ p : string * ifaceState, let ps := default zero_iface (prev !! p.1) in
    bool_decide (prev !! p.1 = None) || negb (index ps =? index p.2) || negb (Bool.eqb (up ps) (up p.2))).
  pose (moved := λ p : string * ifaceState, negb (bool_decide (addrs (default zero_iface (prev !! p.1)) = addrs p.2))).
  pose (gone := λ p : string * ifaceState, bool_decide (cur !! p.1 = None)).
  match goal with |- context [foldr ?f (foldr ?g 0 ?l) ?k] =>
    replace (foldr f (foldr g 0 l) k) with (foldr (λ p c, if gone p then Z.lor c ChangeLink else c)
      (foldr (λ p c, bits_of (link p) (moved p) c) 0 l) k) end.
  2: { f_equal. clear. induction (map_to_list cur) as [|[n cs] l IH]; [done|]. cbn [foldr]. by rewrite IH. }
  rewrite foldr_gone, foldr_moved by done.
  assert (∀ n cs, link (n, cs) = true ↔ link_moved prev n cs) as Hlink.
  { intros n cs. unfold link, link_moved. cbn. destruct (prev !! n) as [ps|]; cbn; [|done].
    rewrite orb_true_iff, !negb_true_iff, Z.eqb_neq, eqb_false_iff. done. }
  assert (∀ n cs, moved (n, cs) = true ↔ addrs_moved prev n cs) as Hmoved.
  { intros n cs. unfold moved, addrs_moved. cbn. rewrite negb_true_iff, bool_decide_eq_false. done. }
  assert (∀ n cs, gone (n, cs) = true ↔ cur !! n = None) as Hgone by (intros n cs; unfold gone; by rewrite bool_decide_eq_true).
  split.
  - intros [[[-> ([n cs] & Hin%elem_of_map_to_list & ?%Hlink)]|[-> ([n cs] & Hin%elem_of_map_to_list & ?%Hmoved)]]|[-> ([n ps] & Hin%elem_of_map_to_list & ?%Hgone)]]; eauto 8.
  - intros [[-> [(n & cs & Hin%elem_of_map_to_list & ?%Hlink)|(n & ps & Hin%elem_of_map_to_list & Hg)]]|[-> (n & cs & Hin%elem_of_map_to_list & ?%Hmoved)]]; [eauto 8| |eauto 8].
    right. split; [done|]. exists (n, ps). by rewrite Hgone.
Qed.

(** Nothing is reported exactly when nothing moved. *)
Lemma diffStates_zero prev cur : diffStates prev cur = 0 ↔ prev = cur.
Proof.
  split.
  - intros Hz. assert (∀ i, 0 <= i → Z.testbit (diffStates prev cur) i ≠ true) as Hn by (intros i Hi; by rewrite Hz, Z.bits_0).
    apply map_eq. intros n. destruct (cur !! n) as [cs|] eqn:Ec.
    + assert (¬ link_moved prev n cs) as Hl by (intros Hl; apply (Hn 0); [done|]; apply diffStates_bits; [done|]; left; eauto 8).
      assert (¬ addrs_moved prev n cs) as Ha by (intros Ha; apply (Hn 1); [done|]; apply diffStates_bits; [done|]; right; eauto 8).
      unfold link_moved, addrs_moved in *. destruct (prev !! n) as [ps|]; [|done]. cbn in Ha. apply dec_stable in Ha.
      destruct ps, cs. cbn in *. f_equal. f_equal; [destruct (decide (index0 = index1)); tauto|destruct up0, up1; naive_solver|done].
    + destruct (prev !! n) as [ps|] eqn:Ep; [|done]. exfalso. apply (Hn 0); [done|]. apply diffStates_bits; [done|]. left. eauto 8.
  - intros ->. apply Z.bits_inj'. intros i Hi. rewrite Z.bits_0. apply not_true_iff_false. rewrite diffStates_bits by done.
    unfold link_moved, addrs_moved. intros [[-> [(n & cs & E & Hl)|(n & ps & E & En)]]|[-> (n & cs & E & Hl)]]; rewrite ?E in *; naive_solver.
Qed.

(** The snapshots that were taken. *)
Definition taken_snapshots (rounds : list (option (gmap string ifaceState))) : list (gmap string ifaceState) := omap id rounds.

Fixpoint diffs (prev : gmap string ifaceState) (snaps : list (gmap string ifaceState)) : list Change :=
  match snaps with [] => [] | cur :: snaps => diffStates prev cur :: diffs cur snaps end.

(** Polling reports what differs between each snapshot and the last one that
    was taken; rounds that fail report nothing and hide nothing; and when
    nothing is reported, nothing has moved since the first snapshot. *)
Theorem poll_reports prev rounds : poll (Some prev) rounds = filter (λ c, c ≠ 0) (diffs prev (taken_snapshots rounds)) ∧
  (poll (Some prev) rounds = [] ↔ Forall (λ cur, cur = prev) (taken_snapshots rounds)).
Proof.
  assert (poll (Some prev) rounds = filter (λ c, c ≠ 0) (diffs prev (taken_snapshots rounds))) as Hp.
  { revert prev. induction rounds as [|[cur|] rounds IH]; intros prev; [done| |exact (IH prev)]. cbn [poll taken_snapshots omap list_omap id diffs].
    rewrite filter_cons. fold (taken_snapshots rounds). destruct (Z.eqb_spec (diffStates prev cur) 0); [rewrite decide_False by auto|rewrite decide_True by done]; cbn [app]; by rewrite IH. }
  split; [done|]. rewrite Hp. clear Hp. generalize (taken_snapshots rounds) as snaps. intros snaps. revert prev. induction snaps as [|cur snaps IH]; intros prev; [done|].
  cbn [diffs]. rewrite filter_cons, Forall_cons. destruct (decide (diffStates prev cur ≠ 0)) as [Hd|Hd].
  - split; [done|]. intros [-> _]. exfalso. by apply Hd, diffStates_zero.
  - apply dec_stable in Hd. apply diffStates_zero in Hd as ->. rewrite IH. tauto.
Qed.

(** ** Concrete runs *)
Definition sample_labels : list label := [Raw 1 100 100; Raw 2 150 (200 * Millisecond); Fire (450 * Millisecond); Raw 1 (Second) (Second); Fire (2 * Second); Take].

Lemma bursts_reported_witness : ordered 0 sample_labels ∧
  ∃ s taken, run (withDefaults (mkConfig 0 0 0 false)) sample_labels start = Some (s, taken) ∧ taken = [mkEvent 3 (2 * Second) 3] ∧
  ∃ gs gp, concat gs ++ gp = raws sample_labels ∧ Forall2 reports (taken ++ in_channel s) gs ∧ pending s = union gp ∧ count s = len gp ∧
    match timer s with None => gp = [] | Some t => gp ≠ [] ∧ burst s <= last_raw sample_labels ∧
      due (withDefaults (mkConfig 0 0 0 false)) (burst s) (last_raw sample_labels) t end.
Proof.
  assert (ordered 0 sample_labels) as Ho by (cbn [ordered sample_labels]; unfold Second, Millisecond; lia). split; [exact Ho|].
  exists (mkLoop 0 0 Second None None false), [mkEvent 3 (2 * Second) 3]. split; [vm_compute; reflexivity|]. split; [reflexivity|].
  apply (bursts_reported (mkConfig 0 0 0 false)); [reflexivity|reflexivity|exact Ho|vm_compute; reflexivity].
Defined.

(** A link that flaps all the time is reported all the same. *)
Example flapping_reported :
  let cfg := withDefaults (mkConfig 0 0 0 false) in
  let flaps := (λ i, Raw ChangeLink (Z.of_nat i * 100 * Millisecond) (Z.of_nat i * 100 * Millisecond)) <$> seq 0 8 in
  (timer <$> (fst <$> run cfg flaps start)) = Some (Some (750 * Millisecond)).
Proof. vm_compute. reflexivity. Qed.

Example failed_round_hides_nothing :
  let up := (<["eth0"%string := mkIface 1 true []]> ∅ : gmap string ifaceState) in
  let down := (<["eth0"%string := mkIface 1 false []]> ∅ : gmap string ifaceState) in
  poll None [Some up; None; Some down; None; Some down] = [ChangeLink].
Proof. vm_compute. reflexivity. Qed.
