(* ===== verification/TrafficLogger.v ===== *)
(** * The traffic statistics server (extras/trafficlogger/http.go)

    The logger that the server calls for what its users send and receive, and
    the HTTP interface to it.  Every method holds the mutex, so a run is a
    sequence of operations.  What is written as JSON is the value itself; the
    table for humans is left out. *)
From S2P Require Import GoStd Prelude.
Import Strings.

Record trafficStatsEntry := mkEntry { Tx : Z; Rx : Z }.

(** Of a stream: what TraceStream is given, and what is read of it for a dump. *)
Record StreamStats := mkStreamStats {
  State : string; AuthID : string; ConnID : Z; StreamID : Z; ReqAddr : string; HookedReqAddr : string; st_Tx : Z; st_Rx : Z; InitialTime : Z; LastActiveTime : Z }.

Record dumpStreamEntry := mkDump {
  d_State : string; Auth : string; Connection : Z; Stream : Z; d_ReqAddr : string; d_HookedReqAddr : string; d_Tx : Z; d_Rx : Z; InitialAt : Z; LastActiveAt : Z }.

(** A stream is known by the pointer [nat]. *)
Record trafficStatsServer := mkServer {
  StatsMap : gmap string trafficStatsEntry;
  OnlineMap : gmap string Z;
  StreamMap : gmap nat StreamStats;
  KickMap : gset string;
  Secret : string;
}.

Definition NewTrafficStatsServer (secret : string) : trafficStatsServer := mkServer ∅ ∅ ∅ ∅ secret.

Definition LogTraffic (id : string) (tx rx : Z) (s : trafficStatsServer) : trafficStatsServer * bool :=
  if decide (id ∈ KickMap s) then (mkServer (StatsMap s) (OnlineMap s) (StreamMap s) (KickMap s ∖ {[id]}) (Secret s), false)
  else
    let e := default (mkEntry 0 0) (StatsMap s !! id) in
    (mkServer (<[id := mkEntry (u64 (Tx e + tx)) (u64 (Rx e + rx))]> (StatsMap s)) (OnlineMap s) (StreamMap s) (KickMap s) (Secret s), true).

Definition LogOnlineState (id : string) (online : bool) (s : trafficStatsServer) : trafficStatsServer :=
  let n := default 0 (OnlineMap s !! id) in
  let m := if online then <[id := n + 1]> (OnlineMap s)
           else if n - 1 <=? 0 then delete id (OnlineMap s) else <[id := n - 1]> (OnlineMap s) in
  mkServer (StatsMap s) m (StreamMap s) (KickMap s) (Secret s).

Definition TraceStream (stream : nat) (stats : StreamStats) (s : trafficStatsServer) : trafficStatsServer :=
  mkServer (StatsMap s) (OnlineMap s) (<[stream := stats]> (StreamMap s)) (KickMap s) (Secret s).

Definition UntraceStream (stream : nat) (s : trafficStatsServer) : trafficStatsServer :=
  mkServer (StatsMap s) (OnlineMap s) (delete stream (StreamMap s)) (KickMap s) (Secret s).

(** ** HTTP *)

(** A request: its method, path and Authorization header, the text of [clear]
    in its query, and the names in its body, when it decodes. *)
Record Request := mkRequest { Method : string; Path : string; Authorization : string; clear : string; body : option (list string) }.

Inductive Response :=
| Unauthorized | Index | NotFound | BadRequest | Kicked
| Traffic (m : gmap string trafficStatsEntry)
| Online (m : gmap string Z)
| Streams (l : list dumpStreamEntry).

Definition fromStreamStats (s : StreamStats) : dumpStreamEntry :=
  mkDump (State s) (AuthID s) (ConnID s) (StreamID s) (ReqAddr s) (HookedReqAddr s) (st_Tx s) (st_Rx s) (InitialTime s) (LastActiveTime s).

(** The order of the dump: user, connection, stream. *)
Definition dump_before (a b : dumpStreamEntry) : bool :=
  match String.compare (Auth a) (Auth b) with
  | Lt => true
  | Gt => false
  | Eq => if Connection a =? Connection b then Stream a <=? Stream b else Connection a <? Connection b
  end.

(** [slices.SortFunc]: some permutation in this order. *)
Class SortDump := {
  sort_dump : list dumpStreamEntry → list dumpStreamEntry;
  sort_dump_perm l : sort_dump l ≡ₚ l;
  sort_dump_sorted l : StronglySorted dump_before (sort_dump l);
}.

Section HTTP.
Context `{SortDump}.

Definition getTraffic (r : Request) (s : trafficStatsServer) : trafficStatsServer * Response :=
  let '(bClear, _) := Strconv.ParseBool (clear r) in
  (if bClear then mkServer ∅ (OnlineMap s) (StreamMap s) (KickMap s) (Secret s) else s, Traffic (StatsMap s)).

Definition getOnline (s : trafficStatsServer) : Response := Online (OnlineMap s).

Definition getDumpStreams (s : trafficStatsServer) : Response :=
  Streams (sort_dump ((λ p, fromStreamStats p.2) <$> map_to_list (StreamMap s))).

Definition kick (r : Request) (s : trafficStatsServer) : trafficStatsServer * Response :=
  match body r with
  | None => (s, BadRequest)
  | Some ids => (mkServer (StatsMap s) (OnlineMap s) (StreamMap s) (foldl (λ m id, m ∪ {[id]}) (KickMap s) ids) (Secret s), Kicked)
  end.

Definition ServeHTTP (r : Request) (s : trafficStatsServer) : trafficStatsServer * Response :=
  let asks m p := bool_decide (Method r = m) && bool_decide (Path r = p) in
  if negb (bool_decide (Secret s = EmptyString)) && negb (bool_decide (Authorization r = Secret s)) then (s, Unauthorized)
  else if asks "GET" "/" then (s, Index)
  else if asks "GET" "/traffic" then getTraffic r s
  else if asks "POST" "/kick" then kick r s
  else if asks "GET" "/online" then (s, getOnline s)
  else if asks "GET" "/dump/streams" then (s, getDumpStreams s)
  else (s, NotFound).

(** ** Runs *)
Inductive op :=
| Log (id : string) (tx rx : Z)
| SetOnline (id : string) (online : bool)
| Trace (stream : nat) (stats : StreamStats)
| Untrace (stream : nat)
| Serve (r : Request).

(** What an operation answers. *)
Inductive answer := Allowed (ok : bool) | Done | Replied (r : Response).

Definition apply_op (s : trafficStatsServer) (o : op) : trafficStatsServer * answer :=
  match o with
  | Log id tx rx => let '(s, ok) := LogTraffic id tx rx s in (s, Allowed ok)
  | SetOnline id online => (LogOnlineState id online s, Done)
  | Trace p stats => (TraceStream p stats s, Done)
  | Untrace p => (UntraceStream p s, Done)
  | Serve r => let '(s, resp) := ServeHTTP r s in (s, Replied resp)
  end.
End HTTP.

(** ** What the history of a run says *)
Abbreviation history := (list (op * answer)).

Definition accepted_tx (id : string) (h : op * answer) : Z :=
  match h with (Log id' tx _, Allowed true) => if decide (id' = id) then tx else 0 | _ => 0 end.
Definition accepted_rx (id : string) (h : op * answer) : Z :=
  match h with (Log id' _ rx, Allowed true) => if decide (id' = id) then rx else 0 | _ => 0 end.

(** What a request that clears the counters was told. *)
Definition cleared (f : trafficStatsEntry → Z) (id : string) (h : op * answer) : Z :=
  match h with
  | (Serve r, Replied (Traffic m)) => if (Strconv.ParseBool (clear r)).1 then f (default (mkEntry 0 0) (m !! id)) else 0
  | _ => 0
  end.

(** Whether a user was kicked and has not been refused since. *)
Definition kick_turn (id : string) (kicked : bool) (h : op * answer) : bool :=
  match h with
  | (Serve r, Replied Kicked) => kicked || bool_decide (id ∈ default [] (body r))
  | (Log id' _ _, Allowed false) => if decide (id' = id) then false else kicked
  | _ => kicked
  end.
Definition is_kicked (id : string) (h : history) : bool := foldl (kick_turn id) false h.

(** How often a user has come less how often he has gone after that. *)
Definition online_turn (id : string) (n : Z) (h : op * answer) : Z :=
  match h with (SetOnline id' on, _) => if decide (id' = id) then (if on then n + 1 else Z.max 0 (n - 1)) else n | _ => n end.
Definition online_count (id : string) (h : history) : Z := foldl (online_turn id) 0 h.

Definition stream_turn (p : nat) (v : option StreamStats) (h : op * answer) : option StreamStats :=
  match h with
  | (Trace q stats, _) => if decide (q = p) then Some stats else v
  | (Untrace q, _) => if decide (q = p) then None else v
  | _ => v
  end.
Definition traced (p : nat) (h : history) : option StreamStats := foldl (stream_turn p) None h.

Section History.
Context `{SortDump}.

Record told (secret : string) (h : history) (s : trafficStatsServer) : Prop := mkTold {
  told_secret : Secret s = secret;
  told_tx id : u64 (sumZ (cleared Tx id) h + Tx (default (mkEntry 0 0) (StatsMap s !! id))) = u64 (sumZ (accepted_tx id) h);
  told_rx id : u64 (sumZ (cleared Rx id) h + Rx (default (mkEntry 0 0) (StatsMap s !! id))) = u64 (sumZ (accepted_rx id) h);
  told_kick id : id ∈ KickMap s ↔ is_kicked id h = true;
  told_online id : OnlineMap s !! id = (let n := online_count id h in if 0 <? n then Some n else None);
  told_stream p : StreamMap s !! p = traced p h }.

Lemma sumZ_snoc {A} (f : A → Z) l x : sumZ f (l ++ [x]) = sumZ f l + f x.
Proof. induction l as [|y l IH]; cbn [app]; rewrite ?sumZ_cons; [cbn; lia|]. rewrite IH. lia. Qed.

Lemma u64_add_l a b : u64 (u64 a + b) = u64 (a + b).
Proof. unfold wrapU. by rewrite Z.add_mod_idemp_l. Qed.

(** Adding to a counter of 64 bits. *)
Lemma counter_add c v acc x : u64 (c + v) = u64 acc → u64 (c + 0 + u64 (v + x)) = u64 (acc + x).
Proof.
  intros Hc. rewrite Z.add_0_r, (Z.add_comm c), u64_add_l. replace (v + x + c) with (c + v + x) by lia. by rewrite <-(u64_add_l (c + v)), Hc, u64_add_l.
Qed.

Lemma kick_all (ids : list string) (m : gset string) id : id ∈ foldl (λ m id, m ∪ {[id]}) m ids ↔ id ∈ m ∨ id ∈ ids.
Proof.
  revert m. induction ids as [|x ids IH]; intros m; cbn [foldl]; [rewrite elem_of_nil; tauto|]. rewrite IH, elem_of_union, elem_of_singleton, elem_of_cons. tauto.
Qed.

Lemma told_same secret h s o a : told secret h s → (∀ id, accepted_tx id (o, a) = 0 ∧ accepted_rx id (o, a) = 0 ∧ cleared Tx id (o, a) = 0 ∧ cleared Rx id (o, a) = 0) →
  (∀ id k, kick_turn id k (o, a) = k) → (∀ id n, online_turn id n (o, a) = n) → (∀ p v, stream_turn p v (o, a) = v) → told secret (h ++ [(o, a)]) s.
Proof.
  intros [Hs Ht Hr Hk Ho Hm] Hz Hkk Hoo Hmm. split; [done|intros x..].
  - destruct (Hz x) as (E1 & _ & E3 & _). by rewrite !sumZ_snoc, E1, E3, !Z.add_0_r, Ht.
  - destruct (Hz x) as (_ & E1 & _ & E3). by rewrite !sumZ_snoc, E1, E3, !Z.add_0_r, Hr.
  - unfold is_kicked. rewrite foldl_snoc, Hkk. apply Hk.
  - unfold online_count. rewrite foldl_snoc, Hoo. apply Ho.
  - unfold traced. rewrite foldl_snoc, Hmm. apply Hm.
Qed.

Lemma told_step secret h s o : told secret h s → told secret (h ++ [(o, (apply_op s o).2)]) (apply_op s o).1.
Proof.
  intros Ht. pose proof Ht as [Hs Htx Hrx Hk Ho Hm]. destruct o as [id tx rx|id on|p stats|p|r]; cbn [apply_op].
  - unfold LogTraffic. destruct (decide (id ∈ KickMap s)) as [Hin|Hin]; cbn [fst snd].
    + split; [done|intros x; cbn [StatsMap KickMap OnlineMap StreamMap]..].
      * rewrite !sumZ_snoc. cbn [accepted_tx cleared]. by rewrite !Z.add_0_r, Htx.
      * rewrite !sumZ_snoc. cbn [accepted_rx cleared]. by rewrite !Z.add_0_r, Hrx.
      * unfold is_kicked. rewrite foldl_snoc. cbn [kick_turn]. fold (is_kicked x h). rewrite elem_of_difference, elem_of_singleton, Hk. case_decide; [subst; naive_solver|naive_solver].
      * unfold online_count. rewrite foldl_snoc. apply Ho.
      * unfold traced. rewrite foldl_snoc. apply Hm.
    + split; [done|intros x; cbn [StatsMap KickMap OnlineMap StreamMap]..].
      * rewrite !sumZ_snoc. cbn [accepted_tx cleared]. case_decide as E; [subst; rewrite lookup_insert_eq; cbn; by apply counter_add|rewrite lookup_insert_ne by done; by rewrite !Z.add_0_r, Htx].
      * rewrite !sumZ_snoc. cbn [accepted_rx cleared]. case_decide as E; [subst; rewrite lookup_insert_eq; cbn; by apply counter_add|rewrite lookup_insert_ne by done; by rewrite !Z.add_0_r, Hrx].
      * unfold is_kicked. rewrite foldl_snoc. cbn [kick_turn]. apply Hk.
      * unfold online_count. rewrite foldl_snoc. apply Ho.
      * unfold traced. rewrite foldl_snoc. apply Hm.
  - assert (0 <= online_count id h) as Hpos.
    { unfold online_count. clear. induction h as [|x h IH] using rev_ind; [done|]. rewrite foldl_snoc. destruct x as [[] a]; cbn [online_turn]; [done| |done..]. repeat case_match; lia. }
    split; [done|intros x; cbn [StatsMap KickMap OnlineMap StreamMap fst snd LogOnlineState]..]; [rewrite !sumZ_snoc; cbn; by rewrite !Z.add_0_r, ?Htx, ?Hrx..|unfold is_kicked; rewrite foldl_snoc; apply Hk| |unfold traced; rewrite foldl_snoc; apply Hm].
    unfold online_count. rewrite foldl_snoc. cbn [online_turn]. fold (online_count x h).
    assert (default 0 (OnlineMap s !! id) = online_count id h) as -> by (rewrite Ho; cbv zeta; case_match; cbn; lia).
    case_decide as E; [subst x|]; destruct on; cbv zeta; [rewrite lookup_insert_eq| |rewrite lookup_insert_ne by done; apply Ho|].
    + by rewrite (proj2 (Z.ltb_lt 0 _)) by lia.
    + destruct (Z.leb_spec (online_count id h - 1) 0); [rewrite lookup_delete_eq|rewrite lookup_insert_eq]; case_match; first [done|lia|f_equal; lia].
    + destruct (_ <=? 0); [rewrite lookup_delete_ne by done|rewrite lookup_insert_ne by done]; apply Ho.
  - split; [done|intros x; cbn [StatsMap KickMap OnlineMap StreamMap fst snd TraceStream]..]; [rewrite !sumZ_snoc; cbn; by rewrite !Z.add_0_r, ?Htx, ?Hrx..|unfold is_kicked; rewrite foldl_snoc; apply Hk|unfold online_count; rewrite foldl_snoc; apply Ho|].
    unfold traced. rewrite foldl_snoc. cbn [stream_turn]. case_decide; [subst; by rewrite lookup_insert_eq|rewrite lookup_insert_ne by done; apply Hm].
  - split; [done|intros x; cbn [StatsMap KickMap OnlineMap StreamMap fst snd UntraceStream]..]; [rewrite !sumZ_snoc; cbn; by rewrite !Z.add_0_r, ?Htx, ?Hrx..|unfold is_kicked; rewrite foldl_snoc; apply Hk|unfold online_count; rewrite foldl_snoc; apply Ho|].
    unfold traced. rewrite foldl_snoc. cbn [stream_turn]. case_decide; [subst; by rewrite lookup_delete_eq|rewrite lookup_delete_ne by done; apply Hm].
  - unfold ServeHTTP. repeat match goal with |- context [if ?b then _ else _] => lazymatch b with context [bool_decide] => destruct b end end; cbn [fst snd];
      try (apply told_same; [done|by intros..]).
    + unfold getTraffic. destruct (Strconv.ParseBool (clear r)) as [[] e] eqn:E; cbn [fst snd].
      * split; [done|intros x; cbn [StatsMap KickMap OnlineMap StreamMap]..].
        -- rewrite !sumZ_snoc. cbn [accepted_tx cleared]. rewrite E, lookup_empty. cbn. by rewrite !Z.add_0_r, Htx.
        -- rewrite !sumZ_snoc. cbn [accepted_rx cleared]. rewrite E, lookup_empty. cbn. by rewrite !Z.add_0_r, Hrx.
        -- unfold is_kicked. rewrite foldl_snoc. apply Hk.
        -- unfold online_count. rewrite foldl_snoc. apply Ho.
        -- unfold traced. rewrite foldl_snoc. apply Hm.
      * apply told_same; [done| |by intros..]. intros id. cbn [accepted_tx accepted_rx cleared]. by rewrite E.
    + unfold kick. destruct (body r) as [ids|] eqn:E; cbn [fst snd]; [|apply told_same; [done|by intros..]].
      split; [done|intros x; cbn [StatsMap KickMap OnlineMap StreamMap]..]; [rewrite !sumZ_snoc; cbn; by rewrite !Z.add_0_r, ?Htx, ?Hrx..| |unfold online_count; rewrite foldl_snoc; apply Ho|unfold traced; rewrite foldl_snoc; apply Hm].
      unfold is_kicked. rewrite foldl_snoc. cbn [kick_turn]. rewrite E, kick_all, orb_true_iff, bool_decide_eq_true, Hk. done.
Qed.
Lemma told_run secret h s ops : told secret h s → told secret (h ++ zip ops (run apply_op s ops).2) (run apply_op s ops).1.
Proof.
  revert h s. induction ops as [|o ops IH]; intros h s Ht; [by rewrite app_nil_r|]. cbn [run]. pose proof (told_step _ _ _ o Ht) as H1.
  destruct (apply_op s o) as [s1 a]. cbn [fst snd] in H1. specialize (IH _ _ H1). destruct (run apply_op s1 ops) as [s2 as_]. cbn [zip zip_with fst snd] in *.
  by rewrite <-app_assoc in IH.
Qed.

Lemma told_start secret : told secret [] (NewTrafficStatsServer secret).
Proof. split; [done|intros x; cbn..]; [done|done|rewrite elem_of_empty; done|done|done]. Qed.

(** The operation at a position, with the state it finds. *)
Lemma told_at secret ops i o : ops !! i = Some o →
  let '(_, answers) := run apply_op (NewTrafficStatsServer secret) ops in
  ∃ s, told secret (take i (zip ops answers)) s ∧ answers !! i = Some (apply_op s o).2.
Proof.
  intros Hi. rewrite <-(take_drop_middle ops i o Hi). rewrite run_app. pose proof (told_run secret [] _ (take i ops) (told_start secret)) as Ht.
  pose proof (length_run apply_op (NewTrafficStatsServer secret) (take i ops)) as Hl. apply lookup_lt_Some in Hi.
  destruct (run apply_op _ (take i ops)) as [s as1]. cbn [run fst snd app] in *. destruct (apply_op s o) as [s1 a] eqn:E.
  destruct (run apply_op s1 (drop (S i) ops)) as [s2 as2]. exists s. rewrite length_take in Hl.
  rewrite zip_with_app by (rewrite length_take; lia). rewrite take_app_le, take_ge by (rewrite length_zip_with, length_take; lia). split; [done|].
  rewrite lookup_app_r by lia. replace (i - length as1)%nat with 0%nat by lia. by rewrite E.
Qed.

(** C27: whatever the users do and whoever asks, for every user: what was
    reported when the counters were cleared, and what they have now, is all
    the traffic that was let pass, in 64 bits; a user is refused exactly when
    he was kicked and has not been refused since, so that a kick costs him one
    refusal; the user is online as often as he has come and not gone; the
    streams are those that are traced, each once; and a request without
    the secret is told nothing and changes nothing. *)
Theorem traffic_accounted secret ops :
  let '(s, answers) := run apply_op (NewTrafficStatsServer secret) ops in let h := zip ops answers in
  (∀ id, u64 (sumZ (cleared Tx id) h + Tx (default (mkEntry 0 0) (StatsMap s !! id))) = u64 (sumZ (accepted_tx id) h) ∧
         u64 (sumZ (cleared Rx id) h + Rx (default (mkEntry 0 0) (StatsMap s !! id))) = u64 (sumZ (accepted_rx id) h) ∧
         OnlineMap s !! id = (let n := online_count id h in if 0 <? n then Some n else None)) ∧
  (∀ p, StreamMap s !! p = traced p h) ∧
  (∃ l, getDumpStreams s = Streams l ∧ StronglySorted dump_before l ∧ l ≡ₚ (fromStreamStats ∘ snd) <$> map_to_list (StreamMap s)) ∧
  (∀ i id tx rx, ops !! i = Some (Log id tx rx) → answers !! i = Some (Allowed (negb (is_kicked id (take i h))))) ∧
  (∀ i r, ops !! i = Some (Serve r) → secret ≠ EmptyString → Authorization r ≠ secret → answers !! i = Some (Replied Unauthorized)).
Proof.
  pose proof (told_run secret [] _ ops (told_start secret)) as Ht. pose proof (told_at secret ops) as Hat.
  destruct (run apply_op _ ops) as [s answers]. cbn [fst snd app] in Ht. destruct Ht as [Hs Htx Hrx Hk Ho Hm].
  split; [intros id; by rewrite Htx, Hrx, Ho|]. split; [done|]. split; [|split].
  - eexists. split; [done|]. split; [apply sort_dump_sorted|]. apply sort_dump_perm.
  - intros i id tx rx Hi. destruct (Hat i _ Hi) as (s' & [_ _ _ Hk' _ _] & ->). cbn [apply_op]. unfold LogTraffic. specialize (Hk' id).
    case_decide as Hin; cbn [snd]; [by rewrite (proj1 Hk' Hin)|]. destruct (is_kicked _ _); [by destruct Hin; apply Hk'|done].
  - intros i r Hi Hne Ha. destruct (Hat i _ Hi) as (s' & [Hs' _ _ _ _ _] & ->). cbn [apply_op]. unfold ServeHTTP. rewrite Hs'.
    by rewrite (bool_decide_eq_false_2 _ Hne), (bool_decide_eq_false_2 _ Ha).
Qed.
End History.

(** ** Concrete runs *)
Lemma dump_before_spec a b : dump_before a b = true ↔
  String.ltb (Auth a) (Auth b) = true ∨ Auth a = Auth b ∧ (Connection a < Connection b ∨ Connection a = Connection b ∧ Stream a <= Stream b).
Proof.
  unfold dump_before. destruct (ltb_total (Auth a) (Auth b)) as [Hl|[He|Hg]].
  - pose proof Hl as Hc. unfold String.ltb in Hc. destruct (String.compare _ _); [done|tauto|done].
  - pose proof (ltb_irrefl (Auth b)) as Hi. rewrite He. assert (String.compare (Auth b) (Auth b) = Eq) as -> by (pose proof (String.compare_antisym (Auth b) (Auth b)) as Ha; destruct (String.compare (Auth b) (Auth b)); done).
    rewrite Hi. destruct (Z.eqb_spec (Connection a) (Connection b)); [rewrite Z.leb_le|rewrite Z.ltb_lt]; intuition (congruence || lia).
  - pose proof Hg as Hc. unfold String.ltb in Hc. rewrite String.compare_antisym in Hc. destruct (String.compare (Auth a) (Auth b)) eqn:E; [done..|].
    assert (String.ltb (Auth a) (Auth b) = false) as Hn by (unfold String.ltb; by rewrite E). split; [done|]. intros [?|[He _]]; [congruence|].
    rewrite He in Hg. by rewrite ltb_irrefl in Hg.
Qed.

#[export] Instance dump_before_dec : RelDecision dump_before.
Proof. intros a b. apply _. Defined.

Program Definition merge_dump : SortDump := {| sort_dump := merge_sort dump_before |}.
Next Obligation. apply merge_sort_Permutation. Qed.
Next Obligation.
  intros l. apply StronglySorted_merge_sort.
  - intros a b c H1 H2. apply Is_true_true in H1, H2. apply Is_true_true. rewrite dump_before_spec in *. destruct H1 as [H1|[E1 H1]], H2 as [H2|[E2 H2]];
      [left; by eapply ltb_trans|left; by rewrite <-E2|left; by rewrite E1|right; split; [congruence|lia]].
  - intros a b. rewrite !Is_true_true, !dump_before_spec. destruct (ltb_total (Auth a) (Auth b)) as [?|[?|?]]; [tauto| |tauto].
    assert (Connection a < Connection b ∨ Connection a = Connection b ∧ Stream a <= Stream b ∨ Connection b < Connection a ∨ Connection b = Connection a ∧ Stream b <= Stream a) by lia.
    intuition.
Qed.

Definition sample_get (path clear : string) : Request := mkRequest "GET" path "secret" clear None.

(** A user with two connections who is kicked loses the one that sends next;
    counters that are cleared go on from zero. *)
Example kicked_once :
  (run (@apply_op merge_dump) (NewTrafficStatsServer "secret")
    [SetOnline "u" true; SetOnline "u" true; Log "u" 10 20; Serve (mkRequest "POST" "/kick" "secret" "" (Some ["u"%string])); Log "u" 1 1; SetOnline "u" false;
     Log "u" 5 5; Serve (sample_get "/traffic" "true"); Serve (sample_get "/online" ""); Log "u" 7 0; Serve (sample_get "/traffic" "")]).2 =
    [Done; Done; Allowed true; Replied Kicked; Allowed false; Done; Allowed true; Replied (Traffic {["u"%string := mkEntry 15 25]});
     Replied (Online {["u"%string := 1]}); Allowed true; Replied (Traffic {["u"%string := mkEntry 7 0]})].
Proof. vm_compute. reflexivity. Qed.
